(* ===== verification/_CoqProject ===== *)
-Q . S2P
Prelude.v
BTree.v
StorageCapacity.v
Framing.v
Strings.v
Text.v
Values.v
Machines.v
Issuance.v
Decimal.v
Volumes.v
ServiceGraph.v
Spec.v
Services.v
Deploy.v
Eligibility.v
Placement.v
Reconcile.v
VolumePlan.v
Planner.v
Preview.v
Ledger.v
Safety.v
Replicas.v
Process.v
Execution.v
Health.v
Executor.v
ExecutorTraces.v
ExecutorSafety.v
ExecutorOutcome.v
ExecutorHalts.v
Engine.v
RuntimeOutcome.v
Evidence.v
Config.v
ConfigValidation.v
ConfigSpec.v
ConfigJson.v
SyncRows.v
SyncPut.v
SyncPlan.v
SyncLens.v
SyncLaws.v
SyncLand.v
SyncVerdicts.v
SyncApply.v
SyncSample.v
SyncSpec.v
SyncUndo.v
BranchPlan.v
Variables.v
VariableTemplate.v
Compile.v
LiveValues.v
EnvFile.v
Quantities.v
Lowering.v
Changes.v
Restore.v
Review.v
Discard.v
ContextIgnore.v
DeploymentStore.v
Lifecycle.v
LifecycleSpec.v
LifecycleRefines.v
Teardown.v
SampleStore.v
TeardownSafety.v
Deployments.v
Recorded.v
