(* ===== verification/Prelude.v ===== *)
(** * Ployz: a verification development of the Deploy engine

    Ployz runs Services as Docker Containers on a Cluster of Machines.  There is
    no central scheduler: the machine an operator talks to observes the others,
    plans a Deploy from that evidence and drives the Machines through it.  Above
    the engine, a Config Store keeps what is authored for each Environment, admits
    Deployments of it, hands them to runners and records what they report.

    The part of the program that decides anything is Rust under
    [src/core/crates/ployz-core] (shared data, wire forms and decisions),
    [src/core/crates/ployz/src/deploy] (planner and executor) and
    [src/core/crates/ployz-store] (the Config Store).  This development models that
    part and proves what it promises.

    ** The parts of the program, and where they are modelled

    Shared ground
    - [Prelude]: results, panics ([Fault]), checked and saturating machine
      arithmetic, loops with early return ([try_fold]), stable sorting, the
      hint database [ployz].
    - [BTree]: [BTreeMap] and [BTreeSet] as sorted association lists.  Iteration
      order is observable in the planner's output, so it is kept; the class
      [OrdLaws] is what a key order promises.
    - [Strings], [Text], [Decimal]: the slices of [str] the sources use, UTF-8
      characters, decimal text.

    The domain ([ployz-core/src])
    - [StorageCapacity] (storage_capacity.rs): admission of provisioned Volumes.
    - [Framing] (framing.rs): gRPC frames and the fan-out envelope.
    - [Values] (value.rs): the validated text types.
    - [Machines] (domain/machine.rs, domain/placement.rs, domain/mod.rs):
      Machine records, metadata edits, name and selector resolution, Swarm
      placement constraints.
    - [Issuance] (domain/issuance.rs, hostname_verdict.rs,
      certificate_policy.rs): when the certificate authority may be contacted.
    - [Volumes], [ServiceGraph] (domain/volume.rs, domain/service_graph.rs):
      Volume sources, ownership, matching, and the admitted mount graphs.
    - [Spec] (domain/spec.rs, spec/serving_shape.rs, spec/comparison.rs):
      requested and resolved specs, content identity, the action of a change.
    - [Services] (domain/observation.rs, service.rs, service/serving.rs,
      service/eligibility.rs, domain/hostname.rs, domain/ingress.rs,
      domain/selector.rs): observed Containers and what is derived from them.

    The planner ([ployz/src/deploy])
    - [Deploy] (domain/deploy.rs, deploy.rs, parts of planning.rs): Intents,
      Snapshots, operations, refusals, dependency order, pruning, hostnames, the
      seeded shuffle.
    - [Eligibility] (planning.rs): which Machines may host a Service.
    - [Placement] (planning/capacity.rs, planning/placement.rs): bridge
      endpoints, host sockets, replicated and global Services.
    - [VolumePlan] (planning/storage.rs, planning/volumes.rs): the ledger of
      Volume assignments, locality, shared components, budgets.
    - [Planner] (planning.rs): one Service, then the whole Deploy.
    - [Preview] (planning.rs, progress.rs, domain/data_loss.rs): sealed plans,
      pending rows, Namespace removal, Data Loss.
    - [Reconcile], [Ledger], [Safety], [Replicas]: what executing the operations
      leads to.  They define an abstract execution ([execute_sockets], [starts_at],
      [survivors], [ended_of]) and show that the planner's bookkeeping refines it.

    The executor ([ployz/src/deploy/exec])
    - [Process]: asynchronous code as a tree of what it asks next for every
      answer, with its traces ([emits]), its total reading ([halts]) and an
      interpreter against any environment ([run]).
    - [Execution], [Health], [Executor] (exec/mod.rs, exec/health.rs,
      progress.rs, outcomes of domain/deploy.rs): each operation, waiting for
      health, tolerance of a daemon restart, compensation, the sequence, and the
      progress rows and events.
    - [ExecutorTraces], [ExecutorSafety], [ExecutorOutcome], [ExecutorHalts]:
      the calls an execution may make, what they keep safe, what is reported, and
      that it ends.  [Engine] composes planner and executor (deploy.rs).

    Configuration and evidence ([ployz-core/src/config])
    - [RuntimeOutcome] (runtime_outcome.rs): the redacted preview and the
      projection of an execution's evidence to Services; [Evidence] shows that
      planner, executor and projection fit.
    - [Config], [ConfigValidation] (service.rs, environment.rs, validation.rs):
      authored documents, their order and redaction, and their admission;
      [ConfigSpec] says what admitted documents satisfy.  [ConfigJson] is the
      JSON serde writes for them.
    - [SyncRows], [SyncPut], [SyncPlan] (sync/row.rs, put.rs, plan.rs and the
      cells of service_changes.rs): the rows of an Environment, the writer of one
      row, and the plan that compares a sender with a receiver, lands picks and
      puts them back.  [SyncLens] and [SyncLaws] are the laws of the projection
      and the writer, [SyncLand], [SyncVerdicts] and [SyncApply] follow a landing,
      [SyncSpec] and [SyncUndo] hold the theorems, [SyncSample] decoders with the
      laws asked of serde and two Environments to sync.
    - [BranchPlan] (branch_plan.rs): which nodes of a Parent a Branch copies, uses
      live or leaves out.  [Variables] (variables.rs): references followed to text.
      [VariableTemplate] (variables.rs, ployz-store/src/variables.rs): templates as
      text, and back.  [EnvFile] (env_file.rs): [.env] text.
    - [Compile] (environment_compile.rs, [resolve] of ployz-store/src/variables.rs):
      a document to node snapshots and producers, and to the environment of each
      Service.  [LiveValues] (live_values.rs): the values a Branch reads from the
      owner of its live nodes.
    - [Quantities], [Lowering] (domain/resources.rs, lowering.rs): captured settings
      to the Deploy Intent the planner takes.
    - [Changes] (service_changes.rs, resource_changes.rs, change_set.rs,
      change_set_types.rs): what differs from a baseline, setting by setting, and the
      change set of an Environment; [Review] says what it lists.  [Restore]
      ([restore_service_setting]) takes one change of a Service back, [Discard]
      (environment_restore.rs) a setting or a node of a document.

    The client ([ployz/src/build])
    - [ContextIgnore] (ignore.rs): Docker's ignore rules, and the walk of a build
      context that skips what no exception can reach.

    The Config Store ([ployz-store/src])
    - [DeploymentStore], [Lifecycle] (deployment/mod.rs, history.rs,
      lifecycle.rs, admit.rs, build.rs): the tables and every operation on
      Deployments, each one transaction.
    - [Teardown] (teardown.rs): taking Environments and Projects off.
    - [LifecycleSpec] is the Deployment state machine, [LifecycleRefines] the
      refinement of each operation to it; [Deployments], [Recorded] and
      [TeardownSafety] hold the theorems, [SampleStore] a concrete Store.

    An operation of the code is one definition here, with its guards and early
    returns; a loop with [?] is [try_fold], and a mutable argument is an argument
    and a result.  A call that may panic returns [option] or fails with
    [Panics], so a theorem that something succeeds also says it does not panic.

    ** What the theorems show

    - A plan is confined ([Safety.plan_touches_only]): it ends only Containers
      of applied Services, or of undeclared ones when pruning is allowed, and
      never a Docker Volume.  It is executable ([Safety.plan_sockets_safe]): no
      two Containers ever hold one host socket.  It prepares storage before
      using it, within each Machine's capacity
      ([Safety.plan_prepares_storage]).
    - It reconciles ([Replicas.plan_replicated_reconciles],
      [Reconcile.plan_global_reconciles]): a whole plan leaves exactly the replicas
      of a Service, reserved with a shared Volume or not, and planning a global
      one leaves one Container per eligible Machine and no stale one.
    - Its ingredients are exact: the apply-set is the least closed selection and
      is ordered dependencies first, or there is a cycle
      ([Deploy.applied_names_least], [Deploy.order_included_topological]);
      candidates are a shuffle of the eligible Machines
      ([Eligibility.eligible_machines_exact]); Services that share Volumes form
      disjoint connected components ([Ledger.shared_components_partition]); two
      publications conflict when they share a socket
      ([Placement.host_ports_conflict_exact]); hostname and evidence admission
      ([Deploy.hostname_conflicts_exact], [Deploy.volume_snapshot_consistent]).
    - Executing a plan is confined to what its operations name
      ([ExecutorOutcome.execution_confined]), so a whole Deploy is
      ([Engine.deploy_touches_only]).  A replacement never leaves a Service
      without a serving Container by its own doing, and restores the old one
      when the new one fails ([ExecutorSafety]).  What is reported is what
      happened ([ExecutorOutcome.execution_outcome], [execution_evidence]), and
      an execution ends with an outcome ([ExecutorHalts.execution_terminates]).
    - What is recorded of it is admitted, and accounts for each Service exactly
      ([Evidence.deploy_evidence_admitted], [RuntimeOutcome.projection_exact]); a
      recorded preview shows no environment value of a Container
      ([RuntimeOutcome.redacted_preview_private]).
    - Admitted configuration is well formed, is its own normal form, and has one
      canonical form per document ([ConfigSpec]).
    - Variables mean what is resolved: a template is expanded along its references,
      or there is a cycle ([Variables.resolve_variables_exact]); the environment of
      each Service of a document is the meaning of its variables
      ([Compile.environment_resolves]), without the sealing key no secret shows in
      it ([resolve_without_key_private]), and a Branch kept apart from an owner reads
      its live values as the owner does, private addresses under the owner's Namespace
      ([LiveValues.live_values_read_as_owner]).  The text a value is shown
      as reads back ([VariableTemplate.shown_text_reads_back]), [.env] entries read
      back as written and bad lines are refused without their text ([EnvFile]).
    - A lowered Deploy is exact ([Lowering.lowered_specs_exact]): what each Service
      is captured as, with limits that are the authored ones
      ([Quantities.admitted_limits_convert]).  It waits for exactly the references
      that lie on no cycle ([lowered_dependencies_exact]), so the planner always
      finds an order for it ([lowered_deploy_orders]).
    - A Branch plan is exact and closed: an own copy has what it uses as an own copy
      or live ([BranchPlan.plan_branch_exact], [branch_plan_closed]).
    - A review lists exactly what changed since the Head and nothing sealed
      ([Review.change_set_exact], [Changes.review_shows_no_secret]).  What it says can
      be restored is taken back alone ([Restore.restoring_takes_one_back],
      [Discard.discarding_setting_exact]), and a discarded node is the baseline's,
      with the mounts that go with it ([Discard.discarding_node_exact]).
    - What leaves the host of a build context is what the last matching rule leaves
      in ([ContextIgnore.context_selection_exact]); distinct names stay distinct
      ([decoded_names_distinct]) and patterns are cleaned once ([clean_stable]).
    - A Sync lands exactly the picked rows ([SyncSpec.apply_exact]), carries no
      secret's value, takes nothing away and leaves what is the receiver's own, but
      for a git branch, which follows its source
      ([sync_carries_no_secret], [sync_keeps_receiver]); its plan lists every
      difference of a shared node ([plan_lists_differences]), what is said to land
      lands ([landable_lands]), and undoing a landing restores every row
      ([SyncUndo.unapply_restores]).  Rows and their texts are in bijection
      ([SyncRows.row_text_roundtrip]).
    - Every operation on Deployments refines the state machine; over any sequence
      of them an Environment has at most one waiting and one claimed Deployment,
      frozen parts stay frozen and ended Deployments never change
      ([Deployments]).  Reports may be repeated, a waiting Deployment can be
      cancelled, and claimed and ended unless what a claim hands over cannot be
      read, a retry ships what its source froze, and Applied State
      takes exactly the nodes that advanced ([Recorded]).  An Environment is
      deleted only when nothing of it may run, and the teardown order of a Project
      never gets stuck ([TeardownSafety]).
    - Removing a Namespace always plans and destroys exactly what it owns
      ([Preview.namespace_removal_exact]), and Data Loss is confirmed exactly
      ([Preview.confirm_names_exact]).
    - The domain: storage admission keeps the host reserve and is stable
      ([StorageCapacity]); frames round-trip ([Framing]); the authority is never
      contacted faster than the base backoff, however verdicts flip
      ([Issuance]); text forms are canonical or injective ([Values], [Machines],
      [Volumes]); graph admission is exact ([ServiceGraph]); the serving shape
      and the comparison are exact ([Spec]); Services partition observations,
      hostnames go to the oldest claimant, redaction hides every value
      ([Services]).

    ** Bounds and fuel

    Byte counts, times and seeds are [N] or [Z] with the overflow of their width
    written out.  [Deploy.applied_loop] runs on the number of dependency entries
    plus the selection, [Deploy.visit] on the number of applied names,
    [VolumePlan.grow_component] and [components_loop] on the Volumes left, the
    frame splitter on the input's length, and [Lifecycle.ancestors] on the number of
    Environments of the Project; each is shown to be enough, as the theorems on
    these functions state results, not only "if it returns".
    [BranchPlan.close_over] is given passes, one more than the owned nodes being
    enough; [Variables.resolve_parts] the depth of references, one more than the
    producers being enough; [VariableTemplate.parse_loop] and [EnvFile.parse_lines]
    the length of the text and its lines; [Lowering.reaches] runs on the number of
    references plus two, and the loops of [ContextIgnore] over text on its length
    ([compile_enough]).  The polling loops of
    the executor have no bound of their own: they are given fuel, safety holds for
    any fuel, and [ExecutorHalts.enough_fuel] is enough for an environment whose
    clock advances ([Timely]).

    ** Parameters

    Code of other crates is a parameter with laws where they are used: the
    prost codec ([Framing]), [ipnet] prefixes ([Placement.IpNetOps] with
    [IpNetLaws], satisfied by CIDR blocks in [Placement.Cidr]), the JSON
    rendering behind the serving shape ([Spec.ShapeJson]), the readers of a
    policy row ([Issuance]), random Service ids ([Planner]), serde's derived
    conversions ([RuntimeOutcome.Serde], and with round-trip laws
    [ConfigJson.ConfigDecoders], satisfied by [SyncSample], and
    [Restore.ReadsConfigs], by [Restore.SampleRestore]), the text of a float
    ([ConfigJson.JsonFloat]), drawn UUIDs ([SyncPut.Uuids]), and the UUID and
    image-reference parsers ([ConfigValidation.ConfigCrates]), the regex engine and the
    files of rules ([ContextIgnore.RegexCrate], [RegexLaws], [RuleFiles]), and opening a sealed
    value with the key ([Compile], as [unseal]).  What Machines answer is any environment
    ([Process]).  The Store is given its clock ([DeploymentStore.Platform]), the
    parts of the Store that are not modelled but called ([Lifecycle.Neighbours]:
    what a claim hands over and following Branches; they may fail, and no theorem
    assumes that they do not) and the tables a deletion cascades to
    ([Teardown.Cascades]); [SampleStore] instantiates all three.

    ** What is not modelled

    Gathering of evidence over RPC and rendering of reports; the fingerprints of
    variables; settings edits, Branches, pull requests and automation of the store;
    the build engine; the daemon's Docker, network, DNS and proxy I/O; the CLI, the
    SDK and the bindings.  Serde and ts-rs glue, operator texts of refusals and RPC
    codes are left out everywhere.

    ** Plan

    Next: following a Deploy into Branches, the build
    queue and its grants; then an endpoint-capacity counterpart of
    [Safety.plan_sockets_safe], coherence of Volume definitions across a placed
    plan, and that planning never panics on admitted graphs. *)

From stdpp Require Export base tactics list strings gmap numbers sorting.
From Stdlib Require Export Lia.

(** ** Notations *)

Declare Scope ployz_scope.
Delimit Scope ployz_scope with ployz.
Open Scope ployz_scope.

(** [Result<T, E>] of the Rust sources. *)
Inductive Result (T E : Type) : Type :=
| Ok (value : T)
| Err (error : E).
Arguments Ok {T E} value.
Arguments Err {T E} error.

(** The [?] operator and the [map_err] / [ok_or] combinators. *)
Definition result_bind {T U E} (c : Result T E) (k : T → Result U E) : Result U E :=
  match c with Ok x => k x | Err e => Err e end.

Definition map_err {T E F} (f : E → F) (c : Result T E) : Result T F :=
  match c with Ok x => Ok x | Err e => Err (f e) end.

Definition ok_or {T E} (o : option T) (e : E) : Result T E :=
  match o with Some x => Ok x | None => Err e end.

Definition is_ok {T E} (c : Result T E) : bool :=
  match c with Ok _ => true | Err _ => false end.

Definition result_ok {T E} (c : Result T E) : option T :=
  match c with Ok x => Some x | Err _ => None end.

Notation "'let?' x := c 'in' k" := (result_bind c (λ x, k))
  (at level 10, x name, c at level 200, k at level 200,
   format "'[v' 'let?'  x  :=  c  'in' '/' k ']'") : ployz_scope.
Notation "'let?' ' p := c 'in' k" := (result_bind c (λ p, k))
  (at level 10, p strict pattern, c at level 200, k at level 200,
   format "'[v' 'let?'  ' p  :=  c  'in' '/' k ']'") : ployz_scope.

(** How a call that may panic ends badly: with the error its signature names,
    or at an [expect]. *)
Inductive Fault (E : Type) : Type :=
| Fails (error : E)
| Panics.
Arguments Fails {E} error.
Arguments Panics {E}.

#[global] Instance Result_eq_dec {T E} `{EqDecision T, EqDecision E} : EqDecision (Result T E).
Proof. solve_decision. Defined.

(** ** The development's tactics *)

Ltac split_and_solve tac := repeat split; tac.

(** Case analysis on every boolean test of a comparison on [N]. *)
Ltac case_N_tests :=
  repeat match goal with
  | H : context [N.leb ?a ?b] |- _ => destruct (N.leb_spec a b)
  | H : context [N.ltb ?a ?b] |- _ => destruct (N.ltb_spec a b)
  | H : context [N.eqb ?a ?b] |- _ => destruct (N.eqb_spec a b)
  | |- context [N.leb ?a ?b] => destruct (N.leb_spec a b)
  | |- context [N.ltb ?a ?b] => destruct (N.ltb_spec a b)
  | |- context [N.eqb ?a ?b] => destruct (N.eqb_spec a b)
  end.

(** Run the error monad in a hypothesis: split each bound computation. *)
Ltac run_result :=
  repeat match goal with
  | H : Ok _ = Ok _ |- _ => injection H as H
  | H : Err _ = Err _ |- _ => injection H as H
  | H : Ok _ = Err _ |- _ => discriminate H
  | H : Err _ = Ok _ |- _ => discriminate H
  | H : result_bind ?c _ = _ |- _ =>
      let E := fresh "Hrun" in destruct c eqn:E; simpl in H; [| try discriminate H]
  end.

(** ** Machine integers

    An unsigned [w]-bit integer is an [N]; its range is written out at each
    operation.  [u64] and [usize] are 64 bits wide, [u32] is 32. *)

Definition u64_max : N := 18446744073709551615.
Definition u32_max : N := 4294967295.
Definition is_u64 (n : N) : Prop := (n ≤ u64_max)%N.
Definition is_u32 (n : N) : Prop := (n ≤ u32_max)%N.

Definition checked_add (a b : N) : option N :=
  if (a + b <=? u64_max)%N then Some (a + b)%N else None.
Definition checked_sub (a b : N) : option N :=
  if (b <=? a)%N then Some (a - b)%N else None.
Definition checked_mul (a b : N) : option N :=
  if (a * b <=? u64_max)%N then Some (a * b)%N else None.
Definition saturating_add (a b : N) : N := N.min (a + b) u64_max.
Definition saturating_mul (a b : N) : N := N.min (a * b) u64_max.
Definition saturating_sub (a b : N) : N := (a - b)%N.
Definition wrapping_add (a b : N) : N := ((a + b) mod 2 ^ 64)%N.
Definition wrapping_mul (a b : N) : N := ((a * b) mod 2 ^ 64)%N.

(** [u64::checked_next_multiple_of]. *)
Definition checked_next_multiple_of (a m : N) : option N :=
  if (m =? 0)%N then None
  else let r := (a mod m)%N in
       if (r =? 0)%N then Some a else checked_add a (m - r).

Create HintDb ployz.

Section MachineIntegers.
Open Scope N_scope.

Lemma checked_add_Some a b c : checked_add a b = Some c ↔ c = a + b ∧ a + b ≤ u64_max.
Proof. unfold checked_add. case_N_tests; naive_solver lia. Qed.

Lemma checked_add_None a b : checked_add a b = None ↔ u64_max < a + b.
Proof. unfold checked_add. case_N_tests; naive_solver lia. Qed.

Lemma checked_sub_Some a b c : checked_sub a b = Some c ↔ c = a - b ∧ b ≤ a.
Proof. unfold checked_sub. case_N_tests; naive_solver lia. Qed.

Lemma checked_mul_Some a b c : checked_mul a b = Some c ↔ c = a * b ∧ a * b ≤ u64_max.
Proof. unfold checked_mul. case_N_tests; naive_solver lia. Qed.

Lemma next_multiple_eq a m : m ≠ 0 → a + (m - a mod m) = (a / m + 1) * m.
Proof.
  intros Hm. pose proof (N.mod_lt a m Hm) as Hlt. pose proof (N.div_mod a m Hm) as Hdiv.
  rewrite N.mul_add_distr_r, (N.mul_comm (a / m)).
  generalize dependent (m * (a / m)). generalize dependent (a mod m). lia.
Qed.

Lemma next_multiple_Some a m c :
  checked_next_multiple_of a m = Some c →
  m ≠ 0 ∧ a ≤ c ∧ c < a + m ∧ c mod m = 0 ∧ (is_u64 a → is_u64 c).
Proof.
  unfold checked_next_multiple_of, is_u64.
  destruct (N.eqb_spec m 0) as [|Hm]; [done|].
  pose proof (N.mod_lt a m Hm) as Hlt.
  pose proof (N.div_mod a m Hm) as Hdiv.
  destruct (N.eqb_spec (a mod m) 0) as [Hz|Hz]; intros H.
  - simplify_eq. split_and!; try lia; done.
  - apply checked_add_Some in H as [-> ?].
    pose proof (next_multiple_eq a m Hm) as Hm'.
    assert (0 < a mod m) by (apply N.neq_0_lt_0; done).
    generalize dependent (a mod m). intros r Hr **.
    split_and!; try lia. rewrite Hm'. by apply N.Div0.mod_mul.
Qed.

End MachineIntegers.

(** ** Results *)

Section Results.
Context {T U E : Type}.

Lemma result_bind_Ok (c : Result T E) (k : T → Result U E) y :
  result_bind c k = Ok y ↔ ∃ x, c = Ok x ∧ k x = Ok y.
Proof. destruct c; naive_solver. Qed.

Lemma ok_or_Ok (o : option T) (e : E) x : ok_or o e = Ok x ↔ o = Some x.
Proof. destruct o; naive_solver. Qed.

Lemma ok_or_Err (o : option T) (e e' : E) : ok_or o e = Err e' ↔ o = None ∧ e' = e.
Proof. destruct o; naive_solver. Qed.

Lemma is_ok_true (c : Result T E) : is_ok c = true ↔ ∃ x, c = Ok x.
Proof. destruct c; naive_solver. Qed.
End Results.

(** A [for] loop over a list that threads a state and may return early
    with an error. *)
Fixpoint try_fold {A S E} (f : S → A → Result S E) (l : list A) (s : S) : Result S E :=
  match l with
  | [] => Ok s
  | x :: l' => let? s' := f s x in try_fold f l' s'
  end.

Lemma try_fold_app {A S E} (f : S → A → Result S E) l1 l2 s :
  try_fold f (l1 ++ l2) s = result_bind (try_fold f l1 s) (try_fold f l2).
Proof.
  revert s; induction l1 as [|x l1 IH]; intros s; simpl; [done|].
  destruct (f s x); simpl; auto.
Qed.

(** Loop invariant rule. *)
Lemma try_fold_inv {A S E} (f : S → A → Result S E) (I : S → Prop) l s s' :
  (∀ s x s1, x ∈ l → I s → f s x = Ok s1 → I s1) →
  I s → try_fold f l s = Ok s' → I s'.
Proof.
  revert s; induction l as [|x l IH]; intros s Hf Hs H; simpl in H; [naive_solver|].
  apply result_bind_Ok in H as (s1 & H1 & H2).
  eapply IH; [| |exact H2].
  - intros s2 y s3 Hy. apply Hf. set_solver.
  - eapply Hf; eauto. set_solver.
Qed.

(** [iter().map(f).collect::<Result<Vec<_>, _>>()]. *)
Fixpoint collect_result {A B E} (f : A → Result B E) (l : list A) : Result (list B) E :=
  match l with
  | [] => Ok []
  | x :: l' => let? y := f x in let? ys := collect_result f l' in Ok (y :: ys)
  end.

Lemma collect_result_Ok {A B E} (f : A → Result B E) l ys :
  collect_result f l = Ok ys ↔ Forall2 (λ x y, f x = Ok y) l ys.
Proof.
  revert ys; induction l as [|x l IH]; intros ys; simpl.
  - split; [intros; simplify_eq; constructor | inversion 1; done].
  - destruct (f x) as [y|e] eqn:Hx; simpl.
    + destruct (collect_result f l) as [zs|e'] eqn:Hl; simpl; split; intros H.
      * simplify_eq. constructor; [done|]. by apply IH.
      * inversion H as [|? y' ? l' Hy Hl']; subst. apply IH in Hl'. congruence.
      * done.
      * inversion H as [|? y' ? l' Hy Hl']; subst. apply IH in Hl'. congruence.
    + split; [done|]. inversion 1; subst; congruence.
Qed.

(** ** Lists *)

(** [Iterator::find]. *)
Definition list_find_first {A} (p : A → bool) (l : list A) : option A :=
  List.find p l.

(** [Iterator::find_map]. *)
Fixpoint find_map {A B} (f : A → option B) (l : list A) : option B :=
  match l with
  | [] => None
  | x :: l' => match f x with Some y => Some y | None => find_map f l' end
  end.

Lemma find_map_Some {A B} (f : A → option B) l y :
  find_map f l = Some y → ∃ x, x ∈ l ∧ f x = Some y.
Proof.
  induction l as [|x l IH]; simpl; [done|]. destruct (f x) eqn:Hf; intros H.
  - simplify_eq. exists x. set_solver.
  - destruct (IH H) as (x' & ? & ?). exists x'. set_solver.
Qed.

Lemma find_map_None {A B} (f : A → option B) l :
  find_map f l = None ↔ ∀ x, x ∈ l → f x = None.
Proof.
  induction l as [|x l IH]; simpl; [set_solver|].
  destruct (f x) eqn:Hf; split; intros H.
  - done.
  - by rewrite (H x) in Hf by set_solver.
  - intros y [->|Hy]%elem_of_cons; [done|]. by apply IH.
  - apply IH. set_solver.
Qed.

Lemma filter_all {A} (p : A → bool) l : (∀ x, x ∈ l → p x = true) → List.filter p l = l.
Proof.
  induction l as [|x l IH]; intros Hp; simpl; [done|].
  rewrite Hp by set_solver. rewrite IH; [done|]. intros y Hy. apply Hp. set_solver.
Qed.

Lemma filter_none {A} (p : A → bool) l : (∀ x, x ∈ l → p x = false) → List.filter p l = [].
Proof.
  induction l as [|x l IH]; intros Hp; simpl; [done|].
  rewrite Hp by set_solver. apply IH. intros y Hy. apply Hp. set_solver.
Qed.

Lemma find_Some_elem {A} (p : A → bool) l x : List.find p l = Some x → x ∈ l ∧ p x = true.
Proof. intros [H1 H2]%List.find_some. by rewrite list_elem_of_In. Qed.

Lemma find_None_elem {A} (p : A → bool) l :
  List.find p l = None ↔ ∀ x, x ∈ l → p x = false.
Proof.
  split.
  - intros H x Hx. eapply List.find_none; eauto. by apply list_elem_of_In.
  - intros H. destruct (List.find p l) as [x|] eqn:Hf; [|done].
    apply find_Some_elem in Hf as [Hx Hp]. by rewrite H in Hp.
Qed.

Lemma existsb_elem {A} (p : A → bool) l : existsb p l = true ↔ ∃ x, x ∈ l ∧ p x = true.
Proof. rewrite List.existsb_exists. by setoid_rewrite list_elem_of_In. Qed.

Lemma existsb_false_elem {A} (p : A → bool) l :
  existsb p l = false ↔ ∀ x, x ∈ l → p x = false.
Proof.
  split.
  - intros H x Hx. destruct (p x) eqn:Hp; [|done].
    assert (existsb p l = true) by (apply existsb_elem; eauto). congruence.
  - intros H. destruct (existsb p l) eqn:He; [|done].
    apply existsb_elem in He as (x & Hx & Hp). by rewrite H in Hp.
Qed.

Lemma forallb_elem {A} (p : A → bool) l : forallb p l = true ↔ ∀ x, x ∈ l → p x = true.
Proof. rewrite List.forallb_forall. by setoid_rewrite list_elem_of_In. Qed.

Lemma elem_of_filterb {A} (p : A → bool) l x :
  x ∈ List.filter p l ↔ x ∈ l ∧ p x = true.
Proof. rewrite !list_elem_of_In. apply List.filter_In. Qed.

Lemma NoDup_map_inj {A B} (f : A → B) l x y :
  NoDup (map f l) → x ∈ l → y ∈ l → f x = f y → x = y.
Proof.
  intros Hnd (i & Hi)%list_elem_of_lookup (j & Hj)%list_elem_of_lookup Hf.
  assert (i = j) as ->; [|congruence].
  eapply NoDup_lookup; [done| |]; rewrite list_lookup_fmap; [by rewrite Hi|].
  rewrite Hj. simpl. by rewrite Hf.
Qed.

Lemma NoDup_map_filter {A B} (f : A → B) (p : A → bool) l :
  NoDup (map f l) → NoDup (map f (List.filter p l)).
Proof.
  induction l as [|x l IH]; simpl; [done|]. intros [Hx Hl]%NoDup_cons.
  destruct (p x); [|auto]. simpl. constructor; [|auto].
  intros (y & Hy & [Hyl _]%elem_of_filterb)%list_elem_of_fmap. apply Hx. rewrite Hy.
  by apply list_elem_of_fmap_2.
Qed.

(** [sort_by_key] is a stable sort: insertion sort with a total preorder
    gives the same list. *)
Section StableSort.
Context {A : Type} (le : A → A → bool).

Fixpoint sort_insert (x : A) (l : list A) : list A :=
  match l with
  | [] => [x]
  | y :: l' => if le x y then x :: y :: l' else y :: sort_insert x l'
  end.

Definition stable_sort (l : list A) : list A := foldr sort_insert [] l.

Lemma sort_insert_perm x l : sort_insert x l ≡ₚ x :: l.
Proof.
  induction l as [|y l IH]; simpl; [done|]. destruct (le x y); [done|].
  rewrite IH. apply Permutation_swap.
Qed.

Lemma stable_sort_perm l : stable_sort l ≡ₚ l.
Proof. induction l as [|x l IH]; simpl; [done|]. by rewrite sort_insert_perm, IH. Qed.

Lemma elem_of_stable_sort l x : x ∈ stable_sort l ↔ x ∈ l.
Proof. by rewrite (stable_sort_perm l). Qed.

Context (Htotal : ∀ x y, le x y = true ∨ le y x = true).
Context (Htrans : ∀ x y z, le x y = true → le y z = true → le x z = true).

Lemma sort_insert_sorted x l :
  StronglySorted (λ a b, le a b = true) l →
  StronglySorted (λ a b, le a b = true) (sort_insert x l).
Proof using Htotal Htrans.
  induction 1 as [|y l Hl IH Hy]; simpl; [repeat constructor|].
  destruct (le x y) eqn:Hxy.
  - constructor; [by constructor|]. constructor; [done|].
    eapply Forall_impl; [exact Hy|]. simpl. eauto.
  - constructor; [done|]. rewrite sort_insert_perm. constructor; [|done].
    destruct (Htotal x y); congruence.
Qed.

Lemma stable_sort_sorted l : StronglySorted (λ a b, le a b = true) (stable_sort l).
Proof using Htotal Htrans.
  induction l; simpl; [constructor|]. by apply sort_insert_sorted.
Qed.
End StableSort.

Lemma StronglySorted_impl {A} (R S : A → A → Prop) l :
  (∀ x y, R x y → S x y) → StronglySorted R l → StronglySorted S l.
Proof. intros Hi. induction 1; constructor; [done|]. eapply Forall_impl; eauto. Qed.

Lemma Forall2_perm {A B} (R : A → B → Prop) l1 l2 l2' :
  Forall2 R l1 l2 → l2 ≡ₚ l2' → ∃ l1', l1 ≡ₚ l1' ∧ Forall2 R l1' l2'.
Proof.
  intros Hf Hp. revert l1 Hf. induction Hp as [|y l2 l2' _ IH|y z l2|l2 l2' l2'' _ IH1 _ IH2]; intros l1 Hf.
  - inversion Hf; subst. by exists [].
  - inversion Hf as [|x ? l ? Hxy Hl]; subst. destruct (IH _ Hl) as (l' & Hp & Hf').
    exists (x :: l'). split; [by constructor|by constructor].
  - inversion Hf as [|x ? l ? Hx Hl]; subst. inversion Hl as [|w ? l' ? Hw Hl']; subst.
    exists (w :: x :: l'). split; [constructor|by repeat constructor].
  - destruct (IH1 _ Hf) as (l' & Hp & Hf'). destruct (IH2 _ Hf') as (l'' & Hp' & Hf'').
    exists l''. split; [by etrans|done].
Qed.

#[export] Hint Resolve elem_of_stable_sort stable_sort_perm : ployz.

(** ** Filters and searches *)

Lemma find_head {A} (p : A → bool) l : List.find p l = head (List.filter p l).
Proof. induction l as [|x l IH]; [done|]. simpl. by destruct (p x). Qed.

Lemma filter_rev_bool {A} (p : A → bool) l : List.filter p (rev l) = rev (List.filter p l).
Proof.
  induction l as [|x l IH]; [done|]. simpl. rewrite List.filter_app, IH. simpl.
  destruct (p x); simpl; [done|by rewrite app_nil_r].
Qed.

(** [iter().rev().find(p)] is the last element that satisfies [p]. *)
Lemma find_rev_last {A} (p : A → bool) l : List.find p (rev l) = last (List.filter p l).
Proof.
  rewrite find_head, filter_rev_bool. induction l as [|x l IH] using rev_ind; [done|].
  rewrite List.filter_app. simpl. destruct (p x).
  - by rewrite rev_app_distr, last_snoc.
  - by rewrite app_nil_r.
Qed.

(** A stable sort keeps the order of elements it takes for equal. *)
Lemma filter_stable_sort {A} (le : A → A → bool) (p : A → bool) l :
  (∀ x y, x ∈ l → y ∈ l → p x = true → p y = true → le x y = true) →
  List.filter p (stable_sort le l) = List.filter p l.
Proof.
  assert (Hins : ∀ x l', (∀ y, y ∈ l' → p x = true → p y = true → le x y = true) →
    List.filter p (sort_insert le x l') = List.filter p (x :: l')).
  { intros x l'. induction l' as [|y l' IH]; intros Hle; [done|]. simpl in *.
    destruct (le x y) eqn:Hxy; [done|]. simpl. rewrite IH by (intros; apply Hle; [by right|done..]).
    destruct (p x) eqn:Hx; [|done]. destruct (p y) eqn:Hy; [|done].
    rewrite (Hle y) in Hxy by (done || left). done. }
  induction l as [|x l IH]; intros Hle; [done|]. simpl (stable_sort _ _). rewrite Hins.
  - simpl. rewrite IH; [done|]. intros a b Ha Hb. apply Hle; by right.
  - intros y Hy. apply elem_of_stable_sort in Hy. apply Hle; [left|by right].
Qed.

Lemma filter_Forall2 {A B} (R : A → B → Prop) (p : A → bool) (q : B → bool) l1 l2 :
  Forall2 R l1 l2 → (∀ x y, R x y → p x = q y) → Forall2 R (List.filter p l1) (List.filter q l2).
Proof.
  intros Hall Hpq. induction Hall as [|x y l1 l2 HR _ IH]; simpl; [constructor|].
  rewrite (Hpq x y HR). destruct (q y); [by constructor|done].
Qed.

Lemma filter_ext_in_elem {A} (p q : A → bool) l :
  (∀ x, x ∈ l → p x = q x) → List.filter p l = List.filter q l.
Proof.
  induction l as [|x l IH]; intros Hpq; [done|]. simpl. rewrite (Hpq x) by left.
  rewrite IH; [done|]. intros y Hy. apply Hpq. by right.
Qed.

Lemma find_ext_elem {A} (p q : A → bool) l :
  (∀ x, x ∈ l → p x = q x) → List.find p l = List.find q l.
Proof.
  induction l as [|x l IH]; intros Hpq; [done|]. simpl.
  rewrite (Hpq x) by left. rewrite IH; [done|]. intros y Hy. apply Hpq. by right.
Qed.

Lemma filter_concat_one {A B} `{EqDecision A} (p : B → bool) (f : A → list B) l x :
  NoDup l → x ∈ l → (∀ y z, y ∈ l → y ≠ x → z ∈ f y → p z = false) →
  List.filter p (concat (map f l)) = List.filter p (f x).
Proof.
  induction l as [|y l IH]; intros Hnd Hx Hp; [by apply elem_of_nil in Hx|]. simpl.
  apply NoDup_cons in Hnd as [Hn Hnd]. rewrite List.filter_app.
  destruct (decide (y = x)) as [->|Hne].
  - assert (List.filter p (concat (map f l)) = []) as ->; [|by rewrite app_nil_r].
    apply filter_none. intros z Hz. apply list_elem_of_In, in_concat in Hz as (ls & Hls & Hz).
    apply in_map_iff in Hls as (y & <- & Hy). apply list_elem_of_In in Hy, Hz.
    eapply Hp; [by right| |done]. by intros ->.
  - assert (List.filter p (f y) = []) as ->.
    { apply filter_none. intros z Hz. by eapply Hp; [left| |]. }
    simpl. apply IH; [done| |].
    + by apply elem_of_cons in Hx as [->|].
    + intros y' z Hy'. apply Hp. by right.
Qed.

Lemma filter_map_bool {A B} (p : B → bool) (f : A → B) l :
  List.filter p (map f l) = map f (List.filter (λ x, p (f x)) l).
Proof. induction l as [|x l IH]; [done|]. simpl. rewrite IH. by destruct (p (f x)). Qed.

Lemma NoDup_filter_last {A B} `{EqDecision B} (f : A → B) l k :
  NoDup (map f l) →
  last (List.filter (λ x, bool_decide (f x = k)) l) = List.find (λ x, bool_decide (f x = k)) l.
Proof.
  induction l as [|x l IH]; simpl; intros Hnd; [done|]. apply NoDup_cons in Hnd as [Hn Hnd].
  case_bool_decide as Hx; [|by apply IH]. subst k.
  assert (List.filter (λ y, bool_decide (f y = f x)) l = []) as ->; [|done].
  apply filter_none. intros y Hy. apply bool_decide_eq_false. intros Heq. apply Hn.
  rewrite <- Heq. by apply list_elem_of_fmap_2.
Qed.

Lemma collect_result_Err {A B E} (f : A → Result B E) l e :
  collect_result f l = Err e → ∃ x, x ∈ l ∧ f x = Err e.
Proof.
  induction l as [|x l IH]; simpl; [done|]. destruct (f x) as [y|e'] eqn:Hx; simpl.
  - destruct (collect_result f l) as [ys|e']; simpl; [done|]. intros [= ->].
    destruct (IH eq_refl) as (z & Hz & Hf). exists z. by split; [right|].
  - intros [= ->]. exists x. by split; [left|].
Qed.

Lemma mapM_fmap_option {A B C D} (f : B → option C) (g : A → option D) (h : A → B) (k : D → C) l :
  (∀ x, f (h x) = k <$> g x) → mapM f (map h l) = map k <$> mapM g l.
Proof.
  intros Hf. induction l as [|x l IH]; simpl; [done|]. rewrite Hf.
  destruct (g x); simpl; [|done]. rewrite IH. by destruct (mapM g l).
Qed.

Lemma filter_length_lt {A} (p q : A → bool) l x :
  (∀ y, p y = true → q y = true) → x ∈ l → q x = true → p x = false →
  length (List.filter p l) < length (List.filter q l).
Proof.
  intros Hpq. assert (Hle : ∀ l', length (List.filter p l') ≤ length (List.filter q l')).
  { induction l' as [|y l' IH]; simpl; [lia|]. specialize (Hpq y).
    destruct (p y), (q y); simpl; lia || naive_solver. }
  induction l as [|y l IH]; intros Hx Hq Hp; [by apply elem_of_nil in Hx|].
  simpl. apply elem_of_cons in Hx as [<-|Hx].
  - rewrite Hq, Hp. simpl. specialize (Hle l). lia.
  - specialize (IH Hx Hq Hp). specialize (Hpq y). destruct (p y), (q y); simpl; lia || naive_solver.
Qed.

Lemma filter_length_le {A} (p : A → bool) l : length (List.filter p l) ≤ length l.
Proof. induction l as [|x l IH]; simpl; [lia|]. destruct (p x); simpl; lia. Qed.
