(* ===== verification/BTree.v ===== *)
(** * Ordered maps and sets

    [BTreeMap] and [BTreeSet] of the Rust standard library, as association
    lists kept in increasing key order.  Iteration order is part of what the
    Deploy planner computes (operations, budgets and warnings come out in key
    order), so the representation keeps it; two well-formed maps with the same
    lookups are equal ([bmap_ext]). *)

From S2P Require Import Prelude.

(** ** Total orders on keys *)

Class Ord (K : Type) := cmp : K → K → comparison.

Class OrdLaws (K : Type) `{Ord K} := {
  cmp_Eq : ∀ a b : K, cmp a b = Eq ↔ a = b;
  cmp_opp : ∀ a b : K, cmp b a = CompOpp (cmp a b);
  cmp_trans : ∀ a b c : K, cmp a b = Lt → cmp b c = Lt → cmp a c = Lt
}.

Definition key_lt `{Ord K} (a b : K) : Prop := cmp a b = Lt.
Definition key_le `{Ord K} (a b : K) : bool :=
  match cmp a b with Gt => false | _ => true end.

Section OrdFacts.
Context `{OrdLaws K}.
Implicit Types a b c : K.

Lemma cmp_refl a : cmp a a = Eq.
Proof. by apply cmp_Eq. Qed.

Lemma cmp_Gt a b : cmp a b = Gt ↔ cmp b a = Lt.
Proof. rewrite (cmp_opp a b). destruct (cmp a b); naive_solver. Qed.

Lemma key_lt_irrefl a : ¬ key_lt a a.
Proof. unfold key_lt. by rewrite cmp_refl. Qed.

Lemma key_lt_ne a b : key_lt a b → a ≠ b.
Proof. intros ? ->. by eapply key_lt_irrefl. Qed.

#[global] Instance key_lt_trans : Transitive (key_lt (K := K)).
Proof. intros a b c. apply cmp_trans. Qed.

Lemma key_le_refl a : key_le a a = true.
Proof. unfold key_le. by rewrite cmp_refl. Qed.

Lemma key_le_antisym a b : key_le a b = true → key_le b a = true → a = b.
Proof.
  unfold key_le. rewrite (cmp_opp a b). destruct (cmp a b) eqn:Hc; try done. by apply cmp_Eq in Hc.
Qed.

Lemma key_le_total a b : key_le a b = true ∨ key_le b a = true.
Proof. unfold key_le. rewrite (cmp_opp a b). destruct (cmp a b); naive_solver. Qed.

Lemma key_le_trans a b c : key_le a b = true → key_le b c = true → key_le a c = true.
Proof.
  unfold key_le. destruct (cmp a b) eqn:Hab, (cmp b c) eqn:Hbc; try done; intros _ _.
  - apply cmp_Eq in Hab, Hbc. subst. by rewrite cmp_refl.
  - apply cmp_Eq in Hab. subst. by rewrite Hbc.
  - apply cmp_Eq in Hbc. subst. by rewrite Hab.
  - by rewrite (cmp_trans a b c).
Qed.

#[global] Instance ord_eq_dec : EqDecision K | 100.
Proof.
  intros a b. destruct (cmp a b) eqn:Hc.
  - left. by apply cmp_Eq.
  - right. intros ->. by rewrite cmp_refl in Hc.
  - right. intros ->. by rewrite cmp_refl in Hc.
Defined.
End OrdFacts.

(** *** Instances: numbers, strings (bytewise), pairs *)

#[global] Instance N_ord : Ord N := N.compare.
#[global] Instance N_ord_laws : OrdLaws N.
Proof.
  split; unfold cmp, N_ord.
  - apply N.compare_eq_iff.
  - intros. apply N.compare_antisym.
  - intros a b c. rewrite !N.compare_lt_iff. lia.
Qed.

(** [str::cmp]: lexicographic on bytes. *)
Fixpoint str_cmp (a b : string) : comparison :=
  match a, b with
  | EmptyString, EmptyString => Eq
  | EmptyString, String _ _ => Lt
  | String _ _, EmptyString => Gt
  | String x a', String y b' =>
      match N.compare (Ascii.N_of_ascii x) (Ascii.N_of_ascii y) with
      | Eq => str_cmp a' b'
      | c => c
      end
  end.

#[global] Instance string_ord : Ord string := str_cmp.

Lemma N_of_ascii_inj x y : Ascii.N_of_ascii x = Ascii.N_of_ascii y → x = y.
Proof. intros Hxy. rewrite <-(Ascii.ascii_N_embedding x), Hxy. apply Ascii.ascii_N_embedding. Qed.

#[global] Instance string_ord_laws : OrdLaws string.
Proof.
  split; unfold cmp, string_ord.
  - induction a as [|x a IH]; intros [|y b]; simpl; try naive_solver.
    destruct (N.compare_spec (Ascii.N_of_ascii x) (Ascii.N_of_ascii y)) as [Hxy|Hxy|Hxy].
    + apply N_of_ascii_inj in Hxy as ->. rewrite IH. naive_solver.
    + split; [done|]. intros [=]; subst; lia.
    + split; [done|]. intros [=]; subst; lia.
  - induction a as [|x a IH]; intros [|y b]; simpl; try done.
    rewrite (N.compare_antisym (Ascii.N_of_ascii x)).
    destruct (N.compare (Ascii.N_of_ascii x) _); simpl; auto.
  - induction a as [|x a IH]; intros [|y b] [|z c]; simpl; try done.
    destruct (N.compare_spec (Ascii.N_of_ascii x) (Ascii.N_of_ascii y)) as [Hxy|Hxy|Hxy];
    destruct (N.compare_spec (Ascii.N_of_ascii y) (Ascii.N_of_ascii z)) as [Hyz|Hyz|Hyz];
    destruct (N.compare_spec (Ascii.N_of_ascii x) (Ascii.N_of_ascii z)) as [Hxz|Hxz|Hxz];
    try lia; try done; eauto.
Qed.

(** The derived lexicographic order on a pair (and on two-field structs). *)
#[global] Instance prod_ord `{Ord A, Ord B} : Ord (A * B) :=
  λ x y, match cmp x.1 y.1 with Eq => cmp x.2 y.2 | c => c end.

#[global] Instance prod_ord_laws `{OrdLaws A, OrdLaws B} : OrdLaws (A * B).
Proof.
  split; unfold cmp, prod_ord.
  - intros [a b] [a' b']; simpl. destruct (cmp a a') eqn:Ha.
    + apply cmp_Eq in Ha as ->. rewrite cmp_Eq. naive_solver.
    + split; [done|]. intros [=]; subst. by rewrite cmp_refl in Ha.
    + split; [done|]. intros [=]; subst. by rewrite cmp_refl in Ha.
  - intros [a b] [a' b']; simpl. rewrite (cmp_opp a a').
    destruct (cmp a a'); simpl; auto using cmp_opp.
  - intros [a b] [a' b'] [a'' b'']; simpl.
    destruct (cmp a a') eqn:Hc1; [apply cmp_Eq in Hc1 as -> | |done];
    destruct (cmp a' a'') eqn:Hc2; try done.
    + apply cmp_trans.
    + apply cmp_Eq in Hc2 as <-. by rewrite Hc1.
    + by rewrite (cmp_trans a a' a'').
Qed.

(** ** Maps *)

Definition bmap (K V : Type) : Type := list (K * V).

Section Maps.
Context `{OrdLaws K} {V : Type}.
Implicit Types (m : bmap K V) (k : K) (v : V).

Fixpoint bget m k : option V :=
  match m with
  | [] => None
  | (k', v') :: m' => if decide (k' = k) then Some v' else bget m' k
  end.

Fixpoint binsert k v m : bmap K V :=
  match m with
  | [] => [(k, v)]
  | (k', v') :: m' =>
      match cmp k k' with
      | Lt => (k, v) :: m
      | Eq => (k, v) :: m'
      | Gt => (k', v') :: binsert k v m'
      end
  end.

Definition bremove k m : bmap K V :=
  List.filter (λ kv, if decide (kv.1 = k) then false else true) m.

Definition bcontains m k : bool :=
  match bget m k with Some _ => true | None => false end.

Definition bkeys m : list K := map fst m.
Definition bvalues m : list V := map snd m.

(** [entry(k).or_insert(v)]. *)
Definition bor_insert k v m : bmap K V :=
  if bcontains m k then m else binsert k v m.

(** [iter().collect::<BTreeMap<_, _>>()]: a later pair overwrites. *)
Definition bcollect (l : list (K * V)) : bmap K V :=
  fold_left (λ m kv, binsert kv.1 kv.2 m) l [].

Definition bwf m : Prop := StronglySorted key_lt (bkeys m).

Lemma bget_binsert_eq k v m : bget (binsert k v m) k = Some v.
Proof.
  induction m as [|[k' v'] m IH]; simpl; [by rewrite decide_True|].
  destruct (cmp k k') eqn:Hc; simpl.
  - by rewrite decide_True.
  - by rewrite decide_True.
  - rewrite decide_False; [done|]. intros ->. by rewrite cmp_refl in Hc.
Qed.

Lemma bget_binsert_ne k k' v m : k ≠ k' → bget (binsert k v m) k' = bget m k'.
Proof.
  intros Hne. induction m as [|[k1 v1] m IH]; simpl; [by rewrite decide_False|].
  destruct (cmp k k1) eqn:Hc; simpl.
  - apply cmp_Eq in Hc as <-. by rewrite !(decide_False (P := k = k')).
  - by rewrite (decide_False (P := k = k')).
  - case_decide; auto.
Qed.

Lemma bget_binsert k k' v m :
  bget (binsert k v m) k' = if decide (k = k') then Some v else bget m k'.
Proof. case_decide; subst; auto using bget_binsert_eq, bget_binsert_ne. Qed.

Lemma bget_bremove k k' m :
  bget (bremove k m) k' = if decide (k = k') then None else bget m k'.
Proof.
  induction m as [|[k1 v1] m IH]; simpl; [by case_decide|].
  destruct (decide (k1 = k)) as [->|Hn]; simpl.
  - rewrite IH. by destruct (decide (k = k')).
  - destruct (decide (k1 = k')) as [->|]; [|done]. by rewrite decide_False.
Qed.

Lemma bget_elem m k v : bget m k = Some v → (k, v) ∈ m.
Proof.
  induction m as [|[k' v'] m IH]; simpl; [done|]. case_decide; intros Hg.
  - simplify_eq. set_solver.
  - set_solver.
Qed.

Lemma bget_None m k : bget m k = None ↔ k ∉ bkeys m.
Proof.
  induction m as [|[k' v'] m IH]; simpl; [set_solver|].
  case_decide; subst; [set_solver|]. rewrite IH, elem_of_cons. naive_solver.
Qed.

Lemma bcontains_true m k : bcontains m k = true ↔ k ∈ bkeys m.
Proof.
  unfold bcontains. destruct (bget m k) as [v|] eqn:Hg.
  - split; [|done]. intros _. apply bget_elem in Hg.
    apply list_elem_of_fmap. by exists (k, v).
  - apply bget_None in Hg. naive_solver.
Qed.

Lemma bget_Some m k v : bwf m → bget m k = Some v ↔ (k, v) ∈ m.
Proof.
  intros Hwf. split; [apply bget_elem|].
  unfold bwf, bkeys in Hwf. induction m as [|[k' v'] m IH]; simpl in *; [set_solver|].
  inversion Hwf as [|? ? Hs Hf]; subst.
  intros [Heq|Hin]%elem_of_cons.
  - simplify_eq. by rewrite decide_True.
  - rewrite decide_False; [auto|]. intros ->.
    rewrite Forall_forall in Hf. eapply (key_lt_irrefl k), Hf.
    apply list_elem_of_fmap. by exists (k, v).
Qed.

Lemma bkeys_binsert k v m k' : k' ∈ bkeys (binsert k v m) ↔ k' = k ∨ k' ∈ bkeys m.
Proof.
  induction m as [|[k1 v1] m IH]; simpl; [set_solver|].
  destruct (cmp k k1) eqn:Hc; simpl; rewrite ?elem_of_cons; [|naive_solver|].
  - apply cmp_Eq in Hc as <-. naive_solver.
  - rewrite IH. naive_solver.
Qed.

Lemma bwf_nil : bwf [].
Proof. constructor. Qed.

Lemma bwf_binsert k v m : bwf m → bwf (binsert k v m).
Proof.
  unfold bwf. induction m as [|[k1 v1] m IH]; simpl; intros Hs; [repeat constructor|].
  inversion Hs as [|? ? Hs' Hf]; subst.
  destruct (cmp k k1) eqn:Hc; simpl.
  - by apply cmp_Eq in Hc as <-.
  - constructor; [done|]. constructor; [done|].
    eapply Forall_impl; [exact Hf|]. simpl. intros x Hx. by etrans.
  - constructor; [auto|]. apply Forall_forall. intros x [->|Hx]%bkeys_binsert.
    + by apply cmp_Gt in Hc.
    + by rewrite Forall_forall in Hf; apply Hf.
Qed.

Lemma bwf_tail kv m : bwf (kv :: m) → bwf m.
Proof. by inversion 1. Qed.

Lemma bwf_filter (p : K * V → bool) m : bwf m → bwf (List.filter p m).
Proof.
  unfold bwf, bkeys. induction m as [|kv m IH]; simpl; [done|].
  inversion 1 as [|? ? Hs Hf]; subst. destruct (p kv); simpl; [|auto].
  constructor; [auto|]. rewrite Forall_forall in *. intros k' Hk'. apply Hf.
  apply list_elem_of_fmap in Hk' as (y & -> & Hy).
  apply elem_of_filterb in Hy as [Hy _]. apply list_elem_of_fmap. by exists y.
Qed.

Lemma bwf_bremove k m : bwf m → bwf (bremove k m).
Proof. apply bwf_filter. Qed.

Lemma bwf_bor_insert k v m : bwf m → bwf (bor_insert k v m).
Proof. unfold bor_insert. destruct (bcontains m k); auto using bwf_binsert. Qed.

Lemma bwf_NoDup m : bwf m → NoDup (bkeys m).
Proof.
  unfold bwf. induction 1 as [|k ks Hs IH Hf]; constructor; [|done].
  intros Hin. rewrite Forall_forall in Hf. by eapply (key_lt_irrefl k), Hf.
Qed.

Lemma bwf_fold_binsert l m :
  bwf m → bwf (fold_left (λ m kv, binsert kv.1 kv.2 m) l m).
Proof. revert m. induction l; simpl; auto using bwf_binsert. Qed.

Lemma bwf_bcollect l : bwf (bcollect l).
Proof. apply bwf_fold_binsert, bwf_nil. Qed.

Lemma bget_bor_insert k k' v m :
  bget (bor_insert k v m) k' =
  if decide (k = k') then Some (default v (bget m k)) else bget m k'.
Proof.
  unfold bor_insert, bcontains. destruct (bget m k) as [v'|] eqn:Hg.
  - case_decide; subst; [by rewrite Hg|done].
  - rewrite bget_binsert. by case_decide.
Qed.

(** Maps are determined by their lookups. *)
Lemma bmap_ext m1 m2 : bwf m1 → bwf m2 → (∀ k, bget m1 k = bget m2 k) → m1 = m2.
Proof.
  revert m2. induction m1 as [|[k1 v1] m1 IH]; intros [|[k2 v2] m2] Hw1 Hw2 Hext.
  - done.
  - specialize (Hext k2). simpl in Hext. by rewrite decide_True in Hext.
  - specialize (Hext k1). simpl in Hext. by rewrite decide_True in Hext.
  - assert (k1 = k2) as ->.
    { destruct (cmp k1 k2) eqn:Hc; [by apply cmp_Eq| |]; exfalso.
      - specialize (Hext k1). simpl in Hext. rewrite decide_True in Hext by done.
        symmetry in Hext. apply (bget_elem ((k2, v2) :: m2)) in Hext as [|Hin]%elem_of_cons.
        + simplify_eq. by rewrite cmp_refl in Hc.
        + inversion Hw2 as [|? ? _ Hf]; subst. rewrite Forall_forall in Hf.
          eapply (key_lt_irrefl k1). etrans; [exact Hc|]. apply Hf.
          apply list_elem_of_fmap. by exists (k1, v1).
      - apply cmp_Gt in Hc. specialize (Hext k2). simpl in Hext.
        rewrite (decide_True (P := k2 = k2)) in Hext by done.
        apply (bget_elem ((k1, v1) :: m1)) in Hext as [|Hin]%elem_of_cons.
        + simplify_eq. by rewrite cmp_refl in Hc.
        + inversion Hw1 as [|? ? _ Hf]; subst. rewrite Forall_forall in Hf.
          eapply (key_lt_irrefl k2). etrans; [exact Hc|]. apply Hf.
          apply list_elem_of_fmap. by exists (k2, v2). }
    pose proof (Hext k2) as Hv. simpl in Hv. rewrite !decide_True in Hv by done.
    simplify_eq. f_equal. apply IH; eauto using bwf_tail. intros k.
    destruct (decide (k2 = k)) as [->|Hne].
    + assert (∀ m, bwf ((k, v2) :: m) → bget m k = None) as Hno.
      { intros m Hw. apply bget_None. by apply bwf_NoDup in Hw as [? _]%NoDup_cons. }
      by rewrite !Hno.
    + specialize (Hext k). simpl in Hext. by rewrite !decide_False in Hext.
Qed.
End Maps.

Lemma bget_bcollect_elem `{OrdLaws K} {V} (l : list (K * V)) k v :
  bget (bcollect l) k = Some v → (k, v) ∈ l.
Proof.
  unfold bcollect. assert (Hgen : ∀ m, bget (fold_left (λ m kv, binsert kv.1 kv.2 m) l m) k = Some v →
    (k, v) ∈ l ∨ bget m k = Some v).
  { induction l as [|[k' v'] l IH]; intros m; simpl; [by right|].
    intros [Hin|Hg]%IH; [set_solver|]. rewrite bget_binsert in Hg.
    case_decide; simplify_eq; [set_solver|by right]. }
  intros [?|?]%Hgen; done.
Qed.

Lemma fold_binsert_Some `{OrdLaws K} {V} (l : list (K * V)) (m : bmap K V) k v :
  NoDup (map fst l) → (k, v) ∈ l →
  bget (fold_left (λ m kv, binsert kv.1 kv.2 m) l m) k = Some v.
Proof.
  revert m. induction l as [|[k' v'] l IH]; intros m Hnd Hin; simpl; [set_solver|].
  simpl in Hnd. apply NoDup_cons in Hnd as [Hk Hnd].
  apply elem_of_cons in Hin as [[= <- <-]|Hin]; [|by apply IH].
  clear IH. revert m. assert (∀ m, bget m k = Some v → k ∉ map fst l →
    bget (fold_left (λ m kv, binsert kv.1 kv.2 m) l m) k = Some v) as Hkeep.
  { clear. induction l as [|[k' v'] l IH]; intros m Hm Hk; simpl; [done|]. simpl in Hk.
    apply not_elem_of_cons in Hk as [Hne Hk]. apply IH; [|done].
    by rewrite bget_binsert_ne by congruence. }
  intros m. apply Hkeep; [|done]. apply bget_binsert_eq.
Qed.

Lemma bcollect_Some `{OrdLaws K} {V} (l : list (K * V)) k v :
  NoDup (map fst l) → (k, v) ∈ l → bget (bcollect l) k = Some v.
Proof. apply fold_binsert_Some. Qed.

(** Collecting pairs with distinct keys keeps them all. *)
Lemma bget_bcollect `{OrdLaws K} {V} (l : list (K * V)) k v :
  NoDup (map fst l) → bget (bcollect l) k = Some v ↔ (k, v) ∈ l.
Proof. intros Hnd. split; [apply bget_bcollect_elem|by apply bcollect_Some]. Qed.

(** The class argument of these lemmas is not determined by unification, so
    the hints apply them by pattern. *)
#[export] Hint Extern 1 (bwf []) => apply bwf_nil : ployz.
#[export] Hint Extern 1 (bwf (binsert _ _ _)) => apply bwf_binsert : ployz.
#[export] Hint Extern 1 (bwf (bremove _ _)) => apply bwf_bremove : ployz.
#[export] Hint Extern 1 (bwf (bor_insert _ _ _)) => apply bwf_bor_insert : ployz.
#[export] Hint Extern 1 (bwf (bcollect _)) => apply bwf_bcollect : ployz.
#[export] Hint Extern 1 (bwf (List.filter _ _)) => apply bwf_filter : ployz.

(** ** Sets: the keys in increasing order *)

Definition bset (K : Type) : Type := list K.

Section Sets.
Context `{OrdLaws K}.

Fixpoint bset_insert (k : K) (s : bset K) : bset K :=
  match s with
  | [] => [k]
  | k' :: s' =>
      match cmp k k' with
      | Lt => k :: s
      | Eq => s
      | Gt => k' :: bset_insert k s'
      end
  end.

Definition bset_of (l : list K) : bset K := fold_left (λ s k, bset_insert k s) l [].

Definition bset_wf (s : bset K) : Prop := StronglySorted key_lt s.

Lemma elem_of_bset_insert k s k' : k' ∈ bset_insert k s ↔ k' = k ∨ k' ∈ s.
Proof.
  induction s as [|k1 s IH]; simpl; [set_solver|].
  destruct (cmp k k1) eqn:Hc; rewrite ?elem_of_cons; [|naive_solver|].
  - apply cmp_Eq in Hc as <-. naive_solver.
  - rewrite IH. naive_solver.
Qed.

Lemma bset_insert_wf k s : bset_wf s → bset_wf (bset_insert k s).
Proof.
  unfold bset_wf. induction 1 as [|k1 s Hs IH Hf]; simpl; [repeat constructor|].
  destruct (cmp k k1) eqn:Hc.
  - by constructor.
  - constructor; [by constructor|]. constructor; [done|].
    eapply Forall_impl; [exact Hf|]. simpl. intros x Hx. by etrans.
  - constructor; [done|]. apply Forall_forall. intros x [->|Hx]%elem_of_bset_insert.
    + by apply cmp_Gt in Hc.
    + by rewrite Forall_forall in Hf; apply Hf.
Qed.

Lemma elem_of_fold_bset l s k :
  k ∈ fold_left (λ s k, bset_insert k s) l s ↔ k ∈ l ∨ k ∈ s.
Proof.
  revert s. induction l as [|x l IH]; intros s; simpl; [set_solver|].
  rewrite IH, elem_of_bset_insert. set_solver.
Qed.

Lemma elem_of_bset_of l k : k ∈ bset_of l ↔ k ∈ l.
Proof. unfold bset_of. rewrite elem_of_fold_bset. set_solver. Qed.

Lemma bset_of_wf l : bset_wf (bset_of l).
Proof.
  unfold bset_of. assert (bset_wf []) as Hnil by constructor. revert Hnil.
  generalize (@nil K). induction l; simpl; auto using bset_insert_wf.
Qed.

Lemma bset_wf_NoDup s : bset_wf s → NoDup s.
Proof.
  unfold bset_wf. induction 1 as [|k ks Hs IH Hf]; constructor; [|done].
  intros Hin. rewrite Forall_forall in Hf. by eapply (key_lt_irrefl k), Hf.
Qed.

Definition bset_remove (k : K) (s : bset K) : bset K :=
  List.filter (λ k', negb (bool_decide (k' = k))) s.

Lemma bset_remove_insert k s :
  k ∉ s → bset_remove k (bset_insert k s) = s.
Proof.
  unfold bset_remove. induction s as [|x s IH]; simpl; intros Hk.
  - by rewrite bool_decide_eq_true_2.
  - apply not_elem_of_cons in Hk as [Hne Hk].
    assert (Hid : ∀ s', k ∉ s' → List.filter (λ k', negb (bool_decide (k' = k))) s' = s').
    { intros s' Hs'. apply List.forallb_filter_id, forallb_elem. intros y Hy.
      rewrite bool_decide_eq_false_2; [done|]. by intros ->. }
    destruct (cmp k x) eqn:Hc; simpl; [by apply cmp_Eq in Hc| |].
    + rewrite bool_decide_eq_true_2 by done. simpl.
      rewrite bool_decide_eq_false_2 by done. simpl. by rewrite Hid.
    + rewrite bool_decide_eq_false_2 by done. simpl. by rewrite IH.
Qed.
End Sets.

(** ** Grouping: [entry(key(x)).or_insert_with(..)] followed by a push *)

Section Grouping.
Context `{OrdLaws K} {A V : Type} (key : A → K) (mk : A → V) (push : V → A → V).

Definition group_step (m : bmap K V) (x : A) : bmap K V :=
  binsert (key x) (push (default (mk x) (bget m (key x))) x) m.

Definition in_group (k : K) (x : A) : bool := if decide (key x = k) then true else false.

Lemma bget_group_from l m k :
  bget (fold_left group_step l m) k =
  match bget m k, List.filter (in_group k) l with
  | Some v, xs => Some (fold_left push xs v)
  | None, [] => None
  | None, x :: xs => Some (fold_left push xs (push (mk x) x))
  end.
Proof.
  revert m. induction l as [|x l IH]; intros m; simpl; [by destruct (bget m k)|].
  rewrite IH. unfold group_step. rewrite bget_binsert.
  destruct (in_group k x) eqn:Hg; unfold in_group in Hg; case_decide; subst; try done.
  by destruct (bget m (key x)).
Qed.

Lemma bget_group l k :
  bget (fold_left group_step l []) k =
  match List.filter (in_group k) l with
  | [] => None
  | x :: xs => Some (fold_left push xs (push (mk x) x))
  end.
Proof. by rewrite bget_group_from. Qed.

Lemma bwf_group l m : bwf m → bwf (fold_left group_step l m).
Proof.
  revert m. induction l as [|x l IH]; intros m Hm; simpl; [done|].
  apply IH. unfold group_step. auto with ployz.
Qed.
End Grouping.

Lemma elem_of_bvalues `{OrdLaws K} {V} (m : bmap K V) v :
  bwf m → v ∈ bvalues m ↔ ∃ k, bget m k = Some v.
Proof.
  intros Hwf. unfold bvalues. rewrite list_elem_of_fmap. split.
  - intros ([k v'] & -> & Hin). exists k. by apply bget_Some.
  - intros (k & Hk%bget_elem). by exists (k, v).
Qed.

(** ** Extensionality and maps of values *)

Lemma bset_ext `{OrdLaws K} (s1 s2 : bset K) :
  bset_wf s1 → bset_wf s2 → (∀ k, k ∈ s1 ↔ k ∈ s2) → s1 = s2.
Proof.
  intros H1 H2 Heq. eapply (StronglySorted_unique_strong key_lt); [|done..|].
  - intros x y _ _ Hxy Hyx. destruct (key_lt_irrefl x). by etrans.
  - by apply NoDup_Permutation; [apply bset_wf_NoDup..|].
Qed.

Lemma bset_insert_elem `{OrdLaws K} (k : K) (s : bset K) :
  bset_wf s → k ∈ s → bset_insert k s = s.
Proof.
  intros Hwf Hk. apply bset_ext; [by apply bset_insert_wf|done|].
  intros k'. rewrite elem_of_bset_insert. naive_solver.
Qed.

Lemma binsert_map_values `{OrdLaws K} {V W} (f : V → W) k v (m : bmap K V) :
  binsert k (f v) (map (λ kv, (kv.1, f kv.2)) m) = map (λ kv, (kv.1, f kv.2)) (binsert k v m).
Proof. induction m as [|[k' v'] m IH]; simpl; [done|]. destruct (cmp k k'); simpl; [done..|]. by rewrite IH. Qed.

Lemma bcollect_map_values `{OrdLaws K} {V W} (f : V → W) (l : list (K * V)) :
  bcollect (map (λ kv, (kv.1, f kv.2)) l) = map (λ kv, (kv.1, f kv.2)) (bcollect l).
Proof.
  unfold bcollect. change (@nil (K * W)) with (map (λ kv : K * V, (kv.1, f kv.2)) []) at 1.
  generalize (@nil (K * V)). induction l as [|[k v] l IH]; intros m; simpl; [done|].
  by rewrite binsert_map_values, IH.
Qed.
