(* ===== verification/StorageCapacity.v ===== *)
(** * Storage admission

    [ployz-core/src/storage_capacity.rs]: the arithmetic the planner, the
    daemon and the SDK share to decide whether a Machine can hold a set of
    Provisioned Volumes.  Byte counts are [u64]; every overflow the source
    checks is an [Err] here. *)

From S2P Require Import Prelude BTree.

Open Scope N_scope.

Abbreviation DockerVolumeName := string (only parsing).
(** The positive byte bound of one Provisioned Volume ([NonZeroU64]). *)
Abbreviation ProvisionedVolumeMaximumBytes := N (only parsing).

Definition STORAGE_GIB : N := 1024 * 1024 * 1024.

Inductive StorageBacking : Type :=
| Unallocated (host_total_bytes host_available_bytes : N)
| RootBacked (pool_size_bytes backing_length_bytes backing_allocated_bytes
              host_total_bytes host_available_bytes : N)
| Fixed (pool_size_bytes : N).

Record StorageCapacity : Type := {
  backing : StorageBacking;
  unmanaged_used_bytes : N;
  volumes : bmap DockerVolumeName ProvisionedVolumeMaximumBytes
}.

Record StorageBudget : Type := {
  requested_bytes : N;
  additional_commitment_bytes : N;
  required_growth_bytes : N;
  available_bytes : N;
  reserve_bytes : N
}.

Inductive StorageCapacityError : Type :=
| InsufficientStorage (required_growth_bytes available_bytes reserve_bytes : N)
| PoolCannotGrow (required_bytes capacity_bytes : N)
| StorageCapacityUnknown (message : string)
| VolumeSizeConflict (name : DockerVolumeName).

#[global] Instance StorageBacking_eq_dec : EqDecision StorageBacking.
Proof. solve_decision. Defined.
#[global] Instance StorageBudget_eq_dec : EqDecision StorageBudget.
Proof. solve_decision. Defined.
#[global] Instance StorageCapacityError_eq_dec : EqDecision StorageCapacityError.
Proof. solve_decision. Defined.
#[global] Instance StorageCapacity_eq_dec : EqDecision StorageCapacity.
Proof. solve_decision. Defined.

Definition unknown (message : string) : StorageCapacityError :=
  StorageCapacityUnknown message.

Definition storage_with_headroom (commitment : N) : Result N StorageCapacityError :=
  ok_or (checked_add commitment (N.max (commitment / 10) STORAGE_GIB))
    (unknown "commitments overflow u64").

Definition storage_host_reserve (total : N) : N := N.max (total / 4) (10 * STORAGE_GIB).

Definition storage_growth_target (length observed minimum : N) : Result N StorageCapacityError :=
  if length <? observed then Err (unknown "backing length is below the observed Pool size")
  else
    ok_or
      (extension ← checked_sub minimum observed;
       extension ← checked_next_multiple_of extension STORAGE_GIB;
       checked_add length extension)
      (unknown "Pool growth overflow or inconsistent observation").

Definition validate_host (total available : N) : Result unit StorageCapacityError :=
  if (total =? 0) || (total <? available) then Err (unknown "invalid host filesystem capacity")
  else Ok tt.

(** [Iterator::try_fold(init, u64::checked_add)]. *)
Fixpoint try_sum (init : N) (l : list N) : option N :=
  match l with
  | [] => Some init
  | x :: l' => match checked_add init x with Some s => try_sum s l' | None => None end
  end.

(** The loop over requested bounds: new bounds are added, reused ones must agree. *)
Definition additional_step (existing : bmap DockerVolumeName N) (additional : N)
    (entry : DockerVolumeName * N) : Result N StorageCapacityError :=
  let '(name, maximum) := entry in
  match bget existing name with
  | Some bound => if bound =? maximum then Ok additional else Err (VolumeSizeConflict name)
  | None => ok_or (checked_add additional maximum) (unknown "requested bounds overflow u64")
  end.

(** Backing growth, host availability and reserve for one backing. *)
Definition backing_budget (self : StorageCapacity) (additional minimum : N)
    : Result (N * N * N) StorageCapacityError :=
  match self.(backing) with
  | Unallocated host_total host_available =>
      let? _ := validate_host host_total host_available in
      if negb (bool_decide (self.(volumes) = [])) || negb (self.(unmanaged_used_bytes) =? 0)
      then Err (unknown "an unallocated Pool cannot have existing commitments or occupancy")
      else
        let? growth :=
          (if additional =? 0 then Ok 0
           else ok_or (checked_add minimum STORAGE_GIB)
                  (unknown "initial Pool estimate overflows u64")) in
        Ok (growth, host_available, storage_host_reserve host_total)
  | RootBacked pool_size backing_length backing_allocated host_total host_available =>
      let? _ := validate_host host_total host_available in
      if (pool_size =? 0) || (pool_size <? self.(unmanaged_used_bytes))
         || (backing_length <? pool_size) || (backing_allocated <? backing_length)
      then Err (unknown "Machine Pool backing is not fully allocated or has inconsistent size")
      else
        let? target :=
          (if minimum <=? pool_size then Ok backing_allocated
           else storage_growth_target backing_length pool_size minimum) in
        Ok (saturating_sub target backing_allocated, host_available,
            storage_host_reserve host_total)
  | Fixed pool_size =>
      if (pool_size =? 0) || (pool_size <? self.(unmanaged_used_bytes))
      then Err (unknown "fixed Pool occupancy is inconsistent with its size")
      else if pool_size <? minimum then Err (PoolCannotGrow minimum pool_size)
      else Ok (0, saturating_sub pool_size minimum, 0)
  end.

Definition budget (self : StorageCapacity)
    (requested : bmap DockerVolumeName ProvisionedVolumeMaximumBytes)
    : Result StorageBudget StorageCapacityError :=
  let? additional := try_fold (additional_step self.(volumes)) requested 0 in
  let? commitment :=
    ok_or (try_sum additional (bvalues self.(volumes)))
      (unknown "existing commitments overflow u64") in
  let? requested_total :=
    ok_or (try_sum 0 (bvalues requested)) (unknown "requested bounds overflow u64") in
  let? headroom := storage_with_headroom commitment in
  let? minimum :=
    ok_or (checked_add headroom self.(unmanaged_used_bytes))
      (unknown "Pool occupancy overflows u64") in
  let? '(growth, available, reserve) := backing_budget self additional minimum in
  if (0 <? growth) && (available <? growth + reserve) then
    Err (InsufficientStorage growth available reserve)
  else
    Ok {| requested_bytes := requested_total;
          additional_commitment_bytes := additional;
          required_growth_bytes := growth;
          available_bytes := available;
          reserve_bytes := reserve |}.

(** ** Reference vocabulary: unbounded arithmetic over the whole Machine *)

Definition Nsum (l : list N) : N := foldr N.add 0 l.

(** Every managed Volume of the Machine once the request is admitted. *)
Definition merged (existing requested : bmap DockerVolumeName N) : bmap DockerVolumeName N :=
  fold_left (λ m kv, binsert kv.1 kv.2 m) requested existing.

(** Pool bytes needed to hold [commitment] with headroom beside [unmanaged] bytes. *)
Definition pool_need (commitment unmanaged : N) : N :=
  commitment + N.max (commitment / 10) STORAGE_GIB + unmanaged.

Definition agrees (existing requested : bmap DockerVolumeName N) : Prop :=
  ∀ name bound maximum,
    bget existing name = Some bound → (name, maximum) ∈ requested → bound = maximum.

(** Requested bounds that no managed dataset holds yet. *)
Definition fresh_bounds (existing requested : bmap DockerVolumeName N) : list N :=
  map snd (List.filter (λ kv, negb (bcontains existing kv.1)) requested).

(** ** Sums *)

Lemma Nsum_app l1 l2 : Nsum (l1 ++ l2) = Nsum l1 + Nsum l2.
Proof. induction l1; simpl; lia. Qed.

Lemma try_sum_Some i l s : try_sum i l = Some s → s = i + Nsum l ∧ (is_u64 i → is_u64 s).
Proof.
  revert i. induction l as [|x l IH]; intros i; simpl; [naive_solver lia|].
  destruct (checked_add i x) as [j|] eqn:Hj; [|done].
  apply checked_add_Some in Hj as [-> ?]. intros [-> Hb]%IH. unfold is_u64 in *.
  split; [lia|]. auto.
Qed.

Lemma try_sum_complete i l : i + Nsum l ≤ u64_max → try_sum i l = Some (i + Nsum l).
Proof.
  revert i. induction l as [|x l IH]; intros i Hb; simpl in *; [f_equal; lia|].
  assert (checked_add i x = Some (i + x)) as -> by (apply checked_add_Some; lia).
  rewrite IH; [f_equal; lia|lia].
Qed.

Lemma additional_Ok existing requested a r :
  try_fold (additional_step existing) requested a = Ok r →
  agrees existing requested ∧ r = a + Nsum (fresh_bounds existing requested) ∧
  (is_u64 a → is_u64 r).
Proof.
  revert a. induction requested as [|[name maximum] requested IH]; intros a; simpl.
  - intros Hr. simplify_eq. split_and!; [|simpl; lia|done]. intros ???? Hin. set_solver.
  - unfold fresh_bounds, bcontains. simpl.
    destruct (bget existing name) as [bound|] eqn:Hb; simpl.
    + destruct (N.eqb_spec bound maximum) as [->|]; simpl; [|done].
      intros (Ha & -> & Hu)%IH. split_and!; [|done|done].
      intros n b m Hn [Heq|Hin]%elem_of_cons; [congruence|eauto].
    + destruct (checked_add a maximum) as [a'|] eqn:Hc; simpl; [|done].
      apply checked_add_Some in Hc as [-> ?].
      intros (Ha & -> & Hu)%IH. unfold is_u64, fresh_bounds, bcontains in *. split_and!.
      * intros n b m Hn [Heq|Hin]%elem_of_cons; [congruence|eauto].
      * lia.
      * auto.
Qed.

Lemma additional_complete existing requested a :
  agrees existing requested → a + Nsum (fresh_bounds existing requested) ≤ u64_max →
  try_fold (additional_step existing) requested a
    = Ok (a + Nsum (fresh_bounds existing requested)).
Proof.
  revert a. induction requested as [|[name maximum] requested IH]; intros a Ha Hb; simpl.
  - f_equal. change (Nsum (fresh_bounds existing [])) with 0. lia.
  - assert (agrees existing requested) as Ha'.
    { intros n b m Hn Hin. eapply Ha; [done|]. set_solver. }
    unfold fresh_bounds, bcontains in *. simpl in *.
    destruct (bget existing name) as [bound|] eqn:Hg; simpl in *.
    + rewrite (Ha name bound maximum) by set_solver. rewrite N.eqb_refl. simpl.
      by apply IH.
    + assert (checked_add a maximum = Some (a + maximum)) as ->
        by (apply checked_add_Some; lia). simpl.
      rewrite IH by (done || lia). f_equal. lia.
Qed.

(** ** Existing names and shared mounts count once *)

Lemma Nsum_binsert_fresh k v (m : bmap DockerVolumeName N) :
  bget m k = None → Nsum (bvalues (binsert k v m)) = v + Nsum (bvalues m).
Proof.
  induction m as [|[k' v'] m IH]; simpl; [lia|]. case_decide as Hk; [done|]. intros Hg.
  destruct (cmp k k') eqn:Hc; simpl; [|lia|rewrite IH by done; lia].
  apply cmp_Eq in Hc. congruence.
Qed.

Lemma binsert_same k v (m : bmap DockerVolumeName N) :
  bwf m → bget m k = Some v → binsert k v m = m.
Proof.
  intros Hwf Hg. apply bmap_ext; auto with ployz. intros k'.
  rewrite bget_binsert. by case_decide; subst.
Qed.

Lemma fresh_bounds_binsert k v existing requested :
  k ∉ bkeys requested → fresh_bounds (binsert k v existing) requested = fresh_bounds existing requested.
Proof.
  intros Hk. unfold fresh_bounds. f_equal.
  induction requested as [|[k' v'] req IH]; simpl in *; [done|].
  apply not_elem_of_cons in Hk as [Hne Hk].
  assert (bcontains (binsert k v existing) k' = bcontains existing k') as ->
    by (unfold bcontains; by rewrite bget_binsert_ne).
  by rewrite IH.
Qed.

Lemma Nsum_merged existing requested :
  bwf existing → bwf requested → agrees existing requested →
  Nsum (bvalues (merged existing requested))
    = Nsum (bvalues existing) + Nsum (fresh_bounds existing requested).
Proof.
  unfold merged. revert existing.
  induction requested as [|[k v] req IH]; intros ex Hex Hreq Hag; simpl.
  - unfold fresh_bounds. simpl. lia.
  - pose proof (bwf_NoDup _ Hreq) as [Hk Hnd]%NoDup_cons.
    assert (Hreq' : bwf req) by eauto using bwf_tail.
    assert (Hag' : agrees (binsert k v ex) req).
    { intros n b m. rewrite bget_binsert. case_decide; subst.
      - intros _ Hin. destruct Hk. apply list_elem_of_fmap. by exists (n, m).
      - intros Hb Hin. eapply Hag; [done|]. set_solver. }
    rewrite IH by auto with ployz. rewrite fresh_bounds_binsert by done.
    unfold fresh_bounds at 2. unfold bcontains. simpl.
    destruct (bget ex k) as [b|] eqn:Hb; simpl.
    + assert (b = v) as -> by (eapply Hag; [done|set_solver]).
      by rewrite binsert_same.
    + rewrite Nsum_binsert_fresh by done. unfold fresh_bounds, bcontains. lia.
Qed.

(** ** What an admitted budget says *)

(** The facts a successful [budget] establishes, in unbounded arithmetic. *)
Record admitted (self : StorageCapacity) (requested : bmap DockerVolumeName N)
    (b : StorageBudget) : Prop := {
  adm_agrees : agrees self.(volumes) requested;
  adm_requested : b.(requested_bytes) = Nsum (bvalues requested);
  adm_additional : b.(additional_commitment_bytes) = Nsum (fresh_bounds self.(volumes) requested);
  adm_requested_u64 : Nsum (bvalues requested) ≤ u64_max;
  adm_need_u64 :
    pool_need (Nsum (bvalues self.(volumes)) + b.(additional_commitment_bytes))
      self.(unmanaged_used_bytes) ≤ u64_max;
  adm_backing :
    backing_budget self b.(additional_commitment_bytes)
      (pool_need (Nsum (bvalues self.(volumes)) + b.(additional_commitment_bytes))
         self.(unmanaged_used_bytes))
      = Ok (b.(required_growth_bytes), b.(available_bytes), b.(reserve_bytes));
  adm_fits :
    0 < b.(required_growth_bytes) →
    b.(required_growth_bytes) + b.(reserve_bytes) ≤ b.(available_bytes)
}.

Lemma budget_Ok_admitted self requested b :
  budget self requested = Ok b → admitted self requested b.
Proof.
  unfold budget. intros H.
  apply result_bind_Ok in H as (additional & Hadd & H).
  apply additional_Ok in Hadd as (Hag & Hadd & _).
  apply result_bind_Ok in H as (commitment & Hcom%ok_or_Ok%try_sum_Some & H).
  destruct Hcom as [Hcom _].
  apply result_bind_Ok in H as (total & Htot%ok_or_Ok%try_sum_Some & H).
  destruct Htot as [Htot Htot'].
  apply result_bind_Ok in H as (headroom & Hhead%ok_or_Ok%checked_add_Some & H).
  destruct Hhead as [Hhead _].
  apply result_bind_Ok in H as (minimum & Hmin%ok_or_Ok%checked_add_Some & H).
  destruct Hmin as [Hmin Hmin'].
  apply result_bind_Ok in H as ([[growth available] reserve] & Hback & H).
  rewrite N.add_0_l in Hadd, Htot.
  assert (minimum = pool_need (Nsum (bvalues self.(volumes)) + additional)
            self.(unmanaged_used_bytes)) as Hneed.
  { unfold pool_need. subst. f_equal. rewrite (N.add_comm (Nsum (bvalues _))). done. }
  destruct ((0 <? growth) && (available <? growth + reserve)) eqn:Hfit; [done|].
  injection H as <-. split; simpl; subst; try done.
  - unfold is_u64 in Htot'. apply Htot'. lia.
  - rewrite <-Hneed. lia.
  - by rewrite <-Hneed.
  - intros Hg. apply andb_false_iff in Hfit as [?%N.ltb_ge|?%N.ltb_ge]; lia.
Qed.

Lemma admitted_budget_Ok self requested b :
  admitted self requested b → budget self requested = Ok b.
Proof.
  intros [Hag Hreq Hadd Hru Hnu Hback Hfit]. unfold budget.
  assert (Nsum (fresh_bounds (volumes self) requested) + Nsum (bvalues (volumes self))
          ≤ u64_max) as Hcu.
  { unfold pool_need in Hnu. rewrite Hadd in Hnu.
    pose proof (N.le_max_r ((Nsum (bvalues (volumes self)) +
      Nsum (fresh_bounds (volumes self) requested)) / 10) STORAGE_GIB). lia. }
  rewrite additional_complete by (done || lia). simpl. rewrite N.add_0_l.
  rewrite try_sum_complete by done. simpl.
  rewrite try_sum_complete by lia. simpl.
  unfold pool_need in Hnu. rewrite Hadd in Hnu.
  rewrite (N.add_comm (Nsum (bvalues (volumes self)))) in Hnu.
  unfold storage_with_headroom.
  rewrite (proj2 (checked_add_Some _ _ _)) by (split; [reflexivity|lia]). simpl.
  rewrite (proj2 (checked_add_Some _ _ _)) by (split; [reflexivity|lia]). simpl.
  rewrite Hadd in Hback. unfold pool_need in Hback.
  rewrite (N.add_comm (Nsum (bvalues (volumes self)))) in Hback.
  rewrite Hback. simpl.
  destruct b as [breq badd bgrow bav bres]; simpl in *; subst.
  destruct ((0 <? bgrow) && (bav <? bgrow + bres)) eqn:Hb; [|done].
  apply andb_true_iff in Hb as [?%N.ltb_lt ?%N.ltb_lt]. lia.
Qed.

(** Usable Pool bytes once the admitted growth has been applied.  A fresh Pool
    loses one GiB to ZFS; a grown one keeps the observed loss. *)
Definition pool_after (b : StorageBacking) (growth : N) : N :=
  match b with
  | Unallocated _ _ => growth - STORAGE_GIB
  | RootBacked pool backing_length backing_allocated _ _ =>
      pool + (backing_allocated + growth - backing_length)
  | Fixed pool => pool
  end.

Definition host_capacity (b : StorageBacking) : option (N * N) :=
  match b with
  | Unallocated total available | RootBacked _ _ _ total available => Some (total, available)
  | Fixed _ => None
  end.

Lemma growth_target_Ok length observed minimum target :
  storage_growth_target length observed minimum = Ok target →
  observed ≤ length ∧ observed ≤ minimum ∧
  ∃ extension, checked_next_multiple_of (minimum - observed) STORAGE_GIB = Some extension ∧
    target = length + extension ∧ minimum ≤ observed + extension ∧
    extension < minimum - observed + STORAGE_GIB ∧ extension mod STORAGE_GIB = 0.
Proof.
  unfold storage_growth_target. destruct (N.ltb_spec length observed); [done|].
  intros Hok%ok_or_Ok. apply bind_Some in Hok as (d & [-> Hd]%checked_sub_Some & Hok).
  apply bind_Some in Hok as (e & He & [-> Hb]%checked_add_Some).
  pose proof He as (_ & ? & ? & ? & _)%next_multiple_Some.
  split_and!; [lia|lia|]. exists e. split_and!; try done; lia.
Qed.

(** An admitted request leaves the operating-system reserve of the host
    filesystem intact: whenever the backing has to grow, growth plus reserve
    fits in what the host reports as available, and the reserve is at least a
    quarter of the disk and at least ten GiB. *)
Theorem budget_preserves_host_reserve self requested b total available :
  host_capacity self.(backing) = Some (total, available) →
  budget self requested = Ok b →
  0 < b.(required_growth_bytes) →
  b.(required_growth_bytes) + b.(reserve_bytes) ≤ available ∧ available ≤ total ∧
  total / 4 ≤ b.(reserve_bytes) ∧ 10 * STORAGE_GIB ≤ b.(reserve_bytes).
Proof.
  intros Hhost [_ _ _ _ _ Hback Hfit]%budget_Ok_admitted Hg. specialize (Hfit Hg).
  revert Hback. unfold backing_budget.
  destruct (backing self); simpl in Hhost; simplify_eq.
  all: unfold validate_host;
    destruct ((total =? 0) || (total <? available)) eqn:Hv; simpl; [done|];
    apply orb_false_iff in Hv as [_ ?%N.ltb_ge];
    match goal with |- context [if ?c then Err _ else _] => destruct c; [done|] end;
    intros (? & _ & Heq)%result_bind_Ok; simplify_eq;
    unfold storage_host_reserve in *; lia.
Qed.

Lemma budget_preserves_host_reserve_witness :
  ∃ b, budget {| backing := Unallocated (80 * STORAGE_GIB) (40 * STORAGE_GIB);
                 unmanaged_used_bytes := 0; volumes := [] |}
         [("data"%string, 5 * STORAGE_GIB)] = Ok b ∧
       b.(required_growth_bytes) + b.(reserve_bytes) ≤ 40 * STORAGE_GIB.
Proof.
  eexists. split; [vm_compute; reflexivity|].
  eapply (budget_preserves_host_reserve
    {| backing := Unallocated (80 * STORAGE_GIB) (40 * STORAGE_GIB);
       unmanaged_used_bytes := 0; volumes := [] |} [("data"%string, 5 * STORAGE_GIB)]
    _ (80 * STORAGE_GIB) (40 * STORAGE_GIB));
  [reflexivity | vm_compute; reflexivity | vm_compute; reflexivity].
Defined.

(** The Pool that results from an admitted request holds every managed
    Volume of the Machine, the existing and the requested ones each counted
    once, with the shared headroom and the unmanaged bytes beside them. *)
Theorem budget_pool_sufficient self requested b :
  bwf self.(volumes) → bwf requested →
  budget self requested = Ok b →
  (∀ total available, self.(backing) = Unallocated total available →
     0 < b.(additional_commitment_bytes)) →
  pool_need (Nsum (bvalues (merged self.(volumes) requested))) self.(unmanaged_used_bytes)
    ≤ pool_after self.(backing) b.(required_growth_bytes).
Proof.
  intros Hw Hr [Hag _ Hadd _ _ Hback _]%budget_Ok_admitted Hun.
  rewrite Nsum_merged, <-Hadd by done. revert Hback.
  generalize (pool_need (Nsum (bvalues (volumes self)) + additional_commitment_bytes b)
                (unmanaged_used_bytes self)) as need. intros need.
  unfold backing_budget. destruct (backing self) as [tot av|pool len alloc tot av|pool]; simpl.
  - intros (_ & _ & H)%result_bind_Ok.
    match type of H with (if ?c then _ else _) = _ => destruct c; [done|] end.
    specialize (Hun tot av eq_refl).
    destruct (N.eqb_spec (additional_commitment_bytes b) 0); [lia|].
    apply result_bind_Ok in H as (g & [-> _]%ok_or_Ok%checked_add_Some & H).
    injection H as Hg _ _. lia.
  - intros (_ & _ & H)%result_bind_Ok.
    match type of H with (if ?c then _ else _) = _ => destruct c eqn:Hc; [done|] end.
    rewrite !orb_false_iff, !N.ltb_ge in Hc. destruct Hc as [[_ Hlp] Hal].
    apply result_bind_Ok in H as (target & Ht & H). injection H as Hg _ _.
    unfold saturating_sub in Hg. destruct (N.leb_spec need pool); [lia|].
    apply growth_target_Ok in Ht as (_ & _ & e & _ & -> & He & _). lia.
  - destruct ((pool =? 0) || _); [done|]. destruct (N.ltb_spec pool need); [done|]. lia.
Qed.

(** A Machine with one Volume, asked for that Volume and a second one. *)
Definition sample_capacity : StorageCapacity :=
  {| backing := RootBacked (4 * STORAGE_GIB) (5 * STORAGE_GIB) (5 * STORAGE_GIB)
                  (80 * STORAGE_GIB) (60 * STORAGE_GIB);
     unmanaged_used_bytes := 7; volumes := [("a"%string, 3 * STORAGE_GIB)] |}.
Definition sample_request : bmap DockerVolumeName N :=
  [("a"%string, 3 * STORAGE_GIB); ("b"%string, 2 * STORAGE_GIB)].

Lemma budget_pool_sufficient_witness :
  ∃ b, budget sample_capacity sample_request = Ok b ∧ b.(required_growth_bytes) = 3 * STORAGE_GIB ∧
       pool_need (Nsum (bvalues (merged sample_capacity.(volumes) sample_request))) 7
         ≤ pool_after sample_capacity.(backing) b.(required_growth_bytes).
Proof.
  eexists. split; [vm_compute; reflexivity|]. split; [vm_compute; reflexivity|].
  apply (budget_pool_sufficient sample_capacity sample_request).
  - repeat constructor.
  - repeat constructor.
  - vm_compute; reflexivity.
  - done.
Defined.

Lemma bget_merged existing requested k :
  bwf requested →
  bget (merged existing requested) k =
    match bget requested k with Some v => Some v | None => bget existing k end.
Proof.
  unfold merged. revert existing.
  induction requested as [|[k' v'] req IH]; intros ex Hr; simpl; [done|].
  rewrite IH by eauto using bwf_tail.
  pose proof (bwf_NoDup _ Hr) as [Hk _]%NoDup_cons.
  destruct (bget req k) as [v|] eqn:Hg; [|rewrite bget_binsert; by case_decide].
  case_decide; subst; [|done]. apply bget_None in Hk. simpl in *. congruence.
Qed.

(** Admission is stable: once the Pool holds every managed and requested
    Volume, admitting the same request again succeeds and asks for no further
    commitment and no further growth, so the daemon's fresh re-check cannot
    contradict the plan it executes. *)
Theorem budget_readmission self requested pool len alloc total available :
  bwf self.(volumes) → bwf requested →
  self.(volumes) = merged self.(volumes) requested →
  self.(backing) = RootBacked pool len alloc total available →
  0 < pool → pool ≤ len → len ≤ alloc → available ≤ total → 0 < total → is_u64 pool →
  Nsum (bvalues requested) ≤ u64_max →
  pool_need (Nsum (bvalues self.(volumes))) self.(unmanaged_used_bytes) ≤ pool →
  ∃ b, budget self requested = Ok b ∧ b.(additional_commitment_bytes) = 0 ∧
       b.(required_growth_bytes) = 0 ∧ b.(requested_bytes) = Nsum (bvalues requested).
Proof.
  intros Hw Hr Hm Hb Hp Hpl Hla Hat Ht Hpu Hru Hneed.
  assert (Hag : agrees (volumes self) requested).
  { intros n bound maximum Hn Hin. apply (bget_Some _ _ _ Hr) in Hin.
    rewrite Hm, bget_merged, Hin in Hn by done. congruence. }
  assert (Nsum (fresh_bounds (volumes self) requested) = 0) as Hfresh.
  { pose proof (Nsum_merged (volumes self) requested Hw Hr Hag) as Hs.
    rewrite <-Hm in Hs. lia. }
  exists {| requested_bytes := Nsum (bvalues requested); additional_commitment_bytes := 0;
       required_growth_bytes := 0; available_bytes := available;
       reserve_bytes := storage_host_reserve total |}.
  split_and!; [|done..]. apply admitted_budget_Ok. unfold is_u64 in Hpu.
  split; simpl; rewrite ?N.add_0_r; try done; try lia.
  unfold backing_budget, validate_host. rewrite Hb.
  destruct (N.eqb_spec total 0); [lia|]. destruct (N.ltb_spec total available); [lia|]. simpl.
  unfold pool_need in *.
  destruct (N.eqb_spec pool 0); [lia|].
  destruct (N.ltb_spec pool (unmanaged_used_bytes self)); [lia|].
  destruct (N.ltb_spec len pool); [lia|]. destruct (N.ltb_spec alloc len); [lia|]. simpl.
  rewrite (proj2 (N.leb_le _ pool)) by lia. simpl. unfold saturating_sub.
  by rewrite N.sub_diag.
Qed.

Lemma budget_readmission_witness :
  ∃ b, budget {| backing := RootBacked (8 * STORAGE_GIB) (9 * STORAGE_GIB) (9 * STORAGE_GIB)
                              (80 * STORAGE_GIB) (50 * STORAGE_GIB);
                 unmanaged_used_bytes := 7; volumes := sample_request |} sample_request = Ok b ∧
       b.(additional_commitment_bytes) = 0 ∧ b.(required_growth_bytes) = 0 ∧
       b.(requested_bytes) = Nsum (bvalues sample_request).
Proof.
  apply (budget_readmission
    {| backing := RootBacked (8 * STORAGE_GIB) (9 * STORAGE_GIB) (9 * STORAGE_GIB)
                    (80 * STORAGE_GIB) (50 * STORAGE_GIB);
       unmanaged_used_bytes := 7; volumes := sample_request |} sample_request
    (8 * STORAGE_GIB) (9 * STORAGE_GIB) (9 * STORAGE_GIB) (80 * STORAGE_GIB) (50 * STORAGE_GIB));
  first [reflexivity | by vm_compute | by repeat constructor].
Defined.

(** ** Shrinking a request *)

Definition submap (m1 m2 : bmap DockerVolumeName N) : Prop :=
  ∀ k v, bget m1 k = Some v → bget m2 k = Some v.

#[global] Instance Nsum_proper : Proper ((≡ₚ) ==> eq) Nsum.
Proof. induction 1; simpl; lia. Qed.

Lemma Nsum_submseteq l1 l2 : l1 ⊆+ l2 → Nsum l1 ≤ Nsum l2.
Proof. intros [k ->]%submseteq_Permutation. rewrite Nsum_app. lia. Qed.

Lemma submap_submseteq m1 m2 : bwf m1 → bwf m2 → submap m1 m2 → m1 ⊆+ m2.
Proof.
  intros H1 H2 Hs. apply NoDup_submseteq.
  - apply bwf_NoDup in H1. by apply NoDup_fmap_1 in H1.
  - intros [k v] Hin. apply bget_Some; [done|]. apply Hs. by apply bget_Some.
Qed.

Lemma filterb_submseteq {A} (p : A → bool) (l1 l2 : list A) :
  l1 ⊆+ l2 → List.filter p l1 ⊆+ List.filter p l2.
Proof.
  induction 1; simpl; try done.
  - destruct (p x); [by apply submseteq_skip|done].
  - destruct (p x), (p y); try done. apply submseteq_swap.
  - destruct (p x); [by apply submseteq_cons|done].
  - by etrans.
Qed.

Lemma next_multiple_mono x y m c d :
  x ≤ y → checked_next_multiple_of x m = Some c → checked_next_multiple_of y m = Some d → c ≤ d.
Proof.
  intros Hxy (Hm & ? & ? & Hc & _)%next_multiple_Some (_ & ? & ? & Hd & _)%next_multiple_Some.
  apply N.Lcm0.mod_divide in Hc as [p ->], Hd as [q ->].
  assert (p * m < (q + 1) * m) as Hlt by lia.
  apply N.mul_lt_mono_pos_r in Hlt; [|lia]. apply N.mul_le_mono_r. lia.
Qed.

Lemma next_multiple_total x y m d :
  x ≤ y → is_u64 y → checked_next_multiple_of y m = Some d →
  is_Some (checked_next_multiple_of x m).
Proof.
  intros Hxy Hyu Hd. pose proof Hd as (Hm & ? & ? & Hmod & Hdu)%next_multiple_Some.
  specialize (Hdu Hyu). unfold is_u64 in Hdu.
  unfold checked_next_multiple_of. destruct (N.eqb_spec m 0); [done|].
  destruct (N.eqb_spec (x mod m) 0) as [|Hz]; [eauto|].
  destruct (checked_add x (m - x mod m)) eqn:Ha; [eauto|]. exfalso.
  apply checked_add_None in Ha. rewrite next_multiple_eq in Ha by done.
  apply N.Lcm0.mod_divide in Hmod as [q ->].
  assert (x < m * q) as Hlt.
  { destruct (decide (x = q * m)) as [->|]; [|lia]. by rewrite N.Div0.mod_mul in Hz. }
  apply N.Div0.div_lt_upper_bound in Hlt.
  assert ((x / m + 1) * m ≤ q * m) by (apply N.mul_le_mono_r; lia). lia.
Qed.

Lemma backing_budget_mono self add add' need need' g a r :
  add' ≤ add → need' ≤ need → is_u64 need →
  backing_budget self add need = Ok (g, a, r) →
  ∃ g' a', backing_budget self add' need' = Ok (g', a', r) ∧ g' ≤ g ∧ a ≤ a'.
Proof.
  intros Ha Hn Hu. unfold backing_budget.
  destruct (backing self) as [tot av|pool len alloc tot av|pool].
  - destruct (validate_host tot av); simpl; [|done].
    match goal with |- context [if ?c then Err _ else _] => destruct c; [done|] end.
    destruct (N.eqb_spec add 0); simpl; intros Hb.
    + simplify_eq. rewrite (proj2 (N.eqb_eq add' 0)) by lia. simpl. eauto with lia.
    + apply result_bind_Ok in Hb as (? & [-> ?]%ok_or_Ok%checked_add_Some & Hb). simplify_eq.
      destruct (N.eqb_spec add' 0); simpl; [eauto with lia|].
      rewrite (proj2 (checked_add_Some need' _ _)) by (split; [reflexivity|lia]).
      simpl. eauto 10 with lia.
  - destruct (validate_host tot av); simpl; [|done].
    match goal with |- context [if ?c then Err _ else _] => destruct c; [done|] end.
    unfold saturating_sub.
    destruct (N.leb_spec need' pool); simpl.
    + intros (? & _ & ?)%result_bind_Ok. simplify_eq. exists 0, a.
      split_and!; [by rewrite N.sub_diag|lia|lia].
    + rewrite (proj2 (N.leb_gt need pool)) by lia.
      intros (target & Ht & ?)%result_bind_Ok. simplify_eq.
      pose proof Ht as (? & ? & e & He & -> & _)%growth_target_Ok.
      destruct (next_multiple_total (need' - pool) (need - pool) STORAGE_GIB e) as [e' He'];
        [lia|unfold is_u64 in *; lia|done|].
      assert (e' ≤ e) by (eapply (next_multiple_mono (need' - pool) (need - pool)); eauto; lia).
      revert Ht. unfold storage_growth_target. destruct (len <? pool); [done|].
      intros Ht%ok_or_Ok. apply bind_Some in Ht as (x & [-> _]%checked_sub_Some & Ht).
      rewrite He in Ht. simpl in Ht. apply checked_add_Some in Ht as [_ ?].
      rewrite (proj2 (checked_sub_Some need' pool _)) by (split; [reflexivity|lia]). simpl.
      rewrite He'. simpl.
      rewrite (proj2 (checked_add_Some len e' _)) by (split; [reflexivity|lia]). simpl.
      eauto 10 with lia.
  - destruct ((pool =? 0) || _); [done|]. destruct (N.ltb_spec pool need); [done|].
    destruct (N.ltb_spec pool need'); [lia|]. intros. simplify_eq.
    unfold saturating_sub. eauto 10 with lia.
Qed.

Lemma pool_need_mono c c' u : c ≤ c' → pool_need c u ≤ pool_need c' u.
Proof.
  intros. unfold pool_need. pose proof (N.Div0.div_le_mono c c' 10). lia.
Qed.

(** Asking for less never fails: every sub-request of an admitted request
    is admitted, with no more growth. *)
Theorem budget_subrequest self requested requested' b :
  bwf requested → bwf requested' → submap requested' requested →
  budget self requested = Ok b →
  ∃ b', budget self requested' = Ok b' ∧
        b'.(required_growth_bytes) ≤ b.(required_growth_bytes) ∧
        b'.(additional_commitment_bytes) ≤ b.(additional_commitment_bytes).
Proof.
  intros Hr Hr' Hsub [Hag Hreq Hadd Hru Hnu Hback Hfit]%budget_Ok_admitted.
  pose proof (submap_submseteq _ _ Hr' Hr Hsub) as Hss.
  set (add' := Nsum (fresh_bounds (volumes self) requested')).
  assert (add' ≤ additional_commitment_bytes b) as Hadd'.
  { rewrite Hadd. apply Nsum_submseteq. unfold fresh_bounds.
    by apply fmap_submseteq, filterb_submseteq. }
  assert (Nsum (bvalues requested') ≤ Nsum (bvalues requested)) as Hreq'
    by (by apply Nsum_submseteq, fmap_submseteq).
  set (need' := pool_need (Nsum (bvalues (volumes self)) + add') (unmanaged_used_bytes self)).
  pose proof (pool_need_mono (Nsum (bvalues (volumes self)) + add')
    (Nsum (bvalues (volumes self)) + additional_commitment_bytes b)
    (unmanaged_used_bytes self) ltac:(lia)) as Hneed.
  destruct (backing_budget_mono self _ add' _ need' _ _ _ Hadd' Hneed Hnu Hback)
    as (g' & a' & Hback' & Hg' & Ha').
  exists {| requested_bytes := Nsum (bvalues requested'); additional_commitment_bytes := add';
       required_growth_bytes := g'; available_bytes := a'; reserve_bytes := reserve_bytes b |}.
  split_and!; [|done..]. apply admitted_budget_Ok. split; simpl; try done; try lia.
  intros n bd m Hn Hin. eapply Hag; [exact Hn|].
  by eapply elem_of_submseteq.
Qed.

Lemma budget_subrequest_witness :
  ∃ b', budget sample_capacity [("b"%string, 2 * STORAGE_GIB)] = Ok b' ∧
        b'.(required_growth_bytes) ≤ 3 * STORAGE_GIB ∧
        b'.(additional_commitment_bytes) ≤ 2 * STORAGE_GIB.
Proof.
  apply (budget_subrequest sample_capacity sample_request [("b"%string, 2 * STORAGE_GIB)]
    {| requested_bytes := 5 * STORAGE_GIB; additional_commitment_bytes := 2 * STORAGE_GIB;
       required_growth_bytes := 3 * STORAGE_GIB; available_bytes := 60 * STORAGE_GIB;
       reserve_bytes := 20 * STORAGE_GIB |}).
  - repeat constructor.
  - repeat constructor.
  - intros k v. simpl. repeat case_decide; congruence.
  - vm_compute; reflexivity.
Defined.
