(* ===== verification/Framing.v ===== *)
(** * gRPC framing and the fan-out envelope

    [ployz-core/src/framing.rs]: one gRPC message frame is a compression byte,
    a big-endian [u32] length and the payload.  A fan-out response wraps one
    complete frame per Machine.  The protobuf codec ([prost]) is a parameter;
    Machine identities are the strings the wire carries. *)

From S2P Require Import Prelude.
From Stdlib Require Import Strings.Byte.

Open Scope N_scope.

Definition GRPC_FRAME_HEADER_LEN : nat := 5.

Inductive FramingError : Type :=
| TruncatedHeader
| InvalidCompressionFlag (flag : byte)
| TruncatedMessage (declared available : N)
| ExpectedOneFrame (count : nat)
| InvalidEnvelope (message : string).

(** ** [u32::to_be_bytes] and [u32::from_be_bytes] *)

Definition low_byte (n : N) : byte :=
  match Byte.of_N (n mod 256) with Some b => b | None => x00 end.

Definition to_be_bytes (n : N) : list byte :=
  [low_byte (n / 2 ^ 24); low_byte (n / 2 ^ 16); low_byte (n / 2 ^ 8); low_byte n].

Definition from_be_bytes (bytes : list byte) : N :=
  fold_left (λ n b, n * 256 + Byte.to_N b) bytes 0.

(** ** Frames *)

(** [encode_grpc_frame]; [None] is the panic on a payload over the 4 GiB limit. *)
Definition encode_grpc_frame (payload : list byte) : option (list byte) :=
  let len := N.of_nat (length payload) in
  if len <=? u32_max then Some (x00 :: to_be_bytes len ++ payload) else None.

Definition grpc_frame_length (bytes : list byte) : Result nat FramingError :=
  if (length bytes <? GRPC_FRAME_HEADER_LEN)%nat then Err TruncatedHeader
  else
    match bytes with
    | compression :: rest =>
        if 1 <? Byte.to_N compression then Err (InvalidCompressionFlag compression)
        else
          let declared := from_be_bytes (take 4 rest) in
          let available := N.of_nat (length bytes - GRPC_FRAME_HEADER_LEN) in
          if available <? declared then Err (TruncatedMessage declared available)
          else Ok (GRPC_FRAME_HEADER_LEN + N.to_nat declared)%nat
    | [] => Err TruncatedHeader
    end.

(** The loop of [grpc_frames].  Every frame is at least a header long, so the
    byte count bounds the iterations; [grpc_frames_unfold] states the loop
    without the bound. *)
Fixpoint grpc_frames_loop (fuel : nat) (bytes : list byte)
    : Result (list (list byte)) FramingError :=
  match bytes, fuel with
  | [], _ => Ok []
  | _, O => Err TruncatedHeader
  | _, S fuel' =>
      let? n := grpc_frame_length bytes in
      let? frames := grpc_frames_loop fuel' (drop n bytes) in
      Ok (take n bytes :: frames)
  end.

Definition grpc_frames (bytes : list byte) : Result (list (list byte)) FramingError :=
  grpc_frames_loop (length bytes) bytes.

Definition require_one_frame (bytes : list byte) : Result unit FramingError :=
  let? frames := grpc_frames bytes in
  if (length frames =? 1)%nat then Ok tt else Err (ExpectedOneFrame (length frames)).

Definition grpc_frame_payload (frame : list byte) : Result (list byte) FramingError :=
  let? _ := require_one_frame frame in
  Ok (drop GRPC_FRAME_HEADER_LEN frame).

(** ** The fan-out envelope *)

Record FanoutFailure : Type := {
  failure_code : N;
  failure_message : string;
  failure_details : list byte
}.

Inductive FanoutOutcome : Type :=
| FramedPayload (frame : list byte)
| Failure (failure : FanoutFailure).

Record FanoutResponse : Type := {
  fanout_machine_id : string;
  fanout_machine_name : string;
  outcome : option FanoutOutcome
}.

Definition FanoutResponse_success (machine_id machine_name : string) (framed_payload : list byte)
    : Result FanoutResponse FramingError :=
  let? _ := require_one_frame framed_payload in
  Ok {| fanout_machine_id := machine_id; fanout_machine_name := machine_name;
        outcome := Some (FramedPayload framed_payload) |}.

Definition FanoutResponse_failure (machine_id machine_name : string) (failure : FanoutFailure)
    : FanoutResponse :=
  {| fanout_machine_id := machine_id; fanout_machine_name := machine_name;
     outcome := Some (Failure failure) |}.

Definition FanoutResponse_omission (machine_id machine_name : string) : FanoutResponse :=
  {| fanout_machine_id := machine_id; fanout_machine_name := machine_name; outcome := None |}.

(** The protobuf codec for [FanoutResponse]: encoding is total, decoding what
    was encoded gives the message back. *)
Class ProstCodec := {
  encode_to_vec : FanoutResponse → list byte;
  prost_decode : list byte → Result FanoutResponse string;
  prost_roundtrip : ∀ r, prost_decode (encode_to_vec r) = Ok r
}.

Definition FanoutResponse_encode_grpc_frame `{ProstCodec} (r : FanoutResponse)
    : option (list byte) := encode_grpc_frame (encode_to_vec r).

Definition FanoutResponse_decode_grpc_frame `{ProstCodec} (frame : list byte)
    : Result FanoutResponse FramingError :=
  let? payload := grpc_frame_payload frame in
  map_err InvalidEnvelope (prost_decode payload).

(** ** Byte arithmetic *)

Lemma low_byte_to_N n : Byte.to_N (low_byte n) = n mod 256.
Proof.
  unfold low_byte. destruct (Byte.of_N (n mod 256)) as [b|] eqn:Hb.
  - by apply Byte.to_of_N in Hb.
  - apply Byte.of_N_None_iff in Hb. pose proof (N.mod_lt n 256). lia.
Qed.

Lemma from_to_be_bytes n : n ≤ u32_max → from_be_bytes (to_be_bytes n) = n.
Proof.
  unfold u32_max. intros Hn. unfold from_be_bytes, to_be_bytes. simpl fold_left.
  rewrite !low_byte_to_N.
  change (2 ^ 24) with (256 * (256 * 256)). change (2 ^ 16) with (256 * 256).
  change (2 ^ 8) with 256.
  rewrite <-!N.Div0.div_div.
  pose proof (N.div_mod n 256 ltac:(done)).
  pose proof (N.div_mod (n / 256) 256 ltac:(done)).
  pose proof (N.div_mod (n / 256 / 256) 256 ltac:(done)).
  assert (n / 256 / 256 / 256 < 256).
  { rewrite !N.Div0.div_div. apply N.Div0.div_lt_upper_bound. lia. }
  rewrite (N.mod_small (n / 256 / 256 / 256)) by done. lia.
Qed.

Lemma length_to_be_bytes n : length (to_be_bytes n) = 4%nat.
Proof. done. Qed.

(** ** One frame *)

Section OneFrame.
Open Scope nat_scope.

Lemma grpc_frame_length_Ok bytes n :
  grpc_frame_length bytes = Ok n →
  ∃ c rest, bytes = c :: rest ∧ (Byte.to_N c ≤ 1)%N ∧ 4 ≤ length rest ∧
    n = 5 + N.to_nat (from_be_bytes (take 4 rest)) ∧ n ≤ length bytes.
Proof.
  unfold grpc_frame_length, GRPC_FRAME_HEADER_LEN.
  destruct (Nat.ltb_spec (length bytes) 5); [done|].
  destruct bytes as [|c rest]; [done|].
  destruct (N.ltb_spec 1 (Byte.to_N c)); [done|].
  destruct (N.ltb_spec (N.of_nat (length (c :: rest) - 5)) (from_be_bytes (take 4 rest))); [done|].
  intros Hn. simplify_eq. exists c, rest. simpl in *. split_and!; try done; lia.
Qed.

Lemma grpc_frame_length_intro c rest n :
  (Byte.to_N c ≤ 1)%N → 4 ≤ length rest →
  n = 5 + N.to_nat (from_be_bytes (take 4 rest)) → n ≤ S (length rest) →
  grpc_frame_length (c :: rest) = Ok n.
Proof.
  intros Hc Hl Hn Hle. unfold grpc_frame_length, GRPC_FRAME_HEADER_LEN.
  destruct (Nat.ltb_spec (length (c :: rest)) 5); [simpl in *; lia|].
  destruct (N.ltb_spec 1 (Byte.to_N c)); [lia|].
  destruct (N.ltb_spec (N.of_nat (length (c :: rest) - 5)) (from_be_bytes (take 4 rest)));
    [simpl in *; lia|]. by subst.
Qed.

Lemma grpc_frame_length_bounds bytes n :
  grpc_frame_length bytes = Ok n → 5 ≤ n ≤ length bytes.
Proof. intros (? & ? & -> & ? & ? & -> & ?)%grpc_frame_length_Ok. lia. Qed.

(** A frame is recognised whatever follows it, and alone. *)
Lemma grpc_frame_length_take bytes n :
  grpc_frame_length bytes = Ok n → grpc_frame_length (take n bytes) = Ok n.
Proof.
  intros (c & rest & -> & Hc & Hl & Hn & Hle)%grpc_frame_length_Ok.
  destruct n as [|n]; [lia|]. simpl. simpl in Hle.
  apply grpc_frame_length_intro; [done|..].
  - rewrite length_take. lia.
  - by rewrite take_take, Nat.min_l by lia.
  - rewrite length_take. lia.
Qed.

Lemma grpc_frame_length_encode payload frame rest :
  encode_grpc_frame payload = Some frame →
  grpc_frame_length (frame ++ rest) = Ok (length frame).
Proof.
  unfold encode_grpc_frame. destruct (N.leb_spec (N.of_nat (length payload)) u32_max); [|done].
  intros Hf. simplify_eq. rewrite <-app_comm_cons, <-app_assoc. cbn [length].
  assert (length (to_be_bytes (N.of_nat (length payload)) ++ payload ++ rest)
          = 4 + length payload + length rest) as Hlen by (rewrite !length_app; simpl; lia).
  apply grpc_frame_length_intro.
  - by vm_compute.
  - lia.
  - rewrite (take_app_length' (to_be_bytes _)) by done.
    rewrite from_to_be_bytes by done. rewrite Nat2N.id, length_app. simpl. lia.
  - rewrite Hlen, length_app. simpl. lia.
Qed.

Lemma encode_frame_shape payload frame :
  encode_grpc_frame payload = Some frame →
  drop GRPC_FRAME_HEADER_LEN frame = payload ∧ length frame = 5 + length payload.
Proof. unfold encode_grpc_frame. case_match; intros; simplify_eq. done. Qed.
End OneFrame.

(** ** Sequences of frames *)

Section Frames.
Open Scope nat_scope.

Lemma grpc_frames_loop_fuel fuel bytes :
  length bytes ≤ fuel → grpc_frames_loop fuel bytes = grpc_frames bytes.
Proof.
  unfold grpc_frames. remember (length bytes) as k eqn:Hk.
  assert (length bytes ≤ k) as Hlk by lia. clear Hk. revert bytes fuel Hlk.
  induction k as [|k IH]; intros bytes fuel Hk Hf.
  - destruct bytes; [by destruct fuel|simpl in Hk; lia].
  - destruct fuel as [|fuel]; [lia|]. destruct bytes as [|b bs]; [done|].
    cbn [grpc_frames_loop].
    destruct (grpc_frame_length (b :: bs)) as [n|e] eqn:Hn; [|done]. simpl.
    pose proof (grpc_frame_length_bounds _ _ Hn) as [? ?].
    rewrite (IH _ fuel); [done| |lia]. rewrite length_drop. simpl in *. lia.
Qed.

(** The loop, unfolded once, with no bound on iterations. *)
Lemma grpc_frames_unfold bytes :
  bytes ≠ [] →
  grpc_frames bytes =
    let? n := grpc_frame_length bytes in
    let? frames := grpc_frames (drop n bytes) in
    Ok (take n bytes :: frames).
Proof.
  intros Hne. unfold grpc_frames at 1. destruct bytes as [|b bs]; [done|].
  cbn [length grpc_frames_loop].
  destruct (grpc_frame_length (b :: bs)) as [n|e] eqn:Hn; [|done]. simpl.
  pose proof (grpc_frame_length_bounds _ _ Hn) as [? ?].
  rewrite grpc_frames_loop_fuel; [done|]. rewrite length_drop. simpl in *. lia.
Qed.

Lemma grpc_frames_single frame :
  grpc_frame_length frame = Ok (length frame) → grpc_frames frame = Ok [frame].
Proof.
  intros Hn. pose proof (grpc_frame_length_bounds _ _ Hn) as [? ?].
  rewrite grpc_frames_unfold by (intros ->; simpl in *; lia).
  rewrite Hn. simpl. by rewrite drop_all, take_ge.
Qed.
End Frames.

(** Splitting what was encoded gives back exactly the encoded frames: any
    concatenation of encoded payloads is cut at the frame boundaries. *)
Theorem grpc_frames_roundtrip payloads frames :
  Forall2 (λ payload frame, encode_grpc_frame payload = Some frame) payloads frames →
  grpc_frames (concat frames) = Ok frames ∧ map (drop GRPC_FRAME_HEADER_LEN) frames = payloads.
Proof.
  induction 1 as [|payload frame payloads frames Hf _ [IH1 IH2]]; simpl; [done|].
  pose proof (encode_frame_shape _ _ Hf) as [Hd Hl]. split.
  - rewrite grpc_frames_unfold
      by (intros [Hnil _]%app_nil; rewrite Hnil in Hl; simpl in Hl; lia).
    rewrite (grpc_frame_length_encode _ _ _ Hf). simpl.
    by rewrite drop_app_length, take_app_length, IH1.
  - by rewrite Hd, IH2.
Qed.

Lemma grpc_frames_roundtrip_witness :
  ∃ f1 f2, encode_grpc_frame [x01; x02] = Some f1 ∧ encode_grpc_frame [] = Some f2 ∧
    grpc_frames (concat [f1; f2]) = Ok [f1; f2].
Proof.
  eexists _, _. split; [reflexivity|]. split; [reflexivity|].
  refine (proj1 (grpc_frames_roundtrip [[x01; x02]; []] _ _)).
  repeat constructor.
Defined.

(** A successful split is a partition: the frames concatenate to the
    input, and each one is accepted on its own as exactly one frame. *)
Theorem grpc_frames_partition bytes frames :
  grpc_frames bytes = Ok frames →
  concat frames = bytes ∧ ∀ frame, frame ∈ frames → require_one_frame frame = Ok tt.
Proof.
  remember (length bytes) as k eqn:Hk. revert bytes frames Hk.
  induction k as [k IH] using lt_wf_ind. intros bytes frames Hk.
  destruct (decide (bytes = [])) as [->|Hne].
  { intros Hf. injection Hf as <-. split; [done|]. set_solver. }
  rewrite grpc_frames_unfold by done. intros (n & Hn & H)%result_bind_Ok.
  apply result_bind_Ok in H as (fs & Hfs & ?). simplify_eq.
  pose proof (grpc_frame_length_bounds _ _ Hn) as [? ?].
  destruct (IH (length (drop n bytes)) ltac:(rewrite length_drop; lia) _ _ eq_refl Hfs)
    as [Hc Hall]. split.
  - simpl. by rewrite Hc, take_drop.
  - intros frame [->|Hin]%elem_of_cons; [|auto].
    unfold require_one_frame. rewrite grpc_frames_single; [done|].
    rewrite length_take, Nat.min_l by done. by apply grpc_frame_length_take.
Qed.

Lemma grpc_frames_partition_witness :
  concat [[x00; x00; x00; x00; x01; xff]; [x01; x00; x00; x00; x00]]
    = [x00; x00; x00; x00; x01; xff; x01; x00; x00; x00; x00].
Proof.
  refine (proj1 (grpc_frames_partition
    [x00; x00; x00; x00; x01; xff; x01; x00; x00; x00; x00] _ _)).
  reflexivity.
Defined.

(** A fan-out response survives its frame: decoding the encoded frame
    yields the same response whenever its protobuf form fits one frame, and
    the frame it travels in is itself one the envelope constructor accepts. *)
Theorem fanout_roundtrip `{ProstCodec} r frame id name :
  FanoutResponse_encode_grpc_frame r = Some frame →
  FanoutResponse_decode_grpc_frame frame = Ok r ∧
  is_ok (FanoutResponse_success id name frame) = true.
Proof.
  unfold FanoutResponse_encode_grpc_frame. intros Hf.
  pose proof (grpc_frame_length_encode _ _ [] Hf) as Hl. rewrite app_nil_r in Hl.
  apply grpc_frames_single in Hl. pose proof (encode_frame_shape _ _ Hf) as [Hd _].
  unfold FanoutResponse_decode_grpc_frame, FanoutResponse_success, grpc_frame_payload,
    require_one_frame.
  rewrite Hl. simpl result_bind. rewrite Hd, prost_roundtrip. done.
Qed.

(** A concrete codec, one byte per bit of a [Countable] code, shows the
    codec's law can hold. *)
#[local] Instance byte_eq_dec : EqDecision byte := Byte.byte_eq_dec.
#[local] Instance byte_countable : Countable byte :=
  inj_countable Byte.to_N Byte.of_N Byte.of_to_N.

Fixpoint bits_of (p : positive) : list byte :=
  match p with xH => [] | xO p' => x00 :: bits_of p' | xI p' => x01 :: bits_of p' end.

Fixpoint of_bits (l : list byte) : positive :=
  match l with
  | [] => xH
  | x00 :: l' => xO (of_bits l')
  | _ :: l' => xI (of_bits l')
  end.

Lemma of_bits_of p : of_bits (bits_of p) = p.
Proof. induction p; simpl; congruence. Qed.

Definition fanout_tuple (r : FanoutResponse)
    : string * string * option (list byte + N * string * list byte) :=
  (r.(fanout_machine_id), r.(fanout_machine_name),
   match r.(outcome) with
   | None => None
   | Some (FramedPayload f) => Some (inl f)
   | Some (Failure e) =>
       Some (inr (e.(failure_code), e.(failure_message), e.(failure_details)))
   end).

Definition fanout_of_tuple (t : string * string * option (list byte + N * string * list byte))
    : FanoutResponse :=
  {| fanout_machine_id := t.1.1; fanout_machine_name := t.1.2;
     outcome :=
       match t.2 with
       | None => None
       | Some (inl f) => Some (FramedPayload f)
       | Some (inr (code, message, details)) =>
           Some (Failure {| failure_code := code; failure_message := message;
                            failure_details := details |})
       end |}.

Lemma fanout_of_tuple_of r : fanout_of_tuple (fanout_tuple r) = r.
Proof. destruct r as [id name [[f|[c m d]]|]]; done. Qed.

Definition sample_decode (l : list byte) : Result FanoutResponse string :=
  match decode (of_bits l) with
  | Some t => Ok (fanout_of_tuple t)
  | None => Err "malformed"%string
  end.

Lemma sample_decode_encode r : sample_decode (bits_of (encode (fanout_tuple r))) = Ok r.
Proof.
  unfold sample_decode. rewrite of_bits_of, decode_encode. by rewrite fanout_of_tuple_of.
Qed.

Definition sample_codec : ProstCodec :=
  {| encode_to_vec r := bits_of (encode (fanout_tuple r));
     prost_decode := sample_decode;
     prost_roundtrip := sample_decode_encode |}.

Lemma fanout_roundtrip_witness :
  ∃ frame,
    @FanoutResponse_encode_grpc_frame sample_codec (FanoutResponse_omission "m" "n") = Some frame ∧
    @FanoutResponse_decode_grpc_frame sample_codec frame = Ok (FanoutResponse_omission "m" "n").
Proof.
  eexists. split; [reflexivity|].
  refine (proj1 (@fanout_roundtrip sample_codec (FanoutResponse_omission "m" "n") _
    "m"%string "n"%string _)).
  reflexivity.
Defined.
