(* ===== verification/Strings.v ===== *)
(** * String slices

    The operations of [str] the sources use, on UTF-8 text held as a string of
    bytes: prefixes, splitting, trimming and ASCII case folding. *)

From S2P Require Import Prelude BTree.
From Stdlib Require Import Ascii.

Open Scope string_scope.

#[global] Arguments String.append !_ _ / : simpl nomatch.

Abbreviation byte_of := Ascii.N_of_ascii (only parsing).

(** Every byte of [s] satisfies [p]: [s.bytes().all(p)]. *)
Fixpoint bytes_all (p : N → bool) (s : string) : bool :=
  match s with
  | EmptyString => true
  | String c s' => p (byte_of c) && bytes_all p s'
  end.

(** [s.bytes().any(p)], which is also [s.contains(c)] for an ASCII [c]. *)
Fixpoint bytes_any (p : N → bool) (s : string) : bool :=
  match s with
  | EmptyString => false
  | String c s' => p (byte_of c) || bytes_any p s'
  end.

(** [str::bytes]. *)
Fixpoint str_bytes (s : string) : list N :=
  match s with EmptyString => [] | String c s' => byte_of c :: str_bytes s' end.

Definition str_is_empty (s : string) : bool :=
  match s with EmptyString => true | _ => false end.

Definition first_byte (s : string) : option N :=
  match s with EmptyString => None | String c _ => Some (byte_of c) end.

Fixpoint last_byte (s : string) : option N :=
  match s with
  | EmptyString => None
  | String c EmptyString => Some (byte_of c)
  | String _ s' => last_byte s'
  end.

(** [u8::is_ascii_*]. *)
Definition byte_between (lo hi b : N) : bool := ((lo <=? b) && (b <=? hi))%N.
Definition is_ascii_digit (b : N) : bool := byte_between 48 57 b.
Definition is_ascii_lowercase (b : N) : bool := byte_between 97 122 b.
Definition is_ascii_uppercase (b : N) : bool := byte_between 65 90 b.
Definition is_ascii_alphanumeric (b : N) : bool :=
  is_ascii_digit b || is_ascii_lowercase b || is_ascii_uppercase b.
Definition is_ascii_control (b : N) : bool := ((b <? 32) || (b =? 127))%N.

(** [str::strip_prefix] and [str::starts_with]. *)
Fixpoint strip_prefix (p s : string) : option string :=
  match p, s with
  | EmptyString, _ => Some s
  | String c p', String d s' => if Ascii.eqb c d then strip_prefix p' s' else None
  | String _ _, EmptyString => None
  end.

Definition starts_with (p s : string) : bool :=
  match strip_prefix p s with Some _ => true | None => false end.

(** [str::split_once]: at the first occurrence of the pattern. *)
Fixpoint split_once (p s : string) : option (string * string) :=
  match strip_prefix p s with
  | Some rest => Some ("", rest)
  | None =>
      match s with
      | EmptyString => None
      | String c s' =>
          match split_once p s' with
          | Some (a, b) => Some (String c a, b)
          | None => None
          end
      end
  end.

(** [str::split] on one byte: always at least one piece. *)
Fixpoint split_byte (sep : ascii) (s : string) : list string :=
  match s with
  | EmptyString => [""]
  | String c s' =>
      if Ascii.eqb c sep then "" :: split_byte sep s'
      else match split_byte sep s' with
           | [] => [String c ""]
           | piece :: pieces => String c piece :: pieces
           end
  end.

Fixpoint str_map (f : ascii → ascii) (s : string) : string :=
  match s with EmptyString => EmptyString | String c s' => String (f c) (str_map f s') end.

Fixpoint str_rev_onto (s acc : string) : string :=
  match s with EmptyString => acc | String c s' => str_rev_onto s' (String c acc) end.
Definition str_rev (s : string) : string := str_rev_onto s "".

(** [u8::to_ascii_lowercase], [str::to_ascii_lowercase], [str::eq_ignore_ascii_case]. *)
Definition ascii_lower (c : ascii) : ascii :=
  if is_ascii_uppercase (byte_of c) then Ascii.ascii_of_N (byte_of c + 32) else c.
Definition to_ascii_lowercase : string → string := str_map ascii_lower.
Definition eq_ignore_ascii_case (a b : string) : bool :=
  String.eqb (to_ascii_lowercase a) (to_ascii_lowercase b).

(** The [White_Space] characters encoded in one byte. *)
Definition is_ws1 (b : N) : bool := byte_between 9 13 b || (b =? 32)%N.
(** ... in two bytes: U+0085 and U+00A0. *)
Definition is_ws2 (a b : N) : bool := ((a =? 194) && ((b =? 133) || (b =? 160)))%N.
(** ... in three bytes: U+1680, U+2000 to U+200A, U+2028, U+2029, U+202F, U+205F, U+3000. *)
Definition is_ws3 (a b c : N) : bool :=
  (((a =? 225) && (b =? 154) && (c =? 128))
   || ((a =? 226) && (b =? 128)
       && (byte_between 128 138 c || (c =? 168) || (c =? 169) || (c =? 175)))
   || ((a =? 226) && (b =? 129) && (c =? 159))
   || ((a =? 227) && (b =? 128) && (c =? 128)))%N.

(** Drop leading characters while they are white space; [ws2] and [ws3] see the
    bytes in the order the scan meets them. *)
Fixpoint trim_front (ws2 : N → N → bool) (ws3 : N → N → N → bool) (s : string) : string :=
  match s with
  | EmptyString => EmptyString
  | String a s1 =>
      if is_ws1 (byte_of a) then trim_front ws2 ws3 s1
      else
        match s1 with
        | EmptyString => s
        | String b s2 =>
            if ws2 (byte_of a) (byte_of b) then trim_front ws2 ws3 s2
            else
              match s2 with
              | EmptyString => s
              | String c s3 =>
                  if ws3 (byte_of a) (byte_of b) (byte_of c) then trim_front ws2 ws3 s3 else s
              end
        end
  end.

Definition trim_start (s : string) : string := trim_front is_ws2 is_ws3 s.
Definition trim_end (s : string) : string :=
  str_rev (trim_front (λ a b, is_ws2 b a) (λ a b c, is_ws3 c b a) (str_rev s)).

(** [str::trim]. *)
Definition trim (s : string) : string := trim_end (trim_start s).

(** ** Lemmas *)

Lemma str_app_nil_r s : s +:+ "" = s.
Proof. induction s as [|c s IH]; [done|]. simpl. f_equal. apply IH. Qed.

Lemma str_app_assoc (s1 s2 s3 : string) : (s1 +:+ s2) +:+ s3 = s1 +:+ (s2 +:+ s3).
Proof. induction s1 as [|c s1 IH]; [done|]. simpl. f_equal. apply IH. Qed.

Lemma str_app_inj_l (p s1 s2 : string) : p +:+ s1 = p +:+ s2 → s1 = s2.
Proof. induction p; simpl; [done|]. intros [=]; auto. Qed.

Lemma str_app_length (s1 s2 : string) :
  String.length (s1 +:+ s2) = (String.length s1 + String.length s2)%nat.
Proof. induction s1 as [|c s1 IH]; [done|]. simpl. f_equal. apply IH. Qed.

Lemma bytes_all_app p s1 s2 : bytes_all p (s1 +:+ s2) = bytes_all p s1 && bytes_all p s2.
Proof. induction s1; simpl; [done|]. rewrite IHs1. by rewrite andb_assoc. Qed.

Lemma bytes_any_app p s1 s2 : bytes_any p (s1 +:+ s2) = bytes_any p s1 || bytes_any p s2.
Proof. induction s1; simpl; [done|]. rewrite IHs1. by rewrite orb_assoc. Qed.

Lemma bytes_all_impl (p q : N → bool) s :
  (∀ b, p b = true → q b = true) → bytes_all p s = true → bytes_all q s = true.
Proof.
  intros Hpq. induction s as [|c s IH]; simpl; [done|].
  intros [H1 H2]%andb_true_iff. rewrite Hpq, IH; done.
Qed.

Lemma bytes_all_not_any (p q : N → bool) s :
  (∀ b, p b = true → q b = false) → bytes_all p s = true → bytes_any q s = false.
Proof.
  intros Hpq. induction s as [|c s IH]; simpl; [done|].
  intros [H1 H2]%andb_true_iff. rewrite Hpq, IH; done.
Qed.

Lemma strip_prefix_Some p s r : strip_prefix p s = Some r ↔ s = p +:+ r.
Proof.
  revert s. induction p as [|c p IH]; intros s; simpl; [naive_solver|].
  destruct s as [|d s]; [naive_solver|].
  destruct (Ascii.eqb_spec c d) as [->|Hne]; [rewrite IH; naive_solver|]. naive_solver.
Qed.

Lemma strip_prefix_app p r : strip_prefix p (p +:+ r) = Some r.
Proof. by apply strip_prefix_Some. Qed.

Lemma split_once_Some p s a b : split_once p s = Some (a, b) → s = a +:+ p +:+ b.
Proof.
  revert a b. induction s as [|c s IH]; intros a b; simpl.
  - destruct (strip_prefix p "") as [r|] eqn:Hp; [|done].
    intros [= <- <-]. by apply strip_prefix_Some in Hp.
  - destruct (strip_prefix p (String c s)) as [r|] eqn:Hp.
    + intros [= <- <-]. by apply strip_prefix_Some in Hp.
    + destruct (split_once p s) as [[a' b']|]; [|done]. intros [= <- <-]; simpl.
      f_equal. by apply IH.
Qed.

(** One separator byte: the split is at its first occurrence. *)
Definition is_byte (c : ascii) (b : N) : bool := (b =? byte_of c)%N.

Lemma is_byte_spec c d : is_byte c (byte_of d) = Ascii.eqb c d.
Proof.
  unfold is_byte. destruct (Ascii.eqb_spec c d) as [->|Hne]; [by rewrite N.eqb_refl|].
  apply N.eqb_neq. intros He. apply Hne. by apply N_of_ascii_inj.
Qed.

Lemma split_once_byte c p a b :
  bytes_any (is_byte c) a = false →
  split_once (String c p) (a +:+ String c p +:+ b) = Some (a, b).
Proof.
  induction a as [|d a IH]; intros Ha.
  - change ("" +:+ String c p +:+ b) with (String c p +:+ b).
    unfold split_once. destruct (String c p +:+ b) eqn:He; rewrite <-He;
    by rewrite strip_prefix_app.
  - simpl in Ha. rewrite is_byte_spec in Ha. apply orb_false_iff in Ha as [Hd Ha].
    simpl. rewrite Hd. simpl in IH. by rewrite IH.
Qed.

Lemma split_once_char c a b :
  bytes_any (is_byte c) a = false →
  split_once (String c "") (a +:+ String c b) = Some (a, b).
Proof. apply (split_once_byte c "" a b). Qed.

Lemma split_once_byte_first c s a b :
  split_once (String c "") s = Some (a, b) → bytes_any (is_byte c) a = false.
Proof.
  revert a b. induction s as [|d s IH]; intros a b; simpl; [done|].
  destruct (Ascii.eqb_spec c d) as [->|Hne].
  - by intros [= <- <-].
  - destruct (split_once (String c "") s) as [[a' b']|]; [|done].
    intros [= <- <-]. simpl. rewrite is_byte_spec.
    destruct (Ascii.eqb_spec c d); [done|]. by eapply IH.
Qed.

Lemma split_once_byte_None c p s :
  bytes_any (is_byte c) s = false → split_once (String c p) s = None.
Proof.
  induction s as [|d s IH]; simpl; [done|]. rewrite is_byte_spec.
  intros [Hd Hs]%orb_false_iff. rewrite Hd. by rewrite IH.
Qed.

Lemma split_once_skip p c s :
  strip_prefix p (String c s) = None →
  split_once p (String c s) =
    match split_once p s with Some (a, b) => Some (String c a, b) | None => None end.
Proof. intros H. cbn [split_once]. by rewrite H. Qed.

Lemma split_byte_none sep s : bytes_any (is_byte sep) s = false → split_byte sep s = [s].
Proof.
  induction s as [|c s IH]; simpl; [done|]. rewrite is_byte_spec.
  intros [Hc Hs]%orb_false_iff. rewrite (Ascii.eqb_sym c sep), Hc. by rewrite IH.
Qed.

Lemma str_rev_onto_app s acc : str_rev_onto s acc = str_rev s +:+ acc.
Proof.
  unfold str_rev. revert acc. induction s as [|c s IH]; intros acc; simpl; [done|].
  rewrite IH, (IH (String c "")), str_app_assoc. done.
Qed.

Lemma str_rev_cons c s : str_rev (String c s) = str_rev s +:+ String c "".
Proof. unfold str_rev. simpl. by rewrite str_rev_onto_app. Qed.

Lemma str_rev_app s1 s2 : str_rev (s1 +:+ s2) = str_rev s2 +:+ str_rev s1.
Proof.
  induction s1 as [|c s1 IH]; simpl; [by rewrite str_app_nil_r|].
  by rewrite !str_rev_cons, IH, str_app_assoc.
Qed.

Lemma str_rev_involutive s : str_rev (str_rev s) = s.
Proof. induction s as [|c s IH]; [done|]. by rewrite str_rev_cons, str_rev_app, IH. Qed.

(** [str::strip_suffix]. *)
Definition strip_suffix (suffix s : string) : option string :=
  match strip_prefix (str_rev suffix) (str_rev s) with
  | Some r => Some (str_rev r)
  | None => None
  end.

Lemma strip_suffix_app p suffix : strip_suffix suffix (p +:+ suffix) = Some p.
Proof. unfold strip_suffix. rewrite str_rev_app, strip_prefix_app. by rewrite str_rev_involutive. Qed.

Lemma strip_suffix_Some s suffix p : strip_suffix suffix s = Some p → s = p +:+ suffix.
Proof.
  unfold strip_suffix. destruct (strip_prefix _ _) as [r|] eqn:Hr; [|done]. intros [= <-].
  apply strip_prefix_Some in Hr. rewrite <-(str_rev_involutive s), Hr, str_rev_app, str_rev_involutive. done.
Qed.

Lemma bytes_all_rev p s : bytes_all p (str_rev s) = bytes_all p s.
Proof.
  induction s as [|c s IH]; [done|]. rewrite str_rev_cons, bytes_all_app, IH. simpl.
  rewrite andb_true_r. apply andb_comm.
Qed.

Lemma str_map_app f s1 s2 : str_map f (s1 +:+ s2) = str_map f s1 +:+ str_map f s2.
Proof. induction s1 as [|c s1 IH]; [done|]. simpl. f_equal. apply IH. Qed.

Lemma str_map_rev f s : str_map f (str_rev s) = str_rev (str_map f s).
Proof.
  induction s as [|c s IH]; [done|]. simpl. by rewrite !str_rev_cons, str_map_app, IH.
Qed.

(** *** Trimming ASCII text *)

Definition is_ascii (b : N) : bool := (b <? 128)%N.

Fixpoint drop_ws (s : string) : string :=
  match s with
  | EmptyString => EmptyString
  | String a s' => if is_ws1 (byte_of a) then drop_ws s' else s
  end.

Lemma trim_front_ascii ws2 ws3 s :
  (∀ a b, is_ascii a = true → is_ascii b = true → ws2 a b = false) →
  (∀ a b c, is_ascii a = true → is_ascii b = true → ws3 a b c = false) →
  bytes_all is_ascii s = true → trim_front ws2 ws3 s = drop_ws s.
Proof.
  intros H2 H3. induction s as [|a s IH]; [done|]. intros Hs.
  cbn [bytes_all] in Hs. apply andb_true_iff in Hs as [Ha Hs].
  cbn [trim_front drop_ws]. destruct (is_ws1 (byte_of a)); [auto|].
  destruct s as [|b s]; [done|]. cbn [bytes_all] in Hs.
  apply andb_true_iff in Hs as [Hb Hs]. rewrite H2 by done.
  destruct s as [|c s]; [done|]. by rewrite H3.
Qed.

Lemma drop_ws_suffix s : ∃ w, s = w +:+ drop_ws s.
Proof.
  induction s as [|a s [w IH]]; simpl; [by exists ""|].
  destruct (is_ws1 (byte_of a)); [|by exists ""]. exists (String a w). simpl. by f_equal.
Qed.

(** The string does not begin with white space. *)
Definition front_ok (s : string) : bool :=
  match s with EmptyString => true | String a _ => negb (is_ws1 (byte_of a)) end.

Lemma drop_ws_front_ok s : front_ok (drop_ws s) = true.
Proof. induction s as [|a s IH]; simpl; [done|]. destruct (is_ws1 (byte_of a)) eqn:Ha; simpl; [done|]. by rewrite Ha. Qed.

Lemma drop_ws_id s : front_ok s = true → drop_ws s = s.
Proof. destruct s as [|a s]; simpl; [done|]. by destruct (is_ws1 (byte_of a)). Qed.

Lemma bytes_all_drop_ws p s : bytes_all p s = true → bytes_all p (drop_ws s) = true.
Proof.
  destruct (drop_ws_suffix s) as [w Hw]. rewrite Hw at 1. rewrite bytes_all_app.
  by intros [_ ?]%andb_true_iff.
Qed.

Lemma front_ok_drop_back s : front_ok s = true → front_ok (str_rev (drop_ws (str_rev s))) = true.
Proof.
  destruct (drop_ws_suffix (str_rev s)) as [w Hw]. intros Hs.
  rewrite <-(str_rev_involutive s), Hw, str_rev_app in Hs.
  by destruct (str_rev (drop_ws (str_rev s))).
Qed.

Lemma trim_ascii s :
  bytes_all is_ascii s = true → trim s = str_rev (drop_ws (str_rev (drop_ws s))).
Proof.
  intros Hs. unfold trim, trim_end, trim_start.
  rewrite (trim_front_ascii is_ws2 is_ws3 s).
  - rewrite trim_front_ascii; [done| | |].
    + unfold is_ascii, is_ws2. intros a b Ha%N.ltb_lt Hb%N.ltb_lt. case_N_tests; (done || lia).
    + unfold is_ascii, is_ws3. intros a b c Ha%N.ltb_lt Hb%N.ltb_lt. 
      case_N_tests; simpl; rewrite ?andb_false_r; (done || lia).
    + rewrite bytes_all_rev. by apply bytes_all_drop_ws.
  - unfold is_ascii, is_ws2. intros a b Ha%N.ltb_lt Hb%N.ltb_lt. case_N_tests; (done || lia).
  - unfold is_ascii, is_ws3. intros a b c Ha%N.ltb_lt Hb%N.ltb_lt. case_N_tests; (done || lia).
  - done.
Qed.

(** Text that neither begins nor ends with white space. *)
Definition trimmed (s : string) : bool := front_ok s && front_ok (str_rev s).

(** For any text, ASCII or not: the scan stops at a byte that is not white space. *)
Lemma trim_front_suffix ws2 ws3 s :
  front_ok (trim_front ws2 ws3 s) = true ∧ ∃ w, s = w +:+ trim_front ws2 ws3 s.
Proof.
  remember (String.length s) as n eqn:Hn. revert s Hn.
  induction n as [n IH] using lt_wf_ind. intros s ->.
  assert (Hstep : ∀ p r, (String.length r < String.length s)%nat → s = p +:+ r →
    trim_front ws2 ws3 s = trim_front ws2 ws3 r →
    front_ok (trim_front ws2 ws3 s) = true ∧ ∃ w, s = w +:+ trim_front ws2 ws3 s).
  { intros p r Hlt -> ->. destruct (IH _ Hlt r eq_refl) as [Hf [w Hw]].
    split; [done|]. exists (p +:+ w). rewrite str_app_assoc. by rewrite <-Hw. }
  assert (Hstop : trim_front ws2 ws3 s = s → front_ok s = true →
    front_ok (trim_front ws2 ws3 s) = true ∧ ∃ w, s = w +:+ trim_front ws2 ws3 s).
  { intros -> Hf. split; [done|by exists ""]. }
  destruct s as [|a s1]; [by apply Hstop|]. cbn [trim_front] in Hstop, Hstep |- *.
  destruct (is_ws1 (byte_of a)) eqn:Ha; [by apply (Hstep (String a "") s1); simpl; [lia|..]|].
  assert (front_ok (String a s1) = true) as Hf by (simpl; by rewrite Ha).
  destruct s1 as [|b s2]; [by apply Hstop|].
  destruct (ws2 _ _); [by apply (Hstep (String a (String b "")) s2); simpl; [lia|..]|].
  destruct s2 as [|c s3]; [by apply Hstop|].
  destruct (ws3 _ _ _); [|by apply Hstop].
  by apply (Hstep (String a (String b (String c ""))) s3); simpl; [lia|..].
Qed.

Lemma trim_trimmed s : trimmed (trim s) = true.
Proof.
  unfold trim, trim_end, trim_start, trimmed. rewrite str_rev_involutive.
  set (t := trim_front is_ws2 is_ws3 s).
  assert (front_ok t = true) as Ht by apply trim_front_suffix.
  destruct (trim_front_suffix (λ a b, is_ws2 b a) (λ a b c, is_ws3 c b a) (str_rev t))
    as [Hf [w Hw]].
  rewrite Hf, andb_true_r. set (u := trim_front _ _ (str_rev t)) in *.
  apply (f_equal str_rev) in Hw. rewrite str_rev_involutive, str_rev_app in Hw.
  rewrite Hw in Ht. by destruct (str_rev u).
Qed.

Lemma trim_id s : bytes_all is_ascii s = true → trimmed s = true → trim s = s.
Proof.
  intros Hs [Hf Hb]%andb_true_iff. rewrite trim_ascii by done.
  by rewrite (drop_ws_id s), drop_ws_id, str_rev_involutive.
Qed.

Lemma bytes_all_trim p s :
  bytes_all is_ascii s = true → bytes_all p s = true → bytes_all p (trim s) = true.
Proof.
  intros Hs Hp. rewrite trim_ascii, bytes_all_rev by done.
  apply bytes_all_drop_ws. rewrite bytes_all_rev. by apply bytes_all_drop_ws.
Qed.

(** Text without white space is trimmed. *)
Lemma no_ws_trimmed s : bytes_any is_ws1 s = false → trimmed s = true.
Proof.
  assert (∀ t, bytes_any is_ws1 t = false → front_ok t = true) as Hf.
  { intros [|a t]; simpl; [done|]. by intros [-> _]%orb_false_iff. }
  intros Hs. unfold trimmed. rewrite !Hf; [done| |done].
  clear Hf. induction s as [|a s IH]; [done|]. simpl in Hs.
  apply orb_false_iff in Hs as [Ha Hs]. rewrite str_rev_cons, bytes_any_app, IH by done.
  simpl. by rewrite Ha.
Qed.

(** *** ASCII case folding *)

Lemma ascii_lower_range c :
  is_ascii_uppercase (byte_of c) = true → byte_of (ascii_lower c) = (byte_of c + 32)%N.
Proof.
  intros Hc. unfold ascii_lower. rewrite Hc. apply Ascii.N_ascii_embedding.
  unfold is_ascii_uppercase, byte_between in Hc. apply andb_true_iff in Hc as [_ Hc%N.leb_le]. lia.
Qed.

Lemma ascii_lower_idem c : ascii_lower (ascii_lower c) = ascii_lower c.
Proof. destruct c as [[] [] [] [] [] [] [] []]; vm_compute; reflexivity. Qed.

Lemma ascii_lower_ws c : is_ws1 (byte_of (ascii_lower c)) = is_ws1 (byte_of c).
Proof. destruct c as [[] [] [] [] [] [] [] []]; vm_compute; reflexivity. Qed.

Lemma lower_idem s : to_ascii_lowercase (to_ascii_lowercase s) = to_ascii_lowercase s.
Proof.
  unfold to_ascii_lowercase. induction s as [|c s IH]; simpl; [done|].
  by rewrite ascii_lower_idem, IH.
Qed.

Lemma lower_app s1 s2 :
  to_ascii_lowercase (s1 +:+ s2) = to_ascii_lowercase s1 +:+ to_ascii_lowercase s2.
Proof. apply str_map_app. Qed.

Lemma lower_empty s : to_ascii_lowercase s = "" ↔ s = "".
Proof. by destruct s. Qed.

Lemma lower_length s : String.length (to_ascii_lowercase s) = String.length s.
Proof. induction s as [|c s IH]; [done|]. simpl. by f_equal. Qed.

Lemma bytes_all_lower (p : N → bool) s :
  (∀ c, p (byte_of c) = true → p (byte_of (ascii_lower c)) = true) →
  bytes_all p s = true → bytes_all p (to_ascii_lowercase s) = true.
Proof.
  intros Hp. induction s as [|c s IH]; simpl; [done|].
  intros [H1 H2]%andb_true_iff. rewrite Hp by done. simpl. auto.
Qed.

Lemma trimmed_lower s : trimmed (to_ascii_lowercase s) = trimmed s.
Proof.
  assert (∀ t, front_ok (to_ascii_lowercase t) = front_ok t) as Hf.
  { intros [|a t]; simpl; [done|]. by rewrite ascii_lower_ws. }
  unfold trimmed. rewrite Hf. unfold to_ascii_lowercase in *. by rewrite <-str_map_rev, Hf.
Qed.

Lemma eq_ignore_case_lower a b :
  eq_ignore_ascii_case a (to_ascii_lowercase b) = eq_ignore_ascii_case a b.
Proof. unfold eq_ignore_ascii_case. by rewrite lower_idem. Qed.

(** ** Splitting at a byte *)

Lemma split_byte_app sep a rest :
  bytes_any (is_byte sep) a = false → split_byte sep (a +:+ String sep rest) = a :: split_byte sep rest.
Proof.
  induction a as [|c a IH]; intros Ha; cbn [String.append split_byte].
  { by rewrite Ascii.eqb_refl. }
  cbn [bytes_any] in Ha. apply orb_false_iff in Ha as [Hc Ha].
  rewrite is_byte_spec in Hc. rewrite Ascii.eqb_sym, Hc. by rewrite IH.
Qed.

Lemma split_byte_cons sep s : ∃ piece pieces, split_byte sep s = piece :: pieces.
Proof.
  destruct s as [|c s]; simpl; [eauto|]. destruct (Ascii.eqb c sep); [eauto|].
  destruct (split_byte sep s); eauto.
Qed.
