(* ===== verification/Text.v ===== *)
(** * Characters

    The operations of [str] that count or fold characters, on UTF-8 text held as
    a string of bytes. *)

From S2P Require Import Prelude BTree Strings.
From Stdlib Require Import Ascii.

Open Scope string_scope.

(** [chars().take(n)] and [chars().count()]: a continuation byte belongs to the character
    before it. *)
Definition is_continuation (c : ascii) : bool := byte_between 128 191 (byte_of c).

Fixpoint drop_continuation (s : string) : string :=
  match s with
  | String c s' => if is_continuation c then drop_continuation s' else s
  | EmptyString => EmptyString
  end.

Fixpoint take_chars (n : nat) (s : string) : string :=
  match s with
  | EmptyString => EmptyString
  | String c s' =>
      if is_continuation c then String c (take_chars n s')
      else match n with O => EmptyString | S n => String c (take_chars n s') end
  end.

Fixpoint char_count (s : string) : nat :=
  match s with
  | EmptyString => 0
  | String c s' => if is_continuation c then char_count s' else S (char_count s')
  end.

(** [str::contains] of a string pattern. *)
Definition contains (p s : string) : bool :=
  match split_once p s with Some _ => true | None => false end.

(** [trim_end_matches(c)] of an ASCII character. *)
Fixpoint drop_byte (c : ascii) (s : string) : string :=
  match s with
  | String d s' => if Ascii.eqb c d then drop_byte c s' else s
  | EmptyString => EmptyString
  end.
Definition trim_end_byte (c : ascii) (s : string) : string := str_rev (drop_byte c (str_rev s)).

(** [chars().any(char::is_control)]: U+0000 to U+001F, and U+007F to U+009F. *)
Fixpoint has_control (s : string) : bool :=
  match s with
  | EmptyString => false
  | String a s' =>
      is_ascii_control (byte_of a)
      || match s' with
         | String b _ => (byte_of a =? 194)%N && byte_between 128 159 (byte_of b)
         | EmptyString => false
         end
      || has_control s'
  end.

(** [str::to_lowercase], of text that must then be ASCII: one other character has an ASCII
    lowercase, the Kelvin sign U+212A; the rest keep a byte that is not ASCII. *)
Fixpoint to_lowercase (s : string) : string :=
  match s with
  | EmptyString => EmptyString
  | String a s1 =>
      match s1 with
      | String b (String c s3) =>
          if ((byte_of a =? 226) && (byte_of b =? 132) && (byte_of c =? 170))%N
          then String "k" (to_lowercase s3)
          else String (ascii_lower a) (to_lowercase s1)
      | _ => String (ascii_lower a) (to_lowercase s1)
      end
  end.

(** ** Trimming twice *)

Section TrimFront.
Context (ws2 : N → N → bool) (ws3 : N → N → N → bool).

Lemma trim_front_idem s : trim_front ws2 ws3 (trim_front ws2 ws3 s) = trim_front ws2 ws3 s.
Proof.
  remember (String.length s) as n eqn:Hn. revert s Hn.
  induction n as [n IH] using lt_wf_ind. intros s ->.
  destruct s as [|a s1]; [done|]. cbn [trim_front].
  destruct (is_ws1 (byte_of a)) eqn:Ha; [apply (IH (String.length s1)); simpl; lia|].
  destruct s1 as [|b s2]; [cbn [trim_front]; by rewrite Ha|].
  destruct (ws2 _ _) eqn:Hb; [apply (IH (String.length s2)); simpl; lia|].
  destruct s2 as [|c s3]; [cbn [trim_front]; by rewrite Ha, Hb|].
  destruct (ws3 _ _ _) eqn:Hc; [apply (IH (String.length s3)); simpl; lia|].
  cbn [trim_front]. by rewrite Ha, Hb, Hc.
Qed.

(** A scan that stops at once stops at once on every prefix. *)
Lemma trim_front_prefix p r : trim_front ws2 ws3 (p +:+ r) = p +:+ r → trim_front ws2 ws3 p = p.
Proof.
  assert (∀ s, String.length (trim_front ws2 ws3 s) ≤ String.length s)%nat as Hlen.
  { intros s. destruct (trim_front_suffix ws2 ws3 s) as [_ [w Hw]].
    rewrite Hw at 2. rewrite str_app_length. lia. }
  destruct p as [|a p]; [done|]. cbn [String.append trim_front].
  destruct (is_ws1 (byte_of a)).
  { intros Hs. pose proof (Hlen (p +:+ r)). rewrite Hs in H. simpl in H. lia. }
  destruct p as [|b p]; [done|]. cbn [String.append].
  destruct (ws2 _ _).
  { intros Hs. pose proof (Hlen (p +:+ r)). rewrite Hs in H. simpl in H. lia. }
  destruct p as [|c p]; [done|]. cbn [String.append].
  destruct (ws3 _ _ _); [|done].
  intros Hs. pose proof (Hlen (p +:+ r)). rewrite Hs in H. simpl in H. lia.
Qed.
End TrimFront.

Lemma trim_end_prefix s : ∃ w, s = trim_end s +:+ w.
Proof.
  unfold trim_end.
  destruct (trim_front_suffix (λ a b, is_ws2 b a) (λ a b c, is_ws3 c b a) (str_rev s)) as [_ [w Hw]].
  exists (str_rev w). rewrite <-str_rev_app, <-Hw. by rewrite str_rev_involutive.
Qed.

Lemma trim_idem s : trim (trim s) = trim s.
Proof.
  unfold trim. assert (trim_start (trim_end (trim_start s)) = trim_end (trim_start s)) as ->.
  - destruct (trim_end_prefix (trim_start s)) as [w Hw]. unfold trim_start at 1.
    eapply (trim_front_prefix _ _ _ w). rewrite <-Hw. unfold trim_start. apply trim_front_idem.
  - unfold trim_end at 1 2. rewrite str_rev_involutive. by rewrite trim_front_idem.
Qed.

Lemma bytes_any_trim p s : bytes_any p s = false → bytes_any p (trim s) = false.
Proof.
  destruct (trim_front_suffix is_ws2 is_ws3 s) as [_ [w Hw]].
  destruct (trim_end_prefix (trim_start s)) as [w' Hw'].
  unfold trim_start in Hw' at 1. rewrite Hw' in Hw. rewrite Hw at 1.
  rewrite !bytes_any_app. rewrite !orb_false_iff. tauto.
Qed.

Lemma to_lowercase_ascii s : bytes_all is_ascii s = true → to_lowercase s = to_ascii_lowercase s.
Proof.
  induction s as [|a s IH]; [done|]. cbn [bytes_all]. intros [Ha Hs]%andb_true_iff.
  assert ((byte_of a =? 226)%N = false) as Hk
    by (apply N.eqb_neq; unfold is_ascii in Ha; apply N.ltb_lt in Ha; lia).
  cbn [to_lowercase]. rewrite Hk. specialize (IH Hs).
  destruct s as [|b [|c s3]]; cbn [andb]; by rewrite IH.
Qed.
