(* ===== verification/Values.v ===== *)
(** * Shared value types

    [ployz-core/src/value.rs]: the validated text newtypes both sides of the
    wire share.  A newtype over [String] is its text; its [parse] checks the
    rule and keeps the text. *)

From S2P Require Import Prelude BTree Strings.
From Stdlib Require Import Ascii.

Open Scope string_scope.

(** A rejected shared value. *)
Record ValueError : Type := {
  ve_kind : string;
  ve_value : string;
  ve_expected : string
}.

Definition ValueError_new (kind value expected : string) : ValueError :=
  {| ve_kind := kind; ve_value := value; ve_expected := expected |}.

#[global] Instance ValueError_eq_dec : EqDecision ValueError.
Proof. solve_decision. Defined.

Abbreviation DockerVolumeName := string (only parsing).
Abbreviation ServiceVolumeReference := string (only parsing).
Abbreviation MachinePath := string (only parsing).
Abbreviation ContainerPath := string (only parsing).
Abbreviation MachineTarget := string (only parsing).
Abbreviation ServiceSelector := string (only parsing).
Abbreviation ContainerSelector := string (only parsing).
Abbreviation MachineId := string (only parsing).
Abbreviation ServiceId := string (only parsing).
Abbreviation ContainerId := string (only parsing).
Abbreviation MachineName := string (only parsing).
Abbreviation ServiceName := string (only parsing).
Abbreviation Namespace := string (only parsing).
Abbreviation IngressHost := string (only parsing).
Abbreviation CertificateHost := string (only parsing).
Abbreviation ImageDigest := string (only parsing).
Abbreviation MachineLabelKey := string (only parsing).
Abbreviation MachineLabelValue := string (only parsing).

(** ** Grammars *)

Definition is_hex_byte (b : N) : bool := is_ascii_digit b || byte_between 97 102 b.

Definition is_lower_hex (value : string) (len : nat) : bool :=
  Nat.eqb (String.length value) len && bytes_all is_hex_byte value.

Definition is_label_byte (b : N) : bool :=
  is_ascii_lowercase b || is_ascii_digit b || (b =? 45)%N.

Definition option_test {A} (p : A → bool) (o : option A) : bool :=
  match o with Some x => p x | None => false end.

Definition is_dns_label (value : string) : bool :=
  negb (str_is_empty value)
  && Nat.leb (String.length value) 63
  && option_test is_ascii_alphanumeric (first_byte value)
  && option_test is_ascii_alphanumeric (last_byte value)
  && bytes_all is_label_byte value.

Definition is_service_selector (value : string) : bool :=
  negb (str_is_empty value)
  && match split_once "/" value with
     | None => true
     | Some (namespace, name) => is_dns_label namespace && is_dns_label name
     end.

Definition is_hostname (value : string) : bool :=
  Nat.leb 1 (String.length value) && Nat.leb (String.length value) 253
  && forallb is_dns_label (split_byte "." value).

Definition is_swarm_key_byte (b : N) : bool :=
  is_ascii_alphanumeric b || existsb (N.eqb b) [95; 45; 46]%N.

Definition is_swarm_value_byte (b : N) : bool :=
  is_ascii_alphanumeric b
  || existsb (N.eqb b)
       [58; 45; 95; 32; 9; 13; 10; 12; 46; 42; 40; 41; 63; 43; 91; 93; 92; 94; 36; 124; 47]%N.

(** The [parse] every [hex_id_newtype!] gets. *)
Definition hex_id_parse (label : string) (len : nat) (expected value : string)
    : Result string ValueError :=
  if negb (is_lower_hex value len) then Err (ValueError_new label value expected)
  else Ok value.

(** The [parse] every [validated_string_newtype!] gets. *)
Definition validated_parse (label expected : string) (valid : string → bool) (value : string)
    : Result string ValueError :=
  if valid value then Ok value else Err (ValueError_new label value expected).

Definition UploadDigest_parse : string → Result string ValueError :=
  validated_parse "upload digest" "a lowercase sha256" (λ v, is_lower_hex v 64).
Definition DomainPrefix_parse : string → Result string ValueError :=
  validated_parse "domain prefix" "one DNS label: lowercase letters, digits and '-'" is_dns_label.
Definition ServiceTemplateId_parse : string → Result string ValueError :=
  validated_parse "Service Template ID" "one DNS label: lowercase letters, digits and '-'"
    is_dns_label.

Definition is_image_digest (value : string) : bool :=
  option_test (λ hex, is_lower_hex hex 64) (strip_prefix "sha256:" value).
Definition ImageDigest_parse : string → Result string ValueError :=
  validated_parse "image digest"
    "`sha256:` followed by 64 lowercase hexadecimal characters" is_image_digest.

(** The slice [self[7..]]; slicing past the end panics in the source, and a
    parsed digest is longer. *)
Definition ImageDigest_hex (self : ImageDigest) : string :=
  String.substring 7 (String.length self - 7) self.

Definition is_repository_component (component : string) : bool :=
  option_test is_ascii_alphanumeric (first_byte component)
  && bytes_all (λ b, is_ascii_lowercase b || is_ascii_digit b
                     || existsb (N.eqb b) [46; 95; 45]%N) component.
Definition BuildGrantRepository_parse : string → Result string ValueError :=
  validated_parse "Build Grant repository" "a Docker repository path without a registry or tag"
    (λ v, Nat.leb 1 (String.length v) && Nat.leb (String.length v) 255
          && forallb is_repository_component (split_byte "/" v)).

Definition MachineLabelKey_parse : string → Result MachineLabelKey ValueError :=
  validated_parse "Machine Label key" "nonempty ASCII letters, digits, '_', '.', or '-'"
    (λ v, negb (str_is_empty v) && bytes_all is_swarm_key_byte v).
Definition MachineLabelValue_parse : string → Result MachineLabelValue ValueError :=
  validated_parse "Machine Label value"
    "a nonempty printable ASCII Swarm value without leading or trailing whitespace"
    (λ v, negb (str_is_empty v) && String.eqb (trim v) v
          && bytes_all (λ b, negb (is_ascii_control b) && is_swarm_value_byte b) v).

Definition MachineId_parse : string → Result MachineId ValueError :=
  hex_id_parse "Machine ID" 32 "32 lowercase hexadecimal characters".
Definition MachineUpgradeAttemptId_parse : string → Result string ValueError :=
  hex_id_parse "Machine upgrade attempt ID" 32 "32 lowercase hexadecimal characters".
Definition ServiceId_parse : string → Result ServiceId ValueError :=
  hex_id_parse "Service ID" 32 "32 lowercase hexadecimal characters".
Definition TunnelId_parse : string → Result string ValueError :=
  hex_id_parse "Tunnel ID" 32 "32 lowercase hexadecimal characters".
Definition BuildGrantId_parse : string → Result string ValueError :=
  hex_id_parse "Build Grant ID" 64 "64 lowercase hexadecimal characters".
Definition ContainerId_parse : string → Result ContainerId ValueError :=
  hex_id_parse "Container ID" 64 "64 lowercase hexadecimal characters".

Definition MachineName_parse : string → Result MachineName ValueError :=
  validated_parse "Machine Name" "a 1-63 character lowercase DNS label" is_dns_label.

Definition is_management_client_label (value : string) : bool :=
  option_test is_ascii_lowercase (first_byte value)
  && Nat.leb (String.length value) 32
  && match value with
     | EmptyString => true
     | String _ rest => bytes_all is_label_byte rest
     end.
Definition ManagementClientLabel_parse : string → Result string ValueError :=
  validated_parse "Management Client label"
    "a lowercase letter then up to 31 lowercase letters, digits or hyphens"
    is_management_client_label.

Definition DockerVolumeName_parse : string → Result DockerVolumeName ValueError :=
  validated_parse "Docker Volume name" "a non-empty string" (λ v, negb (str_is_empty v)).
Definition ServiceVolumeReference_parse : string → Result ServiceVolumeReference ValueError :=
  validated_parse "Service Volume Reference" "a non-empty string" (λ v, negb (str_is_empty v)).

Definition is_unix_path (v : string) : bool :=
  starts_with "/" v && negb (bytes_any (N.eqb 0) v).
Definition MachinePath_parse : string → Result MachinePath ValueError :=
  validated_parse "Bind Mount Machine path" "an absolute Unix path without null characters"
    is_unix_path.
Definition ContainerPath_parse : string → Result ContainerPath ValueError :=
  validated_parse "container mount target" "an absolute Unix path without null characters"
    is_unix_path.
Definition MachineTarget_parse : string → Result MachineTarget ValueError :=
  validated_parse "Machine Target" "a non-empty Machine identity that is not a wildcard"
    (λ v, negb (str_is_empty v) && negb (String.eqb v "*")).
Definition ServiceSelector_parse : string → Result ServiceSelector ValueError :=
  validated_parse "Service Selector"
    "a Service ID, Qualified Service (namespace/name), or Service Name" is_service_selector.
Definition ContainerSelector_parse : string → Result ContainerSelector ValueError :=
  validated_parse "Container Selector" "a non-empty Container ID, display name, or ID prefix"
    (λ v, negb (str_is_empty v)).

(** ** Fan-out selection *)

Inductive FanoutSelector : Type :=
| All
| One (target : MachineTarget).

Definition FanoutSelector_parse (value : string) : Result FanoutSelector ValueError :=
  if String.eqb value "*" then Ok All
  else let? target := MachineTarget_parse value in Ok (One target).

Definition FanoutSelector_as_str (self : FanoutSelector) : string :=
  match self with All => "*" | One target => target end.

(** ** Namespaces and Services *)

Record DockerVolumeId : Type := {
  dvid_machine_id : MachineId;
  dvid_name : DockerVolumeName
}.

Definition ServiceName_parse : string → Result ServiceName ValueError :=
  validated_parse "Service Name" "a 1-63 character lowercase DNS label" is_dns_label.
Definition Namespace_parse : string → Result Namespace ValueError :=
  validated_parse "Namespace"
    "a 1-63 character lowercase DNS label; underscores and uppercase are not accepted"
    is_dns_label.

Definition MANAGED_LABEL : string := "ployz.managed".
Definition NAMESPACE_LABEL : string := "ployz.namespace".
Definition Namespace_SYSTEM : string := "ployz-system".

Definition Namespace_is_reserved (self : Namespace) : bool := String.eqb self Namespace_SYSTEM.

(** The [expect] cannot fire: the text contains an underscore. *)
Definition Namespace_volume_name (self : Namespace) (logical : DockerVolumeName)
    : DockerVolumeName := self +:+ "_" +:+ logical.

Record QualifiedService : Type := {
  qs_namespace : Namespace;
  qs_name : ServiceName
}.

#[global] Instance QualifiedService_eq_dec : EqDecision QualifiedService.
Proof. solve_decision. Defined.

Definition QualifiedService_new (namespace : Namespace) (name : ServiceName)
    : QualifiedService := {| qs_namespace := namespace; qs_name := name |}.

Definition qualified_service_error (value : string) : ValueError :=
  ValueError_new "Qualified Service" value "a Namespace, '/', and a Service Name".

Definition dns_name_error (value : string) : ValueError :=
  ValueError_new "Qualified Service DNS name" value "a Service Name, '.', and a Namespace".

Definition QualifiedService_parse (value : string) : Result QualifiedService ValueError :=
  match split_once "/" value with
  | None => Err (qualified_service_error value)
  | Some (namespace, name) =>
      let? namespace := map_err (λ _, qualified_service_error value) (Namespace_parse namespace) in
      let? name := map_err (λ _, qualified_service_error value) (ServiceName_parse name) in
      Ok {| qs_namespace := namespace; qs_name := name |}
  end.

Definition QualifiedService_dns_name (self : QualifiedService) : string :=
  self.(qs_name) +:+ "." +:+ self.(qs_namespace).

Definition QualifiedService_parse_dns_name (value : string) : Result QualifiedService ValueError :=
  match split_once "." value with
  | None => Err (dns_name_error value)
  | Some (name, namespace) =>
      if bytes_any (is_byte ".") namespace then Err (dns_name_error value)
      else
        let? namespace := map_err (λ _, dns_name_error value) (Namespace_parse namespace) in
        let? name := map_err (λ _, dns_name_error value) (ServiceName_parse name) in
        Ok {| qs_namespace := namespace; qs_name := name |}
  end.

Definition QualifiedService_to_string (self : QualifiedService) : string :=
  self.(qs_namespace) +:+ "/" +:+ self.(qs_name).

(** The derived order: Namespace, then Service Name. *)
#[global] Instance QualifiedService_ord : Ord QualifiedService :=
  λ a b, cmp (a.(qs_namespace), a.(qs_name)) (b.(qs_namespace), b.(qs_name)).
#[global] Instance QualifiedService_ord_laws : OrdLaws QualifiedService.
Proof.
  split; unfold cmp, QualifiedService_ord.
  - intros [a b] [c d]; simpl. rewrite cmp_Eq. naive_solver.
  - intros. apply cmp_opp.
  - intros. eapply cmp_trans; eauto.
Qed.

(** [ployz-core/src/domain/selector.rs]: qualify a bare Service Name. *)
Definition ServiceSelector_with_namespace (self : ServiceSelector) (namespace : Namespace)
    : Result ServiceSelector ValueError :=
  if is_ok (ServiceId_parse self) || is_ok (QualifiedService_parse self) then Ok self
  else
    let? name := ServiceName_parse self in
    Ok (QualifiedService_to_string (QualifiedService_new namespace name)).

(** ** Hostnames *)

Definition IngressHost_parse : string → Result IngressHost ValueError :=
  validated_parse "Ingress Hostname" "a 1-253 character lowercase DNS hostname" is_hostname.

Definition is_certificate_host (v : string) : bool :=
  is_hostname v || option_test is_hostname (strip_prefix "*." v).
Definition CertificateHost_parse : string → Result CertificateHost ValueError :=
  validated_parse "certificate hostname"
    "a lowercase DNS hostname or a single-level wildcard such as *.example.com"
    is_certificate_host.

Definition CertificateHost_is_wildcard (self : CertificateHost) : bool := starts_with "*." self.

Definition CertificateHost_covers (self : CertificateHost) (hostname : IngressHost) : bool :=
  match strip_prefix "*." self with
  | Some parent =>
      option_test (λ halves, String.eqb (snd halves) parent) (split_once "." hostname)
  | None => String.eqb self hostname
  end.

(** ** Wire names *)

Definition is_capability_segment (segment : string) : bool :=
  negb (str_is_empty segment) && bytes_all is_label_byte segment.
Definition CapabilityName_parse : string → Result string ValueError :=
  validated_parse "capability name" "at least three dot-separated lowercase namespace segments"
    (λ v, Nat.leb 3 (length (split_byte "." v)) && forallb is_capability_segment (split_byte "." v)).

Definition CloudEnrollToken_parse (value : string) : Result string ValueError :=
  if str_is_empty value then Err (ValueError_new "Cloud Enroll Token" value "a non-empty bearer")
  else Ok value.

Definition DeploymentLogId_parse : string → Result string ValueError :=
  validated_parse "deployment log ID" "1..128 ASCII letters, digits, hyphens or underscores"
    (λ v, negb (str_is_empty v) && Nat.leb (String.length v) 128
          && bytes_all (λ b, is_ascii_alphanumeric b || (b =? 45)%N || (b =? 95)%N) v).

(** ** Lemmas *)

#[local] Arguments Ascii.eqb : simpl never.

Lemma validated_parse_Ok label expected valid v r :
  validated_parse label expected valid v = Ok r ↔ r = v ∧ valid v = true.
Proof. unfold validated_parse. destruct (valid v); naive_solver. Qed.

Lemma hex_id_parse_Ok label len expected v r :
  hex_id_parse label len expected v = Ok r ↔ r = v ∧ is_lower_hex v len = true.
Proof. unfold hex_id_parse. destruct (is_lower_hex v len); naive_solver. Qed.

(** A DNS label is made of label bytes, none of which is a separator. *)
Lemma dns_label_bytes v : is_dns_label v = true → bytes_all is_label_byte v = true.
Proof. unfold is_dns_label. by intros [_ ?]%andb_true_iff. Qed.

Lemma dns_label_nonempty v : is_dns_label v = true → v ≠ "".
Proof. by intros H ->. Qed.

Lemma label_byte_sep c b :
  is_label_byte (byte_of c) = false → is_label_byte b = true → is_byte c b = false.
Proof. intros Hc Hb. unfold is_byte. apply N.eqb_neq. intros ->. congruence. Qed.

Lemma dns_label_no_byte c v :
  is_label_byte (byte_of c) = false → is_dns_label v = true → bytes_any (is_byte c) v = false.
Proof.
  intros Hc Hv. eapply bytes_all_not_any; [|by apply dns_label_bytes].
  intros b. by apply label_byte_sep.
Qed.

Lemma is_ok_parse_label label expected v :
  is_ok (validated_parse label expected is_dns_label v) = is_dns_label v.
Proof. unfold validated_parse. by destruct (is_dns_label v). Qed.

Lemma QualifiedService_parse_spec s q :
  QualifiedService_parse s = Ok q ↔
  s = QualifiedService_to_string q ∧
  is_dns_label q.(qs_namespace) = true ∧ is_dns_label q.(qs_name) = true.
Proof.
  unfold QualifiedService_parse, QualifiedService_to_string. split.
  - destruct (split_once "/" s) as [[ns n]|] eqn:Hs; [|done].
    apply split_once_Some in Hs as ->. intros H. run_result.
    destruct (Namespace_parse ns) eqn:Hns; simpl in *; [|done].
    destruct (ServiceName_parse n) eqn:Hn; simpl in *; [|done].
    apply validated_parse_Ok in Hns as [-> ?], Hn as [-> ?]. naive_solver.
  - intros (-> & Hns & Hn). destruct q as [ns n]; simpl in *.
    rewrite split_once_char by (by apply dns_label_no_byte).
    unfold Namespace_parse, ServiceName_parse, validated_parse. by rewrite Hns, Hn.
Qed.

(** ** Identities and their text *)

(** a Qualified Service and its text are in bijection: parsing what is displayed gives
    the Service back, and whatever parses is displayed as it was written. *)
Theorem qualified_service_roundtrip q :
  (is_dns_label q.(qs_namespace) = true ∧ is_dns_label q.(qs_name) = true ↔
   QualifiedService_parse (QualifiedService_to_string q) = Ok q) ∧
  (∀ s, QualifiedService_parse s = Ok q → QualifiedService_to_string q = s).
Proof.
  split.
  - rewrite QualifiedService_parse_spec. naive_solver.
  - by intros s [-> _]%QualifiedService_parse_spec.
Qed.

(** the Internal DNS name of a valid Qualified Service reads back as that Service, and a
    DNS name that reads as a Service is that Service's only name. *)
Theorem dns_name_roundtrip q :
  (is_dns_label q.(qs_namespace) = true → is_dns_label q.(qs_name) = true →
   QualifiedService_parse_dns_name (QualifiedService_dns_name q) = Ok q) ∧
  (∀ s, QualifiedService_parse_dns_name s = Ok q → QualifiedService_dns_name q = s).
Proof.
  destruct q as [ns n]. unfold QualifiedService_dns_name, QualifiedService_parse_dns_name.
  simpl. split.
  - intros Hns Hn. rewrite split_once_char by (by apply dns_label_no_byte).
    rewrite dns_label_no_byte by done.
    unfold Namespace_parse, ServiceName_parse, validated_parse. by rewrite Hns, Hn.
  - intros s. destruct (split_once "." s) as [[a b]|] eqn:Hs; [|done].
    apply split_once_Some in Hs as ->. destruct (bytes_any _ b); [done|].
    destruct (Namespace_parse b) eqn:Hb; simpl; [|done].
    destruct (ServiceName_parse a) eqn:Ha; simpl; [|done].
    apply validated_parse_Ok in Ha as [-> _], Hb as [-> _]. naive_solver.
Qed.

Lemma dns_name_roundtrip_witness :
  QualifiedService_parse_dns_name "web.shop" = Ok (QualifiedService_new "shop" "web").
Proof.
  apply (dns_name_roundtrip (QualifiedService_new "shop" "web")); vm_compute; reflexivity.
Defined.

(** the physical name of a declared Volume identifies its Namespace and its logical
    name, so two Namespaces never own the same Docker Volume. *)
Theorem volume_name_injective ns1 ns2 l1 l2 :
  is_dns_label ns1 = true → is_dns_label ns2 = true →
  Namespace_volume_name ns1 l1 = Namespace_volume_name ns2 l2 → ns1 = ns2 ∧ l1 = l2.
Proof.
  unfold Namespace_volume_name. intros H1 H2 Heq.
  pose proof (split_once_byte "_" "" ns1 l1) as Hs1.
  pose proof (split_once_byte "_" "" ns2 l2) as Hs2.
  rewrite Heq in Hs1. rewrite Hs2 in Hs1 by (by apply dns_label_no_byte).
  pose proof (Hs1 (dns_label_no_byte "_" _ eq_refl H1)). naive_solver.
Qed.

Lemma volume_name_injective_witness :
  Namespace_volume_name "shop" "data_cache" = "shop_data_cache" ∧ "shop" = "shop" ∧
  "data_cache" = "data_cache".
Proof.
  split; [reflexivity|].
  apply (volume_name_injective "shop" "shop" "data_cache" "data_cache"); vm_compute; reflexivity.
Defined.

Lemma hostname_first_label h a b :
  is_hostname h = true → split_once "." h = Some (a, b) → is_dns_label a = true.
Proof.
  intros [_ Hall]%andb_true_iff Hs.
  pose proof (split_once_byte_first _ _ _ _ Hs) as Ha.
  apply split_once_Some in Hs as ->. clear -Ha Hall.
  assert (split_byte "." (a +:+ String "." "" +:+ b) = a :: split_byte "." b) as Hsp.
  { clear Hall. induction a as [|c a IH]; [done|]. cbn [bytes_any] in Ha.
    rewrite is_byte_spec in Ha. apply orb_false_iff in Ha as [Hc Ha].
    simpl. rewrite (Ascii.eqb_sym c "."), Hc. simpl in IH. by rewrite IH. }
  rewrite Hsp in Hall. by apply andb_true_iff in Hall as [-> _].
Qed.

(** Certificate Material covers exactly the name it is held under, or, for a wildcard,
    the names one DNS label below its parent; a wildcard never covers a deeper name. *)
Theorem covers_spec (self : CertificateHost) (hostname : IngressHost) :
  is_certificate_host self = true → is_hostname hostname = true →
  CertificateHost_covers self hostname = true ↔
  self = hostname ∨
  ∃ label parent, self = "*." +:+ parent ∧ hostname = label +:+ "." +:+ parent ∧
    is_dns_label label = true.
Proof.
  intros Hself Hhost. unfold CertificateHost_covers.
  assert (∀ p, hostname ≠ "*." +:+ p) as Hstar.
  { intros p ->. change ("*." +:+ p) with ("*" +:+ "." +:+ p) in Hhost.
    pose proof (hostname_first_label _ _ _ Hhost (split_once_byte "." "" "*" p eq_refl)). done. }
  destruct (strip_prefix "*." self) as [parent|] eqn:Hp.
  - apply strip_prefix_Some in Hp as ->. split.
    + destruct (split_once "." hostname) as [[a b]|] eqn:Hs; [|done]. simpl.
      intros Hb%String.eqb_eq. subst b. right. exists a, parent.
      split_and!; [done|by apply (split_once_Some ".")|by eapply hostname_first_label].
    + intros [Heq|(label & parent' & Heq & -> & Hl)]; [by destruct (Hstar parent)|].
      apply str_app_inj_l in Heq as <-.
      simpl. rewrite split_once_char by (by apply dns_label_no_byte). apply String.eqb_refl.
  - rewrite String.eqb_eq. split; [by left|]. intros [?|(l & p & -> & _)]; [done|].
    by rewrite strip_prefix_app in Hp.
Qed.

Lemma covers_spec_witness :
  CertificateHost_covers "*.example.com" "api.example.com" = true ∧
  CertificateHost_covers "*.example.com" "a.b.example.com" = false.
Proof.
  split; [|reflexivity]. apply covers_spec; [vm_compute; reflexivity..|].
  right. by exists "api", "example.com".
Defined.

(** qualifying a selector with a Namespace is stable: the result is itself a Service ID
    or a Qualified Service, so qualifying it again, under any Namespace, changes nothing. *)
Theorem with_namespace_stable sel ns ns' r :
  is_dns_label ns = true → ServiceSelector_with_namespace sel ns = Ok r →
  (is_ok (ServiceId_parse r) = true ∨ is_ok (QualifiedService_parse r) = true) ∧
  ServiceSelector_with_namespace r ns' = Ok r.
Proof.
  intros Hns. unfold ServiceSelector_with_namespace at 1.
  assert (is_ok (ServiceId_parse r) || is_ok (QualifiedService_parse r) = true →
    (is_ok (ServiceId_parse r) = true ∨ is_ok (QualifiedService_parse r) = true) ∧
    ServiceSelector_with_namespace r ns' = Ok r) as Hdone.
  { intros Ho. unfold ServiceSelector_with_namespace. rewrite Ho.
    by apply orb_true_iff in Ho. }
  destruct (is_ok (ServiceId_parse sel) || _) eqn:Ho; intros H; [run_result; subst; auto|].
  apply result_bind_Ok in H as (name & [-> Hname]%validated_parse_Ok & [= <-]). apply Hdone. apply orb_true_iff. right.
  apply is_ok_true. eexists. apply QualifiedService_parse_spec. by split_and!.
Qed.

Lemma with_namespace_stable_witness :
  ServiceSelector_with_namespace "web" "shop" = Ok "shop/web" ∧
  (is_ok (ServiceId_parse "shop/web") = true ∨ is_ok (QualifiedService_parse "shop/web") = true) ∧
  ServiceSelector_with_namespace "shop/web" "blog" = Ok "shop/web".
Proof.
  split; [reflexivity|].
  apply (with_namespace_stable "web" "shop" "blog" "shop/web"); vm_compute; reflexivity.
Defined.
