(* ===== verification/Machines.v ===== *)
(** * Machines and placement constraints

    [ployz-core/src/domain/machine.rs], [domain/placement.rs] and the name
    lookups of [domain/mod.rs]: the advertised record of a Machine, its
    metadata edits, target resolution and Swarm placement predicates.

    An IP address is its 32- or 128-bit number; a Machine Subnet, always an
    IPv4 /24, is its network address. *)

From S2P Require Import Prelude BTree Strings Values.
From Stdlib Require Import Ascii.

Open Scope string_scope.
Open Scope list_scope.

(** ** Name lookups *)

Inductive NameMatches (T : Type) : Type :=
| NM_None
| NM_One (value : T)
| NM_Ambiguous (first second : T) (rest : list T).
Arguments NM_None {T}.
Arguments NM_One {T} value.
Arguments NM_Ambiguous {T} first second rest.

Definition NameMatches_from_matches {T} (matches : list T) : NameMatches T :=
  match matches with
  | [] => NM_None
  | [first] => NM_One first
  | first :: second :: rest => NM_Ambiguous first second rest
  end.

Definition NameMatches_iter {T} (self : NameMatches T) : list T :=
  match self with
  | NM_None => []
  | NM_One first => [first]
  | NM_Ambiguous first second rest => first :: second :: rest
  end.

(** ** Addresses *)

Inductive IpAddr : Type := V4 (addr : N) | V6 (addr : N).
#[global] Instance IpAddr_eq_dec : EqDecision IpAddr.
Proof. solve_decision. Defined.

Inductive SocketAddr : Type :=
| SocketV4 (ip port : N)
| SocketV6 (ip port flowinfo scope_id : N).
#[global] Instance SocketAddr_eq_dec : EqDecision SocketAddr.
Proof. solve_decision. Defined.

(** 32 key bytes. *)
Abbreviation WireGuardPublicKey := (list N) (only parsing).
(** 16 address bytes. *)
Abbreviation ManagementAddress := (list N) (only parsing).
Abbreviation MachineSubnet := N (only parsing).

(** The derived order on byte arrays. *)
Fixpoint bytes_cmp (a b : list N) : comparison :=
  match a, b with
  | [], [] => Eq
  | [], _ :: _ => Lt
  | _ :: _, [] => Gt
  | x :: a', y :: b' => match N.compare x y with Eq => bytes_cmp a' b' | c => c end
  end.
#[global] Instance bytes_ord : Ord (list N) := bytes_cmp.
#[global] Instance bytes_ord_laws : OrdLaws (list N).
Proof.
  split; unfold cmp, bytes_ord.
  - induction a as [|x a IH]; intros [|y b]; simpl; try naive_solver.
    destruct (N.compare_spec x y) as [->|Hxy|Hxy].
    + rewrite IH. naive_solver.
    + split; [done|]. intros [=]; subst; lia.
    + split; [done|]. intros [=]; subst; lia.
  - induction a as [|x a IH]; intros [|y b]; simpl; try done.
    rewrite (N.compare_antisym x). destruct (N.compare x _); simpl; auto.
  - induction a as [|x a IH]; intros [|y b] [|z c]; simpl; try done.
    destruct (N.compare_spec x y), (N.compare_spec y z), (N.compare_spec x z);
    try lia; try done; eauto.
Qed.

(** ** The advertised record *)

Record MachineRuntime : Type := {
  daemon_version : string;
  docker_version : string;
  runtime_hostname : string;
  architecture : string;
  os_pretty_name : string;
  kernel_version : string;
  memory_total_bytes : option N;
  running_builds : N
}.

(** A [NonZeroU8]. *)
Abbreviation BuildConcurrency := N (only parsing).

Record Machine : Type := {
  machine_labels : bmap MachineLabelKey MachineLabelValue;
  accepts_builds : bool;
  accepts_services : bool;
  accepts_ingress : bool;
  machine_id : MachineId;
  machine_name : MachineName;
  machine_subnet : MachineSubnet;
  machine_public_key : WireGuardPublicKey;
  machine_public_ip : option IpAddr;
  machine_advertised_endpoints : list SocketAddr;
  machine_runtime : MachineRuntime;
  machine_build_concurrency : option BuildConcurrency
}.

#[global] Instance MachineRuntime_eq_dec : EqDecision MachineRuntime.
Proof. solve_decision. Defined.
#[global] Instance Machine_eq_dec : EqDecision Machine.
Proof. solve_decision. Defined.

Record InitialMachinePolicy : Type := {
  policy_labels : bmap MachineLabelKey MachineLabelValue;
  policy_accepts_builds : bool;
  policy_accepts_services : bool;
  policy_accepts_ingress : bool
}.

Definition InitialMachinePolicy_matches (self : InitialMachinePolicy) (machine : Machine) : bool :=
  bool_decide (self.(policy_labels) = machine.(machine_labels))
  && Bool.eqb self.(policy_accepts_builds) machine.(accepts_builds)
  && Bool.eqb self.(policy_accepts_services) machine.(accepts_services)
  && Bool.eqb self.(policy_accepts_ingress) machine.(accepts_ingress).

Definition InitialMachinePolicy_default : InitialMachinePolicy :=
  {| policy_labels := []; policy_accepts_builds := true;
     policy_accepts_services := true; policy_accepts_ingress := true |}.

Definition AUTOMATIC_MAX : N := 4.
Definition AUTOMATIC_BYTES_PER_BUILD : N := 4000000000.

(** [None] is the [expect] panic on a count that is not a [NonZeroU8]. *)
Definition BuildConcurrency_automatic (accepts_services : bool) (memory : option N)
    : option BuildConcurrency :=
  let builds :=
    match memory with
    | Some bytes =>
        if negb accepts_services
        then N.min (N.max (bytes / AUTOMATIC_BYTES_PER_BUILD) 1) AUTOMATIC_MAX
        else 1%N
    | None => 1%N
    end in
  if ((builds <=? 255) && negb (builds =? 0))%N then Some builds else None.

Definition Machine_effective_build_concurrency (self : Machine) : option BuildConcurrency :=
  match self.(machine_build_concurrency) with
  | Some concurrency => Some concurrency
  | None =>
      BuildConcurrency_automatic self.(accepts_services)
        self.(machine_runtime).(memory_total_bytes)
  end.

Definition management_address (public_key : WireGuardPublicKey) : ManagementAddress :=
  [253; 204]%N ++ take 14 public_key.

(** ** Metadata edits *)

Inductive PublicIpUpdate : Type := IpKeep | IpRemove | IpSet (address : IpAddr).
Inductive BuildConcurrencyUpdate : Type :=
| ConcurrencyKeep | ConcurrencyAutomatic | ConcurrencySet (value : BuildConcurrency).

Record MachineUpdate : Type := {
  label_changes : bmap MachineLabelKey (option MachineLabelValue);
  update_accepts_builds : option bool;
  update_accepts_services : option bool;
  update_accepts_ingress : option bool;
  update_name : option MachineName;
  update_public_ip : PublicIpUpdate;
  update_advertised_endpoints : option (list SocketAddr);
  update_build_concurrency : BuildConcurrencyUpdate
}.

Definition opt_none {A} (o : option A) : bool := match o with None => true | Some _ => false end.

Definition MachineUpdate_is_empty (self : MachineUpdate) : bool :=
  match self.(label_changes) with [] => true | _ => false end
  && opt_none self.(update_accepts_builds)
  && opt_none self.(update_accepts_services)
  && opt_none self.(update_accepts_ingress)
  && opt_none self.(update_name)
  && match self.(update_public_ip) with IpKeep => true | _ => false end
  && opt_none self.(update_advertised_endpoints)
  && match self.(update_build_concurrency) with ConcurrencyKeep => true | _ => false end.

Inductive MachineUpdateError : Type := DuplicateName | MissingEndpoints.

Definition apply_label_change (labels : bmap MachineLabelKey MachineLabelValue)
    (change : MachineLabelKey * option MachineLabelValue) :=
  match change with
  | (key, Some value) => binsert key value labels
  | (key, None) => bremove key labels
  end.

Definition apply_machine_update (machine : Machine) (visible : list Machine)
    (update : MachineUpdate) : Result Machine MachineUpdateError :=
  if option_test
       (λ name,
          negb (String.eqb name machine.(machine_name))
          && existsb (λ other, negb (String.eqb other.(machine_id) machine.(machine_id))
                               && String.eqb other.(machine_name) name) visible)
       update.(update_name)
  then Err DuplicateName
  else if option_test (λ endpoints, bool_decide (endpoints = [])) update.(update_advertised_endpoints)
  then Err MissingEndpoints
  else
    Ok {| machine_labels := fold_left apply_label_change update.(label_changes)
                              machine.(machine_labels);
          accepts_builds := default machine.(accepts_builds) update.(update_accepts_builds);
          accepts_services := default machine.(accepts_services) update.(update_accepts_services);
          accepts_ingress := default machine.(accepts_ingress) update.(update_accepts_ingress);
          machine_id := machine.(machine_id);
          machine_name := default machine.(machine_name) update.(update_name);
          machine_subnet := machine.(machine_subnet);
          machine_public_key := machine.(machine_public_key);
          machine_public_ip :=
            match update.(update_public_ip) with
            | IpKeep => machine.(machine_public_ip)
            | IpRemove => None
            | IpSet address => Some address
            end;
          machine_advertised_endpoints :=
            default machine.(machine_advertised_endpoints) update.(update_advertised_endpoints);
          machine_runtime := machine.(machine_runtime);
          machine_build_concurrency :=
            match update.(update_build_concurrency) with
            | ConcurrencyKeep => machine.(machine_build_concurrency)
            | ConcurrencyAutomatic => None
            | ConcurrencySet concurrency => Some concurrency
            end |}.

(** ** Target resolution *)

(** The loop: the last exact ID seen, and every name match in order. *)
Definition resolve_machine_text (text : string) (visible : list Machine) : NameMatches Machine :=
  let '(exact_id, names) :=
    fold_left
      (λ acc machine,
         ((if String.eqb machine.(machine_id) text then Some machine else acc.1),
          (if String.eqb machine.(machine_name) text then acc.2 ++ [machine] else acc.2)))
      visible (None, []) in
  match exact_id with
  | Some machine => NM_One machine
  | None => NameMatches_from_matches names
  end.

Definition machine_matches_target (machine : Machine) (target : MachineTarget) : bool :=
  String.eqb machine.(machine_id) target || String.eqb machine.(machine_name) target.

Inductive MachineSelectorError : Type :=
| NoTargets
| NoVisibleMachines
| MachineNotFound (targets : list MachineTarget)
| MachineAmbiguous (selector : MachineTarget) (matches : list MachineId).

(** [targets], [seen] and [missing] of the loop. *)
Record SelectorState : Type := {
  sel_targets : list Machine;
  sel_seen : bset MachineId;
  sel_missing : list MachineTarget
}.

Definition sel_push (st : SelectorState) (machine : Machine) : SelectorState :=
  if bool_decide (machine.(machine_id) ∈ st.(sel_seen)) then st
  else {| sel_targets := st.(sel_targets) ++ [machine];
          sel_seen := bset_insert machine.(machine_id) st.(sel_seen);
          sel_missing := st.(sel_missing) |}.

Definition select_one (visible : list Machine) (st : SelectorState) (selector : FanoutSelector)
    : Result SelectorState MachineSelectorError :=
  match selector with
  | All => Ok (fold_left sel_push visible st)
  | One target =>
      match resolve_machine_text target visible with
      | NM_One machine => Ok (sel_push st machine)
      | NM_None =>
          Ok {| sel_targets := st.(sel_targets); sel_seen := st.(sel_seen);
                sel_missing := st.(sel_missing) ++ [target] |}
      | NM_Ambiguous _ _ _ as matches =>
          Err (MachineAmbiguous target (map machine_id (NameMatches_iter matches)))
      end
  end.

Definition resolve_machine_selectors (visible : list Machine) (selectors : list FanoutSelector)
    : Result (list Machine) MachineSelectorError :=
  match selectors with
  | [] => Err NoTargets
  | _ =>
      let? st := try_fold (select_one visible) selectors
                   {| sel_targets := []; sel_seen := []; sel_missing := [] |} in
      match st.(sel_missing), st.(sel_targets) with
      | _ :: _, _ => Err (MachineNotFound st.(sel_missing))
      | [], [] => Err NoVisibleMachines
      | [], _ :: _ => Ok st.(sel_targets)
      end
  end.

(** ** Membership *)

Inductive MembershipObservation : Type :=
| MembershipUnknown | MembershipUp | MembershipSuspect | MembershipDown
| MembershipUnrecognized (value : string).
#[global] Instance MembershipObservation_eq_dec : EqDecision MembershipObservation.
Proof. solve_decision. Defined.

(** [as_str] and [From<&str>] of [open_string_enum!]. *)
Definition MembershipObservation_as_str (self : MembershipObservation) : string :=
  match self with
  | MembershipUnknown => "unknown" | MembershipUp => "up"
  | MembershipSuspect => "suspect" | MembershipDown => "down"
  | MembershipUnrecognized value => value
  end.
Definition MembershipObservation_from (value : string) : MembershipObservation :=
  if String.eqb value "unknown" then MembershipUnknown
  else if String.eqb value "up" then MembershipUp
  else if String.eqb value "suspect" then MembershipSuspect
  else if String.eqb value "down" then MembershipDown
  else MembershipUnrecognized value.

Definition MembershipObservation_invites_rpc (self : MembershipObservation) : bool :=
  match self with MembershipUp | MembershipSuspect => true | _ => false end.

Inductive MachineStorageObservation : Type :=
| StorageStateless
| StorageReady
| StoragePool (size_bytes used_bytes free_bytes : N).
#[global] Instance MachineStorageObservation_eq_dec : EqDecision MachineStorageObservation.
Proof. solve_decision. Defined.

Record RttStatistics : Type := { median_ns : N; population_stddev_ns : N }.

Record MachineObservation : Type := {
  mo_machine : Machine;
  mo_membership : MembershipObservation;
  mo_storage : option MachineStorageObservation;
  mo_selected_endpoint : option SocketAddr;
  mo_rtt : option RttStatistics
}.

Definition MachineObservation_new (machine : Machine) (membership : MembershipObservation)
    : MachineObservation :=
  {| mo_machine := machine; mo_membership := membership; mo_storage := None;
     mo_selected_endpoint := None; mo_rtt := None |}.

Definition synthesize_membership (machines : list Machine) (responder_id : MachineId)
    (states : bmap ManagementAddress MembershipObservation) : list MachineObservation :=
  map (λ machine,
         MachineObservation_new machine
           (if String.eqb machine.(machine_id) responder_id then MembershipUp
            else default MembershipDown
                   (bget states (management_address machine.(machine_public_key)))))
    machines.

(** ** Placement constraints *)

Abbreviation PlacementConstraint := string (only parsing).

Definition constraint_halves (expression : string) : option (string * string * string) :=
  find_map
    (λ operator,
       match split_once operator expression with
       | Some (key, value) => Some (trim key, operator, trim value)
       | None => None
       end)
    ["=="; "!="].

Definition label_prefix : string := "node.labels.".

(** [s.get(..n)], on ASCII text. *)
Definition str_take (n : nat) (s : string) : string := String.substring 0 n s.
Definition str_drop (n : nat) (s : string) : string :=
  String.substring n (String.length s - n) s.

Definition canonical_key (key : string) : option string :=
  if eq_ignore_ascii_case key "node.id" then Some "node.id"
  else if Nat.leb (String.length key) (String.length label_prefix)
          || negb (eq_ignore_ascii_case (str_take (String.length label_prefix) key) label_prefix)
  then None
  else Some (label_prefix +:+ str_drop (String.length label_prefix) key).

(** [Err] carries the rejected expression. *)
Definition PlacementConstraint_parse (expression : string) : Result PlacementConstraint string :=
  ok_or
    ('(key, operator, value) ← constraint_halves expression;
     if negb (bytes_all is_swarm_key_byte key)
        || str_is_empty value
        || negb (bytes_all is_swarm_value_byte value)
     then None
     else
       key ← canonical_key key;
       Some (key +:+ operator +:+ to_ascii_lowercase value))
    expression.

(** [None] is the [expect] panic on an expression with neither operator. *)
Definition PlacementConstraint_matches (self : PlacementConstraint) (machine : Machine)
    : option bool :=
  '(key, value, equal) ←
    match split_once "==" self with
    | Some (key, value) => Some (key, value, true)
    | None =>
        match split_once "!=" self with
        | Some (key, value) => Some (key, value, false)
        | None => None
        end
    end;
  let actual :=
    match strip_prefix label_prefix key with
    | None => machine.(machine_id)
    | Some label => default "" (bget machine.(machine_labels) label)
    end in
  Some (Bool.eqb (eq_ignore_ascii_case actual value) equal).

Record Placement : Type := { constraints : bset PlacementConstraint }.

(** [Iterator::all] over calls that may panic: it stops at the first [false]. *)
Fixpoint all_panicking {A} (p : A → option bool) (l : list A) : option bool :=
  match l with
  | [] => Some true
  | x :: l' =>
      match p x with
      | None => None
      | Some false => Some false
      | Some true => all_panicking p l'
      end
  end.

Definition machine_matches_placement (machine : Machine) (placement : Placement) : option bool :=
  all_panicking (λ c, PlacementConstraint_matches c machine) placement.(constraints).

(** ** Lemmas on constraints *)

(** The Machine text a selector key names. *)
Definition selected_text (machine : Machine) (key : string) : string :=
  if eq_ignore_ascii_case key "node.id" then machine.(machine_id)
  else default "" (bget machine.(machine_labels) (str_drop (String.length label_prefix) key)).

Lemma swarm_key_ascii b : is_swarm_key_byte b = true → is_ascii b = true.
Proof.
  unfold is_swarm_key_byte, is_ascii_alphanumeric, is_ascii_digit, is_ascii_lowercase,
    is_ascii_uppercase, byte_between, is_ascii. simpl. case_N_tests; simpl; (done || lia).
Qed.

Lemma swarm_value_ascii b : is_swarm_value_byte b = true → is_ascii b = true.
Proof.
  unfold is_swarm_value_byte, is_ascii_alphanumeric, is_ascii_digit, is_ascii_lowercase,
    is_ascii_uppercase, byte_between, is_ascii.
  destruct (N.ltb_spec b 128); [done|]. intros Hb.
  repeat (apply orb_true_iff in Hb as [Hb|Hb]); simpl in Hb;
  repeat (apply orb_true_iff in Hb as [Hb|Hb]); try done;
  (apply andb_true_iff in Hb as [?%N.leb_le ?%N.leb_le] || apply N.eqb_eq in Hb); lia.
Qed.

Lemma swarm_key_not_ws b : is_swarm_key_byte b = true → is_ws1 b = false.
Proof.
  unfold is_swarm_key_byte, is_ws1, is_ascii_alphanumeric, is_ascii_digit, is_ascii_lowercase,
    is_ascii_uppercase, byte_between. simpl. case_N_tests; simpl; (done || lia).
Qed.

Lemma swarm_not_byte c p :
  p (byte_of c) = false → ∀ b, p b = true → is_byte c b = false.
Proof. intros Hc b Hb. unfold is_byte. apply N.eqb_neq. intros ->. congruence. Qed.

Lemma swarm_value_lower c :
  is_swarm_value_byte (byte_of c) = true → is_swarm_value_byte (byte_of (ascii_lower c)) = true.
Proof. by destruct c as [[] [] [] [] [] [] [] []]; vm_compute. Qed.

(** A canonical key: [node.id] or a Label selector, in swarm key bytes. *)
Definition is_canonical_key (key : string) : Prop :=
  bytes_all is_swarm_key_byte key = true ∧
  (key = "node.id" ∨ ∃ label, label ≠ "" ∧ key = label_prefix +:+ label).

Lemma str_drop_app p s : str_drop (String.length p) (p +:+ s) = s.
Proof.
  unfold str_drop. rewrite str_app_length.
  replace (String.length p + String.length s - String.length p)%nat
    with (String.length s) by lia.
  induction p as [|c p IH]; simpl; [|done].
  induction s as [|c s IH]; simpl; congruence.
Qed.

Lemma str_take_app p s : str_take (String.length p) (p +:+ s) = p.
Proof. unfold str_take. induction p as [|c p IH]; simpl; [by destruct s|]. by f_equal. Qed.

Lemma str_split_at n s : (n ≤ String.length s)%nat → s = str_take n s +:+ str_drop n s.
Proof.
  revert s. induction n as [|n IH]; intros s Hn.
  - unfold str_take, str_drop. destruct s as [|c s]; [done|]. simpl. f_equal.
    clear Hn. induction s as [|d s IH]; simpl; congruence.
  - destruct s as [|c s]; simpl in Hn; [lia|].
    unfold str_take, str_drop in *. simpl. f_equal. apply IH. lia.
Qed.

Lemma canonical_key_spec key k :
  bytes_all is_swarm_key_byte key = true → canonical_key key = Some k →
  is_canonical_key k ∧ (∀ m, selected_text m k = selected_text m key).
Proof.
  intros Hb. unfold canonical_key.
  destruct (eq_ignore_ascii_case key "node.id") eqn:Hid.
  - intros [= <-]. split; [by split; [vm_compute|left]|].
    intros m. unfold selected_text. by rewrite Hid.
  - destruct (Nat.leb_spec (String.length key) (String.length label_prefix)) as [|Hlen]; [done|].
    destruct (eq_ignore_ascii_case (str_take _ key) label_prefix); [|done].
    cbn [orb negb]. set (label := str_drop _ key). intros Hk.
    assert (k = label_prefix +:+ label) as -> by congruence. clear Hk.
    pose proof (str_split_at (String.length label_prefix) key ltac:(lia)) as Hsplit.
    fold label in Hsplit. split; [split|].
    + rewrite bytes_all_app. rewrite Hsplit, bytes_all_app in Hb.
      by apply andb_true_iff in Hb as [_ ->].
    + right. exists label. split; [|done]. intros Hl. rewrite Hl, str_app_nil_r in Hsplit.
      apply (f_equal String.length) in Hsplit. revert Hsplit Hlen. unfold str_take.
      generalize (String.length label_prefix) as n. clear.
      induction key as [|c key IH]; intros [|n]; simpl; try lia.
      intros [= H] Hn. apply (IH n); [done|lia].
    + intros m. unfold selected_text. rewrite Hid.
      destruct (eq_ignore_ascii_case (label_prefix +:+ label) "node.id") eqn:Hc.
      * unfold eq_ignore_ascii_case in Hc. apply String.eqb_eq in Hc.
        apply (f_equal String.length) in Hc. rewrite !lower_length, str_app_length in Hc.
        simpl in Hc. lia.
      * by rewrite str_drop_app.
Qed.

Lemma canonical_key_fixed k :
  is_canonical_key k → canonical_key k = Some k ∧
  (∀ m, selected_text m k = match strip_prefix label_prefix k with
                            | None => m.(machine_id)
                            | Some label => default "" (bget m.(machine_labels) label)
                            end).
Proof.
  intros (_ & [->|(label & Hne & ->)]); [done|].
  assert (eq_ignore_ascii_case (label_prefix +:+ label) "node.id" = false) as Hid.
  { apply not_true_iff_false. intros Hc. apply String.eqb_eq in Hc.
    apply (f_equal String.length) in Hc. rewrite !lower_length, str_app_length in Hc.
    simpl in Hc. lia. }
  unfold canonical_key, selected_text. rewrite Hid, str_take_app, str_drop_app. split.
  - rewrite str_app_length.
    destruct (Nat.leb_spec (String.length label_prefix + String.length label)
      (String.length label_prefix)) as [Hl|].
    + destruct label; [done|]. simpl in Hl. lia.
    + done.
  - intros m. by rewrite strip_prefix_app.
Qed.

(** The shape of a canonical expression, and how it splits. *)
Definition is_operator (op : string) : Prop := op = "==" ∨ op = "!=".

Lemma canonical_halves k op v :
  bytes_all is_swarm_key_byte k = true → is_operator op →
  bytes_all is_swarm_value_byte v = true →
  split_once op (k +:+ op +:+ v) = Some (k, v) ∧
  (op = "!=" → split_once "==" (k +:+ op +:+ v) = None).
Proof.
  intros Hk Hop Hv.
  assert (∀ c, is_swarm_key_byte (byte_of c) = false → bytes_any (is_byte c) k = false) as Hkn.
  { intros c Hc. eapply bytes_all_not_any; [|exact Hk]. by apply swarm_not_byte. }
  assert (bytes_any (is_byte "=") v = false) as Hvn.
  { eapply bytes_all_not_any; [|exact Hv]. by apply swarm_not_byte. }
  destruct Hop as [-> | ->]; split; try done.
  - by apply split_once_byte, Hkn.
  - by apply split_once_byte, Hkn.
  - intros _. specialize (Hkn "="%char eq_refl). clear Hk Hv. induction k as [|c k IH].
    + change ("" +:+ "!=" +:+ v) with (String "!" (String "=" v)).
      rewrite split_once_skip by done. rewrite split_once_skip.
      * by rewrite split_once_byte_None.
      * destruct v as [|d v]; [done|]. cbn [bytes_any] in Hvn.
        rewrite is_byte_spec in Hvn. apply orb_false_iff in Hvn as [Hd _].
        cbn [strip_prefix]. rewrite Hd. by rewrite Ascii.eqb_refl.
    + cbn [bytes_any] in Hkn. rewrite is_byte_spec in Hkn.
      apply orb_false_iff in Hkn as [Hc Hk].
      change (String c k +:+ "!=" +:+ v) with (String c (k +:+ "!=" +:+ v)).
      rewrite split_once_skip by (cbn [strip_prefix]; by rewrite Hc). by rewrite IH.
Qed.

(** What a successful parse establishes. *)
Record parsed_constraint (expression c key op value : string) : Prop := {
  pc_halves : constraint_halves expression = Some (key, op, value);
  pc_key_bytes : bytes_all is_swarm_key_byte key = true;
  pc_value_bytes : bytes_all is_swarm_value_byte value = true;
  pc_value_nonempty : value ≠ "";
  pc_canonical : ∃ k, canonical_key key = Some k ∧ c = k +:+ op +:+ to_ascii_lowercase value
}.

Lemma parse_inv expression c :
  PlacementConstraint_parse expression = Ok c →
  ∃ key op value, parsed_constraint expression c key op value.
Proof.
  unfold PlacementConstraint_parse. intros H%ok_or_Ok.
  destruct (constraint_halves expression) as [[[key op] value]|] eqn:Hh; [|done].
  simpl in H. destruct (bytes_all is_swarm_key_byte key) eqn:Hkb; [|done].
  destruct (str_is_empty value) eqn:He; [done|].
  destruct (bytes_all is_swarm_value_byte value) eqn:Hvb; [|done]. simpl in H.
  destruct (canonical_key key) as [k|] eqn:Hk; [|done]. simpl in H.
  exists key, op, value. split; try done.
  - by destruct value.
  - exists k. split; [done|]. congruence.
Qed.

Lemma halves_operator expression key op value :
  constraint_halves expression = Some (key, op, value) →
  is_operator op ∧ (∃ raw, value = trim raw).
Proof.
  unfold constraint_halves, is_operator. simpl.
  destruct (split_once "==" expression) as [[a b]|]; [intros [= <- <- <-]; eauto|].
  destruct (split_once "!=" expression) as [[a b]|]; [intros [= <- <- <-]; eauto|done].
Qed.

Lemma parse_canonical k op value :
  is_canonical_key k → is_operator op → bytes_all is_swarm_value_byte value = true →
  trimmed value = true → value ≠ "" →
  PlacementConstraint_parse (k +:+ op +:+ value) = Ok (k +:+ op +:+ to_ascii_lowercase value).
Proof.
  intros Hk Hop Hv Ht Hne. pose proof Hk as [Hkb _].
  destruct (canonical_halves k op value Hkb Hop Hv) as [Hs Hs'].
  assert (trim k = k) as Htk.
  { apply trim_id.
    - eapply bytes_all_impl; [exact swarm_key_ascii|done].
    - apply no_ws_trimmed. eapply bytes_all_not_any; [exact swarm_key_not_ws|done]. }
  assert (trim value = value) as Htv.
  { apply trim_id; [|done]. eapply bytes_all_impl; [exact swarm_value_ascii|done]. }
  assert (constraint_halves (k +:+ op +:+ value) = Some (k, op, value)) as Hh.
  { unfold constraint_halves. cbn [find_map].
    destruct Hop as [-> | ->]; [|rewrite Hs' by done]; by rewrite Hs, Htk, Htv. }
  unfold PlacementConstraint_parse. rewrite Hh. simpl. rewrite Hkb, Hv.
  destruct (canonical_key_fixed k Hk) as [-> _]. by destruct value.
Qed.

Lemma parsed_constraint_facts expression c :
  PlacementConstraint_parse expression = Ok c →
  PlacementConstraint_parse c = Ok c ∧
  ∃ key op value,
    constraint_halves expression = Some (key, op, value) ∧
    ∀ machine,
      PlacementConstraint_matches c machine =
      Some (Bool.eqb (eq_ignore_ascii_case (selected_text machine key) value)
              (String.eqb op "==")).
Proof.
  intros (key & op & value & [Hh Hkb Hvb Hne (k & Hk & ->)])%parse_inv.
  destruct (canonical_key_spec key k Hkb Hk) as [Hck Hsel].
  destruct (halves_operator _ _ _ _ Hh) as [Hop (raw & Hraw)].
  set (lv := to_ascii_lowercase value).
  assert (bytes_all is_swarm_value_byte lv = true) as Hlv
    by (apply bytes_all_lower; [apply swarm_value_lower|done]).
  destruct (canonical_halves k op lv (proj1 Hck) Hop Hlv) as [Hs Hs'].
  split.
  - rewrite (parse_canonical k op lv); try done; subst lv.
    + by rewrite lower_idem.
    + rewrite trimmed_lower, Hraw. apply trim_trimmed.
    + by rewrite lower_empty.
  - exists key, op, value. split; [done|]. intros m. unfold PlacementConstraint_matches.
    destruct (canonical_key_fixed k Hck) as [_ Hfix].
    rewrite <-(Hsel m), Hfix.
    destruct Hop as [-> | ->].
    + rewrite Hs. simpl. unfold lv. by rewrite eq_ignore_case_lower.
    + rewrite Hs', Hs by done. simpl. unfold lv. by rewrite eq_ignore_case_lower.
Qed.

Lemma parse_matches c machine :
  PlacementConstraint_parse c = Ok c → ∃ b, PlacementConstraint_matches c machine = Some b.
Proof. intros (_ & ? & ? & ? & _ & Hm)%parsed_constraint_facts. eauto. Qed.

(** parsing a placement constraint is canonical and its result always evaluates: the
    stored text parses to itself, and matching a Machine never reaches the missing-operator
    panic.  It compares, ignoring ASCII case, the text the written key selects with the
    written value, negated for [!=]. *)
Theorem placement_constraint_canonical expression c :
  PlacementConstraint_parse expression = Ok c →
  PlacementConstraint_parse c = Ok c ∧
  ∃ key op value,
    constraint_halves expression = Some (key, op, value) ∧
    ∀ machine,
      PlacementConstraint_matches c machine =
      Some (Bool.eqb (eq_ignore_ascii_case (selected_text machine key) value)
              (String.eqb op "==")).
Proof. apply parsed_constraint_facts. Qed.

Lemma placement_constraint_canonical_witness :
  PlacementConstraint_parse " Node.Labels.Region ==  EU-West " = Ok "node.labels.Region==eu-west" ∧
  PlacementConstraint_parse "node.labels.Region==eu-west" = Ok "node.labels.Region==eu-west".
Proof.
  split; [vm_compute; reflexivity|].
  apply (placement_constraint_canonical " Node.Labels.Region ==  EU-West ").
  vm_compute; reflexivity.
Defined.

(** ** Metadata edits *)

Lemma fold_label_changes changes labels k :
  bwf changes →
  bget (fold_left apply_label_change changes labels) k =
  match bget changes k with Some change => change | None => bget labels k end.
Proof.
  revert labels. induction changes as [|[key change] changes IH]; intros labels Hwf; simpl; [done|].
  pose proof (bwf_NoDup _ Hwf) as [Hk _]%NoDup_cons. simpl in Hk.
  fold (bkeys changes) in Hk.
  rewrite IH by (by eapply bwf_tail). case_decide as He; subst.
  - apply bget_None in Hk as ->. destruct change; simpl.
    + apply bget_binsert_eq.
    + rewrite bget_bremove. by rewrite decide_True.
  - destruct (bget changes k); [done|]. destruct change; simpl.
    + by rewrite bget_binsert_ne.
    + rewrite bget_bremove. by rewrite decide_False.
Qed.

(** Two distinct Machines of a view never share a Name. *)
Definition unique_names (visible : list Machine) : Prop :=
  ∀ a b, a ∈ visible → b ∈ visible → a.(machine_name) = b.(machine_name) →
    a.(machine_id) = b.(machine_id).

(** The view after one Machine's record is replaced. *)
Definition replace_machine (updated : Machine) (visible : list Machine) : list Machine :=
  map (λ m, if String.eqb m.(machine_id) updated.(machine_id) then updated else m) visible.

(** an admitted metadata edit keeps the Machine's identity and keeps Names unique in the
    view it was checked against; each Label ends at the change requested for it, or where it
    was. *)
Theorem apply_machine_update_sound machine visible update updated :
  machine ∈ visible → unique_names visible → bwf update.(label_changes) →
  apply_machine_update machine visible update = Ok updated →
  unique_names (replace_machine updated visible) ∧
  updated.(machine_id) = machine.(machine_id) ∧
  updated.(machine_public_key) = machine.(machine_public_key) ∧
  updated.(machine_advertised_endpoints) =
    default machine.(machine_advertised_endpoints) update.(update_advertised_endpoints) ∧
  (∀ key, bget updated.(machine_labels) key =
     match bget update.(label_changes) key with
     | Some change => change
     | None => bget machine.(machine_labels) key
     end).
Proof.
  intros Hin Huniq Hwf. unfold apply_machine_update.
  destruct (option_test _ (update_name update)) eqn:Hdup; [done|].
  destruct (option_test _ (update_advertised_endpoints update)); [done|].
  intros Hok. injection Hok as <-. simpl.
  assert (Hname : ∀ b, b ∈ visible → b.(machine_id) ≠ machine.(machine_id) →
    default machine.(machine_name) update.(update_name) ≠ b.(machine_name)).
  { intros b Hb Hid Heq. destruct (update_name update) as [name|]; simpl in *.
    - apply andb_false_iff in Hdup as [Hn%negb_false_iff%String.eqb_eq|Hn].
      + subst. by apply Hid, Huniq.
      + rewrite existsb_false_elem in Hn. specialize (Hn b Hb).
        apply andb_false_iff in Hn as [Hn%negb_false_iff%String.eqb_eq|Hn%String.eqb_neq]; congruence.
    - by apply Hid, Huniq. }
  split_and!; try done.
  - intros a b. unfold replace_machine. simpl.
    intros (a' & -> & Ha)%list_elem_of_fmap (b' & -> & Hb)%list_elem_of_fmap.
    destruct (String.eqb_spec (machine_id a') (machine_id machine)) as [Ea|Ea],
      (String.eqb_spec (machine_id b') (machine_id machine)) as [Eb|Eb]; simpl; intros Heq.
    + done.
    + by destruct (Hname b').
    + by destruct (Hname a').
    + by apply Huniq.
  - intros key. by apply fold_label_changes.
Qed.

Definition sample_runtime : MachineRuntime :=
  {| daemon_version := ""; docker_version := ""; runtime_hostname := ""; architecture := "";
     os_pretty_name := ""; kernel_version := ""; memory_total_bytes := Some 8000000000%N;
     running_builds := 0 |}.
Definition sample_machine (id name : string) : Machine :=
  {| machine_labels := [("region", "eu")]; accepts_builds := true; accepts_services := true;
     accepts_ingress := true; machine_id := id; machine_name := name; machine_subnet := 0;
     machine_public_key := repeat 7%N 32; machine_public_ip := None;
     machine_advertised_endpoints := [SocketV4 1 51820]; machine_runtime := sample_runtime;
     machine_build_concurrency := None |}.
Definition sample_update : MachineUpdate :=
  {| label_changes := [("region", None); ("tier", Some "db")]; update_accepts_builds := None;
     update_accepts_services := Some false; update_accepts_ingress := None;
     update_name := Some "gamma"; update_public_ip := IpKeep;
     update_advertised_endpoints := None; update_build_concurrency := ConcurrencyKeep |}.

Lemma apply_machine_update_sound_witness :
  let visible := [sample_machine "1" "alpha"; sample_machine "2" "beta"] in
  ∃ updated,
    apply_machine_update (sample_machine "1" "alpha") visible sample_update = Ok updated ∧
    bget updated.(machine_labels) "region" = None ∧
    bget updated.(machine_labels) "tier" = Some "db".
Proof.
  set (visible := [sample_machine "1" "alpha"; sample_machine "2" "beta"]). cbv zeta.
  eexists. split; [vm_compute; reflexivity|].
  pose proof (apply_machine_update_sound (sample_machine "1" "alpha") visible sample_update _
    ltac:(left)
    ltac:(unfold unique_names, visible; intros a b;
          rewrite !elem_of_cons, !elem_of_nil; naive_solver)
    ltac:(repeat constructor) eq_refl) as (_ & _ & _ & _ & Hl).
  split; rewrite Hl; vm_compute; reflexivity.
Defined.

(** automatic build concurrency never panics; it is one Build for a Machine that accepts
    Services or whose memory is unknown, and otherwise grows with memory between 1 and 4. *)
Theorem automatic_concurrency_bounds accepts_services memory :
  ∃ builds, BuildConcurrency_automatic accepts_services memory = Some builds ∧
    (1 ≤ builds ≤ AUTOMATIC_MAX)%N ∧
    (accepts_services = true ∨ memory = None → builds = 1%N) ∧
    (∀ bytes, accepts_services = false → memory = Some bytes →
       (builds * AUTOMATIC_BYTES_PER_BUILD ≤ bytes ∨ builds = 1)%N ∧
       (bytes < (builds + 1) * AUTOMATIC_BYTES_PER_BUILD ∨ builds = AUTOMATIC_MAX)%N).
Proof.
  unfold BuildConcurrency_automatic, AUTOMATIC_MAX.
  set (per := AUTOMATIC_BYTES_PER_BUILD). assert (per ≠ 0%N) as Hper by done.
  destruct memory as [bytes|], accepts_services; simpl.
  2: { pose proof (N.div_mod bytes per Hper) as Hd. pose proof (N.mod_lt bytes per Hper) as Hm.
    remember (bytes / per)%N as q. remember (N.min (N.max q 1) 4) as n eqn:Hn0.
    assert (1 ≤ n ≤ 4)%N as Hn by lia.
    destruct (N.leb_spec n 255), (N.eqb_spec n 0); try lia. simpl.
    exists n. split_and!; try done; try lia; [naive_solver|].
    intros ? _ [= <-]. assert (n ≤ q ∨ n = 1)%N as Hq by lia.
    assert (q ≤ n ∨ n = 4)%N as Hq' by lia. clear Hn0; clearbody per.
    generalize dependent (bytes mod per)%N. intros r Hd Hm.
    split; [destruct Hq as [Hq|]|destruct Hq' as [Hq'|]]; auto; left.
    - pose proof (N.mul_le_mono_r _ _ per Hq). lia.
    - pose proof (N.mul_le_mono_r _ _ per Hq'). lia. }
  all: exists 1%N; split_and!; try done; lia || naive_solver.
Qed.

(** ** Target resolution *)

Lemma resolve_text_fold text visible e ns :
  fold_left
    (λ acc machine,
       ((if String.eqb machine.(machine_id) text then Some machine else acc.1),
        (if String.eqb machine.(machine_name) text then acc.2 ++ [machine] else acc.2)))
    visible (e, ns)
  = (from_option Some e (last (List.filter (λ m, String.eqb m.(machine_id) text) visible)),
     ns ++ List.filter (λ m, String.eqb m.(machine_name) text) visible).
Proof.
  revert e ns. induction visible as [|m visible IH]; intros e ns; simpl.
  - by rewrite app_nil_r.
  - rewrite IH. f_equal.
    + destruct (String.eqb (machine_id m) text); simpl; [|done].
      rewrite last_cons. by destruct (last _).
    + destruct (String.eqb (machine_name m) text); [|done]. by rewrite <-app_assoc.
Qed.

Lemma resolve_machine_text_One text visible m :
  resolve_machine_text text visible = NM_One m →
  m ∈ visible ∧ machine_matches_target m text = true.
Proof.
  unfold resolve_machine_text. rewrite resolve_text_fold. simpl. unfold machine_matches_target.
  destruct (last _) as [x|] eqn:Hl; simpl.
  - intros [= <-]. apply last_Some_elem_of, elem_of_filterb in Hl as [Hx ->]. done.
  - clear Hl. intros Hm.
    destruct (List.filter (λ m, String.eqb m.(machine_name) text) visible)
      as [|y [|z l]] eqn:Hf; simplify_eq/=.
    assert (m ∈ List.filter (λ m, String.eqb m.(machine_name) text) visible) as Hy
      by (rewrite Hf; left).
    apply elem_of_filterb in Hy as [? ->]. by rewrite orb_true_r.
Qed.

(** The Machines one selector stands for. *)
Definition selects (visible : list Machine) (selector : FanoutSelector) (m : Machine) : Prop :=
  match selector with
  | All => m ∈ visible
  | One target => resolve_machine_text target visible = NM_One m
  end.

(** Loop invariant after the selectors in [done]. *)
Record sel_inv (visible : list Machine) (done : list FanoutSelector) (st : SelectorState) : Prop := {
  si_seen : ∀ id, id ∈ st.(sel_seen) ↔ id ∈ map machine_id st.(sel_targets);
  si_nodup : NoDup (map machine_id st.(sel_targets));
  si_sound : ∀ m, m ∈ st.(sel_targets) → ∃ s, s ∈ done ∧ selects visible s m;
  si_complete : ∀ s m, s ∈ done → selects visible s m →
    m.(machine_id) ∈ map machine_id st.(sel_targets);
  si_missing : ∀ t, t ∈ st.(sel_missing) ↔
    One t ∈ done ∧ resolve_machine_text t visible = NM_None
}.

(** [sel_push] adds a Machine once. *)
Lemma sel_push_spec st m :
  (∀ id, id ∈ st.(sel_seen) ↔ id ∈ map machine_id st.(sel_targets)) →
  NoDup (map machine_id st.(sel_targets)) →
  let st' := sel_push st m in
  (∀ id, id ∈ st'.(sel_seen) ↔ id ∈ map machine_id st'.(sel_targets)) ∧
  NoDup (map machine_id st'.(sel_targets)) ∧
  (∀ x, x ∈ st'.(sel_targets) → x ∈ st.(sel_targets) ∨ x = m) ∧
  (∀ id, id ∈ map machine_id st'.(sel_targets) ↔
     id ∈ map machine_id st.(sel_targets) ∨ id = m.(machine_id)) ∧
  st'.(sel_missing) = st.(sel_missing).
Proof.
  intros Hseen Hnd. simpl. unfold sel_push. case_bool_decide as Hin; simpl.
  - apply Hseen in Hin. split_and!; try done; naive_solver.
  - rewrite Hseen in Hin. setoid_rewrite elem_of_bset_insert. rewrite map_app. simpl.
    split_and!; try done.
    + intros id. rewrite Hseen. set_solver.
    + apply NoDup_app. split_and!; [done| |apply NoDup_singleton]. set_solver.
    + set_solver.
    + set_solver.
Qed.

Lemma sel_push_all st ms :
  (∀ id, id ∈ st.(sel_seen) ↔ id ∈ map machine_id st.(sel_targets)) →
  NoDup (map machine_id st.(sel_targets)) →
  let st' := fold_left sel_push ms st in
  (∀ id, id ∈ st'.(sel_seen) ↔ id ∈ map machine_id st'.(sel_targets)) ∧
  NoDup (map machine_id st'.(sel_targets)) ∧
  (∀ x, x ∈ st'.(sel_targets) → x ∈ st.(sel_targets) ∨ x ∈ ms) ∧
  (∀ id, id ∈ map machine_id st'.(sel_targets) ↔
     id ∈ map machine_id st.(sel_targets) ∨ id ∈ map machine_id ms) ∧
  st'.(sel_missing) = st.(sel_missing).
Proof.
  revert st. induction ms as [|m ms IH]; intros st Hseen Hnd; simpl; [set_solver|].
  destruct (sel_push_spec st m Hseen Hnd) as (H1 & H2 & H3 & H4 & H5).
  destruct (IH (sel_push st m) H1 H2) as (G1 & G2 & G3 & G4 & G5).
  split_and!; [done|done| | |congruence].
  - intros x [Hx|Hx]%G3; [apply H3 in Hx|]; set_solver.
  - intros id. rewrite G4, H4. set_solver.
Qed.

Lemma select_one_inv visible done st s st' :
  sel_inv visible done st → select_one visible st s = Ok st' →
  sel_inv visible (done ++ [s]) st'.
Proof.
  intros [Hseen Hnd Hsound Hcomp Hmiss]. destruct s as [|t]; simpl.
  - intros Hok. injection Hok as <-.
    destruct (sel_push_all st visible Hseen Hnd) as (G1 & G2 & G3 & G4 & G5).
    split; [done|done| | |].
    + intros m [Hm|Hm]%G3; [|exists All; set_solver].
      destruct (Hsound m Hm) as (s & ? & ?). exists s. set_solver.
    + intros s m [Hs|Hs]%elem_of_app Hsel; apply G4; [left; eauto|right].
      apply list_elem_of_singleton in Hs as ->. simpl in Hsel. apply list_elem_of_fmap. eauto.
    + intros t. rewrite G5, Hmiss. set_solver.
  - destruct (resolve_machine_text t visible) as [|m|] eqn:Hr; intros Hok; [| |done];
      injection Hok as <-.
    + split; simpl; [done|done| | |].
      * intros m Hm. destruct (Hsound m Hm) as (s & ? & ?). exists s. set_solver.
      * intros s m [Hs|Hs]%elem_of_app Hsel; [eauto|].
        apply list_elem_of_singleton in Hs as ->. simpl in Hsel. congruence.
      * intros t'. rewrite elem_of_app, Hmiss, elem_of_app, !list_elem_of_singleton. naive_solver.
    + destruct (sel_push_spec st m Hseen Hnd) as (G1 & G2 & G3 & G4 & G5).
      split; [done|done| | |].
      * intros x [Hx|Hx]%G3; [|subst x; exists (One t); set_solver].
        destruct (Hsound x Hx) as (s & ? & ?). exists s. set_solver.
      * intros s x [Hs|Hs]%elem_of_app Hsel; apply G4; [left; eauto|right].
        apply list_elem_of_singleton in Hs as ->. simpl in Hsel. congruence.
      * intros t'. rewrite G5, Hmiss, elem_of_app, list_elem_of_singleton.
        split; [by intros [? ?]; auto|]. intros [[?|Heq] Hn]; [done|].
        injection Heq as ->. congruence.
Qed.

Lemma select_all_inv visible sels done st st' :
  sel_inv visible done st → try_fold (select_one visible) sels st = Ok st' →
  sel_inv visible (done ++ sels) st'.
Proof.
  revert done st. induction sels as [|s sels IH]; intros done st Hinv H; simpl in H.
  - injection H as <-. by rewrite app_nil_r.
  - apply result_bind_Ok in H as (st1 & H1 & H2).
    change (done ++ s :: sels) with (done ++ [s] ++ sels). rewrite app_assoc. eapply IH; [|done]. by eapply select_one_inv.
Qed.

(** fan-out resolution names every Machine at most once, and names exactly the Machines
    the selectors stand for: every wildcard covers the whole view and every Machine Target
    resolved to one visible Machine. *)
Theorem resolve_machine_selectors_sound visible selectors targets :
  resolve_machine_selectors visible selectors = Ok targets →
  targets ≠ [] ∧ NoDup (map machine_id targets) ∧
  (∀ m, m ∈ targets → m ∈ visible ∧ ∃ s, s ∈ selectors ∧ selects visible s m) ∧
  (∀ s m, s ∈ selectors → selects visible s m → m.(machine_id) ∈ map machine_id targets) ∧
  (∀ t, One t ∈ selectors → ∃ m, resolve_machine_text t visible = NM_One m).
Proof.
  unfold resolve_machine_selectors. destruct selectors as [|s0 sels]; [done|].
  intros (st & Hst & H)%result_bind_Ok.
  assert (sel_inv visible (s0 :: sels) st) as [_ Hnd Hsound Hcomp Hmiss].
  { eapply (select_all_inv visible (s0 :: sels) []); [|exact Hst].
    split; simpl; [done|constructor|set_solver|set_solver|set_solver]. }
  destruct (sel_missing st) eqn:Hm; [|done].
  destruct (sel_targets st) as [|m0 ms] eqn:Ht; [done|]. injection H as <-.
  split_and!; [done|done| |done|].
  - intros m Hin. destruct (Hsound m Hin) as (s & Hs & Hsel). split; [|by exists s].
    destruct s; [done|]. by apply resolve_machine_text_One in Hsel as [? _].
  - intros t Hin. destruct (resolve_machine_text t visible) as [|m|] eqn:Hr; [|by exists m|].
    + exfalso. assert (t ∈ @nil string) as Hn by (by apply Hmiss). set_solver.
    + exfalso. clear -Hin Hr Hst. revert Hst. generalize
        {| sel_targets := []; sel_seen := []; sel_missing := [] |} as st0.
      revert Hin. generalize (s0 :: sels) as l. induction l as [|s l IH]; [set_solver|].
      intros [<-|Hin]%elem_of_cons st0 (st1 & H1 & H2)%result_bind_Ok; [|eauto].
      simpl in H1. by rewrite Hr in H1.
Qed.

Lemma resolve_machine_selectors_sound_witness :
  let visible := [sample_machine "1" "alpha"; sample_machine "2" "beta"] in
  resolve_machine_selectors visible [One "beta"; All; One "1"]
    = Ok [sample_machine "2" "beta"; sample_machine "1" "alpha"] ∧
  NoDup (map machine_id [sample_machine "2" "beta"; sample_machine "1" "alpha"]).
Proof.
  set (visible := [sample_machine "1" "alpha"; sample_machine "2" "beta"]). cbv zeta.
  split; [vm_compute; reflexivity|].
  apply (resolve_machine_selectors_sound visible [One "beta"; All; One "1"]).
  vm_compute; reflexivity.
Defined.
