(* ===== verification/Issuance.v ===== *)
(** * Certificate issuance decisions

    [ployz-core/src/domain/issuance.rs], [hostname_verdict.rs] and
    [certificate_policy.rs]: whether a hostname reaches the Cluster, whether
    the certificate authority may be contacted now, how long to wait after a
    failure, and the policy row those decisions read.

    A [Duration] is a number of nanoseconds below 2^64 seconds.  A
    [SystemTime] is nanoseconds from the Unix epoch in the signed 64-bit
    second range of Linux; [time + duration] panics outside it, here [None]. *)

From S2P Require Import Prelude BTree Strings Values Machines.
From Stdlib Require Import SpecFloat.

Open Scope string_scope.
Open Scope list_scope.

(** ** Time *)

Abbreviation Duration := N (only parsing).
Abbreviation SystemTime := Z (only parsing).

Definition NANOS_PER_SEC : N := 1000000000.
Definition Duration_from_secs (secs : N) : Duration := (secs * NANOS_PER_SEC)%N.
Definition Duration_as_secs (d : Duration) : N := (d / NANOS_PER_SEC)%N.
Definition i64_max : Z := 9223372036854775807.

Definition SystemTime_add (time : SystemTime) (d : Duration) : option SystemTime :=
  let sum := (time + Z.of_N d)%Z in
  if (sum / Z.of_N NANOS_PER_SEC <=? i64_max)%Z then Some sum else None.

(** ** Hostname verdicts *)

Inductive VerifyAnswer : Type :=
| NoAnswer
| Answered (status : N) (location body : string).

Inductive ClusterRoute : Type := Direct | ViaProxy.

Inductive Refusal : Type := DoesNotResolve | Unreachable | RedirectsToHttps | ReachesElsewhere.

Inductive HostnameVerdict : Type :=
| Refused (refusal : Refusal)
| ReachesCluster (route : ClusterRoute).

#[global] Instance ClusterRoute_eq_dec : EqDecision ClusterRoute.
Proof. solve_decision. Defined.
#[global] Instance Refusal_eq_dec : EqDecision Refusal.
Proof. solve_decision. Defined.
#[global] Instance HostnameVerdict_eq_dec : EqDecision HostnameVerdict.
Proof. solve_decision. Defined.

Definition judge (address : IpAddr) (answer : VerifyAnswer) (machine_ids : list MachineId)
    (cluster_addresses : list IpAddr) : HostnameVerdict :=
  match answer with
  | NoAnswer => Refused Unreachable
  | Answered status location body =>
      if (300 <=? status)%N && (status <? 400)%N && starts_with "https://" location
      then Refused RedirectsToHttps
      else
        let ours :=
          ((200 <=? status) && (status <? 300))%N
          && match MachineId_parse (trim body) with
             | Ok id => bool_decide (id ∈ machine_ids)
             | Err _ => false
             end in
        if negb ours then Refused ReachesElsewhere
        else ReachesCluster (if bool_decide (address ∈ cluster_addresses) then Direct else ViaProxy)
  end.

Definition hostname_verdict (answers : list (IpAddr * VerifyAnswer))
    (machine_ids : list MachineId) (cluster_addresses : list IpAddr) : HostnameVerdict :=
  let verdicts := map (λ '(address, answer), judge address answer machine_ids cluster_addresses)
                    answers in
  match List.find (λ best, bool_decide (best ∈ verdicts))
          (map ReachesCluster [Direct; ViaProxy]) with
  | Some best => best
  | None => default (Refused DoesNotResolve) (head verdicts)
  end.

(** ** The shared backoff clock *)

Inductive IssuanceFailure : Type :=
| FailureRefused (refusal : Refusal)
| Authority.
#[global] Instance IssuanceFailure_eq_dec : EqDecision IssuanceFailure.
Proof. solve_decision. Defined.

Record IssuanceClock : Type := {
  failures : N;
  next_attempt_at : SystemTime;
  last_failure : IssuanceFailure
}.

Definition IssuanceClock_new (failures : N) (next_attempt_at : SystemTime)
    (last_failure : IssuanceFailure) : IssuanceClock :=
  {| failures := N.max failures 1; next_attempt_at := next_attempt_at;
     last_failure := last_failure |}.

Definition issuance_backoff (failures : N) (base cap : Duration) : Duration :=
  let shift := N.min (saturating_sub failures 1) 31 in
  let seconds := saturating_mul (Duration_as_secs base) (N.shiftl 1 shift) in
  Duration_from_secs (N.min seconds (Duration_as_secs cap)).

(** [u32::saturating_add]. *)
Definition u32_saturating_add (a b : N) : N := N.min (a + b) u32_max.

Definition issuance_failure_clock (clock : option IssuanceClock) (new_failure : IssuanceFailure)
    (now : SystemTime) (backoff_base backoff_cap : Duration) : option IssuanceClock :=
  let failures :=
    match clock with
    | Some clock =>
        if bool_decide (clock.(last_failure) = new_failure)
        then u32_saturating_add clock.(failures) 1 else 1%N
    | None => 1%N
    end in
  at_ ← SystemTime_add now (issuance_backoff failures backoff_base backoff_cap);
  Some (IssuanceClock_new failures at_ new_failure).

Inductive IssuanceGate : Type :=
| GateNothing
| GateRefuse (refusal : Refusal) (clock : IssuanceClock)
| GateOrder (route : ClusterRoute).

Definition issuance_gate (clock : option IssuanceClock) (verdict : HostnameVerdict)
    (now : SystemTime) (backoff_base backoff_cap : Duration) : option IssuanceGate :=
  let waiting := option_test (λ clock, (now <? clock.(next_attempt_at))%Z) clock in
  let verdict_changed :=
    option_test
      (λ clock, match clock.(last_failure) with
                | FailureRefused last => negb (bool_decide (verdict = Refused last))
                | Authority => false
                end) clock in
  if waiting && negb verdict_changed then Some GateNothing
  else
    match verdict with
    | ReachesCluster route => Some (GateOrder route)
    | Refused refusal =>
        clock ← issuance_failure_clock clock (FailureRefused refusal) now backoff_base backoff_cap;
        Some (GateRefuse refusal clock)
    end.

(** ** Certificate Policy *)

Inductive CertificateKeyType : Type :=
| EcdsaP256 | EcdsaP384 | Rsa2048 | KeyTypeUnrecognized (value : string).

Record ExternalAccountBinding : Type := { eab_kid : string; eab_hmac_key : string }.

Definition ExternalAccountBinding_new (kid hmac_key : string) : option ExternalAccountBinding :=
  if negb (str_is_empty kid) && negb (str_is_empty hmac_key)
  then Some {| eab_kid := kid; eab_hmac_key := hmac_key |} else None.

Definition f64_zero : spec_float := S754_zero false.
Definition f64_one : spec_float := S754_finite false 4503599627370496 (-52).
Definition f64_two : spec_float := S754_finite false 4503599627370496 (-51).
Definition f64_three : spec_float := S754_finite false 6755399441055744 (-51).
Definition f64_is_finite (x : spec_float) : bool :=
  match x with S754_zero _ | S754_finite _ _ _ => true | _ => false end.

Definition DEFAULT_RENEW_AT_LIFETIME_FRACTION : spec_float := SFdiv 53 1024 f64_two f64_three.
Definition DEFAULT_BACKOFF_BASE : Duration := Duration_from_secs 60.
Definition DEFAULT_BACKOFF_CAP : Duration := Duration_from_secs (60 * 60).
Definition DEFAULT_PROBE_TIMEOUT : Duration := Duration_from_secs 30.
Definition HTTP_01 : string := "http-01".

Record CertificatePolicy : Type := {
  directory_url : option string;
  eab : option ExternalAccountBinding;
  key_type : CertificateKeyType;
  renew_at_lifetime_fraction : spec_float;
  backoff_base : Duration;
  backoff_cap : Duration;
  probe_timeout : Duration
}.

Definition CertificatePolicy_built_in (directory_url : option string) : CertificatePolicy :=
  {| directory_url := directory_url; eab := None; key_type := EcdsaP256;
     renew_at_lifetime_fraction := DEFAULT_RENEW_AT_LIFETIME_FRACTION;
     backoff_base := DEFAULT_BACKOFF_BASE; backoff_cap := DEFAULT_BACKOFF_CAP;
     probe_timeout := DEFAULT_PROBE_TIMEOUT |}.

(** The deserialized row. *)
Record EabBody : Type := { body_kid : string; body_hmac_key : string }.
Record BackoffBody : Type := { body_base : option N; body_cap : option N }.
Record PolicyBody : Type := {
  body_directory_url : option string;
  body_eab : option EabBody;
  body_key_type : option CertificateKeyType;
  body_fraction : option spec_float;
  body_backoff : option BackoffBody;
  body_probe_timeout : option N;
  body_challenge_kind : option string
}.

(** The JSON reader and the three base64 decoders are other crates'. *)
Class PolicyReaders : Type := {
  policy_from_str : string → Result PolicyBody string;
  url_safe_no_pad_decode : string → option (list N);
  url_safe_decode : string → option (list N);
  standard_decode : string → option (list N)
}.

Section Policy.
Context `{PolicyReaders}.

Definition to_hmac_key_bytes (self : ExternalAccountBinding) : Result (list N) ValueError :=
  match url_safe_no_pad_decode self.(eab_hmac_key) with
  | Some bytes => Ok bytes
  | None =>
      match url_safe_decode self.(eab_hmac_key) with
      | Some bytes => Ok bytes
      | None =>
          ok_or (standard_decode self.(eab_hmac_key))
            (ValueError_new "EAB hmac_key" self.(eab_hmac_key) "standard or URL-safe base64")
      end
  end.

(** Why a Certificate Policy was refused: the reason's text, by case. *)
Inductive CertificatePolicyRefusal : Type :=
| NotValidJson (error : string)
| UnsupportedChallengeKind (kind : string)
| IncompleteEab
| UndecodableEab (error : ValueError)
| UnsupportedKeyType (kind : string)
| FractionOutOfRange
| ZeroBackoff
| BaseExceedsCap
| ZeroProbeTimeout.

Definition apply_directory_url (body : PolicyBody) (policy : CertificatePolicy) : CertificatePolicy :=
  match body.(body_directory_url) with
  | None => policy
  | Some url =>
      {| directory_url := if negb (str_is_empty url) then Some url else None;
         eab := policy.(eab); key_type := policy.(key_type);
         renew_at_lifetime_fraction := policy.(renew_at_lifetime_fraction);
         backoff_base := policy.(backoff_base); backoff_cap := policy.(backoff_cap);
         probe_timeout := policy.(probe_timeout) |}
  end.

Definition apply_eab (body : PolicyBody) (policy : CertificatePolicy)
    : Result CertificatePolicy CertificatePolicyRefusal :=
  match body.(body_eab) with
  | None => Ok policy
  | Some e =>
      let? binding := ok_or (ExternalAccountBinding_new e.(body_kid) e.(body_hmac_key))
                        IncompleteEab in
      let? _ := map_err UndecodableEab (to_hmac_key_bytes binding) in
      Ok {| directory_url := policy.(directory_url); eab := Some binding;
            key_type := policy.(key_type);
            renew_at_lifetime_fraction := policy.(renew_at_lifetime_fraction);
            backoff_base := policy.(backoff_base); backoff_cap := policy.(backoff_cap);
            probe_timeout := policy.(probe_timeout) |}
  end.

Definition apply_key_type (body : PolicyBody) (policy : CertificatePolicy)
    : Result CertificatePolicy CertificatePolicyRefusal :=
  match body.(body_key_type) with
  | None => Ok policy
  | Some (KeyTypeUnrecognized kind) => Err (UnsupportedKeyType kind)
  | Some kt =>
      Ok {| directory_url := policy.(directory_url); eab := policy.(eab); key_type := kt;
            renew_at_lifetime_fraction := policy.(renew_at_lifetime_fraction);
            backoff_base := policy.(backoff_base); backoff_cap := policy.(backoff_cap);
            probe_timeout := policy.(probe_timeout) |}
  end.

Definition fraction_ok (fraction : spec_float) : bool :=
  negb (negb (f64_is_finite fraction) || negb (SFltb f64_zero fraction && SFltb fraction f64_one)).

Definition apply_fraction (body : PolicyBody) (policy : CertificatePolicy)
    : Result CertificatePolicy CertificatePolicyRefusal :=
  match body.(body_fraction) with
  | None => Ok policy
  | Some fraction =>
      if negb (fraction_ok fraction) then Err FractionOutOfRange
      else
        Ok {| directory_url := policy.(directory_url); eab := policy.(eab);
              key_type := policy.(key_type); renew_at_lifetime_fraction := fraction;
              backoff_base := policy.(backoff_base); backoff_cap := policy.(backoff_cap);
              probe_timeout := policy.(probe_timeout) |}
  end.

Definition apply_backoff (body : PolicyBody) (policy : CertificatePolicy)
    : Result CertificatePolicy CertificatePolicyRefusal :=
  match body.(body_backoff) with
  | None => Ok policy
  | Some backoff =>
      let base := from_option Duration_from_secs policy.(backoff_base) backoff.(body_base) in
      let cap := from_option Duration_from_secs policy.(backoff_cap) backoff.(body_cap) in
      if ((base =? 0) || (cap =? 0))%N then Err ZeroBackoff
      else if (cap <? base)%N then Err BaseExceedsCap
      else
        Ok {| directory_url := policy.(directory_url); eab := policy.(eab);
              key_type := policy.(key_type);
              renew_at_lifetime_fraction := policy.(renew_at_lifetime_fraction);
              backoff_base := base; backoff_cap := cap;
              probe_timeout := policy.(probe_timeout) |}
  end.

Definition apply_probe_timeout (body : PolicyBody) (policy : CertificatePolicy)
    : Result CertificatePolicy CertificatePolicyRefusal :=
  match body.(body_probe_timeout) with
  | None => Ok policy
  | Some timeout =>
      if (timeout =? 0)%N then Err ZeroProbeTimeout
      else
        Ok {| directory_url := policy.(directory_url); eab := policy.(eab);
              key_type := policy.(key_type);
              renew_at_lifetime_fraction := policy.(renew_at_lifetime_fraction);
              backoff_base := policy.(backoff_base); backoff_cap := policy.(backoff_cap);
              probe_timeout := Duration_from_secs timeout |}
  end.

Definition refused_challenge_kind (body : PolicyBody) : option string :=
  match body.(body_challenge_kind) with
  | Some kind => if negb (str_is_empty kind) && negb (String.eqb kind HTTP_01)
                 then Some kind else None
  | None => None
  end.

Definition resolve_certificate_policy (raw : option string) (defaults : CertificatePolicy)
    : Result CertificatePolicy CertificatePolicyRefusal :=
  match raw with
  | None => Ok defaults
  | Some raw =>
      if str_is_empty raw then Ok defaults
      else
        let? body := map_err NotValidJson (policy_from_str raw) in
        match refused_challenge_kind body with
        | Some kind => Err (UnsupportedChallengeKind kind)
        | None =>
            let? policy := apply_eab body (apply_directory_url body defaults) in
            let? policy := apply_key_type body policy in
            let? policy := apply_fraction body policy in
            let? policy := apply_backoff body policy in
            apply_probe_timeout body policy
        end
  end.
End Policy.

(** ** Backoff *)

Section BackoffFacts.
Open Scope N_scope.

Lemma as_from_secs n : Duration_as_secs (Duration_from_secs n) = n.
Proof. unfold Duration_as_secs, Duration_from_secs. by rewrite N.div_mul. Qed.

Lemma issuance_backoff_eq f base cap :
  is_u64 (Duration_as_secs cap) →
  issuance_backoff f base cap =
  Duration_from_secs (N.min (Duration_as_secs base * 2 ^ N.min (f - 1) 31) (Duration_as_secs cap)).
Proof.
  unfold is_u64, issuance_backoff, saturating_sub, saturating_mul. intros Hcap. f_equal.
  rewrite N.shiftl_1_l. lia.
Qed.

Lemma issuance_backoff_mono f g base cap :
  f ≤ g → issuance_backoff f base cap ≤ issuance_backoff g base cap.
Proof.
  intros Hfg. unfold issuance_backoff, saturating_sub, saturating_mul, Duration_from_secs.
  rewrite !N.shiftl_1_l. apply N.mul_le_mono_r.
  assert (2 ^ N.min (f - 1) 31 ≤ 2 ^ N.min (g - 1) 31) as Hp by (apply N.pow_le_mono_r; lia).
  pose proof (N.mul_le_mono_l _ _ (Duration_as_secs base) Hp). lia.
Qed.
End BackoffFacts.

(** the issuance backoff is the base doubled per recorded failure, never above the cap,
    never below the base, never shorter after more failures, and at the cap from the 32nd
    failure on; the saturating arithmetic never changes the result. *)
Theorem issuance_backoff_schedule f g base cap :
  is_u64 cap → (1 ≤ base ≤ cap)%N →
  let delay n := issuance_backoff n (Duration_from_secs base) (Duration_from_secs cap) in
  delay f = Duration_from_secs (N.min (base * 2 ^ N.min (f - 1) 31) cap) ∧
  (Duration_from_secs base ≤ delay f ≤ Duration_from_secs cap)%N ∧
  (f ≤ g → delay f ≤ delay g)%N ∧
  (32 ≤ f → cap ≤ 2 ^ 31 → delay f = Duration_from_secs cap)%N.
Proof.
  intros Hcap Hb delay. assert (Heq : ∀ n, delay n =
    Duration_from_secs (N.min (base * 2 ^ N.min (n - 1) 31) cap)).
  { intros n. unfold delay. rewrite issuance_backoff_eq; rewrite !as_from_secs; done. }
  assert (1 ≤ 2 ^ N.min (f - 1) 31)%N as Hpos.
  { change 1%N with (2 ^ 0)%N at 1. apply N.pow_le_mono_r; lia. }
  pose proof (N.mul_le_mono_l _ _ base Hpos) as Hmul.
  split_and!; [done| | |by apply issuance_backoff_mono|].
  - rewrite Heq. apply N.mul_le_mono_r. lia.
  - rewrite Heq. apply N.mul_le_mono_r. lia.
  - intros Hf Hc. rewrite Heq. f_equal. rewrite (N.min_r (f - 1) 31) by lia.
    apply N.min_r. etrans; [exact Hc|]. rewrite <-(N.mul_1_l (2 ^ 31)) at 1.
    apply N.mul_le_mono_r. lia.
Qed.

Lemma issuance_backoff_schedule_witness :
  issuance_backoff 4 (Duration_from_secs 60) (Duration_from_secs 3600) = Duration_from_secs 480 ∧
  issuance_backoff 40 (Duration_from_secs 60) (Duration_from_secs 3600) = Duration_from_secs 3600.
Proof.
  destruct (issuance_backoff_schedule 4 4 60 3600) as (H1 & _); [done|lia|].
  destruct (issuance_backoff_schedule 40 40 60 3600) as (_ & _ & _ & H2); [done|lia|].
  split; [exact H1|]. apply H2; [lia|done].
Defined.

(** ** Runs of failing attempts

    What the issuance loop does with one hostname while no certificate is
    obtained: it may wait, record a refusal, leave the shared clock alone (a
    Machine that does not record, or a renewal that is not due), or contact
    the authority and record its failure. *)

Section Runs.
Context (base cap : Duration).

Inductive attempt (clock : option IssuanceClock) (now : SystemTime) (verdict : HostnameVerdict)
    : option IssuanceClock → list SystemTime → Prop :=
| attempt_skip gate :
    issuance_gate clock verdict now base cap = Some gate →
    attempt clock now verdict clock []
| attempt_refuse refusal clock' :
    issuance_gate clock verdict now base cap = Some (GateRefuse refusal clock') →
    attempt clock now verdict (Some clock') []
| attempt_contact route clock' :
    issuance_gate clock verdict now base cap = Some (GateOrder route) →
    issuance_failure_clock clock Authority now base cap = Some clock' →
    attempt clock now verdict (Some clock') [now].

(** Contact times, newest first; the clock; the time of the last step. *)
Inductive failing_run : list SystemTime → option IssuanceClock → SystemTime → Prop :=
| run_start now : failing_run [] None now
| run_step contacts clock now now' verdict clock' contact :
    failing_run contacts clock now → (now ≤ now')%Z →
    attempt clock now' verdict clock' contact →
    failing_run (contact ++ contacts) clock' now'.

Definition min_gap : Z := Z.of_N (issuance_backoff 1 base cap).

Lemma failure_clock_spec clock failure now clock' :
  issuance_failure_clock clock failure now base cap = Some clock' →
  (1 ≤ clock'.(failures))%N ∧ clock'.(last_failure) = failure ∧
  (now + min_gap ≤ clock'.(next_attempt_at))%Z.
Proof.
  unfold issuance_failure_clock. set (n := match clock with Some _ => _ | None => _ end).
  unfold SystemTime_add. destruct (_ <=? _)%Z; [|done]. cbn. intros [= <-]; simpl.
  split_and!; [lia|done|]. unfold min_gap.
  destruct (N.le_gt_cases 1 n) as [Hn|Hn].
  - pose proof (issuance_backoff_mono 1 n base cap Hn). lia.
  - assert (n = 0)%N as -> by lia. done.
Qed.

(** The newest contact is either still guarded by an [Authority] clock or old enough. *)
Definition run_inv (contacts : list SystemTime) (clock : option IssuanceClock) (now : SystemTime)
    : Prop :=
  ∀ t rest, contacts = t :: rest →
    (t + min_gap ≤ now)%Z ∨
    ∃ c, clock = Some c ∧ c.(last_failure) = Authority ∧ (t + min_gap ≤ c.(next_attempt_at))%Z.

Lemma gate_waits_for_authority c verdict now gate :
  issuance_gate (Some c) verdict now base cap = Some gate → gate ≠ GateNothing →
  c.(last_failure) = Authority → (c.(next_attempt_at) ≤ now)%Z.
Proof.
  unfold issuance_gate. simpl. intros Hg Hne Hl. rewrite Hl in Hg. simpl in Hg.
  destruct (Z.ltb_spec now (next_attempt_at c)); [|done]. simpl in Hg. congruence.
Qed.

Lemma run_inv_served contacts clock now now' verdict gate :
  run_inv contacts clock now → (now ≤ now')%Z →
  issuance_gate clock verdict now' base cap = Some gate → gate ≠ GateNothing →
  ∀ t rest, contacts = t :: rest → (t + min_gap ≤ now')%Z.
Proof.
  intros Hinv Hle Hg Hne t rest Hc. destruct (Hinv t rest Hc) as [?|(c & -> & Hl & ?)]; [lia|].
  pose proof (gate_waits_for_authority _ _ _ _ Hg Hne Hl). lia.
Qed.

Lemma run_inv_holds contacts clock now :
  failing_run contacts clock now →
  run_inv contacts clock now ∧
  StronglySorted (λ later earlier, earlier + min_gap ≤ later)%Z contacts.
Proof.
  induction 1 as [now|contacts clock now now' verdict clock' contact Hrun [Hinv Hs] Hle Hat].
  - split; [by intros ?? [=]|constructor].
  - destruct Hat as [gate Hg|refusal clock' Hg|route clock' Hg Hf]; simpl.
    + split; [|done]. intros t rest Hc. destruct (Hinv t rest Hc) as [?|Hc']; [left; lia|by right].
    + split; [|done]. intros t rest Hc. left. by eapply run_inv_served.
    + pose proof (failure_clock_spec _ _ _ _ Hf) as (_ & Hl & Hn). split.
      * intros t rest [= <- <-]. right. eauto.
      * constructor; [done|].
        destruct contacts as [|t rest]; [constructor|].
        assert (t + min_gap ≤ now')%Z as Ht by (by eapply run_inv_served).
        constructor; [done|]. inversion Hs as [|? ? _ Hf']; subst.
        eapply Forall_impl; [exact Hf'|]. simpl. intros x Hx.
        pose proof (N2Z.is_nonneg (issuance_backoff 1 base cap)). unfold min_gap in *. lia.
Qed.
End Runs.

(** however the Hostname Verdict flips between attempts, two contacts of the certificate
    authority that both fail are at least the base backoff apart (the smaller of base and
    cap): dropping refusal backoff on a verdict change never bypasses authority backoff. *)
Theorem authority_contacts_spaced base cap contacts clock now :
  failing_run base cap contacts clock now →
  StronglySorted
    (λ later earlier, earlier + Z.of_N (issuance_backoff 1 base cap) ≤ later)%Z contacts.
Proof. intros Hrun. by destruct (run_inv_holds base cap contacts clock now Hrun). Qed.

(** A run with two contacts: a failed order, then a refusal, then another failed order. *)
Definition sample_base : Duration := Duration_from_secs 60.
Definition sample_cap : Duration := Duration_from_secs 3600.
Definition sample_clock (next_attempt_at : Z) (failure : IssuanceFailure) : IssuanceClock :=
  {| failures := 1; next_attempt_at := next_attempt_at; last_failure := failure |}.

Lemma sample_run :
  failing_run sample_base sample_cap [200000000000; 100000000000]%Z
    (Some (sample_clock 260000000000 Authority)) 200000000000.
Proof.
  refine (run_step _ _ [100000000000%Z]
    (Some (sample_clock 230000000000 (FailureRefused Unreachable))) 170000000000 _
    (ReachesCluster Direct) _ [200000000000%Z] _ _ _); [|lia|].
  2: apply (attempt_contact _ _ _ _ _ Direct); vm_compute; reflexivity.
  refine (run_step _ _ [100000000000%Z] (Some (sample_clock 160000000000 Authority)) 100000000000 _
    (Refused Unreachable) _ [] _ _ _); [|lia|].
  2: apply (attempt_refuse _ _ _ _ _ Unreachable); vm_compute; reflexivity.
  refine (run_step _ _ [] None 0 _ (ReachesCluster Direct) _ [100000000000%Z] _ _ _);
    [apply run_start|lia|].
  apply (attempt_contact _ _ _ _ _ Direct); vm_compute; reflexivity.
Qed.

Lemma authority_contacts_spaced_witness :
  StronglySorted
    (λ later earlier, earlier + Z.of_N (issuance_backoff 1 sample_base sample_cap) ≤ later)%Z
    [200000000000; 100000000000]%Z.
Proof. exact (authority_contacts_spaced _ _ _ _ _ sample_run). Defined.

(** ** Verdicts *)

(** a hostname is Direct when any answering address is one of the Cluster's, via a proxy
    when some address reaches the Cluster but none directly; otherwise the first address
    decides, and no address at all is "does not resolve". *)
Theorem hostname_verdict_spec answers ids addresses :
  let verdict_of a := judge a.1 a.2 ids addresses in
  let reaches route := ∃ a, a ∈ answers ∧ verdict_of a = ReachesCluster route in
  (hostname_verdict answers ids addresses = ReachesCluster Direct ↔ reaches Direct) ∧
  (hostname_verdict answers ids addresses = ReachesCluster ViaProxy ↔
     ¬ reaches Direct ∧ reaches ViaProxy) ∧
  (∀ refusal, hostname_verdict answers ids addresses = Refused refusal ↔
     ¬ reaches Direct ∧ ¬ reaches ViaProxy ∧
     default (Refused DoesNotResolve) (verdict_of <$> head answers) = Refused refusal).
Proof.
  intros verdict_of reaches. unfold hostname_verdict.
  set (verdicts := map _ answers).
  assert (Hmap : verdicts = map verdict_of answers)
    by (apply map_ext; by intros [? ?]).
  assert (Hr : ∀ route, ReachesCluster route ∈ verdicts ↔ reaches route).
  { intros route. rewrite Hmap, list_elem_of_fmap. unfold reaches. naive_solver. }
  assert (Hh : head verdicts = verdict_of <$> head answers) by (rewrite Hmap; by destruct answers).
  assert (Hd : ∀ route, default (Refused DoesNotResolve) (head verdicts) = ReachesCluster route →
    ReachesCluster route ∈ verdicts).
  { intros route. destruct verdicts as [|v vs]; simpl; [done|]. intros ->. left. }
  rewrite <-Hh. clear Hh Hmap. clearbody verdicts.
  setoid_rewrite <-Hr. clear Hr reaches. cbn [map List.find].
  case_bool_decide as H1; [naive_solver|]. case_bool_decide as H2; [naive_solver|].
  pose proof (Hd Direct). pose proof (Hd ViaProxy). naive_solver.
Qed.

(** ** Policies *)

Definition key_type_supported (k : CertificateKeyType) : bool :=
  match k with KeyTypeUnrecognized _ => false | _ => true end.

(** What the issuance loop relies on. *)
Record policy_usable (p : CertificatePolicy) : Prop := {
  pu_base : (0 < p.(backoff_base))%N;
  pu_cap : (p.(backoff_base) ≤ p.(backoff_cap))%N;
  pu_timeout : (0 < p.(probe_timeout))%N;
  pu_fraction : fraction_ok p.(renew_at_lifetime_fraction) = true;
  pu_key : key_type_supported p.(key_type) = true;
  pu_eab : ∀ b, p.(eab) = Some b → b.(eab_kid) ≠ "" ∧ b.(eab_hmac_key) ≠ ""
}.

Lemma apply_directory_url_usable body p :
  policy_usable p → policy_usable (apply_directory_url body p).
Proof. unfold apply_directory_url. destruct (body_directory_url body); [|done]. by intros []. Qed.

Section PolicyFacts.
Context `{PolicyReaders}.

Lemma apply_eab_usable body p p' :
  policy_usable p → apply_eab body p = Ok p' → policy_usable p'.
Proof.
  unfold apply_eab. destruct (body_eab body) as [e|]; [|congruence].
  intros [] (b & Hb%ok_or_Ok & (? & _ & Hok)%result_bind_Ok)%result_bind_Ok.
  injection Hok as <-. split; simpl; try done. intros ? [= <-].
  unfold ExternalAccountBinding_new in Hb.
  destruct (body_kid e), (body_hmac_key e); simplify_eq/=; done.
Qed.

Lemma apply_key_type_usable body p p' :
  policy_usable p → apply_key_type body p = Ok p' → policy_usable p'.
Proof.
  unfold apply_key_type. destruct (body_key_type body) as [[]|]; [..|congruence];
  intros [] Hok; try done; injection Hok as <-; by split.
Qed.

Lemma apply_fraction_usable body p p' :
  policy_usable p → apply_fraction body p = Ok p' → policy_usable p'.
Proof.
  unfold apply_fraction. destruct (body_fraction body) as [f|]; [|congruence].
  destruct (fraction_ok f) eqn:Hf; intros [] Hok; [|done]. injection Hok as <-. by split.
Qed.

Lemma apply_backoff_usable body p p' :
  policy_usable p → apply_backoff body p = Ok p' → policy_usable p'.
Proof.
  unfold apply_backoff. destruct (body_backoff body) as [b|]; [|congruence].
  set (base := from_option _ (backoff_base p) _). set (cap := from_option _ (backoff_cap p) _).
  destruct (N.eqb_spec base 0), (N.eqb_spec cap 0), (N.ltb_spec cap base); simpl;
    intros [] Hok; try done. injection Hok as <-. split; simpl; (done || lia).
Qed.

Lemma apply_probe_timeout_usable body p p' :
  policy_usable p → apply_probe_timeout body p = Ok p' → policy_usable p'.
Proof.
  unfold apply_probe_timeout. destruct (body_probe_timeout body) as [t|]; [|congruence].
  destruct (N.eqb_spec t 0); intros [] Hok; [done|]. injection Hok as <-. split; simpl; try done.
  unfold Duration_from_secs, NANOS_PER_SEC. lia.
Qed.

(** whatever row is stored, resolving it over usable defaults either refuses it or gives
    a usable policy: positive backoff with base at most cap, a positive probe timeout, a
    renewal fraction strictly between 0 and 1, a supported key type and a complete binding. *)
Theorem resolve_certificate_policy_usable raw defaults policy :
  policy_usable defaults → resolve_certificate_policy raw defaults = Ok policy →
  policy_usable policy.
Proof.
  intros Hd. unfold resolve_certificate_policy.
  destruct raw as [raw|]; [|congruence]. destruct (str_is_empty raw); [congruence|].
  intros (body & _ & Hok)%result_bind_Ok.
  destruct (refused_challenge_kind body); [done|].
  apply result_bind_Ok in Hok as (p1 & H1%apply_eab_usable & Hok);
    [|by apply apply_directory_url_usable].
  apply result_bind_Ok in Hok as (p2 & H2%apply_key_type_usable & Hok); [|done].
  apply result_bind_Ok in Hok as (p3 & H3%apply_fraction_usable & Hok); [|done].
  apply result_bind_Ok in Hok as (p4 & H4%apply_backoff_usable & Hok); [|done].
  by eapply apply_probe_timeout_usable.
Qed.
End PolicyFacts.

(** A reader that knows two rows. *)
Definition sample_body (base cap : option N) : PolicyBody :=
  {| body_directory_url := Some ""; body_eab := None; body_key_type := Some EcdsaP384;
     body_fraction := None; body_backoff := Some {| body_base := base; body_cap := cap |};
     body_probe_timeout := Some 5%N; body_challenge_kind := Some "http-01" |}.
#[local] Instance sample_readers : PolicyReaders := {|
  policy_from_str := λ raw,
    if String.eqb raw "hourly" then Ok (sample_body (Some 90%N) None)
    else if String.eqb raw "forever" then Ok (sample_body (Some u64_max) (Some u64_max))
    else Err "unexpected text";
  url_safe_no_pad_decode := λ _, None;
  url_safe_decode := λ _, None;
  standard_decode := λ _, None
|}.

Lemma built_in_usable url : policy_usable (CertificatePolicy_built_in url).
Proof. by split; vm_compute. Qed.

Lemma resolve_certificate_policy_usable_witness :
  ∃ policy,
    resolve_certificate_policy (Some "hourly") (CertificatePolicy_built_in None) = Ok policy ∧
    policy_usable policy.
Proof.
  eexists. split; [vm_compute; reflexivity|].
  apply (resolve_certificate_policy_usable (Some "hourly") (CertificatePolicy_built_in None)).
  - apply built_in_usable.
  - vm_compute; reflexivity.
Defined.

(** the readings a policy accepts are not all usable: a row whose backoff base is the
    largest integer resolves, and then recording any failure overflows the clock, at every
    time from the epoch on. *)
Theorem accepted_backoff_overflows now clock failure :
  (0 ≤ now)%Z →
  ∃ policy,
    resolve_certificate_policy (Some "forever") (CertificatePolicy_built_in None) = Ok policy ∧
    issuance_failure_clock clock failure now policy.(backoff_base) policy.(backoff_cap) = None.
Proof.
  intros Hnow. eexists. split; [vm_compute; reflexivity|]. cbn [backoff_base backoff_cap].
  unfold issuance_failure_clock. set (n := match clock with Some _ => _ | None => _ end).
  assert (issuance_backoff n (u64_max * 1000000000) (u64_max * 1000000000)
          = (u64_max * 1000000000)%N) as Hb.
  { change (u64_max * 1000000000)%N with (Duration_from_secs u64_max).
    rewrite issuance_backoff_eq; rewrite !as_from_secs; [|done]. f_equal. apply N.min_r.
    rewrite <-(N.mul_1_r u64_max) at 1. apply N.mul_le_mono_l.
    change 1%N with (2 ^ 0)%N at 1. apply N.pow_le_mono_r; lia. }
  change 18446744073709551615000000000%N with (u64_max * 1000000000)%N. rewrite Hb.
  unfold SystemTime_add. destruct (Z.leb_spec ((now + Z.of_N (u64_max * 1000000000))
    / Z.of_N NANOS_PER_SEC) i64_max) as [Hle|]; [exfalso|done].
  assert (Z.of_N (u64_max * 1000000000) / Z.of_N NANOS_PER_SEC
    ≤ (now + Z.of_N (u64_max * 1000000000)) / Z.of_N NANOS_PER_SEC)%Z as Hdiv
    by (apply Z.div_le_mono; [done|lia]).
  assert (i64_max < Z.of_N (u64_max * 1000000000) / Z.of_N NANOS_PER_SEC)%Z by done. lia.
Qed.

Lemma accepted_backoff_overflows_witness :
  ∃ policy,
    resolve_certificate_policy (Some "forever") (CertificatePolicy_built_in None) = Ok policy ∧
    issuance_failure_clock None Authority 1700000000000000000 policy.(backoff_base)
      policy.(backoff_cap) = None.
Proof. apply (accepted_backoff_overflows 1700000000000000000 None Authority). lia. Defined.
