(* ===== verification/Decimal.v ===== *)
(** * Decimal text

    [u64]'s [Display] and [FromStr], and the fixed-width forms the sources
    format. *)

From S2P Require Import Prelude Strings.
From Stdlib Require Import Ascii.

Open Scope string_scope.
Open Scope N_scope.

Definition digit_char (d : N) : ascii := Ascii.ascii_of_N (48 + d).

(** [format!("{n:0k$}")] for [n < 10^k]: exactly [k] digits. *)
Fixpoint digits_fixed (k : nat) (n : N) : string :=
  match k with
  | O => ""
  | S k' => digits_fixed k' (n / 10) +:+ String (digit_char (n mod 10)) ""
  end.

Fixpoint drop_zeros (s : string) : string :=
  match s with
  | EmptyString => EmptyString
  | String c s' => if (byte_of c =? 48) then drop_zeros s' else s
  end.

(** [u64::to_string]: at most 20 digits, no leading zero. *)
Definition u64_to_string (n : N) : string :=
  let s := drop_zeros (digits_fixed 20 n) in if str_is_empty s then "0" else s.

Definition digit_value (c : ascii) : N := byte_of c - 48.

(** The digits read left to right from [acc], in unbounded arithmetic. *)
Fixpoint dec_value (acc : N) (s : string) : N :=
  match s with
  | EmptyString => acc
  | String c s' => dec_value (acc * 10 + digit_value c) s'
  end.

(** [str::parse::<u64>] on text without a sign: empty text, a byte that is not
    a digit and overflow are errors. *)
Fixpoint parse_u64_digits (acc : N) (s : string) : option N :=
  match s with
  | EmptyString => Some acc
  | String c s' =>
      if is_ascii_digit (byte_of c) then
        match checked_mul acc 10 with
        | Some m =>
            match checked_add m (digit_value c) with
            | Some a => parse_u64_digits a s'
            | None => None
            end
        | None => None
        end
      else None
  end.
Definition parse_u64 (s : string) : option N :=
  if str_is_empty s then None else parse_u64_digits 0 s.

(** [format!("{s:0<k$}")]: zeros appended up to [k] characters. *)
Fixpoint pad_zeros (k : nat) (s : string) : string :=
  match k, s with
  | O, _ => s
  | S k', EmptyString => String "0" (pad_zeros k' "")
  | S k', String c s' => String c (pad_zeros k' s')
  end.

(** [s.trim_end_matches('0')]. *)
Definition trim_end_zeros (s : string) : string := str_rev (drop_zeros (str_rev s)).

(** ** Lemmas *)

Lemma digit_char_byte d : d < 10 → byte_of (digit_char d) = 48 + d.
Proof. intros Hd. unfold digit_char. apply Ascii.N_ascii_embedding. lia. Qed.

Lemma digit_char_value d : d < 10 → digit_value (digit_char d) = d.
Proof. intros Hd. unfold digit_value. rewrite digit_char_byte by done. lia. Qed.

Lemma dec_value_app acc s1 s2 : dec_value acc (s1 +:+ s2) = dec_value (dec_value acc s1) s2.
Proof. revert acc. induction s1 as [|c s1 IH]; intros acc; [done|]. apply IH. Qed.

Lemma mod_10 n : n mod 10 < 10.
Proof. by apply N.mod_lt. Qed.

Lemma digits_fixed_value k n : dec_value 0 (digits_fixed k n) = n mod 10 ^ N.of_nat k.
Proof.
  revert n. induction k as [|k IH]; intros n; [by rewrite N.mod_1_r|].
  simpl digits_fixed. rewrite dec_value_app, IH. simpl dec_value.
  rewrite digit_char_value by apply mod_10.
  rewrite Nat2N.inj_succ, N.pow_succ_r', N.Div0.mod_mul_r.
  by rewrite N.add_comm, (N.mul_comm 10).
Qed.

Lemma digits_fixed_digits k n : bytes_all is_ascii_digit (digits_fixed k n) = true.
Proof.
  revert n. induction k as [|k IH]; intros n; [done|]. simpl digits_fixed.
  rewrite bytes_all_app, IH. cbn [bytes_all andb]. rewrite digit_char_byte by apply mod_10.
  unfold is_ascii_digit, byte_between. pose proof (mod_10 n) as Hm.
  generalize dependent (n mod 10). intros d Hd. case_N_tests; (done || lia).
Qed.

Lemma digits_fixed_length k n : String.length (digits_fixed k n) = k.
Proof.
  revert n. induction k as [|k IH]; intros n; [done|]. simpl digits_fixed.
  rewrite str_app_length, IH. simpl. lia.
Qed.

Lemma drop_zeros_value s : dec_value 0 (drop_zeros s) = dec_value 0 s.
Proof.
  induction s as [|c s IH]; [done|]. cbn [drop_zeros].
  destruct (N.eqb_spec (byte_of c) 48) as [Hc|]; [|done]. rewrite IH. simpl.
  unfold digit_value. by rewrite Hc.
Qed.

Lemma drop_zeros_all p s : bytes_all p s = true → bytes_all p (drop_zeros s) = true.
Proof.
  induction s as [|c s IH]; [done|]. cbn [drop_zeros bytes_all].
  intros [Hc Hs]%andb_true_iff. destruct (byte_of c =? 48); [auto|]. simpl. by rewrite Hc, Hs.
Qed.

Lemma dec_value_mono acc s : acc ≤ dec_value acc s.
Proof.
  revert acc. induction s as [|c s IH]; intros acc; simpl; [lia|].
  etrans; [|apply IH]. lia.
Qed.

Lemma parse_u64_digits_value acc s :
  bytes_all is_ascii_digit s = true → dec_value acc s ≤ u64_max →
  parse_u64_digits acc s = Some (dec_value acc s).
Proof.
  revert acc. induction s as [|c s IH]; intros acc Hs Hv; [done|].
  cbn [bytes_all] in Hs. apply andb_true_iff in Hs as [Hc Hs].
  cbn [parse_u64_digits dec_value] in *. rewrite Hc.
  pose proof (dec_value_mono (acc * 10 + digit_value c) s).
  assert (checked_mul acc 10 = Some (acc * 10)) as -> by (apply checked_mul_Some; lia).
  assert (checked_add (acc * 10) (digit_value c) = Some (acc * 10 + digit_value c)) as ->
    by (apply checked_add_Some; lia).
  by apply IH.
Qed.

Lemma u64_to_string_digits n : bytes_all is_ascii_digit (u64_to_string n) = true.
Proof.
  unfold u64_to_string. destruct (str_is_empty _); [done|].
  apply drop_zeros_all, digits_fixed_digits.
Qed.

Lemma u64_to_string_nonempty n : u64_to_string n ≠ "".
Proof. unfold u64_to_string. by destruct (drop_zeros (digits_fixed 20 n)). Qed.

Lemma u64_to_string_value n : is_u64 n → dec_value 0 (u64_to_string n) = n.
Proof.
  unfold is_u64. intros Hn. unfold u64_to_string.
  assert (dec_value 0 (drop_zeros (digits_fixed 20 n)) = n) as Hv.
  { rewrite drop_zeros_value, digits_fixed_value. apply N.mod_small.
    eapply N.le_lt_trans; [exact Hn|]. done. }
  destruct (drop_zeros (digits_fixed 20 n)); [by rewrite <-Hv|done].
Qed.

Lemma parse_u64_to_string n : is_u64 n → parse_u64 (u64_to_string n) = Some n.
Proof.
  intros Hn. unfold parse_u64.
  pose proof (u64_to_string_nonempty n) as Hne.
  destruct (u64_to_string n) as [|c s] eqn:He; [done|]. simpl str_is_empty. cbv iota.
  rewrite <-He. rewrite parse_u64_digits_value; [|apply u64_to_string_digits|];
    rewrite u64_to_string_value; done.
Qed.

Fixpoint zeros (k : nat) : string := match k with O => "" | S k' => String "0" (zeros k') end.

Lemma zeros_snoc k : zeros k +:+ "0" = String "0" (zeros k).
Proof. induction k as [|k IH]; [done|]. simpl. f_equal. apply IH. Qed.

Lemma rev_zeros k : str_rev (zeros k) = zeros k.
Proof. induction k as [|k IH]; [done|]. simpl zeros. by rewrite str_rev_cons, IH, zeros_snoc. Qed.

Lemma drop_zeros_split s : ∃ k, s = zeros k +:+ drop_zeros s.
Proof.
  induction s as [|c s [k IH]]; [by exists 0%nat|]. cbn [drop_zeros].
  destruct (N.eqb_spec (byte_of c) 48) as [Hc|]; [|by exists 0%nat].
  exists (S k). simpl. rewrite <-IH. f_equal.
  by apply (f_equal Ascii.ascii_of_N) in Hc; rewrite Ascii.ascii_N_embedding in Hc.
Qed.

Lemma pad_zeros_app k s : pad_zeros (String.length s + k) s = s +:+ zeros k.
Proof.
  induction s as [|c s IH]; simpl.
  - induction k as [|k IHk]; [done|]. simpl. by rewrite IHk.
  - f_equal. apply IH.
Qed.

(** Dropping trailing zeros and padding back to the width is the identity. *)
Lemma pad_trim_zeros s : pad_zeros (String.length s) (trim_end_zeros s) = s.
Proof.
  unfold trim_end_zeros. destruct (drop_zeros_split (str_rev s)) as [k Hk].
  set (t := drop_zeros (str_rev s)) in *.
  assert (s = str_rev t +:+ zeros k) as Hs.
  { rewrite <-(str_rev_involutive s), Hk, str_rev_app. by rewrite rev_zeros. }
  rewrite Hs at 1. rewrite str_app_length.
  replace (String.length (zeros k)) with k.
  2: { clear. induction k as [|k IH]; [done|]. simpl. by f_equal. }
  by rewrite pad_zeros_app, <-Hs.
Qed.

#[global] Arguments u64_to_string : simpl never.
#[global] Arguments digits_fixed : simpl never.
