(* ===== verification/Volumes.v ===== *)
(** * Service storage declarations

    [ployz-core/src/domain/volume.rs] with the creation request of
    [rpc/docker.rs] and the mount enumerations of [host_config.rs]: volume
    sources, Namespace scoping, ownership labels, the match of an observed
    Docker Volume and the GB text of a Provisioned Volume's bound. *)

From S2P Require Import Prelude BTree Strings Decimal Values StorageCapacity.
From Stdlib Require Import Ascii.

Open Scope string_scope.
Open Scope list_scope.

(** ** Data *)

Inductive BindPropagation : Type := Private | Rprivate | Shared | Rshared | Slave | Rslave.
Inductive BindRecursive : Type := RecursiveDisabled | RecursiveWritable | RecursiveReadonly.

Abbreviation StringMap := (bmap string string) (only parsing).

Record VolumeDriver : Type := {
  driver_name : string;
  driver_options : StringMap
}.

Inductive RawVolumeSource : Type :=
| Bind (machine_path : MachinePath) (create_machine_path : bool)
       (propagation : option BindPropagation) (recursive : option BindRecursive)
| External (name : DockerVolumeName)
| Ordinary (name : DockerVolumeName) (driver : VolumeDriver) (labels : StringMap)
| Provisioned (name : DockerVolumeName) (maximum_bytes : N) (labels : StringMap)
| Tmpfs (size_bytes : option N) (mode : option N) (options : list (list string)).

Record ScopedVolumeSource : Type := {
  scoped_namespace : Namespace;
  logical_name : DockerVolumeName
}.

Record VolumeSource : Type := {
  vs_source : RawVolumeSource;
  vs_scope : option ScopedVolumeSource
}.

Record ServiceVolume : Type := {
  sv_reference : ServiceVolumeReference;
  sv_source : VolumeSource
}.

Record ServiceMount : Type := {
  mount_volume : ServiceVolumeReference;
  mount_target : ContainerPath;
  mount_read_only : bool;
  mount_no_copy : bool;
  mount_subpath : option string
}.

#[global] Instance BindPropagation_eq_dec : EqDecision BindPropagation.
Proof. solve_decision. Defined.
#[global] Instance BindRecursive_eq_dec : EqDecision BindRecursive.
Proof. solve_decision. Defined.
#[global] Instance VolumeDriver_eq_dec : EqDecision VolumeDriver.
Proof. solve_decision. Defined.
#[global] Instance RawVolumeSource_eq_dec : EqDecision RawVolumeSource.
Proof. solve_decision. Defined.
#[global] Instance ScopedVolumeSource_eq_dec : EqDecision ScopedVolumeSource.
Proof. solve_decision. Defined.
#[global] Instance VolumeSource_eq_dec : EqDecision VolumeSource.
Proof. solve_decision. Defined.
#[global] Instance ServiceVolume_eq_dec : EqDecision ServiceVolume.
Proof. solve_decision. Defined.
#[global] Instance ServiceMount_eq_dec : EqDecision ServiceMount.
Proof. solve_decision. Defined.

Definition PROVISIONED_VOLUME_DRIVER : string := "ployz".

Definition VolumeDriver_parse (name : string) (options : StringMap)
    : Result VolumeDriver ValueError :=
  if String.eqb name PROVISIONED_VOLUME_DRIVER
  then Err (ValueError_new "ordinary Docker Volume driver" name
              "a driver other than the reserved 'ployz' driver")
  else Ok {| driver_name := name; driver_options := options |}.

(** ** Admission and scoping *)

Definition source_labels (source : RawVolumeSource) : option StringMap :=
  match source with
  | Ordinary _ _ labels | Provisioned _ _ labels => Some labels
  | _ => None
  end.

Definition is_reserved_label (key : string) : bool :=
  String.eqb key MANAGED_LABEL || String.eqb key NAMESPACE_LABEL.

(** [TryFrom<RawVolumeSource>], which is also [RawVolumeSource::admit]. *)
Definition VolumeSource_try_from (source : RawVolumeSource) : Result VolumeSource ValueError :=
  match (labels ← source_labels source; List.find is_reserved_label (bkeys labels)) with
  | Some key => Err (ValueError_new "volume label" key "a non-reserved user label")
  | None => Ok {| vs_source := source; vs_scope := None |}
  end.

Definition docker_volume_name (self : VolumeSource) : option DockerVolumeName :=
  match self.(vs_source) with
  | External name | Ordinary name _ _ | Provisioned name _ _ => Some name
  | Bind _ _ _ _ | Tmpfs _ _ _ => None
  end.

Definition managed_docker_volume_name (self : VolumeSource) : option DockerVolumeName :=
  match self.(vs_source) with
  | Ordinary name _ _ | Provisioned name _ _ => Some name
  | External _ | Bind _ _ _ _ | Tmpfs _ _ _ => None
  end.

(** Replace the managed name; other sources have none. *)
Definition with_managed_name (name : DockerVolumeName) (source : RawVolumeSource)
    : RawVolumeSource :=
  match source with
  | Ordinary _ driver labels => Ordinary name driver labels
  | Provisioned _ maximum labels => Provisioned name maximum labels
  | other => other
  end.

Definition VolumeSource_scope_to_namespace (self : VolumeSource) (namespace : Namespace)
    : VolumeSource :=
  match self.(vs_scope) with
  | Some _ => self
  | None =>
      match managed_docker_volume_name self with
      | None => self
      | Some name =>
          {| vs_source := with_managed_name (Namespace_volume_name namespace name) self.(vs_source);
             vs_scope := Some {| scoped_namespace := namespace; logical_name := name |} |}
      end
  end.

Definition ScopedVolumeSource_physical_name (self : ScopedVolumeSource) : DockerVolumeName :=
  Namespace_volume_name self.(scoped_namespace) self.(logical_name).

Definition is_managed (source : RawVolumeSource) : bool :=
  match source with Ordinary _ _ _ | Provisioned _ _ _ => true | _ => false end.

Definition VolumeSource_is_resolved (self : VolumeSource) : bool :=
  negb (is_managed self.(vs_source))
  || match self.(vs_scope) with Some _ => true | None => false end.

Definition creation_labels (self : VolumeSource) : StringMap :=
  match source_labels self.(vs_source) with
  | None => []
  | Some labels =>
      match self.(vs_scope) with
      | Some scope =>
          binsert NAMESPACE_LABEL scope.(scoped_namespace) (binsert MANAGED_LABEL "" labels)
      | None => labels
      end
  end.

Record CreateVolumeRequest : Type := {
  create_name : DockerVolumeName;
  create_driver : string;
  create_options : StringMap;
  create_labels : StringMap
}.

Definition to_create_volume_request (self : VolumeSource) : option CreateVolumeRequest :=
  if negb (VolumeSource_is_resolved self) then None
  else
    match self.(vs_source) with
    | Ordinary name driver _ =>
        Some {| create_name := name; create_driver := driver.(driver_name);
                create_options := driver.(driver_options);
                create_labels := creation_labels self |}
    | Provisioned name maximum_bytes _ =>
        Some {| create_name := name; create_driver := PROVISIONED_VOLUME_DRIVER;
                create_options := [("size", u64_to_string maximum_bytes +:+ "b")];
                create_labels := creation_labels self |}
    | External _ | Bind _ _ _ _ | Tmpfs _ _ _ => None
    end.

(** ** Observed Docker Volumes *)

Inductive DockerVolumeStorageObservation : Type :=
| PlainStorage (driver : string)
| ProvisionedStorage (mountpoint : MachinePath) (bound_bytes used_bytes : N).

Record DockerVolume : Type := {
  dv_id : DockerVolumeId;
  dv_options : StringMap;
  dv_labels : StringMap;
  dv_storage : DockerVolumeStorageObservation
}.

Definition DockerVolume_driver (self : DockerVolume) : string :=
  match self.(dv_storage) with
  | PlainStorage driver => driver
  | ProvisionedStorage _ _ _ => PROVISIONED_VOLUME_DRIVER
  end.

Definition matches_managed_volume (self : VolumeSource) (observed : DockerVolume) : bool :=
  match to_create_volume_request self with
  | None => false
  | Some expected =>
      String.eqb observed.(dv_id).(dvid_name) expected.(create_name)
      && String.eqb (DockerVolume_driver observed) expected.(create_driver)
      && bool_decide (observed.(dv_options) = expected.(create_options))
      && forallb (λ '(key, value), bool_decide (bget observed.(dv_labels) key = Some value))
           expected.(create_labels)
      && match self.(vs_source), observed.(dv_storage) with
         | Ordinary _ _ _, PlainStorage _ => true
         | Provisioned _ maximum_bytes _, ProvisionedStorage _ bound_bytes _ =>
             N.eqb bound_bytes maximum_bytes
         | _, _ => false
         end
  end.

(** ** Resolved sources on the wire *)

Abbreviation ResolvedVolumeSource := VolumeSource (only parsing).

Definition ResolvedVolumeSource_try_from (source : VolumeSource)
    : Result ResolvedVolumeSource ValueError :=
  if negb (VolumeSource_is_resolved source)
  then Err (ValueError_new "resolved volume" "unscoped" "a Namespace-scoped managed source")
  else Ok source.

(** The wire form is the raw source beside its scope. *)
Definition ResolvedVolumeSource_from_wire (source : RawVolumeSource)
    (scope : option ScopedVolumeSource) : Result ResolvedVolumeSource ValueError :=
  let? admitted := VolumeSource_try_from source in
  if option_test
       (λ scope, negb (is_managed admitted.(vs_source))
                 || negb (bool_decide (docker_volume_name admitted
                                       = Some (ScopedVolumeSource_physical_name scope)))) scope
  then Err (ValueError_new "resolved volume" "scope"
              "ownership matching the managed physical source")
  else ResolvedVolumeSource_try_from {| vs_source := admitted.(vs_source); vs_scope := scope |}.

Definition ResolvedVolumeSource_into_wire (self : ResolvedVolumeSource)
    : RawVolumeSource * option ScopedVolumeSource := (self.(vs_source), self.(vs_scope)).

(** ** Bounds in GB *)

Definition GB : N := 1000000000.

Definition MaximumBytes_try_from (value : N) : Result N ValueError :=
  if (value =? 0)%N
  then Err (ValueError_new "Provisioned Volume maximum bytes" (u64_to_string value)
              "a positive byte count")
  else Ok value.

Definition invalid_storage_limit (value : string) : ValueError :=
  ValueError_new "storage limit" value "a positive number of GB, like 5GB or 1.5GB".

Definition parse_gb (value : string) : Result N ValueError :=
  let number := trim value in
  let number :=
    trim_end
      (match strip_suffix "GB" number with
       | Some rest => rest
       | None => default number (strip_suffix "gb" number)
       end) in
  let '(whole, fraction) := default (number, "") (split_once "." number) in
  if (str_is_empty whole && str_is_empty fraction)
     || Nat.ltb 9 (String.length fraction)
     || negb (bytes_all is_ascii_digit whole)
     || negb (bytes_all is_ascii_digit fraction)
  then Err (invalid_storage_limit value)
  else
    let? whole :=
      (if str_is_empty whole then Ok 0%N
       else ok_or (parse_u64 whole) (invalid_storage_limit value)) in
    let? fraction := ok_or (parse_u64 (pad_zeros 9 fraction)) (invalid_storage_limit value) in
    ok_or
      (bytes ← checked_mul whole GB;
       bytes ← checked_add bytes fraction;
       result_ok (MaximumBytes_try_from bytes))
      (invalid_storage_limit value).

Definition MaximumBytes_to_string (self : N) : string :=
  let whole := (self / GB)%N in
  let fraction := (self mod GB)%N in
  if (fraction =? 0)%N then u64_to_string whole +:+ " GB"
  else u64_to_string whole +:+ "." +:+ trim_end_zeros (digits_fixed 9 fraction) +:+ " GB".

(** Keep the digits of a printed number out of the simplifier's way. *)
#[local] Opaque u64_to_string digits_fixed.

(** ** Scoping *)

(** A source whose scope, when present, is the ownership of its physical name. *)
Definition scope_ok (s : VolumeSource) : Prop :=
  ∀ scope, s.(vs_scope) = Some scope →
    managed_docker_volume_name s = Some (ScopedVolumeSource_physical_name scope).

(** Admitted user labels never claim ownership. *)
Definition labels_ok (s : VolumeSource) : Prop :=
  ∀ labels key, source_labels s.(vs_source) = Some labels → key ∈ bkeys labels →
    is_reserved_label key = false.

Lemma with_managed_name_labels name s : source_labels (with_managed_name name s) = source_labels s.
Proof. by destruct s. Qed.

Lemma with_managed_name_managed name s : is_managed (with_managed_name name s) = is_managed s.
Proof. by destruct s. Qed.

Lemma managed_name_is_managed s :
  is_managed s.(vs_source) = match managed_docker_volume_name s with Some _ => true | None => false end.
Proof. unfold managed_docker_volume_name. by destruct (vs_source s). Qed.

Lemma scope_scope_ok s ns : scope_ok s → scope_ok (VolumeSource_scope_to_namespace s ns).
Proof.
  unfold VolumeSource_scope_to_namespace. intros Hs.
  destruct (vs_scope s) eqn:Hsc; [done|].
  destruct (managed_docker_volume_name s) eqn:Hm; [|done].
  intros scope [= <-]. unfold managed_docker_volume_name in *. simpl.
  destruct (vs_source s); naive_solver.
Qed.

Lemma scope_labels_ok s ns : labels_ok s → labels_ok (VolumeSource_scope_to_namespace s ns).
Proof.
  unfold labels_ok, VolumeSource_scope_to_namespace. intros Hs.
  destruct (vs_scope s); [done|]. destruct (managed_docker_volume_name s); [|done].
  simpl. by rewrite with_managed_name_labels.
Qed.

Lemma scope_resolved s ns : VolumeSource_is_resolved (VolumeSource_scope_to_namespace s ns) = true.
Proof.
  unfold VolumeSource_scope_to_namespace, VolumeSource_is_resolved.
  destruct (vs_scope s) eqn:Hsc; [by rewrite Hsc, orb_true_r|].
  destruct (managed_docker_volume_name s) eqn:Hm; simpl; [by rewrite orb_true_r|].
  rewrite managed_name_is_managed, Hm. done.
Qed.

Lemma admitted_ok source s :
  VolumeSource_try_from source = Ok s →
  s = {| vs_source := source; vs_scope := None |} ∧ labels_ok s ∧ scope_ok s.
Proof.
  unfold VolumeSource_try_from. destruct (source_labels source) as [labels|] eqn:Hl; simpl.
  - destruct (List.find _ (bkeys labels)) eqn:Hf; [done|]. intros [= <-].
    split_and!; [done| |done]. intros l key Hl' Hk. simpl in Hl'. simplify_eq.
    rewrite find_None_elem in Hf. by apply Hf.
  - intros [= <-]. split_and!; [done| |done]. intros l key Hl'. simpl in Hl'. congruence.
Qed.

(** scoping an admitted declaration to a Namespace resolves it, and does so once: it may
    then be created and mounted, keeps its labels, and scoping it again, even to another
    Namespace, leaves it unchanged.  Sources Ployz does not manage are never changed. *)
Theorem scope_to_namespace_once source s ns ns' :
  VolumeSource_try_from source = Ok s →
  let scoped := VolumeSource_scope_to_namespace s ns in
  VolumeSource_is_resolved scoped = true ∧
  VolumeSource_scope_to_namespace scoped ns' = scoped ∧
  source_labels scoped.(vs_source) = source_labels source ∧
  docker_volume_name scoped =
    match managed_docker_volume_name s with
    | Some name => Some (Namespace_volume_name ns name)
    | None => docker_volume_name s
    end ∧
  (is_managed source = false → scoped = s).
Proof.
  intros (Hs & _ & _)%admitted_ok. intros scoped.
  split_and!; [apply scope_resolved|..]; subst scoped s;
    unfold VolumeSource_scope_to_namespace, docker_volume_name, managed_docker_volume_name;
    simpl; by destruct source.
Qed.

Definition sample_source : RawVolumeSource :=
  Provisioned "data" 5000000000 [("tier", "db")].

Lemma scope_to_namespace_once_witness :
  ∃ s, VolumeSource_try_from sample_source = Ok s ∧
    VolumeSource_is_resolved (VolumeSource_scope_to_namespace s "shop") = true.
Proof.
  eexists. split; [vm_compute; reflexivity|].
  apply (scope_to_namespace_once sample_source _ "shop" "blog"). vm_compute; reflexivity.
Defined.

(** ** Ownership *)

(** Observed volumes a Namespace's declarations may claim. *)
Definition owned_by (observed : DockerVolume) (ns : Namespace) : Prop :=
  bget observed.(dv_labels) NAMESPACE_LABEL = Some ns ∧
  bget observed.(dv_labels) MANAGED_LABEL = Some "".

Lemma creation_labels_scoped s labels scope :
  source_labels s.(vs_source) = Some labels → s.(vs_scope) = Some scope →
  bget (creation_labels s) NAMESPACE_LABEL = Some scope.(scoped_namespace) ∧
  bget (creation_labels s) MANAGED_LABEL = Some "".
Proof.
  intros Hl Hs. unfold creation_labels. rewrite Hl, Hs.
  split; [apply bget_binsert_eq|]. rewrite bget_binsert_ne by done. apply bget_binsert_eq.
Qed.

Lemma matches_request s observed :
  matches_managed_volume s observed = true →
  ∃ request scope labels,
    to_create_volume_request s = Some request ∧ s.(vs_scope) = Some scope ∧
    source_labels s.(vs_source) = Some labels ∧
    observed.(dv_id).(dvid_name) = request.(create_name) ∧
    request.(create_labels) = creation_labels s ∧
    (∀ key value, bget (creation_labels s) key = Some value →
       bget observed.(dv_labels) key = Some value).
Proof.
  unfold matches_managed_volume.
  destruct (to_create_volume_request s) as [request|] eqn:Hr; [|done].
  intros [[[[Hn%String.eqb_eq _]%andb_true_iff _]%andb_true_iff Hl]%andb_true_iff _]%andb_true_iff.
  rewrite forallb_elem in Hl.
  assert (request.(create_labels) = creation_labels s ∧ is_managed s.(vs_source) = true ∧
    VolumeSource_is_resolved s = true) as (Hcl & Hm & Hres).
  { revert Hr. unfold to_create_volume_request.
    destruct (VolumeSource_is_resolved s); cbn [negb]; [|done].
    destruct (vs_source s); try done; by intros [= <-]. }
  unfold VolumeSource_is_resolved in Hres. rewrite Hm in Hres. simpl in Hres.
  destruct (vs_scope s) as [scope|] eqn:Hsc; [|done].
  assert (∃ labels, source_labels s.(vs_source) = Some labels) as [labels Hlab]
    by (destruct (vs_source s); naive_solver).
  exists request, scope, labels. split_and!; try done.
  intros key value Hg%bget_elem. rewrite <-Hcl in Hg. specialize (Hl _ Hg). simpl in Hl.
  by apply bool_decide_eq_true in Hl.
Qed.

(** a declaration matches an observed Docker Volume only when that Volume carries the
    declaring Namespace's ownership, so an external Volume, an unscoped declaration or a
    Volume of another Namespace is never reused. *)
Theorem matched_volume_is_owned s observed :
  matches_managed_volume s observed = true →
  ∃ scope, s.(vs_scope) = Some scope ∧ is_managed s.(vs_source) = true ∧
    owned_by observed scope.(scoped_namespace) ∧
    (∀ s', matches_managed_volume s' observed = true →
       scoped_namespace <$> s'.(vs_scope) = Some scope.(scoped_namespace)).
Proof.
  intros (request & scope & labels & _ & Hsc & Hlab & _ & _ & Hsub)%matches_request.
  destruct (creation_labels_scoped s labels scope Hlab Hsc) as [Hns Hmg].
  exists scope. split_and!; [done| |split; auto|].
  - by destruct (vs_source s).
  - intros s' (? & scope' & labels' & _ & Hsc' & Hlab' & _ & _ & Hsub')%matches_request.
    destruct (creation_labels_scoped s' labels' scope' Hlab' Hsc') as [Hns' _].
    apply Hsub in Hns. apply Hsub' in Hns'. rewrite Hsc'. simpl. congruence.
Qed.

(** The Volume a Machine reports after honouring a creation request. *)
Definition created_volume (machine : MachineId) (s : VolumeSource) (request : CreateVolumeRequest)
    (mountpoint : string) : DockerVolume :=
  {| dv_id := {| dvid_machine_id := machine; dvid_name := request.(create_name) |};
     dv_options := request.(create_options); dv_labels := request.(create_labels);
     dv_storage := match s.(vs_source) with
                   | Provisioned _ maximum _ => ProvisionedStorage mountpoint maximum 0
                   | _ => PlainStorage request.(create_driver)
                   end |}.

Definition sample_scoped : VolumeSource :=
  VolumeSource_scope_to_namespace {| vs_source := sample_source; vs_scope := None |} "shop".

Definition sample_request : CreateVolumeRequest :=
  {| create_name := "shop_data"; create_driver := "ployz";
     create_options := [("size", "5000000000b")];
     create_labels := [("ployz.managed", ""); ("ployz.namespace", "shop"); ("tier", "db")] |}.
Definition sample_observed : DockerVolume :=
  created_volume "m1" sample_scoped sample_request "/pool/shop_data".

Lemma matched_volume_is_owned_witness :
  matches_managed_volume sample_scoped sample_observed = true ∧
  ∃ scope, sample_scoped.(vs_scope) = Some scope ∧
    owned_by sample_observed scope.(scoped_namespace).
Proof.
  split; [vm_compute; reflexivity|].
  destruct (matched_volume_is_owned sample_scoped sample_observed)
    as (scope & Hsc & _ & Hown & _); [vm_compute; reflexivity|].
  exists scope. split; [exact Hsc|exact Hown].
Defined.

(** what a Machine reports after creating a managed Volume exactly as asked is the
    Volume the declaration matches, so a second deploy reuses it instead of creating it. *)
Theorem created_volume_matches s request machine mountpoint :
  (∀ labels, source_labels s.(vs_source) = Some labels → bwf labels) →
  to_create_volume_request s = Some request →
  matches_managed_volume s (created_volume machine s request mountpoint) = true.
Proof.
  intros Hwf Hr. unfold matches_managed_volume, created_volume. rewrite Hr. simpl.
  rewrite String.eqb_refl. rewrite bool_decide_eq_true_2 by done.
  assert (bwf request.(create_labels)) as Hw.
  { assert (bwf (creation_labels s)) as Hc.
    { unfold creation_labels. destruct (source_labels (vs_source s)); [|apply bwf_nil].
      specialize (Hwf _ eq_refl). destruct (vs_scope s); auto with ployz. }
    revert Hr. unfold to_create_volume_request.
    destruct (VolumeSource_is_resolved s); cbn [negb]; [|done].
    destruct (vs_source s); try done; intros [= <-]; exact Hc. }
  assert (forallb (λ '(key, value), bool_decide (bget (create_labels request) key = Some value))
            (create_labels request) = true) as ->.
  { apply forallb_elem. intros [key value] Hin. apply bool_decide_eq_true_2.
    by apply bget_Some. }
  rewrite andb_true_r. unfold DockerVolume_driver. simpl.
  revert Hr. unfold to_create_volume_request.
  destruct (VolumeSource_is_resolved s); cbn [negb]; [|done].
  destruct (vs_source s); try done; intros [= <-]; cbn [create_driver];
    rewrite ?String.eqb_refl; cbn [andb].
  - done.
  - apply N.eqb_refl.
Qed.

Lemma created_volume_matches_witness :
  to_create_volume_request sample_scoped = Some sample_request ∧
  matches_managed_volume sample_scoped sample_observed = true.
Proof.
  split; [vm_compute; reflexivity|].
  apply (created_volume_matches sample_scoped sample_request "m1" "/pool/shop_data").
  - intros labels Hl. vm_compute in Hl. injection Hl as <-.
    constructor; [constructor|constructor].
  - vm_compute; reflexivity.
Defined.

(** ** The wire form of resolved sources *)

(** a resolved source survives its wire form exactly, and the wire form cannot assert
    an ownership its physical name does not have: whatever is read back is resolved, keeps
    reserved labels out and carries a scope only where the scope names that very Volume. *)
Theorem resolved_source_roundtrip s :
  labels_ok s → scope_ok s → VolumeSource_is_resolved s = true →
  ResolvedVolumeSource_from_wire (ResolvedVolumeSource_into_wire s).1
    (ResolvedVolumeSource_into_wire s).2 = Ok s ∧
  (∀ raw scope r, ResolvedVolumeSource_from_wire raw scope = Ok r →
     ResolvedVolumeSource_into_wire r = (raw, scope) ∧
     labels_ok r ∧ scope_ok r ∧ VolumeSource_is_resolved r = true).
Proof.
  intros Hl Hs Hr. split.
  - destruct s as [source scope]. simpl in *. unfold ResolvedVolumeSource_from_wire.
    assert (VolumeSource_try_from source = Ok {| vs_source := source; vs_scope := None |}) as ->.
    { unfold VolumeSource_try_from. destruct (source_labels source) as [labels|] eqn:Hlab; simpl; [|done].
      destruct (List.find _ (bkeys labels)) as [key|] eqn:Hf; [|done].
      apply find_Some_elem in Hf as [Hk Hres]. by rewrite (Hl labels key Hlab Hk) in Hres. }
    simpl. unfold ResolvedVolumeSource_try_from. rewrite Hr. cbn [negb].
    destruct scope as [scope|]; [|done]. simpl. specialize (Hs scope eq_refl).
    unfold managed_docker_volume_name, docker_volume_name in *. simpl in *.
    destruct source; simplify_eq/=; by rewrite bool_decide_eq_true_2.
  - intros raw scope r (a & (-> & Hla & _)%admitted_ok & H)%result_bind_Ok. simpl in H.
    destruct (option_test _ scope) eqn:Ht; [done|].
    unfold ResolvedVolumeSource_try_from in H.
    destruct (VolumeSource_is_resolved _) eqn:Hres in H; [|done]. injection H as <-.
    split_and!; [done|done| |done]. intros sc Hsc. simpl in Hsc. subst scope. simpl in Ht.
    apply orb_false_iff in Ht as [Hm%negb_false_iff Hn%negb_false_iff%bool_decide_eq_true].
    unfold managed_docker_volume_name, docker_volume_name in *. simpl in *. by destruct raw.
Qed.

Lemma resolved_source_roundtrip_witness :
  ResolvedVolumeSource_from_wire (ResolvedVolumeSource_into_wire sample_scoped).1
    (ResolvedVolumeSource_into_wire sample_scoped).2 = Ok sample_scoped.
Proof.
  apply (resolved_source_roundtrip sample_scoped).
  - intros labels key Hl Hk. vm_compute in Hl. injection Hl as <-.
    apply list_elem_of_singleton in Hk as ->. reflexivity.
  - intros scope Hs. vm_compute in Hs. injection Hs as <-. vm_compute. reflexivity.
  - vm_compute; reflexivity.
Defined.

(** ** Bounds in GB *)

Lemma digit_ascii b : is_ascii_digit b = true → is_ascii b = true.
Proof. unfold is_ascii_digit, byte_between, is_ascii. case_N_tests; simpl; (done || lia). Qed.

Lemma digit_not_ws b : is_ascii_digit b = true → is_ws1 b = false.
Proof. unfold is_ascii_digit, is_ws1, byte_between. case_N_tests; simpl; (done || lia). Qed.

(** Text that begins with a digit and does not end with white space is trimmed. *)
Lemma front_ok_digit s t : s ≠ "" → bytes_all is_ascii_digit s = true → front_ok (s +:+ t) = true.
Proof.
  destruct s as [|c s]; [done|]. cbn [bytes_all]. intros _ [Hc _]%andb_true_iff.
  simpl. by rewrite (digit_not_ws _ Hc).
Qed.

(** [number ++ " GB"] loses its unit, whatever the number. *)
Lemma strip_gb number :
  number ≠ "" → front_ok number = true → front_ok (str_rev number) = true →
  bytes_all is_ascii number = true →
  trim (number +:+ " GB") = number +:+ " GB" ∧
  strip_suffix "GB" (number +:+ " GB") = Some (number +:+ " ") ∧
  trim_end (number +:+ " ") = number.
Proof.
  intros Hne Hf Hb Ha. split_and!.
  - apply trim_id; [by rewrite bytes_all_app, Ha|]. unfold trimmed.
    rewrite str_rev_app. simpl. rewrite andb_true_r.
    destruct number as [|c number]; [done|]. exact Hf.
  - unfold strip_suffix. rewrite str_rev_app.
    change (str_rev " GB") with ("BG" +:+ " "). rewrite str_app_assoc.
    change (str_rev "GB") with "BG". rewrite strip_prefix_app.
    f_equal. rewrite str_rev_app, str_rev_involutive. done.
  - unfold trim_end. rewrite str_rev_app. change (str_rev " ") with " ".
    change (" " +:+ str_rev number) with (String " " (str_rev number)).
    change (trim_front (λ a b, is_ws2 b a) (λ a b c, is_ws3 c b a) (String " " (str_rev number)))
      with (trim_front (λ a b, is_ws2 b a) (λ a b c, is_ws3 c b a) (str_rev number)).
    rewrite trim_front_ascii.
    + by rewrite drop_ws_id, str_rev_involutive.
    + unfold is_ascii, is_ws2. intros a b Ha'%N.ltb_lt Hb'%N.ltb_lt. case_N_tests; (done || lia).
    + unfold is_ascii, is_ws3. intros a b c Ha'%N.ltb_lt Hb'%N.ltb_lt.
      case_N_tests; simpl; rewrite ?andb_false_r; (done || lia).
    + by rewrite bytes_all_rev.
Qed.

Lemma gb_split b : (b / GB * GB + b mod GB = b)%N.
Proof. rewrite N.mul_comm. symmetry. by apply N.div_mod. Qed.

Lemma parse_gb_halves number W F w f b :
  number ≠ "" → front_ok number = true → front_ok (str_rev number) = true →
  bytes_all is_ascii number = true →
  default (number, "") (split_once "." number) = (W, F) →
  W ≠ "" → bytes_all is_ascii_digit W = true → bytes_all is_ascii_digit F = true →
  (String.length F ≤ 9)%nat → parse_u64 W = Some w → parse_u64 (pad_zeros 9 F) = Some f →
  (w * GB + f = b)%N → (0 < b)%N → is_u64 b →
  parse_gb (number +:+ " GB") = Ok b.
Proof.
  intros Hne Hf Hr Ha Hsplit HW HWd HFd HFl Hw Hf' Hb Hpos Hu.
  destruct (strip_gb number Hne Hf Hr Ha) as (H1 & H2 & H3).
  unfold parse_gb. rewrite H1, H2, H3, Hsplit, HWd, HFd, Hw, Hf'.
  destruct (Nat.ltb_spec 9 (String.length F)); [lia|].
  destruct W as [|c W]; [done|]. cbn [str_is_empty andb orb negb result_bind ok_or].
  unfold is_u64 in Hu.
  assert (checked_mul w GB = Some (w * GB)%N) as -> by (apply checked_mul_Some; lia). simpl.
  assert (checked_add (w * GB) f = Some b) as -> by (apply checked_add_Some; lia). simpl.
  unfold MaximumBytes_try_from. destruct (N.eqb_spec b 0); [lia|done].
Qed.

Lemma digits_no_dot s : bytes_all is_ascii_digit s = true → bytes_any (is_byte ".") s = false.
Proof. apply bytes_all_not_any. intros b. unfold is_ascii_digit, byte_between, is_byte. simpl.
  case_N_tests; (done || lia). Qed.

Lemma trim_end_zeros_spec s p :
  bytes_all p s = true →
  bytes_all p (trim_end_zeros s) = true ∧ (String.length (trim_end_zeros s) ≤ String.length s)%nat.
Proof.
  intros Hp. unfold trim_end_zeros. split.
  - rewrite bytes_all_rev. apply drop_zeros_all. by rewrite bytes_all_rev.
  - destruct (drop_zeros_split (str_rev s)) as [k Hk].
    apply (f_equal str_rev) in Hk. rewrite str_rev_involutive, str_rev_app in Hk.
    rewrite Hk at 2. rewrite str_app_length. lia.
Qed.

(** the GB text of every positive bound reads back as that exact number of bytes. *)
Theorem gb_text_roundtrip b :
  (0 < b)%N → is_u64 b → parse_gb (MaximumBytes_to_string b) = Ok b.
Proof.
  intros Hpos Hu. unfold MaximumBytes_to_string.
  pose proof (gb_split b) as Hb. pose proof (N.mod_lt b GB ltac:(done)) as Hm.
  set (w := (b / GB)%N) in *. set (f := (b mod GB)%N) in *.
  assert (is_u64 w) as Hw. { unfold is_u64 in *. assert (1 ≤ GB)%N by done. nia. }
  set (W := u64_to_string w).
  assert (W ≠ "") as HWne by apply u64_to_string_nonempty.
  assert (bytes_all is_ascii_digit W = true) as HWd by apply u64_to_string_digits.
  assert (parse_u64 W = Some w) as HWp by by apply parse_u64_to_string.
  assert (∀ s, bytes_all is_ascii_digit s = true → bytes_all is_ascii s = true) as Has
    by (intros s; apply bytes_all_impl, digit_ascii).
  assert (∀ s t, s ≠ "" → bytes_all is_ascii_digit s = true →
    front_ok (str_rev s +:+ t) = true) as Hrev.
  { intros s t Hne Hd. apply front_ok_digit; [|by rewrite bytes_all_rev].
    intros He. apply (f_equal str_rev) in He. by rewrite str_rev_involutive in He. }
  destruct (N.eqb_spec f 0) as [Hz|Hnz].
  - eapply (parse_gb_halves W W "" w 0%N); auto.
    + rewrite <-(str_app_nil_r W). by apply front_ok_digit.
    + rewrite <-(str_app_nil_r (str_rev W)). by apply Hrev.
    + rewrite (split_once_byte_None "." "" W); [done|by apply digits_no_dot].
    + simpl. lia.
    + lia.
  - set (F := trim_end_zeros (digits_fixed 9 f)).
    destruct (trim_end_zeros_spec _ _ (digits_fixed_digits 9 f)) as [HFd HFl].
    fold F in HFd, HFl. rewrite digits_fixed_length in HFl.
    assert (pad_zeros 9 F = digits_fixed 9 f) as Hpad.
    { rewrite <-(pad_trim_zeros (digits_fixed 9 f)). by rewrite digits_fixed_length. }
    assert (dec_value 0 (digits_fixed 9 f) = f) as Hval.
    { rewrite digits_fixed_value. by apply N.mod_small. }
    assert (F ≠ "") as HFne.
    { intros He. rewrite He in Hpad. rewrite <-Hpad in Hval. by apply Hnz. }
    change (W +:+ "." +:+ F +:+ " GB") with (W +:+ ("." +:+ F) +:+ " GB").
    rewrite <-str_app_assoc.
    eapply (parse_gb_halves _ W F w f); auto.
    + by destruct W.
    + by apply front_ok_digit.
    + rewrite str_rev_app, str_rev_app, str_app_assoc. by apply Hrev.
    + rewrite !bytes_all_app, (Has W HWd), (Has F HFd). done.
    + change (W +:+ "." +:+ F) with (W +:+ String "." "" +:+ F).
      rewrite split_once_byte; [done|by apply digits_no_dot].
    + rewrite Hpad. unfold parse_u64.
      assert (∃ c s, digits_fixed 9 f = String c s) as (c & s & Hcs).
      { pose proof (digits_fixed_length 9 f) as Hlen.
        destruct (digits_fixed 9 f) as [|c s]; [done|eauto]. }
      rewrite Hcs at 1. cbn [str_is_empty].
      rewrite parse_u64_digits_value; [by rewrite Hval|apply digits_fixed_digits|].
      rewrite Hval. etrans; [apply N.lt_le_incl, Hm|done].
Qed.

Lemma gb_text_roundtrip_witness :
  MaximumBytes_to_string 1500000000 = "1.5 GB" ∧
  parse_gb (MaximumBytes_to_string 1500000000) = Ok 1500000000%N.
Proof.
  split; [vm_compute; reflexivity|]. apply (gb_text_roundtrip 1500000000); [lia|done].
Defined.
