(* ===== verification/ServiceGraph.v ===== *)
(** * Admitted mount graphs of a Service

    [ployz-core/src/domain/service_graph.rs] with the Config data of
    [domain/spec.rs]: Volume and Config definitions with the mounts that refer
    to them, Namespace scoping of a whole graph, and the admission of mount
    destinations.  The [expect]s of the source are [Panics] here. *)

From S2P Require Import Prelude BTree Strings Values Volumes.
From Stdlib Require Import Ascii.

Open Scope string_scope.
Open Scope list_scope.

(** ** Volume graphs *)

Record ServiceVolumeGraph : Type := {
  graph_volumes : list ServiceVolume;
  graph_mounts : list ServiceMount
}.

Inductive ServiceVolumeGraphError : Type :=
| DuplicateVolumeReference (reference : ServiceVolumeReference)
| UnknownVolumeReference (reference : ServiceVolumeReference)
| IncompatibleVolumeAliases (name : DockerVolumeName)
| UnscopedVolume (reference : ServiceVolumeReference).

#[global] Instance ServiceVolumeGraph_eq_dec : EqDecision ServiceVolumeGraph.
Proof. solve_decision. Defined.

(** One turn of the loop over definitions: [references] and [docker_volumes]. *)
Definition admit_volume (state : bset ServiceVolumeReference * bmap DockerVolumeName VolumeSource)
    (volume : ServiceVolume)
    : Result (bset ServiceVolumeReference * bmap DockerVolumeName VolumeSource)
             ServiceVolumeGraphError :=
  let '(references, docker_volumes) := state in
  if bool_decide (volume.(sv_reference) ∈ references)
  then Err (DuplicateVolumeReference volume.(sv_reference))
  else
    let references := bset_insert volume.(sv_reference) references in
    match docker_volume_name volume.(sv_source) with
    | None => Ok (references, docker_volumes)
    | Some name =>
        if option_test (λ existing, negb (bool_decide (existing = volume.(sv_source))))
             (bget docker_volumes name)
        then Err (IncompatibleVolumeAliases name)
        else Ok (references, binsert name volume.(sv_source) docker_volumes)
    end.

Definition check_mount (references : bset ServiceVolumeReference) (_ : unit) (mount : ServiceMount)
    : Result unit ServiceVolumeGraphError :=
  if negb (bool_decide (mount.(mount_volume) ∈ references))
  then Err (UnknownVolumeReference mount.(mount_volume)) else Ok tt.

Definition ServiceVolumeGraph_parse (volumes : list ServiceVolume) (mounts : list ServiceMount)
    : Result ServiceVolumeGraph ServiceVolumeGraphError :=
  let? '(references, _) := try_fold admit_volume volumes ([], []) in
  let? _ := try_fold (check_mount references) mounts tt in
  Ok {| graph_volumes := volumes; graph_mounts := mounts |}.

Definition scope_volume (namespace : Namespace) (volume : ServiceVolume) : ServiceVolume :=
  {| sv_reference := volume.(sv_reference);
     sv_source := VolumeSource_scope_to_namespace volume.(sv_source) namespace |}.

Definition ServiceVolumeGraph_scope_to_namespace (self : ServiceVolumeGraph)
    (namespace : Namespace) : Result ServiceVolumeGraph ServiceVolumeGraphError :=
  ServiceVolumeGraph_parse (map (scope_volume namespace) self.(graph_volumes))
    self.(graph_mounts).

(** [None] is the panic on a dangling mount. *)
Definition volume_for (self : ServiceVolumeGraph) (mount : ServiceMount) : option ServiceVolume :=
  List.find (λ volume, String.eqb volume.(sv_reference) mount.(mount_volume))
    self.(graph_volumes).

Definition mounted_volumes (self : ServiceVolumeGraph) : option (list ServiceVolume) :=
  mapM (volume_for self) self.(graph_mounts).

Definition is_provisioned (source : RawVolumeSource) : bool :=
  match source with Provisioned _ _ _ => true | _ => false end.

Definition mounted_provisioned_volumes (self : ServiceVolumeGraph) : option (list ServiceVolume) :=
  volumes ← mounted_volumes self;
  Some (List.filter (λ volume, is_provisioned volume.(sv_source).(vs_source)) volumes).

(** ** Config graphs *)

Record ConfigSpec : Type := { config_name : string; config_content : list N }.

Record ConfigMount : Type := {
  cm_config_name : string;
  cm_target : option ContainerPath;
  cm_uid : option N;
  cm_gid : option N;
  cm_mode : option N
}.

#[global] Instance ConfigSpec_eq_dec : EqDecision ConfigSpec.
Proof. solve_decision. Defined.
#[global] Instance ConfigMount_eq_dec : EqDecision ConfigMount.
Proof. solve_decision. Defined.

Record ServiceConfigGraph : Type := {
  graph_configs : list ConfigSpec;
  graph_config_mounts : list ConfigMount
}.

#[global] Instance ServiceConfigGraph_eq_dec : EqDecision ServiceConfigGraph.
Proof. solve_decision. Defined.

Inductive ServiceConfigGraphError : Type :=
| DuplicateConfigName (name : string)
| UnknownConfigName (name : string).

Definition admit_config (names : bset string) (config : ConfigSpec)
    : Result (bset string) ServiceConfigGraphError :=
  if bool_decide (config.(config_name) ∈ names) then Err (DuplicateConfigName config.(config_name))
  else Ok (bset_insert config.(config_name) names).

Definition check_config_mount (names : bset string) (_ : unit) (mount : ConfigMount)
    : Result unit ServiceConfigGraphError :=
  if negb (bool_decide (mount.(cm_config_name) ∈ names))
  then Err (UnknownConfigName mount.(cm_config_name)) else Ok tt.

Definition ServiceConfigGraph_parse (configs : list ConfigSpec) (mounts : list ConfigMount)
    : Result ServiceConfigGraph ServiceConfigGraphError :=
  let? names := try_fold admit_config configs [] in
  let? _ := try_fold (check_config_mount names) mounts tt in
  Ok {| graph_configs := configs; graph_config_mounts := mounts |}.

Definition config_for (self : ServiceConfigGraph) (mount : ConfigMount) : option ConfigSpec :=
  List.find (λ config, String.eqb config.(config_name) mount.(cm_config_name))
    self.(graph_configs).

(** ** Resolved volume graphs *)

Abbreviation ResolvedServiceVolumeGraph := ServiceVolumeGraph (only parsing).

Definition ResolvedServiceVolumeGraph_try_from (graph : ServiceVolumeGraph)
    : Result ResolvedServiceVolumeGraph ServiceVolumeGraphError :=
  match List.find (λ volume, negb (VolumeSource_is_resolved volume.(sv_source)))
          graph.(graph_volumes) with
  | Some volume => Err (UnscopedVolume volume.(sv_reference))
  | None => Ok graph
  end.

(** ** Mount destinations *)

Inductive ServiceSpecGraphError : Type :=
| RootMountTarget
| DuplicateMountTarget (target : ContainerPath)
| VolumeGraphError (error : ServiceVolumeGraphError)
| ConfigGraphError (error : ServiceConfigGraphError).

Record ServiceMountGraph : Type := {
  mg_volumes : ServiceVolumeGraph;
  mg_configs : ServiceConfigGraph
}.

(** [Vec::pop] on the parts kept so far, newest first. *)
Definition path_part (parts : list string) (part : string) : list string :=
  if String.eqb part "" || String.eqb part "." then parts
  else if String.eqb part ".." then tail parts
  else part :: parts.

(** [parts.join("/")]. *)
Fixpoint join_slash (parts : list string) : string :=
  match parts with
  | [] => ""
  | [part] => part
  | part :: parts => part +:+ String "/" (join_slash parts)
  end.

Definition canonical_parts (raw : string) : list string :=
  rev (fold_left path_part (split_byte "/" raw) []).

Definition admit_target (raw : string) (destinations : bset ContainerPath)
    : Result (ContainerPath * bset ContainerPath) (Fault ServiceSpecGraphError) :=
  match canonical_parts raw with
  | [] => Err (Fails RootMountTarget)
  | parts =>
      match ContainerPath_parse (String "/" (join_slash parts)) with
      | Err _ => Err Panics
      | Ok target =>
          if bool_decide (target ∈ destinations) then Err (Fails (DuplicateMountTarget target))
          else Ok (target, bset_insert target destinations)
      end
  end.

Definition with_target (mount : ServiceMount) (target : ContainerPath) : ServiceMount :=
  {| mount_volume := mount.(mount_volume); mount_target := target;
     mount_read_only := mount.(mount_read_only); mount_no_copy := mount.(mount_no_copy);
     mount_subpath := mount.(mount_subpath) |}.

Definition with_config_target (mount : ConfigMount) (target : ContainerPath) : ConfigMount :=
  {| cm_config_name := mount.(cm_config_name); cm_target := Some target;
     cm_uid := mount.(cm_uid); cm_gid := mount.(cm_gid); cm_mode := mount.(cm_mode) |}.

Definition effective_target (mount : ConfigMount) : string :=
  default (String "/" mount.(cm_config_name)) mount.(cm_target).

(** A loop that rewrites each mount while it threads [destinations]. *)
Fixpoint admit_all {M} (raw : M → string) (put : M → ContainerPath → M) (mounts : list M)
    (destinations : bset ContainerPath)
    : Result (list M * bset ContainerPath) (Fault ServiceSpecGraphError) :=
  match mounts with
  | [] => Ok ([], destinations)
  | mount :: mounts =>
      let? '(target, destinations) := admit_target (raw mount) destinations in
      let? '(mounts, destinations) := admit_all raw put mounts destinations in
      Ok (put mount target :: mounts, destinations)
  end.

Definition ServiceMountGraph_parse (volumes : ServiceVolumeGraph) (configs : ServiceConfigGraph)
    : Result ServiceMountGraph (Fault ServiceSpecGraphError) :=
  let? '(mounts, destinations) :=
    admit_all mount_target with_target volumes.(graph_mounts) [] in
  let? '(config_mounts, _) :=
    admit_all effective_target with_config_target configs.(graph_config_mounts) destinations in
  Ok {| mg_volumes := {| graph_volumes := volumes.(graph_volumes); graph_mounts := mounts |};
        mg_configs := {| graph_configs := configs.(graph_configs);
                         graph_config_mounts := config_mounts |} |}.

Definition ServiceMountGraph_scope_to_namespace (self : ServiceMountGraph) (namespace : Namespace)
    : Result ServiceMountGraph ServiceVolumeGraphError :=
  let? volumes := ServiceVolumeGraph_scope_to_namespace self.(mg_volumes) namespace in
  Ok {| mg_volumes := volumes; mg_configs := self.(mg_configs) |}.

Abbreviation ResolvedServiceMountGraph := ServiceMountGraph (only parsing).

Definition ResolvedServiceMountGraph_try_from (graph : ServiceMountGraph)
    : Result ResolvedServiceMountGraph ServiceVolumeGraphError :=
  let? volumes := ResolvedServiceVolumeGraph_try_from graph.(mg_volumes) in
  Ok {| mg_volumes := volumes; mg_configs := graph.(mg_configs) |}.

(** ** What an admitted volume graph is *)

Record volumes_ok (volumes : list ServiceVolume) : Prop := {
  vo_references : NoDup (map sv_reference volumes);
  vo_aliases : ∀ v w name, v ∈ volumes → w ∈ volumes →
    docker_volume_name v.(sv_source) = Some name → docker_volume_name w.(sv_source) = Some name →
    v.(sv_source) = w.(sv_source)
}.

Record volume_graph_ok (volumes : list ServiceVolume) (mounts : list ServiceMount) : Prop := {
  vg_volumes : volumes_ok volumes;
  vg_mounts : ∀ m, m ∈ mounts → m.(mount_volume) ∈ map sv_reference volumes
}.

(** Loop invariant: what the two collections hold after the definitions in [done]. *)
Definition admit_inv (done : list ServiceVolume)
    (state : bset ServiceVolumeReference * bmap DockerVolumeName VolumeSource) : Prop :=
  (∀ r, r ∈ state.1 ↔ r ∈ map sv_reference done) ∧
  (∀ name source, bget state.2 name = Some source →
     ∃ v, v ∈ done ∧ docker_volume_name v.(sv_source) = Some name ∧ v.(sv_source) = source) ∧
  (∀ v name, v ∈ done → docker_volume_name v.(sv_source) = Some name →
     bget state.2 name = Some v.(sv_source)).

Lemma volumes_ok_snoc done v :
  volumes_ok (done ++ [v]) ↔
  volumes_ok done ∧ (v.(sv_reference) ∉ map sv_reference done) ∧
  (∀ w name, w ∈ done → docker_volume_name w.(sv_source) = Some name →
     docker_volume_name v.(sv_source) = Some name → w.(sv_source) = v.(sv_source)).
Proof.
  split.
  - intros [Hn Ha]. rewrite map_app in Hn. apply NoDup_app in Hn as (Hn & Hd & _).
    split_and!.
    + split; [done|]. intros x y name Hx Hy. apply Ha; set_solver.
    + intros Hin. by eapply (Hd _ Hin), list_elem_of_singleton.
    + intros w name Hw. apply Ha; set_solver.
  - intros ([Hn Ha] & Hv & Hal). split.
    + rewrite map_app. apply NoDup_app. split_and!; [done| |apply NoDup_singleton]. set_solver.
    + intros x y name [Hx|Hx%list_elem_of_singleton]%elem_of_app
        [Hy|Hy%list_elem_of_singleton]%elem_of_app Hxn Hyn; subst;
        [by eapply Ha|by eapply Hal|symmetry; by eapply Hal|done].
Qed.

(** Recording one definition keeps the invariant. *)
Lemma admit_inv_snoc done refs vols v :
  admit_inv done (refs, vols) →
  (∀ w name, w ∈ done → docker_volume_name w.(sv_source) = Some name →
     docker_volume_name v.(sv_source) = Some name → w.(sv_source) = v.(sv_source)) →
  admit_inv (done ++ [v])
    (bset_insert v.(sv_reference) refs,
     match docker_volume_name v.(sv_source) with
     | None => vols
     | Some name => binsert name v.(sv_source) vols
     end).
Proof.
  intros (Hr & Hs & Hc) Hal. split_and!; simpl in *.
  - intros r. rewrite elem_of_bset_insert, Hr, map_app. set_solver.
  - intros n src. destruct (docker_volume_name (sv_source v)) as [name|] eqn:Hname.
    + rewrite bget_binsert. case_decide; [intros [= <-]; subst; exists v; set_solver|].
      intros (w & ? & ? & ?)%Hs. exists w. set_solver.
    + intros (w & ? & ? & ?)%Hs. exists w. set_solver.
  - intros w n [Hw|Hw%list_elem_of_singleton]%elem_of_app Hwn.
    + pose proof (Hc w n Hw Hwn) as Hg.
      destruct (docker_volume_name (sv_source v)) as [name|] eqn:Hname; [|done].
      rewrite bget_binsert. case_decide; [subst|done]. f_equal. symmetry. by eapply Hal.
    + subst w. rewrite Hwn. apply bget_binsert_eq.
Qed.

Lemma admit_volume_spec done state v :
  admit_inv done state → volumes_ok done →
  match admit_volume state v with
  | Ok state' => admit_inv (done ++ [v]) state' ∧ volumes_ok (done ++ [v])
  | Err (DuplicateVolumeReference _) => ¬ NoDup (map sv_reference (done ++ [v]))
  | Err (IncompatibleVolumeAliases _) => ¬ volumes_ok (done ++ [v])
  | Err _ => False
  end.
Proof.
  destruct state as [refs vols]. intros Hinv Hok. pose proof Hinv as (Hr & Hs & Hc).
  pose proof (volumes_ok_snoc done v) as Hiff. simpl in *.
  case_bool_decide as Hin; rewrite Hr in Hin.
  { rewrite map_app. intros (_ & Hd & _)%NoDup_app. by eapply (Hd _ Hin), list_elem_of_singleton. }
  pose proof (admit_inv_snoc done refs vols v Hinv) as Hsnoc.
  destruct (docker_volume_name (sv_source v)) as [name|] eqn:Hname; [|naive_solver].
  destruct (bget vols name) as [existing|] eqn:Hg; simpl; [case_bool_decide as Heq; simpl|];
    rewrite Hiff.
  - subst existing. assert (Hal : ∀ w n, w ∈ done → docker_volume_name (sv_source w) = Some n →
      Some name = Some n → sv_source w = sv_source v)
      by (intros w n Hw Hwn [= <-]; pose proof (Hc w name Hw Hwn); congruence).
    eauto.
  - intros (_ & _ & Hal). apply Heq. destruct (Hs name existing Hg) as (w & Hw & Hwn & <-). eauto.
  - assert (Hal : ∀ w n, w ∈ done → docker_volume_name (sv_source w) = Some n →
      Some name = Some n → sv_source w = sv_source v)
      by (intros w n Hw Hwn [= <-]; pose proof (Hc w name Hw Hwn); congruence).
    eauto.
Qed.

Lemma admit_volumes_spec volumes done state :
  admit_inv done state → volumes_ok done →
  match try_fold admit_volume volumes state with
  | Ok state' => admit_inv (done ++ volumes) state' ∧ volumes_ok (done ++ volumes)
  | Err (DuplicateVolumeReference _) => ¬ NoDup (map sv_reference (done ++ volumes))
  | Err (IncompatibleVolumeAliases _) => ¬ volumes_ok (done ++ volumes)
  | Err _ => False
  end.
Proof.
  revert done state. induction volumes as [|v volumes IH]; intros done state Hinv Hok; simpl.
  - by rewrite app_nil_r.
  - pose proof (admit_volume_spec done state v Hinv Hok) as Hstep.
    replace (done ++ v :: volumes) with ((done ++ [v]) ++ volumes) by (by rewrite <-app_assoc).
    destruct (admit_volume state v) as [state'|e] eqn:He; simpl.
    + destruct Hstep as [Hinv' Hok']. by apply IH.
    + assert (NoDup (map sv_reference ((done ++ [v]) ++ volumes)) →
        NoDup (map sv_reference (done ++ [v]))) as Hnd
        by (rewrite (map_app _ (done ++ [v])); by intros [? _]%NoDup_app).
      destruct e; auto. intros [Hn Hal]. apply Hstep. split; [auto|].
      intros x y n Hx Hy. apply Hal; set_solver.
Qed.

Lemma check_mounts_spec references mounts :
  match try_fold (check_mount references) mounts tt with
  | Ok _ => ∀ m, m ∈ mounts → m.(mount_volume) ∈ references
  | Err (UnknownVolumeReference _) => ∃ m, m ∈ mounts ∧ m.(mount_volume) ∉ references
  | Err _ => False
  end.
Proof.
  induction mounts as [|m mounts IH]; simpl; [set_solver|]. unfold check_mount at 1.
  case_bool_decide as Hin; simpl; [|exists m; set_solver].
  destruct (try_fold _ mounts tt) as [|[]]; set_solver.
Qed.

Lemma volume_graph_parse_spec volumes mounts :
  match ServiceVolumeGraph_parse volumes mounts with
  | Ok graph => graph = {| graph_volumes := volumes; graph_mounts := mounts |} ∧
                volume_graph_ok volumes mounts
  | Err (UnscopedVolume _) => False
  | Err (UnknownVolumeReference _) =>
      ∃ m, m ∈ mounts ∧ m.(mount_volume) ∉ map sv_reference volumes
  | Err (DuplicateVolumeReference _) => ¬ NoDup (map sv_reference volumes)
  | Err (IncompatibleVolumeAliases _) => ¬ volumes_ok volumes
  end.
Proof.
  unfold ServiceVolumeGraph_parse.
  pose proof (admit_volumes_spec volumes [] ([], [])) as Hspec. simpl in Hspec.
  assert (admit_inv [] ([], [])) as H0 by (split_and!; set_solver).
  assert (volumes_ok []) as H1 by (split; [constructor|set_solver]).
  specialize (Hspec H0 H1).
  destruct (try_fold admit_volume volumes ([], [])) as [[refs vols]|e]; simpl;
    [|by destruct e].
  destruct Hspec as [(Hr & _) Hok]. simpl in Hr.
  pose proof (check_mounts_spec refs mounts) as Hm.
  destruct (try_fold (check_mount refs) mounts tt) as [|e]; simpl.
  - split; [done|]. split; [done|]. intros m Hin. apply Hr. auto.
  - destruct e; try done. destruct Hm as (m & ? & Hn). exists m. by rewrite Hr in Hn.
Qed.

Lemma mapM_volume_for graph mounts :
  (∀ m, m ∈ mounts → m.(mount_volume) ∈ map sv_reference graph.(graph_volumes)) →
  ∃ mounted, mapM (volume_for graph) mounts = Some mounted ∧
    Forall2 (λ m v, v ∈ graph.(graph_volumes) ∧ v.(sv_reference) = m.(mount_volume))
      mounts mounted.
Proof.
  induction mounts as [|m mounts IH]; intros Hm; simpl; [exists []; auto|].
  destruct IH as (mounted & Heq & Hf); [set_solver|].
  destruct (volume_for graph m) as [v|] eqn:Hv.
  - exists (v :: mounted). simpl. rewrite Heq. split; [done|]. constructor; [|done].
    by apply find_Some_elem in Hv as [? ?%String.eqb_eq].
  - exfalso. unfold volume_for in Hv. rewrite find_None_elem in Hv.
    specialize (Hm m ltac:(left)). apply list_elem_of_fmap in Hm as (v & Hr & Hin).
    apply Hv in Hin. rewrite Hr in Hin. by rewrite String.eqb_refl in Hin.
Qed.

(** a volume graph is admitted exactly when references are unique, every mount is
    declared and aliases of one Docker Volume agree; and then looking up the definition of
    any of its mounts succeeds, so the dangling-mount panic is unreachable. *)
Theorem volume_graph_admission volumes mounts :
  (is_ok (ServiceVolumeGraph_parse volumes mounts) = true ↔ volume_graph_ok volumes mounts) ∧
  (∀ graph, ServiceVolumeGraph_parse volumes mounts = Ok graph →
     graph.(graph_volumes) = volumes ∧ graph.(graph_mounts) = mounts ∧
     ∃ mounted, mounted_volumes graph = Some mounted ∧
       Forall2 (λ m v, v ∈ volumes ∧ v.(sv_reference) = m.(mount_volume)) mounts mounted).
Proof.
  pose proof (volume_graph_parse_spec volumes mounts) as Hspec.
  destruct (ServiceVolumeGraph_parse volumes mounts) as [g|e]; simpl; split.
  - naive_solver.
  - destruct Hspec as [-> [_ Hm]]. intros graph [= <-]. split_and!; [done|done|].
    by apply mapM_volume_for.
  - split; [done|]. intros [Hv Hm]. exfalso. destruct e; try done.
    + by apply Hspec, Hv.
    + destruct Hspec as (m & Hin & Hn). by apply Hn, Hm.
  - done.
Qed.

Definition sample_mount (reference target : string) : ServiceMount :=
  {| mount_volume := reference; mount_target := target; mount_read_only := false;
     mount_no_copy := false; mount_subpath := None |}.
Definition sample_volumes : list ServiceVolume :=
  [ {| sv_reference := "db"; sv_source := {| vs_source := sample_source; vs_scope := None |} |};
    {| sv_reference := "alias"; sv_source := {| vs_source := sample_source; vs_scope := None |} |} ].
Definition sample_mounts : list ServiceMount :=
  [sample_mount "db" "/var/lib//db/"; sample_mount "alias" "/srv/./a/../db"].

Lemma sample_graph_parses :
  ServiceVolumeGraph_parse sample_volumes sample_mounts
    = Ok {| graph_volumes := sample_volumes; graph_mounts := sample_mounts |}.
Proof. vm_compute; reflexivity. Qed.

Lemma sample_graph_ok : volume_graph_ok sample_volumes sample_mounts.
Proof.
  pose proof (volume_graph_parse_spec sample_volumes sample_mounts) as H.
  rewrite sample_graph_parses in H. apply H.
Qed.

Lemma volume_graph_admission_witness : volume_graph_ok sample_volumes sample_mounts.
Proof.
  apply (volume_graph_admission sample_volumes sample_mounts). by rewrite sample_graph_parses.
Defined.

(** ** Scoping a graph *)

Lemma scope_volume_twice ns ns' v : scope_volume ns' (scope_volume ns v) = scope_volume ns v.
Proof.
  destruct v as [r [source scope]]. unfold scope_volume, VolumeSource_scope_to_namespace. simpl.
  destruct scope; [done|]. unfold managed_docker_volume_name. simpl. by destruct source.
Qed.

Lemma map_scope_references ns volumes :
  map sv_reference (map (scope_volume ns) volumes) = map sv_reference volumes.
Proof. by rewrite map_map. Qed.

(** scoping an admitted graph to a Namespace can fail only because two declarations now
    name one physical Volume with different sources; otherwise every source is resolved, the
    references and mounts are unchanged, and scoping again is the identity. *)
Theorem graph_scope_to_namespace graph ns ns' :
  volume_graph_ok graph.(graph_volumes) graph.(graph_mounts) →
  match ServiceVolumeGraph_scope_to_namespace graph ns with
  | Ok scoped =>
      volume_graph_ok scoped.(graph_volumes) scoped.(graph_mounts) ∧
      ResolvedServiceVolumeGraph_try_from scoped = Ok scoped ∧
      scoped.(graph_mounts) = graph.(graph_mounts) ∧
      map sv_reference scoped.(graph_volumes) = map sv_reference graph.(graph_volumes) ∧
      ServiceVolumeGraph_scope_to_namespace scoped ns' = Ok scoped
  | Err e => ∃ name, e = IncompatibleVolumeAliases name
  end.
Proof.
  intros [[Hn Ha] Hm]. unfold ServiceVolumeGraph_scope_to_namespace at 1.
  set (volumes := map (scope_volume ns) (graph_volumes graph)).
  pose proof (volume_graph_parse_spec volumes (graph_mounts graph)) as Hspec.
  destruct (ServiceVolumeGraph_parse volumes (graph_mounts graph)) as [scoped|e] eqn:Hp.
  - destruct Hspec as [-> Hok]. simpl. split_and!; [done| |done|apply map_scope_references|].
    + unfold ResolvedServiceVolumeGraph_try_from. simpl.
      destruct (List.find _ volumes) as [v|] eqn:Hf; [|done].
      apply find_Some_elem in Hf as [Hv Hres].
      apply list_elem_of_fmap in Hv as (w & -> & _). simpl in Hres.
      by rewrite scope_resolved in Hres.
    + unfold ServiceVolumeGraph_scope_to_namespace. simpl.
      assert (map (scope_volume ns') volumes = volumes) as ->; [|done].
      unfold volumes. rewrite map_map. apply map_ext. apply scope_volume_twice.
  - destruct e; [|destruct Hspec as (m & Hin & Hno)|eauto|done]; exfalso.
    + apply Hspec. unfold volumes. by rewrite map_scope_references.
    + apply Hno. unfold volumes. rewrite map_scope_references. auto.
Qed.

Lemma graph_scope_to_namespace_witness :
  ∃ scoped,
    ServiceVolumeGraph_scope_to_namespace
      {| graph_volumes := sample_volumes; graph_mounts := sample_mounts |} "shop" = Ok scoped ∧
    ResolvedServiceVolumeGraph_try_from scoped = Ok scoped.
Proof.
  pose proof (graph_scope_to_namespace
    {| graph_volumes := sample_volumes; graph_mounts := sample_mounts |} "shop" "blog"
    sample_graph_ok) as H.
  destruct (ServiceVolumeGraph_scope_to_namespace _ "shop") as [scoped|e] eqn:He.
  - exists scoped. split; [reflexivity|apply H].
  - exfalso. vm_compute in He. discriminate He.
Defined.

(** ** Mount destinations *)

Definition no_slash (s : string) : Prop := bytes_any (is_byte "/") s = false.
Definition no_nul (s : string) : Prop := bytes_any (N.eqb 0) s = false.

Record part_ok (part : string) : Prop := {
  part_nonempty : part ≠ "";
  part_not_dot : part ≠ ".";
  part_not_dotdot : part ≠ "..";
  part_no_slash : no_slash part
}.

Lemma split_byte_forall (q : N → bool) s :
  bytes_any q s = false →
  Forall (λ part, no_slash part ∧ bytes_any q part = false) (split_byte "/" s).
Proof.
  induction s as [|c s IH]; simpl; [by repeat constructor|].
  intros [Hc Hs]%orb_false_iff. specialize (IH Hs).
  destruct (Ascii.eqb_spec c "/") as [->|Hne]; [by constructor|].
  assert (is_byte "/" (byte_of c) = false) as Hb.
  { rewrite is_byte_spec. by apply Ascii.eqb_neq. }
  destruct (split_byte "/" s) as [|part parts]; [constructor; [|constructor]|].
  - unfold no_slash. cbn [bytes_any]. by rewrite Hb, Hc.
  - inversion IH as [|? ? [H1 H2] H3]; subst. constructor; [|done].
    unfold no_slash in *. cbn [bytes_any]. by rewrite Hb, Hc.
Qed.

Lemma canonical_parts_forall (P : string → Prop) raw :
  Forall P (split_byte "/" raw) →
  Forall (λ part, P part ∧ part ≠ "" ∧ part ≠ "." ∧ part ≠ "..") (canonical_parts raw).
Proof.
  unfold canonical_parts. intros HP. apply List.Forall_rev.
  assert (∀ acc, Forall (λ part, P part ∧ part ≠ "" ∧ part ≠ "." ∧ part ≠ "..") acc →
    Forall (λ part, P part ∧ part ≠ "" ∧ part ≠ "." ∧ part ≠ "..")
      (fold_left path_part (split_byte "/" raw) acc)) as Hfold; [|apply Hfold; constructor].
  induction HP as [|part parts Hp HP IH]; intros acc Hacc; simpl; [done|]. apply IH.
  unfold path_part. destruct (String.eqb_spec part ""), (String.eqb_spec part "."); simpl; try done.
  destruct (String.eqb_spec part ".."); [|by constructor].
  destruct acc; [done|]. by inversion Hacc.
Qed.

Lemma canonical_parts_ok raw : Forall part_ok (canonical_parts raw).
Proof.
  eapply Forall_impl; [apply (canonical_parts_forall no_slash)|].
  - eapply Forall_impl; [apply (split_byte_forall (λ _, false))|naive_solver].
    by induction raw.
  - intros part (? & ? & ? & ?). by split.
Qed.

Lemma canonical_parts_no_nul raw : no_nul raw → Forall no_nul (canonical_parts raw).
Proof.
  intros Hraw. eapply Forall_impl; [apply (canonical_parts_forall no_nul)|naive_solver].
  eapply Forall_impl; [by apply split_byte_forall|naive_solver].
Qed.

Lemma split_join parts : parts ≠ [] → Forall part_ok parts → split_byte "/" (join_slash parts) = parts.
Proof.
  intros Hne Hok. induction Hok as [|part parts [_ _ _ Hs] Hok IH]; [done|].
  destruct parts as [|part' parts]; [by apply split_byte_none|].
  change (join_slash (part :: part' :: parts))
    with (part +:+ String "/" (join_slash (part' :: parts))).
  rewrite split_byte_app by done. by rewrite IH.
Qed.

Lemma canonical_parts_path parts :
  parts ≠ [] → Forall part_ok parts → canonical_parts (String "/" (join_slash parts)) = parts.
Proof.
  intros Hne Hok. unfold canonical_parts.
  change (split_byte "/" (String "/" (join_slash parts)))
    with ("" :: split_byte "/" (join_slash parts)).
  rewrite split_join by done. simpl.
  assert (∀ acc, fold_left path_part parts acc = rev parts ++ acc) as ->.
  { clear Hne. induction Hok as [|part parts [H1 H2 H3 _] Hok IH]; intros acc; simpl; [done|].
    rewrite IH. unfold path_part.
    destruct (String.eqb_spec part ""), (String.eqb_spec part "."), (String.eqb_spec part "..");
      try done. by rewrite <-app_assoc. }
  by rewrite app_nil_r, rev_involutive.
Qed.

(** A canonical Linux destination: absolute, below the root, no empty, [.] or [..] part. *)
Definition canonical_target (target : ContainerPath) : Prop :=
  ∃ parts, parts ≠ [] ∧ Forall part_ok parts ∧ target = String "/" (join_slash parts) ∧
    is_unix_path target = true.

Lemma admit_target_Ok raw dests target dests' :
  admit_target raw dests = Ok (target, dests') →
  canonical_target target ∧ (target ∉ dests) ∧ dests' = bset_insert target dests.
Proof.
  unfold admit_target. pose proof (canonical_parts_ok raw) as Hok.
  destruct (canonical_parts raw) as [|part parts] eqn:Hp; [done|].
  destruct (ContainerPath_parse _) as [t|] eqn:Hc; [|done].
  apply validated_parse_Ok in Hc as [-> Hu].
  case_bool_decide; [done|]. intros [= <- <-]. split_and!; [|done|done].
  by exists (part :: parts).
Qed.

Lemma admit_target_canonical target dests :
  canonical_target target → target ∉ dests →
  admit_target target dests = Ok (target, bset_insert target dests).
Proof.
  intros (parts & Hne & Hok & Heq & Hu) Hn. unfold admit_target.
  assert (canonical_parts target = parts) as -> by (subst target; by apply canonical_parts_path).
  destruct parts as [|part parts]; [done|]. rewrite <-Heq.
  unfold ContainerPath_parse, validated_parse. rewrite Hu. by rewrite bool_decide_eq_false_2.
Qed.

(** What the admission loop gives, for either kind of mount. *)
Section AdmitAll.
Context {M : Type} (raw : M → string) (put : M → ContainerPath → M).

(** Admitting canonical, distinct, unused destinations again changes nothing. *)
Lemma admit_all_again mounts dests :
  Forall canonical_target (map raw mounts) → NoDup (map raw mounts) →
  Forall (λ t, t ∉ dests) (map raw mounts) →
  (∀ m, m ∈ mounts → put m (raw m) = m) →
  ∃ dests', admit_all raw put mounts dests = Ok (mounts, dests') ∧
    ∀ t, t ∈ dests' ↔ t ∈ dests ∨ t ∈ map raw mounts.
Proof.
  revert dests. induction mounts as [|m mounts IH]; intros dests Hc Hn Hf Hp; simpl in *.
  - exists dests. set_solver.
  - apply Forall_cons in Hc as [Hc1 Hc2], Hf as [Hf1 Hf2]. apply NoDup_cons in Hn as [Hm Hn].
    rewrite admit_target_canonical by done. simpl.
    destruct (IH (bset_insert (raw m) dests)) as (d & Hd & Hel); [done|done| |set_solver|].
    + apply Forall_forall. intros t Ht. rewrite elem_of_bset_insert.
      intros [->|Hd]; [done|]. rewrite Forall_forall in Hf2. by apply (Hf2 t).
    + exists d. rewrite Hd. simpl. rewrite Hp by left. split; [done|].
      intros t. rewrite Hel, elem_of_bset_insert. set_solver.
Qed.

Lemma admit_all_no_panic mounts dests :
  (∀ m, m ∈ mounts → no_nul (raw m)) → admit_all raw put mounts dests ≠ Err Panics.
Proof.
  revert dests. induction mounts as [|m mounts IH]; intros dests Hm; simpl; [done|].
  assert (admit_target (raw m) dests ≠ Err Panics) as Ht.
  { unfold admit_target. pose proof (canonical_parts_no_nul (raw m) (Hm m ltac:(left))) as Hn.
    destruct (canonical_parts (raw m)) as [|part parts] eqn:Hp; [done|].
    assert (is_unix_path (String "/" (join_slash (part :: parts))) = true) as Hu.
    { unfold is_unix_path. apply andb_true_iff. split; [done|]. apply negb_true_iff.
      clear -Hn. change (bytes_any (N.eqb 0) (join_slash (part :: parts)) = false).
      induction Hn as [|p ps Hp Hn IH]; [done|]. destruct ps as [|q ps]; [done|].
      change (join_slash (p :: q :: ps)) with (p +:+ String "/" (join_slash (q :: ps))).
      rewrite bytes_any_app. unfold no_nul in Hp. rewrite Hp. exact IH. }
    unfold ContainerPath_parse, validated_parse. rewrite Hu. by case_bool_decide. }
  destruct (admit_target (raw m) dests) as [[t d]|e]; simpl; [|congruence].
  specialize (IH d). destruct (admit_all raw put mounts d) as [[? ?]|e']; simpl; [done|].
  intros [= ->]. apply IH; [|done]. intros x Hx. apply Hm. by right.
Qed.
Context (raw_put : ∀ m t, raw (put m t) = t).

Record admitted_all (mounts : list M) (dests : bset ContainerPath) (out : list M)
    (dests' : bset ContainerPath) : Prop := {
  aa_canonical : Forall canonical_target (map raw out);
  aa_nodup : NoDup (map raw out);
  aa_fresh : Forall (λ t, t ∉ dests) (map raw out);
  aa_dests : ∀ t, t ∈ dests' ↔ t ∈ dests ∨ t ∈ map raw out;
  aa_put : Forall2 (λ m m', m' = put m (raw m')) mounts out
}.

Lemma admit_all_Ok mounts dests out dests' :
  admit_all raw put mounts dests = Ok (out, dests') → admitted_all mounts dests out dests'.
Proof using raw_put.
  revert dests out dests'. induction mounts as [|m mounts IH]; intros dests out dests'; simpl.
  - intros [= <- <-]. split; simpl; try constructor; set_solver.
  - intros ([t d1] & (Hc & Hn & ->)%admit_target_Ok & H)%result_bind_Ok.
    apply result_bind_Ok in H as ([rest d2] & [H1 H2 H3 H4 H5]%IH & [= <- <-]).
    setoid_rewrite elem_of_bset_insert in H3. rewrite Forall_forall in H3.
    split; simpl; rewrite ?raw_put.
    + by constructor.
    + constructor; [|done]. intros Hin. by apply (H3 t Hin); left.
    + constructor; [done|]. apply Forall_forall. intros x Hx Hd. by apply (H3 x Hx); right.
    + intros x. rewrite H4, elem_of_bset_insert. set_solver.
    + constructor; [by rewrite raw_put|done].
Qed.
End AdmitAll.

Definition destinations (g : ServiceMountGraph) : list ContainerPath :=
  map mount_target g.(mg_volumes).(graph_mounts)
  ++ map effective_target g.(mg_configs).(graph_config_mounts).

(** an admitted mount graph keeps every definition and mount, its destinations across
    Volumes and Configs are canonical paths below the root, pairwise distinct, and admitting
    the result again gives the same graph. *)
Theorem mount_graph_canonical volumes configs g :
  ServiceMountGraph_parse volumes configs = Ok g →
  NoDup (destinations g) ∧ Forall canonical_target (destinations g) ∧
  g.(mg_volumes).(graph_volumes) = volumes.(graph_volumes) ∧
  g.(mg_configs).(graph_configs) = configs.(graph_configs) ∧
  Forall2 (λ m m', m' = with_target m m'.(mount_target))
    volumes.(graph_mounts) g.(mg_volumes).(graph_mounts) ∧
  ServiceMountGraph_parse g.(mg_volumes) g.(mg_configs) = Ok g.
Proof.
  unfold ServiceMountGraph_parse at 1.
  intros ([ms d1] & H1 & H)%result_bind_Ok. apply result_bind_Ok in H as ([cs d2] & H2 & [= <-]).
  apply admit_all_Ok in H1 as [A1 A2 _ A4 A5]; [|done].
  apply admit_all_Ok in H2 as [B1 B2 B3 _ B5]; [|done].
  assert (∀ m, m ∈ ms → with_target m (mount_target m) = m) as Hfix1 by (by intros [] _).
  assert (∀ m, m ∈ cs → with_config_target m (effective_target m) = m) as Hfix2.
  { intros m Hm. apply list_elem_of_lookup in Hm as [i Hi].
    destruct (Forall2_lookup_r _ _ _ _ _ B5 Hi) as (m0 & _ & ->). done. }
  unfold destinations. simpl. split_and!.
  - apply NoDup_app. split_and!; [done| |done]. intros t Ht Ht2.
    rewrite Forall_forall in B3. apply (B3 t Ht2), A4. by right.
  - by apply Forall_app.
  - done.
  - done.
  - done.
  - unfold ServiceMountGraph_parse. simpl.
    destruct (admit_all_again mount_target with_target ms [] A1 A2) as (e1 & -> & He1); [|done|].
    { apply Forall_forall. set_solver. }
    simpl. destruct (admit_all_again effective_target with_config_target cs e1 B1 B2)
      as (e2 & -> & _); [|done|done].
    rewrite Forall_forall in *. intros t Ht. rewrite He1. intros [?|Hin]; [set_solver|].
    apply (B3 t Ht), A4. by right.
Qed.

Definition sample_config_graph (name : string) : ServiceConfigGraph :=
  {| graph_configs := [ {| config_name := name; config_content := [104; 105]%N |} ];
     graph_config_mounts := [ {| cm_config_name := name; cm_target := None; cm_uid := None;
                                 cm_gid := None; cm_mode := None |} ] |}.
Definition sample_volume_graph : ServiceVolumeGraph :=
  {| graph_volumes := sample_volumes; graph_mounts := sample_mounts |}.

Lemma mount_graph_canonical_witness :
  ∃ g, ServiceMountGraph_parse sample_volume_graph (sample_config_graph "app.toml") = Ok g ∧
    destinations g = ["/var/lib/db"; "/srv/db"; "/app.toml"] ∧ NoDup (destinations g).
Proof.
  eexists. split; [vm_compute; reflexivity|]. split; [vm_compute; reflexivity|].
  apply (mount_graph_canonical sample_volume_graph (sample_config_graph "app.toml")).
  vm_compute; reflexivity.
Defined.

(** admitting mounts never panics when the declared targets are Unix paths and no Config
    mounted at its default destination has a NUL byte in its name. *)
Theorem mount_graph_no_panic volumes configs :
  (∀ m, m ∈ volumes.(graph_mounts) → is_unix_path m.(mount_target) = true) →
  (∀ m t, m ∈ configs.(graph_config_mounts) → m.(cm_target) = Some t → is_unix_path t = true) →
  (∀ m, m ∈ configs.(graph_config_mounts) → m.(cm_target) = None → no_nul m.(cm_config_name)) →
  ServiceMountGraph_parse volumes configs ≠ Err Panics.
Proof.
  assert (∀ t, is_unix_path t = true → no_nul t) as Hu
    by (by intros t [_ ?%negb_true_iff]%andb_true_iff).
  intros Hv Hc1 Hc2. unfold ServiceMountGraph_parse.
  pose proof (admit_all_no_panic mount_target with_target volumes.(graph_mounts) [] ltac:(auto)) as H1.
  destruct (admit_all _ _ _ []) as [[ms d]|e]; simpl; [|congruence].
  assert (∀ m, m ∈ configs.(graph_config_mounts) → no_nul (effective_target m)) as Hc.
  { intros m Hm. unfold effective_target. destruct (cm_target m) as [t|] eqn:Ht; simpl; eauto.
    exact (Hc2 m Hm Ht). }
  pose proof (admit_all_no_panic effective_target with_config_target _ d Hc) as H2.
  destruct (admit_all effective_target _ _ d) as [[cs d2]|e]; simpl; [done|congruence].
Qed.

Lemma mount_graph_no_panic_witness :
  ServiceMountGraph_parse sample_volume_graph (sample_config_graph "app.toml") ≠ Err Panics.
Proof.
  apply (mount_graph_no_panic sample_volume_graph (sample_config_graph "app.toml")).
  - intros m. unfold sample_volume_graph, sample_mounts. simpl.
    rewrite !elem_of_cons, elem_of_nil. intros [->|[->|[]]]; vm_compute; reflexivity.
  - intros m t ->%list_elem_of_singleton. simpl. discriminate.
  - intros m ->%list_elem_of_singleton _. vm_compute. reflexivity.
Defined.

(** the condition on Config names is needed: the Config graph admits a Config whose name
    holds a NUL byte, and admitting its default destination then panics. *)
Theorem nul_config_name_panics :
  let name := String "a" (String "000" "b") in
  let configs := sample_config_graph name in
  is_ok (ServiceConfigGraph_parse configs.(graph_configs) configs.(graph_config_mounts)) = true ∧
  ServiceMountGraph_parse {| graph_volumes := []; graph_mounts := [] |} configs = Err Panics.
Proof. vm_compute. done. Qed.
