(* ===== verification/Spec.v ===== *)
(** * Service Specs

    [ployz-core/src/domain/spec.rs] with [spec/serving_shape.rs] and
    [spec/comparison.rs], and the container settings of [host_config.rs],
    [container_metadata.rs] and [resources.rs]: requested and resolved specs,
    the content identity that decides whether a Container must be recreated,
    and the runtime action a change needs.

    JSON text comes from another crate: the serving shape is computed over an
    abstract rendering of each field, and hashed with the FNV-1a the source
    spells out. *)

From S2P Require Import Prelude BTree Strings Decimal Values Machines Volumes ServiceGraph.
From Stdlib Require Import Ascii.

Open Scope string_scope.
Open Scope list_scope.

(** ** Data *)

Inductive ServiceMode : Type := Replicated (replicas : N) | Global.

Definition same_service_mode_kind (left right : ServiceMode) : bool :=
  match left, right with
  | Replicated _, Replicated _ | Global, Global => true
  | _, _ => false
  end.

Inductive HttpProtocol : Type := Http | Https.
Inductive TransportProtocol : Type := Tcp | Udp.

(** An address with a prefix length. *)
Record IpNet : Type := { net_addr : IpAddr; net_prefix_len : N }.

Inductive HostBind : Type :=
| BindAll
| BindAddress (address : IpAddr)
| BindPrefix (prefix : IpNet).

Inductive PortPublication : Type :=
| IngressPort (hostname : IngressHost) (load_balancer_port container_port : N)
              (http_protocol : HttpProtocol)
| HostPort (bind : HostBind) (published_port container_port : N)
           (transport_protocol : TransportProtocol).

Record ConfiguredHealthcheck : Type := {
  hc_test : list string;
  hc_interval_millis : option N;
  hc_timeout_millis : option N;
  hc_start_period_millis : option N;
  hc_start_interval_millis : option N;
  hc_retries : option N
}.

Record HttpHealthcheck : Type := {
  http_path : string;
  http_port : N;
  http_timeout_seconds : N
}.

Inductive HealthcheckSpec : Type :=
| HealthDisabled
| HealthConfigured (configured : ConfiguredHealthcheck)
| HealthHttp (http : HttpHealthcheck).

Definition HealthcheckSpec_as_configured (self : HealthcheckSpec) : option ConfiguredHealthcheck :=
  match self with
  | HealthConfigured configured => Some configured
  | HealthDisabled | HealthHttp _ => None
  end.

Definition HEALTHCHECK_DISABLE_SENTINEL : string := "NONE".

(** [test.join(" ")]. *)
Fixpoint join_space (l : list string) : string :=
  match l with
  | [] => ""
  | [x] => x
  | x :: l' => x +:+ String " " (join_space l')
  end.

Definition HealthcheckCommand_parse (test : list string) : Result (list string) ValueError :=
  if bool_decide (test = [])
     || option_test (λ command, String.eqb command HEALTHCHECK_DISABLE_SENTINEL) (head test)
  then Err (ValueError_new "healthcheck command" (join_space test)
              "a non-empty command that does not begin with NONE")
  else Ok test.

Definition PreDeployCommand_parse (command : list string) : Result (list string) ValueError :=
  match command with
  | [] => Err (ValueError_new "pre-deploy command" "" "a non-empty command")
  | _ => Ok command
  end.

Record LogDriver : Type := { log_name : string; log_options : StringMap }.

Record DeviceMapping : Type := {
  device_machine_path : MachinePath;
  device_container_path : ContainerPath;
  device_cgroup_permissions : string
}.

Record DeviceReservation : Type := {
  reservation_driver : option string;
  reservation_count : option Z;
  reservation_device_ids : list string;
  reservation_capabilities : list (list string);
  reservation_options : StringMap
}.

Record Ulimit : Type := { ulimit_soft : Z; ulimit_hard : Z }.

(** [CpuNanos] and [ByteQuantity] are nonnegative [i64]s. *)
Definition CpuNanos_try_from (value : Z) : Result Z ValueError :=
  if (value <? 0)%Z
  then Err (ValueError_new "CPU nanounits" ("-" +:+ u64_to_string (Z.abs_N value))
              "a nonnegative integer")
  else Ok value.

Definition ByteQuantity_try_from (value : Z) : Result Z ValueError :=
  if (value <? 0)%Z
  then Err (ValueError_new "bytes" ("-" +:+ u64_to_string (Z.abs_N value)) "a nonnegative integer")
  else Ok value.

Record ContainerResources : Type := {
  cpu_nanos : option Z;
  memory_bytes : option Z;
  memory_reservation_bytes : option Z;
  shared_memory_bytes : option Z;
  devices : list DeviceMapping;
  device_reservations : list DeviceReservation;
  ulimits : bmap string Ulimit
}.

Record PreDeployHook : Type := {
  hook_command : list string;
  hook_environment : StringMap;
  hook_privileged : option bool;
  hook_timeout_millis : option N;
  hook_user : option string
}.

Inductive UpdateOrder : Type := StartFirst | StopFirst.
Inductive PullPolicy : Type := PullAlways | PullMissing | PullNever.
Inductive SpecChange : Type := UpToDate | NeedsUpdate | NeedsRecreate.

Record UpdateConfig : Type := {
  update_order : option UpdateOrder;
  update_monitor_millis : option N
}.

Record ResolvedUpdateConfig : Type := {
  resolved_order : UpdateOrder;
  resolved_monitor_millis : option N
}.

Inductive RestartPolicy : Type :=
| RestartNo | RestartAlways | RestartUnlessStopped
| RestartOnFailure (maximum_retry_count : option Z).

Inductive PidMode : Type := PidHost | PidContainer (id : string).

Record ServiceContainerSpec : Type := {
  image : string;
  command : list string;
  entrypoint : list string;
  environment : StringMap;
  container_labels : StringMap;
  container_hostname : option string;
  extra_hosts : list string;
  cap_add : list string;
  cap_drop : list string;
  healthcheck : option HealthcheckSpec;
  pull_policy : PullPolicy;
  init : option bool;
  user : option string;
  working_directory : option ContainerPath;
  tty : bool;
  open_stdin : bool;
  privileged : bool;
  pid_mode : option PidMode;
  log_driver : option LogDriver;
  resources : ContainerResources;
  stop_timeout_secs : option Z;
  sysctls : StringMap;
  restart : RestartPolicy
}.

Record RequestedServiceSpec : Type := {
  rq_name : ServiceName;
  rq_mode : ServiceMode;
  rq_container : ServiceContainerSpec;
  rq_placement : Placement;
  rq_ports : list PortPublication;
  rq_mount_graph : ServiceMountGraph;
  rq_pre_deploy : option PreDeployHook;
  rq_update : UpdateConfig
}.

Record ResolvedServiceSpec : Type := {
  rs_service_id : ServiceId;
  rs_name : ServiceName;
  rs_mode : ServiceMode;
  rs_container : ServiceContainerSpec;
  rs_placement : Placement;
  rs_ports : list PortPublication;
  rs_mount_graph : ResolvedServiceMountGraph;
  rs_pre_deploy : option PreDeployHook;
  rs_update : ResolvedUpdateConfig
}.

#[global] Instance ServiceMode_eq_dec : EqDecision ServiceMode.
Proof. solve_decision. Defined.
#[global] Instance HttpProtocol_eq_dec : EqDecision HttpProtocol.
Proof. solve_decision. Defined.
#[global] Instance TransportProtocol_eq_dec : EqDecision TransportProtocol.
Proof. solve_decision. Defined.
#[global] Instance IpNet_eq_dec : EqDecision IpNet.
Proof. solve_decision. Defined.
#[global] Instance HostBind_eq_dec : EqDecision HostBind.
Proof. solve_decision. Defined.
#[global] Instance PortPublication_eq_dec : EqDecision PortPublication.
Proof. solve_decision. Defined.
#[global] Instance ConfiguredHealthcheck_eq_dec : EqDecision ConfiguredHealthcheck.
Proof. solve_decision. Defined.
#[global] Instance HttpHealthcheck_eq_dec : EqDecision HttpHealthcheck.
Proof. solve_decision. Defined.
#[global] Instance HealthcheckSpec_eq_dec : EqDecision HealthcheckSpec.
Proof. solve_decision. Defined.
#[global] Instance LogDriver_eq_dec : EqDecision LogDriver.
Proof. solve_decision. Defined.
#[global] Instance DeviceMapping_eq_dec : EqDecision DeviceMapping.
Proof. solve_decision. Defined.
#[global] Instance DeviceReservation_eq_dec : EqDecision DeviceReservation.
Proof. solve_decision. Defined.
#[global] Instance Ulimit_eq_dec : EqDecision Ulimit.
Proof. solve_decision. Defined.
#[global] Instance ContainerResources_eq_dec : EqDecision ContainerResources.
Proof. solve_decision. Defined.
#[global] Instance PreDeployHook_eq_dec : EqDecision PreDeployHook.
Proof. solve_decision. Defined.
#[global] Instance UpdateOrder_eq_dec : EqDecision UpdateOrder.
Proof. solve_decision. Defined.
#[global] Instance PullPolicy_eq_dec : EqDecision PullPolicy.
Proof. solve_decision. Defined.
#[global] Instance SpecChange_eq_dec : EqDecision SpecChange.
Proof. solve_decision. Defined.
#[global] Instance UpdateConfig_eq_dec : EqDecision UpdateConfig.
Proof. solve_decision. Defined.
#[global] Instance ResolvedUpdateConfig_eq_dec : EqDecision ResolvedUpdateConfig.
Proof. solve_decision. Defined.
#[global] Instance RestartPolicy_eq_dec : EqDecision RestartPolicy.
Proof. solve_decision. Defined.
#[global] Instance PidMode_eq_dec : EqDecision PidMode.
Proof. solve_decision. Defined.
#[global] Instance ServiceContainerSpec_eq_dec : EqDecision ServiceContainerSpec.
Proof. solve_decision. Defined.
#[global] Instance Placement_eq_dec : EqDecision Placement.
Proof. solve_decision. Defined.
#[global] Instance ServiceMountGraph_eq_dec : EqDecision ServiceMountGraph.
Proof. solve_decision. Defined.
#[global] Instance RequestedServiceSpec_eq_dec : EqDecision RequestedServiceSpec.
Proof. solve_decision. Defined.
#[global] Instance ResolvedServiceSpec_eq_dec : EqDecision ResolvedServiceSpec.
Proof. solve_decision. Defined.

(** ** Resolution *)

Definition to_resolved (self : RequestedServiceSpec) (service_id : ServiceId)
    (update : ResolvedUpdateConfig) : Result ResolvedServiceSpec ServiceVolumeGraphError :=
  let? mount_graph := ResolvedServiceMountGraph_try_from self.(rq_mount_graph) in
  Ok {| rs_service_id := service_id; rs_name := self.(rq_name); rs_mode := self.(rq_mode);
        rs_container := self.(rq_container); rs_placement := self.(rq_placement);
        rs_ports := self.(rq_ports); rs_mount_graph := mount_graph;
        rs_pre_deploy := self.(rq_pre_deploy); rs_update := update |}.

Definition to_requested (self : ResolvedServiceSpec) : RequestedServiceSpec :=
  {| rq_name := self.(rs_name); rq_mode := self.(rs_mode); rq_container := self.(rs_container);
     rq_placement := self.(rs_placement); rq_ports := self.(rs_ports);
     rq_mount_graph := self.(rs_mount_graph); rq_pre_deploy := self.(rs_pre_deploy);
     rq_update := {| update_order := Some self.(rs_update).(resolved_order);
                     update_monitor_millis := self.(rs_update).(resolved_monitor_millis) |} |}.

Definition ResolvedUpdateConfig_default : ResolvedUpdateConfig :=
  {| resolved_order := StartFirst; resolved_monitor_millis := None |}.

Definition set_volume_graph (self : RequestedServiceSpec) (volumes : ServiceVolumeGraph)
    : Result RequestedServiceSpec (Fault ServiceSpecGraphError) :=
  let? mount_graph := ServiceMountGraph_parse volumes self.(rq_mount_graph).(mg_configs) in
  Ok {| rq_name := self.(rq_name); rq_mode := self.(rq_mode); rq_container := self.(rq_container);
        rq_placement := self.(rq_placement); rq_ports := self.(rq_ports);
        rq_mount_graph := mount_graph; rq_pre_deploy := self.(rq_pre_deploy);
        rq_update := self.(rq_update) |}.

Record ServiceStorageSpec : Type := {
  ss_placement : Placement;
  ss_volumes : ResolvedServiceVolumeGraph
}.

Definition ServiceStorageSpec_try_from (spec : RequestedServiceSpec)
    : Result ServiceStorageSpec ServiceVolumeGraphError :=
  let? volumes := ResolvedServiceVolumeGraph_try_from spec.(rq_mount_graph).(mg_volumes) in
  Ok {| ss_placement := spec.(rq_placement); ss_volumes := volumes |}.

(** ** Container settings *)

Definition RestartPolicy_parse (value : string) : Result RestartPolicy ValueError :=
  let '(name, retries) :=
    match split_once ":" value with
    | Some (name, retries) => (name, Some retries)
    | None => (value, None)
    end in
  let other := Err (ValueError_new "restart policy" value
                      "no, always, unless-stopped, or on-failure[:max]") in
  match retries with
  | None =>
      if String.eqb name "no" then Ok RestartNo
      else if String.eqb name "always" then Ok RestartAlways
      else if String.eqb name "unless-stopped" then Ok RestartUnlessStopped
      else if String.eqb name "on-failure" then Ok (RestartOnFailure None)
      else other
  | Some retries =>
      if String.eqb name "on-failure" then
        (* [str::parse::<u32>] accepts one leading [+]. *)
        let digits := match strip_prefix "+" retries with Some d => d | None => retries end in
        match parse_u64 digits with
        | Some n =>
            if (n <=? u32_max)%N then Ok (RestartOnFailure (Some (Z.of_N n)))
            else Err (ValueError_new "restart policy retry count" retries
                        "a non-negative integer")
        | None => Err (ValueError_new "restart policy retry count" retries
                         "a non-negative integer")
        end
      else other
  end.

Definition PidMode_from_str (value : string) : Result PidMode ValueError :=
  if String.eqb value "host" then Ok PidHost
  else
    match strip_prefix "container:" value with
    | Some id =>
        if negb (str_is_empty id) then Ok (PidContainer id)
        else Err (ValueError_new "PID mode" value "'host' or 'container:<id>'")
    | None => Err (ValueError_new "PID mode" value "'host' or 'container:<id>'")
    end.

Definition PidMode_to_string (self : PidMode) : string :=
  match self with PidHost => "host" | PidContainer id => "container:" +:+ id end.

Definition MANAGEMENT_LABEL_PREFIX : string := "ployz.".

Definition validate_container_label_key (_ : unit) (key : string) : Result unit ValueError :=
  if starts_with MANAGEMENT_LABEL_PREFIX key
  then Err (ValueError_new "container label key" key
              "outside the reserved 'ployz.*' management namespace")
  else Ok tt.

Definition ContainerLabels_parse (labels : StringMap) : Result StringMap ValueError :=
  let? _ := try_fold validate_container_label_key (bkeys labels) tt in Ok labels.

Definition is_rfc1123_label (value : string) : bool :=
  negb (str_is_empty value)
  && Nat.leb (String.length value) 63
  && option_test is_ascii_alphanumeric (first_byte value)
  && option_test is_ascii_alphanumeric (last_byte value)
  && bytes_all (λ b, is_ascii_alphanumeric b || (b =? 45)%N) value.

Definition is_rfc1123_hostname (value : string) : bool :=
  Nat.leb 1 (String.length value) && Nat.leb (String.length value) 64
  && forallb is_rfc1123_label (split_byte "." value).

Definition ContainerHostname_parse (value : string) : Result string ValueError :=
  if is_rfc1123_hostname value then Ok value
  else Err (ValueError_new "container hostname" value "a 1-64 character RFC 1123 hostname").

(** ** Serving shape *)

(** The container fields whose change requires a new Container. *)
Record RecreateContainer : Type := {
  rc_image : string;
  rc_command : list string;
  rc_entrypoint : list string;
  rc_environment : StringMap;
  rc_labels : StringMap;
  rc_hostname : option string;
  rc_extra_hosts : list string;
  rc_cap_add : list string;
  rc_cap_drop : list string;
  rc_healthcheck : option HealthcheckSpec;
  rc_init : option bool;
  rc_user : option string;
  rc_working_directory : option ContainerPath;
  rc_tty : bool;
  rc_open_stdin : bool;
  rc_privileged : bool;
  rc_pid_mode : option PidMode;
  rc_log_driver : option LogDriver;
  rc_stop_timeout_secs : option Z;
  rc_sysctls : StringMap;
  rc_restart : RestartPolicy
}.

(** The payload, with each sorted list as the JSON texts in order. *)
Record RecreateFields : Type := {
  rf_name : ServiceName;
  rf_mode : string;
  rf_container : RecreateContainer;
  rf_placement : Placement;
  rf_ports : list string;
  rf_volumes : list string;
  rf_mounts : list string;
  rf_configs : list string;
  rf_config_mounts : list string
}.

(** [serde_json]: the text of one item, and the bytes of the whole payload. *)
Class ShapeJson : Type := {
  string_json : string → string;
  port_json : PortPublication → string;
  volume_json : ServiceVolumeReference * RawVolumeSource * StringMap → string;
  mount_json : ServiceMount → string;
  config_json : ConfigSpec → string;
  config_mount_json : ConfigMount → string;
  payload_bytes : RecreateFields → list N
}.

(** Sort by the JSON text, as [sort_by_cached_key] does. *)
Definition sorted_json {A} (to_json : A → string) (items : list A) : list string :=
  stable_sort key_le (map to_json items).

Definition fnv1a64 (bytes : list N) : N :=
  fold_left (λ hash byte, wrapping_mul (N.lxor hash byte) 1099511628211)
    bytes 14695981039346656037%N.

Definition service_mode_kind (mode : ServiceMode) : string :=
  match mode with Replicated _ => "replicated" | Global => "global" end.

Section Shape.
Context `{ShapeJson}.

Definition recreate_fields (name : ServiceName) (mode : ServiceMode)
    (container : ServiceContainerSpec) (placement : Placement) (ports : list PortPublication)
    (volumes : list ServiceVolume) (mounts : list ServiceMount)
    (configs : list ConfigSpec) (config_mounts : list ConfigMount) : RecreateFields :=
  {| rf_name := name; rf_mode := service_mode_kind mode;
     rf_container :=
       {| rc_image := container.(image); rc_command := container.(command);
          rc_entrypoint := container.(entrypoint); rc_environment := container.(environment);
          rc_labels := container.(container_labels);
          rc_hostname := container.(container_hostname);
          rc_extra_hosts := container.(extra_hosts);
          rc_cap_add := sorted_json string_json container.(cap_add);
          rc_cap_drop := sorted_json string_json container.(cap_drop);
          rc_healthcheck := container.(healthcheck); rc_init := container.(init);
          rc_user := container.(user); rc_working_directory := container.(working_directory);
          rc_tty := container.(tty); rc_open_stdin := container.(open_stdin);
          rc_privileged := container.(privileged); rc_pid_mode := container.(pid_mode);
          rc_log_driver := container.(log_driver);
          rc_stop_timeout_secs := container.(stop_timeout_secs);
          rc_sysctls := container.(sysctls); rc_restart := container.(restart) |};
     rf_placement := placement;
     rf_ports := sorted_json port_json ports;
     rf_volumes := sorted_json volume_json
       (map (λ v, (v.(sv_reference), v.(sv_source).(vs_source), creation_labels v.(sv_source)))
          volumes);
     rf_mounts := sorted_json mount_json mounts;
     rf_configs := sorted_json config_json configs;
     rf_config_mounts := sorted_json config_mount_json config_mounts |}.

Definition fields_of_resolved (spec : ResolvedServiceSpec) : RecreateFields :=
  recreate_fields spec.(rs_name) spec.(rs_mode) spec.(rs_container) spec.(rs_placement)
    spec.(rs_ports) spec.(rs_mount_graph).(mg_volumes).(graph_volumes)
    spec.(rs_mount_graph).(mg_volumes).(graph_mounts)
    spec.(rs_mount_graph).(mg_configs).(graph_configs)
    spec.(rs_mount_graph).(mg_configs).(graph_config_mounts).

Definition fields_of_requested (spec : RequestedServiceSpec) : RecreateFields :=
  recreate_fields spec.(rq_name) spec.(rq_mode) spec.(rq_container) spec.(rq_placement)
    spec.(rq_ports) spec.(rq_mount_graph).(mg_volumes).(graph_volumes)
    spec.(rq_mount_graph).(mg_volumes).(graph_mounts)
    spec.(rq_mount_graph).(mg_configs).(graph_configs)
    spec.(rq_mount_graph).(mg_configs).(graph_config_mounts).

Definition ServingShape_from_fields (payload : RecreateFields) : N := fnv1a64 (payload_bytes payload).
Definition ServingShape_of_resolved (spec : ResolvedServiceSpec) : N :=
  ServingShape_from_fields (fields_of_resolved spec).
Definition ServingShape_of_requested (spec : RequestedServiceSpec) : N :=
  ServingShape_from_fields (fields_of_requested spec).

(** ** Comparison *)

Definition resource_change (current requested : ContainerResources) : SpecChange :=
  if negb (bool_decide (current.(devices) = requested.(devices)))
     || negb (bool_decide (current.(device_reservations) = requested.(device_reservations)))
     || negb (bool_decide (current.(ulimits) = requested.(ulimits)))
  then NeedsRecreate
  else if negb (bool_decide (current.(cpu_nanos) = requested.(cpu_nanos)))
          || negb (bool_decide (current.(memory_bytes) = requested.(memory_bytes)))
          || negb (bool_decide (current.(memory_reservation_bytes)
                                = requested.(memory_reservation_bytes)))
          || negb (bool_decide (current.(shared_memory_bytes) = requested.(shared_memory_bytes)))
  then NeedsUpdate
  else UpToDate.

Definition compare_specs (current : ResolvedServiceSpec) (requested : RequestedServiceSpec)
    : SpecChange :=
  if bool_decide (requested.(rq_container).(pull_policy) = PullAlways)
     || negb (N.eqb (ServingShape_of_resolved current) (ServingShape_of_requested requested))
     || negb (bool_decide (current.(rs_pre_deploy) = requested.(rq_pre_deploy)))
  then NeedsRecreate
  else resource_change current.(rs_container).(resources) requested.(rq_container).(resources).
End Shape.

(** ** Lemmas *)

(** Two sorted permutations of strings are the same list. *)
Lemma sorted_perm_eq (l1 l2 : list string) :
  StronglySorted (λ a b, key_le a b = true) l1 → StronglySorted (λ a b, key_le a b = true) l2 →
  l1 ≡ₚ l2 → l1 = l2.
Proof.
  revert l2. induction l1 as [|x l1 IH]; intros l2 H1 H2 Hp.
  - symmetry. by apply Permutation_nil_l in Hp.
  - destruct l2 as [|y l2]; [by apply Permutation_nil_r in Hp|].
    inversion H1 as [|? ? Hs1 Hf1]; inversion H2 as [|? ? Hs2 Hf2]; subst.
    rewrite Forall_forall in Hf1, Hf2.
    assert (x = y) as ->.
    { assert (x ∈ y :: l2) as Hx by (rewrite <-Hp; left).
      assert (y ∈ x :: l1) as Hy by (rewrite Hp; left).
      apply elem_of_cons in Hx as [?|Hx]; [done|]. apply elem_of_cons in Hy as [?|Hy]; [done|].
      specialize (Hf1 y Hy). specialize (Hf2 x Hx). unfold key_le in *.
      rewrite (cmp_opp x y) in Hf2. destruct (cmp x y) eqn:Hc; try done. by apply cmp_Eq. }
    f_equal. apply IH; [done|done|]. by apply Permutation_cons_inv in Hp.
Qed.

Lemma sorted_json_perm {A} (to_json : A → string) l1 l2 :
  l1 ≡ₚ l2 → sorted_json to_json l1 = sorted_json to_json l2.
Proof.
  intros Hp. unfold sorted_json.
  apply sorted_perm_eq; try (apply stable_sort_sorted; [apply key_le_total|apply key_le_trans]).
  rewrite !stable_sort_perm. by apply Permutation_map.
Qed.

(** Two requested specs that may serve each other's traffic: equal up to the order of
    unordered lists and the fields outside the shape. *)
Record same_serving (a b : RequestedServiceSpec) : Prop := {
  same_name : a.(rq_name) = b.(rq_name);
  same_mode : same_service_mode_kind a.(rq_mode) b.(rq_mode) = true;
  same_placement : a.(rq_placement) = b.(rq_placement);
  same_caps : a.(rq_container).(cap_add) ≡ₚ b.(rq_container).(cap_add) ∧
              a.(rq_container).(cap_drop) ≡ₚ b.(rq_container).(cap_drop);
  same_container : ∃ policy resources cap_add cap_drop,
    b.(rq_container) =
    {| image := a.(rq_container).(image); command := a.(rq_container).(command);
       entrypoint := a.(rq_container).(entrypoint);
       environment := a.(rq_container).(environment);
       container_labels := a.(rq_container).(container_labels);
       container_hostname := a.(rq_container).(container_hostname);
       extra_hosts := a.(rq_container).(extra_hosts); cap_add := cap_add; cap_drop := cap_drop;
       healthcheck := a.(rq_container).(healthcheck); pull_policy := policy;
       init := a.(rq_container).(init); user := a.(rq_container).(user);
       working_directory := a.(rq_container).(working_directory);
       tty := a.(rq_container).(tty); open_stdin := a.(rq_container).(open_stdin);
       privileged := a.(rq_container).(privileged); pid_mode := a.(rq_container).(pid_mode);
       log_driver := a.(rq_container).(log_driver); resources := resources;
       stop_timeout_secs := a.(rq_container).(stop_timeout_secs);
       sysctls := a.(rq_container).(sysctls); restart := a.(rq_container).(restart) |};
  same_ports : a.(rq_ports) ≡ₚ b.(rq_ports);
  same_volumes : a.(rq_mount_graph).(mg_volumes).(graph_volumes)
                 ≡ₚ b.(rq_mount_graph).(mg_volumes).(graph_volumes);
  same_mounts : a.(rq_mount_graph).(mg_volumes).(graph_mounts)
                ≡ₚ b.(rq_mount_graph).(mg_volumes).(graph_mounts);
  same_configs : a.(rq_mount_graph).(mg_configs).(graph_configs)
                 ≡ₚ b.(rq_mount_graph).(mg_configs).(graph_configs);
  same_config_mounts : a.(rq_mount_graph).(mg_configs).(graph_config_mounts)
                       ≡ₚ b.(rq_mount_graph).(mg_configs).(graph_config_mounts)
}.

Section SpecTheorems.
Context `{ShapeJson}.

(** the serving shape ignores how a spec's unordered lists are written, its replica
    count, resources, pull policy, hooks and update timing, so none of them alone makes a
    Container ineligible to serve. *)
Theorem serving_shape_invariant a b :
  same_serving a b → ServingShape_of_requested a = ServingShape_of_requested b.
Proof.
  intros [Hn Hm Hp [Ha Hd] (policy & res & ca & cd & Hc) Hports Hv Hmo Hcf Hcm].
  unfold ServingShape_of_requested. f_equal. unfold fields_of_requested, recreate_fields.
  rewrite Hn, Hp, (sorted_json_perm port_json _ _ Hports), (sorted_json_perm mount_json _ _ Hmo),
    (sorted_json_perm config_json _ _ Hcf), (sorted_json_perm config_mount_json _ _ Hcm),
    (sorted_json_perm string_json _ _ Ha), (sorted_json_perm string_json _ _ Hd).
  rewrite (sorted_json_perm volume_json _ _ (Permutation_map _ Hv)).
  rewrite Hc. simpl. f_equal. destruct (rq_mode a), (rq_mode b); done.
Qed.

(** The specs a Container's retained spec stands for. *)
Lemma to_requested_shape s : ServingShape_of_requested (to_requested s) = ServingShape_of_resolved s.
Proof. done. Qed.

(** asking again for exactly what a Container runs is a fixed point: the requested form
    resolves back to the same spec, and comparing the two needs no action unless the spec
    always pulls. *)
Theorem resolved_spec_fixed_point s :
  ResolvedServiceVolumeGraph_try_from s.(rs_mount_graph).(mg_volumes)
    = Ok s.(rs_mount_graph).(mg_volumes) →
  to_resolved (to_requested s) s.(rs_service_id) s.(rs_update) = Ok s ∧
  (s.(rs_container).(pull_policy) ≠ PullAlways → compare_specs s (to_requested s) = UpToDate) ∧
  (s.(rs_container).(pull_policy) = PullAlways →
     compare_specs s (to_requested s) = NeedsRecreate).
Proof.
  intros Hg. unfold to_resolved, ResolvedServiceMountGraph_try_from. simpl. rewrite Hg. simpl.
  split_and!.
  - by destruct s as [????? ? [] ? ?].
  - intros Hp. unfold compare_specs. rewrite to_requested_shape, N.eqb_refl. simpl.
    rewrite bool_decide_eq_false_2, bool_decide_eq_true_2 by done.
    unfold resource_change. by rewrite !bool_decide_eq_true_2.
  - intros Hp. unfold compare_specs. by rewrite bool_decide_eq_true_2.
Qed.

(** the runtime action is exact: a Container is kept only when shape, hook and every
    resource agree and the image is not always pulled, and it is updated in place only when
    the sole differences are CPU and memory amounts. *)
Theorem compare_specs_exact current requested :
  let c := current.(rs_container).(resources) in
  let r := requested.(rq_container).(resources) in
  let same_identity :=
    requested.(rq_container).(pull_policy) ≠ PullAlways ∧
    ServingShape_of_resolved current = ServingShape_of_requested requested ∧
    current.(rs_pre_deploy) = requested.(rq_pre_deploy) ∧
    c.(devices) = r.(devices) ∧ c.(device_reservations) = r.(device_reservations) ∧
    c.(ulimits) = r.(ulimits) in
  (compare_specs current requested = UpToDate ↔ same_identity ∧ c = r) ∧
  (compare_specs current requested = NeedsUpdate ↔ same_identity ∧ c ≠ r).
Proof.
  intros c r same_identity. unfold compare_specs, resource_change. fold c r.
  assert (same_identity → c = r ↔ c.(cpu_nanos) = r.(cpu_nanos) ∧
    c.(memory_bytes) = r.(memory_bytes) ∧
    c.(memory_reservation_bytes) = r.(memory_reservation_bytes) ∧
    c.(shared_memory_bytes) = r.(shared_memory_bytes)) as Heq.
  { intros (_ & _ & _ & H1 & H2 & H3). split; [by intros ->|].
    intros (? & ? & ? & ?). destruct c, r; simpl in *; congruence. }
  set (b1 := _ || _ || negb (bool_decide (rs_pre_deploy _ = _))).
  set (b2 := _ || _ || negb (bool_decide (ulimits c = _))).
  set (b3 := _ || _ || _ || negb (bool_decide (shared_memory_bytes c = _))).
  assert (b1 = false ∧ b2 = false ↔ same_identity) as Hid.
  { unfold b1, b2, same_identity. rewrite !orb_false_iff, !negb_false_iff, N.eqb_eq,
      bool_decide_eq_false, !bool_decide_eq_true. tauto. }
  assert (same_identity → b3 = false ↔ c = r) as H3.
  { intros Hs. rewrite (Heq Hs). unfold b3.
    rewrite !orb_false_iff, !negb_false_iff, !bool_decide_eq_true. tauto. }
  clearbody b1 b2 b3 same_identity. clear Heq.
  destruct b1, b2, b3; naive_solver.
Qed.
End SpecTheorems.

(** A small rendering, enough to tell the sample specs apart. *)
#[local] Instance sample_shape_json : ShapeJson := {|
  string_json := λ s, s;
  port_json := λ p, match p with IngressPort h _ _ _ => h | HostPort _ _ _ _ => "host" end;
  volume_json := λ v, v.1.1;
  mount_json := λ m, m.(mount_target);
  config_json := λ c, c.(config_name);
  config_mount_json := λ m, m.(cm_config_name);
  payload_bytes := λ f, [N.of_nat (String.length f.(rf_name)); N.of_nat (length f.(rf_ports))]
|}.

Definition sample_resources (memory : option Z) : ContainerResources :=
  {| cpu_nanos := None; memory_bytes := memory; memory_reservation_bytes := None;
     shared_memory_bytes := None; devices := []; device_reservations := []; ulimits := [] |}.
Definition sample_container (caps : list string) (memory : option Z) : ServiceContainerSpec :=
  {| image := "api:1"; command := ["serve"]; entrypoint := []; environment := [];
     container_labels := []; container_hostname := None; extra_hosts := []; cap_add := caps;
     cap_drop := []; healthcheck := None; pull_policy := PullMissing; init := None; user := None;
     working_directory := None; tty := false; open_stdin := false; privileged := false;
     pid_mode := None; log_driver := None; resources := sample_resources memory;
     stop_timeout_secs := None; sysctls := []; restart := RestartUnlessStopped |}.
Definition empty_mount_graph : ServiceMountGraph :=
  {| mg_volumes := {| graph_volumes := []; graph_mounts := [] |};
     mg_configs := {| graph_configs := []; graph_config_mounts := [] |} |}.
Definition sample_requested (caps : list string) (replicas : N) (memory : option Z)
    : RequestedServiceSpec :=
  {| rq_name := "api"; rq_mode := Replicated replicas;
     rq_container := sample_container caps memory; rq_placement := {| constraints := [] |};
     rq_ports := []; rq_mount_graph := empty_mount_graph; rq_pre_deploy := None;
     rq_update := {| update_order := None; update_monitor_millis := None |} |}.
Definition sample_resolved (id : ServiceId) : ResolvedServiceSpec :=
  {| rs_service_id := id; rs_name := "api"; rs_mode := Replicated 1;
     rs_container := sample_container [] None; rs_placement := {| constraints := [] |};
     rs_ports := []; rs_mount_graph := empty_mount_graph; rs_pre_deploy := None;
     rs_update := ResolvedUpdateConfig_default |}.

Lemma serving_shape_invariant_witness :
  ServingShape_of_requested (sample_requested ["NET_ADMIN"; "SYS_TIME"] 1 None)
  = ServingShape_of_requested (sample_requested ["SYS_TIME"; "NET_ADMIN"] 3 (Some 64%Z)).
Proof.
  apply (serving_shape_invariant (sample_requested ["NET_ADMIN"; "SYS_TIME"] 1 None)
           (sample_requested ["SYS_TIME"; "NET_ADMIN"] 3 (Some 64%Z))).
  split; try reflexivity.
  - split; [apply Permutation_swap|reflexivity].
  - simpl. by exists PullMissing, (sample_resources (Some 64%Z)), ["SYS_TIME"; "NET_ADMIN"], [].
Defined.

Lemma resolved_spec_fixed_point_witness :
  compare_specs (sample_resolved "a") (to_requested (sample_resolved "a")) = UpToDate.
Proof.
  destruct (resolved_spec_fixed_point (sample_resolved "a")) as (_ & H & _);
    [vm_compute; reflexivity|]. apply H. discriminate.
Defined.
