(* ===== verification/Services.v ===== *)
(** * Observed Containers and the Services derived from them

    [ployz-core/src/domain/observation.rs], [service.rs],
    [service/serving.rs], [service/eligibility.rs], [domain/ingress.rs],
    [domain/hostname.rs] and the lookups of [domain/selector.rs]: admission of
    a Container observation, grouping by Qualified Service, which Containers
    serve traffic, who owns a hostname, and which Machines may host a spec. *)

From S2P Require Import Prelude BTree Strings Values Machines Volumes ServiceGraph Spec.
From Stdlib Require Import Ascii.

Open Scope string_scope.
Open Scope list_scope.

#[global] Instance Z_ord : Ord Z := Z.compare.
#[global] Instance Z_ord_laws : OrdLaws Z.
Proof.
  split; unfold cmp, Z_ord.
  - apply Z.compare_eq_iff.
  - intros. apply Z.compare_antisym.
  - intros a b c. rewrite !Z.compare_lt_iff. lia.
Qed.

(** [Iterator::max_by_key]: the last of the greatest elements. *)
Section MaxByKey.
Context {A K : Type} `{OrdLaws K} (key : A → K).
Definition max_by_key (l : list A) : option A :=
  fold_left
    (λ best x,
       match best with
       | None => Some x
       | Some b => if key_le (key b) (key x) then Some x else Some b
       end) l None.
End MaxByKey.

(** ** Container observations *)

Inductive HealthObservation : Type :=
| HealthNotConfigured | HealthStarting | HealthHealthy | HealthUnhealthy
| HealthUnrecognized (value : string).

(** [Unknown] keeps the observed JSON text. *)
Inductive ContainerRuntimeObservation : Type :=
| RuntimeCreated
| RuntimeRunning (health : HealthObservation)
| RuntimePaused
| RuntimeRestarting
| RuntimeExited (code : Z)
| RuntimeRemoving
| RuntimeDead
| RuntimeUnknown (raw : string).

Definition is_healthy (self : ContainerRuntimeObservation) : bool :=
  match self with
  | RuntimeRunning (HealthHealthy | HealthNotConfigured) => true
  | _ => false
  end.

Definition is_running (self : ContainerRuntimeObservation) : bool :=
  match self with RuntimeRunning _ => true | _ => false end.

Inductive ContainerKind : Type := KindServiceContainer | KindPreDeployHook.
#[global] Instance ContainerKind_eq_dec : EqDecision ContainerKind.
Proof. solve_decision. Defined.

(** An IPv4 address. *)
Abbreviation ContainerAddress := N (only parsing).

Record ContainerObservation : Type := {
  container_id : ContainerId;
  display_name : string;
  created_at_unix_nanos : Z;
  co_machine_id : MachineId;
  co_namespace : Namespace;
  kind : ContainerKind;
  runtime : ContainerRuntimeObservation;
  effective_healthcheck : option HealthcheckSpec;
  resolved_spec : ResolvedServiceSpec;
  address : option ContainerAddress;
  labels : StringMap
}.

(** [TryFrom<ContainerObservationParts>]: the error names the disagreeing label. *)
Definition ContainerObservation_try_from (parts : ContainerObservation)
    : Result ContainerObservation string :=
  match
    List.find
      (λ '(label, expected),
         option_test (λ value, negb (String.eqb value expected)) (bget parts.(labels) label))
      [("ployz.service.id", parts.(resolved_spec).(rs_service_id));
       ("ployz.service.name", parts.(resolved_spec).(rs_name));
       ("ployz.namespace", parts.(co_namespace))]
  with
  | Some (label, _) => Err label
  | None =>
      let hook := bcontains parts.(labels) "ployz.service.hook" in
      if (bcontains parts.(labels) "ployz.managed" || hook)
         && negb (Bool.eqb hook (bool_decide (parts.(kind) = KindPreDeployHook)))
      then Err "ployz.service.hook"
      else Ok parts
  end.

Definition service_id_of (self : ContainerObservation) : ServiceId :=
  self.(resolved_spec).(rs_service_id).
Definition identity_of (self : ContainerObservation) : QualifiedService :=
  QualifiedService_new self.(co_namespace) self.(resolved_spec).(rs_name).

Definition REDACTED_ENVIRONMENT_VALUE : string := "<redacted>".

Definition redact_map (environment : StringMap) : StringMap :=
  map (λ kv, (kv.1, REDACTED_ENVIRONMENT_VALUE)) environment.

Definition redact_hook (hook : PreDeployHook) : PreDeployHook :=
  {| hook_command := hook.(hook_command); hook_environment := redact_map hook.(hook_environment);
     hook_privileged := hook.(hook_privileged); hook_timeout_millis := hook.(hook_timeout_millis);
     hook_user := hook.(hook_user) |}.

Definition redact_container (c : ServiceContainerSpec) : ServiceContainerSpec :=
  {| image := c.(image); command := c.(command); entrypoint := c.(entrypoint);
     environment := redact_map c.(environment); container_labels := c.(container_labels);
     container_hostname := c.(container_hostname); extra_hosts := c.(extra_hosts);
     cap_add := c.(cap_add); cap_drop := c.(cap_drop); healthcheck := c.(healthcheck);
     pull_policy := c.(pull_policy); init := c.(init); user := c.(user);
     working_directory := c.(working_directory); tty := c.(tty); open_stdin := c.(open_stdin);
     privileged := c.(privileged); pid_mode := c.(pid_mode); log_driver := c.(log_driver);
     resources := c.(resources); stop_timeout_secs := c.(stop_timeout_secs);
     sysctls := c.(sysctls); restart := c.(restart) |}.

Definition redact_spec (s : ResolvedServiceSpec) : ResolvedServiceSpec :=
  {| rs_service_id := s.(rs_service_id); rs_name := s.(rs_name); rs_mode := s.(rs_mode);
     rs_container := redact_container s.(rs_container); rs_placement := s.(rs_placement);
     rs_ports := s.(rs_ports); rs_mount_graph := s.(rs_mount_graph);
     rs_pre_deploy := redact_hook <$> s.(rs_pre_deploy); rs_update := s.(rs_update) |}.

(** The [expect] on the re-admitted facts is [None]. *)
Definition redact_environment (self : ContainerObservation) : option ContainerObservation :=
  result_ok
    (ContainerObservation_try_from
       {| container_id := self.(container_id); display_name := self.(display_name);
          created_at_unix_nanos := self.(created_at_unix_nanos);
          co_machine_id := self.(co_machine_id); co_namespace := self.(co_namespace);
          kind := self.(kind); runtime := self.(runtime);
          effective_healthcheck := self.(effective_healthcheck);
          resolved_spec := redact_spec self.(resolved_spec);
          address := self.(address); labels := self.(labels) |}).

(** ** Roles: a [ServiceContainer] or [HookContainer] is an observation of that kind. *)

Abbreviation ServiceContainer := ContainerObservation (only parsing).
Abbreviation HookContainer := ContainerObservation (only parsing).

Definition is_service_container (o : ContainerObservation) : bool :=
  bool_decide (o.(kind) = KindServiceContainer).

Definition service_containers (observations : list ContainerObservation) : list ServiceContainer :=
  List.filter is_service_container observations.

Definition traffic_address (self : ServiceContainer) : option ContainerAddress :=
  if is_healthy self.(runtime) then self.(address) else None.

(** ** Derived Services *)

Record ServiceObservation : Type := {
  so_identity : QualifiedService;
  so_service_id : ServiceId;
  so_containers : list ServiceContainer;
  so_hook_containers : list HookContainer
}.

Definition members (self : ServiceObservation) : list ContainerObservation :=
  self.(so_containers) ++ self.(so_hook_containers).

Definition has_service_id (self : ServiceObservation) (id : ServiceId) : bool :=
  existsb (λ o, String.eqb (service_id_of o) id) (members self).

(** [(created_at_unix_nanos, container_id)]. *)
Definition newest_key (o : ContainerObservation) : Z * string :=
  (o.(created_at_unix_nanos), o.(container_id)).

Definition push_member (service : ServiceObservation) (o : ContainerObservation)
    : ServiceObservation :=
  if is_service_container o
  then {| so_identity := service.(so_identity); so_service_id := service.(so_service_id);
          so_containers := service.(so_containers) ++ [o];
          so_hook_containers := service.(so_hook_containers) |}
  else {| so_identity := service.(so_identity); so_service_id := service.(so_service_id);
          so_containers := service.(so_containers);
          so_hook_containers := service.(so_hook_containers) ++ [o] |}.

Definition derive_step (services : bmap QualifiedService ServiceObservation)
    (o : ContainerObservation) : bmap QualifiedService ServiceObservation :=
  let identity := identity_of o in
  let service :=
    default {| so_identity := identity; so_service_id := service_id_of o;
               so_containers := []; so_hook_containers := [] |} (bget services identity) in
  binsert identity (push_member service o) services.

Definition adopt_newest_id (service : ServiceObservation) : ServiceObservation :=
  match max_by_key newest_key (members service) with
  | Some newest =>
      {| so_identity := service.(so_identity); so_service_id := service_id_of newest;
         so_containers := service.(so_containers);
         so_hook_containers := service.(so_hook_containers) |}
  | None => service
  end.

Definition derive_services (containers : list ContainerObservation) : list ServiceObservation :=
  map adopt_newest_id (bvalues (fold_left derive_step containers [])).

Inductive ContainerAction : Type := ActionStart | ActionStop | ActionRemove.

Definition containers_for (self : ServiceObservation) (action : ContainerAction)
    : list ContainerObservation :=
  self.(so_containers) ++
  match action with
  | ActionStart => []
  | ActionStop | ActionRemove => self.(so_hook_containers)
  end.

Definition observed_global_slot_spec (self : ServiceObservation) : option ResolvedServiceSpec :=
  newest ← max_by_key newest_key self.(so_containers);
  let spec := newest.(resolved_spec) in
  if bool_decide (spec.(rs_mode) = Global) then Some spec else None.

Inductive ServiceSelectorError : Type :=
| ServiceNotFound (selector : ServiceSelector)
| ServiceNameAmbiguity (selector : ServiceSelector) (matches : list QualifiedService).

Definition select_service (services : list ServiceObservation) (selector : ServiceSelector)
    : Result ServiceObservation ServiceSelectorError :=
  let by_id :=
    match ServiceId_parse selector with
    | Ok service_id => List.find (λ service, has_service_id service service_id) services
    | Err _ => None
    end in
  match by_id with
  | Some service => Ok service
  | None =>
      match QualifiedService_parse selector with
      | Ok qualified =>
          ok_or (List.find (λ service, bool_decide (service.(so_identity) = qualified)) services)
            (ServiceNotFound selector)
      | Err _ =>
          let matches :=
            stable_sort (λ left right, key_le left.(so_identity) right.(so_identity))
              (List.filter (λ service, String.eqb service.(so_identity).(qs_name) selector)
                 services) in
          match matches with
          | [] => Err (ServiceNotFound selector)
          | [service] => Ok service
          | _ => Err (ServiceNameAmbiguity selector (map so_identity matches))
          end
      end
  end.

(** ** Container lookups *)

Inductive ContainerSelectorError : Type :=
| ContainerNotFound (selector : ContainerSelector)
| ContainerAmbiguous (selector : ContainerSelector) (container_ids : list ContainerId).

Definition resolve_container_selector (containers : list ContainerObservation)
    (selector : ContainerSelector) : Result ContainerObservation ContainerSelectorError :=
  match List.find (λ c, String.eqb c.(container_id) selector) containers with
  | Some container => Ok container
  | None =>
      match List.filter (λ c, String.eqb c.(display_name) selector) containers with
      | [container] => Ok container
      | (_ :: _ :: _) as named => Err (ContainerAmbiguous selector (map container_id named))
      | [] =>
          match List.filter (λ c, starts_with selector c.(container_id)) containers with
          | [] => Err (ContainerNotFound selector)
          | [container] => Ok container
          | prefixed => Err (ContainerAmbiguous selector (map container_id prefixed))
          end
      end
  end.

(** ** Hostname owners *)

Definition explicit_ingress_hosts (ports : list PortPublication) : list IngressHost :=
  omap (λ port, match port with
                | IngressPort hostname _ _ _ => Some hostname
                | HostPort _ _ _ _ => None
                end) ports.

(** The rank that decides a hostname: creation time, then Service, then Service ID. *)
Abbreviation OwnerRank := (Z * QualifiedService * ServiceId)%type (only parsing).

Definition owner_rank (o : ContainerObservation) : OwnerRank :=
  (o.(created_at_unix_nanos), identity_of o, service_id_of o).

Definition rank_lt (a b : OwnerRank) : bool :=
  match cmp a b with Lt => true | _ => false end.

Definition claim_hostname (rank : OwnerRank) (winners : bmap IngressHost OwnerRank)
    (hostname : IngressHost) : bmap IngressHost OwnerRank :=
  let better :=
    match bget winners hostname with
    | Some best => rank_lt rank best
    | None => true
    end in
  if better then binsert hostname rank winners else winners.

Definition claim_hostnames (winners : bmap IngressHost OwnerRank) (o : ContainerObservation)
    : bmap IngressHost OwnerRank :=
  if negb (is_service_container o) then winners
  else fold_left (claim_hostname (owner_rank o))
         (explicit_ingress_hosts o.(resolved_spec).(rs_ports)) winners.

Definition hostname_owners (observations : list ContainerObservation)
    : bmap IngressHost QualifiedService :=
  map (λ '(hostname, (_, owner, _)), (hostname, owner))
    (fold_left claim_hostnames observations []).

(** ** Serving Containers *)

Section Serving.
Context `{ShapeJson}.

Definition group_by_identity (containers : list ServiceContainer)
    : bmap QualifiedService (list ServiceContainer) :=
  fold_left
    (λ groups c, binsert (identity_of c)
                   (default [] (bget groups (identity_of c)) ++ [c]) groups)
    containers [].

Definition has_traffic_address (c : ServiceContainer) : bool :=
  match traffic_address c with Some _ => true | None => false end.

Definition serving_of_group (group : list ServiceContainer)
    : list (ServiceContainer * ContainerAddress) :=
  match max_by_key newest_key (List.filter has_traffic_address group) with
  | None => []
  | Some newest =>
      let selected := ServingShape_of_resolved newest.(resolved_spec) in
      omap (λ c, address ← traffic_address c;
                 if N.eqb (ServingShape_of_resolved c.(resolved_spec)) selected
                 then Some (c, address) else None) group
  end.

Definition serving_containers (containers : list ServiceContainer)
    : list (ServiceContainer * ContainerAddress) :=
  concat (map serving_of_group (bvalues (group_by_identity containers))).

Inductive SlotOccupancy : Type :=
| SlotCurrent (observation : ContainerObservation)
| SlotOtherShape
| SlotEmpty.

(** The loop with its early return. *)
Fixpoint classify_loop (existing : list ContainerObservation) (wanted : N)
    (current : option ContainerObservation) (saw_other : bool) : SlotOccupancy :=
  match existing with
  | [] =>
      match current, saw_other with
      | Some current, _ => SlotCurrent current
      | None, true => SlotOtherShape
      | None, false => SlotEmpty
      end
  | o :: existing =>
      if N.eqb (ServingShape_of_resolved o.(resolved_spec)) wanted then
        if is_running o.(runtime) then SlotCurrent o
        else classify_loop existing wanted (Some o) saw_other
      else classify_loop existing wanted current true
  end.

Definition SlotOccupancy_classify (existing : list ContainerObservation) (wanted : N)
    : SlotOccupancy := classify_loop existing wanted None false.
End Serving.

(** ** The reserved Ingress Proxy *)

Definition CADDY_INGRESS_COMMAND : list string := ["caddy"; "run"; "-c"; "/config/caddy/Caddyfile"].
Definition CADDY_INGRESS_ADMIN : string := "unix//run/ingress/caddy/admin.sock".
Definition CADDY_ADMIN_ENV : string := "CADDY_ADMIN".
Definition INGRESS_PROXY_DATA_PATH : string := "/var/lib/ployz/ingress".
Definition INGRESS_PROXY_RUNTIME_PATH : string := "/run/ployz/ingress".

Definition QualifiedService_system_ingress : QualifiedService :=
  QualifiedService_new Namespace_SYSTEM "ingress".

Definition default_resources : ContainerResources :=
  {| cpu_nanos := None; memory_bytes := None; memory_reservation_bytes := None;
     shared_memory_bytes := None; devices := []; device_reservations := []; ulimits := [] |}.

Definition caddy_container (image : string) : ServiceContainerSpec :=
  {| image := image; command := CADDY_INGRESS_COMMAND; entrypoint := [];
     environment := [(CADDY_ADMIN_ENV, CADDY_INGRESS_ADMIN)]; container_labels := [];
     container_hostname := None; extra_hosts := []; cap_add := []; cap_drop := [];
     healthcheck := None; pull_policy := PullMissing; init := None; user := None;
     working_directory := None; tty := false; open_stdin := false; privileged := false;
     pid_mode := None; log_driver := None; resources := default_resources;
     stop_timeout_secs := None; sysctls := []; restart := RestartUnlessStopped |}.

Definition caddy_ports : list PortPublication :=
  [HostPort BindAll 80 80 Tcp; HostPort BindAll 443 443 Tcp; HostPort BindAll 443 443 Udp].

(** [expect]s on static values are [default]s that evaluation shows unused. *)
Definition bind_volume (reference : ServiceVolumeReference) (machine_path : MachinePath)
    : option ServiceVolume :=
  source ← result_ok (VolumeSource_try_from (Bind machine_path true None None));
  Some {| sv_reference := reference; sv_source := source |}.

Definition caddy_mount (volume : ServiceVolumeReference) (target : ContainerPath) : ServiceMount :=
  {| mount_volume := volume; mount_target := target; mount_read_only := false;
     mount_no_copy := false; mount_subpath := None |}.

Definition caddy_volume_graph : option ServiceVolumeGraph :=
  data ← bind_volume "ingress-data" INGRESS_PROXY_DATA_PATH;
  rt ← bind_volume "ingress-runtime" INGRESS_PROXY_RUNTIME_PATH;
  result_ok
    (ServiceVolumeGraph_parse [data; rt]
       [caddy_mount "ingress-data" "/config"; caddy_mount "ingress-data" "/data";
        caddy_mount "ingress-runtime" "/run/ingress"]).

(** [None] is a panic of one of the [expect]s. *)
Definition caddy_service_spec (image : string) (constraints : bset PlacementConstraint)
    : option RequestedServiceSpec :=
  volumes ← caddy_volume_graph;
  mount_graph ← result_ok (ServiceMountGraph_parse volumes
                             {| graph_configs := []; graph_config_mounts := [] |});
  Some {| rq_name := QualifiedService_system_ingress.(qs_name); rq_mode := Global;
          rq_container := caddy_container image;
          rq_placement := {| constraints := constraints |}; rq_ports := caddy_ports;
          rq_mount_graph := mount_graph; rq_pre_deploy := None;
          rq_update := {| update_order := None; update_monitor_millis := None |} |}.

Definition validate_requested_ingress_service_spec (spec : RequestedServiceSpec) : option bool :=
  expected ← caddy_service_spec spec.(rq_container).(image) spec.(rq_placement).(constraints);
  Some (bool_decide (expected = spec)).

Definition validate_ingress_service_spec (spec : ResolvedServiceSpec) : option bool :=
  match spec.(rs_update).(resolved_monitor_millis) with
  | Some _ => Some false
  | None =>
      requested ← caddy_service_spec spec.(rs_container).(image) spec.(rs_placement).(constraints);
      expected ← result_ok (to_resolved requested spec.(rs_service_id) spec.(rs_update));
      Some (bool_decide (expected = spec))
  end.

(** ** Placement eligibility *)

Inductive ServicePlacementIneligibleReason : Type :=
| PlacementMismatch | WorkNotAccepted | ProvisionedStorageUnsupported.
Inductive ServicePlacementUnknownReason : Type := MissingStorageEvidence.
Inductive ServicePlacementEligibility : Type :=
| Eligible
| Ineligible (reason : ServicePlacementIneligibleReason)
| EligibilityUnknown (reason : ServicePlacementUnknownReason).

Definition has_mounted_provisioned_volume (self : ServiceVolumeGraph) : option bool :=
  volumes ← mounted_provisioned_volumes self;
  Some (match volumes with [] => false | _ => true end).

(** [None] is a panic of a constraint without an operator or of a dangling mount. *)
Definition placement_eligibility (placement : Placement) (volumes : ServiceVolumeGraph)
    (machine : Machine) (storage : option MachineStorageObservation) (ingress : bool)
    : option ServicePlacementEligibility :=
  matched ← machine_matches_placement machine placement;
  if negb matched then Some (Ineligible PlacementMismatch)
  else if negb (if ingress then machine.(accepts_ingress) else machine.(accepts_services))
  then Some (Ineligible WorkNotAccepted)
  else
    provisioned ← has_mounted_provisioned_volume volumes;
    if negb provisioned then Some Eligible
    else
      Some match storage with
           | Some StorageReady | Some (StoragePool _ _ _) => Eligible
           | Some StorageStateless => Ineligible ProvisionedStorageUnsupported
           | None => EligibilityUnknown MissingStorageEvidence
           end.

Definition requested_eligibility_in_namespace (self : RequestedServiceSpec)
    (namespace : Namespace) (machine : Machine) (storage : option MachineStorageObservation)
    : option ServicePlacementEligibility :=
  ingress ←
    (if String.eqb namespace QualifiedService_system_ingress.(qs_namespace)
     then validate_requested_ingress_service_spec self else Some false);
  placement_eligibility self.(rq_placement) self.(rq_mount_graph).(mg_volumes) machine storage
    ingress.

Definition resolved_eligibility_in_namespace (self : ResolvedServiceSpec)
    (namespace : Namespace) (machine : Machine) (storage : option MachineStorageObservation)
    : option ServicePlacementEligibility :=
  ingress ←
    (if String.eqb namespace QualifiedService_system_ingress.(qs_namespace)
     then validate_ingress_service_spec self else Some false);
  placement_eligibility self.(rs_placement) self.(rs_mount_graph).(mg_volumes) machine storage
    ingress.

(** ** Lemmas: the newest of a list *)

Section MaxFacts.
Context {A K : Type} `{OrdLaws K} (key : A → K).

Lemma max_by_key_spec l :
  match max_by_key key l with
  | None => l = []
  | Some best => best ∈ l ∧ ∀ x, x ∈ l → key_le (key x) (key best) = true
  end.
Proof.
  unfold max_by_key.
  assert (Hgen : ∀ l best, match fold_left (λ best x, match best with None => Some x
      | Some b => if key_le (key b) (key x) then Some x else Some b end) l (Some best) with
    | None => False
    | Some m => (m = best ∨ m ∈ l) ∧ key_le (key best) (key m) = true ∧
                ∀ x, x ∈ l → key_le (key x) (key m) = true
    end).
  { clear l. assert (∀ a, key_le a a = true) as Hrefl
      by (intros a; unfold key_le; by rewrite cmp_refl).
    induction l as [|x l IH]; intros best; simpl; [set_solver|].
    destruct (key_le (key best) (key x)) eqn:Hle.
    - specialize (IH x). destruct (fold_left _ l (Some x)) as [m|]; [|done].
      destruct IH as (Hm & Hx & Hall). split_and!; [set_solver|by eapply key_le_trans|set_solver].
    - specialize (IH best). destruct (fold_left _ l (Some best)) as [m|]; [|done].
      destruct IH as (Hm & Hb & Hall). split_and!; [set_solver|done|].
      intros y [->|Hy]%elem_of_cons; [|auto]. eapply key_le_trans; [|exact Hb].
      destruct (key_le_total (key best) (key x)); congruence. }
  destruct l as [|x l]; [done|]. simpl. specialize (Hgen l x).
  destruct (fold_left _ l (Some x)) as [m|]; [|done]. destruct Hgen as (Hm & Hx & Hall).
  split; [set_solver|]. intros y [->|Hy]%elem_of_cons; auto.
Qed.
End MaxFacts.

Lemma fold_snoc {A} (xs : list A) acc : fold_left (λ v x, v ++ [x]) xs acc = acc ++ xs.
Proof.
  revert acc. induction xs as [|x xs IH]; intros acc; simpl; [by rewrite app_nil_r|].
  rewrite IH. by rewrite <-app_assoc.
Qed.

Lemma filter_filter {A} (p q : A → bool) l :
  List.filter p (List.filter q l) = List.filter (λ x, q x && p x) l.
Proof.
  induction l as [|x l IH]; simpl; [done|]. destruct (q x); simpl; [|done].
  destruct (p x); by rewrite IH.
Qed.

(** ** Hostname owners *)

Definition claims (o : ContainerObservation) (hostname : IngressHost) : Prop :=
  is_service_container o = true ∧ hostname ∈ explicit_ingress_hosts o.(resolved_spec).(rs_ports).

Lemma rank_lt_false a b : rank_lt a b = false ↔ key_le b a = true.
Proof. unfold rank_lt, key_le. rewrite (cmp_opp a b). destruct (cmp a b); simpl; naive_solver. Qed.

(** Claiming a list of hostnames at one rank: each entry becomes the smaller of the two. *)
Lemma claim_fold rank hosts winners h :
  bget (fold_left (claim_hostname rank) hosts winners) h =
  if bool_decide (h ∈ hosts)
  then Some (match bget winners h with
             | Some best => if rank_lt rank best then rank else best
             | None => rank
             end)
  else bget winners h.
Proof.
  revert winners. induction hosts as [|x hosts IH]; intros winners; simpl; [done|].
  assert (Hstep : bget (claim_hostname rank winners x) h =
    if decide (x = h)
    then Some (match bget winners h with
               | Some best => if rank_lt rank best then rank else best | None => rank end)
    else bget winners h).
  { unfold claim_hostname. destruct (decide (x = h)) as [Hx|Hx]; [subst x|].
    - destruct (bget winners h) as [best|] eqn:Hg; [destruct (rank_lt rank best)|];
        by rewrite ?bget_binsert_eq, ?Hg.
    - destruct (match bget winners x with Some _ => _ | None => _ end); [|done].
      by rewrite bget_binsert_ne. }
  rewrite IH, Hstep. destruct (decide (x = h)) as [->|Hne].
  - rewrite (bool_decide_eq_true_2 (h ∈ h :: hosts)) by left. case_bool_decide; [|done].
    destruct (bget winners h) as [best|]; [destruct (rank_lt rank best) eqn:Hlt; rewrite ?Hlt|];
      try done; by rewrite (proj2 (rank_lt_false _ _) (key_le_refl _)).
  - assert (bool_decide (h ∈ x :: hosts) = bool_decide (h ∈ hosts)) as ->; [|done].
    apply bool_decide_ext. set_solver.
Qed.

(** What the table of winners says after some observations. *)
Definition winners_inv (seen : list ContainerObservation) (winners : bmap IngressHost OwnerRank)
    : Prop :=
  ∀ h, match bget winners h with
       | None => ∀ o, o ∈ seen → ¬ claims o h
       | Some rank =>
           (∃ o, o ∈ seen ∧ claims o h ∧ owner_rank o = rank) ∧
           ∀ o, o ∈ seen → claims o h → key_le rank (owner_rank o) = true
       end.

Lemma claim_hostnames_inv seen winners o :
  winners_inv seen winners → winners_inv (seen ++ [o]) (claim_hostnames winners o).
Proof.
  intros Hinv h. specialize (Hinv h). unfold claim_hostnames.
  destruct (is_service_container o) eqn:Hk; simpl.
  2: { assert (¬ claims o h) as Hno by (by intros [? _]; congruence).
    destruct (bget winners h) as [rank|].
    - destruct Hinv as [(w & Hw & Hc & Hr) Hmin]. split; [exists w; set_solver|].
      intros x [Hx|Hx%list_elem_of_singleton]%elem_of_app Hc'; subst; naive_solver.
    - intros x [Hx|Hx%list_elem_of_singleton]%elem_of_app; subst; naive_solver. }
  rewrite claim_fold. case_bool_decide as Hin.
  - assert (claims o h) as Ho by done.
    destruct (bget winners h) as [best|].
    + destruct Hinv as [(w & Hw & Hc & Hr) Hmin]. destruct (rank_lt (owner_rank o) best) eqn:Hlt.
      * split; [exists o; set_solver|].
        assert (key_le (owner_rank o) best = true) as Hle
          by (unfold rank_lt in Hlt; unfold key_le; by destruct (cmp _ _)).
        intros x [Hx|Hx%list_elem_of_singleton]%elem_of_app Hc'; [|subst; apply key_le_refl].
        eapply key_le_trans; [exact Hle|auto].
      * apply rank_lt_false in Hlt. split; [exists w; set_solver|].
        intros x [Hx|Hx%list_elem_of_singleton]%elem_of_app Hc'; subst; auto.
    + split; [exists o; set_solver|].
      intros x [Hx|Hx%list_elem_of_singleton]%elem_of_app Hc'; [by destruct (Hinv x Hx)|].
      subst. apply key_le_refl.
  - assert (¬ claims o h) as Hno by (by intros [_ ?]).
    destruct (bget winners h) as [rank|].
    + destruct Hinv as [(w & Hw & Hc & Hr) Hmin]. split; [exists w; set_solver|].
      intros x [Hx|Hx%list_elem_of_singleton]%elem_of_app Hc'; subst; naive_solver.
    + intros x [Hx|Hx%list_elem_of_singleton]%elem_of_app; subst; naive_solver.
Qed.

Lemma bwf_claim_hostnames winners o : bwf winners → bwf (claim_hostnames winners o).
Proof.
  unfold claim_hostnames. destruct (is_service_container o); simpl; [|done].
  generalize (explicit_ingress_hosts (rs_ports (resolved_spec o))) as hosts. intros hosts.
  revert winners. induction hosts as [|h hosts IH]; intros winners Hw; simpl; [done|].
  apply IH. unfold claim_hostname. destruct (match bget winners h with Some _ => _ | None => _ end);
    auto with ployz.
Qed.

Lemma winners_spec observations :
  bwf (fold_left claim_hostnames observations []) ∧
  winners_inv observations (fold_left claim_hostnames observations []).
Proof.
  assert (Hgen : ∀ l seen winners, bwf winners → winners_inv seen winners →
    bwf (fold_left claim_hostnames l winners) ∧
    winners_inv (seen ++ l) (fold_left claim_hostnames l winners)).
  { induction l as [|o l IH]; intros seen winners Hw Hi; simpl; [by rewrite app_nil_r|].
    replace (seen ++ o :: l) with ((seen ++ [o]) ++ l) by (by rewrite <-app_assoc).
    apply IH; [by apply bwf_claim_hostnames|by apply claim_hostnames_inv]. }
  apply (Hgen observations [] []); [apply bwf_nil|]. intros h. simpl. set_solver.
Qed.

Lemma bget_owners observations h :
  bget (hostname_owners observations) h =
  (λ rank, rank.1.2) <$> bget (fold_left claim_hostnames observations []) h.
Proof.
  unfold hostname_owners. induction (fold_left claim_hostnames observations [])
    as [|[h' [[z q] i]] m IH]; simpl; [done|]. by case_decide.
Qed.

(** a hostname belongs to the Service whose claiming Container is oldest, ties broken by
    Qualified Service and then Service ID; hooks never claim one, and the choice depends only
    on which observations are present, not on the order they arrived in. *)
Theorem hostname_owners_oldest observations :
  (∀ h q, bget (hostname_owners observations) h = Some q ↔
     ∃ o, o ∈ observations ∧ claims o h ∧ identity_of o = q ∧
       ∀ o', o' ∈ observations → claims o' h → key_le (owner_rank o) (owner_rank o') = true) ∧
  (∀ observations', observations ≡ₚ observations' →
     hostname_owners observations = hostname_owners observations').
Proof.
  split.
  - intros h q. rewrite bget_owners. destruct (winners_spec observations) as [_ Hinv].
    specialize (Hinv h). destruct (bget _ h) as [rank|]; simpl.
    + destruct Hinv as [(w & Hw & Hc & Hr) Hmin]. split.
      * intros [= <-]. exists w. split_and!; [done|done|by rewrite <-Hr|].
        rewrite Hr. auto.
      * intros (o & Ho & Hco & <- & Hle). f_equal.
        assert (rank = owner_rank o) as -> by
          (apply key_le_antisym; [by apply Hmin|rewrite <-Hr; by apply Hle]).
        done.
    + split; [done|]. intros (o & Ho & Hco & _). by destruct (Hinv o Ho).
  - intros observations' Hp.
    destruct (winners_spec observations) as [Hw1 H1], (winners_spec observations') as [Hw2 H2].
    unfold hostname_owners. f_equal. apply bmap_ext; [done|done|]. intros h.
    specialize (H1 h). specialize (H2 h).
    assert (Hel : ∀ o, o ∈ observations' ↔ o ∈ observations) by (intros o; by rewrite Hp).
    destruct (bget (fold_left claim_hostnames observations []) h) as [r1|],
      (bget (fold_left claim_hostnames observations' []) h) as [r2|]; [|naive_solver..].
    destruct H1 as [(o1 & ? & ? & <-) Hm1], H2 as [(o2 & ? & ? & <-) Hm2].
    f_equal. apply key_le_antisym; [apply Hm1|apply Hm2]; try done; by apply Hel.
Qed.

(** ** Derived Services *)

Lemma derive_step_group services o :
  derive_step services o =
  group_step identity_of
    (λ o, {| so_identity := identity_of o; so_service_id := service_id_of o;
             so_containers := []; so_hook_containers := [] |}) push_member services o.
Proof. done. Qed.

Definition of_identity (q : QualifiedService) : ContainerObservation → bool :=
  in_group identity_of q.

Lemma of_identity_true q o : of_identity q o = true ↔ identity_of o = q.
Proof. unfold of_identity, in_group. case_decide; naive_solver. Qed.

Lemma fold_push_member xs service :
  fold_left push_member xs service =
  {| so_identity := service.(so_identity); so_service_id := service.(so_service_id);
     so_containers := service.(so_containers) ++ List.filter is_service_container xs;
     so_hook_containers := service.(so_hook_containers)
                           ++ List.filter (λ o, negb (is_service_container o)) xs |}.
Proof.
  revert service. induction xs as [|x xs IH]; intros service; simpl.
  - rewrite !app_nil_r. by destruct service.
  - rewrite IH. unfold push_member. destruct (is_service_container x); simpl; by rewrite <-app_assoc.
Qed.

(** The Service of one identity: its Containers and hooks in arrival order. *)
Definition derived_service (q : QualifiedService) (observations : list ContainerObservation)
    (id : ServiceId) : ServiceObservation :=
  {| so_identity := q; so_service_id := id;
     so_containers := List.filter is_service_container
                        (List.filter (of_identity q) observations);
     so_hook_containers := List.filter (λ o, negb (is_service_container o))
                             (List.filter (of_identity q) observations) |}.

Lemma bget_derive observations q :
  bget (fold_left derive_step observations []) q =
  match List.filter (of_identity q) observations with
  | [] => None
  | o :: _ => Some (derived_service q observations (service_id_of o))
  end.
Proof.
  pose proof (bget_group identity_of
    (λ o, {| so_identity := identity_of o; so_service_id := service_id_of o;
             so_containers := []; so_hook_containers := [] |}) push_member observations q) as Hg.
  change (fold_left _ observations []) with (fold_left derive_step observations []) in Hg.
  rewrite Hg. fold (of_identity q).
  destruct (List.filter (of_identity q) observations) as [|o xs] eqn:Hf; [done|].
  f_equal. unfold derived_service. rewrite Hf, fold_push_member.
  assert (identity_of o = q) as Hq.
  { apply of_identity_true. assert (o ∈ List.filter (of_identity q) observations) as Ho
      by (rewrite Hf; left). by apply elem_of_filterb in Ho as [_ ?]. }
  unfold push_member. destruct (is_service_container o) eqn:Hk; simpl; rewrite Hk; simpl;
    by rewrite Hq.
Qed.

Lemma members_perm q observations id :
  members (derived_service q observations id) ≡ₚ List.filter (of_identity q) observations.
Proof.
  unfold members, derived_service. simpl.
  induction (List.filter (of_identity q) observations) as [|o l IH]; simpl; [done|].
  destruct (is_service_container o); simpl; [by constructor|].
  rewrite <-Permutation_middle. by constructor.
Qed.

(** What each derived Service is, and which there are. *)
Lemma derive_services_spec observations :
  let services := derive_services observations in
  (∀ service, service ∈ services →
     let q := service.(so_identity) in
     let own := List.filter (of_identity q) observations in
     service.(so_containers) = List.filter is_service_container own ∧
     service.(so_hook_containers) = List.filter (λ o, negb (is_service_container o)) own ∧
     ∃ newest, newest ∈ own ∧ service.(so_service_id) = service_id_of newest ∧
       ∀ o, o ∈ own → key_le (newest_key o) (newest_key newest) = true) ∧
  (∀ o, o ∈ observations → identity_of o ∈ map so_identity services) ∧
  StronglySorted key_lt (map so_identity services).
Proof.
  set (m := fold_left derive_step observations []).
  assert (bwf m) as Hwf.
  { apply (bwf_group identity_of _ push_member observations []), bwf_nil. }
  assert (Hid : ∀ s, so_identity (adopt_newest_id s) = so_identity s).
  { intros s. unfold adopt_newest_id. by destruct (max_by_key _ _). }
  assert (Hkv : ∀ q s, (q, s) ∈ m → so_identity s = q).
  { intros q s Hin. apply bget_Some in Hin; [|done]. unfold m in Hin. rewrite bget_derive in Hin.
    destruct (List.filter _ observations); simplify_eq. done. }
  assert (Hkeys : map so_identity (derive_services observations) = bkeys m).
  { unfold derive_services. fold m. unfold bvalues, bkeys. rewrite !map_map.
    apply map_ext_in. intros [q s] Hin%list_elem_of_In. rewrite Hid. simpl. by apply Hkv. }
  simpl. split_and!.
  - intros service Hs. unfold derive_services in Hs. fold m in Hs.
    apply list_elem_of_fmap in Hs as (s & -> & Hs).
    apply elem_of_bvalues in Hs as [q Hq]; [|done]. unfold m in Hq. rewrite bget_derive in Hq.
    destruct (List.filter (of_identity q) observations) as [|o xs] eqn:Hf; [done|].
    injection Hq as <-. rewrite Hid. simpl. rewrite Hf.
    unfold adopt_newest_id.
    pose proof (max_by_key_spec newest_key (members (derived_service q observations (service_id_of o))))
      as Hmax.
    destruct (max_by_key _ _) as [newest|]; simpl.
    + destruct Hmax as [Hin Hall]. setoid_rewrite members_perm in Hall.
      rewrite members_perm in Hin. rewrite Hf in *. split_and!; [done|done|].
      exists newest. auto.
    + exfalso. assert (members (derived_service q observations (service_id_of o)) ≡ₚ o :: xs) as Hp
        by (by rewrite members_perm, Hf).
      rewrite Hmax in Hp. by apply Permutation_nil_l in Hp.
  - intros o Ho. rewrite Hkeys. apply bcontains_true. unfold bcontains, m. rewrite bget_derive.
    destruct (List.filter _ observations) as [|x xs] eqn:Hf; [exfalso|done].
    assert (o ∈ List.filter (of_identity (identity_of o)) observations) as Hin
      by (apply elem_of_filterb; split; [done|by apply of_identity_true]).
    rewrite Hf in Hin. set_solver.
  - by rewrite Hkeys.
Qed.

Lemma concat_groups_cons o l ks :
  NoDup ks → identity_of o ∈ ks →
  concat (map (λ k, List.filter (of_identity k) (o :: l)) ks)
  ≡ₚ o :: concat (map (λ k, List.filter (of_identity k) l) ks).
Proof.
  induction ks as [|k ks IH]; intros Hnd Hin; [set_solver|].
  apply NoDup_cons in Hnd as [Hk Hnd]. cbn [map concat].
  assert (Hf : ∀ k', List.filter (of_identity k') (o :: l)
    = if of_identity k' o then o :: List.filter (of_identity k') l
      else List.filter (of_identity k') l) by done.
  rewrite Hf. destruct (of_identity k o) eqn:Ho.
  - apply of_identity_true in Ho as <-. simpl. constructor. apply Permutation_app_head.
    assert (Hrest : map (λ k, List.filter (of_identity k) (o :: l)) ks
                    = map (λ k, List.filter (of_identity k) l) ks).
    { apply map_ext_in. intros k Hin'%list_elem_of_In. rewrite Hf.
      destruct (of_identity k o) eqn:Ho; [|done]. apply of_identity_true in Ho as <-. done. }
    simpl in Hrest. by rewrite Hrest.
  - rewrite IH; [by rewrite Permutation_middle|done|].
    apply elem_of_cons in Hin as [Heq|]; [|done]. exfalso.
    assert (of_identity k o = true) by (by apply of_identity_true). congruence.
Qed.

(** The members of the derived Services are the observations. *)
Lemma derive_services_partition observations :
  concat (map members (derive_services observations)) ≡ₚ observations.
Proof.
  destruct (derive_services_spec observations) as (Hown & Hall & Hsorted).
  assert (Hnd : NoDup (map so_identity (derive_services observations)))
    by (by apply bset_wf_NoDup).
  transitivity (concat (map (λ k, List.filter (of_identity k) observations)
                  (map so_identity (derive_services observations)))).
  - clear Hall Hsorted Hnd. induction (derive_services observations) as [|s ss IH]; simpl; [done|].
    apply Permutation_app; [|apply IH; intros x Hx; apply Hown; set_solver].
    destruct (Hown s) as (Hc & Hh & _); [set_solver|].
    rewrite <-(members_perm (so_identity s) observations (so_service_id s)).
    unfold members. by rewrite Hc, Hh.
  - clear Hsorted. revert Hall Hnd. generalize (map so_identity (derive_services observations)) as ks.
    clear Hown. induction observations as [|o obs IH]; intros ks Hall Hnd.
    + clear. induction ks; simpl; done.
    + rewrite concat_groups_cons; [|done|apply Hall; set_solver].
      constructor. apply IH; [|done]. intros x Hx. apply Hall. set_solver.
Qed.

(** deriving Services loses and invents nothing: there is exactly one Service per
    Qualified Service observed, in identity order; its Containers and hooks are the
    observations of that identity in arrival order, and its Service ID is the one its newest
    member carries. *)
Theorem derive_services_groups observations :
  let services := derive_services observations in
  (∀ service, service ∈ services →
     let q := service.(so_identity) in
     let own := List.filter (of_identity q) observations in
     service.(so_containers) = List.filter is_service_container own ∧
     service.(so_hook_containers) = List.filter (λ o, negb (is_service_container o)) own ∧
     ∃ newest, newest ∈ own ∧ service.(so_service_id) = service_id_of newest ∧
       ∀ o, o ∈ own → key_le (newest_key o) (newest_key newest) = true) ∧
  (∀ o, o ∈ observations → identity_of o ∈ map so_identity services) ∧
  StronglySorted key_lt (map so_identity services).
Proof. apply derive_services_spec. Qed.

(** ** Serving Containers *)

Section ServingTheorems.
Context `{ShapeJson}.

Lemma bget_groups containers q :
  bget (group_by_identity containers) q =
  match List.filter (of_identity q) containers with [] => None | group => Some group end.
Proof.
  pose proof (bget_group identity_of (λ _, @nil ServiceContainer) (λ v c, v ++ [c]) containers q)
    as Hg.
  change (fold_left _ containers []) with (group_by_identity containers) in Hg.
  rewrite Hg. fold (of_identity q).
  destruct (List.filter (of_identity q) containers) as [|c xs]; [done|]. by rewrite fold_snoc.
Qed.

(** traffic goes to a Container exactly when it is healthy and addressed and its shape
    is that of the newest healthy, addressed Container of the same Qualified Service; a
    Service with such a Container always has one serving. *)
Theorem serving_containers_spec containers c a :
  (c, a) ∈ serving_containers containers ↔
  c ∈ containers ∧ traffic_address c = Some a ∧
  ∃ newest, newest ∈ containers ∧ identity_of newest = identity_of c ∧
    has_traffic_address newest = true ∧
    max_by_key newest_key
      (List.filter has_traffic_address (List.filter (of_identity (identity_of c)) containers))
      = Some newest ∧
    (∀ o, o ∈ containers → identity_of o = identity_of c → has_traffic_address o = true →
       key_le (newest_key o) (newest_key newest) = true) ∧
    ServingShape_of_resolved c.(resolved_spec) = ServingShape_of_resolved newest.(resolved_spec).
Proof.
  assert (bwf (group_by_identity containers)) as Hwf.
  { apply (bwf_group identity_of (λ _, []) (λ v c, v ++ [c]) containers []), bwf_nil. }
  assert (Hel : ∀ q g x, List.filter (of_identity q) containers = g →
    x ∈ g ↔ x ∈ containers ∧ identity_of x = q).
  { intros q g x <-. rewrite elem_of_filterb. by rewrite of_identity_true. }
  unfold serving_containers. rewrite list_elem_of_In, in_concat. split.
  - intros (group & Hg & Hin). apply list_elem_of_In, list_elem_of_fmap in Hg as (g & -> & Hg).
    apply elem_of_bvalues in Hg as [q Hq]; [|done]. rewrite bget_groups in Hq.
    destruct (List.filter (of_identity q) containers) as [|x xs] eqn:Hf; [done|].
    injection Hq as <-. apply list_elem_of_In in Hin. unfold serving_of_group in Hin.
    rewrite <-Hf in Hin.
    pose proof (max_by_key_spec newest_key
      (List.filter has_traffic_address (List.filter (of_identity q) containers))) as Hmax.
    destruct (max_by_key _ _) as [newest|] eqn:Hmk; [|set_solver].
    apply list_elem_of_omap in Hin as (c' & Hc' & Hs).
    destruct (traffic_address c') as [a'|] eqn:Ht; [|done]. simpl in Hs.
    destruct (N.eqb_spec (ServingShape_of_resolved (resolved_spec c')) 
      (ServingShape_of_resolved (resolved_spec newest))) as [He|]; simplify_eq.
    apply (Hel q _ c eq_refl) in Hc' as [Hc Hid]. subst q.
    destruct Hmax as [Hn Hall]. apply elem_of_filterb in Hn as [Hn Hna].
    apply (Hel _ _ newest eq_refl) in Hn as [Hn Hnid].
    split_and!; [done|done|]. exists newest. split_and!; try done.
    intros o Ho Hoid Hoa. apply Hall, elem_of_filterb. split; [|done].
    by apply (Hel _ _ o eq_refl).
  - intros (Hc & Ht & newest & Hn & Hnid & Hna & Hmk & _ & He).
    exists (serving_of_group (List.filter (of_identity (identity_of c)) containers)). split.
    + apply list_elem_of_In, list_elem_of_fmap.
      exists (List.filter (of_identity (identity_of c)) containers). split; [done|].
      apply elem_of_bvalues; [done|]. exists (identity_of c). rewrite bget_groups.
      destruct (List.filter _ containers) eqn:Hf; [exfalso|done].
      assert (c ∈ @nil ServiceContainer) as Hno by (by apply (Hel _ _ c Hf)). set_solver.
    + apply list_elem_of_In. unfold serving_of_group. rewrite Hmk. apply list_elem_of_omap.
      exists c. split; [by apply (Hel _ _ c eq_refl)|]. rewrite Ht. simpl. rewrite He.
      by rewrite N.eqb_refl.
Qed.
End ServingTheorems.

(** ** Redaction *)

(** redacting an admitted observation never trips its re-admission, leaves no environment
    value readable, and keeps the variable names, the labels and the Service identity. *)
Theorem redact_environment_safe o :
  ContainerObservation_try_from o = Ok o →
  ∃ r, redact_environment o = Some r ∧ ContainerObservation_try_from r = Ok r ∧
    identity_of r = identity_of o ∧ service_id_of r = service_id_of o ∧
    r.(labels) = o.(labels) ∧
    bkeys r.(resolved_spec).(rs_container).(environment)
      = bkeys o.(resolved_spec).(rs_container).(environment) ∧
    (∀ v, v ∈ bvalues r.(resolved_spec).(rs_container).(environment) →
       v = REDACTED_ENVIRONMENT_VALUE) ∧
    (∀ hook v, r.(resolved_spec).(rs_pre_deploy) = Some hook →
       v ∈ bvalues hook.(hook_environment) → v = REDACTED_ENVIRONMENT_VALUE).
Proof.
  assert (Hvals : ∀ m v, v ∈ bvalues (redact_map m) → v = REDACTED_ENVIRONMENT_VALUE).
  { intros m v. unfold bvalues, redact_map. rewrite map_map.
    intros (kv & -> & _)%list_elem_of_fmap. done. }
  intros Hadm. unfold redact_environment.
  set (r := {| container_id := _ |}).
  assert (ContainerObservation_try_from r = Ok r) as Hr.
  { revert Hadm. unfold ContainerObservation_try_from. simpl.
    destruct (if option_test _ _ then _ else _) as [[l e]|]; [done|].
    destruct (_ && _); [done|]. done. }
  exists r. rewrite Hr. split_and!; try done.
  - simpl. unfold bkeys, redact_map. rewrite map_map. done.
  - simpl. intros v. apply Hvals.
  - simpl. intros hook v. destruct (rs_pre_deploy (resolved_spec o)); simpl; [|done].
    intros [= <-]. simpl. apply Hvals.
Qed.

(** ** Eligibility *)

(** eligibility is decided for every Machine when constraints are canonical and the
    graph is admitted, and a Machine is reported eligible only if every constraint holds, it
    accepts that kind of work, and storage for mounted Provisioned Volumes was observed. *)
Theorem placement_eligibility_sound placement volumes machine storage ingress :
  (∀ c, c ∈ placement.(constraints) → PlacementConstraint_parse c = Ok c) →
  volume_graph_ok volumes.(graph_volumes) volumes.(graph_mounts) →
  ∃ e, placement_eligibility placement volumes machine storage ingress = Some e ∧
    (e = Eligible →
       (∀ c, c ∈ placement.(constraints) → PlacementConstraint_matches c machine = Some true) ∧
       (if ingress then machine.(accepts_ingress) else machine.(accepts_services)) = true ∧
       (has_mounted_provisioned_volume volumes = Some true →
          ∃ s, storage = Some s ∧ s ≠ StorageStateless)).
Proof.
  intros Hc Hg. unfold placement_eligibility, machine_matches_placement.
  assert (∃ b, all_panicking (λ c, PlacementConstraint_matches c machine) placement.(constraints)
               = Some b ∧
    (b = true → ∀ c, c ∈ placement.(constraints) →
       PlacementConstraint_matches c machine = Some true)) as (b & -> & Hb).
  { induction (constraints placement) as [|c cs IH]; simpl; [exists true; set_solver|].
    destruct (parse_matches c machine (Hc c ltac:(left))) as (m & Hm). rewrite Hm.
    destruct m; [|by exists false].
    destruct IH as (b & Hb & Hall); [set_solver|]. exists b. split; [done|].
    intros ->. intros x [->|Hx]%elem_of_cons; auto. }
  assert (∃ p, has_mounted_provisioned_volume volumes = Some p) as (p & Hp).
  { destruct Hg as [_ Hm]. unfold has_mounted_provisioned_volume, mounted_provisioned_volumes,
      mounted_volumes.
    destruct (mapM_volume_for volumes volumes.(graph_mounts) Hm) as (mounted & -> & _).
    simpl. eauto. }
  rewrite Hp. simpl. destruct b; simpl; [|by eexists].
  destruct (if ingress then _ else _) eqn:Ha; simpl; [|by eexists].
  destruct p; simpl; [|eexists; split; [done|]; naive_solver].
  destruct storage as [[]|]; eexists; (split; [done|]); try done; intros _;
    (split_and!; [by apply Hb|done|]); eauto.
Qed.

(** ** The Ingress Proxy *)

Lemma caddy_service_spec_total img cs :
  ∃ spec, caddy_service_spec img cs = Some spec ∧ spec.(rq_container).(image) = img ∧
    spec.(rq_placement).(constraints) = cs ∧
    ResolvedServiceMountGraph_try_from spec.(rq_mount_graph) = Ok spec.(rq_mount_graph).
Proof. unfold caddy_service_spec. eexists. by split_and!; [vm_compute|..]. Qed.

(** the built-in Ingress Proxy is well formed whatever image and placement it is given:
    building it never panics, its requested form is recognised, and so is every resolved form
    of it that sets no monitor, so the proxy is never mistaken for an application. *)
Theorem caddy_spec_recognised img cs id order :
  ∃ spec, caddy_service_spec img cs = Some spec ∧
    validate_requested_ingress_service_spec spec = Some true ∧
    ∃ resolved,
      to_resolved spec id {| resolved_order := order; resolved_monitor_millis := None |}
        = Ok resolved ∧
      validate_ingress_service_spec resolved = Some true.
Proof.
  destruct (caddy_service_spec_total img cs) as (spec & Hs & Hi & Hp & Hg).
  exists spec. split; [done|]. split.
  - unfold validate_requested_ingress_service_spec. rewrite Hi, Hp, Hs.
    cbn. by rewrite bool_decide_eq_true_2.
  - unfold to_resolved. rewrite Hg. cbn [result_bind]. eexists. split; [done|].
    unfold validate_ingress_service_spec.
    cbn [rs_update resolved_monitor_millis rs_container rs_placement rs_service_id].
    rewrite Hi, Hp, Hs. unfold to_resolved. cbn [mbind option_bind].
    rewrite Hg. cbn. by rewrite bool_decide_eq_true_2.
Qed.

(** ** Sample observations *)

Definition sample_observation (id : string) (created : Z) (name : string) (kind : ContainerKind)
    : ContainerObservation :=
  {| container_id := id; display_name := name +:+ "-" +:+ id; created_at_unix_nanos := created;
     co_machine_id := "m1"; co_namespace := "shop"; kind := kind;
     runtime := RuntimeRunning HealthHealthy; effective_healthcheck := None;
     resolved_spec :=
       {| rs_service_id := "s1"; rs_name := name; rs_mode := Replicated 1;
          rs_container := sample_container [] None; rs_placement := {| constraints := [] |};
          rs_ports := [IngressPort "api.example.com" 443 80 Http];
          rs_mount_graph := empty_mount_graph; rs_pre_deploy := None;
          rs_update := ResolvedUpdateConfig_default |};
     address := Some 167772162%N; labels := [("ployz.managed", ""); ("ployz.namespace", "shop")] |}.

Lemma redact_environment_safe_witness :
  ∃ r, redact_environment (sample_observation "c1" 5 "api" KindServiceContainer) = Some r ∧
    identity_of r = QualifiedService_new "shop" "api".
Proof.
  destruct (redact_environment_safe (sample_observation "c1" 5 "api" KindServiceContainer))
    as (r & Hr & _ & Hid & _); [vm_compute; reflexivity|].
  exists r. split; [exact Hr|exact Hid].
Defined.

Lemma placement_eligibility_sound_witness :
  ∃ e, placement_eligibility {| constraints := ["node.labels.region==eu"] |}
         {| graph_volumes := sample_volumes; graph_mounts := sample_mounts |}
         (sample_machine "1" "alpha") (Some StorageReady) false = Some e ∧ e = Eligible.
Proof.
  destruct (placement_eligibility_sound {| constraints := ["node.labels.region==eu"] |}
    {| graph_volumes := sample_volumes; graph_mounts := sample_mounts |}
    (sample_machine "1" "alpha") (Some StorageReady) false) as (e & He & _).
  - intros c Hc. apply list_elem_of_singleton in Hc as ->. vm_compute. reflexivity.
  - apply sample_graph_ok.
  - exists e. split; [exact He|]. vm_compute in He. injection He as <-. reflexivity.
Defined.
