(* ===== verification/Deploy.v ===== *)
(** * Deploy Intents, Snapshots and Plans

    [ployz-core/src/domain/deploy.rs] (what a Deploy asks for and the
    operations it may run), [ployz/src/deploy.rs] (the observer-relative
    evidence a plan is computed from and the reasons it is refused) and the
    machine-independent parts of [ployz/src/deploy/planning.rs]: which Services
    a Deploy applies and in which order, which observed Services it retires,
    which hostnames it may claim, and the seeded shuffle of candidates. *)

From S2P Require Import Prelude BTree Strings Values Machines StorageCapacity Volumes.
From S2P Require Import ServiceGraph Spec Services.

Open Scope string_scope.
Open Scope list_scope.
Open Scope nat_scope.

(** ** Wire errors and fan-out evidence *)

Inductive RpcErrorCode : Type :=
| RpcInvalidArgument | RpcNotFound | RpcAmbiguous | RpcUnsupported | RpcUnavailable
| RpcConflict | RpcInternal | RpcUnauthenticated | RpcConfirmationRequired
| RpcUnknownCode (value : string).

(** [details] is JSON text. *)
Record RpcError : Type := {
  rpc_code : RpcErrorCode;
  rpc_message : string;
  rpc_details : string
}.

Record MachineFailure : Type := { mf_machine_id : MachineId; mf_error : RpcError }.

Record VolumeObservationFailure : Type := { vof_id : DockerVolumeId; vof_error : RpcError }.

Definition VolumeObservationFailure_to_string (self : VolumeObservationFailure) : string :=
  "Docker Volume " +:+ self.(vof_id).(dvid_name) +:+ " on Machine "
  +:+ self.(vof_id).(dvid_machine_id) +:+ " could not be inspected: "
  +:+ self.(vof_error).(rpc_message)
  +:+ "; resolve the reported Docker or storage error on that Machine, then inspect the Volume again".

Record VolumeInventory : Type := {
  inventory_volumes : list DockerVolume;
  inventory_failures : list VolumeObservationFailure
}.

Record PartialResult (T : Type) : Type := {
  successes : list (MachineId * T);
  failures : list MachineFailure;
  partial_omissions : list MachineId
}.
Arguments successes {T} _.
Arguments failures {T} _.
Arguments partial_omissions {T} _.

#[global] Instance DockerVolumeId_eq_dec : EqDecision DockerVolumeId.
Proof. solve_decision. Defined.
(** The derived order: Machine, then name. *)
#[global] Instance DockerVolumeId_ord : Ord DockerVolumeId :=
  λ a b, cmp (a.(dvid_machine_id), a.(dvid_name)) (b.(dvid_machine_id), b.(dvid_name)).
#[global] Instance DockerVolumeId_ord_laws : OrdLaws DockerVolumeId.
Proof.
  split; unfold cmp, DockerVolumeId_ord.
  - intros [a b] [c d]; simpl. rewrite cmp_Eq. naive_solver.
  - intros. apply cmp_opp.
  - intros. eapply cmp_trans; eauto.
Qed.

(** ** Docker Volume evidence *)

Record VolumeSnapshot : Type := {
  observations : list DockerVolume;
  named_failures : list VolumeObservationFailure;
  machine_failures : list MachineFailure;
  omissions : list MachineId
}.

(** Each constructor is one message of the [InvalidArgument] error. *)
Inductive VolumeSnapshotError : Type :=
| RepeatedObservation (id : DockerVolumeId)
| RepeatedEvidence (id : DockerVolumeId)
| RepeatedMachineFailure (machine_id : MachineId)
| RepeatedGap (machine_id : MachineId)
| ContradictoryGap (id : DockerVolumeId).

(** [if !set.insert(key) { return Err(..) }]. *)
Definition insert_fresh `{OrdLaws K} {A E} (key : A → K) (error : K → E) (seen : bset K) (x : A)
    : Result (bset K) E :=
  if bool_decide (key x ∈ seen) then Err (error (key x)) else Ok (bset_insert (key x) seen).

Definition VolumeSnapshot_validate (self : VolumeSnapshot) : Result unit VolumeSnapshotError :=
  let? ids := try_fold (insert_fresh dv_id RepeatedObservation) self.(observations) [] in
  let? ids := try_fold (insert_fresh vof_id RepeatedEvidence) self.(named_failures) ids in
  let? gaps :=
    try_fold (insert_fresh mf_machine_id RepeatedMachineFailure) self.(machine_failures) [] in
  let? gaps := try_fold (insert_fresh id RepeatedGap) self.(omissions) gaps in
  match List.find (λ id, bool_decide (id.(dvid_machine_id) ∈ gaps)) ids with
  | Some id => Err (ContradictoryGap id)
  | None => Ok tt
  end.

Definition VolumeSnapshot_try_from_parts (observations : list DockerVolume)
    (named_failures : list VolumeObservationFailure) (machine_failures : list MachineFailure)
    (omissions : list MachineId) : Result VolumeSnapshot VolumeSnapshotError :=
  let snapshot :=
    {| observations := observations; named_failures := named_failures;
       machine_failures := machine_failures; omissions := omissions |} in
  let? _ := VolumeSnapshot_validate snapshot in
  Ok snapshot.

Definition VolumeSnapshot_try_from_observations (observations : list DockerVolume)
    : Result VolumeSnapshot VolumeSnapshotError :=
  VolumeSnapshot_try_from_parts observations [] [] [].

(** The error is re-coded as [Internal]; its cause is kept. *)
Definition VolumeSnapshot_from_partial (partial : PartialResult VolumeInventory)
    : Result VolumeSnapshot VolumeSnapshotError :=
  VolumeSnapshot_try_from_parts
    (concat (map (λ s, s.2.(inventory_volumes)) partial.(successes)))
    (concat (map (λ s, s.2.(inventory_failures)) partial.(successes)))
    partial.(failures) partial.(partial_omissions).

Definition known_ids (self : VolumeSnapshot) : list DockerVolumeId :=
  map dv_id self.(observations) ++ map vof_id self.(named_failures).

Definition affects_required (failures : list MachineFailure) (omissions : list MachineId)
    (required : bset MachineId) : bool :=
  existsb (λ failure, bool_decide (failure.(mf_machine_id) ∈ required)) failures
  || existsb (λ machine, bool_decide (machine ∈ required)) omissions.

Definition VolumeSnapshot_affects_required (self : VolumeSnapshot) (required : bset MachineId)
    : bool :=
  affects_required self.(machine_failures) self.(omissions) required
  || existsb (λ failure, bool_decide (failure.(vof_id).(dvid_machine_id) ∈ required))
       self.(named_failures).

Definition machine_gap (self : VolumeSnapshot) (machine : MachineId) : option string :=
  match List.find (λ failure, String.eqb failure.(mf_machine_id) machine)
          self.(machine_failures) with
  | Some failure => Some ("Docker Volume inventory failed: " +:+ failure.(mf_error).(rpc_message))
  | None =>
      if bool_decide (machine ∈ self.(omissions))
      then Some "Docker Volume inventory produced no terminal response" else None
  end.

Definition named_gap (self : VolumeSnapshot) (relevant : DockerVolumeId → bool)
    : option (DockerVolumeId * string) :=
  (λ failure, (failure.(vof_id), VolumeObservationFailure_to_string failure))
  <$> List.find (λ failure, relevant failure.(vof_id)) self.(named_failures).

(** ** Deploy Snapshots *)

Record BridgeEndpointCapacity : Type := {
  usable_endpoints : N;
  attached_endpoints : N;
  free_endpoints : N
}.

Definition BridgeEndpointCapacity_new (usable attached : N) : BridgeEndpointCapacity :=
  {| usable_endpoints := usable; attached_endpoints := attached;
     free_endpoints := saturating_sub usable attached |}.

Record DeploySnapshot : Type := {
  snap_machines : list MachineObservation;
  snap_storage_capacity : bmap MachineId (Result StorageCapacity RpcError);
  snap_containers : list ContainerObservation;
  snap_volumes : VolumeSnapshot;
  snap_container_failures : list MachineFailure;
  snap_container_omissions : list MachineId;
  snap_capacity : option (bmap MachineId BridgeEndpointCapacity)
}.

Definition services_in (self : DeploySnapshot) (namespace : Namespace) : list ServiceObservation :=
  derive_services
    (List.filter (λ container, String.eqb container.(co_namespace) namespace)
       self.(snap_containers)).

Definition is_observer_complete (self : DeploySnapshot) : bool :=
  let required :=
    bset_of (map (λ m, m.(mo_machine).(machine_id))
               (List.filter (λ m, MembershipObservation_invites_rpc m.(mo_membership))
                  self.(snap_machines))) in
  negb (affects_required self.(snap_container_failures) self.(snap_container_omissions) required)
  && negb (VolumeSnapshot_affects_required self.(snap_volumes) required).

Definition is_active_runtime (runtime : ContainerRuntimeObservation) : bool :=
  match runtime with
  | RuntimeRunning _ | RuntimePaused | RuntimeRestarting => true
  | _ => false
  end.

(** ** Intents *)

Record ServiceAttempt : Type := { attempt_name : ServiceName }.

Record PlanOptions : Type := {
  force_recreate : bool;
  skip_health_monitor : bool;
  placement_seed : N;
  selected : list ServiceAttempt
}.

Definition PlanOptions_default : PlanOptions :=
  {| force_recreate := false; skip_health_monitor := false; placement_seed := 0;
     selected := [] |}.

Inductive DependencyCondition : Type := ServiceStarted | ServiceHealthy.
#[global] Instance DependencyCondition_eq_dec : EqDecision DependencyCondition.
Proof. solve_decision. Defined.

Record ServiceDependency : Type := {
  dep_service : ServiceName;
  dep_condition : DependencyCondition
}.

Record RegistryAuth : Type := { auth_username : option string; auth_password : string }.

Record DeployIntent : Type := {
  in_namespace : Namespace;
  in_target : list RequestedServiceSpec;
  in_options : PlanOptions;
  in_dependencies : bmap ServiceName (list ServiceDependency);
  in_registry_auth : bmap ServiceName RegistryAuth
}.

Definition DeployIntent_new (namespace : Namespace) (target : list RequestedServiceSpec)
    (options : PlanOptions) : DeployIntent :=
  {| in_namespace := namespace; in_target := target; in_options := options;
     in_dependencies := []; in_registry_auth := [] |}.

Definition DeployIntent_apply_all := DeployIntent_new.

Definition DeployIntent_apply_one (namespace : Namespace) (spec : RequestedServiceSpec)
    (options : PlanOptions) : DeployIntent :=
  DeployIntent_new namespace [spec]
    {| force_recreate := options.(force_recreate);
       skip_health_monitor := options.(skip_health_monitor);
       placement_seed := options.(placement_seed);
       selected := [{| attempt_name := spec.(rq_name) |}] |}.

Definition with_dependencies (self : DeployIntent)
    (dependencies : bmap ServiceName (list ServiceDependency)) : DeployIntent :=
  {| in_namespace := self.(in_namespace); in_target := self.(in_target);
     in_options := self.(in_options); in_dependencies := dependencies;
     in_registry_auth := self.(in_registry_auth) |}.

Definition DeployIntent_from_named_specs (namespace : Namespace)
    (services : bmap string RequestedServiceSpec)
    (dependencies : bmap string (list ServiceDependency)) (options : PlanOptions)
    : DeployIntent :=
  with_dependencies (DeployIntent_new namespace (bvalues services) options)
    (bcollect
       (omap (λ '(name, deps),
                spec ← bget services name;
                Some (spec.(rq_name),
                      List.filter (λ dependency, bcontains services dependency.(dep_service))
                        deps))
          dependencies)).

Definition target_names (self : DeployIntent) : list ServiceName := map rq_name self.(in_target).

Definition deps_of (self : DeployIntent) (name : ServiceName) : list ServiceName :=
  map dep_service (default [] (bget self.(in_dependencies) name)).

(** The [while let Some(name) = pending.pop()] loop; the last element is popped
    first, so [pending] is kept reversed. *)
Fixpoint applied_loop (self : DeployIntent) (present : bset ServiceName) (fuel : nat)
    (pending : list ServiceName) (included : bset ServiceName) : bset ServiceName :=
  match fuel, pending with
  | S fuel, name :: pending =>
      if bool_decide (name ∈ included) then applied_loop self present fuel pending included
      else
        applied_loop self present fuel
          (rev (List.filter (λ d, bool_decide (d ∈ present)) (deps_of self name)) ++ pending)
          (bset_insert name included)
  | _, _ => included
  end.

(** Every pop but the first ones was pushed by a distinct included name. *)
Definition applied_fuel (self : DeployIntent) (pending : list ServiceName) : nat :=
  S (length pending + length (concat (bvalues self.(in_dependencies)))).

Definition applied_names (self : DeployIntent) : bset ServiceName :=
  match self.(in_options).(selected) with
  | [] => bset_of (target_names self)
  | attempts =>
      let present := bset_of (target_names self) in
      let pending :=
        rev (List.filter (λ name, bool_decide (name ∈ present)) (map attempt_name attempts)) in
      applied_loop self present (applied_fuel self pending) pending []
  end.

Inductive PruneRefusal : Type := IncompleteSnapshot | SelectedServices.

Definition prune_refusal (self : DeployIntent) (snapshot_complete : bool) : option PruneRefusal :=
  if negb snapshot_complete then Some IncompleteSnapshot
  else match self.(in_options).(selected) with
       | [] => None
       | _ => Some SelectedServices
       end.

(** ** Operations *)

Record ReplacementOperation : Type := {
  repl_machine_id : MachineId;
  repl_old_container_id : ContainerId;
  repl_spec : ResolvedServiceSpec;
  repl_skip_health_monitor : bool
}.

Inductive StopContainerPurpose : Type := PurposeLifecycle | PurposeFreeHostPorts.

Inductive DeployOperation : Type :=
| PrepareVolumes (machine_id : MachineId) (specs : list ServiceStorageSpec)
| WaitHealthy (machine_id : MachineId) (dependent dependency : QualifiedService)
| RunContainer (machine_id : MachineId) (spec : ResolvedServiceSpec) (skip_health_monitor : bool)
| StopContainer (machine_id : MachineId) (container_id : ContainerId)
                (purpose : StopContainerPurpose)
| RemoveContainer (machine_id : MachineId) (container_id : ContainerId)
| ReplaceContainer (replacement : ReplacementOperation)
| StopHook (machine_id : MachineId) (container_id : ContainerId)
| RunHook (machine_id : MachineId) (spec : ResolvedServiceSpec)
          (old_hook_containers : list (MachineId * ContainerId))
| RemoveVolume (id : DockerVolumeId).

Definition op_machine_id (self : DeployOperation) : MachineId :=
  match self with
  | PrepareVolumes m _ | WaitHealthy m _ _ | RunContainer m _ _ | StopContainer m _ _
  | RemoveContainer m _ | StopHook m _ | RunHook m _ _ => m
  | ReplaceContainer replacement => replacement.(repl_machine_id)
  | RemoveVolume id => id.(dvid_machine_id)
  end.

Definition op_service_name (self : DeployOperation) : option ServiceName :=
  match self with
  | WaitHealthy _ dependent _ => Some dependent.(qs_name)
  | RunContainer _ spec _ | RunHook _ spec _ => Some spec.(rs_name)
  | ReplaceContainer replacement => Some replacement.(repl_spec).(rs_name)
  | StopContainer _ _ _ | RemoveContainer _ _ | StopHook _ _ | PrepareVolumes _ _
  | RemoveVolume _ => None
  end.

Definition op_container_id (self : DeployOperation) : option ContainerId :=
  match self with
  | StopContainer _ c _ | RemoveContainer _ c | StopHook _ c => Some c
  | ReplaceContainer replacement => Some replacement.(repl_old_container_id)
  | WaitHealthy _ _ _ | RunContainer _ _ _ | RunHook _ _ _ | PrepareVolumes _ _
  | RemoveVolume _ => None
  end.

Definition op_spec (self : DeployOperation) : option ResolvedServiceSpec :=
  match self with
  | RunContainer _ spec _ | RunHook _ spec _ => Some spec
  | ReplaceContainer replacement => Some replacement.(repl_spec)
  | WaitHealthy _ _ _ | StopContainer _ _ _ | RemoveContainer _ _ | StopHook _ _
  | PrepareVolumes _ _ | RemoveVolume _ => None
  end.

(** ** Refusals *)

Inductive EliminatingConstraint : Type :=
| NoMachines
| UnknownPlacement (targets : list PlacementConstraint)
| EliminatedWorkNotAccepted (names : list MachineName)
| MachineDown (names : list MachineName)
| VolumeAlreadyOn (volume : DockerVolumeName) (located_on : list MachineName)
| VolumeConflictsWithPlacement (volume : DockerVolumeName) (located_on : list MachineName)
                               (requested : list PlacementConstraint)
| SharedVolumeNoCommonMachine (volume : DockerVolumeName) (requested : list PlacementConstraint).

Inductive PlanError : Type :=
| StorageRefused (machine_id : MachineId) (machine : MachineName) (source : StorageCapacityError)
| ConflictingHostPublications (service : ServiceName)
| HostPortConflict (service : ServiceName)
| CapacityUnknown
| InsufficientCapacity
| NoEligibleMachines (constraints : list EliminatingConstraint)
| ServiceModeCannotChange
| ConflictingDockerVolumeDefinitions (name : DockerVolumeName)
| DuplicateTargetService (service : ServiceName)
| ProvisionedVolumeStorageRequired (machine : MachineName)
| ProvisionedVolumeStorageUnavailable
| ProvisionedVolumeStorageUnknown (names : list MachineName)
| ExistingPlainVolume (name : DockerVolumeName) (machine : MachineName)
| ExistingProvisionedVolumeMismatch (name : DockerVolumeName) (machine : MachineName)
                                    (maximum_bytes : ProvisionedVolumeMaximumBytes)
| PlanServiceError (service : string) (source : PlanError)
| MixedVolumeModes (name : DockerVolumeName) (global replicated : string)
| DependencyCycle (service : string)
| DockerVolumeUnavailable (id : DockerVolumeId) (message : string)
| HostnameConflict (hostname : IngressHost) (owner : QualifiedService).

Definition EliminatingConstraints_new (constraints : list EliminatingConstraint)
    : list EliminatingConstraint :=
  match constraints with [] => [NoMachines] | _ => constraints end.

Definition no_eligible_machines (constraints : list EliminatingConstraint) : PlanError :=
  NoEligibleMachines (EliminatingConstraints_new constraints).

(** The planner's computations fail with a [PlanError] or at an [expect]. *)
Abbreviation Planning T := (Result T (Fault PlanError)) (only parsing).

Definition refuse {T} (e : PlanError) : Planning T := Err (Fails e).
Definition expect {T} (o : option T) : Planning T := ok_or o Panics.
Definition fallible {T} (r : Result T PlanError) : Planning T := map_err Fails r.

Definition service_error (name_errors_with_service : bool) (service : string) (source : PlanError)
    : PlanError :=
  if name_errors_with_service then PlanServiceError service source else source.

(** [.map_err(|source| service_error(..))?]: a panic is not an error value. *)
Definition in_service {T} (name_errors_with_service : bool) (service : string) (r : Planning T)
    : Planning T :=
  match r with
  | Err (Fails e) => Err (Fails (service_error name_errors_with_service service e))
  | _ => r
  end.

Lemma in_service_Ok {T} named service (r : Planning T) x :
  in_service named service r = Ok x → r = Ok x.
Proof. by destruct r as [|[]]. Qed.

(** ** Dependency order *)

Record VisitState : Type := {
  visiting : bset ServiceName;
  visited : bset ServiceName;
  ordered : list RequestedServiceSpec
}.

(** Out of fuel is the stack overflow the recursion could only reach by visiting
    more names than there are. *)
Fixpoint visit (intent : DeployIntent) (included : bset ServiceName)
    (by_name : bmap ServiceName RequestedServiceSpec) (fuel : nat) (name : ServiceName)
    (st : VisitState) : Planning VisitState :=
  match fuel with
  | O => Err Panics
  | S fuel =>
      if bool_decide (name ∈ st.(visited)) then Ok st
      else if bool_decide (name ∈ st.(visiting)) then refuse (DependencyCycle name)
      else
        let? st :=
          try_fold
            (λ st dependency,
               if bool_decide (dependency ∈ included)
               then visit intent included by_name fuel dependency st else Ok st)
            (deps_of intent name)
            {| visiting := bset_insert name st.(visiting); visited := st.(visited);
               ordered := st.(ordered) |} in
        Ok {| visiting := bset_remove name st.(visiting);
              visited := bset_insert name st.(visited);
              ordered := st.(ordered) ++ option_list (bget by_name name) |}
  end.

Definition admit_name (by_name : bmap ServiceName RequestedServiceSpec)
    (spec : RequestedServiceSpec) : Planning (bmap ServiceName RequestedServiceSpec) :=
  if bcontains by_name spec.(rq_name) then refuse (DuplicateTargetService spec.(rq_name))
  else Ok (binsert spec.(rq_name) spec by_name).

Definition order_included (intent : DeployIntent) (included : bset ServiceName)
    : Planning (list RequestedServiceSpec) :=
  let? by_name := try_fold admit_name intent.(in_target) [] in
  let? st :=
    try_fold
      (λ st spec,
         if bool_decide (spec.(rq_name) ∈ included)
         then visit intent included by_name (S (length included)) spec.(rq_name) st else Ok st)
      intent.(in_target)
      {| visiting := []; visited := []; ordered := [] |} in
  Ok st.(ordered).

(** ** Pruning *)

Definition obsolete_services (intent : DeployIntent) (services : list ServiceObservation)
    : list QualifiedService :=
  if Namespace_is_reserved intent.(in_namespace) then []
  else
    let declared := bset_of (target_names intent) in
    map so_identity
      (List.filter (λ service, negb (bool_decide (service.(so_identity).(qs_name) ∈ declared)))
         services).

Definition removal_operations (services : list ServiceObservation)
    (obsolete : list QualifiedService) : list DeployOperation :=
  map (λ container, RemoveContainer container.(co_machine_id) container.(container_id))
    (concat
       (map (λ service, containers_for service ActionRemove)
          (List.filter (λ service, bool_decide (service.(so_identity) ∈ bset_of obsolete))
             services))).

Definition owned_volume_namespace (labels : StringMap) : option Namespace :=
  value ← bget labels NAMESPACE_LABEL; result_ok (Namespace_parse value).

Record PreservedVolume : Type := {
  preserved_id : DockerVolumeId;
  preserved_machine_name : option MachineName
}.

Definition declared_physical_names (target : list RequestedServiceSpec)
    : option (bset DockerVolumeName) :=
  mounted ← mapM (λ spec, mounted_volumes spec.(rq_mount_graph).(mg_volumes)) target;
  Some (bset_of (omap (λ volume,
                         match volume.(sv_source).(vs_source) with
                         | Ordinary name _ _ | Provisioned name _ _ => Some name
                         | External _ | Bind _ _ _ _ | Tmpfs _ _ _ => None
                         end) (concat mounted))).

Definition machine_name_of (snapshot : DeploySnapshot) (machine : MachineId)
    : option MachineName :=
  (λ m, m.(mo_machine).(machine_name))
  <$> List.find (λ m, String.eqb m.(mo_machine).(machine_id) machine) snapshot.(snap_machines).

Definition preserved_owned_volumes (namespace : Namespace) (target : list RequestedServiceSpec)
    (snapshot : DeploySnapshot) : option (list PreservedVolume) :=
  declared ← declared_physical_names target;
  Some
    (stable_sort
       (λ left right,
          key_le (left.(preserved_id).(dvid_name), left.(preserved_id).(dvid_machine_id))
            (right.(preserved_id).(dvid_name), right.(preserved_id).(dvid_machine_id)))
       (map (λ volume, {| preserved_id := volume.(dv_id);
                          preserved_machine_name :=
                            machine_name_of snapshot volume.(dv_id).(dvid_machine_id) |})
          (List.filter
             (λ volume,
                bool_decide (owned_volume_namespace volume.(dv_labels) = Some namespace)
                && negb (bool_decide (volume.(dv_id).(dvid_name) ∈ declared)))
             snapshot.(snap_volumes).(observations)))).

(** ** Hostnames *)

Definition claim_requested (owners claimed : bmap IngressHost QualifiedService)
    (claim : QualifiedService * IngressHost)
    : Planning (bmap IngressHost QualifiedService) :=
  let '(identity, hostname) := claim in
  let current := match bget claimed hostname with
                 | Some owner => Some owner
                 | None => bget owners hostname
                 end in
  match current with
  | Some owner =>
      if bool_decide (owner = identity) then Ok (bor_insert hostname identity claimed)
      else refuse (HostnameConflict hostname owner)
  | None => Ok (bor_insert hostname identity claimed)
  end.

(** The nested loops over specs and the hostnames each publishes. *)
Definition requested_claims (namespace : Namespace) (requested : list RequestedServiceSpec)
    : list (QualifiedService * IngressHost) :=
  concat (map (λ spec, map (λ hostname, (QualifiedService_new namespace spec.(rq_name), hostname))
                         (explicit_ingress_hosts spec.(rq_ports))) requested).

Definition reject_hostname_conflicts (namespace : Namespace)
    (requested : list RequestedServiceSpec) (snapshot : DeploySnapshot)
    (retiring : list QualifiedService) : Planning unit :=
  let owners :=
    hostname_owners
      (List.filter (λ container, negb (bool_decide (identity_of container ∈ bset_of retiring)))
         snapshot.(snap_containers)) in
  let? _ := try_fold (claim_requested owners) (requested_claims namespace requested) [] in
  Ok tt.

Inductive ObservationKind : Type := KindContainer | KindVolume.

Inductive DeployWarning : Type :=
| StorageHeadroom (machine_id : MachineId) (remaining_bytes : N)
| UnbudgetedDiskUsage
| ObservationFailed (kind : ObservationKind) (machine_id : MachineId) (message : string)
| ObservationOmitted (kind : ObservationKind) (machine_id : MachineId)
| StorageObservationUnknown (machine_id : MachineId)
| IngressHostnameWarning (message : string)
| ObserverRelativeHostnameConflict
| SkippedDependencyHealth (dependent dependency : QualifiedService).

Definition deploy_warnings (self : VolumeSnapshot) : list DeployWarning :=
  map (λ failure, ObservationFailed KindVolume failure.(mf_machine_id)
                    failure.(mf_error).(rpc_message)) self.(machine_failures)
  ++ map (ObservationOmitted KindVolume) self.(omissions)
  ++ map (λ failure, ObservationFailed KindVolume failure.(vof_id).(dvid_machine_id)
                       (VolumeObservationFailure_to_string failure)) self.(named_failures).

Definition hostname_policy_for (namespace : Namespace) (requested : list RequestedServiceSpec)
    (snapshot : DeploySnapshot) (retiring : list QualifiedService)
    : Planning (list DeployWarning) :=
  let? _ := reject_hostname_conflicts namespace requested snapshot retiring in
  Ok (if negb (is_observer_complete snapshot)
         && existsb (λ spec, match explicit_ingress_hosts spec.(rq_ports) with
                             | [] => false
                             | _ => true
                             end) requested
      then [ObserverRelativeHostnameConflict] else []).

(** ** The seeded shuffle *)

Definition scramble (state : N) : N :=
  let state := wrapping_mul (N.lxor state (N.shiftr state 30)) 0xbf58476d1ce4e5b9 in
  let state := wrapping_mul (N.lxor state (N.shiftr state 27)) 0x94d049bb133111eb in
  N.lxor state (N.shiftr state 31).

Definition placement_state (seed : N) (name : ServiceName) : N :=
  fold_left (λ state byte, scramble (wrapping_add (wrapping_add state byte) 0x9e3779b97f4a7c15))
    (str_bytes name) seed.

(** [slice::swap], which panics out of range. *)
Definition slice_swap {A} (i j : nat) (l : list A) : option (list A) :=
  x ← l !! i; y ← l !! j; Some (<[i := y]> (<[j := x]> l)).

(** [for upper in (1..values.len()).rev()]. *)
Fixpoint shuffle_from {A} (upper : nat) (values : list A) (state : N) : option (list A) :=
  match upper with
  | O => Some values
  | S upper' =>
      let state := wrapping_add state 0x9e3779b97f4a7c15 in
      values ← slice_swap upper (N.to_nat (scramble state mod N.of_nat (S upper))) values;
      shuffle_from upper' values state
  end.

Definition shuffle {A} (values : list A) (state : N) : option (list A) :=
  shuffle_from (pred (length values)) values state.

(** ** Volume evidence is consistent *)

Section FreshInserts.
Context `{OrdLaws K} {A E : Type} (key : A → K) (error : K → E).

Lemma try_fold_insert_fresh l seen :
  NoDup (map key l) → (∀ x, x ∈ l → key x ∉ seen) →
  ∃ s, try_fold (insert_fresh key error) l seen = Ok s ∧
    ∀ k, k ∈ s ↔ k ∈ map key l ∨ k ∈ seen.
Proof.
  revert seen. induction l as [|x l IH]; intros seen Hnd Hfresh; simpl.
  - exists seen. set_solver.
  - simpl in Hnd. apply NoDup_cons in Hnd as [Hx Hnd].
    unfold insert_fresh at 1. rewrite bool_decide_eq_false_2 by (apply Hfresh; set_solver).
    simpl. destruct (IH (bset_insert (key x) seen)) as (s & Hs & Hin); [done| |].
    + intros y Hy [Heq|Hin]%elem_of_bset_insert.
      * apply Hx. rewrite <-Heq. by apply list_elem_of_fmap_2.
      * eapply Hfresh; [|done]. set_solver.
    + exists s. split; [done|]. intros k. rewrite Hin, elem_of_bset_insert, elem_of_cons.
      naive_solver.
Qed.

Lemma try_fold_insert_fresh_inv l seen s :
  try_fold (insert_fresh key error) l seen = Ok s →
  NoDup (map key l) ∧ (∀ x, x ∈ l → key x ∉ seen) ∧ ∀ k, k ∈ s ↔ k ∈ map key l ∨ k ∈ seen.
Proof.
  revert seen. induction l as [|x l IH]; intros seen Hs; simpl in *.
  - simplify_eq. split_and!; [constructor|set_solver|set_solver].
  - unfold insert_fresh at 1 in Hs. case_bool_decide as Hx; [done|]. simpl in Hs.
    apply IH in Hs as (Hnd & Hfresh & Hin). split_and!.
    + constructor; [|done]. intros (y & Hy & Hyl)%list_elem_of_fmap.
      apply (Hfresh y Hyl). apply elem_of_bset_insert. naive_solver.
    + intros y [->|Hy]%elem_of_cons; [done|]. intros Hseen.
      apply (Hfresh y Hy). apply elem_of_bset_insert. by right.
    + intros k. rewrite Hin, elem_of_bset_insert, elem_of_cons. naive_solver.
Qed.
End FreshInserts.

(** a Docker Volume snapshot is admitted exactly when its evidence is consistent: no Volume
    is reported twice or both seen and failed, no Machine is named as a gap twice, and no
    Volume is reported from a Machine whose inventory is missing. *)
Theorem volume_snapshot_consistent obs nf mf om :
  let gaps := map mf_machine_id mf ++ om in
  let ids := map dv_id obs ++ map vof_id nf in
  is_ok (VolumeSnapshot_try_from_parts obs nf mf om) = true ↔
  NoDup ids ∧ NoDup gaps ∧ ∀ id, id ∈ ids → (id.(dvid_machine_id) ∉ gaps).
Proof.
  intros gaps ids. unfold gaps, ids.
  unfold VolumeSnapshot_try_from_parts, VolumeSnapshot_validate. simpl. rewrite !NoDup_app.
  split.
  - rewrite is_ok_true. intros (s & Hs).
    apply result_bind_Ok in Hs as ([] & Hs & _).
    apply result_bind_Ok in Hs as (i1 & (N1 & _ & E1)%try_fold_insert_fresh_inv & Hs).
    apply result_bind_Ok in Hs as (i2 & (N2 & F2 & E2)%try_fold_insert_fresh_inv & Hs).
    apply result_bind_Ok in Hs as (g1 & (N3 & _ & E3)%try_fold_insert_fresh_inv & Hs).
    apply result_bind_Ok in Hs as (g2 & (N4 & F4 & E4)%try_fold_insert_fresh_inv & Hs).
    destruct (List.find _ i2) as [|] eqn:Hf; [done|].
    setoid_rewrite elem_of_nil in E1. setoid_rewrite elem_of_nil in E3.
    split_and!; try done.
    + intros id Hid (y & -> & Hy)%list_elem_of_fmap. eapply F2; [done|]. apply E1. by left.
    + intros m Hm Hom. apply (F4 m Hom). apply E3. by left.
    + rewrite map_id in N4. done.
    + intros id Hid Hgap. rewrite find_None_elem in Hf.
      specialize (Hf id). rewrite bool_decide_eq_false in Hf.
      rewrite elem_of_app in Hid. rewrite elem_of_app in Hgap. apply Hf.
      * apply E2. rewrite E1. naive_solver.
      * apply E4. rewrite map_id, E3. naive_solver.
  - intros ((N1 & D1 & N2) & (N3 & D2 & N4) & Hgap).
    destruct (try_fold_insert_fresh dv_id RepeatedObservation obs []) as (i1 & -> & E1);
      [done|set_solver|]. simpl.
    destruct (try_fold_insert_fresh vof_id RepeatedEvidence nf i1) as (i2 & -> & E2); [done| |].
    { intros x Hx. rewrite E1. intros [Hin|Hin]; [|set_solver].
      eapply D1; [done|]. by apply list_elem_of_fmap_2. }
    simpl.
    destruct (try_fold_insert_fresh mf_machine_id RepeatedMachineFailure mf [])
      as (g1 & -> & E3); [done|set_solver|]. simpl.
    destruct (try_fold_insert_fresh id RepeatedGap om g1) as (g2 & -> & E4).
    { by rewrite map_id. }
    { intros x Hx. rewrite E3. intros [Hin|Hin]; [|set_solver]. by eapply D2. }
    simpl. destruct (List.find _ i2) as [vid|] eqn:Hf; [|done].
    apply find_Some_elem in Hf as [Hid Hg]. apply bool_decide_eq_true in Hg.
    exfalso. apply (Hgap vid).
    + apply elem_of_app. rewrite E2, E1 in Hid. set_solver.
    + apply elem_of_app. rewrite E4, map_id, E3 in Hg. set_solver.
Qed.

(** ** The applied Services are the least closed selection *)

(** A Service is applied when it is selected, or required by an applied one; only
    Services of the target count. *)
Inductive applied (intent : DeployIntent) : ServiceName → Prop :=
| applied_selected n :
    n ∈ map attempt_name intent.(in_options).(selected) → n ∈ target_names intent →
    applied intent n
| applied_dependency n d :
    applied intent n → d ∈ deps_of intent n → d ∈ target_names intent → applied intent d.

Section Applied.
Context (intent : DeployIntent) (present : bset ServiceName).
Implicit Types (included : bset ServiceName) (pending : list ServiceName).

Abbreviation pushed name :=
  (List.filter (λ d, bool_decide (d ∈ present)) (deps_of intent name)) (only parsing).

(** Dependencies that may still be pushed. *)
Definition unpushed {V} (deps : bmap ServiceName (list V)) included : nat :=
  length (concat (bvalues (List.filter (λ kv, negb (bool_decide (kv.1 ∈ included))) deps))).

Lemma unpushed_insert {V} (deps : bmap ServiceName (list V)) name included :
  name ∉ included →
  length (default [] (bget deps name)) + unpushed deps (bset_insert name included)
  ≤ unpushed deps included.
Proof.
  intros Hn. unfold unpushed. induction deps as [|[k ds] deps IH]; simpl; [lia|].
  destruct (decide (k = name)) as [->|Hk]; simpl.
  - rewrite bool_decide_eq_true_2 by (apply elem_of_bset_insert; by left).
    rewrite (bool_decide_eq_false_2 (name ∈ included)) by done. simpl. rewrite length_app.
    enough (unpushed deps (bset_insert name included) ≤ unpushed deps included)
      by (unfold unpushed in *; lia).
    unfold unpushed in *. destruct (bget deps name) in IH; simpl in IH; lia.
  - rewrite (bool_decide_ext (k ∈ bset_insert name included) (k ∈ included))
      by (rewrite elem_of_bset_insert; naive_solver).
    case_bool_decide; simpl; [done|]. rewrite !length_app. lia.
Qed.

Lemma pushed_length name : length (pushed name) ≤ length (default [] (bget intent.(in_dependencies) name)).
Proof.
  unfold deps_of. rewrite <-(length_map dep_service). apply List.filter_length_le.
Qed.

Definition closed_with included pending : Prop :=
  ∀ n d, n ∈ included → d ∈ deps_of intent n → d ∈ present → d ∈ included ∨ d ∈ pending.

Lemma applied_loop_closed fuel pending included :
  length pending + unpushed intent.(in_dependencies) included < fuel →
  closed_with included pending →
  let res := applied_loop intent present fuel pending included in
  (∀ n, n ∈ included ∨ n ∈ pending → n ∈ res) ∧ closed_with res [].
Proof.
  revert pending included. induction fuel as [|fuel IH]; intros pending included Hfuel Hclosed;
    [lia|]. destruct pending as [|name pending]; simpl.
  - split; [set_solver|done].
  - simpl in Hfuel. case_bool_decide as Hin.
    + destruct (IH pending included) as [Hsub Hcl]; [lia| |].
      * intros n d Hn Hd Hp. destruct (Hclosed n d Hn Hd Hp); set_solver.
      * split; [|done]. intros n Hn. apply Hsub. set_solver.
    + destruct (IH (rev (pushed name) ++ pending) (bset_insert name included)) as [Hsub Hcl].
      * rewrite length_app, length_rev. pose proof (pushed_length name).
        pose proof (unpushed_insert intent.(in_dependencies) name included Hin). lia.
      * intros n d [->|Hn]%elem_of_bset_insert Hd Hp.
        -- right. apply elem_of_app. left. apply list_elem_of_In. rewrite <-in_rev.
           apply list_elem_of_In, elem_of_filterb. by rewrite bool_decide_eq_true.
        -- rewrite elem_of_bset_insert, elem_of_app.
           destruct (Hclosed n d Hn Hd Hp); [naive_solver|]. set_solver.
      * split; [|done]. intros n Hn. apply Hsub. rewrite elem_of_bset_insert, elem_of_app.
        set_solver.
Qed.

Lemma applied_loop_sound (P : ServiceName → Prop) fuel pending included :
  (∀ n d, P n → d ∈ deps_of intent n → d ∈ present → P d) →
  (∀ n, n ∈ included ∨ n ∈ pending → P n) → bset_wf included →
  let res := applied_loop intent present fuel pending included in
  (∀ n, n ∈ res → P n) ∧ bset_wf res.
Proof.
  intros HP. revert pending included.
  induction fuel as [|fuel IH]; intros pending included Hall Hwf; simpl; [naive_solver|].
  destruct pending as [|name pending]; [naive_solver|]. case_bool_decide as Hin.
  - apply IH; [|done]. intros n Hn. apply Hall. set_solver.
  - apply IH; [|by apply bset_insert_wf].
    intros n [[->|Hn]%elem_of_bset_insert|[Hn|Hn]%elem_of_app]; [apply Hall; set_solver| | |].
    + apply Hall; set_solver.
    + apply list_elem_of_In in Hn. rewrite <-in_rev in Hn.
      apply list_elem_of_In, elem_of_filterb in Hn as [Hd Hp%bool_decide_eq_true].
      apply (HP name); [apply Hall; set_solver|done|done].
    + apply Hall; set_solver.
Qed.
End Applied.

Lemma unpushed_nil {V} (deps : bmap ServiceName (list V)) : unpushed deps [] = length (concat (bvalues deps)).
Proof.
  unfold unpushed. rewrite List.forallb_filter_id; [done|].
  apply forallb_elem. intros kv _. rewrite bool_decide_eq_false_2; [done|set_solver].
Qed.

(** a Deploy applies exactly the selected Services of its target and everything they require
    transitively within it; with no selection it applies the whole target. The work list
    always runs to its end. *)
Theorem applied_names_least intent n :
  n ∈ applied_names intent ↔
  match intent.(in_options).(selected) with
  | [] => n ∈ target_names intent
  | _ => applied intent n
  end.
Proof.
  unfold applied_names. destruct (intent.(in_options).(selected)) as [|a attempts] eqn:Hsel.
  { apply elem_of_bset_of. }
  rewrite <-Hsel. set (present := bset_of _). set (pending := rev _).
  assert (Hpending : ∀ m, m ∈ pending ↔
    m ∈ map attempt_name intent.(in_options).(selected) ∧ m ∈ target_names intent).
  { intros m. unfold pending. rewrite list_elem_of_In, <-in_rev, <-list_elem_of_In.
    rewrite elem_of_filterb, bool_decide_eq_true. unfold present. by rewrite elem_of_bset_of. }
  split.
  - intros Hn. eapply (applied_loop_sound intent present (applied intent)); [| | |exact Hn].
    + intros m d Hm Hd Hp. unfold present in Hp. rewrite elem_of_bset_of in Hp.
      by eapply applied_dependency.
    + intros m [Hm|Hm]; [set_solver|]. apply Hpending in Hm as [??]. by apply applied_selected.
    + constructor.
  - destruct (applied_loop_closed intent present (applied_fuel intent pending) pending [])
      as [Hsub Hcl].
    { rewrite unpushed_nil. unfold applied_fuel. lia. }
    { intros m d Hm. set_solver. }
    induction 1 as [m Hm Ht|m d Hm IH Hd Ht].
    + apply Hsub. right. by apply Hpending.
    + destruct (Hcl m d IH Hd); [by apply elem_of_bset_of|done|set_solver].
Qed.

Lemma applied_names_wf intent : bset_wf (applied_names intent).
Proof.
  unfold applied_names. destruct (intent.(in_options).(selected)) as [|a attempts].
  - apply bset_of_wf.
  - eapply (applied_loop_sound intent _ (λ _, True)); [done|done|constructor].
Qed.

Lemma applied_names_target intent n : n ∈ applied_names intent → n ∈ target_names intent.
Proof.
  unfold applied_names. destruct (intent.(in_options).(selected)) as [|a attempts] eqn:Hsel.
  { apply elem_of_bset_of. }
  intros Hn. eapply (applied_loop_sound intent _ (λ n, n ∈ target_names intent));
    [| | |exact Hn].
  - intros m d _ _ Hp. by rewrite elem_of_bset_of in Hp.
  - intros m [Hm|Hm]; [set_solver|]. apply list_elem_of_In in Hm. rewrite <-in_rev in Hm.
    apply list_elem_of_In, elem_of_filterb in Hm as [_ Hp%bool_decide_eq_true].
    by rewrite elem_of_bset_of in Hp.
  - constructor.
Qed.

(** ** Dependency order *)

(** Every dependency in [included] comes before the Service that requires it. *)
Definition dependencies_first (intent : DeployIntent) (included : bset ServiceName)
    (specs : list RequestedServiceSpec) : Prop :=
  ∀ l1 s l2, specs = l1 ++ s :: l2 →
  ∀ d, d ∈ deps_of intent s.(rq_name) → d ∈ included → d ∈ map rq_name l1.

Definition requires (intent : DeployIntent) (included : bset ServiceName)
    (n d : ServiceName) : Prop :=
  n ∈ included ∧ d ∈ deps_of intent n ∧ d ∈ included.

Lemma dependencies_first_snoc intent included specs s :
  dependencies_first intent included specs →
  (∀ d, d ∈ deps_of intent s.(rq_name) → d ∈ included → d ∈ map rq_name specs) →
  dependencies_first intent included (specs ++ [s]).
Proof.
  intros Hf Hs l1 x l2 Heq d Hd Hin. destruct l2 as [|y l2 _] using rev_ind.
  - apply app_inj_tail in Heq as [-> ->]. auto.
  - rewrite app_comm_cons, app_assoc in Heq. apply app_inj_tail in Heq as [-> ->]. eauto.
Qed.

Lemma bset_insert_length `{OrdLaws K} (k : K) s :
  k ∉ s → length (bset_insert k s) = S (length s).
Proof.
  induction s as [|x s IH]; simpl; intros Hk; [done|].
  apply not_elem_of_cons in Hk as [Hne Hk].
  destruct (cmp k x) eqn:Hc; simpl; [by apply cmp_Eq in Hc|done|]. by rewrite IH.
Qed.

Section Ordering.
Context (intent : DeployIntent) (included : bset ServiceName).
Context (by_name : bmap ServiceName RequestedServiceSpec).
Context (Hby : ∀ n, n ∈ included → ∃ s, bget by_name n = Some s ∧ s.(rq_name) = n).

Record visit_inv (st : VisitState) : Prop := {
  vi_visiting : bset_wf st.(visiting) ∧ ∀ n, n ∈ st.(visiting) → n ∈ included;
  vi_visited : ∀ n, n ∈ st.(visited) ↔ n ∈ map rq_name st.(ordered);
  vi_included : ∀ n, n ∈ st.(visited) → n ∈ included;
  vi_nodup : NoDup (map rq_name st.(ordered));
  vi_disjoint : ∀ n, n ∈ st.(visiting) → n ∉ st.(visited);
  vi_first : dependencies_first intent included st.(ordered);
  vi_specs : ∀ s, s ∈ st.(ordered) → bget by_name s.(rq_name) = Some s
}.

(** How a visit may end, and what it leaves behind. *)
Definition visit_outcome (st : VisitState) (P : ServiceName → Prop) (r : Planning VisitState)
    : Prop :=
  match r with
  | Ok st' =>
      visit_inv st' ∧ st'.(visiting) = st.(visiting) ∧
      (∀ n, n ∈ st.(visited) → n ∈ st'.(visited)) ∧ (∀ n, P n → n ∈ st'.(visited))
  | Err (Fails e) => ∃ c, e = DependencyCycle c ∧ tc (requires intent included) c c
  | Err Panics => False
  end.

Lemma fold_outcome {A} (key : A → ServiceName) f l st :
  visit_inv st →
  (∀ x st', x ∈ l → visit_inv st' → st'.(visiting) = st.(visiting) →
     visit_outcome st' (λ n, n = key x ∧ n ∈ included) (f st' x)) →
  visit_outcome st (λ n, n ∈ map key l ∧ n ∈ included) (try_fold f l st).
Proof.
  revert st. induction l as [|x l IH]; intros st Hinv Hf; simpl.
  { split_and!; [done|done|done|set_solver]. }
  pose proof (Hf x st ltac:(set_solver) Hinv eq_refl) as Hx.
  destruct (f st x) as [st1|[e|]]; simpl in *; [|done|done].
  destruct Hx as (Hinv1 & Hv1 & Hmono1 & Hdone1).
  specialize (IH st1 Hinv1). unfold visit_outcome in *.
  destruct (try_fold f l st1) as [st2|[e|]].
  - destruct IH as (Hinv2 & Hv2 & Hmono2 & Hdone2).
    { intros y st' Hy Hi Hv. apply Hf; [set_solver|done|]. by rewrite Hv. }
    split_and!; [done|by rewrite Hv2|by auto|].
    intros n [[->|Hn]%elem_of_cons Hinc]; auto.
  - apply IH. intros y st' Hy Hi Hv. apply Hf; [set_solver|done|]. by rewrite Hv.
  - apply IH. intros y st' Hy Hi Hv. apply Hf; [set_solver|done|]. by rewrite Hv.
Qed.

Lemma visit_inv_enter st n :
  visit_inv st → n ∈ included → n ∉ st.(visited) →
  visit_inv {| visiting := bset_insert n st.(visiting); visited := st.(visited);
               ordered := st.(ordered) |}.
Proof.
  intros [[Hwf Hsub] ? ? ? Hdis ? ?] Hn Hv. split; simpl; try done.
  - split; [by apply bset_insert_wf|]. intros m [->|Hm]%elem_of_bset_insert; auto.
  - intros m [->|Hm]%elem_of_bset_insert; auto.
Qed.

Lemma visit_inv_leave st n s :
  visit_inv st → n ∈ included → n ∈ st.(visiting) →
  bget by_name n = Some s → s.(rq_name) = n →
  (∀ d, d ∈ deps_of intent n → d ∈ included → d ∈ st.(visited)) →
  visit_inv {| visiting := bset_remove n st.(visiting); visited := bset_insert n st.(visited);
               ordered := st.(ordered) ++ [s] |}.
Proof.
  intros [[Hwf Hsub] Hvis Hinc Hnd Hdis Hfirst Hspecs] Hn Hin Hs Hname Hdeps.
  split; simpl; rewrite ?map_app; simpl.
  - split.
    + unfold bset_remove, bset_wf in *. clear -Hwf. induction Hwf as [|x xs Hxs IH Hx]; simpl;
        [constructor|]. case_bool_decide; simpl; [done|]. constructor; [done|].
      rewrite Forall_forall in *. intros y [Hy _]%elem_of_filterb. auto.
    + intros m [Hm _]%elem_of_filterb. auto.
  - intros m. rewrite elem_of_bset_insert, elem_of_app, list_elem_of_singleton, Hvis, Hname.
    naive_solver.
  - intros m [->|Hm]%elem_of_bset_insert; auto.
  - apply NoDup_app. split_and!; [done| |by apply NoDup_singleton].
    intros m Hm ->%list_elem_of_singleton. rewrite Hname in Hm. apply Hvis in Hm.
    by apply (Hdis n).
  - intros m [Hm Hne]%elem_of_filterb [->|Hm']%elem_of_bset_insert.
    + by rewrite bool_decide_eq_true_2 in Hne.
    + by apply (Hdis m).
  - apply dependencies_first_snoc; [done|]. rewrite Hname. intros d Hd Hdi. apply Hvis. auto.
  - intros x [Hx| ->%list_elem_of_singleton]%elem_of_app; [auto|]. by rewrite Hname.
Qed.

Lemma visit_spec fuel n st :
  visit_inv st → n ∈ included → (∀ v, v ∈ st.(visiting) → tc (requires intent included) v n) →
  length included < fuel + length st.(visiting) →
  visit_outcome st (λ m, m = n ∧ m ∈ included) (visit intent included by_name fuel n st).
Proof.
  revert n st. induction fuel as [|fuel IH]; intros n st Hinv Hn Hpath Hfuel.
  { exfalso. destruct Hinv as [[Hwf Hsub] _ _ _ _ _ _].
    assert (length st.(visiting) ≤ length included); [|lia].
    apply submseteq_length, NoDup_submseteq; [by apply bset_wf_NoDup|done]. }
  simpl. case_bool_decide as Hvd.
  { split_and!; [done|done|done|]. by intros m [-> _]. }
  case_bool_decide as Hvg.
  { exists n. auto. }
  destruct (Hby n Hn) as (s & Hs & Hname).
  set (st0 := {| visiting := bset_insert n st.(visiting); visited := st.(visited);
                 ordered := st.(ordered) |}).
  assert (Hinv0 : visit_inv st0) by (by apply visit_inv_enter).
  assert (Hstep : ∀ d st', d ∈ deps_of intent n → visit_inv st' →
    st'.(visiting) = st0.(visiting) →
    visit_outcome st' (λ m, m = d ∧ m ∈ included)
      (if bool_decide (d ∈ included) then visit intent included by_name fuel d st' else Ok st')).
  { intros d st' Hd Hi Hv. case_bool_decide as Hdi.
    - apply IH; [done|done| |rewrite Hv; simpl; rewrite bset_insert_length by done; lia].
      rewrite Hv. intros v [->|Hvv]%elem_of_bset_insert; [by apply tc_once|].
      eapply tc_r; [by apply Hpath|done].
    - split_and!; [done|done|done|by intros m [-> ?]]. }
  pose proof (fold_outcome (λ d, d) _ (deps_of intent n) st0 Hinv0 Hstep) as Hfold.
  destruct (try_fold _ (deps_of intent n) st0) as [st1|[e|]]; simpl in *; [|done|done].
  destruct Hfold as (Hinv1 & Hv1 & Hmono & Hdone).
  rewrite Hs. simpl. split_and!.
  - eapply visit_inv_leave; try done.
    + rewrite Hv1. simpl. apply elem_of_bset_insert. by left.
    + intros d Hd Hdi. apply Hdone. by rewrite map_id.
  - rewrite Hv1. simpl. by apply bset_remove_insert.
  - intros m Hm. apply elem_of_bset_insert. right. by apply Hmono.
  - intros m [-> _]. apply elem_of_bset_insert. by left.
Qed.
End Ordering.

Lemma admit_names_spec l m :
  match try_fold admit_name l m with
  | Ok m' =>
      NoDup (map rq_name l) ∧ (∀ s, s ∈ l → bget m s.(rq_name) = None) ∧
      ∀ n, bget m' n = match List.find (λ s, bool_decide (s.(rq_name) = n)) l with
                       | Some s => Some s
                       | None => bget m n
                       end
  | Err (Fails (DuplicateTargetService n)) =>
      ¬ (NoDup (map rq_name l) ∧ ∀ s, s ∈ l → bget m s.(rq_name) = None)
  | Err _ => False
  end.
Proof.
  revert m. induction l as [|x l IH]; intros m; simpl.
  { split_and!; [constructor|set_solver|done]. }
  unfold admit_name at 1. unfold bcontains. destruct (bget m x.(rq_name)) as [s|] eqn:Hg; simpl.
  { intros [_ Hall]. specialize (Hall x ltac:(set_solver)). congruence. }
  specialize (IH (binsert x.(rq_name) x m)).
  destruct (try_fold admit_name l _) as [m'|[[]|]]; try done.
  - destruct IH as (Hnd & Hnone & Hget).
    assert (Hx : x.(rq_name) ∉ map rq_name l).
    { intros (y & Hy & Hin)%list_elem_of_fmap. specialize (Hnone y Hin).
      by rewrite <-Hy, bget_binsert_eq in Hnone. }
    split_and!; [by constructor| |].
    + intros s [->|Hs]%elem_of_cons; [done|]. specialize (Hnone s Hs).
      rewrite bget_binsert_ne in Hnone; [done|]. intros Heq. apply Hx. rewrite Heq.
      by apply list_elem_of_fmap_2.
    + intros n. rewrite Hget, bget_binsert. case_bool_decide as Hn.
      * subst n. destruct (List.find _ l) as [s|] eqn:Hf; [|by rewrite decide_True].
        apply find_Some_elem in Hf as [Hs Heq%bool_decide_eq_true]. exfalso. apply Hx.
        rewrite <-Heq. by apply list_elem_of_fmap_2.
      * by destruct (List.find _ l); [|rewrite decide_False].
  - intros [Hnd Hall]. apply IH. apply NoDup_cons in Hnd as [Hx Hnd]. split; [done|].
    intros s Hs. rewrite bget_binsert_ne; [apply Hall; set_solver|].
    intros Heq. apply Hx. rewrite Heq. by apply list_elem_of_fmap_2.
Qed.

Lemma dependencies_first_acyclic intent included specs :
  dependencies_first intent included specs → map rq_name specs ≡ₚ included →
  NoDup included → ∀ n, ¬ tc (requires intent included) n n.
Proof.
  intros Hfirst Hperm Hnd.
  assert (Hidx : ∀ n d, tc (requires intent included) n d → ∀ i, map rq_name specs !! i = Some n →
    ∃ j, j < i ∧ map rq_name specs !! j = Some d).
  { assert (Hone : ∀ n d, requires intent included n d → ∀ i, map rq_name specs !! i = Some n →
      ∃ j, j < i ∧ map rq_name specs !! j = Some d).
    { intros n d (Hn & Hd & Hdi) i Hi. rewrite list_lookup_fmap in Hi.
      apply fmap_Some in Hi as (s & Hs & ->).
      specialize (Hfirst (take i specs) s (drop (S i) specs)
                    ltac:(symmetry; by apply take_drop_middle) d Hd Hdi).
      rewrite <-firstn_map in Hfirst. apply list_elem_of_lookup in Hfirst as (j & Hj).
      apply lookup_take_Some in Hj as [Hj Hlt]. by exists j. }
    intros n d Htc. induction Htc as [n d Hr|n e d Hr Htc IH]; [by apply Hone|].
    intros i Hi. destruct (Hone n e Hr i Hi) as (k & Hk & Hke).
    destruct (IH k Hke) as (j & Hj & Hjd). exists j. split; [lia|done]. }
  intros n Htc. assert (Hin : n ∈ included) by (by inversion Htc as [? ? [? _]|? ? ? [? _]]).
  rewrite <-Hperm in Hin. apply list_elem_of_lookup in Hin as (i & Hi).
  destruct (Hidx n n Htc i Hi) as (j & Hj & Hjn).
  rewrite <-Hperm in Hnd. pose proof (NoDup_lookup _ _ _ _ Hnd Hi Hjn). lia.
Qed.

(** What ordering the apply-set yields on every path. *)
Lemma order_included_spec intent :
  let included := applied_names intent in
  match order_included intent included with
  | Ok specs =>
      map rq_name specs ≡ₚ included ∧ (∀ s, s ∈ specs → s ∈ intent.(in_target)) ∧
      dependencies_first intent included specs ∧
      NoDup (target_names intent) ∧ ∀ n, ¬ tc (requires intent included) n n
  | Err (Fails (DuplicateTargetService n)) => ¬ NoDup (target_names intent)
  | Err (Fails (DependencyCycle n)) => tc (requires intent included) n n
  | Err _ => False
  end.
Proof.
  intros included. unfold order_included.
  pose proof (admit_names_spec intent.(in_target) []) as Hnames.
  destruct (try_fold admit_name intent.(in_target) []) as [by_name|[[]|]]; try done; simpl.
  2: { intros Hnd. apply Hnames. split; [done|]. done. }
  destruct Hnames as (Hnd & _ & Hget).
  assert (Hby : ∀ n, n ∈ included → ∃ s, bget by_name n = Some s ∧ s.(rq_name) = n).
  { intros n Hn%applied_names_target. rewrite Hget.
    destruct (List.find _ _) as [s|] eqn:Hf.
    - apply find_Some_elem in Hf as [_ Heq%bool_decide_eq_true]. by exists s.
    - rewrite find_None_elem in Hf. apply list_elem_of_fmap in Hn as (s & -> & Hs).
      specialize (Hf s Hs). by rewrite bool_decide_eq_true_2 in Hf. }
  set (st0 := {| visiting := []; visited := []; ordered := [] |}).
  assert (Hinv0 : visit_inv intent included by_name st0).
  { split; simpl; try set_solver; [split; [constructor|set_solver]|constructor|].
    intros [|? ?] ? ?; done. }
  assert (Hstep : ∀ x st', x ∈ intent.(in_target) → visit_inv intent included by_name st' →
    st'.(visiting) = st0.(visiting) →
    visit_outcome intent included by_name st' (λ n, n = x.(rq_name) ∧ n ∈ included)
      (if bool_decide (x.(rq_name) ∈ included)
       then visit intent included by_name (S (length included)) x.(rq_name) st' else Ok st')).
  { intros x st' Hx Hi Hv. case_bool_decide as Hdi.
    - apply visit_spec; [done|done|done|rewrite Hv; set_solver|rewrite Hv; simpl; lia].
    - split_and!; [done|done|done|by intros m [-> ?]]. }
  pose proof (fold_outcome intent included by_name Hby rq_name _ intent.(in_target) st0 Hinv0 Hstep)
    as Hfold.
  destruct (try_fold _ _ st0) as [st|[e|]]; simpl in *; [|by destruct Hfold as (c & -> & Hc)|done].
  destruct Hfold as (Hinv & _ & _ & Hdone).
  destruct Hinv as [_ Hvis Hinc Hndo _ Hfirst Hspecs].
  assert (Hperm : map rq_name st.(ordered) ≡ₚ included).
  { apply NoDup_Permutation; [done|apply bset_wf_NoDup, applied_names_wf|].
    intros n. rewrite <-Hvis. split; [auto|]. intros Hn. apply Hdone. split; [|done].
    by apply applied_names_target. }
  split_and!; [done| |done|done|].
  - intros s Hs. apply Hspecs in Hs. rewrite Hget in Hs.
    destruct (List.find _ _) as [s'|] eqn:Hf; simplify_eq.
    by apply find_Some_elem in Hf as [? _].
  - eapply dependencies_first_acyclic; [done|done|]. apply bset_wf_NoDup, applied_names_wf.
Qed.

(** the apply-set is ordered so that every dependency comes before the Service that
    requires it, each applied Service exactly once; ordering fails only on a repeated target
    Service or on a real dependency cycle, and never otherwise. *)
Theorem order_included_topological intent :
  let included := applied_names intent in
  match order_included intent included with
  | Ok specs =>
      map rq_name specs ≡ₚ included ∧ (∀ s, s ∈ specs → s ∈ intent.(in_target)) ∧
      dependencies_first intent included specs ∧
      NoDup (target_names intent) ∧ ∀ n, ¬ tc (requires intent included) n n
  | Err (Fails (DuplicateTargetService n)) => ¬ NoDup (target_names intent)
  | Err (Fails (DependencyCycle n)) => tc (requires intent included) n n
  | Err _ => False
  end.
Proof. apply order_included_spec. Qed.

(** ** Hostname claims *)

Lemma claim_fold_spec owners claims claimed :
  match try_fold (claim_requested owners) claims claimed with
  | Ok _ =>
      ∀ q h, (q, h) ∈ claims →
        match bget claimed h with
        | Some o => o = q
        | None => ∀ o, bget owners h = Some o → o = q
        end ∧ ∀ q', (q', h) ∈ claims → q' = q
  | Err (Fails (HostnameConflict h o)) =>
      ∃ q, (q, h) ∈ claims ∧ o ≠ q ∧
        (bget claimed h = Some o ∨ bget owners h = Some o ∨ (o, h) ∈ claims)
  | Err _ => False
  end.
Proof.
  revert claimed. induction claims as [|[q h] claims IH]; intros claimed; simpl; [set_solver|].
  unfold claim_requested at 1.
  assert (Hok : (∀ o, match bget claimed h with Some o => Some o | None => bget owners h end
                      = Some o → o = q) →
    match try_fold (claim_requested owners) claims (bor_insert h q claimed) with
    | Ok _ =>
        ∀ q0 h0, (q0, h0) ∈ (q, h) :: claims →
          match bget claimed h0 with
          | Some o => o = q0
          | None => ∀ o, bget owners h0 = Some o → o = q0
          end ∧ ∀ q', (q', h0) ∈ (q, h) :: claims → q' = q0
    | Err (Fails (HostnameConflict h0 o)) =>
        ∃ q0, (q0, h0) ∈ (q, h) :: claims ∧ o ≠ q0 ∧
          (bget claimed h0 = Some o ∨ bget owners h0 = Some o ∨ (o, h0) ∈ (q, h) :: claims)
    | Err _ => False
    end).
  { intros Hcur. specialize (IH (bor_insert h q claimed)).
    destruct (try_fold _ claims _) as [res|[[]|]]; try done.
    - assert (Hown : ∀ q0, (q0, h) ∈ claims → q0 = q).
      { intros q0 Hin. destruct (IH q0 h Hin) as [Hc _].
        rewrite bget_bor_insert, decide_True in Hc by done.
        destruct (bget claimed h) as [o|]; simpl in Hc; [|done]. rewrite <-Hc. by apply Hcur. }
      intros q0 h0 Hin. destruct (decide (h0 = h)) as [->|Hne].
      + assert (q0 = q) as -> by (set_solver).
        split; [|set_solver]. destruct (bget claimed h); naive_solver.
      + apply elem_of_cons in Hin as [?|Hin]; [naive_solver|].
        destruct (IH q0 h0 Hin) as [Hc Hall]. rewrite bget_bor_insert, decide_False in Hc by done.
        split; [done|]. intros q' [?|Hq]%elem_of_cons; [naive_solver|]. auto.
    - destruct IH as (q0 & Hin & Hne & Hsrc). exists q0. split; [set_solver|]. split; [done|].
      destruct Hsrc as [Hc|[Hc|Hc]]; [|by auto|right; right; set_solver].
      rewrite bget_bor_insert in Hc. case_decide as Hh; [subst|by left].
      destruct (bget claimed hostname) as [o|] eqn:Hg; simpl in Hc; simplify_eq;
        [by left|right; right; set_solver]. }
  destruct (bget claimed h) as [o|] eqn:Hg.
  - case_bool_decide as Ho; simpl.
    + apply Hok. naive_solver.
    + exists q. split_and!; [set_solver|done|by left].
  - destruct (bget owners h) as [o|] eqn:Ho.
    + case_bool_decide as Hq; simpl; [apply Hok; naive_solver|].
      exists q. split_and!; [set_solver|done|by auto].
    + apply Hok. naive_solver.
Qed.

Lemma elem_of_concat_map {A B} (f : A → list B) l y :
  y ∈ concat (map f l) ↔ ∃ x, x ∈ l ∧ y ∈ f x.
Proof.
  rewrite list_elem_of_In, in_concat. split.
  - intros (ys & (x & <- & Hx)%in_map_iff & Hy). exists x. by rewrite !list_elem_of_In.
  - intros (x & Hx & Hy). exists (f x). rewrite !list_elem_of_In in *. split; [|done].
    by apply in_map.
Qed.

Lemma elem_of_requested_claims ns requested q h :
  (q, h) ∈ requested_claims ns requested ↔
  ∃ s, s ∈ requested ∧ q = QualifiedService_new ns s.(rq_name) ∧
       h ∈ explicit_ingress_hosts s.(rq_ports).
Proof.
  unfold requested_claims. rewrite elem_of_concat_map. setoid_rewrite list_elem_of_fmap.
  split; [intros (s & Hs & h' & [= -> ->] & Hh)|intros (s & Hs & -> & Hh)]; eauto 6.
Qed.

(** hostname admission is exact: it succeeds when every requested hostname is owned, among
    the Services that are not retiring, by nobody or by its publisher, and is requested by one
    Service only; otherwise it names a hostname and an owner that really disagree. *)
Theorem hostname_conflicts_exact ns requested snapshot retiring :
  let owners :=
    hostname_owners
      (List.filter (λ c, negb (bool_decide (identity_of c ∈ bset_of retiring)))
         snapshot.(snap_containers)) in
  let publishes s h := s ∈ requested ∧ h ∈ explicit_ingress_hosts s.(rq_ports) in
  match reject_hostname_conflicts ns requested snapshot retiring with
  | Ok _ =>
      ∀ s h, publishes s h →
        (∀ o, bget owners h = Some o → o = QualifiedService_new ns s.(rq_name)) ∧
        (∀ s', publishes s' h → s'.(rq_name) = s.(rq_name))
  | Err (Fails (HostnameConflict h o)) =>
      ∃ s, publishes s h ∧ o ≠ QualifiedService_new ns s.(rq_name) ∧
        (bget owners h = Some o ∨
         ∃ s', publishes s' h ∧ o = QualifiedService_new ns s'.(rq_name))
  | Err _ => False
  end.
Proof.
  intros owners publishes. unfold reject_hostname_conflicts. fold owners.
  pose proof (claim_fold_spec owners (requested_claims ns requested) []) as Hspec.
  destruct (try_fold (claim_requested owners) _ []) as [claimed|[[]|]]; try done; simpl in *.
  - intros s h [Hs Hh].
    destruct (Hspec (QualifiedService_new ns s.(rq_name)) h) as [Hown Hall].
    { apply elem_of_requested_claims. eauto. }
    split; [done|]. intros s' [Hs' Hh'].
    assert (QualifiedService_new ns s'.(rq_name) = QualifiedService_new ns s.(rq_name))
      as [= ?]; [|done].
    apply Hall, elem_of_requested_claims. eauto.
  - destruct Hspec as (q & (s & Hs & -> & Hh)%elem_of_requested_claims & Hne & Hsrc).
    exists s. split_and!; [done|done|]. destruct Hsrc as [?|[?|Hc]]; [done|by left|].
    right. apply elem_of_requested_claims in Hc as (s' & Hs' & -> & Hh'). by exists s'.
Qed.

(** ** The shuffle is a permutation *)

Lemma insert_perm {A} (l : list A) i x y : l !! i = Some x → x :: <[i := y]> l ≡ₚ y :: l.
Proof.
  revert i. induction l as [|z l IH]; intros [|i] Hi; simpl in *; simplify_eq;
    [apply Permutation_swap|].
  rewrite Permutation_swap, (IH i Hi). apply Permutation_swap.
Qed.

Lemma slice_swap_perm {A} i j (l : list A) :
  i < length l → j < length l → ∃ l', slice_swap i j l = Some l' ∧ l' ≡ₚ l.
Proof.
  intros [x Hx]%lookup_lt_is_Some_2 [y Hy]%lookup_lt_is_Some_2.
  unfold slice_swap. rewrite Hx, Hy. simpl. eexists. split; [done|].
  apply (Permutation_cons_inv (a := x)).
  assert (Hi : <[j := x]> l !! i = Some x).
  { destruct (decide (i = j)) as [->|Hne]; [|by rewrite list_lookup_insert_ne].
    apply list_lookup_insert_eq. eauto using lookup_lt_Some. }
  rewrite (insert_perm _ i x y Hi). by apply insert_perm.
Qed.

Lemma shuffle_permutation {A} (values : list A) state :
  ∃ out, shuffle values state = Some out ∧ out ≡ₚ values.
Proof.
  unfold shuffle.
  assert (Hgen : ∀ upper (vs : list A) st, upper < length vs ∨ upper = 0 →
    ∃ out, shuffle_from upper vs st = Some out ∧ out ≡ₚ vs).
  { induction upper as [|upper IH]; intros vs st Hlt; simpl; [eauto|].
    set (st' := wrapping_add _ _). 
    destruct (slice_swap_perm (S upper) (N.to_nat (scramble st' mod N.of_nat (S upper + 1))) vs)
      as (vs' & Hs & Hp); [lia| |].
    { assert (scramble st' mod N.of_nat (S upper + 1) < N.of_nat (S upper + 1))%N
        by (apply N.mod_lt; lia). lia. }
    replace (N.of_nat (S upper + 1)) with (N.of_nat (S (S upper))) in Hs by lia.
    simpl in Hs |- *. rewrite Hs. simpl.
    destruct (IH vs' st') as (out & Ho & Hpo).
    { rewrite (Permutation_length Hp). lia. }
    exists out. split; [done|]. by rewrite Hpo. }
  apply Hgen. destruct values; simpl; [by right|left; lia].
Qed.
