(* ===== verification/Eligibility.v ===== *)
(** * Which Machines may host a Service

    The candidate filters of [ployz/src/deploy/planning.rs]: Machines observed
    down or refused by placement are never candidates, Machines whose storage
    evidence is missing block a Deploy only when nothing else is eligible, and
    the survivors are shuffled by the Deploy's seed. *)

From S2P Require Import Prelude BTree Strings Values Machines StorageCapacity Volumes.
From S2P Require Import ServiceGraph Spec Services Deploy.

Open Scope string_scope.
Open Scope list_scope.
Open Scope nat_scope.

(** [Iterator::filter] with a predicate that may return early. *)
Fixpoint try_filter {A E} (p : A → Result bool E) (l : list A) : Result (list A) E :=
  match l with
  | [] => Ok []
  | x :: l =>
      let? keep := p x in
      let? rest := try_filter p l in
      Ok (if keep then x :: rest else rest)
  end.

(** [Iterator::any] with a predicate that may return early. *)
Fixpoint try_any {A E} (p : A → Result bool E) (l : list A) : Result bool E :=
  match l with
  | [] => Ok false
  | x :: l => let? found := p x in if found then Ok true else try_any p l
  end.

Definition eligibility (requested : RequestedServiceSpec) (namespace : Namespace)
    (machine : MachineObservation) : Planning ServicePlacementEligibility :=
  expect (requested_eligibility_in_namespace requested namespace machine.(mo_machine)
            machine.(mo_storage)).

Definition not_down (machine : MachineObservation) : bool :=
  negb (bool_decide (machine.(mo_membership) = MembershipDown)).

(** The Machines [placement_error] found down, and those refusing the work. *)
Definition classify_refusal (requested : RequestedServiceSpec) (namespace : Namespace)
    (found : list MachineName * list MachineName) (machine : MachineObservation)
    : Planning (list MachineName * list MachineName) :=
  let '(down, refused) := found in
  let name := machine.(mo_machine).(machine_name) in
  if negb (not_down machine) then Ok (down ++ [name], refused)
  else
    let? e := eligibility requested namespace machine in
    match e with
    | Ineligible WorkNotAccepted => Ok (down, refused ++ [name])
    | _ => Ok (down, refused)
    end.

Definition placement_error (requested : RequestedServiceSpec) (namespace : Namespace)
    (snapshot : DeploySnapshot) : Planning PlanError :=
  match snapshot.(snap_machines) with
  | [] => Ok (no_eligible_machines [NoMachines])
  | machines =>
      let? matched :=
        try_filter (λ m, expect (machine_matches_placement m.(mo_machine)
                                   requested.(rq_placement))) machines in
      match matched with
      | [] => Ok (no_eligible_machines [UnknownPlacement requested.(rq_placement).(constraints)])
      | _ =>
          let? found := try_fold (classify_refusal requested namespace) matched ([], []) in
          let '(down, refused) := found in
          Ok (no_eligible_machines
                (match down with [] => [] | _ => [MachineDown down] end
                 ++ match refused with [] => [] | _ => [EliminatedWorkNotAccepted refused] end))
      end
  end.

Definition is_candidate (requested : RequestedServiceSpec) (namespace : Namespace)
    (machine : MachineObservation) : Planning bool :=
  let? e := eligibility requested namespace machine in
  Ok match e with
     | Ineligible PlacementMismatch | Ineligible WorkNotAccepted => false
     | _ => true
     end.

Definition placement_candidates (requested : RequestedServiceSpec) (namespace : Namespace)
    (snapshot : DeploySnapshot) : Planning (list MachineObservation) :=
  let? candidates :=
    try_filter (is_candidate requested namespace)
      (List.filter not_down snapshot.(snap_machines)) in
  match candidates with
  | [] => let? error := placement_error requested namespace snapshot in refuse error
  | _ => Ok candidates
  end.

Definition classify_candidate (requested : RequestedServiceSpec) (namespace : Namespace)
    (found : list MachineName * list MachineObservation) (machine : MachineObservation)
    : Planning (list MachineName * list MachineObservation) :=
  let '(unknown, machines) := found in
  let? e := eligibility requested namespace machine in
  Ok match e with
     | Eligible => (unknown, machines ++ [machine])
     | EligibilityUnknown _ => (unknown ++ [machine.(mo_machine).(machine_name)], machines)
     | Ineligible _ => (unknown, machines)
     end.

Definition eligible_machines (requested : RequestedServiceSpec) (namespace : Namespace)
    (snapshot : DeploySnapshot) (options : PlanOptions) : Planning (list MachineObservation) :=
  let? candidates := placement_candidates requested namespace snapshot in
  let? found := try_fold (classify_candidate requested namespace) candidates ([], []) in
  let '(unknown, machines) := found in
  match machines with
  | [] =>
      match unknown, requested.(rq_placement).(constraints), candidates with
      | _ :: _, _, _ => refuse (ProvisionedVolumeStorageUnknown unknown)
      | [], _ :: _, [only] =>
          refuse (ProvisionedVolumeStorageRequired only.(mo_machine).(machine_name))
      | _, _, _ => refuse ProvisionedVolumeStorageUnavailable
      end
  | _ =>
      expect (shuffle machines
                (placement_state options.(placement_seed) requested.(rq_name)))
  end.

(** Machines in the order of the Services, each warned of once. *)
Definition warn_once (warned : bset MachineId * list DeployWarning)
    (machine : MachineObservation) : bset MachineId * list DeployWarning :=
  let '(seen, warnings) := warned in
  let id := machine.(mo_machine).(machine_id) in
  if bool_decide (id ∈ seen) then warned
  else (bset_insert id seen, warnings ++ [StorageObservationUnknown id]).

Definition storage_eligibility_warnings (requested : list RequestedServiceSpec)
    (namespace : Namespace) (snapshot : DeploySnapshot) : Planning (list DeployWarning) :=
  let? unknown :=
    collect_result
      (λ spec,
         try_filter
           (λ machine,
              let? e := eligibility spec namespace machine in
              Ok match e with EligibilityUnknown _ => true | _ => false end)
           (List.filter not_down snapshot.(snap_machines))) requested in
  Ok (fold_left warn_once (concat unknown) ([], [])).2.

(** ** The survivors are exactly the eligible Machines *)

Lemma try_filter_total {A E} (p : A → Result bool E) (f : A → bool) l :
  (∀ x, x ∈ l → p x = Ok (f x)) → try_filter p l = Ok (List.filter f l).
Proof.
  induction l as [|x l IH]; intros Hp; simpl; [done|].
  rewrite Hp by set_solver. simpl. rewrite IH by (intros y Hy; apply Hp; set_solver). done.
Qed.

Lemma try_filter_sub {A E} (p : A → Result bool E) l kept x :
  try_filter p l = Ok kept → x ∈ kept → x ∈ l ∧ p x = Ok true.
Proof.
  revert kept. induction l as [|y l IH]; intros kept; simpl.
  - intros [= <-]. set_solver.
  - intros (keep & Hk & (rest & Hr & [= <-])%result_bind_Ok)%result_bind_Ok Hx.
    destruct keep; [|specialize (IH _ Hr Hx); set_solver].
    apply elem_of_cons in Hx as [->|Hx]; [set_solver|]. specialize (IH _ Hr Hx). set_solver.
Qed.

Lemma filter_filter_sub {A} (p q : A → bool) l :
  (∀ x, p x = true → q x = true) → List.filter p (List.filter q l) = List.filter p l.
Proof.
  intros Hpq. induction l as [|x l IH]; simpl; [done|].
  destruct (q x) eqn:Hq; simpl; destruct (p x) eqn:Hp; try congruence.
  specialize (Hpq x Hp). congruence.
Qed.

Lemma filter_filter_and {A} (p q : A → bool) l :
  List.filter p (List.filter q l) = List.filter (λ x, q x && p x) l.
Proof.
  induction l as [|x l IH]; simpl; [done|]. destruct (q x); simpl; by rewrite IH.
Qed.

Definition is_eligible (e : ServicePlacementEligibility) : bool :=
  match e with Eligible => true | _ => false end.
Definition is_unknown (e : ServicePlacementEligibility) : bool :=
  match e with EligibilityUnknown _ => true | _ => false end.

(** The observed Machines that are not down and whose eligibility passes [test]. *)
Definition live (test : ServicePlacementEligibility → bool) (requested : RequestedServiceSpec)
    (namespace : Namespace) (snapshot : DeploySnapshot) : list MachineObservation :=
  List.filter
    (λ m, not_down m
          && option_test test (requested_eligibility_in_namespace requested namespace
                                 m.(mo_machine) m.(mo_storage)))
    snapshot.(snap_machines).

Section EligibleMachines.
Context (requested : RequestedServiceSpec) (namespace : Namespace) (snapshot : DeploySnapshot).

Definition evaluates (m : MachineObservation) : Prop :=
  is_Some (requested_eligibility_in_namespace requested namespace m.(mo_machine) m.(mo_storage)).

Abbreviation passes test m :=
  (option_test test (requested_eligibility_in_namespace requested namespace
                       m.(mo_machine) m.(mo_storage))) (only parsing).

Lemma is_candidate_total m :
  evaluates m →
  is_candidate requested namespace m
  = Ok (passes (λ e, match e with
                     | Ineligible PlacementMismatch | Ineligible WorkNotAccepted => false
                     | _ => true
                     end) m).
Proof. unfold is_candidate, eligibility. by intros [e ->]. Qed.

Lemma classify_candidates l unknown machines :
  (∀ m, m ∈ l → evaluates m) →
  try_fold (classify_candidate requested namespace) l (unknown, machines)
  = Ok (unknown ++ map (λ m, m.(mo_machine).(machine_name)) (List.filter (λ m, passes is_unknown m) l),
        machines ++ List.filter (λ m, passes is_eligible m) l).
Proof.
  revert unknown machines. induction l as [|m l IH]; intros unknown machines Hl; simpl.
  { by rewrite !app_nil_r. }
  destruct (Hl m) as [e He]; [set_solver|].
  unfold eligibility. rewrite He. simpl.
  destruct e; simpl; rewrite IH by (intros; apply Hl; set_solver); simpl;
    by rewrite <-?app_assoc.
Qed.

Lemma placement_error_total :
  (∀ m, m ∈ snapshot.(snap_machines) → evaluates m) →
  ∃ constraints, placement_error requested namespace snapshot = Ok (NoEligibleMachines constraints).
Proof.
  intros Hall. unfold placement_error, no_eligible_machines.
  destruct (snap_machines snapshot) as [|m0 ms0] eqn:Hms; [by eexists|].
  rewrite (try_filter_total _ (λ m, option_test id
    (machine_matches_placement m.(mo_machine) requested.(rq_placement)))).
  2: { intros m Hm. destruct (Hall m Hm) as [e He]. unfold requested_eligibility_in_namespace,
       placement_eligibility in He. destruct (if String.eqb _ _ then _ else _); simpl in He; [|done].
       destruct (machine_matches_placement _ _) as [[]|]; simpl in *; done. }
  cbn [result_bind]. set (matched := List.filter _ _).
  assert (Hsub : ∀ m, m ∈ matched → evaluates m).
  { intros m [Hm _]%elem_of_filterb. by apply Hall. }
  destruct matched as [|m ms]; [by eexists|].
  assert (Hc : ∀ l found, (∀ m, m ∈ l → evaluates m) →
    is_ok (try_fold (classify_refusal requested namespace) l found) = true).
  { intros l. induction l as [|x l IH]; intros [down refused] Hl; simpl; [done|].
    destruct (Hl x) as [e He]; [set_solver|].
    destruct (negb (not_down x)); simpl; [apply IH; intros; apply Hl; set_solver|].
    unfold eligibility. rewrite He. simpl.
    destruct e as [|[]|]; simpl; apply IH; intros; apply Hl; set_solver. }
  specialize (Hc (m :: ms) ([], []) Hsub). apply is_ok_true in Hc as [[down refused] Hc].
  rewrite Hc. simpl. by eexists.
Qed.

(** when no eligibility test panics, the Machines a Service may be placed on are a shuffle of
    exactly the observed Machines that are not down and are eligible; when there is none the
    Deploy is refused, and missing storage evidence is blamed exactly when it is the cause. *)
Theorem eligible_machines_exact options :
  (∀ m, m ∈ snapshot.(snap_machines) → evaluates m) →
  let eligible := live is_eligible requested namespace snapshot in
  let unknown := map (λ m, m.(mo_machine).(machine_name))
                   (live is_unknown requested namespace snapshot) in
  match eligible_machines requested namespace snapshot options with
  | Ok machines => machines ≠ [] ∧ machines ≡ₚ eligible
  | Err (Fails e) =>
      eligible = [] ∧
      ∀ names, e = ProvisionedVolumeStorageUnknown names ↔ names = unknown ∧ names ≠ []
  | Err Panics => False
  end.
Proof.
  intros Hall eligible unknown. unfold eligible_machines, placement_candidates.
  set (up := List.filter not_down _).
  assert (Hup : ∀ m, m ∈ up → evaluates m) by (intros m [Hm _]%elem_of_filterb; by apply Hall).
  rewrite (try_filter_total _ _ up (λ m Hm, is_candidate_total m (Hup m Hm))).
  cbn [result_bind]. set (candidates := List.filter _ up).
  assert (Hel : List.filter (λ m, passes is_eligible m) candidates = eligible).
  { unfold candidates. rewrite filter_filter_sub; [apply filter_filter_and|].
    intros m. by destruct (requested_eligibility_in_namespace _ _ _ _) as [[| |]|]. }
  assert (Hun : map (λ m, m.(mo_machine).(machine_name))
                  (List.filter (λ m, passes is_unknown m) candidates) = unknown).
  { unfold candidates. rewrite filter_filter_sub; [unfold up; by rewrite filter_filter_and|].
    intros m. by destruct (requested_eligibility_in_namespace _ _ _ _) as [[| |]|]. }
  assert (Hcand : ∀ m, m ∈ candidates → evaluates m)
    by (intros m [Hm _]%elem_of_filterb; by apply Hup).
  destruct candidates as [|c cs] eqn:Hc.
  { simpl in Hel, Hun. destruct (placement_error_total Hall) as [constraints ->]. simpl.
    rewrite <-Hel, <-Hun. split; [done|]. naive_solver. }
  cbn [result_bind]. rewrite classify_candidates by done.
  cbn [result_bind app]. rewrite Hel, Hun. clear Hel Hun.
  destruct eligible as [|e es] eqn:He.
  - destruct unknown as [|u us]; [|simpl; naive_solver].
    destruct (constraints _); [simpl; naive_solver|].
    destruct cs; simpl; naive_solver.
  - destruct (shuffle_permutation (e :: es)
      (placement_state options.(placement_seed) requested.(rq_name))) as (l & Hl & Hp).
    rewrite Hl. simpl. split; [|done]. intros ->. by apply Permutation_nil_cons in Hp.
Qed.
End EligibleMachines.

Lemma eligible_machines_exact_witness :
  let snapshot :=
    {| snap_machines := [MachineObservation_new (sample_machine "1" "alpha") MembershipUp;
                         MachineObservation_new (sample_machine "2" "beta") MembershipDown;
                         MachineObservation_new (sample_machine "3" "gamma") MembershipSuspect];
       snap_storage_capacity := []; snap_containers := [];
       snap_volumes := {| observations := []; named_failures := []; machine_failures := [];
                          omissions := [] |};
       snap_container_failures := []; snap_container_omissions := []; snap_capacity := None |} in
  match eligible_machines (sample_requested [] 2 None) "shop" snapshot PlanOptions_default with
  | Ok machines => machines ≠ [] ∧ machines ≡ₚ live is_eligible (sample_requested [] 2 None) "shop" snapshot
  | Err _ => False
  end.
Proof.
  set (snapshot := {| snap_machines := _ |}). cbv zeta.
  pose proof (eligible_machines_exact (sample_requested [] 2 None) "shop" snapshot
                PlanOptions_default) as H.
  destruct (eligible_machines _ _ _ _) as [machines|[e|]] eqn:He.
  - apply H. apply Forall_forall. repeat constructor; vm_compute; eauto.
  - vm_compute in He. discriminate.
  - vm_compute in He. discriminate.
Defined.
