(* ===== verification/Placement.v ===== *)
(** * Machine placement and replacement planning

    [ployz/src/deploy/planning/capacity.rs] (bridge endpoints) and
    [planning/placement.rs] (host sockets, replica selection, replicated and
    global Services): which Machine runs each Container, which observed
    Containers are kept, replaced or removed, and the operations that get
    there without two Containers holding one host socket.

    [ipnet] is another crate: what the planner asks of a prefix is the class
    [IpNetOps], whose laws are those of CIDR blocks. *)

From S2P Require Import Prelude BTree Strings Values Machines StorageCapacity Volumes.
From S2P Require Import ServiceGraph Spec Services Deploy.

Open Scope string_scope.
Open Scope list_scope.
Open Scope nat_scope.

(** ** Endpoint capacity *)

Definition endpoint_capacity_error (required : N) (capacity : option BridgeEndpointCapacity)
    : option PlanError :=
  match capacity with
  | None => if (0 <? required)%N then Some CapacityUnknown else None
  | Some capacity =>
      if (capacity.(free_endpoints) <? required)%N then Some InsufficientCapacity else None
  end.

Record EndpointDemand : Type := { peak : N; persistent : N; uses_hook : bool }.
Inductive EndpointOperation : Type := OpUnchanged | OpCreate | OpReplace.
#[global] Instance EndpointOperation_eq_dec : EqDecision EndpointOperation.
Proof. solve_decision. Defined.

Definition EndpointDemand_for_operation (operation : EndpointOperation) (hook_pending : bool)
    : EndpointDemand :=
  let changes := negb (bool_decide (operation = OpUnchanged)) in
  let uses_hook := changes && hook_pending in
  {| peak := N.b2n changes + N.b2n uses_hook;
     persistent := N.b2n (bool_decide (operation = OpCreate)) + N.b2n uses_hook;
     uses_hook := uses_hook |}.

Record CapacityBudget : Type := { free : option (bmap MachineId N) }.

Definition CapacityBudget_from_snapshot (snapshot : DeploySnapshot) : CapacityBudget :=
  {| free := (λ capacity, map (λ '(id, capacity), (id, capacity.(free_endpoints))) capacity)
             <$> snapshot.(snap_capacity) |}.

Definition capacity_fits (self : CapacityBudget) (machine : MachineId) (peak : N) : bool :=
  (peak =? 0)%N
  || match self.(free) with
     | None => true
     | Some free => option_test (λ free, (peak <=? free)%N) (bget free machine)
     end.

Definition fits_demand (self : CapacityBudget) (machine : MachineId) (demand : EndpointDemand)
    : bool := capacity_fits self machine demand.(peak).

(** [None] is the [expect] on the Machine's telemetry, or an underflow of its count. *)
Definition capacity_reserve (self : CapacityBudget) (machine : MachineId) (demand : EndpointDemand)
    : option (bool * CapacityBudget) :=
  if negb (fits_demand self machine demand) then Some (false, self)
  else
    match self.(free) with
    | Some free =>
        if (0 <? demand.(persistent))%N then
          available ← bget free machine;
          remaining ← checked_sub available demand.(persistent);
          Some (true, {| free := Some (binsert machine remaining free) |})
        else Some (true, self)
    | None => Some (true, self)
    end.

Definition capacity_release (self : CapacityBudget) (machine : MachineId) : CapacityBudget :=
  match self.(free) with
  | Some free =>
      match bget free machine with
      | Some available =>
          {| free := Some (binsert machine (saturating_add available 1) free) |}
      | None => self
      end
  | None => self
  end.

Definition capacity_error_for (self : CapacityBudget) (machines : list MachineId) : PlanError :=
  match self.(free) with
  | Some free =>
      if existsb (λ machine, negb (bcontains free machine)) machines
      then CapacityUnknown else InsufficientCapacity
  | None => InsufficientCapacity
  end.

Fixpoint supply_loop (free : bmap MachineId N) (machines : list MachineId) (required available : N)
    : bool :=
  match machines with
  | [] => false
  | machine :: machines =>
      match bget free machine with
      | None => supply_loop free machines required available
      | Some machine_free =>
          let available := saturating_add available machine_free in
          if (required <=? available)%N then true
          else supply_loop free machines required available
      end
  end.

Definition can_supply_persistent (self : CapacityBudget) (machines : list MachineId) (required : N)
    : bool :=
  (required =? 0)%N
  || match self.(free) with
     | None => true
     | Some free => supply_loop free machines required 0
     end.

(** ** Host sockets *)

(** The prefix operations of the [ipnet] crate. *)
Class IpNetOps : Type := {
  net_contains : IpNet → IpAddr → bool;
  net_network : IpNet → IpAddr
}.

Definition is_ipv4 (a : IpAddr) : bool := match a with V4 _ => true | V6 _ => false end.
Definition is_unspecified (a : IpAddr) : bool :=
  match a with V4 n | V6 n => (n =? 0)%N end.

(** What the planner relies on: a block holds its own network address, lies in one address
    family, and two blocks that share an address are nested. *)
Class IpNetLaws `{IpNetOps} : Prop := {
  net_contains_network p : net_contains p (net_network p) = true;
  net_contains_family p a : net_contains p a = true → is_ipv4 a = is_ipv4 (net_network p);
  net_nested p q a :
    net_contains p a = true → net_contains q a = true →
    net_contains p (net_network q) = true ∨ net_contains q (net_network p) = true
}.

(** A claim: the Machine, the observed Container that holds the sockets (none for a Container
    this plan creates), and its publications. *)
Record SocketClaim : Type := {
  claim_machine : MachineId;
  claim_owner : option ContainerId;
  claim_ports : list PortPublication
}.

Inductive ReplicaAction : Type :=
| ActUnchanged (container : ContainerId)
| ActReplace (container : ContainerId) (pre_stops : list ContainerId)
| ActCreate.

Record ReplicaChoice : Type := { choice_machine : MachineId; choice_action : ReplicaAction }.

Record ReplicatedReservation : Type := {
  choices : list ReplicaChoice;
  hook_machine : option MachineId
}.

Record PlacementState : Type := {
  ps_occupancy : bmap MachineId nat;
  ps_capacity : CapacityBudget;
  ps_sockets : list SocketClaim;
  ps_reservations : bmap ServiceName ReplicatedReservation
}.

Inductive CapacityAdmission : Type :=
| AdmissionPending (error : PlanError)
| AdmissionReserved (reservation : ReplicatedReservation).

Section Placement.
Context `{IpNetOps, ShapeJson}.

Definition binds_overlap (l r : HostBind) : bool :=
  match l, r with
  | BindAll, _ | _, BindAll => true
  | BindAddress a, BindAddress b =>
      bool_decide (a = b)
      || (Bool.eqb (is_ipv4 a) (is_ipv4 b) && (is_unspecified a || is_unspecified b))
  | BindAddress address, BindPrefix prefix | BindPrefix prefix, BindAddress address =>
      net_contains prefix address
      || (is_unspecified address && Bool.eqb (is_ipv4 address) (is_ipv4 (net_network prefix)))
  | BindPrefix p, BindPrefix q =>
      net_contains p (net_network q) || net_contains q (net_network p)
  end.

Definition host_ports_conflict (l r : PortPublication) : bool :=
  match l, r with
  | HostPort l_bind l_port _ l_protocol, HostPort r_bind r_port _ r_protocol =>
      (l_port =? r_port)%N && bool_decide (l_protocol = r_protocol)
      && binds_overlap l_bind r_bind
  | _, _ => false
  end.

Definition ports_conflict (olds news : list PortPublication) : bool :=
  existsb (λ old, existsb (λ new, host_ports_conflict old new) news) olds.

(** The loop compares each publication with those after it. *)
Fixpoint self_conflict (ports : list PortPublication) : bool :=
  match ports with
  | [] => false
  | port :: ports => existsb (host_ports_conflict port) ports || self_conflict ports
  end.

Definition validate_host_ports (requested : RequestedServiceSpec) : Planning unit :=
  if self_conflict requested.(rq_ports)
  then refuse (ConflictingHostPublications requested.(rq_name)) else Ok tt.

Definition is_shared_storage (volume : ServiceVolume) : bool :=
  match volume.(sv_source).(vs_source) with
  | External _ | Ordinary _ _ _ | Provisioned _ _ _ => true
  | Bind _ _ _ _ | Tmpfs _ _ _ => false
  end.

(** [None] is the dangling-mount panic. *)
Definition determine_update_order (current : option ServiceContainer)
    (requested : RequestedServiceSpec) : option UpdateOrder :=
  match requested.(rq_update).(update_order) with
  | Some order => Some order
  | None =>
      if option_test
           (λ current, ports_conflict current.(resolved_spec).(rs_ports) requested.(rq_ports))
           current
      then Some StopFirst
      else
        mounted ← mounted_volumes requested.(rq_mount_graph).(mg_volumes);
        Some (if existsb is_shared_storage mounted then StopFirst else StartFirst)
  end.

Definition HostSockets_from_snapshot (snapshot : DeploySnapshot) : list SocketClaim :=
  map (λ container, {| claim_machine := container.(co_machine_id);
                       claim_owner := Some container.(container_id);
                       claim_ports := container.(resolved_spec).(rs_ports) |})
    (List.filter (λ container, is_service_container container
                               && is_active_runtime container.(runtime))
       snapshot.(snap_containers)).

Definition sockets_release (self : list SocketClaim) (machine : MachineId)
    (container : ContainerId) : list SocketClaim :=
  List.filter (λ claim, negb (String.eqb claim.(claim_machine) machine)
                        || negb (bool_decide (claim.(claim_owner) = Some container))) self.

Definition sockets_fits (self : list SocketClaim) (machine : MachineId)
    (requested : RequestedServiceSpec) (existing : option ServiceContainer)
    (operation : EndpointOperation) (pre_stops : list ContainerId) : Planning bool :=
  if bool_decide (operation = OpUnchanged) then Ok true
  else
    let? released :=
      match existing with
      | None => Ok None
      | Some container =>
          let? order := expect (determine_update_order (Some container) requested) in
          Ok (if bool_decide (order = StopFirst) then Some container.(container_id) else None)
      end in
    Ok (negb (existsb
          (λ claim,
             String.eqb claim.(claim_machine) machine
             && (bool_decide (released = None) || negb (bool_decide (claim.(claim_owner) = released)))
             && negb (option_test (λ owner, bool_decide (owner ∈ pre_stops)) claim.(claim_owner))
             && ports_conflict claim.(claim_ports) requested.(rq_ports)) self)).

Definition socket_error (requested : RequestedServiceSpec) : PlanError :=
  HostPortConflict requested.(rq_name).

Definition sockets_admit (self : list SocketClaim) (machine : MachineId)
    (requested : RequestedServiceSpec) (existing : option ServiceContainer)
    (operation : EndpointOperation) : Planning (list SocketClaim) :=
  let? fits := sockets_fits self machine requested existing operation [] in
  if negb fits then refuse (socket_error requested)
  else if bool_decide (operation = OpUnchanged) then Ok self
  else
    let claims :=
      match existing with
      | Some container => sockets_release self machine container.(container_id)
      | None => self
      end in
    Ok (claims ++ [{| claim_machine := machine; claim_owner := None;
                      claim_ports := requested.(rq_ports) |}]).

(** ** Comparing observed Containers with what is requested *)

Definition is_up_to_date (container : ServiceContainer) (requested : RequestedServiceSpec)
    (options : PlanOptions) : bool :=
  negb options.(force_recreate) && is_running container.(runtime)
  && bool_decide (compare_specs container.(resolved_spec) requested = UpToDate).

Definition replicated_operation (existing : option ServiceContainer)
    (requested : RequestedServiceSpec) (options : PlanOptions) : EndpointOperation :=
  match existing with
  | Some container => if is_up_to_date container requested options then OpUnchanged else OpReplace
  | None => OpCreate
  end.

(** The [expect] on an unscoped Volume graph is [None]. *)
Definition resolve (requested : RequestedServiceSpec) (service_id : ServiceId) (order : UpdateOrder)
    : option ResolvedServiceSpec :=
  result_ok
    (to_resolved requested service_id
       {| resolved_order := order;
          resolved_monitor_millis := requested.(rq_update).(update_monitor_millis) |}).

Definition on_machine (current : list ServiceContainer) (machine : MachineId)
    : list ServiceContainer :=
  List.filter (λ container, String.eqb container.(co_machine_id) machine) current.

Definition conflicting_siblings (requested : RequestedServiceSpec)
    (existing : option ServiceContainer) (operation : EndpointOperation)
    (remaining : list ServiceContainer) : list ContainerId :=
  match existing with
  | Some existing =>
      if bool_decide (operation = OpReplace) then
        map container_id
          (List.filter
             (λ container,
                negb (String.eqb container.(container_id) existing.(container_id))
                && is_active_runtime container.(runtime)
                && ports_conflict container.(resolved_spec).(rs_ports) requested.(rq_ports))
             remaining)
      else []
  | None => []
  end.

Definition release_hooks (capacity : CapacityBudget) (hooks : list HookContainer)
    : CapacityBudget :=
  fold_left (λ capacity hook, capacity_release capacity hook.(co_machine_id)) hooks capacity.
(** ** Replica selection *)

Definition up_to_date_in (containers : list ServiceContainer) (requested : RequestedServiceSpec)
    (options : PlanOptions) : list ServiceContainer :=
  List.filter (λ container, is_up_to_date container requested options) containers.

(** Observed Containers per Machine, the up-to-date ones last. *)
Definition by_machine_of (current : list ServiceContainer) (requested : RequestedServiceSpec)
    (options : PlanOptions) : bmap MachineId (list ServiceContainer) :=
  map (λ '(machine, containers),
         (machine,
          stable_sort (λ a b, implb (is_up_to_date a requested options)
                                (is_up_to_date b requested options)) containers))
    (fold_left
       (λ groups c, binsert c.(co_machine_id) (default [] (bget groups c.(co_machine_id)) ++ [c])
                      groups) current []).

Definition containers_at (by_machine : bmap MachineId (list ServiceContainer))
    (machine : MachineId) : list ServiceContainer := default [] (bget by_machine machine).

(** Most up to date, then most populated, then least occupied, first. *)
Definition machine_rank (by_machine : bmap MachineId (list ServiceContainer))
    (occupancy : bmap MachineId nat) (requested : RequestedServiceSpec) (options : PlanOptions)
    (machine : MachineId) : nat * nat * nat :=
  (length (up_to_date_in (containers_at by_machine machine) requested options),
   length (containers_at by_machine machine), default 0 (bget occupancy machine)).

Definition rank_le (a b : nat * nat * nat) : bool :=
  let '(ua, na, oa) := a in let '(ub, nb, ob) := b in
  (ub <? ua) || ((ua =? ub) && ((nb <? na) || ((na =? nb) && (oa <=? ob)))).

Record SelectState : Type := {
  sel_by_machine : bmap MachineId (list ServiceContainer);
  sel_cursor : nat;
  sel_hook_pending : bool;
  sel_hook_machine : option MachineId;
  sel_choices : list ReplicaChoice;
  sel_capacity : CapacityBudget;
  sel_sockets : list SocketClaim
}.

(** The Machine a replica goes to, and what is reserved there. *)
Record Selected : Type := {
  at_machine : MachineId;
  at_operation : EndpointOperation;
  at_pre_stops : list ContainerId;
  at_demand : EndpointDemand;
  at_capacity : CapacityBudget
}.

(** The inner loop: [tries] Machines from [cursor] on, in turn. *)
Fixpoint try_machines (requested : RequestedServiceSpec) (options : PlanOptions)
    (machines : list MachineId) (st : SelectState) (tries cursor : nat) (socket_blocked : bool)
    : Planning (option Selected * nat * bool) :=
  match tries with
  | O => Ok (None, cursor, socket_blocked)
  | S tries =>
      let? machine := expect (machines !! (cursor mod length machines)) in
      let cursor := S cursor in
      let remaining := containers_at st.(sel_by_machine) machine in
      let existing := last remaining in
      let operation := replicated_operation existing requested options in
      let pre_stops := conflicting_siblings requested existing operation remaining in
      let? fits := sockets_fits st.(sel_sockets) machine requested existing operation pre_stops in
      if negb fits then try_machines requested options machines st tries cursor true
      else
        let demand := EndpointDemand_for_operation operation st.(sel_hook_pending) in
        let? reserved := expect (capacity_reserve st.(sel_capacity) machine demand) in
        if fst reserved
        then Ok (Some {| at_machine := machine; at_operation := operation;
                         at_pre_stops := pre_stops; at_demand := demand;
                         at_capacity := snd reserved |}, cursor, socket_blocked)
        else try_machines requested options machines st tries cursor socket_blocked
  end.

Definition select_replica (requested : RequestedServiceSpec) (options : PlanOptions)
    (machines : list MachineId) (capacity_error : PlanError) (st : SelectState)
    : Planning SelectState :=
  let? tried := try_machines requested options machines st (length machines) st.(sel_cursor) false in
  let '(selected, cursor, socket_blocked) := tried in
  match selected with
  | None => refuse (if socket_blocked then socket_error requested else capacity_error)
  | Some choice =>
      let machine := choice.(at_machine) in
      let remaining := containers_at st.(sel_by_machine) machine in
      let existing := last remaining in
      let sockets :=
        fold_left (λ sockets container, sockets_release sockets machine container)
          choice.(at_pre_stops) st.(sel_sockets) in
      let? sockets := sockets_admit sockets machine requested existing choice.(at_operation) in
      Ok {| sel_by_machine :=
              binsert machine
                (List.filter (λ c, negb (bool_decide (c.(container_id) ∈ choice.(at_pre_stops))))
                   (removelast remaining)) st.(sel_by_machine);
            sel_cursor := cursor;
            sel_hook_pending :=
              if choice.(at_demand).(uses_hook) then false else st.(sel_hook_pending);
            sel_hook_machine :=
              if choice.(at_demand).(uses_hook) then Some machine else st.(sel_hook_machine);
            sel_choices :=
              st.(sel_choices)
              ++ [{| choice_machine := machine;
                     choice_action :=
                       match existing with
                       | Some container =>
                           if bool_decide (choice.(at_operation) = OpUnchanged)
                           then ActUnchanged container.(container_id)
                           else ActReplace container.(container_id) choice.(at_pre_stops)
                       | None => ActCreate
                       end |}];
            sel_capacity := choice.(at_capacity);
            sel_sockets := sockets |}
  end.

Fixpoint select_replicas (requested : RequestedServiceSpec) (options : PlanOptions)
    (machines : list MachineId) (capacity_error : PlanError) (n : nat) (st : SelectState)
    : Planning SelectState :=
  match n with
  | O => Ok st
  | S n =>
      let? st := select_replica requested options machines capacity_error st in
      select_replicas requested options machines capacity_error n st
  end.

Definition is_hooked (requested : RequestedServiceSpec) : bool :=
  match requested.(rq_pre_deploy) with Some _ => true | None => false end.

Definition select_replicated (requested : RequestedServiceSpec) (current : list ServiceContainer)
    (machines : list MachineId) (occupancy : bmap MachineId nat) (capacity : CapacityBudget)
    (sockets : list SocketClaim) (capacity_error : PlanError) (options : PlanOptions)
    : Planning (ReplicatedReservation * CapacityBudget * list SocketClaim) :=
  match requested.(rq_mode) with
  | Global => refuse capacity_error
  | Replicated replicas =>
      let replicas := N.to_nat replicas in
      let by_machine := by_machine_of current requested options in
      let existing := sum_list (map (λ id, length (containers_at by_machine id)) machines) in
      let up_to_date :=
        sum_list (map (λ id, length (up_to_date_in (containers_at by_machine id) requested options))
                    machines) in
      let required :=
        (replicas - existing) + Nat.b2n (is_hooked requested && (up_to_date <? replicas)) in
      if negb (can_supply_persistent capacity machines (N.of_nat required))
      then refuse capacity_error
      else
        let machines :=
          stable_sort (λ a b, rank_le (machine_rank by_machine occupancy requested options a)
                                (machine_rank by_machine occupancy requested options b))
            machines in
        let? st :=
          select_replicas requested options machines capacity_error replicas
            {| sel_by_machine := by_machine; sel_cursor := 0;
               sel_hook_pending := is_hooked requested; sel_hook_machine := None;
               sel_choices := []; sel_capacity := capacity; sel_sockets := sockets |} in
        Ok ({| choices := st.(sel_choices); hook_machine := st.(sel_hook_machine) |},
            st.(sel_capacity), st.(sel_sockets))
  end.

(** ** Operations *)

Definition set_sockets (placement : PlacementState) (sockets : list SocketClaim)
    : PlacementState :=
  {| ps_occupancy := placement.(ps_occupancy); ps_capacity := placement.(ps_capacity);
     ps_sockets := sockets; ps_reservations := placement.(ps_reservations) |}.

Definition set_capacity (placement : PlacementState) (capacity : CapacityBudget)
    : PlacementState :=
  {| ps_occupancy := placement.(ps_occupancy); ps_capacity := capacity;
     ps_sockets := placement.(ps_sockets); ps_reservations := placement.(ps_reservations) |}.

Definition occupy (placement : PlacementState) (machine : MachineId) : PlacementState :=
  {| ps_occupancy :=
       binsert machine (S (default 0 (bget placement.(ps_occupancy) machine)))
         placement.(ps_occupancy);
     ps_capacity := placement.(ps_capacity); ps_sockets := placement.(ps_sockets);
     ps_reservations := placement.(ps_reservations) |}.

(** What planning one Service accumulates. *)
Record ServicePlan : Type := {
  sp_placement : PlacementState;
  sp_used : bset ContainerId;
  sp_operations : list DeployOperation
}.

Definition remove_unused (plan : ServicePlan) (current : list ServiceContainer) : ServicePlan :=
  fold_left
    (λ plan container,
       if bool_decide (container.(container_id) ∈ plan.(sp_used)) then plan
       else
         let placement := plan.(sp_placement) in
         {| sp_placement :=
              set_sockets
                (set_capacity placement
                   (capacity_release placement.(ps_capacity) container.(co_machine_id)))
                (sockets_release placement.(ps_sockets) container.(co_machine_id)
                   container.(container_id));
            sp_used := plan.(sp_used);
            sp_operations :=
              plan.(sp_operations)
              ++ [RemoveContainer container.(co_machine_id) container.(container_id)] |})
    current plan.

(** Stop each Container and release its sockets. *)
Definition pre_stop (machine : MachineId) (plan : ServicePlan) (container : ContainerId)
    : ServicePlan :=
  {| sp_placement :=
       set_sockets plan.(sp_placement)
         (sockets_release plan.(sp_placement).(ps_sockets) machine container);
     sp_used := plan.(sp_used);
     sp_operations :=
       plan.(sp_operations) ++ [StopContainer machine container PurposeFreeHostPorts] |}.

(** Admit the sockets of one Container operation and append it. *)
Definition admit_operation (plan : ServicePlan) (machine : MachineId)
    (requested : RequestedServiceSpec) (existing : option ServiceContainer)
    (operation : EndpointOperation) (deploy : Planning DeployOperation) : Planning ServicePlan :=
  let? sockets :=
    sockets_admit plan.(sp_placement).(ps_sockets) machine requested existing operation in
  let? deploy := deploy in
  Ok {| sp_placement := set_sockets plan.(sp_placement) sockets; sp_used := plan.(sp_used);
        sp_operations := plan.(sp_operations) ++ [deploy] |}.

Definition replace_operation (machine : MachineId) (container : ServiceContainer)
    (requested : RequestedServiceSpec) (service_id : ServiceId) (options : PlanOptions)
    : Planning DeployOperation :=
  let? order := expect (determine_update_order (Some container) requested) in
  let? spec := expect (resolve requested service_id order) in
  Ok (ReplaceContainer {| repl_machine_id := machine;
                          repl_old_container_id := container.(container_id); repl_spec := spec;
                          repl_skip_health_monitor := options.(skip_health_monitor) |}).

Definition run_operation (machine : MachineId) (requested : RequestedServiceSpec)
    (service_id : ServiceId) (options : PlanOptions) : Planning DeployOperation :=
  let? order := expect (determine_update_order None requested) in
  let? spec := expect (resolve requested service_id order) in
  Ok (RunContainer machine spec options.(skip_health_monitor)).

Definition mark_used (plan : ServicePlan) (container : ContainerId) : ServicePlan :=
  {| sp_placement := plan.(sp_placement); sp_used := bset_insert container plan.(sp_used);
     sp_operations := plan.(sp_operations) |}.

Definition apply_choice (requested : RequestedServiceSpec) (service_id : ServiceId)
    (by_id : bmap ContainerId ServiceContainer) (options : PlanOptions) (plan : ServicePlan)
    (choice : ReplicaChoice) : Planning ServicePlan :=
  let machine := choice.(choice_machine) in
  let plan :=
    {| sp_placement := occupy plan.(sp_placement) machine; sp_used := plan.(sp_used);
       sp_operations := plan.(sp_operations) |} in
  match choice.(choice_action) with
  | ActUnchanged container => Ok (mark_used plan container)
  | ActReplace container pre_stops =>
      let plan := mark_used plan container in
      let? existing := expect (bget by_id container) in
      let plan := fold_left (pre_stop machine) pre_stops plan in
      admit_operation plan machine requested (Some existing) OpReplace
        (replace_operation machine existing requested service_id options)
  | ActCreate =>
      admit_operation plan machine requested None OpCreate
        (run_operation machine requested service_id options)
  end.

(** [requested] and [machines] are the parts of the Volume placement. *)
Definition plan_replicated (service_id : ServiceId) (current : list ServiceContainer)
    (requested : RequestedServiceSpec) (machines : list MachineObservation)
    (admission : CapacityAdmission) (placement : PlacementState) (options : PlanOptions)
    : Planning (list DeployOperation * option MachineId * PlacementState) :=
  let? reserved :=
    match admission with
    | AdmissionReserved reservation => Ok (reservation, placement)
    | AdmissionPending error =>
        let? selected :=
          select_replicated requested current (map (λ m, m.(mo_machine).(machine_id)) machines)
            placement.(ps_occupancy) placement.(ps_capacity) placement.(ps_sockets) error options in
        let '(reservation, capacity, _) := selected in
        Ok (reservation, set_capacity placement capacity)
    end in
  let '(reservation, placement) := reserved in
  let by_id := bcollect (map (λ c, (c.(container_id), c)) current) in
  let? plan :=
    try_fold (apply_choice requested service_id by_id options) reservation.(choices)
      {| sp_placement := placement; sp_used := []; sp_operations := [] |} in
  let plan := remove_unused plan current in
  Ok (plan.(sp_operations), reservation.(hook_machine), plan.(sp_placement)).
End Placement.

(** ** Global Services *)

Section Globals.
Context `{IpNetOps, ShapeJson}.

(** A stopped Container this planner created whose spec is exactly what would be resolved. *)
Definition reusable_global (container : ServiceContainer) (requested : RequestedServiceSpec)
    (options : PlanOptions) : option bool :=
  if negb options.(force_recreate) && negb (is_active_runtime container.(runtime))
     && bcontains container.(labels) "ployz.creation.key"
  then
    expected ← resolve requested (service_id_of container)
                 container.(resolved_spec).(rs_update).(resolved_order);
    Some (bool_decide (container.(resolved_spec) = expected))
  else Some false.

(** [any] and [find] stop at the first hit, before a later test could panic. *)
Fixpoint find_panicking {A} (p : A → option bool) (l : list A) : option (option A) :=
  match l with
  | [] => Some None
  | x :: l => b ← p x; if b : bool then Some (Some x) else find_panicking p l
  end.

Definition global_endpoint_operation (current : list ServiceContainer) (machine : MachineId)
    (requested : RequestedServiceSpec) (options : PlanOptions) : option EndpointOperation :=
  kept ← find_panicking
           (λ container,
              if is_up_to_date container requested options then Some true
              else reusable_global container requested options)
           (on_machine current machine);
  Some match kept with
       | Some _ => OpUnchanged
       | None =>
           if existsb (λ container, is_active_runtime container.(runtime))
                (on_machine current machine)
           then OpReplace else OpCreate
       end.

(** Reserve endpoints, or refuse with the error computed before the loop. *)
Definition reserve_or (plan : ServicePlan) (machine : MachineId) (demand : EndpointDemand)
    (capacity_error : PlanError) : Planning ServicePlan :=
  let? reserved := expect (capacity_reserve plan.(sp_placement).(ps_capacity) machine demand) in
  if fst reserved
  then Ok {| sp_placement := set_capacity plan.(sp_placement) (snd reserved);
             sp_used := plan.(sp_used); sp_operations := plan.(sp_operations) |}
  else refuse capacity_error.

Definition global_step (service_id : ServiceId) (current : list ServiceContainer)
    (requested : RequestedServiceSpec) (options : PlanOptions) (hook : option MachineId)
    (capacity_error : PlanError) (plan : ServicePlan) (observed : MachineObservation)
    : Planning ServicePlan :=
  let machine := observed.(mo_machine).(machine_id) in
  let here := on_machine current machine in
  let plan :=
    {| sp_placement := occupy plan.(sp_placement) machine; sp_used := plan.(sp_used);
       sp_operations := plan.(sp_operations) |} in
  match List.find (λ container, is_up_to_date container requested options) here with
  | Some kept => Ok (mark_used plan kept.(container_id))
  | None =>
      let? reusable :=
        expect (find_panicking (λ container, reusable_global container requested options) here) in
      match reusable with
      | Some container =>
          admit_operation (mark_used plan container.(container_id)) machine requested None OpCreate
            (Ok (RunContainer machine container.(resolved_spec) options.(skip_health_monitor)))
      | None =>
          match List.find (λ container, is_active_runtime container.(runtime)) here with
          | Some container =>
              let? plan :=
                reserve_or plan machine
                  (EndpointDemand_for_operation OpReplace (bool_decide (hook = Some machine)))
                  capacity_error in
              let plan := mark_used plan container.(container_id) in
              let others :=
                List.filter
                  (λ other,
                     negb (String.eqb other.(container_id) container.(container_id))
                     && is_active_runtime other.(runtime)
                     && ports_conflict other.(resolved_spec).(rs_ports) requested.(rq_ports))
                  here in
              let plan := fold_left (pre_stop machine) (map container_id others) plan in
              admit_operation plan machine requested (Some container) OpReplace
                (replace_operation machine container requested service_id options)
          | None =>
              let? plan :=
                reserve_or plan machine
                  (EndpointDemand_for_operation OpCreate (bool_decide (hook = Some machine)))
                  capacity_error in
              admit_operation plan machine requested None OpCreate
                (run_operation machine requested service_id options)
          end
      end
  end.

(** The code evaluates [global_endpoint_operation] again at each use and stops at the first hit;
    evaluating it once for every Machine differs only where a later evaluation would panic. *)
Definition plan_global (service_id : ServiceId) (current : list ServiceContainer)
    (hooks : list HookContainer) (requested : RequestedServiceSpec)
    (machines : list MachineObservation) (placement : PlacementState) (options : PlanOptions)
    : Planning (list DeployOperation * option MachineId * PlacementState) :=
  let ids := map (λ m, m.(mo_machine).(machine_id)) machines in
  let? operations :=
    expect (mapM (λ id, operation ← global_endpoint_operation current id requested options;
                        Some (id, operation)) ids) in
  let changing := List.filter (λ o, negb (bool_decide (o.2 = OpUnchanged))) operations in
  let has_changes := match changing with [] => false | _ => true end in
  let placement :=
    if is_hooked requested && has_changes
    then set_capacity placement (release_hooks placement.(ps_capacity) hooks) else placement in
  let capacity_error := capacity_error_for placement.(ps_capacity) (map fst changing) in
  let hook :=
    if is_hooked requested
    then fst <$> List.find
                   (λ o, fits_demand placement.(ps_capacity) o.1
                           (EndpointDemand_for_operation o.2 true)) changing
    else None in
  if is_hooked requested && bool_decide (hook = None) && has_changes then refuse capacity_error
  else
    let? plan :=
      try_fold (global_step service_id current requested options hook capacity_error) machines
        {| sp_placement := placement; sp_used := []; sp_operations := [] |} in
    let plan := remove_unused plan current in
    Ok (plan.(sp_operations), hook, plan.(sp_placement)).

(** ** Reserving shared placements *)

Definition choice_container (choice : ReplicaChoice) : option ContainerId :=
  match choice.(choice_action) with
  | ActUnchanged id | ActReplace id _ => Some id
  | ActCreate => None
  end.

Definition reserve_replicated_service_demand (capacity : CapacityBudget)
    (sockets : list SocketClaim) (requested : RequestedServiceSpec)
    (observed : option ServiceObservation) (machine : MachineId) (options : PlanOptions)
    : Planning (ReplicatedReservation * CapacityBudget * list SocketClaim) :=
  let current := default [] (so_containers <$> observed) in
  let hooks := default [] (so_hook_containers <$> observed) in
  let capacity :=
    match requested.(rq_mode) with
    | Replicated replicas =>
        if is_hooked requested
           && (length (up_to_date_in (on_machine current machine) requested options)
               <? N.to_nat replicas)
        then release_hooks capacity hooks else capacity
    | Global => capacity
    end in
  let? selected :=
    select_replicated requested current [machine] [] capacity sockets
      (capacity_error_for capacity [machine]) options in
  let '(reservation, capacity, sockets) := selected in
  Ok (reservation, capacity,
      fold_left
        (λ sockets container,
           if existsb (λ choice, bool_decide (choice_container choice
                                              = Some container.(container_id)))
                reservation.(choices)
           then sockets
           else sockets_release sockets container.(co_machine_id) container.(container_id))
        current sockets).

Record PlacementReservations : Type := {
  pr_capacity : CapacityBudget;
  pr_sockets : list SocketClaim;
  pr_reservations : bmap ServiceName ReplicatedReservation
}.

Definition PlacementReservations_new (snapshot : DeploySnapshot) : PlacementReservations :=
  {| pr_capacity := CapacityBudget_from_snapshot snapshot;
     pr_sockets := HostSockets_from_snapshot snapshot; pr_reservations := [] |}.

(** The trial state is committed only when every Service fits. *)
Definition reserve_on (self : PlacementReservations) (machine : MachineId)
    (requested : list RequestedServiceSpec) (observed : list ServiceObservation)
    (options : PlanOptions) : Planning PlacementReservations :=
  let? trial :=
    try_fold
      (λ trial spec,
         let service :=
           List.find (λ service, String.eqb service.(so_identity).(qs_name) spec.(rq_name))
             observed in
         let? reserved :=
           reserve_replicated_service_demand trial.(pr_capacity) trial.(pr_sockets) spec service
             machine options in
         let '(reservation, capacity, sockets) := reserved in
         Ok {| pr_capacity := capacity; pr_sockets := sockets;
               pr_reservations := binsert spec.(rq_name) reservation trial.(pr_reservations) |})
      requested self in
  Ok trial.

(** Socket effects are replayed in Deploy order, from the snapshot. *)
Definition into_placement (self : PlacementReservations) (snapshot : DeploySnapshot)
    : PlacementState :=
  {| ps_occupancy := []; ps_capacity := self.(pr_capacity);
     ps_sockets := HostSockets_from_snapshot snapshot;
     ps_reservations := self.(pr_reservations) |}.

Definition take_reservation (self : PlacementState) (service : ServiceName)
    : option CapacityAdmission * PlacementState :=
  (AdmissionReserved <$> bget self.(ps_reservations) service,
   {| ps_occupancy := self.(ps_occupancy); ps_capacity := self.(ps_capacity);
      ps_sockets := self.(ps_sockets);
      ps_reservations := bremove service self.(ps_reservations) |}).
End Globals.

(** ** When two publications share a socket *)

(** The addresses a bind listens on. *)
Definition binds `{IpNetOps} (b : HostBind) (address : IpAddr) : bool :=
  match b with
  | BindAll => true
  | BindAddress a =>
      bool_decide (a = address)
      || (is_unspecified a && Bool.eqb (is_ipv4 a) (is_ipv4 address))
  | BindPrefix p => net_contains p address
  end.

Section Binds.
Context `{IpNetLaws}.

Lemma binds_own (a : IpAddr) : binds (BindAddress a) a = true.
Proof. simpl. by rewrite bool_decide_eq_true_2. Qed.

Lemma binds_overlap_sym l r : binds_overlap l r = binds_overlap r l.
Proof.
  destruct l as [|a|p], r as [|b|q]; simpl; try done.
  - rewrite (orb_comm (is_unspecified a)). f_equal; [by apply bool_decide_ext|].
    by destruct (is_ipv4 a), (is_ipv4 b).
  - apply orb_comm.
Qed.

Lemma binds_overlap_meet l r :
  binds_overlap l r = true ↔ ∃ a, binds l a = true ∧ binds r a = true.
Proof.
  assert (Hsome : ∀ b, ∃ a, binds b a = true).
  { intros [|a|p]; [by exists (V4 0)|exists a; apply binds_own|].
    exists (net_network p). apply net_contains_network. }
  assert (Hap : ∀ a p, net_contains p a || (is_unspecified a
      && Bool.eqb (is_ipv4 a) (is_ipv4 (net_network p))) = true ↔
    ∃ x, binds (BindAddress a) x = true ∧ net_contains p x = true).
  { intros a p. rewrite orb_true_iff, andb_true_iff. split.
    - intros [Hc|[Hu Hf]]; [exists a; split; [apply binds_own|done]|].
      exists (net_network p). simpl. rewrite Hu, Hf. split; [apply orb_true_r|].
      apply net_contains_network.
    - intros (x & [Hx%bool_decide_eq_true|[Hu Hf]%andb_true_iff]%orb_true_iff & Hc);
        [subst; by left|right].
      split; [done|]. apply net_contains_family in Hc. by rewrite <-Hc. }
  destruct l as [|a|p], r as [|b|q]; simpl binds_overlap.
  1,2,3: split; [intros _; destruct (Hsome (BindAll)) as (x & Hx)|done].
  1: by exists (V4 0).
  1: exists b; split; [done|apply binds_own].
  1: exists (net_network q); split; [done|apply net_contains_network].
  - split; [intros _|done]. exists a. split; [apply binds_own|done].
  - rewrite orb_true_iff, andb_true_iff, bool_decide_eq_true, eqb_true_iff, orb_true_iff. split.
    + intros [->|[Hf [Hu|Hu]]].
      * exists b. split; apply binds_own.
      * exists b. split; [|apply binds_own]. simpl. by rewrite Hu, Hf, eqb_reflx, orb_true_r.
      * exists a. split; [apply binds_own|]. simpl. by rewrite Hu, Hf, eqb_reflx, orb_true_r.
    + simpl. intros (x & Ha & Hb). rewrite orb_true_iff, andb_true_iff, bool_decide_eq_true,
        eqb_true_iff in Ha, Hb. destruct Ha as [->|[Ha Hfa]], Hb as [->|[Hb Hfb]]; auto.
      right. split; [congruence|auto].
  - apply Hap.
  - split; [intros _|done]. exists (net_network p). split; [apply net_contains_network|done].
  - rewrite Hap. naive_solver.
  - rewrite orb_true_iff. simpl. split.
    + intros [Hc|Hc]; [exists (net_network q)|exists (net_network p)];
        split; auto using net_contains_network.
    + intros (x & Hp & Hq). by eapply net_nested.
Qed.
End Binds.

(** A publication listens on a port of an address. *)
Definition listens `{IpNetOps} (p : PortPublication) (address : IpAddr) (port : N)
    (protocol : TransportProtocol) : Prop :=
  match p with
  | HostPort bind published _ transport =>
      binds bind address = true ∧ published = port ∧ transport = protocol
  | IngressPort _ _ _ _ => False
  end.

(** two publications conflict exactly when some address, port and protocol would be
    listened on by both; Ingress publications never do. *)
Theorem host_ports_conflict_exact `{IpNetLaws} l r :
  host_ports_conflict l r = true ↔
  ∃ address port protocol, listens l address port protocol ∧ listens r address port protocol.
Proof.
  destruct l as [|lb lp lc lt], r as [|rb rp rc rt]; simpl; try naive_solver.
  rewrite !andb_true_iff, N.eqb_eq, bool_decide_eq_true, binds_overlap_meet. naive_solver.
Qed.

(** CIDR blocks over 32- and 128-bit addresses. *)
Module Cidr.
Definition width (a : IpAddr) : N := match a with V4 _ => 32 | V6 _ => 128 end.
Definition bits (a : IpAddr) : N := match a with V4 n | V6 n => n end.
Definition rebuild (a : IpAddr) (n : N) : IpAddr := match a with V4 _ => V4 n | V6 _ => V6 n end.
Definition host_bits (p : IpNet) : N := width p.(net_addr) - p.(net_prefix_len).
Definition block (p : IpNet) (n : N) : N := N.shiftr n (host_bits p).

#[local] Instance ops : IpNetOps := {|
  net_contains p a :=
    Bool.eqb (is_ipv4 p.(net_addr)) (is_ipv4 a)
    && (block p (bits a) =? block p (bits p.(net_addr)))%N;
  net_network p :=
    rebuild p.(net_addr) (N.shiftl (block p (bits p.(net_addr))) (host_bits p))
|}.

Lemma is_ipv4_rebuild a n : is_ipv4 (rebuild a n) = is_ipv4 a.
Proof. by destruct a. Qed.
Lemma bits_rebuild a n : bits (rebuild a n) = n.
Proof. by destruct a. Qed.

(** The network of a narrower block, seen in a wider one, is any address of the narrower. *)
Lemma shift_wider n m k1 k2 :
  (k2 <= k1)%N → N.shiftr n k2 = N.shiftr m k2 →
  N.shiftr (N.shiftl (N.shiftr m k2) k2) k1 = N.shiftr n k1.
Proof.
  intros Hle Heq. rewrite <-Heq. apply N.bits_inj. intros i.
  rewrite !N.shiftr_spec', N.shiftl_spec_high', N.shiftr_spec' by lia. f_equal. lia.
Qed.

#[local] Instance laws : IpNetLaws.
Proof.
  split; simpl.
  - intros p. rewrite is_ipv4_rebuild, bits_rebuild, eqb_reflx. simpl. unfold block.
    apply N.eqb_eq. apply shift_wider; [lia|done].
  - intros p a [Hf _]%andb_true_iff. rewrite is_ipv4_rebuild.
    apply eqb_prop in Hf. congruence.
  - intros p q a [Hfp Hp%N.eqb_eq]%andb_true_iff [Hfq Hq%N.eqb_eq]%andb_true_iff.
    apply eqb_prop in Hfp. apply eqb_prop in Hfq. rewrite !is_ipv4_rebuild, !bits_rebuild, Hfp, Hfq, eqb_reflx.
    simpl. unfold block in *.
    destruct (N.le_ge_cases (host_bits q) (host_bits p)) as [Hle|Hle]; [left|right];
      apply N.eqb_eq; [rewrite <-Hp|rewrite <-Hq]; by apply shift_wider.
Qed.
End Cidr.

Lemma host_ports_conflict_exact_witness :
  let web := HostPort (BindAddress (V4 0)) 443 8443 Tcp in
  let lan := HostPort (BindPrefix {| net_addr := V4 167772160; net_prefix_len := 8 |}) 443 443 Tcp in
  ∃ address port protocol,
    listens (H := Cidr.ops) web address port protocol ∧
    listens (H := Cidr.ops) lan address port protocol.
Proof.
  apply (@host_ports_conflict_exact Cidr.ops Cidr.laws).
  vm_compute. reflexivity.
Defined.
