(* ===== verification/Reconcile.v ===== *)
(** * What executing a Service's operations leads to

    An abstract execution of the operations planned by [Placement]: which host
    sockets are held, and which Containers of the Service exist.  The planner's
    bookkeeping is shown to refine it: executing its operations in order never
    makes two Containers hold one socket, and leaves exactly the requested
    replicas, all of the requested spec. *)

From S2P Require Import Prelude BTree Strings Values Machines StorageCapacity Volumes.
From S2P Require Import ServiceGraph Spec Services Deploy Placement.

Open Scope string_scope.
Open Scope list_scope.
Open Scope nat_scope.

(** ** Host sockets *)

Section Sockets.
Context `{IpNetOps, ShapeJson}.

(** A Container starts: [None] when one of its sockets is already held. *)
Definition start_container (held : list SocketClaim) (machine : MachineId)
    (ports : list PortPublication) : option (list SocketClaim) :=
  if existsb (λ claim, String.eqb claim.(claim_machine) machine
                       && ports_conflict claim.(claim_ports) ports) held
  then None
  else Some (held ++ [{| claim_machine := machine; claim_owner := None; claim_ports := ports |}]).

(** A start-first replacement runs both Containers for a while; a stop-first one never. *)
Definition execute_sockets (held : list SocketClaim) (operation : DeployOperation)
    : option (list SocketClaim) :=
  match operation with
  | RunContainer machine spec _ => start_container held machine spec.(rs_ports)
  | ReplaceContainer r =>
      match r.(repl_spec).(rs_update).(resolved_order) with
      | StopFirst =>
          start_container (sockets_release held r.(repl_machine_id) r.(repl_old_container_id))
            r.(repl_machine_id) r.(repl_spec).(rs_ports)
      | StartFirst =>
          held ← start_container held r.(repl_machine_id) r.(repl_spec).(rs_ports);
          Some (sockets_release held r.(repl_machine_id) r.(repl_old_container_id))
      end
  | StopContainer machine container _ | RemoveContainer machine container =>
      Some (sockets_release held machine container)
  | PrepareVolumes _ _ | WaitHealthy _ _ _ | StopHook _ _ | RunHook _ _ _ | RemoveVolume _ =>
      Some held
  end.

Fixpoint execute_all (held : list SocketClaim) (operations : list DeployOperation)
    : option (list SocketClaim) :=
  match operations with
  | [] => Some held
  | operation :: operations =>
      held ← execute_sockets held operation; execute_all held operations
  end.

Lemma execute_all_app held ops1 ops2 :
  execute_all held (ops1 ++ ops2) = held' ← execute_all held ops1; execute_all held' ops2.
Proof.
  revert held. induction ops1 as [|op ops1 IH]; intros held; simpl; [done|].
  destruct (execute_sockets held op); simpl; [apply IH|done].
Qed.

Lemma existsb_pointwise {A} (p q : A → bool) l : (∀ x, p x = q x) → existsb p l = existsb q l.
Proof. intros Hpq. induction l as [|x l IH]; simpl; [done|]. by rewrite Hpq, IH. Qed.

Lemma resolve_Some requested id order spec :
  resolve requested id order = Some spec →
  spec.(rs_ports) = requested.(rq_ports) ∧ spec.(rs_name) = requested.(rq_name) ∧
  spec.(rs_update).(resolved_order) = order ∧
  spec.(rs_mount_graph) = requested.(rq_mount_graph).
Proof.
  unfold resolve, to_resolved. intros Hr.
  destruct (ResolvedServiceMountGraph_try_from _) as [graph|] eqn:Hg; simpl in Hr; [|done].
  simplify_eq. split_and!; [done..|]. simpl. unfold ResolvedServiceMountGraph_try_from in Hg.
  apply result_bind_Ok in Hg as (volumes & Hv & [= <-]).
  unfold ResolvedServiceVolumeGraph_try_from in Hv. destruct (List.find _ _); [done|].
  injection Hv as <-. by destruct (rq_mount_graph requested).
Qed.

Lemma start_fits held machine requested spec :
  spec.(rs_ports) = requested.(rq_ports) →
  sockets_admit held machine requested None OpCreate
  = match start_container held machine spec.(rs_ports) with
    | Some held' => Ok held'
    | None => refuse (socket_error requested)
    end.
Proof.
  intros Hp. unfold sockets_admit, sockets_fits, start_container. rewrite Hp. simpl.
  rewrite (existsb_pointwise _ (λ claim, String.eqb claim.(claim_machine) machine
    && ports_conflict claim.(claim_ports) requested.(rq_ports)));
    [by destruct (existsb _ held)|].
  intros claim. simpl. rewrite andb_true_r. by destruct claim.(claim_owner); rewrite andb_true_r.
Qed.

Lemma existsb_filter {A} (p q : A → bool) l :
  existsb p (List.filter q l) = existsb (λ x, q x && p x) l.
Proof. induction l as [|x l IH]; simpl; [done|]. destruct (q x); simpl; by rewrite IH. Qed.

Lemma release_fresh held machine ports container :
  sockets_release (held ++ [{| claim_machine := machine; claim_owner := None;
                               claim_ports := ports |}]) machine container
  = sockets_release held machine container
    ++ [{| claim_machine := machine; claim_owner := None; claim_ports := ports |}].
Proof.
  unfold sockets_release. rewrite List.filter_app. simpl.
  by rewrite orb_true_r.
Qed.

(** Admitting the sockets of a replacement is what its execution needs, for either order. *)
Lemma replace_fits held held' machine requested container spec skip order :
  determine_update_order (Some container) requested = Some order →
  spec.(rs_ports) = requested.(rq_ports) → spec.(rs_update).(resolved_order) = order →
  sockets_admit held machine requested (Some container) OpReplace = Ok held' →
  execute_sockets held
    (ReplaceContainer {| repl_machine_id := machine;
                         repl_old_container_id := container.(container_id);
                         repl_spec := spec; repl_skip_health_monitor := skip |}) = Some held'.
Proof.
  intros Horder Hports Hres. unfold sockets_admit, sockets_fits. simpl.
  rewrite Horder. simpl. rewrite Hres, Hports.
  destruct order; simpl; unfold start_container; intros Hadmit.
  - rewrite (existsb_pointwise _ (λ claim, String.eqb claim.(claim_machine) machine
      && ports_conflict claim.(claim_ports) requested.(rq_ports))) in Hadmit.
    + destruct (existsb _ held); simpl in *; [done|]. rewrite release_fresh. by simplify_eq.
    + intros claim. simpl. rewrite andb_true_r.
      by destruct claim.(claim_owner); rewrite andb_true_r.
  - unfold sockets_release at 1. rewrite existsb_filter.
    rewrite (existsb_pointwise _ (λ claim, (negb (String.eqb claim.(claim_machine) machine)
      || negb (bool_decide (claim.(claim_owner) = Some container.(container_id))))
      && (String.eqb claim.(claim_machine) machine
          && ports_conflict claim.(claim_ports) requested.(rq_ports)))) in Hadmit.
    + destruct (existsb _ held); simpl in *; [done|]. by simplify_eq.
    + intros claim. simpl. destruct (String.eqb claim.(claim_machine) machine); simpl.
      * destruct claim.(claim_owner); simpl; by rewrite ?andb_true_r.
      * by rewrite ?andb_false_r.
Qed.

(** The socket bookkeeping of a partial plan is what executing it so far leads to. *)
Definition replays (held : list SocketClaim) (plan : ServicePlan) : Prop :=
  execute_all held plan.(sp_operations) = Some plan.(sp_placement).(ps_sockets).

Lemma replays_snoc held plan plan' operation :
  replays held plan → plan'.(sp_operations) = plan.(sp_operations) ++ [operation] →
  execute_sockets plan.(sp_placement).(ps_sockets) operation
    = Some plan'.(sp_placement).(ps_sockets) →
  replays held plan'.
Proof.
  unfold replays. intros Hr -> He. rewrite execute_all_app, Hr. simpl. by rewrite He.
Qed.

Lemma replays_pre_stop held machine containers plan :
  replays held plan → replays held (fold_left (pre_stop machine) containers plan).
Proof.
  revert plan. induction containers as [|c cs IH]; intros plan Hr; simpl; [done|].
  apply IH. by eapply replays_snoc.
Qed.

Lemma replays_remove_unused held current plan :
  replays held plan → replays held (remove_unused plan current).
Proof.
  unfold remove_unused. revert plan. induction current as [|c cs IH]; intros plan Hr; simpl;
    [done|]. apply IH. case_bool_decide; [done|]. by eapply replays_snoc.
Qed.

Lemma replays_run held plan plan' machine requested spec skip :
  spec.(rs_ports) = requested.(rq_ports) → replays held plan →
  admit_operation plan machine requested None OpCreate (Ok (RunContainer machine spec skip))
    = Ok plan' → replays held plan'.
Proof.
  intros Hp Hr. unfold admit_operation. rewrite (start_fits _ _ _ spec Hp).
  destruct (start_container _ _ _) as [held'|] eqn:Hs; simpl; [|done]. intros [= <-].
  by eapply replays_snoc.
Qed.

Lemma replays_replace held plan plan' machine requested container id options :
  replays held plan →
  admit_operation plan machine requested (Some container) OpReplace
    (replace_operation machine container requested id options) = Ok plan' → replays held plan'.
Proof.
  intros Hr. unfold admit_operation, replace_operation, expect. intros Ha.
  apply result_bind_Ok in Ha as (sockets & Hs & Ha).
  apply result_bind_Ok in Ha as (op & Hop & [= <-]).
  apply result_bind_Ok in Hop as (order & Ho%ok_or_Ok & Hop).
  apply result_bind_Ok in Hop as (spec & Hspec%ok_or_Ok & [= <-]).
  apply resolve_Some in Hspec as (Hp & _ & Hres & _).
  eapply replays_snoc; [done|done|]. by eapply replace_fits.
Qed.

Lemma replays_run_operation held plan plan' machine requested id options :
  replays held plan →
  admit_operation plan machine requested None OpCreate
    (run_operation machine requested id options) = Ok plan' → replays held plan'.
Proof.
  intros Hr. unfold run_operation, expect.
  destruct (determine_update_order None requested) as [order|]; simpl.
  - destruct (resolve requested id order) as [spec|] eqn:Hspec; simpl.
    + apply resolve_Some in Hspec as (Hp & _). by apply replays_run.
    + unfold admit_operation. by destruct (sockets_admit _ _ _ _ _).
  - unfold admit_operation. by destruct (sockets_admit _ _ _ _ _).
Qed.

Lemma replays_apply_choice held requested id by_id options plan choice plan' :
  replays held plan → apply_choice requested id by_id options plan choice = Ok plan' →
  replays held plan'.
Proof.
  intros Hr. unfold apply_choice. destruct choice.(choice_action) as [c|c stops|].
  - intros [= <-]. done.
  - intros (existing & _ & Ha)%result_bind_Ok.
    eapply replays_replace; [|done]. by apply replays_pre_stop.
  - apply replays_run_operation. done.
Qed.

Lemma plan_replicated_replays id current requested machines admission placement options
    ops hook placement' :
  plan_replicated id current requested machines admission placement options
    = Ok (ops, hook, placement') →
  execute_all placement.(ps_sockets) ops = Some placement'.(ps_sockets).
Proof.
  unfold plan_replicated. intros ([reservation placement0] & Hres & Hp)%result_bind_Ok.
  assert (Hs : placement0.(ps_sockets) = placement.(ps_sockets)).
  { destruct admission as [error|]; simpl in Hres; [|by simplify_eq].
    apply result_bind_Ok in Hres as ([[res cap] socks] & _ & [= <- <-]). done. }
  rewrite <-Hs. apply result_bind_Ok in Hp as (plan & Hplan & [= <- <- <-]).
  apply replays_remove_unused.
  eapply (try_fold_inv _ (replays placement0.(ps_sockets))); [| |exact Hplan]; [|done].
  intros plan1 choice plan2 _. apply replays_apply_choice.
Qed.

Lemma reusable_ports container requested options :
  reusable_global container requested options = Some true →
  container.(resolved_spec).(rs_ports) = requested.(rq_ports).
Proof.
  unfold reusable_global. destruct (_ && _ && _); [|done].
  destruct (resolve _ _ _) as [spec|] eqn:Hs; simpl; [|done].
  intros [= ->%bool_decide_eq_true]. by apply resolve_Some in Hs as [? _].
Qed.

Lemma find_panicking_Some {A} (p : A → option bool) l x :
  find_panicking p l = Some (Some x) → x ∈ l ∧ p x = Some true.
Proof.
  induction l as [|y l IH]; simpl; [done|]. destruct (p y) as [[]|] eqn:Hy; simpl; [| |done].
  - intros [= ->]. set_solver.
  - intros [? ?]%IH. set_solver.
Qed.

Lemma replays_global_step held id current requested options hook error plan observed plan' :
  replays held plan →
  global_step id current requested options hook error plan observed = Ok plan' →
  replays held plan'.
Proof.
  intros Hr. unfold global_step. destruct (List.find _ _) as [kept|]; [by intros [= <-]|].
  intros (reusable & Hreuse%ok_or_Ok & Hg)%result_bind_Ok.
  destruct reusable as [container|].
  { apply find_panicking_Some in Hreuse as [_ Hreuse%reusable_ports].
    eapply replays_run; [done| |exact Hg]. done. }
  assert (Hres : ∀ plan demand plan1, replays held plan →
    reserve_or plan observed.(mo_machine).(machine_id) demand error = Ok plan1 →
    replays held plan1).
  { unfold reserve_or. intros plan0 demand plan1 Hr0 Ho.
    apply result_bind_Ok in Ho as ([ok cap] & _ & Ho). by destruct ok; simplify_eq/=. }
  destruct (List.find _ _) as [container|];
    apply result_bind_Ok in Hg as (plan1 & H1 & Hg); apply Hres in H1; [|done| |done].
  - eapply replays_replace; [|exact Hg]. apply replays_pre_stop. done.
  - eapply replays_run_operation; [|exact Hg]. done.
Qed.

Lemma plan_global_replays id current hooks requested machines placement options
    ops hook placement' :
  plan_global id current hooks requested machines placement options
    = Ok (ops, hook, placement') →
  execute_all placement.(ps_sockets) ops = Some placement'.(ps_sockets).
Proof.
  unfold plan_global. intros (operations & _ & Hp)%result_bind_Ok.
  set (placement0 := if is_hooked requested && _ then _ else placement) in Hp.
  assert (Hs : placement0.(ps_sockets) = placement.(ps_sockets))
    by (unfold placement0; by destruct (is_hooked requested && _)).
  destruct (is_hooked requested && _ && _) in Hp; [done|].
  apply result_bind_Ok in Hp as (plan & Hplan & [= <- <- <-]). rewrite <-Hs.
  apply replays_remove_unused.
  eapply (try_fold_inv _ (replays placement0.(ps_sockets))); [| |exact Hplan]; [|done].
  intros plan1 choice plan2 _. apply replays_global_step.
Qed.
End Sockets.

(** ** Replica selection *)

Lemma bget_map_values `{OrdLaws K} {V W} (f : V → W) (m : bmap K V) k :
  bget (map (λ '(k, v), (k, f v)) m) k = f <$> bget m k.
Proof. induction m as [|[k' v] m IH]; simpl; [done|]. by case_decide. Qed.

Section Selection.
Context `{IpNetOps, ShapeJson}.
Context (requested : RequestedServiceSpec) (current : list ServiceContainer).
Context (machines : list MachineId) (options : PlanOptions).
Context (Hids : NoDup (map container_id current)).

Lemma containers_at_initial m :
  containers_at (by_machine_of current requested options) m ≡ₚ on_machine current m.
Proof.
  unfold containers_at, by_machine_of. rewrite bget_map_values.
  change (fold_left _ current []) with
    (fold_left (group_step co_machine_id (λ _, []) (λ v c, v ++ [c])) current []).
  rewrite bget_group.
  assert (Hf : List.filter (in_group co_machine_id m) current = on_machine current m).
  { apply List.filter_ext. intros c. unfold in_group.
    case_decide; [by apply eq_sym, String.eqb_eq|by apply eq_sym, String.eqb_neq]. }
  rewrite Hf. destruct (on_machine current m) as [|c cs]; simpl; [done|].
  rewrite fold_snoc. simpl. apply (stable_sort_perm _ (c :: cs)).
Qed.

(** What a choice says about the Container it names. *)
Definition choice_ok (ch : ReplicaChoice) : Prop :=
  ch.(choice_machine) ∈ machines ∧
  ∀ id, choice_container ch = Some id →
    ∃ c, c ∈ current ∧ c.(container_id) = id ∧ c.(co_machine_id) = ch.(choice_machine) ∧
         (ch.(choice_action) = ActUnchanged id ↔ is_up_to_date c requested options = true).

Record select_inv (st : SelectState) : Prop := {
  si_from : ∀ m c, c ∈ containers_at st.(sel_by_machine) m →
              c ∈ current ∧ c.(co_machine_id) = m;
  si_nodup : ∀ m, NoDup (map container_id (containers_at st.(sel_by_machine) m));
  si_free : ∀ m c, c ∈ containers_at st.(sel_by_machine) m →
              c.(container_id) ∉ omap choice_container st.(sel_choices);
  si_used : NoDup (omap choice_container st.(sel_choices));
  si_ok : ∀ ch, ch ∈ st.(sel_choices) → choice_ok ch
}.

Lemma try_machines_selected ms st tries cursor blocked sel cursor' blocked' :
  try_machines requested options ms st tries cursor blocked = Ok (Some sel, cursor', blocked') →
  let remaining := containers_at st.(sel_by_machine) sel.(at_machine) in
  sel.(at_machine) ∈ ms ∧
  sel.(at_operation) = replicated_operation (last remaining) requested options ∧
  sel.(at_pre_stops)
    = conflicting_siblings requested (last remaining) sel.(at_operation) remaining ∧
  sel.(at_demand) = EndpointDemand_for_operation sel.(at_operation) st.(sel_hook_pending) ∧
  capacity_reserve st.(sel_capacity) sel.(at_machine) sel.(at_demand)
    = Some (true, sel.(at_capacity)).
Proof.
  revert cursor blocked. induction tries as [|tries IH]; intros cursor blocked; simpl; [done|].
  intros (machine & Hm%ok_or_Ok & Ht)%result_bind_Ok.
  apply result_bind_Ok in Ht as (fits & Hfits & Ht).
  destruct fits; simpl in Ht; [|by eapply IH].
  apply result_bind_Ok in Ht as ([ok capacity] & Hr%ok_or_Ok & Ht). simpl in Ht.
  destruct ok; [|by eapply IH]. simplify_eq. simpl.
  split_and!; [by eapply list_elem_of_lookup_2|done|done|done|done].
Qed.

Lemma select_replica_inv ms error st st' :
  (∀ m, m ∈ ms → m ∈ machines) → select_inv st →
  select_replica requested options ms error st = Ok st' →
  select_inv st' ∧ length st'.(sel_choices) = S (length st.(sel_choices)).
Proof.
  intros Hms [Hfrom Hnd Hfree Hused Hok]. unfold select_replica.
  intros ([[sel cursor] blocked] & Ht & Hs)%result_bind_Ok.
  destruct sel as [sel|]; [|done]. apply try_machines_selected in Ht.
  simpl in Ht. set (machine := sel.(at_machine)) in *.
  destruct Ht as (Hin & Hop & Hstops & Hdemand & Hcap).
  set (remaining := containers_at st.(sel_by_machine) machine) in *.
  apply result_bind_Ok in Hs as (sockets & Hadmit & [= <-]). simpl.
  assert (Hat : ∀ l m, containers_at (binsert machine l st.(sel_by_machine)) m
    = if decide (machine = m) then l else containers_at st.(sel_by_machine) m).
  { intros l m. unfold containers_at. rewrite bget_binsert. repeat case_decide; done. }
  set (kept := List.filter _ (removelast remaining)).
  assert (Hkept : ∀ c, c ∈ kept → c ∈ remaining).
  { intros c [Hc _]%elem_of_filterb. clear -Hc. destruct remaining as [|x l _] using rev_ind;
      [done|]. rewrite removelast_last in Hc. set_solver. }
  assert (Hlast : ∀ c, last remaining = Some c →
    c ∈ remaining ∧ c.(container_id) ∉ map container_id kept).
  { intros c Hl. apply last_Some in Hl as (l & Hl). split; [rewrite Hl; set_solver|].
    intros (x & Hx & [Hx' _]%elem_of_filterb)%list_elem_of_fmap.
    rewrite Hl, removelast_last in Hx'. specialize (Hnd machine). fold remaining in Hnd.
    rewrite Hl, map_app, NoDup_app in Hnd. destruct Hnd as (_ & Hdis & _).
    eapply Hdis; [by apply list_elem_of_fmap_2|]. rewrite <-Hx. set_solver. }
  set (action := match last remaining with Some c => _ | None => ActCreate end).
  assert (Hcc : choice_container {| choice_machine := machine; choice_action := action |}
                = container_id <$> last remaining).
  { unfold choice_container, action. simpl. destruct (last remaining); [|done].
    by case_bool_decide. }
  assert (Homap : omap choice_container
      (st.(sel_choices) ++ [{| choice_machine := machine; choice_action := action |}])
    = omap choice_container st.(sel_choices) ++ option_list (container_id <$> last remaining)).
  { rewrite omap_app. f_equal. simpl. rewrite Hcc. by destruct (last remaining). }
  split; [split|]; simpl.
  - intros m c. rewrite Hat. case_decide; [subst m; intros Hc%Hkept; by apply Hfrom|].
    apply Hfrom.
  - intros m. rewrite Hat. case_decide; [|apply Hnd].
    specialize (Hnd machine). fold remaining in Hnd. apply NoDup_map_filter.
    clear -Hnd. destruct remaining as [|x l _] using rev_ind; [constructor|].
    rewrite removelast_last. rewrite map_app in Hnd. by apply NoDup_app in Hnd as [? _].
  - intros m c Hc. rewrite Homap. rewrite elem_of_app. rewrite Hat in Hc.
    assert (Hold : c ∈ containers_at st.(sel_by_machine) m).
    { case_decide; [subst m; by apply Hkept|done]. }
    intros [Hu|Hu]; [by apply (Hfree m c)|].
    destruct (last remaining) as [x|] eqn:Hl; simpl in Hu; [|set_solver].
    apply list_elem_of_singleton in Hu. destruct (Hlast x eq_refl) as [Hx Hxk].
    destruct (Hfrom m c Hold) as [Hcc' Hmc]. destruct (Hfrom machine x Hx) as [Hxc Hmx].
    case_decide as Hm; [|apply Hm; by rewrite <-Hmx, <-Hmc, (NoDup_map_inj _ _ _ _ Hids Hcc' Hxc)].
    apply Hxk. rewrite <-Hu. by apply list_elem_of_fmap_2.
  - rewrite Homap. destruct (last remaining) as [x|] eqn:Hl; simpl; [|by rewrite app_nil_r].
    apply NoDup_app. split_and!; [done| |apply NoDup_singleton].
    intros id Hid ->%list_elem_of_singleton. destruct (Hlast x eq_refl) as [Hx _].
    by apply (Hfree machine x).
  - intros ch [Hch| ->%list_elem_of_singleton]%elem_of_app; [by apply Hok|].
    split; simpl; [by apply Hms|]. rewrite Hcc. intros id Hid.
    destruct (last remaining) as [x|] eqn:Hl; simplify_eq/=.
    destruct (Hlast x eq_refl) as [Hx _]. destruct (Hfrom machine x Hx) as [Hxc Hmx].
    exists x. split_and!; [done|done|done|]. unfold action. simpl.
    rewrite Hop. unfold replicated_operation.
    destruct (is_up_to_date x requested options); by case_bool_decide.
  - rewrite length_app. simpl. lia.
Qed.

Lemma select_replicas_inv ms error n st st' :
  (∀ m, m ∈ ms → m ∈ machines) → select_inv st →
  select_replicas requested options ms error n st = Ok st' →
  select_inv st' ∧ length st'.(sel_choices) = n + length st.(sel_choices).
Proof.
  intros Hms. revert st. induction n as [|n IH]; intros st Hinv; simpl; [by intros [= <-]|].
  intros (st1 & H1 & H2)%result_bind_Ok.
  destruct (select_replica_inv _ _ _ _ Hms Hinv H1) as [Hinv1 Hlen1].
  destruct (IH st1 Hinv1 H2) as [Hinv2 Hlen2]. split; [done|]. lia.
Qed.

(** A reservation that accounts for the requested replicas. *)
Definition reservation_ok (n : nat) (reservation : ReplicatedReservation) : Prop :=
  length reservation.(choices) = n ∧
  NoDup (omap choice_container reservation.(choices)) ∧
  ∀ ch, ch ∈ reservation.(choices) → choice_ok ch.

Lemma select_replicated_ok occupancy capacity sockets error replicas reservation capacity' sockets' :
  requested.(rq_mode) = Replicated replicas →
  select_replicated requested current machines occupancy capacity sockets error options
    = Ok (reservation, capacity', sockets') →
  reservation_ok (N.to_nat replicas) reservation.
Proof.
  unfold select_replicated. intros ->. destruct (negb _); [done|].
  set (ms := stable_sort _ machines).
  intros (st & Hs & [= <- <- <-])%result_bind_Ok. simpl.
  eapply select_replicas_inv in Hs as [[_ _ _ Hused Hok] Hlen]; simpl in *.
  - split_and!; simpl; [lia|done|done].
  - intros m Hm. by apply elem_of_stable_sort in Hm.
  - split; simpl; [| |set_solver|constructor|set_solver].
    + intros m c Hc. rewrite containers_at_initial in Hc.
      apply elem_of_filterb in Hc as [Hc Hm%String.eqb_eq]. done.
    + intros m. rewrite containers_at_initial. by apply NoDup_map_filter.
Qed.
End Selection.

(** ** The Containers a replicated Service is left with *)

(** The observed Container an operation ends, and whether it starts a new one. *)
Definition retired_container (operation : DeployOperation) : option ContainerId :=
  match operation with
  | RemoveContainer _ c => Some c
  | ReplaceContainer r => Some r.(repl_old_container_id)
  | _ => None
  end.

Definition starts (operation : DeployOperation) : bool :=
  match operation with
  | RunContainer _ _ _ | ReplaceContainer _ => true
  | _ => false
  end.

Section Reconcile.
Context `{IpNetOps, ShapeJson}.

Definition replaced (ch : ReplicaChoice) : option ContainerId :=
  match ch.(choice_action) with ActReplace c _ => Some c | _ => None end.

Definition is_kept (ch : ReplicaChoice) : bool :=
  match ch.(choice_action) with ActUnchanged _ => true | _ => false end.

(** The effect of a stretch of operations on one Service. *)
Record effect (requested : RequestedServiceSpec) (id : ServiceId) (ids : list MachineId)
    (ops : list DeployOperation) (ended : list ContainerId) (n : nat) : Prop := {
  eff_ended : omap retired_container ops = ended;
  eff_started : length (List.filter starts ops) = n;
  eff_specs : ∀ op, op ∈ ops → starts op = true →
    op_machine_id op ∈ ids ∧ ∃ order, op_spec op = resolve requested id order ∧
                                      is_Some (resolve requested id order)
}.

Lemma effect_app requested id ids ops1 ops2 e1 e2 n1 n2 :
  effect requested id ids ops1 e1 n1 → effect requested id ids ops2 e2 n2 →
  effect requested id ids (ops1 ++ ops2) (e1 ++ e2) (n1 + n2).
Proof.
  intros [H1 H2 H3] [H4 H5 H6]. split.
  - by rewrite omap_app, H1, H4.
  - by rewrite List.filter_app, length_app, H2, H5.
  - intros op [Hop|Hop]%elem_of_app; auto.
Qed.

Lemma pre_stops_effect requested id ids machine stops plan :
  ∃ ops, (fold_left (pre_stop machine) stops plan).(sp_operations) = plan.(sp_operations) ++ ops ∧
    effect requested id ids ops [] 0 ∧
    (fold_left (pre_stop machine) stops plan).(sp_used) = plan.(sp_used).
Proof.
  revert plan. induction stops as [|c stops IH]; intros plan; simpl.
  - exists []. rewrite app_nil_r. split_and!; [done| |done]. split; [done|done|set_solver].
  - destruct (IH (pre_stop machine plan c)) as (ops & Hops & Heff & Hused).
    exists (StopContainer machine c PurposeFreeHostPorts :: ops).
    rewrite Hops. simpl. rewrite <-app_assoc. split_and!; [done| |done].
    destruct Heff as [H1 H2 H3]. split; [done|done|].
    intros op [->|Hop]%elem_of_cons Hs; [done|auto].
Qed.

Lemma admit_operation_Ok plan machine requested existing operation deploy plan' :
  admit_operation plan machine requested existing operation deploy = Ok plan' →
  ∃ op, deploy = Ok op ∧ plan'.(sp_operations) = plan.(sp_operations) ++ [op] ∧
        plan'.(sp_used) = plan.(sp_used).
Proof.
  unfold admit_operation. intros (sockets & _ & Ha)%result_bind_Ok.
  apply result_bind_Ok in Ha as (op & -> & [= <-]). by exists op.
Qed.

Lemma apply_choice_effect requested id current options ids plan ch plan' :
  ch.(choice_machine) ∈ ids →
  apply_choice requested id (bcollect (map (λ c, (c.(container_id), c)) current)) options plan ch
    = Ok plan' →
  ∃ ops, plan'.(sp_operations) = plan.(sp_operations) ++ ops ∧
    effect requested id ids ops (option_list (replaced ch)) (if is_kept ch then 0 else 1) ∧
    ∀ c, c ∈ plan'.(sp_used) ↔ c ∈ plan.(sp_used) ∨ choice_container ch = Some c.
Proof.
  intros Hm. unfold apply_choice, replaced, is_kept, choice_container.
  destruct ch.(choice_action) as [c|c stops|].
  - intros [= <-]. exists []. rewrite app_nil_r. split_and!; [done| |].
    + split; [done|done|set_solver].
    + intros x. simpl. rewrite elem_of_bset_insert. naive_solver.
  - intros (existing & Hex%ok_or_Ok & Ha)%result_bind_Ok.
    apply bget_bcollect_elem, list_elem_of_fmap in Hex as (y & [= -> <-] & _).
    apply admit_operation_Ok in Ha as (op & Hop & Hops & Hused).
    set (plan0 := mark_used _ existing.(container_id)) in Hops, Hused.
    destruct (pre_stops_effect requested id ids ch.(choice_machine) stops plan0)
      as (stopped & Hst & Heff & Hu0).
    apply result_bind_Ok in Hop as (order & Ho%ok_or_Ok & Hop).
    apply result_bind_Ok in Hop as (spec & Hspec%ok_or_Ok & [= <-]).
    eexists (stopped ++ [_]). rewrite Hops, Hst. simpl. rewrite <-app_assoc.
    split_and!; [done| |].
    + apply (effect_app _ _ _ _ _ [] [existing.(container_id)] 0 1); [done|].
      split; [done|done|]. intros x ->%list_elem_of_singleton _. simpl.
      split; [done|]. exists order. by rewrite Hspec.
    + intros x. rewrite Hused, Hu0. simpl. rewrite elem_of_bset_insert. naive_solver.
  - intros (op & Hop & Hops & Hused)%admit_operation_Ok.
    apply result_bind_Ok in Hop as (order & Ho%ok_or_Ok & Hop).
    apply result_bind_Ok in Hop as (spec & Hspec%ok_or_Ok & [= <-]).
    eexists. split_and!; [done| |].
    + split; [done|done|]. intros x ->%list_elem_of_singleton _. simpl.
      split; [done|]. exists order. by rewrite Hspec.
    + intros x. rewrite Hused. simpl. naive_solver.
Qed.

Lemma apply_choices_effect requested id current options ids chs plan plan' :
  (∀ ch, ch ∈ chs → ch.(choice_machine) ∈ ids) →
  try_fold (apply_choice requested id (bcollect (map (λ c, (c.(container_id), c)) current))
              options) chs plan = Ok plan' →
  ∃ ops, plan'.(sp_operations) = plan.(sp_operations) ++ ops ∧
    effect requested id ids ops (omap replaced chs)
      (length (List.filter (λ ch, negb (is_kept ch)) chs)) ∧
    ∀ c, c ∈ plan'.(sp_used) ↔ c ∈ plan.(sp_used) ∨ c ∈ omap choice_container chs.
Proof.
  revert plan. induction chs as [|ch chs IH]; intros plan Hm; simpl.
  - intros [= <-]. exists []. rewrite app_nil_r. split_and!; [done| |set_solver].
    split; [done|done|set_solver].
  - intros (plan1 & H1 & H2)%result_bind_Ok.
    apply (apply_choice_effect _ _ _ _ ids) in H1 as (ops1 & Ho1 & He1 & Hu1);
      [|apply Hm; set_solver].
    apply IH in H2 as (ops2 & Ho2 & He2 & Hu2); [|intros c Hc; apply Hm; set_solver].
    exists (ops1 ++ ops2). rewrite Ho2, Ho1, <-app_assoc. split_and!; [done| |].
    + pose proof (effect_app _ _ _ _ _ _ _ _ _ He1 He2) as Heff.
      destruct (replaced ch), (is_kept ch); simpl in *; done.
    + intros c. rewrite Hu2, Hu1. destruct (choice_container ch); simpl;
        rewrite ?elem_of_cons; naive_solver.
Qed.

Lemma remove_unused_effect requested id ids current plan :
  let unused :=
    List.filter (λ c, negb (bool_decide (c.(container_id) ∈ plan.(sp_used)))) current in
  ∃ ops, (remove_unused plan current).(sp_operations) = plan.(sp_operations) ++ ops ∧
    effect requested id ids ops (map container_id unused) 0.
Proof.
  unfold remove_unused. revert plan. induction current as [|c cs IH]; intros plan; simpl.
  - exists []. rewrite app_nil_r. split; [done|]. split; [done|done|set_solver].
  - case_bool_decide as Hc; simpl; [apply IH|].
    set (plan1 := {| sp_used := plan.(sp_used) |}).
    destruct (IH plan1) as (ops & Hops & Heff). rewrite Hops. simpl. rewrite <-app_assoc.
    eexists. split; [done|].
    apply (effect_app _ _ _ [_] ops [_] _ 0 0); [|exact Heff].
    split; [done|done|]. by intros op ->%list_elem_of_singleton.
Qed.

Lemma replaced_sublist chs : sublist (omap replaced chs) (omap choice_container chs).
Proof.
  induction chs as [|ch chs IH]; simpl; [constructor|].
  unfold replaced at 1, choice_container at 1.
  destruct (choice_action ch); [by apply sublist_cons|by apply sublist_skip|done].
Qed.

Lemma choice_counts chs :
  length (omap choice_container chs)
  = length (List.filter is_kept chs) + length (omap replaced chs) ∧
  length chs
  = length (List.filter is_kept chs) + length (List.filter (λ ch, negb (is_kept ch)) chs).
Proof.
  induction chs as [|ch chs [IH1 IH2]]; simpl; [done|].
  destruct ch as [machine []]; cbn; unfold omap in *; lia.
Qed.

(** Containers split into the used and the unused ones. *)
Lemma used_count current (used : list ContainerId) :
  NoDup (map container_id current) → NoDup used →
  (∀ c, c ∈ used → c ∈ map container_id current) →
  length current
  = length (List.filter (λ c, negb (bool_decide (c.(container_id) ∈ used))) current)
    + length used.
Proof.
  intros Hids Hnd Hsub.
  assert (Hperm : map container_id (List.filter (λ c, bool_decide (c.(container_id) ∈ used)) current)
                  ≡ₚ used).
  { apply NoDup_Permutation; [by apply NoDup_map_filter|done|]. intros c.
    rewrite list_elem_of_fmap. setoid_rewrite elem_of_filterb.
    setoid_rewrite bool_decide_eq_true. split; [by intros (x & -> & _ & ?)|].
    intros Hc. destruct (proj1 (list_elem_of_fmap _ _ _) (Hsub c Hc)) as (x & -> & Hx).
    by exists x. }
  rewrite <-(Permutation_length Hperm), length_map.
  clear. induction current as [|x current IH]; simpl; [done|].
  case_bool_decide; simpl; lia.
Qed.
End Reconcile.

Lemma reservation_ok_mono `{IpNetOps, ShapeJson} requested current options ids ids' n reservation :
  (∀ m, m ∈ ids → m ∈ ids') → reservation_ok requested current ids options n reservation →
  reservation_ok requested current ids' options n reservation.
Proof.
  intros Hids (Hlen & Hnd & Hok). split_and!; [done..|]. intros ch Hch.
  destruct (Hok ch Hch). split; auto.
Qed.

(** The operations of a replicated Service are those of the chosen replicas, each Container
    being chosen once, and the removals of what is not chosen.  The choices are made here or
    were reserved before. *)
Lemma plan_replicated_shape `{IpNetOps, ShapeJson} id current requested machines admission
    placement options ops hook placement' replicas ids :
  NoDup (map container_id current) → requested.(rq_mode) = Replicated replicas →
  (∀ m, m ∈ machines → m.(mo_machine).(machine_id) ∈ ids) →
  (∀ r, admission = AdmissionReserved r →
     reservation_ok requested current ids options (N.to_nat replicas) r) →
  plan_replicated id current requested machines admission placement options
    = Ok (ops, hook, placement') →
  ∃ reservation n,
    let chosen := omap choice_container reservation.(choices) in
    reservation_ok requested current ids options (N.to_nat replicas) reservation ∧
    n = length (List.filter (λ ch, negb (is_kept ch)) reservation.(choices)) ∧
    effect requested id ids ops
      (omap replaced reservation.(choices)
       ++ map container_id
            (List.filter (λ c, negb (bool_decide (c.(container_id) ∈ chosen))) current)) n.
Proof.
  intros Hids Hmode Hms Hadm Hp.
  apply result_bind_Ok in Hp as ([reservation placement0] & Hres & Hp).
  assert (Hok : reservation_ok requested current ids options (N.to_nat replicas) reservation).
  { destruct admission as [error|r]; [|injection Hres as <- _; by apply Hadm].
    apply result_bind_Ok in Hres as ([[res cap] socks] & Hsel & [= -> <-]).
    eapply reservation_ok_mono, (select_replicated_ok _ _ _ _ Hids _ _ _ _ _ _ _ _ Hmode Hsel).
    intros m (o & -> & Ho)%list_elem_of_fmap. by apply Hms. }
  apply result_bind_Ok in Hp as (plan & Hplan & [= Hops <- <-]).
  apply (apply_choices_effect _ _ _ _ ids) in Hplan as (ops1 & Ho1 & E1 & Hu);
    [|intros ch Hch; by apply (proj2 (proj2 Hok) ch Hch)].
  destruct (remove_unused_effect requested id ids current plan) as (ops2 & Ho2 & E2).
  rewrite Ho2, Ho1 in Hops. simpl in Hops. subst ops.
  exists reservation, (length (List.filter (λ ch, negb (is_kept ch)) reservation.(choices))).
  split_and!; [done|done|].
  assert (Hun : List.filter (λ c, negb (bool_decide (c.(container_id) ∈ plan.(sp_used)))) current
    = List.filter (λ c, negb (bool_decide
        (c.(container_id) ∈ omap choice_container reservation.(choices)))) current).
  { apply List.filter_ext. intros c. f_equal. apply bool_decide_ext. rewrite Hu. simpl. set_solver. }
  rewrite Hun in E2. pose proof (effect_app _ _ _ _ _ _ _ _ _ E1 E2) as E.
  by rewrite Nat.add_0_r in E.
Qed.

(** What is neither replaced nor removed runs the requested spec on an eligible Machine. *)
Lemma kept_ok `{IpNetOps, ShapeJson} requested options current ids (chs : list ReplicaChoice) c :
  NoDup (map container_id current) → (∀ ch, ch ∈ chs → choice_ok requested current ids options ch) →
  c ∈ current →
  ¬ (c.(container_id) ∈ omap replaced chs ∨
     c.(container_id) ∈ map container_id (List.filter (λ c, negb (bool_decide
       (c.(container_id) ∈ omap choice_container chs))) current)) →
  is_up_to_date c requested options = true ∧ c.(co_machine_id) ∈ ids.
Proof.
  intros Hids Hok Hc Hnot.
  assert (Hcu : c.(container_id) ∈ omap choice_container chs).
  { destruct (decide (c.(container_id) ∈ omap choice_container chs)) as [|Hn]; [done|].
    exfalso. apply Hnot. right. apply list_elem_of_fmap_2, elem_of_filterb.
    by rewrite bool_decide_eq_false_2. }
  apply list_elem_of_omap in Hcu as (ch & Hch & Hcc). destruct (Hok ch Hch) as [Hm Hx].
  destruct (Hx _ Hcc) as (x & Hx1 & Hx2 & Hx3 & Hx4).
  assert (x = c) as -> by (by eapply NoDup_map_inj).
  split; [|by rewrite Hx3]. apply Hx4. unfold choice_container in Hcc.
  destruct (choice_action ch) as [k|k stops|] eqn:Ha; simplify_eq; [done|].
  exfalso. apply Hnot. left. apply list_elem_of_omap. exists ch. split; [done|].
  unfold replaced. by rewrite Ha.
Qed.

(** Ending the Containers [ended] of the observed ones and starting what [started] says leaves
    [n] Containers of the requested Service, all of its spec, on Machines of [ids]. *)
Record reconciled `{ShapeJson} (requested : RequestedServiceSpec) (options : PlanOptions)
    (id : ServiceId) (ids : list MachineId) (n : nat) (current : list ServiceContainer)
    (ended : list ContainerId) (started : list DeployOperation) : Prop := {
  rec_count : length current + length started = n + length ended;
  rec_once : NoDup ended;
  rec_observed : ∀ c, c ∈ ended → c ∈ map container_id current;
  rec_kept : ∀ c, c ∈ current → c.(container_id) ∉ ended →
    is_up_to_date c requested options = true ∧ c.(co_machine_id) ∈ ids;
  rec_started : ∀ op, op ∈ started →
    op_machine_id op ∈ ids ∧
    ∃ order spec, resolve requested id order = Some spec ∧ op_spec op = Some spec
}.

(** Planning a replicated Service reconciles it, whether its replicas are chosen here or were
    reserved. *)
Lemma plan_replicated_counts `{IpNetOps, ShapeJson} id current requested machines admission
    placement options ops hook placement' replicas ids :
  NoDup (map container_id current) → requested.(rq_mode) = Replicated replicas →
  (∀ m, m ∈ machines → m.(mo_machine).(machine_id) ∈ ids) →
  (∀ r, admission = AdmissionReserved r →
     reservation_ok requested current ids options (N.to_nat replicas) r) →
  plan_replicated id current requested machines admission placement options
    = Ok (ops, hook, placement') →
  reconciled requested options id ids (N.to_nat replicas) current (omap retired_container ops)
    (List.filter starts ops).
Proof.
  intros Hids Hmode Hms Hadm Hp.
  destruct (plan_replicated_shape _ _ _ _ _ _ _ _ _ _ _ _ Hids Hmode Hms Hadm Hp)
    as (reservation & n & (Hlen & Hnd & Hok) & -> & [Hended Hstarted Hspecs]).
  set (ended := omap retired_container ops) in *. set (started := List.filter starts ops) in *.
  set (chs := reservation.(choices)) in *. set (unused := List.filter _ current) in *.
  assert (Hrep : ∀ c, c ∈ omap replaced chs → c ∈ omap choice_container chs).
  { intros c Hc. eapply elem_of_submseteq; [done|]. apply sublist_submseteq, replaced_sublist. }
  assert (Hin : ∀ c, c ∈ omap choice_container chs → c ∈ map container_id current).
  { intros c (ch & Hch & Hc)%list_elem_of_omap. destruct (Hok ch Hch) as [_ Hx].
    destruct (Hx c Hc) as (x & Hx1 & <- & _). by apply list_elem_of_fmap_2. }
  split.
  - rewrite Hended, Hstarted, length_app, length_map, <-Hlen.
    destruct (choice_counts chs) as [C1 C2].
    pose proof (used_count current (omap choice_container chs) Hids Hnd Hin) as C3.
    fold unused in C3. lia.
  - rewrite Hended. apply NoDup_app. split_and!.
    + eapply sublist_NoDup; [exact Hnd|apply replaced_sublist].
    + intros c Hc%Hrep (x & -> & [_ Hx]%elem_of_filterb)%list_elem_of_fmap.
      by rewrite bool_decide_eq_true_2 in Hx.
    + by apply NoDup_map_filter.
  - intros c. rewrite Hended. intros [Hc|Hc]%elem_of_app; [by apply Hin, Hrep|].
    apply list_elem_of_fmap in Hc as (x & -> & [Hx _]%elem_of_filterb).
    by apply list_elem_of_fmap_2.
  - intros c Hc. rewrite Hended, elem_of_app. apply (kept_ok requested options); done.
  - intros op [Hop Hs]%elem_of_filterb.
    destruct (Hspecs op Hop Hs) as (? & order & Hspec & [spec Hr]). split; [done|].
    exists order, spec. by rewrite Hspec.
Qed.

(** ** The Containers a global Service is left with *)

Section GlobalReconcile.
Context `{IpNetOps, ShapeJson}.
Context (requested : RequestedServiceSpec) (current : list ServiceContainer).
Context (options : PlanOptions) (Hids : NoDup (map container_id current)).

Definition starts_at (m : MachineId) (ops : list DeployOperation) : list DeployOperation :=
  List.filter (λ op, starts op && String.eqb (op_machine_id op) m) ops.

(** The observed Containers of a Machine that no operation ends, of whatever spec. *)
Definition survivors (m : MachineId) (ops : list DeployOperation) : list ServiceContainer :=
  List.filter (λ c, negb (bool_decide (c.(container_id) ∈ omap retired_container ops)))
    (on_machine current m).

Definition none_up_to_date (m : MachineId) : Prop :=
  ∀ c, c ∈ on_machine current m → is_up_to_date c requested options = false.

(** A Machine ends with one Container: an up-to-date one is kept; or none is up to date and a
    stopped one that was created for exactly this spec is run again, a new one is started in
    place of a running one, or a new one is started. *)
Inductive left_with (id : ServiceId) (m : MachineId)
    : list DeployOperation → list ServiceContainer → Prop :=
| SettledKept k :
    k ∈ on_machine current m → is_up_to_date k requested options = true → left_with id m [] [k]
| SettledRerun k :
    none_up_to_date m → k ∈ on_machine current m →
    reusable_global k requested options = Some true →
    left_with id m [RunContainer m k.(resolved_spec) options.(skip_health_monitor)] [k]
| SettledStarted op order spec :
    none_up_to_date m → starts op = true → op_machine_id op = m →
    resolve requested id order = Some spec → op_spec op = Some spec → left_with id m [op] [].

(** What is used and not ended of a Machine's Containers. *)
Definition still_held (m : MachineId) (used retired : list ContainerId) : list ServiceContainer :=
  List.filter (λ c, bool_decide (c.(container_id) ∈ used)
                    && negb (bool_decide (c.(container_id) ∈ retired))) (on_machine current m).

(** What one Machine's turn adds. *)
Record turn (id : ServiceId) (m : MachineId) (ops : list DeployOperation)
    (add : list ContainerId) : Prop := {
  turn_starts : ∀ op, op ∈ ops → starts op = true → op_machine_id op = m;
  turn_retires : ∀ c, c ∈ omap retired_container ops → c ∈ add;
  turn_own : ∀ c, c ∈ add → c ∈ map container_id (on_machine current m);
  turn_settled : left_with id m (List.filter starts ops) (still_held m add (omap retired_container ops))
}.

Lemma held_one m k :
  k ∈ on_machine current m → still_held m [k.(container_id)] [] = [k].
Proof.
  intros Hk. unfold still_held.
  assert (Hnd : NoDup (map container_id (on_machine current m))) by (by apply NoDup_map_filter).
  clear Hids. induction (on_machine current m) as [|c l IH]; [set_solver|].
  apply NoDup_cons in Hnd as [Hc Hnd]. simpl. apply elem_of_cons in Hk as [->|Hk].
  - rewrite bool_decide_eq_true_2 by set_solver. simpl. f_equal. apply filter_none.
    intros x Hx. rewrite bool_decide_eq_false_2; [done|]. intros Heq%list_elem_of_singleton.
    apply Hc. rewrite <-Heq. by apply list_elem_of_fmap_2.
  - rewrite bool_decide_eq_false_2; [by apply IH|]. intros Heq%list_elem_of_singleton.
    apply Hc. rewrite Heq. by apply list_elem_of_fmap_2.
Qed.

Lemma held_none m (used retired : list ContainerId) :
  (∀ c, c ∈ used → c ∈ retired) → still_held m used retired = [].
Proof.
  intros Hu. apply filter_none. intros c _.
  destruct (decide (c.(container_id) ∈ used)) as [Hc|Hc].
  - by rewrite !bool_decide_eq_true_2 by auto.
  - by rewrite bool_decide_eq_false_2.
Qed.

(** A new Container of the requested spec, in place of the Container it names, if any. *)
Lemma turn_started id m stops op order spec :
  none_up_to_date m → omap retired_container stops = [] → List.filter starts stops = [] →
  starts op = true → op_machine_id op = m → resolve requested id order = Some spec →
  op_spec op = Some spec →
  (∀ c, retired_container op = Some c → c ∈ map container_id (on_machine current m)) →
  turn id m (stops ++ [op]) (option_list (retired_container op)).
Proof.
  intros Hn Hr Hs Hop Hm Hspec Ho Hc.
  assert (Hret : omap retired_container (stops ++ [op]) = option_list (retired_container op)).
  { rewrite omap_app, Hr. simpl. by destruct (retired_container op). }
  split.
  - intros x [Hx| ->%list_elem_of_singleton]%elem_of_app; [|done]. intros Hx'.
    assert (x ∈ List.filter starts stops) as Hin by (by apply elem_of_filterb).
    rewrite Hs in Hin. set_solver.
  - by rewrite Hret.
  - intros c Hin. apply Hc. destruct (retired_container op); set_solver.
  - rewrite List.filter_app, Hs. simpl. rewrite Hop, Hret, held_none by done.
    by eapply SettledStarted.
Qed.

Lemma pre_stops_neutral machine stops plan :
  ∃ ops, (fold_left (pre_stop machine) stops plan).(sp_operations) = plan.(sp_operations) ++ ops ∧
    omap retired_container ops = [] ∧ List.filter starts ops = [] ∧
    (fold_left (pre_stop machine) stops plan).(sp_used) = plan.(sp_used).
Proof.
  destruct (pre_stops_effect requested "" [] machine stops plan) as (ops & Ho & [Hr Hs _] & Hu).
  exists ops. split_and!; [done|done| |done].
  destruct (List.filter starts ops); [done|simpl in Hs; lia].
Qed.

Lemma reserve_or_keeps plan m demand error plan1 :
  reserve_or plan m demand error = Ok plan1 →
  plan1.(sp_operations) = plan.(sp_operations) ∧ plan1.(sp_used) = plan.(sp_used).
Proof.
  unfold reserve_or. intros ([ok cap] & _ & Ho)%result_bind_Ok. by destruct ok; simplify_eq/=.
Qed.

Lemma global_step_turn id hook error plan observed plan' :
  let m := observed.(mo_machine).(machine_id) in
  global_step id current requested options hook error plan observed = Ok plan' →
  ∃ ops add, plan'.(sp_operations) = plan.(sp_operations) ++ ops ∧
    (∀ c, c ∈ plan'.(sp_used) ↔ c ∈ add ∨ c ∈ plan.(sp_used)) ∧ turn id m ops add.
Proof.
  intros m. unfold global_step. fold m.
  destruct (List.find _ (on_machine current m)) as [kept|] eqn:Hkept.
  { intros [= <-]. apply find_Some_elem in Hkept as [Hk Hup]. simpl.
    exists [], [kept.(container_id)]. rewrite app_nil_r. split_and!; [done| |].
    - intros c. rewrite elem_of_bset_insert. set_solver.
    - split; [set_solver..| |by rewrite held_one by done; apply SettledKept].
      intros c ->%list_elem_of_singleton. by apply list_elem_of_fmap_2. }
  assert (Hnone : none_up_to_date m) by (intros c Hc; rewrite find_None_elem in Hkept; by apply Hkept).
  intros (reusable & Hreuse%ok_or_Ok & Hg)%result_bind_Ok. destruct reusable as [container|].
  { apply find_panicking_Some in Hreuse as [Hc Hr].
    apply admit_operation_Ok in Hg as (op & [= <-] & Hops & Hused). simpl in Hops, Hused.
    exists [RunContainer m container.(resolved_spec) options.(skip_health_monitor)],
      [container.(container_id)]. split_and!; [done| |].
    - intros c. rewrite Hused, elem_of_bset_insert. set_solver.
    - split; [by intros op ->%list_elem_of_singleton|set_solver| |].
      + intros c ->%list_elem_of_singleton. by apply list_elem_of_fmap_2.
      + simpl. rewrite held_one by done. by apply SettledRerun. }
  destruct (List.find (λ c, is_active_runtime _) _) as [container|] eqn:Hfind;
    apply result_bind_Ok in Hg as (plan1 & H1 & Hg); apply reserve_or_keeps in H1 as [Ho1 Hu1];
    simpl in Ho1, Hu1; apply admit_operation_Ok in Hg as (op & Hop & Hops & Hused);
    apply result_bind_Ok in Hop as (order & _ & Hop);
    apply result_bind_Ok in Hop as (spec & Hspec%ok_or_Ok & [= <-]).
  - apply find_Some_elem in Hfind as [Hc _].
    destruct (pre_stops_neutral m (map container_id (List.filter (λ other,
      negb (String.eqb other.(container_id) container.(container_id))
      && is_active_runtime other.(runtime)
      && ports_conflict other.(resolved_spec).(rs_ports) requested.(rq_ports))
      (on_machine current m))) (mark_used plan1 container.(container_id)))
      as (stops & Hst & Hr & Hs & Hu).
    rewrite Hst in Hops. rewrite Hu in Hused. simpl in Hops, Hused. rewrite Ho1 in Hops.
    eexists (stops ++ [_]), [container.(container_id)]. split_and!.
    + by rewrite Hops, <-app_assoc.
    + intros c. rewrite Hused, elem_of_bset_insert, Hu1. set_solver.
    + match goal with |- turn _ _ (_ ++ [?op]) _ =>
        apply (turn_started id m stops op order spec); try done end.
      simpl. intros c [= <-]. by apply list_elem_of_fmap_2.
  - eexists [_], []. split_and!.
    + by rewrite Hops, Ho1.
    + intros c. rewrite Hused, Hu1. set_solver.
    + match goal with |- turn _ _ [?op] _ => by apply (turn_started id m [] op order spec) end.
Qed.

(** After the turns of [done]: its Machines are left with one Container, the others untouched. *)
Record turns (id : ServiceId) (done : list MachineId) (plan : ServicePlan) : Prop := {
  turns_done : ∀ m, m ∈ done →
    left_with id m (starts_at m plan.(sp_operations))
      (still_held m plan.(sp_used) (omap retired_container plan.(sp_operations)));
  turns_fresh : ∀ m, m ∉ done → starts_at m plan.(sp_operations) = [] ∧
    ∀ c, c ∈ on_machine current m → (c.(container_id) ∉ plan.(sp_used)) ∧
      c.(container_id) ∉ omap retired_container plan.(sp_operations)
}.

Lemma on_machine_elem m c : c ∈ on_machine current m ↔ c ∈ current ∧ c.(co_machine_id) = m.
Proof. unfold on_machine. by rewrite elem_of_filterb, String.eqb_eq. Qed.

(** Ids tell Machines apart. *)
Lemma same_container m m' c x :
  c ∈ on_machine current m → x ∈ on_machine current m' → c.(container_id) = x.(container_id) →
  c = x ∧ m = m'.
Proof.
  intros [Hc <-]%on_machine_elem [Hx <-]%on_machine_elem Heq.
  assert (c = x) as -> by (by eapply NoDup_map_inj). done.
Qed.

Lemma turn_elsewhere id m ops add m' :
  turn id m ops add → m' ≠ m →
  starts_at m' ops = [] ∧ ∀ c, c ∈ on_machine current m' →
    (c.(container_id) ∉ add) ∧ c.(container_id) ∉ omap retired_container ops.
Proof.
  intros [Hm Hret Hadd _] Hne.
  assert (Hno : ∀ c, c ∈ on_machine current m' → c.(container_id) ∉ add).
  { intros c Hc (x & Heq & Hx)%Hadd%list_elem_of_fmap.
    by destruct (same_container _ _ _ _ Hc Hx Heq). }
  split; [|intros c Hc; split; [by apply Hno|intros Hin%Hret; by eapply Hno]].
  apply filter_none. intros op Hop. apply andb_false_iff.
  destruct (starts op) eqn:Hs; [right|by left]. apply String.eqb_neq. by rewrite (Hm op Hop Hs).
Qed.

Lemma starts_at_app m ops1 ops2 : starts_at m (ops1 ++ ops2) = starts_at m ops1 ++ starts_at m ops2.
Proof. apply List.filter_app. Qed.

Lemma turn_here id m ops add : turn id m ops add → starts_at m ops = List.filter starts ops.
Proof.
  intros [Hm _ _ _]. apply filter_ext_in. intros op Hop%list_elem_of_In.
  destruct (starts op) eqn:Hs; [|done]. simpl. apply String.eqb_eq. by apply Hm.
Qed.

Lemma held_ext m (used used' retired retired' : list ContainerId) :
  (∀ c, c ∈ on_machine current m → (c.(container_id) ∈ used ↔ c.(container_id) ∈ used') ∧
     (c.(container_id) ∈ retired ↔ c.(container_id) ∈ retired')) →
  still_held m used retired = still_held m used' retired'.
Proof.
  intros Heq. apply filter_ext_in. intros c Hc%list_elem_of_In.
  destruct (Heq c Hc) as [Hu Hr]. by rewrite (bool_decide_ext _ _ Hu), (bool_decide_ext _ _ Hr).
Qed.

Lemma turns_step id m done plan plan' ops add :
  m ∉ done → turns id done plan →
  plan'.(sp_operations) = plan.(sp_operations) ++ ops →
  (∀ c, c ∈ plan'.(sp_used) ↔ c ∈ add ∨ c ∈ plan.(sp_used)) → turn id m ops add →
  turns id (m :: done) plan'.
Proof.
  intros Hfresh [Hdone Hnew] Hops Hused Ht. split.
  - intros m' Hin. rewrite Hops, starts_at_app, omap_app.
    destruct (decide (m' = m)) as [->|Hne].
    + destruct (Hnew m Hfresh) as [-> Hun]. rewrite (turn_here _ _ _ _ Ht).
      rewrite (held_ext m _ add _ (omap retired_container ops)); [apply Ht|].
      intros c Hc. destruct (Hun c Hc). rewrite Hused, elem_of_app. tauto.
    + assert (Hm' : m' ∈ done) by set_solver.
      destruct (turn_elsewhere _ m ops add m' Ht Hne) as [-> Hadd]. rewrite app_nil_r.
      erewrite held_ext; [by apply Hdone|]. intros c Hc. destruct (Hadd c Hc).
      rewrite Hused, elem_of_app. tauto.
  - intros m' [Hne Hm']%not_elem_of_cons. rewrite Hops, starts_at_app, omap_app.
    destruct (turn_elsewhere _ m ops add m' Ht Hne) as [-> Hadd].
    destruct (Hnew m' Hm') as [-> Hu]. split; [done|]. intros c Hc.
    destruct (Hadd c Hc), (Hu c Hc). rewrite Hused, elem_of_app. tauto.
Qed.

Lemma global_turns id hook error machines done plan plan' :
  NoDup (map (λ m, m.(mo_machine).(machine_id)) machines) →
  (∀ m, m ∈ machines → m.(mo_machine).(machine_id) ∉ done) → turns id done plan →
  try_fold (global_step id current requested options hook error) machines plan = Ok plan' →
  turns id (rev (map (λ m, m.(mo_machine).(machine_id)) machines) ++ done) plan'.
Proof.
  revert done plan. induction machines as [|o machines IH]; intros done plan Hnd Hd Ht; simpl.
  - by intros [= <-].
  - intros (plan1 & H1 & H2)%result_bind_Ok. apply NoDup_cons in Hnd as [Ho Hnd].
    apply global_step_turn in H1 as (ops & add & Hops & Hused & Hturn).
    rewrite <-app_assoc. simpl. eapply IH; [done| | |exact H2].
    + intros m Hm [Heq|Hin]%elem_of_cons; [|by eapply Hd; [right|]].
      apply Ho. rewrite <-Heq. by apply (list_elem_of_fmap_2 (λ m, m.(mo_machine).(machine_id))).
    + eapply turns_step; [|done..]. apply Hd. left.
Qed.

(** Removing what is unused leaves what is used and not ended, and starts nothing. *)
Lemma remove_unused_survivors plan m :
  let ops := (remove_unused plan current).(sp_operations) in
  starts_at m ops = starts_at m plan.(sp_operations) ∧
  survivors m ops = still_held m plan.(sp_used) (omap retired_container plan.(sp_operations)).
Proof.
  intros ops.
  destruct (remove_unused_effect requested "" [] current plan) as (ops2 & Ho & [Hr Hs _]).
  unfold ops. rewrite Ho. split.
  - rewrite starts_at_app. assert (starts_at m ops2 = []) as ->; [|apply app_nil_r].
    apply filter_none. intros op Hop. destruct (starts op) eqn:Hx; [exfalso|done].
    assert (op ∈ List.filter starts ops2) as Hin by (by apply elem_of_filterb).
    destruct (List.filter starts ops2); [set_solver|simpl in Hs; lia].
  - apply filter_ext_in. intros c [Hc _]%list_elem_of_In%on_machine_elem.
    rewrite omap_app, Hr. set (retired := omap retired_container plan.(sp_operations)).
    set (unused := map container_id _).
    assert (Hun : c.(container_id) ∈ unused ↔ c.(container_id) ∉ plan.(sp_used)).
    { unfold unused. rewrite list_elem_of_fmap. setoid_rewrite elem_of_filterb. split.
      - intros (x & -> & _ & Hx). by apply negb_true_iff, bool_decide_eq_false in Hx.
      - intros Hn. exists c. by rewrite bool_decide_eq_false_2. }
    rewrite (bool_decide_ext _ (c.(container_id) ∈ retired ∨ c.(container_id) ∉ plan.(sp_used)))
      by (by rewrite elem_of_app, Hun).
    destruct (decide (c.(container_id) ∈ plan.(sp_used))), (decide (c.(container_id) ∈ retired));
      repeat first [rewrite bool_decide_eq_true_2 by tauto
                   |rewrite bool_decide_eq_false_2 by tauto]; done.
Qed.
End GlobalReconcile.

(** C23: planning a global Service reconciles it: executing the operations leaves every eligible
    Machine with exactly one Container: an up-to-date one is kept and nothing started, or none
    is up to date and either the stopped one created for this spec is run again or one new
    Container of the requested spec is started and no observed one, stale or not, is left;
    every other Machine is left with none. *)
Theorem plan_global_reconciles `{IpNetOps, ShapeJson} id current hooks requested machines placement
    options ops hook placement' m :
  NoDup (map container_id current) →
  NoDup (map (λ m, m.(mo_machine).(machine_id)) machines) →
  plan_global id current hooks requested machines placement options = Ok (ops, hook, placement') →
  if bool_decide (m ∈ map (λ m, m.(mo_machine).(machine_id)) machines)
  then left_with requested current options id m (starts_at m ops) (survivors current m ops)
  else starts_at m ops = [] ∧ survivors current m ops = [].
Proof.
  intros Hids Hms. unfold plan_global. intros (operations & _ & Hp)%result_bind_Ok.
  set (placement0 := if is_hooked requested && _ then _ else placement) in Hp.
  destruct (is_hooked requested && _ && _) in Hp; [done|].
  apply result_bind_Ok in Hp as (plan & Hplan & [= <- _ _]).
  apply (global_turns requested current options Hids _ _ _ machines []) in Hplan as [Hdone Hnew];
    [|done|set_solver|split; simpl; set_solver].
  destruct (remove_unused_survivors requested current Hids plan m) as [-> ->].
  rewrite app_nil_r in Hdone, Hnew. case_bool_decide as Hm.
  - apply Hdone. by rewrite list_elem_of_In, <-in_rev, <-list_elem_of_In.
  - destruct (Hnew m) as [-> Hun].
    { by rewrite list_elem_of_In, <-in_rev, <-list_elem_of_In. }
    split; [done|]. apply filter_none. intros c Hc. destruct (Hun c Hc).
    by rewrite bool_decide_eq_false_2.
Qed.

Definition sample_error : PlanError := no_eligible_machines [].
Definition observed_up (id : string) : MachineObservation :=
  MachineObservation_new (sample_machine id id) MembershipUp.
Definition sample_placement : PlacementState :=
  {| ps_occupancy := []; ps_capacity := {| free := Some [("m1", 4%N); ("m2", 4%N)] |};
     ps_sockets := []; ps_reservations := [] |}.

Definition global_requested : RequestedServiceSpec :=
  {| rq_name := "api"; rq_mode := Global; rq_container := sample_container [] None;
     rq_placement := {| constraints := [] |}; rq_ports := [];
     rq_mount_graph := empty_mount_graph; rq_pre_deploy := None;
     rq_update := {| update_order := None; update_monitor_millis := None |} |}.

Lemma plan_global_reconciles_witness :
  let current := [sample_observation "c1" 5 "api" KindServiceContainer;
                  sample_observation "c2" 6 "api" KindServiceContainer] in
  match plan_global (H := Cidr.ops) (H0 := sample_shape_json) "s1" current [] global_requested
          [observed_up "m1"; observed_up "m2"] sample_placement PlanOptions_default with
  | Ok (ops, _, _) =>
      left_with (H0 := sample_shape_json) global_requested current PlanOptions_default "s1" "m1"
        (starts_at "m1" ops) (survivors current "m1" ops)
  | Err _ => False
  end.
Proof.
  set (current := [_; _]). cbv zeta.
  assert (Hids : NoDup (map container_id current)) by (by repeat constructor; set_solver).
  assert (Hms : NoDup (map (λ m, m.(mo_machine).(machine_id)) [observed_up "m1"; observed_up "m2"]))
    by (by repeat constructor; set_solver).
  destruct (plan_global _ _ _ _ _ _ _) as [[[ops hook] placement']|] eqn:Hp.
  - exact (@plan_global_reconciles Cidr.ops sample_shape_json _ current [] global_requested
             _ _ _ _ _ _ "m1" Hids Hms Hp).
  - vm_compute in Hp. discriminate.
Defined.
