(* ===== verification/VolumePlan.v ===== *)
(** * Volume planning

    [ployz/src/deploy/planning/storage.rs] and
    [ployz/src/deploy/planning/volumes.rs]: the observer-relative evidence of
    Docker Volumes and the locations a Deploy commits them to.  Choosing a
    location records the Service's complete Volume definition; locality,
    budgets and creation previews are derived from those assignments.

    A mount that names no Volume of its graph is a panic of the code; admitted
    graphs have none, and the model makes every traversal of such a graph fail. *)

From S2P Require Import Prelude BTree Strings Values Machines StorageCapacity Volumes.
From S2P Require Import ServiceGraph Spec Services Deploy Eligibility Placement.

Open Scope string_scope.
Open Scope list_scope.
Open Scope nat_scope.

(** ** Budgets *)

Definition bounds (volumes : list ServiceVolume) : bmap DockerVolumeName N :=
  bcollect
    (omap (λ volume,
             match volume.(sv_source).(vs_source) with
             | Provisioned name maximum_bytes _ => Some (name, maximum_bytes)
             | Bind _ _ _ _ | External _ | Ordinary _ _ _ | Tmpfs _ _ _ => None
             end) volumes).

Definition capacity (snapshot : DeploySnapshot) (machine : MachineObservation)
    : Planning StorageCapacity :=
  let refused message :=
    refuse (StorageRefused machine.(mo_machine).(machine_id) machine.(mo_machine).(machine_name)
              (StorageCapacityUnknown message)) in
  match bget snapshot.(snap_storage_capacity) machine.(mo_machine).(machine_id) with
  | Some (Ok capacity) => Ok capacity
  | Some (Err error) => refused error.(rpc_message)
  | None => refused "the Machine did not return fresh storage capacity"
  end.

Definition storage_budget_for (snapshot : DeploySnapshot) (machine : MachineObservation)
    (volumes : bmap DockerVolumeName N) : Planning StorageBudget :=
  let? capacity := capacity snapshot machine in
  map_err
    (λ source, Fails (StorageRefused machine.(mo_machine).(machine_id)
                        machine.(mo_machine).(machine_name) source))
    (budget capacity volumes).

(** ** The assignment ledger *)

Record VolumePlan : Type := {
  vp_snapshot : DeploySnapshot;
  vp_namespace : Namespace;
  assignments : bmap MachineId (bmap ServiceName ServiceStorageSpec)
}.

Record MachineStorageBudget : Type := {
  msb_machine_id : MachineId;
  msb_machine_name : MachineName;
  msb_budget : StorageBudget
}.

Record PlannedVolumes : Type := {
  creates : list (MachineId * ServiceVolume);
  budgets : list MachineStorageBudget
}.

Definition managed_volume_name (volume : ServiceVolume) : option DockerVolumeName :=
  managed_docker_volume_name volume.(sv_source).

Definition mounted_of (graph : ServiceVolumeGraph) : Planning (list ServiceVolume) :=
  expect (mounted_volumes graph).

Definition assigned_volumes (self : VolumePlan) : Planning (list (MachineId * ServiceVolume)) :=
  let? volumes :=
    collect_result
      (λ '(id, specs),
         let? mounted := collect_result (λ spec, mounted_of spec.(ss_volumes)) (bvalues specs) in
         Ok (map (pair id) (concat mounted))) self.(assignments) in
  Ok (concat volumes).

Definition VolumePlan_storage_budget (self : VolumePlan) (machine : MachineObservation)
    (volumes : list ServiceVolume) : Planning (option StorageBudget) :=
  let? assigned := assigned_volumes self in
  let requested :=
    bounds (map snd (List.filter (λ a, String.eqb a.1 machine.(mo_machine).(machine_id)) assigned)
            ++ volumes) in
  match requested with
  | [] => Ok None
  | _ =>
      let? budget := storage_budget_for self.(vp_snapshot) machine requested in
      Ok (Some budget)
  end.

Definition assign (self : VolumePlan) (machine : MachineId) (spec : RequestedServiceSpec)
    : Planning VolumePlan :=
  let specs := default [] (bget self.(assignments) machine) in
  if bcontains specs spec.(rq_name) then Ok self
  else
    let? storage := expect (result_ok (ServiceStorageSpec_try_from spec)) in
    Ok {| vp_snapshot := self.(vp_snapshot); vp_namespace := self.(vp_namespace);
          assignments :=
            binsert machine (binsert spec.(rq_name) storage specs) self.(assignments) |}.

(** ** Observed locations *)

#[global] Instance CreateVolumeRequest_eq_dec : EqDecision CreateVolumeRequest.
Proof. solve_decision. Defined.

Inductive VolumePresenceShape : Type :=
| PresentDockerVolume (observed : DockerVolume)
| PresentProvisionedDataset.

Record VolumePresence : Type := {
  presence_machine : MachineId;
  presence_name : DockerVolumeName;
  presence_shape : VolumePresenceShape
}.

Definition VolumePresence_matches (self : VolumePresence) (volume : ServiceVolume) : bool :=
  bool_decide (managed_volume_name volume = Some self.(presence_name))
  && match self.(presence_shape) with
     | PresentDockerVolume observed => matches_managed_volume volume.(sv_source) observed
     | PresentProvisionedDataset => is_provisioned volume.(sv_source).(vs_source)
     end.

Definition observed_locations (self : VolumePlan) : list VolumePresence :=
  map (λ observed,
         {| presence_machine := observed.(dv_id).(dvid_machine_id);
            presence_name := observed.(dv_id).(dvid_name);
            presence_shape := PresentDockerVolume observed |})
    self.(vp_snapshot).(snap_volumes).(observations)
  ++ concat
       (map (λ '(machine, capacity),
               match capacity with
               | Ok capacity =>
                   map (λ name, {| presence_machine := machine; presence_name := name;
                                   presence_shape := PresentProvisionedDataset |})
                     (bkeys capacity.(volumes))
               | Err _ => []
               end) self.(vp_snapshot).(snap_storage_capacity)).

Definition incompatible_on (self : VolumePlan) (machine : MachineId) (volume : ServiceVolume)
    : Planning bool :=
  let? assigned := assigned_volumes self in
  Ok (existsb
        (λ a, String.eqb a.1 machine
              && bool_decide (managed_volume_name volume = managed_volume_name a.2)
              && negb (bool_decide (to_create_volume_request a.2.(sv_source)
                                    = to_create_volume_request volume.(sv_source)))) assigned
      || existsb
           (λ located, String.eqb located.(presence_machine) machine
                       && bool_decide (managed_volume_name volume = Some located.(presence_name))
                       && negb (VolumePresence_matches located volume))
           (observed_locations self)).

Inductive VolumeLocality : Type :=
| Absent
| Located (first : MachineId) (others : bset MachineId).

Definition locality (self : VolumePlan) (volume : ServiceVolume) : Planning VolumeLocality :=
  let? all := assigned_volumes self in
  let assigned :=
    bset_of (map fst (List.filter
                        (λ a, bool_decide (managed_volume_name volume
                                           = managed_volume_name a.2)) all)) in
  let locations :=
    match assigned with
    | [] =>
        bset_of (map presence_machine
                   (List.filter (λ located, VolumePresence_matches located volume)
                      (observed_locations self)))
    | _ => assigned
    end in
  match locations with
  | first :: others => Ok (Located first others)
  | [] =>
      let? _ :=
        if is_provisioned volume.(sv_source).(vs_source)
        then try_fold (λ (_ : unit) machine,
                         let? _ := capacity self.(vp_snapshot) machine in Ok tt)
               self.(vp_snapshot).(snap_machines) tt
        else Ok tt in
      Ok Absent
  end.

(** ** Scoping a Service to its Namespace *)

Definition set_mount_graph (spec : RequestedServiceSpec) (graph : ServiceMountGraph)
    : RequestedServiceSpec :=
  {| rq_name := spec.(rq_name); rq_mode := spec.(rq_mode); rq_container := spec.(rq_container);
     rq_placement := spec.(rq_placement); rq_ports := spec.(rq_ports); rq_mount_graph := graph;
     rq_pre_deploy := spec.(rq_pre_deploy); rq_update := spec.(rq_update) |}.

Definition scope_requested (spec : RequestedServiceSpec) (namespace : Namespace)
    : Planning RequestedServiceSpec :=
  match ServiceMountGraph_scope_to_namespace spec.(rq_mount_graph) namespace with
  | Ok graph => Ok (set_mount_graph spec graph)
  | Err (IncompatibleVolumeAliases name) => refuse (ConflictingDockerVolumeDefinitions name)
  | Err _ => Err Panics
  end.

(** ** Mounted managed Volumes *)

Definition mounted_managed_volumes (graph : ServiceVolumeGraph) : Planning (list ServiceVolume) :=
  let? mounted := mounted_of graph in
  Ok (bvalues
        (fold_left
           (λ by_docker_name volume,
              match managed_volume_name volume with
              | Some name => bor_insert name volume by_docker_name
              | None => by_docker_name
              end) mounted [])).

Record ManagedVolumeUse : Type := { use_service : RequestedServiceSpec; use_global : bool }.

Definition use_name (self : ManagedVolumeUse) : string := self.(use_service).(rq_name).

Definition is_global (mode : ServiceMode) : bool :=
  match mode with Global => true | Replicated _ => false end.

Definition record_use (spec : RequestedServiceSpec)
    (uses : bmap DockerVolumeName (list ManagedVolumeUse)) (volume : ServiceVolume)
    : bmap DockerVolumeName (list ManagedVolumeUse) :=
  match managed_volume_name volume with
  | None => uses
  | Some name =>
      let known := default [] (bget uses name) in
      if existsb (λ u, String.eqb (use_name u) spec.(rq_name)) known then uses
      else binsert name
             (known ++ [{| use_service := spec; use_global := is_global spec.(rq_mode) |}]) uses
  end.

Definition managed_volume_uses (requested : list RequestedServiceSpec)
    : Planning (bmap DockerVolumeName (list ManagedVolumeUse)) :=
  try_fold
    (λ uses spec,
       let? mounted := mounted_of spec.(rq_mount_graph).(mg_volumes) in
       Ok (fold_left (record_use spec) mounted uses)) requested [].

Definition reject_mixed (_ : unit) (entry : DockerVolumeName * list ManagedVolumeUse)
    : Planning unit :=
  let '(name, uses) := entry in
  match List.find use_global uses, List.find (λ u, negb u.(use_global)) uses with
  | Some global, Some replicated =>
      refuse (MixedVolumeModes name (use_name global) (use_name replicated))
  | _, _ => Ok tt
  end.

Definition reject_mixed_volume_modes (uses : bmap DockerVolumeName (list ManagedVolumeUse))
    : Planning unit :=
  try_fold reject_mixed uses tt.

(** ** Components of Services that share a Volume *)

Abbreviation SharedVolume := (DockerVolumeName * list ManagedVolumeUse)%type (only parsing).
Abbreviation SharedVolumeComponent := (list SharedVolume) (only parsing).

Definition shares_a_service (component : SharedVolumeComponent) (candidate : SharedVolume) : bool :=
  existsb
    (λ c, existsb (λ volume, existsb (λ u, String.eqb (use_name u) (use_name c)) volume.2)
            component) candidate.2.

(** [position] and [remove]: the first match, and the rest in order. *)
Fixpoint take_first {A} (p : A → bool) (l : list A) : option (A * list A) :=
  match l with
  | [] => None
  | x :: l =>
      if p x then Some (x, l)
      else '(y, rest) ← take_first p l; Some (y, x :: rest)
  end.

(** The inner [while let]; each turn removes one of [remaining], so its length is fuel enough. *)
Fixpoint grow_component (fuel : nat) (component : SharedVolumeComponent)
    (remaining : list SharedVolume) : SharedVolumeComponent * list SharedVolume :=
  match fuel, take_first (shares_a_service component) remaining with
  | S fuel, Some (next, remaining) => grow_component fuel (component ++ [next]) remaining
  | _, _ => (component, remaining)
  end.

Fixpoint components_loop (fuel : nat) (remaining : list SharedVolume)
    : list SharedVolumeComponent :=
  match fuel, remaining with
  | S fuel, first :: remaining =>
      let '(component, remaining) := grow_component (length remaining) [first] remaining in
      component :: components_loop fuel remaining
  | _, _ => []
  end.

Definition is_shared (volume : SharedVolume) : bool :=
  (1 <? length volume.2) && forallb (λ u, negb u.(use_global)) volume.2.

Definition shared_volume_components (uses : bmap DockerVolumeName (list ManagedVolumeUse))
    : list SharedVolumeComponent :=
  let remaining := List.filter is_shared uses in
  components_loop (length remaining) remaining.

(** ** Constraints on candidate Machines *)

Definition volume_observed_on (snapshot : DeploySnapshot) (machine : MachineId)
    (name : DockerVolumeName) : option DockerVolume :=
  List.find (λ existing, String.eqb existing.(dv_id).(dvid_machine_id) machine
                         && String.eqb existing.(dv_id).(dvid_name) name)
    snapshot.(snap_volumes).(observations).

Definition validate_provisioned_on (snapshot : DeploySnapshot) (volume : ServiceVolume)
    (_ : unit) (machine : MachineObservation) : Planning unit :=
  match volume.(sv_source).(vs_source) with
  | Provisioned name maximum_bytes _ =>
      let machine_name := machine.(mo_machine).(machine_name) in
      match volume_observed_on snapshot machine.(mo_machine).(machine_id) name with
      | None => Ok tt
      | Some existing =>
          match existing.(dv_storage) with
          | PlainStorage _ => refuse (ExistingPlainVolume name machine_name)
          | ProvisionedStorage _ _ _ =>
              if matches_managed_volume volume.(sv_source) existing then Ok tt
              else refuse (ExistingProvisionedVolumeMismatch name machine_name maximum_bytes)
          end
      end
  | _ => Err Panics
  end.

Definition validate_provisioned_volumes (snapshot : DeploySnapshot) (spec : RequestedServiceSpec)
    (machines : list MachineObservation) : Planning unit :=
  let? mounted := expect (mounted_provisioned_volumes spec.(rq_mount_graph).(mg_volumes)) in
  try_fold (λ u volume, try_fold (validate_provisioned_on snapshot volume) machines u) mounted tt.

Definition record_location (name : DockerVolumeName) (source : VolumeSource)
    (definitions : bmap DockerVolumeId VolumeSource) (machine : MachineObservation)
    : Planning (bmap DockerVolumeId VolumeSource) :=
  let id := {| dvid_machine_id := machine.(mo_machine).(machine_id); dvid_name := name |} in
  if option_test (λ existing, negb (bool_decide (existing = source))) (bget definitions id)
  then refuse (ConflictingDockerVolumeDefinitions name)
  else Ok (binsert id source definitions).

Definition record_provisioned (definitions : bmap DockerVolumeId VolumeSource)
    (spec : RequestedServiceSpec) (machines : list MachineObservation)
    : Planning (bmap DockerVolumeId VolumeSource) :=
  let? mounted := expect (mounted_provisioned_volumes spec.(rq_mount_graph).(mg_volumes)) in
  try_fold
    (λ definitions volume,
       match volume.(sv_source).(vs_source) with
       | Provisioned name _ _ =>
           try_fold (record_location name volume.(sv_source)) machines definitions
       | _ => Err Panics
       end) mounted definitions.

(** Names of the known Machines the Volume is observed on, each once. *)
Definition located_names (self : VolumePlan) (name : DockerVolumeName) : list MachineName :=
  fold_left
    (λ names located,
       match machine_name_of self.(vp_snapshot) located.(presence_machine) with
       | None => names
       | Some machine_name =>
           if bool_decide (machine_name ∈ names) then names else names ++ [machine_name]
       end)
    (List.filter (λ located, String.eqb located.(presence_name) name) (observed_locations self))
    [].

Definition volume_anchor (self : VolumePlan) (name : DockerVolumeName)
    (requested : bset PlacementConstraint) : Planning (option EliminatingConstraint) :=
  let located_on := located_names self name in
  let? hits_located :=
    try_any
      (λ machine,
         if bool_decide (machine.(mo_machine).(machine_name) ∈ located_on)
         then expect (machine_matches_placement machine.(mo_machine)
                        {| constraints := requested |})
         else Ok false) self.(vp_snapshot).(snap_machines) in
  Ok match located_on, requested with
     | [], [] => None
     | [], _ => Some (SharedVolumeNoCommonMachine name requested)
     | _, [] => Some (VolumeAlreadyOn name located_on)
     | _, _ =>
         if hits_located then Some (VolumeAlreadyOn name located_on)
         else Some (VolumeConflictsWithPlacement name located_on requested)
     end.

Definition retain_located (locality : VolumeLocality) (machines : list MachineObservation)
    : list MachineObservation :=
  match locality with
  | Absent => machines
  | Located first others =>
      List.filter (λ m, String.eqb m.(mo_machine).(machine_id) first
                        || bool_decide (m.(mo_machine).(machine_id) ∈ others)) machines
  end.

(** One turn of the loop over mounted Volumes: the surviving Machines and the missing Volumes. *)
Definition constrain_volume (self : VolumePlan) (mode : ServiceMode)
    (state : list MachineObservation * list ServiceVolume) (volume : ServiceVolume)
    : Planning (list MachineObservation * list ServiceVolume) :=
  let '(machines, missing) := state in
  let? machines :=
    try_filter (λ m, let? bad := incompatible_on self m.(mo_machine).(machine_id) volume in
                     Ok (negb bad)) machines in
  match mode with
  | Global => Ok (machines, missing)
  | Replicated _ =>
      let? locality := locality self volume in
      Ok (retain_located locality machines,
          match locality with Absent => missing ++ [volume] | Located _ _ => missing end)
  end.

Definition has_gap (snapshot : DeploySnapshot) (machine : MachineObservation) : bool :=
  match machine_gap snapshot.(snap_volumes) machine.(mo_machine).(machine_id) with
  | Some _ => true
  | None => false
  end.

(** The Machine, its name and its message, when the inventory of a candidate is missing. *)
Definition incomplete_machine (snapshot : DeploySnapshot) (machines : list MachineObservation)
    : option (MachineId * MachineName * string) :=
  find_map
    (λ machine,
       message ← machine_gap snapshot.(snap_volumes) machine.(mo_machine).(machine_id);
       Some (machine.(mo_machine).(machine_id), machine.(mo_machine).(machine_name), message))
    machines.

Definition volume_constraints (self : VolumePlan) (spec : RequestedServiceSpec)
    (machines : list MachineObservation)
    : Planning (list ServiceVolume * list ServiceVolume * list MachineObservation) :=
  let snapshot := self.(vp_snapshot) in
  let? mounted := mounted_managed_volumes spec.(rq_mount_graph).(mg_volumes) in
  let incomplete := incomplete_machine snapshot machines in
  let machines :=
    match mounted with
    | [] => machines
    | _ => List.filter (λ m, negb (has_gap snapshot m)) machines
    end in
  let names := omap managed_volume_name mounted in
  match machines, incomplete, head mounted ≫= managed_volume_name with
  | [], Some (machine_id, machine, message), Some name =>
      refuse (DockerVolumeUnavailable {| dvid_machine_id := machine_id; dvid_name := name |}
                ("Machine '" +:+ machine +:+ "' " +:+ message))
  | _, _, _ =>
      match named_gap snapshot.(snap_volumes)
              (λ id, existsb (λ m, String.eqb m.(mo_machine).(machine_id) id.(dvid_machine_id))
                       machines
                     && bool_decide (id.(dvid_name) ∈ names)) with
      | Some (id, message) => refuse (DockerVolumeUnavailable id message)
      | None =>
          let? state :=
            try_fold (constrain_volume self spec.(rq_mode)) mounted (machines, []) in
          let '(machines, missing) := state in
          match machines with
          | [] =>
              let? anchors :=
                collect_result
                  (λ name, volume_anchor self name spec.(rq_placement).(constraints)) names in
              refuse (no_eligible_machines (omap id anchors))
          | _ => Ok (mounted, missing, machines)
          end
      end
  end.

Definition planned_volume_constraints (self : VolumePlan) (spec : RequestedServiceSpec)
    (machines : list MachineObservation)
    : Planning (list ServiceVolume * list ServiceVolume * list MachineObservation) :=
  let? _ := validate_provisioned_volumes self.(vp_snapshot) spec machines in
  volume_constraints self spec machines.

Definition constrain_candidates (self : VolumePlan) (spec : RequestedServiceSpec)
    (machines : list MachineObservation) : Planning (list MachineObservation) :=
  let? constrained := planned_volume_constraints self spec machines in
  Ok constrained.2.

(** ** Validating the whole target *)

Definition validate_definition (self : VolumePlan) (name_errors_with_service : bool)
    (definitions : bmap DockerVolumeId VolumeSource) (spec : RequestedServiceSpec)
    : Planning (bmap DockerVolumeId VolumeSource) :=
  let? provisioned := expect (has_mounted_provisioned_volume spec.(rq_mount_graph).(mg_volumes)) in
  if negb provisioned then Ok definitions
  else
    in_service name_errors_with_service spec.(rq_name)
      (let? candidates := placement_candidates spec self.(vp_namespace) self.(vp_snapshot) in
       let? definitions := record_provisioned definitions spec candidates in
       let? machines :=
         try_filter (λ m, let? e := eligibility spec self.(vp_namespace) m in
                          Ok match e with Eligible => true | _ => false end) candidates in
       match machines with
       | [] => Ok definitions
       | _ =>
           let? _ := validate_provisioned_volumes self.(vp_snapshot) spec machines in
           let? _ := volume_constraints self spec machines in
           Ok definitions
       end).

Definition validate_provisioned_volume_definitions (self : VolumePlan)
    (target : list RequestedServiceSpec) : Planning unit :=
  let? _ := try_fold (validate_definition self (1 <? length target)) target [] in
  Ok tt.

Definition VolumePlan_new (snapshot : DeploySnapshot) (namespace : Namespace)
    (target requested : list RequestedServiceSpec) : Planning VolumePlan :=
  let? uses := managed_volume_uses requested in
  let? _ := reject_mixed_volume_modes uses in
  let plan := {| vp_snapshot := snapshot; vp_namespace := namespace; assignments := [] |} in
  let? _ := validate_provisioned_volume_definitions plan target in
  Ok plan.

(** ** Shared placement *)

Definition volume_eligible_machine_ids (self : VolumePlan) (spec : RequestedServiceSpec)
    (options : PlanOptions) : Planning (list MachineId) :=
  let? machines := eligible_machines spec self.(vp_namespace) self.(vp_snapshot) options in
  let? constrained := planned_volume_constraints self spec machines in
  Ok (map (λ m, m.(mo_machine).(machine_id)) constrained.2).

(** Constraints are collected in a set, in order. *)
Definition no_eligible_shared (self : VolumePlan) (component : SharedVolumeComponent)
    : Planning PlanError :=
  let? anchors :=
    collect_result
      (λ '(name, uses),
         match bset_of (concat (map (λ u, u.(use_service).(rq_placement).(constraints)) uses)) with
         | [] => volume_anchor self name []
         | requested => Ok (Some (SharedVolumeNoCommonMachine name requested))
         end) component in
  Ok (no_eligible_machines (omap id anchors)).

(** [.is_ok()] of a call that may also panic. *)
Definition succeeds {T} (r : Planning T) : Planning bool :=
  match r with
  | Ok _ => Ok true
  | Err (Fails _) => Ok false
  | Err Panics => Err Panics
  end.

Definition mounted_by (specs : list RequestedServiceSpec) : Planning (list ServiceVolume) :=
  let? mounted := collect_result (λ spec, mounted_of spec.(rq_mount_graph).(mg_volumes)) specs in
  Ok (concat mounted).

Section Shared.
Context `{IpNetOps, ShapeJson}.

Fixpoint reserve_first (placement : PlacementReservations) (requested : list RequestedServiceSpec)
    (observed : list ServiceObservation) (options : PlanOptions) (first_service : string)
    (machines : list MachineId) (admission_error : option PlanError)
    : Planning (MachineId * PlacementReservations) :=
  match machines with
  | [] =>
      let? error := expect admission_error in
      refuse (service_error true first_service error)
  | machine :: machines =>
      match reserve_on placement machine requested observed options with
      | Ok placement => Ok (machine, placement)
      | Err (Fails error) =>
          reserve_first placement requested observed options first_service machines (Some error)
      | Err Panics => Err Panics
      end
  end.

Definition component_services (component : SharedVolumeComponent)
    : bmap string RequestedServiceSpec :=
  bcollect (map (λ u, (use_name u, u.(use_service))) (concat (map snd component))).

Definition intersect_eligible (self : VolumePlan) (options : PlanOptions)
    (eligible : list MachineId) (service : string * RequestedServiceSpec)
    : Planning (list MachineId) :=
  let? other :=
    in_service true service.1 (volume_eligible_machine_ids self service.2 options) in
  Ok (List.filter (λ id, bool_decide (id ∈ other)) eligible).

Definition shared_component_anchor (self : VolumePlan) (component : SharedVolumeComponent)
    (requested : list RequestedServiceSpec) (observed : list ServiceObservation)
    (placement : PlacementReservations) (options : PlanOptions)
    : Planning (MachineId * PlacementReservations) :=
  let services := component_services component in
  match services with
  | [] => Err Panics
  | (first_name, first_service) :: others =>
      let? eligible :=
        in_service true first_name (volume_eligible_machine_ids self first_service options) in
      let? eligible := try_fold (intersect_eligible self options) others eligible in
      match eligible with
      | [] =>
          let? error := no_eligible_shared self component in
          refuse (service_error true first_name error)
      | _ =>
          let requested := List.filter (λ spec, bcontains services spec.(rq_name)) requested in
          let? fitting :=
            try_filter
              (λ id,
                 let? machine :=
                   expect (List.find (λ m, String.eqb m.(mo_machine).(machine_id) id)
                             self.(vp_snapshot).(snap_machines)) in
                 let? mounted := mounted_by requested in
                 succeeds (VolumePlan_storage_budget self machine mounted)) eligible in
          let eligible := match fitting with [] => eligible | _ => fitting end in
          reserve_first placement requested observed options first_name eligible None
      end
  end.

Definition assign_shared_component (self : VolumePlan) (component : SharedVolumeComponent)
    (machine : MachineId) : Planning VolumePlan :=
  try_fold (λ plan u, assign plan machine u.(use_service)) (concat (map snd component)) self.

Definition reserve_shared (self : VolumePlan) (requested : list RequestedServiceSpec)
    (observed : list ServiceObservation) (placement : PlacementReservations)
    (options : PlanOptions) : Planning (VolumePlan * PlacementReservations) :=
  let? uses := managed_volume_uses requested in
  try_fold
    (λ '(plan, placement) component,
       let? anchored := shared_component_anchor plan component requested observed placement options in
       let '(anchor, placement) := anchored in
       let? plan := assign_shared_component plan component anchor in
       Ok (plan, placement))
    (shared_volume_components uses) (self, placement).
End Shared.

(** ** Placing one Service *)

(** The specification and the Machines of the placement, with the ledger after it. *)
Definition place (self : VolumePlan) (spec : RequestedServiceSpec)
    (machines : list MachineObservation) : Planning (VolumePlan * list MachineObservation) :=
  let? constrained := planned_volume_constraints self spec machines in
  let '(mounted, missing, machines) := constrained in
  let? machines :=
    match spec.(rq_mode) with
    | Global => Ok machines
    | Replicated _ =>
        let? fitting :=
          try_filter (λ m, succeeds (VolumePlan_storage_budget self m mounted)) machines in
        let machines := match fitting with [] => machines | _ => fitting end in
        match missing with
        | [] => Ok machines
        | _ =>
            let? first := expect (head machines) in
            Ok (List.filter (λ m, String.eqb m.(mo_machine).(machine_id)
                                    first.(mo_machine).(machine_id)) machines)
        end
    end in
  let? plan :=
    try_fold (λ plan m, assign plan m.(mo_machine).(machine_id) spec) machines self in
  Ok (plan, machines).

(** ** Closing the ledger *)

Definition mounts_provisioned (operation : DeployOperation) : Planning bool :=
  match op_spec operation with
  | None => Ok false
  | Some spec => expect (has_mounted_provisioned_volume spec.(rs_mount_graph).(mg_volumes))
  end.

Definition mounts_named (machine : MachineId) (name : DockerVolumeName)
    (operation : DeployOperation) : Planning bool :=
  match op_spec operation with
  | Some spec =>
      if String.eqb (op_machine_id operation) machine
      then let? mounted := mounted_of spec.(rs_mount_graph).(mg_volumes) in
           Ok (existsb (λ v, bool_decide (managed_volume_name v = Some name)) mounted)
      else Ok false
  | None => Ok false
  end.

Definition is_used (active : bset MachineId) (operations : list DeployOperation)
    (assigned : MachineId * ServiceVolume) : Planning bool :=
  let '(machine, volume) := assigned in
  match managed_volume_name volume with
  | None => Ok false
  | Some name =>
      if bool_decide (machine ∈ active) && is_provisioned volume.(sv_source).(vs_source)
      then Ok true else try_any (mounts_named machine name) operations
  end.

Definition assigned_id (assigned : MachineId * ServiceVolume) : option DockerVolumeId :=
  name ← managed_volume_name assigned.2;
  Some {| dvid_machine_id := assigned.1; dvid_name := name |}.

Definition is_observed (snapshot : DeploySnapshot) (id : DockerVolumeId) (volume : ServiceVolume)
    : bool :=
  existsb (λ observed, bool_decide (observed.(dv_id) = id)
                       && matches_managed_volume volume.(sv_source) observed)
    snapshot.(snap_volumes).(observations).

(** One turn over [active_machines]: the ledger that is left, the budget and the preparation. *)
Definition prepare_machine (snapshot : DeploySnapshot)
    (state : bmap MachineId (bmap ServiceName ServiceStorageSpec)
             * list MachineStorageBudget * list DeployOperation)
    (machine : MachineId)
    : Planning (bmap MachineId (bmap ServiceName ServiceStorageSpec)
                * list MachineStorageBudget * list DeployOperation) :=
  let '(assignments, budgets, preparations) := state in
  let? all := expect (bget assignments machine) in
  let? specs :=
    try_filter (λ spec, expect (has_mounted_provisioned_volume spec.(ss_volumes))) (bvalues all) in
  let? mounted := collect_result (λ spec, mounted_of spec.(ss_volumes)) specs in
  let? observed :=
    expect (List.find (λ m, String.eqb m.(mo_machine).(machine_id) machine)
              snapshot.(snap_machines)) in
  let? budget := storage_budget_for snapshot observed (bounds (concat mounted)) in
  Ok (bremove machine assignments,
      budgets ++ [{| msb_machine_id := machine;
                     msb_machine_name := observed.(mo_machine).(machine_name);
                     msb_budget := budget |}],
      preparations ++ [PrepareVolumes machine specs]).

Definition finish (self : VolumePlan) (operations : list DeployOperation)
    : Planning (PlannedVolumes * list DeployOperation) :=
  let snapshot := self.(vp_snapshot) in
  let? preparing := try_filter mounts_provisioned operations in
  let active := bset_of (map op_machine_id preparing) in
  let? assigned := assigned_volumes self in
  let? used := try_filter (is_used active operations) assigned in
  let used := bcollect (omap (λ a, id ← assigned_id a; Some (id, a.2)) used) in
  let creates :=
    map (λ '(id, volume), (id.(dvid_machine_id), volume))
      (List.filter (λ '(id, volume), negb (is_observed snapshot id volume)) used) in
  let? closed := try_fold (prepare_machine snapshot) active (self.(assignments), [], []) in
  let '(_, budgets, preparations) := closed in
  Ok ({| creates := creates; budgets := budgets |}, preparations ++ operations).
