(* ===== verification/Planner.v ===== *)
(** * The Deploy planner

    The phases of [ployz/src/deploy/planning.rs] put together: binding an
    Intent to its Namespace, planning one Service at a time against the shared
    Volume ledger and placement state, closing the ledger, pruning what the
    target no longer declares, and sealing the result into a preview of
    pending rows ([ployz/src/deploy/progress.rs]).

    A Service that is not observed yet gets a random [ServiceId]; the model
    takes the ids as a function of the Service's name, which is general because
    an applied name is planned once. *)

From S2P Require Import Prelude BTree Strings Values Machines StorageCapacity Volumes.
From S2P Require Import ServiceGraph Spec Services Deploy Eligibility Placement VolumePlan.

Open Scope string_scope.
Open Scope list_scope.
Open Scope nat_scope.

(** ** Binding *)

Record BoundIntent : Type := {
  bound_target : list RequestedServiceSpec;
  bound_requested : list RequestedServiceSpec
}.

Definition bind_intent (intent : DeployIntent) : Planning BoundIntent :=
  let? specs := order_included intent (applied_names intent) in
  let? target :=
    collect_result (λ spec, scope_requested spec intent.(in_namespace)) intent.(in_target) in
  let? requested :=
    collect_result
      (λ spec, expect (List.find (λ candidate, String.eqb candidate.(rq_name) spec.(rq_name))
                         target)) specs in
  Ok {| bound_target := target; bound_requested := requested |}.

(** ** Pre-deploy hooks *)

Definition hook_target (hook_machine : option MachineId) (operation : DeployOperation)
    : option (MachineId * ResolvedServiceSpec) :=
  match operation with
  | RunContainer machine spec _ =>
      if bool_decide (hook_machine = Some machine) then Some (machine, spec) else None
  | ReplaceContainer r =>
      if bool_decide (hook_machine = Some r.(repl_machine_id))
      then Some (r.(repl_machine_id), r.(repl_spec)) else None
  | WaitHealthy _ _ _ | StopContainer _ _ _ | RemoveContainer _ _ | StopHook _ _
  | RunHook _ _ _ | PrepareVolumes _ _ | RemoveVolume _ => None
  end.

Definition pre_deploy_operations (requested : RequestedServiceSpec) (hooks : list HookContainer)
    (service_operations : list DeployOperation) (hook_machine : option MachineId)
    : list DeployOperation :=
  match requested.(rq_pre_deploy), find_map (hook_target hook_machine) service_operations with
  | Some _, Some (machine, spec) =>
      map (λ c, StopHook c.(co_machine_id) c.(container_id))
        (List.filter (λ c, is_active_runtime c.(runtime)) hooks)
      ++ [RunHook machine spec (map (λ c, (c.(co_machine_id), c.(container_id))) hooks)]
  | _, _ => []
  end.

(** ** Planning one Service *)

Section Planner.
Context `{IpNetOps, ShapeJson}.
Context (random_id : ServiceName → ServiceId).

(** The id, the Containers and the hook Containers of the observed Service, if there is one. *)
Definition existing_service (requested : RequestedServiceSpec) (namespace : Namespace)
    (services : list ServiceObservation)
    : Planning (ServiceId * list ServiceContainer * list HookContainer) :=
  let identity := QualifiedService_new namespace requested.(rq_name) in
  match List.find (λ service, bool_decide (service.(so_identity) = identity)) services with
  | None => Ok (random_id requested.(rq_name), [], [])
  | Some service =>
      if existsb (λ c, negb (same_service_mode_kind c.(resolved_spec).(rs_mode)
                               requested.(rq_mode))) (members service)
      then refuse ServiceModeCannotChange
      else Ok (service.(so_service_id), service.(so_containers), service.(so_hook_containers))
  end.

(** The branch of an unreserved replicated Service: locality, then free endpoints.  The result
    is the admission, the remaining Machines and the placement with released hooks. *)
Definition admit_unreserved (requested : RequestedServiceSpec) (replicas : N)
    (current : list ServiceContainer) (hooks : list HookContainer) (volume_plan : VolumePlan)
    (machines : list MachineObservation) (placement : PlacementState) (options : PlanOptions)
    : Planning (CapacityAdmission * list MachineObservation * PlacementState) :=
  let? machines := constrain_candidates volume_plan requested machines in
  let up_to_date :=
    length
      (List.filter
         (λ c, existsb (λ m, String.eqb m.(mo_machine).(machine_id) c.(co_machine_id)) machines
               && is_up_to_date c requested options) current) in
  let placement :=
    if is_hooked requested && (N.of_nat up_to_date <? replicas)%N
    then set_capacity placement (release_hooks placement.(ps_capacity) hooks) else placement in
  let error :=
    capacity_error_for placement.(ps_capacity)
      (map (λ m, m.(mo_machine).(machine_id)) machines) in
  let machines :=
    List.filter
      (λ m, existsb (λ c, String.eqb c.(co_machine_id) m.(mo_machine).(machine_id)
                          && is_up_to_date c requested options) current
            || capacity_fits placement.(ps_capacity) m.(mo_machine).(machine_id) 1) machines in
  match machines with
  | [] => refuse error
  | _ => Ok (AdmissionPending error, machines, placement)
  end.

(** Endpoint admission: a reserved Service keeps its reservation and its Machines. *)
Definition admit_service (requested : RequestedServiceSpec) (current : list ServiceContainer)
    (hooks : list HookContainer) (volume_plan : VolumePlan) (machines : list MachineObservation)
    (reservation : option CapacityAdmission) (placement : PlacementState) (options : PlanOptions)
    : Planning (option CapacityAdmission * list MachineObservation * PlacementState) :=
  match requested.(rq_mode), reservation with
  | Replicated replicas, None =>
      let? admitted :=
        admit_unreserved requested replicas current hooks volume_plan machines placement options in
      let '(admission, machines, placement) := admitted in
      Ok (Some admission, machines, placement)
  | _, _ => Ok (reservation, machines, placement)
  end.

Definition plan_one_service (requested : RequestedServiceSpec) (namespace : Namespace)
    (snapshot : DeploySnapshot) (services : list ServiceObservation) (volume_plan : VolumePlan)
    (placement : PlacementState) (options : PlanOptions)
    : Planning (list DeployOperation * VolumePlan * PlacementState) :=
  let? machines := eligible_machines requested namespace snapshot options in
  let? existing := existing_service requested namespace services in
  let '(service_id, current, hooks) := existing in
  let '(reservation, placement) := take_reservation placement requested.(rq_name) in
  let? admitted :=
    admit_service requested current hooks volume_plan machines reservation placement options in
  let '(admission, machines, placement) := admitted in
  let? placed := place volume_plan requested machines in
  let '(volume_plan, machines) := placed in
  let? planned :=
    match requested.(rq_mode) with
    | Replicated _ =>
        let? admission := expect admission in
        plan_replicated service_id current requested machines admission placement options
    | Global => plan_global service_id current hooks requested machines placement options
    end in
  let '(operations, hook_machine, placement) := planned in
  Ok (pre_deploy_operations requested hooks operations hook_machine ++ operations,
      volume_plan, placement).

(** ** The whole Deploy *)

Record Planned : Type := {
  operations : list DeployOperation;
  planned_volumes : PlannedVolumes;
  would_remove : list QualifiedService;
  preserved_volumes : list PreservedVolume;
  planned_prune_refusal : option PruneRefusal;
  warnings : list DeployWarning
}.

Record AssembleState : Type := {
  as_volume_plan : VolumePlan;
  as_placement : PlacementState;
  as_operations : list DeployOperation;
  as_warnings : list DeployWarning
}.

(** The Machine of the first operation that starts a Container. *)
Definition starting_machine (operation : DeployOperation) : option MachineId :=
  match operation with
  | RunContainer machine _ _ => Some machine
  | ReplaceContainer r => Some r.(repl_machine_id)
  | WaitHealthy _ _ _ | StopContainer _ _ _ | RemoveContainer _ _ | StopHook _ _
  | RunHook _ _ _ | PrepareVolumes _ _ | RemoveVolume _ => None
  end.

(** The waits, or the warnings that replace them, for the healthy dependencies of a Service. *)
Definition dependency_waits (intent : DeployIntent) (name : ServiceName) (machine : MachineId)
    : list DeployOperation * list DeployWarning :=
  let pairs :=
    map (λ d, (QualifiedService_new intent.(in_namespace) name,
               QualifiedService_new intent.(in_namespace) d.(dep_service)))
      (List.filter (λ d, bool_decide (d.(dep_condition) = ServiceHealthy))
         (default [] (bget intent.(in_dependencies) name))) in
  if intent.(in_options).(skip_health_monitor)
  then ([], map (λ p, SkippedDependencyHealth p.1 p.2) pairs)
  else (map (λ p, WaitHealthy machine p.1 p.2) pairs, []).

Definition assemble_service (intent : DeployIntent) (snapshot : DeploySnapshot)
    (services : list ServiceObservation) (name_errors_with_service : bool) (st : AssembleState)
    (spec : RequestedServiceSpec) : Planning AssembleState :=
  let? planned :=
    in_service name_errors_with_service spec.(rq_name)
      (plan_one_service spec intent.(in_namespace) snapshot services st.(as_volume_plan)
         st.(as_placement) intent.(in_options)) in
  let '(operations, volume_plan, placement) := planned in
  let '(waits, warned) :=
    match find_map starting_machine operations with
    | Some machine => dependency_waits intent spec.(rq_name) machine
    | None => ([], [])
    end in
  Ok {| as_volume_plan := volume_plan; as_placement := placement;
        as_operations := st.(as_operations) ++ waits ++ operations;
        as_warnings := st.(as_warnings) ++ warned |}.

Definition assemble_plan (intent : DeployIntent) (bound : BoundIntent) (snapshot : DeploySnapshot)
    : Planning Planned :=
  let target := bound.(bound_target) in
  let requested := bound.(bound_requested) in
  let services := services_in snapshot intent.(in_namespace) in
  let would_remove := obsolete_services intent services in
  let refusal := prune_refusal intent (is_observer_complete snapshot) in
  let retiring := match refusal with None => would_remove | Some _ => [] end in
  let? hostname_warnings :=
    hostname_policy_for intent.(in_namespace) requested snapshot retiring in
  let? storage_warnings :=
    storage_eligibility_warnings requested intent.(in_namespace) snapshot in
  let? _ := try_fold (λ (_ : unit) spec, validate_host_ports spec) requested tt in
  let? volume_plan := VolumePlan_new snapshot intent.(in_namespace) target requested in
  let? reserved :=
    reserve_shared volume_plan requested services (PlacementReservations_new snapshot)
      intent.(in_options) in
  let '(volume_plan, reservations) := reserved in
  let? st :=
    try_fold (assemble_service intent snapshot services (1 <? length requested)) requested
      {| as_volume_plan := volume_plan; as_placement := into_placement reservations snapshot;
         as_operations := []; as_warnings := hostname_warnings ++ storage_warnings |} in
  let? finished := finish st.(as_volume_plan) st.(as_operations) in
  let '(volumes, operations) := finished in
  let? preserved := expect (preserved_owned_volumes intent.(in_namespace) target snapshot) in
  Ok {| operations :=
          operations ++ match refusal with
                        | None => removal_operations services retiring
                        | Some _ => []
                        end;
        planned_volumes := volumes; would_remove := would_remove;
        preserved_volumes := preserved; planned_prune_refusal := refusal;
        warnings := st.(as_warnings) |}.

Definition plan_operations (intent : DeployIntent) (snapshot : DeploySnapshot)
    : Planning Planned :=
  let? bound := bind_intent intent in
  assemble_plan intent bound snapshot.
End Planner.
