(* ===== verification/Preview.v ===== *)
(** * Previews, Namespace removal and Data Loss

    A plan is sealed into a preview of pending rows
    ([ployz/src/deploy/planning.rs], [ployz/src/deploy/progress.rs],
    [ployz-core/src/domain/deploy.rs]); removing a Namespace is planning an
    empty target, and the Docker Volumes it destroys are the Data Loss an
    operator must confirm ([ployz-core/src/domain/data_loss.rs]). *)

From S2P Require Import Prelude BTree Strings Values Machines StorageCapacity Volumes.
From S2P Require Import ServiceGraph Spec Services Deploy Eligibility Placement VolumePlan.
From S2P Require Import Planner.

Open Scope string_scope.
Open Scope list_scope.
Open Scope nat_scope.

(** ** Rows *)

Inductive MachineAction : Type :=
| ActionPrepareVolumes | ActionCreateContainer | ActionStartContainer | ActionInspectContainer
| ActionStopContainer | ActionRemoveContainer | ActionRemoveVolume.

Inductive HealthFailure : Type :=
| HealthCancelled | HealthTimedOut | HealthRuntime (observation : ContainerRuntimeObservation).

Inductive DependencyHealthFailure : Type :=
| DependencyCancelled
| DependencyNoContainers
| DependencyObservation (error : RpcError)
| DependencyContainer (container : ContainerId) (failure : HealthFailure).

Inductive HookFailure : Type :=
| HookCancelled (stop_error : option RpcError)
| HookTimedOut (stop_error : option RpcError)
| HookExit (code : Z).

Inductive ExecutionError : Type :=
| MachineError (action : MachineAction) (error : RpcError)
| HealthError (container : ContainerId) (failure : HealthFailure)
| DependencyHealthError (dependency : QualifiedService) (failure : DependencyHealthFailure)
| HookError (container : ContainerId) (failure : HookFailure)
| ExecutionCancelled.

Inductive OperationPhase : Type :=
| PhaseStarting | PhaseCreatingContainer | PhaseStartingContainer
| PhaseWaitingForHealth (container : ContainerId) (health : option HealthObservation)
                        (elapsed_ms deadline_ms : N)
| PhaseWaitingForHook (container : ContainerId) (elapsed_ms deadline_ms : N)
| PhaseStoppingContainer | PhaseRemovingContainer | PhaseRemovingVolume | PhaseCompensating.

Inductive OperationStatus : Type :=
| Pending | Running (phase : OperationPhase) | Completed | Failed (error : ExecutionError)
| Unexecuted.

Record OperationRow : Type := {
  row_index : N;
  row_machine_id : MachineId;
  row_machine_name : option MachineName;
  row_operation : DeployOperation;
  row_display_name : option string;
  row_service_name : option ServiceName;
  row_status : OperationStatus
}.

Definition option_or {A} (a b : option A) : option A := match a with Some _ => a | None => b end.

Definition OperationRow_pending (index : N) (operation : DeployOperation)
    (machine_name : option MachineName) (display_name : option string)
    (service_name : option ServiceName) : OperationRow :=
  {| row_index := index; row_machine_id := op_machine_id operation;
     row_machine_name := machine_name; row_operation := operation;
     row_display_name := display_name;
     row_service_name := option_or service_name (op_service_name operation);
     row_status := Pending |}.

Definition machine_names (snapshot : DeploySnapshot) : bmap MachineId MachineName :=
  bcollect (map (λ m, (m.(mo_machine).(machine_id), m.(mo_machine).(machine_name)))
              snapshot.(snap_machines)).

Definition container_labels_of (snapshot : DeploySnapshot)
    : bmap ContainerId (option string * option ServiceName) :=
  bcollect (map (λ c, (c.(container_id), (Some c.(display_name), Some c.(resolved_spec).(rs_name))))
              snapshot.(snap_containers)).

(** [u32::try_from(index).unwrap_or(u32::MAX)]. *)
Definition row_number (index : nat) : N := N.min (N.of_nat index) u32_max.

Definition pending_row (machines : bmap MachineId MachineName)
    (containers : bmap ContainerId (option string * option ServiceName))
    (index : nat) (operation : DeployOperation) : OperationRow :=
  let '(display_name, service_name) :=
    match op_container_id operation with
    | None => (None, op_service_name operation)
    | Some container =>
        default (None, op_service_name operation) (bget containers container)
    end in
  OperationRow_pending (row_number index) operation (bget machines (op_machine_id operation))
    display_name service_name.

Definition pending_rows (operations : list DeployOperation) (snapshot : DeploySnapshot)
    : list OperationRow :=
  imap (pending_row (machine_names snapshot) (container_labels_of snapshot)) operations.

(** ** Progress of one execution *)

Definition set_status (status : OperationStatus) (row : OperationRow) : OperationRow :=
  {| row_index := row.(row_index); row_machine_id := row.(row_machine_id);
     row_machine_name := row.(row_machine_name); row_operation := row.(row_operation);
     row_display_name := row.(row_display_name); row_service_name := row.(row_service_name);
     row_status := status |}.

Definition set_running (rows : list OperationRow) (index : nat) (phase : OperationPhase)
    : list OperationRow :=
  alter (set_status (Running phase)) index rows.

Definition set_completed (rows : list OperationRow) (index : nat) : list OperationRow :=
  alter (set_status Completed) index rows.

Definition is_completed (row : OperationRow) : bool :=
  match row.(row_status) with Completed => true | _ => false end.

Definition fail_row (rows : list OperationRow) (index : nat) (error : ExecutionError)
    : list OperationRow :=
  imap (λ candidate row,
          if negb (candidate =? index) && negb (is_completed row)
          then set_status Unexecuted row else row)
    (alter (set_status (Failed error)) index rows).

(** ** Previews *)

Record VolumeToCreate : Type := {
  vtc_machine_id : MachineId;
  vtc_machine_name : option MachineName;
  vtc_name : DockerVolumeName;
  vtc_maximum_bytes : option ProvisionedVolumeMaximumBytes
}.

Record DeployPreview : Type := {
  storage : list MachineStorageBudget;
  preview_namespace : Namespace;
  preview_operations : list OperationRow;
  preview_warnings : list DeployWarning;
  volumes_to_create : list VolumeToCreate;
  preview_would_remove : list QualifiedService;
  preview_preserved_volumes : list PreservedVolume;
  preview_prune_refusal : option PruneRefusal
}.

Record DeployPlan : Type := {
  plan_ops : list DeployOperation;
  preview : DeployPreview;
  registry_auth : bmap ServiceName RegistryAuth
}.

Definition volume_to_create (snapshot : DeploySnapshot) (created : MachineId * ServiceVolume)
    : option VolumeToCreate :=
  let '(machine, volume) := created in
  '(name, maximum_bytes) ←
    match volume.(sv_source).(vs_source) with
    | Ordinary name _ _ => Some (name, None)
    | Provisioned name maximum_bytes _ => Some (name, Some maximum_bytes)
    | External _ | Bind _ _ _ _ | Tmpfs _ _ _ => None
    end;
  Some {| vtc_machine_id := machine; vtc_machine_name := machine_name_of snapshot machine;
          vtc_name := name; vtc_maximum_bytes := maximum_bytes |}.

Definition seal_plan (planned : Planned) (snapshot : DeploySnapshot) (namespace : Namespace)
    : DeployPlan :=
  {| plan_ops := planned.(operations);
     preview :=
       {| storage := []; preview_namespace := namespace;
          preview_operations := pending_rows planned.(operations) snapshot;
          preview_warnings := planned.(warnings);
          volumes_to_create :=
            omap (volume_to_create snapshot) planned.(planned_volumes).(creates);
          preview_would_remove := planned.(would_remove);
          preview_preserved_volumes := planned.(preserved_volumes);
          preview_prune_refusal := planned.(planned_prune_refusal) |};
     registry_auth := [] |}.

(** The warning of a Machine whose host would be left short of a GiB. *)
Definition headroom_warning (budgeted : MachineStorageBudget) : option DeployWarning :=
  let b := budgeted.(msb_budget) in
  let remaining :=
    saturating_sub (saturating_sub b.(available_bytes) b.(reserve_bytes))
      b.(required_growth_bytes) in
  if (0 <? b.(required_growth_bytes))%N && (remaining <? STORAGE_GIB)%N
  then Some (StorageHeadroom budgeted.(msb_machine_id) remaining) else None.

Section Previews.
Context `{IpNetOps, ShapeJson}.
Context (random_id : ServiceName → ServiceId).

Definition plan_deploy (intent : DeployIntent) (snapshot : DeploySnapshot)
    : Planning DeployPlan :=
  let? planned := plan_operations random_id intent snapshot in
  let sealed := seal_plan planned snapshot intent.(in_namespace) in
  let budgets := planned.(planned_volumes).(budgets) in
  let shown := sealed.(preview) in
  Ok {| plan_ops := sealed.(plan_ops);
        preview :=
          {| storage := budgets; preview_namespace := shown.(preview_namespace);
             preview_operations := shown.(preview_operations);
             preview_warnings :=
               shown.(preview_warnings)
               ++ match budgets with [] => [] | _ => [UnbudgetedDiskUsage] end
               ++ omap headroom_warning budgets;
             volumes_to_create := shown.(volumes_to_create);
             preview_would_remove := shown.(preview_would_remove);
             preview_preserved_volumes := shown.(preview_preserved_volumes);
             preview_prune_refusal := shown.(preview_prune_refusal) |};
        registry_auth := intent.(in_registry_auth) |}.

(** ** Namespace removal *)

Inductive VolumeFate : Type := Preserve | Destroy.

Definition is_none {A} (o : option A) : bool := match o with None => true | Some _ => false end.

Definition destroys (fate : VolumeFate) (refusal : option PruneRefusal) : bool :=
  match fate with Destroy => is_none refusal | Preserve => false end.

Definition prepare_namespace_removal (namespace : Namespace) (snapshot : DeploySnapshot)
    (fate : VolumeFate) : Planning DeployPlan :=
  let intent := DeployIntent_apply_all namespace [] PlanOptions_default in
  let? planned := plan_operations random_id intent snapshot in
  let planned :=
    if destroys fate planned.(planned_prune_refusal)
    then {| operations :=
              planned.(operations)
              ++ map (λ volume, RemoveVolume volume.(preserved_id)) planned.(preserved_volumes);
            planned_volumes := planned.(planned_volumes);
            would_remove := planned.(would_remove); preserved_volumes := [];
            planned_prune_refusal := planned.(planned_prune_refusal);
            warnings := planned.(warnings) |}
    else planned in
  Ok (seal_plan planned snapshot namespace).
End Previews.

(** ** Data Loss *)

Inductive DataLoss : Type := LostDockerVolume (id : DockerVolumeId).
#[global] Instance DataLoss_eq_dec : EqDecision DataLoss.
Proof. solve_decision. Defined.

Definition DataLoss_name (self : DataLoss) : string :=
  match self with LostDockerVolume id => id.(dvid_name) end.

Definition remove_volume_loss (operation : DeployOperation) : option DataLoss :=
  match operation with RemoveVolume id => Some (LostDockerVolume id) | _ => None end.

Definition data_loss_from_plan (self : DeployPreview) : list DataLoss :=
  omap (λ row, remove_volume_loss row.(row_operation)) self.(preview_operations).

Definition require_confirmed (data_loss confirmed : list DataLoss) : Result unit (list DataLoss) :=
  match List.filter (λ loss, negb (bool_decide (loss ∈ confirmed))) data_loss with
  | [] => Ok tt
  | missing => Err missing
  end.

(** The confirmation, or the identities the names do not cover. *)
Definition confirm_names (data_loss : list DataLoss) (names : list string)
    : Result (list DataLoss) (list DataLoss) :=
  let confirmed :=
    fold_left
      (λ confirmed loss,
         if bool_decide (DataLoss_name loss ∈ names) && negb (bool_decide (loss ∈ confirmed))
         then confirmed ++ [loss] else confirmed) data_loss [] in
  let? _ := require_confirmed data_loss confirmed in
  Ok confirmed.

(** ** Confirming Data Loss *)

Lemma fold_confirmed (names : list string) (losses confirmed : list DataLoss) :
  NoDup confirmed →
  let out :=
    fold_left
      (λ confirmed loss,
         if bool_decide (DataLoss_name loss ∈ names) && negb (bool_decide (loss ∈ confirmed))
         then confirmed ++ [loss] else confirmed) losses confirmed in
  NoDup out ∧
  ∀ l, l ∈ out ↔ l ∈ confirmed ∨ (l ∈ losses ∧ DataLoss_name l ∈ names).
Proof.
  revert confirmed. induction losses as [|x losses IH]; intros confirmed Hnd; simpl.
  { split; [done|]. set_solver. }
  destruct (bool_decide (DataLoss_name x ∈ names) && negb (bool_decide (x ∈ confirmed))) eqn:Hx.
  - apply andb_true_iff in Hx as [Hn%bool_decide_eq_true Hc%negb_true_iff].
    apply bool_decide_eq_false in Hc.
    destruct (IH (confirmed ++ [x])) as [Hnd' Hin].
    { apply NoDup_app. split_and!; [done|set_solver|apply NoDup_singleton]. }
    split; [done|]. intros l. rewrite Hin. set_solver.
  - destruct (IH confirmed Hnd) as [Hnd' Hin]. split; [done|]. intros l. rewrite Hin.
    apply andb_false_iff in Hx as [Hx%bool_decide_eq_false|Hx%negb_false_iff]; [set_solver|].
    apply bool_decide_eq_true in Hx. set_solver.
Qed.

(** Data Loss is confirmed by names exactly when every named thing is covered; the
    confirmation then lists each observed identity once and nothing else, and otherwise the
    refusal lists exactly what is not covered. *)
Theorem confirm_names_exact data_loss names :
  match confirm_names data_loss names with
  | Ok confirmed =>
      NoDup confirmed ∧ (∀ l, l ∈ confirmed ↔ l ∈ data_loss) ∧
      ∀ l, l ∈ data_loss → DataLoss_name l ∈ names
  | Err missing =>
      missing ≠ [] ∧ ∀ l, l ∈ missing ↔ l ∈ data_loss ∧ DataLoss_name l ∉ names
  end.
Proof.
  unfold confirm_names.
  destruct (fold_confirmed names data_loss [] (NoDup_nil_2)) as [Hnd Hin].
  set (confirmed := fold_left _ data_loss []) in *. unfold require_confirmed.
  assert (Hmiss : ∀ l, l ∈ List.filter (λ loss, negb (bool_decide (loss ∈ confirmed))) data_loss
                       ↔ l ∈ data_loss ∧ DataLoss_name l ∉ names).
  { intros l. rewrite elem_of_filterb, negb_true_iff, bool_decide_eq_false, Hin. set_solver. }
  destruct (List.filter _ data_loss) as [|x missing]; simpl.
  - assert (Hcov : ∀ l, l ∈ data_loss → DataLoss_name l ∈ names).
    { intros l Hl. destruct (decide (DataLoss_name l ∈ names)) as [|Hn]; [done|].
      exfalso. apply (not_elem_of_nil l), Hmiss. done. }
    split_and!; [done| |done]. intros l. rewrite Hin. set_solver.
  - done.
Qed.

(** ** Removing a Namespace *)

Section Removal.
Context `{IpNetOps, ShapeJson}.
Context (random_id : ServiceName → ServiceId).

(** The Containers a Namespace has, and the Docker Volumes it owns. *)
Definition namespace_containers (snapshot : DeploySnapshot) (namespace : Namespace)
    : list ContainerObservation :=
  List.filter (λ c, String.eqb c.(co_namespace) namespace) snapshot.(snap_containers).
Definition owned_volumes (snapshot : DeploySnapshot) (namespace : Namespace)
    : list DockerVolume :=
  List.filter (λ v, bool_decide (owned_volume_namespace v.(dv_labels) = Some namespace))
    snapshot.(snap_volumes).(observations).

Definition remove_container (c : ContainerObservation) : DeployOperation :=
  RemoveContainer c.(co_machine_id) c.(container_id).

Lemma remove_everything services :
  removal_operations services (map so_identity services)
  = map remove_container (concat (map members services)).
Proof.
  unfold removal_operations.
  assert (Hall : List.filter (λ s, bool_decide (so_identity s ∈ bset_of (map so_identity services)))
                   services = services).
  { apply filter_all. intros s Hs. apply bool_decide_eq_true.
    rewrite elem_of_bset_of. by apply list_elem_of_fmap_2. }
  by rewrite Hall.
Qed.

(** Planning an empty target cannot fail, and only prunes. *)
Lemma plan_nothing namespace snapshot :
  let intent := DeployIntent_apply_all namespace [] PlanOptions_default in
  let complete := is_observer_complete snapshot in
  ∃ planned,
    plan_operations random_id intent snapshot = Ok planned ∧
    planned.(operations)
    ≡ₚ (if complete && negb (Namespace_is_reserved namespace)
        then map remove_container (namespace_containers snapshot namespace) else []) ∧
    map preserved_id planned.(preserved_volumes) ≡ₚ map dv_id (owned_volumes snapshot namespace) ∧
    is_none planned.(planned_prune_refusal) = complete.
Proof.
  intros intent complete. unfold plan_operations, assemble_plan, bind_intent.
  cbn. set (services := services_in snapshot namespace).
  eexists. split; [reflexivity|]. cbn. split_and!.
  - unfold prune_refusal, obsolete_services. fold complete. simpl.
    destruct complete; simpl; [|done].
    destruct (Namespace_is_reserved namespace); simpl.
    { unfold removal_operations. rewrite (filter_none _ services); [done|].
      intros s _. reflexivity. }
    rewrite (filter_all _ services) by done.
    rewrite remove_everything. apply Permutation_map, derive_services_partition.
  - etransitivity; [apply Permutation_map, stable_sort_perm|]. rewrite map_map. simpl.
    unfold owned_volumes. erewrite List.filter_ext; [done|]. intros v. simpl.
    by rewrite andb_true_r.
  - unfold prune_refusal. simpl. by destruct (is_observer_complete snapshot).
Qed.

Lemma imap_project {A B C} (f : nat → A → B) (g : B → option C) (h : A → option C) l :
  (∀ i x, g (f i x) = h x) → omap g (imap f l) = omap h l.
Proof.
  revert f. induction l as [|x l IH]; intros f Hfg; simpl; [done|].
  rewrite Hfg. pose proof (IH (f ∘ S) (λ i y, Hfg (S i) y)) as Hrest.
  unfold omap in *. by rewrite Hrest.
Qed.

Lemma sealed_losses planned snapshot namespace :
  data_loss_from_plan (seal_plan planned snapshot namespace).(preview)
  = omap remove_volume_loss planned.(operations).
Proof.
  unfold data_loss_from_plan, seal_plan, pending_rows. simpl. apply imap_project.
  intros i op. unfold pending_row.
  by destruct (match op_container_id op with Some _ => _ | None => _ end).
Qed.

Lemma no_loss (containers : list ContainerObservation) :
  omap remove_volume_loss (map remove_container containers) = [].
Proof. by induction containers. Qed.

Lemma removed_losses (volumes : list PreservedVolume) :
  omap remove_volume_loss (map (λ v, RemoveVolume v.(preserved_id)) volumes)
  = map LostDockerVolume (map preserved_id volumes).
Proof. induction volumes; simpl; [done|]. by f_equal. Qed.

(** removing a Namespace always plans, and plans exactly this: on complete evidence every
    Container observed in it (none for a reserved Namespace) is removed once; its Docker
    Volumes, all of those it owns and no other, are removed once when their fate is Destroy,
    and never on incomplete evidence; the preview's Data Loss is exactly those Volumes. *)
Theorem namespace_removal_exact namespace snapshot fate :
  let complete := is_observer_complete snapshot in
  let containers :=
    if complete && negb (Namespace_is_reserved namespace)
    then namespace_containers snapshot namespace else [] in
  let volumes :=
    if destroys fate (if complete then None else Some IncompleteSnapshot)
    then map dv_id (owned_volumes snapshot namespace) else [] in
  ∃ plan,
    prepare_namespace_removal random_id namespace snapshot fate = Ok plan ∧
    plan.(plan_ops) ≡ₚ map remove_container containers ++ map RemoveVolume volumes ∧
    data_loss_from_plan plan.(preview) ≡ₚ map LostDockerVolume volumes.
Proof.
  intros complete containers volumes. unfold prepare_namespace_removal.
  destruct (plan_nothing namespace snapshot) as (planned & -> & Hops & Hvols & Hrefusal).
  fold complete in Hops, Hrefusal. cbn [result_bind]. eexists. split; [reflexivity|].
  rewrite sealed_losses.
  assert (Hc : planned.(operations) ≡ₚ map remove_container containers).
  { unfold containers. by destruct (complete && _). }
  assert (Hd : destroys fate planned.(planned_prune_refusal)
               = destroys fate (if complete then None else Some IncompleteSnapshot)).
  { destruct fate; simpl; [done|]. rewrite Hrefusal. by destruct complete. }
  rewrite Hd. unfold volumes. destruct (destroys fate _); simpl.
  - rewrite omap_app, Hc, no_loss, removed_losses, Hvols, map_map. split; [|done].
    apply Permutation_app_head. rewrite <-(map_map preserved_id RemoveVolume), Hvols.
    by rewrite map_map.
  - rewrite app_nil_r, Hc, no_loss. done.
Qed.
End Removal.
