(* ===== verification/Ledger.v ===== *)
(** * The Volume ledger

    What [VolumePlan] maintains: Services that share Volumes are partitioned
    into components, each assigned to one Machine; every Machine a Service is
    placed on carries that Service's storage specification; and closing the
    ledger prepares exactly the Machines that start provisioned Volumes. *)

From S2P Require Import Prelude BTree Strings Values Machines StorageCapacity Volumes.
From S2P Require Import ServiceGraph Spec Services Deploy Eligibility Placement Reconcile.
From S2P Require Import VolumePlan.

Open Scope string_scope.
Open Scope list_scope.
Open Scope nat_scope.

(** ** Components *)

Lemma take_first_Some {A} (p : A → bool) l x rest :
  take_first p l = Some (x, rest) → p x = true ∧ l ≡ₚ x :: rest.
Proof.
  revert rest. induction l as [|y l IH]; intros rest; simpl; [done|].
  destruct (p y) eqn:Hy; [by intros [= <- <-]|].
  destruct (take_first p l) as [[z r]|]; simpl; [|done]. intros [= <- <-].
  destruct (IH r eq_refl) as [Hz Hl]. split; [done|]. rewrite Hl. by constructor.
Qed.

Lemma take_first_None {A} (p : A → bool) l :
  take_first p l = None ↔ ∀ x, x ∈ l → p x = false.
Proof.
  induction l as [|y l IH]; simpl; [set_solver|].
  destruct (p y) eqn:Hy.
  - split; [done|]. intros Hall. rewrite Hall in Hy by set_solver. done.
  - destruct (take_first p l) as [[z r]|]; simpl.
    + split; [done|]. intros Hall. exfalso.
      assert (Some (z, r) = None) as Hn by (apply IH; intros x Hx; apply Hall; set_solver). done.
    + split; [|done]. intros _ x [->|Hx]%elem_of_cons; [done|]. by apply IH.
Qed.

(** The names of the Services that use a Volume of the component. *)
Definition component_names (component : SharedVolumeComponent) : list string :=
  map use_name (concat (map snd component)).

Lemma shares_a_service_true component candidate :
  shares_a_service component candidate = true ↔
  ∃ name, name ∈ map use_name candidate.2 ∧ name ∈ component_names component.
Proof.
  unfold shares_a_service, component_names. rewrite existsb_exists. split.
  - intros (u & Hu & Hv). apply existsb_exists in Hv as (v & Hv & Hw).
    apply existsb_exists in Hw as (w & Hw & Heq%String.eqb_eq).
    exists (use_name u). rewrite !list_elem_of_In. split; [by apply in_map|].
    rewrite <-Heq. apply in_map, in_concat. exists v.2. split; [by apply in_map|done].
  - intros (name & (u & -> & Hu)%list_elem_of_fmap & (w & Heq & Hw)%list_elem_of_fmap).
    rewrite list_elem_of_In in Hu, Hw. apply in_concat in Hw as (us & Hus & Hw).
    apply in_map_iff in Hus as (v & <- & Hv). exists u. split; [done|].
    apply existsb_exists. exists v. split; [done|]. apply existsb_exists. exists w.
    split; [done|]. by apply String.eqb_eq.
Qed.

(** A component grows from one Volume by Volumes that share a Service with it. *)
Inductive linked : SharedVolumeComponent → Prop :=
| linked_one volume : linked [volume]
| linked_more component volume :
    linked component → shares_a_service component volume = true → linked (component ++ [volume]).

Lemma linked_nonempty component : linked component → 0 < length component.
Proof. intros []; rewrite ?length_app; simpl; lia. Qed.

Lemma grow_component_spec fuel component remaining component' remaining' :
  length remaining ≤ fuel → linked component →
  grow_component fuel component remaining = (component', remaining') →
  linked component' ∧ component' ++ remaining' ≡ₚ component ++ remaining ∧
  ∀ v, v ∈ remaining' → shares_a_service component' v = false.
Proof.
  revert component remaining. induction fuel as [|fuel IH]; intros component remaining Hlen Hl; simpl.
  - destruct remaining; [|simpl in Hlen; lia]. intros [= <- <-]. split_and!; [done|done|set_solver].
  - destruct (take_first _ remaining) as [[next rest]|] eqn:Ht.
    + apply take_first_Some in Ht as [Hs Hp]. intros Hg. apply IH in Hg as (Hl' & Hp' & Hn).
      * split_and!; [done| |done]. rewrite Hp', Hp, <-app_assoc. done.
      * apply Permutation_length in Hp. simpl in Hp. lia.
      * by constructor.
    + intros [= <- <-]. split_and!; [done|done|]. by apply take_first_None.
Qed.

(** Components disjoint from everything that comes later. *)
Inductive separated : list SharedVolumeComponent → Prop :=
| separated_nil : separated []
| separated_cons component rest :
    (∀ other name, other ∈ rest → name ∈ component_names component →
       name ∉ component_names other) →
    separated rest → separated (component :: rest).

Lemma elem_of_component_names component name :
  name ∈ component_names component ↔ ∃ v, v ∈ component ∧ name ∈ map use_name v.2.
Proof.
  unfold component_names. split.
  - intros (u & -> & (v & Hv & Hu)%elem_of_concat_map)%list_elem_of_fmap. exists v.
    split; [done|by apply list_elem_of_fmap_2].
  - intros (v & Hv & (u & -> & Hu)%list_elem_of_fmap).
    apply list_elem_of_fmap_2, elem_of_concat_map. by exists v.
Qed.

Lemma components_loop_spec fuel remaining :
  length remaining ≤ fuel →
  let components := components_loop fuel remaining in
  concat components ≡ₚ remaining ∧ (∀ c, c ∈ components → linked c) ∧ separated components.
Proof.
  revert remaining. induction fuel as [|fuel IH]; intros remaining Hlen; simpl.
  - destruct remaining; [|simpl in Hlen; lia]. split_and!; [done|set_solver|constructor].
  - destruct remaining as [|first remaining]; [split_and!; [done|set_solver|constructor]|].
    destruct (grow_component _ _ _) as [component rest] eqn:Hg. simpl in Hlen.
    apply grow_component_spec in Hg as (Hl & Hp & Hn); [|done|constructor].
    destruct (IH rest) as (Hc & Hli & Hsep).
    { apply Permutation_length in Hp. rewrite !length_app in Hp. simpl in Hp.
      apply linked_nonempty in Hl. lia. }
    simpl. split_and!.
    + rewrite Hc. done.
    + intros c [->|Hc']%elem_of_cons; auto.
    + constructor; [|done]. intros other name Hother Hname Hin.
      apply elem_of_component_names in Hin as (v & Hv & Hvn).
      assert (Hrest : v ∈ rest).
      { rewrite <-Hc. rewrite <-(map_id (components_loop fuel rest)).
        apply elem_of_concat_map. by exists other. }
      specialize (Hn v Hrest). apply not_true_iff_false in Hn. apply Hn.
      apply shares_a_service_true. eauto.
Qed.

(** Services are grouped for shared placement exactly by the Volumes they share: the
    components partition the Volumes that several replicated Services use, each component is
    connected through its Services, and no Service is in two components. *)
Theorem shared_components_partition uses :
  let components := shared_volume_components uses in
  concat components ≡ₚ List.filter is_shared uses ∧
  (∀ c, c ∈ components → linked c) ∧ separated components.
Proof. by apply components_loop_spec. Qed.

(** ** Assignments *)

Definition assigned_to (vp : VolumePlan) (name : ServiceName) (machine : MachineId) : Prop :=
  ∃ specs storage, bget vp.(assignments) machine = Some specs ∧ bget specs name = Some storage.

(** What is assigned is the storage specification of a requested Service. *)
Definition ledger_ok (requested : list RequestedServiceSpec) (vp : VolumePlan) : Prop :=
  ∀ machine specs name storage,
    bget vp.(assignments) machine = Some specs → bget specs name = Some storage →
    ∃ spec, spec ∈ requested ∧ spec.(rq_name) = name ∧
            ServiceStorageSpec_try_from spec = Ok storage.

(** A later ledger of the same plan: it only grew, by requested Services. *)
Record extends (requested : list RequestedServiceSpec) (vp vp' : VolumePlan) : Prop := {
  ext_snapshot : vp'.(vp_snapshot) = vp.(vp_snapshot);
  ext_namespace : vp'.(vp_namespace) = vp.(vp_namespace);
  ext_assigned : ∀ name machine, assigned_to vp name machine → assigned_to vp' name machine;
  ext_ok : ledger_ok requested vp → ledger_ok requested vp'
}.

Lemma extends_refl requested vp : extends requested vp vp.
Proof. by split. Qed.

Lemma extends_trans requested vp1 vp2 vp3 :
  extends requested vp1 vp2 → extends requested vp2 vp3 → extends requested vp1 vp3.
Proof. intros [S1 N1 A1 O1] [S2 N2 A2 O2]. split; [congruence|congruence|auto|auto]. Qed.

#[global] Instance extends_preorder requested : PreOrder (extends requested).
Proof. split; [intros ?; apply extends_refl|intros ???; apply extends_trans]. Qed.

Lemma assign_extends requested vp machine spec vp' :
  spec ∈ requested → assign vp machine spec = Ok vp' →
  extends requested vp vp' ∧ assigned_to vp' spec.(rq_name) machine.
Proof.
  intros Hspec. unfold assign. destruct (bcontains _ _) eqn:Hc.
  - intros [= <-]. split; [done|]. unfold bcontains in Hc.
    destruct (bget vp.(assignments) machine) as [specs|] eqn:Hm; simpl in Hc; [|done].
    destruct (bget specs _) eqn:Hs; [|done]. by eexists _, _.
  - intros (storage & Hst%ok_or_Ok & [= <-])%result_bind_Ok.
    set (specs := default [] _) in *. split.
    + split; simpl; [done|done| |].
      * intros name m (sp & st & Hm & Hn). unfold assigned_to. simpl.
        rewrite bget_binsert. case_decide as Heq; [|by eexists _, _].
        subst m. unfold specs. rewrite Hm. simpl.
        destruct (decide (spec.(rq_name) = name)) as [<-|Hne].
        -- eexists _, storage. by rewrite bget_binsert, decide_True.
        -- eexists _, st. by rewrite bget_binsert, decide_False.
      * intros Hok m sp name st. simpl. rewrite bget_binsert. case_decide as Heq; [|by apply Hok].
        subst m. intros [= <-]. rewrite bget_binsert. case_decide as Hn.
        -- intros [= <-]. exists spec. split_and!; [done|done|].
           destruct (ServiceStorageSpec_try_from spec); simpl in Hst; by simplify_eq.
        -- unfold specs. destruct (bget vp.(assignments) machine) as [sp|] eqn:Hm; simpl; [|done].
           by apply Hok with machine.
    + eexists _, storage. simpl. rewrite bget_binsert, decide_True by done.
      by rewrite bget_binsert, decide_True.
Qed.

Lemma assign_all_extends {A} requested (key : A → MachineId) (spec_of : A → RequestedServiceSpec)
    l vp vp' :
  (∀ x, x ∈ l → spec_of x ∈ requested) →
  try_fold (λ plan x, assign plan (key x) (spec_of x)) l vp = Ok vp' →
  extends requested vp vp' ∧
  ∀ x, x ∈ l → assigned_to vp' (spec_of x).(rq_name) (key x).
Proof.
  revert vp. induction l as [|x l IH]; intros vp Hl; simpl.
  - intros [= <-]. split; [done|set_solver].
  - intros (vp1 & H1 & H2)%result_bind_Ok.
    apply (assign_extends requested) in H1 as [E1 A1]; [|apply Hl; set_solver].
    apply IH in H2 as [E2 A2]; [|intros y Hy; apply Hl; set_solver].
    split; [by etransitivity|]. intros y [->|Hy]%elem_of_cons; [|by apply A2].
    by apply E2.
Qed.

Lemma place_extends requested vp spec machines vp' machines' :
  spec ∈ requested → place vp spec machines = Ok (vp', machines') →
  extends requested vp vp' ∧
  ∀ m, m ∈ machines' → assigned_to vp' spec.(rq_name) m.(mo_machine).(machine_id).
Proof.
  intros Hspec. unfold place. intros ([[mounted missing] ms] & _ & Hp)%result_bind_Ok.
  apply result_bind_Ok in Hp as (ms1 & _ & Hp).
  apply result_bind_Ok in Hp as (vp1 & Hf & [= <- <-]).
  by apply (assign_all_extends requested (λ m, m.(mo_machine).(machine_id)) (λ _, spec)) in Hf.
Qed.

(** ** Uses of shared Volumes *)

Lemma record_use_from (requested : list RequestedServiceSpec) spec uses volume :
  spec ∈ requested →
  (∀ name us u, bget uses name = Some us → u ∈ us → u.(use_service) ∈ requested) →
  ∀ name us u, bget (record_use spec uses volume) name = Some us → u ∈ us →
    u.(use_service) ∈ requested.
Proof.
  intros Hspec Huses name us u. unfold record_use.
  destruct (managed_volume_name volume) as [n|]; [|by apply Huses].
  destruct (existsb _ _); [by apply Huses|]. rewrite bget_binsert.
  case_decide; [|by apply Huses]. intros [= <-] [Hu| ->%list_elem_of_singleton]%elem_of_app; [|done].
  destruct (bget uses n) as [us'|] eqn:Hn; simpl in Hu; [|set_solver]. by apply (Huses n us').
Qed.

Lemma managed_volume_uses_from requested uses name us u :
  managed_volume_uses requested = Ok uses → (name, us) ∈ uses → u ∈ us →
  u.(use_service) ∈ requested.
Proof.
  unfold managed_volume_uses. intros Hf Hin Hu.
  assert (Hinv : bwf uses ∧ ∀ name us u, bget uses name = Some us → u ∈ us →
                   u.(use_service) ∈ requested).
  { eapply (try_fold_inv _ (λ uses, bwf uses ∧ ∀ name us u, bget uses name = Some us → u ∈ us →
      u.(use_service) ∈ requested)); [| |exact Hf]; [|split; [apply bwf_nil|done]].
    intros uses0 spec uses1 Hspec [Hwf Huses] (mounted & _ & [= <-])%result_bind_Ok. clear Hin Hu.
    revert uses0 Hwf Huses. induction mounted as [|v mounted IH]; intros uses0 Hwf Huses; simpl;
      [done|]. apply IH; [|by apply record_use_from].
    unfold record_use. destruct (managed_volume_name v); [|done].
    destruct (existsb _ _); [done|]. by apply bwf_binsert. }
  destruct Hinv as [Hwf Hinv]. eapply (Hinv name us u); [by apply bget_Some|done].
Qed.

Lemma component_uses_from requested uses component u :
  managed_volume_uses requested = Ok uses → component ∈ shared_volume_components uses →
  u ∈ concat (map snd component) → u.(use_service) ∈ requested.
Proof.
  intros Huses Hc ([name us] & Hv & Hu)%elem_of_concat_map. simpl in Hu.
  eapply managed_volume_uses_from; [exact Huses| |exact Hu].
  assert (Hin : (name, us) ∈ concat (shared_volume_components uses)).
  { rewrite <-(map_id (shared_volume_components uses)). apply elem_of_concat_map.
    by exists component. }
  destruct (components_loop_spec (length (List.filter is_shared uses))
              (List.filter is_shared uses)) as [Hp _]; [done|].
  fold (shared_volume_components uses) in Hp. rewrite Hp in Hin.
  by apply elem_of_filterb in Hin as [Hin _].
Qed.

Lemma component_services_names component name :
  bcontains (component_services component) name = true → name ∈ component_names component.
Proof.
  unfold bcontains. destruct (bget _ name) as [spec|] eqn:Hg; [|done]. intros _.
  unfold component_services in Hg. apply bget_bcollect_elem, list_elem_of_fmap in Hg
    as (u & [= -> _] & Hu). unfold component_names. by apply list_elem_of_fmap_2.
Qed.

(** ** Closing the ledger *)

(** Whether a graph mounts a provisioned Volume. *)
Definition needs_storage (graph : ServiceVolumeGraph) : Prop :=
  has_mounted_provisioned_volume graph = Some true.

(** A preparation of one Machine: what is assigned there and needs storage, within the
    Machine's observed capacity. *)
Record prepared (snapshot : DeploySnapshot)
    (ledger : bmap MachineId (bmap ServiceName ServiceStorageSpec)) (machine : MachineId)
    (specs : list ServiceStorageSpec) : Prop := {
  prep_specs : ∃ all, bget ledger machine = Some all ∧
    ∀ storage, storage ∈ specs ↔ storage ∈ bvalues all ∧ needs_storage storage.(ss_volumes);
  prep_budget : ∃ capacity mounted,
    bget snapshot.(snap_storage_capacity) machine = Some (Ok capacity) ∧
    Forall2 (λ storage volumes, mounted_volumes storage.(ss_volumes) = Some volumes) specs mounted ∧
    is_ok (budget capacity (bounds (concat mounted))) = true
}.

Definition preparation (snapshot : DeploySnapshot)
    (ledger : bmap MachineId (bmap ServiceName ServiceStorageSpec)) (op : DeployOperation) : Prop :=
  ∃ machine specs, op = PrepareVolumes machine specs ∧ prepared snapshot ledger machine specs.

Lemma try_filter_elem {A E} (p : A → Result bool E) l kept x :
  try_filter p l = Ok kept → x ∈ kept ↔ x ∈ l ∧ p x = Ok true.
Proof.
  intros Hf. split; [by eapply try_filter_sub|]. revert kept Hf.
  induction l as [|y l IH]; intros kept Hf [Hx Hp]; [set_solver|]. simpl in Hf.
  apply result_bind_Ok in Hf as (keep & Hk & Hf).
  apply result_bind_Ok in Hf as (rest & Hr & [= <-]).
  apply elem_of_cons in Hx as [->|Hx].
  - assert (keep = true) as -> by congruence. set_solver.
  - specialize (IH rest Hr (conj Hx Hp)). destruct keep; set_solver.
Qed.

Lemma prepare_machine_spec snapshot ledger bs preps machine ledger' bs' preps' :
  prepare_machine snapshot (ledger, bs, preps) machine = Ok (ledger', bs', preps') →
  ledger' = bremove machine ledger ∧
  ∃ specs, preps' = preps ++ [PrepareVolumes machine specs] ∧
           prepared snapshot ledger machine specs.
Proof.
  unfold prepare_machine. intros (all & Hall%ok_or_Ok & Hp)%result_bind_Ok.
  apply result_bind_Ok in Hp as (specs & Hspecs & Hp).
  apply result_bind_Ok in Hp as (mounted & Hm%collect_result_Ok & Hp).
  apply result_bind_Ok in Hp as (observed & Ho%ok_or_Ok & Hp).
  apply result_bind_Ok in Hp as (b & Hb & [= <- <- <-]).
  split; [done|]. exists specs. split; [done|]. split.
  - exists all. split; [done|]. intros storage. rewrite (try_filter_elem _ _ _ _ Hspecs).
    unfold needs_storage, expect.
    by destruct (has_mounted_provisioned_volume storage.(ss_volumes)) as [[]|]; simpl; naive_solver.
  - apply find_Some_elem in Ho as [_ Hid%String.eqb_eq].
    unfold storage_budget_for, capacity in Hb. rewrite Hid in Hb.
    destruct (bget (snap_storage_capacity snapshot) machine) as [[cap|]|] eqn:Hc; simpl in Hb;
      [|done|done].
    exists cap, mounted. split_and!; [done| |by destruct (budget _ _)].
    eapply Forall2_impl; [exact Hm|]. intros storage volumes Hv. by apply ok_or_Ok in Hv.
Qed.

Lemma prepared_bremove snapshot ledger removed machine specs :
  prepared snapshot (bremove removed ledger) machine specs →
  prepared snapshot ledger machine specs.
Proof.
  intros [(all & Hb & Hs) Hbud]. split; [|done]. exists all. split; [|done].
  rewrite bget_bremove in Hb. by case_decide.
Qed.

Lemma prepare_all_spec snapshot ids ledger bs preps ledger' bs' preps' :
  try_fold (prepare_machine snapshot) ids (ledger, bs, preps) = Ok (ledger', bs', preps') →
  ∃ new, preps' = preps ++ new ∧ map op_machine_id new = ids ∧
         ∀ p, p ∈ new → preparation snapshot ledger p.
Proof.
  revert ledger bs preps. induction ids as [|id ids IH]; intros ledger bs preps; simpl.
  - intros [= <- <- <-]. exists []. rewrite app_nil_r. split_and!; [done|done|set_solver].
  - intros ([[ledger1 bs1] preps1] & H1 & H2)%result_bind_Ok.
    apply prepare_machine_spec in H1 as (-> & specs & -> & Hp).
    apply IH in H2 as (new & -> & Hids & Hnew).
    exists (PrepareVolumes id specs :: new). rewrite <-app_assoc. simpl. rewrite Hids.
    split_and!; [done|done|]. intros p [->|Hin]%elem_of_cons; [by exists id, specs|].
    destruct (Hnew p Hin) as (m & sp & -> & Hpr%prepared_bremove). by exists m, sp.
Qed.

Lemma finish_spec vp ops volumes ops' :
  finish vp ops = Ok (volumes, ops') →
  ∃ preps, ops' = preps ++ ops ∧ NoDup (map op_machine_id preps) ∧
    (∀ p, p ∈ preps → preparation vp.(vp_snapshot) vp.(assignments) p) ∧
    ∀ op spec, op ∈ ops → op_spec op = Some spec →
      needs_storage spec.(rs_mount_graph).(mg_volumes) →
      op_machine_id op ∈ map op_machine_id preps.
Proof.
  unfold finish. intros (preparing & Hprep & Hf)%result_bind_Ok.
  do 2 (apply result_bind_Ok in Hf as (? & _ & Hf)).
  apply result_bind_Ok in Hf as ([[rest bs] preps] & Hall & [= <- <-]).
  apply prepare_all_spec in Hall as (new & -> & Hids & Hnew). simpl.
  exists new. rewrite Hids. split_and!; [done| |done|].
  - apply bset_wf_NoDup, bset_of_wf.
  - intros op spec Hop Hspec Hneeds. apply elem_of_bset_of, list_elem_of_fmap_2.
    apply (try_filter_elem _ _ _ _ Hprep). split; [done|]. unfold mounts_provisioned.
    rewrite Hspec. unfold needs_storage in Hneeds. by rewrite Hneeds.
Qed.
