(* ===== verification/Safety.v ===== *)
(** * What a whole plan may do

    Properties of [Planner.plan_operations] that hold for every Intent and
    every Snapshot: executing the plan never makes two Containers hold one host
    socket, and the plan touches nothing but the applied Services and, when
    pruning is allowed, the obsolete ones. *)

From S2P Require Import Prelude BTree Strings Values Machines StorageCapacity Volumes.
From S2P Require Import ServiceGraph Spec Services Deploy Eligibility Placement Reconcile.
From S2P Require Import VolumePlan Ledger Planner.

Open Scope string_scope.
Open Scope list_scope.
Open Scope nat_scope.

Section Sockets.
Context `{IpNetOps, ShapeJson}.
Context (random_id : ServiceName → ServiceId).

(** Operations that start and end no Container leave the sockets as they are. *)
Definition is_neutral (operation : DeployOperation) : bool :=
  match operation with
  | PrepareVolumes _ _ | WaitHealthy _ _ _ | StopHook _ _ | RunHook _ _ _ | RemoveVolume _ => true
  | _ => false
  end.

Lemma execute_neutral held ops :
  (∀ op, op ∈ ops → is_neutral op = true) → execute_all held ops = Some held.
Proof.
  induction ops as [|op ops IH]; intros Hn; simpl; [done|].
  assert (execute_sockets held op = Some held) as ->
    by (specialize (Hn op); destruct op; simpl in *; try done; by discriminate Hn; set_solver).
  simpl. apply IH. intros x Hx. apply Hn. set_solver.
Qed.

Lemma pre_deploy_neutral requested hooks ops hook op :
  op ∈ pre_deploy_operations requested hooks ops hook → is_neutral op = true.
Proof.
  unfold pre_deploy_operations.
  destruct (rq_pre_deploy requested), (find_map (hook_target hook) ops) as [[m s]|];
    try (intros Hop; by apply not_elem_of_nil in Hop).
  intros [(c & -> & _)%list_elem_of_fmap|Hop]%elem_of_app; [done|].
  apply list_elem_of_singleton in Hop as ->. done.
Qed.

Lemma admit_service_sockets requested current hooks vp machines res placement options
    res' machines' placement' :
  admit_service requested current hooks vp machines res placement options
    = Ok (res', machines', placement') →
  placement'.(ps_sockets) = placement.(ps_sockets) ∧
  placement'.(ps_reservations) = placement.(ps_reservations).
Proof.
  unfold admit_service. destruct (rq_mode requested), res; try (by intros [= _ _ <-]).
  intros ([[adm ms] pl] & Ha & [= _ _ <-])%result_bind_Ok. unfold admit_unreserved in Ha.
  apply result_bind_Ok in Ha as (ms1 & _ & Ha). destruct (is_hooked requested && _) in Ha;
    destruct (List.filter _ ms1) in Ha; simplify_eq; done.
Qed.

Lemma plan_one_service_replays requested namespace snapshot services vp placement options
    ops vp' placement' :
  plan_one_service random_id requested namespace snapshot services vp placement options
    = Ok (ops, vp', placement') →
  execute_all placement.(ps_sockets) ops = Some placement'.(ps_sockets).
Proof.
  unfold plan_one_service. intros (machines & _ & Hp)%result_bind_Ok.
  apply result_bind_Ok in Hp as ([[id current] hooks] & _ & Hp).
  destruct (take_reservation placement _) as [res placement1] eqn:Ht.
  assert (Hs1 : placement1.(ps_sockets) = placement.(ps_sockets))
    by (unfold take_reservation in Ht; by simplify_eq).
  apply result_bind_Ok in Hp as ([[adm ms] placement2] & Ha & Hp).
  apply admit_service_sockets in Ha as [Hs2 _].
  apply result_bind_Ok in Hp as ([vp1 ms1] & _ & Hp).
  apply result_bind_Ok in Hp as ([[ops1 hook] placement3] & Hpl & [= <- <- <-]).
  rewrite execute_all_app, execute_neutral by (intros op; apply pre_deploy_neutral). simpl.
  rewrite <-Hs1, <-Hs2. destruct (rq_mode requested).
  - apply result_bind_Ok in Hpl as (admission & _ & Hpl). by eapply plan_replicated_replays.
  - by eapply plan_global_replays.
Qed.

Lemma waits_neutral intent name machine op :
  op ∈ (dependency_waits intent name machine).1 → is_neutral op = true.
Proof.
  unfold dependency_waits. destruct (skip_health_monitor _); simpl; [set_solver|].
  by intros (d & -> & _)%list_elem_of_fmap.
Qed.

Lemma assemble_service_replays intent snapshot services named held st spec st' :
  assemble_service random_id intent snapshot services named st spec = Ok st' →
  execute_all held st.(as_operations) = Some st.(as_placement).(ps_sockets) →
  execute_all held st'.(as_operations) = Some st'.(as_placement).(ps_sockets).
Proof.
  unfold assemble_service. intros ([[ops vp] placement] & Hp & Ha)%result_bind_Ok Hheld.
  apply in_service_Ok, plan_one_service_replays in Hp.
  destruct (match find_map starting_machine ops with Some _ => _ | None => _ end)
    as [waits warned] eqn:Hw.
  injection Ha as <-. simpl. rewrite execute_all_app, Hheld. simpl.
  rewrite execute_all_app, execute_neutral; [done|]. intros op Hop.
  destruct (find_map starting_machine ops); simplify_eq; [|set_solver].
  eapply waits_neutral. by rewrite Hw.
Qed.

Lemma prepared_neutral snapshot ids state state' :
  try_fold (prepare_machine snapshot) ids state = Ok state' →
  (∀ op, op ∈ state.2 → is_neutral op = true) → ∀ op, op ∈ state'.2 → is_neutral op = true.
Proof.
  intros Hf Hs. eapply (try_fold_inv _ (λ state, ∀ op, op ∈ state.2 → is_neutral op = true));
    [|exact Hs|exact Hf].
  intros [[a b] preps] id state1 _ Hpre Hm. unfold prepare_machine in Hm.
  repeat (apply result_bind_Ok in Hm as (? & _ & Hm)). injection Hm as <-. simpl.
  intros op [Hop| ->%list_elem_of_singleton]%elem_of_app; [by apply Hpre|done].
Qed.

Lemma execute_removals held services obsolete :
  is_Some (execute_all held (removal_operations services obsolete)).
Proof.
  unfold removal_operations. set (containers := concat _). clearbody containers.
  revert held. induction containers as [|c cs IH]; intros held; simpl; [by eexists|apply IH].
Qed.

(** The operations run in order, from the observed sockets, without a conflict. *)
Definition socket_safe (snapshot : DeploySnapshot) (ops : list DeployOperation) : Prop :=
  is_Some (execute_all (HostSockets_from_snapshot snapshot) ops).

(** C21: whatever the Intent and the evidence, executing a plan's operations in order never
    starts a Container on a host socket that another one, observed or started, still holds. *)
Theorem plan_sockets_safe intent snapshot planned :
  plan_operations random_id intent snapshot = Ok planned →
  socket_safe snapshot planned.(operations).
Proof.
  unfold socket_safe, plan_operations. intros (bound & _ & Hp)%result_bind_Ok. unfold assemble_plan in Hp.
  do 4 (apply result_bind_Ok in Hp as (? & _ & Hp)).
  apply result_bind_Ok in Hp as ([vp reservations] & _ & Hp).
  apply result_bind_Ok in Hp as (st & Hst & Hp).
  apply result_bind_Ok in Hp as ([volumes ops] & Hf & Hp).
  apply result_bind_Ok in Hp as (preserved & _ & [= <-]). simpl.
  assert (Hst' : execute_all (HostSockets_from_snapshot snapshot) st.(as_operations)
                 = Some st.(as_placement).(ps_sockets)).
  { eapply (try_fold_inv _ (λ st, execute_all (HostSockets_from_snapshot snapshot)
      st.(as_operations) = Some st.(as_placement).(ps_sockets))); [| |exact Hst]; [|done].
    intros s spec s1 _ Hs Ha. by eapply assemble_service_replays. }
  unfold finish in Hf. do 3 (apply result_bind_Ok in Hf as (? & _ & Hf)).
  apply result_bind_Ok in Hf as ([[rest bs] preps] & Hprep & [= <- <-]).
  rewrite !execute_all_app, execute_neutral.
  2: { apply (prepared_neutral _ _ _ _ Hprep). set_solver. }
  simpl. rewrite Hst'. simpl. destruct (prune_refusal _ _); [by eexists|].
  apply execute_removals.
Qed.
End Sockets.

(** ** What a plan touches *)

(** The Containers an operation stops, removes or replaces. *)
Definition touched (operation : DeployOperation) : list ContainerId :=
  match operation with
  | RunHook _ _ olds => map snd olds
  | _ => option_list (op_container_id operation)
  end.

Section Touches.
Context `{IpNetOps, ShapeJson}.

(** An operation of one Service touches only Containers in [ids] and starts the requested
    Volumes only on Machines in [at_]. *)
Record scoped (requested : RequestedServiceSpec) (ids : ContainerId → Prop)
    (at_ : MachineId → Prop) (op : DeployOperation) : Prop := {
  scoped_touched : ∀ c, c ∈ touched op → ids c;
  scoped_name : ∀ n, op_service_name op = Some n → n = requested.(rq_name);
  scoped_volumes : ∀ id, op ≠ RemoveVolume id;
  scoped_placed : ∀ s, op_spec op = Some s →
    at_ (op_machine_id op) ∧ s.(rs_mount_graph) = requested.(rq_mount_graph)
}.

(** Every operation so far is scoped, and the reservations are those of the start. *)
Record plan_scoped (requested : RequestedServiceSpec) (ids : ContainerId → Prop)
    (at_ : MachineId → Prop) (reservations : bmap ServiceName ReplicatedReservation)
    (plan : ServicePlan) : Prop := {
  psc_ops : ∀ op, op ∈ plan.(sp_operations) → scoped requested ids at_ op;
  psc_kept : plan.(sp_placement).(ps_reservations) = reservations
}.

Section OneService.
Context (requested : RequestedServiceSpec) (ids : ContainerId → Prop) (at_ : MachineId → Prop).
Context (reservations : bmap ServiceName ReplicatedReservation).
Abbreviation ok := (plan_scoped requested ids at_ reservations).

Lemma plan_scoped_snoc plan plan' op :
  ok plan → plan'.(sp_operations) = plan.(sp_operations) ++ [op] →
  plan'.(sp_placement).(ps_reservations) = plan.(sp_placement).(ps_reservations) →
  scoped requested ids at_ op → ok plan'.
Proof.
  intros [Hops Hk] Ho Hr Hop. split; [rewrite Ho|congruence].
  intros x [Hx| ->%list_elem_of_singleton]%elem_of_app; auto.
Qed.

Lemma plan_scoped_pre_stops machine stops plan :
  ok plan → (∀ c, c ∈ stops → ids c) → ok (fold_left (pre_stop machine) stops plan).
Proof.
  revert plan. induction stops as [|c stops IH]; intros plan Hplan Hstops; simpl; [done|].
  apply IH; [|intros x Hx; apply Hstops; set_solver].
  eapply plan_scoped_snoc; [done..|]. split; simpl; [|done|done|done].
  intros x ->%list_elem_of_singleton. apply Hstops. set_solver.
Qed.

Lemma plan_scoped_remove_unused current plan :
  ok plan → (∀ c, c ∈ current → ids c.(container_id)) → ok (remove_unused plan current).
Proof.
  unfold remove_unused. revert plan.
  induction current as [|c cs IH]; intros plan Hplan Hc; simpl; [done|].
  apply IH; [|intros x Hx; apply Hc; set_solver]. case_bool_decide; [done|].
  eapply plan_scoped_snoc; [done..|]. split; simpl; [|done|done|done].
  intros x ->%list_elem_of_singleton. apply Hc. set_solver.
Qed.

Lemma plan_scoped_admit plan plan' machine existing operation deploy :
  ok plan → admit_operation plan machine requested existing operation deploy = Ok plan' →
  (∀ op, deploy = Ok op → scoped requested ids at_ op) → ok plan'.
Proof.
  intros Hplan. unfold admit_operation. intros (sockets & _ & Ha)%result_bind_Ok Hop.
  apply result_bind_Ok in Ha as (op & Hd & [= <-]). eapply plan_scoped_snoc; [done..|auto].
Qed.

Lemma scoped_replace machine container id options op :
  ids container.(container_id) → at_ machine →
  replace_operation machine container requested id options = Ok op →
  scoped requested ids at_ op.
Proof.
  intros Hid Hat. unfold replace_operation. intros (order & _ & Ho)%result_bind_Ok.
  apply result_bind_Ok in Ho as (spec & Hs%ok_or_Ok & [= <-]).
  apply resolve_Some in Hs as (_ & Hn & _ & Hg).
  split; simpl; [|by intros n [= <-]|done|by intros s [= <-]].
  by intros c ->%list_elem_of_singleton.
Qed.

Lemma scoped_run machine id options op :
  at_ machine → run_operation machine requested id options = Ok op → scoped requested ids at_ op.
Proof.
  intros Hat. unfold run_operation. intros (order & _ & Ho)%result_bind_Ok.
  apply result_bind_Ok in Ho as (spec & Hs%ok_or_Ok & [= <-]).
  apply resolve_Some in Hs as (_ & Hn & _ & Hg).
  split; simpl; [set_solver|by intros n [= <-]|done|by intros s [= <-]].
Qed.

(** The Machines and the pre-stops of a reservation. *)
Definition stops_ok (chs : list ReplicaChoice) : Prop :=
  ∀ ch, ch ∈ chs → at_ ch.(choice_machine) ∧
    ∀ c stops, ch.(choice_action) = ActReplace c stops → ∀ s, s ∈ stops → ids s.

Lemma plan_scoped_choice current id options plan choice plan' :
  (∀ c, c ∈ current → ids c.(container_id)) → stops_ok [choice] → ok plan →
  apply_choice requested id (bcollect (map (λ c, (c.(container_id), c)) current)) options plan
    choice = Ok plan' → ok plan'.
Proof.
  intros Hcur Hstops [Hops Hk]. unfold apply_choice.
  destruct (Hstops choice) as [Hat Hpre]; [by apply list_elem_of_singleton|].
  destruct choice.(choice_action) as [c|c stops|] eqn:Ha.
  - intros [= <-]. split; done.
  - intros (existing & Hex%ok_or_Ok & Hadm)%result_bind_Ok.
    apply bget_bcollect_elem, list_elem_of_fmap in Hex as (x & [= -> ->] & Hx).
    eapply plan_scoped_admit; [|exact Hadm|].
    + apply plan_scoped_pre_stops; [split; done|].
      intros s Hs. by eapply Hpre.
    + intros op. apply scoped_replace; [by apply Hcur|done].
  - intros Hadm. eapply plan_scoped_admit; [|exact Hadm|]; [split; done|].
    intros op. by apply scoped_run.
Qed.

Lemma plan_scoped_global_step current id options hook error plan observed plan' :
  (∀ c, c ∈ current → ids c.(container_id)) → at_ observed.(mo_machine).(machine_id) → ok plan →
  global_step id current requested options hook error plan observed = Ok plan' → ok plan'.
Proof.
  intros Hcur Hat [Hops Hk]. unfold global_step.
  set (here := on_machine current _).
  assert (Hhere : ∀ c, c ∈ here → ids c.(container_id))
    by (intros c [Hc _]%elem_of_filterb; by apply Hcur).
  destruct (List.find _ here) as [kept|]; [intros [= <-]; split; done|].
  intros (reusable & Hreuse%ok_or_Ok & Hg)%result_bind_Ok.
  destruct reusable as [container|].
  { eapply plan_scoped_admit; [|exact Hg|]; [split; done|]. intros op [= <-].
    apply find_panicking_Some in Hreuse as [_ Hreuse]. unfold reusable_global in Hreuse.
    destruct (_ && _ && _) in Hreuse; [|done].
    destruct (resolve _ _ _) as [spec|] eqn:Hs; [|done]. simpl in Hreuse.
    injection Hreuse as Heq%bool_decide_eq_true. apply resolve_Some in Hs as (_ & Hn & _ & Hgraph).
    split; simpl; [set_solver|intros n [= <-]; congruence|done|intros s [= <-]].
    split; [done|congruence]. }
  assert (Hres : ∀ plan demand plan1, ok plan →
    reserve_or plan observed.(mo_machine).(machine_id) demand error = Ok plan1 → ok plan1).
  { unfold reserve_or. intros plan0 demand plan1 [Ho0 Hk0] Ho.
    apply result_bind_Ok in Ho as ([fits cap] & _ & Ho). destruct fits; simplify_eq/=.
    by split. }
  destruct (List.find _ here) as [container|] eqn:Hfind;
    apply result_bind_Ok in Hg as (plan1 & H1 & Hg); apply Hres in H1; [|by split| |by split].
  - apply find_Some_elem in Hfind as [Hc _]. destruct H1 as [Ho1 Hk1].
    eapply plan_scoped_admit; [|exact Hg|intros op; by apply scoped_replace; [apply Hhere|]].
    apply plan_scoped_pre_stops; [by split|].
    intros c (x & -> & [Hx _]%elem_of_filterb)%list_elem_of_fmap. by apply Hhere.
  - eapply plan_scoped_admit; [exact H1|exact Hg|]. intros op. by apply scoped_run.
Qed.
End OneService.

(** ** Reservations stop only Containers of their Service *)

Section Reservations.
Context (requested : RequestedServiceSpec) (current : list ServiceContainer).
Context (ids : ContainerId → Prop) (Hcur : ∀ c, c ∈ current → ids c.(container_id)).
Context (at_ : MachineId → Prop).

Record stops_inv (st : SelectState) : Prop := {
  sti_from : ∀ m c, c ∈ containers_at st.(sel_by_machine) m → c ∈ current;
  sti_stops : stops_ok ids at_ st.(sel_choices)
}.

Lemma siblings_sub existing operation remaining id :
  id ∈ conflicting_siblings requested existing operation remaining →
  id ∈ map container_id remaining.
Proof.
  unfold conflicting_siblings. destruct existing; [|set_solver].
  case_bool_decide; [|set_solver].
  intros (x & -> & [Hx _]%elem_of_filterb)%list_elem_of_fmap. by apply list_elem_of_fmap_2.
Qed.

Lemma select_replica_stops options ms error st st' :
  (∀ m, m ∈ ms → at_ m) → stops_inv st →
  select_replica requested options ms error st = Ok st' → stops_inv st'.
Proof.
  intros Hms [Hfrom Hstops]. unfold select_replica.
  intros ([[sel cursor] blocked] & Ht & Hs)%result_bind_Ok.
  destruct sel as [sel|]; [|done]. apply try_machines_selected in Ht.
  destruct Ht as (Hin & _ & Hpre & _).
  apply result_bind_Ok in Hs as (sockets & _ & [= <-]). split; simpl.
  - intros m c. unfold containers_at at 1. rewrite bget_binsert. case_decide; simpl.
    + intros [Hc _]%elem_of_filterb. apply (Hfrom sel.(at_machine)).
      destruct (containers_at _ _) as [|x l _] using rev_ind; [done|].
      rewrite removelast_last in Hc. set_solver.
    + apply Hfrom.
  - intros ch [Hch| ->%list_elem_of_singleton]%elem_of_app; [by apply Hstops|].
    split; [by apply Hms|]. intros c stops Ha. simpl in Ha. destruct (last _); [|done]. case_bool_decide; [done|].
    injection Ha as _ <-. intros s Hs. rewrite Hpre in Hs. apply siblings_sub in Hs.
    apply list_elem_of_fmap in Hs as (x & -> & Hx). by apply Hcur, (Hfrom sel.(at_machine)).
Qed.

Lemma select_replicas_stops options ms error n st st' :
  (∀ m, m ∈ ms → at_ m) → stops_inv st →
  select_replicas requested options ms error n st = Ok st' → stops_inv st'.
Proof.
  intros Hms. revert st. induction n as [|n IH]; intros st Hst; simpl; [by intros [= <-]|].
  intros (st1 & H1 & H2)%result_bind_Ok. eapply IH; [|exact H2].
  by eapply select_replica_stops.
Qed.

Lemma select_replicated_stops machines occupancy capacity sockets error options res cap socks :
  (∀ m, m ∈ machines → at_ m) →
  select_replicated requested current machines occupancy capacity sockets error options
    = Ok (res, cap, socks) → stops_ok ids at_ res.(choices).
Proof.
  intros Hms. unfold select_replicated. destruct (rq_mode requested); [|done].
  destruct (negb _); [done|]. intros (st & Hs & [= <- <- <-])%result_bind_Ok. simpl.
  eapply select_replicas_stops; [| |exact Hs]; [intros m Hm; apply Hms; by apply elem_of_stable_sort in Hm|].
  split; simpl; [|intros ?; set_solver].
  intros m c Hc. rewrite containers_at_initial in Hc. by apply elem_of_filterb in Hc as [Hc _].
Qed.
End Reservations.

(** Every reservation is on Machines of [at_] and stops only Containers that [own] gives to its
    Service. *)
Definition reservations_ok (own : ServiceName → ContainerId → Prop)
    (at_ : ServiceName → MachineId → Prop)
    (reservations : bmap ServiceName ReplicatedReservation) : Prop :=
  ∀ name r, bget reservations name = Some r → stops_ok (own name) (at_ name) r.(choices).

Lemma stops_ok_mono ids (at1 at2 : MachineId → Prop) chs :
  (∀ m, at1 m → at2 m) → stops_ok ids at1 chs → stops_ok ids at2 chs.
Proof. intros Hm Hs ch Hch. destruct (Hs ch Hch). auto. Qed.

Lemma reservations_ok_mono own at1 at2 reservations :
  (∀ name m, at1 name m → at2 name m) →
  reservations_ok own at1 reservations → reservations_ok own at2 reservations.
Proof. intros Hm Hr name r Hg. eapply stops_ok_mono; [apply Hm|by apply Hr]. Qed.

Section Shared.
Context (own : ServiceName → ContainerId → Prop) (observed : list ServiceObservation).
Context (Hown : ∀ service c, service ∈ observed → c ∈ service.(so_containers) →
                  own service.(so_identity).(qs_name) c.(container_id)).

Lemma reserve_on_stops at_ self machine requested options self' :
  (∀ spec, spec ∈ requested → at_ spec.(rq_name) machine) →
  reservations_ok own at_ self.(pr_reservations) →
  reserve_on self machine requested observed options = Ok self' →
  reservations_ok own at_ self'.(pr_reservations).
Proof.
  intros Hat Hself. unfold reserve_on. intros (trial & Hf & [= <-])%result_bind_Ok.
  eapply (try_fold_inv _ (λ t, reservations_ok own at_ t.(pr_reservations)));
    [|exact Hself|exact Hf].
  intros t spec t1 Hspec Ht Hs. cbv beta zeta in Hs.
  set (service := List.find _ observed) in Hs.
  apply result_bind_Ok in Hs as ([[res cap] socks] & Hr & [= <-]). simpl.
  intros name r. rewrite bget_binsert. case_decide as Hn; [|by apply Ht].
  subst name. intros [= <-]. unfold reserve_replicated_service_demand in Hr.
  apply result_bind_Ok in Hr as ([[res1 cap1] socks1] & Hsel & [= <- _ _]).
  eapply select_replicated_stops; [| |exact Hsel].
  - intros c Hc. destruct service as [sv|] eqn:Hf'; simpl in Hc; [|set_solver].
    apply find_Some_elem in Hf' as [Hsv Hname%String.eqb_eq]. rewrite <-Hname. by apply Hown.
  - intros m ->%list_elem_of_singleton. by apply Hat.
Qed.

Lemma reserve_first_stops at_ placement requested options first ms error
    (names : list string) anchor placement' :
  (∀ spec, spec ∈ requested → spec.(rq_name) ∈ names) →
  reservations_ok own at_ placement.(pr_reservations) →
  reserve_first placement requested observed options first ms error = Ok (anchor, placement') →
  reservations_ok own (λ n m, at_ n m ∨ (n ∈ names ∧ m = anchor)) placement'.(pr_reservations).
Proof.
  intros Hnames Hpl. revert error. induction ms as [|m ms IH]; intros error; simpl.
  - by intros (? & _ & ?)%result_bind_Ok.
  - destruct (reserve_on _ _ _ _ _) as [p|[]] eqn:Hr; [|apply IH|done].
    intros [= <- <-]. eapply reserve_on_stops; [| |exact Hr].
    + intros spec Hspec. right. auto.
    + eapply reservations_ok_mono; [|exact Hpl]. auto.
Qed.

Lemma anchor_stops at_ vp component requested placement options anchor placement' :
  reservations_ok own at_ placement.(pr_reservations) →
  shared_component_anchor vp component requested observed placement options
    = Ok (anchor, placement') →
  reservations_ok own (λ n m, at_ n m ∨ (n ∈ component_names component ∧ m = anchor))
    placement'.(pr_reservations).
Proof.
  intros Hpl. unfold shared_component_anchor.
  pose proof (component_services_names component) as Hnames.
  set (services := component_services component) in *. clearbody services.
  destruct services as [|[first service] others] eqn:Hsv; [done|]. rewrite <-Hsv in *.
  intros (eligible0 & _ & Ha)%result_bind_Ok.
  apply result_bind_Ok in Ha as (eligible & _ & Ha).
  destruct eligible as [|e es]; [by apply result_bind_Ok in Ha as (? & _ & ?)|].
  apply result_bind_Ok in Ha as (fitting & _ & Ha).
  eapply reserve_first_stops; [|exact Hpl|exact Ha].
  intros spec [_ Hspec]%elem_of_filterb. by apply Hnames.
Qed.

Lemma reserve_shared_stops vp requested placement options vp' placement' :
  placement.(pr_reservations) = [] →
  reserve_shared vp requested observed placement options = Ok (vp', placement') →
  extends requested vp vp' ∧
  reservations_ok own (assigned_to vp') placement'.(pr_reservations).
Proof.
  intros Hpl. unfold reserve_shared. intros (uses & Huses & Hf)%result_bind_Ok.
  change placement' with (vp', placement').2. change vp' with (vp', placement').1 at 1 2.
  eapply (try_fold_inv _ (λ s, extends requested vp s.1 ∧
    reservations_ok own (assigned_to s.1) s.2.(pr_reservations))); [| |exact Hf].
  - intros [plan pl] component st1 Hc [Hext Hst] Ha. simpl in Hext, Hst.
    apply result_bind_Ok in Ha as ([anchor pl1] & Hanchor & Ha).
    apply result_bind_Ok in Ha as (plan1 & Hassign & [= <-]). simpl.
    apply (assign_all_extends requested (λ _, anchor) use_service) in Hassign as [Hext1 Hall].
    2: { intros u Hu. by eapply component_uses_from. }
    split; [by etransitivity|].
    eapply reservations_ok_mono; [|by eapply anchor_stops].
    intros name m [Hm|[Hn ->]]; [by apply Hext1|].
    unfold component_names in Hn. apply list_elem_of_fmap in Hn as (u & -> & Hu). by apply Hall.
  - simpl. split; [done|]. rewrite Hpl. done.
Qed.
End Shared.

(** ** One Service *)

Lemma plan_replicated_scoped id current requested machines admission placement options own
    (at_ : MachineId → Prop) ops hook placement' :
  (∀ c, c ∈ current → own c.(container_id)) →
  (∀ m, m ∈ machines → at_ m.(mo_machine).(machine_id)) →
  (∀ r, admission = AdmissionReserved r → stops_ok own at_ r.(choices)) →
  plan_replicated id current requested machines admission placement options
    = Ok (ops, hook, placement') →
  (∀ op, op ∈ ops → scoped requested own at_ op) ∧
  placement'.(ps_reservations) = placement.(ps_reservations).
Proof.
  intros Hcur Hms Hadm. unfold plan_replicated.
  intros ([reservation placement0] & Hres & Hp)%result_bind_Ok.
  assert (placement0.(ps_reservations) = placement.(ps_reservations) ∧
          stops_ok own at_ reservation.(choices)) as [Hk Hstops].
  { destruct admission as [error|r]; [|injection Hres as <- <-; split; [done|by apply Hadm]].
    apply result_bind_Ok in Hres as ([[res cap] socks] & Hsel & [= <- <-]).
    split; [done|]. eapply select_replicated_stops; [exact Hcur| |exact Hsel].
    intros m (o & -> & Ho)%list_elem_of_fmap. by apply Hms. }
  apply result_bind_Ok in Hp as (plan & Hplan & [= <- <- <-]).
  rewrite <-Hk.
  assert (Hok : plan_scoped requested own at_ placement0.(ps_reservations) plan).
  { eapply (try_fold_inv _ (plan_scoped requested own at_ placement0.(ps_reservations)));
      [| |exact Hplan]; [|split; simpl; [set_solver|done]].
    intros p1 ch p2 Hch Hp1 Ha. eapply plan_scoped_choice; [exact Hcur| |exact Hp1|exact Ha].
    intros ch' ->%list_elem_of_singleton. by apply Hstops. }
  apply (plan_scoped_remove_unused _ _ _ _ current) in Hok as [? ?]; [done|exact Hcur].
Qed.

Lemma plan_global_scoped id current hooks requested machines placement options
    (own : ContainerId → Prop) (at_ : MachineId → Prop) ops hook placement' :
  (∀ c, c ∈ current → own c.(container_id)) →
  (∀ m, m ∈ machines → at_ m.(mo_machine).(machine_id)) →
  plan_global id current hooks requested machines placement options
    = Ok (ops, hook, placement') →
  (∀ op, op ∈ ops → scoped requested own at_ op) ∧
  placement'.(ps_reservations) = placement.(ps_reservations).
Proof.
  intros Hcur Hms. unfold plan_global. intros (operations & _ & Hp)%result_bind_Ok.
  set (placement0 := if is_hooked requested && _ then _ else placement) in Hp.
  assert (Hs : placement0.(ps_reservations) = placement.(ps_reservations))
    by (unfold placement0; by destruct (is_hooked requested && _)).
  destruct (is_hooked requested && _ && _) in Hp; [done|].
  apply result_bind_Ok in Hp as (plan & Hplan & [= <- <- <-]). rewrite <-Hs.
  assert (Hok : plan_scoped requested own at_ placement0.(ps_reservations) plan).
  { eapply (try_fold_inv _ (plan_scoped requested own at_ placement0.(ps_reservations)));
      [| |exact Hplan]; [|split; simpl; [set_solver|done]].
    intros p1 m p2 Hm Hp1 Ha. eapply plan_scoped_global_step; [exact Hcur|by apply Hms|done|done]. }
  apply (plan_scoped_remove_unused _ _ _ _ current) in Hok as [? ?]; [done|exact Hcur].
Qed.

Lemma pre_deploy_scoped requested hooks ops hook own at_ op :
  (∀ c, c ∈ hooks → own c.(container_id)) →
  (∀ op, op ∈ ops → scoped requested own at_ op) →
  op ∈ pre_deploy_operations requested hooks ops hook → scoped requested own at_ op.
Proof.
  intros Hh Hops. unfold pre_deploy_operations.
  destruct (rq_pre_deploy requested); [|set_solver].
  destruct (find_map (hook_target hook) ops) as [[m s]|] eqn:Hf; [|set_solver].
  intros [(c & -> & [Hc _]%elem_of_filterb)%list_elem_of_fmap|Hop]%elem_of_app.
  { split; simpl; [|done|done|done]. intros x ->%list_elem_of_singleton. by apply Hh. }
  apply list_elem_of_singleton in Hop as ->.
  apply find_map_Some in Hf as (op & Hop & Ht). apply Hops in Hop as [_ Hn _ Hat].
  assert (Hsame : op_machine_id op = m ∧ op_spec op = Some s ∧ op_service_name op = Some s.(rs_name)).
  { destruct op; simpl in *; try done; case_bool_decide; by simplify_eq. }
  destruct Hsame as (<- & Hspec & Hname). split; simpl; [| |done|].
  - intros c. rewrite map_map. intros (x & -> & Hx)%list_elem_of_fmap. by apply Hh.
  - intros n [= <-]. by apply Hn.
  - intros s' [= <-]. by apply Hat.
Qed.

Section WholePlan.
Context (random_id : ServiceName → ServiceId) (intent : DeployIntent).
Context (snapshot : DeploySnapshot).

(** The observed Containers of one Service of the Namespace. *)
Definition own (name : ServiceName) (c : ContainerId) : Prop :=
  ∃ o, o ∈ snapshot.(snap_containers) ∧ o.(container_id) = c ∧
       o.(co_namespace) = intent.(in_namespace) ∧ o.(resolved_spec).(rs_name) = name.

Abbreviation services := (services_in snapshot intent.(in_namespace)).

Lemma service_members_own service o :
  service ∈ services → o ∈ members service →
  o ∈ snapshot.(snap_containers) ∧ o.(co_namespace) = intent.(in_namespace) ∧
  identity_of o = service.(so_identity).
Proof.
  intros Hs Ho. unfold services_in in Hs. set (observed := List.filter _ _) in Hs.
  destruct (derive_services_spec observed) as (Hown & _ & _).
  destruct (Hown service Hs) as (Hc & Hh & _).
  assert (Ho' : o ∈ List.filter (of_identity service.(so_identity)) observed).
  { unfold members in Ho. rewrite Hc, Hh in Ho. apply elem_of_app in Ho as [Ho|Ho];
      by apply elem_of_filterb in Ho as [Ho _]. }
  apply elem_of_filterb in Ho' as [Ho' Hid%of_identity_true].
  apply elem_of_filterb in Ho' as [Ho' Hns%String.eqb_eq]. done.
Qed.

Lemma service_own service o :
  service ∈ services → o ∈ members service →
  own service.(so_identity).(qs_name) o.(container_id).
Proof.
  intros Hs Ho. destruct (service_members_own _ _ Hs Ho) as (Hin & Hns & Hid).
  exists o. split_and!; [done..|]. by rewrite <-Hid.
Qed.

Lemma existing_service_own requested id current hooks c :
  existing_service random_id requested intent.(in_namespace) services = Ok (id, current, hooks) →
  c ∈ current ++ hooks → own requested.(rq_name) c.(container_id).
Proof.
  unfold existing_service. destruct (List.find _ services) as [service|] eqn:Hf.
  - apply find_Some_elem in Hf as [Hs Hid%bool_decide_eq_true].
    destruct (existsb _ _); [done|]. intros [= <- <- <-] Hc.
    assert (Hq : qs_name (so_identity service) = requested.(rq_name)) by (by rewrite Hid).
    rewrite <-Hq. by apply service_own.
  - intros [= <- <- <-]. set_solver.
Qed.

Lemma admit_service_reserved requested current hooks vp machines placement options
    reservation adm ms placement' :
  admit_service requested current hooks vp machines (AdmissionReserved <$> reservation) placement
    options = Ok (adm, ms, placement') →
  ∀ r, adm = Some (AdmissionReserved r) → reservation = Some r.
Proof.
  intros Ha r ->. unfold admit_service in Ha.
  destruct (rq_mode requested), reservation; simpl in Ha; simplify_eq; [done| |done].
  apply result_bind_Ok in Ha as ([[a m] p] & Hu & [= -> _ _]). unfold admit_unreserved in Hu.
  apply result_bind_Ok in Hu as (ms1 & _ & Hu). by destruct (List.filter _ ms1) in Hu.
Qed.

Lemma plan_one_service_scoped all requested vp placement ops vp' placement' :
  requested ∈ all → reservations_ok own (assigned_to vp) placement.(ps_reservations) →
  plan_one_service random_id requested intent.(in_namespace) snapshot services vp placement
    intent.(in_options) = Ok (ops, vp', placement') →
  extends all vp vp' ∧
  (∀ op, op ∈ ops →
     scoped requested (own requested.(rq_name)) (assigned_to vp' requested.(rq_name)) op) ∧
  reservations_ok own (assigned_to vp') placement'.(ps_reservations).
Proof.
  intros Hin Hres. unfold plan_one_service. intros (machines & _ & Hp)%result_bind_Ok.
  apply result_bind_Ok in Hp as ([[id current] hooks] & He & Hp).
  pose proof (λ c, existing_service_own _ _ _ _ c He) as Hcur. clear He. rename Hcur into He.
  destruct (take_reservation placement _) as [res placement1] eqn:Ht.
  unfold take_reservation in Ht. injection Ht as <- <-.
  apply result_bind_Ok in Hp as ([[adm ms] placement2] & Ha & Hp).
  pose proof (admit_service_reserved _ _ _ _ _ _ _ _ _ _ _ Ha) as Hadm.
  apply admit_service_sockets in Ha as [_ Hk].
  apply result_bind_Ok in Hp as ([vp1 ms1] & Hplace & Hp).
  apply (place_extends all) in Hplace as [Hext Hat]; [|done].
  apply result_bind_Ok in Hp as ([[ops1 hook] placement3] & Hpl & [= <- <- <-]).
  set (at_ := assigned_to vp1 requested.(rq_name)) in *.
  assert ((∀ op, op ∈ ops1 → scoped requested (own requested.(rq_name)) at_ op) ∧
          placement3.(ps_reservations) = placement2.(ps_reservations)) as [Hops Hk3].
  { destruct (rq_mode requested).
    - apply result_bind_Ok in Hpl as (admission & Had%ok_or_Ok & Hpl).
      eapply plan_replicated_scoped; [|exact Hat| |exact Hpl]; [intros c Hc; apply He; set_solver|].
      intros r ->. eapply stops_ok_mono; [|apply Hres, Hadm, Had]. apply Hext.
    - eapply plan_global_scoped; [|exact Hat|exact Hpl]. intros c Hc. apply He. set_solver. }
  split_and!; [done| |].
  - intros op [Hop|Hop]%elem_of_app; [|by apply Hops].
    eapply pre_deploy_scoped; [|exact Hops|exact Hop]. intros c Hc. apply He. set_solver.
  - rewrite Hk3, Hk. simpl. intros name r Hr. rewrite bget_bremove in Hr.
    case_decide; [done|]. eapply stops_ok_mono; [apply Hext|by apply Hres].
Qed.

Lemma bind_intent_names bound :
  bind_intent intent = Ok bound → map rq_name bound.(bound_requested) ≡ₚ applied_names intent.
Proof.
  unfold bind_intent. intros (specs & Ho & Hb)%result_bind_Ok.
  apply result_bind_Ok in Hb as (target & _ & Hb).
  apply result_bind_Ok in Hb as (requested & Hr%collect_result_Ok & [= <-]). simpl.
  pose proof (order_included_spec intent) as Hord. cbv zeta in Hord. rewrite Ho in Hord.
  destruct Hord as [Hperm _]. rewrite <-Hperm. clear -Hr.
  induction Hr as [|s r specs requested Hf Hr IH]; simpl; [done|].
  apply ok_or_Ok, find_Some_elem in Hf as [_ Heq%String.eqb_eq]. rewrite Heq. by constructor.
Qed.

(** An operation of some requested Service. *)
Definition service_op (requested : list RequestedServiceSpec) (vp : VolumePlan)
    (op : DeployOperation) : Prop :=
  ∃ spec, spec ∈ requested ∧
          scoped spec (own spec.(rq_name)) (assigned_to vp spec.(rq_name)) op.

Lemma service_op_mono requested vp vp' op :
  extends requested vp vp' → service_op requested vp op → service_op requested vp' op.
Proof.
  intros Hext (spec & Hspec & [Ht Hn Hv Hp]). exists spec. split; [done|]. split; [done..|].
  intros s Hs. destruct (Hp s Hs). split; [by apply Hext|done].
Qed.

Record assembled (requested : list RequestedServiceSpec) (vp : VolumePlan) (st : AssembleState)
    : Prop := {
  asm_extends : extends requested vp st.(as_volume_plan);
  asm_reserved :
    reservations_ok own (assigned_to st.(as_volume_plan)) st.(as_placement).(ps_reservations);
  asm_ops : ∀ op, op ∈ st.(as_operations) → service_op requested st.(as_volume_plan) op
}.

Lemma assemble_service_scoped requested vp named st spec st' :
  spec ∈ requested → assembled requested vp st →
  assemble_service random_id intent snapshot services named st spec = Ok st' →
  assembled requested vp st'.
Proof.
  intros Hspec [Hext Hres Hops]. unfold assemble_service.
  intros ([[ops vp1] placement] & Hp & Ha)%result_bind_Ok.
  apply in_service_Ok, (plan_one_service_scoped requested) in Hp as (Hext1 & Hnew & Hres'); [|done..].
  destruct (match find_map starting_machine ops with Some _ => _ | None => _ end)
    as [waits warned] eqn:Hw.
  injection Ha as <-. split; simpl; [by etransitivity|done|].
  intros op [Hop|[Hop|Hop]%elem_of_app]%elem_of_app; [by eapply service_op_mono, Hops| |eexists; eauto].
  exists spec. split; [done|].
  destruct (find_map starting_machine ops); simplify_eq; [|set_solver].
  unfold dependency_waits in Hw. destruct (skip_health_monitor _); simplify_eq; [set_solver|].
  apply list_elem_of_fmap in Hop as (d & -> & Hd).
  apply list_elem_of_fmap in Hd as (dep & -> & _).
  split; simpl; [set_solver|by intros n [= <-]|done|done].
Qed.

(** The shape of a plan: preparations, operations of the requested Services over a ledger of
    those Services, then removals when pruning is not refused. *)
Lemma plan_operations_shape planned :
  plan_operations random_id intent snapshot = Ok planned →
  ∃ requested vp preps ops,
    map rq_name requested ≡ₚ applied_names intent ∧
    vp.(vp_snapshot) = snapshot ∧ ledger_ok requested vp ∧
    planned.(operations)
      = preps ++ ops ++ match prune_refusal intent (is_observer_complete snapshot) with
                        | None => removal_operations services (obsolete_services intent services)
                        | Some _ => []
                        end ∧
    NoDup (map op_machine_id preps) ∧
    (∀ p, p ∈ preps → preparation snapshot vp.(assignments) p) ∧
    (∀ op, op ∈ ops → service_op requested vp op) ∧
    ∀ op spec, op ∈ ops → op_spec op = Some spec →
      needs_storage spec.(rs_mount_graph).(mg_volumes) →
      op_machine_id op ∈ map op_machine_id preps.
Proof.
  unfold plan_operations. intros (bound & Hbind & Hp)%result_bind_Ok. unfold assemble_plan in Hp.
  do 3 (apply result_bind_Ok in Hp as (? & _ & Hp)).
  apply result_bind_Ok in Hp as (vp0 & Hvp0 & Hp).
  apply result_bind_Ok in Hp as ([vp1 reservations] & Hshared & Hp).
  apply result_bind_Ok in Hp as (st & Hst & Hp).
  apply result_bind_Ok in Hp as ([volumes ops] & Hf & Hp).
  apply result_bind_Ok in Hp as (preserved & _ & [= <-]). simpl.
  set (requested := bound.(bound_requested)) in *.
  assert (vp0 = {| vp_snapshot := snapshot; vp_namespace := intent.(in_namespace);
                   assignments := [] |}) as ->.
  { unfold VolumePlan_new in Hvp0. do 3 (apply result_bind_Ok in Hvp0 as (? & _ & Hvp0)).
    by injection Hvp0. }
  eapply (reserve_shared_stops own) in Hshared as [Hext1 Hres]; [| |done].
  2: { intros service c Hs Hc. apply service_own; [done|]. unfold members. set_solver. }
  assert (Hasm : assembled requested vp1 st).
  { eapply (try_fold_inv _ (assembled requested vp1)); [| |exact Hst].
    - intros s spec s1 Hspec Hs Ha. by eapply assemble_service_scoped.
    - split; simpl; [done|done|set_solver]. }
  destruct Hasm as [Hext2 _ Hops].
  assert (Hext : extends requested {| vp_snapshot := snapshot;
    vp_namespace := intent.(in_namespace); assignments := [] |} st.(as_volume_plan))
    by (by etransitivity).
  apply finish_spec in Hf as (preps & -> & Hnd & Hpreps & Hneeds).
  rewrite (ext_snapshot _ _ _ Hext) in Hpreps. simpl in Hpreps.
  exists requested, st.(as_volume_plan), preps, st.(as_operations). split_and!; try done.
  - by apply bind_intent_names.
  - by rewrite (ext_snapshot _ _ _ Hext).
  - by apply (ext_ok _ _ _ Hext).
  - rewrite <-app_assoc. by destruct (prune_refusal intent _).
Qed.

(** A removal is of a Service the target no longer declares. *)
Lemma removal_owned op :
  op ∈ removal_operations services (obsolete_services intent services) →
  op_spec op = None ∧ op_service_name op = None ∧ (∀ id, op ≠ RemoveVolume id) ∧
  ∀ c, c ∈ touched op → ∃ name, own name c ∧
    Namespace_is_reserved intent.(in_namespace) = false ∧ name ∉ target_names intent.
Proof.
  intros (c & -> & Hc)%list_elem_of_fmap. split_and!; [done..|]. simpl.
  intros cid ->%list_elem_of_singleton. apply elem_of_concat_map in Hc as (service & Hs & Hc).
  apply elem_of_filterb in Hs as [Hs Hob%bool_decide_eq_true].
  exists service.(so_identity).(qs_name). split.
  { apply service_own; [done|]. by unfold containers_for in Hc. }
  rewrite elem_of_bset_of in Hob. unfold obsolete_services in Hob.
  destruct (Namespace_is_reserved _); [set_solver|]. split; [done|].
  apply list_elem_of_fmap in Hob as (s' & -> & [_ Hd]%elem_of_filterb).
  apply negb_true_iff, bool_decide_eq_false in Hd. by rewrite elem_of_bset_of in Hd.
Qed.

Lemma plan_touches_spec planned op :
  plan_operations random_id intent snapshot = Ok planned → op ∈ planned.(operations) →
  (∀ c, c ∈ touched op → ∃ name, own name c ∧
     (name ∈ applied_names intent ∨
      (prune_refusal intent (is_observer_complete snapshot) = None ∧
       Namespace_is_reserved intent.(in_namespace) = false ∧ name ∉ target_names intent))) ∧
  (∀ n, op_service_name op = Some n → n ∈ applied_names intent) ∧
  (∀ id, op ≠ RemoveVolume id).
Proof.
  intros (requested & vp & preps & ops & Hnames & _ & _ & -> & _ & Hpreps & Hops & _)
    %plan_operations_shape.
  intros [Hop|[Hop|Hop]%elem_of_app]%elem_of_app.
  - destruct (Hpreps op Hop) as (m & specs & -> & _). simpl. split_and!; [set_solver|done|done].
  - destruct (Hops op Hop) as (spec & Hspec & [Ht Hn Hv _]).
    assert (Happ : spec.(rq_name) ∈ applied_names intent)
      by (rewrite <-Hnames; by apply list_elem_of_fmap_2).
    split_and!; [|by intros n ->%Hn|done]. intros c Hc. exists spec.(rq_name).
    split; [by apply Ht|by left].
  - destruct (prune_refusal intent _) eqn:Hpr; [set_solver|].
    apply removal_owned in Hop as (_ & Hn & Hv & Ht). split_and!; [|by rewrite Hn|done].
    intros c Hc. destruct (Ht c Hc) as (name & Hown & Hr & Hnot). exists name. auto.
Qed.

(** C20: a plan touches nothing it was not asked about: every Container it stops, removes or
    replaces was observed in the Intent's Namespace and belongs either to an applied Service or,
    only when pruning is not refused and the Namespace is not reserved, to a Service the target
    no longer declares; what it starts belongs to applied Services; it removes no Docker Volume. *)
Theorem plan_touches_only planned op :
  plan_operations random_id intent snapshot = Ok planned → op ∈ planned.(operations) →
  (∀ c, c ∈ touched op → ∃ name, own name c ∧
     (name ∈ applied_names intent ∨
      (prune_refusal intent (is_observer_complete snapshot) = None ∧
       Namespace_is_reserved intent.(in_namespace) = false ∧ name ∉ target_names intent))) ∧
  (∀ n, op_service_name op = Some n → n ∈ applied_names intent) ∧
  (∀ id, op ≠ RemoveVolume id).
Proof. apply plan_touches_spec. Qed.

(** Whatever an operation mounts is in the preparation of its Machine. *)
Definition storage_prepared (preps : list DeployOperation) (op : DeployOperation) : Prop :=
  ∀ spec, op_spec op = Some spec → needs_storage spec.(rs_mount_graph).(mg_volumes) →
    ∃ specs storage, PrepareVolumes (op_machine_id op) specs ∈ preps ∧ storage ∈ specs ∧
      storage.(ss_volumes) = spec.(rs_mount_graph).(mg_volumes).

(** C24: storage is prepared before it is used: a plan begins with at most one preparation per
    Machine, each admitted by that Machine's observed capacity for everything it prepares, and
    whatever later mounts a provisioned Volume is on a Machine whose preparation contains
    exactly the Volumes of its Service. *)
Theorem plan_prepares_storage planned :
  plan_operations random_id intent snapshot = Ok planned →
  ∃ preps rest ledger,
    planned.(operations) = preps ++ rest ∧ NoDup (map op_machine_id preps) ∧
    (∀ p, p ∈ preps → preparation snapshot ledger p) ∧
    ∀ op, op ∈ rest → storage_prepared preps op.
Proof.
  intros (requested & vp & preps & ops & Hnames & _ & Hok & -> & Hnd & Hpreps & Hops & Hneeds)
    %plan_operations_shape.
  eexists preps, _, vp.(assignments). split_and!; [done|done|done|].
  intros op [Hop|Hop]%elem_of_app spec Hspec Hst.
  2: { destruct (prune_refusal intent _); [set_solver|].
       apply removal_owned in Hop as (Hnone & _). congruence. }
  destruct (Hops op Hop) as (req & Hreq & [_ _ _ Hpl]).
  destruct (Hpl spec Hspec) as [(all & storage & Hall & Hsto) Hgraph].
  destruct (Hok _ _ _ _ Hall Hsto) as (req' & Hreq' & Hname & Htry).
  assert (req' = req) as ->.
  { eapply (NoDup_map_inj rq_name requested); [|done|done|done]. rewrite Hnames.
    apply bset_wf_NoDup, applied_names_wf. }
  assert (Hvol : storage.(ss_volumes) = spec.(rs_mount_graph).(mg_volumes)).
  { rewrite Hgraph. unfold ServiceStorageSpec_try_from, ResolvedServiceVolumeGraph_try_from in Htry.
    destruct (List.find _ _); simpl in Htry; by simplify_eq. }
  pose proof (Hneeds op spec Hop Hspec Hst) as Hm.
  apply list_elem_of_fmap in Hm as (p & Hpm & Hp).
  destruct (Hpreps p Hp) as (m & specs & -> & Hprep). simpl in Hpm. subst m.
  destruct Hprep as [(all' & Hall' & Hspecs) _]. exists specs, storage.
  split_and!; [done| |done]. apply Hspecs. split; [|by rewrite Hvol].
  assert (all' = all) as -> by congruence. apply list_elem_of_fmap. exists (req.(rq_name), storage).
  split; [done|]. by apply bget_elem.
Qed.
End WholePlan.
End Touches.

(** ** A sample Deploy: one Service grows, another is no longer declared *)

Definition sample_snapshot : DeploySnapshot :=
  {| snap_machines := [observed_up "m1"; observed_up "m2"];
     snap_storage_capacity := [];
     snap_containers := [sample_observation "c1" 5 "api" KindServiceContainer;
                         sample_observation "c9" 3 "old" KindServiceContainer];
     snap_volumes := {| observations := []; named_failures := []; machine_failures := [];
                        omissions := [] |};
     snap_container_failures := []; snap_container_omissions := []; snap_capacity := None |}.
Definition sample_intent : DeployIntent :=
  DeployIntent_apply_all "shop" [sample_requested [] 2 None] PlanOptions_default.

Lemma plan_sockets_safe_witness :
  match plan_operations (H := Cidr.ops) (H0 := sample_shape_json) (λ name, name) sample_intent
          sample_snapshot with
  | Ok planned =>
      socket_safe (H := Cidr.ops) sample_snapshot planned.(operations)
  | Err _ => False
  end.
Proof.
  destruct (plan_operations _ _ _) as [planned|] eqn:Hp.
  - exact (@plan_sockets_safe Cidr.ops sample_shape_json _ _ _ _ Hp).
  - vm_compute in Hp. discriminate.
Defined.

Lemma plan_touches_only_witness :
  ∃ name, own sample_intent sample_snapshot name "c9" ∧ (name ∉ target_names sample_intent).
Proof.
  assert (∃ planned, plan_operations (H := Cidr.ops) (H0 := sample_shape_json) (λ name, name)
    sample_intent sample_snapshot = Ok planned ∧ RemoveContainer "m1" "c9" ∈ planned.(operations))
    as (planned & Hp & Hop).
  { eexists. split; [vm_compute; reflexivity|]. simpl. set_solver. }
  destruct (@plan_touches_only Cidr.ops sample_shape_json (λ name, name) sample_intent
              sample_snapshot planned _ Hp Hop) as (Ht & _).
  destruct (Ht "c9") as (name & (o & Ho & Hc & Hns & Hn) & Hwhy).
  { apply list_elem_of_singleton. reflexivity. }
  clear Hp Hop. exists name. split; [exists o; done|].
  destruct Hwhy as [Ha|(_ & _ & Hw)]; [|exact Hw].
  exfalso. subst name. simpl in Ho.
  apply elem_of_cons in Ho as [->|Ho%list_elem_of_singleton]; [vm_compute in Hc; discriminate|].
  subst o. vm_compute in Ha. apply list_elem_of_singleton in Ha. discriminate.
Defined.

(** ** A sample Deploy with a provisioned Volume *)

Definition stored_requested : RequestedServiceSpec :=
  set_mount_graph (sample_requested [] 1 None)
    {| mg_volumes := {| graph_volumes := sample_volumes; graph_mounts := sample_mounts |};
       mg_configs := {| graph_configs := []; graph_config_mounts := [] |} |}.
Definition stored_snapshot : DeploySnapshot :=
  {| snap_machines :=
       [{| mo_machine := sample_machine "m1" "alpha"; mo_membership := MembershipUp;
           mo_storage := Some StorageReady; mo_selected_endpoint := None; mo_rtt := None |}];
     snap_storage_capacity := [("m1", Ok sample_capacity)];
     snap_containers := [];
     snap_volumes := {| observations := []; named_failures := []; machine_failures := [];
                        omissions := [] |};
     snap_container_failures := []; snap_container_omissions := []; snap_capacity := None |}.
Definition stored_intent : DeployIntent :=
  DeployIntent_apply_all "shop" [stored_requested] PlanOptions_default.

Lemma plan_prepares_storage_witness :
  ∃ planned preps rest ledger,
    plan_operations (H := Cidr.ops) (H0 := sample_shape_json) (λ name, name) stored_intent
      stored_snapshot = Ok planned ∧
    planned.(operations) = preps ++ rest ∧ NoDup (map op_machine_id preps) ∧
    ∀ p, p ∈ preps → preparation stored_snapshot ledger p.
Proof.
  assert (∃ planned, plan_operations (H := Cidr.ops) (H0 := sample_shape_json) (λ name, name)
    stored_intent stored_snapshot = Ok planned) as [planned Hp]
    by (eexists; vm_compute; reflexivity).
  destruct (@plan_prepares_storage Cidr.ops sample_shape_json _ _ _ _ Hp)
    as (preps & rest & ledger & Hops & Hnd & Hpreps & _).
  exists planned, preps, rest, ledger. split; [exact Hp|]. split; [exact Hops|].
  split; [exact Hnd|exact Hpreps].
Defined.
