(* ===== verification/Replicas.v ===== *)
(** * What a Deploy leaves of a replicated Service

    The counts of [Reconcile], carried from the operations of one Service to
    the whole plan of [Planner.plan_operations].  The replicas of a Service
    that shares a Volume are reserved before any Service is planned
    ([VolumePlan.reserve_shared]); the others are chosen when their Service is
    planned.  Both leave the requested number. *)

From S2P Require Import Prelude BTree Strings Values Machines StorageCapacity Volumes.
From S2P Require Import ServiceGraph Spec Services Deploy Eligibility Placement Reconcile.
From S2P Require Import VolumePlan Ledger Planner Safety.

Open Scope string_scope.
Open Scope list_scope.
Open Scope nat_scope.

(** ** Narrowing Machines only drops some *)

Section Narrowing.
Context `{IpNetOps, ShapeJson}.

Lemma retain_located_sub locality machines m :
  m ∈ retain_located locality machines → m ∈ machines.
Proof. destruct locality; [done|]. by intros [? _]%elem_of_filterb. Qed.

Lemma constrain_volume_sub vp mode state volume state' m :
  constrain_volume vp mode state volume = Ok state' → m ∈ state'.1 → m ∈ state.1.
Proof.
  destruct state as [machines missing]. unfold constrain_volume.
  intros (ms & Hf & Hc)%result_bind_Ok Hm.
  assert (Hms : m ∈ ms).
  { destruct mode; [|by simplify_eq].
    apply result_bind_Ok in Hc as (l & _ & [= <-]). by eapply retain_located_sub. }
  by apply (try_filter_sub _ _ _ _ Hf) in Hms as [? _].
Qed.

Lemma volume_constraints_sub vp spec machines constrained m :
  planned_volume_constraints vp spec machines = Ok constrained →
  m ∈ constrained.2 → m ∈ machines.
Proof.
  unfold planned_volume_constraints, volume_constraints.
  intros (? & _ & (mounted & _ & Hc)%result_bind_Ok)%result_bind_Ok Hm.
  set (kept := match mounted with [] => machines | _ => _ end) in Hc.
  assert (Hkept : m ∈ kept → m ∈ machines)
    by (unfold kept; destruct mounted; [done|]; by intros [? _]%elem_of_filterb).
  assert (∃ state, try_fold (constrain_volume vp spec.(rq_mode)) mounted (kept, []) = Ok state ∧
                   m ∈ state.1) as (state & Hf & Hst).
  { set (chosen := result_bind (try_fold _ mounted (kept, [])) _) in Hc.
    assert (Ht : chosen = Ok constrained) by (clear -Hc; repeat case_match; done).
    apply result_bind_Ok in Ht as ([ms missing] & Hf & Ht). exists (ms, missing).
    split; [exact Hf|]. destruct ms; [by apply result_bind_Ok in Ht as (? & _ & ?)|].
    by injection Ht as <-. }
  apply Hkept.
  refine (try_fold_inv _ (λ s, m ∈ s.1 → m ∈ kept) _ _ _ _ _ Hf Hst); [|done].
  intros s v s' _ Hs Hv Hm'. by eapply Hs, constrain_volume_sub.
Qed.

Lemma admit_service_sub requested current hooks vp machines res placement options adm ms placement' m :
  admit_service requested current hooks vp machines res placement options = Ok (adm, ms, placement') →
  m ∈ ms → m ∈ machines.
Proof.
  unfold admit_service. destruct (rq_mode requested), res; try (by intros [= _ <- _]).
  intros ([[a ms0] pl] & Hu & [= _ <- _])%result_bind_Ok. unfold admit_unreserved in Hu.
  apply result_bind_Ok in Hu as (ms1 & Hc & Hu). destruct (List.filter _ ms1) as [|x l] eqn:Hf;
    [done|]. injection Hu as _ <- _. rewrite <-Hf. intros [Hm _]%elem_of_filterb.
  unfold constrain_candidates in Hc. apply result_bind_Ok in Hc as (c & Hc & [= <-]).
  by eapply volume_constraints_sub.
Qed.

Lemma place_sub vp spec machines vp' machines' m :
  place vp spec machines = Ok (vp', machines') → m ∈ machines' → m ∈ machines.
Proof.
  unfold place. intros ([[mounted missing] ms] & Hc & Hp)%result_bind_Ok.
  apply result_bind_Ok in Hp as (ms1 & Hms & Hp).
  apply result_bind_Ok in Hp as (vp1 & _ & [= _ <-]). intros Hm.
  apply (volume_constraints_sub _ _ _ _ m Hc). simpl.
  destruct (rq_mode spec); [|by simplify_eq].
  apply result_bind_Ok in Hms as (fitting & Hfit & Hms).
  assert (Hsub : m ∈ match fitting with [] => ms | _ => fitting end → m ∈ ms).
  { destruct fitting as [|f fs] eqn:Hf; [done|]. rewrite <-Hf in *. intros Hin.
    by apply (try_filter_sub _ _ _ _ Hfit) in Hin as [? _]. }
  apply Hsub. destruct missing; [by simplify_eq|].
  apply result_bind_Ok in Hms as (first & _ & [= <-]). by apply elem_of_filterb in Hm as [? _].
Qed.
End Narrowing.

Section Replicas.
Context `{IpNetOps, ShapeJson}.
Context (random_id : ServiceName → ServiceId) (intent : DeployIntent).
Context (snapshot : DeploySnapshot).

Abbreviation services := (services_in snapshot intent.(in_namespace)).

(** The observed Service Containers of a name in the Intent's Namespace, hooks apart. *)
Definition observed_containers (name : ServiceName) : list ServiceContainer :=
  List.filter (λ o, String.eqb o.(co_namespace) intent.(in_namespace)
                    && String.eqb o.(resolved_spec).(rs_name) name && is_service_container o)
    snapshot.(snap_containers).

(** The id of the observed Service, or the fresh one of a Service that is not observed. *)
Definition service_id_for (name : ServiceName) : ServiceId :=
  match List.find (λ service, bool_decide (service.(so_identity)
                                = QualifiedService_new intent.(in_namespace) name)) services with
  | Some service => service.(so_service_id)
  | None => random_id name
  end.

(** The Machines a Service may be placed on. *)
Definition eligible_ids (spec : RequestedServiceSpec) : list MachineId :=
  match eligible_machines spec intent.(in_namespace) snapshot intent.(in_options) with
  | Ok machines => map (λ m, m.(mo_machine).(machine_id)) machines
  | Err _ => []
  end.

(** The observed Containers of a Service that a plan ends, and what it starts for it. *)
Definition ended_of (name : ServiceName) (ops : list DeployOperation) : list ContainerId :=
  List.filter (λ c, bool_decide (c ∈ map container_id (observed_containers name)))
    (omap retired_container ops).
Definition started_of (name : ServiceName) (ops : list DeployOperation) : list DeployOperation :=
  List.filter (λ op, starts op && bool_decide (op_service_name op = Some name)) ops.

(** ** The observed Containers of a Service *)

Lemma observed_containers_elem name o :
  o ∈ observed_containers name ↔
  o ∈ snapshot.(snap_containers) ∧ o.(co_namespace) = intent.(in_namespace) ∧
  o.(resolved_spec).(rs_name) = name ∧ is_service_container o = true.
Proof.
  unfold observed_containers. rewrite elem_of_filterb, !andb_true_iff, !String.eqb_eq. tauto.
Qed.

Lemma observed_identity name :
  observed_containers name
  = List.filter is_service_container
      (List.filter (of_identity (QualifiedService_new intent.(in_namespace) name))
         (List.filter (λ o, String.eqb o.(co_namespace) intent.(in_namespace))
            snapshot.(snap_containers))).
Proof.
  rewrite !filter_filter. apply List.filter_ext. intros o.
  destruct (String.eqb_spec o.(co_namespace) intent.(in_namespace)) as [Hns|]; [simpl|done].
  f_equal. apply eq_true_iff_eq. rewrite String.eqb_eq, of_identity_true.
  unfold identity_of. rewrite Hns. split; [by intros ->|by intros [= ->]].
Qed.

Lemma service_observed service :
  service ∈ services → service.(so_containers) = observed_containers service.(so_identity).(qs_name).
Proof.
  intros Hs. pose proof Hs as Hs'. unfold services_in in Hs'. set (observed := List.filter _ _) in Hs'.
  destruct (derive_services_spec observed) as (Hown & _ & _).
  destruct (Hown service Hs') as (-> & _ & newest & Hnew & _). rewrite observed_identity.
  apply elem_of_filterb in Hnew as [[_ Hns%String.eqb_eq]%elem_of_filterb Hid%of_identity_true].
  replace (QualifiedService_new intent.(in_namespace) service.(so_identity).(qs_name))
    with service.(so_identity); [done|]. rewrite <-Hid. unfold identity_of. by rewrite Hns.
Qed.

(** Whichever way a Service is looked up, its Containers are the observed ones. *)
Lemma found_observed (p : ServiceObservation → bool) name :
  (∀ service, service ∈ services → p service = true → service.(so_identity).(qs_name) = name) →
  (∀ service, service ∈ services →
     service.(so_identity) = QualifiedService_new intent.(in_namespace) name → p service = true) →
  default [] (so_containers <$> List.find p services) = observed_containers name.
Proof.
  intros Hname Hp. destruct (List.find p services) as [service|] eqn:Hf; simpl.
  - apply find_Some_elem in Hf as [Hs Hps]. rewrite service_observed by done. by rewrite (Hname _ Hs).
  - rewrite find_None_elem in Hf. rewrite observed_identity.
    assert (Hnone : List.filter (of_identity (QualifiedService_new intent.(in_namespace) name))
        (List.filter (λ o, String.eqb o.(co_namespace) intent.(in_namespace))
           snapshot.(snap_containers)) = []); [|by rewrite Hnone].
    apply filter_none. intros o Ho. apply not_true_iff_false. intros Hid%of_identity_true.
    destruct (derive_services_spec (List.filter (λ o, String.eqb o.(co_namespace)
      intent.(in_namespace)) snapshot.(snap_containers))) as (_ & Hall & _).
    apply Hall in Ho. rewrite Hid in Ho. apply list_elem_of_fmap in Ho as (service & Heq & Hs).
    specialize (Hf service Hs). by rewrite (Hp service Hs (eq_sym Heq)) in Hf.
Qed.

Lemma existing_service_observed requested id current hooks :
  existing_service random_id requested intent.(in_namespace) services = Ok (id, current, hooks) →
  id = service_id_for requested.(rq_name) ∧ current = observed_containers requested.(rq_name).
Proof.
  unfold existing_service, service_id_for.
  pose proof (found_observed (λ service, bool_decide (service.(so_identity)
    = QualifiedService_new intent.(in_namespace) requested.(rq_name))) requested.(rq_name)) as Hcur.
  destruct (List.find _ services) as [service|]; simpl in Hcur.
  - destruct (existsb _ _); [done|]. intros [= <- <- <-]. split; [done|]. apply Hcur.
    + by intros s _ ->%bool_decide_eq_true.
    + intros s _ ->. by apply bool_decide_eq_true_2.
  - intros [= <- <- <-]. split; [done|]. apply Hcur.
    + by intros s _ ->%bool_decide_eq_true.
    + intros s _ ->. by apply bool_decide_eq_true_2.
Qed.

(** ** Operations that start and end nothing *)

Lemma neutral_leaves ops :
  (∀ op, op ∈ ops → is_neutral op = true) →
  omap retired_container ops = [] ∧ List.filter starts ops = [].
Proof.
  induction ops as [|op ops IH]; intros Hn; [done|]. destruct IH as [Hr Hs]; [set_solver|].
  assert (retired_container op = None ∧ starts op = false) as [Hr1 Hs1].
  { specialize (Hn op). destruct op; simpl in *; try done; by discriminate Hn; left. }
  simpl. by rewrite Hr1, Hs1.
Qed.

Lemma neutral_leaves_of name ops :
  (∀ op, op ∈ ops → is_neutral op = true) → ended_of name ops = [] ∧ started_of name ops = [].
Proof.
  intros Hn. destruct (neutral_leaves ops Hn) as [Hr Hs]. unfold ended_of, started_of.
  rewrite Hr. split; [done|]. apply filter_none. intros op Hop.
  destruct (starts op) eqn:Hst; [exfalso|done].
  assert (op ∈ List.filter starts ops) as Hin by (by apply elem_of_filterb). rewrite Hs in Hin.
  set_solver.
Qed.

Lemma ended_of_app name ops1 ops2 : ended_of name (ops1 ++ ops2) = ended_of name ops1 ++ ended_of name ops2.
Proof. unfold ended_of. by rewrite omap_app, List.filter_app. Qed.

Lemma started_of_app name ops1 ops2 :
  started_of name (ops1 ++ ops2) = started_of name ops1 ++ started_of name ops2.
Proof. apply List.filter_app. Qed.

(** ** Reserved replicas *)

Section Reserved.
Context (Hids : NoDup (map container_id snapshot.(snap_containers))).
Context (all : list RequestedServiceSpec) (Hnames : NoDup (map rq_name all)).

Lemma observed_NoDup name : NoDup (map container_id (observed_containers name)).
Proof. by apply NoDup_map_filter. Qed.

(** The reservation of a replicated Service accounts for its replicas. *)
Definition reserved_ok (reservations : bmap ServiceName ReplicatedReservation) : Prop :=
  ∀ spec r n, spec ∈ all → bget reservations spec.(rq_name) = Some r →
    spec.(rq_mode) = Replicated n →
    reservation_ok spec (observed_containers spec.(rq_name)) (eligible_ids spec)
      intent.(in_options) (N.to_nat n) r.

Lemma same_spec spec spec' :
  spec ∈ all → spec' ∈ all → spec.(rq_name) = spec'.(rq_name) → spec = spec'.
Proof. intros. by eapply (NoDup_map_inj rq_name). Qed.

Lemma reserve_on_reserved self machine requested self' :
  (∀ spec, spec ∈ requested → spec ∈ all ∧ machine ∈ eligible_ids spec) →
  reserved_ok self.(pr_reservations) →
  reserve_on self machine requested services intent.(in_options) = Ok self' →
  reserved_ok self'.(pr_reservations).
Proof.
  intros Hreq Hself. unfold reserve_on. intros (trial & Hf & [= <-])%result_bind_Ok.
  eapply (try_fold_inv _ (λ t, reserved_ok t.(pr_reservations))); [|exact Hself|exact Hf].
  intros t spec t1 Hspec Ht Hs. destruct (Hreq spec Hspec) as [Hall Hm]. cbv beta zeta in Hs.
  apply result_bind_Ok in Hs as ([[res cap] socks] & Hr & [= <-]). simpl.
  intros spec' r n Hspec'. rewrite bget_binsert. case_decide as Hn; [|by apply Ht].
  assert (spec' = spec) as -> by (by apply same_spec). intros [= <-] Hmode.
  unfold reserve_replicated_service_demand in Hr.
  rewrite (found_observed _ spec.(rq_name)) in Hr.
  2: { by intros s _ ?%String.eqb_eq. }
  2: { intros s _ ->. by apply String.eqb_eq. }
  apply result_bind_Ok in Hr as ([[res1 cap1] socks1] & Hsel & [= <- _ _]).
  eapply reservation_ok_mono;
    [|exact (select_replicated_ok _ _ _ _ (observed_NoDup _) _ _ _ _ _ _ _ _ Hmode Hsel)].
  by intros m ->%list_elem_of_singleton.
Qed.

Lemma reserve_first_reserved placement requested first ms error anchor placement' :
  (∀ m spec, m ∈ ms → spec ∈ requested → spec ∈ all ∧ m ∈ eligible_ids spec) →
  reserved_ok placement.(pr_reservations) →
  reserve_first placement requested services intent.(in_options) first ms error
    = Ok (anchor, placement') →
  reserved_ok placement'.(pr_reservations).
Proof.
  intros Hreq Hpl. revert error. induction ms as [|m ms IH]; intros error; simpl.
  - by intros (? & _ & ?)%result_bind_Ok.
  - destruct (reserve_on _ _ _ _ _) as [p|[]] eqn:Hr; [| |done].
    + intros [= <- <-]. eapply reserve_on_reserved; [|done|exact Hr].
      intros spec Hspec. apply Hreq; [left|done].
    + apply IH. intros m' spec Hm'. apply Hreq. by right.
Qed.

Lemma volume_eligible_sub vp spec ids m :
  vp.(vp_snapshot) = snapshot → vp.(vp_namespace) = intent.(in_namespace) →
  volume_eligible_machine_ids vp spec intent.(in_options) = Ok ids → m ∈ ids → m ∈ eligible_ids spec.
Proof.
  intros Hsnap Hns. unfold volume_eligible_machine_ids, eligible_ids. rewrite Hsnap, Hns.
  intros (ms & -> & Hv)%result_bind_Ok. apply result_bind_Ok in Hv as (c & Hc & [= <-]).
  intros (o & -> & Ho)%list_elem_of_fmap. apply list_elem_of_fmap. exists o. split; [done|].
  by eapply volume_constraints_sub.
Qed.

Lemma intersect_eligible_sub vp others ids ids' :
  vp.(vp_snapshot) = snapshot → vp.(vp_namespace) = intent.(in_namespace) →
  try_fold (intersect_eligible vp intent.(in_options)) others ids = Ok ids' →
  (∀ m, m ∈ ids' → m ∈ ids) ∧
  ∀ m name spec, m ∈ ids' → (name, spec) ∈ others → m ∈ eligible_ids spec.
Proof.
  intros Hsnap Hns. revert ids. induction others as [|[name spec] others IH]; intros ids; simpl.
  - intros [= <-]. split; [done|]. intros. set_solver.
  - intros (ids1 & H1 & H2)%result_bind_Ok. destruct (IH _ H2) as [Hsub Hin].
    unfold intersect_eligible in H1. apply result_bind_Ok in H1 as (other & Ho%in_service_Ok & [= <-]).
    split; [intros m Hm; by apply Hsub, elem_of_filterb in Hm as [? _]|].
    intros m n s Hm [[= -> ->]|Hs]%elem_of_cons; [|by eapply Hin].
    apply Hsub, elem_of_filterb in Hm as [_ Hm%bool_decide_eq_true].
    by eapply volume_eligible_sub.
Qed.

Lemma anchor_reserved vp component placement anchor placement' :
  vp.(vp_snapshot) = snapshot → vp.(vp_namespace) = intent.(in_namespace) →
  (∀ u, u ∈ concat (map snd component) → u.(use_service) ∈ all) →
  reserved_ok placement.(pr_reservations) →
  shared_component_anchor vp component all services placement intent.(in_options)
    = Ok (anchor, placement') →
  reserved_ok placement'.(pr_reservations).
Proof.
  intros Hsnap Hns Huses Hpl. unfold shared_component_anchor.
  assert (Hserv : ∀ name spec, (name, spec) ∈ component_services component →
    spec ∈ all ∧ name = spec.(rq_name)).
  { intros name spec Hin. unfold component_services in Hin.
    apply bget_Some in Hin; [|apply bwf_bcollect].
    apply bget_bcollect_elem, list_elem_of_fmap in Hin as (u & [= -> ->] & Hu).
    split; [by apply Huses|done]. }
  set (servs := component_services component) in *. clearbody servs.
  destruct servs as [|[first service] others] eqn:Hsv; [done|]. rewrite <-Hsv in *.
  intros (eligible0 & He0%in_service_Ok & Ha)%result_bind_Ok.
  apply result_bind_Ok in Ha as (eligible & He & Ha).
  apply intersect_eligible_sub in He as [Hsub Hin]; [|done..].
  assert (Hel : ∀ m name spec, m ∈ eligible → (name, spec) ∈ servs → m ∈ eligible_ids spec).
  { intros m name spec Hm. rewrite Hsv. intros [[= -> ->]|Hs]%elem_of_cons; [|by eapply Hin].
    eapply volume_eligible_sub; [done|done|exact He0|]. by apply Hsub. }
  destruct eligible as [|e es] eqn:Hes; [by apply result_bind_Ok in Ha as (? & _ & ?)|].
  rewrite <-Hes in *. apply result_bind_Ok in Ha as (fitting & Hfit & Ha).
  eapply reserve_first_reserved; [|exact Hpl|exact Ha].
  intros m spec Hm [Hspec Hc]%elem_of_filterb. split; [done|].
  unfold bcontains in Hc. destruct (bget servs _) as [spec'|] eqn:Hg; [|done].
  apply bget_elem in Hg. destruct (Hserv _ _ Hg) as [Hall' Hn].
  assert (spec' = spec) as -> by (by apply same_spec).
  eapply Hel; [|exact Hg]. destruct fitting as [|f fs] eqn:Hf; [done|].
  rewrite <-Hf in *. by apply (try_filter_sub _ _ _ _ Hfit) in Hm as [? _].
Qed.

Lemma reserve_shared_reserved vp placement vp' placement' :
  vp.(vp_snapshot) = snapshot → vp.(vp_namespace) = intent.(in_namespace) →
  placement.(pr_reservations) = [] →
  reserve_shared vp all services placement intent.(in_options) = Ok (vp', placement') →
  reserved_ok placement'.(pr_reservations).
Proof.
  intros Hsnap Hns Hpl. unfold reserve_shared. intros (uses & Huses & Hf)%result_bind_Ok.
  eapply (try_fold_inv _ (λ s : VolumePlan * PlacementReservations,
    extends all vp s.1 ∧ reserved_ok s.2.(pr_reservations)) _ _ (vp', placement')) in Hf as [_ ?];
    [done| |].
  - intros [plan pl] component st1 Hc [Hext Hst] Ha. simpl in Hext, Hst.
    apply result_bind_Ok in Ha as ([anchor pl1] & Hanchor & Ha).
    apply result_bind_Ok in Ha as (plan1 & Hassign & [= <-]). simpl.
    assert (Hfrom : ∀ u, u ∈ concat (map snd component) → u.(use_service) ∈ all)
      by (intros u Hu; by eapply component_uses_from).
    apply (assign_all_extends all (λ _, anchor) use_service) in Hassign as [Hext1 _]; [|done].
    split; [by etransitivity|].
    eapply anchor_reserved; [| |exact Hfrom|exact Hst|exact Hanchor].
    + by rewrite (ext_snapshot _ _ _ Hext).
    + by rewrite (ext_namespace _ _ _ Hext).
  - simpl. split; [done|]. rewrite Hpl. done.
Qed.

(** ** One Service *)

Lemma plan_one_service_counts spec vp placement ops vp' placement' n :
  spec ∈ all → spec.(rq_mode) = Replicated n → reserved_ok placement.(ps_reservations) →
  plan_one_service random_id spec intent.(in_namespace) snapshot services vp placement
    intent.(in_options) = Ok (ops, vp', placement') →
  reconciled spec intent.(in_options) (service_id_for spec.(rq_name)) (eligible_ids spec)
    (N.to_nat n) (observed_containers spec.(rq_name)) (omap retired_container ops)
    (List.filter starts ops).
Proof.
  intros Hspec Hmode Hres. unfold plan_one_service. intros (machines & Hel & Hp)%result_bind_Ok.
  apply result_bind_Ok in Hp as ([[id current] hooks] & He & Hp).
  apply existing_service_observed in He as [-> ->].
  destruct (take_reservation placement _) as [res placement1] eqn:Ht.
  unfold take_reservation in Ht. injection Ht as <- <-.
  apply result_bind_Ok in Hp as ([[adm ms] placement2] & Ha & Hp).
  pose proof (admit_service_reserved _ _ _ _ _ _ _ _ _ _ _ Ha) as Hadm.
  apply result_bind_Ok in Hp as ([vp1 ms1] & Hplace & Hp).
  apply result_bind_Ok in Hp as ([[ops1 hook] placement3] & Hpl & [= <- <- <-]).
  rewrite Hmode in Hpl. apply result_bind_Ok in Hpl as (admission & Had%ok_or_Ok & Hpl). subst adm.
  rewrite omap_app, List.filter_app.
  destruct (neutral_leaves (pre_deploy_operations spec hooks ops1 hook)) as [-> ->];
    [intros op; apply pre_deploy_neutral|].
  eapply plan_replicated_counts; [apply observed_NoDup|exact Hmode| | |exact Hpl].
  - intros m Hm. unfold eligible_ids. rewrite Hel.
    apply (list_elem_of_fmap_2 (λ m, m.(mo_machine).(machine_id))).
    eapply admit_service_sub; [exact Ha|]. by eapply place_sub.
  - intros r ->. by apply Hres; [|apply Hadm|].
Qed.

(** Planning a Service takes its reservation and leaves the others. *)
Lemma plan_one_service_takes spec vp placement ops vp' placement' :
  plan_one_service random_id spec intent.(in_namespace) snapshot services vp placement
    intent.(in_options) = Ok (ops, vp', placement') →
  placement'.(ps_reservations) = bremove spec.(rq_name) placement.(ps_reservations).
Proof.
  unfold plan_one_service. intros (machines & _ & Hp)%result_bind_Ok.
  apply result_bind_Ok in Hp as ([[id current] hooks] & _ & Hp).
  destruct (take_reservation placement _) as [res placement1] eqn:Ht.
  unfold take_reservation in Ht. injection Ht as <- <-.
  apply result_bind_Ok in Hp as ([[adm ms] placement2] & Ha & Hp).
  apply admit_service_sockets in Ha as [_ Hk].
  apply result_bind_Ok in Hp as ([vp1 ms1] & _ & Hp).
  apply result_bind_Ok in Hp as ([[ops1 hook] placement3] & Hpl & [= <- <- <-]).
  simpl in Hk. rewrite <-Hk. destruct (rq_mode spec).
  - apply result_bind_Ok in Hpl as (admission & _ & Hpl).
    apply (plan_replicated_scoped _ _ _ _ _ _ _ (λ _, True) (λ _, True)) in Hpl as [_ ?]; done.
  - apply (plan_global_scoped _ _ _ _ _ _ _ (λ _, True) (λ _, True)) in Hpl as [_ ?]; done.
Qed.

Lemma reserved_bremove name reservations : reserved_ok reservations → reserved_ok (bremove name reservations).
Proof.
  intros Hr spec r n Hspec. rewrite bget_bremove. case_decide; [done|]. by apply Hr.
Qed.

(** ** The operations of the other Services *)

(** An operation of some Service of [l]. *)
Definition belongs (l : list RequestedServiceSpec) (op : DeployOperation) : Prop :=
  ∃ spec, spec ∈ l ∧ (∀ c, c ∈ touched op → own intent snapshot spec.(rq_name) c) ∧
          ∀ n, op_service_name op = Some n → n = spec.(rq_name).

Lemma retired_touched op c : retired_container op = Some c → c ∈ touched op.
Proof. destruct op; simpl; try done; intros [= <-]; set_solver. Qed.

(** A Container has one Service. *)
Lemma own_observed name name' c :
  own intent snapshot name c → c ∈ map container_id (observed_containers name') → name = name'.
Proof.
  intros (o & Ho & Hc & _ & <-) (o' & Heq & (Ho' & _ & <- & _)%observed_containers_elem)
    %list_elem_of_fmap.
  by rewrite (NoDup_map_inj _ _ _ _ Hids Ho Ho') by (by rewrite Hc).
Qed.

Lemma foreign_leaves name ops :
  (∀ op, op ∈ ops →
     (∀ c, c ∈ touched op → ∃ other, own intent snapshot other c ∧ other ≠ name) ∧
     op_service_name op ≠ Some name) →
  ended_of name ops = [] ∧ started_of name ops = [].
Proof.
  intros Hops. split; apply filter_none.
  - intros c (op & Hop & Hc%retired_touched)%list_elem_of_omap.
    destruct (proj1 (Hops op Hop) c Hc) as (other & Hown & Hne).
    apply bool_decide_eq_false_2. intros Hin. apply Hne. by eapply own_observed.
  - intros op Hop. destruct (Hops op Hop) as [_ Hn].
    rewrite bool_decide_eq_false_2 by done. apply andb_false_r.
Qed.

Lemma belongs_leaves l name ops :
  (∀ op, op ∈ ops → belongs l op) → name ∉ map rq_name l →
  ended_of name ops = [] ∧ started_of name ops = [].
Proof.
  intros Hops Hn. apply foreign_leaves. intros op Hop.
  destruct (Hops op Hop) as (spec & Hspec & Ht & Hs).
  assert (Hne : spec.(rq_name) ≠ name) by (intros <-; by apply Hn, list_elem_of_fmap_2).
  split; [|by intros Heq%Hs; apply Hne]. intros c Hc. exists spec.(rq_name). auto.
Qed.

Lemma own_segment spec n ops :
  (∀ op, op ∈ ops → ∀ name, op_service_name op = Some name → name = spec.(rq_name)) →
  reconciled spec intent.(in_options) (service_id_for spec.(rq_name)) (eligible_ids spec) n
    (observed_containers spec.(rq_name)) (omap retired_container ops) (List.filter starts ops) →
  ended_of spec.(rq_name) ops = omap retired_container ops ∧
  started_of spec.(rq_name) ops = List.filter starts ops.
Proof.
  intros Hname [_ _ Hobs _ _]. split.
  - unfold ended_of. induction (omap retired_container ops) as [|c l IH]; simpl; [done|].
    rewrite bool_decide_eq_true_2 by (apply Hobs; set_solver). f_equal. apply IH.
    intros x Hx. apply Hobs. by right.
  - apply filter_ext_in. intros op Hop%list_elem_of_In. destruct (starts op) eqn:Hs; [|done].
    simpl. apply bool_decide_eq_true_2.
    assert (∃ name, op_service_name op = Some name) as [name Hn] by (destruct op; simpl in *; eauto; done).
    by rewrite Hn, (Hname op Hop name Hn).
Qed.

(** What planning one Service adds to the plan, and what it keeps. *)
Definition reservations_kept (st : AssembleState) : Prop :=
  reservations_ok (own intent snapshot) (assigned_to st.(as_volume_plan))
    st.(as_placement).(ps_reservations) ∧ reserved_ok st.(as_placement).(ps_reservations).

Lemma assemble_step named st spec st' :
  spec ∈ all → reservations_kept st →
  assemble_service random_id intent snapshot services named st spec = Ok st' →
  reservations_kept st' ∧ ∃ ops, st'.(as_operations) = st.(as_operations) ++ ops ∧
    (∀ name, name ≠ spec.(rq_name) → ended_of name ops = [] ∧ started_of name ops = []) ∧
    ∀ n, spec.(rq_mode) = Replicated n →
      reconciled spec intent.(in_options) (service_id_for spec.(rq_name)) (eligible_ids spec)
        (N.to_nat n) (observed_containers spec.(rq_name)) (ended_of spec.(rq_name) ops)
        (started_of spec.(rq_name) ops).
Proof.
  intros Hspec [Hok Hres]. unfold assemble_service.
  intros ([[ops vp1] placement] & Hp%in_service_Ok & Ha)%result_bind_Ok.
  pose proof (plan_one_service_takes _ _ _ _ _ _ Hp) as Htakes.
  pose proof (λ n Hmode, plan_one_service_counts _ _ _ _ _ _ n Hspec Hmode Hres Hp) as Hcount.
  apply (plan_one_service_scoped random_id intent snapshot all) in Hp as (_ & Hnew & Hok'); [|done..].
  set (waited := match find_map starting_machine ops with Some _ => _ | None => _ end) in Ha.
  assert (Hw : ∀ op, op ∈ waited.1 → is_neutral op = true).
  { unfold waited. destruct (find_map _ _); [apply waits_neutral|]. simpl. set_solver. }
  destruct waited as [waits warned]. injection Ha as <-. simpl in Hw.
  split; [split; simpl; [done|]; rewrite Htakes; by apply reserved_bremove|].
  exists (waits ++ ops). split_and!; [done| |].
  - intros name Hne. rewrite ended_of_app, started_of_app.
    destruct (neutral_leaves_of name waits Hw) as [-> ->]. simpl.
    apply (belongs_leaves [spec]); [|by intros ->%list_elem_of_singleton].
    intros op [Ht Hn _ _]%Hnew. exists spec. split_and!; [left|done|done].
  - intros n Hmode. rewrite ended_of_app, started_of_app.
    destruct (neutral_leaves_of spec.(rq_name) waits Hw) as [-> ->]. simpl.
    destruct (own_segment spec (N.to_nat n) ops) as [-> ->]; [|by apply Hcount..].
    by intros op [_ Hn _ _]%Hnew.
Qed.

Lemma assemble_others named l st st' :
  (∀ spec, spec ∈ l → spec ∈ all) → reservations_kept st →
  try_fold (assemble_service random_id intent snapshot services named) l st = Ok st' →
  reservations_kept st' ∧ ∃ ops, st'.(as_operations) = st.(as_operations) ++ ops ∧
    ∀ name, name ∉ map rq_name l → ended_of name ops = [] ∧ started_of name ops = [].
Proof.
  revert st. induction l as [|spec l IH]; intros st Hl Hk; simpl.
  - intros [= <-]. split; [done|]. exists []. by rewrite app_nil_r.
  - intros (st1 & H1 & H2)%result_bind_Ok.
    apply assemble_step in H1 as (Hk1 & ops1 & Ho1 & Hf1 & _); [|apply Hl; by left|done].
    apply IH in H2 as (Hk2 & ops2 & Ho2 & Hf2); [|intros s Hs; apply Hl; by right|done].
    split; [done|]. exists (ops1 ++ ops2). rewrite Ho2, Ho1, <-app_assoc. split; [done|].
    intros name [Hne Hnl]%not_elem_of_cons. rewrite ended_of_app, started_of_app.
    destruct (Hf1 name Hne) as [-> ->]. by apply Hf2.
Qed.

(** Among all Services, one replicated Service is reconciled. *)
Lemma assemble_counts named spec n st st' :
  spec ∈ all → spec.(rq_mode) = Replicated n → reservations_kept st →
  try_fold (assemble_service random_id intent snapshot services named) all st = Ok st' →
  st.(as_operations) = [] →
  reconciled spec intent.(in_options) (service_id_for spec.(rq_name)) (eligible_ids spec)
    (N.to_nat n) (observed_containers spec.(rq_name))
    (ended_of spec.(rq_name) st'.(as_operations)) (started_of spec.(rq_name) st'.(as_operations)).
Proof.
  intros Hspec Hmode Hk Hf Hnil.
  destruct (list_elem_of_split _ _ Hspec) as (l1 & l2 & Hall).
  assert (Hnd : NoDup (map rq_name l1 ++ spec.(rq_name) :: map rq_name l2))
    by (pose proof Hnames as Hn; by rewrite Hall, map_app in Hn).
  apply NoDup_app in Hnd as (_ & Hnot1 & [Hnot2 _]%NoDup_cons).
  rewrite Hall, try_fold_app in Hf. apply result_bind_Ok in Hf as (st1 & H1 & H2).
  apply assemble_others in H1 as (Hk1 & ops1 & Ho1 & Hf1); [|rewrite Hall; set_solver|done].
  simpl in H2. apply result_bind_Ok in H2 as (st2 & H2 & H3).
  apply assemble_step in H2 as (Hk2 & ops2 & Ho2 & _ & Hcount); [|done..].
  apply assemble_others in H3 as (_ & ops3 & Ho3 & Hf3); [|rewrite Hall; set_solver|done].
  rewrite Ho3, Ho2, Ho1, Hnil, !ended_of_app, !started_of_app. simpl.
  destruct (Hf1 spec.(rq_name)) as [-> ->]; [intros Hin; eapply Hnot1; [exact Hin|left]|].
  destruct (Hf3 spec.(rq_name) Hnot2) as [-> ->]. rewrite !app_nil_r. by apply Hcount.
Qed.
End Reserved.

Lemma bind_intent_bound bound :
  bind_intent intent = Ok bound →
  NoDup (map rq_name bound.(bound_requested)) ∧
  ∀ spec, spec ∈ bound.(bound_requested) → spec.(rq_name) ∈ target_names intent.
Proof.
  intros Hb%bind_intent_names. split.
  - rewrite Hb. apply bset_wf_NoDup, applied_names_wf.
  - intros spec Hspec. apply applied_names_target. rewrite <-Hb. by apply list_elem_of_fmap_2.
Qed.

(** C22: a Deploy leaves exactly the requested replicas of every replicated Service it applies,
    whether its replicas were reserved with a shared Volume or are chosen when it is planned: in
    the whole plan, the observed Containers of the Service that are ended are ended once and the
    ones left, together with the ones started, number the requested replicas; what is left runs
    the requested spec on an eligible Machine, and what is started is the requested spec
    resolved, on an eligible Machine. *)
Theorem plan_replicated_reconciles planned bound spec replicas :
  NoDup (map container_id snapshot.(snap_containers)) →
  bind_intent intent = Ok bound → plan_operations random_id intent snapshot = Ok planned →
  spec ∈ bound.(bound_requested) → spec.(rq_mode) = Replicated replicas →
  reconciled spec intent.(in_options) (service_id_for spec.(rq_name)) (eligible_ids spec)
    (N.to_nat replicas) (observed_containers spec.(rq_name))
    (ended_of spec.(rq_name) planned.(operations))
    (started_of spec.(rq_name) planned.(operations)).
Proof.
  intros Hids Hbind Hp Hspec Hmode. unfold plan_operations in Hp. rewrite Hbind in Hp. simpl in Hp.
  destruct (bind_intent_bound _ Hbind) as [Hnames Htarget]. unfold assemble_plan in Hp.
  set (requested := bound.(bound_requested)) in *.
  do 3 (apply result_bind_Ok in Hp as (? & _ & Hp)).
  apply result_bind_Ok in Hp as (vp0 & Hvp0 & Hp).
  apply result_bind_Ok in Hp as ([vp1 reservations] & Hshared & Hp).
  apply result_bind_Ok in Hp as (st & Hst & Hp).
  apply result_bind_Ok in Hp as ([volumes ops] & Hf & Hp).
  apply result_bind_Ok in Hp as (preserved & _ & [= <-]). simpl.
  assert (vp0.(vp_snapshot) = snapshot ∧ vp0.(vp_namespace) = intent.(in_namespace)) as [Hsnap Hns].
  { unfold VolumePlan_new in Hvp0. do 3 (apply result_bind_Ok in Hvp0 as (? & _ & Hvp0)).
    by injection Hvp0 as <-. }
  pose proof Hshared as Hres. apply (reserve_shared_reserved Hids requested Hnames) in Hres; [|done..].
  eapply (reserve_shared_stops (own intent snapshot)) in Hshared as [_ Hok]; [| |done].
  2: { intros service c Hs Hc. apply service_own; [done|]. unfold members. set_solver. }
  eapply assemble_counts in Hst; [|done..|split; [exact Hok|exact Hres]|done].
  apply finish_spec in Hf as (preps & -> & _ & Hpreps & _).
  rewrite !ended_of_app, !started_of_app.
  destruct (neutral_leaves_of spec.(rq_name) preps) as [-> ->].
  { by intros op (m & specs & -> & _)%Hpreps. }
  set (removals := match prune_refusal intent _ with None => _ | Some _ => _ end).
  destruct (foreign_leaves Hids requested Hnames spec.(rq_name) removals) as [-> ->].
  { unfold removals. destruct (prune_refusal _ _); [set_solver|].
    intros op (_ & Hn & _ & Ht)%removal_owned. rewrite Hn. split; [|done]. intros c Hc.
    destruct (Ht c Hc) as (name & Hown & _ & Hnot). exists name. split; [done|].
    intros ->. by apply Hnot, Htarget. }
  rewrite !app_nil_r. exact Hst.
Qed.
End Replicas.

(** ** A sample Deploy of two Services that share a Volume

    Both are reserved on one Machine; the first has an observed replica too few. *)

Definition shared_requested (name : ServiceName) (replicas : N) : RequestedServiceSpec :=
  let spec :=
    set_mount_graph (sample_requested [] replicas None)
      {| mg_volumes := {| graph_volumes := sample_volumes; graph_mounts := sample_mounts |};
         mg_configs := {| graph_configs := []; graph_config_mounts := [] |} |} in
  {| rq_name := name; rq_mode := spec.(rq_mode); rq_container := spec.(rq_container);
     rq_placement := spec.(rq_placement); rq_ports := spec.(rq_ports);
     rq_mount_graph := spec.(rq_mount_graph); rq_pre_deploy := spec.(rq_pre_deploy);
     rq_update := spec.(rq_update) |}.
Definition shared_snapshot : DeploySnapshot :=
  {| snap_machines := stored_snapshot.(snap_machines);
     snap_storage_capacity := stored_snapshot.(snap_storage_capacity);
     snap_containers := [sample_observation "c1" 5 "api" KindServiceContainer;
                         sample_observation "c2" 6 "worker" KindServiceContainer];
     snap_volumes := stored_snapshot.(snap_volumes); snap_container_failures := [];
     snap_container_omissions := []; snap_capacity := None |}.
Definition shared_intent : DeployIntent :=
  DeployIntent_apply_all "shop" [shared_requested "api" 2; shared_requested "worker" 1]
    PlanOptions_default.

Lemma plan_replicated_reconciles_witness :
  ∃ planned bound spec,
    plan_operations (H := Cidr.ops) (H0 := sample_shape_json) (λ name, name) shared_intent
      shared_snapshot = Ok planned ∧
    bind_intent shared_intent = Ok bound ∧ spec ∈ bound.(bound_requested) ∧
    spec.(rq_name) = "api" ∧
    reconciled (H := sample_shape_json) spec PlanOptions_default "s1" ["m1"] 2
      [sample_observation "c1" 5 "api" KindServiceContainer]
      (ended_of shared_intent shared_snapshot "api" planned.(operations))
      (started_of "api" planned.(operations)).
Proof.
  assert (Hids : NoDup (map container_id shared_snapshot.(snap_containers)))
    by (by repeat constructor; set_solver).
  assert (∃ planned, plan_operations (H := Cidr.ops) (H0 := sample_shape_json) (λ name, name)
    shared_intent shared_snapshot = Ok planned) as [planned Hp] by (eexists; vm_compute; reflexivity).
  assert (∃ spec rest, bind_intent shared_intent
    = Ok {| bound_target := spec :: rest; bound_requested := spec :: rest |} ∧
    spec.(rq_name) = "api" ∧ spec.(rq_mode) = Replicated 2 ∧
    eligible_ids shared_intent shared_snapshot spec = ["m1"])
    as (spec & rest & Hbind & Hname & Hmode & Hel).
  { eexists _, _. split; [vm_compute; reflexivity|]. split_and!; vm_compute; reflexivity. }
  eexists planned, _, spec. split; [exact Hp|]. split; [exact Hbind|]. split; [left|].
  split; [exact Hname|].
  pose proof (@plan_replicated_reconciles Cidr.ops sample_shape_json _ _ _ planned _ spec 2%N
                Hids Hbind Hp (list_elem_of_here _ _) Hmode) as Hrec.
  rewrite Hname, Hel in Hrec. exact Hrec.
Defined.
