(* ===== verification/Process.v ===== *)
(** * Processes: asynchronous code against an unknown environment

    The executor and the client barriers are [async] Rust.  What they exchange
    with the rest of the world is a sequence of events: a call that is answered,
    a reading of the clock or of the cancellation token, a timer, and the
    [tokio::select!] of one of these against the token or a deadline.  A
    process is the tree of what the code does next for every answer; the
    [&mut] state it carries is updated in place between events.

    Loops of the code that only end when a deadline passes are given fuel, and
    [Spin] is what is left when the fuel runs out.  [halts] is the total
    reading, in which [Spin] is refuted by the clock; [emits] is the reading of
    every event a process may exchange; both are adequate for [run], which
    executes a process against an arbitrary environment. *)

From S2P Require Import Prelude.

(** The calls of a client, with the type of their answers. *)
Class Calls (C : Type) : Type := reply : C → Type.

(** Instants and durations are in nanoseconds. *)
Abbreviation Instant := N (only parsing).
Definition from_millis (ms : N) : N := (ms * 1000000)%N.
Definition from_secs (secs : N) : N := from_millis (secs * 1000)%N.

(** [u64::try_from(d.as_millis()).unwrap_or(u64::MAX)]. *)
Definition as_millis (duration : N) : N := (duration / 1000000)%N.
Definition millis_u64 (duration : N) : N := N.min (as_millis duration) u64_max.

(** [EvOrCancel e] awaits [e] or the cancellation token, [EvOrDeadline b d e]
    awaits [e] or the instant [d], in a [select!] that is [biased] when [b]. *)
Inductive Event (C : Type) : Type :=
| EvCall (call : C)
| EvNow
| EvIsCancelled
| EvSleepUntil (until : Instant)
| EvOrCancel (event : Event C)
| EvOrDeadline (biased : bool) (deadline : Instant) (event : Event C).
Arguments EvCall {C} call.
Arguments EvNow {C}.
Arguments EvIsCancelled {C}.
Arguments EvSleepUntil {C} until.
Arguments EvOrCancel {C} event.
Arguments EvOrDeadline {C} biased deadline event.

Fixpoint answer `{Calls C} (e : Event C) : Type :=
  match e with
  | EvCall call => reply call
  | EvNow => N
  | EvIsCancelled => bool
  | EvSleepUntil _ => unit
  | EvOrCancel e' | EvOrDeadline _ _ e' => option (answer e')
  end.

(** Reading the clock or the token suspends nothing. *)
Definition suspends {C} (e : Event C) : bool :=
  match e with EvNow | EvIsCancelled => false | _ => true end.

Inductive proc `{Calls C} (S A : Type) : Type :=
| Ret (a : A)
| Await (e : Event C) (k : answer e → proc S A)
| Update (f : S → S) (k : proc S A)
| Spin.
Arguments Ret {C _ S A} a.
Arguments Await {C _ S A} e k.
Arguments Update {C _ S A} f k.
Arguments Spin {C _ S A}.

Section Processes.
Context `{Calls C} {S : Type}.
Implicit Types (A B E : Type).

Fixpoint bind {A B} (p : proc S A) (f : A → proc S B) : proc S B :=
  match p with
  | Ret a => f a
  | Await e k => Await e (λ r, bind (k r) f)
  | Update g k => Update g (bind k f)
  | Spin => Spin
  end.

Definition event (e : Event C) : proc S (answer e) := Await e Ret.
Definition call (c : C) : proc S (reply c) := event (EvCall c).
Definition now : proc S Instant := event EvNow.
Definition is_cancelled : proc S bool := event EvIsCancelled.
Definition update (f : S → S) : proc S unit := Update f (Ret ()).

(** [select! { cancelled() => ..., sleep_until(t) => ... }]: [false] when the
    token won. *)
Definition sleep_or_cancel (until : Instant) : proc S bool :=
  bind (event (EvOrCancel (EvSleepUntil until)))
    (λ r, Ret (match r with Some _ => true | None => false end)).

(** How a [select!] over the token, a deadline and a process ends. *)
Inductive Raced A : Type := RaceCancelled | RaceTimedOut | RaceDone (a : A).
Arguments RaceCancelled {A}.
Arguments RaceTimedOut {A}.
Arguments RaceDone {A} a.

(** The losing process is dropped at the event it is suspended on. *)
Fixpoint race {A} (biased : bool) (deadline : Instant) (p : proc S A) : proc S (Raced A) :=
  match p with
  | Ret a => Ret (RaceDone a)
  | Update f k => Update f (race biased deadline k)
  | Spin => Spin
  | Await e k =>
      if suspends e then
        Await (EvOrCancel (EvOrDeadline biased deadline e))
          (λ r, match r with
                | None => Ret RaceCancelled
                | Some None => Ret RaceTimedOut
                | Some (Some r) => race biased deadline (k r)
                end)
      else Await e (λ r, race biased deadline (k r))
  end.

(** The [?] operator. *)
Definition try_bind {A B E} (p : proc S (Result A E)) (f : A → proc S (Result B E))
    : proc S (Result B E) :=
  bind p (λ r, match r with Ok a => f a | Err e => Ret (Err e) end).

(** A [for] loop whose body may return early. *)
Fixpoint for_each {A E} (f : A → proc S (Result unit E)) (l : list A)
    : proc S (Result unit E) :=
  match l with
  | [] => Ret (Ok ())
  | x :: l' => try_bind (f x) (λ _, for_each f l')
  end.

(** ** Execution against an environment *)

Definition Entry : Type := sigT (A := Event C) answer.

Fixpoint run {W A} (env : ∀ e : Event C, W → answer e * W) (p : proc S A) (s : S) (w : W)
    : option (A * S * W * list Entry) :=
  match p with
  | Ret a => Some (a, s, w, [])
  | Update f k => run env k (f s) w
  | Spin => None
  | Await e k =>
      let '(r, w') := env e w in
      '(a, s', w'', log) ← run env (k r) s w';
      Some (a, s', w'', existT e r :: log)
  end.

(** ** What a process may exchange *)

Fixpoint emits {A} (p : proc S A) (Q : A → S → list Entry → Prop) (s : S) : Prop :=
  match p with
  | Ret a => Q a s []
  | Await e k => ∀ r, emits (k r) (λ a s' log, Q a s' (existT e r :: log)) s
  | Update f k => emits k Q (f s)
  | Spin => True
  end.

Lemma emits_mono {A} (p : proc S A) (Q R : A → S → list Entry → Prop) s :
  (∀ a s' log, Q a s' log → R a s' log) → emits p Q s → emits p R s.
Proof.
  revert Q R s. induction p as [a|e k IH|f k IH|]; simpl; intros Q R s HQR Hp.
  - by apply HQR.
  - intros r. eapply IH; [|apply (Hp r)]. auto.
  - eapply IH; [|exact Hp]. auto.
  - done.
Qed.

Lemma emits_bind {A B} (p : proc S A) (f : A → proc S B) Q s :
  emits p (λ a s' l1, emits (f a) (λ b s'' l2, Q b s'' (l1 ++ l2)) s') s →
  emits (bind p f) Q s.
Proof.
  revert Q s. induction p as [a|e k IH|g k IH|]; simpl; intros Q s Hp; auto.
Qed.

Lemma emits_sound {W A} (env : ∀ e : Event C, W → answer e * W) (p : proc S A) Q s w a s' w' log :
  emits p Q s → run env p s w = Some (a, s', w', log) → Q a s' log.
Proof.
  revert Q s w a s' w' log.
  induction p as [b|e k IH|f k IH|]; simpl; intros Q s w a s' w' log Hp Hrun.
  - by simplify_eq.
  - destruct (env e w) as [r w1] eqn:Henv.
    destruct (run env (k r) s w1) as [[[[b s1] w2] log1]|] eqn:Hk; simpl in Hrun; [|done].
    simplify_eq. eapply IH in Hk; [|apply Hp]. done.
  - eapply IH; eauto.
  - done.
Qed.

(** ** The calls a process makes *)

(** A call and its answer, or a call dropped while it was pending. *)
Inductive Logged : Type :=
| Answered (c : C) (r : reply c)
| Abandoned (c : C).

Fixpoint abandoned (e : Event C) : list Logged :=
  match e with
  | EvCall c => [Abandoned c]
  | EvNow | EvIsCancelled | EvSleepUntil _ => []
  | EvOrCancel e' | EvOrDeadline _ _ e' => abandoned e'
  end.

Fixpoint logged (e : Event C) : answer e → list Logged :=
  match e with
  | EvCall c => λ r, [Answered c r]
  | EvNow | EvIsCancelled | EvSleepUntil _ => λ _, []
  | EvOrCancel e' | EvOrDeadline _ _ e' =>
      λ r, match r with Some r' => logged e' r' | None => abandoned e' end
  end.

Definition calls (log : list Entry) : list Logged :=
  concat (map (λ x, logged (projT1 x) (projT2 x)) log).

(** The calls do not depend on the carried state. *)
Fixpoint traces {A} (p : proc S A) (Q : A → list Logged → Prop) : Prop :=
  match p with
  | Ret a => Q a []
  | Await e k => ∀ r, traces (k r) (λ a l, Q a (logged e r ++ l))
  | Update f k => traces k Q
  | Spin => True
  end.

Lemma traces_mono {A} (p : proc S A) (Q R : A → list Logged → Prop) :
  (∀ a l, Q a l → R a l) → traces p Q → traces p R.
Proof.
  revert Q R. induction p as [a|e k IH|f k IH|]; simpl; intros Q R HQR Hp.
  - by apply HQR.
  - intros r. eapply IH; [|apply (Hp r)]. auto.
  - eapply IH; [|exact Hp]. auto.
  - done.
Qed.

Lemma traces_bind {A B} (p : proc S A) (f : A → proc S B) Q :
  traces p (λ a l1, traces (f a) (λ b l2, Q b (l1 ++ l2))) → traces (bind p f) Q.
Proof.
  revert Q. induction p as [a|e k IH|g k IH|]; simpl; intros Q Hp; [done| |by apply IH|done].
  intros r. apply IH. eapply traces_mono; [|apply (Hp r)]. intros a l Ht.
  eapply traces_mono; [|exact Ht]. intros b l2. by rewrite app_assoc.
Qed.

Lemma calls_cons (x : Entry) log : calls (x :: log) = logged (projT1 x) (projT2 x) ++ calls log.
Proof. done. Qed.

Lemma calls_app log1 log2 : calls (log1 ++ log2) = calls log1 ++ calls log2.
Proof. unfold calls. by rewrite map_app, concat_app. Qed.

Lemma traces_sound {W A} (env : ∀ e : Event C, W → answer e * W) (p : proc S A) Q s w a s' w' log :
  traces p Q → run env p s w = Some (a, s', w', log) → Q a (calls log).
Proof.
  revert Q s w a s' w' log.
  induction p as [b|e k IH|f k IH|]; simpl; intros Q s w a s' w' log Hp Hrun.
  - by simplify_eq.
  - destruct (env e w) as [r w1] eqn:Henv.
    destruct (run env (k r) s w1) as [[[[b s1] w2] log1]|] eqn:Hk; simpl in Hrun; [|done].
    simplify_eq. rewrite calls_cons. simpl. by eapply (IH r) in Hk; [|apply Hp].
  - by eapply IH.
  - done.
Qed.

(** Specifications are used in sequence. *)
Lemma traces_seq {A B} (p : proc S A) (f : A → proc S B) (P : A → list Logged → Prop) Q :
  traces p P → (∀ a l1, P a l1 → traces (f a) (λ b l2, Q b (l1 ++ l2))) → traces (bind p f) Q.
Proof. intros Hp Hf. apply traces_bind. eapply traces_mono; [|exact Hp]. auto. Qed.

Lemma traces_try {A B E} (p : proc S (Result A E)) (f : A → proc S (Result B E))
    (P : Result A E → list Logged → Prop) Q :
  traces p P →
  (∀ a l1, P (Ok a) l1 → traces (f a) (λ b l2, Q b (l1 ++ l2))) →
  (∀ e l1, P (Err e) l1 → Q (Err e) l1) →
  traces (try_bind p f) Q.
Proof.
  intros Hp Hok Herr. eapply traces_seq; [exact Hp|]. intros [a|e] l1 HP; simpl; [by apply Hok|].
  rewrite app_nil_r. by apply Herr.
Qed.

Lemma traces_conj {A} (p : proc S A) (Q R : A → list Logged → Prop) :
  traces p Q → traces p R → traces p (λ a l, Q a l ∧ R a l).
Proof. revert Q R. induction p; simpl; intros Q R HQ HR; auto. Qed.

(** A process that wins its race makes the calls it would have made. *)
Lemma traces_race {A} biased deadline (p : proc S A) Q :
  traces p Q →
  traces (race biased deadline p) (λ r l, match r with RaceDone a => Q a l | _ => True end).
Proof.
  revert Q. induction p as [a|e k IH|f k IH|]; simpl; intros Q Hp; auto.
  destruct (suspends e); simpl; [intros [[r|]|]; simpl; auto|auto].
Qed.

(** Processes that make only some calls. *)
Definition called (x : Logged) : C := match x with Answered c _ | Abandoned c => c end.

Fixpoint event_call (e : Event C) : option C :=
  match e with
  | EvCall c => Some c
  | EvNow | EvIsCancelled | EvSleepUntil _ => None
  | EvOrCancel e' | EvOrDeadline _ _ e' => event_call e'
  end.

Fixpoint only {A} (P : C → Prop) (p : proc S A) : Prop :=
  match p with
  | Ret _ | Spin => True
  | Update _ k => only P k
  | Await e k => (∀ c, event_call e = Some c → P c) ∧ ∀ r, only P (k r)
  end.

Lemma only_bind {A B} P (p : proc S A) (f : A → proc S B) :
  only P p → (∀ a, only P (f a)) → only P (bind p f).
Proof. induction p; simpl; naive_solver. Qed.

Lemma only_try {A B E} P (p : proc S (Result A E)) (f : A → proc S (Result B E)) :
  only P p → (∀ a, only P (f a)) → only P (try_bind p f).
Proof. intros. apply only_bind; [done|]. intros [a|e]; simpl; auto. Qed.

Lemma only_race {A} P biased deadline (p : proc S A) : only P p → only P (race biased deadline p).
Proof.
  induction p as [a|e k IH|f k IH|]; simpl; intros Hp; auto. destruct Hp as [He Hk].
  destruct (suspends e); simpl; split; auto. intros [[r|]|]; simpl; auto.
Qed.

Lemma abandoned_only P e :
  (∀ c, event_call e = Some c → P c) → Forall (λ x, P (called x)) (abandoned e).
Proof. induction e; simpl; intros HP; auto using Forall_nil. Qed.

Lemma logged_only P e r :
  (∀ c, event_call e = Some c → P c) → Forall (λ x, P (called x)) (logged e r).
Proof.
  revert r. induction e as [c| | |t|e IH|b d e IH]; simpl; intros r HP; auto using Forall_nil.
  - destruct r; [by apply IH|by apply abandoned_only].
  - destruct r; [by apply IH|by apply abandoned_only].
Qed.

Lemma only_traces {A} P (p : proc S A) :
  only P p → traces p (λ _ l, Forall (λ x, P (called x)) l).
Proof.
  induction p as [a|e k IH|f k IH|]; simpl; intros Hp; auto using Forall_nil.
  destruct Hp as [He Hk]. intros r. eapply traces_mono; [|by apply IH].
  intros a l Hl. apply Forall_app. split; [by apply logged_only|done].
Qed.

(** ** What a process does to the state it carries *)

Fixpoint respects {A} (R : S → S → Prop) (p : proc S A) : Prop :=
  match p with
  | Ret _ | Spin => True
  | Await e k => ∀ r, respects R (k r)
  | Update f k => (∀ s, R s (f s)) ∧ respects R k
  end.

Lemma respects_bind {A B} R (p : proc S A) (f : A → proc S B) :
  respects R p → (∀ a, respects R (f a)) → respects R (bind p f).
Proof. induction p; simpl; naive_solver. Qed.

Lemma respects_try {A B E} R (p : proc S (Result A E)) (f : A → proc S (Result B E)) :
  respects R p → (∀ a, respects R (f a)) → respects R (try_bind p f).
Proof. intros. apply respects_bind; [done|]. intros [a|e]; simpl; auto. Qed.

Lemma respects_race {A} R biased deadline (p : proc S A) :
  respects R p → respects R (race biased deadline p).
Proof.
  induction p as [a|e k IH|f k IH|]; simpl; intros Hp; auto.
  - destruct (suspends e); simpl; [|auto]. intros [[r|]|]; simpl; auto.
  - destruct Hp. auto.
Qed.

Lemma emits_traces {A} R `{!PreOrder R} (p : proc S A) Q s :
  respects R p → traces p Q → emits p (λ a s' log, Q a (calls log) ∧ R s s') s.
Proof.
  revert Q s. induction p as [a|e k IH|f k IH|]; simpl; intros Q s HR Hp; [done| | |done].
  - intros r. eapply emits_mono; [|apply (IH r _ s (HR r) (Hp r))]. intros a s' log Ha. exact Ha.
  - destruct HR as [Hf HR]. eapply emits_mono; [|apply (IH _ (f s) HR Hp)].
    intros a s' log [HQ Hs]. split; [done|]. by transitivity (f s).
Qed.

(** ** The clock, and termination *)

Section Clock.
(** Answers are of the machine widths of their types. *)
Context (typed : ∀ c : C, reply c → Prop).

(** What a timely environment answers between [t] and [t']: a sleep ends once
    its instant is reached, and so does a race lost to a deadline; a deadline
    that has passed wins a biased race. *)
Fixpoint timely (e : Event C) : answer e → Instant → Instant → Prop :=
  match e with
  | EvCall c => λ r _ _, typed c r
  | EvIsCancelled => λ _ _ _, True
  | EvNow => λ r _ t', r = t'
  | EvSleepUntil until => λ _ _ t', (until ≤ t')%N
  | EvOrCancel e' => λ r t t', match r with Some r' => timely e' r' t t' | None => True end
  | EvOrDeadline biased deadline e' =>
      λ r t t', match r with
                | Some r' => (biased = true → (t < deadline)%N) ∧ timely e' r' t t'
                | None => (deadline ≤ t')%N
                end
  end.

Class Timely {W} (env : ∀ e : Event C, W → answer e * W) (clock : W → Instant) : Prop := {
  clock_advances e w : (clock w ≤ clock (env e w).2)%N;
  answers_timely e w : timely e (env e w).1 (clock w) (clock (env e w).2)
}.

Fixpoint halts {A} (p : proc S A) (Q : A → Instant → Prop) (t : Instant) : Prop :=
  match p with
  | Ret a => Q a t
  | Await e k => ∀ r t', (t ≤ t')%N → timely e r t t' → halts (k r) Q t'
  | Update f k => halts k Q t
  | Spin => False
  end.

Lemma halts_mono {A} (p : proc S A) (Q R : A → Instant → Prop) t :
  (∀ a t', (t ≤ t')%N → Q a t' → R a t') → halts p Q t → halts p R t.
Proof.
  revert t. induction p as [a|e k IH|f k IH|]; simpl; intros t HQR Hp.
  - apply HQR; [lia|done].
  - intros r t' Ht Hr. apply IH; [|by apply Hp]. intros a t'' Ht'. apply HQR. lia.
  - by apply IH.
  - done.
Qed.

Lemma halts_bind {A B} (p : proc S A) (f : A → proc S B) Q t :
  halts p (λ a t', halts (f a) Q t') t → halts (bind p f) Q t.
Proof. revert t. induction p as [a|e k IH|g k IH|]; simpl; intros t Hp; auto. Qed.

(** Specifications are used in sequence. *)
Lemma halts_seq {A B} (p : proc S A) (f : A → proc S B) P Q t :
  halts p P t → (∀ a t', (t ≤ t')%N → P a t' → halts (f a) Q t') → halts (bind p f) Q t.
Proof. intros Hp Hf. apply halts_bind. eapply halts_mono; [|exact Hp]. auto. Qed.

Lemma halts_try {A B E} (p : proc S (Result A E)) (f : A → proc S (Result B E)) Q t :
  halts p (λ _ _, True) t → (∀ a t', (t ≤ t')%N → halts (f a) Q t') →
  (∀ e t', (t ≤ t')%N → Q (Err e) t') → halts (try_bind p f) Q t.
Proof. intros Hp Hf He. eapply halts_seq; [exact Hp|]. intros [a|e] t' Ht _; simpl; auto. Qed.

Lemma halts_race {A} biased deadline (p : proc S A) t :
  halts p (λ _ _, True) t →
  halts (race biased deadline p) (λ r t', r = RaceTimedOut → (deadline ≤ t')%N) t.
Proof.
  revert t. induction p as [a|e k IH|f k IH|]; simpl; intros t Hp; auto; [done|].
  destruct (suspends e); simpl.
  - intros [[r|]|] t' Ht Hr; simpl in *; [|done|done]. destruct Hr as [_ Hr]. auto.
  - auto.
Qed.

Lemma halts_run {W A} (env : ∀ e : Event C, W → answer e * W) (clock : W → Instant)
    `{!Timely env clock} (p : proc S A) Q s w :
  halts p Q (clock w) →
  ∃ a s' w' log, run env p s w = Some (a, s', w', log) ∧ Q a (clock w').
Proof.
  revert s w. induction p as [a|e k IH|f k IH|]; simpl; intros s w Hp; [eauto 8| |by apply IH|done].
  destruct (env e w) as [r w1] eqn:Henv.
  pose proof (clock_advances e w) as Hc. pose proof (answers_timely e w) as Ht.
  rewrite Henv in Hc, Ht. simpl in Hc, Ht.
  destruct (IH r s w1 (Hp _ _ Hc Ht)) as (a & s' & w' & log & Hrun & HQ).
  rewrite Hrun. simpl. eauto 8.
Qed.
End Clock.

End Processes.

#[export] Hint Resolve respects_bind respects_try respects_race : ployz.
#[export] Hint Resolve only_bind only_try only_race : ployz.

Arguments RaceCancelled {A}.
Arguments RaceTimedOut {A}.
Arguments RaceDone {A} a.

Notation "'let*' x := c 'in' k" := (bind c (λ x, k))
  (at level 10, x name, c at level 200, k at level 200,
   format "'[v' 'let*'  x  :=  c  'in' '/' k ']'") : ployz_scope.
Notation "'let!' x := c 'in' k" := (try_bind c (λ x, k))
  (at level 10, x name, c at level 200, k at level 200,
   format "'[v' 'let!'  x  :=  c  'in' '/' k ']'") : ployz_scope.
Notation "'do*' c 'in' k" := (bind c (λ _, k))
  (at level 10, c at level 200, k at level 200,
   format "'[v' 'do*'  c  'in' '/' k ']'") : ployz_scope.
