(* ===== verification/Execution.v ===== *)
(** * Executing a Deploy: outcomes, progress and the Machine client

    The evidence an execution leaves ([ployz-core/src/domain/deploy.rs]), the
    progress sink ([ployz/src/deploy/progress.rs]), and the operations the
    executor asks of Machines with their tolerance of a daemon restart
    ([ployz/src/deploy/exec/mod.rs]).

    A call is answered by the environment; [MachineOperations] is the trait the
    executor is written against, [machine_client] the implementation that issues
    the calls, and [RestartTolerant] the wrapper that waits out a restart. *)

From S2P Require Import Prelude BTree Strings Values Machines StorageCapacity Volumes.
From S2P Require Import ServiceGraph Spec Services Deploy Eligibility Placement VolumePlan.
From S2P Require Import Planner Preview Process.

Open Scope string_scope.
Open Scope list_scope.
Open Scope nat_scope.

(** ** Outcomes *)

Inductive StopAttempt (E : Type) : Type := Stopped | StopFailed (error : E).
Arguments Stopped {E}.
Arguments StopFailed {E} error.

Inductive RestartAttempt (E : Type) : Type := Restarted | RestartFailed (error : E).
Arguments Restarted {E}.
Arguments RestartFailed {E} error.

Inductive ReplacementCompensation (E : Type) : Type :=
| OldUntouched (stop_new_container : StopAttempt E)
| OldStopped (stop_new_container : option (StopAttempt E))
             (restart_old_container : RestartAttempt E).
Arguments OldUntouched {E} stop_new_container.
Arguments OldStopped {E} stop_new_container restart_old_container.

Inductive FailedOperation (E : Type) : Type :=
| FailedPlain (operation : DeployOperation) (error : E)
| FailedReplacement (operation : ReplacementOperation) (error : E)
                    (compensation : ReplacementCompensation E).
Arguments FailedPlain {E} operation error.
Arguments FailedReplacement {E} operation error compensation.

Inductive DeployOutcome (E : Type) : Type :=
| DeploySuccess (completed : list DeployOperation)
| DeployFailed (completed : list DeployOperation) (failed : FailedOperation E)
               (unexecuted : list DeployOperation).
Arguments DeploySuccess {E} completed.
Arguments DeployFailed {E} completed failed unexecuted.

Definition StopAttempt_stopped {E} (self : StopAttempt E) : bool :=
  match self with Stopped => true | StopFailed _ => false end.

Definition StopAttempt_from {E} (result : Result unit E) : StopAttempt E :=
  match result with Ok _ => Stopped | Err error => StopFailed error end.

Definition RestartAttempt_from {E} (result : Result unit E) : RestartAttempt E :=
  match result with Ok _ => Restarted | Err error => RestartFailed error end.

Definition RestartAttempt_restarted {E} (self : RestartAttempt E) : bool :=
  match self with Restarted => true | RestartFailed _ => false end.

(** [operations.get(..n)?] with [operations.get(n..)?.split_first()?]. *)
Definition split_at (operations : list DeployOperation) (n : nat)
    : option (list DeployOperation * DeployOperation * list DeployOperation) :=
  if n <=? length operations then
    match drop n operations with
    | failed :: unexecuted => Some (take n operations, failed, unexecuted)
    | [] => None
    end
  else None.

Definition failure_outcome_from {E} (operations : list DeployOperation) (completed_count : nat)
    (error : E) : option (DeployOutcome E) :=
  '(completed, failed, unexecuted) ← split_at operations completed_count;
  Some (DeployFailed completed (FailedPlain failed error) unexecuted).

Definition replacement_failure_outcome_from {E} (operations : list DeployOperation)
    (completed_count : nat) (error : E) (compensation : ReplacementCompensation E)
    : option (DeployOutcome E) :=
  '(completed, failed, unexecuted) ← split_at operations completed_count;
  match failed with
  | ReplaceContainer operation =>
      Some (DeployFailed completed (FailedReplacement operation error compensation) unexecuted)
  | _ => None
  end.

(** ** Events and the progress sink *)

Inductive ImageRemovalOutcome : Type :=
| ImageRemoved | ImageInUse | ImageNotFound | ImageRemovalFailed (message : string)
| ImageRemovalUnrecognized.

Record ImageRemoval : Type := {
  removal_reference : string;
  removal_outcome : ImageRemovalOutcome
}.

Inductive MachineCleanupResult : Type :=
| Cleaned (removals : list ImageRemoval) | CleanupUnsupported | CleanupUnknown (message : string).

Record MachineImageCleanup : Type := {
  cleanup_machine_id : MachineId;
  cleanup_result : MachineCleanupResult
}.

Inductive DeployEvent : Type :=
| EventProgress (completed total : N) (rows : list OperationRow)
| EventOutcome (outcome : DeployOutcome ExecutionError)
| EventImagesPruned (report : list MachineImageCleanup).

(** [tx] is whether a sender was given; [sent] is what it was sent so far. *)
Record Progress : Type := {
  rows : list OperationRow;
  tx : bool;
  sent : list DeployEvent
}.

Definition Progress_new (rows : list OperationRow) (tx : bool) : Progress :=
  {| rows := rows; tx := tx; sent := [] |}.

Definition send (event : DeployEvent) (self : Progress) : Progress :=
  if self.(tx) then
    {| rows := self.(rows); tx := true; sent := self.(sent) ++ [event] |}
  else self.

Definition Progress_emit (self : Progress) : Progress :=
  send (EventProgress (row_number (length (List.filter is_completed self.(rows))))
          (row_number (length self.(rows))) self.(rows)) self.

Definition with_rows (f : list OperationRow → list OperationRow) (self : Progress) : Progress :=
  {| rows := f self.(rows); tx := self.(tx); sent := self.(sent) |}.

Definition Progress_set_running (index : nat) (phase : OperationPhase) (self : Progress)
    : Progress :=
  Progress_emit (with_rows (λ rows, set_running rows index phase) self).

Definition set_row_display_name (name : string) (row : OperationRow) : OperationRow :=
  {| row_index := row.(row_index); row_machine_id := row.(row_machine_id);
     row_machine_name := row.(row_machine_name); row_operation := row.(row_operation);
     row_display_name := Some name; row_service_name := row.(row_service_name);
     row_status := row.(row_status) |}.

Definition Progress_set_display_name (index : nat) (name : string) (self : Progress) : Progress :=
  with_rows (alter (set_row_display_name name) index) self.

Definition Progress_set_completed (index : nat) (self : Progress) : Progress :=
  Progress_emit (with_rows (λ rows, set_completed rows index) self).

Definition Progress_fail (index : nat) (error : ExecutionError) (self : Progress) : Progress :=
  Progress_emit (with_rows (λ rows, fail_row rows index error) self).

Definition Progress_outcome (outcome : DeployOutcome ExecutionError) (self : Progress)
    : Progress :=
  send (EventOutcome outcome) self.

(** ** Calls to Machines *)

Inductive ContainerObservationCondition : Type := Serving | Dropped.

(** The Deploy's own cancellation token, or one nobody cancels. *)
Inductive CancellationToken : Type := DeployToken | FreshToken.

Record ContainerCreated : Type := {
  created_container_id : ContainerId;
  created_display_name : string
}.

Inductive Call : Type :=
| CallPrepareVolumes (machine_id : MachineId) (specs : list ServiceStorageSpec)
| CallWaitObservations (container_ids : list ContainerId)
    (condition : ContainerObservationCondition) (cancellation : CancellationToken)
| CallServiceContainers (service : QualifiedService)
| CallCreate (machine_id : MachineId) (kind : ContainerKind) (namespace : Namespace)
    (spec : ResolvedServiceSpec) (replacing : option ContainerId)
| CallStart (machine_id : MachineId) (container_id : ContainerId)
| CallInspect (machine_id : MachineId) (container_id : ContainerId)
| CallStop (machine_id : MachineId) (container_id : ContainerId)
    (grace_period_seconds : option Z)
| CallRemove (machine_id : MachineId) (container_id : ContainerId)
| CallRemoveVolume (id : DockerVolumeId).

(** What a call succeeds with. *)
Definition payload (c : Call) : Type :=
  match c with
  | CallPrepareVolumes _ _ => list DockerVolumeName
  | CallServiceContainers _ => list ContainerObservation
  | CallCreate _ _ _ _ _ => ContainerCreated
  | CallInspect _ _ => ContainerObservation
  | CallWaitObservations _ _ _ | CallStart _ _ | CallStop _ _ _ | CallRemove _ _
  | CallRemoveVolume _ => unit
  end.

#[global] Instance machine_calls : Calls Call := λ c, Result (payload c) RpcError.

Abbreviation Exec A := (proc (C := Call) Progress A) (only parsing).

Record MachineOperations : Type := {
  prepare_volumes : MachineId → list ServiceStorageSpec →
    Exec (Result (list DockerVolumeName) RpcError);
  wait_for_container_observations : list ContainerId → ContainerObservationCondition →
    CancellationToken → Exec (Result unit RpcError);
  service_containers : QualifiedService → Exec (Result (list ContainerObservation) RpcError);
  create_container : MachineId → ContainerKind → Namespace → ResolvedServiceSpec →
    option ContainerId → Exec (Result ContainerCreated RpcError);
  start_container : MachineId → ContainerId → Exec (Result unit RpcError);
  inspect_container : MachineId → ContainerId → Exec (Result ContainerObservation RpcError);
  stop_container : MachineId → ContainerId → option Z → Exec (Result unit RpcError);
  remove_container : MachineId → ContainerId → Exec (Result unit RpcError);
  remove_volume : DockerVolumeId → Exec (Result unit RpcError)
}.

Definition machine_client : MachineOperations :=
  {| prepare_volumes m specs := call (CallPrepareVolumes m specs);
     wait_for_container_observations ids condition cancellation :=
       call (CallWaitObservations ids condition cancellation);
     service_containers service := call (CallServiceContainers service);
     create_container m kind namespace spec replacing :=
       call (CallCreate m kind namespace spec replacing);
     start_container m c := call (CallStart m c);
     inspect_container m c := call (CallInspect m c);
     stop_container m c grace := call (CallStop m c grace);
     remove_container m c := call (CallRemove m c);
     remove_volume id := call (CallRemoveVolume id) |}.

(** ** Tolerating a restart of the daemon *)

Definition RESTART_WAIT : N := from_secs 60.
Definition RESTART_POLL : N := from_millis 250.

Definition is_unavailable (error : RpcError) : bool :=
  match error.(rpc_code) with RpcUnavailable => true | _ => false end.

(** [if is_unavailable && Instant::now() < deadline && !is_cancelled()], then the
    [select!] of the token against the poll interval. *)
Fixpoint restart_loop {T} (fuel : nat) (deadline : Instant) (op : Exec (Result T RpcError))
    : Exec (Result T RpcError) :=
  match fuel with
  | O => Spin
  | S fuel =>
      let* answer := op in
      match answer with
      | Ok value => Ret (Ok value)
      | Err error =>
          if is_unavailable error then
            let* t := now in
            if (t <? deadline)%N then
              let* cancelled := is_cancelled in
              if cancelled then Ret (Err error)
              else
                let* t := now in
                let* slept := sleep_or_cancel (t + RESTART_POLL) in
                if slept then restart_loop fuel deadline op else Ret (Err error)
            else Ret (Err error)
          else Ret (Err error)
      end
  end.

Definition wait_out_restart {T} (fuel : nat) (op : Exec (Result T RpcError))
    : Exec (Result T RpcError) :=
  let* start := now in
  restart_loop fuel (start + RESTART_WAIT) op.

Definition RestartTolerant (fuel : nat) (inner : MachineOperations) : MachineOperations :=
  {| prepare_volumes := inner.(prepare_volumes);
     wait_for_container_observations := inner.(wait_for_container_observations);
     service_containers service :=
       wait_out_restart fuel (inner.(service_containers) service);
     create_container := inner.(create_container);
     start_container m c := wait_out_restart fuel (inner.(start_container) m c);
     inspect_container m c := wait_out_restart fuel (inner.(inspect_container) m c);
     stop_container m c grace := wait_out_restart fuel (inner.(stop_container) m c grace);
     remove_container m c := wait_out_restart fuel (inner.(remove_container) m c);
     remove_volume id := wait_out_restart fuel (inner.(remove_volume) id) |}.

(** ** Errors *)

Definition machine_error (action : MachineAction) (error : RpcError) : ExecutionError :=
  MachineError action error.

Definition is_not_found (error : RpcError) : bool :=
  match error.(rpc_code) with RpcNotFound => true | _ => false end.

Definition ignore_not_found (result : Result unit RpcError) : Result unit RpcError :=
  match result with
  | Err error => if is_not_found error then Ok () else Err error
  | Ok _ => result
  end.

Definition i32_max : Z := 2147483647.

(** [i32::try_from(secs).unwrap_or(i32::MAX)]. *)
Definition clamp_i32 (secs : Z) : Z :=
  if (-2147483648 <=? secs)%Z && (secs <=? i32_max)%Z then secs else i32_max.

Definition stop_grace_period (spec : ResolvedServiceSpec) : option Z :=
  clamp_i32 <$> spec.(rs_container).(stop_timeout_secs).

Definition inspect (client : MachineOperations) (m : MachineId) (c : ContainerId)
    : Exec (Result ContainerObservation ExecutionError) :=
  let* r := client.(inspect_container) m c in
  Ret (map_err (machine_error ActionInspectContainer) r).
