(* ===== verification/Health.v ===== *)
(** * Waiting for health

    [ployz/src/deploy/exec/health.rs]: how one observation of a started
    Container is classified, and the two loops that poll until it is settled:
    [monitor_container] for the Container an operation started, [wait_healthy]
    for the Containers of a dependency. *)

From S2P Require Import Prelude BTree Strings Values Machines StorageCapacity Volumes.
From S2P Require Import ServiceGraph Spec Services Deploy Eligibility Placement VolumePlan.
From S2P Require Import Planner Preview Process Execution.

Open Scope string_scope.
Open Scope list_scope.
Open Scope nat_scope.

Definition DEFAULT_HEALTH_MONITOR : N := from_secs 5.
Definition POLL_INTERVAL : N := from_secs 1.

Inductive HealthPoll : Type :=
| HealthComplete
| PendingUntil (deadline : Instant)
| HealthFailed (failure : HealthFailure).

Inductive HealthExpectation : Type := ContainerReady | ExpectHealthy.
#[global] Instance HealthExpectation_eq_dec : EqDecision HealthExpectation.
Proof. solve_decision. Defined.

(** ** One observation *)

Definition healthcheck_timeout (healthcheck : option ConfiguredHealthcheck) : N :=
  let field (f : ConfiguredHealthcheck → option N) (d : N) : N := default d (healthcheck ≫= f) in
  let interval := field hc_interval_millis 30000%N in
  let timeout := field hc_timeout_millis 30000%N in
  let retries := field hc_retries 3%N in
  from_millis
    (saturating_add
       (saturating_add (field hc_start_period_millis 0%N)
          (saturating_mul (saturating_add interval timeout) retries))
       5000).

Definition starting_or_unrecognized (runtime : ContainerRuntimeObservation) : bool :=
  match runtime with
  | RuntimeRunning (HealthStarting | HealthUnrecognized _) => true
  | _ => false
  end.

Definition health_deadline_for (spec : option HealthcheckSpec) (observed : ContainerObservation)
    (started : Instant) : option Instant :=
  match spec with
  | Some (HealthConfigured configured) =>
      Some (started + healthcheck_timeout (Some configured))%N
  | Some (HealthHttp check) => Some (started + from_secs check.(http_timeout_seconds))%N
  | Some HealthDisabled => None
  | None =>
      match observed.(effective_healthcheck) ≫= HealthcheckSpec_as_configured with
      | Some check => Some (started + healthcheck_timeout (Some check))%N
      | None =>
          if starting_or_unrecognized observed.(runtime)
          then Some (started + healthcheck_timeout None)%N else None
      end
  end.

Definition runtime_failure (runtime : ContainerRuntimeObservation) (now deadline : Instant)
    : HealthPoll :=
  if (deadline <=? now)%N then HealthFailed (HealthRuntime runtime) else PendingUntil deadline.

Definition classify_health (runtime : ContainerRuntimeObservation)
    (now monitor_deadline : Instant) (health_deadline : option Instant)
    (expectation : HealthExpectation) : HealthPoll :=
  let not_yet :=
    match health_deadline with
    | None => HealthFailed (HealthRuntime runtime)
    | Some health_deadline =>
        if (health_deadline <=? now)%N then HealthFailed HealthTimedOut
        else PendingUntil health_deadline
    end in
  match runtime with
  | RuntimeRunning HealthHealthy => HealthComplete
  | RuntimeRunning HealthNotConfigured =>
      if bool_decide (expectation = ContainerReady) && is_none health_deadline
      then HealthComplete else not_yet
  | RuntimeRunning (HealthStarting | HealthUnrecognized _) => not_yet
  | RuntimeRestarting | RuntimeExited _ =>
      if bool_decide (expectation = ContainerReady) then HealthFailed (HealthRuntime runtime)
      else runtime_failure runtime now monitor_deadline
  | RuntimeCreated | RuntimeRunning HealthUnhealthy | RuntimePaused | RuntimeRemoving
  | RuntimeDead | RuntimeUnknown _ => runtime_failure runtime now monitor_deadline
  end.

Definition observed_health (runtime : ContainerRuntimeObservation) : option HealthObservation :=
  match runtime with RuntimeRunning health => Some health | _ => None end.

Definition is_http (spec : option HealthcheckSpec) : bool :=
  match spec with Some (HealthHttp _) => true | _ => false end.

(** An HTTP check replaces the monitor window by its own deadline. *)
Definition monitor_until (spec : option HealthcheckSpec) (health_deadline : option Instant)
    (monitor_deadline : Instant) : Instant :=
  if is_http spec then default monitor_deadline health_deadline else monitor_deadline.

Definition health_error (c : ContainerId) (failure : HealthFailure) : ExecutionError :=
  HealthError c failure.

Definition dependency_health_error (dependency : QualifiedService)
    (failure : DependencyHealthFailure) : ExecutionError :=
  DependencyHealthError dependency failure.

(** [u64::try_from(started.elapsed().as_millis()).unwrap_or(u64::MAX)]. *)
Definition elapsed_ms (started : Instant) : Exec N :=
  let* t := now in Ret (millis_u64 (t - started)).

(** ** Containers of a dependency *)

Definition of_dependency (dependency : QualifiedService) (container : ContainerObservation)
    : bool :=
  bool_decide (container.(kind) = KindServiceContainer)
  && bool_decide (container.(co_namespace) = dependency.(qs_namespace))
  && bool_decide (container.(resolved_spec).(rs_name) = dependency.(qs_name)).

Definition not_yet_healthy (runtime : ContainerRuntimeObservation) : bool :=
  match runtime with
  | RuntimeRunning (HealthStarting | HealthNotConfigured | HealthUnrecognized _) => true
  | _ => false
  end.

Definition dependency_deadline (observed : ContainerObservation) (started : Instant)
    : option Instant :=
  option_or
    (health_deadline_for observed.(resolved_spec).(rs_container).(healthcheck) observed started)
    (if not_yet_healthy observed.(runtime)
     then Some (started + healthcheck_timeout None)%N else None).

Definition classify_dependency (observed : ContainerObservation)
    (started now monitor_deadline : Instant) : HealthPoll :=
  let health_deadline := dependency_deadline observed started in
  classify_health observed.(runtime) now
    (monitor_until observed.(resolved_spec).(rs_container).(healthcheck) health_deadline
       monitor_deadline)
    health_deadline ExpectHealthy.

Definition PendingHealth : Type := ContainerId * option HealthObservation * Instant.

(** The body of the [for] loop: the earliest deadline is the one waited for. *)
Definition poll_dependency (started now monitor_deadline : Instant)
    (pending : option PendingHealth) (observed : ContainerObservation)
    : Result (option PendingHealth) DependencyHealthFailure :=
  match classify_dependency observed started now monitor_deadline with
  | HealthComplete => Ok pending
  | HealthFailed failure => Err (DependencyContainer observed.(container_id) failure)
  | PendingUntil deadline =>
      let candidate := (observed.(container_id), observed_health observed.(runtime), deadline) in
      match pending with
      | None => Ok (Some candidate)
      | Some (_, _, pending_deadline) =>
          Ok (if (deadline <? pending_deadline)%N then Some candidate else pending)
      end
  end.

Fixpoint wait_healthy_loop (fuel : nat) (client : MachineOperations) (index : nat)
    (dependency : QualifiedService) (started : Instant) : Exec (Result unit ExecutionError) :=
  match fuel with
  | O => Spin
  | S fuel =>
      let* cancelled := is_cancelled in
      if cancelled then Ret (Err (dependency_health_error dependency DependencyCancelled))
      else
        let* listed := client.(service_containers) dependency in
        match listed with
        | Err error =>
            Ret (Err (dependency_health_error dependency (DependencyObservation error)))
        | Ok listed =>
            match List.filter (of_dependency dependency) listed with
            | [] => Ret (Err (dependency_health_error dependency DependencyNoContainers))
            | containers =>
                let* t := now in
                match try_fold (poll_dependency started t (started + DEFAULT_HEALTH_MONITOR))
                        containers None with
                | Err failure => Ret (Err (dependency_health_error dependency failure))
                | Ok None => Ret (Ok ())
                | Ok (Some (container, health, deadline)) =>
                    let* elapsed := elapsed_ms started in
                    do* update (Progress_set_running index
                                  (PhaseWaitingForHealth container health elapsed
                                     (millis_u64 (deadline - started)))) in
                    let* slept := sleep_or_cancel (N.min (t + POLL_INTERVAL) deadline) in
                    if slept then wait_healthy_loop fuel client index dependency started
                    else Ret (Err (dependency_health_error dependency DependencyCancelled))
                end
            end
        end
  end.

Definition wait_healthy (fuel : nat) (client : MachineOperations) (index : nat)
    (dependency : QualifiedService) : Exec (Result unit ExecutionError) :=
  let* started := now in
  wait_healthy_loop fuel client index dependency started.

(** ** The Container an operation started *)

(** Without a healthcheck of its own, the Container is left alone for the
    monitor window first. *)
Fixpoint settle_loop (fuel : nat) (index : nat) (c : ContainerId)
    (started deadline : Instant) (deadline_ms : N) : Exec (Result unit ExecutionError) :=
  match fuel with
  | O => Spin
  | S fuel =>
      let* t := now in
      let* slept := sleep_or_cancel (N.min (t + POLL_INTERVAL) deadline) in
      if slept then
        let* elapsed := elapsed_ms started in
        do* update (Progress_set_running index
                      (PhaseWaitingForHealth c None elapsed deadline_ms)) in
        let* t := now in
        if (deadline <=? t)%N then Ret (Ok ())
        else settle_loop fuel index c started deadline deadline_ms
      else Ret (Err (health_error c HealthCancelled))
  end.

Fixpoint monitor_loop (fuel : nat) (client : MachineOperations) (index : nat) (m : MachineId)
    (c : ContainerId) (spec : ResolvedServiceSpec) (started monitor_deadline : Instant)
    : Exec (Result unit ExecutionError) :=
  match fuel with
  | O => Spin
  | S fuel =>
      let* cancelled := is_cancelled in
      if cancelled then Ret (Err (health_error c HealthCancelled))
      else
        let! observed := inspect client m c in
        let* t := now in
        let health_deadline :=
          health_deadline_for spec.(rs_container).(healthcheck) observed started in
        let* elapsed := elapsed_ms started in
        do* update (Progress_set_running index
                      (PhaseWaitingForHealth c (observed_health observed.(runtime)) elapsed
                         (millis_u64 (default monitor_deadline health_deadline - started)))) in
        match classify_health observed.(runtime) t
                (monitor_until spec.(rs_container).(healthcheck) health_deadline monitor_deadline)
                health_deadline ContainerReady with
        | HealthComplete => Ret (Ok ())
        | HealthFailed failure => Ret (Err (health_error c failure))
        | PendingUntil wake_deadline =>
            let* slept := sleep_or_cancel (N.min (t + POLL_INTERVAL) wake_deadline) in
            if slept then monitor_loop fuel client index m c spec started monitor_deadline
            else Ret (Err (health_error c HealthCancelled))
        end
  end.

Definition has_own_healthcheck (spec : option HealthcheckSpec) : bool :=
  match spec with Some (HealthConfigured _ | HealthHttp _) => true | _ => false end.

Definition monitor_window (spec : ResolvedServiceSpec) : N :=
  match spec.(rs_update).(resolved_monitor_millis) with
  | None => DEFAULT_HEALTH_MONITOR
  | Some millis => from_millis millis
  end.

Definition initial_deadline_ms (spec : ResolvedServiceSpec) : N :=
  match spec.(rs_container).(healthcheck) with
  | Some (HealthHttp check) => (check.(http_timeout_seconds) * 1000)%N
  | other => (as_millis (healthcheck_timeout (other ≫= HealthcheckSpec_as_configured))
              mod 2 ^ 64)%N
  end.

Definition monitor_container (fuel : nat) (client : MachineOperations) (index : nat)
    (m : MachineId) (c : ContainerId) (spec : ResolvedServiceSpec)
    : Exec (Result unit ExecutionError) :=
  let monitor := monitor_window spec in
  let* started := now in
  let deadline_ms := initial_deadline_ms spec in
  do* update (Progress_set_running index (PhaseWaitingForHealth c None 0 deadline_ms)) in
  let! _ :=
    (if negb (has_own_healthcheck spec.(rs_container).(healthcheck)) && negb (monitor =? 0)%N
     then settle_loop fuel index c started (started + monitor) deadline_ms
     else Ret (Ok ())) in
  monitor_loop fuel client index m c spec started (started + monitor).
