(* ===== verification/Executor.v ===== *)
(** * The Deploy executor

    [ployz/src/deploy/exec/mod.rs]: one function per planned operation, the
    compensation of a failed replacement, and the sequence that runs a plan
    until it succeeds, fails or is cancelled. *)

From S2P Require Import Prelude BTree Strings Values Machines StorageCapacity Volumes.
From S2P Require Import ServiceGraph Spec Services Deploy Eligibility Placement VolumePlan.
From S2P Require Import Planner Preview Process Execution Health.

Open Scope string_scope.
Open Scope list_scope.
Open Scope nat_scope.

Definition DEFAULT_HOOK_TIMEOUT : N := from_secs (5 * 60).

Inductive OperationFailure : Type :=
| OrdinaryFailure (error : ExecutionError)
| ReplacementFailure (error : ExecutionError)
    (compensation : ReplacementCompensation ExecutionError).

Inductive HookInterruption : Type := InterruptionCancelled | InterruptionTimedOut.

(** [.map_err(|error| machine_error(action, error))]. *)
Definition as_machine {T} (action : MachineAction) (p : Exec (Result T RpcError))
    : Exec (Result T ExecutionError) :=
  let* r := p in Ret (map_err (machine_error action) r).

(** [.map_err(Into::into)]. *)
Definition ordinary (p : Exec (Result unit ExecutionError)) : Exec (Result unit OperationFailure) :=
  let* r := p in Ret (map_err OrdinaryFailure r).

Definition ignoring_not_found (p : Exec (Result unit RpcError)) : Exec (Result unit RpcError) :=
  let* r := p in Ret (ignore_not_found r).

Section Operations.
(** Fuel of each polling loop, and the JSON insertion of a Machine id into the
    details of an error. *)
Context (fuel : nat) (details_with_machine : string → MachineId → string).
Context (client : MachineOperations) (index : nat) (namespace : Namespace).

Definition running (phase : OperationPhase) : Exec unit :=
  update (Progress_set_running index phase).

(** ** Creating and serving *)

(** A keyed create can return a Container owned by an earlier attempt, which is
    not this operation's to remove. *)
Definition owns_created (kind : ContainerKind) (spec : ResolvedServiceSpec) : bool :=
  negb (bool_decide (kind = KindServiceContainer)) || negb (bool_decide (spec.(rs_mode) = Global)).

Definition discard_created (m : MachineId) (kind : ContainerKind) (spec : ResolvedServiceSpec)
    (created : ContainerCreated) : Exec unit :=
  if owns_created kind spec then
    do* client.(remove_container) m created.(created_container_id) in Ret ()
  else Ret ().

Definition create_and_start (m : MachineId) (kind : ContainerKind) (spec : ResolvedServiceSpec)
    (replacing : option ContainerId) : Exec (Result ContainerCreated ExecutionError) :=
  do* running PhaseCreatingContainer in
  let* answer := client.(create_container) m kind namespace spec replacing in
  match answer with
  | Err error =>
      let* cancelled := is_cancelled in
      Ret (Err (if cancelled then ExecutionCancelled
                else machine_error ActionCreateContainer error))
  | Ok created =>
      let* cancelled := is_cancelled in
      if cancelled then
        do* discard_created m kind spec created in
        Ret (Err ExecutionCancelled)
      else
        do* update (Progress_set_display_name index created.(created_display_name)) in
        do* running PhaseStartingContainer in
        let* started := client.(start_container) m created.(created_container_id) in
        match started with
        | Err error =>
            do* discard_created m kind spec created in
            Ret (Err (machine_error ActionStartContainer error))
        | Ok _ => Ret (Ok created)
        end
  end.

Definition wait_serving (c : ContainerId) (cancellation : CancellationToken)
    : Exec (Result unit ExecutionError) :=
  as_machine ActionInspectContainer
    (client.(wait_for_container_observations) [c] Serving cancellation).

Definition wait_dropped (c : ContainerId) : Exec (Result unit ExecutionError) :=
  as_machine ActionInspectContainer
    (client.(wait_for_container_observations) [c] Dropped DeployToken).

Definition serve (m : MachineId) (c : ContainerId) (spec : ResolvedServiceSpec)
    (skip_health_monitor : bool) : Exec (Result unit ExecutionError) :=
  let! _ := (if skip_health_monitor then Ret (Ok ())
             else monitor_container fuel client index m c spec) in
  wait_serving c DeployToken.

Definition run_container (m : MachineId) (spec : ResolvedServiceSpec) (skip_health_monitor : bool)
    : Exec (Result ContainerId ExecutionError) :=
  let! created := create_and_start m KindServiceContainer spec None in
  let! _ := serve m created.(created_container_id) spec skip_health_monitor in
  Ret (Ok created.(created_container_id)).

(** ** Replacement and its compensation *)

Definition stop_container_op (m : MachineId) (c : ContainerId)
    : Exec (Result unit ExecutionError) :=
  as_machine ActionStopContainer (ignoring_not_found (client.(stop_container) m c None)).

Definition remove_container_op (m : MachineId) (c : ContainerId)
    : Exec (Result unit ExecutionError) :=
  as_machine ActionRemoveContainer (ignoring_not_found (client.(remove_container) m c)).

(** The stop-first prologue: whether the old Container was stopped. *)
Definition stop_old (operation : ReplacementOperation) : Exec (Result bool ExecutionError) :=
  let m := operation.(repl_machine_id) in
  let c := operation.(repl_old_container_id) in
  let* answer := client.(inspect_container) m c in
  let! old :=
    match answer with
    | Ok old => Ret (Ok (Some old))
    | Err error => Ret (if is_not_found error then Ok None
                        else Err (machine_error ActionInspectContainer error))
    end in
  if match old with Some old => is_active_runtime old.(runtime) | None => false end then
    do* running PhaseStoppingContainer in
    let* stopped := client.(stop_container) m c None in
    Ret match stopped with
        | Ok _ => Ok true
        | Err error => if is_not_found error then Ok false
                       else Err (machine_error ActionStopContainer error)
        end
  else Ret (Ok false).

Definition restore_old_container (operation : ReplacementOperation)
    : Exec (RestartAttempt ExecutionError) :=
  let* restored :=
    let! _ := as_machine ActionStartContainer
                (client.(start_container) operation.(repl_machine_id)
                   operation.(repl_old_container_id)) in
    wait_serving operation.(repl_old_container_id) FreshToken in
  Ret (RestartAttempt_from restored).

Definition is_health_error (error : ExecutionError) : bool :=
  match error with HealthError _ _ => true | _ => false end.

Definition stop_new (operation : ReplacementOperation) (c : ContainerId)
    : Exec (StopAttempt ExecutionError) :=
  let* stopped :=
    as_machine ActionStopContainer
      (ignoring_not_found
         (client.(stop_container) operation.(repl_machine_id) c
            (Some (default 0%Z (stop_grace_period operation.(repl_spec)))))) in
  Ret (StopAttempt_from stopped).

Definition compensate (operation : ReplacementOperation) (old_stopped : bool)
    (new_container : option ContainerId) (error : ExecutionError) : Exec OperationFailure :=
  if negb old_stopped && negb (is_health_error error) then Ret (OrdinaryFailure error)
  else
    do* running PhaseCompensating in
    let* stop_new_container :=
      match new_container with
      | Some c => let* attempt := stop_new operation c in Ret (Some attempt)
      | None => Ret None
      end in
    if old_stopped then
      let* restart_old_container := restore_old_container operation in
      Ret (ReplacementFailure error (OldStopped stop_new_container restart_old_container))
    else
      match stop_new_container with
      | Some stop_new_container =>
          Ret (ReplacementFailure error (OldUntouched stop_new_container))
      | None => Ret (OrdinaryFailure error)
      end.

(** The new Container travels with the failure, so it can be stopped. *)
Definition start_new (operation : ReplacementOperation)
    : Exec (Result unit (option ContainerId * ExecutionError)) :=
  let m := operation.(repl_machine_id) in
  let* started := create_and_start m KindServiceContainer operation.(repl_spec)
                    (Some operation.(repl_old_container_id)) in
  match started with
  | Err error => Ret (Err (None, error))
  | Ok created =>
      let* served := serve m created.(created_container_id) operation.(repl_spec)
                       operation.(repl_skip_health_monitor) in
      Ret (map_err (pair (Some created.(created_container_id))) served)
  end.

(** Stop the old Container unless that was done first, remove it, and wait until
    nobody serves from it. *)
Definition retire_old (operation : ReplacementOperation) (stop_first : bool)
    : Exec (Result unit ExecutionError) :=
  let m := operation.(repl_machine_id) in
  let old := operation.(repl_old_container_id) in
  let! _ := (if stop_first then Ret (Ok ())
             else do* running PhaseStoppingContainer in stop_container_op m old) in
  do* running PhaseRemovingContainer in
  let! _ := remove_container_op m old in
  wait_dropped old.

Definition replace_container (operation : ReplacementOperation)
    : Exec (Result unit OperationFailure) :=
  let stop_first := bool_decide (operation.(repl_spec).(rs_update).(resolved_order) = StopFirst) in
  let* stopped := (if stop_first then stop_old operation else Ret (Ok false)) in
  match stopped with
  | Err error => Ret (Err (OrdinaryFailure error))
  | Ok old_stopped =>
      let* started := start_new operation in
      match started with
      | Err (new_container, error) =>
          let* failure := compensate operation old_stopped new_container error in
          Ret (Err failure)
      | Ok _ => ordinary (retire_old operation stop_first)
      end
  end.

(** ** Hooks *)

Definition interrupt_hook (m : MachineId) (c : ContainerId) (interruption : HookInterruption)
    : Exec ExecutionError :=
  let* stopped := client.(stop_container) m c (Some 0%Z) in
  let stop_error := match stopped with Ok _ => None | Err error => Some error end in
  Ret (HookError c match interruption with
                   | InterruptionCancelled => HookCancelled stop_error
                   | InterruptionTimedOut => HookTimedOut stop_error
                   end).

Definition interrupted (m : MachineId) (c : ContainerId) (interruption : HookInterruption)
    : Exec (Result unit ExecutionError) :=
  let* error := interrupt_hook m c interruption in Ret (Err error).

Fixpoint hook_loop (rounds : nat) (m : MachineId) (c : ContainerId)
    (started deadline : Instant) (deadline_ms : N) : Exec (Result unit ExecutionError) :=
  match rounds with
  | O => Spin
  | S rounds =>
      let* elapsed := elapsed_ms started in
      do* running (PhaseWaitingForHook c elapsed deadline_ms) in
      let* raced := race true deadline (inspect client m c) in
      match raced with
      | RaceCancelled => interrupted m c InterruptionCancelled
      | RaceTimedOut => interrupted m c InterruptionTimedOut
      | RaceDone (Err error) => Ret (Err error)
      | RaceDone (Ok observed) =>
          match observed.(runtime) with
          | RuntimeExited code =>
              Ret (if (code =? 0)%Z then Ok () else Err (HookError c (HookExit code)))
          | _ =>
              let* t := now in
              let* raced := race true deadline
                              (event (EvSleepUntil (N.min (t + POLL_INTERVAL) deadline))) in
              match raced with
              | RaceCancelled => interrupted m c InterruptionCancelled
              | RaceTimedOut => interrupted m c InterruptionTimedOut
              | RaceDone _ => hook_loop rounds m c started deadline deadline_ms
              end
          end
      end
  end.

Definition hook_timeout (spec : ResolvedServiceSpec) : N :=
  match spec.(rs_pre_deploy) ≫= hook_timeout_millis with
  | None => DEFAULT_HOOK_TIMEOUT
  | Some millis => from_millis millis
  end.

Definition run_hook (m : MachineId) (spec : ResolvedServiceSpec)
    (old_hook_containers : list (MachineId * ContainerId)) : Exec (Result unit ExecutionError) :=
  do* running PhaseRemovingContainer in
  let! _ := for_each (λ old, remove_container_op old.1 old.2) old_hook_containers in
  let! created := create_and_start m KindPreDeployHook spec None in
  let timeout := hook_timeout spec in
  let* started := now in
  hook_loop fuel m created.(created_container_id) started (started + timeout) (millis_u64 timeout).

(** ** One operation *)

Definition prepare_error (m : MachineId) (error : RpcError) : RpcError :=
  {| rpc_code := error.(rpc_code); rpc_message := error.(rpc_message);
     rpc_details := details_with_machine error.(rpc_details) m |}.

Definition execute_operation (operation : DeployOperation) : Exec (Result unit OperationFailure) :=
  do* running PhaseStarting in
  match operation with
  | PrepareVolumes m specs =>
      let* prepared := client.(prepare_volumes) m specs in
      Ret match prepared with
          | Ok _ => Ok ()
          | Err error =>
              Err (OrdinaryFailure (machine_error ActionPrepareVolumes (prepare_error m error)))
          end
  | WaitHealthy _ _ dependency => ordinary (wait_healthy fuel client index dependency)
  | RunContainer m spec skip_health_monitor =>
      ordinary (let! _ := run_container m spec skip_health_monitor in Ret (Ok ()))
  | StopContainer m c purpose =>
      do* running PhaseStoppingContainer in
      ordinary
        (let! _ := stop_container_op m c in
         match purpose with
         | PurposeLifecycle => wait_dropped c
         | PurposeFreeHostPorts => Ret (Ok ())
         end)
  | RemoveContainer m c =>
      do* running PhaseStoppingContainer in
      ordinary
        (let! _ := stop_container_op m c in
         do* running PhaseRemovingContainer in
         let! _ := remove_container_op m c in
         wait_dropped c)
  | ReplaceContainer replacement => replace_container replacement
  | StopHook m c =>
      do* running PhaseStoppingContainer in
      ordinary (stop_container_op m c)
  | RunHook m spec old_hook_containers => ordinary (run_hook m spec old_hook_containers)
  | RemoveVolume id =>
      do* running PhaseRemovingVolume in
      ordinary (as_machine ActionRemoveVolume (ignoring_not_found (client.(remove_volume) id)))
  end.

End Operations.

(** ** The sequence *)

Section Sequence.
Context (fuel : nat) (details_with_machine : string → MachineId → string).
Context (client : MachineOperations) (namespace : Namespace) (operations : list DeployOperation).

(** Record the failure and report it; [None] is a panic of the [expect]. *)
Definition conclude (index : nat) (error : ExecutionError)
    (outcome : option (DeployOutcome ExecutionError)) : Exec (option (DeployOutcome ExecutionError)) :=
  do* update (Progress_fail index error) in
  match outcome with
  | None => Ret None
  | Some outcome => do* update (Progress_outcome outcome) in Ret (Some outcome)
  end.

(** [for (index, operation) in operations.iter().enumerate()]. *)
Fixpoint sequence_from (index : nat) (rest : list DeployOperation)
    : Exec (option (DeployOutcome ExecutionError)) :=
  match rest with
  | [] =>
      let outcome := DeploySuccess operations in
      do* update (Progress_outcome outcome) in
      Ret (Some outcome)
  | operation :: rest =>
      let* cancelled := is_cancelled in
      if cancelled then
        conclude index ExecutionCancelled
          (failure_outcome_from operations index ExecutionCancelled)
      else
        let* done := execute_operation fuel details_with_machine client index namespace
                       operation in
        match done with
        | Ok _ =>
            do* update (Progress_set_completed index) in
            sequence_from (S index) rest
        | Err (OrdinaryFailure error) =>
            conclude index error (failure_outcome_from operations index error)
        | Err (ReplacementFailure error compensation) =>
            conclude index error
              (replacement_failure_outcome_from operations index error compensation)
        end
  end.
End Sequence.

Definition plan_pending_rows (self : DeployPlan) : list OperationRow :=
  imap (λ index planned,
          OperationRow_pending (row_number index) planned.1 planned.2.(row_machine_name)
            planned.2.(row_display_name) planned.2.(row_service_name))
    (zip self.(plan_ops) self.(preview).(preview_operations)).

(** The process starts from [pending_progress]. *)
Definition execute_operation_sequence (fuel : nat)
    (details_with_machine : string → MachineId → string) (plan : DeployPlan)
    : Exec (option (DeployOutcome ExecutionError)) :=
  do* update Progress_emit in
  sequence_from fuel details_with_machine (RestartTolerant fuel machine_client)
    plan.(preview).(preview_namespace) plan.(plan_ops) 0 plan.(plan_ops).

Definition pending_progress (plan : DeployPlan) (tx : bool) : Progress :=
  Progress_new (plan_pending_rows plan) tx.
