(* ===== verification/ExecutorTraces.v ===== *)
(** * What the executor asks of Machines

    Every operation of the executor is a process; this file says which
    sequences of calls it may make for which result.  The grammar has one
    predicate per function of [ployz/src/deploy/exec], and
    [execute_operation_traces] shows the executor stays within it whatever the
    Machines answer, whenever the Deploy is cancelled and however time passes.
    The theorems on replacement, confinement and the sequence are read off it. *)

From S2P Require Import Prelude BTree Strings Values Machines StorageCapacity Volumes.
From S2P Require Import ServiceGraph Spec Services Deploy Eligibility Placement VolumePlan.
From S2P Require Import Planner Preview Process Execution Health Executor.

Open Scope string_scope.
Open Scope list_scope.
Open Scope nat_scope.

Abbreviation Log := (list (Logged (C := Call))) (only parsing).

(** ** The grammar *)

(** A call that waits out a restart: unavailable answers, then the one returned. *)
Inductive attempts (c : Call) : Result (payload c) RpcError → Log → Prop :=
| attempt_last r : attempts c r [Answered c r]
| attempt_again error r l :
    is_unavailable error = true → attempts c r l → attempts c r (Answered c (Err error) :: l).

Definition only_calls (c : Call) (l : Log) : Prop := Forall (λ x, called x = c) l.

Section Grammar.
Context (namespace : Namespace).

Definition discards (m : MachineId) (kind : ContainerKind) (spec : ResolvedServiceSpec)
    (created : ContainerCreated) (l : Log) : Prop :=
  if owns_created kind spec then ∃ r, attempts (CallRemove m created.(created_container_id)) r l
  else l = [].

Inductive creates (m : MachineId) (kind : ContainerKind) (spec : ResolvedServiceSpec)
    (replacing : option ContainerId) : Result ContainerCreated ExecutionError → Log → Prop :=
| creates_nothing answer error :
    is_health_error error = false →
    creates m kind spec replacing (Err error)
      [Answered (CallCreate m kind namespace spec replacing) (Err answer)]
| creates_cancelled created l :
    discards m kind spec created l →
    creates m kind spec replacing (Err ExecutionCancelled)
      (Answered (CallCreate m kind namespace spec replacing) (Ok created) :: l)
| creates_unstarted created error l1 l2 :
    attempts (CallStart m created.(created_container_id)) (Err error) l1 →
    discards m kind spec created l2 →
    creates m kind spec replacing (Err (machine_error ActionStartContainer error))
      (Answered (CallCreate m kind namespace spec replacing) (Ok created) :: l1 ++ l2)
| creates_started created l :
    attempts (CallStart m created.(created_container_id)) (Ok ()) l →
    creates m kind spec replacing (Ok created)
      (Answered (CallCreate m kind namespace spec replacing) (Ok created) :: l).

(** The observation that ends monitoring well. *)
Definition ready (spec : ResolvedServiceSpec) (observed : ContainerObservation) : Prop :=
  observed.(runtime) = RuntimeRunning HealthHealthy
  ∨ observed.(runtime) = RuntimeRunning HealthNotConfigured
    ∧ ∀ started, health_deadline_for spec.(rs_container).(healthcheck) observed started = None.

Inductive monitors (m : MachineId) (c : ContainerId) (spec : ResolvedServiceSpec)
    : Result unit ExecutionError → Log → Prop :=
| monitors_failed error l : only_calls (CallInspect m c) l → monitors m c spec (Err error) l
| monitors_passed observed l :
    only_calls (CallInspect m c) l → ready spec observed →
    monitors m c spec (Ok ()) (l ++ [Answered (CallInspect m c) (Ok observed)]).

Inductive serves (m : MachineId) (c : ContainerId) (spec : ResolvedServiceSpec) (skip : bool)
    : Result unit ExecutionError → Log → Prop :=
| serves_unmonitored error l :
    monitors m c spec (Err error) l → serves m c spec skip (Err error) l
| serves_waited answer l :
    (skip = true ∧ l = [] ∨ monitors m c spec (Ok ()) l) →
    serves m c spec skip (map_err (machine_error ActionInspectContainer) answer)
      (l ++ [Answered (CallWaitObservations [c] Serving DeployToken) answer]).

(** A stop or removal whose target may be gone. *)
Inductive ends (action : MachineAction) (c : Call) : Result unit ExecutionError → Log → Prop :=
| ends_ok l : only_calls c l → l ≠ [] → ends action c (Ok ()) l
| ends_err error l :
    only_calls c l → l ≠ [] → ends action c (Err (machine_error action error)) l.

Definition stops m c := ends ActionStopContainer (CallStop m c None).
Definition removes m c := ends ActionRemoveContainer (CallRemove m c).

Inductive drops (c : ContainerId) : Result unit ExecutionError → Log → Prop :=
| drops_waited answer :
    drops c (map_err (machine_error ActionInspectContainer) answer)
      [Answered (CallWaitObservations [c] Dropped DeployToken) answer].

(** The stop-first prologue. *)
Inductive stops_old (op : ReplacementOperation) : Result bool ExecutionError → Log → Prop :=
| stops_old_later :
    op.(repl_spec).(rs_update).(resolved_order) = StartFirst → stops_old op (Ok false) []
| stops_old_inspected r l :
    op.(repl_spec).(rs_update).(resolved_order) = StopFirst → r ≠ Ok true →
    only_calls (CallInspect op.(repl_machine_id) op.(repl_old_container_id)) l →
    stops_old op r l
| stops_old_stopped r answer l1 l2 :
    op.(repl_spec).(rs_update).(resolved_order) = StopFirst →
    only_calls (CallInspect op.(repl_machine_id) op.(repl_old_container_id)) l1 →
    attempts (CallStop op.(repl_machine_id) op.(repl_old_container_id) None) answer l2 →
    r = match answer with
        | Ok _ => Ok true
        | Err error => if is_not_found error then Ok false
                       else Err (machine_error ActionStopContainer error)
        end →
    stops_old op r (l1 ++ l2).

Inductive starts_new (op : ReplacementOperation)
    : Result unit (option ContainerId * ExecutionError) → Log → Prop :=
| starts_new_uncreated error l :
    creates op.(repl_machine_id) KindServiceContainer op.(repl_spec)
      (Some op.(repl_old_container_id)) (Err error) l →
    starts_new op (Err (None, error)) l
| starts_new_served created r l1 l2 :
    creates op.(repl_machine_id) KindServiceContainer op.(repl_spec)
      (Some op.(repl_old_container_id)) (Ok created) l1 →
    serves op.(repl_machine_id) created.(created_container_id) op.(repl_spec)
      op.(repl_skip_health_monitor) r l2 →
    starts_new op (map_err (pair (Some created.(created_container_id))) r) (l1 ++ l2).

Inductive restores (op : ReplacementOperation) : RestartAttempt ExecutionError → Log → Prop :=
| restores_unstarted error l :
    attempts (CallStart op.(repl_machine_id) op.(repl_old_container_id)) (Err error) l →
    restores op (RestartFailed (machine_error ActionStartContainer error)) l
| restores_waited answer l :
    attempts (CallStart op.(repl_machine_id) op.(repl_old_container_id)) (Ok ()) l →
    restores op (RestartAttempt_from (map_err (machine_error ActionInspectContainer) answer))
      (l ++ [Answered (CallWaitObservations [op.(repl_old_container_id)] Serving FreshToken)
               answer]).

Definition stops_new (op : ReplacementOperation) (new : option ContainerId) (l : Log) : Prop :=
  match new with
  | None => l = []
  | Some c =>
      only_calls (CallStop op.(repl_machine_id) c
                    (Some (default 0%Z (stop_grace_period op.(repl_spec))))) l ∧ l ≠ []
  end.

Inductive compensates (op : ReplacementOperation) (new : option ContainerId)
    (error : ExecutionError) : bool → OperationFailure → Log → Prop :=
| compensates_nothing :
    is_health_error error = false → compensates op new error false (OrdinaryFailure error) []
| compensates_untouched attempt l :
    new ≠ None → is_health_error error = true → stops_new op new l →
    compensates op new error false (ReplacementFailure error (OldUntouched attempt)) l
| compensates_unstarted l :
    new = None → is_health_error error = true → stops_new op new l →
    compensates op new error false (OrdinaryFailure error) l
| compensates_stopped attempt restart l1 l2 :
    stops_new op new l1 → restores op restart l2 → (new = None ↔ attempt = None) →
    compensates op new error true
      (ReplacementFailure error (OldStopped attempt restart)) (l1 ++ l2).

Inductive retires (op : ReplacementOperation) : Result unit ExecutionError → Log → Prop :=
| retires_unstopped error l :
    op.(repl_spec).(rs_update).(resolved_order) = StartFirst →
    stops op.(repl_machine_id) op.(repl_old_container_id) (Err error) l →
    retires op (Err error) l
| retires_unremoved error l1 l2 :
    (op.(repl_spec).(rs_update).(resolved_order) = StopFirst ∧ l1 = []
     ∨ op.(repl_spec).(rs_update).(resolved_order) = StartFirst
       ∧ stops op.(repl_machine_id) op.(repl_old_container_id) (Ok ()) l1) →
    removes op.(repl_machine_id) op.(repl_old_container_id) (Err error) l2 →
    retires op (Err error) (l1 ++ l2)
| retires_dropped r l1 l2 l3 :
    (op.(repl_spec).(rs_update).(resolved_order) = StopFirst ∧ l1 = []
     ∨ op.(repl_spec).(rs_update).(resolved_order) = StartFirst
       ∧ stops op.(repl_machine_id) op.(repl_old_container_id) (Ok ()) l1) →
    removes op.(repl_machine_id) op.(repl_old_container_id) (Ok ()) l2 →
    drops op.(repl_old_container_id) r l3 →
    retires op r (l1 ++ l2 ++ l3).

Inductive replaces (op : ReplacementOperation) : Result unit OperationFailure → Log → Prop :=
| replaces_nothing error l :
    stops_old op (Err error) l → replaces op (Err (OrdinaryFailure error)) l
| replaces_compensated old_stopped new error failure l1 l2 l3 :
    stops_old op (Ok old_stopped) l1 → starts_new op (Err (new, error)) l2 →
    compensates op new error old_stopped failure l3 →
    replaces op (Err failure) (l1 ++ l2 ++ l3)
| replaces_retired old_stopped r l1 l2 l3 :
    stops_old op (Ok old_stopped) l1 → starts_new op (Ok ()) l2 → retires op r l3 →
    replaces op (map_err OrdinaryFailure r) (l1 ++ l2 ++ l3).

(** Removing the Hook Containers of earlier Deploys. *)
Inductive sweeps : list (MachineId * ContainerId) → Result unit ExecutionError → Log → Prop :=
| sweeps_nil : sweeps [] (Ok ()) []
| sweeps_stuck m c rest error l :
    removes m c (Err error) l → sweeps ((m, c) :: rest) (Err error) l
| sweeps_next m c rest r l1 l2 :
    removes m c (Ok ()) l1 → sweeps rest r l2 → sweeps ((m, c) :: rest) r (l1 ++ l2).

Inductive polls (m : MachineId) (c : ContainerId) : Result unit ExecutionError → Log → Prop :=
| polls_exited observed l :
    only_calls (CallInspect m c) l → observed.(runtime) = RuntimeExited 0 →
    polls m c (Ok ()) (l ++ [Answered (CallInspect m c) (Ok observed)])
| polls_failed error l : only_calls (CallInspect m c) l → polls m c (Err error) l
| polls_interrupted error l1 l2 r :
    only_calls (CallInspect m c) l1 → attempts (CallStop m c (Some 0%Z)) r l2 →
    polls m c (Err error) (l1 ++ l2).

Inductive hooks (m : MachineId) (spec : ResolvedServiceSpec) (olds : list (MachineId * ContainerId))
    : Result unit ExecutionError → Log → Prop :=
| hooks_unswept error l : sweeps olds (Err error) l → hooks m spec olds (Err error) l
| hooks_uncreated error l1 l2 :
    sweeps olds (Ok ()) l1 → creates m KindPreDeployHook spec None (Err error) l2 →
    hooks m spec olds (Err error) (l1 ++ l2)
| hooks_polled created r l1 l2 l3 :
    sweeps olds (Ok ()) l1 → creates m KindPreDeployHook spec None (Ok created) l2 →
    polls m created.(created_container_id) r l3 →
    hooks m spec olds r (l1 ++ l2 ++ l3).

Inductive waits_healthy (dependency : QualifiedService)
    : Result unit ExecutionError → Log → Prop :=
| waits_failed error l :
    only_calls (CallServiceContainers dependency) l → waits_healthy dependency (Err error) l
| waits_passed listed l :
    only_calls (CallServiceContainers dependency) l →
    List.filter (of_dependency dependency) listed ≠ [] →
    (∀ o, o ∈ List.filter (of_dependency dependency) listed →
          o.(runtime) = RuntimeRunning HealthHealthy) →
    waits_healthy dependency (Ok ())
      (l ++ [Answered (CallServiceContainers dependency) (Ok listed)]).

Inductive runs (m : MachineId) (spec : ResolvedServiceSpec) (skip : bool)
    : Result unit ExecutionError → Log → Prop :=
| runs_uncreated error l :
    creates m KindServiceContainer spec None (Err error) l → runs m spec skip (Err error) l
| runs_served created r l1 l2 :
    creates m KindServiceContainer spec None (Ok created) l1 →
    serves m created.(created_container_id) spec skip r l2 →
    runs m spec skip r (l1 ++ l2).

(** Stop, then what follows a successful stop. *)
Inductive stops_then (m : MachineId) (c : ContainerId)
    (next : Result unit ExecutionError → Log → Prop) : Result unit ExecutionError → Log → Prop :=
| stops_then_failed error l : stops m c (Err error) l → stops_then m c next (Err error) l
| stops_then_next r l1 l2 :
    stops m c (Ok ()) l1 → next r l2 → stops_then m c next r (l1 ++ l2).

Inductive removes_then (m : MachineId) (c : ContainerId)
    : Result unit ExecutionError → Log → Prop :=
| removes_then_failed error l : removes m c (Err error) l → removes_then m c (Err error) l
| removes_then_dropped r l1 l2 :
    removes m c (Ok ()) l1 → drops c r l2 → removes_then m c r (l1 ++ l2).

Inductive executes : DeployOperation → Result unit OperationFailure → Log → Prop :=
| executes_prepare m specs answer r :
    is_ok r = is_ok answer →
    (∀ failure, r = Err failure → ∃ error, failure = OrdinaryFailure error) →
    executes (PrepareVolumes m specs) r [Answered (CallPrepareVolumes m specs) answer]
| executes_wait m dependent dependency r l :
    waits_healthy dependency r l →
    executes (WaitHealthy m dependent dependency) (map_err OrdinaryFailure r) l
| executes_run m spec skip r l :
    runs m spec skip r l → executes (RunContainer m spec skip) (map_err OrdinaryFailure r) l
| executes_stop m c purpose r l :
    stops_then m c (λ r l, match purpose with
                           | PurposeLifecycle => drops c r l
                           | PurposeFreeHostPorts => r = Ok () ∧ l = []
                           end) r l →
    executes (StopContainer m c purpose) (map_err OrdinaryFailure r) l
| executes_remove m c r l :
    stops_then m c (removes_then m c) r l →
    executes (RemoveContainer m c) (map_err OrdinaryFailure r) l
| executes_replace op r l : replaces op r l → executes (ReplaceContainer op) r l
| executes_stop_hook m c r l :
    stops m c r l → executes (StopHook m c) (map_err OrdinaryFailure r) l
| executes_hook m spec olds r l :
    hooks m spec olds r l → executes (RunHook m spec olds) (map_err OrdinaryFailure r) l
| executes_remove_volume id r l :
    ends ActionRemoveVolume (CallRemoveVolume id) r l →
    executes (RemoveVolume id) (map_err OrdinaryFailure r) l.
End Grammar.

(** ** The executor keeps to the grammar *)

Lemma attempts_only c r l : attempts c r l → only_calls c l ∧ l ≠ [].
Proof. induction 1 as [|?????[??]]; split; try done; repeat constructor; auto. Qed.

Lemma attempts_last c r l :
  attempts c r l → ∃ l', l = l' ++ [Answered c r] ∧ only_calls c l'.
Proof.
  induction 1 as [r|error r l He Ha (l' & -> & Hl)].
  - exists []. split; [done|constructor].
  - exists (Answered c (Err error) :: l'). split; [done|]. by constructor.
Qed.

Lemma restart_traces fuel deadline (c : Call) :
  traces (restart_loop fuel deadline (call c)) (attempts c).
Proof.
  induction fuel as [|fuel IH]; simpl; [done|].
  intros [value|error]; simpl; [constructor|].
  destruct (is_unavailable error) eqn:He; simpl; [|constructor].
  intros t. destruct (t <? deadline)%N; simpl; [|constructor].
  intros [] ; simpl; [constructor|]. intros t' [[]|]; simpl; [|constructor].
  eapply traces_mono; [|exact IH]. intros r l Hl. by constructor.
Qed.

Lemma tolerant_traces fuel (c : Call) : traces (wait_out_restart fuel (call c)) (attempts c).
Proof. intros t. apply (restart_traces fuel (t + RESTART_WAIT) c). Qed.

Lemma restart_only fuel deadline (c : Call) :
  only (λ c', c' = c) (restart_loop fuel deadline (call c)).
Proof.
  induction fuel as [|fuel IH]; simpl; [done|]. split; [naive_solver|].
  intros [value|error]; simpl; [done|]. destruct (is_unavailable error); simpl; [|done].
  split; [done|]. intros t. destruct (t <? deadline)%N; simpl; [|done].
  split; [done|]. intros []; simpl; [done|]. split; [done|]. intros t'.
  split; [done|]. by intros [|].
Qed.

Lemma tolerant_only fuel (c : Call) : only (λ c', c' = c) (wait_out_restart fuel (call c)).
Proof. split; [done|]. intros t. apply restart_only. Qed.

(** Observations that settle a poll. *)
Lemma classify_ready runtime t monitor health :
  classify_health runtime t monitor health ContainerReady = HealthComplete →
  runtime = RuntimeRunning HealthHealthy
  ∨ runtime = RuntimeRunning HealthNotConfigured ∧ health = None.
Proof.
  unfold classify_health, runtime_failure.
  destruct runtime as [|[]| | | | | |], health; simpl; repeat case_match; naive_solver.
Qed.

Lemma classify_healthy runtime t monitor health :
  classify_health runtime t monitor health ExpectHealthy = HealthComplete →
  runtime = RuntimeRunning HealthHealthy.
Proof.
  unfold classify_health, runtime_failure.
  destruct runtime as [|[]| | | | | |], health; simpl; repeat case_match; naive_solver.
Qed.

Lemma no_deadline spec observed started started' :
  health_deadline_for spec observed started = None →
  health_deadline_for spec observed started' = None.
Proof. unfold health_deadline_for. repeat case_match; done. Qed.

Lemma monitors_cons m c spec r l1 l2 :
  only_calls (CallInspect m c) l1 → monitors m c spec r l2 → monitors m c spec r (l1 ++ l2).
Proof.
  intros Hl1 Hm. destruct Hm as [error l Hl|observed l Hl Hr].
  - constructor. by apply Forall_app.
  - rewrite app_assoc. constructor; [by apply Forall_app|done].
Qed.

Lemma poll_all_healthy started t deadline pending (l : list ContainerObservation) :
  try_fold (poll_dependency started t deadline) l pending = Ok None →
  pending = None ∧ ∀ o, o ∈ l → o.(runtime) = RuntimeRunning HealthHealthy.
Proof.
  revert pending. induction l as [|o l IH]; intros pending; simpl.
  { intros [= ->]. set_solver. }
  unfold poll_dependency at 1.
  destruct (classify_dependency o started t deadline) as [|until|] eqn:Hclass; simpl; intros H.
  - apply IH in H as [-> H]. split; [done|]. apply classify_healthy in Hclass.
    by intros o' [->|Ho]%elem_of_cons; [|apply H].
  - destruct pending as [[[]]|]; simpl in H; apply IH in H as [H _]; by repeat case_match.
  - done.
Qed.

Lemma waits_cons dependency r l1 l2 :
  only_calls (CallServiceContainers dependency) l1 → waits_healthy dependency r l2 →
  waits_healthy dependency r (l1 ++ l2).
Proof.
  intros Hl1 Hw. destruct Hw as [error l Hl|listed l Hl Hne Ha].
  - constructor. by apply Forall_app.
  - rewrite app_assoc. constructor; [by apply Forall_app|done|done].
Qed.

#[local] Opaque wait_out_restart try_fold.
#[local] Arguments interrupted : simpl never.

Section Refinement.
Context (fuel : nat) (details_with_machine : string → MachineId → string).
Context (index : nat) (namespace : Namespace).
Local Abbreviation client := (RestartTolerant fuel machine_client).

Lemma ending_traces action (c : Call) (p : Exec (Result unit RpcError)) :
  (traces p (λ _ l, only_calls c l ∧ l ≠ [])) →
  traces (as_machine action (ignoring_not_found p)) (ends action c).
Proof.
  intros Hp. apply traces_bind, traces_bind. eapply traces_mono; [|exact Hp].
  intros r l [Hl Hne]. simpl. rewrite !app_nil_r.
  destruct (ignore_not_found r) as [[]|]; simpl; by constructor.
Qed.

Lemma tolerant_ending action (c : Call) (Hc : payload c = unit) (p : Exec (Result unit RpcError)) :
  traces p (λ _ l, ∃ r, attempts c r l) →
  traces (as_machine action (ignoring_not_found p)) (ends action c).
Proof.
  intros Hp. apply ending_traces. eapply traces_mono; [|exact Hp].
  intros _ l [r Hr]. by eapply attempts_only.
Qed.

Lemma some_attempts (c : Call) (p : Exec (Result (payload c) RpcError)) :
  traces p (attempts c) → traces p (λ _ l, ∃ r, attempts c r l).
Proof. apply traces_mono. eauto. Qed.

Lemma stop_traces m c : traces (stop_container_op client m c) (stops m c).
Proof.
  apply tolerant_ending; [done|]. apply (some_attempts (CallStop m c None)), tolerant_traces.
Qed.

Lemma remove_traces m c : traces (remove_container_op client m c) (removes m c).
Proof.
  apply tolerant_ending; [done|]. apply (some_attempts (CallRemove m c)), tolerant_traces.
Qed.

Lemma drop_traces c : traces (wait_dropped client c) (drops c).
Proof. intros answer. simpl. constructor. Qed.

Lemma discard_traces m kind spec created :
  traces (discard_created client m kind spec created) (λ _ l, discards m kind spec created l).
Proof.
  unfold discard_created, discards. destruct (owns_created kind spec); simpl; [|done].
  eapply traces_seq; [apply (tolerant_traces fuel (CallRemove m created.(created_container_id)))|].
  intros r l Hl. simpl. rewrite app_nil_r. eauto.
Qed.

Lemma create_traces m kind spec replacing :
  traces (create_and_start client index namespace m kind spec replacing)
    (creates namespace m kind spec replacing).
Proof.
  intros [created|error]; simpl; [|intros []; simpl; by constructor].
  intros []; simpl.
  - eapply traces_seq; [apply discard_traces|]. intros u l Hl. simpl. rewrite app_nil_r.
    by constructor.
  - eapply traces_seq; [apply (tolerant_traces fuel (CallStart m created.(created_container_id)))|].
    intros [[]|error] l1 Hl1; simpl.
    + rewrite app_nil_r. by constructor.
    + eapply traces_seq; [apply discard_traces|]. intros u l2 Hl2. simpl. rewrite app_nil_r.
      by constructor.
Qed.

(** ** Health *)

Lemma inspect_traces m c :
  traces (inspect client m c)
    (λ r l, match r with
            | Err _ => only_calls (CallInspect m c) l
            | Ok observed => ∃ l', l = l' ++ [Answered (CallInspect m c) (Ok observed)]
                                   ∧ only_calls (CallInspect m c) l'
            end).
Proof.
  eapply traces_seq; [apply (tolerant_traces fuel (CallInspect m c))|].
  intros [observed|error] l Hl; simpl; rewrite app_nil_r.
  - by apply (attempts_last (CallInspect m c)).
  - by apply (attempts_only (CallInspect m c)) in Hl as [? _].
Qed.

Lemma monitor_loop_traces rounds m c spec started deadline :
  traces (monitor_loop rounds client index m c spec started deadline) (monitors m c spec).
Proof.
  revert started deadline. induction rounds as [|rounds IH]; intros started deadline; simpl; [done|].
  intros []; simpl; [constructor; constructor|].
  eapply traces_try; [apply inspect_traces| |].
  - intros observed l (l' & -> & Hl) t t'. simpl.
    destruct (classify_health _ _ _ _ _) as [|until|failure] eqn:Hclass; simpl.
    + rewrite app_nil_r. constructor; [done|]. apply classify_ready in Hclass as [?|[? ?]].
      * by left.
      * right. split; [done|]. intros. by eapply no_deadline.
    + intros [[]|]; simpl.
      * eapply traces_mono; [|apply IH]. intros r l2 Hl2. apply monitors_cons; [|done].
        apply Forall_app. split; [done|]. by repeat constructor.
      * rewrite app_nil_r. constructor. apply Forall_app. split; [done|]. by repeat constructor.
    + rewrite app_nil_r. constructor. apply Forall_app. split; [done|]. by repeat constructor.
  - intros error l Hl. by constructor.
Qed.

Lemma settle_traces rounds c started deadline deadline_ms :
  traces (settle_loop rounds index c started deadline deadline_ms) (λ _ l, l = []).
Proof.
  induction rounds as [|rounds IH]; simpl; [done|].
  intros t [[]|]; simpl; [|done]. intros t' t''. by destruct (deadline <=? t'')%N.
Qed.

Lemma monitor_traces m c spec :
  traces (monitor_container fuel client index m c spec) (monitors m c spec).
Proof.
  intros started. simpl. eapply (traces_try _ _ (λ _ l, l = [])).
  - destruct (_ && _); [apply settle_traces|done].
  - intros _ l ->. simpl. apply monitor_loop_traces.
  - intros error l ->. constructor. constructor.
Qed.

Lemma serve_traces m c spec skip :
  traces (serve fuel client index m c spec skip) (serves m c spec skip).
Proof.
  unfold serve.
  eapply (traces_try _ _ (λ r l, skip = true ∧ r = Ok () ∧ l = [] ∨ monitors m c spec r l)).
  - destruct skip; [by left|]. eapply traces_mono; [|apply monitor_traces]. auto.
  - intros [] l Hl answer. simpl. constructor. destruct Hl as [(? & _ & ?)|?]; auto.
  - intros error l [(_ & ? & _)|Hl]; [done|by constructor].
Qed.

Lemma wait_loop_traces rounds dependency started :
  traces (wait_healthy_loop rounds client index dependency started) (waits_healthy dependency).
Proof.
  induction rounds as [|rounds IH]; simpl; [done|].
  intros []; simpl; [constructor; constructor|].
  eapply traces_seq; [apply (tolerant_traces fuel (CallServiceContainers dependency))|].
  intros [listed|error] l Hl; simpl.
  2: { rewrite app_nil_r. constructor. by apply (attempts_only (CallServiceContainers _)) in Hl as []. }
  assert (Hall : only_calls (CallServiceContainers dependency) l)
    by (by apply (attempts_only (CallServiceContainers _)) in Hl as []).
  destruct (List.filter (of_dependency dependency) listed) as [|o containers] eqn:Hf; simpl.
  { rewrite app_nil_r. by constructor. }
  intros t. destruct (try_fold _ _ _) as [[[[c health] until]|]|failure] eqn:Hpoll; simpl.
  - intros t' [[]|]; simpl.
    + eapply traces_mono; [|exact IH]. intros r l2. by apply waits_cons.
    + rewrite app_nil_r. by constructor.
  - rewrite app_nil_r. apply (attempts_last (CallServiceContainers _)) in Hl as (l' & -> & Hl').
    apply poll_all_healthy in Hpoll as [_ Hpoll].
    constructor; rewrite ?Hf; [done|done|]. by rewrite <-Hf in *.
  - rewrite app_nil_r. by constructor.
Qed.

(** ** Replacement *)

Lemma stop_old_traces op :
  op.(repl_spec).(rs_update).(resolved_order) = StopFirst →
  traces (stop_old client index op) (stops_old op).
Proof.
  intros Hfirst. unfold stop_old.
  set (c := CallInspect op.(repl_machine_id) op.(repl_old_container_id)).
  eapply traces_seq; [apply (tolerant_traces fuel c)|].
  intros answer l Hl. apply attempts_only in Hl as [Hl _].
  assert (Hinactive : ∀ r, r ≠ Ok true → stops_old op r l) by (intros; by apply stops_old_inspected).
  assert (Hdone : ∀ r, r ≠ Ok true → traces (S := Progress) (Ret r) (λ b l2, stops_old op b (l ++ l2)))
    by (intros r Hr; simpl; rewrite app_nil_r; auto).
  unfold try_bind. destruct answer as [old|error]; simpl.
  - destruct (is_active_runtime old.(runtime)); [|by apply Hdone]. simpl.
    eapply traces_seq; [apply (tolerant_traces fuel
                                 (CallStop op.(repl_machine_id) op.(repl_old_container_id) None))|].
    intros answer l2 Hl2. simpl. rewrite app_nil_r. by eapply stops_old_stopped.
  - destruct (is_not_found error); by apply Hdone.
Qed.

Lemma start_new_traces op :
  traces (start_new fuel client index namespace op) (starts_new namespace op).
Proof.
  eapply traces_seq; [apply create_traces|]. intros [created|error] l Hl; simpl.
  - eapply traces_seq; [apply serve_traces|]. intros r l2 Hl2. simpl. rewrite app_nil_r.
    by econstructor.
  - rewrite app_nil_r. by constructor.
Qed.

Lemma restore_traces op : traces (restore_old_container client op) (restores op).
Proof.
  apply traces_bind, traces_bind, traces_bind.
  eapply traces_mono; [|apply (tolerant_traces fuel
                                 (CallStart op.(repl_machine_id) op.(repl_old_container_id)))].
  intros [[]|error] l Hl; simpl.
  - intros answer. simpl. rewrite ?app_nil_r. by constructor.
  - rewrite !app_nil_r. by constructor.
Qed.

Lemma stop_new_traces op c :
  traces (stop_new client op c) (λ _ l, stops_new op (Some c) l).
Proof.
  eapply traces_seq.
  - apply (tolerant_ending _ (CallStop op.(repl_machine_id) c
             (Some (default 0%Z (stop_grace_period op.(repl_spec)))))); [done|].
    apply (some_attempts (CallStop _ _ _)), tolerant_traces.
  - intros r l Hl. simpl. rewrite app_nil_r. by destruct Hl.
Qed.

Lemma compensate_traces op old_stopped new error :
  (new = None → is_health_error error = false) →
  traces (compensate client index op old_stopped new error) (compensates op new error old_stopped).
Proof.
  intros Hnew. unfold compensate.
  destruct (negb old_stopped && negb (is_health_error error)) eqn:Hnothing; simpl.
  { apply andb_true_iff in Hnothing as [?%negb_true_iff ?%negb_true_iff]. subst.
    by constructor. }
  eapply (traces_seq _ _ (λ attempt l, (new = None ↔ attempt = None) ∧ stops_new op new l)).
  { destruct new as [c|]; [|done]. eapply traces_seq; [apply stop_new_traces|].
    intros attempt l Hl. simpl. by rewrite app_nil_r. }
  intros attempt l [Hattempt Hl]. destruct old_stopped; simpl in *.
  - eapply traces_seq; [apply restore_traces|]. intros restart l2 Hl2. simpl. rewrite app_nil_r.
    by constructor.
  - apply negb_false_iff in Hnothing. destruct attempt; simpl; rewrite app_nil_r.
    + apply compensates_untouched; [|done|done]. intros ->. by destruct Hattempt as [Hn _]; discriminate (Hn eq_refl).
    + assert (new = None) as -> by (by apply Hattempt). by apply compensates_unstarted.
Qed.

Lemma retire_traces op stop_first :
  stop_first = bool_decide (op.(repl_spec).(rs_update).(resolved_order) = StopFirst) →
  traces (retire_old client index op stop_first) (retires op).
Proof.
  intros ->. set (order := op.(repl_spec).(rs_update).(resolved_order)).
  set (m := op.(repl_machine_id)). set (old := op.(repl_old_container_id)).
  eapply (traces_try _ _
    (λ r l, order = StopFirst ∧ r = Ok () ∧ l = [] ∨ order = StartFirst ∧ stops m old r l)).
  { destruct order eqn:Ho; simpl; [|by left].
    eapply traces_mono; [|apply stop_traces]. by right. }
  - intros [] l1 Hl1. simpl. eapply traces_try; [apply remove_traces| |].
    + intros [] l2 Hl2. eapply traces_mono; [|apply drop_traces]. intros r l3 Hl3.
      apply retires_dropped; [|done|done]. destruct Hl1 as [(? & _ & ?)|]; auto.
    + intros error l2 Hl2. apply retires_unremoved; [|done]. destruct Hl1 as [(? & _ & ?)|]; auto.
  - intros error l1 [(_ & ? & _)|[Ho Hl1]]; [done|]. by apply retires_unstopped.
Qed.

Lemma starts_new_errors op new error l :
  starts_new namespace op (Err (new, error)) l → new = None → is_health_error error = false.
Proof.
  intros Hs ->. inversion Hs as [error' l' Hc|created r l1 l2 Hc Hv Hr]; subst.
  - by inversion Hc; subst.
  - destruct r; simplify_eq.
Qed.

Lemma replace_traces op :
  traces (replace_container fuel client index namespace op) (replaces namespace op).
Proof.
  unfold replace_container.
  eapply (traces_seq _ _ (stops_old op)).
  { case_bool_decide as Ho; [by apply stop_old_traces|]. simpl. apply stops_old_later.
    by destruct (resolved_order _). }
  intros [old_stopped|error] l1 Hl1; cbv beta iota.
  2: { simpl. rewrite app_nil_r. by constructor. }
  eapply traces_seq; [apply start_new_traces|]. intros [[]|[new error]] l2 Hl2; cbv beta iota.
  - eapply traces_seq; [by apply retire_traces|]. intros r l3 Hl3. simpl. rewrite app_nil_r.
    by econstructor.
  - eapply traces_seq; [apply compensate_traces|].
    { by eapply starts_new_errors. }
    intros failure l3 Hl3. simpl. rewrite app_nil_r. by econstructor.
Qed.

(** ** Hooks *)

Lemma sweep_traces olds :
  traces (for_each (λ old, remove_container_op client old.1 old.2) olds) (sweeps olds).
Proof.
  induction olds as [|[m c] olds IH]; cbn [for_each]; [constructor|].
  eapply traces_try; [apply remove_traces| |].
  - intros [] l1 Hl1. eapply traces_mono; [|exact IH]. intros r l2 Hl2. by constructor.
  - intros error l1 Hl1. by constructor.
Qed.

Lemma interrupted_traces m c interruption l :
  only_calls (CallInspect m c) l →
  traces (interrupted client m c interruption) (λ r l2, polls m c r (l ++ l2)).
Proof.
  intros Hl. apply traces_bind, traces_bind.
  eapply traces_mono; [|apply (tolerant_traces fuel (CallStop m c (Some 0%Z)))].
  intros answer l2 Hl2. simpl. rewrite !app_nil_r. by econstructor.
Qed.

Lemma polls_cons m c r l1 l2 :
  only_calls (CallInspect m c) l1 → polls m c r l2 → polls m c r (l1 ++ l2).
Proof.
  intros Hl1 Hp. destruct Hp as [observed l Hl Hr|error l Hl|error l l' r Hl Hr].
  - rewrite app_assoc. constructor; [by apply Forall_app|done].
  - constructor. by apply Forall_app.
  - rewrite app_assoc. econstructor; [by apply Forall_app|done].
Qed.

Lemma raced_inspect_traces deadline m c :
  traces (race true deadline (inspect client m c))
    (λ r l, only_calls (CallInspect m c) l
            ∧ match r with
              | RaceDone (Ok observed) =>
                  ∃ l', l = l' ++ [Answered (CallInspect m c) (Ok observed)]
                        ∧ only_calls (CallInspect m c) l'
              | _ => True
              end).
Proof.
  apply traces_conj.
  - apply (only_traces (λ x, x = CallInspect m c)), only_race.
    apply only_bind; [apply (tolerant_only fuel (CallInspect m c))|done].
  - eapply traces_mono; [|apply traces_race, inspect_traces]. intros [| |[|]] l; naive_solver.
Qed.

Lemma hook_loop_traces rounds m c started deadline deadline_ms :
  traces (hook_loop client index rounds m c started deadline deadline_ms) (polls m c).
Proof.
  induction rounds as [|rounds IH]; [done|]. cbn [hook_loop]. intros t. cbn.
  eapply traces_seq; [apply raced_inspect_traces|].
  intros [| |[observed|error]] l [Hl Hobs]; cbv beta iota.
  - by apply interrupted_traces.
  - by apply interrupted_traces.
  - destruct observed.(runtime) as [| | | |code| | |] eqn:Hr.
    5: { simpl. rewrite app_nil_r. destruct (Z.eqb_spec code 0) as [->|]; [|by constructor].
         destruct Hobs as (l' & -> & Hl'). by constructor. }
    all: intros t'; cbn; intros [[[]|]|]; cbn;
      [eapply traces_mono; [|exact IH]; intros r l2; by apply polls_cons
      |by apply interrupted_traces|by apply interrupted_traces].
  - simpl. rewrite app_nil_r. by constructor.
Qed.

Lemma hook_traces m spec olds :
  traces (run_hook fuel client index namespace m spec olds) (hooks namespace m spec olds).
Proof.
  unfold run_hook. cbn [running update bind traces].
  eapply traces_try; [apply sweep_traces| |by constructor].
  intros [] l1 Hl1. eapply traces_try; [apply create_traces| |].
  - intros created l2 Hl2 started. cbn.
    eapply traces_mono; [|apply hook_loop_traces]. intros r l3 Hl3. by econstructor.
  - intros error l2 Hl2. by constructor.
Qed.

(** ** Every operation *)

Lemma run_traces m spec skip :
  traces (let! _ := run_container fuel client index namespace m spec skip in Ret (Ok ()))
    (runs namespace m spec skip).
Proof.
  apply traces_bind. eapply traces_try; [apply create_traces| |].
  - intros created l1 Hl1. eapply traces_try; [apply serve_traces| |].
    + intros [] l2 Hl2. simpl. rewrite !app_nil_r. by econstructor.
    + intros error l2 Hl2. simpl. rewrite !app_nil_r. by econstructor.
  - intros error l1 Hl1. simpl. rewrite !app_nil_r. by constructor.
Qed.

Lemma stop_then_traces m c (next : Exec (Result unit ExecutionError)) Q :
  traces next Q →
  traces (let! _ := stop_container_op client m c in next) (stops_then m c Q).
Proof.
  intros Hnext. eapply traces_try; [apply stop_traces| |].
  - intros [] l1 Hl1. eapply traces_mono; [|exact Hnext]. intros r l2 Hl2. by constructor.
  - intros error l1 Hl1. by constructor.
Qed.

Lemma ordinary_traces p (Q : Result unit ExecutionError → Log → Prop)
    (R : Result unit OperationFailure → Log → Prop) :
  traces p Q → (∀ r l, Q r l → R (map_err OrdinaryFailure r) l) → traces (ordinary p) R.
Proof.
  intros Hp HR. eapply traces_seq; [exact Hp|]. intros r l Hl. simpl. rewrite app_nil_r. auto.
Qed.

Lemma execute_operation_traces operation :
  traces (execute_operation fuel details_with_machine client index namespace operation)
    (executes namespace operation).
Proof.
  unfold execute_operation. destruct operation as [m specs|m d dependency|m spec skip|m c purpose
    |m c|op|m c|m spec olds|id]; cbn [running update bind traces].
  - intros [names|error]; simpl; (constructor; [done|naive_solver]).
  - eapply ordinary_traces; [intros t; apply wait_loop_traces|by constructor].
  - eapply ordinary_traces; [apply run_traces|by constructor].
  - eapply ordinary_traces; [apply stop_then_traces|by constructor].
    destruct purpose; [apply drop_traces|done].
  - eapply ordinary_traces; [apply stop_then_traces|by constructor]. cbn.
    eapply traces_try; [apply remove_traces| |].
    + intros [] l1 Hl1. eapply traces_mono; [|apply drop_traces]. intros r l2 Hl2. by constructor.
    + intros error l1 Hl1. by constructor.
  - eapply traces_mono; [|apply replace_traces]. by constructor.
  - eapply ordinary_traces; [apply stop_traces|by constructor].
  - eapply ordinary_traces; [apply hook_traces|by constructor].
  - eapply ordinary_traces; [|by constructor]. apply tolerant_ending; [done|].
    apply (some_attempts (CallRemoveVolume id)), tolerant_traces.
Qed.
End Refinement.
