(* ===== verification/ExecutorSafety.v ===== *)
(** * Safety of an execution

    Read off the grammar of [ExecutorTraces]: a replacement keeps the Service
    serving or restores it, an operation touches only what it names and what it
    created, a plan is executed in order until its first failure, and the rows
    an operator sees agree with the outcome. *)

From S2P Require Import Prelude BTree Strings Values Machines StorageCapacity Volumes.
From S2P Require Import ServiceGraph Spec Services Deploy Eligibility Placement VolumePlan.
From S2P Require Import Planner Preview Process Execution Health Executor ExecutorTraces.

Open Scope string_scope.
Open Scope list_scope.
Open Scope nat_scope.

(** ** Calls in a log *)

Definition answered_ok (x : Logged (C := Call)) : bool :=
  match x with Answered c r => is_ok (r : Result (payload c) RpcError) | Abandoned _ => false end.

(** The call was made and succeeded. *)
Definition acknowledged (c : Call) (l : Log) : Prop :=
  ∃ x, x ∈ l ∧ called x = c ∧ answered_ok x = true.

Definition created_by (x : Logged (C := Call)) : option ContainerId :=
  match x with
  | Answered (CallCreate _ _ _ _ _) (Ok created) => Some created.(created_container_id)
  | _ => None
  end.

Definition created_ids (l : Log) : list ContainerId := omap created_by l.

(** [P before x] at every call [x]. *)
Fixpoint each (P : Log → Logged (C := Call) → Prop) (before l : Log) : Prop :=
  match l with
  | [] => True
  | x :: l' => P before x ∧ each P (before ++ [x]) l'
  end.

Lemma each_app P before l1 l2 :
  each P before (l1 ++ l2) ↔ each P before l1 ∧ each P (before ++ l1) l2.
Proof.
  revert before. induction l1 as [|x l1 IH]; intros before; simpl.
  - rewrite app_nil_r. naive_solver.
  - rewrite IH, <-app_assoc. simpl. naive_solver.
Qed.

Lemma each_at P l pre x post : each P [] l → l = pre ++ x :: post → P pre x.
Proof. intros H ->. apply each_app in H as [_ H]. simpl in H. by destruct H. Qed.

Section Monotone.
Context (P : Log → Logged (C := Call) → Prop).
Hypothesis P_more : ∀ before before' x, before ⊆ before' → P before x → P before' x.

Lemma each_all before l : (∀ x, x ∈ l → P before x) → each P before l.
Proof using P_more.
  revert before. induction l as [|x l IH]; intros before Hl; simpl; [done|].
  split; [apply Hl; set_solver|]. apply IH. intros y Hy.
  eapply P_more; [|apply Hl]; set_solver.
Qed.

Lemma each_more before before' l : before ⊆ before' → each P before l → each P before' l.
Proof using P_more.
  revert before before'. induction l as [|x l IH]; intros before before' Hb; simpl; [done|].
  intros [Hx Hl]. split; [by eapply P_more|]. eapply IH; [|exact Hl]. set_solver.
Qed.
End Monotone.

Lemma only_calls_in c l x : only_calls c l → x ∈ l → called x = c.
Proof. intros Hl Hx. by eapply (proj1 (Forall_forall _ _) Hl). Qed.

Lemma attempts_in c r l x : attempts c r l → x ∈ l → called x = c.
Proof. intros [Hl _]%attempts_only. by apply only_calls_in. Qed.

(** Only the last attempt can have succeeded. *)
Lemma attempts_ok c r l x : attempts c r l → x ∈ l → answered_ok x = true → is_ok r = true.
Proof.
  induction 1 as [r|error r l He Ha IH]; intros Hx Hok.
  - apply list_elem_of_singleton in Hx as ->. done.
  - apply elem_of_cons in Hx as [->|Hx]; [done|auto].
Qed.

Lemma acknowledged_app c l1 l2 :
  acknowledged c (l1 ++ l2) ↔ acknowledged c l1 ∨ acknowledged c l2.
Proof. unfold acknowledged. set_solver. Qed.

Lemma acknowledged_only c c' l : only_calls c' l → acknowledged c l → c = c'.
Proof. intros Hl (x & Hx & <- & _). by eapply only_calls_in. Qed.

(** ** Confinement *)

(** The Containers an operation names. *)
Definition op_targets (op : DeployOperation) : list (MachineId * ContainerId) :=
  match op with
  | StopContainer m c _ | RemoveContainer m c | StopHook m c => [(m, c)]
  | ReplaceContainer r => [(r.(repl_machine_id), r.(repl_old_container_id))]
  | RunHook _ _ olds => olds
  | PrepareVolumes _ _ | WaitHealthy _ _ _ | RunContainer _ _ _ | RemoveVolume _ => []
  end.

(** What an operation may ask of a Machine, once it has created [created]. *)
Definition permitted (namespace : Namespace) (op : DeployOperation) (created : list ContainerId)
    (c : Call) : Prop :=
  match c with
  | CallWaitObservations _ _ _ | CallServiceContainers _ | CallInspect _ _ => True
  | CallPrepareVolumes m specs => op = PrepareVolumes m specs
  | CallCreate m _ namespace' spec _ =>
      namespace' = namespace ∧ m = op_machine_id op ∧ op_spec op = Some spec
  | CallStart m c | CallStop m c _ | CallRemove m c =>
      (m, c) ∈ op_targets op ∨ m = op_machine_id op ∧ c ∈ created
  | CallRemoveVolume id => op = RemoveVolume id
  end.

Definition confined (namespace : Namespace) (op : DeployOperation) : Log → Log → Prop :=
  each (λ before x, permitted namespace op (created_ids before) (called x)).

Lemma created_more l l' : l ⊆ l' → created_ids l ⊆ created_ids l'.
Proof.
  unfold created_ids. intros Hl c (x & Hx & Hc)%list_elem_of_omap. apply list_elem_of_omap. eauto.
Qed.

Lemma permitted_more namespace op created created' c :
  created ⊆ created' → permitted namespace op created c → permitted namespace op created' c.
Proof. intros Hc. destruct c; simpl; intros; intuition auto. Qed.

Section Confinement.
Context (namespace : Namespace) (op : DeployOperation).

Lemma confined_all before l :
  (∀ x, x ∈ l → permitted namespace op (created_ids before) (called x)) →
  confined namespace op before l.
Proof.
  apply (each_all (λ before x, permitted namespace op (created_ids before) (called x))).
  intros b b' x Hb. apply permitted_more, created_more, Hb.
Qed.

Lemma confined_more before before' l :
  before ⊆ before' → confined namespace op before l → confined namespace op before' l.
Proof.
  apply (each_more (λ before x, permitted namespace op (created_ids before) (called x))).
  intros b b' x Hb. apply permitted_more, created_more, Hb.
Qed.

Lemma confined_only before c l :
  only_calls c l → permitted namespace op (created_ids before) c → confined namespace op before l.
Proof. intros Hl Hc. apply confined_all. intros x Hx. by rewrite (only_calls_in c l x). Qed.

Lemma confined_attempts before c r l :
  attempts c r l → permitted namespace op (created_ids before) c → confined namespace op before l.
Proof. intros [Hl _]%attempts_only. by apply confined_only. Qed.

Lemma confined_app before l1 l2 :
  confined namespace op before l1 → confined namespace op (before ++ l1) l2 →
  confined namespace op before (l1 ++ l2).
Proof. intros. by apply each_app. Qed.
End Confinement.

Section OperationConfined.
Context (namespace : Namespace) (op : DeployOperation).
Local Abbreviation confined := (confined namespace op).
Local Abbreviation permitted := (permitted namespace op).

Lemma discards_confined before m kind spec created l :
  discards m kind spec created l → m = op_machine_id op →
  created.(created_container_id) ∈ created_ids before → confined before l.
Proof.
  unfold discards. destruct (owns_created kind spec); [|by intros ->].
  intros [r Hr] -> Hc. eapply confined_attempts; [exact Hr|]. right. done.
Qed.

Lemma creates_confined before m kind spec replacing r l :
  creates namespace m kind spec replacing r l → m = op_machine_id op → op_spec op = Some spec →
  confined before l.
Proof.
  intros Hl -> Hspec.
  assert (Hcreate : permitted (created_ids before)
    (CallCreate (op_machine_id op) kind namespace spec replacing)) by done.
  assert (Hmine : ∀ created, created.(created_container_id) ∈ created_ids (before ++
    [Answered (CallCreate (op_machine_id op) kind namespace spec replacing) (Ok created)])).
  { intros created. apply list_elem_of_omap. eexists. split; [apply elem_of_app; right; constructor|].
    done. }
  destruct Hl as [answer error Herr|created l Hd|created error l1 l2 Hs Hd|created l Hs].
  - by split.
  - split; [done|]. eapply discards_confined; eauto.
  - split; [done|]. apply confined_app.
    + eapply confined_attempts; [exact Hs|]. right. done.
    + eapply discards_confined; [done|done|]. eapply created_more; [|apply Hmine]. set_solver.
  - split; [done|]. eapply confined_attempts; [exact Hs|]. right. done.
Qed.

Lemma creates_id m kind spec replacing created l :
  creates namespace m kind spec replacing (Ok created) l →
  created.(created_container_id) ∈ created_ids l.
Proof.
  inversion 1; subst. apply list_elem_of_omap. eexists. split; [constructor|]. done.
Qed.

Lemma monitors_confined before m c spec r l : monitors m c spec r l → confined before l.
Proof.
  intros [error l' Hl|observed l' Hl _]; [by eapply confined_only|].
  apply confined_app; [by eapply confined_only|]. by split.
Qed.

Lemma serves_confined before m c spec skip r l : serves m c spec skip r l → confined before l.
Proof.
  intros [error l' Hl|answer l' Hl]; [by eapply monitors_confined|].
  apply confined_app; [|by split]. destruct Hl as [[_ ->]|Hl]; [done|by eapply monitors_confined].
Qed.

Lemma ends_confined before action c r l :
  ends action c r l → permitted (created_ids before) c → confined before l.
Proof. intros [l' Hl _|error l' Hl _]; by apply confined_only. Qed.

Lemma drops_confined before c r l : drops c r l → confined before l.
Proof. intros []. by split. Qed.

Lemma sweeps_confined before olds r l :
  sweeps olds r l → olds ⊆ op_targets op → confined before l.
Proof.
  intros Hs. revert before.
  induction Hs as [|m c rest error l Hl|m c rest r l1 l2 Hl1 Hl2 IH]; intros before Hsub; [done| |].
  - eapply ends_confined; [exact Hl|]. left. set_solver.
  - apply confined_app; [|apply IH; set_solver]. eapply ends_confined; [exact Hl1|]. left. set_solver.
Qed.

Lemma polls_confined before m c r l :
  polls m c r l → m = op_machine_id op → c ∈ created_ids before → confined before l.
Proof.
  intros Hp -> Hc. destruct Hp as [observed l Hl _|error l Hl|error l1 l2 r Hl1 Hl2].
  - apply confined_app; [by eapply confined_only|by split].
  - by eapply confined_only.
  - apply confined_app; [by eapply confined_only|]. eapply confined_attempts; [exact Hl2|].
    right. split; [done|]. eapply created_more; [|exact Hc]. set_solver.
Qed.

(** An operation that creates one Container and goes on with it. *)
Lemma creates_then before m kind spec replacing created l1 l2 :
  creates namespace m kind spec replacing (Ok created) l1 → m = op_machine_id op →
  op_spec op = Some spec →
  (created.(created_container_id) ∈ created_ids (before ++ l1) → confined (before ++ l1) l2) →
  confined before (l1 ++ l2).
Proof.
  intros Hl1 Hm Hspec Hl2. apply confined_app; [by eapply creates_confined|]. apply Hl2.
  eapply created_more; [|by eapply creates_id]. set_solver.
Qed.

Lemma runs_confined before m spec skip r l :
  runs namespace m spec skip r l → m = op_machine_id op → op_spec op = Some spec →
  confined before l.
Proof.
  intros [error l' Hl|created r' l1 l2 Hl1 Hl2] Hm Hspec; [by eapply creates_confined|].
  eapply creates_then; [done..|]. intros _. by eapply serves_confined.
Qed.

Lemma hooks_confined before m spec olds r l :
  hooks namespace m spec olds r l → m = op_machine_id op → op_spec op = Some spec →
  olds ⊆ op_targets op → confined before l.
Proof.
  intros [error l' Hl|error l1 l2 Hl1 Hl2|created r' l1 l2 l3 Hl1 Hl2 Hl3] Hm Hspec Hsub.
  - by eapply sweeps_confined.
  - apply confined_app; [by eapply sweeps_confined|by eapply creates_confined].
  - apply confined_app; [by eapply sweeps_confined|].
    eapply creates_then; [done..|]. intros Hc. by eapply polls_confined.
Qed.

Lemma stops_then_confined before m c next r l :
  stops_then m c next r l → (m, c) ∈ op_targets op →
  (∀ before r l, next r l → confined before l) → confined before l.
Proof.
  intros [error l' Hl|r' l1 l2 Hl1 Hl2] Ht Hnext.
  - eapply ends_confined; [exact Hl|]. by left.
  - apply confined_app; [eapply ends_confined; [exact Hl1|by left]|by eapply Hnext].
Qed.
End OperationConfined.

Section ReplacementConfined.
Context (namespace : Namespace) (r : ReplacementOperation).
Local Abbreviation op := (ReplaceContainer r).

Lemma stops_old_confined before res l : stops_old r res l → confined namespace op before l.
Proof.
  intros [Ho|res' l' Ho _ Hl|res' answer l1 l2 Ho Hl1 Hl2 _]; [done|by eapply confined_only|].
  apply confined_app; [by eapply confined_only|]. eapply confined_attempts; [exact Hl2|].
  left. constructor.
Qed.

Lemma starts_new_confined before res l :
  starts_new namespace r res l →
  confined namespace op before l
  ∧ ∀ c e, res = Err (Some c, e) → c ∈ created_ids (before ++ l).
Proof.
  intros [error l' Hl|created res' l1 l2 Hl1 Hl2].
  - split; [by eapply creates_confined|done].
  - split.
    + eapply creates_then; [done..|]. intros _. by eapply serves_confined.
    + intros c e Hres. destruct res'; simplify_eq/=.
      eapply created_more; [|by eapply creates_id]. set_solver.
Qed.

Lemma restores_confined before res l : restores r res l → confined namespace op before l.
Proof.
  intros [error l' Hl|answer l' Hl].
  - eapply confined_attempts; [exact Hl|]. left. constructor.
  - apply confined_app; [|by split]. eapply confined_attempts; [exact Hl|]. left. constructor.
Qed.

Lemma stops_new_confined before new l :
  stops_new r new l → (∀ c, new = Some c → c ∈ created_ids before) →
  confined namespace op before l.
Proof.
  destruct new as [c|]; simpl; [|by intros ->].
  intros [Hl _] Hc. eapply confined_only; [exact Hl|]. right. auto.
Qed.

Lemma compensates_confined before new error old_stopped failure l :
  compensates r new error old_stopped failure l →
  (∀ c, new = Some c → c ∈ created_ids before) → confined namespace op before l.
Proof.
  intros [He|attempt l' Hn He Hl|l' Hn He Hl|attempt restart l1 l2 Hl1 Hl2 _] Hc; [done| | |].
  - by eapply stops_new_confined.
  - by eapply stops_new_confined.
  - apply confined_app; [by eapply stops_new_confined|by eapply restores_confined].
Qed.

Lemma retires_confined before res l : retires r res l → confined namespace op before l.
Proof.
  assert (Hstop : ∀ before res l,
    stops r.(repl_machine_id) r.(repl_old_container_id) res l → confined namespace op before l)
    by (intros b res' l' Hl; eapply ends_confined; [exact Hl|left; constructor]).
  assert (Hremove : ∀ before res l,
    removes r.(repl_machine_id) r.(repl_old_container_id) res l → confined namespace op before l)
    by (intros b res' l' Hl; eapply ends_confined; [exact Hl|left; constructor]).
  intros [error l' _ Hl|error l1 l2 Hl1 Hl2|res' l1 l2 l3 Hl1 Hl2 Hl3]; [by eapply Hstop| |].
  - apply confined_app; [|by eapply Hremove]. destruct Hl1 as [[_ ->]|[_ Hl1]]; [done|eauto].
  - apply confined_app; [destruct Hl1 as [[_ ->]|[_ Hl1]]; [done|by eapply Hstop]|].
    apply confined_app; [by eapply Hremove|by eapply drops_confined].
Qed.

Lemma replaces_confined res l : replaces namespace r res l → confined namespace op [] l.
Proof.
  intros [error l' Hl|old new error failure l1 l2 l3 Hl1 Hl2 Hl3|old res' l1 l2 l3 Hl1 Hl2 Hl3].
  - by eapply stops_old_confined.
  - destruct (starts_new_confined ([] ++ l1) _ _ Hl2) as [Hc Hnew].
    apply confined_app; [by eapply stops_old_confined|]. apply confined_app; [done|].
    eapply compensates_confined; [exact Hl3|]. intros c ->. by eapply Hnew.
  - apply confined_app; [by eapply stops_old_confined|].
    apply confined_app; [by apply starts_new_confined with (res := Ok ())|].
    by eapply retires_confined.
Qed.
End ReplacementConfined.

Lemma executes_confined namespace op res l :
  executes namespace op res l → confined namespace op [] l.
Proof.
  intros Hl. destruct Hl as [m specs answer res|m d dependency res l Hl|m spec skip res l Hl
    |m c purpose res l Hl|m c res l Hl|r res l Hl|m c res l Hl|m spec olds res l Hl|id res l Hl].
  - by split.
  - destruct Hl as [error l Hl|listed l Hl _ _]; [by eapply confined_only|].
    apply confined_app; [by eapply confined_only|by split].
  - by eapply runs_confined.
  - eapply stops_then_confined; [exact Hl|constructor|]. intros before r l'.
    destruct purpose; [apply drops_confined|by intros [_ ->]].
  - eapply stops_then_confined; [exact Hl|constructor|].
    intros before r l' [error l1 Hl1|r' l1 l2 Hl1 Hl2].
    + eapply ends_confined; [exact Hl1|]. left. constructor.
    + apply confined_app; [eapply ends_confined; [exact Hl1|left; constructor]|].
      by eapply drops_confined.
  - by eapply replaces_confined.
  - eapply ends_confined; [exact Hl|]. left. constructor.
  - by eapply hooks_confined.
  - by eapply ends_confined.
Qed.

(** ** Replacement *)

Section Replacement.
Context (namespace : Namespace) (op : ReplacementOperation).
Local Abbreviation m := op.(repl_machine_id).
Local Abbreviation old := op.(repl_old_container_id).
Local Abbreviation order := op.(repl_spec).(rs_update).(resolved_order).

(** The new Container was created and every observer saw it serve. *)
Definition new_serves (l : Log) : Prop :=
  ∃ x c, x ∈ l ∧ created_by x = Some c
    ∧ called x = CallCreate m KindServiceContainer namespace op.(repl_spec) (Some old)
    ∧ acknowledged (CallWaitObservations [c] Serving DeployToken) l.

(** Calls that take the old Container out of service. *)
Definition ends_old (x : Logged (C := Call)) : Prop :=
  called x = CallRemove m old ∨ order = StartFirst ∧ ∃ grace, called x = CallStop m old grace.

(** Docker mints a new id for a new Container. *)
Definition creates_fresh (l : Log) : Prop := old ∉ created_ids l.

Lemma new_serves_more l l' : l ⊆ l' → new_serves l → new_serves l'.
Proof.
  intros Hl (x & c & Hx & Hc & Hcall & (y & Hy & Hw)). exists x, c.
  split_and!; [auto|done|done|]. exists y. auto.
Qed.

Definition kept : Log → Log → Prop := each (λ before x, ends_old x → new_serves before).

Lemma kept_serving before l : new_serves before → kept before l.
Proof.
  intros Hs. apply (each_all (λ before x, ends_old x → new_serves before)); [|auto].
  intros b b' x Hb Hx He. by eapply new_serves_more, Hx.
Qed.

Lemma kept_harmless before l : (∀ x, x ∈ l → ¬ ends_old x) → kept before l.
Proof.
  intros Hl. apply (each_all (λ before x, ends_old x → new_serves before)).
  - intros b b' x Hb Hx He. by eapply new_serves_more, Hx.
  - intros x Hx He. by apply Hl in Hx.
Qed.

Lemma kept_app before l1 l2 : kept before (l1 ++ l2) ↔ kept before l1 ∧ kept (before ++ l1) l2.
Proof. apply each_app. Qed.

(** A call on anything but the old Container is harmless. *)
Definition spares (c : Call) : Prop :=
  match c with
  | CallRemove m' c' => (m', c') ≠ (m, old)
  | CallStop m' c' _ => (m', c') ≠ (m, old) ∨ order = StopFirst
  | _ => True
  end.

Lemma spares_harmless x : spares (called x) → ¬ ends_old x.
Proof.
  unfold ends_old, spares. intros Hs [He|[Ho [g He]]]; rewrite He in Hs; [done|].
  destruct Hs as [?|Hs]; [done|]. by rewrite Ho in Hs.
Qed.

Lemma spared_only before c l : only_calls c l → spares c → kept before l.
Proof.
  intros Hl Hc. apply kept_harmless. intros x Hx. apply spares_harmless.
  by rewrite (only_calls_in c l x).
Qed.

Lemma spared_attempts before c r l : attempts c r l → spares c → kept before l.
Proof. intros [Hl _]%attempts_only. by apply spared_only. Qed.

Lemma stops_old_kept before r l : stops_old op r l → kept before l.
Proof.
  intros [Ho|r' l' Ho _ Hl|r' answer l1 l2 Ho Hl1 Hl2 _]; [done|by eapply spared_only|].
  apply kept_app. split; [by eapply spared_only|]. eapply spared_attempts; [exact Hl2|]. by right.
Qed.

Lemma fresh_app l1 l2 : creates_fresh (l1 ++ l2) ↔ creates_fresh l1 ∧ creates_fresh l2.
Proof. unfold creates_fresh, created_ids. rewrite omap_app, not_elem_of_app. done. Qed.

Lemma fresh_created x c l : creates_fresh l → x ∈ l → created_by x = Some c → c ≠ old.
Proof. intros Hf Hx Hc ->. apply Hf, list_elem_of_omap. eauto. Qed.

Lemma creates_kept before r l :
  creates namespace m KindServiceContainer op.(repl_spec) (Some old) r l → creates_fresh l →
  kept before l.
Proof.
  intros Hl Hf. apply kept_harmless. intros x Hx. apply spares_harmless.
  assert (Hdisc : ∀ created l', discards m KindServiceContainer op.(repl_spec) created l' →
    created.(created_container_id) ≠ old → x ∈ l' → spares (called x)).
  { intros created l' Hd Hne Hx'. unfold discards in Hd. destruct (owns_created _ _).
    - destruct Hd as [r' Hr]. rewrite (attempts_in _ _ _ _ Hr Hx'). simpl. naive_solver.
    - subst. set_solver. }
  destruct Hl as [answer error _|created l Hd|created error l1 l2 Hs Hd|created l Hs].
  - by apply list_elem_of_singleton in Hx as ->.
  - apply elem_of_cons in Hx as [->|Hx]; [done|]. eapply Hdisc; [exact Hd| |done].
    eapply fresh_created; [exact Hf|constructor|done].
  - apply elem_of_cons in Hx as [->|[Hx|Hx]%elem_of_app]; [done| |].
    + by rewrite (attempts_in _ _ _ _ Hs Hx).
    + eapply Hdisc; [exact Hd| |done]. eapply fresh_created; [exact Hf|constructor|done].
  - apply elem_of_cons in Hx as [->|Hx]; [done|]. by rewrite (attempts_in _ _ _ _ Hs Hx).
Qed.

Lemma monitors_kept before c spec r l : monitors m c spec r l → kept before l.
Proof.
  intros [error l' Hl|observed l' Hl _]; [by eapply spared_only|].
  apply kept_app. split; [by eapply spared_only|]. by apply (spared_only _ (CallInspect m c)); [repeat constructor|].
Qed.

Lemma serves_kept before c skip r l : serves m c op.(repl_spec) skip r l → kept before l.
Proof.
  intros [error l' Hl|answer l' Hl]; [by eapply monitors_kept|].
  apply kept_app. split; [destruct Hl as [[_ ->]|Hl]; [done|by eapply monitors_kept]|].
  by apply (spared_only _ (CallWaitObservations [c] Serving DeployToken)); [repeat constructor|].
Qed.

Lemma starts_new_kept before r l :
  starts_new namespace op r l → creates_fresh l → kept before l.
Proof.
  intros [error l' Hl|created r' l1 l2 Hl1 Hl2] Hf; [by eapply creates_kept|].
  apply fresh_app in Hf as [Hf _]. apply kept_app.
  split; [by eapply creates_kept|by eapply serves_kept].
Qed.

Lemma starts_new_serves l : starts_new namespace op (Ok ()) l → new_serves l.
Proof.
  inversion 1 as [|created r l1 l2 Hl1 Hl2 Hr]; subst. destruct r as [[]|]; simplify_eq/=.
  inversion Hl1; subst. inversion Hl2 as [|answer l3 _ Ha]; subst.
  destruct answer as [[]|]; simplify_eq/=.
  eexists _, created.(created_container_id). split_and!; [by left|done|done|].
  eexists. split; [right; apply elem_of_app; right; apply elem_of_app; right; constructor|done].
Qed.

Lemma starts_new_id c e l :
  starts_new namespace op (Err (Some c, e)) l → creates_fresh l → c ≠ old.
Proof.
  inversion 1 as [|created r l1 l2 Hl1 Hl2 Hr]; subst. intros [Hf _]%fresh_app.
  destruct r; simplify_eq/=. inversion Hl1; subst. by eapply fresh_created; [exact Hf|constructor|].
Qed.

Lemma compensates_kept before new error old_stopped failure l :
  compensates op new error old_stopped failure l → (∀ c, new = Some c → c ≠ old) → kept before l.
Proof.
  intros Hc Hne.
  assert (Hstop : ∀ before l, stops_new op new l → kept before l).
  { intros b l'. destruct new as [c|]; simpl; [|by intros ->].
    intros [Hl' _]. eapply spared_only; [exact Hl'|]. left. naive_solver. }
  destruct Hc as [He|attempt l Hn He Hl|l Hn He Hl|attempt restart l1 l2 Hl1 Hl2 _];
    [done|by apply Hstop|by apply Hstop|].
  apply kept_app. split; [by apply Hstop|]. destruct Hl2 as [error' l Hl|answer l Hl].
  - by eapply spared_attempts.
  - apply kept_app. split; [by eapply spared_attempts|].
    by apply (spared_only _ (CallWaitObservations [old] Serving FreshToken)); [repeat constructor|].
Qed.

Lemma replaces_kept r l : replaces namespace op r l → creates_fresh l → kept [] l.
Proof.
  intros [error l' Hl|b new error failure l1 l2 l3 Hl1 Hl2 Hl3|b r' l1 l2 l3 Hl1 Hl2 Hl3] Hf.
  - by eapply stops_old_kept.
  - apply fresh_app in Hf as [_ [Hf _]%fresh_app]. apply kept_app.
    split; [by eapply stops_old_kept|]. apply kept_app. split; [by eapply starts_new_kept|].
    eapply compensates_kept; [exact Hl3|]. intros c ->. by eapply starts_new_id.
  - apply fresh_app in Hf as [_ [Hf _]%fresh_app]. apply kept_app.
    split; [by eapply stops_old_kept|]. apply kept_app. split; [by eapply starts_new_kept|].
    apply kept_serving. eapply new_serves_more; [|by apply starts_new_serves]. set_solver.
Qed.

(** Where a successful stop of the old Container can come from. *)
Lemma not_stopping_new r l :
  starts_new namespace op r l → ¬ acknowledged (CallStop m old None) l.
Proof.
  assert (Hcreates : ∀ r l, creates namespace m KindServiceContainer op.(repl_spec) (Some old) r l →
    ∀ x, x ∈ l → called x ≠ CallStop m old None).
  { intros r' l' Hl x Hx.
    assert (Hdisc : ∀ created l', discards m KindServiceContainer op.(repl_spec) created l' →
      x ∈ l' → called x ≠ CallStop m old None).
    { intros created l'' Hd Hx'. unfold discards in Hd. destruct (owns_created _ _); [|set_solver].
      destruct Hd as [? Hr]. by rewrite (attempts_in _ _ _ _ Hr Hx'). }
    destruct Hl as [? ? _|? ? Hd|? ? ? ? Hs Hd|? ? Hs].
    - by apply list_elem_of_singleton in Hx as ->.
    - apply elem_of_cons in Hx as [->|Hx]; [done|eauto].
    - apply elem_of_cons in Hx as [->|[Hx|Hx]%elem_of_app]; [done| |eauto].
      by rewrite (attempts_in _ _ _ _ Hs Hx).
    - apply elem_of_cons in Hx as [->|Hx]; [done|]. by rewrite (attempts_in _ _ _ _ Hs Hx). }
  assert (Hmon : ∀ c r l, monitors m c op.(repl_spec) r l →
    ∀ x, x ∈ l → called x ≠ CallStop m old None).
  { intros c r' l' [? ? Hl|? ? Hl _] x Hx.
    - by rewrite (only_calls_in _ _ _ Hl Hx).
    - apply elem_of_app in Hx as [Hx| ->%list_elem_of_singleton]; [|done].
      by rewrite (only_calls_in _ _ _ Hl Hx). }
  intros Hs (x & Hx & Hc & _). revert Hx Hc.
  destruct Hs as [error l Hl|created r' l1 l2 Hl1 Hl2]; [by apply (Hcreates _ _ Hl)|].
  intros [Hx|Hx]%elem_of_app; [by apply (Hcreates _ _ Hl1)|].
  destruct Hl2 as [? ? Hl2|answer l2 Hl2]; [by apply (Hmon _ _ _ Hl2)|].
  apply elem_of_app in Hx as [Hx| ->%list_elem_of_singleton]; [|done].
  destruct Hl2 as [[_ ->]|Hl2]; [set_solver|by apply (Hmon _ _ _ Hl2)].
Qed.

Lemma stops_old_acknowledged r l :
  stops_old op r l → acknowledged (CallStop m old None) l → r = Ok true ∧ order = StopFirst.
Proof.
  intros [Ho|r' l' Ho _ Hl|r' answer l1 l2 Ho Hl1 Hl2 ->] (x & Hx & Hc & Hok).
  - set_solver.
  - by rewrite (only_calls_in _ _ _ Hl Hx) in Hc.
  - apply elem_of_app in Hx as [Hx|Hx]; [by rewrite (only_calls_in _ _ _ Hl1 Hx) in Hc|].
    pose proof (attempts_ok _ _ _ _ Hl2 Hx Hok) as Ha. by destruct answer.
Qed.

Lemma stops_new_other new l : stops_new op new l → ¬ acknowledged (CallStop m old None) l.
Proof.
  destruct new; simpl; [|intros -> (? & ? & _); set_solver].
  intros [Hl _] (x & Hx & Hc & _). by rewrite (only_calls_in _ _ _ Hl Hx) in Hc.
Qed.

Lemma restores_acknowledged restart l :
  restores op restart l →
  ¬ acknowledged (CallStop m old None) l ∧ (∃ x, x ∈ l ∧ called x = CallStart m old)
  ∧ (restart = Restarted ↔ acknowledged (CallWaitObservations [old] Serving FreshToken) l).
Proof.
  assert (Hstart : ∀ r l, attempts (CallStart m old) r l →
    (∃ x, x ∈ l ∧ called x = CallStart m old)
    ∧ ∀ c, c ≠ CallStart m old → ¬ acknowledged c l).
  { intros r l' Hl'. split.
    - apply attempts_last in Hl' as (l2 & -> & _). eexists.
      split; [apply elem_of_app; right; constructor|done].
    - intros c Hne (x & Hx & Hc & _). by rewrite (attempts_in _ _ _ _ Hl' Hx) in Hc. }
  intros [error l' Hl|answer l' Hl]; apply Hstart in Hl as [(x & Hx & Hc) Hno].
  - split; [by apply Hno|]. split; [eauto|]. split; [done|].
    intros Ha. by apply Hno in Ha.
  - split; [|split].
    + intros [Ha|(y & ->%list_elem_of_singleton & ? & _)]%acknowledged_app; [|done].
      by apply Hno in Ha.
    + exists x. set_solver.
    + rewrite acknowledged_app. split.
      * intros Hr. right. eexists. split; [constructor|]. split; [done|]. by destruct answer.
      * intros [Ha|(y & ->%list_elem_of_singleton & _ & Hok)]; [by apply Hno in Ha|].
        by destruct answer as [[]|].
Qed.

Lemma replaces_restored r l :
  replaces namespace op r l → acknowledged (CallStop m old None) l → ¬ new_serves l →
  order = StopFirst ∧ ∃ error attempt restart pre post,
    r = Err (ReplacementFailure error (OldStopped attempt restart)) ∧ l = pre ++ post
    ∧ acknowledged (CallStop m old None) pre
    ∧ (∃ x, x ∈ post ∧ called x = CallStart m old)
    ∧ (restart = Restarted ↔ acknowledged (CallWaitObservations [old] Serving FreshToken) post).
Proof.
  intros [error l' Hl|b new error failure l1 l2 l3 Hl1 Hl2 Hl3|b r' l1 l2 l3 Hl1 Hl2 Hl3] Hack Hno.
  - by destruct (stops_old_acknowledged _ _ Hl Hack).
  - assert (Hstopped : acknowledged (CallStop m old None) l1).
    { apply acknowledged_app in Hack as [?|[?|Hack]%acknowledged_app]; [done| |].
      - by destruct (not_stopping_new _ _ Hl2).
      - destruct Hl3 as [|? ? _ _ Hs|? _ _ Hs|? ? l3 l4 Hs Hr _].
        + by destruct Hack as (? & ? & _); set_solver.
        + by destruct (stops_new_other _ _ Hs).
        + by destruct (stops_new_other _ _ Hs).
        + apply acknowledged_app in Hack as [?|?]; [by destruct (stops_new_other _ _ Hs)|].
          by destruct (restores_acknowledged _ _ Hr). }
    destruct (stops_old_acknowledged _ _ Hl1 Hstopped) as [ [= ->] Ho]. split; [done|].
    inversion Hl3 as [| | |attempt restart l4 l5 Hs Hr _]; subst.
    apply restores_acknowledged in Hr as (_ & Hstart & Hrestart).
    exists error, attempt, restart, (l1 ++ l2 ++ l4), l5. split; [done|].
    split; [by rewrite <-!app_assoc|]. split; [apply acknowledged_app; by left|done].
  - destruct Hno. eapply new_serves_more; [|by apply starts_new_serves]. set_solver.
Qed.

Lemma replaces_done l :
  replaces namespace op (Ok ()) l →
  new_serves l ∧ acknowledged (CallWaitObservations [old] Dropped DeployToken) l.
Proof.
  inversion 1 as [| |b r l1 l2 l3 Hl1 Hl2 Hl3 Hr]; subst. destruct r as [[]|]; simplify_eq/=.
  split; [eapply new_serves_more; [|by apply starts_new_serves]; set_solver|].
  rewrite !acknowledged_app. right; right. inversion Hl3 as [| |r l4 l5 l6 _ _ Hd]; subst.
  rewrite !acknowledged_app. right; right. inversion Hd as [answer Ha]; subst.
  eexists. split; [constructor|]. split; [done|]. by destruct answer.
Qed.
End Replacement.

(** ** The replacement theorems *)

(** C5: a replacement never takes the old Container out of service early. Whatever Machines answer,
    whenever it is cancelled and however time passes: the old Container is removed, and under
    start-first stopped, only after a new Container was created in its place and every observer saw
    it serve; and a replacement that succeeds has the new Container serving and the old one
    dropped. *)
Theorem replacement_keeps_serving {W} (env : ∀ e : Event Call, W → answer e * W) fuel index
    namespace op s w r s' w' log :
  run env (replace_container fuel (RestartTolerant fuel machine_client) index namespace op) s w
  = Some (r, s', w', log) →
  creates_fresh op (calls log) →
  (∀ pre x post, calls log = pre ++ x :: post → ends_old op x → new_serves namespace op pre)
  ∧ (r = Ok () →
     new_serves namespace op (calls log)
     ∧ acknowledged (CallWaitObservations [op.(repl_old_container_id)] Dropped DeployToken)
         (calls log)).
Proof.
  intros Hrun Hfresh.
  pose proof (traces_sound env _ _ _ _ _ _ _ _ (replace_traces fuel index namespace op) Hrun) as Hr.
  split.
  - intros pre x post Hl. by apply (each_at _ _ _ _ _ (replaces_kept _ _ _ _ Hr Hfresh) Hl).
  - intros ->. by apply replaces_done.
Qed.

(** C6: a stop-first replacement that stopped the old Container and did not bring the new one into
    service restores it: it then asks to start the old Container again, reports the attempt, and
    reports it restored exactly when every observer saw it serve again. *)
Theorem replacement_restores {W} (env : ∀ e : Event Call, W → answer e * W) fuel index
    namespace op s w r s' w' log :
  run env (replace_container fuel (RestartTolerant fuel machine_client) index namespace op) s w
  = Some (r, s', w', log) →
  acknowledged (CallStop op.(repl_machine_id) op.(repl_old_container_id) None) (calls log) →
  ¬ new_serves namespace op (calls log) →
  op.(repl_spec).(rs_update).(resolved_order) = StopFirst ∧
  ∃ error attempt restart pre post,
    r = Err (ReplacementFailure error (OldStopped attempt restart)) ∧ calls log = pre ++ post
    ∧ acknowledged (CallStop op.(repl_machine_id) op.(repl_old_container_id) None) pre
    ∧ (∃ x, x ∈ post ∧ called x = CallStart op.(repl_machine_id) op.(repl_old_container_id))
    ∧ (restart = Restarted ↔
       acknowledged (CallWaitObservations [op.(repl_old_container_id)] Serving FreshToken) post).
Proof.
  intros Hrun.
  pose proof (traces_sound env _ _ _ _ _ _ _ _ (replace_traces fuel index namespace op) Hrun) as Hr.
  by apply replaces_restored.
Qed.

(** ** A sample environment

    Its clock is its state; every call takes a second, every sleep ends on
    time.  Machines create the Container [new] and answer [state] to every
    inspection of it. *)

Section Samples.
Context (state : ContainerRuntimeObservation).

Definition sample_container_state (c : ContainerId) : ContainerObservation :=
  let o := sample_observation c 5 "api" KindServiceContainer in
  {| container_id := o.(container_id); display_name := o.(display_name);
     created_at_unix_nanos := o.(created_at_unix_nanos); co_machine_id := o.(co_machine_id);
     co_namespace := o.(co_namespace); kind := o.(kind);
     runtime := if String.eqb c "new" then state else o.(runtime);
     effective_healthcheck := o.(effective_healthcheck); resolved_spec := o.(resolved_spec);
     address := o.(address); labels := o.(labels) |}.

Definition sample_reply (c : Call) : reply c :=
  match c with
  | CallPrepareVolumes _ _ => Ok []
  | CallServiceContainers _ => Ok [sample_container_state "c1"]
  | CallCreate _ _ _ _ _ =>
      Ok {| created_container_id := "new"; created_display_name := "api-new" |}
  | CallInspect _ c => Ok (sample_container_state c)
  | CallWaitObservations _ _ _ | CallStart _ _ | CallStop _ _ _ | CallRemove _ _
  | CallRemoveVolume _ => Ok ()
  end.

Fixpoint sample_env (e : Event Call) (w : Instant) : answer e * Instant :=
  match e with
  | EvCall c => (sample_reply c, (w + from_secs 1)%N)
  | EvNow => (w, w)
  | EvIsCancelled => (false, w)
  | EvSleepUntil until => ((), N.max w until)
  | EvOrCancel e' => let '(r, w') := sample_env e' w in (Some r, w')
  | EvOrDeadline _ deadline e' =>
      if (deadline <=? w)%N then (None, w)
      else let '(r, w') := sample_env e' w in (Some r, w')
  end.

Lemma sample_env_timely (typed : ∀ c : Call, reply c → Prop) :
  (∀ c, typed c (sample_reply c)) → Timely typed sample_env (λ w, w).
Proof.
  intros Htyped. split; intros e.
  - induction e as [c| | |t|e IH|b d e IH]; intros w; simpl; try lia; specialize (IH w);
      destruct (sample_env e w); [done|]. by destruct (N.leb_spec d w).
  - induction e as [c| | |t|e IH|b d e IH]; intros w; simpl; try done; try lia; specialize (IH w);
      destruct (sample_env e w); [done|]. by destruct (N.leb_spec d w).
Qed.
End Samples.

Definition sample_replacement (order : UpdateOrder) : ReplacementOperation :=
  {| repl_machine_id := "m1"; repl_old_container_id := "c1";
     repl_spec :=
       let spec := (sample_observation "c1" 5 "api" KindServiceContainer).(resolved_spec) in
       {| rs_service_id := spec.(rs_service_id); rs_name := spec.(rs_name);
          rs_mode := spec.(rs_mode); rs_container := spec.(rs_container);
          rs_placement := spec.(rs_placement); rs_ports := spec.(rs_ports);
          rs_mount_graph := spec.(rs_mount_graph); rs_pre_deploy := spec.(rs_pre_deploy);
          rs_update := {| resolved_order := order; resolved_monitor_millis := None |} |};
     repl_skip_health_monitor := false |}.

Definition sample_progress : Progress := {| rows := []; tx := false; sent := [] |}.

Definition sample_replace (state : ContainerRuntimeObservation) (order : UpdateOrder) :=
  run (sample_env state)
    (replace_container 20 (RestartTolerant 20 machine_client) 0 "shop" (sample_replacement order))
    sample_progress 0%N.

(** What the sample runs return and ask for. *)
Lemma sample_served :
  (λ x, (x.1.1.1, created_ids (calls x.2)))
  <$> sample_replace (RuntimeRunning HealthHealthy) StartFirst = Some (Ok (), ["new"]).
Proof. vm_compute. reflexivity. Qed.

Definition exchange (x : Logged (C := Call)) : Call * bool := (called x, answered_ok x).

Lemma acknowledged_exchange c l : acknowledged c l ↔ (c, true) ∈ map exchange l.
Proof.
  unfold acknowledged, exchange. rewrite list_elem_of_fmap. split.
  - intros (x & Hx & <- & Hok). exists x. by rewrite Hok.
  - intros (x & Heq & Hx). exists x. by injection Heq as -> <-.
Qed.

Lemma sample_exited :
  (λ x, map exchange (calls x.2)) <$> sample_replace (RuntimeExited 1) StopFirst
  = Some [(CallInspect "m1" "c1", true); (CallStop "m1" "c1" None, true);
          (CallCreate "m1" KindServiceContainer "shop" (sample_replacement StopFirst).(repl_spec)
            (Some "c1"), true);
          (CallStart "m1" "new", true); (CallInspect "m1" "new", true);
          (CallStop "m1" "new" (Some 0%Z), true);
          (CallStart "m1" "c1", true); (CallWaitObservations ["c1"] Serving FreshToken, true)].
Proof. vm_compute. reflexivity. Qed.

(** A start-first replacement by a healthy Container: the removal follows the new one serving. *)
Lemma replacement_keeps_serving_witness :
  ∃ r s' w' log, sample_replace (RuntimeRunning HealthHealthy) StartFirst = Some (r, s', w', log)
    ∧ r = Ok () ∧ new_serves "shop" (sample_replacement StartFirst) (calls log).
Proof.
  pose proof sample_served as Hs.
  destruct (sample_replace (RuntimeRunning HealthHealthy) StartFirst)
    as [[[[r s'] w'] log]|] eqn:Hrun; [|discriminate Hs].
  injection Hs as Hok Hids. simpl in Hok, Hids. exists r, s', w', log.
  split; [reflexivity|]. split; [exact Hok|].
  refine (proj1 (proj2 (replacement_keeps_serving _ _ _ _ _ _ _ _ _ _ _ Hrun _) Hok)).
  unfold creates_fresh. rewrite Hids. by intros ?%list_elem_of_singleton.
Defined.

(** A stop-first replacement whose new Container exits: the old one is started again. *)
Lemma replacement_restores_witness :
  ∃ r s' w' log, sample_replace (RuntimeExited 1) StopFirst = Some (r, s', w', log)
    ∧ ∃ error attempt restart, r = Err (ReplacementFailure error (OldStopped attempt restart)).
Proof.
  pose proof sample_exited as Hs.
  destruct (sample_replace (RuntimeExited 1) StopFirst)
    as [[[[r s'] w'] log]|] eqn:Hrun; [|discriminate Hs].
  injection Hs as Hcalls. simpl in Hcalls. exists r, s', w', log. split; [reflexivity|].
  destruct (replacement_restores _ _ _ _ _ _ _ _ _ _ _ Hrun)
    as (_ & error & attempt & restart & _ & _ & Hr & _); clear Hrun.
  - apply acknowledged_exchange. rewrite Hcalls. right. left.
  - intros (x & c & _ & _ & _ & Hack%acknowledged_exchange). rewrite Hcalls in Hack.
    repeat (apply elem_of_cons in Hack as [Hack|Hack]; [discriminate Hack|]).
    by apply elem_of_nil in Hack.
  - exists error, attempt, restart. exact Hr.
Defined.
