(* ===== verification/ExecutorOutcome.v ===== *)
(** * The outcome of an execution

    The sequence of [ployz/src/deploy/exec/mod.rs] as a whole: which operations
    ran, what they asked of Machines, and that the rows and events an operator
    sees agree with the outcome returned. *)

From S2P Require Import Prelude BTree Strings Values Machines StorageCapacity Volumes.
From S2P Require Import ServiceGraph Spec Services Deploy Eligibility Placement VolumePlan.
From S2P Require Import Planner Preview Process Execution Health Executor ExecutorTraces.
From S2P Require Import ExecutorSafety.

Open Scope string_scope.
Open Scope list_scope.
Open Scope nat_scope.

(** ** An operation reports on its own row only *)

Definition is_progress (event : DeployEvent) : bool :=
  match event with EventProgress _ _ _ => true | _ => false end.

Definition only_row (index : nat) (s s' : Progress) : Prop :=
  s'.(tx) = s.(tx) ∧ length s'.(rows) = length s.(rows)
  ∧ (∀ i, i ≠ index → s'.(rows) !! i = s.(rows) !! i)
  ∧ ∃ events, s'.(sent) = s.(sent) ++ events ∧ Forall (λ e, is_progress e = true) events
              ∧ (s.(tx) = false → events = []).

#[global] Instance only_row_preorder index : PreOrder (only_row index).
Proof.
  split.
  - intros s. split_and!; try done. exists []. by rewrite app_nil_r.
  - intros s1 s2 s3 (Ht1 & Hl1 & Hr1 & ev1 & Hs1 & Hp1 & He1)
      (Ht2 & Hl2 & Hr2 & ev2 & Hs2 & Hp2 & He2).
    split_and!; [congruence|congruence|intros i Hi; by rewrite Hr2, Hr1|].
    exists (ev1 ++ ev2). rewrite Hs2, Hs1, app_assoc. split_and!; [done|by apply Forall_app|].
    intros Ht. rewrite He1 by done. apply He2. congruence.
Qed.

Lemma only_row_emit index s : only_row index s (Progress_emit s).
Proof.
  unfold Progress_emit, send. destruct (tx s) eqn:Ht; [|reflexivity].
  split_and!; [done|done|done|]. eexists. split; [done|].
  split; [by repeat constructor|]. congruence.
Qed.

Lemma only_row_with index f s :
  (∀ l : list OperationRow, length (f l) = length l) →
  (∀ (l : list OperationRow) i, i ≠ index → f l !! i = l !! i) →
  only_row index s (with_rows f s).
Proof.
  intros Hl Hi. split_and!; [done|apply Hl|intros; by apply Hi|]. exists []. by rewrite app_nil_r.
Qed.

Lemma only_row_alter index g s : only_row index s (with_rows (alter g index) s).
Proof.
  apply only_row_with; [intros; apply length_alter|]. intros l i Hi.
  by apply list_lookup_alter_ne.
Qed.

Lemma only_row_running index phase s : only_row index s (Progress_set_running index phase s).
Proof. etransitivity; [apply only_row_alter|apply only_row_emit]. Qed.

Lemma only_row_named index name s : only_row index s (Progress_set_display_name index name s).
Proof. apply only_row_alter. Qed.
#[local] Hint Resolve only_row_running only_row_named : ployz.

(** Walk a process whose updates keep to the row. *)
Ltac own_row :=
  repeat first
    [ done | progress intros | apply respects_bind | apply respects_try | apply respects_race
    | assumption | split; [solve [auto with ployz]|] | case_match | intro ].

Section OwnRow.
Context (fuel : nat) (details_with_machine : string → MachineId → string).
Context (index : nat) (namespace : Namespace).
Local Abbreviation client := (RestartTolerant fuel machine_client).
Local Abbreviation own := (respects (only_row index)).

Lemma restart_own {T} rounds deadline (p : Exec (Result T RpcError)) :
  own p → own (restart_loop rounds deadline p).
Proof. intros Hp. induction rounds as [|rounds IH]; simpl; own_row. Qed.

Lemma tolerant_own (c : Call) : own (wait_out_restart fuel (call c)).
Proof. intros t. by apply (restart_own fuel (t + RESTART_WAIT) (call c)). Qed.

(** The calls of the client that wait out a restart. *)
Lemma listing_own q : own (client.(service_containers) q).
Proof. exact (tolerant_own (CallServiceContainers q)). Qed.
Lemma starting_own m c : own (client.(start_container) m c).
Proof. exact (tolerant_own (CallStart m c)). Qed.
Lemma inspecting_own m c : own (client.(inspect_container) m c).
Proof. exact (tolerant_own (CallInspect m c)). Qed.
Lemma stopping_own m c grace : own (client.(stop_container) m c grace).
Proof. exact (tolerant_own (CallStop m c grace)). Qed.
Lemma removing_own m c : own (client.(remove_container) m c).
Proof. exact (tolerant_own (CallRemove m c)). Qed.
Lemma removing_volume_own id : own (client.(remove_volume) id).
Proof. exact (tolerant_own (CallRemoveVolume id)). Qed.

Lemma inspect_own m c : own (inspect client m c).
Proof. apply respects_bind; [apply (tolerant_own (CallInspect m c))|done]. Qed.

Lemma wait_own rounds dependency started :
  own (wait_healthy_loop rounds client index dependency started).
Proof.
  induction rounds as [|rounds IH]; cbn [wait_healthy_loop]; [done|].
  intros []; cbn [bind]; [done|]. apply respects_bind; [apply listing_own|].
  own_row.
Qed.

Lemma settle_own rounds c started deadline ms :
  own (settle_loop rounds index c started deadline ms).
Proof. induction rounds as [|rounds IH]; cbn [settle_loop]; own_row. Qed.

Lemma monitor_loop_own rounds m c spec started deadline :
  own (monitor_loop rounds client index m c spec started deadline).
Proof.
  induction rounds as [|rounds IH]; cbn [monitor_loop]; [done|].
  intros []; cbn [bind]; [done|]. apply respects_try; [apply inspect_own|]. own_row.
Qed.

Lemma monitor_own m c spec : own (monitor_container fuel client index m c spec).
Proof.
  intros started. split; [auto with ployz|]. cbn [bind]. apply respects_try.
  - case_match; [apply settle_own|done].
  - intros. apply monitor_loop_own.
Qed.

Lemma discard_own m kind spec created : own (discard_created client m kind spec created).
Proof.
  unfold discard_created. case_match; [|done].
  apply respects_bind; [apply removing_own|done].
Qed.

Lemma create_own m kind spec replacing :
  own (create_and_start client index namespace m kind spec replacing).
Proof.
  split; [auto with ployz|]. intros [created|error]; [|own_row].
  intros []; cbn [bind]; [apply respects_bind; [apply discard_own|done]|].
  split; [auto with ployz|]. split; [auto with ployz|]. cbn [bind].
  apply respects_bind; [apply starting_own|].
  intros [|]; [done|]. apply respects_bind; [apply discard_own|done].
Qed.

Lemma as_machine_own {T} action (p : Exec (Result T RpcError)) : own p → own (as_machine action p).
Proof. intros. by apply respects_bind. Qed.

Lemma ending_own action (p : Exec (Result unit RpcError)) :
  own p → own (as_machine action (ignoring_not_found p)).
Proof. intros. apply as_machine_own. by apply respects_bind. Qed.

Lemma stop_own m c : own (stop_container_op client m c).
Proof. apply ending_own, stopping_own. Qed.

Lemma remove_own m c : own (remove_container_op client m c).
Proof. apply ending_own, removing_own. Qed.

Lemma drop_own c : own (wait_dropped client c).
Proof. by apply as_machine_own. Qed.

Lemma serve_own m c spec skip : own (serve fuel client index m c spec skip).
Proof.
  apply respects_try; [case_match; [done|apply monitor_own]|]. intros. by apply as_machine_own.
Qed.

Lemma compensate_own op old_stopped new error :
  own (compensate client index op old_stopped new error).
Proof.
  unfold compensate. case_match; [done|]. split; [auto with ployz|]. cbn [bind].
  apply respects_bind.
  { destruct new; [|done]. do 2 (apply respects_bind; [|done]).
    apply ending_own, stopping_own. }
  intros attempt. destruct old_stopped; [|by case_match].
  do 2 (apply respects_bind; [|done]). apply respects_try; [|intros; by apply as_machine_own].
  apply as_machine_own, starting_own.
Qed.

Lemma replace_own op : own (replace_container fuel client index namespace op).
Proof.
  apply respects_bind.
  { case_match; [|done]. apply respects_bind; [apply inspecting_own|].
    intros answer. apply respects_try; [by destruct answer|]. intros old.
    case_match; [|done]. split; [auto with ployz|]. cbn [bind].
    by apply respects_bind; [apply stopping_own|]. }
  intros [old_stopped|error]; [|done]. apply respects_bind.
  { apply respects_bind; [apply create_own|]. intros [created|]; [|done].
    by apply respects_bind; [apply serve_own|]. }
  intros [[]|[new error]].
  - apply respects_bind; [|done]. apply respects_try.
    { case_match; [done|]. split; [auto with ployz|apply stop_own]. }
    intros _. split; [auto with ployz|]. cbn [bind].
    apply respects_try; [apply remove_own|intros; apply drop_own].
  - by apply respects_bind; [apply compensate_own|].
Qed.

Lemma hook_loop_own rounds m c started deadline ms :
  own (hook_loop client index rounds m c started deadline ms).
Proof.
  assert (Hint : ∀ i, own (interrupted client m c i)).
  { intros i. do 2 (apply respects_bind; [|done]). apply stopping_own. }
  induction rounds as [|rounds IH]; cbn [hook_loop]; [done|].
  intros t. split; [auto with ployz|]. cbn [bind].
  apply respects_bind; [apply respects_race, inspect_own|].
  intros [| |[observed|error]]; [apply Hint|apply Hint| |done].
  case_match; own_row.
Qed.

Lemma execute_own operation :
  own (execute_operation fuel details_with_machine client index namespace operation).
Proof.
  split; [auto with ployz|]. destruct operation as [m specs|m d dependency|m spec skip|m c purpose
    |m c|op|m c|m spec olds|id]; cbn [bind].
  - by intros [].
  - apply respects_bind; [|done]. intros t. apply wait_own.
  - apply respects_bind; [|done]. apply respects_try; [|done].
    apply respects_try; [apply create_own|]. intros created.
    by apply respects_try; [apply serve_own|].
  - split; [auto with ployz|]. cbn [bind]. apply respects_bind; [|done].
    apply respects_try; [apply stop_own|]. intros _. destruct purpose; [apply drop_own|done].
  - split; [auto with ployz|]. cbn [bind]. apply respects_bind; [|done].
    apply respects_try; [apply stop_own|]. intros _. split; [auto with ployz|]. cbn [bind].
    apply respects_try; [apply remove_own|intros; apply drop_own].
  - apply replace_own.
  - split; [auto with ployz|]. cbn [bind]. apply respects_bind; [|done]. apply stop_own.
  - apply respects_bind; [|done]. split; [auto with ployz|]. cbn [bind]. apply respects_try.
    + induction olds as [|[m' c'] olds IH]; cbn [for_each]; [done|].
      apply respects_try; [apply remove_own|done].
    + intros _. apply respects_try; [apply create_own|]. intros created started. cbn [bind].
      apply hook_loop_own.
  - split; [auto with ployz|]. cbn [bind]. apply respects_bind; [|done].
    apply ending_own, removing_volume_own.
Qed.
End OwnRow.

(** ** The outcome *)

Definition failed_error (failed : FailedOperation ExecutionError) : ExecutionError :=
  match failed with FailedPlain _ error | FailedReplacement _ error _ => error end.

Definition failed_operation (failed : FailedOperation ExecutionError) : DeployOperation :=
  match failed with
  | FailedPlain operation _ => operation
  | FailedReplacement operation _ _ => ReplaceContainer operation
  end.

(** The statuses the rows must end with. *)
Definition outcome_statuses (outcome : DeployOutcome ExecutionError) : list OperationStatus :=
  match outcome with
  | DeploySuccess completed => replicate (length completed) Completed
  | DeployFailed completed failed unexecuted =>
      replicate (length completed) Completed ++ Failed (failed_error failed)
      :: replicate (length unexecuted) Unexecuted
  end.

Definition outcome_operations (outcome : DeployOutcome ExecutionError) : list DeployOperation :=
  match outcome with
  | DeploySuccess completed => completed
  | DeployFailed completed failed unexecuted =>
      completed ++ failed_operation failed :: unexecuted
  end.

Inductive reports : DeployOperation → OperationFailure → FailedOperation ExecutionError → Prop :=
| reports_plain op error : reports op (OrdinaryFailure error) (FailedPlain op error)
| reports_replacement r error compensation :
    reports (ReplaceContainer r) (ReplacementFailure error compensation)
      (FailedReplacement r error compensation).

(** Which calls were made for which operation, up to the outcome. *)
Inductive concludes (namespace : Namespace)
    : DeployOutcome ExecutionError → list Log → Prop :=
| concludes_success completed segments :
    Forall2 (λ op l, executes namespace op (Ok ()) l) completed segments →
    concludes namespace (DeploySuccess completed) segments
| concludes_cancelled completed op unexecuted segments :
    Forall2 (λ op l, executes namespace op (Ok ()) l) completed segments →
    concludes namespace (DeployFailed completed (FailedPlain op ExecutionCancelled) unexecuted)
      segments
| concludes_failed completed op failure failed unexecuted segments l :
    Forall2 (λ op l, executes namespace op (Ok ()) l) completed segments →
    executes namespace op (Err failure) l → reports op failure failed →
    concludes namespace (DeployFailed completed failed unexecuted) (segments ++ [l]).

Lemma reports_operation op failure failed :
  reports op failure failed → failed_operation failed = op.
Proof. by intros []. Qed.

(** Only a replacement fails with a compensation. *)
Lemma executes_failure namespace op error compensation l :
  executes namespace op (Err (ReplacementFailure error compensation)) l →
  ∃ r, op = ReplaceContainer r.
Proof.
  inversion 1 as [m specs answer r Hr Hf| | | | | | | |]; subst;
    try match goal with H : map_err OrdinaryFailure ?r = _ |- _ => destruct r; simplify_eq/= end;
    [|eauto].
  by destruct (Hf _ eq_refl) as [? [=]].
Qed.

(** ** The rows *)

(** Rows before [n] are completed, the others are not. *)
Definition rows_at (n : nat) (rows : list OperationRow) : Prop :=
  ∀ i row, rows !! i = Some row → (i < n ↔ row.(row_status) = Completed).

Lemma failed_rows n error (rows : list OperationRow) :
  (∀ i row, i ≠ n → rows !! i = Some row → (i < n ↔ row.(row_status) = Completed)) →
  n < length rows →
  map row_status (fail_row rows n error)
  = replicate n Completed ++ Failed error :: replicate (length rows - S n) Unexecuted.
Proof.
  intros Hrows Hn. apply list_eq. intros i. rewrite list_lookup_fmap. unfold fail_row.
  rewrite list_lookup_imap.
  destruct (decide (i = n)) as [->|Hne].
  - rewrite list_lookup_alter. destruct (lookup_lt_is_Some_2 rows n Hn) as [row Hrow].
    rewrite Hrow. simpl. rewrite Nat.eqb_refl. simpl.
    rewrite lookup_app_r by (rewrite length_replicate; lia).
    by rewrite length_replicate, Nat.sub_diag, decide_True.
  - rewrite list_lookup_alter_ne by done.
    destruct (rows !! i) as [row|] eqn:Hrow; simpl.
    + pose proof (lookup_lt_Some _ _ _ Hrow) as Hi. specialize (Hrows i row Hne Hrow).
      apply Nat.eqb_neq in Hne as Hneb. rewrite Hneb. simpl.
      destruct (decide (i < n)) as [Hlt|Hge].
      * rewrite lookup_app_l by (rewrite length_replicate; lia).
        rewrite lookup_replicate_2 by lia. apply Hrows in Hlt.
        unfold is_completed. rewrite Hlt. simpl. by rewrite Hlt.
      * rewrite lookup_app_r by (rewrite length_replicate; lia).
        rewrite length_replicate. destruct (i - n) as [|k] eqn:Hk; [lia|]. simpl.
        rewrite lookup_replicate_2 by lia.
        assert (row.(row_status) ≠ Completed) by tauto.
        unfold is_completed. by destruct row.(row_status).
    + symmetry. apply lookup_ge_None. apply lookup_ge_None in Hrow.
      rewrite length_app. simpl. rewrite !length_replicate. lia.
Qed.

Lemma completed_rows n (rows : list OperationRow) :
  rows_at n rows → n = length rows → map row_status rows = replicate n Completed.
Proof.
  intros Hrows ->. apply list_eq. intros i. rewrite list_lookup_fmap.
  destruct (rows !! i) as [row|] eqn:Hrow; simpl.
  - pose proof (lookup_lt_Some _ _ _ Hrow) as Hi. rewrite lookup_replicate_2 by done.
    f_equal. by apply (Hrows i row Hrow).
  - symmetry. apply lookup_ge_None. apply lookup_ge_None in Hrow. by rewrite length_replicate.
Qed.

(** ** The sequence *)

Section Sequence.
Context (fuel : nat) (details_with_machine : string → MachineId → string).
Context (namespace : Namespace) (operations : list DeployOperation).
Local Abbreviation client := (RestartTolerant fuel machine_client).

(** What an execution that may have sent [sent] ends with. *)
Definition ended (segments : list Log) (s : Progress) (o : option (DeployOutcome ExecutionError))
    (s' : Progress) (log : list Entry) : Prop :=
  ∃ outcome more, o = Some outcome ∧ calls log = concat more
    ∧ concludes namespace outcome (segments ++ more) ∧ outcome_operations outcome = operations
    ∧ map row_status s'.(rows) = outcome_statuses outcome
    ∧ (if s.(tx)
       then ∃ events, s'.(sent) = events ++ [EventOutcome outcome]
                      ∧ Forall (λ e, is_progress e = true) events
       else s'.(sent) = s.(sent)).

Lemma send_outcome outcome s s0 :
  Forall (λ e, is_progress e = true) s.(sent) → s.(tx) = s0.(tx) →
  (s0.(tx) = false → s.(sent) = s0.(sent)) →
  if s0.(tx)
  then ∃ events, (Progress_outcome outcome s).(sent) = events ++ [EventOutcome outcome]
                 ∧ Forall (λ e, is_progress e = true) events
  else (Progress_outcome outcome s).(sent) = s0.(sent).
Proof.
  intros Hs Ht Hsame. unfold Progress_outcome, send. rewrite Ht.
  destruct (tx s0); [exists (sent s); done|]. by apply Hsame.
Qed.

Lemma rows_outcome outcome s : (Progress_outcome outcome s).(rows) = s.(rows).
Proof. unfold Progress_outcome, send. by destruct (tx s). Qed.

Lemma rows_emit s : (Progress_emit s).(rows) = s.(rows).
Proof. unfold Progress_emit, send. by destruct (tx s). Qed.

Lemma sent_emit s :
  Forall (λ e, is_progress e = true) s.(sent) →
  Forall (λ e, is_progress e = true) (Progress_emit s).(sent)
  ∧ (Progress_emit s).(tx) = s.(tx) ∧ (s.(tx) = false → (Progress_emit s).(sent) = s.(sent)).
Proof.
  intros Hs. unfold Progress_emit, send. destruct (tx s) eqn:Ht; [|done].
  split; [|done]. simpl. apply Forall_app. split; [done|]. by repeat constructor.
Qed.

Lemma split_at_app completed op unexecuted :
  split_at (completed ++ op :: unexecuted) (length completed) = Some (completed, op, unexecuted).
Proof.
  unfold split_at. rewrite length_app. simpl.
  assert (Hle : (length completed <=? length completed + S (length unexecuted)) = true)
    by (apply Nat.leb_le; lia).
  rewrite Hle.
  by rewrite drop_app_length, take_app_length.
Qed.

Lemma conclude_emits completed op unexecuted error outcome segments more s s0 :
  operations = completed ++ op :: unexecuted →
  length s.(rows) = length operations →
  (∀ i row, i ≠ length completed → s.(rows) !! i = Some row →
            (i < length completed ↔ row.(row_status) = Completed)) →
  Forall (λ e, is_progress e = true) s.(sent) → s.(tx) = s0.(tx) →
  (s0.(tx) = false → s.(sent) = s0.(sent)) →
  outcome_statuses outcome = replicate (length completed) Completed
    ++ Failed error :: replicate (length unexecuted) Unexecuted →
  outcome_operations outcome = operations →
  concludes namespace outcome (segments ++ more) →
  emits (conclude (length completed) error (Some outcome))
    (λ o s' log, ∀ log0, calls log0 = concat more → ended segments s0 o s' (log0 ++ log)) s.
Proof.
  intros Hops Hlen Hrows Hsent Ht Hsame Hst Hoo Hc log0 Hlog. unfold ended. simpl.
  exists outcome, more. rewrite app_nil_r. split_and!; [done..| |].
  - rewrite rows_outcome. unfold Progress_fail. rewrite rows_emit. simpl.
    rewrite failed_rows; [|done|rewrite Hlen, Hops, length_app; simpl; lia].
    rewrite Hst, Hlen, Hops, length_app. simpl. do 3 f_equal. lia.
  - destruct (sent_emit (with_rows (λ rows, fail_row rows (length completed) error) s) Hsent)
      as (Hs & Ht' & Hsame').
    unfold Progress_fail. apply send_outcome; [done|by rewrite Ht'|].
    intros Hf. rewrite Hsame'; [by apply Hsame|]. simpl. by rewrite Ht.
Qed.

(** Completing the current row. *)
Lemma complete_row n (rows' : list OperationRow) :
  (∀ i row, i ≠ n → rows' !! i = Some row → (i < n ↔ row.(row_status) = Completed)) →
  rows_at (S n) (set_completed rows' n).
Proof.
  intros Hrows i row. unfold set_completed. rewrite list_lookup_alter.
  case_decide as Hi; [subst i|intros Hrow; specialize (Hrows i row); naive_solver lia].
  destruct (rows' !! n) as [row'|]; simpl; intros [= <-]. split; [done|lia].
Qed.

(** The log of one operation is the next segment. *)
Lemma ended_cons segments l s0 o s' log1 log2 :
  calls log1 = l → ended (segments ++ [l]) s0 o s' log2 → ended segments s0 o s' (log1 ++ log2).
Proof.
  intros Hl (outcome & more & -> & Hlog & Hc & Hrest).
  exists outcome, (l :: more). rewrite calls_app, Hlog, Hl. split; [done|].
  split; [done|]. split; [by rewrite cons_middle, app_assoc|done].
Qed.

(** An operation that failed ends the sequence. *)
Lemma failed_emits completed op rest failure segments s0 s1 log1 :
  operations = completed ++ op :: rest → length s1.(rows) = length operations →
  (∀ i row, i ≠ length completed → s1.(rows) !! i = Some row →
            (i < length completed ↔ row.(row_status) = Completed)) →
  Forall (λ e, is_progress e = true) s1.(sent) → s1.(tx) = s0.(tx) →
  (s0.(tx) = false → s1.(sent) = s0.(sent)) →
  Forall2 (λ op l, executes namespace op (Ok ()) l) completed segments →
  executes namespace op (Err failure) (calls log1) →
  emits match failure with
        | OrdinaryFailure error =>
            conclude (length completed) error
              (failure_outcome_from operations (length completed) error)
        | ReplacementFailure error compensation =>
            conclude (length completed) error
              (replacement_failure_outcome_from operations (length completed) error compensation)
        end
    (λ o s' log, ended segments s0 o s' ((existT EvIsCancelled false :: log1) ++ log)) s1.
Proof.
  intros Hops Hlen1 Hrows1 Hsent1 Ht1 Hsame1 Hsegs Hexec.
  assert (Hconc : ∀ error failed, reports op failure failed → failed_error failed = error →
    emits (conclude (length completed) error (Some (DeployFailed completed failed rest)))
      (λ o s' log, ended segments s0 o s' ((existT EvIsCancelled false :: log1) ++ log)) s1).
  { intros error failed Hrep Herr.
    eapply emits_mono; [|eapply (conclude_emits completed op rest _ _ segments [calls log1] s1 s0);
      try done].
    - intros o s' log H. apply H. cbn. by rewrite app_nil_r.
    - simpl. by rewrite Herr.
    - simpl. by rewrite (reports_operation _ _ _ Hrep).
    - by econstructor. }
  destruct failure as [error|error compensation].
  - unfold failure_outcome_from. rewrite Hops at 1. rewrite split_at_app. cbn [mbind option_bind].
    by apply Hconc; [constructor|].
  - destruct (executes_failure _ _ _ _ _ Hexec) as [rep ->].
    unfold replacement_failure_outcome_from. rewrite Hops at 1. rewrite split_at_app.
    cbn [mbind option_bind]. by apply Hconc; [constructor|].
Qed.

Lemma sequence_emits s0 rest : ∀ completed segments s,
  operations = completed ++ rest → length s.(rows) = length operations →
  rows_at (length completed) s.(rows) → Forall (λ e, is_progress e = true) s.(sent) →
  s.(tx) = s0.(tx) → (s0.(tx) = false → s.(sent) = s0.(sent)) →
  Forall2 (λ op l, executes namespace op (Ok ()) l) completed segments →
  emits (sequence_from fuel details_with_machine client namespace operations
           (length completed) rest)
    (ended segments s0) s.
Proof.
  induction rest as [|op rest IH];
    intros completed segments s Hops Hlen Hrows Hsent Ht Hsame Hsegs.
  { cbn. rewrite app_nil_r in Hops. subst completed. exists (DeploySuccess operations), [].
    rewrite app_nil_r. split_and!; [done|done|by constructor|done| |].
    - rewrite rows_outcome. simpl. apply completed_rows; [done|]. by rewrite Hlen.
    - by apply send_outcome. }
  cbn [sequence_from]. intros []; cbn [bind].
  { unfold failure_outcome_from. rewrite Hops at 1. rewrite split_at_app. cbn [mbind option_bind].
    eapply emits_mono; [|eapply (conclude_emits completed op rest _ _ segments [] s s0); try done].
    - intros o s' log H. exact (H [existT EvIsCancelled true] eq_refl).
    - intros i row Hi. apply Hrows.
    - rewrite app_nil_r. by constructor. }
  apply emits_bind.
  eapply emits_mono; [|apply (emits_traces (only_row (length completed)));
    [apply execute_own|apply execute_operation_traces]].
  intros r s1 log1 [Hexec (Ht1 & Hl1 & Hr1 & events & Hs1 & Hp1 & He1)].
  assert (Hsent1 : Forall (λ e, is_progress e = true) s1.(sent))
    by (rewrite Hs1; by apply Forall_app).
  assert (Hsame1 : s0.(tx) = false → s1.(sent) = s0.(sent)).
  { intros Hf. rewrite Hs1, He1, app_nil_r by (by rewrite Ht). by apply Hsame. }
  assert (Hrows1 : ∀ i row, i ≠ length completed → s1.(rows) !! i = Some row →
    (i < length completed ↔ row.(row_status) = Completed)).
  { intros i row Hi Hrow. rewrite Hr1 in Hrow by done. by apply Hrows. }
  destruct r as [[]|failure].
  - cbn [bind]. apply (emits_mono _ (ended (segments ++ [calls log1]) s0)).
    { intros o s' log2 Hlog. exact (ended_cons segments _ s0 o s' _ _ eq_refl Hlog). }
    assert (Hsnoc : length (completed ++ [op]) = S (length completed))
      by (rewrite length_app; simpl; lia).
    destruct (sent_emit (with_rows (λ rows, set_completed rows (length completed)) s1) Hsent1)
      as (Hs2 & Ht2 & Hsame2).
    unfold update. cbn [bind emits]. unfold Progress_set_completed. rewrite <-Hsnoc. apply IH.
    + by rewrite <-app_assoc.
    + rewrite rows_emit. simpl. unfold set_completed. rewrite length_alter. congruence.
    + rewrite rows_emit, Hsnoc. by apply complete_row.
    + done.
    + rewrite Ht2. simpl. congruence.
    + intros Hf. rewrite Hsame2; [by apply Hsame1|]. simpl. congruence.
    + apply Forall2_app; [done|]. by repeat constructor.
  - assert (Hlen1 : length s1.(rows) = length operations) by congruence.
    eapply failed_emits; try done. congruence.
Qed.
End Sequence.

(** ** A create is issued at most once per operation *)

Definition is_create (c : Call) : bool := match c with CallCreate _ _ _ _ _ => true | _ => false end.
Definition creations (l : Log) : nat := length (List.filter (λ x, is_create (called x)) l).

Lemma creations_app l1 l2 : creations (l1 ++ l2) = creations l1 + creations l2.
Proof. unfold creations. by rewrite List.filter_app, length_app. Qed.

Lemma creations_none l : (∀ x, x ∈ l → is_create (called x) = false) → creations l = 0.
Proof. intros Hl. unfold creations. by rewrite filter_none. Qed.

Lemma creations_only c l : only_calls c l → is_create c = false → creations l = 0.
Proof. intros Hl Hc. apply creations_none. intros x Hx. by rewrite (only_calls_in c l x). Qed.

Lemma creations_attempts c r l : attempts c r l → is_create c = false → creations l = 0.
Proof. intros [Hl _]%attempts_only. by apply creations_only. Qed.

Lemma creations_ends action c r l : ends action c r l → is_create c = false → creations l = 0.
Proof. intros [l' Hl _|? l' Hl _]; by apply creations_only. Qed.

Lemma creations_creates namespace m kind spec replacing r l :
  creates namespace m kind spec replacing r l → creations l = 1.
Proof.
  assert (Hd : ∀ created l', discards m kind spec created l' → creations l' = 0).
  { unfold discards. intros created l'. destruct (owns_created _ _); [|by intros ->].
    intros [? Hr]. by eapply creations_attempts. }
  intros [? ? _|? l' Hl|? ? l1 l2 Hs Hl|? l' Hs]; [done|..];
    change (creations (?x :: ?l)) with (creations ([x] ++ l)); rewrite creations_app.
  - by rewrite (Hd _ _ Hl).
  - by rewrite creations_app, (Hd _ _ Hl), (creations_attempts _ _ _ Hs).
  - by rewrite (creations_attempts _ _ _ Hs).
Qed.

Lemma creations_monitors m c spec r l : monitors m c spec r l → creations l = 0.
Proof.
  intros [? l' Hl|? l' Hl _]; [by eapply creations_only|].
  by rewrite creations_app, (creations_only _ _ Hl).
Qed.

Lemma creations_serves m c spec skip r l : serves m c spec skip r l → creations l = 0.
Proof.
  intros [? l' Hl|? l' Hl]; [by eapply creations_monitors|]. rewrite creations_app.
  destruct Hl as [[_ ->]|Hl]; [done|]. by rewrite (creations_monitors _ _ _ _ _ Hl).
Qed.

Lemma creations_sweeps olds r l : sweeps olds r l → creations l = 0.
Proof.
  induction 1 as [|? ? ? ? ? Hl|? ? ? ? l1 l2 Hl1 Hl2 IH]; [done|by eapply creations_ends|].
  by rewrite creations_app, IH, (creations_ends _ _ _ _ Hl1).
Qed.

Lemma creations_polls m c r l : polls m c r l → creations l = 0.
Proof.
  intros [? l' Hl _|? l' Hl|? l1 l2 ? Hl1 Hl2]; [|by eapply creations_only|].
  - by rewrite creations_app, (creations_only _ _ Hl).
  - by rewrite creations_app, (creations_only _ _ Hl1), (creations_attempts _ _ _ Hl2).
Qed.

Lemma creations_compensates op new error b failure l :
  compensates op new error b failure l → creations l = 0.
Proof.
  assert (Hs : ∀ l, stops_new op new l → creations l = 0).
  { intros l'. destruct new; [|by intros ->]. intros [Hl _]. by eapply creations_only. }
  intros [_|? l' _ _ Hl|l' _ _ Hl|? ? l1 l2 Hl1 Hl2 _]; [done|auto|auto|].
  rewrite creations_app, (Hs _ Hl1). destruct Hl2 as [? l' Hl|? l' Hl].
  - by eapply creations_attempts.
  - by rewrite creations_app, (creations_attempts _ _ _ Hl).
Qed.

Lemma creations_retires op r l : retires op r l → creations l = 0.
Proof.
  assert (Hstop : ∀ l1 : Log, op.(repl_spec).(rs_update).(resolved_order) = StopFirst ∧ l1 = []
    ∨ op.(repl_spec).(rs_update).(resolved_order) = StartFirst
      ∧ stops op.(repl_machine_id) op.(repl_old_container_id) (Ok ()) l1 → creations l1 = 0).
  { intros l1 [[_ ->]|[_ Hl1]]; [done|by eapply creations_ends]. }
  intros [? l' _ Hl|? l1 l2 Hl1 Hl2|r' l1 l2 l3 Hl1 Hl2 Hl3]; [by eapply creations_ends|..];
    rewrite !creations_app, (creations_ends _ _ _ _ Hl2), (Hstop _ Hl1) by done; [done|].
  by destruct Hl3.
Qed.

Lemma creations_replaces namespace op r l : replaces namespace op r l → creations l ≤ 1.
Proof.
  assert (Hold : ∀ r l, stops_old op r l → creations l = 0).
  { intros r' l' [_|? ? _ _ Hl|? ? l1 l2 _ Hl1 Hl2 _]; [done|by eapply creations_only|].
    by rewrite creations_app, (creations_only _ _ Hl1), (creations_attempts _ _ _ Hl2). }
  assert (Hnew : ∀ r l, starts_new namespace op r l → creations l = 1).
  { intros r' l' [? ? Hl|? ? l1 l2 Hl1 Hl2]; [by eapply creations_creates|].
    by rewrite creations_app, (creations_creates _ _ _ _ _ _ _ Hl1), (creations_serves _ _ _ _ _ _ Hl2). }
  intros [? l' Hl|? ? ? ? l1 l2 l3 Hl1 Hl2 Hl3|? r' l1 l2 l3 Hl1 Hl2 Hl3].
  - rewrite (Hold _ _ Hl). lia.
  - rewrite !creations_app, (Hold _ _ Hl1), (Hnew _ _ Hl2), (creations_compensates _ _ _ _ _ _ Hl3). lia.
  - rewrite !creations_app, (Hold _ _ Hl1), (Hnew _ _ Hl2), (creations_retires _ _ _ Hl3). lia.
Qed.

Lemma creations_stops_then m c next r l :
  stops_then m c next r l → (∀ r l, next r l → creations l = 0) → creations l = 0.
Proof.
  intros [? l' Hl|r' l1 l2 Hl1 Hl2] Hnext; [by eapply creations_ends|].
  by rewrite creations_app, (Hnext _ _ Hl2), (creations_ends _ _ _ _ Hl1).
Qed.

Lemma creations_executes namespace op r l : executes namespace op r l → creations l ≤ 1.
Proof.
  intros Hl. destruct Hl as [m specs answer r|m d dependency r l Hl|m spec skip r l Hl
    |m c purpose r l Hl|m c r l Hl|op r l Hl|m c r l Hl|m spec olds r l Hl|id r l Hl].
  - cbn. lia.
  - destruct Hl as [? l Hl|? l Hl _ _]; rewrite ?creations_app, (creations_only _ _ Hl) by done;
      cbn; lia.
  - destruct Hl as [? l Hl|? ? l1 l2 Hl1 Hl2];
      rewrite ?creations_app, ?(creations_serves _ _ _ _ _ _ Hl2);
      erewrite creations_creates by done; lia.
  - rewrite (creations_stops_then _ _ _ _ _ Hl); [lia|]. intros r' l'.
    destruct purpose; [by intros []|by intros [_ ->]].
  - rewrite (creations_stops_then _ _ _ _ _ Hl); [lia|]. intros r' l' [? ? Hl'|? ? ? Hl1 Hl2].
    + by eapply creations_ends.
    + rewrite creations_app, (creations_ends _ _ _ _ Hl1) by done. by destruct Hl2.
  - by eapply creations_replaces.
  - erewrite creations_ends by done. lia.
  - destruct Hl as [? l Hl|? l1 l2 Hl1 Hl2|? ? l1 l2 l3 Hl1 Hl2 Hl3]; rewrite ?creations_app.
    + rewrite (creations_sweeps _ _ _ Hl). lia.
    + rewrite (creations_sweeps _ _ _ Hl1). erewrite creations_creates by done. lia.
    + rewrite (creations_sweeps _ _ _ Hl1), (creations_polls _ _ _ _ Hl3).
      erewrite creations_creates by done. lia.
  - erewrite creations_ends by done. lia.
Qed.

(** ** Executing a plan *)

(** A plan has one row per operation, as [seal_plan] makes them. *)
Definition one_row_each (plan : DeployPlan) : Prop :=
  length plan.(preview).(preview_operations) = length plan.(plan_ops).

Lemma pending_length plan :
  one_row_each plan → length (plan_pending_rows plan) = length plan.(plan_ops).
Proof.
  unfold one_row_each, plan_pending_rows. intros Hl. rewrite length_imap, length_zip_with. lia.
Qed.

Lemma pending_rows_at plan : rows_at 0 (plan_pending_rows plan).
Proof.
  intros i row. unfold plan_pending_rows. rewrite list_lookup_imap.
  destruct (zip _ _ !! i); simpl; intros [= <-]. split; [lia|done].
Qed.

Lemma execution_emits fuel details plan (with_tx : bool) :
  one_row_each plan →
  emits (execute_operation_sequence fuel details plan)
    (ended plan.(preview).(preview_namespace) plan.(plan_ops) []
       (Progress_emit (pending_progress plan with_tx)))
    (pending_progress plan with_tx).
Proof.
  intros Hrow. unfold execute_operation_sequence, update. cbn [bind emits].
  apply (sequence_emits fuel details _ _ _ _ [] []); [done| | | |done|done|constructor].
  - rewrite rows_emit. by apply pending_length.
  - rewrite rows_emit. apply pending_rows_at.
  - apply sent_emit. constructor.
Qed.

(** How many operations were attempted. *)
Definition attempted (outcome : DeployOutcome ExecutionError) : nat :=
  match outcome with
  | DeploySuccess completed => length completed
  | DeployFailed completed _ _ => S (length completed)
  end.

Lemma concludes_segment namespace outcome segments i l :
  concludes namespace outcome segments → segments !! i = Some l →
  i < attempted outcome ∧ ∃ op r, outcome_operations outcome !! i = Some op
                                  ∧ executes namespace op r l.
Proof.
  intros Hc Hl. destruct Hc as [completed segments Hs|completed op rest segments Hs
    |completed op failure failed rest segments l' Hs Hf Hrep]; simpl.
  - destruct (Forall2_lookup_r _ _ _ _ _ Hs Hl) as (op & Hop & He).
    split; [by eapply lookup_lt_Some|eauto].
  - destruct (Forall2_lookup_r _ _ _ _ _ Hs Hl) as (op' & Hop & He).
    pose proof (lookup_lt_Some _ _ _ Hop). split; [lia|]. exists op', (Ok ()).
    by rewrite lookup_app_l.
  - pose proof (Forall2_length _ _ _ Hs) as Hlen.
    apply lookup_app_Some in Hl as [Hl|[Hge Hl]].
    + destruct (Forall2_lookup_r _ _ _ _ _ Hs Hl) as (op' & Hop & He).
      pose proof (lookup_lt_Some _ _ _ Hop). split; [lia|]. exists op', (Ok ()).
      by rewrite lookup_app_l.
    + apply list_lookup_singleton_Some in Hl as [Hi <-].
      assert (i = length completed) as -> by lia. split; [lia|]. exists op, (Err failure).
      rewrite lookup_app_r, Nat.sub_diag by lia. simpl. by rewrite (reports_operation _ _ _ Hrep).
Qed.

(** C7: executing a plan never panics and its evidence is consistent: the outcome splits the plan
    into what completed, the operation that failed and what was not attempted; every row ends
    Completed, Failed with that error, or Unexecuted accordingly; and a listener gets progress
    events followed by exactly this outcome. *)
Theorem execution_outcome {W} (env : ∀ e : Event Call, W → answer e * W) fuel details plan with_tx
    w o s' w' log :
  one_row_each plan →
  run env (execute_operation_sequence fuel details plan) (pending_progress plan with_tx) w
  = Some (o, s', w', log) →
  ∃ outcome, o = Some outcome
    ∧ outcome_operations outcome = plan.(plan_ops)
    ∧ map row_status s'.(rows) = outcome_statuses outcome
    ∧ (if with_tx
       then ∃ events, s'.(sent) = events ++ [EventOutcome outcome]
                      ∧ Forall (λ e, is_progress e = true) events
       else s'.(sent) = []).
Proof.
  intros Hrow Hrun.
  destruct (emits_sound env _ _ _ _ _ _ _ _ (execution_emits fuel details plan with_tx Hrow) Hrun)
    as (outcome & more & -> & _ & _ & Hops & Hrows & Hsent).
  exists outcome. split_and!; [done..|]. by destruct with_tx.
Qed.

Lemma execution_confined_spec {W} (env : ∀ e : Event Call, W → answer e * W) fuel details plan with_tx
    w o s' w' log :
  one_row_each plan →
  run env (execute_operation_sequence fuel details plan) (pending_progress plan with_tx) w
  = Some (o, s', w', log) →
  ∃ outcome segments, o = Some outcome ∧ calls log = concat segments
    ∧ ∀ i l, segments !! i = Some l →
      i < attempted outcome ∧ creations l ≤ 1
      ∧ ∃ op, plan.(plan_ops) !! i = Some op
              ∧ ∀ pre x post, l = pre ++ x :: post →
                permitted plan.(preview).(preview_namespace) op (created_ids pre) (called x).
Proof.
  intros Hrow Hrun.
  destruct (emits_sound env _ _ _ _ _ _ _ _ (execution_emits fuel details plan with_tx Hrow) Hrun)
    as (outcome & more & -> & Hcalls & Hc & Hops & _).
  exists outcome, more. split; [done|]. split; [done|]. intros i l Hl.
  destruct (concludes_segment _ _ _ _ _ Hc Hl) as (Hi & op & r & Hop & Hexec).
  split; [done|]. split; [by eapply creations_executes|]. exists op. rewrite <-Hops.
  split; [done|]. intros pre x post Hsplit.
  exact (each_at _ _ _ _ _ (executes_confined _ _ _ _ Hexec) Hsplit).
Qed.
(** C4: an execution touches nothing its plan does not name: its calls split into one segment per
    attempted operation, in plan order; within a segment, only Containers the operation names or
    has itself created are started, stopped or removed, only its own spec is created, in the plan's
    Namespace and on its Machine, at most once, and only its own Volume is removed. *)
Theorem execution_confined {W} (env : ∀ e : Event Call, W → answer e * W) fuel details plan with_tx
    w o s' w' log :
  one_row_each plan →
  run env (execute_operation_sequence fuel details plan) (pending_progress plan with_tx) w
  = Some (o, s', w', log) →
  ∃ outcome segments, o = Some outcome ∧ calls log = concat segments
    ∧ ∀ i l, segments !! i = Some l →
      i < attempted outcome ∧ creations l ≤ 1
      ∧ ∃ op, plan.(plan_ops) !! i = Some op
              ∧ ∀ pre x post, l = pre ++ x :: post →
                permitted plan.(preview).(preview_namespace) op (created_ids pre) (called x).
Proof. apply execution_confined_spec. Qed.

(** ** What success means *)

Definition asked (c : Call) (l : Log) : Prop := ∃ x, x ∈ l ∧ called x = c.

(** The answers an operation has in hand when it reports success. *)
Definition evidence (namespace : Namespace) (op : DeployOperation) (l : Log) : Prop :=
  match op with
  | PrepareVolumes m specs => acknowledged (CallPrepareVolumes m specs) l
  | WaitHealthy _ _ dependency =>
      ∃ listed, last l = Some (Answered (CallServiceContainers dependency) (Ok listed))
        ∧ List.filter (of_dependency dependency) listed ≠ []
        ∧ ∀ o, o ∈ List.filter (of_dependency dependency) listed →
               o.(runtime) = RuntimeRunning HealthHealthy
  | RunContainer m spec skip =>
      ∃ created,
        Answered (CallCreate m KindServiceContainer namespace spec None) (Ok created) ∈ l
        ∧ acknowledged (CallStart m created.(created_container_id)) l
        ∧ (skip = false → ∃ observed,
             Answered (CallInspect m created.(created_container_id)) (Ok observed) ∈ l
             ∧ ready spec observed)
        ∧ acknowledged (CallWaitObservations [created.(created_container_id)] Serving DeployToken) l
  | StopContainer m c purpose =>
      asked (CallStop m c None) l
      ∧ (purpose = PurposeLifecycle →
         acknowledged (CallWaitObservations [c] Dropped DeployToken) l)
  | RemoveContainer m c =>
      asked (CallStop m c None) l ∧ asked (CallRemove m c) l
      ∧ acknowledged (CallWaitObservations [c] Dropped DeployToken) l
  | ReplaceContainer r =>
      new_serves namespace r l
      ∧ acknowledged (CallWaitObservations [r.(repl_old_container_id)] Dropped DeployToken) l
  | StopHook m c => asked (CallStop m c None) l
  | RunHook m spec _ =>
      ∃ created observed,
        Answered (CallCreate m KindPreDeployHook namespace spec None) (Ok created) ∈ l
        ∧ last l = Some (Answered (CallInspect m created.(created_container_id)) (Ok observed))
        ∧ observed.(runtime) = RuntimeExited 0
  | RemoveVolume id => asked (CallRemoveVolume id) l
  end.

Lemma ends_asked action c r l : ends action c r l → asked c l.
Proof.
  assert (Hl : ∀ l, only_calls c l → l ≠ [] → asked c l).
  { intros [|x l'] Ho Hne; [done|]. exists x. split; [constructor|].
    by eapply only_calls_in; [exact Ho|constructor]. }
  by intros []; apply Hl.
Qed.

Lemma asked_app c l1 l2 : asked c (l1 ++ l2) ↔ asked c l1 ∨ asked c l2.
Proof. unfold asked. set_solver. Qed.

Lemma drops_acknowledged c l :
  drops c (Ok ()) l → acknowledged (CallWaitObservations [c] Dropped DeployToken) l.
Proof.
  inversion 1 as [answer Ha]; subst. eexists. split; [constructor|]. split; [done|].
  by destruct answer.
Qed.

Lemma runs_evidence namespace m spec skip l :
  runs namespace m spec skip (Ok ()) l → evidence namespace (RunContainer m spec skip) l.
Proof.
  inversion 1 as [|created r l1 l2 Hc Hs]; subst. inversion Hc as [| | |? l3 Hstart]; subst.
  exists created. split; [constructor|].
  apply attempts_last in Hstart as (l4 & -> & _). split.
  { eexists. split; [right; apply elem_of_app; left; apply elem_of_app; right; constructor|done]. }
  inversion Hs as [|answer l5 Hl5 Ha]; subst. destruct answer as [[]|]; simplify_eq/=. split.
  - intros ->. destruct Hl5 as [[? _]|Hm]; [done|]. inversion Hm as [|observed l6 _ Hr]; subst.
    exists observed. split; [|done]. right. apply elem_of_app. right. apply elem_of_app. left.
    apply elem_of_app. right. constructor.
  - eexists. split; [right; apply elem_of_app; right; apply elem_of_app; right; constructor|done].
Qed.

Lemma hooks_evidence namespace m spec olds l :
  hooks namespace m spec olds (Ok ()) l → evidence namespace (RunHook m spec olds) l.
Proof.
  inversion 1 as [| |created r l1 l2 l3 _ Hc Hp]; subst. inversion Hc as [| | |? l4 _]; subst.
  inversion Hp as [observed l5 _ Hr| |]; subst. exists created, observed. split_and!; [|by rewrite !app_assoc, last_snoc|done].
  apply elem_of_app. right. apply elem_of_app. left. constructor.
Qed.

Lemma executes_evidence namespace op l :
  executes namespace op (Ok ()) l → evidence namespace op l.
Proof.
  intros Hl. remember (Ok ()) as r eqn:Hr. revert Hr.
  assert (Hok : ∀ r : Result unit ExecutionError, map_err OrdinaryFailure r = Ok () → r = Ok ())
    by (intros [[]|]; naive_solver).
  destruct Hl as [m specs answer r Hans _|m d dependency r l Hl|m spec skip r l Hl
    |m c purpose r l Hl|m c r l Hl|op r l Hl|m c r l Hl|m spec olds r l Hl|id r l Hl].
  - intros ->. eexists. split; [constructor|]. split; [done|]. by destruct answer.
  - intros ->%Hok. inversion Hl as [|listed l' _ Hne Ha]; subst. exists listed.
    by rewrite last_snoc.
  - intros ->%Hok. by apply runs_evidence.
  - intros ->%Hok. inversion Hl as [|r l1 l2 Hl1 Hl2]; subst. split.
    + apply asked_app. left. by eapply ends_asked.
    + intros ->. apply acknowledged_app. right. by apply drops_acknowledged.
  - intros ->%Hok. inversion Hl as [|r l1 l2 Hl1 Hl2]; subst.
    inversion Hl2 as [|r l3 l4 Hl3 Hl4]; subst. cbn [evidence].
    rewrite !asked_app, !acknowledged_app. split_and!.
    + left. by eapply ends_asked.
    + right; left. by eapply ends_asked.
    + right; right. by apply drops_acknowledged.
  - intros ->. by apply replaces_done.
  - intros _. by eapply ends_asked.
  - intros ->%Hok. by apply hooks_evidence.
  - intros _. by eapply ends_asked.
Qed.

Definition completed_operations (outcome : DeployOutcome ExecutionError) : list DeployOperation :=
  match outcome with DeploySuccess completed | DeployFailed completed _ _ => completed end.

Lemma concludes_completed namespace outcome segments :
  concludes namespace outcome segments →
  ∃ done rest, segments = done ++ rest
    ∧ Forall2 (λ op l, executes namespace op (Ok ()) l) (completed_operations outcome) done.
Proof.
  intros [completed s Hs|completed op rest s Hs|completed op failure failed rest s l Hs _ _].
  - exists s, []. by rewrite app_nil_r.
  - exists s, []. by rewrite app_nil_r.
  - by exists s, [l].
Qed.

(** C8: completed means done: whatever happens, each operation an outcome lists as completed has,
    in the answers of its own calls, the evidence of success: a started Container is healthy or
    unchecked and seen serving by every observer, a replacement serves before the old Container is
    dropped, a dependency exists and is all healthy, a hook exited with 0, an ended Container was
    stopped, removed and dropped. *)
Theorem execution_evidence {W} (env : ∀ e : Event Call, W → answer e * W) fuel details plan with_tx
    w outcome s' w' log :
  one_row_each plan →
  run env (execute_operation_sequence fuel details plan) (pending_progress plan with_tx) w
  = Some (Some outcome, s', w', log) →
  ∃ done rest, calls log = concat done ++ rest
    ∧ Forall2 (evidence plan.(preview).(preview_namespace)) (completed_operations outcome) done.
Proof.
  intros Hrow Hrun.
  destruct (emits_sound env _ _ _ _ _ _ _ _ (execution_emits fuel details plan with_tx Hrow) Hrun)
    as (? & more & [= <-] & Hcalls & Hc & _).
  destruct (concludes_completed _ _ _ Hc) as (done & rest & Hmore & Hdone).
  exists done, (concat rest). simpl in Hmore. rewrite Hcalls, Hmore, concat_app. split; [done|].
  eapply Forall2_impl; [exact Hdone|]. intros op l. apply executes_evidence.
Qed.

(** ** A sample plan *)

Definition sample_operations : list DeployOperation :=
  [ReplaceContainer (sample_replacement StartFirst); RemoveContainer "m1" "c9"].

Definition sample_plan : DeployPlan :=
  {| plan_ops := sample_operations;
     preview :=
       {| storage := []; preview_namespace := "shop";
          preview_operations :=
            imap (λ i op, OperationRow_pending (row_number i) op None None None) sample_operations;
          preview_warnings := []; volumes_to_create := []; preview_would_remove := [];
          preview_preserved_volumes := []; preview_prune_refusal := None |};
     registry_auth := [] |}.

(** The new Container exits, so the plan fails at its first operation. *)
Definition sample_execution :=
  run (sample_env (RuntimeExited 1)) (execute_operation_sequence 20 (λ details _, details) sample_plan)
    (pending_progress sample_plan true) 0%N.

Lemma sample_execution_runs : is_Some sample_execution.
Proof. vm_compute. eauto. Qed.

Lemma execution_outcome_witness :
  match sample_execution with
  | Some (Some outcome, s', _, _) =>
      outcome_operations outcome = sample_operations
      ∧ map row_status s'.(rows) = outcome_statuses outcome
  | _ => False
  end.
Proof.
  destruct sample_execution_runs as [[[[o s'] w'] log] Hrun]. rewrite Hrun.
  destruct (execution_outcome (sample_env (RuntimeExited 1)) 20 (λ details _, details) sample_plan
              true 0%N o s' w' log eq_refl Hrun) as (outcome & -> & Hops & Hrows & _).
  split; assumption.
Defined.

Lemma execution_confined_witness :
  match sample_execution with
  | Some (Some outcome, _, _, log) =>
      ∃ segments, calls log = concat segments ∧ ∀ i l, segments !! i = Some l → creations l ≤ 1
  | _ => False
  end.
Proof.
  destruct sample_execution_runs as [[[[o s'] w'] log] Hrun]. rewrite Hrun.
  destruct (execution_confined (sample_env (RuntimeExited 1)) 20 (λ details _, details) sample_plan
              true 0%N o s' w' log eq_refl Hrun) as (outcome & segments & -> & Hcalls & Hseg).
  exists segments. split; [exact Hcalls|]. intros i l Hl. apply (Hseg i l Hl).
Defined.

(** With a healthy Container the whole plan completes. *)
Definition sample_success :=
  run (sample_env (RuntimeRunning HealthHealthy))
    (execute_operation_sequence 20 (λ details _, details) sample_plan)
    (pending_progress sample_plan false) 0%N.

Lemma sample_completes :
  (λ x, x.1.1.1) <$> sample_success = Some (Some (DeploySuccess sample_operations)).
Proof. vm_compute. reflexivity. Qed.

Lemma execution_evidence_witness : ∃ l, evidence "shop" (RemoveContainer "m1" "c9") l.
Proof.
  pose proof sample_completes as Hs.
  destruct sample_success as [[[[o s'] w'] log]|] eqn:Hrun; [|discriminate Hs].
  injection Hs as ->.
  destruct (execution_evidence (sample_env (RuntimeRunning HealthHealthy)) 20
              (λ details _, details) sample_plan false 0%N _ s' w' log eq_refl Hrun)
    as (done & rest & _ & Hdone).
  inversion Hdone as [|? l1 ? rest1 _ Hrest]; subst.
  inversion Hrest as [|? l2 ? rest2 Hl2 _]; subst. exists l2. exact Hl2.
Defined.
