(* ===== verification/ExecutorHalts.v ===== *)
(** * An execution ends

    Every loop of the executor polls until a deadline.  Against an environment
    whose clock advances and whose answers are timely, each loop ends within a
    number of rounds bounded by the nanoseconds up to its deadline, so an
    execution given the fuel of [enough_fuel] never runs out of it. *)

From S2P Require Import Prelude BTree Strings Values Machines StorageCapacity Volumes.
From S2P Require Import ServiceGraph Spec Services Deploy Eligibility Placement VolumePlan.
From S2P Require Import Planner Preview Process Execution Health Executor ExecutorTraces.
From S2P Require Import ExecutorSafety ExecutorOutcome.

Open Scope string_scope.
Open Scope list_scope.
Open Scope nat_scope.

(** [timeout_seconds] is a [u16]. *)
Definition u16_max : N := 65535.

Definition u16_check (o : ContainerObservation) : Prop :=
  match o.(resolved_spec).(rs_container).(healthcheck) with
  | Some (HealthHttp check) => (check.(http_timeout_seconds) ≤ u16_max)%N
  | _ => True
  end.

Definition typed (c : Call) : reply c → Prop :=
  match c with
  | CallServiceContainers _ =>
      λ r, match r with Ok listed => Forall u16_check listed | Err _ => True end
  | _ => λ _, True
  end.

Abbreviation halts := (Process.halts typed).
Abbreviation ends_soon p t := (halts p (λ _ _, True) t).

(** ** How long a loop may wait *)

Definition longest_check : N := from_millis u64_max.

Lemma healthcheck_timeout_bound check : (healthcheck_timeout check ≤ longest_check)%N.
Proof.
  unfold healthcheck_timeout, longest_check, from_millis, saturating_add at 1.
  apply N.mul_le_mono_r. lia.
Qed.

Definition own_check (spec : ResolvedServiceSpec) : N :=
  match spec.(rs_container).(healthcheck) with
  | Some (HealthHttp check) => from_secs check.(http_timeout_seconds)
  | _ => 0
  end.

(** The nanoseconds an operation may wait for by its own spec. *)
Definition op_wait (op : DeployOperation) : N :=
  match op with
  | RunContainer _ spec _ => monitor_window spec + own_check spec
  | ReplaceContainer r => monitor_window r.(repl_spec) + own_check r.(repl_spec)
  | RunHook _ spec _ => hook_timeout spec
  | _ => 0
  end.

Definition enough_fuel (operations : list DeployOperation) : nat :=
  N.to_nat (fold_right (λ op, N.add (op_wait op)) 0 operations + longest_check + RESTART_WAIT
            + DEFAULT_HEALTH_MONITOR + 3)%N.

(** ** The loops *)

Lemma halts_true {A} (p : Exec A) P t : halts p P t → ends_soon p t.
Proof. by apply halts_mono. Qed.

Lemma call_ends (c : Call) t : halts (call c : Exec (reply c)) (λ r _, typed c r) t.
Proof. by intros r t' _ Hr. Qed.

Lemma restart_ends {T} rounds deadline (p : Exec (Result T RpcError)) (P : Result T RpcError → Prop)
    t :
  (∀ t, halts p (λ r _, P r) t) → 1 ≤ rounds → (deadline < t + N.of_nat rounds)%N →
  halts (restart_loop rounds deadline p) (λ r _, P r) t.
Proof.
  intros Hp. revert t. induction rounds as [|rounds IH]; intros t Hr Ht; [lia|]. cbn [restart_loop].
  eapply halts_seq; [apply Hp|]. intros [value|error] t1 Ht1 HP; [done|].
  destruct (is_unavailable error); [|done]. intros r2 t2 Ht2 ->. cbn [bind].
  destruct (N.ltb_spec t2 deadline) as [Hlt|]; [|done]. intros [] t3 Ht3 _; cbn [bind]; [done|].
  intros r4 t4 Ht4 ->. cbn [bind sleep_or_cancel event].
  intros [[]|] t5 Ht5 Hs; cbn [bind]; [|done]. simpl in Hs.
  assert (0 < RESTART_POLL)%N by done. apply IH; lia.
Qed.

Lemma poll_deadline started t monitor pending (l : list ContainerObservation) c health until :
  try_fold (poll_dependency started t monitor) l pending = Ok (Some (c, health, until)) →
  pending = Some (c, health, until)
  ∨ ∃ o, o ∈ l ∧ classify_dependency o started t monitor = PendingUntil until.
Proof.
  revert pending. induction l as [|o l IH]; intros pending; simpl; [intros [= ->]; by left|].
  intros Hf. unfold poll_dependency at 1 in Hf.
  destruct (classify_dependency o started t monitor) as [|until'|] eqn:Hclass; simpl in Hf.
  - apply IH in Hf as [?|(o' & ? & ?)]; [by left|right; exists o'; set_solver].
  - destruct pending as [[[]]|]; simpl in Hf.
    + apply IH in Hf as [Hf|(o' & ? & ?)]; [|right; exists o'; set_solver].
      case_match; simplify_eq; [|by left]. right. exists o. set_solver.
    + apply IH in Hf as [Hf|(o' & ? & ?)]; [|right; exists o'; set_solver].
      simplify_eq. right. exists o. set_solver.
  - done.
Qed.

(** A pending deadline is in the future, and one of the two given. *)
Lemma classify_pending runtime t monitor health expectation until :
  classify_health runtime t monitor health expectation = PendingUntil until →
  (t < until)%N ∧ (until = monitor ∨ health = Some until).
Proof.
  unfold classify_health, runtime_failure.
  destruct runtime as [|[]| | | | | |], health as [h|]; simpl; intros Hc;
    repeat case_match; simplify_eq; split; eauto;
    repeat match goal with
    | H : (_ <=? _)%N = false |- _ => apply N.leb_gt in H
    end; lia.
Qed.

Lemma dependency_pending o started t until :
  u16_check o →
  classify_dependency o started t (started + DEFAULT_HEALTH_MONITOR) = PendingUntil until →
  (t < until)%N ∧ (until ≤ started + DEFAULT_HEALTH_MONITOR + longest_check)%N.
Proof.
  intros Ho [Ht Hu]%classify_pending. split; [done|].
  assert (Hdep : ∀ d, dependency_deadline o started = Some d → (d ≤ started + longest_check)%N).
  { unfold dependency_deadline, option_or, health_deadline_for, u16_check in *. intros d Hd.
    assert (Hhttp : ∀ n, (n ≤ u16_max)%N → (from_secs n ≤ longest_check)%N).
    { intros n Hn. unfold from_secs, longest_check, from_millis. apply N.mul_le_mono_r.
      unfold u16_max, u64_max in *. lia. }
    repeat case_match; simplify_eq;
      try (apply N.add_le_mono_l; first [apply healthcheck_timeout_bound | by apply Hhttp]). }
  unfold monitor_until in Hu. destruct Hu as [->|Hu%Hdep]; [|lia].
  case_match; [|lia]. destruct (dependency_deadline o started) as [d|]; simpl; [|lia].
  specialize (Hdep d eq_refl). lia.
Qed.

Lemma monitor_pending (spec : ResolvedServiceSpec) o started t deadline until :
  let health := health_deadline_for spec.(rs_container).(healthcheck) o started in
  classify_health o.(runtime) t
    (monitor_until spec.(rs_container).(healthcheck) health deadline) health ContainerReady
  = PendingUntil until →
  (t < until)%N ∧ (until ≤ N.max deadline (started + (longest_check + own_check spec)))%N.
Proof.
  intros health [Ht Hu]%classify_pending. split; [done|].
  assert (Hdep : ∀ d, health = Some d → (d ≤ started + (longest_check + own_check spec))%N).
  { unfold health, health_deadline_for, own_check. intros d Hd.
    repeat case_match; simplify_eq;
      try (apply N.add_le_mono_l; rewrite ?N.add_0_r; first [apply healthcheck_timeout_bound | lia]). }
  unfold monitor_until in Hu. destruct Hu as [->|Hu%Hdep]; [|lia].
  case_match; [|lia]. destruct health as [d|]; simpl; [|lia]. specialize (Hdep d eq_refl). lia.
Qed.

#[local] Arguments interrupted : simpl never.

Section Loops.
Context (fuel : nat) (details_with_machine : string → MachineId → string).
Context (index : nat) (namespace : Namespace).
Local Abbreviation client := (RestartTolerant fuel machine_client).
Hypothesis restart_fuel : (RESTART_WAIT + 2 ≤ N.of_nat fuel)%N.

Lemma tolerant_typed (c : Call) t : halts (wait_out_restart fuel (call c)) (λ r _, typed c r) t.
Proof using restart_fuel.
  intros r t' Ht ->. apply (restart_ends fuel (t' + RESTART_WAIT) (call c)); [apply call_ends| |lia].
  assert (0 < RESTART_WAIT)%N by done. lia.
Qed.

Lemma tolerant_ends (c : Call) t : ends_soon (wait_out_restart fuel (call c)) t.
Proof using restart_fuel. eapply halts_true, tolerant_typed. Qed.

Lemma inspect_ends m c t : ends_soon (inspect client m c) t.
Proof using restart_fuel. eapply halts_seq; [apply (tolerant_ends (CallInspect m c))|done]. Qed.


Lemma wait_loop_ends rounds dependency started t :
  1 ≤ rounds → (started + DEFAULT_HEALTH_MONITOR + longest_check < t + N.of_nat rounds)%N →
  ends_soon (wait_healthy_loop rounds client index dependency started) t.
Proof using restart_fuel.
  revert t. induction rounds as [|rounds IH]; intros t Hr Ht; [lia|]. cbn [wait_healthy_loop].
  intros [] t1 Ht1 _; cbn [bind]; [done|].
  eapply halts_seq; [apply (tolerant_typed (CallServiceContainers dependency))|].
  intros [listed|error] t2 Ht2 Htyped; [|done]. simpl in Htyped.
  destruct (List.filter (of_dependency dependency) listed) as [|o containers] eqn:Hf; [done|].
  intros r3 t3 Ht3 ->. cbn [bind].
  destruct (try_fold _ _ _) as [[[[c health] until]|]|failure] eqn:Hpoll; [|done|done].
  intros r4 t4 Ht4 ->. cbn [bind update]. intros [[]|] t5 Ht5 Hs; cbn [bind]; [|done].
  simpl in Hs. apply poll_deadline in Hpoll as [?|(o' & Ho' & Hclass)]; [done|].
  assert (Hty : u16_check o').
  { rewrite Forall_forall in Htyped. apply Htyped. rewrite <-Hf in Ho'.
    by apply elem_of_filterb in Ho' as []. }
  apply dependency_pending in Hclass as [Hlt Hle]; [|done].
  assert (0 < POLL_INTERVAL)%N by done. apply IH; lia.
Qed.

Lemma settle_ends rounds c started deadline ms t :
  1 ≤ rounds → (deadline < t + N.of_nat rounds)%N →
  ends_soon (settle_loop rounds index c started deadline ms) t.
Proof.
  revert t. induction rounds as [|rounds IH]; intros t Hr Ht; [lia|]. cbn [settle_loop].
  intros r1 t1 Ht1 ->. cbn [bind]. intros [[]|] t2 Ht2 Hs; cbn [bind]; [|done]. simpl in Hs.
  intros r3 t3 Ht3 ->. cbn [bind update]. intros r4 t4 Ht4 ->. cbn [bind].
  destruct (N.leb_spec deadline t4) as [|Hlt]; [done|].
  assert (0 < POLL_INTERVAL)%N by done. apply IH; lia.
Qed.

Lemma monitor_loop_ends rounds m c spec started deadline t :
  1 ≤ rounds →
  (N.max deadline (started + (longest_check + own_check spec)) < t + N.of_nat rounds)%N →
  ends_soon (monitor_loop rounds client index m c spec started deadline) t.
Proof using restart_fuel.
  revert t. induction rounds as [|rounds IH]; intros t Hr Ht; [lia|]. cbn [monitor_loop].
  intros [] t1 Ht1 _; cbn [bind]; [done|].
  apply halts_try; [apply inspect_ends| |done]. intros observed t2 Ht2 r3 t3 Ht3 ->. cbn [bind].
  intros r4 t4 Ht4 ->. cbn [bind update].
  destruct (classify_health _ _ _ _ _) as [|until|] eqn:Hclass; [done| |done].
  apply monitor_pending in Hclass as [Hlt Hle].
  intros [[]|] t5 Ht5 Hs; cbn [bind]; [|done]. simpl in Hs.
  assert (0 < POLL_INTERVAL)%N by done. apply IH; lia.
Qed.

Lemma monitor_ends m c spec t :
  (monitor_window spec + longest_check + own_check spec + 2 ≤ N.of_nat fuel)%N →
  ends_soon (monitor_container fuel client index m c spec) t.
Proof using restart_fuel.
  intros Hfuel r1 t1 Ht1 ->. cbn [bind update].
  apply halts_try; [|intros _ t2 Ht2; apply monitor_loop_ends; lia|done].
  case_match; [apply settle_ends; lia|done].
Qed.

Lemma hook_loop_ends rounds m c started deadline ms t :
  1 ≤ rounds → (deadline < t + N.of_nat rounds)%N →
  ends_soon (hook_loop client index rounds m c started deadline ms) t.
Proof using restart_fuel.
  assert (Hint : ∀ i t, ends_soon (interrupted client m c i) t).
  { intros i t'. apply halts_bind, halts_bind.
    eapply halts_mono; [|apply (tolerant_ends (CallStop m c (Some 0%Z)))]. done. }
  revert t. induction rounds as [|rounds IH]; intros t Hr Ht; [lia|]. cbn [hook_loop].
  intros r1 t1 Ht1 ->. cbn [bind running update].
  eapply halts_seq; [apply halts_race, inspect_ends|].
  intros [| |[observed|error]] t2 Ht2 _; [apply Hint|apply Hint| |done].
  destruct observed.(runtime); try done.
  all: intros r3 t3 Ht3 ->; cbn; intros [[[]|]|] t4 Ht4 Hs; cbn; [|apply Hint|apply Hint];
    simpl in Hs; destruct Hs as [Hlt Hs]; specialize (Hlt eq_refl);
    assert (0 < POLL_INTERVAL)%N by done; apply IH; lia.
Qed.

(** ** The operations *)

Lemma as_machine_ends {T} action (p : Exec (Result T RpcError)) t :
  ends_soon p t → ends_soon (as_machine action p) t.
Proof. intros Hp. by eapply halts_seq. Qed.

Lemma ending_ends action (p : Exec (Result unit RpcError)) t :
  ends_soon p t → ends_soon (as_machine action (ignoring_not_found p)) t.
Proof. intros Hp. apply as_machine_ends. by eapply halts_seq. Qed.

Lemma stop_ends m c t : ends_soon (stop_container_op client m c) t.
Proof using restart_fuel. apply ending_ends, (tolerant_ends (CallStop m c None)). Qed.

Lemma remove_ends m c t : ends_soon (remove_container_op client m c) t.
Proof using restart_fuel. apply ending_ends, (tolerant_ends (CallRemove m c)). Qed.

Lemma wait_ends ids condition token t :
  ends_soon (client.(wait_for_container_observations) ids condition token) t.
Proof. eapply halts_true, (call_ends (CallWaitObservations ids condition token)). Qed.

Lemma discard_ends m kind spec created t :
  ends_soon (discard_created client m kind spec created) t.
Proof using restart_fuel.
  unfold discard_created. case_match; [|done].
  eapply halts_seq; [apply (tolerant_ends (CallRemove m created.(created_container_id)))|done].
Qed.

Lemma create_ends m kind spec replacing t :
  ends_soon (create_and_start client index namespace m kind spec replacing) t.
Proof using restart_fuel.
  intros [created|error] t1 Ht1 _; [|by intros [] t2 Ht2 _].
  intros [] t2 Ht2 _; cbn [bind]; [eapply halts_seq; [apply discard_ends|done]|].
  cbn [update bind running].
  eapply halts_seq; [apply (tolerant_ends (CallStart m created.(created_container_id)))|].
  intros [|] t3 Ht3 _; [done|]. eapply halts_seq; [apply discard_ends|done].
Qed.

Lemma serve_ends m c spec skip t :
  (monitor_window spec + longest_check + own_check spec + 2 ≤ N.of_nat fuel)%N →
  ends_soon (serve fuel client index m c spec skip) t.
Proof using restart_fuel.
  intros Hfuel. apply halts_try; [case_match; [done|by apply monitor_ends]| |done].
  intros _ t1 Ht1. apply as_machine_ends, wait_ends.
Qed.

Lemma compensate_ends op old_stopped new error t :
  ends_soon (compensate client index op old_stopped new error) t.
Proof using restart_fuel.
  unfold compensate. case_match; [done|]. cbn [running update bind].
  eapply (halts_seq _ _ _ (λ _ _, True)).
  { destruct new as [c|]; [|done]. apply halts_bind, halts_bind. eapply halts_mono;
      [|apply ending_ends, (tolerant_ends (CallStop op.(repl_machine_id) c
          (Some (default 0%Z (stop_grace_period op.(repl_spec))))))]. done. }
  intros attempt t1 Ht1 _. destruct old_stopped; [|by case_match].
  eapply (halts_seq _ _ _ (λ _ _, True)); [|done].
  eapply (halts_seq _ _ _ (λ _ _, True)); [|done].
  apply halts_try; [|intros; apply as_machine_ends, wait_ends|done].
  apply as_machine_ends, (tolerant_ends (CallStart op.(repl_machine_id) op.(repl_old_container_id))).
Qed.

Lemma stop_old_ends op t : ends_soon (stop_old client index op) t.
Proof using restart_fuel.
  eapply halts_seq;
    [apply (tolerant_ends (CallInspect op.(repl_machine_id) op.(repl_old_container_id)))|].
  intros answer t1 Ht1 _. apply halts_try; [by destruct answer| |done]. intros old t2 Ht2.
  case_match; [|done]. cbn [running update bind].
  eapply halts_seq;
    [apply (tolerant_ends (CallStop op.(repl_machine_id) op.(repl_old_container_id) None))|done].
Qed.

Lemma replace_ends op t :
  (op_wait (ReplaceContainer op) + longest_check + 2 ≤ N.of_nat fuel)%N →
  ends_soon (replace_container fuel client index namespace op) t.
Proof using restart_fuel.
  intros Hfuel. simpl in Hfuel.
  eapply (halts_seq _ _ _ (λ _ _, True)); [case_match; [apply stop_old_ends|done]|].
  intros [old_stopped|error] t1 Ht1 _; [|done].
  eapply (halts_seq _ _ _ (λ _ _, True)).
  { eapply halts_seq; [apply create_ends|]. intros [created|error] t2 Ht2 _; [|done].
    eapply halts_seq; [apply serve_ends; lia|done]. }
  intros [[]|[new error]] t2 Ht2 _; [|eapply halts_seq; [apply compensate_ends|done]].
  eapply (halts_seq _ _ _ (λ _ _, True)); [|done].
  apply halts_try; [case_match; [done|apply stop_ends]| |done]. intros _ t3 Ht3.
  cbn [running update bind]. apply halts_try; [apply remove_ends| |done].
  intros _ t4 Ht4. apply as_machine_ends, wait_ends.
Qed.

Lemma hook_ends m spec olds t :
  (hook_timeout spec + 2 ≤ N.of_nat fuel)%N →
  ends_soon (run_hook fuel client index namespace m spec olds) t.
Proof using restart_fuel.
  intros Hfuel. unfold run_hook. cbn [running update bind].
  apply halts_try; [| |done].
  { revert t. induction olds as [|[m' c'] olds IH]; intros t; cbn [for_each]; [done|].
    apply halts_try; [apply remove_ends|intros _ t1 _; apply IH|done]. }
  intros _ t1 Ht1. apply halts_try; [apply create_ends| |done].
  intros created t2 Ht2 r3 t3 Ht3 ->. cbn [bind]. apply hook_loop_ends; lia.
Qed.

Lemma ordinary_ends p t : ends_soon p t → ends_soon (ordinary p) t.
Proof. intros Hp. by eapply halts_seq. Qed.

Lemma execute_ends op t :
  (op_wait op + longest_check + DEFAULT_HEALTH_MONITOR + 2 ≤ N.of_nat fuel)%N →
  ends_soon (execute_operation fuel details_with_machine client index namespace op) t.
Proof using restart_fuel.
  intros Hfuel. unfold execute_operation. cbn [running update bind].
  destruct op as [m specs|m d dependency|m spec skip|m c purpose|m c|op|m c|m spec olds|id];
    cbn [op_wait] in Hfuel.
  - by intros r t1 Ht1 _.
  - apply ordinary_ends. intros r t1 Ht1 ->. apply wait_loop_ends; lia.
  - apply ordinary_ends. apply halts_try; [|done|done].
    apply halts_try; [apply create_ends| |done]. intros created t1 Ht1.
    apply halts_try; [apply serve_ends; lia|done|done].
  - apply ordinary_ends. apply halts_try; [apply stop_ends| |done]. intros _ t1 Ht1.
    destruct purpose; [apply as_machine_ends, wait_ends|done].
  - apply ordinary_ends. apply halts_try; [apply stop_ends| |done]. intros _ t1 Ht1.
    cbn [bind]. apply halts_try; [apply remove_ends| |done]. intros _ t2 Ht2.
    apply as_machine_ends, wait_ends.
  - apply replace_ends. cbn [op_wait]. lia.
  - apply ordinary_ends, stop_ends.
  - apply ordinary_ends, hook_ends. lia.
  - apply ordinary_ends, ending_ends, (tolerant_ends (CallRemoveVolume id)).
Qed.
End Loops.

(** ** The whole execution *)

Lemma sequence_ends fuel details namespace operations rest n t :
  (RESTART_WAIT + 2 ≤ N.of_nat fuel)%N →
  (∀ op, op ∈ rest →
    (op_wait op + longest_check + DEFAULT_HEALTH_MONITOR + 2 ≤ N.of_nat fuel)%N) →
  ends_soon (sequence_from fuel details (RestartTolerant fuel machine_client) namespace operations
               n rest) t.
Proof.
  intros Hrestart. revert n t. induction rest as [|op rest IH]; intros n t Hfuel; [done|].
  assert (Hconclude : ∀ error outcome t, ends_soon (conclude n error outcome) t)
    by (intros error [outcome|] t'; done).
  cbn [sequence_from]. intros [] t1 Ht1 _; cbn [bind]; [apply Hconclude|].
  eapply halts_seq; [apply execute_ends; [done|apply Hfuel; left]|].
  intros [[]|[error|error compensation]] t2 Ht2 _; [|apply Hconclude|apply Hconclude].
  cbn [bind update]. apply IH. intros op' Hop'. apply Hfuel. by right.
Qed.

Lemma op_wait_le operations op :
  op ∈ operations → (op_wait op ≤ fold_right (λ op, N.add (op_wait op)) 0 operations)%N.
Proof.
  induction operations as [|op' operations IH]; simpl; [by intros ?%elem_of_nil|].
  intros [->|Hop]%elem_of_cons; [lia|]. specialize (IH Hop). lia.
Qed.

(** C19: an execution always ends, with an outcome. Against any environment whose clock advances
    and whose timers fire on time, however Machines answer, keep failing, restart or stay
    unhealthy, executing a plan with the fuel its deadlines allow for returns, without a panic,
    an outcome that accounts for every operation of the plan: no polling loop runs forever. *)
Theorem execution_terminates {W} (env : ∀ e : Event Call, W → answer e * W) (clock : W → Instant)
    details plan with_tx w fuel :
  Timely typed env clock → one_row_each plan → enough_fuel plan.(plan_ops) ≤ fuel →
  ∃ outcome s w' log,
    run env (execute_operation_sequence fuel details plan) (pending_progress plan with_tx) w
      = Some (Some outcome, s, w', log)
    ∧ outcome_operations outcome = plan.(plan_ops).
Proof.
  intros Htimely Hrows Hfuel. unfold enough_fuel in Hfuel.
  destruct (halts_run typed env clock (execute_operation_sequence fuel details plan)
              (λ _ _, True) (pending_progress plan with_tx) w) as (o & s' & w' & log & Hrun & _).
  { unfold execute_operation_sequence. cbn [update bind]. apply sequence_ends; [lia|].
    intros op Hop%op_wait_le. lia. }
  destruct (emits_sound env _ _ _ _ _ _ _ _ (execution_emits fuel details plan with_tx Hrows) Hrun)
    as (outcome & more & -> & _ & _ & Hops & _).
  by exists outcome, s', w', log.
Qed.

(** The fuel of the sample runs is far below the bound, and they end too: the bound is for the
    longest deadlines a spec can ask for. *)
Lemma execution_terminates_witness :
  ∃ outcome s w log,
    run (sample_env (RuntimeExited 1))
      (execute_operation_sequence (enough_fuel sample_operations) (λ details _, details)
         sample_plan) (pending_progress sample_plan true) 0%N = Some (Some outcome, s, w, log)
    ∧ outcome_operations outcome = sample_operations.
Proof.
  apply (execution_terminates (sample_env (RuntimeExited 1)) (λ w, w)); [|reflexivity|apply le_n].
  apply sample_env_timely. intros []; simpl; try exact I. repeat constructor.
Defined.
