(* ===== verification/Engine.v ===== *)
(** * Planning and executing a Deploy

    [Client::preview] plans a Deploy and [Client::confirm] executes the plan
    ([ployz/src/deploy.rs]).  The two halves compose: what the planner promises
    about the operations of a plan and what the executor promises about the
    calls of an operation give what a Deploy does to the Cluster. *)

From S2P Require Import Prelude BTree Strings Values Machines StorageCapacity Volumes.
From S2P Require Import ServiceGraph Spec Services Deploy Eligibility Placement Reconcile VolumePlan.
From S2P Require Import Planner Preview Ledger Safety Process Execution Health Executor.
From S2P Require Import ExecutorTraces ExecutorSafety ExecutorOutcome ExecutorHalts.

Open Scope string_scope.
Open Scope list_scope.
Open Scope nat_scope.

Section Engine.
Context `{IpNetOps, ShapeJson}.
Context (random_id : ServiceName → ServiceId) (intent : DeployIntent) (snapshot : DeploySnapshot).

(** A Container the Deploy may end: observed in its Namespace and of an applied
    Service, or of one the target no longer declares when pruning is allowed. *)
Definition may_end (c : ContainerId) : Prop :=
  ∃ name, own intent snapshot name c ∧
    (name ∈ applied_names intent ∨
     (prune_refusal intent (is_observer_complete snapshot) = None ∧
      Namespace_is_reserved intent.(in_namespace) = false ∧ name ∉ target_names intent)).

(** What a Deploy may ask of a Machine, having created [created]. *)
Definition deploy_permits (created : list ContainerId) (c : Call) : Prop :=
  match c with
  | CallWaitObservations _ _ _ | CallServiceContainers _ | CallInspect _ _
  | CallPrepareVolumes _ _ => True
  | CallCreate _ _ namespace spec _ =>
      namespace = intent.(in_namespace) ∧ spec.(rs_name) ∈ applied_names intent
  | CallStart _ c | CallStop _ c _ | CallRemove _ c => may_end c ∨ c ∈ created
  | CallRemoveVolume _ => False
  end.

Lemma plan_deploy_shape plan :
  plan_deploy random_id intent snapshot = Ok plan →
  one_row_each plan ∧ plan.(preview).(preview_namespace) = intent.(in_namespace)
  ∧ ∃ planned, plan_operations random_id intent snapshot = Ok planned
               ∧ plan.(plan_ops) = planned.(operations).
Proof.
  unfold plan_deploy. intros Hp. apply result_bind_Ok in Hp as (planned & Hplanned & Hp).
  injection Hp as <-. split_and!; [|done|eauto].
  unfold one_row_each. simpl. unfold pending_rows. by rewrite length_imap.
Qed.

Lemma op_targets_touched m c op : (m, c) ∈ op_targets op → c ∈ touched op.
Proof.
  destruct op; simpl; try (by intros ?%elem_of_nil); try set_solver.
  intros Hc. apply list_elem_of_fmap. by exists (m, c).
Qed.

Lemma op_spec_named op spec : op_spec op = Some spec → op_service_name op = Some spec.(rs_name).
Proof. destruct op; simpl; naive_solver. Qed.

(** Position in a concatenation. *)
Lemma split_concat {A} (ls : list (list A)) pre x post :
  concat ls = pre ++ x :: post →
  ∃ i l before after, ls !! i = Some l ∧ l = before ++ x :: after ∧ before ⊆ pre.
Proof.
  revert pre. induction ls as [|l ls IH]; intros pre Hl; simpl in Hl; [by destruct pre|].
  apply app_eq_inv in Hl as [(k & Hk1 & Hk2)|(k & Hk1 & Hk2)].
  - destruct k as [|y k].
    + simpl in Hk2. destruct (IH [] (eq_sym Hk2)) as (i & l' & b & a & Hi & Hl' & Hb).
      exists (S i), l', b, a. split_and!; [done|done|set_solver].
    + injection Hk2 as <- Hk2. exists 0, l, pre, k. split_and!; [done|done|set_solver].
  - destruct (IH k Hk2) as (i & l' & b & a & Hi & Hl' & Hb).
    exists (S i), l', b, a. split_and!; [done|done|set_solver].
Qed.

(** C1: a Deploy touches only what it was asked about: planned from evidence of the Cluster and
    executed against Machines that answer anything, it starts, stops or removes only Containers
    of applied Services, of Services the target no longer declares when pruning is allowed, or
    that this execution created; it creates only applied Services in the Intent's Namespace; and
    it never removes a Docker Volume. *)
Theorem deploy_touches_only {W} (env : ∀ e : Event Call, W → answer e * W) fuel details plan
    with_tx w o s' w' log :
  plan_deploy random_id intent snapshot = Ok plan →
  run env (execute_operation_sequence fuel details plan) (pending_progress plan with_tx) w
  = Some (o, s', w', log) →
  ∀ pre x post, calls log = pre ++ x :: post → deploy_permits (created_ids pre) (called x).
Proof.
  intros (Hrow & Hns & planned & Hplanned & Hops)%plan_deploy_shape Hrun pre x post Hsplit.
  destruct (execution_confined_spec env _ _ _ _ _ _ _ _ _ Hrow Hrun)
    as (outcome & segments & _ & Hcalls & Hseg).
  rewrite Hcalls in Hsplit.
  apply split_concat in Hsplit as (i & l & before & after & Hi & Hl & Hbefore).
  destruct (Hseg i l Hi) as (_ & _ & op & Hop & Hpermit). specialize (Hpermit _ _ _ Hl).
  apply list_elem_of_lookup_2 in Hop. rewrite Hops in Hop.
  destruct (plan_touches_spec random_id intent snapshot planned op Hplanned Hop)
    as (Htouch & Hname & Hvol).
  assert (Hend : ∀ m c, (m, c) ∈ op_targets op ∨ m = op_machine_id op ∧ c ∈ created_ids before →
    may_end c ∨ c ∈ created_ids pre).
  { intros m c [Hc|[_ Hc]]; [left; by apply Htouch, (op_targets_touched m)|right].
    by apply (created_more before). }
  destruct (called x); simpl in *; eauto.
  - destruct Hpermit as (-> & _ & Hspec). split; [done|]. by apply Hname, op_spec_named.
  - by apply (Hvol id).
Qed.
End Engine.

(** ** The sample Deploy, planned and executed *)

Definition sample_planned :=
  plan_deploy (H := Cidr.ops) (H0 := sample_shape_json) (λ name, name) sample_intent
    sample_snapshot.

Definition sample_run (plan : DeployPlan) :=
  run (sample_env (RuntimeRunning HealthHealthy))
    (execute_operation_sequence 20 (λ details _, details) plan) (pending_progress plan true) 0%N.

(** The calls of the sample and what it creates: one Container of [api] is added, [old] is
    pruned. *)
Definition sample_asked : Result (option (list Call * list ContainerId)) (Fault PlanError) :=
  let? plan := sample_planned in
  Ok ((λ x, (map called (calls x.2), created_ids (calls x.2))) <$> sample_run plan).

Lemma sample_asks : ∃ asked,
  sample_asked = Ok (Some (asked, ["new"; "new"])) ∧ CallRemove "m1" "c9" ∈ asked.
Proof.
  eexists. split; [vm_compute; reflexivity|]. apply list_elem_of_In. simpl. tauto.
Qed.

Lemma deploy_touches_only_witness : may_end sample_intent sample_snapshot "c9".
Proof.
  destruct sample_asks as (asked & Hasked & Hin). unfold sample_asked in Hasked.
  destruct sample_planned as [plan|] eqn:Hplan; [|discriminate Hasked]. simpl in Hasked.
  destruct (sample_run plan) as [[[[o s'] w'] log]|] eqn:Hrun; [|discriminate Hasked].
  simpl in Hasked. injection Hasked as Hcalls Hids. rewrite <-Hcalls in Hin.
  apply list_elem_of_fmap in Hin as (x & Hx & Hxin).
  apply list_elem_of_split in Hxin as (pre & post & Hsplit).
  pose proof (@deploy_touches_only Cidr.ops sample_shape_json (λ name, name) sample_intent
                sample_snapshot N _ _ _ _ _ _ _ _ _ _ Hplan Hrun pre x post Hsplit) as Hp.
  rewrite <-Hx in Hp. destruct Hp as [Hp|Hp]; [exact Hp|]. exfalso.
  assert (Hnew : "c9" ∈ created_ids (calls log))
    by (rewrite Hsplit; eapply created_more; [|exact Hp]; intros y Hy; apply elem_of_app; by left).
  rewrite Hids in Hnew. by apply elem_of_cons in Hnew as [?|?%list_elem_of_singleton].
Defined.
