(* ===== verification/RuntimeOutcome.v ===== *)
(** * Runtime outcomes

    [ployz-core/src/config/runtime_outcome.rs]: admission of the evidence a
    runner records about a Deploy, and its projection to Services.  A preview is
    redacted once, when it is recorded; an outcome is matched against it
    operation by operation, and each planned Service is confirmed, failed or
    unattempted.

    The JSON layer is [Value], with serde's derived conversions as the class
    [Serde]; [decode] refuses evidence with keys serde would drop. *)

From S2P Require Import Prelude BTree Strings Values Volumes ServiceGraph Spec Services.
From S2P Require Import Deploy Preview Execution.

Open Scope string_scope.
Open Scope nat_scope.
Open Scope list_scope.

(** ** Errors ([config/validation.rs]) *)

Record ConfigError : Type := { ce_path : string; ce_message : string }.

Definition ConfigError_at (path message : string) : ConfigError :=
  {| ce_path := path; ce_message := message |}.

(** ** JSON *)

(** [serde_json::Value]: a number is its text, an object its map. *)
Inductive Value : Type :=
| VNull
| VBool (value : bool)
| VNumber (text : string)
| VString (text : string)
| VArray (items : list Value)
| VObject (fields : bmap string Value).

(** [==] on values of which not both are arrays and not both are objects. *)
Definition scalar_eqb (a b : Value) : bool :=
  match a, b with
  | VNull, VNull => true
  | VBool x, VBool y => Bool.eqb x y
  | VNumber x, VNumber y | VString x, VString y => String.eqb x y
  | _, _ => false
  end.

Fixpoint preserves_input (input decoded : Value) {struct input} : bool :=
  match input, decoded with
  | VObject input, VObject decoded =>
      (fix all fields :=
         match fields with
         | [] => true
         | (key, value) :: fields =>
             match bget decoded key with
             | Some decoded => preserves_input value decoded
             | None => false
             end && all fields
         end) input
  | VArray input, VArray decoded =>
      Nat.eqb (length input) (length decoded)
      && (fix zipped input decoded :=
            match input, decoded with
            | x :: input, y :: decoded => preserves_input x y && zipped input decoded
            | _, _ => true
            end) input decoded
  | _, _ => scalar_eqb input decoded
  end.

(** What serde derives for a type, and its round trip. *)
Class Serde (T : Type) := {
  from_value : Value → option T;
  to_value : T → Value
}.

Definition runtime_invalid : ConfigError :=
  ConfigError_at "runtimeOutcome" "Invalid current SDK deployment evidence".

Definition decode {T} `{Serde T} (value : Value) : Result T (Fault ConfigError) :=
  match from_value value with
  | None => Err (Fails runtime_invalid)
  | Some decoded =>
      if preserves_input value (to_value decoded) then Ok decoded
      else Err (Fails runtime_invalid)
  end.

(** ** Projection *)

Record RuntimeOutcomeEvidence : Type := {
  evidence_version : N;
  evidence_outcome : DeployOutcome ExecutionError
}.

Inductive RuntimeFailureKind : Type :=
| FailureMachine | FailureHealth | FailureDependencyHealth | FailureHook | FailureCancelled.

Inductive RuntimeOutcomeSummary : Type :=
| SummarySuccess (completed : nat)
| SummaryFailed (completed unexecuted : nat) (reason : RuntimeFailureKind).

Record RuntimeOutcomeProjection : Type := {
  projection_summary : RuntimeOutcomeSummary;
  confirmed_services : list ServiceName;
  failed_services : list ServiceName;
  unattempted_services : list ServiceName
}.

(** How far a Service's planned operations got. *)
Inductive ServiceProgress : Type := ServiceCompleted | ServiceFailed | ServiceUnattempted.

#[global] Instance ServiceProgress_eq_dec : EqDecision ServiceProgress.
Proof. solve_decision. Defined.

Definition progress_merge (self other : ServiceProgress) : ServiceProgress :=
  match self, other with
  | ServiceCompleted, ServiceCompleted => ServiceCompleted
  | ServiceUnattempted, ServiceUnattempted => ServiceUnattempted
  | _, _ => ServiceFailed
  end.

#[global] Instance ServiceStorageSpec_eq_dec : EqDecision ServiceStorageSpec.
Proof. solve_decision. Defined.
#[global] Instance QualifiedService_eq_dec : EqDecision QualifiedService.
Proof. solve_decision. Defined.
#[global] Instance StopContainerPurpose_eq_dec : EqDecision StopContainerPurpose.
Proof. solve_decision. Defined.
#[global] Instance ReplacementOperation_eq_dec : EqDecision ReplacementOperation.
Proof. solve_decision. Defined.
#[global] Instance DeployOperation_eq_dec : EqDecision DeployOperation.
Proof. solve_decision. Defined.

Definition set_environment (env : StringMap) (c : ServiceContainerSpec) : ServiceContainerSpec :=
  {| image := c.(image); command := c.(command); entrypoint := c.(entrypoint);
     environment := env; container_labels := c.(container_labels);
     container_hostname := c.(container_hostname); extra_hosts := c.(extra_hosts);
     cap_add := c.(cap_add); cap_drop := c.(cap_drop); healthcheck := c.(healthcheck);
     pull_policy := c.(pull_policy); init := c.(init); user := c.(user);
     working_directory := c.(working_directory); tty := c.(tty); open_stdin := c.(open_stdin);
     privileged := c.(privileged); pid_mode := c.(pid_mode); log_driver := c.(log_driver);
     resources := c.(resources); stop_timeout_secs := c.(stop_timeout_secs);
     sysctls := c.(sysctls); restart := c.(restart) |}.

Definition clear_environment : ServiceContainerSpec → ServiceContainerSpec := set_environment [].

Definition without_environment (spec : ResolvedServiceSpec) : ResolvedServiceSpec :=
  {| rs_service_id := spec.(rs_service_id); rs_name := spec.(rs_name); rs_mode := spec.(rs_mode);
     rs_container := clear_environment spec.(rs_container); rs_placement := spec.(rs_placement);
     rs_ports := spec.(rs_ports); rs_mount_graph := spec.(rs_mount_graph);
     rs_pre_deploy := spec.(rs_pre_deploy); rs_update := spec.(rs_update) |}.

Definition clear_content (config : ConfigSpec) : ConfigSpec :=
  {| config_name := config.(config_name); config_content := [] |}.

(** [RequestedServiceSpec::set_config_graph] ([domain/spec.rs]). *)
Definition set_config_graph (self : RequestedServiceSpec) (configs : ServiceConfigGraph)
    : Result RequestedServiceSpec (Fault ServiceSpecGraphError) :=
  let? mount_graph := ServiceMountGraph_parse self.(rq_mount_graph).(mg_volumes) configs in
  Ok {| rq_name := self.(rq_name); rq_mode := self.(rq_mode); rq_container := self.(rq_container);
        rq_placement := self.(rq_placement); rq_ports := self.(rq_ports);
        rq_mount_graph := mount_graph; rq_pre_deploy := self.(rq_pre_deploy);
        rq_update := self.(rq_update) |}.

(** [.map_err(|_| invalid())?], where a panic stays one. *)
Definition or_invalid {T E} (r : Result T (Fault E)) : Result T (Fault ConfigError) :=
  map_err (λ fault, match fault with Fails _ => Fails runtime_invalid | Panics => Panics end) r.

Definition redact_planned (spec : ResolvedServiceSpec)
    : Result ResolvedServiceSpec (Fault ConfigError) :=
  let spec := without_environment spec in
  let graph := spec.(rs_mount_graph).(mg_configs) in
  let? configs :=
    or_invalid (map_err Fails (ServiceConfigGraph_parse (map clear_content graph.(graph_configs))
                                 graph.(graph_config_mounts))) in
  let? requested := or_invalid (set_config_graph (to_requested spec) configs) in
  or_invalid (map_err Fails (to_resolved requested spec.(rs_service_id) spec.(rs_update))).

Definition redact_operation (operation : DeployOperation)
    : Result DeployOperation (Fault ConfigError) :=
  match operation with
  | RunContainer m spec skip => let? spec := redact_planned spec in Ok (RunContainer m spec skip)
  | RunHook m spec old => let? spec := redact_planned spec in Ok (RunHook m spec old)
  | ReplaceContainer r =>
      let? spec := redact_planned r.(repl_spec) in
      Ok (ReplaceContainer
            {| repl_machine_id := r.(repl_machine_id);
               repl_old_container_id := r.(repl_old_container_id); repl_spec := spec;
               repl_skip_health_monitor := r.(repl_skip_health_monitor) |})
  | PrepareVolumes _ _ | WaitHealthy _ _ _ | StopContainer _ _ _ | RemoveContainer _ _
  | StopHook _ _ | RemoveVolume _ => Ok operation
  end.

Definition with_operation (row : OperationRow) (operation : DeployOperation) : OperationRow :=
  {| row_index := row.(row_index); row_machine_id := row.(row_machine_id);
     row_machine_name := row.(row_machine_name); row_operation := operation;
     row_display_name := row.(row_display_name); row_service_name := row.(row_service_name);
     row_status := row.(row_status) |}.

Definition redact_row (row : OperationRow) : Result OperationRow (Fault ConfigError) :=
  let? operation := redact_operation row.(row_operation) in
  Ok (with_operation row operation).

Definition redact_preview (preview : DeployPreview) : Result DeployPreview (Fault ConfigError) :=
  let? rows := collect_result redact_row preview.(preview_operations) in
  Ok {| storage := preview.(storage); preview_namespace := preview.(preview_namespace);
        preview_operations := rows; preview_warnings := preview.(preview_warnings);
        volumes_to_create := preview.(volumes_to_create);
        preview_would_remove := preview.(preview_would_remove);
        preview_preserved_volumes := preview.(preview_preserved_volumes);
        preview_prune_refusal := preview.(preview_prune_refusal) |}.

Definition parse_runtime_preview `{Serde DeployPreview} (value : Value)
    : Result DeployPreview (Fault ConfigError) :=
  let? preview := decode value in redact_preview preview.

Definition runtime_failure_kind (error : ExecutionError) : RuntimeFailureKind :=
  match error with
  | MachineError _ _ => FailureMachine
  | HealthError _ _ => FailureHealth
  | DependencyHealthError _ _ => FailureDependencyHealth
  | HookError _ _ => FailureHook
  | ExecutionCancelled => FailureCancelled
  end.

(** What an outcome says: its summary, and each operation with how far it got. *)
Definition failed_parts (failed : FailedOperation ExecutionError)
    : DeployOperation * ExecutionError :=
  match failed with
  | FailedPlain operation error => (operation, error)
  | FailedReplacement operation error _ => (ReplaceContainer operation, error)
  end.

Definition outcome_parts (outcome : DeployOutcome ExecutionError)
    : RuntimeOutcomeSummary * list DeployOperation * option DeployOperation
      * list DeployOperation :=
  match outcome with
  | DeploySuccess completed => (SummarySuccess (length completed), completed, None, [])
  | DeployFailed completed failed unexecuted =>
      let '(operation, error) := failed_parts failed in
      (SummaryFailed (length completed) (length unexecuted) (runtime_failure_kind error),
       completed, Some operation, unexecuted)
  end.

Definition outcome_progress (completed : list DeployOperation) (failed : option DeployOperation)
    (pending : list DeployOperation) : list (DeployOperation * ServiceProgress) :=
  map (λ operation, (operation, ServiceCompleted)) completed
  ++ map (λ operation, (operation, ServiceFailed)) (option_list failed)
  ++ map (λ operation, (operation, ServiceUnattempted)) pending.

Fixpoint find_row (rows : list OperationRow) (index : nat) (matched : list bool)
    (operation : DeployOperation) : option (nat * OperationRow) :=
  match rows with
  | [] => None
  | row :: rows =>
      if negb (default true (matched !! index)) && bool_decide (row.(row_operation) = operation)
      then Some (index, row)
      else find_row rows (S index) matched operation
  end.

Definition row_service (row : OperationRow) : option ServiceName :=
  option_or row.(row_service_name) (op_service_name row.(row_operation)).

Definition names_differ (declared carried : option ServiceName) : bool :=
  match declared, carried with
  | Some declared, Some carried => negb (String.eqb declared carried)
  | _, _ => false
  end.

Definition serves_nobody (operation : DeployOperation) : bool :=
  match operation with PrepareVolumes _ _ | RemoveVolume _ => true | _ => false end.

Definition note_progress (services : bmap ServiceName ServiceProgress) (service : ServiceName)
    (progress : ServiceProgress) : bmap ServiceName ServiceProgress :=
  binsert service (progress_merge (default progress (bget services service)) progress) services.

Definition match_operation (rows : list OperationRow)
    (state : list bool * bmap ServiceName ServiceProgress)
    (done : DeployOperation * ServiceProgress)
    : Result (list bool * bmap ServiceName ServiceProgress) (Fault ConfigError) :=
  let '(matched, services) := state in
  let '(operation, progress) := done in
  let? operation := redact_operation operation in
  let? '(index, row) := ok_or (find_row rows 0 matched operation) (Fails runtime_invalid) in
  let matched := <[index := true]> matched in
  if negb (String.eqb row.(row_machine_id) (op_machine_id operation)) then Err (Fails runtime_invalid)
  else if names_differ row.(row_service_name) (op_service_name operation)
  then Err (Fails runtime_invalid)
  else
    match row_service row with
    | Some service => Ok (matched, note_progress services service progress)
    | None => if serves_nobody operation then Ok (matched, services)
              else Err (Fails runtime_invalid)
    end.

Definition services_with (services : bmap ServiceName ServiceProgress) (wanted : ServiceProgress)
    : list ServiceName :=
  bkeys (List.filter (λ entry, bool_decide (entry.2 = wanted)) services).

Definition project_evidence (preview : DeployPreview) (evidence : RuntimeOutcomeEvidence)
    : Result RuntimeOutcomeProjection (Fault ConfigError) :=
  if negb (evidence.(evidence_version) =? 1)%N then Err (Fails runtime_invalid)
  else
    let '(summary, completed, failed, pending) := outcome_parts evidence.(evidence_outcome) in
    let rows := preview.(preview_operations) in
    if negb (Nat.eqb (length completed + length (option_list failed) + length pending)
               (length rows))
    then Err (Fails runtime_invalid)
    else
      let? '(_, services) :=
        try_fold (match_operation rows) (outcome_progress completed failed pending)
          (repeat false (length rows), []) in
      Ok {| projection_summary := summary;
            confirmed_services := services_with services ServiceCompleted;
            failed_services := services_with services ServiceFailed;
            unattempted_services := services_with services ServiceUnattempted |}.

Definition project_runtime_outcome `{Serde RuntimeOutcomeEvidence} (preview : DeployPreview)
    (value : Value) : Result RuntimeOutcomeProjection (Fault ConfigError) :=
  let? evidence := decode value in project_evidence preview evidence.

(** ** Decoding what serde wrote *)

Fixpoint value_wf (v : Value) : Prop :=
  match v with
  | VArray items =>
      (fix all items := match items with [] => True | x :: items => value_wf x ∧ all items end) items
  | VObject fields =>
      NoDup (bkeys fields)
      ∧ (fix all fields :=
           match fields with [] => True | (_, x) :: fields => value_wf x ∧ all fields end) fields
  | _ => True
  end.

Class SerdeLaws (T : Type) `{Serde T} := {
  from_to_value (x : T) : from_value (to_value x) = Some x;
  to_value_wf (x : T) : value_wf (to_value x)
}.

Lemma bget_NoDup {V} (m : bmap string V) k v : NoDup (bkeys m) → (k, v) ∈ m → bget m k = Some v.
Proof.
  induction m as [|[k' v'] m IH]; simpl; [set_solver|]. intros [Hk Hm]%NoDup_cons.
  rewrite elem_of_cons. intros [?|Hin]; simplify_eq.
  - by rewrite decide_True.
  - rewrite decide_False; [auto|]. intros ->. apply Hk. unfold bkeys.
    apply list_elem_of_fmap. eexists; split; [|exact Hin]. done.
Qed.

Lemma preserves_input_refl v : value_wf v → preserves_input v v = true.
Proof.
  revert v. fix IH 1. intros [|b|t|t|items|fields]; simpl; intros Hwf; try done.
  - by destruct b.
  - by apply String.eqb_refl.
  - by apply String.eqb_refl.
  - rewrite Nat.eqb_refl. simpl. induction items as [|x items IHi]; [done|].
    destruct Hwf as [Hx Hi]. rewrite IH by done. by apply IHi.
  - destruct Hwf as [Hnd Hwf].
    assert (∀ k v, (k, v) ∈ fields → bget fields k = Some v) as Hget
      by (intros; by apply bget_NoDup).
    revert Hget. generalize fields at 2 3. clear Hnd.
    induction fields as [|[k v] fields IHf]; intros all Hget; [done|].
    destruct Hwf as [Hv Hf]. rewrite (Hget k v) by set_solver. rewrite IH by done. simpl.
    apply IHf; [done|]. intros k' v' Hin. apply Hget. set_solver.
Qed.

Lemma decode_to_value {T} `{SerdeLaws T} (x : T) : decode (to_value x) = Ok x.
Proof.
  unfold decode. rewrite from_to_value. by rewrite preserves_input_refl by apply to_value_wf.
Qed.

(** ** The matching of operations to rows *)

Lemma find_row_Some rows index matched operation i row :
  find_row rows index matched operation = Some (i, row) →
  (index ≤ i)%nat ∧ rows !! (i - index)%nat = Some row ∧ matched !! i = Some false
  ∧ row.(row_operation) = operation.
Proof.
  revert index. induction rows as [|r rows IH]; intros index; simpl; [done|].
  destruct (matched !! index) as [[]|] eqn:Hm; simpl; try case_bool_decide as Ho;
    intros Hf; simplify_eq.
  all: try (apply IH in Hf as (? & Hr & ? & ?); split_and!; [lia| |done..];
            by replace (i - index)%nat with (S (i - S index)) by lia).
  split_and!; [lia| |done..]. by rewrite Nat.sub_diag.
Qed.

Lemma omap_insert_perm {A B} (f : A → option B) (l : list A) i x y :
  l !! i = Some x → f x = None → omap f (<[i := y]> l) ≡ₚ option_list (f y) ++ omap f l.
Proof.
  intros Hx Hf. rewrite insert_take_drop by (by eapply lookup_lt_Some).
  rewrite <-(take_drop_middle l i x Hx) at 3. rewrite !omap_app. simpl. rewrite Hf.
  destruct (f y); simpl; [|done]. by rewrite Permutation_middle.
Qed.

Definition of_service (s : ServiceName) (entry : OperationRow * option ServiceProgress)
    : option ServiceProgress :=
  if decide (row_service entry.1 = Some s) then entry.2 else None.

Definition as_done (entry : OperationRow * option ServiceProgress)
    : option (DeployOperation * ServiceProgress) :=
  pair entry.1.(row_operation) <$> entry.2.

(** The progress of a Service whose operations got as far as [ps]. *)
Definition progress_verdict (ps : list ServiceProgress) : option ServiceProgress :=
  if bool_decide (ps = []) then None
  else if forallb (λ p, bool_decide (p = ServiceCompleted)) ps then Some ServiceCompleted
  else if forallb (λ p, bool_decide (p = ServiceUnattempted)) ps then Some ServiceUnattempted
  else Some ServiceFailed.

Lemma verdict_perm ps qs : ps ≡ₚ qs → progress_verdict ps = progress_verdict qs.
Proof.
  intros Hp. unfold progress_verdict.
  assert (∀ f, forallb f ps = forallb f qs) as Hall.
  { intros f. apply eq_true_iff_eq. rewrite !forallb_elem. by setoid_rewrite Hp. }
  rewrite !Hall. destruct ps as [|p ps], qs as [|q qs]; try done.
  - by apply Permutation_nil_l in Hp.
  - by apply Permutation_nil_r in Hp.
Qed.

Lemma verdict_cons p ps :
  progress_verdict (p :: ps) = Some (progress_merge (default p (progress_verdict ps)) p).
Proof.
  unfold progress_verdict. simpl. destruct ps as [|q ps]; [by destruct p|].
  rewrite (bool_decide_eq_false_2 (q :: ps = [])) by done.
  set (c := forallb _ (q :: ps)). set (u := forallb _ (q :: ps)).
  assert (c = true → u = true → False).
  { unfold c, u. simpl. repeat case_bool_decide; simplify_eq; done. }
  destruct p, c, u; simpl; try done; exfalso; auto.
Qed.

Section Matching.
Context (rows : list OperationRow).

Record matching (state : list bool * bmap ServiceName ServiceProgress)
    (done : list (DeployOperation * ServiceProgress)) (marks : list (option ServiceProgress))
    : Prop := {
  marks_length : length marks = length rows;
  marks_matched : state.1 = map (λ mark, bool_decide (is_Some mark)) marks;
  marks_done : omap as_done (zip rows marks) ≡ₚ done;
  marks_wf : bwf state.2;
  marks_services s : bget state.2 s = progress_verdict (omap (of_service s) (zip rows marks))
}.

Lemma matching_start :
  matching (repeat false (length rows), []) [] (repeat None (length rows)).
Proof.
  assert (∀ B (f : OperationRow * option ServiceProgress → option B),
             (∀ row, f (row, None) = None) → omap f (zip rows (repeat None (length rows))) = [])
    as Hnone.
  { intros B f Hf. induction rows as [|row rs IH]; simpl; [done|]. by rewrite Hf. }
  split; simpl.
  - apply repeat_length.
  - clear Hnone. induction rows as [|row rs IH]; simpl; [done|]. by rewrite IH.
  - by rewrite Hnone.
  - constructor.
  - intros s. rewrite Hnone; [done|]. intros row. unfold of_service. by destruct (decide _).
Qed.

Lemma note_progress_verdict services s p s' ps :
  bget services s' = progress_verdict ps →
  bget (note_progress services s p) s'
  = progress_verdict (if decide (s = s') then p :: ps else ps).
Proof.
  intros Hs. unfold note_progress. rewrite bget_binsert. destruct (decide (s = s')) as [->|].
  - rewrite decide_True by done. by rewrite verdict_cons, Hs.
  - by rewrite decide_False by congruence.
Qed.

Lemma match_operation_step state done marks operation progress state' :
  matching state done marks →
  match_operation rows state (operation, progress) = Ok state' →
  ∃ redacted i row, redact_operation operation = Ok redacted
    ∧ find_row rows 0 state.1 redacted = Some (i, row)
    ∧ matching state' ((redacted, progress) :: done) (<[i := Some progress]> marks).
Proof.
  destruct state as [matched services]. intros [Hlen Hmatched Hdone Hwf Hsvc]. simpl in *.
  intros H. apply result_bind_Ok in H as (redacted & Hred & H).
  apply result_bind_Ok in H as ([i row] & Hfind & H). apply ok_or_Ok in Hfind.
  exists redacted, i, row. split_and!; [done..|].
  apply find_row_Some in Hfind as (_ & Hrow & Hfalse & <-). rewrite Nat.sub_0_r in Hrow.
  destruct (negb _); [done|]. destruct (names_differ _ _); [done|].
  assert (marks !! i = Some None) as Hmark.
  { rewrite Hmatched, list_lookup_fmap in Hfalse. destruct (marks !! i) as [[]|]; naive_solver. }
  assert (zip rows marks !! i = Some (row, None)) as Hzip
    by (apply lookup_zip_with_Some; eauto).
  assert (zip rows (<[i := Some progress]> marks) = <[i := (row, Some progress)]> (zip rows marks))
    as Hins by (rewrite insert_zip_with, (list_insert_id rows) by done; done).
  assert (∀ s, omap (of_service s) (zip rows (<[i := Some progress]> marks))
               ≡ₚ option_list (of_service s (row, Some progress))
                    ++ omap (of_service s) (zip rows marks)) as Hperm.
  { intros s. rewrite Hins. apply omap_insert_perm with (row, None); [done|].
    unfold of_service. by destruct (decide _). }
  assert (matching (<[i := true]> matched, state'.2)
            ((row.(row_operation), progress) :: done) (<[i := Some progress]> marks)
          ∧ state'.1 = <[i := true]> matched) as [? Heq].
  2:{ destruct state'; simpl in *; by subst. }
  assert (bwf state'.2 ∧ state'.1 = <[i := true]> matched
          ∧ ∀ s, bget state'.2 s
                 = progress_verdict (option_list (of_service s (row, Some progress))
                              ++ omap (of_service s) (zip rows marks))) as (? & ? & Hv).
  { unfold of_service. simpl. destruct (row_service row) as [s0|].
    - injection H as <-. simpl. split_and!; [by apply bwf_binsert|done|]. intros s.
      rewrite (note_progress_verdict _ _ _ _ _ (Hsvc s)). simpl.
      destruct (decide (s0 = s)) as [->|]; [by rewrite decide_True|].
      by rewrite decide_False by congruence.
    - destruct (serves_nobody _); [|done]. injection H as <-. simpl. split_and!; [done..|].
      intros s. apply Hsvc. }
  split; [|done]. split; simpl; [by rewrite length_insert| |  |done|].
  - rewrite Hmatched. by rewrite list_fmap_insert.
  - rewrite Hins, (omap_insert_perm as_done _ _ _ _ Hzip) by done. simpl. by constructor.
  - intros s. rewrite Hv. symmetry. by apply verdict_perm.
Qed.

Lemma match_operations_run todo state done marks state' :
  matching state done marks →
  try_fold (match_operation rows) todo state = Ok state' →
  ∃ redacted marks',
    Forall2 (λ entry operation, redact_operation entry.1 = Ok operation) todo redacted
    ∧ matching state' (done ++ zip redacted (map snd todo)) marks'.
Proof.
  revert state done marks. induction todo as [|[operation progress] todo IH];
    intros state done marks Hm; simpl.
  - intros [= <-]. exists [], marks. split; [constructor|]. by rewrite app_nil_r.
  - intros H. apply result_bind_Ok in H as (state1 & H1 & H).
    destruct (match_operation_step _ _ _ _ _ _ Hm H1) as (redacted & i & row & Hred & _ & Hm1).
    destruct (IH _ _ _ Hm1 H) as (rest & marks' & Hrest & Hm').
    exists (redacted :: rest), marks'. split; [by constructor|]. simpl.
    destruct Hm' as [? ? Hd ? ?]. split; [done..| |done|done]. rewrite Hd. simpl.
    by rewrite Permutation_middle.
Qed.
End Matching.

(** How far the rows of Service [s] got, when the [i]-th row got as far as [progress !! i]. *)
Definition service_progress (rows : list OperationRow) (progress : list ServiceProgress)
    (s : ServiceName) : list ServiceProgress :=
  omap (of_service s) (zip rows (map Some progress)).

Lemma verdict_Some ps p :
  progress_verdict ps = Some p ↔
  ps ≠ [] ∧
  match p with
  | ServiceCompleted => Forall (λ q, q = ServiceCompleted) ps
  | ServiceUnattempted => Forall (λ q, q = ServiceUnattempted) ps
  | ServiceFailed => ¬ Forall (λ q, q = ServiceCompleted) ps
                     ∧ ¬ Forall (λ q, q = ServiceUnattempted) ps
  end.
Proof.
  assert (∀ p0, forallb (λ q, bool_decide (q = p0)) ps = true ↔ Forall (λ q, q = p0) ps) as Hall.
  { intros p0. rewrite forallb_elem, Forall_forall. by setoid_rewrite bool_decide_eq_true. }
  pose proof (Hall ServiceCompleted) as Hc. pose proof (Hall ServiceUnattempted) as Hu. clear Hall.
  assert (ps ≠ [] → Forall (λ q, q = ServiceCompleted) ps →
          Forall (λ q, q = ServiceUnattempted) ps → False) as Hno.
  { destruct ps as [|q ps]; [done|]. intros _ [? _]%Forall_cons [? _]%Forall_cons. congruence. }
  unfold progress_verdict. case_bool_decide as He; [split; [done|by intros [? _]]|].
  revert Hc Hu Hno. generalize (Forall (λ q, q = ServiceCompleted) ps).
  generalize (Forall (λ q, q = ServiceUnattempted) ps). intros U C.
  generalize (forallb (λ q, bool_decide (q = ServiceCompleted)) ps).
  generalize (forallb (λ q, bool_decide (q = ServiceUnattempted)) ps).
  intros u c [Hc1 Hc2] [Hu1 Hu2] Hno.
  assert (c = false → ¬ C) by (intros -> HC; specialize (Hc2 HC); done).
  assert (u = false → ¬ U) by (intros -> HU; specialize (Hu2 HU); done).
  destruct c, u, p; split; intros H'; try discriminate H'; intuition congruence.
Qed.

Lemma elem_of_services_with services p s :
  bwf services → s ∈ services_with services p ↔ bget services s = Some p.
Proof.
  intros Hwf. rewrite bget_Some by done. unfold services_with, bkeys.
  rewrite list_elem_of_fmap. setoid_rewrite elem_of_filterb. setoid_rewrite bool_decide_eq_true.
  split; [intros ([??] & -> & ? & <-); done|]. intros ?. by exists (s, p).
Qed.

Lemma length_omap_le {A B} (f : A → option B) (l : list A) : (length (omap f l) ≤ length l)%nat.
Proof. induction l as [|x l IH]; cbn; [done|]. destruct (f x); cbn; lia. Qed.

Lemma marks_full {A B} (rows : list A) (marks : list (option B)) :
  length marks = length rows →
  length (omap (λ entry : A * option B, entry.2) (zip rows marks)) = length rows →
  ∃ progress, marks = map Some progress.
Proof.
  revert marks. induction rows as [|row rows IH]; intros [|mark marks] Hl Ho; cbn in *; try done.
  - by exists [].
  - destruct mark as [p|]; cbn in Ho.
    + destruct (IH marks) as [progress ->]; [lia..|]. by exists (p :: progress).
    + pose proof (length_omap_le (λ entry : A * option B, entry.2) (zip rows marks)) as Hle.
      rewrite length_zip_with in Hle. lia.
Qed.

Definition outcome_todo (outcome : DeployOutcome ExecutionError)
    : list (DeployOperation * ServiceProgress) :=
  let '(_, completed, failed, pending) := outcome_parts outcome in
  outcome_progress completed failed pending.

Lemma outcome_todo_length outcome :
  let '(_, completed, failed, pending) := outcome_parts outcome in
  length (outcome_todo outcome)
  = (length completed + length (option_list failed) + length pending)%nat.
Proof.
  unfold outcome_todo. destruct (outcome_parts outcome) as [[[? completed] failed] pending].
  unfold outcome_progress. rewrite !length_app, !length_map. lia.
Qed.

(** The three lists of a projection classify the Services by [progress]. *)
Record classifies (rows : list OperationRow) (progress : list ServiceProgress)
    (projection : RuntimeOutcomeProjection) : Prop := {
  classifies_confirmed s :
    s ∈ projection.(confirmed_services) ↔
    service_progress rows progress s ≠ []
    ∧ Forall (λ p, p = ServiceCompleted) (service_progress rows progress s);
  classifies_failed s :
    s ∈ projection.(failed_services) ↔
    service_progress rows progress s ≠ []
    ∧ ¬ Forall (λ p, p = ServiceCompleted) (service_progress rows progress s)
    ∧ ¬ Forall (λ p, p = ServiceUnattempted) (service_progress rows progress s);
  classifies_unattempted s :
    s ∈ projection.(unattempted_services) ↔
    service_progress rows progress s ≠ []
    ∧ Forall (λ p, p = ServiceUnattempted) (service_progress rows progress s)
}.

Lemma matching_classifies rows state done progress projection :
  matching rows state done (map Some progress) →
  projection.(confirmed_services) = services_with state.2 ServiceCompleted →
  projection.(failed_services) = services_with state.2 ServiceFailed →
  projection.(unattempted_services) = services_with state.2 ServiceUnattempted →
  classifies rows progress projection.
Proof.
  intros Hm Hc Hf Hu.
  split; intros s; rewrite ?Hc, ?Hf, ?Hu, elem_of_services_with by apply Hm;
    rewrite (marks_services _ _ _ _ Hm s); apply verdict_Some.
Qed.

Lemma matching_full rows state done marks :
  matching rows state done marks → length done = length rows →
  ∃ progress, marks = map Some progress
    ∧ zip (map row_operation rows) progress ≡ₚ done.
Proof.
  intros [Hlen _ Hdone _ _] Hl.
  destruct (marks_full rows marks Hlen) as [progress ->].
  { rewrite <-Hl, <-(Permutation_length Hdone). clear.
    induction (zip rows marks) as [|[row mark] l IH]; [done|].
    destruct mark; cbn; [by f_equal|done]. }
  exists progress. split; [done|]. rewrite <-Hdone.
  clear. revert progress. induction rows as [|row rows IH]; intros [|p progress]; try done.
  cbn. by rewrite (IH progress).
Qed.

(** C12: admitted evidence accounts for the whole preview. Each operation of the
    outcome is, redacted, the operation of one row of its own, and all rows are
    accounted for; a Service is confirmed exactly when every one of its rows was
    completed, unattempted when none was attempted, and failed otherwise. *)
Theorem projection_exact preview evidence projection :
  project_evidence preview evidence = Ok projection →
  ∃ redacted progress,
    Forall2 (λ entry operation, redact_operation entry.1 = Ok operation)
      (outcome_todo evidence.(evidence_outcome)) redacted
    ∧ zip (map row_operation preview.(preview_operations)) progress
      ≡ₚ zip redacted (map snd (outcome_todo evidence.(evidence_outcome)))
    ∧ length progress = length preview.(preview_operations)
    ∧ classifies preview.(preview_operations) progress projection.
Proof.
  unfold project_evidence. destruct (negb _); [done|]. intros H.
  pose proof (outcome_todo_length evidence.(evidence_outcome)) as Hlen.
  unfold outcome_todo in *.
  destruct (outcome_parts _) as [[[summary completed] failed] pending].
  destruct (Nat.eqb_spec (length completed + length (option_list failed) + length pending)
              (length preview.(preview_operations))) as [Hl|]; [|done]. simpl in H.
  apply result_bind_Ok in H as (state & Hrun & H). destruct state as [matched services].
  injection H as <-.
  destruct (match_operations_run _ _ _ _ _ _ (matching_start _) Hrun)
    as (redacted & marks & Hred & Hm). simpl in Hm.
  destruct (matching_full _ _ _ _ Hm) as (progress & -> & Hperm).
  { rewrite length_zip_with, length_map, <-(Forall2_length _ _ _ Hred). lia. }
  exists redacted, progress. split_and!; [done..| |by eapply matching_classifies].
  destruct Hm as [Hlen' _ _ _ _]. by rewrite length_map in Hlen'.
Qed.

(** ** Evidence of the planned operations is admitted *)

(** What a row must say of its operation for evidence about it to be admitted. *)
Definition row_fits (row : OperationRow) : Prop :=
  row.(row_machine_id) = op_machine_id row.(row_operation)
  ∧ names_differ row.(row_service_name) (op_service_name row.(row_operation)) = false
  ∧ (row_service row = None → serves_nobody row.(row_operation) = true).

Lemma redact_planned_name spec spec' : redact_planned spec = Ok spec' → spec'.(rs_name) = spec.(rs_name).
Proof.
  unfold redact_planned, or_invalid, set_config_graph, to_resolved. intros H.
  apply result_bind_Ok in H as (configs & _ & H).
  apply result_bind_Ok in H as (requested & Hr & H).
  destruct (ServiceMountGraph_parse _ _) as [graph|[]]; simpl in Hr; simplify_eq. simpl in H.
  destruct (ResolvedServiceMountGraph_try_from _); simpl in H; by simplify_eq.
Qed.

Lemma redact_operation_keeps op op' :
  redact_operation op = Ok op' →
  op_machine_id op' = op_machine_id op ∧ op_service_name op' = op_service_name op
  ∧ op_container_id op' = op_container_id op ∧ serves_nobody op' = serves_nobody op.
Proof.
  destruct op; simpl; intros H; simplify_eq; try done;
    apply result_bind_Ok in H as (spec' & Hs%redact_planned_name & [= <-]); simpl; by rewrite Hs.
Qed.

Lemma redact_row_fits row row' : redact_row row = Ok row' → row_fits row → row_fits row'.
Proof.
  unfold redact_row. intros H. apply result_bind_Ok in H as (op & Hop & [= <-]).
  apply redact_operation_keeps in Hop as (Hm & Hs & _ & Hn).
  unfold row_fits, row_service. simpl. by rewrite Hm, Hs, Hn.
Qed.

Lemma redact_row_operation row row' :
  redact_row row = Ok row' → redact_operation row.(row_operation) = Ok row'.(row_operation).
Proof. unfold redact_row. intros H. by apply result_bind_Ok in H as (op & Hop & [= <-]). Qed.

Lemma find_row_next before index matched row rest :
  (∀ i, i < length before → matched !! (index + i)%nat = Some true) →
  matched !! (index + length before)%nat = Some false →
  find_row (before ++ row :: rest) index matched row.(row_operation)
  = Some ((index + length before)%nat, row).
Proof.
  revert index. induction before as [|b before IH]; intros index Ht Hf; simpl.
  - simpl in Hf. rewrite Nat.add_0_r in *. rewrite Hf. simpl.
    by rewrite bool_decide_eq_true_2.
  - pose proof (Ht O ltac:(simpl; lia)) as H0. rewrite Nat.add_0_r in H0. rewrite H0. simpl.
    rewrite <-Nat.add_succ_comm. apply IH.
    + intros i Hi. rewrite Nat.add_succ_comm. apply Ht. simpl. lia.
    + rewrite Nat.add_succ_comm. done.
Qed.

Lemma match_operation_next before row rest matched services operation progress :
  redact_operation operation = Ok row.(row_operation) → row_fits row →
  matched = repeat true (length before) ++ repeat false (S (length rest)) →
  find_row (before ++ row :: rest) 0 matched row.(row_operation) = Some (length before, row)
  ∧ ∃ services',
    match_operation (before ++ row :: rest) (matched, services) (operation, progress)
    = Ok (repeat true (S (length before)) ++ repeat false (length rest), services').
Proof.
  intros Hred (Hm & Hn & Hnobody) ->.
  assert (find_row (before ++ row :: rest) 0
            (repeat true (length before) ++ repeat false (S (length rest))) row.(row_operation)
          = Some (length before, row)) as Hfind.
  { rewrite (find_row_next before 0 _ row rest); [done|..].
    { intros i Hi. simpl. rewrite lookup_app_l by (rewrite repeat_length; lia).
      revert i Hi. clear. induction (length before) as [|n IH]; intros [|i] Hi; simpl; [lia..|done|].
      apply IH. lia. }
    { simpl. rewrite lookup_app_r by (rewrite repeat_length; lia).
      by rewrite repeat_length, Nat.sub_diag. } }
  split; [done|]. unfold match_operation. rewrite Hred. cbn [result_bind]. rewrite Hfind.
  simpl. rewrite Hm, String.eqb_refl. simpl. rewrite Hn.
  assert (<[length before := true]>
            (repeat true (length before) ++ false :: repeat false (length rest))
          = true :: repeat true (length before) ++ repeat false (length rest)) as ->.
  { rewrite insert_app_r_alt by (rewrite repeat_length; lia). rewrite repeat_length, Nat.sub_diag.
    simpl. clear. induction (length before) as [|n IH]; simpl; [done|]. by rewrite IH. }
  destruct (row_service row) as [s|]; [by eexists|]. rewrite Hnobody by done. by eexists.
Qed.

#[local] Arguments match_operation : simpl never.
#[local] Arguments repeat : simpl never.

Lemma match_operations_in_order before rest todo ps services done :
  Forall2 (λ entry row, redact_operation entry.1 = Ok row.(row_operation) ∧ row_fits row) todo rest →
  length ps = length before →
  matching (before ++ rest) (repeat true (length before) ++ repeat false (length rest), services)
    done (map Some ps ++ repeat None (length rest)) →
  ∃ state' done',
    try_fold (match_operation (before ++ rest)) todo
      (repeat true (length before) ++ repeat false (length rest), services) = Ok state'
    ∧ matching (before ++ rest) state' done' (map Some (ps ++ map snd todo)).
Proof.
  intros H. revert before ps services done.
  induction H as [|[op p] row todo rest [Hred Hfits] _ IH]; intros before ps services done Hl Hm.
  - simpl in *. rewrite !app_nil_r in *. eauto.
  - destruct (match_operation_next before row rest
                (repeat true (length before) ++ repeat false (S (length rest))) services op p)
      as (Hfind & services' & Hstep); [done..|]. simpl in *. rewrite Hstep. simpl.
    destruct (match_operation_step _ _ _ _ _ _ _ Hm Hstep)
      as (redacted & i & row' & Hred' & Hfind' & Hm').
    rewrite Hred in Hred'. injection Hred' as <-. simpl in Hfind'. rewrite Hfind in Hfind'.
    injection Hfind' as <- <-.
    destruct (IH (before ++ [row]) (ps ++ [p]) services' ((row.(row_operation), p) :: done))
      as (state' & done' & Hrun & Hfinal).
    { rewrite !length_app. simpl. lia. }
    { rewrite <-app_assoc, length_app, Nat.add_1_r, map_app, <-app_assoc. simpl.
      rewrite insert_app_r_alt in Hm' by (rewrite length_map; lia).
      by rewrite length_map, Hl, Nat.sub_diag in Hm'. }
    rewrite <-!app_assoc, length_app, Nat.add_1_r in *. simpl in *. eauto.
Qed.

Lemma redact_row_service row row' : redact_row row = Ok row' → row_service row' = row_service row.
Proof.
  unfold redact_row. intros H. apply result_bind_Ok in H as (op & Hop & [= <-]).
  apply redact_operation_keeps in Hop as (_ & Hs & _). unfold row_service. simpl. by rewrite Hs.
Qed.

Lemma service_progress_redacted rows rows' progress s :
  Forall2 (λ row row', redact_row row = Ok row') rows rows' →
  service_progress rows' progress s = service_progress rows progress s.
Proof.
  unfold service_progress. intros H. revert progress.
  induction H as [|row row' rows rows' Hr _ IH]; intros [|p progress]; try done.
  assert (of_service s (row', Some p) = of_service s (row, Some p)) as Ho
    by (unfold of_service; simpl; by rewrite (redact_row_service _ _ Hr)).
  cbn - [of_service]. by rewrite Ho, IH.
Qed.

Lemma outcome_parts_length outcome :
  let '(summary, completed, failed, pending) := outcome_parts outcome in
  length (map fst (outcome_todo outcome))
  = (length completed + length (option_list failed) + length pending)%nat.
Proof.
  pose proof (outcome_todo_length outcome) as H.
  destruct (outcome_parts outcome) as [[[? ?] ?] ?]. by rewrite length_map.
Qed.

(** An outcome that accounts for the rows of a preview, in order, is admitted against its
    redacted form, and classifies the Services by how far their rows got. *)
Lemma project_in_order preview redacted outcome :
  redact_preview preview = Ok redacted →
  Forall row_fits preview.(preview_operations) →
  map fst (outcome_todo outcome) = map row_operation preview.(preview_operations) →
  ∃ projection,
    project_evidence redacted {| evidence_version := 1; evidence_outcome := outcome |}
    = Ok projection
    ∧ projection.(projection_summary) = (outcome_parts outcome).1.1.1
    ∧ classifies preview.(preview_operations) (map snd (outcome_todo outcome)) projection.
Proof.
  unfold redact_preview. intros H Hfits Hops. apply result_bind_Ok in H as (rows & Hrows & [= <-]).
  apply collect_result_Ok in Hrows.
  pose proof (outcome_parts_length outcome) as Hlen. rewrite Hops, length_map in Hlen.
  rewrite (Forall2_length _ _ _ Hrows) in Hlen.
  unfold project_evidence. simpl.
  assert (Forall2 (λ entry row, redact_operation entry.1 = Ok row.(row_operation) ∧ row_fits row)
            (outcome_todo outcome) rows) as Htodo.
  { clear Hlen. revert Hops Hfits. generalize (outcome_todo outcome).
    induction Hrows as [|row row' rs rs' Hr _ IH]; intros [|[op p] todo] Hops Hfits; simplify_eq/=.
    - constructor.
    - apply Forall_cons in Hfits as [Hf Hfits]. constructor; [|by apply IH]. simpl.
      split; [by apply redact_row_operation|by eapply redact_row_fits]. }
  destruct (match_operations_in_order [] rows (outcome_todo outcome) [] [] [] Htodo)
    as (state & finished & Hrun & Hm); [done|by apply matching_start|].
  unfold outcome_todo in Hrun, Hm |- *.
  destruct (outcome_parts outcome) as [[[summary completed] failed] pending].
  rewrite <-Hlen, Nat.eqb_refl. simpl. simpl in Hrun.
  match goal with |- context [try_fold ?f ?l ?s] =>
    assert (try_fold f l s = Ok state) as -> by exact Hrun end.
  destruct state as [matched services].
  eexists. split_and!; [done..|].
  match goal with |- classifies _ ?ps ?pr =>
    assert (classifies rows ps pr) as [Hc Hf Hu]
      by (eapply matching_classifies; [exact Hm|done..]) end.
  split; intros s; simpl; rewrite ?Hc, ?Hf, ?Hu; by rewrite (service_progress_redacted _ _ _ _ Hrows).
Qed.

(** ** Redaction *)

Lemma redact_planned_spec spec spec' :
  redact_planned spec = Ok spec' →
  spec'.(rs_container).(environment) = []
  ∧ Forall (λ config, config.(config_content) = []) spec'.(rs_mount_graph).(mg_configs).(graph_configs)
  ∧ spec'.(rs_pre_deploy) = spec.(rs_pre_deploy).
Proof.
  unfold redact_planned, or_invalid, set_config_graph, to_resolved. intros H.
  apply result_bind_Ok in H as (configs & Hc & H).
  apply result_bind_Ok in H as (requested & Hr & H).
  unfold ServiceConfigGraph_parse in Hc.
  destruct (try_fold admit_config _ _); simpl in Hc; [|done].
  destruct (try_fold (check_config_mount _) _ _); simpl in Hc; [|done]. injection Hc as <-.
  unfold ServiceMountGraph_parse in Hr. simpl in Hr.
  destruct (admit_all mount_target _ _ _) as [[mounts destinations]|[]]; simpl in Hr; try done.
  destruct (admit_all effective_target _ _ _) as [[config_mounts ?]|[]]; simpl in Hr; try done.
  injection Hr as <-. unfold ResolvedServiceMountGraph_try_from in H. simpl in H.
  destruct (ResolvedServiceVolumeGraph_try_from _); simpl in H; [|done]. injection H as <-.
  simpl. split_and!; [done| |done]. apply Forall_map, Forall_true. done.
Qed.

(** a recorded preview shows no environment value and no Config content: whatever an operation
    of a redacted preview starts has an empty environment and empty Configs. *)
Theorem redacted_preview_private preview redacted row spec :
  redact_preview preview = Ok redacted → row ∈ redacted.(preview_operations) →
  op_spec row.(row_operation) = Some spec →
  spec.(rs_container).(environment) = []
  ∧ Forall (λ config, config.(config_content) = []) spec.(rs_mount_graph).(mg_configs).(graph_configs).
Proof.
  unfold redact_preview. intros H Hrow Hspec.
  apply result_bind_Ok in H as (rows & Hrows%collect_result_Ok & [= <-]). simpl in Hrow.
  apply list_elem_of_lookup in Hrow as (i & Hi).
  destruct (Forall2_lookup_r _ _ _ _ _ Hrows Hi) as (row0 & _ & Hr).
  apply redact_row_operation in Hr.
  destruct (row_operation row0); simpl in Hr;
    try (injection Hr as Hr; rewrite <-Hr in Hspec; discriminate Hspec);
    apply result_bind_Ok in Hr as (spec' & Hs & Heq); injection Heq as Heq; rewrite <-Heq in Hspec;
    simpl in Hspec; injection Hspec as <-; by apply redact_planned_spec in Hs as (? & ? & _).
Qed.

(** ** Samples *)

Definition sample_secret_spec : ResolvedServiceSpec :=
  let spec := sample_resolved "s1" in
  {| rs_service_id := spec.(rs_service_id); rs_name := spec.(rs_name); rs_mode := spec.(rs_mode);
     rs_container := set_environment [("KEY", "secret")] spec.(rs_container);
     rs_placement := spec.(rs_placement);
     rs_ports := spec.(rs_ports); rs_mount_graph := spec.(rs_mount_graph);
     rs_pre_deploy :=
       Some {| hook_command := ["migrate"]; hook_environment := [("TOKEN", "secret")];
               hook_privileged := None; hook_timeout_millis := None; hook_user := None |};
     rs_update := spec.(rs_update) |}.

Definition sample_rows : list OperationRow :=
  [OperationRow_pending 0 (RunContainer "m1" sample_secret_spec false) None None None;
   OperationRow_pending 1 (RemoveContainer "m1" "c1") None None (Some "web")].

Definition sample_runtime_preview : DeployPreview :=
  {| storage := []; preview_namespace := "shop"; preview_operations := sample_rows;
     preview_warnings := []; volumes_to_create := []; preview_would_remove := [];
     preview_preserved_volumes := []; preview_prune_refusal := None |}.

Definition sample_evidence : RuntimeOutcomeEvidence :=
  {| evidence_version := 1;
     evidence_outcome :=
       DeployFailed [RunContainer "m1" sample_secret_spec false]
         (FailedPlain (RemoveContainer "m1" "c1") ExecutionCancelled) [] |}.

Definition sample_redacted : DeployPreview :=
  default sample_runtime_preview (result_ok (redact_preview sample_runtime_preview)).

Definition sample_projection : RuntimeOutcomeProjection :=
  {| projection_summary := SummaryFailed 1 0 FailureCancelled; confirmed_services := ["api"];
     failed_services := ["web"]; unattempted_services := [] |}.

Lemma sample_projects : project_evidence sample_redacted sample_evidence = Ok sample_projection.
Proof. vm_compute. reflexivity. Qed.

Lemma projection_exact_witness :
  ∃ redacted progress,
    Forall2 (λ entry operation, redact_operation entry.1 = Ok operation)
      (outcome_todo sample_evidence.(evidence_outcome)) redacted
    ∧ zip (map row_operation sample_redacted.(preview_operations)) progress
      ≡ₚ zip redacted (map snd (outcome_todo sample_evidence.(evidence_outcome)))
    ∧ length progress = length sample_redacted.(preview_operations)
    ∧ classifies sample_redacted.(preview_operations) progress sample_projection.
Proof. apply projection_exact. exact sample_projects. Defined.

Lemma redacted_preview_private_witness :
  ∃ row spec, row ∈ sample_redacted.(preview_operations)
    ∧ op_spec row.(row_operation) = Some spec ∧ spec.(rs_container).(environment) = [].
Proof.
  destruct (sample_redacted.(preview_operations)) as [|row rows] eqn:Hrows;
    [vm_compute in Hrows; discriminate Hrows|].
  destruct (op_spec row.(row_operation)) as [spec|] eqn:Hspec.
  2:{ exfalso. assert (Hs : op_spec row.(row_operation) ≠ None); [|congruence].
      assert (Some row = head sample_redacted.(preview_operations)) as Hh by by rewrite Hrows.
      vm_compute in Hh. injection Hh as ->. done. }
  exists row, spec. split_and!; [set_solver|done|].
  apply (redacted_preview_private sample_runtime_preview sample_redacted row spec); [|set_solver|done].
  vm_compute. reflexivity.
Defined.

(** The hook's environment is not part of the Container's: redaction keeps it. *)
Lemma redaction_keeps_hook_environment :
  map (λ row, spec ← op_spec row.(row_operation); hook ← spec.(rs_pre_deploy);
              Some hook.(hook_environment))
    sample_redacted.(preview_operations)
  = [Some [("TOKEN", "secret")]; None].
Proof. vm_compute. reflexivity. Qed.
