(* ===== verification/Evidence.v ===== *)
(** * From a planned Deploy to the evidence of its execution

    The planner ([Preview.plan_deploy]) seals operations with their rows, the
    executor ([Executor]) reports an outcome, and the configuration layer
    ([RuntimeOutcome]) admits that outcome against the redacted rows and projects
    it to Services.  This file shows that the three fit: the evidence of any
    execution of a planned Deploy is admitted, and says of each Service how far
    its operations got. *)

From S2P Require Import Prelude BTree Strings Values Volumes ServiceGraph Spec Services Deploy.
From S2P Require Import Eligibility Placement VolumePlan Planner Preview Safety.
From S2P Require Import Process Execution Executor ExecutorTraces ExecutorSafety ExecutorOutcome.
From S2P Require Import Engine RuntimeOutcome.

Open Scope string_scope.
Open Scope nat_scope.
Open Scope list_scope.

(** The evidence names each Container once, as ids are unique in a Cluster. *)
Definition observed_once (snapshot : DeploySnapshot) : Prop :=
  NoDup (map container_id snapshot.(snap_containers)).

Lemma container_label snapshot o :
  observed_once snapshot → o ∈ snapshot.(snap_containers) →
  bget (container_labels_of snapshot) o.(container_id)
  = Some (Some o.(display_name), Some o.(resolved_spec).(rs_name)).
Proof.
  intros Honce Ho. unfold container_labels_of. apply bcollect_Some.
  - by rewrite map_map.
  - apply list_elem_of_fmap. eauto.
Qed.

Section Evidence.
Context `{IpNetOps, ShapeJson}.
Context (random_id : ServiceName → ServiceId) (intent : DeployIntent) (snapshot : DeploySnapshot).

(** Whom a planned operation is about: what it ends belongs to the Service it names. *)
Definition names_owner (op : DeployOperation) : Prop :=
  ∀ c, op_container_id op = Some c →
    ∃ name, own intent snapshot name c ∧ ∀ n, op_service_name op = Some n → n = name.

Lemma planned_names_owner planned op :
  plan_operations random_id intent snapshot = Ok planned → op ∈ planned.(operations) →
  names_owner op.
Proof.
  intros (requested & vp & preps & ops & _ & _ & _ & -> & _ & Hpreps & Hops & _)
    %plan_operations_shape.
  intros [Hop|[Hop|Hop]%elem_of_app]%elem_of_app c Hc.
  - destruct (Hpreps op Hop) as (m & specs & -> & _). done.
  - destruct (Hops op Hop) as (spec & _ & [Ht Hn _ _]). exists spec.(rq_name).
    split; [|done]. apply Ht. destruct op; simpl in *; simplify_eq; set_solver.
  - destruct (prune_refusal intent _); [set_solver|].
    apply removal_owned in Hop as (_ & Hn & _ & Ht).
    destruct (Ht c) as (name & Hown & _); [|exists name; by rewrite Hn].
    destruct op; simpl in *; simplify_eq; set_solver.
Qed.

Lemma pending_row_fits index op :
  observed_once snapshot → names_owner op →
  row_fits (pending_row (machine_names snapshot) (container_labels_of snapshot) index op).
Proof.
  intros Honce Hown. unfold pending_row, names_owner in *.
  destruct (op_container_id op) as [c|] eqn:Hc.
  - destruct (Hown c eq_refl) as (name & (o & Ho & <- & _ & Hname) & Hn).
    rewrite (container_label _ _ Honce Ho). simpl. split; [done|]. simpl. split; [|done].
    destruct (op_service_name op) as [n|] eqn:Hs; [|done]. simpl.
    rewrite (Hn n eq_refl), Hname. by rewrite String.eqb_refl.
  - unfold row_fits, row_service. simpl. split; [done|].
    destruct (op_service_name op) as [n|] eqn:Hs; simpl.
    + by rewrite String.eqb_refl.
    + split; [done|]. intros _. by destruct op.
Qed.

Lemma plan_deploy_rows plan :
  plan_deploy random_id intent snapshot = Ok plan → observed_once snapshot →
  Forall row_fits plan.(preview).(preview_operations)
  ∧ map row_operation plan.(preview).(preview_operations) = plan.(plan_ops).
Proof.
  unfold plan_deploy. intros Hp Honce. apply result_bind_Ok in Hp as (planned & Hplanned & [= <-]).
  simpl. split.
  - apply Forall_lookup. intros i row. unfold pending_rows. rewrite list_lookup_imap.
    destruct (_ !! i) as [op|] eqn:Hop; simpl; [|done]. intros [= <-].
    apply pending_row_fits; [done|]. eapply planned_names_owner; [done|].
    by eapply list_elem_of_lookup_2.
  - unfold pending_rows. generalize (machine_names snapshot) (container_labels_of snapshot).
    intros machines labels. apply list_eq. intros i. rewrite list_lookup_fmap, list_lookup_imap.
    destruct (_ !! i) as [op|]; simpl; [|done]. f_equal. unfold pending_row.
    by destruct (match op_container_id op with None => _ | Some _ => _ end).
Qed.

Lemma outcome_todo_operations outcome :
  map fst (outcome_todo outcome) = outcome_operations outcome.
Proof.
  unfold outcome_todo. destruct outcome as [completed|completed failed unexecuted]; simpl.
  - unfold outcome_progress. simpl. rewrite app_nil_r, map_map. apply map_id.
  - destruct failed; simpl; unfold outcome_progress; simpl;
      rewrite map_app, map_map, map_id; simpl; by rewrite map_map, map_id.
Qed.

(** C11: what a Deploy did is always admitted as evidence. Executing a planned Deploy, whatever the
    Machines answer, gives an outcome that the configuration layer admits against the redacted
    preview, confirming exactly the Services every operation of which completed, and calling a
    Service unattempted exactly when none of its operations was attempted. *)
Theorem deploy_evidence_admitted {W} (env : ∀ e : Event Call, W → answer e * W) fuel details plan
    redacted with_tx w o s' w' log :
  observed_once snapshot →
  plan_deploy random_id intent snapshot = Ok plan →
  redact_preview plan.(preview) = Ok redacted →
  run env (execute_operation_sequence fuel details plan) (pending_progress plan with_tx) w
  = Some (o, s', w', log) →
  ∃ outcome projection,
    o = Some outcome
    ∧ project_evidence redacted {| evidence_version := 1; evidence_outcome := outcome |}
      = Ok projection
    ∧ classifies plan.(preview).(preview_operations) (map snd (outcome_todo outcome)) projection.
Proof.
  intros Honce Hplan Hred Hrun.
  destruct (plan_deploy_rows plan Hplan Honce) as [Hfits Hops].
  destruct (plan_deploy_shape random_id intent snapshot plan Hplan) as (Hrow & _).
  destruct (emits_sound env _ _ _ _ _ _ _ _ (execution_emits fuel details plan with_tx Hrow) Hrun)
    as (outcome & more & -> & _ & _ & Hout & _).
  destruct (project_in_order plan.(preview) redacted outcome Hred Hfits)
    as (projection & Hp & _ & Hc); [by rewrite outcome_todo_operations, Hops|eauto].
Qed.
End Evidence.

(** ** The sample Deploy, recorded *)

Definition sample_recorded : Result (option DeployPreview * bool) (Fault PlanError) :=
  let? plan := sample_planned in
  Ok (result_ok (redact_preview plan.(preview)),
      match sample_run plan with Some _ => true | None => false end).

Lemma sample_records : ∃ redacted, sample_recorded = Ok (Some redacted, true).
Proof. eexists. vm_compute. reflexivity. Qed.

Lemma sample_once : observed_once sample_snapshot.
Proof. apply (bool_decide_unpack _). vm_compute. exact I. Qed.

Lemma deploy_evidence_admitted_witness :
  ∃ plan redacted outcome projection,
    sample_planned = Ok plan ∧ redact_preview plan.(preview) = Ok redacted
    ∧ project_evidence redacted {| evidence_version := 1; evidence_outcome := outcome |}
      = Ok projection
    ∧ classifies plan.(preview).(preview_operations) (map snd (outcome_todo outcome)) projection.
Proof.
  destruct sample_records as (redacted & Hrec). unfold sample_recorded in Hrec.
  destruct sample_planned as [plan|] eqn:Hplan; [|discriminate Hrec]. simpl in Hrec.
  destruct (redact_preview plan.(preview)) as [shown|] eqn:Hred; [|discriminate Hrec].
  destruct (sample_run plan) as [[[[o s'] w'] log]|] eqn:Hrun; [|discriminate Hrec].
  destruct (@deploy_evidence_admitted Cidr.ops sample_shape_json (λ name, name) sample_intent
              sample_snapshot N _ _ _ _ _ _ _ _ _ _ _ sample_once Hplan Hred Hrun)
    as (outcome & projection & _ & Hp & Hc).
  exists plan, shown, outcome, projection. auto.
Defined.
