(* ===== verification/Config.v ===== *)
(** * Authored configuration

    [ployz-core/src/config/service.rs] and [environment.rs]: the settings a
    Service is authored with, the Environment documents that hold them, their
    canonical order and redaction.  Their admission is [ConfigValidation].

    A [u8], [u16] or [u64] is an [N]; an [f64] is its IEEE 754 bits. *)

From S2P Require Import Prelude BTree Strings Values Spec RuntimeOutcome.

Open Scope string_scope.

(** ** Services ([config/service.rs]) *)

Inductive ServiceGitAccess : Type :=
| AccessPublic
| AccessGithubInstallation (installation_id : N).

Inductive ServiceGitBranch : Type :=
| BranchConnected (name : string)
| BranchDisconnected (previous_name : option string).

Inductive ServiceImageCredentials : Type :=
| CredentialsNone
| CredentialsConfigured (credential_id : string).

Inductive ServiceSource : Type :=
| SourceEmpty (version : N) (root_dir : string)
| SourceGit (version : N) (repository : string) (repository_id : N) (access : ServiceGitAccess)
            (root_dir : string) (branch : ServiceGitBranch)
| SourceImage (version : N) (image : string) (credentials : ServiceImageCredentials).

Inductive ServiceHealthcheck : Type :=
| ServiceHealthNone
| ServiceHealthHttp (path : string) (timeout_seconds : N).

Record ServiceRoute : Type := {
  route_id : string;
  route_hostname : string;
  route_target_port : option N
}.

Record ServiceManagedHostname : Type := {
  managed_prefix : string;
  managed_target_port : option N
}.

Inductive BuildMethod : Type := Dockerfile | Railpack.

Record ServiceBuildConfig : Type := {
  build_method : BuildMethod;
  dockerfile_path : option string;
  build_command : option string
}.

Record ServiceTemplate : Type := { template_id : string; template_version : N }.

(** The bits of an [f64]. *)
Abbreviation f64 := N (only parsing).

Record AuthoredServiceConfig : Type := {
  sc_version : N;
  sc_source : ServiceSource;
  sc_pre_deploy_command : option string;
  sc_start_command : option string;
  sc_healthcheck : ServiceHealthcheck;
  sc_restart_policy : RestartPolicy;
  sc_max_retries : N;
  sc_replicas : N;
  sc_cpu_limit : option f64;
  sc_mem_limit : option f64;
  sc_private_dns : ServiceName;
  sc_routes : list ServiceRoute;
  sc_managed_hostnames : list ServiceManagedHostname;
  sc_build : ServiceBuildConfig;
  sc_template : option ServiceTemplate
}.

Record EncryptedSecretValue : Type := {
  sealed_version : N;
  sealed_iv : string;
  sealed_tag : string;
  sealed_ciphertext : string
}.

Inductive ValuePartOwner : Type :=
| OwnerSelf
| OwnerService (lineage_id : string).

Inductive ValuePart : Type :=
| PartText (value : string)
| PartRef (owner : ValuePartOwner) (key : string).

(** ** Environments ([config/environment.rs]) *)

Inductive SavedVariableValue : Type :=
| VariableLiteral (value : string)
| VariableTemplate (parts : list ValuePart)
| VariableSecret (encrypted_value : option EncryptedSecretValue)
| VariableSecretWithoutValue.

Record SavedVariableIntent : Type := {
  var_id : string;
  var_key : string;
  var_description : option string;
  var_exported : bool;
  var_value_fingerprint : string;
  var_value : SavedVariableValue
}.

Record VolumeAttachment : Type := {
  volume_resource_id : string;
  mount_path : string
}.

Record SavedServiceIntent : Type := {
  svc_id : string;
  svc_lineage_id : string;
  svc_slug : string;
  svc_config : AuthoredServiceConfig;
  svc_variables : list SavedVariableIntent;
  svc_volume_attachments : list VolumeAttachment
}.

Inductive VolumeKind : Type :=
| VolumeDocker
| VolumeProvisioned (maximum_bytes : N).

Record SavedVolumeIntent : Type := {
  vol_resource_id : string;
  vol_resource_lineage_id : string;
  vol_name : string;
  vol_storage : VolumeKind;
  vol_shared_writes : bool
}.

Record SavedEnvironmentIntent : Type := {
  env_version : N;
  env_slug : string;
  env_services : list SavedServiceIntent;
  env_volumes : list SavedVolumeIntent
}.

#[global] Instance ServiceGitAccess_eq_dec : EqDecision ServiceGitAccess.
Proof. solve_decision. Defined.
#[global] Instance ServiceGitBranch_eq_dec : EqDecision ServiceGitBranch.
Proof. solve_decision. Defined.
#[global] Instance ServiceImageCredentials_eq_dec : EqDecision ServiceImageCredentials.
Proof. solve_decision. Defined.
#[global] Instance ServiceSource_eq_dec : EqDecision ServiceSource.
Proof. solve_decision. Defined.
#[global] Instance ServiceHealthcheck_eq_dec : EqDecision ServiceHealthcheck.
Proof. solve_decision. Defined.
#[global] Instance ServiceRoute_eq_dec : EqDecision ServiceRoute.
Proof. solve_decision. Defined.
#[global] Instance ServiceManagedHostname_eq_dec : EqDecision ServiceManagedHostname.
Proof. solve_decision. Defined.
#[global] Instance BuildMethod_eq_dec : EqDecision BuildMethod.
Proof. solve_decision. Defined.
#[global] Instance ServiceBuildConfig_eq_dec : EqDecision ServiceBuildConfig.
Proof. solve_decision. Defined.
#[global] Instance ServiceTemplate_eq_dec : EqDecision ServiceTemplate.
Proof. solve_decision. Defined.
#[global] Instance AuthoredServiceConfig_eq_dec : EqDecision AuthoredServiceConfig.
Proof. solve_decision. Defined.
#[global] Instance EncryptedSecretValue_eq_dec : EqDecision EncryptedSecretValue.
Proof. solve_decision. Defined.
#[global] Instance ValuePartOwner_eq_dec : EqDecision ValuePartOwner.
Proof. solve_decision. Defined.
#[global] Instance ValuePart_eq_dec : EqDecision ValuePart.
Proof. solve_decision. Defined.
#[global] Instance SavedVariableValue_eq_dec : EqDecision SavedVariableValue.
Proof. solve_decision. Defined.
#[global] Instance SavedVariableIntent_eq_dec : EqDecision SavedVariableIntent.
Proof. solve_decision. Defined.
#[global] Instance VolumeAttachment_eq_dec : EqDecision VolumeAttachment.
Proof. solve_decision. Defined.
#[global] Instance SavedServiceIntent_eq_dec : EqDecision SavedServiceIntent.
Proof. solve_decision. Defined.
#[global] Instance VolumeKind_eq_dec : EqDecision VolumeKind.
Proof. solve_decision. Defined.
#[global] Instance SavedVolumeIntent_eq_dec : EqDecision SavedVolumeIntent.
Proof. solve_decision. Defined.
#[global] Instance SavedEnvironmentIntent_eq_dec : EqDecision SavedEnvironmentIntent.
Proof. solve_decision. Defined.

(** [sort_by(|a, b| key(a).cmp(key(b)))]. *)
Definition sort_by_key `{Ord K} {A} (key : A → K) (l : list A) : list A :=
  stable_sort (λ a b, key_le (key a) (key b)) l.

Definition canonicalize_service (service : SavedServiceIntent) : SavedServiceIntent :=
  {| svc_id := service.(svc_id); svc_lineage_id := service.(svc_lineage_id);
     svc_slug := service.(svc_slug); svc_config := service.(svc_config);
     svc_variables := sort_by_key var_id service.(svc_variables);
     svc_volume_attachments :=
       sort_by_key (λ a, (a.(mount_path), a.(volume_resource_id)))
         service.(svc_volume_attachments) |}.

Definition canonicalize_environment_intent (intent : SavedEnvironmentIntent)
    : SavedEnvironmentIntent :=
  {| env_version := intent.(env_version); env_slug := intent.(env_slug);
     env_services := map canonicalize_service (sort_by_key svc_id intent.(env_services));
     env_volumes := sort_by_key vol_resource_id intent.(env_volumes) |}.

Definition redact_variable (variable : SavedVariableIntent) : SavedVariableIntent :=
  {| var_id := variable.(var_id); var_key := variable.(var_key);
     var_description := variable.(var_description); var_exported := variable.(var_exported);
     var_value_fingerprint := variable.(var_value_fingerprint);
     var_value := match variable.(var_value) with
                  | VariableSecret _ => VariableSecret None
                  | value => value
                  end |}.

Definition redact_service (service : SavedServiceIntent) : SavedServiceIntent :=
  {| svc_id := service.(svc_id); svc_lineage_id := service.(svc_lineage_id);
     svc_slug := service.(svc_slug); svc_config := service.(svc_config);
     svc_variables := map redact_variable service.(svc_variables);
     svc_volume_attachments := service.(svc_volume_attachments) |}.

Definition redact_environment_intent (intent : SavedEnvironmentIntent) : SavedEnvironmentIntent :=
  {| env_version := intent.(env_version); env_slug := intent.(env_slug);
     env_services := map redact_service intent.(env_services);
     env_volumes := intent.(env_volumes) |}.
