(* ===== verification/ConfigValidation.v ===== *)
(** * Admission of authored settings

    [ployz-core/src/config/validation.rs] and the checks of
    [config/environment.rs]: each setting's rule and normal form, a Service's
    settings as a whole, and an Environment document's identities and
    relationships.

    The typed boundary is serde's ([Serde]); the syntax of UUIDs and of image
    references is that of the [uuid] and [oci_spec] crates ([ConfigCrates]).  A
    JSON object iterates in the order of its keys, so the settings of a Service are
    checked in the order of their names. *)

From S2P Require Import Prelude BTree Strings Text Values Spec RuntimeOutcome Config.
From Stdlib Require Import Ascii.

Open Scope string_scope.
Open Scope nat_scope.
Open Scope list_scope.

Class ConfigCrates := {
  uuid_valid : string → bool;
  is_image_reference : string → bool
}.

(** ** Limits *)

(** [64.0] and [1024.0], as the bits of an [f64]. *)
Definition CPU_LIMIT_MAX : N := 4634204016564240384.
Definition MEM_LIMIT_MAX : N := 4652218415073722368.
Definition REPLICAS_MAX : N := 50.
Definition MAX_RETRIES_MAX : N := 100.
Definition COMMAND_MAX : option nat := Some 2000.
Definition IMAGE_MAX : option nat := Some 500.
Definition DOCKERFILE_PATH_MAX : option nat := Some 500.
Definition REPOSITORY_MAX : option nat := Some 300.
Definition BRANCH_MAX : option nat := Some 255.
Definition HEALTHCHECK_PATH_MAX : option nat := Some 500.
Definition HEALTHCHECK_TIMEOUT_MAX : N := 300.
Definition SAFE_ID_MAX : N := 9007199254740991.

Definition expected (field : string) : string :=
  if String.eqb field "replicas" then "Expected a whole number of replicas from 1–50"
  else if String.eqb field "maxRetries" then "Expected a whole number of retries from 0–100"
  else if String.eqb field "cpuLimit" then "Expected vCPUs above 0 and up to 64, for example 0.5"
  else if String.eqb field "memLimit"
  then "Expected GB above 0 and up to 1024, for example 0.5 or 2"
  else if String.eqb field "healthcheckTimeoutSeconds" then "Expected 1–300 seconds"
  else "Invalid setting value".

Definition range (valid : bool) (path message : string) : Result () ConfigError :=
  if valid then Ok () else Err (ConfigError_at path message).

(** ** Settings *)

(** No length bound is [usize::MAX]: no text is longer. *)
Definition within (max : option nat) (s : string) : bool :=
  match max with Some max => char_count s <=? max | None => true end.

Definition trimmed_text (value path : string) (max : option nat) : Result string ConfigError :=
  let? _ := range (negb (bytes_any (N.eqb 0) value)) path "Null characters are not allowed" in
  let value := trim value in
  let? _ := range (negb (str_is_empty value) && within max value) path
              "Expected a non-empty value within the length limit" in
  Ok value.

Definition optional_trimmed (value : option string) (path : string) (max : option nat)
    : Result (option string) ConfigError :=
  match value with
  | Some value => let? value := trimmed_text value path max in Ok (Some value)
  | None => Ok None
  end.

Definition is_dir_byte (b : N) : bool :=
  is_ascii_alphanumeric b || ((b =? 47) || (b =? 46) || (b =? 95) || (b =? 45))%N.

Definition root_dir (value : string) : Result string ConfigError :=
  let? value := trimmed_text value "source.rootDir" None in
  let? _ := range (starts_with "/" value && negb (contains "//" value)
                   && bytes_all is_dir_byte value)
              "source.rootDir" "Expected an absolute repository directory" in
  Ok (if String.eqb value "/" then value else trim_end_byte "/"%char value).

Definition healthcheck_path (value : string) : Result string ConfigError :=
  let? value := trimmed_text value "healthcheck.path" HEALTHCHECK_PATH_MAX in
  let? _ := range (starts_with "/" value && negb (has_control value)) "healthcheck.path"
              "Expected an absolute HTTP path without control characters" in
  Ok value.

Definition timeout (value : N) : Result () ConfigError :=
  range ((1 <=? value) && (value <=? HEALTHCHECK_TIMEOUT_MAX))%N "healthcheck.timeoutSeconds"
    "Expected 1–300 seconds".

Definition normalize_healthcheck (healthcheck : ServiceHealthcheck)
    : Result ServiceHealthcheck ConfigError :=
  match healthcheck with
  | ServiceHealthHttp path timeout_seconds =>
      let? path := healthcheck_path path in
      let? _ := timeout timeout_seconds in
      Ok (ServiceHealthHttp path timeout_seconds)
  | ServiceHealthNone => Ok ServiceHealthNone
  end.

Definition hostname_prefix (value : string) : Result string ConfigError :=
  let value := to_lowercase (trim value) in
  let? _ := range (is_dns_label value) "managedHostname.prefix"
              "Expected a lowercase DNS label" in
  Ok value.

Definition managed_hostname (value : ServiceManagedHostname)
    : Result ServiceManagedHostname ConfigError :=
  let? prefix := hostname_prefix value.(managed_prefix) in
  let? _ := range (negb (bool_decide (value.(managed_target_port) = Some 0%N)))
              "managedHostnames" "Expected a port from 1–65535" in
  Ok {| managed_prefix := prefix; managed_target_port := value.(managed_target_port) |}.

Fixpoint managed_hostnames (values : list ServiceManagedHostname) (seen : list string)
    : Result (list ServiceManagedHostname) ConfigError :=
  match values with
  | [] => Ok []
  | value :: values =>
      let? value := managed_hostname value in
      let? _ := range (negb (bool_decide (value.(managed_prefix) ∈ seen))) "managedHostnames"
                  "Each managed domain needs a distinct subdomain" in
      let? values := managed_hostnames values (value.(managed_prefix) :: seen) in
      Ok (value :: values)
  end.

(** [0 < n <= max] and finite, on the bits of an [f64]: the bits of a positive number order it. *)
Definition limit (value : option N) (max : N) (path : string) : Result () ConfigError :=
  range match value with Some n => ((0 <? n) && (n <=? max))%N | None => true end
    path (expected path).

Definition normalize_build (value : ServiceBuildConfig) : Result ServiceBuildConfig ConfigError :=
  let? command := optional_trimmed value.(build_command) "build.command" COMMAND_MAX in
  let? path := optional_trimmed value.(dockerfile_path) "build.dockerfilePath"
                 DOCKERFILE_PATH_MAX in
  Ok {| build_method := value.(build_method); dockerfile_path := path; build_command := command |}.

Definition safe_id (n : N) : bool := ((1 <=? n) && (n <=? SAFE_ID_MAX))%N.

Section Settings.
Context `{ConfigCrates}.

Definition with_hostname (route : ServiceRoute) (hostname : string) : ServiceRoute :=
  {| route_id := route.(route_id); route_hostname := hostname;
     route_target_port := route.(route_target_port) |}.

Fixpoint normalize_routes (routes : list ServiceRoute) (ids : list string)
    : Result (list ServiceRoute) ConfigError :=
  match routes with
  | [] => Ok []
  | route :: routes =>
      let? _ := range (uuid_valid route.(route_id) && negb (bool_decide (route.(route_id) ∈ ids)))
                  "routes" "Route IDs must be valid and unique" in
      let hostname := to_lowercase (trim route.(route_hostname)) in
      let? _ := range (is_ok (IngressHost_parse hostname)) "routes" "Invalid public hostname" in
      let? _ := range (negb (bool_decide (route.(route_target_port) = Some 0%N))) "routes"
                  "Expected a port from 1–65535" in
      let? routes := normalize_routes routes (route.(route_id) :: ids) in
      Ok (with_hostname route hostname :: routes)
  end.

Definition normalize_branch (branch : ServiceGitBranch) : Result ServiceGitBranch ConfigError :=
  match branch with
  | BranchConnected name =>
      let? name := trimmed_text name "source.branch" BRANCH_MAX in Ok (BranchConnected name)
  | BranchDisconnected previous_name =>
      let? previous_name := optional_trimmed previous_name "source.branch" BRANCH_MAX in
      Ok (BranchDisconnected previous_name)
  end.

Definition normalize_source (source : ServiceSource) : Result ServiceSource ConfigError :=
  match source with
  | SourceEmpty version path =>
      let? _ := range (version =? 1)%N "source.version" "Expected version 1" in
      let? path := root_dir path in
      Ok (SourceEmpty version path)
  | SourceGit version repository repository_id access path branch =>
      let? _ := range (version =? 2)%N "source.version" "Expected version 2" in
      let? repository := trimmed_text repository "source.repository" REPOSITORY_MAX in
      let? _ := range (safe_id repository_id) "source.repository"
                  "Expected positive safe GitHub IDs" in
      let? _ := match access with
                | AccessGithubInstallation installation_id =>
                    range (safe_id installation_id) "source.access"
                      "Expected a positive safe GitHub installation ID"
                | AccessPublic => Ok ()
                end in
      let? path := root_dir path in
      let? branch := normalize_branch branch in
      Ok (SourceGit version repository repository_id access path branch)
  | SourceImage version image credentials =>
      let? _ := range (version =? 1)%N "source.version" "Expected version 1" in
      let? image := trimmed_text image "source.image" IMAGE_MAX in
      let? _ := match credentials with
                | CredentialsConfigured credential_id =>
                    range (uuid_valid credential_id) "source.credentials"
                      "Expected a credential ID"
                | CredentialsNone => Ok ()
                end in
      Ok (SourceImage version image credentials)
  end.

Definition max_retries_in_range (value : N) : Result () ConfigError :=
  range (value <=? MAX_RETRIES_MAX)%N "maxRetries" (expected "maxRetries").

Definition replicas_in_range (value : N) : Result () ConfigError :=
  range ((1 <=? value) && (value <=? REPLICAS_MAX))%N "replicas" (expected "replicas").

(** ** One setting *)

Inductive ServiceSettingInput : Type :=
| SettingName (value : string)
| SettingSource (value : ServiceSource)
| SettingRootDir (value : string)
| SettingCommand (value : string)
| SettingPreDeployCommand (value : option string)
| SettingStartCommand (value : option string)
| SettingHealthcheck (value : ServiceHealthcheck)
| SettingHealthcheckPath (value : string)
| SettingHealthcheckTimeoutSeconds (value : N)
| SettingRestartPolicy (value : RestartPolicy)
| SettingMaxRetries (value : N)
| SettingReplicas (value : N)
| SettingCpuLimit (value : option N)
| SettingMemLimit (value : option N)
| SettingPrivateDns (value : ServiceName)
| SettingRoutes (value : list ServiceRoute)
| SettingManagedHostnames (value : list ServiceManagedHostname)
| SettingManagedHostnameValue (value : ServiceManagedHostname)
| SettingManagedHostnamePrefix (value : string)
| SettingImageReference (value : string)
| SettingBuild (value : ServiceBuildConfig)
| SettingTemplate (value : option ServiceTemplate).

Definition image_reference (value : string) : Result string ConfigError :=
  let? value := trimmed_text value "image" IMAGE_MAX in
  let? _ := range (is_image_reference value) "image"
              "expected an image like nginx:1.27 or ghcr.io/acme/web:1.4" in
  Ok value.

Definition normalize (setting : ServiceSettingInput) : Result ServiceSettingInput ConfigError :=
  match setting with
  | SettingName value => let? v := trimmed_text value "name" (Some 64) in Ok (SettingName v)
  | SettingSource value => let? v := normalize_source value in Ok (SettingSource v)
  | SettingRootDir value => let? v := root_dir value in Ok (SettingRootDir v)
  | SettingCommand value =>
      let? v := trimmed_text value "command" COMMAND_MAX in Ok (SettingCommand v)
  | SettingPreDeployCommand value =>
      let? v := optional_trimmed value "command" COMMAND_MAX in Ok (SettingPreDeployCommand v)
  | SettingStartCommand value =>
      let? v := optional_trimmed value "command" COMMAND_MAX in Ok (SettingStartCommand v)
  | SettingHealthcheck value =>
      let? v := normalize_healthcheck value in Ok (SettingHealthcheck v)
  | SettingHealthcheckPath value =>
      let? v := healthcheck_path value in Ok (SettingHealthcheckPath v)
  | SettingHealthcheckTimeoutSeconds value => let? _ := timeout value in Ok setting
  | SettingRestartPolicy _ | SettingPrivateDns _ | SettingTemplate _ => Ok setting
  | SettingMaxRetries value => let? _ := max_retries_in_range value in Ok setting
  | SettingReplicas value => let? _ := replicas_in_range value in Ok setting
  | SettingCpuLimit value => let? _ := limit value CPU_LIMIT_MAX "cpuLimit" in Ok setting
  | SettingMemLimit value => let? _ := limit value MEM_LIMIT_MAX "memLimit" in Ok setting
  | SettingRoutes value => let? v := normalize_routes value [] in Ok (SettingRoutes v)
  | SettingManagedHostnames value =>
      let? v := managed_hostnames value [] in Ok (SettingManagedHostnames v)
  | SettingManagedHostnameValue value =>
      let? v := managed_hostname value in Ok (SettingManagedHostnameValue v)
  | SettingManagedHostnamePrefix value =>
      let? v := hostname_prefix value in Ok (SettingManagedHostnamePrefix v)
  | SettingImageReference value =>
      let? v := image_reference value in Ok (SettingImageReference v)
  | SettingBuild value => let? v := normalize_build value in Ok (SettingBuild v)
  end.

(** ** A Service's settings *)

Definition parse_service_config (config : AuthoredServiceConfig)
    : Result AuthoredServiceConfig ConfigError :=
  let? _ := range (config.(sc_version) =? 2)%N "version" "Expected version 2" in
  let? build := normalize_build config.(sc_build) in
  let? _ := limit config.(sc_cpu_limit) CPU_LIMIT_MAX "cpuLimit" in
  let? healthcheck := normalize_healthcheck config.(sc_healthcheck) in
  let? hostnames := managed_hostnames config.(sc_managed_hostnames) [] in
  let? _ := max_retries_in_range config.(sc_max_retries) in
  let? _ := limit config.(sc_mem_limit) MEM_LIMIT_MAX "memLimit" in
  let? pre_deploy := optional_trimmed config.(sc_pre_deploy_command) "command" COMMAND_MAX in
  let? _ := replicas_in_range config.(sc_replicas) in
  let? routes := normalize_routes config.(sc_routes) [] in
  let? source := normalize_source config.(sc_source) in
  let? start := optional_trimmed config.(sc_start_command) "command" COMMAND_MAX in
  Ok {| sc_version := config.(sc_version); sc_source := source;
        sc_pre_deploy_command := pre_deploy; sc_start_command := start;
        sc_healthcheck := healthcheck; sc_restart_policy := config.(sc_restart_policy);
        sc_max_retries := config.(sc_max_retries); sc_replicas := config.(sc_replicas);
        sc_cpu_limit := config.(sc_cpu_limit); sc_mem_limit := config.(sc_mem_limit);
        sc_private_dns := config.(sc_private_dns); sc_routes := routes;
        sc_managed_hostnames := hostnames; sc_build := build;
        sc_template := config.(sc_template) |}.
End Settings.

(** ** An Environment document ([config/environment.rs]) *)

Section Documents.
Context `{ConfigCrates}.

Fixpoint unique_values (values : list string) (path : string) (uuid : bool) (seen : list string)
    : Result () ConfigError :=
  match values with
  | [] => Ok ()
  | value :: values =>
      if str_is_empty value || (uuid && negb (uuid_valid value)) || bool_decide (value ∈ seen)
      then Err (ConfigError_at path "Expected valid unique identities")
      else unique_values values path uuid (value :: seen)
  end.

Definition nonempty (value path : string) : Result () ConfigError :=
  if str_is_empty value then Err (ConfigError_at path "Expected a non-empty value") else Ok ().

Definition validate_variable (variable : SavedVariableIntent) : Result () ConfigError :=
  if negb (Bool.eqb (bool_decide (variable.(var_value) = VariableSecretWithoutValue))
             (str_is_empty variable.(var_value_fingerprint)))
  then Err (ConfigError_at "variables.valueFingerprint"
              "Only a secret without a value has no fingerprint")
  else
    match variable.(var_value) with
    | VariableSecret (Some value) =>
        if (value.(sealed_version) =? 1)%N then Ok ()
        else Err (ConfigError_at "variables.value" "Invalid encrypted secret")
    | _ => Ok ()
    end.

(** Check each in turn; the first failure is the result. *)
Fixpoint check_each {A} (check : A → Result () ConfigError) (l : list A) : Result () ConfigError :=
  match l with
  | [] => Ok ()
  | x :: l => let? _ := check x in check_each check l
  end.

Definition validate_variables (variables : list SavedVariableIntent) : Result () ConfigError :=
  let? _ := unique_values (map var_key variables) "variables.key" false [] in
  check_each validate_variable variables.

Definition with_config (service : SavedServiceIntent) (config : AuthoredServiceConfig)
    : SavedServiceIntent :=
  {| svc_id := service.(svc_id); svc_lineage_id := service.(svc_lineage_id);
     svc_slug := service.(svc_slug); svc_config := config;
     svc_variables := service.(svc_variables);
     svc_volume_attachments := service.(svc_volume_attachments) |}.

Definition attaches_authored (volumes : list SavedVolumeIntent) (service : SavedServiceIntent)
    : bool :=
  forallb (λ attachment,
    existsb (λ volume, String.eqb volume.(vol_resource_id) attachment.(volume_resource_id))
      volumes) service.(svc_volume_attachments).

Definition parse_service_intent (volumes : list SavedVolumeIntent) (service : SavedServiceIntent)
    : Result SavedServiceIntent ConfigError :=
  let? config := parse_service_config service.(svc_config) in
  let? _ := validate_variables service.(svc_variables) in
  let? _ := unique_values (map volume_resource_id service.(svc_volume_attachments))
              "volumeAttachments" true [] in
  let? _ := unique_values (map mount_path service.(svc_volume_attachments))
              "volumeAttachments.mountPath" false [] in
  let? _ := range (attaches_authored volumes service) "attachments"
              "Attachment must reference an authored resource" in
  Ok (with_config service config).

Definition validate_identities (intent : SavedEnvironmentIntent) : Result () ConfigError :=
  let? _ := range ((intent.(env_version) =? 1)%N && negb (str_is_empty intent.(env_slug)))
              "environment" "Invalid environment version or slug" in
  let? _ := unique_values (map svc_id intent.(env_services)) "services.id" true [] in
  let? _ := unique_values (map svc_lineage_id intent.(env_services)) "services.lineageId" true [] in
  let? _ := unique_values (map svc_slug intent.(env_services)) "services.slug" false [] in
  let? _ := unique_values (map vol_resource_id intent.(env_volumes)) "resources.id" true [] in
  let? _ := unique_values (map vol_resource_lineage_id intent.(env_volumes)) "resources.lineageId"
              true [] in
  unique_values (map var_id (concat (map svc_variables intent.(env_services)))) "variables.id" true [].

Definition with_services (intent : SavedEnvironmentIntent) (services : list SavedServiceIntent)
    : SavedEnvironmentIntent :=
  {| env_version := intent.(env_version); env_slug := intent.(env_slug);
     env_services := services; env_volumes := intent.(env_volumes) |}.

(** Everything but the JSON. *)
Definition validate_environment (intent : SavedEnvironmentIntent)
    : Result SavedEnvironmentIntent ConfigError :=
  let? _ := validate_identities intent in
  let? services := collect_result (parse_service_intent intent.(env_volumes))
                     intent.(env_services) in
  let? _ := check_each (λ volume, nonempty volume.(vol_name) "volumes.name")
              intent.(env_volumes) in
  Ok (with_services intent services).

(** [Value::get] of a key, and [Value::as_array]. *)
Definition value_get (value : Value) (key : string) : option Value :=
  match value with VObject fields => bget fields key | _ => None end.

Definition value_items (value : Value) : list Value :=
  match value with VArray items => items | _ => [] end.

Definition holds_derived (service : Value) : bool :=
  match value_get service "config" with
  | Some config => bool_decide (is_Some (value_get config "env"))
                   || bool_decide (is_Some (value_get config "mounts"))
  | None => false
  end.

Definition parse_environment_intent `{Serde SavedEnvironmentIntent} (value : Value)
    : Result SavedEnvironmentIntent ConfigError :=
  if existsb holds_derived (from_option value_items [] (value_get value "services"))
  then Err (ConfigError_at "services.config"
              "Derived environment and attachments are not authored settings")
  else
    match from_value value with
    | None => Err (ConfigError_at "environment" "Invalid authored environment")
    | Some intent => validate_environment intent
    end.
End Documents.
