(* ===== verification/ConfigSpec.v ===== *)
(** * What admitted configuration satisfies

    An admitted document is well formed and already in normal form, its canonical
    order does not depend on the order it was written in, and a redacted one holds
    no ciphertext. *)

From S2P Require Import Prelude BTree Strings Text Values Spec RuntimeOutcome Config.
From S2P Require Import ConfigValidation.
From Stdlib Require Import Ascii.

Open Scope string_scope.
Open Scope nat_scope.
Open Scope list_scope.

(** ** Normal forms of text *)

Lemma range_Ok valid path message x : range valid path message = Ok x ↔ valid = true.
Proof. unfold range. destruct valid, x; naive_solver. Qed.

(** Invert the checks an admission passed. *)
Ltac invert_checks :=
  repeat match goal with
    | H : result_bind _ _ = Ok _ |- _ => apply result_bind_Ok in H as (? & ? & H)
    | H : range _ _ _ = Ok _ |- _ => apply range_Ok in H
    | H : Ok _ = Ok _ |- _ => injection H as <-
    end.

(** Replay them. *)
Ltac replay_checks :=
  repeat match goal with
    | H : ?c = true |- context [range ?c ?p ?m] =>
        rewrite (proj2 (range_Ok c p m ()) H); cbn [result_bind]
    | H : ?c = Ok ?x |- context [result_bind ?c _] => rewrite H; cbn [result_bind]
    end.

Lemma trimmed_text_Ok value path max value' :
  trimmed_text value path max = Ok value' →
  value' = trim value ∧ bytes_any (N.eqb 0) value' = false ∧ str_is_empty value' = false
  ∧ within max value' = true.
Proof.
  unfold trimmed_text. intros H. invert_checks.
  match goal with H : _ && _ = true |- _ => apply andb_true_iff in H as [He%negb_true_iff Hm] end.
  match goal with H : negb _ = true |- _ => apply negb_true_iff in H; by apply bytes_any_trim in H end.
Qed.

Lemma trimmed_text_stable value path max value' :
  trimmed_text value path max = Ok value' → trimmed_text value' path max = Ok value'.
Proof.
  intros (-> & Hn & He & Hm)%trimmed_text_Ok. unfold trimmed_text, range.
  rewrite Hn, trim_idem, He, Hm. done.
Qed.

Lemma optional_trimmed_stable value path max value' :
  optional_trimmed value path max = Ok value' → optional_trimmed value' path max = Ok value'.
Proof.
  destruct value as [value|]; simpl; intros H; invert_checks; [|done].
  simpl. by erewrite trimmed_text_stable.
Qed.

Lemma contains_app p a b : contains p (a +:+ p +:+ b) = true.
Proof.
  unfold contains. induction a as [|c a IH]; simpl.
  - destruct p as [|d p]; simpl; [by destruct b|].
    pose proof (strip_prefix_app (String d p) b) as Hs. simpl in Hs. by rewrite Hs.
  - destruct (strip_prefix p (String c (a +:+ p +:+ b))); [done|].
    destruct (split_once p (a +:+ p +:+ b)) as [[? ?]|]; done.
Qed.

Lemma contains_prefix p s w : contains p s = true → contains p (s +:+ w) = true.
Proof.
  unfold contains at 1. destruct (split_once p s) as [[a b]|] eqn:Hs; [|done]. intros _.
  apply split_once_Some in Hs as ->. rewrite !str_app_assoc. apply contains_app.
Qed.

Lemma drop_byte_suffix c s :
  ∃ w, s = w +:+ drop_byte c s ∧ bytes_all (is_byte c) w = true ∧ drop_byte c (drop_byte c s) = drop_byte c s.
Proof.
  induction s as [|d s (w & Hw & Hall & Hid)]; simpl; [by exists ""|].
  destruct (Ascii.eqb_spec c d) as [<-|Hne].
  - exists (String c w). simpl. rewrite <-Hw, Hall, andb_true_r. split_and!; [done| |done].
    rewrite is_byte_spec. apply Ascii.eqb_refl.
  - exists "". simpl. by rewrite (proj2 (Ascii.eqb_neq c d) Hne).
Qed.

Lemma trim_end_byte_prefix c s : ∃ w, s = trim_end_byte c s +:+ w ∧ bytes_all (is_byte c) w = true.
Proof.
  unfold trim_end_byte. destruct (drop_byte_suffix c (str_rev s)) as (w & Hw & Hall & _).
  exists (str_rev w). rewrite <-str_rev_app, <-Hw, str_rev_involutive, bytes_all_rev. done.
Qed.

Lemma trim_end_byte_idem c s : trim_end_byte c (trim_end_byte c s) = trim_end_byte c s.
Proof.
  unfold trim_end_byte. rewrite str_rev_involutive.
  by destruct (drop_byte_suffix c (str_rev s)) as (w & _ & _ & ->).
Qed.

(** ASCII text without white space is trimmed and, without capitals, lowercase. *)
Lemma plain_trim (p : N → bool) s :
  (∀ b, p b = true → is_ascii b = true ∧ is_ws1 b = false) → bytes_all p s = true → trim s = s.
Proof.
  intros Hp Hs. apply trim_id.
  - eapply bytes_all_impl; [|exact Hs]. intros b Hb. by apply Hp.
  - apply no_ws_trimmed. eapply bytes_all_not_any; [|exact Hs]. intros b Hb. by apply Hp.
Qed.

Lemma lower_id s :
  bytes_all (λ b, is_ascii b && negb (is_ascii_uppercase b)) s = true → to_ascii_lowercase s = s.
Proof.
  unfold to_ascii_lowercase. induction s as [|c s IH]; [done|]. cbn [bytes_all str_map].
  intros [[_ Hu%negb_true_iff]%andb_true_iff Hs]%andb_true_iff. rewrite IH by done.
  unfold ascii_lower. by rewrite Hu.
Qed.

(** Read the tests on a byte as inequalities. *)
Ltac plain_byte H :=
  rewrite ?orb_true_iff, ?andb_true_iff, ?N.leb_le, ?N.eqb_eq in H;
  rewrite ?N.ltb_lt, ?orb_false_iff, ?andb_false_iff, ?N.leb_gt, ?N.eqb_neq; lia.

(** Lowercase letters, digits, '-' and '.'. *)
Definition is_host_byte (b : N) : bool := is_label_byte b || (b =? 46)%N.

Lemma host_byte_plain b :
  is_host_byte b = true →
  is_ascii b = true ∧ is_ws1 b = false ∧ is_ascii_uppercase b = false.
Proof.
  unfold is_host_byte, is_label_byte, is_ascii_lowercase, is_ascii_digit, is_ascii, is_ws1,
    is_ascii_uppercase, byte_between. intros Hb. plain_byte Hb.
Qed.

Lemma host_text_stable s : bytes_all is_host_byte s = true → to_lowercase (trim s) = s.
Proof.
  intros Hs. rewrite (plain_trim is_host_byte) by (done || intros b Hb; by split; apply host_byte_plain).
  rewrite to_lowercase_ascii.
  - apply lower_id. eapply bytes_all_impl; [|exact Hs]. intros b (Ha & _ & Hu)%host_byte_plain.
    by rewrite Ha, Hu.
  - eapply bytes_all_impl; [|exact Hs]. intros b Hb. by apply host_byte_plain.
Qed.

Lemma label_host_bytes s : is_dns_label s = true → bytes_all is_host_byte s = true.
Proof.
  intros Hs%dns_label_bytes. eapply bytes_all_impl; [|exact Hs].
  intros b Hb. unfold is_host_byte. by rewrite Hb.
Qed.

Lemma split_byte_bytes (p : N → bool) sep s :
  p (byte_of sep) = true → forallb (bytes_all p) (split_byte sep s) = true → bytes_all p s = true.
Proof.
  intros Hsep. induction s as [|c s IH]; simpl; [done|].
  destruct (Ascii.eqb_spec c sep) as [->|Hne]; simpl.
  - intros Hs. by rewrite Hsep, IH.
  - destruct (split_byte sep s) as [|piece pieces] eqn:Hp; simpl.
    + intros [[Hc _]%andb_true_iff _]%andb_true_iff. rewrite Hc. apply IH. done.
    + intros [[Hc Hpiece]%andb_true_iff Hps]%andb_true_iff. rewrite Hc. apply IH.
      simpl. by rewrite Hpiece, Hps.
Qed.

Lemma hostname_bytes s : is_hostname s = true → bytes_all is_host_byte s = true.
Proof.
  unfold is_hostname. intros [_ Hs]%andb_true_iff. apply (split_byte_bytes _ "."%char); [done|].
  apply forallb_forall. intros piece Hp. rewrite forallb_forall in Hs.
  by apply label_host_bytes, Hs.
Qed.

Lemma dir_byte_plain b : is_dir_byte b = true → is_ascii b = true ∧ is_ws1 b = false ∧ (0 =? b)%N = false.
Proof.
  unfold is_dir_byte, is_ascii_alphanumeric, is_ascii_lowercase, is_ascii_digit, is_ascii, is_ws1,
    is_ascii_uppercase, byte_between. intros Hb. plain_byte Hb.
Qed.

(** A directory keeps its leading slash when its trailing one goes. *)
Lemma dir_trimmed value :
  starts_with "/" value = true → contains "//" value = false → value ≠ "/" →
  starts_with "/" (trim_end_byte "/" value) = true ∧ trim_end_byte "/" value ≠ "/".
Proof.
  intros Hs Hc Hne. unfold starts_with in Hs.
  destruct (strip_prefix "/" value) as [rest|] eqn:Hr; [|done]. apply strip_prefix_Some in Hr as ->.
  cbn [String.append] in *. destruct rest as [|d value]; [done|].
  destruct (Ascii.eqb_spec "/" d) as [<-|Hd].
  { pose proof (contains_app "//" "" value) as Hx. cbn [String.append] in Hx. congruence. }
  assert (∀ t, bytes_all (is_byte "/") (String d t) = false) as Hno.
  { intros t. cbn [bytes_all]. by rewrite is_byte_spec, (proj2 (Ascii.eqb_neq _ _) Hd). }
  destruct (trim_end_byte_prefix "/" (String "/" (String d value))) as (w & Hw & Hall).
  destruct (trim_end_byte "/" (String "/" (String d value))) as [|x t]; cbn [String.append] in Hw.
  - exfalso. rewrite <-Hw in Hall. cbn [bytes_all] in Hall. apply andb_true_iff in Hall as [_ Hall].
    pose proof (Hno value) as Hx. cbn [bytes_all] in Hx. congruence.
  - injection Hw as <- Hw. split; [done|]. intros [= ->]. cbn [String.append] in Hw.
    rewrite <-Hw in Hall. by rewrite Hno in Hall.
Qed.

Lemma root_dir_stable value value' : root_dir value = Ok value' → root_dir value' = Ok value'.
Proof.
  unfold root_dir. intros H. invert_checks. rename x into text.
  match goal with H : trimmed_text _ _ _ = _ |- _ => rename H into Ht end.
  match goal with H : _ && _ = true |- _ =>
    apply andb_true_iff in H as [[Hs Hc%negb_true_iff]%andb_true_iff Hb] end.
  destruct (String.eqb_spec text "/") as [->|Hne]; [done|].
  destruct (dir_trimmed text Hs Hc Hne) as [Hs' Hne'].
  destruct (trim_end_byte_prefix "/" text) as (w & Hw & _).
  set (dir := trim_end_byte "/" text) in *.
  assert (bytes_all is_dir_byte dir = true) as Hb'.
  { rewrite Hw, bytes_all_app in Hb. by apply andb_true_iff in Hb as [? _]. }
  assert (contains "//" dir = false) as Hc'.
  { destruct (contains "//" dir) eqn:Hd; [|done]. apply (contains_prefix _ _ w) in Hd.
    rewrite <-Hw in Hd. congruence. }
  unfold trimmed_text. rewrite (plain_trim is_dir_byte dir);
    [|intros b Hdb; by split; apply dir_byte_plain|done].
  assert (bytes_any (N.eqb 0) dir = false) as ->.
  { eapply bytes_all_not_any; [|exact Hb']. intros b Hdb. by apply dir_byte_plain. }
  assert (str_is_empty dir = false) as -> by (by destruct dir). simpl.
  unfold range. rewrite Hs', Hc', Hb'. simpl. rewrite (proj2 (String.eqb_neq _ _) Hne').
  unfold dir. by rewrite trim_end_byte_idem.
Qed.

(** ** Normal forms of settings *)

Lemma healthcheck_path_stable value value' :
  healthcheck_path value = Ok value' → healthcheck_path value' = Ok value'.
Proof.
  unfold healthcheck_path. intros H. invert_checks.
  erewrite trimmed_text_stable by done. cbn [result_bind]. by replay_checks.
Qed.

Lemma normalize_healthcheck_stable value value' :
  normalize_healthcheck value = Ok value' → normalize_healthcheck value' = Ok value'.
Proof.
  destruct value as [|path seconds]; simpl; intros H; invert_checks; [done|]. simpl.
  erewrite healthcheck_path_stable by done. cbn [result_bind]. by replay_checks.
Qed.

Lemma hostname_prefix_stable value value' :
  hostname_prefix value = Ok value' → hostname_prefix value' = Ok value' ∧ is_dns_label value' = true.
Proof.
  unfold hostname_prefix. intros H. invert_checks. split; [|done].
  rewrite host_text_stable by (by apply label_host_bytes). by replay_checks.
Qed.

Lemma managed_hostname_stable value value' :
  managed_hostname value = Ok value' → managed_hostname value' = Ok value'.
Proof.
  unfold managed_hostname. intros H. invert_checks. simpl.
  match goal with H : hostname_prefix _ = _ |- _ => apply hostname_prefix_stable in H as [-> _] end.
  cbn [result_bind]. by replay_checks.
Qed.

Lemma managed_hostnames_stable values seen values' :
  managed_hostnames values seen = Ok values' → managed_hostnames values' seen = Ok values'.
Proof.
  revert seen values'. induction values as [|value values IH]; simpl; intros seen values' H;
    invert_checks; [done|]. simpl.
  erewrite managed_hostname_stable by done. cbn [result_bind]. replay_checks.
  erewrite IH by done. done.
Qed.

Lemma normalize_build_stable value value' :
  normalize_build value = Ok value' → normalize_build value' = Ok value'.
Proof.
  unfold normalize_build. intros H. invert_checks. simpl.
  erewrite !optional_trimmed_stable by done. done.
Qed.

Section Stable.
Context `{ConfigCrates}.

Lemma normalize_routes_stable routes ids routes' :
  normalize_routes routes ids = Ok routes' → normalize_routes routes' ids = Ok routes'.
Proof.
  revert ids routes'. induction routes as [|route routes IH]; simpl; intros ids routes' Hr;
    invert_checks; [done|]. cbn [normalize_routes with_hostname route_id route_hostname route_target_port].
  match goal with H : is_ok _ = true |- _ => rename H into Hhost end.
  assert (is_hostname (to_lowercase (trim (route_hostname route))) = true) as Hh.
  { unfold IngressHost_parse, validated_parse in Hhost. by destruct (is_hostname _). }
  rewrite (host_text_stable (to_lowercase _)) by (by apply hostname_bytes).
  replay_checks. erewrite IH by done. done.
Qed.

Lemma normalize_branch_stable branch branch' :
  normalize_branch branch = Ok branch' → normalize_branch branch' = Ok branch'.
Proof.
  destruct branch; simpl; intros Hb; invert_checks; simpl.
  - by erewrite trimmed_text_stable.
  - by erewrite optional_trimmed_stable.
Qed.

Lemma normalize_source_stable source source' :
  normalize_source source = Ok source' → normalize_source source' = Ok source'.
Proof.
  destruct source as [version dir|version repository id access dir branch|version image credentials];
    simpl; intros Hs; invert_checks; simpl; replay_checks.
  - by erewrite root_dir_stable.
  - erewrite trimmed_text_stable by done. cbn [result_bind]. replay_checks.
    erewrite root_dir_stable by done. cbn [result_bind]. by erewrite normalize_branch_stable.
  - erewrite trimmed_text_stable by done. cbn [result_bind]. by replay_checks.
Qed.

Lemma parse_service_config_stable config config' :
  parse_service_config config = Ok config' → parse_service_config config' = Ok config'.
Proof.
  unfold parse_service_config. intros Hc. invert_checks. simpl. replay_checks.
  erewrite normalize_build_stable by done. cbn [result_bind]. replay_checks.
  erewrite normalize_healthcheck_stable by done. cbn [result_bind].
  erewrite managed_hostnames_stable by done. cbn [result_bind]. replay_checks.
  erewrite (optional_trimmed_stable (sc_pre_deploy_command _)) by done. cbn [result_bind]. replay_checks.
  erewrite normalize_routes_stable by done. cbn [result_bind].
  erewrite normalize_source_stable by done. cbn [result_bind].
  by erewrite optional_trimmed_stable.
Qed.

(** ** Identities *)

Lemma unique_values_Ok values path uuid seen x :
  unique_values values path uuid seen = Ok x ↔
  NoDup values ∧ (∀ value, value ∈ values → (value ≠ "") ∧ (value ∉ seen) ∧ (uuid = true → uuid_valid value = true)).
Proof.
  revert seen. induction values as [|value values IH]; intros seen; simpl.
  { split; [split; [constructor|set_solver]|by destruct x]. }
  rewrite NoDup_cons. destruct (str_is_empty value || _ || _) eqn:Hbad.
  - split; [done|]. intros [_ Hall]. destruct (Hall value ltac:(set_solver)) as (Hne & Hns & Huu).
    destruct value; [done|]. rewrite (bool_decide_eq_false_2 _ Hns), orb_false_r in Hbad. simpl in Hbad.
    apply andb_true_iff in Hbad as [Hu%Huu Hv]. by rewrite Hu in Hv.
  - apply orb_false_iff in Hbad as [[He Huu]%orb_false_iff Hns%bool_decide_eq_false].
    rewrite IH. split.
    + intros [Hnd Hall]. split_and!; [intros Hin; by apply Hall in Hin as (_ & Hx & _); set_solver|done|].
      intros other [->|Ho]%elem_of_cons.
      * split_and!; [by destruct value|done|]. intros ->. simpl in Huu. by apply negb_false_iff.
      * apply Hall in Ho as (? & ? & ?). set_solver.
    + intros [[Hnin Hnd] Hall]. split; [done|]. intros other Ho.
      destruct (Hall other ltac:(set_solver)) as (? & ? & ?). split_and!; [done|set_solver|done].
Qed.

Lemma check_each_Ok {A} (check : A → Result () ConfigError) l x :
  check_each check l = Ok x ↔ ∀ y, y ∈ l → check y = Ok ().
Proof.
  induction l as [|y l IH]; simpl; [destruct x; set_solver|].
  rewrite result_bind_Ok. split.
  - intros ([] & Hy & Hl) z [->|Hz]%elem_of_cons; [done|]. by apply IH.
  - intros Hall. exists (). split; [apply Hall; set_solver|]. apply IH. set_solver.
Qed.
End Stable.

(** ** Well-formed documents *)

Section WellFormed.
Context `{ConfigCrates}.

Definition valid_ids (ids : list string) : Prop :=
  NoDup ids ∧ ∀ id, id ∈ ids → (id ≠ "") ∧ uuid_valid id = true.

(** A variable has a fingerprint exactly when it has a value, and a sealed one is version 1. *)
Definition variable_ok (variable : SavedVariableIntent) : Prop :=
  (variable.(var_value) = VariableSecretWithoutValue ↔ variable.(var_value_fingerprint) = "")
  ∧ ∀ value, variable.(var_value) = VariableSecret (Some value) → value.(sealed_version) = 1%N.

Record service_ok (volumes : list SavedVolumeIntent) (service : SavedServiceIntent) : Prop := {
  service_normal : parse_service_config service.(svc_config) = Ok service.(svc_config);
  service_replicas : (1 ≤ service.(svc_config).(sc_replicas) ≤ 50)%N;
  service_retries : (service.(svc_config).(sc_max_retries) ≤ 100)%N;
  service_keys : NoDup (map var_key service.(svc_variables));
  service_variables : Forall variable_ok service.(svc_variables);
  service_attachments : valid_ids (map volume_resource_id service.(svc_volume_attachments));
  service_paths : NoDup (map mount_path service.(svc_volume_attachments));
  service_mounts_authored attachment : attachment ∈ service.(svc_volume_attachments) →
    ∃ volume, volume ∈ volumes ∧ volume.(vol_resource_id) = attachment.(volume_resource_id)
}.

Record well_formed (intent : SavedEnvironmentIntent) : Prop := {
  wf_version : intent.(env_version) = 1%N;
  wf_slug : intent.(env_slug) ≠ "";
  wf_service_ids : valid_ids (map svc_id intent.(env_services));
  wf_lineages : valid_ids (map svc_lineage_id intent.(env_services));
  wf_slugs : NoDup (map svc_slug intent.(env_services));
  wf_volume_ids : valid_ids (map vol_resource_id intent.(env_volumes));
  wf_volume_lineages : valid_ids (map vol_resource_lineage_id intent.(env_volumes));
  wf_variable_ids : valid_ids (map var_id (concat (map svc_variables intent.(env_services))));
  wf_services : Forall (service_ok intent.(env_volumes)) intent.(env_services);
  wf_volume_names : Forall (λ volume, volume.(vol_name) ≠ "") intent.(env_volumes)
}.

Lemma unique_ids values path x : unique_values values path true [] = Ok x → valid_ids values.
Proof. intros [Hnd Hall]%unique_values_Ok. split; [done|]. intros id (? & _ & ?)%Hall. auto. Qed.

Lemma unique_nodup values path uuid x : unique_values values path uuid [] = Ok x → NoDup values.
Proof. by intros [Hnd _]%unique_values_Ok. Qed.

Lemma validate_variable_Ok variable x : validate_variable variable = Ok x → variable_ok variable.
Proof.
  unfold validate_variable, variable_ok. destruct (negb _) eqn:Hf; [done|].
  apply negb_false_iff, Bool.eqb_prop in Hf. intros Hv. split.
  - destruct (var_value_fingerprint variable); simpl in Hf.
    + by rewrite bool_decide_eq_true in Hf.
    + rewrite bool_decide_eq_false in Hf. done.
  - intros value Hval. rewrite Hval in Hv. destruct (N.eqb_spec (sealed_version value) 1); done.
Qed.

Lemma parse_service_config_ranges config config' :
  parse_service_config config = Ok config' →
  (1 ≤ config'.(sc_replicas) ≤ 50)%N ∧ (config'.(sc_max_retries) ≤ 100)%N.
Proof.
  unfold parse_service_config, max_retries_in_range, replicas_in_range. intros Hc. invert_checks. simpl.
  repeat match goal with
    | H : (_ && _)%N = true |- _ => apply andb_true_iff in H as [?%N.leb_le ?%N.leb_le]
    | H : (_ <=? MAX_RETRIES_MAX)%N = true |- _ => apply N.leb_le in H
    end. unfold REPLICAS_MAX, MAX_RETRIES_MAX in *. lia.
Qed.

Lemma parse_service_intent_ok volumes service service' :
  parse_service_intent volumes service = Ok service' → service_ok volumes service'.
Proof.
  unfold parse_service_intent, validate_variables. intros Hs. invert_checks.
  match goal with H : parse_service_config _ = _ |- _ => rename H into Hc end.
  match goal with H : attaches_authored _ _ = true |- _ => rename H into Ha end.
  split; simpl.
  - by eapply parse_service_config_stable.
  - by eapply parse_service_config_ranges.
  - by eapply parse_service_config_ranges.
  - by eapply unique_nodup.
  - apply Forall_forall. intros variable Hv. eapply validate_variable_Ok.
    by eapply check_each_Ok.
  - by eapply unique_ids.
  - by eapply unique_nodup.
  - intros attachment Hin. unfold attaches_authored in Ha. rewrite forallb_forall in Ha.
    apply list_elem_of_In, Ha, existsb_exists in Hin as (volume & Hv & He%String.eqb_eq).
    exists volume. split; [by apply list_elem_of_In|done].
Qed.

Lemma parse_service_intent_same volumes service service' :
  parse_service_intent volumes service = Ok service' →
  service' = with_config service service'.(svc_config)
  ∧ parse_service_intent volumes service' = Ok service'.
Proof.
  unfold parse_service_intent. intros Hs. invert_checks. split; [done|]. simpl.
  match goal with H : attaches_authored _ _ = true |- _ => rename H into Ha end.
  erewrite parse_service_config_stable by done. cbn [result_bind]. replay_checks.
  change (attaches_authored volumes (with_config service _)) with (attaches_authored volumes service).
  by rewrite Ha.
Qed.

(** Parsing keeps each Service's identities and relationships. *)
Lemma parsed_services volumes services services' {A} (f : SavedServiceIntent → A) :
  (∀ service config, f (with_config service config) = f service) →
  collect_result (parse_service_intent volumes) services = Ok services' →
  map f services' = map f services.
Proof.
  intros Hf Hc%collect_result_Ok. induction Hc as [|service service' services services' Hs _ IH];
    simpl; [done|]. apply parse_service_intent_same in Hs as [-> _]. by rewrite Hf, IH.
Qed.

Lemma validate_environment_inv intent intent' :
  validate_environment intent = Ok intent' →
  ∃ services, intent' = with_services intent services
    ∧ collect_result (parse_service_intent intent.(env_volumes)) intent.(env_services) = Ok services
    ∧ validate_identities intent = Ok () ∧ validate_identities intent' = Ok ()
    ∧ (∀ volume, volume ∈ intent.(env_volumes) → nonempty volume.(vol_name) "volumes.name" = Ok ()).
Proof.
  unfold validate_environment. intros Hv.
  apply result_bind_Ok in Hv as ([] & Hids & Hv). apply result_bind_Ok in Hv as (services & Hc & Hv).
  apply result_bind_Ok in Hv as (x & Hn & Hv). injection Hv as <-.
  exists services. split_and!; [done|done|done| |exact (proj1 (check_each_Ok _ _ _) Hn)].
  rewrite <-Hids. unfold validate_identities. simpl.
  rewrite (parsed_services _ _ _ svc_id (λ _ _, eq_refl) Hc).
  rewrite (parsed_services _ _ _ svc_lineage_id (λ _ _, eq_refl) Hc).
  rewrite (parsed_services _ _ _ svc_slug (λ _ _, eq_refl) Hc).
  by rewrite (parsed_services _ _ _ svc_variables (λ _ _, eq_refl) Hc).
Qed.

Lemma admitted_wf intent intent' :
  validate_environment intent = Ok intent' → well_formed intent'.
Proof.
  intros (services & -> & Hc & _ & Hids & Hn)%validate_environment_inv.
  unfold validate_identities in Hids. invert_checks.
  match goal with H : _ && _ = true |- _ => apply andb_true_iff in H as [Hv%N.eqb_eq Hs%negb_true_iff] end.
  simpl in *. split; simpl; eauto using unique_ids, unique_nodup.
  - by destruct (env_slug intent).
  - apply collect_result_Ok in Hc. apply Forall_forall. intros service Hin.
    apply list_elem_of_lookup in Hin as (i & Hi).
    destruct (Forall2_lookup_r _ _ _ _ _ Hc Hi) as (old & _ & Ho). by eapply parse_service_intent_ok.
  - apply Forall_forall. intros volume Hin. specialize (Hn volume Hin). unfold nonempty in Hn.
    by destruct (vol_name volume).
Qed.

(** C31: An admitted Environment document is well formed: every identity is a distinct UUID, slugs,
    variable keys and mount paths are distinct, each attachment names a Volume of the
    document, each Service's settings are in normal form and in range, and a variable lacks a
    fingerprint exactly when it is a secret without a value. *)
Theorem admitted_well_formed intent intent' :
  validate_environment intent = Ok intent' → well_formed intent'.
Proof. apply admitted_wf. Qed.

(** A document that admission leaves as it is. *)
Definition normal_form (intent : SavedEnvironmentIntent) : Prop :=
  validate_environment intent = Ok intent.

(** Admission is a normal form: an admitted document is admitted again, unchanged. *)
Theorem admission_stable intent intent' :
  validate_environment intent = Ok intent' → normal_form intent'.
Proof.
  intros (services & -> & Hc & _ & Hids & Hn)%validate_environment_inv.
  unfold normal_form, validate_environment. rewrite Hids. cbn [result_bind with_services env_volumes env_services].
  assert (collect_result (parse_service_intent (env_volumes intent)) services = Ok services) as ->.
  { apply collect_result_Ok. apply collect_result_Ok in Hc.
    clear Hids. induction Hc as [|service service' ? ? Hs _ IH]; [constructor|].
    apply parse_service_intent_same in Hs as [_ ?]. by constructor. }
  cbn [result_bind]. by rewrite (proj2 (check_each_Ok _ _ ()) Hn).
Qed.
End WellFormed.

(** ** Canonical order *)

(** The same Service, its variables and attachments written in any order. *)
Record same_service (a b : SavedServiceIntent) : Prop := {
  same_svc_id : a.(svc_id) = b.(svc_id);
  same_svc_lineage : a.(svc_lineage_id) = b.(svc_lineage_id);
  same_svc_slug : a.(svc_slug) = b.(svc_slug);
  same_svc_config : a.(svc_config) = b.(svc_config);
  same_svc_variables : a.(svc_variables) ≡ₚ b.(svc_variables);
  same_svc_attachments : a.(svc_volume_attachments) ≡ₚ b.(svc_volume_attachments)
}.

(** The same document, written in any order. *)
Record same_document (a b : SavedEnvironmentIntent) : Prop := {
  same_doc_version : a.(env_version) = b.(env_version);
  same_doc_slug : a.(env_slug) = b.(env_slug);
  same_doc_services : ∃ services, a.(env_services) ≡ₚ services
    ∧ Forall2 same_service services b.(env_services);
  same_doc_volumes : a.(env_volumes) ≡ₚ b.(env_volumes)
}.

Section Sorting.
Context `{OrdLaws K} {A : Type} (key : A → K).

Lemma sort_by_key_perm l : sort_by_key key l ≡ₚ l.
Proof. apply stable_sort_perm. Qed.

Lemma sort_by_key_sorted l : StronglySorted (λ a b, key_le (key a) (key b) = true) (sort_by_key key l).
Proof.
  apply stable_sort_sorted; [intros; apply key_le_total|]. intros a b c. apply key_le_trans.
Qed.

(** Under distinct keys the order written does not matter. *)
Lemma sort_by_key_unique l1 l2 :
  NoDup (map key l1) → l1 ≡ₚ l2 → sort_by_key key l1 = sort_by_key key l2.
Proof.
  intros Hnd Hp. apply (StronglySorted_unique_strong (λ a b, key_le (key a) (key b) = true)).
  - intros a b Ha Hb Hab Hba. eapply NoDup_map_inj; [exact Hnd|..].
    + by rewrite <-(sort_by_key_perm l1).
    + by rewrite Hp, <-(sort_by_key_perm l2).
    + by apply key_le_antisym.
  - apply sort_by_key_sorted.
  - apply sort_by_key_sorted.
  - by rewrite !sort_by_key_perm.
Qed.
End Sorting.

Section Canonical.
Context `{ConfigCrates}.

Lemma canonicalize_service_same a : same_service (canonicalize_service a) a.
Proof. split; simpl; try done; apply sort_by_key_perm. Qed.

Lemma canonicalize_service_eq a b :
  same_service a b → NoDup (map var_id a.(svc_variables)) →
  NoDup (map mount_path a.(svc_volume_attachments)) →
  canonicalize_service a = canonicalize_service b.
Proof.
  intros [Hi Hl Hs Hc Hv Ha] Hvars Hpaths. unfold canonicalize_service.
  rewrite Hi, Hl, Hs, Hc. f_equal; [by apply sort_by_key_unique|].
  apply sort_by_key_unique; [|done]. clear -Hpaths.
  induction (svc_volume_attachments a) as [|x l IH]; simpl in *; [constructor|].
  apply NoDup_cons in Hpaths as [Hn Hnd]. constructor; [|auto].
  intros (y & [= Hm _] & Hy)%list_elem_of_fmap. apply Hn. rewrite Hm. by apply list_elem_of_fmap_2.
Qed.

Lemma NoDup_concat_each {A} (ls : list (list A)) l : NoDup (concat ls) → l ∈ ls → NoDup l.
Proof.
  induction ls as [|x ls IH]; simpl; [set_solver|]. intros (Hx & _ & Hr)%NoDup_app.
  intros [->|Hl]%elem_of_cons; auto.
Qed.

Lemma wf_service_variables intent service :
  well_formed intent → service ∈ intent.(env_services) → NoDup (map var_id service.(svc_variables)).
Proof.
  intros Hwf Hin. apply (NoDup_concat_each (map (map var_id) (map svc_variables intent.(env_services)))).
  - rewrite <-concat_map. apply (wf_variable_ids _ Hwf).
  - by apply list_elem_of_fmap_2, list_elem_of_fmap_2.
Qed.

Lemma canonicalize_same_document intent : same_document (canonicalize_environment_intent intent) intent.
Proof.
  split; simpl; [done|done| |apply sort_by_key_perm].
  exists (map canonicalize_service intent.(env_services)). split.
  - by rewrite (sort_by_key_perm svc_id).
  - induction intent.(env_services); simpl; constructor; [apply canonicalize_service_same|done].
Qed.

Lemma canonicalize_services_eq l1 l2 :
  Forall2 same_service l1 l2 →
  (∀ service, service ∈ l1 → NoDup (map var_id service.(svc_variables))
     ∧ NoDup (map mount_path service.(svc_volume_attachments))) →
  map canonicalize_service l1 = map canonicalize_service l2.
Proof.
  intros Hall. induction Hall as [|a b l1 l2 Hab _ IH]; simpl; [done|]. intros Hok.
  destruct (Hok a ltac:(set_solver)). f_equal; [by apply canonicalize_service_eq|].
  apply IH. intros service Hs. apply Hok. set_solver.
Qed.

Lemma map_sort_by_key {A B} `{OrdLaws K} (f : A → B) (ka : A → K) (kb : B → K) l :
  (∀ x, kb (f x) = ka x) → map f (sort_by_key ka l) = sort_by_key kb (map f l).
Proof.
  intros Hk. unfold sort_by_key, stable_sort. induction l as [|x l IH]; simpl; [done|].
  rewrite <-IH. clear IH. induction (foldr _ [] l) as [|y m IH]; simpl; [done|].
  rewrite !Hk. destruct (key_le (ka x) (ka y)); simpl; [done|]. by rewrite IH.
Qed.

Lemma canonicalize_service_inv a b :
  canonicalize_service a = canonicalize_service b → same_service a b.
Proof.
  intros He. destruct (canonicalize_service_same a) as [Hi Hl Hs Hc Hv Ha].
  destruct (canonicalize_service_same b) as [Hi' Hl' Hs' Hc' Hv' Ha'].
  rewrite He in *. split; [congruence..| |].
  - by rewrite <-Hv, Hv'.
  - by rewrite <-Ha, Ha'.
Qed.

Lemma map_eq_Forall2 {A B} (f : A → B) l1 l2 :
  map f l1 = map f l2 → Forall2 (λ x y, f x = f y) l1 l2.
Proof.
  revert l2. induction l1 as [|x l1 IH]; intros [|y l2] He; try discriminate; [constructor|].
  injection He as Hx He. constructor; auto.
Qed.

(** The canonical form of an admitted document is a complete invariant of what it says: two
    documents, the first well formed, are the same up to the order their Services, variables,
    attachments and Volumes are written in exactly when their canonical forms are equal. *)
Theorem canonical_form_complete a b :
  well_formed a →
  (canonicalize_environment_intent a = canonicalize_environment_intent b ↔ same_document a b).
Proof.
  intros Hwf. split.
  - intros [= Hv Hs Hser Hvol]. split; [done|done| |].
    + apply map_eq_Forall2 in Hser.
      destruct (Forall2_perm _ _ _ _ Hser (sort_by_key_perm svc_id b.(env_services))) as (l & Hp & Hf).
      exists l. split; [by rewrite <-Hp, (sort_by_key_perm svc_id)|].
      eapply Forall2_impl; [exact Hf|]. apply canonicalize_service_inv.
    + by rewrite <-(sort_by_key_perm vol_resource_id), Hvol, (sort_by_key_perm vol_resource_id).
  - intros [Hv Hs (services & Hp & Hf) Hvol]. unfold canonicalize_environment_intent.
    rewrite Hv, Hs. f_equal.
    + rewrite !(map_sort_by_key canonicalize_service svc_id svc_id) by done.
      apply sort_by_key_unique.
      * rewrite map_map. simpl. apply (wf_service_ids _ Hwf).
      * rewrite Hp. erewrite (canonicalize_services_eq services); [done|done|].
        intros service Hin. rewrite <-Hp in Hin. split; [by eapply wf_service_variables|].
        eapply (proj1 (Forall_forall _ _) (wf_services _ Hwf)). done.
    + apply sort_by_key_unique; [apply (wf_volume_ids _ Hwf)|done].
Qed.
End Canonical.

(** ** Redaction *)

(** No ciphertext is left, and comparison evidence stays. *)
Lemma redacted_private intent service variable value :
  service ∈ (redact_environment_intent intent).(env_services) → variable ∈ service.(svc_variables) →
  variable.(var_value) ≠ VariableSecret (Some value).
Proof.
  intros (old & -> & _)%list_elem_of_fmap (v & -> & _)%list_elem_of_fmap. simpl.
  by destruct (var_value v).
Qed.

(** Redacting and ordering commute. *)
Lemma redact_canonicalize intent :
  redact_environment_intent (canonicalize_environment_intent intent)
  = canonicalize_environment_intent (redact_environment_intent intent).
Proof.
  unfold redact_environment_intent, canonicalize_environment_intent. simpl. f_equal.
  rewrite !(map_sort_by_key canonicalize_service svc_id svc_id) by done.
  rewrite (map_sort_by_key redact_service svc_id svc_id) by done. f_equal.
  rewrite !map_map. apply map_ext. intros service. unfold redact_service, canonicalize_service. simpl.
  f_equal. by apply map_sort_by_key.
Qed.

(** ** Witnesses *)

Module SampleConfig.
#[global] Instance crates : ConfigCrates :=
  {| uuid_valid := λ s, String.length s =? 36; is_image_reference := λ s, negb (str_is_empty s) |}.

Definition config : AuthoredServiceConfig :=
  {| sc_version := 2; sc_source := SourceGit 2 " acme/web " 7 AccessPublic "/app/" (BranchConnected "main");
     sc_pre_deploy_command := None; sc_start_command := Some "  npm start ";
     sc_healthcheck := ServiceHealthHttp "/up" 30; sc_restart_policy := RestartUnlessStopped;
     sc_max_retries := 10; sc_replicas := 2; sc_cpu_limit := None; sc_mem_limit := None;
     sc_private_dns := "web"; sc_routes := [];
     sc_managed_hostnames := [{| managed_prefix := "Web"; managed_target_port := Some 80%N |}];
     sc_build := {| build_method := Railpack; dockerfile_path := None; build_command := None |};
     sc_template := None |}.

Definition id (last : string) : string := "00000000-0000-0000-0000-00000000000" +:+ last.

Definition variable (last key : string) : SavedVariableIntent :=
  {| var_id := id last; var_key := key; var_description := None; var_exported := false;
     var_value_fingerprint := "f"; var_value := VariableLiteral "x" |}.

Definition document (variables : list SavedVariableIntent) : SavedEnvironmentIntent :=
  {| env_version := 1; env_slug := "production";
     env_services := [{| svc_id := id "1"; svc_lineage_id := id "2"; svc_slug := "web";
                         svc_config := config; svc_variables := variables;
                         svc_volume_attachments :=
                           [{| volume_resource_id := id "3"; mount_path := "/data" |}] |}];
     env_volumes := [{| vol_resource_id := id "3"; vol_resource_lineage_id := id "4";
                        vol_name := "data"; vol_storage := VolumeDocker;
                        vol_shared_writes := false |}] |}.

Definition two : list SavedVariableIntent := [variable "6" "B"; variable "5" "A"].
End SampleConfig.

Lemma admitted_well_formed_witness :
  ∃ intent', validate_environment (SampleConfig.document SampleConfig.two) = Ok intent'
             ∧ well_formed intent'.
Proof.
  assert (∃ intent', validate_environment (SampleConfig.document SampleConfig.two) = Ok intent')
    as [intent' Hv] by (eexists; vm_compute; reflexivity).
  exists intent'. split; [exact Hv|].
  exact (admitted_well_formed (SampleConfig.document SampleConfig.two) intent' Hv).
Defined.

Lemma admission_stable_witness :
  ∃ intent', validate_environment (SampleConfig.document SampleConfig.two) = Ok intent'
             ∧ validate_environment intent' = Ok intent'.
Proof.
  assert (∃ intent', validate_environment (SampleConfig.document SampleConfig.two) = Ok intent')
    as [intent' Hv] by (eexists; vm_compute; reflexivity).
  exists intent'. split; [exact Hv|].
  exact (admission_stable (SampleConfig.document SampleConfig.two) intent' Hv).
Defined.

Lemma canonical_form_complete_witness :
  ∃ a b, a ≠ b ∧ same_document a b
         ∧ canonicalize_environment_intent a = canonicalize_environment_intent b.
Proof.
  assert (∃ a b, validate_environment (SampleConfig.document SampleConfig.two) = Ok a
    ∧ validate_environment (SampleConfig.document (rev SampleConfig.two)) = Ok b
    ∧ canonicalize_environment_intent a = canonicalize_environment_intent b ∧ a ≠ b)
    as (a & b & Ha & Hb & He & Hne)
    by (eexists _, _; split_and!; [vm_compute; reflexivity..|vm_compute; discriminate]).
  exists a, b. split; [exact Hne|]. split; [|exact He].
  apply (canonical_form_complete a b); [|exact He].
  exact (admitted_wf _ _ Ha).
Defined.
