(* ===== verification/ConfigJson.v ===== *)
(** * Authored configuration as JSON

    What [serde] derives for the types of [ployz-core/src/config/service.rs] and
    [environment.rs]: the JSON each value is written as, by the attributes of its
    declaration.  Reading is the inverse on every value the Rust types hold
    ([typed]); beyond that it is a parameter ([ConfigDecoders], [DecoderLaws]).

    An object is a sorted map, as [serde_json]'s is without [preserve_order].  The
    text of a float is that of the [ryu] crate ([f64_text]). *)

From S2P Require Import Prelude BTree Strings Decimal Values Spec RuntimeOutcome Config.
From S2P Require Import ConfigValidation.

Open Scope string_scope.
Open Scope nat_scope.
Open Scope list_scope.

(** ** Values compare structurally *)

Fixpoint value_eqb (a b : Value) {struct a} : bool :=
  match a, b with
  | VNull, VNull => true
  | VBool x, VBool y => Bool.eqb x y
  | VNumber x, VNumber y | VString x, VString y => String.eqb x y
  | VArray x, VArray y =>
      (fix all x y :=
         match x, y with
         | [], [] => true
         | v :: x, w :: y => value_eqb v w && all x y
         | _, _ => false
         end) x y
  | VObject x, VObject y =>
      (fix all (x y : bmap string Value) :=
         match x, y with
         | [], [] => true
         | (k, v) :: x, (l, w) :: y => String.eqb k l && value_eqb v w && all x y
         | _, _ => false
         end) x y
  | _, _ => false
  end.

Section ValueInduction.
Context (P : Value → Prop).
Context (Hnull : P VNull) (Hbool : ∀ b, P (VBool b)) (Hnumber : ∀ s, P (VNumber s))
  (Hstring : ∀ s, P (VString s)) (Harray : ∀ items, Forall P items → P (VArray items))
  (Hobject : ∀ fields : bmap string Value, Forall (λ kv, P kv.2) fields → P (VObject fields)).

(** Induction through arrays and objects. *)
Fixpoint value_induction (v : Value) : P v :=
  match v with
  | VNull => Hnull
  | VBool b => Hbool b
  | VNumber s => Hnumber s
  | VString s => Hstring s
  | VArray items =>
      Harray items ((fix all items : Forall P items :=
        match items with
        | [] => Forall_nil_2 _
        | v :: items => Forall_cons_2 _ _ _ (value_induction v) (all items)
        end) items)
  | VObject fields =>
      Hobject fields ((fix all (fields : list (string * Value)) : Forall (λ kv, P kv.2) fields :=
        match fields with
        | [] => Forall_nil_2 _
        | kv :: fields =>
            Forall_cons_2 (λ kv, P kv.2) kv fields (value_induction kv.2) (all fields)
        end) fields)
  end.
End ValueInduction.

Lemma value_eqb_eq a b : value_eqb a b = true ↔ a = b.
Proof.
  revert b. induction a as [|x|x|x|items IH|fields IH] using value_induction; intros [];
    simpl; try (split; [done|congruence]).
  - rewrite Bool.eqb_true_iff. naive_solver.
  - rewrite String.eqb_eq. naive_solver.
  - rewrite String.eqb_eq. naive_solver.
  - transitivity (items = items0); [|naive_solver]. revert items0.
    induction IH as [|v items Hv _ IHl]; intros [|w items0]; try done.
    rewrite andb_true_iff, Hv, IHl. naive_solver.
  - transitivity (fields = fields0); [|naive_solver]. revert fields0.
    induction IH as [|[k v] fields Hv _ IHl]; intros [|[l w] fields0]; try done.
    rewrite !andb_true_iff, String.eqb_eq. simpl in Hv. rewrite Hv, IHl. naive_solver.
Qed.

#[global] Instance Value_eq_dec : EqDecision Value.
Proof. refine (λ a b, cast_if (decide (value_eqb a b = true))); by rewrite <-value_eqb_eq. Defined.

(** ** Leaves *)

Class JsonFloat := f64_text : N → string.

Definition json_u (n : N) : Value := VNumber (u64_to_string n).
Definition json_option {A} (json : A → Value) (o : option A) : Value :=
  match o with Some x => json x | None => VNull end.

(** Neither infinite nor not a number: the exponent bits are not all ones. *)
Definition is_finite (bits : N) : bool := negb ((bits / 2 ^ 52) mod 2 ^ 11 =? 2047)%N.

Definition json_f64 `{JsonFloat} (bits : N) : Value :=
  if is_finite bits then VNumber (f64_text bits) else VNull.

(** ** Services ([config/service.rs]) *)

Definition ServiceGitAccess_json (access : ServiceGitAccess) : Value :=
  match access with
  | AccessPublic => VObject [("type", VString "public")]
  | AccessGithubInstallation installation_id =>
      VObject [("installationId", json_u installation_id); ("type", VString "github-installation")]
  end.

Definition ServiceGitBranch_json (branch : ServiceGitBranch) : Value :=
  match branch with
  | BranchConnected name => VObject [("name", VString name); ("type", VString "connected")]
  | BranchDisconnected previous_name =>
      VObject [("previousName", json_option VString previous_name); ("type", VString "disconnected")]
  end.

Definition ServiceImageCredentials_json (credentials : ServiceImageCredentials) : Value :=
  match credentials with
  | CredentialsNone => VObject [("type", VString "none")]
  | CredentialsConfigured credential_id =>
      VObject [("credentialId", VString credential_id); ("type", VString "configured")]
  end.

(** The fields of a source: it is always an object. *)
Definition ServiceSource_fields (source : ServiceSource) : bmap string Value :=
  match source with
  | SourceEmpty version root_dir =>
      [("rootDir", VString root_dir); ("type", VString "empty"); ("version", json_u version)]
  | SourceGit version repository repository_id access root_dir branch =>
      [("access", ServiceGitAccess_json access); ("branch", ServiceGitBranch_json branch);
       ("repository", VString repository); ("repositoryId", json_u repository_id);
       ("rootDir", VString root_dir); ("type", VString "git"); ("version", json_u version)]
  | SourceImage version image credentials =>
      [("credentials", ServiceImageCredentials_json credentials); ("image", VString image);
       ("type", VString "image"); ("version", json_u version)]
  end.

Definition ServiceSource_json (source : ServiceSource) : Value :=
  VObject (ServiceSource_fields source).

Definition ServiceHealthcheck_json (healthcheck : ServiceHealthcheck) : Value :=
  match healthcheck with
  | ServiceHealthNone => VObject [("type", VString "none")]
  | ServiceHealthHttp path timeout_seconds =>
      VObject [("path", VString path); ("timeoutSeconds", json_u timeout_seconds);
               ("type", VString "http")]
  end.

Definition ServiceRestartPolicy_json (policy : RestartPolicy) : Value :=
  VString match policy with
          | RestartNo => "no"
          | RestartAlways => "always"
          | RestartUnlessStopped => "unless-stopped"
          | RestartOnFailure _ => "on-failure"
          end.

Definition ServiceRoute_json (route : ServiceRoute) : Value :=
  VObject [("hostname", VString route.(route_hostname)); ("id", VString route.(route_id));
           ("targetPort", json_option json_u route.(route_target_port))].

Definition ServiceManagedHostname_json (hostname : ServiceManagedHostname) : Value :=
  VObject [("prefix", VString hostname.(managed_prefix));
           ("targetPort", json_option json_u hostname.(managed_target_port))].

Definition BuildMethod_json (method : BuildMethod) : Value :=
  VString match method with Dockerfile => "dockerfile" | Railpack => "railpack" end.

Definition ServiceBuildConfig_json (build : ServiceBuildConfig) : Value :=
  VObject [("buildMethod", BuildMethod_json build.(build_method));
           ("command", json_option VString build.(build_command));
           ("dockerfilePath", json_option VString build.(dockerfile_path))].

Definition ServiceTemplate_json (template : ServiceTemplate) : Value :=
  VObject [("id", VString template.(template_id)); ("version", json_u template.(template_version))].

Definition AuthoredServiceConfig_json `{JsonFloat} (config : AuthoredServiceConfig) : Value :=
  VObject
    ([("build", ServiceBuildConfig_json config.(sc_build));
      ("cpuLimit", json_option json_f64 config.(sc_cpu_limit));
      ("healthcheck", ServiceHealthcheck_json config.(sc_healthcheck));
      ("managedHostnames", VArray (map ServiceManagedHostname_json config.(sc_managed_hostnames)));
      ("maxRetries", json_u config.(sc_max_retries));
      ("memLimit", json_option json_f64 config.(sc_mem_limit));
      ("preDeployCommand", json_option VString config.(sc_pre_deploy_command));
      ("privateDns", VString config.(sc_private_dns));
      ("replicas", json_u config.(sc_replicas));
      ("restartPolicy", ServiceRestartPolicy_json config.(sc_restart_policy));
      ("routes", VArray (map ServiceRoute_json config.(sc_routes)));
      ("source", ServiceSource_json config.(sc_source));
      ("startCommand", json_option VString config.(sc_start_command))]
     ++ match config.(sc_template) with
        | Some template => [("template", ServiceTemplate_json template)]
        | None => []
        end
     ++ [("version", json_u config.(sc_version))]).

Definition ValuePartOwner_json (owner : ValuePartOwner) : Value :=
  match owner with
  | OwnerSelf => VObject [("scope", VString "self")]
  | OwnerService lineage_id =>
      VObject [("lineageId", VString lineage_id); ("scope", VString "service")]
  end.

Definition ValuePart_json (part : ValuePart) : Value :=
  match part with
  | PartText value => VObject [("kind", VString "text"); ("value", VString value)]
  | PartRef owner key =>
      VObject [("key", VString key); ("kind", VString "ref"); ("owner", ValuePartOwner_json owner)]
  end.

Definition EncryptedSecretValue_json (value : EncryptedSecretValue) : Value :=
  VObject [("ciphertext", VString value.(sealed_ciphertext)); ("iv", VString value.(sealed_iv));
           ("tag", VString value.(sealed_tag)); ("version", json_u value.(sealed_version))].

(** ** Environments ([config/environment.rs]) *)

Definition SavedVariableValue_json (value : SavedVariableValue) : Value :=
  match value with
  | VariableLiteral value => VObject [("kind", VString "literal"); ("value", VString value)]
  | VariableTemplate parts =>
      VObject [("kind", VString "template"); ("parts", VArray (map ValuePart_json parts))]
  | VariableSecret encrypted_value =>
      VObject [("encryptedValue", json_option EncryptedSecretValue_json encrypted_value);
               ("kind", VString "secret")]
  | VariableSecretWithoutValue => VObject [("kind", VString "secret_without_value")]
  end.

Definition SavedVariableIntent_json (variable : SavedVariableIntent) : Value :=
  VObject [("description", json_option VString variable.(var_description));
           ("exported", VBool variable.(var_exported)); ("id", VString variable.(var_id));
           ("key", VString variable.(var_key));
           ("value", SavedVariableValue_json variable.(var_value));
           ("valueFingerprint", VString variable.(var_value_fingerprint))].

Definition VolumeAttachment_json (attachment : VolumeAttachment) : Value :=
  VObject [("mountPath", VString attachment.(mount_path));
           ("volumeResourceId", VString attachment.(volume_resource_id))].

Definition VolumeKind_json (storage : VolumeKind) : Value :=
  match storage with
  | VolumeDocker => VObject [("kind", VString "docker")]
  | VolumeProvisioned maximum_bytes =>
      VObject [("kind", VString "provisioned"); ("maximumBytes", json_u maximum_bytes)]
  end.

Definition SavedVolumeIntent_json (volume : SavedVolumeIntent) : Value :=
  VObject
    ([("name", VString volume.(vol_name)); ("resourceId", VString volume.(vol_resource_id));
      ("resourceLineageId", VString volume.(vol_resource_lineage_id))]
     ++ (if volume.(vol_shared_writes) then [("sharedWrites", VBool true)] else [])
     ++ [("storage", VolumeKind_json volume.(vol_storage))]).

Section Documents.
Context `{JsonFloat}.

Definition SavedServiceIntent_json (service : SavedServiceIntent) : Value :=
  VObject [("config", AuthoredServiceConfig_json service.(svc_config));
           ("id", VString service.(svc_id)); ("lineageId", VString service.(svc_lineage_id));
           ("slug", VString service.(svc_slug));
           ("variables", VArray (map SavedVariableIntent_json service.(svc_variables)));
           ("volumeAttachments", VArray (map VolumeAttachment_json service.(svc_volume_attachments)))].

Definition SavedEnvironmentIntent_json (intent : SavedEnvironmentIntent) : Value :=
  VObject [("environmentSlug", VString intent.(env_slug));
           ("services", VArray (map SavedServiceIntent_json intent.(env_services)));
           ("version", json_u intent.(env_version));
           ("volumes", VArray (map SavedVolumeIntent_json intent.(env_volumes)))].
End Documents.

(** ** What the Rust types hold *)

(** A value of the model that is one of the program's: integers within their width, floats
    finite (JSON has no others), a restart policy without the count it does not carry, a
    Service Name that is one. *)
Definition is_u8 (n : N) : Prop := (n < 256)%N.
Definition is_u16 (n : N) : Prop := (n < 65536)%N.
Definition is_f64 (bits : N) : Prop := is_u64 bits ∧ is_finite bits = true.
Definition holds {A} (P : A → Prop) (o : option A) : Prop :=
  match o with Some x => P x | None => True end.

Definition typed_access (access : ServiceGitAccess) : Prop :=
  match access with AccessPublic => True | AccessGithubInstallation id => is_u64 id end.

Definition typed_source (source : ServiceSource) : Prop :=
  match source with
  | SourceEmpty version _ | SourceImage version _ _ => is_u8 version
  | SourceGit version _ repository_id access _ _ =>
      is_u8 version ∧ is_u64 repository_id ∧ typed_access access
  end.

Definition typed_healthcheck (healthcheck : ServiceHealthcheck) : Prop :=
  match healthcheck with ServiceHealthNone => True | ServiceHealthHttp _ t => is_u16 t end.

Definition typed_restart (policy : RestartPolicy) : Prop :=
  match policy with RestartOnFailure (Some _) => False | _ => True end.

Record typed_config (config : AuthoredServiceConfig) : Prop := {
  tc_version : is_u8 config.(sc_version);
  tc_source : typed_source config.(sc_source);
  tc_healthcheck : typed_healthcheck config.(sc_healthcheck);
  tc_restart : typed_restart config.(sc_restart_policy);
  tc_max_retries : is_u8 config.(sc_max_retries);
  tc_replicas : is_u8 config.(sc_replicas);
  tc_cpu : holds is_f64 config.(sc_cpu_limit);
  tc_mem : holds is_f64 config.(sc_mem_limit);
  tc_private_dns : is_dns_label config.(sc_private_dns) = true;
  tc_routes : Forall (λ route, holds is_u16 route.(route_target_port)) config.(sc_routes);
  tc_hostnames : Forall (λ hostname, holds is_u16 hostname.(managed_target_port))
                   config.(sc_managed_hostnames);
  tc_template : holds (λ template, is_u32 template.(template_version)
                                   ∧ (0 < template.(template_version))%N) config.(sc_template)
}.

Definition typed_variable_value (value : SavedVariableValue) : Prop :=
  match value with
  | VariableSecret encrypted => holds (λ value, is_u8 value.(sealed_version)) encrypted
  | _ => True
  end.

Definition typed_storage (storage : VolumeKind) : Prop :=
  match storage with VolumeDocker => True | VolumeProvisioned n => (0 < n)%N ∧ is_u64 n end.

Record typed_service (service : SavedServiceIntent) : Prop := {
  ts_config : typed_config service.(svc_config);
  ts_variables : Forall (λ variable, typed_variable_value variable.(var_value)) service.(svc_variables)
}.

Record typed (intent : SavedEnvironmentIntent) : Prop := {
  ty_version : is_u8 intent.(env_version);
  ty_services : Forall typed_service intent.(env_services);
  ty_volumes : Forall (λ volume, typed_storage volume.(vol_storage)) intent.(env_volumes)
}.

(** ** Reading ([serde_json::from_value]) *)

Class ConfigDecoders := {
  parse_bool : Value → option bool;
  parse_string : Value → option string;
  parse_opt_string : Value → option (option string);
  parse_u8 : Value → option N;
  parse_opt_f64 : Value → option (option N);
  parse_service_name : Value → option ServiceName;
  parse_source : Value → option ServiceSource;
  parse_git_branch : Value → option ServiceGitBranch;
  parse_healthcheck : Value → option ServiceHealthcheck;
  parse_restart_policy : Value → option RestartPolicy;
  parse_build_method : Value → option BuildMethod;
  parse_storage : Value → option VolumeKind;
  parse_variable_value : Value → option SavedVariableValue;
  parse_document : Value → option SavedEnvironmentIntent
}.

(** Serde reads back what it writes, and only values of the type. *)
Class DecoderLaws `{JsonFloat, ConfigDecoders} := {
  read_bool b : parse_bool (VBool b) = Some b;
  read_string s : parse_string (VString s) = Some s;
  read_opt_string o : parse_opt_string (json_option VString o) = Some o;
  read_u8 n : is_u8 n → parse_u8 (json_u n) = Some n;
  read_opt_f64 o : holds is_f64 o → parse_opt_f64 (json_option json_f64 o) = Some o;
  read_service_name s : is_dns_label s = true → parse_service_name (VString s) = Some s;
  no_service_name : parse_service_name VNull = None;
  read_source s : typed_source s → parse_source (ServiceSource_json s) = Some s;
  read_git_branch b : parse_git_branch (ServiceGitBranch_json b) = Some b;
  read_healthcheck h : typed_healthcheck h → parse_healthcheck (ServiceHealthcheck_json h) = Some h;
  read_restart_policy p :
    typed_restart p → parse_restart_policy (ServiceRestartPolicy_json p) = Some p;
  read_build_method m : parse_build_method (BuildMethod_json m) = Some m;
  read_storage s : typed_storage s → parse_storage (VolumeKind_json s) = Some s;
  read_variable_value v :
    typed_variable_value v → parse_variable_value (SavedVariableValue_json v) = Some v;
  read_document d : typed d → parse_document (SavedEnvironmentIntent_json d) = Some d;
  source_typed v s : parse_source v = Some s → typed_source s;
  healthcheck_typed v h : parse_healthcheck v = Some h → typed_healthcheck h;
  restart_typed v p : parse_restart_policy v = Some p → typed_restart p;
  u8_typed v n : parse_u8 v = Some n → is_u8 n;
  f64_typed v o : parse_opt_f64 v = Some o → holds is_f64 o;
  service_name_typed v s : parse_service_name v = Some s → is_dns_label s = true;
  storage_typed v s : parse_storage v = Some s → typed_storage s;
  variable_value_typed v x : parse_variable_value v = Some x → typed_variable_value x
}.

#[global] Instance document_serde `{JsonFloat, ConfigDecoders} : Serde SavedEnvironmentIntent :=
  {| from_value := parse_document; to_value := SavedEnvironmentIntent_json |}.

Section Reading.
Context `{JsonFloat, ConfigDecoders, !DecoderLaws} `{ConfigCrates}.

Lemma authored_holds_nothing_derived service : holds_derived (SavedServiceIntent_json service) = false.
Proof.
  unfold holds_derived. cbn [value_get SavedServiceIntent_json bget].
  unfold AuthoredServiceConfig_json. simpl. by destruct (sc_template _).
Qed.

(** A document written by the program is read back before it is checked. *)
Lemma parse_written intent :
  typed intent →
  parse_environment_intent (SavedEnvironmentIntent_json intent) = validate_environment intent.
Proof.
  intros Ht. unfold parse_environment_intent, from_value, document_serde.
  rewrite (read_document _ Ht).
  assert (existsb holds_derived (from_option value_items []
    (value_get (SavedEnvironmentIntent_json intent) "services")) = false) as ->; [|done].
  simpl. apply not_true_iff_false. intros (v & Hv & Hd)%existsb_exists.
  apply in_map_iff in Hv as (service & <- & _). by rewrite authored_holds_nothing_derived in Hd.
Qed.
End Reading.
