(* ===== verification/SyncRows.v ===== *)
(** * Rows: what a Sync compares

    [ployz-core/src/config/sync/row.rs], with the value helpers of
    [config/service_changes.rs]: a row's address and its text, what a side holds
    there, and the projection of an Environment document to its cells.  A setting
    at its default is [Absent]; a secret is seen by its fingerprint only. *)

From S2P Require Import Prelude BTree Strings Decimal Values Spec RuntimeOutcome Config.
From S2P Require Import ConfigValidation ConfigJson.
From Stdlib Require Import Ascii.

Open Scope string_scope.
Open Scope nat_scope.
Open Scope list_scope.

(** ** Addresses *)

Inductive Setting : Type :=
| SetSource | SetBranch | SetPrivateDns | SetManagedHostnames | SetRoutes | SetPreDeployCommand
| SetStartCommand | SetHealthcheck | SetRestartPolicy | SetMaxRetries | SetReplicas | SetCpuLimit
| SetMemLimit | SetBuildMethod | SetDockerfilePath | SetBuildCommand.

Inductive At : Type :=
| AtNode
| AtData
| AtName
| AtStorage
| AtSetting (setting : Setting)
| AtMount (volume : string)
| AtVariable (key : string).

Record RowId : Type := { row_lineage : string; row_at : At }.

#[global] Instance Setting_eq_dec : EqDecision Setting.
Proof. solve_decision. Defined.
#[global] Instance At_eq_dec : EqDecision At.
Proof. solve_decision. Defined.
#[global] Instance RowId_eq_dec : EqDecision RowId.
Proof. solve_decision. Defined.

(** [Setting::ALL]. *)
Definition Setting_ALL : list Setting :=
  [SetSource; SetBranch; SetPrivateDns; SetManagedHostnames; SetRoutes; SetPreDeployCommand;
   SetStartCommand; SetHealthcheck; SetRestartPolicy; SetMaxRetries; SetReplicas; SetCpuLimit;
   SetMemLimit; SetBuildMethod; SetDockerfilePath; SetBuildCommand].

Definition Setting_path (self : Setting) : string :=
  match self with
  | SetSource => "source"
  | SetBranch => "source.branch"
  | SetPrivateDns => "privateDns"
  | SetManagedHostnames => "managedHostnames"
  | SetRoutes => "routes"
  | SetPreDeployCommand => "preDeployCommand"
  | SetStartCommand => "startCommand"
  | SetHealthcheck => "healthcheck"
  | SetRestartPolicy => "restartPolicy"
  | SetMaxRetries => "maxRetries"
  | SetReplicas => "replicas"
  | SetCpuLimit => "cpuLimit"
  | SetMemLimit => "memLimit"
  | SetBuildMethod => "build.buildMethod"
  | SetDockerfilePath => "build.dockerfilePath"
  | SetBuildCommand => "build.command"
  end.

Definition Setting_of_path (path : string) : option Setting :=
  List.find (λ setting, String.eqb (Setting_path setting) path) Setting_ALL.

Definition Setting_carried (self : Setting) : bool :=
  match self with
  | SetSource | SetBranch | SetPrivateDns | SetManagedHostnames | SetRoutes => true
  | _ => false
  end.

Definition At_carried (self : At) : bool :=
  match self with
  | AtName | AtStorage => true
  | AtSetting setting => Setting_carried setting
  | AtNode | AtData | AtMount _ | AtVariable _ => false
  end.

Definition At_needed (self : At) : bool :=
  At_carried self && negb (bool_decide (self = AtSetting SetRoutes)).

Definition At_to_string (self : At) : string :=
  match self with
  | AtNode => "node"
  | AtData => "data"
  | AtName => "name"
  | AtStorage => "storage"
  | AtSetting setting => Setting_path setting
  | AtMount volume => "mounts." +:+ volume
  | AtVariable key => "variables." +:+ key
  end.

Definition RowId_node (lineage : string) : RowId := {| row_lineage := lineage; row_at := AtNode |}.
Definition RowId_of (lineage : string) (at_ : At) : RowId :=
  {| row_lineage := lineage; row_at := at_ |}.

Definition RowId_to_string (self : RowId) : string :=
  self.(row_lineage) +:+ ":" +:+ At_to_string self.(row_at).

Definition unknown_change : ConfigError := ConfigError_at "row" "Unknown change".

Definition At_from_str (at_ : string) : Result At ConfigError :=
  if String.eqb at_ "node" then Ok AtNode
  else if String.eqb at_ "data" then Ok AtData
  else if String.eqb at_ "name" then Ok AtName
  else if String.eqb at_ "storage" then Ok AtStorage
  else
    let setting :=
      let? setting := ok_or (Setting_of_path at_) unknown_change in Ok (AtSetting setting) in
    let variable :=
      match strip_prefix "variables." at_ with
      | Some key => if str_is_empty key then setting else Ok (AtVariable key)
      | None => setting
      end in
    match strip_prefix "mounts." at_ with
    | Some volume => if str_is_empty volume then variable else Ok (AtMount volume)
    | None => variable
    end.

Definition RowId_from_str (row : string) : Result RowId ConfigError :=
  let? '(lineage, at_) := ok_or (split_once ":" row) unknown_change in
  let? at_ := At_from_str at_ in
  if str_is_empty lineage then Err unknown_change
  else Ok {| row_lineage := lineage; row_at := at_ |}.

(** The derived order: lineage, then declaration order of the place, then its text. *)
Definition Setting_index (self : Setting) : N :=
  match self with
  | SetSource => 0 | SetBranch => 1 | SetPrivateDns => 2 | SetManagedHostnames => 3 | SetRoutes => 4
  | SetPreDeployCommand => 5 | SetStartCommand => 6 | SetHealthcheck => 7 | SetRestartPolicy => 8
  | SetMaxRetries => 9 | SetReplicas => 10 | SetCpuLimit => 11 | SetMemLimit => 12
  | SetBuildMethod => 13 | SetDockerfilePath => 14 | SetBuildCommand => 15
  end.

Definition At_key (self : At) : N * (N * string) :=
  match self with
  | AtNode => (0, (0, "")) | AtData => (1, (0, "")) | AtName => (2, (0, "")) | AtStorage => (3, (0, ""))
  | AtSetting setting => (4, (Setting_index setting, ""))
  | AtMount volume => (5, (0, volume))
  | AtVariable key => (6, (0, key))
  end%N.

Definition RowId_key (self : RowId) : string * (N * (N * string)) :=
  (self.(row_lineage), At_key self.(row_at)).

#[global] Instance At_ord : Ord At := λ a b, cmp (At_key a) (At_key b).
#[global] Instance RowId_ord : Ord RowId := λ a b, cmp (RowId_key a) (RowId_key b).

(** An order read through an injective key has the laws. *)
Lemma key_ord_laws {A} `{OrdLaws K} (key : A → K) :
  (∀ a b, key a = key b → a = b) → @OrdLaws A (λ a b, cmp (key a) (key b)).
Proof.
  intros Hinj. split.
  - intros a b. change (cmp (key a) (key b) = Eq ↔ a = b). rewrite cmp_Eq. naive_solver.
  - intros a b. apply (cmp_opp (key a) (key b)).
  - intros a b c. apply (cmp_trans (key a) (key b) (key c)).
Qed.

Lemma At_key_inj a b : At_key a = At_key b → a = b.
Proof.
  destruct a, b; simpl; try congruence;
    try (destruct setting; congruence); destruct setting, setting0; simpl; congruence.
Qed.

#[global] Instance At_ord_laws : OrdLaws At.
Proof. exact (key_ord_laws At_key At_key_inj). Qed.
#[global] Instance RowId_ord_laws : OrdLaws RowId.
Proof.
  apply (key_ord_laws RowId_key). intros [l a] [l' a'] [= -> Ha]. f_equal. by apply At_key_inj.
Qed.

(** ** Cells *)

Inductive Cell : Type :=
| Absent
| CellValue (value : Value)
| CellSecret (fingerprint : string)
| CellSecretWithoutValue.

#[global] Instance Cell_eq_dec : EqDecision Cell.
Proof. solve_decision. Defined.

Definition is_secret (self : Cell) : bool :=
  match self with CellSecret _ | CellSecretWithoutValue => true | _ => false end.

Record SealedSecret : Type := {
  secret_fingerprint : string;
  secret_value : EncryptedSecretValue
}.

Inductive SealedCell : Type :=
| PlainCell (cell : Cell)
| SealedCellSecret (secret : SealedSecret).

Definition to_redacted (self : SealedCell) : Cell :=
  match self with
  | PlainCell cell => cell
  | SealedCellSecret secret => CellSecret secret.(secret_fingerprint)
  end.

(** ** Values ([config/service_changes.rs]) *)

(** [value.get(key).unwrap_or(&Value::Null)] along a dotted path. *)
Definition value_at (value : Value) (path : string) : Value :=
  fold_left (λ value key, default VNull (value_get value key)) (split_byte "."%char path) value.

Definition configured (credentials : ServiceImageCredentials) : bool :=
  match credentials with CredentialsConfigured _ => true | CredentialsNone => false end.

Definition source_cell (source : ServiceSource) : Value :=
  let fields := bremove "branch" (ServiceSource_fields source) in
  VObject match source with
          | SourceImage _ _ credentials =>
              binsert "credentials" (VBool (configured credentials)) fields
          | SourceEmpty _ _ | SourceGit _ _ _ _ _ _ => fields
          end.

Definition keep_branch (current source : ServiceSource) : ServiceSource :=
  match current, source with
  | SourceGit _ _ _ _ _ own, SourceGit version repository repository_id access root_dir _ =>
      SourceGit version repository repository_id access root_dir own
  | _, _ => source
  end.

Definition default_value (path : string) : Value :=
  if String.eqb path "source" then
    VObject [("rootDir", VString "/"); ("type", VString "empty"); ("version", json_u 1)]
  else if String.eqb path "healthcheck" then VObject [("type", VString "none")]
  else if String.eqb path "restartPolicy" then VString "unless-stopped"
  else if String.eqb path "maxRetries" then json_u 10
  else if String.eqb path "replicas" then json_u 1
  else if String.eqb path "build.buildMethod" then VString "railpack"
  else VNull.

(** ** The projection *)

Inductive NodeRef : Type :=
| NodeService (service : SavedServiceIntent)
| NodeVolume (volume : SavedVolumeIntent).

Definition nodes (env : SavedEnvironmentIntent) : bmap string NodeRef :=
  bcollect (map (λ s, (s.(svc_lineage_id), NodeService s)) env.(env_services)
            ++ map (λ v, (v.(vol_resource_lineage_id), NodeVolume v)) env.(env_volumes)).

Definition service_of (env : SavedEnvironmentIntent) (lineage : string) : option SavedServiceIntent :=
  List.find (λ s, String.eqb s.(svc_lineage_id) lineage) env.(env_services).

Definition volume_of (env : SavedEnvironmentIntent) (lineage : string) : option SavedVolumeIntent :=
  List.find (λ v, String.eqb v.(vol_resource_lineage_id) lineage) env.(env_volumes).

Section Projection.
Context `{JsonFloat}.

Definition managed_cell (suffix : string) (hostname : ServiceManagedHostname) : Value :=
  VObject [("prefix", VString (default hostname.(managed_prefix)
                                 (strip_suffix suffix hostname.(managed_prefix))));
           ("targetPort", json_option json_u hostname.(managed_target_port))].

Definition setting_value (config : AuthoredServiceConfig) (suffix : string) (setting : Setting)
    : Value :=
  match setting with
  | SetSource => source_cell config.(sc_source)
  | SetRoutes => VArray (map VString (stable_sort key_le (map route_hostname config.(sc_routes))))
  | SetManagedHostnames => VArray (map (managed_cell suffix) config.(sc_managed_hostnames))
  | _ => value_at (AuthoredServiceConfig_json config) (Setting_path setting)
  end.

(** Nothing, the default, or an empty list: nothing is set. *)
Definition at_default (setting : Setting) (value : Value) : bool :=
  bool_decide (value = VNull) || bool_decide (value = default_value (Setting_path setting))
  || bool_decide (value = VArray []).

Definition variable_cell (variable : SavedVariableIntent) : Cell :=
  match variable.(var_value) with
  | VariableLiteral _ | VariableTemplate _ =>
      CellValue match SavedVariableValue_json variable.(var_value) with
                | VObject fields =>
                    VObject (binsert "fingerprint" (VString variable.(var_value_fingerprint)) fields)
                | value => value
                end
  | VariableSecret _ => CellSecret variable.(var_value_fingerprint)
  | VariableSecretWithoutValue => CellSecretWithoutValue
  end.

Definition setting_cells (config : AuthoredServiceConfig) (suffix : string) : list (At * Cell) :=
  omap (λ setting,
    let value := setting_value config suffix setting in
    if at_default setting value then None else Some (AtSetting setting, CellValue value))
    Setting_ALL.

Definition mount_cells (env : SavedEnvironmentIntent) (service : SavedServiceIntent)
    : list (At * Cell) :=
  omap (λ attachment,
    volume ← List.find (λ v, String.eqb v.(vol_resource_id) attachment.(volume_resource_id))
               env.(env_volumes);
    Some (AtMount volume.(vol_resource_lineage_id), CellValue (VString attachment.(mount_path))))
    service.(svc_volume_attachments).

Definition node_cells (env : SavedEnvironmentIntent) (node : NodeRef) (suffix : string)
    : bmap At Cell :=
  match node with
  | NodeVolume volume =>
      bcollect [(AtName, CellValue (VString volume.(vol_name)));
                (AtStorage, CellValue (VolumeKind_json volume.(vol_storage)))]
  | NodeService service =>
      bcollect (setting_cells service.(svc_config) suffix ++ mount_cells env service
                ++ map (λ variable, (AtVariable variable.(var_key), variable_cell variable))
                     service.(svc_variables))
  end.

Definition node_cell (node : NodeRef) (cells : bmap At Cell) : Cell :=
  let name := match node with
              | NodeService service => [("name", VString service.(svc_slug))]
              | NodeVolume _ => []
              end in
  CellValue (VObject (fold_left (λ cell '(at_, value),
    match value with
    | CellValue value => if At_needed at_ then binsert (At_to_string at_) value cell else cell
    | _ => cell
    end) cells name)).

Definition Cells : Type := bmap RowId Cell.

Definition Cells_of (intent : SavedEnvironmentIntent) (suffix : string) : Cells :=
  bcollect (concat (map (λ '(lineage, node),
    let cells := node_cells intent node suffix in
    (RowId_node lineage, node_cell node cells)
    :: map (λ '(at_, cell), ({| row_lineage := lineage; row_at := at_ |}, cell)) cells)
    (nodes intent))).

Definition Cells_at (self : Cells) (row : RowId) : Cell :=
  default Absent
    match row.(row_at) with
    | AtData => bget self (RowId_node row.(row_lineage))
    | _ => bget self row
    end.

Definition Cells_rows (self : Cells) : list RowId := bkeys self.

(** [take_while] and the start of a [range]. *)
Fixpoint take_while {A} (p : A → bool) (l : list A) : list A :=
  match l with
  | [] => []
  | x :: l => if p x then x :: take_while p l else []
  end.

Fixpoint skip_while {A} (p : A → bool) (l : list A) : list A :=
  match l with
  | [] => []
  | x :: l => if p x then skip_while p l else x :: l
  end.

Definition Cells_places (self : Cells) (lineage : string) : Cells :=
  List.filter (λ '(id, _), negb (bool_decide (id.(row_at) = AtNode)))
    (take_while (λ '(id, _), String.eqb id.(row_lineage) lineage)
       (skip_while (λ '(id, _), negb (key_le (RowId_node lineage) id)) self)).

(** The encrypted value of the variable [key] of a node. *)
Definition encrypted_at (env : SavedEnvironmentIntent) (lineage key : string)
    : option EncryptedSecretValue :=
  service ← service_of env lineage;
  variable ← List.find (λ v, String.eqb v.(var_key) key) service.(svc_variables);
  match variable.(var_value) with
  | VariableSecret encrypted_value => encrypted_value
  | VariableLiteral _ | VariableTemplate _ | VariableSecretWithoutValue => None
  end.

Definition sealed_cell (env : SavedEnvironmentIntent) (cells : Cells) (row : RowId) : SealedCell :=
  let cell := Cells_at cells row in
  match cell, row.(row_at) with
  | CellSecret fingerprint, AtVariable key =>
      match encrypted_at env row.(row_lineage) key with
      | Some value =>
          SealedCellSecret {| secret_fingerprint := fingerprint; secret_value := value |}
      | None => PlainCell cell
      end
  | _, _ => PlainCell cell
  end.

(** [name_of]: the node at a row, and where in it, for display. *)
Definition name_of (intent : SavedEnvironmentIntent) (row : RowId) : option (NodeRef * string) :=
  node ← bget (nodes intent) row.(row_lineage);
  at_ ← match row.(row_at) with
        | AtMount lineage => v ← volume_of intent lineage; Some ("mounts." +:+ v.(vol_name))
        | at_ => Some (At_to_string at_)
        end;
  Some (node, at_).
End Projection.

(** ** Row texts *)

(** A place with a text of its own: mounts and variables are named. *)
Definition at_named (at_ : At) : Prop :=
  match at_ with AtMount volume => volume ≠ "" | AtVariable key => key ≠ "" | _ => True end.

(** A row of a named lineage without the separator. *)
Definition row_named (row : RowId) : Prop :=
  row.(row_lineage) ≠ "" ∧ bytes_any (is_byte ":") row.(row_lineage) = false ∧ at_named row.(row_at).

Lemma is_empty_false s : s ≠ "" ↔ str_is_empty s = false.
Proof. by destruct s. Qed.

Lemma at_text at_ : at_named at_ → At_from_str (At_to_string at_) = Ok at_.
Proof.
  destruct at_ as [| | | |setting|volume|key]; try done; simpl.
  - by destruct setting.
  - by destruct volume.
  - by destruct key.
Qed.

Lemma at_text_back text at_ : At_from_str text = Ok at_ → At_to_string at_ = text ∧ at_named at_.
Proof.
  unfold At_from_str.
  repeat match goal with
    | |- context [String.eqb ?a ?b] => destruct (String.eqb_spec a b); [by intros [= <-]|]
    end.
  assert (∀ x, (let? setting := ok_or (Setting_of_path text) unknown_change in Ok (AtSetting setting)) = Ok x →
    At_to_string x = text ∧ at_named x) as Hsetting.
  { intros x (setting & Hs%ok_or_Ok & [= <-])%result_bind_Ok.
    apply find_Some_elem in Hs as [_ Hs%String.eqb_eq]. done. }
  destruct (strip_prefix "mounts." text) as [volume|] eqn:Hm; [destruct (str_is_empty volume) eqn:He|].
  2: { intros [= <-]. apply strip_prefix_Some in Hm as ->. split; [done|]. by apply is_empty_false. }
  all: destruct (strip_prefix "variables." text) as [key|] eqn:Hv; [destruct (str_is_empty key) eqn:Hk|];
    [by apply Hsetting| |by apply Hsetting]; intros [= <-]; apply strip_prefix_Some in Hv as ->;
    (split; [done|]); by apply is_empty_false.
Qed.

(** A row and its text are in bijection: every row of a named lineage and place is read
    back from its text, and every text that names a row is that row's text. *)
Theorem row_text_roundtrip row text :
  row_named row ∧ RowId_to_string row = text ↔ RowId_from_str text = Ok row.
Proof.
  split.
  - intros [(Hl & Hc & Hat) <-]. unfold RowId_from_str, RowId_to_string.
    rewrite (split_once_byte ":"%char "") by done. cbn [ok_or result_bind]. rewrite at_text by done.
    cbn [result_bind]. apply is_empty_false in Hl. rewrite Hl. by destruct row.
  - unfold RowId_from_str. intros ([lineage at_] & Hs%ok_or_Ok & H)%result_bind_Ok.
    apply result_bind_Ok in H as (x & Hx & H). destruct (str_is_empty lineage) eqn:He; [done|].
    injection H as <-. apply at_text_back in Hx as [Hx Hn].
    pose proof (split_once_byte_first _ _ _ _ Hs) as Hc. apply split_once_Some in Hs as ->.
    split; [split_and!; [by apply is_empty_false|done|done]|]. unfold RowId_to_string. simpl. by rewrite Hx.
Qed.
