(* ===== verification/SyncPut.v ===== *)
(** * The writer

    [ployz-core/src/config/sync/put.rs]: put one row's cell into a document, the
    inverse of the projection of [SyncRows].  A [&mut] document is an argument and a
    result; an error leaves it to be dropped, as its callers do.  A new variable's
    identity is drawn by the caller ([Uuid::new_v4]). *)

From S2P Require Import Prelude BTree Strings Decimal Values Spec RuntimeOutcome Config.
From S2P Require Import ConfigValidation ConfigJson SyncRows.

Open Scope string_scope.
Open Scope nat_scope.
Open Scope list_scope.

(** [uuid::Uuid::new_v4]: the ids one after another. *)
Class Uuids := new_v4 : nat → string.

(** ** Assignments to fields *)

Definition set_source (x : ServiceSource) (c : AuthoredServiceConfig) : AuthoredServiceConfig :=
  {| sc_version := c.(sc_version); sc_source := x;
     sc_pre_deploy_command := c.(sc_pre_deploy_command);
     sc_start_command := c.(sc_start_command); sc_healthcheck := c.(sc_healthcheck);
     sc_restart_policy := c.(sc_restart_policy); sc_max_retries := c.(sc_max_retries);
     sc_replicas := c.(sc_replicas); sc_cpu_limit := c.(sc_cpu_limit);
     sc_mem_limit := c.(sc_mem_limit); sc_private_dns := c.(sc_private_dns);
     sc_routes := c.(sc_routes); sc_managed_hostnames := c.(sc_managed_hostnames);
     sc_build := c.(sc_build); sc_template := c.(sc_template) |}.

Definition set_pre_deploy_command (x : option string) (c : AuthoredServiceConfig) : AuthoredServiceConfig :=
  {| sc_version := c.(sc_version); sc_source := c.(sc_source); sc_pre_deploy_command := x;
     sc_start_command := c.(sc_start_command); sc_healthcheck := c.(sc_healthcheck);
     sc_restart_policy := c.(sc_restart_policy); sc_max_retries := c.(sc_max_retries);
     sc_replicas := c.(sc_replicas); sc_cpu_limit := c.(sc_cpu_limit);
     sc_mem_limit := c.(sc_mem_limit); sc_private_dns := c.(sc_private_dns);
     sc_routes := c.(sc_routes); sc_managed_hostnames := c.(sc_managed_hostnames);
     sc_build := c.(sc_build); sc_template := c.(sc_template) |}.

Definition set_start_command (x : option string) (c : AuthoredServiceConfig) : AuthoredServiceConfig :=
  {| sc_version := c.(sc_version); sc_source := c.(sc_source);
     sc_pre_deploy_command := c.(sc_pre_deploy_command); sc_start_command := x;
     sc_healthcheck := c.(sc_healthcheck); sc_restart_policy := c.(sc_restart_policy);
     sc_max_retries := c.(sc_max_retries); sc_replicas := c.(sc_replicas);
     sc_cpu_limit := c.(sc_cpu_limit); sc_mem_limit := c.(sc_mem_limit);
     sc_private_dns := c.(sc_private_dns); sc_routes := c.(sc_routes);
     sc_managed_hostnames := c.(sc_managed_hostnames); sc_build := c.(sc_build);
     sc_template := c.(sc_template) |}.

Definition set_healthcheck (x : ServiceHealthcheck) (c : AuthoredServiceConfig) : AuthoredServiceConfig :=
  {| sc_version := c.(sc_version); sc_source := c.(sc_source);
     sc_pre_deploy_command := c.(sc_pre_deploy_command);
     sc_start_command := c.(sc_start_command); sc_healthcheck := x;
     sc_restart_policy := c.(sc_restart_policy); sc_max_retries := c.(sc_max_retries);
     sc_replicas := c.(sc_replicas); sc_cpu_limit := c.(sc_cpu_limit);
     sc_mem_limit := c.(sc_mem_limit); sc_private_dns := c.(sc_private_dns);
     sc_routes := c.(sc_routes); sc_managed_hostnames := c.(sc_managed_hostnames);
     sc_build := c.(sc_build); sc_template := c.(sc_template) |}.

Definition set_restart_policy (x : RestartPolicy) (c : AuthoredServiceConfig) : AuthoredServiceConfig :=
  {| sc_version := c.(sc_version); sc_source := c.(sc_source);
     sc_pre_deploy_command := c.(sc_pre_deploy_command);
     sc_start_command := c.(sc_start_command); sc_healthcheck := c.(sc_healthcheck);
     sc_restart_policy := x; sc_max_retries := c.(sc_max_retries);
     sc_replicas := c.(sc_replicas); sc_cpu_limit := c.(sc_cpu_limit);
     sc_mem_limit := c.(sc_mem_limit); sc_private_dns := c.(sc_private_dns);
     sc_routes := c.(sc_routes); sc_managed_hostnames := c.(sc_managed_hostnames);
     sc_build := c.(sc_build); sc_template := c.(sc_template) |}.

Definition set_max_retries (x : N) (c : AuthoredServiceConfig) : AuthoredServiceConfig :=
  {| sc_version := c.(sc_version); sc_source := c.(sc_source);
     sc_pre_deploy_command := c.(sc_pre_deploy_command);
     sc_start_command := c.(sc_start_command); sc_healthcheck := c.(sc_healthcheck);
     sc_restart_policy := c.(sc_restart_policy); sc_max_retries := x;
     sc_replicas := c.(sc_replicas); sc_cpu_limit := c.(sc_cpu_limit);
     sc_mem_limit := c.(sc_mem_limit); sc_private_dns := c.(sc_private_dns);
     sc_routes := c.(sc_routes); sc_managed_hostnames := c.(sc_managed_hostnames);
     sc_build := c.(sc_build); sc_template := c.(sc_template) |}.

Definition set_replicas (x : N) (c : AuthoredServiceConfig) : AuthoredServiceConfig :=
  {| sc_version := c.(sc_version); sc_source := c.(sc_source);
     sc_pre_deploy_command := c.(sc_pre_deploy_command);
     sc_start_command := c.(sc_start_command); sc_healthcheck := c.(sc_healthcheck);
     sc_restart_policy := c.(sc_restart_policy); sc_max_retries := c.(sc_max_retries);
     sc_replicas := x; sc_cpu_limit := c.(sc_cpu_limit); sc_mem_limit := c.(sc_mem_limit);
     sc_private_dns := c.(sc_private_dns); sc_routes := c.(sc_routes);
     sc_managed_hostnames := c.(sc_managed_hostnames); sc_build := c.(sc_build);
     sc_template := c.(sc_template) |}.

Definition set_cpu_limit (x : option N) (c : AuthoredServiceConfig) : AuthoredServiceConfig :=
  {| sc_version := c.(sc_version); sc_source := c.(sc_source);
     sc_pre_deploy_command := c.(sc_pre_deploy_command);
     sc_start_command := c.(sc_start_command); sc_healthcheck := c.(sc_healthcheck);
     sc_restart_policy := c.(sc_restart_policy); sc_max_retries := c.(sc_max_retries);
     sc_replicas := c.(sc_replicas); sc_cpu_limit := x; sc_mem_limit := c.(sc_mem_limit);
     sc_private_dns := c.(sc_private_dns); sc_routes := c.(sc_routes);
     sc_managed_hostnames := c.(sc_managed_hostnames); sc_build := c.(sc_build);
     sc_template := c.(sc_template) |}.

Definition set_mem_limit (x : option N) (c : AuthoredServiceConfig) : AuthoredServiceConfig :=
  {| sc_version := c.(sc_version); sc_source := c.(sc_source);
     sc_pre_deploy_command := c.(sc_pre_deploy_command);
     sc_start_command := c.(sc_start_command); sc_healthcheck := c.(sc_healthcheck);
     sc_restart_policy := c.(sc_restart_policy); sc_max_retries := c.(sc_max_retries);
     sc_replicas := c.(sc_replicas); sc_cpu_limit := c.(sc_cpu_limit); sc_mem_limit := x;
     sc_private_dns := c.(sc_private_dns); sc_routes := c.(sc_routes);
     sc_managed_hostnames := c.(sc_managed_hostnames); sc_build := c.(sc_build);
     sc_template := c.(sc_template) |}.

Definition set_private_dns (x : ServiceName) (c : AuthoredServiceConfig) : AuthoredServiceConfig :=
  {| sc_version := c.(sc_version); sc_source := c.(sc_source);
     sc_pre_deploy_command := c.(sc_pre_deploy_command);
     sc_start_command := c.(sc_start_command); sc_healthcheck := c.(sc_healthcheck);
     sc_restart_policy := c.(sc_restart_policy); sc_max_retries := c.(sc_max_retries);
     sc_replicas := c.(sc_replicas); sc_cpu_limit := c.(sc_cpu_limit);
     sc_mem_limit := c.(sc_mem_limit); sc_private_dns := x; sc_routes := c.(sc_routes);
     sc_managed_hostnames := c.(sc_managed_hostnames); sc_build := c.(sc_build);
     sc_template := c.(sc_template) |}.

Definition set_build (x : ServiceBuildConfig) (c : AuthoredServiceConfig) : AuthoredServiceConfig :=
  {| sc_version := c.(sc_version); sc_source := c.(sc_source);
     sc_pre_deploy_command := c.(sc_pre_deploy_command);
     sc_start_command := c.(sc_start_command); sc_healthcheck := c.(sc_healthcheck);
     sc_restart_policy := c.(sc_restart_policy); sc_max_retries := c.(sc_max_retries);
     sc_replicas := c.(sc_replicas); sc_cpu_limit := c.(sc_cpu_limit);
     sc_mem_limit := c.(sc_mem_limit); sc_private_dns := c.(sc_private_dns);
     sc_routes := c.(sc_routes); sc_managed_hostnames := c.(sc_managed_hostnames); sc_build := x;
     sc_template := c.(sc_template) |}.

Definition set_routes (x : list ServiceRoute) (c : AuthoredServiceConfig) : AuthoredServiceConfig :=
  {| sc_version := c.(sc_version); sc_source := c.(sc_source);
     sc_pre_deploy_command := c.(sc_pre_deploy_command);
     sc_start_command := c.(sc_start_command); sc_healthcheck := c.(sc_healthcheck);
     sc_restart_policy := c.(sc_restart_policy); sc_max_retries := c.(sc_max_retries);
     sc_replicas := c.(sc_replicas); sc_cpu_limit := c.(sc_cpu_limit);
     sc_mem_limit := c.(sc_mem_limit); sc_private_dns := c.(sc_private_dns); sc_routes := x;
     sc_managed_hostnames := c.(sc_managed_hostnames); sc_build := c.(sc_build);
     sc_template := c.(sc_template) |}.

Definition set_managed_hostnames (x : list ServiceManagedHostname) (c : AuthoredServiceConfig) : AuthoredServiceConfig :=
  {| sc_version := c.(sc_version); sc_source := c.(sc_source);
     sc_pre_deploy_command := c.(sc_pre_deploy_command);
     sc_start_command := c.(sc_start_command); sc_healthcheck := c.(sc_healthcheck);
     sc_restart_policy := c.(sc_restart_policy); sc_max_retries := c.(sc_max_retries);
     sc_replicas := c.(sc_replicas); sc_cpu_limit := c.(sc_cpu_limit);
     sc_mem_limit := c.(sc_mem_limit); sc_private_dns := c.(sc_private_dns);
     sc_routes := c.(sc_routes); sc_managed_hostnames := x; sc_build := c.(sc_build);
     sc_template := c.(sc_template) |}.

Definition set_build_method (x : BuildMethod) (b : ServiceBuildConfig) : ServiceBuildConfig :=
  {| build_method := x; dockerfile_path := b.(dockerfile_path); build_command := b.(build_command) |}.

Definition set_dockerfile_path (x : option string) (b : ServiceBuildConfig) : ServiceBuildConfig :=
  {| build_method := b.(build_method); dockerfile_path := x; build_command := b.(build_command) |}.

Definition set_build_command (x : option string) (b : ServiceBuildConfig) : ServiceBuildConfig :=
  {| build_method := b.(build_method); dockerfile_path := b.(dockerfile_path); build_command := x |}.

Definition with_variables (service : SavedServiceIntent) (variables : list SavedVariableIntent)
    : SavedServiceIntent :=
  {| svc_id := service.(svc_id); svc_lineage_id := service.(svc_lineage_id);
     svc_slug := service.(svc_slug); svc_config := service.(svc_config);
     svc_variables := variables; svc_volume_attachments := service.(svc_volume_attachments) |}.

Definition with_attachments (service : SavedServiceIntent) (attachments : list VolumeAttachment)
    : SavedServiceIntent :=
  {| svc_id := service.(svc_id); svc_lineage_id := service.(svc_lineage_id);
     svc_slug := service.(svc_slug); svc_config := service.(svc_config);
     svc_variables := service.(svc_variables); svc_volume_attachments := attachments |}.

Definition with_volumes (intent : SavedEnvironmentIntent) (volumes : list SavedVolumeIntent)
    : SavedEnvironmentIntent :=
  {| env_version := intent.(env_version); env_slug := intent.(env_slug);
     env_services := intent.(env_services); env_volumes := volumes |}.

Definition set_vol_name (name : string) (v : SavedVolumeIntent) : SavedVolumeIntent :=
  {| vol_resource_id := v.(vol_resource_id); vol_resource_lineage_id := v.(vol_resource_lineage_id);
     vol_name := name; vol_storage := v.(vol_storage); vol_shared_writes := v.(vol_shared_writes) |}.

Definition set_vol_storage (storage : VolumeKind) (v : SavedVolumeIntent) : SavedVolumeIntent :=
  {| vol_resource_id := v.(vol_resource_id); vol_resource_lineage_id := v.(vol_resource_lineage_id);
     vol_name := v.(vol_name); vol_storage := storage; vol_shared_writes := v.(vol_shared_writes) |}.

Definition set_var_value (value : SavedVariableValue) (v : SavedVariableIntent)
    : SavedVariableIntent :=
  {| var_id := v.(var_id); var_key := v.(var_key); var_description := v.(var_description);
     var_exported := v.(var_exported); var_value_fingerprint := v.(var_value_fingerprint);
     var_value := value |}.

Definition set_var_fingerprint (fingerprint : string) (v : SavedVariableIntent)
    : SavedVariableIntent :=
  {| var_id := v.(var_id); var_key := v.(var_key); var_description := v.(var_description);
     var_exported := v.(var_exported); var_value_fingerprint := fingerprint;
     var_value := v.(var_value) |}.

(** [if let Some(x) = iter_mut().find(p) { *x = f(x) }]. *)
Fixpoint update_first {A} (p : A → bool) (f : A → A) (l : list A) : list A :=
  match l with
  | [] => []
  | x :: l => if p x then f x :: l else x :: update_first p f l
  end.

Definition update_service (env : SavedEnvironmentIntent) (lineage : string)
    (f : SavedServiceIntent → SavedServiceIntent) : SavedEnvironmentIntent :=
  with_services env
    (update_first (λ s, String.eqb s.(svc_lineage_id) lineage) f env.(env_services)).

Definition update_volume (env : SavedEnvironmentIntent) (lineage : string)
    (f : SavedVolumeIntent → SavedVolumeIntent) : SavedEnvironmentIntent :=
  with_volumes env
    (update_first (λ v, String.eqb v.(vol_resource_lineage_id) lineage) f env.(env_volumes)).

Definition has_key (key : string) (variable : SavedVariableIntent) : bool :=
  String.eqb variable.(var_key) key.

Definition update_variable (key : string) (f : SavedVariableIntent → SavedVariableIntent)
    (service : SavedServiceIntent) : SavedServiceIntent :=
  with_variables service (update_first (has_key key) f service.(svc_variables)).

Section Put.
Context `{ConfigDecoders, JsonFloat}.

(** A plain variable's cell back as its value and fingerprint. *)
Definition plain (cell : Value) : option (SavedVariableValue * string) :=
  match cell with
  | VObject fields =>
      fingerprint ← bget fields "fingerprint";
      value ← parse_variable_value (VObject (bremove "fingerprint" fields));
      match value with
      | VariableLiteral _ | VariableTemplate _ =>
          match fingerprint with VString text => Some (value, text) | _ => None end
      | VariableSecret _ | VariableSecretWithoutValue => None
      end
  | _ => None
  end.

(** A source's cell, completed to a source of the Service [id]. *)
Definition source_fields (id : string) (fields : bmap string Value)
    : option (bmap string Value) :=
  let fields :=
    if bool_decide (bget fields "type" = Some (VString "git"))
    then bor_insert "branch" (ServiceGitBranch_json (BranchDisconnected None)) fields
    else fields in
  match bget fields "credentials" with
  | Some credentials =>
      configured ← parse_bool credentials;
      Some (binsert "credentials"
              (ServiceImageCredentials_json
                 (if configured : bool then CredentialsConfigured id else CredentialsNone)) fields)
  | None => Some fields
  end.

Definition put_config (id : string) (config : AuthoredServiceConfig) (setting : Setting)
    (value : Value) : option AuthoredServiceConfig :=
  match setting with
  | SetRoutes | SetManagedHostnames => None
  | SetSource =>
      match value with
      | VObject fields =>
          fields ← source_fields id fields;
          source ← parse_source (VObject fields);
          Some (set_source (keep_branch config.(sc_source) source) config)
      | _ => None
      end
  | SetBranch =>
      match config.(sc_source) with
      | SourceGit version repository repository_id access root_dir _ =>
          if bool_decide (value = VNull) then Some config
          else branch ← parse_git_branch value;
               Some (set_source (SourceGit version repository repository_id access root_dir branch)
                       config)
      | SourceEmpty _ _ | SourceImage _ _ _ => Some config
      end
  | SetPrivateDns => x ← parse_service_name value; Some (set_private_dns x config)
  | SetPreDeployCommand => x ← parse_opt_string value; Some (set_pre_deploy_command x config)
  | SetStartCommand => x ← parse_opt_string value; Some (set_start_command x config)
  | SetHealthcheck => x ← parse_healthcheck value; Some (set_healthcheck x config)
  | SetRestartPolicy => x ← parse_restart_policy value; Some (set_restart_policy x config)
  | SetMaxRetries => x ← parse_u8 value; Some (set_max_retries x config)
  | SetReplicas => x ← parse_u8 value; Some (set_replicas x config)
  | SetCpuLimit => x ← parse_opt_f64 value; Some (set_cpu_limit x config)
  | SetMemLimit => x ← parse_opt_f64 value; Some (set_mem_limit x config)
  | SetBuildMethod =>
      x ← parse_build_method value; Some (set_build (set_build_method x config.(sc_build)) config)
  | SetDockerfilePath =>
      x ← parse_opt_string value; Some (set_build (set_dockerfile_path x config.(sc_build)) config)
  | SetBuildCommand =>
      x ← parse_opt_string value; Some (set_build (set_build_command x config.(sc_build)) config)
  end.

Definition put_setting (service : SavedServiceIntent) (setting : Setting) (value : Value)
    : option SavedServiceIntent :=
  with_config service <$> put_config service.(svc_id) service.(svc_config) setting value.

Definition new_variable (uuid key fingerprint : string) (value : SavedVariableValue)
    : SavedVariableIntent :=
  {| var_id := uuid; var_key := key; var_description := None; var_exported := false;
     var_value_fingerprint := fingerprint; var_value := value |}.

(** A variable's value at its key, in place or as a new variable. *)
Definition put_variable (uuid key : string) (value : SavedVariableValue) (fingerprint : string)
    (service : SavedServiceIntent) : SavedServiceIntent :=
  match List.find (has_key key) service.(svc_variables) with
  | Some _ =>
      update_variable key (λ v, set_var_fingerprint fingerprint (set_var_value value v)) service
  | None =>
      with_variables service (service.(svc_variables) ++ [new_variable uuid key fingerprint value])
  end.

Definition without_mount (id : string) (service : SavedServiceIntent) : SavedServiceIntent :=
  with_attachments service
    (List.filter (λ a, negb (String.eqb a.(volume_resource_id) id)) service.(svc_volume_attachments)).

Definition with_mount (id path : string) (service : SavedServiceIntent) : SavedServiceIntent :=
  with_attachments service
    ((without_mount id service).(svc_volume_attachments)
     ++ [{| volume_resource_id := id; mount_path := path |}]).

(** The variable a cell stands for: its value and fingerprint, none when absent. *)
Definition variable_put (row : RowId) (cell : Cell)
    : Result (option (SavedVariableValue * string)) ConfigError :=
  match cell with
  | Absent => Ok None
  | CellValue value =>
      let? put := ok_or (plain value)
                    (ConfigError_at (RowId_to_string row) "Not a variable's value") in
      Ok (Some put)
  | CellSecret fingerprint => Ok (Some (VariableSecret None, fingerprint))
  | CellSecretWithoutValue => Ok (Some (VariableSecretWithoutValue, ""))
  end.

Definition without_node (env : SavedEnvironmentIntent) (lineage : string) : SavedEnvironmentIntent :=
  with_volumes
    (with_services env
       (List.filter (λ s, negb (String.eqb s.(svc_lineage_id) lineage)) env.(env_services)))
    (List.filter (λ v, negb (String.eqb v.(vol_resource_lineage_id) lineage)) env.(env_volumes)).

Definition put_into (uuid : string) (env : SavedEnvironmentIntent) (row : RowId) (cell : Cell)
    : Result SavedEnvironmentIntent ConfigError :=
  let invalid := ConfigError_at (RowId_to_string row) in
  let lineage := row.(row_lineage) in
  let missing := match cell with
                 | Absent => Ok env
                 | _ => Err (invalid "The node isn't in this configuration")
                 end in
  match row.(row_at) with
  | AtNode =>
      match cell with
      | Absent => Ok (without_node env lineage)
      | _ => if bcontains (nodes env) lineage then Ok env
             else Err (invalid "A new node arrives whole, through a Sync")
      end
  | AtData => Err (invalid "A Volume's data never moves")
  | AtName | AtStorage =>
      match volume_of env lineage with
      | None => missing
      | Some _ =>
          match cell with
          | CellValue value =>
              let wrong := invalid "Not a value this holds" in
              if bool_decide (row.(row_at) = AtName) then
                let? name := ok_or (parse_string value) wrong in
                Ok (update_volume env lineage (set_vol_name name))
              else
                let? storage := ok_or (parse_storage value) wrong in
                Ok (update_volume env lineage (set_vol_storage storage))
          | _ => Err (invalid "A Volume always has a name and storage")
          end
      end
  | AtMount volume_lineage =>
      let mounted := vol_resource_id <$> volume_of env volume_lineage in
      match service_of env lineage with
      | None => missing
      | Some _ =>
          match cell, mounted with
          | Absent, Some id => Ok (update_service env lineage (without_mount id))
          | Absent, None => Ok env
          | CellValue (VString path), Some id => Ok (update_service env lineage (with_mount id path))
          | CellValue _, None =>
              Err (ConfigError_at "picks" "Mounted Volume is not in the receiving configuration")
          | _, _ => Err (invalid "Not a mount path")
          end
      end
  | AtVariable key =>
      match service_of env lineage with
      | None => missing
      | Some _ =>
          let? put := variable_put row cell in
          Ok (update_service env lineage (λ service,
                match put with
                | None => with_variables service
                            (List.filter (λ v, negb (has_key key v)) service.(svc_variables))
                | Some (value, fingerprint) => put_variable uuid key value fingerprint service
                end))
      end
  | AtSetting setting =>
      match service_of env lineage with
      | None => missing
      | Some service =>
          let? value := match cell with
                        | Absent => Ok (default_value (Setting_path setting))
                        | CellValue value => Ok value
                        | CellSecret _ | CellSecretWithoutValue =>
                            Err (invalid "A setting is never secret")
                        end in
          let? service := ok_or (put_setting service setting value)
                            (invalid "Not a value this setting takes") in
          Ok (update_service env lineage (λ _, service))
      end
  end.

(** [put_into], a secret with its value. *)
Definition put_sealed (uuid : string) (env : SavedEnvironmentIntent) (row : RowId)
    (cell : SealedCell) : Result SavedEnvironmentIntent ConfigError :=
  let? env := put_into uuid env row (to_redacted cell) in
  Ok match cell, row.(row_at) with
     | SealedCellSecret secret, AtVariable key =>
         update_service env row.(row_lineage)
           (update_variable key (set_var_value (VariableSecret (Some secret.(secret_value)))))
     | _, _ => env
     end.

Definition put `{Uuids} (intent : SavedEnvironmentIntent) (row : RowId) (cell : Cell)
    : Result SavedEnvironmentIntent ConfigError :=
  put_into (new_v4 0) intent row cell.

Definition put_back `{Uuids} (intent : SavedEnvironmentIntent) (row : RowId) (cell : Cell)
    : Result SavedEnvironmentIntent ConfigError :=
  let gone lineage := negb (bcontains (nodes intent) lineage) in
  if gone row.(row_lineage) || match row.(row_at) with AtMount volume => gone volume | _ => false end
  then Ok intent
  else put intent row cell.
End Put.
