(* ===== verification/SyncPlan.v ===== *)
(** * The Sync plan

    [ployz-core/src/config/sync/plan.rs]: compare a sender and a receiver over the
    base they share, judge each row that differs under a policy, land the picked
    rows in the receiver and advance the base by them, and put a landing back.

    The id of a new node or variable is drawn from [Uuids]: the n-th row of a landing
    draws its own. *)

From S2P Require Import Prelude BTree Strings Decimal Values Spec RuntimeOutcome Config.
From S2P Require Import ConfigValidation ConfigJson SyncRows SyncPut.

Open Scope string_scope.
Open Scope nat_scope.
Open Scope list_scope.

(** ** Data *)

Record Hostnames : Type := { hosts_from : string; hosts_into : string }.

Record Sides : Type := {
  side_base : option SavedEnvironmentIntent;
  side_from : SavedEnvironmentIntent;
  side_into : SavedEnvironmentIntent;
  side_hostnames : Hostnames
}.

Inductive Way : Type := WaySync | WayFollow | WayCopy.

Record Policy : Type := {
  pol_way : Way;
  from_marks : bset RowId;
  into_marks : bset RowId;
  pol_live : bset string;
  pol_own : option (bset RowId)
}.

Inductive Why : Type :=
| WhyLive | WhyLeftOut | WhySizing | WhyCustomDomain | WhyGeneratedAddress | WhyGitBranch | WhyData
| WhyNeverSynced.

Inductive Arrives : Type := AsIs | NeedsValue.

Inductive Verdict : Type :=
| Moves (conflict ticked : bool) (arrives : Arrives)
| Differs (why : Why).

Record PlannedRow : Type := {
  pr_id : RowId;
  pr_base : Cell;
  pr_from : Cell;
  pr_into : Cell;
  pr_requires : option RowId;
  pr_verdict : Verdict
}.

Record Plan : Type := {
  plan_rows : list PlannedRow;
  plan_base : option SavedEnvironmentIntent;
  plan_from : SavedEnvironmentIntent;
  plan_into : SavedEnvironmentIntent;
  plan_hostnames : Hostnames;
  plan_live : bset string
}.

Record Landed : Type := {
  landed_row : RowId;
  landed_prior : Cell;
  landed_was : SealedCell;
  landed_value : Cell
}.

Record Applied : Type := {
  applied_next : SavedEnvironmentIntent;
  applied_base : SavedEnvironmentIntent;
  applied_landed : list Landed;
  applied_waiting : list RowId
}.

#[global] Instance Way_eq_dec : EqDecision Way.
Proof. solve_decision. Defined.

(** ** Judging a row *)

Definition Policy_new (way : Way) : Policy :=
  {| pol_way := way; from_marks := []; into_marks := []; pol_live := []; pol_own := None |}.

Definition marked (self : Policy) (row : RowId) : bool :=
  match self.(pol_way) with
  | WaySync => bool_decide (row ∈ self.(from_marks)) || bool_decide (row ∈ self.(into_marks))
  | WayFollow => bool_decide (row ∈ self.(into_marks))
  | WayCopy => false
  end.

Definition owned_setting (at_ : At) : option Why :=
  match at_ with
  | AtSetting setting =>
      match setting with
      | SetReplicas | SetCpuLimit | SetMemLimit => Some WhySizing
      | SetRoutes => Some WhyCustomDomain
      | SetManagedHostnames => Some WhyGeneratedAddress
      | SetBranch => Some WhyGitBranch
      | _ => None
      end
  | _ => None
  end.

(** How a change travels: [None] when there is no row, else whether it conflicts and how it
    arrives. *)
Definition travels (way : Way) (from into : Cell) (conflict : bool) : option (bool * Arrives) :=
  let secret := is_secret from || is_secret into in
  let held := secret && negb (bool_decide (into = Absent)) in
  match way with
  | WaySync =>
      if bool_decide (from = Absent) || held then None
      else Some (conflict, if secret then NeedsValue else AsIs)
  | WayFollow =>
      if held && bool_decide (into = CellSecretWithoutValue) then Some (false, AsIs)
      else if held && conflict then None
      else Some (conflict, AsIs)
  | WayCopy => Some (conflict, AsIs)
  end.

Definition moved (self : Policy) (row : RowId) (base from into : Cell) : option Verdict :=
  if bool_decide (from = into) || bool_decide (from = base) then None
  else
    '(conflict, arrives) ← travels self.(pol_way) from into (negb (bool_decide (into = base)));
    Some (if marked self row then Differs WhyNeverSynced
          else Moves conflict
                 match self.(pol_own) with
                 | None => true
                 | Some own => bool_decide (row ∈ own)
                 end arrives).

Definition verdict (self : Policy) (row : RowId) (base from into : Cell) : option Verdict :=
  match owned_setting row.(row_at) with
  | Some why => if bool_decide (from = into) then None else Some (Differs why)
  | None => moved self row base from into
  end.

(** Whether a document reads a lineage it does not own. *)
Definition referenced_lineages (value : SavedVariableValue) : list string :=
  match value with
  | VariableTemplate parts =>
      omap (λ part, match part with
                    | PartRef (OwnerService lineage_id) _ => Some lineage_id
                    | PartRef OwnerSelf _ | PartText _ => None
                    end) parts
  | VariableLiteral _ | VariableSecret _ | VariableSecretWithoutValue => []
  end.

Definition uses (env : SavedEnvironmentIntent) (lineage : string) : bool :=
  existsb (λ v, bool_decide (lineage ∈ referenced_lineages v.(var_value)))
    (concat (map svc_variables env.(env_services))).

(** ** Comparing *)

Section Planning.
Context `{JsonFloat}.

Definition cells_of_base (base : option SavedEnvironmentIntent) (suffix : string) : Cells :=
  match base with Some base => Cells_of base suffix | None => [] end.

Definition planned (id : RowId) (base from into : Cell) (requires : option RowId)
    (verdict : Verdict) : PlannedRow :=
  {| pr_id := id; pr_base := base; pr_from := from; pr_into := into; pr_requires := requires;
     pr_verdict := verdict |}.

Section Node.
Context (policy : Policy) (base_cells from_cells into_cells : Cells).

(** The row [id] under a verdict, with what the three sides hold there. *)
Definition row_at_sides (id : RowId) (requires : option RowId) (verdict : Verdict) : PlannedRow :=
  planned id (Cells_at base_cells id) (Cells_at from_cells id) (Cells_at into_cells id) requires
    verdict.

Definition node_differs (lineage : string) (why : Why) : list PlannedRow :=
  [row_at_sides (RowId_node lineage) None (Differs why)].

(** A node both sides have. *)
Definition shared_node (lineage : string) (both_volumes : bool) : list PlannedRow :=
  omap (λ id,
    v ← verdict policy id (Cells_at base_cells id) (Cells_at from_cells id) (Cells_at into_cells id);
    Some (row_at_sides id None v))
    (bset_of (bkeys (Cells_places from_cells lineage) ++ bkeys (Cells_places into_cells lineage)))
  ++ (if both_volumes then
        let node := RowId_node lineage in
        [planned (RowId_of lineage AtData) (Cells_at base_cells node) (Cells_at from_cells node)
           (Cells_at into_cells node) None (Differs WhyData)]
      else []).

(** A node only the sender has. *)
Definition new_node (lineage : string) : list PlannedRow :=
  let id := RowId_node lineage in
  match verdict policy id Absent (Cells_at from_cells id) Absent with
  | None => []
  | Some v =>
      let v := if existsb (λ '(child, _), At_needed child.(row_at) && marked policy child)
                    (Cells_places from_cells lineage)
               then Differs WhyNeverSynced else v in
      let judge := match policy.(pol_way) with
                   | WayCopy => moved
                   | WaySync | WayFollow => verdict
                   end in
      row_at_sides id None v
      :: omap (λ '(child, cell),
           v ← judge policy child Absent cell Absent;
           Some (planned child Absent cell Absent (Some id) v))
           (List.filter (λ '(child, _), negb (At_carried child.(row_at)))
              (Cells_places from_cells lineage))
  end.
End Node.

Definition is_volume (node : NodeRef) : bool :=
  match node with NodeVolume _ => true | NodeService _ => false end.

Definition plan_lineage (policy : Policy) (base_nodes from_nodes into_nodes : bmap string NodeRef)
    (from : SavedEnvironmentIntent) (base_cells from_cells into_cells : Cells) (lineage : string)
    : list PlannedRow :=
  let in_base := bcontains base_nodes lineage in
  let live := bool_decide (lineage ∈ policy.(pol_live)) in
  match bget from_nodes lineage, bget into_nodes lineage with
  | Some from_node, Some into_node =>
      shared_node policy base_cells from_cells into_cells lineage
        (is_volume from_node && is_volume into_node)
  | Some _, None =>
      if negb live && negb in_base then new_node policy base_cells from_cells into_cells lineage
      else node_differs base_cells from_cells into_cells lineage
             (if live then WhyLive else WhyLeftOut)
  | None, Some _ =>
      if uses from lineage || in_base then
        node_differs base_cells from_cells into_cells lineage
          (if uses from lineage then WhyLive else WhyLeftOut)
      else []
  | None, None => []
  end.

Definition plan (sides : Sides) (policy : Policy) : Plan :=
  let '{| side_base := base; side_from := from; side_into := into; side_hostnames := hostnames |} :=
    sides in
  let base_nodes := from_option nodes [] base in
  let from_nodes := nodes from in
  let into_nodes := nodes into in
  let base_cells := cells_of_base base hostnames.(hosts_into) in
  let from_cells := Cells_of from hostnames.(hosts_from) in
  let into_cells := Cells_of into hostnames.(hosts_into) in
  let rows := concat (map (plan_lineage policy base_nodes from_nodes into_nodes from
                             base_cells from_cells into_cells)
                        (bset_of (bkeys from_nodes ++ bkeys into_nodes))) in
  {| plan_rows := stable_sort (λ a b, key_le a.(pr_id) b.(pr_id)) rows;
     plan_base := base; plan_from := from; plan_into := into; plan_hostnames := hostnames;
     plan_live := policy.(pol_live) |}.
End Planning.

(** ** Landing *)

Definition landing_order (env : SavedEnvironmentIntent) (row : RowId) : N :=
  match row.(row_at) with
  | AtNode => match volume_of env row.(row_lineage) with Some _ => 0%N | None => 1%N end
  | _ => 2%N
  end.

Definition add_service (service : SavedServiceIntent) (env : SavedEnvironmentIntent)
    : SavedEnvironmentIntent := with_services env (env.(env_services) ++ [service]).

Definition add_volume (volume : SavedVolumeIntent) (env : SavedEnvironmentIntent)
    : SavedEnvironmentIntent := with_volumes env (env.(env_volumes) ++ [volume]).

Definition set_resource_id (id : string) (v : SavedVolumeIntent) : SavedVolumeIntent :=
  {| vol_resource_id := id; vol_resource_lineage_id := v.(vol_resource_lineage_id);
     vol_name := v.(vol_name); vol_storage := v.(vol_storage);
     vol_shared_writes := v.(vol_shared_writes) |}.

(** The attachments of a Service of [into] on Volumes the base has. *)
Definition adopted_attachments (base into : SavedEnvironmentIntent) (service : SavedServiceIntent)
    : list VolumeAttachment :=
  omap (λ attachment,
    held ← List.find (λ v, String.eqb v.(vol_resource_id) attachment.(volume_resource_id))
             into.(env_volumes);
    volume ← volume_of base held.(vol_resource_lineage_id);
    Some {| volume_resource_id := volume.(vol_resource_id);
            mount_path := attachment.(mount_path) |})
    service.(svc_volume_attachments).

Definition adopt_node (into base : SavedEnvironmentIntent) (lineage : string)
    : SavedEnvironmentIntent :=
  if bcontains (nodes base) lineage then base
  else
    match volume_of into lineage with
    | Some volume => add_volume volume base
    | None =>
        match service_of into lineage with
        | Some service =>
            add_service (with_attachments service (adopted_attachments base into service)) base
        | None => base
        end
    end.

Definition adopt (base into : SavedEnvironmentIntent) (row : RowId) : SavedEnvironmentIntent :=
  fold_left (adopt_node into)
    (match row.(row_at) with AtMount volume => [volume] | _ => [] end ++ [row.(row_lineage)]) base.

Definition clash : ConfigError :=
  ConfigError_at "picks" "Name or private address is already used".

Definition rehost (hostnames : Hostnames) (hostname : ServiceManagedHostname)
    : ServiceManagedHostname :=
  let prefix := default hostname.(managed_prefix)
                  (strip_suffix hostnames.(hosts_from) hostname.(managed_prefix)) in
  {| managed_prefix := prefix +:+ hostnames.(hosts_into);
     managed_target_port := hostname.(managed_target_port) |}.

Definition own_credential (id : string) (source : ServiceSource) : ServiceSource :=
  match source with
  | SourceImage version image (CredentialsConfigured _) =>
      SourceImage version image (CredentialsConfigured id)
  | _ => source
  end.

Section Landing.
Context `{ConfigDecoders, JsonFloat, Uuids, ConfigCrates}.

(** [put_setting(...).expect("a setting takes its default")]. *)
Definition reset_setting (service : SavedServiceIntent) (setting : Setting)
    : Result SavedServiceIntent (Fault ConfigError) :=
  ok_or (put_setting service setting (default_value (Setting_path setting))) Panics.

Definition introduced_service (hostnames : Hostnames) (uuid : string) (source : SavedServiceIntent)
    : Result SavedServiceIntent (Fault ConfigError) :=
  let? copy := try_fold reset_setting
                 (List.filter (λ s, negb (Setting_carried s)) Setting_ALL)
                 {| svc_id := uuid; svc_lineage_id := source.(svc_lineage_id);
                    svc_slug := source.(svc_slug); svc_config := source.(svc_config);
                    svc_variables := []; svc_volume_attachments := [] |} in
  let config := set_routes [] copy.(svc_config) in
  let config := set_managed_hostnames (map (rehost hostnames) config.(sc_managed_hostnames)) config in
  Ok (with_config copy (set_source (own_credential uuid config.(sc_source)) config)).

Definition introduce (self : Plan) (uuid : string) (next : SavedEnvironmentIntent)
    (base : option SavedEnvironmentIntent) (lineage : string)
    : Result (SavedEnvironmentIntent * option SavedEnvironmentIntent) (Fault ConfigError) :=
  match volume_of self.(plan_from) lineage with
  | Some source =>
      if existsb (λ v, String.eqb v.(vol_name) source.(vol_name)) next.(env_volumes)
      then Err (Fails clash)
      else
        let copy := set_resource_id uuid source in
        Ok (add_volume copy next, add_volume copy <$> base)
  | None =>
      let? source := ok_or (service_of self.(plan_from) lineage) Panics in
      if existsb (λ s, String.eqb s.(svc_slug) source.(svc_slug)
                       || String.eqb s.(svc_config).(sc_private_dns)
                            source.(svc_config).(sc_private_dns)) next.(env_services)
      then Err (Fails clash)
      else
        let? copy := introduced_service self.(plan_hostnames) uuid source in
        Ok (add_service copy next, add_service copy <$> base)
  end.

Definition describe (self : Plan) (next : SavedEnvironmentIntent) (lineage key : string)
    : SavedEnvironmentIntent :=
  match (source ← service_of self.(plan_from) lineage;
         List.find (has_key key) source.(svc_variables)) with
  | Some source =>
      update_service next lineage
        (update_variable key (λ target,
           {| var_id := target.(var_id); var_key := target.(var_key);
              var_description := source.(var_description); var_exported := source.(var_exported);
              var_value_fingerprint := target.(var_value_fingerprint);
              var_value := target.(var_value) |}))
  | None => next
  end.

Definition refuse_picks (message : string) : Fault ConfigError := Fails (ConfigError_at "picks" message).

(** The row of a pick and how it arrives. *)
Definition pick_row (self : Plan) (picks : bset RowId) (pick : RowId)
    : Result (PlannedRow * Arrives) (Fault ConfigError) :=
  let? row := ok_or (List.find (λ row, bool_decide (row.(pr_id) = pick)) self.(plan_rows))
                (refuse_picks "Unknown change") in
  match row.(pr_verdict) with
  | Differs _ => Err (refuse_picks "Change is meant to differ")
  | Moves _ _ arrives =>
      match row.(pr_requires) with
      | Some node =>
          if bool_decide (node ∈ picks) then Ok (row, arrives)
          else Err (refuse_picks "Pick the new node this change belongs to")
      | None => Ok (row, arrives)
      end
  end.

(** [value[key] = field], which panics but on an object or null. *)
Definition set_field (key : string) (field value : Value) : Result Value (Fault ConfigError) :=
  match value with
  | VObject fields => Ok (VObject (binsert key field fields))
  | VNull => Ok (VObject [(key, field)])
  | _ => Err Panics
  end.

(** What the receiver held, a source with its git branch. *)
Definition held_before (self : Plan) (into_cells : Cells) (id : RowId)
    : Result SealedCell (Fault ConfigError) :=
  let was := sealed_cell self.(plan_into) into_cells id in
  match id.(row_at), was with
  | AtSetting SetSource, PlainCell (CellValue source) =>
      match Cells_at into_cells (RowId_of id.(row_lineage) (AtSetting SetBranch)) with
      | CellValue branch =>
          let? source := set_field "branch" branch source in Ok (PlainCell (CellValue source))
      | _ => Ok was
      end
  | _, _ => Ok was
  end.

(** What lands: the sender's cell, or the secret it needs, and whether it waits for one. *)
Definition arrival (self : Plan) (from_cells : Cells) (values : bmap RowId SealedSecret)
    (id : RowId) (arrives : Arrives) : SealedCell * bool :=
  match arrives with
  | AsIs => (sealed_cell self.(plan_from) from_cells id, false)
  | NeedsValue =>
      match bget values id with
      | Some secret => (SealedCellSecret secret, false)
      | None => (PlainCell CellSecretWithoutValue, true)
      end
  end.

Record Landing : Type := {
  land_next : SavedEnvironmentIntent;
  land_base : option SavedEnvironmentIntent;
  land_waiting : list RowId;
  land_landed : list Landed;
  land_drawn : nat
}.

Definition land_place (self : Plan) (row : PlannedRow) (value was : SealedCell) (drawn : nat)
    (next : SavedEnvironmentIntent) (base : option SavedEnvironmentIntent)
    : Result (SavedEnvironmentIntent * option SavedEnvironmentIntent) (Fault ConfigError) :=
  let id := row.(pr_id) in
  let? next := map_err Fails (put_sealed (new_v4 drawn) next id value) in
  let next := match id.(row_at), was with
              | AtVariable key, PlainCell Absent => describe self next id.(row_lineage) key
              | _, _ => next
              end in
  match base with
  | Some base =>
      let base := adopt base self.(plan_into) id in
      let? base := map_err Fails (put_into (new_v4 (S drawn)) base id row.(pr_from)) in
      Ok (next, Some base)
  | None => Ok (next, None)
  end.

Definition land_row (self : Plan) (from_cells into_cells : Cells) (values : bmap RowId SealedSecret)
    (l : Landing) (pick : PlannedRow * Arrives) : Result Landing (Fault ConfigError) :=
  let '(row, arrives) := pick in
  let id := row.(pr_id) in
  let '(value, waits) := arrival self from_cells values id arrives in
  let? was := held_before self into_cells id in
  let? '(next, base) :=
    if bool_decide (id.(row_at) = AtNode)
    then introduce self (new_v4 l.(land_drawn)) l.(land_next) l.(land_base) id.(row_lineage)
    else land_place self row value was l.(land_drawn) l.(land_next) l.(land_base) in
  Ok {| land_next := next; land_base := base;
        land_waiting := l.(land_waiting) ++ (if waits then [id] else []);
        land_landed := l.(land_landed)
          ++ [{| landed_row := id; landed_prior := row.(pr_base); landed_was := was;
                 landed_value := to_redacted value |}];
        land_drawn := S (S l.(land_drawn)) |}.

(** With no base, the base is the sender without what the receiver uses live. *)
Definition first_base (self : Plan) : SavedEnvironmentIntent :=
  with_services self.(plan_from)
    (List.filter (λ s, negb (bool_decide (s.(svc_lineage_id) ∈ self.(plan_live))))
       self.(plan_from).(env_services)).

Definition landing_le (self : Plan) (a b : PlannedRow * Arrives) : bool :=
  (landing_order self.(plan_from) a.1.(pr_id) <=? landing_order self.(plan_from) b.1.(pr_id))%N.

Definition apply_picks (self : Plan) (picks : bset RowId) (values : bmap RowId SealedSecret)
    : Result Applied (Fault ConfigError) :=
  let? landing := collect_result (pick_row self picks) picks in
  let landing := stable_sort (landing_le self) landing in
  let into_cells := Cells_of self.(plan_into) self.(plan_hostnames).(hosts_into) in
  let from_cells := Cells_of self.(plan_from) self.(plan_hostnames).(hosts_from) in
  let? l := try_fold (land_row self from_cells into_cells values) landing
              {| land_next := self.(plan_into); land_base := self.(plan_base); land_waiting := [];
                 land_landed := []; land_drawn := 0 |} in
  let? next := map_err Fails (parse_environment_intent (SavedEnvironmentIntent_json l.(land_next))) in
  let base := default (first_base self) l.(land_base) in
  Ok {| applied_next := next; applied_base := redact_environment_intent base;
        applied_landed := l.(land_landed); applied_waiting := l.(land_waiting) |}.

Definition landable_step (self : Plan) (landable : bset RowId) (pick : RowId) : bset RowId :=
  let with_pick := bset_insert pick landable in
  if is_ok (apply_picks self with_pick []) then with_pick else bset_remove pick with_pick.

Definition landable (self : Plan) (picks : bset RowId) : bset RowId :=
  if is_ok (apply_picks self picks []) then picks
  else
    fold_left (landable_step self)
      (stable_sort (λ a b, (landing_order self.(plan_from) a <=? landing_order self.(plan_from) b)%N)
         picks) [].

(** ** Putting a landing back *)

Inductive Unapplied : Type :=
| Changed (row : RowId)
| Invalid (error : ConfigError).

(** A place of a new node that did not land with it. *)
Definition stray_place (cells : Cells) (landed : list Landed) (lineage : string) : option RowId :=
  fst <$> List.find (λ '(child, _),
    negb (At_needed child.(row_at))
    && negb (existsb (λ l, bool_decide (l.(landed_row) = child)) landed))
    (Cells_places cells lineage).

Definition unchanged (cells : Cells) (landed : list Landed) (one : Landed) : Result () Unapplied :=
  let row := one.(landed_row) in
  if negb (bool_decide (Cells_at cells row = one.(landed_value))) then Err (Changed row)
  else if bool_decide (row.(row_at) = AtNode) then
    match stray_place cells landed row.(row_lineage) with
    | Some child => Err (Changed child)
    | None => Ok ()
    end
  else Ok ().

(** [sort_by_key(|one| Reverse(landing_order(...)))]. *)
Definition unlanding_le (intent : SavedEnvironmentIntent) (a b : Landed) : bool :=
  (landing_order intent b.(landed_row) <=? landing_order intent a.(landed_row))%N.

Definition unland (env : SavedEnvironmentIntent * nat) (one : Landed)
    : Result (SavedEnvironmentIntent * nat) Unapplied :=
  let? next := map_err Invalid (put_sealed (new_v4 env.2) env.1 one.(landed_row) one.(landed_was)) in
  Ok (next, S env.2).

Definition unapply (intent : SavedEnvironmentIntent) (suffix : string) (landed : list Landed)
    : Result SavedEnvironmentIntent Unapplied :=
  let cells := Cells_of intent suffix in
  let? _ := try_fold (λ _, unchanged cells landed) landed () in
  let? env := try_fold unland (stable_sort (unlanding_le intent) landed) (intent, 0) in
  Ok env.1.
End Landing.

Definition marks_on (row : RowId) (marks : bset RowId) : list RowId :=
  List.filter (λ mark, bool_decide (mark = row)
                       || (bool_decide (row.(row_at) = AtNode)
                           && String.eqb mark.(row_lineage) row.(row_lineage)
                           && At_needed mark.(row_at))) marks.
