(* ===== verification/SyncLens.v ===== *)
(** * The projection and the writer, place by place

    What a document's cells hold at each place, as a lookup ([look]), and what the
    writer does to it: the row it puts reads back, and every other row keeps what it
    held. *)

From S2P Require Import Prelude BTree Strings Decimal Values Spec RuntimeOutcome Config.
From S2P Require Import ConfigValidation ConfigJson SyncRows SyncPut.

Open Scope string_scope.
Open Scope nat_scope.
Open Scope list_scope.

(** ** Documents whose nodes and places are addressed once *)

Definition lineages (env : SavedEnvironmentIntent) : list string :=
  map svc_lineage_id env.(env_services) ++ map vol_resource_lineage_id env.(env_volumes).

Record service_addressed (ids : list string) (service : SavedServiceIntent) : Prop := {
  sa_keys : NoDup (map var_key service.(svc_variables));
  sa_mounts : NoDup (map volume_resource_id service.(svc_volume_attachments));
  sa_attached : ∀ a, a ∈ service.(svc_volume_attachments) → a.(volume_resource_id) ∈ ids
}.

Record addressed (env : SavedEnvironmentIntent) : Prop := {
  ad_lineages : NoDup (lineages env);
  ad_volumes : NoDup (map vol_resource_id env.(env_volumes));
  ad_services : Forall (service_addressed (map vol_resource_id env.(env_volumes))) env.(env_services)
}.

Lemma find_key {A} (f : A → string) k l x :
  NoDup (map f l) → List.find (λ y, String.eqb (f y) k) l = Some x ↔ x ∈ l ∧ f x = k.
Proof.
  intros Hnd. split.
  - intros [Hx ->%String.eqb_eq]%find_Some_elem. done.
  - intros [Hx <-]. destruct (List.find _ l) as [y|] eqn:Hf.
    + apply find_Some_elem in Hf as [Hy He%String.eqb_eq]. f_equal. by eapply NoDup_map_inj.
    + rewrite find_None_elem in Hf. specialize (Hf x Hx). by rewrite String.eqb_refl in Hf.
Qed.

Lemma find_key_None {A} (f : A → string) k l :
  List.find (λ y, String.eqb (f y) k) l = None ↔ k ∉ map f l.
Proof.
  rewrite find_None_elem. setoid_rewrite String.eqb_neq. rewrite list_elem_of_fmap. naive_solver.
Qed.

Lemma addressed_services env : addressed env → NoDup (map svc_lineage_id env.(env_services)).
Proof. intros [Hnd _ _]. by apply NoDup_app in Hnd as [? _]. Qed.

Lemma addressed_volumes env : addressed env → NoDup (map vol_resource_lineage_id env.(env_volumes)).
Proof. intros [Hnd _ _]. by apply NoDup_app in Hnd as (_ & _ & ?). Qed.

Lemma addressed_service env service :
  addressed env → service ∈ env.(env_services) →
  service_addressed (map vol_resource_id env.(env_volumes)) service.
Proof. intros [_ _ Hs] Hin. by eapply Forall_forall in Hs. Qed.

Lemma service_of_elem env l service :
  addressed env → service_of env l = Some service ↔ service ∈ env.(env_services) ∧ service.(svc_lineage_id) = l.
Proof. intros Hok. by apply find_key, addressed_services. Qed.

Lemma volume_of_elem env l volume :
  addressed env → volume_of env l = Some volume ↔ volume ∈ env.(env_volumes) ∧ volume.(vol_resource_lineage_id) = l.
Proof. intros Hok. by apply find_key, addressed_volumes. Qed.

Lemma service_of_in env l service :
  service_of env l = Some service → service ∈ env.(env_services) ∧ service.(svc_lineage_id) = l.
Proof. by intros [? ?%String.eqb_eq]%find_Some_elem. Qed.

Lemma volume_of_in env l volume :
  volume_of env l = Some volume → volume ∈ env.(env_volumes) ∧ volume.(vol_resource_lineage_id) = l.
Proof. by intros [? ?%String.eqb_eq]%find_Some_elem. Qed.

(** A lineage is of a Service or of a Volume, not both. *)
Lemma lineage_kinds env l s v :
  addressed env → service_of env l = Some s → volume_of env l = Some v → False.
Proof.
  intros [Hnd _ _] [Hs <-]%service_of_in [Hv Heq]%volume_of_in.
  apply NoDup_app in Hnd as (_ & Hdis & _).
  apply (Hdis (svc_lineage_id s)); [by apply list_elem_of_fmap_2|].
  rewrite <-Heq. by apply list_elem_of_fmap_2.
Qed.

Lemma nodes_get env l :
  addressed env →
  bget (nodes env) l = match service_of env l with
                       | Some s => Some (NodeService s)
                       | None => NodeVolume <$> volume_of env l
                       end.
Proof.
  intros Hok. apply option_eq. intros node. unfold nodes. rewrite bget_bcollect.
  2: { rewrite map_app, !map_map. apply Hok. }
  rewrite elem_of_app, !list_elem_of_fmap. split.
  - intros [(s & [= -> ->] & Hs)|(v & [= -> ->] & Hv)].
    + by rewrite (proj2 (service_of_elem _ (svc_lineage_id s) s Hok)).
    + assert (volume_of env (vol_resource_lineage_id v) = Some v) as Hov by (by apply volume_of_elem).
      destruct (service_of env _) as [s|] eqn:Hs; [|by rewrite Hov].
      exfalso. by eapply lineage_kinds.
  - destruct (service_of env l) as [s|] eqn:Hs.
    + intros [= <-]. left. exists s. by apply service_of_in in Hs as [? <-].
    + intros (v & Hv & ->)%fmap_Some. right. exists v. by apply volume_of_in in Hv as [? <-].
Qed.

(** ** What a place holds *)

(** A cell that is there. *)
Definition present (cell : Cell) : option Cell :=
  match cell with Absent => None | _ => Some cell end.

Lemma present_Some cell c : present cell = Some c ↔ cell = c ∧ c ≠ Absent.
Proof. destruct cell; simpl; naive_solver. Qed.

Definition mount_look (env : SavedEnvironmentIntent) (service : SavedServiceIntent) (l : string)
    : Cell :=
  match vol_resource_id <$> volume_of env l with
  | Some id =>
      match List.find (λ a, String.eqb a.(volume_resource_id) id) service.(svc_volume_attachments) with
      | Some a => CellValue (VString a.(mount_path))
      | None => Absent
      end
  | None => Absent
  end.

Definition variable_look (service : SavedServiceIntent) (key : string) : Cell :=
  match List.find (has_key key) service.(svc_variables) with
  | Some variable => variable_cell variable
  | None => Absent
  end.

Definition volume_look (volume : SavedVolumeIntent) (at_ : At) : Cell :=
  match at_ with
  | AtName => CellValue (VString volume.(vol_name))
  | AtStorage => CellValue (VolumeKind_json volume.(vol_storage))
  | _ => Absent
  end.

Section Look.
Context `{JsonFloat}.

Definition setting_look (config : AuthoredServiceConfig) (suffix : string) (setting : Setting) : Cell :=
  let value := setting_value config suffix setting in
  if at_default setting value then Absent else CellValue value.

Definition service_look (env : SavedEnvironmentIntent) (service : SavedServiceIntent)
    (suffix : string) (at_ : At) : Cell :=
  match at_ with
  | AtSetting setting => setting_look service.(svc_config) suffix setting
  | AtMount l => mount_look env service l
  | AtVariable key => variable_look service key
  | AtNode | AtData | AtName | AtStorage => Absent
  end.

Definition node_look (env : SavedEnvironmentIntent) (node : NodeRef) (suffix : string) (at_ : At)
    : Cell :=
  match node with
  | NodeService service => service_look env service suffix at_
  | NodeVolume volume => volume_look volume at_
  end.

Definition look (env : SavedEnvironmentIntent) (suffix : string) (row : RowId) : Cell :=
  match bget (nodes env) row.(row_lineage) with
  | Some node =>
      match row.(row_at) with
      | AtNode | AtData => node_cell node (node_cells env node suffix)
      | at_ => node_look env node suffix at_
      end
  | None => Absent
  end.

Lemma Setting_ALL_elem setting : setting ∈ Setting_ALL.
Proof. by destruct setting; apply (bool_decide_unpack _). Qed.

Lemma setting_cells_looks config suffix :
  setting_cells config suffix
  = omap (λ setting, pair (AtSetting setting) <$> present (setting_look config suffix setting)) Setting_ALL.
Proof.
  unfold setting_cells. apply list_omap_ext, Forall2_same_length_lookup_2; [done|].
  intros i x y Hx Hy. assert (x = y) as -> by congruence. unfold setting_look.
  by destruct (at_default y (setting_value config suffix y)).
Qed.

Lemma setting_cells_elem config suffix at_ c :
  (at_, c) ∈ setting_cells config suffix
  ↔ ∃ setting, at_ = AtSetting setting ∧ present (setting_look config suffix setting) = Some c.
Proof.
  rewrite setting_cells_looks, list_elem_of_omap. setoid_rewrite fmap_Some. split.
  - intros (setting & _ & c' & Hc & [= -> ->]). eauto.
  - intros (setting & -> & Hc). exists setting. split; [apply Setting_ALL_elem|eauto].
Qed.

Lemma mount_cells_elem env service at_ c :
  addressed env → service ∈ env.(env_services) →
  (at_, c) ∈ mount_cells env service
  ↔ ∃ l, at_ = AtMount l ∧ present (mount_look env service l) = Some c.
Proof.
  intros Hok Hs. unfold mount_cells. rewrite list_elem_of_omap. unfold mount_look. split.
  - intros (a & Ha & Hx). apply bind_Some in Hx as (v & [Hv Heq]%find_key & [= <- <-]); [|apply Hok].
    exists v.(vol_resource_lineage_id). split; [done|].
    rewrite (proj2 (volume_of_elem _ _ v Hok)) by done. simpl.
    rewrite (proj2 (find_key volume_resource_id _ _ a (sa_mounts _ _ (addressed_service _ _ Hok Hs)))); done.
  - intros (l & -> & Hc). destruct (volume_of env l) as [v|] eqn:Hv; simpl in Hc; [|done].
    destruct (List.find _ _) as [a|] eqn:Ha; [|done]. injection Hc as <-.
    apply find_Some_elem in Ha as [Ha Heq%String.eqb_eq]. apply volume_of_in in Hv as [Hv <-].
    exists a. split; [done|]. apply bind_Some. exists v. split; [|done].
    apply (find_key vol_resource_id); [apply Hok|done].
Qed.

Lemma find_has_key key variable variables :
  NoDup (map var_key variables) →
  List.find (has_key key) variables = Some variable ↔ variable ∈ variables ∧ variable.(var_key) = key.
Proof. apply (find_key var_key). Qed.

Lemma variable_cell_present variable : present (variable_cell variable) = Some (variable_cell variable).
Proof. unfold variable_cell. by destruct (var_value variable). Qed.

Lemma variable_cells_elem service at_ c :
  NoDup (map var_key service.(svc_variables)) →
  (at_, c) ∈ map (λ variable, (AtVariable variable.(var_key), variable_cell variable))
               service.(svc_variables)
  ↔ ∃ key, at_ = AtVariable key ∧ present (variable_look service key) = Some c.
Proof.
  intros Hnd. rewrite list_elem_of_fmap. unfold variable_look. split.
  - intros (v & [= -> ->] & Hv). exists v.(var_key). split; [done|].
    rewrite (proj2 (find_has_key _ v _ Hnd)) by done. apply variable_cell_present.
  - intros (key & -> & Hc). destruct (List.find _ _) as [v|] eqn:Hf; [|done].
    apply find_Some_elem in Hf as [Hv Hk%String.eqb_eq]. rewrite variable_cell_present in Hc.
    injection Hc as <-. exists v. by rewrite Hk.
Qed.

(** Distinct keys survive an [omap] that keeps them apart. *)
Lemma NoDup_omap_keys {A B K} (f : A → option (K * B)) (key : A → K) l :
  (∀ x k b, x ∈ l → f x = Some (k, b) → k = key x) →
  (∀ x y, x ∈ l → y ∈ l → is_Some (f x) → is_Some (f y) → key x = key y → x = y) →
  NoDup l → NoDup (map fst (omap f l)).
Proof.
  intros Hkey Hinj. induction 1 as [|x l Hx Hnd IH]; simpl; [constructor|].
  assert (NoDup (map fst (omap f l))) as Hl.
  { apply IH; [intros; eapply Hkey; [set_solver|done]|intros; apply Hinj; try done; set_solver]. }
  destruct (f x) as [[k b]|] eqn:Hf; [|done]. simpl. constructor; [|done].
  intros ([k' b'] & Hk & (y & Hy & Hfy)%list_elem_of_omap)%list_elem_of_fmap. simpl in Hk. subst k'.
  assert (x = y) as ->; [|done]. apply Hinj; [set_solver..|by eexists|by eexists|].
  by rewrite <-(Hkey x k b), <-(Hkey y k b') by (done || set_solver).
Qed.

Lemma NoDup_map_sub {A B} (f : A → B) l : NoDup (map f l) → NoDup l.
Proof. apply NoDup_fmap_1. Qed.

Lemma service_cells_NoDup env service suffix :
  addressed env → service ∈ env.(env_services) →
  NoDup (map fst (setting_cells service.(svc_config) suffix ++ mount_cells env service
                  ++ map (λ variable, (AtVariable variable.(var_key), variable_cell variable))
                       service.(svc_variables))).
Proof.
  intros Hok Hs. pose proof (addressed_service _ _ Hok Hs) as [Hkeys Hmounts _].
  rewrite !map_app. apply NoDup_app. split_and!; [| |apply NoDup_app; split_and!].
  - rewrite setting_cells_looks. apply (NoDup_omap_keys _ AtSetting).
    + by intros st k b _ (? & _ & [= <- _])%fmap_Some.
    + congruence.
    + unfold Setting_ALL. by apply (bool_decide_unpack _).
  - intros at_ ([? c] & -> & (st & -> & _)%setting_cells_elem)%list_elem_of_fmap.
    rewrite elem_of_app, !list_elem_of_fmap. simpl.
    intros [([? ?] & Heq & Hin)|([? ?] & Heq & Hin)]; simpl in Heq; subst.
    + apply mount_cells_elem in Hin as (? & ? & _); done.
    + apply list_elem_of_fmap in Hin as (? & ? & _). done.
  - unfold mount_cells. apply (NoDup_omap_keys _ (λ a,
      AtMount (from_option vol_resource_lineage_id "" (List.find (λ v, String.eqb v.(vol_resource_id) a.(volume_resource_id)) env.(env_volumes))))).
    + intros a k b _ (v & Hv & [= <- _])%bind_Some. by rewrite Hv.
    + intros a a' Ha Ha' [? (v & Hv & _)%bind_Some] [? (v' & Hv' & _)%bind_Some].
      rewrite Hv, Hv'. simpl. intros [= Heq]. apply find_key in Hv as [Hv Hi]; [|apply Hok].
      apply find_key in Hv' as [Hv' Hi']; [|apply Hok].
      eapply (NoDup_map_inj volume_resource_id); [done..|]. rewrite <-Hi, <-Hi'. f_equal.
      eapply NoDup_map_inj; [by apply addressed_volumes|done..].
    + by eapply NoDup_map_sub.
  - intros at_ ([? c] & -> & (l & -> & _)%mount_cells_elem)%list_elem_of_fmap; [|done..].
    rewrite map_map. intros (? & ? & _)%list_elem_of_fmap. done.
  - rewrite map_map. simpl. rewrite <-(map_map var_key AtVariable).
    apply NoDup_fmap_2; [|done]. intros ?? [=]; done.
Qed.

Lemma node_cells_get env node suffix at_ :
  addressed env → (∀ s, node = NodeService s → s ∈ env.(env_services)) →
  bget (node_cells env node suffix) at_ = present (node_look env node suffix at_).
Proof.
  intros Hok Hin. destruct node as [service|volume].
  - specialize (Hin service eq_refl). apply option_eq. intros c. simpl.
    rewrite bget_bcollect by by apply service_cells_NoDup.
    rewrite !elem_of_app, setting_cells_elem, mount_cells_elem, variable_cells_elem; [|
      by eapply addressed_service|done..].
    unfold service_look. destruct at_; naive_solver.
  - simpl. unfold bcollect. simpl. by destruct at_ as [| | | | []| |].
Qed.

Lemma node_cells_wf env node suffix : bwf (node_cells env node suffix).
Proof. destruct node; apply bwf_bcollect. Qed.

Lemma node_of_services env l node :
  addressed env → bget (nodes env) l = Some node →
  ∀ s, node = NodeService s → s ∈ env.(env_services).
Proof.
  intros Hok. rewrite nodes_get by done. destruct (service_of env l) as [s|] eqn:Hs.
  - intros [= <-] ? [= <-]. by apply service_of_in in Hs as [? _].
  - intros (v & _ & ->)%fmap_Some. done.
Qed.

(** The rows of one node. *)
Definition node_rows (env : SavedEnvironmentIntent) (suffix : string) (ln : string * NodeRef)
    : list (RowId * Cell) :=
  let cells := node_cells env ln.2 suffix in
  (RowId_node ln.1, node_cell ln.2 cells)
  :: map (λ '(at_, cell), ({| row_lineage := ln.1; row_at := at_ |}, cell)) cells.

Lemma cells_of_rows env suffix :
  Cells_of env suffix = bcollect (concat (map (node_rows env suffix) (nodes env))).
Proof. unfold Cells_of. do 2 f_equal. apply map_ext. by intros []. Qed.

Lemma node_rows_elem env suffix ln row c :
  (row, c) ∈ node_rows env suffix ln
  ↔ row.(row_lineage) = ln.1
    ∧ ((row.(row_at) = AtNode ∧ c = node_cell ln.2 (node_cells env ln.2 suffix))
       ∨ (row.(row_at), c) ∈ node_cells env ln.2 suffix).
Proof.
  destruct row as [l at_]. unfold node_rows. rewrite elem_of_cons, list_elem_of_fmap. simpl. split.
  - intros [[= -> -> ->]|([at' c'] & [= -> -> ->] & Hin)]; [by eauto|by eauto].
  - intros [-> [[-> ->]|Hin]]; [by left|right]. by exists (at_, c).
Qed.

Lemma no_node_cell env suffix l node :
  addressed env → bget (nodes env) l = Some node → bget (node_cells env node suffix) AtNode = None.
Proof.
  intros Hok Hn. rewrite node_cells_get; [|done|by eapply node_of_services]. by destruct node.
Qed.

Lemma node_rows_NoDup env suffix ln :
  bget (node_cells env ln.2 suffix) AtNode = None → NoDup (map fst (node_rows env suffix ln)).
Proof.
  intros Hno. unfold node_rows. simpl. rewrite map_map. constructor.
  - intros ([at_ c] & Heq & Hin)%list_elem_of_fmap. simpl in Heq. injection Heq as <-.
    apply (bget_Some _ _ _ (node_cells_wf _ _ _)) in Hin. congruence.
  - apply NoDup_fmap_2_strong.
    + intros [a1 c1] [a2 c2] H1 H2. simpl. intros [= <-].
      apply (bget_Some _ _ _ (node_cells_wf _ _ _)) in H1, H2. congruence.
    + eapply NoDup_fmap_1, bwf_NoDup, node_cells_wf.
Qed.

Lemma rows_NoDup env suffix (ns : list (string * NodeRef)) :
  (∀ ln, ln ∈ ns → bget (node_cells env ln.2 suffix) AtNode = None) → NoDup (map fst ns) →
  NoDup (map fst (concat (map (node_rows env suffix) ns))).
Proof.
  intros Hno. induction ns as [|ln ns IH]; intros Hnd; [constructor|].
  apply NoDup_cons in Hnd as [Hl Hnd]. cbn [map concat]. rewrite map_app. apply NoDup_app. split_and!.
  - apply node_rows_NoDup, Hno. set_solver.
  - intros row Hrow1 ([r2 c2] & Heq & Hin)%list_elem_of_fmap.
    apply list_elem_of_fmap in Hrow1 as ([r1 c1] & -> & [Hr1 _]%node_rows_elem). simpl in *. subst r2.
    apply list_elem_of_In, in_concat in Hin as (cells & Hcs & Hin).
    apply in_map_iff in Hcs as (ln' & <- & Hn). apply list_elem_of_In in Hin, Hn.
    apply node_rows_elem in Hin as [Hr2 _]. apply Hl. rewrite <-Hr1, Hr2. by apply list_elem_of_fmap_2.
  - apply IH; [|done]. intros; apply Hno. set_solver.
Qed.

Lemma cells_get env suffix row :
  addressed env →
  bget (Cells_of env suffix) row
  = match bget (nodes env) row.(row_lineage) with
    | Some node =>
        match row.(row_at) with
        | AtNode => Some (node_cell node (node_cells env node suffix))
        | at_ => bget (node_cells env node suffix) at_
        end
    | None => None
    end.
Proof.
  intros Hok. assert (bwf (nodes env)) as Hwf by apply bwf_bcollect.
  rewrite cells_of_rows. apply option_eq. intros c. rewrite bget_bcollect.
  2: { apply rows_NoDup; [|by apply bwf_NoDup]. intros [l node] Hn. eapply no_node_cell; [done|].
       by apply bget_Some. }
  rewrite list_elem_of_In, in_concat. setoid_rewrite in_map_iff. split.
  - intros (cells & ([l node] & <- & Hn%list_elem_of_In) & Hc%list_elem_of_In).
    apply node_rows_elem in Hc as [Hr Hc]. simpl in Hr, Hc. rewrite Hr.
    apply (bget_Some _ _ _ Hwf) in Hn. rewrite Hn.
    destruct Hc as [[-> ->]|Hc]; [done|]. apply (bget_Some _ _ _ (node_cells_wf _ _ _)) in Hc.
    destruct (row_at row) eqn:Hat; try done. by rewrite (no_node_cell _ _ _ _ Hok Hn) in Hc.
  - destruct (bget (nodes env) _) as [node|] eqn:Hn; [|done]. intros Hc.
    exists (node_rows env suffix (row_lineage row, node)). split.
    { exists (row_lineage row, node). split; [done|]. by apply list_elem_of_In, bget_Some. }
    apply list_elem_of_In, node_rows_elem. split; [done|]. simpl.
    destruct (row_at row) eqn:Hat; [left; by simplify_eq|right..];
      (apply bget_Some; [apply node_cells_wf|done]).
Qed.

Lemma cells_look env suffix row :
  addressed env → Cells_at (Cells_of env suffix) row = look env suffix row.
Proof.
  intros Hok. unfold Cells_at, look. rewrite !cells_get by done.
  destruct row as [l at_]; simpl. destruct (bget (nodes env) l) as [node|] eqn:Hn; [|by destruct at_].
  assert (∀ at_, default Absent (bget (node_cells env node suffix) at_) = node_look env node suffix at_) as Hd.
  { intros a. rewrite node_cells_get; [|done|by eapply node_of_services]. by destruct (node_look _ _ _ _). }
  destruct at_; simpl; auto.
Qed.
End Look.
