(* ===== verification/SyncLaws.v ===== *)
(** * The writer inverts the projection

    Putting a cell that some document shows at a place gives that cell back there,
    and leaves every other place as it was; a source takes its git branch along only
    when the kind of source changes. *)

From S2P Require Import Prelude BTree Strings Decimal Values Spec RuntimeOutcome Config.
From S2P Require Import ConfigValidation ConfigSpec ConfigJson SyncRows SyncPut SyncLens.

Open Scope string_scope.
Open Scope nat_scope.
Open Scope list_scope.

(** ** Settings *)

(** Settings the writer takes as values: the others belong to their Environment. *)
Definition movable (setting : Setting) : bool :=
  match setting with SetRoutes | SetManagedHostnames | SetBranch => false | _ => true end.

(** The source a Service [id] takes from a cell of [source]. *)
Definition bound_source (id : string) (source : ServiceSource) : ServiceSource :=
  match source with
  | SourceEmpty version root_dir => SourceEmpty version root_dir
  | SourceGit version repository repository_id access root_dir _ =>
      SourceGit version repository repository_id access root_dir (BranchDisconnected None)
  | SourceImage version image credentials =>
      SourceImage version image
        (if configured credentials then CredentialsConfigured id else CredentialsNone)
  end.

(** [config] with one setting of [from]. *)
Definition copy_setting (id : string) (setting : Setting) (from config : AuthoredServiceConfig)
    : AuthoredServiceConfig :=
  match setting with
  | SetSource => set_source (keep_branch config.(sc_source) (bound_source id from.(sc_source))) config
  | SetPrivateDns => set_private_dns from.(sc_private_dns) config
  | SetPreDeployCommand => set_pre_deploy_command from.(sc_pre_deploy_command) config
  | SetStartCommand => set_start_command from.(sc_start_command) config
  | SetHealthcheck => set_healthcheck from.(sc_healthcheck) config
  | SetRestartPolicy => set_restart_policy from.(sc_restart_policy) config
  | SetMaxRetries => set_max_retries from.(sc_max_retries) config
  | SetReplicas => set_replicas from.(sc_replicas) config
  | SetCpuLimit => set_cpu_limit from.(sc_cpu_limit) config
  | SetMemLimit => set_mem_limit from.(sc_mem_limit) config
  | SetBuildMethod =>
      set_build (set_build_method from.(sc_build).(build_method) config.(sc_build)) config
  | SetDockerfilePath =>
      set_build (set_dockerfile_path from.(sc_build).(dockerfile_path) config.(sc_build)) config
  | SetBuildCommand =>
      set_build (set_build_command from.(sc_build).(build_command) config.(sc_build)) config
  | SetRoutes | SetManagedHostnames | SetBranch => config
  end.

(** The git branch of a source. *)
Definition branch_json (source : ServiceSource) : Value :=
  match source with
  | SourceGit _ _ _ _ _ branch => ServiceGitBranch_json branch
  | SourceEmpty _ _ | SourceImage _ _ _ => VNull
  end.

(** Settings every Service starts from. *)
Definition default_config (config : AuthoredServiceConfig) : AuthoredServiceConfig :=
  {| sc_version := config.(sc_version); sc_source := SourceEmpty 1 "/";
     sc_pre_deploy_command := None; sc_start_command := None; sc_healthcheck := ServiceHealthNone;
     sc_restart_policy := RestartUnlessStopped; sc_max_retries := 10; sc_replicas := 1;
     sc_cpu_limit := None; sc_mem_limit := None; sc_private_dns := config.(sc_private_dns);
     sc_routes := []; sc_managed_hostnames := [];
     sc_build := {| build_method := Railpack; dockerfile_path := None; build_command := None |};
     sc_template := None |}.

Section Settings.
Context `{JsonFloat}.

(** A setting's value, read off the field it is. *)
Definition setting_json (config : AuthoredServiceConfig) (suffix : string) (setting : Setting)
    : Value :=
  match setting with
  | SetSource => source_cell config.(sc_source)
  | SetBranch => branch_json config.(sc_source)
  | SetPrivateDns => VString config.(sc_private_dns)
  | SetManagedHostnames => VArray (map (managed_cell suffix) config.(sc_managed_hostnames))
  | SetRoutes => VArray (map VString (stable_sort key_le (map route_hostname config.(sc_routes))))
  | SetPreDeployCommand => json_option VString config.(sc_pre_deploy_command)
  | SetStartCommand => json_option VString config.(sc_start_command)
  | SetHealthcheck => ServiceHealthcheck_json config.(sc_healthcheck)
  | SetRestartPolicy => ServiceRestartPolicy_json config.(sc_restart_policy)
  | SetMaxRetries => json_u config.(sc_max_retries)
  | SetReplicas => json_u config.(sc_replicas)
  | SetCpuLimit => json_option json_f64 config.(sc_cpu_limit)
  | SetMemLimit => json_option json_f64 config.(sc_mem_limit)
  | SetBuildMethod => BuildMethod_json config.(sc_build).(build_method)
  | SetDockerfilePath => json_option VString config.(sc_build).(dockerfile_path)
  | SetBuildCommand => json_option VString config.(sc_build).(build_command)
  end.

Lemma setting_value_json config suffix setting :
  setting_value config suffix setting = setting_json config suffix setting.
Proof. destruct setting; try reflexivity. by destruct (sc_source config) eqn:Hs; cbn; rewrite Hs. Qed.

(** The value the writer is given for a cell. *)
Definition put_value (setting : Setting) (cell : Cell) : Value :=
  match cell with CellValue value => value | _ => default_value (Setting_path setting) end.

Lemma put_value_look config suffix setting :
  movable setting = true →
  put_value setting (setting_look config suffix setting) = setting_json config suffix setting.
Proof.
  intros Hm. unfold setting_look. rewrite setting_value_json. unfold at_default.
  case_bool_decide as Hnull; simpl.
  - rewrite Hnull. destruct setting; try done; simpl in Hnull; unfold source_cell in Hnull;
      try discriminate Hnull; destruct (sc_healthcheck config); discriminate Hnull.
  - case_bool_decide as Hdef; simpl; [done|].
    case_bool_decide as Hnil; simpl; [|done]. exfalso.
    destruct setting; try done; simpl in Hnil; unfold source_cell in Hnil; try discriminate Hnil;
      match type of Hnil with
      | json_option _ ?o = _ => destruct o; simpl in Hnil; unfold json_f64 in Hnil
      | _ => destruct (sc_healthcheck config)
      end; try case_match; discriminate Hnil.
Qed.

Lemma default_setting config suffix setting :
  movable setting = true → setting ≠ SetPrivateDns →
  default_value (Setting_path setting) = setting_json (default_config config) suffix setting.
Proof. by destruct setting. Qed.

Lemma default_typed config : typed_config config → typed_config (default_config config).
Proof. intros []. by split; simpl. Qed.

Lemma source_cell_keep id current source :
  source_cell (keep_branch current (bound_source id source)) = source_cell source.
Proof. by destruct current, source as [| |? ? []]. Qed.

Lemma copy_same id setting from config suffix suffix' :
  movable setting = true →
  setting_json (copy_setting id setting from config) suffix setting = setting_json from suffix' setting.
Proof. destruct setting; try done. intros _. apply source_cell_keep. Qed.

Lemma copy_other id setting setting' from config suffix :
  setting ≠ setting' → ¬ (setting = SetSource ∧ setting' = SetBranch) →
  setting_json (copy_setting id setting from config) suffix setting' = setting_json config suffix setting'.
Proof. intros Hne Hb. destruct setting, setting'; try done; exfalso; auto. Qed.

(** A source that lands keeps the receiver's git branch, or has none yet. *)
Definition landed_branch (from into : ServiceSource) : Value :=
  match from, into with
  | SourceGit _ _ _ _ _ _, SourceGit _ _ _ _ _ branch => ServiceGitBranch_json branch
  | SourceGit _ _ _ _ _ _, _ => ServiceGitBranch_json (BranchDisconnected None)
  | _, _ => VNull
  end.

Lemma copy_branch id from config suffix :
  setting_json (copy_setting id SetSource from config) suffix SetBranch
  = landed_branch from.(sc_source) config.(sc_source).
Proof. simpl. by destruct (sc_source from), (sc_source config). Qed.

Lemma copy_typed id setting from config :
  typed_config from → typed_config config → typed_config (copy_setting id setting from config).
Proof.
  intros Hf Hc. destruct Hf, Hc. destruct setting; try (split; done); split; try done; simpl.
  by destruct (sc_source from), (sc_source config).
Qed.

Context `{ConfigDecoders, !DecoderLaws}.

(** The cell of a source reads back as the source, bound to the Service. *)
Lemma read_source_cell id source :
  typed_source source →
  ∃ fields cell, source_cell source = VObject cell ∧ source_fields id cell = Some fields
    ∧ parse_source (VObject fields) = Some (bound_source id source).
Proof.
  intros Ht. destruct source as [v r|v r i a d b|v i c].
  - eexists _, _. split_and!; [done|done|]. by apply (read_source (SourceEmpty v r)).
  - eexists _, _. split_and!; [done|done|].
    by apply (read_source (SourceGit v r i a d (BranchDisconnected None))).
  - eexists _, _. split_and!; [done| |].
    + unfold source_fields. simpl. rewrite read_bool. done.
    + by apply (read_source (SourceImage v i (if configured c then CredentialsConfigured id else CredentialsNone))).
Qed.

Lemma put_config_copy id config from suffix setting :
  typed_config from → movable setting = true →
  put_config id config setting (setting_json from suffix setting) = Some (copy_setting id setting from config).
Proof.
  intros [] Hm. destruct setting; try done; cbn [put_config setting_json copy_setting];
    rewrite ?read_opt_string, ?read_service_name, ?read_healthcheck, ?read_restart_policy,
      ?read_u8, ?read_opt_f64, ?read_build_method by done; try done.
  destruct (read_source_cell id (sc_source from)) as (fields & cell & -> & Hf & Hp); [done|].
  rewrite Hf. simpl. by rewrite Hp.
Qed.
End Settings.

(** ** Settings in normal form *)

(** A check that, where it accepts, changes nothing. *)
Definition stable {A E} (check : A → Result A E) (x : A) : Prop := ∀ y, check x = Ok y → y = x.

Definition stable_source (source : ServiceSource) : Prop :=
  match source with
  | SourceEmpty _ path => stable root_dir path
  | SourceGit _ repository _ _ path branch =>
      stable (λ s, trimmed_text s "source.repository" REPOSITORY_MAX) repository
      ∧ stable root_dir path ∧ stable normalize_branch branch
  | SourceImage _ image _ => stable (λ s, trimmed_text s "source.image" IMAGE_MAX) image
  end.

Definition stable_command (command : option string) : Prop :=
  stable (λ c, optional_trimmed c "command" COMMAND_MAX) command.

(** Settings as the program holds them and as admission leaves them. *)
Record settled_config `{ConfigCrates} (config : AuthoredServiceConfig) : Prop := {
  st_typed : typed_config config;
  st_source : stable_source config.(sc_source);
  st_pre_deploy : stable_command config.(sc_pre_deploy_command);
  st_start : stable_command config.(sc_start_command);
  st_healthcheck : stable normalize_healthcheck config.(sc_healthcheck);
  st_build : stable (λ c, optional_trimmed c "build.command" COMMAND_MAX)
               config.(sc_build).(build_command);
  st_dockerfile : stable (λ p, optional_trimmed p "build.dockerfilePath" DOCKERFILE_PATH_MAX)
                    config.(sc_build).(dockerfile_path);
  st_routes : stable (λ routes, normalize_routes routes []) config.(sc_routes);
  st_hostnames : Forall (λ hostname, bytes_all is_host_byte hostname.(managed_prefix) = true)
                   config.(sc_managed_hostnames)
}.

Record ready_service `{ConfigCrates} (service : SavedServiceIntent) : Prop := {
  rs_config : settled_config service.(svc_config);
  rs_variables : Forall (λ variable, typed_variable_value variable.(var_value)) service.(svc_variables)
}.

(** A document as the program holds it, its settings as admission leaves them. *)
Record ready `{ConfigCrates} (intent : SavedEnvironmentIntent) : Prop := {
  rd_version : is_u8 intent.(env_version);
  rd_services : Forall ready_service intent.(env_services);
  rd_volumes : Forall (λ volume, typed_storage volume.(vol_storage)) intent.(env_volumes)
}.

Section Settled.
Context `{ConfigCrates}.

Lemma ready_typed intent : ready intent → typed intent.
Proof.
  intros [Hv Hs Hvol]. split; [done| |done]. eapply Forall_impl; [exact Hs|].
  intros s [[] ?]. by split.
Qed.

Lemma default_settled config : settled_config config → settled_config (default_config config).
Proof.
  intros [Ht _ _ _ _ _ _ _ _]. split; try (by apply default_typed);
    solve [constructor | intros y; vm_compute; congruence].
Qed.

Lemma copy_settled id setting from config :
  settled_config from → settled_config config → settled_config (copy_setting id setting from config).
Proof.
  intros Hf Hc. assert (typed_config (copy_setting id setting from config)) as Ht
    by (by apply copy_typed; [apply Hf|apply Hc]).
  destruct Hf, Hc. destruct setting; split; try done; simpl in *.
  unfold keep_branch, bound_source. destruct (sc_source from), (sc_source config); simpl in *; try done;
    (split_and!; [tauto|tauto|]); try tauto; intros y; vm_compute; congruence.
Qed.

Ltac invert_parse :=
  repeat match goal with
    | H : result_bind _ _ = Ok _ |- _ => apply result_bind_Ok in H as (? & ? & H)
    | H : Ok _ = Ok _ |- _ => injection H as <-
    end.

Lemma stable_normalize_source source y :
  stable_source source → normalize_source source = Ok y → y = source.
Proof.
  intros Hs. destruct source; simpl in *; intros Hn; invert_parse; f_equal; try naive_solver.
Qed.

Lemma managed_hostnames_host hostnames seen y :
  managed_hostnames hostnames seen = Ok y →
  (Forall (λ hostname, bytes_all is_host_byte hostname.(managed_prefix) = true) hostnames → y = hostnames)
  ∧ Forall (λ hostname, bytes_all is_host_byte hostname.(managed_prefix) = true) y.
Proof.
  revert seen y. induction hostnames as [|h hostnames IH]; intros seen y Hy; simpl in Hy; [by simplify_eq|].
  apply result_bind_Ok in Hy as (h' & Hh & Hy). apply result_bind_Ok in Hy as (? & _ & Hy).
  apply result_bind_Ok in Hy as (rest & Hr & Hy). injection Hy as <-.
  unfold managed_hostname, hostname_prefix in Hh. apply result_bind_Ok in Hh as (p & Hp & Hh).
  apply result_bind_Ok in Hp as (? & Hl%range_Ok & Hp). injection Hp as <-.
  apply result_bind_Ok in Hh as (? & _ & Hh). injection Hh as <-.
  destruct (IH _ _ Hr) as [IH1 IH2]. split.
  - intros [Hb Hall]%Forall_cons. rewrite IH1 by done. rewrite host_text_stable by done. by destruct h.
  - constructor; [|done]. by apply label_host_bytes.
Qed.

(** Admission changes no setting of a settled configuration. *)
Lemma settled_parse config config' : settled_config config → parse_service_config config = Ok config' → config' = config.
Proof.
  intros [Ht Hs Hp Hst Hh Hb Hd Hr Hm] Hc. unfold parse_service_config, normalize_build in Hc. invert_parse.
  destruct config as [? ? ? ? ? ? ? ? ? ? ? ? ? [? ? ?] ?]; simpl in *. f_equal; eauto using stable_normalize_source.
  - by eapply managed_hostnames_host.
  - f_equal; eauto.
Qed.

Lemma stable_of {A E} (check : A → Result A E) x : check x = Ok x → stable check x.
Proof. intros Hx y Hy. congruence. Qed.

(** What admission returns is settled. *)
Lemma parsed_settled config : typed_config config → parse_service_config config = Ok config → settled_config config.
Proof.
  intros Ht Hc. destruct config as [? source ? ? ? ? ? ? ? ? ? ? ? [? ? ?] ?].
  unfold parse_service_config, normalize_build in Hc. simpl in Hc.
  repeat match goal with
    | H : result_bind _ _ = Ok _ |- _ => apply result_bind_Ok in H as (? & ? & H)
    end.
  simplify_eq/=. split; simpl; try done; try (by apply stable_of).
  2: by eapply managed_hostnames_host.
  destruct source; simpl in *;
    repeat match goal with
      | H : result_bind _ _ = Ok _ |- _ => apply result_bind_Ok in H as (? & ? & H)
      end; simplify_eq/=; split_and?; by apply stable_of.
Qed.
End Settled.

(** ** Updates of one node *)

Lemma find_update_first {A} (key : A → string) k k' (f : A → A) l :
  (∀ x, key (f x) = key x) →
  List.find (λ y, String.eqb (key y) k') (update_first (λ y, String.eqb (key y) k) f l)
  = if decide (k = k') then f <$> List.find (λ y, String.eqb (key y) k) l
    else List.find (λ y, String.eqb (key y) k') l.
Proof.
  intros Hf. induction l as [|x l IH]; simpl; [by case_decide|].
  destruct (String.eqb_spec (key x) k) as [Hx|Hx]; simpl; rewrite ?Hf.
  - case_decide as Hk; [by rewrite <-Hk, Hx, String.eqb_refl|].
    destruct (String.eqb_spec (key x) k'); [congruence|done].
  - destruct (String.eqb_spec (key x) k'); [case_decide; congruence|done].
Qed.

Lemma map_update_first {A B} (g : A → B) p (f : A → A) l :
  (∀ x, g (f x) = g x) → map g (update_first p f l) = map g l.
Proof.
  intros Hf. induction l as [|x l IH]; simpl; [done|]. destruct (p x); simpl; rewrite ?Hf, ?IH; done.
Qed.

Lemma Forall_update_first {A} (P : A → Prop) p (f : A → A) l :
  (∀ x, x ∈ l → p x = true → P x → P (f x)) → Forall P l → Forall P (update_first p f l).
Proof.
  intros Hf Hl. induction Hl as [|x l Hx Hl IH]; simpl; [constructor|].
  destruct (p x) eqn:Hp; constructor; auto.
  - apply Hf; [set_solver|done|done].
  - apply IH. intros; apply Hf; [set_solver|done|done].
Qed.

(** A step that keeps a Service's place in the document. *)
Definition keeps_lineage (f : SavedServiceIntent → SavedServiceIntent) : Prop :=
  ∀ s, (f s).(svc_lineage_id) = s.(svc_lineage_id).

Lemma service_of_update env l f l' :
  keeps_lineage f →
  service_of (update_service env l f) l'
  = if decide (l = l') then f <$> service_of env l else service_of env l'.
Proof. intros Hf. by apply (find_update_first svc_lineage_id). Qed.

Lemma volume_of_update env l f l' :
  (∀ v, (f v).(vol_resource_lineage_id) = v.(vol_resource_lineage_id)) →
  volume_of (update_volume env l f) l'
  = if decide (l = l') then f <$> volume_of env l else volume_of env l'.
Proof. intros Hf. by apply (find_update_first vol_resource_lineage_id). Qed.

Lemma addressed_update_service env l f :
  keeps_lineage f → addressed env →
  (∀ s, service_of env l = Some s → service_addressed (map vol_resource_id env.(env_volumes)) s →
        service_addressed (map vol_resource_id env.(env_volumes)) (f s)) →
  addressed (update_service env l f).
Proof.
  intros Hl Hok Hf. pose proof Hok as [Hnd Hv Hs]. split; [|done|].
  - unfold lineages. simpl. by rewrite map_update_first.
  - simpl. apply Forall_update_first; [|done]. intros s Hin He%String.eqb_eq. apply Hf.
    by apply service_of_elem.
Qed.

Lemma addressed_update_volume env l f :
  (∀ v, (f v).(vol_resource_lineage_id) = v.(vol_resource_lineage_id)) →
  (∀ v, (f v).(vol_resource_id) = v.(vol_resource_id)) →
  addressed env → addressed (update_volume env l f).
Proof.
  intros Hl Hi [Hnd Hv Hs]. split; unfold lineages; simpl; by rewrite ?(map_update_first _ _ f).
Qed.

Lemma typed_update_service `{ConfigCrates} env l f :
  (∀ s, ready_service s → ready_service (f s)) → ready env → ready (update_service env l f).
Proof. intros Hf []. split; simpl; [done| |done]. apply Forall_update_first; auto. Qed.

Lemma typed_update_volume `{ConfigCrates} env l f :
  (∀ v, typed_storage v.(vol_storage) → typed_storage (f v).(vol_storage)) →
  ready env → ready (update_volume env l f).
Proof. intros Hf []. split; simpl; [done|done|]. apply Forall_update_first; auto. Qed.

(** ** Places with the values of their secrets *)

Definition sealed_variable (variable : SavedVariableIntent) : SealedCell :=
  match variable.(var_value) with
  | VariableSecret (Some value) =>
      SealedCellSecret {| secret_fingerprint := variable.(var_value_fingerprint);
                          secret_value := value |}
  | _ => PlainCell (variable_cell variable)
  end.

(** A place within a node. *)
Definition is_place (at_ : At) : bool :=
  match at_ with AtNode | AtData => false | _ => true end.

Section Places.
Context `{ConfigCrates, JsonFloat}.

Definition service_sealed (env : SavedEnvironmentIntent) (service : SavedServiceIntent)
    (suffix : string) (at_ : At) : SealedCell :=
  match at_ with
  | AtVariable key =>
      match List.find (has_key key) service.(svc_variables) with
      | Some variable => sealed_variable variable
      | None => PlainCell Absent
      end
  | _ => PlainCell (service_look env service suffix at_)
  end.

Definition sealed_place (env : SavedEnvironmentIntent) (suffix l : string) (at_ : At) : SealedCell :=
  match service_of env l with
  | Some service => service_sealed env service suffix at_
  | None =>
      PlainCell match volume_of env l with Some volume => volume_look volume at_ | None => Absent end
  end.

Lemma sealed_cell_place env suffix row :
  addressed env → is_place row.(row_at) = true →
  sealed_cell env (Cells_of env suffix) row = sealed_place env suffix row.(row_lineage) row.(row_at).
Proof.
  intros Hok Hp. unfold sealed_cell, sealed_place. rewrite cells_look by done.
  unfold look, encrypted_at. rewrite nodes_get by done. destruct row as [l at_]; simpl in *.
  destruct (service_of env l) as [s|]; simpl.
  - destruct at_; try done; simpl.
    + unfold setting_look. by case_match.
    + unfold mount_look. repeat case_match; done.
    + unfold variable_look. change (λ v, String.eqb (var_key v) key) with (has_key key).
      destruct (List.find (has_key key) (svc_variables s)) as [v|]; simpl; [|done].
      unfold sealed_variable, variable_cell. destruct (var_value v) as [| |[]|]; done.
  - destruct (volume_of env l); simpl; by destruct at_.
Qed.

Lemma redacted_place env suffix l at_ :
  addressed env → is_place at_ = true →
  to_redacted (sealed_place env suffix l at_) = look env suffix {| row_lineage := l; row_at := at_ |}.
Proof.
  intros Hok Hp. unfold sealed_place, look. rewrite nodes_get by done. simpl.
  destruct (service_of env l) as [s|]; simpl.
  - destruct at_; try done. simpl. unfold variable_look. destruct (List.find _ _) as [v|]; [|done].
    unfold sealed_variable, variable_cell. destruct (var_value v) as [| |[]|]; done.
  - destruct (volume_of env l); simpl; by destruct at_.
Qed.

(** What some document may show at a place. *)
Definition shown (at_ : At) (cell : SealedCell) : Prop :=
  match at_ with
  | AtSetting setting =>
      movable setting = true
      ∧ (cell = PlainCell Absent
         ∨ ∃ config suffix, settled_config config ∧ cell = PlainCell (setting_look config suffix setting))
  | AtMount _ => cell = PlainCell Absent ∨ ∃ path, cell = PlainCell (CellValue (VString path))
  | AtVariable _ =>
      cell = PlainCell Absent
      ∨ ∃ variable, typed_variable_value variable.(var_value) ∧ cell = sealed_variable variable
  | AtName => cell = PlainCell Absent ∨ ∃ name, cell = PlainCell (CellValue (VString name))
  | AtStorage =>
      cell = PlainCell Absent
      ∨ ∃ storage, typed_storage storage ∧ cell = PlainCell (CellValue (VolumeKind_json storage))
  | AtNode | AtData => False
  end.

Definition movable_at (at_ : At) : bool :=
  match at_ with
  | AtSetting setting => movable setting
  | AtNode | AtData => false
  | _ => true
  end.

Lemma typed_service_of env l s : ready env → service_of env l = Some s → ready_service s.
Proof. intros [_ Hs _] [Hin _]%service_of_in. by eapply Forall_forall in Hs. Qed.

Lemma sealed_place_shown env suffix l at_ :
  ready env → movable_at at_ = true → shown at_ (sealed_place env suffix l at_).
Proof.
  intros Ht Hm. unfold sealed_place. destruct (service_of env l) as [s|] eqn:Hs.
  - apply (typed_service_of _ _ _ Ht) in Hs as [Hc Hv]. destruct at_; try done; simpl; eauto 6.
    + unfold mount_look. repeat case_match; eauto.
    + destruct (List.find _ _) as [v|] eqn:Hf; [|by left]. right. exists v. split; [|done].
      apply find_Some_elem in Hf as [Hin _]. by eapply Forall_forall in Hv.
  - destruct (volume_of env l) as [v|] eqn:Hv; [|destruct at_; try done; simpl; eauto].
    apply volume_of_in in Hv as [Hv _]. destruct Ht as [_ _ Ht]. eapply Forall_forall in Ht; [|done].
    destruct at_; try done; simpl; eauto.
Qed.
End Places.

(** ** One put *)

(** What is not a row: identities, names of Services, and the document's own fields. *)
Definition frame (env : SavedEnvironmentIntent) :=
  (env.(env_version), env.(env_slug), map svc_id env.(env_services),
   map svc_lineage_id env.(env_services), map svc_slug env.(env_services),
   map vol_resource_id env.(env_volumes), map vol_resource_lineage_id env.(env_volumes)).

Lemma frame_lineages env env' : frame env = frame env' → lineages env = lineages env'.
Proof. unfold frame, lineages. intros [= _ _ _ -> _ _ ->]. done. Qed.

(** The name of the Service at a lineage. *)
Definition slug_of (env : SavedEnvironmentIntent) (l : string) : option string :=
  svc_slug <$> service_of env l.

Lemma frame_slug env env' l : frame env = frame env' → slug_of env l = slug_of env' l.
Proof.
  unfold frame, slug_of, service_of. intros [= _ _ _ Hl Hs _ _]. revert Hl Hs. generalize (env_services env').
  induction (env_services env) as [|s ss IH]; intros [|s' ss'] Hl Hs; try done. simpl in *.
  injection Hl as Hl1 Hl. injection Hs as Hs1 Hs. rewrite Hl1.
  destruct (String.eqb _ _); [simpl; by rewrite Hs1|]. by apply IH.
Qed.

Section Put.
Context `{ConfigCrates, JsonFloat, ConfigDecoders, !DecoderLaws}.
Implicit Types (env : SavedEnvironmentIntent).

(** The place [at_] of the node [l] holds [cell], and every other place what it held; a source
    may take its git branch along. *)
Record put_at (suffix l : string) (at_ : At) (cell : SealedCell) env env' : Prop := {
  pa_addressed : addressed env';
  pa_typed : ready env';
  pa_frame : frame env' = frame env;
  pa_places : ∀ l' at', is_place at' = true →
    ¬ (l' = l ∧ at_ = AtSetting SetSource ∧ at' = AtSetting SetBranch) →
    sealed_place env' suffix l' at' = if decide (l' = l ∧ at' = at_) then cell
                                      else sealed_place env suffix l' at'
}.

Lemma put_service suffix l at_ cell env f s :
  addressed env → ready env → service_of env l = Some s →
  (∀ s, (f s).(svc_lineage_id) = s.(svc_lineage_id) ∧ (f s).(svc_id) = s.(svc_id)
        ∧ (f s).(svc_slug) = s.(svc_slug)) →
  (service_addressed (map vol_resource_id env.(env_volumes)) s →
   service_addressed (map vol_resource_id env.(env_volumes)) (f s)) →
  (∀ s, ready_service s → ready_service (f s)) →
  (∀ at', is_place at' = true → ¬ (at_ = AtSetting SetSource ∧ at' = AtSetting SetBranch) →
     service_sealed env (f s) suffix at' = if decide (at' = at_) then cell
                                           else service_sealed env s suffix at') →
  put_at suffix l at_ cell env (update_service env l f).
Proof.
  intros Hok Ht Hs Hkeep Had Hty Hpl. assert (keeps_lineage f) as Hl by (intros x; apply Hkeep).
  split.
  - apply addressed_update_service; [done|done|]. intros s' Hs'. by replace s' with s by congruence.
  - by apply typed_update_service.
  - unfold frame. simpl. rewrite !(map_update_first _ _ f) by (intros x; apply Hkeep). done.
  - intros l' at' Hp Hne. unfold sealed_place at 1. rewrite service_of_update by done.
    case_decide as Hll.
    + subst l'. rewrite Hs. simpl. change (service_sealed (update_service env l f)) with (service_sealed env).
      rewrite Hpl by (done || naive_solver). unfold sealed_place. rewrite Hs.
      destruct (decide (at' = at_)), (decide (l = l ∧ at' = at_)); naive_solver.
    + destruct (decide (l' = l ∧ at' = at_)) as [[-> _]|_]; [done|]. unfold sealed_place.
      by destruct (service_of env l').
Qed.

(** Nothing changes where nothing is there to clear. *)
Lemma put_nothing suffix l at_ env :
  addressed env → ready env → sealed_place env suffix l at_ = PlainCell Absent →
  put_at suffix l at_ (PlainCell Absent) env env.
Proof.
  intros Hok Ht Ha. split; [done|done|done|]. intros l' at' _ _.
  destruct (decide _) as [[-> ->]|]; done.
Qed.

Lemma update_service_const env l s s' :
  service_of env l = Some s →
  update_service env l (λ _, s') = update_service env l (λ x, if decide (x = s) then s' else x).
Proof.
  unfold service_of, update_service. intros Hs. f_equal.
  induction (env_services env) as [|x xs IH]; simpl in *; [done|].
  destruct (String.eqb _ _); [|by rewrite IH]. injection Hs as ->. by case_decide.
Qed.

Lemma with_config_sealed env s c suffix at_ :
  service_sealed env (with_config s c) suffix at_
  = match at_ with
    | AtSetting setting => PlainCell (setting_look c suffix setting)
    | _ => service_sealed env s suffix at_
    end.
Proof. by destruct at_. Qed.

Lemma setting_look_json c c' suffix suffix' setting :
  setting_json c suffix setting = setting_json c' suffix' setting →
  setting_look c suffix setting = setting_look c' suffix' setting.
Proof. intros Heq. unfold setting_look. rewrite !setting_value_json, Heq. done. Qed.

(** A cell shown at a setting is what some configuration has there. *)
Lemma shown_setting setting cell config :
  shown (AtSetting setting) cell → settled_config config →
  (setting = SetPrivateDns → cell ≠ PlainCell Absent) →
  ∃ from, settled_config from
    ∧ (∀ suffix, cell = PlainCell (setting_look from suffix setting))
    ∧ (∀ suffix, put_value setting (to_redacted cell) = setting_json from suffix setting)
    ∧ match to_redacted cell with Absent | CellValue _ => True | _ => False end.
Proof.
  intros [Hm Hc] Hty Hdns.
  assert (∀ from suffix suffix', setting_json from suffix setting = setting_json from suffix' setting) as Hsuf.
  { intros. by destruct setting. }
  destruct Hc as [->|(from & suffix & Hf & ->)].
  - exists (default_config config). split_and!; [by apply default_settled| | |done].
    + intros suffix. unfold setting_look, at_default. rewrite setting_value_json.
      rewrite <-default_setting by (done || by intros ->; apply Hdns).
      rewrite (bool_decide_eq_true_2 (default_value (Setting_path setting)
        = default_value (Setting_path setting))) by done. by rewrite orb_true_r.
    + intros suffix. apply default_setting; [done|]. intros ->. by apply Hdns.
  - exists from. split_and!; [done| | |].
    + intros suffix'. f_equal. apply setting_look_json, Hsuf.
    + intros suffix'. simpl. rewrite put_value_look by done. apply Hsuf.
    + cbn [to_redacted]. unfold setting_look. by destruct (at_default _ _).
Qed.

(** The Service [s] of a document with one setting of [from]. *)
Definition with_setting_of (from : AuthoredServiceConfig) (setting : Setting)
    (s x : SavedServiceIntent) : SavedServiceIntent :=
  if decide (x = s) then with_config s (copy_setting s.(svc_id) setting from s.(svc_config)) else x.

Lemma put_setting_eq uuid env l s setting cell :
  ready env → service_of env l = Some s → shown (AtSetting setting) cell →
  put_sealed uuid env {| row_lineage := l; row_at := AtSetting setting |} cell
  = if bool_decide (setting = SetPrivateDns) && bool_decide (to_redacted cell = Absent)
    then Err (ConfigError_at (RowId_to_string {| row_lineage := l; row_at := AtSetting setting |})
                "Not a value this setting takes")
    else put_sealed uuid env {| row_lineage := l; row_at := AtSetting setting |} cell.
Proof.
  intros Ht Hs [Hm Hc]. destruct (bool_decide (setting = SetPrivateDns)) eqn:Hd; [|done].
  destruct (bool_decide (to_redacted cell = Absent)) eqn:Ha; [|done].
  apply bool_decide_eq_true in Hd as ->, Ha. unfold put_sealed, put_into. simpl. rewrite Hs, Ha.
  unfold put_setting. simpl. by rewrite no_service_name.
Qed.

Lemma put_setting_ok uuid env l s setting cell :
  ready env → service_of env l = Some s → shown (AtSetting setting) cell →
  (setting = SetPrivateDns → cell ≠ PlainCell Absent) →
  ∃ from, settled_config from ∧ (∀ suffix, cell = PlainCell (setting_look from suffix setting))
    ∧ put_sealed uuid env {| row_lineage := l; row_at := AtSetting setting |} cell
      = Ok (update_service env l (with_setting_of from setting s)).
Proof.
  intros Ht Hs Hsh Hdns. pose proof (typed_service_of _ _ _ Ht Hs) as [Hc _].
  destruct (shown_setting _ _ _ Hsh Hc Hdns) as (from & Hf & Hcell & Hval & Hplain).
  exists from. split_and!; [done|done|]. destruct Hsh as [Hm _].
  unfold put_sealed, put_into. cbn [row_at row_lineage]. rewrite Hs.
  assert (put_setting s setting (put_value setting (to_redacted cell))
          = Some (with_config s (copy_setting s.(svc_id) setting from s.(svc_config)))) as Hput.
  { unfold put_setting. rewrite (Hval ""), put_config_copy by (done || apply Hf). done. }
  specialize (Hcell ""). destruct cell as [c|secret]; [|done]. cbn [to_redacted] in *.
  unfold with_setting_of. rewrite <-update_service_const by done.
  destruct c; try done; cbn [result_bind]; cbn [put_value] in Hput; rewrite Hput; done.
Qed.

Lemma with_setting_of_same from setting s : 
  with_setting_of from setting s s = with_config s (copy_setting s.(svc_id) setting from s.(svc_config)).
Proof. unfold with_setting_of. by rewrite decide_True. Qed.

Lemma with_setting_of_at suffix env l s setting cell from :
  addressed env → ready env → service_of env l = Some s → movable setting = true →
  settled_config from → cell = PlainCell (setting_look from suffix setting) →
  put_at suffix l (AtSetting setting) cell env (update_service env l (with_setting_of from setting s)).
Proof.
  intros Hok Ht Hs Hm Hf ->. eapply put_service; [done|done|done| | | |].
  - intros x. unfold with_setting_of. case_decide; by subst.
  - rewrite with_setting_of_same. intros []. by split.
  - intros x [Hc Hv]. unfold with_setting_of. case_decide; [subst|by split].
    split; [|done]. by apply copy_settled.
  - intros at' Hp Hne. rewrite with_setting_of_same, with_config_sealed.
    destruct at' as [| | | |setting'| |]; try done. case_decide as Heq; simplify_eq.
    + f_equal. by apply setting_look_json, copy_same.
    + cbn [service_sealed service_look]. f_equal. apply setting_look_json, copy_other; naive_solver.
Qed.

Lemma put_setting_at uuid suffix env l setting cell env' :
  addressed env → ready env → shown (AtSetting setting) cell →
  put_sealed uuid env {| row_lineage := l; row_at := AtSetting setting |} cell = Ok env' →
  put_at suffix l (AtSetting setting) cell env env'.
Proof.
  intros Hok Ht Hsh Hput. destruct (service_of env l) as [s|] eqn:Hs.
  - rewrite (put_setting_eq _ _ _ s) in Hput by done.
    destruct (bool_decide (setting = _) && _) eqn:Hb; [done|].
    destruct (put_setting_ok uuid env l s setting cell) as (from & Hf & Hcell & Heq); [done..| |].
    { intros -> ->. done. }
    rewrite Hput in Heq. injection Heq as ->. apply with_setting_of_at; try done. apply Hsh.
  - unfold put_sealed, put_into in Hput. cbn [row_at row_lineage] in Hput. rewrite Hs in Hput.
    destruct cell as [c|]; [|done]. destruct c; try done. injection Hput as <-.
    apply put_nothing; [done..|]. unfold sealed_place. rewrite Hs. by destruct (volume_of env l).
Qed.

(** ** Mounts *)

Lemma find_filter_out {A} (key : A → string) k k' l :
  List.find (λ x, String.eqb (key x) k') (List.filter (λ x, negb (String.eqb (key x) k)) l)
  = if decide (k = k') then None else List.find (λ x, String.eqb (key x) k') l.
Proof.
  induction l as [|x l IH]; simpl; [by case_decide|].
  destruct (String.eqb_spec (key x) k) as [<-|Hne]; simpl; rewrite ?IH.
  - case_decide as Hd; [done|]. destruct (String.eqb_spec (key x) k'); done.
  - destruct (String.eqb_spec (key x) k'); [|done]. case_decide; congruence.
Qed.

Lemma find_snoc {A} (p : A → bool) l x :
  List.find p (l ++ [x]) = match List.find p l with Some y => Some y | None => if p x then Some x else None end.
Proof. induction l as [|y l IH]; simpl; [done|]. by destruct (p y). Qed.

(** Distinct lineages are distinct Volumes. *)
Lemma volume_ids_differ env l l' v v' :
  addressed env → volume_of env l = Some v → volume_of env l' = Some v' → l ≠ l' →
  v.(vol_resource_id) ≠ v'.(vol_resource_id).
Proof.
  intros Hok [Hv Hl]%volume_of_in [Hv' Hl']%volume_of_in Hne Heq. apply Hne.
  assert (v = v') as <-; [|congruence]. eapply (NoDup_map_inj vol_resource_id); [apply Hok|done..].
Qed.

Lemma mount_look_without env s id v l :
  addressed env → volume_of env l = Some v → v.(vol_resource_id) = id → ∀ l',
  mount_look env (without_mount id s) l' = if decide (l' = l) then Absent else mount_look env s l'.
Proof.
  intros Hok Hv <- l'. unfold mount_look. destruct (volume_of env l') as [v'|] eqn:Hv'; simpl.
  2: { case_decide; done. }
  rewrite (find_filter_out volume_resource_id). destruct (decide (l' = l)) as [->|Hl]; [ assert (v' = v) as -> by congruence; by rewrite decide_True|].
  rewrite decide_False; [done|]. intros Heq. by eapply (volume_ids_differ env l' l).
Qed.

Lemma mount_look_with env s id path v l :
  addressed env → volume_of env l = Some v → v.(vol_resource_id) = id → ∀ l',
  mount_look env (with_mount id path s) l'
  = if decide (l' = l) then CellValue (VString path) else mount_look env s l'.
Proof.
  intros Hok Hv <- l'. unfold mount_look. destruct (volume_of env l') as [v'|] eqn:Hv'; simpl.
  2: { case_decide; [congruence|done]. }
  rewrite find_snoc, (find_filter_out volume_resource_id). simpl. case_decide as Heq.
  - rewrite Heq, String.eqb_refl. rewrite decide_True; [done|].
    destruct (decide (l' = l)) as [|Hl]; [done|]. exfalso. symmetry in Heq. by eapply (volume_ids_differ env l' l).
  - rewrite decide_False; [|intros ->; congruence].
    destruct (List.find _ _) as [a|]; [done|]. by destruct (String.eqb_spec (vol_resource_id v) (vol_resource_id v')).
Qed.

Lemma without_mount_addressed ids id s : service_addressed ids s → service_addressed ids (without_mount id s).
Proof.
  intros [Hk Hm Ha]. split; [done|by apply NoDup_map_filter|].
  intros a [Hin _]%elem_of_filterb. by apply Ha.
Qed.

Lemma with_mount_addressed ids id path s :
  id ∈ ids → service_addressed ids s → service_addressed ids (with_mount id path s).
Proof.
  intros Hid Hs. pose proof (without_mount_addressed ids id s Hs) as [_ Hm Ha]. split; [apply Hs| |].
  - simpl. rewrite map_app. apply NoDup_app. split_and!; [done| |apply NoDup_singleton].
    simpl. intros x (a & -> & [_ Hne]%elem_of_filterb)%list_elem_of_fmap Heq%list_elem_of_singleton.
    by rewrite Heq, String.eqb_refl in Hne.
  - simpl. intros a [Hin| ->%list_elem_of_singleton]%elem_of_app; [by apply Ha|done].
Qed.

Lemma put_mount_at uuid suffix env l vl cell env' :
  addressed env → ready env → shown (AtMount vl) cell →
  put_sealed uuid env {| row_lineage := l; row_at := AtMount vl |} cell = Ok env' →
  put_at suffix l (AtMount vl) cell env env'.
Proof.
  intros Hok Ht Hsh Hput. unfold put_sealed, put_into in Hput. cbn [row_at row_lineage] in Hput.
  destruct (service_of env l) as [s|] eqn:Hs.
  2: { destruct Hsh as [->|(path & ->)]; simpl in Hput; [|done]. injection Hput as <-.
       apply put_nothing; [done..|]. unfold sealed_place. rewrite Hs. by destruct (volume_of env l). }
  destruct (volume_of env vl) as [v|] eqn:Hv.
  2: { destruct Hsh as [->|(path & ->)]; simpl in Hput; [|done]. injection Hput as <-.
       apply put_nothing; [done..|]. unfold sealed_place. rewrite Hs. simpl. unfold mount_look.
       by rewrite Hv. }
  assert (∀ f, keeps_lineage f → (∀ x, f x = with_attachments x (f x).(svc_volume_attachments)) →
    (service_addressed (map vol_resource_id env.(env_volumes)) s →
     service_addressed (map vol_resource_id env.(env_volumes)) (f s)) →
    (∀ l', PlainCell (mount_look env (f s) l')
           = if decide (l' = vl) then cell else PlainCell (mount_look env s l')) →
    put_at suffix l (AtMount vl) cell env (update_service env l f)) as Hstep.
  { intros f Hl Hf Had Hm. eapply put_service; [done|done|done| |done| |].
    - intros x. rewrite Hf. done.
    - intros x []. rewrite Hf. by split.
    - intros at' Hp _. destruct at' as [| | | | |l'|]; try (rewrite Hf; by rewrite decide_False).
      simpl. rewrite Hm. destruct (decide (l' = vl)), (decide (AtMount l' = AtMount vl)); congruence. }
  destruct Hsh as [->|(path & ->)]; simpl in Hput; injection Hput as <-.
  - apply Hstep; [done|done|apply without_mount_addressed|].
    intros l'. erewrite mount_look_without by done. by case_decide.
  - apply Hstep; [done|done| |].
    + apply with_mount_addressed. apply list_elem_of_fmap_2. by apply volume_of_in in Hv as [? _].
    + intros l'. erewrite mount_look_with by done. by case_decide.
Qed.

(** ** Variables *)

(** A variable's cell is read back as its value and fingerprint. *)
Lemma plain_variable variable :
  typed_variable_value variable.(var_value) →
  match variable_cell variable with
  | CellValue value => plain value = Some (variable.(var_value), variable.(var_value_fingerprint))
  | _ => True
  end.
Proof.
  intros Ht. unfold variable_cell. destruct (var_value variable) as [text|parts| |] eqn:Hv; try done.
  - unfold plain. cbn [SavedVariableValue_json]. rewrite bget_binsert_eq.
    change (bremove "fingerprint" _) with [("kind", VString "literal"); ("value", VString text)].
    cbn [mbind option_bind].
    rewrite (read_variable_value (VariableLiteral text)); done.
  - unfold plain. cbn [SavedVariableValue_json]. rewrite bget_binsert_eq.
    change (bremove "fingerprint" _) with [("kind", VString "template"); ("parts", VArray (map ValuePart_json parts))].
    cbn [mbind option_bind].
    rewrite (read_variable_value (VariableTemplate parts)); done.
Qed.

Lemma has_key_true key v : has_key key v = true ↔ v.(var_key) = key.
Proof. apply String.eqb_eq. Qed.

Lemma find_filter_key key key' vs :
  List.find (has_key key') (List.filter (λ v, negb (has_key key v)) vs)
  = if decide (key = key') then None else List.find (has_key key') vs.
Proof. apply (find_filter_out var_key). Qed.

(** The variable at a key after it was put there. *)
Definition has_put (value : SavedVariableValue) (fingerprint : string) (v : SavedVariableIntent) : Prop :=
  v.(var_value) = value ∧ v.(var_value_fingerprint) = fingerprint.

Lemma put_variable_find uuid key value fingerprint s key' :
  if decide (key' = key)
  then ∃ v, List.find (has_key key') (put_variable uuid key value fingerprint s).(svc_variables) = Some v
            ∧ has_put value fingerprint v
  else List.find (has_key key') (put_variable uuid key value fingerprint s).(svc_variables)
       = List.find (has_key key') s.(svc_variables).
Proof.
  unfold put_variable. destruct (List.find (has_key key) _) as [v|] eqn:Hf; simpl.
  - pose proof (find_update_first var_key key key'
      (λ v, set_var_fingerprint fingerprint (set_var_value value v)) s.(svc_variables) (λ _, eq_refl)) as Hu.
    change (λ y, String.eqb (var_key y) key) with (has_key key) in Hu.
    change (λ y, String.eqb (var_key y) key') with (has_key key') in Hu. rewrite Hu, Hf.
    case_decide as Hk; [|by rewrite decide_False by congruence].
    rewrite decide_True by done. eexists. by split.
  - rewrite find_snoc.
    assert (has_key key' (new_variable uuid key fingerprint value) = String.eqb key key') as -> by done.
    case_decide as Hk.
    + subst. rewrite Hf, String.eqb_refl. eexists. by split.
    + destruct (List.find (has_key key') _); [done|]. by destruct (String.eqb_spec key key').
Qed.

Lemma put_variable_addressed ids uuid key value fingerprint s :
  service_addressed ids s → service_addressed ids (put_variable uuid key value fingerprint s).
Proof.
  intros [Hk Hm Ha]. unfold put_variable. destruct (List.find _ _) as [v|] eqn:Hf; split; try done; simpl.
  - by rewrite map_update_first.
  - rewrite map_app. apply NoDup_app. split_and!; [done| |apply NoDup_singleton].
    intros k Hin Hk'%list_elem_of_singleton. subst k. by apply (find_key_None var_key) in Hf.
Qed.

Lemma put_variable_typed uuid key value fingerprint s :
  typed_variable_value value → ready_service s → ready_service (put_variable uuid key value fingerprint s).
Proof.
  intros Hv [Hc Hvs]. unfold put_variable. destruct (List.find _ _); split; try done; simpl.
  - by apply Forall_update_first.
  - apply Forall_app. split; [done|]. by constructor.
Qed.

Lemma update_service_twice env l f g :
  keeps_lineage f →
  update_service (update_service env l f) l g = update_service env l (λ s, g (f s)).
Proof.
  intros Hf. unfold update_service, with_services. simpl. f_equal.
  induction (env_services env) as [|x xs IH]; simpl; [done|].
  destruct (String.eqb (svc_lineage_id x) l) eqn:Hx; simpl; rewrite ?Hf, Hx; [done|]. by rewrite IH.
Qed.

(** What a variable's cell puts: its value, a secret without it. *)
Definition put_of (variable : SavedVariableIntent) : SavedVariableValue * string :=
  match variable.(var_value) with
  | VariableSecret _ => (VariableSecret None, variable.(var_value_fingerprint))
  | VariableSecretWithoutValue => (VariableSecretWithoutValue, "")
  | value => (value, variable.(var_value_fingerprint))
  end.

(** The Service with the variable [variable] says, its secret's value included. *)
Definition with_variable_of (uuid key : string) (variable : SavedVariableIntent)
    (s : SavedServiceIntent) : SavedServiceIntent :=
  let s := put_variable uuid key (put_of variable).1 (put_of variable).2 s in
  match variable.(var_value) with
  | VariableSecret (Some value) => update_variable key (set_var_value (VariableSecret (Some value))) s
  | _ => s
  end.

Lemma with_variable_of_kept uuid key variable s :
  with_variable_of uuid key variable s
  = with_variables s (with_variable_of uuid key variable s).(svc_variables).
Proof.
  unfold with_variable_of, put_variable. destruct (List.find (has_key key) (svc_variables s));
    destruct (var_value variable) as [| |[]|]; reflexivity.
Qed.

Lemma put_sealed_variable uuid env l s key variable :
  service_of env l = Some s → typed_variable_value variable.(var_value) →
  put_sealed uuid env {| row_lineage := l; row_at := AtVariable key |} (sealed_variable variable)
  = Ok (update_service env l (with_variable_of uuid key variable)).
Proof.
  intros Hs Hv. pose proof (plain_variable variable Hv) as Hp.
  assert (to_redacted (sealed_variable variable) = variable_cell variable) as Hred.
  { unfold sealed_variable, variable_cell. by destruct (var_value variable) as [| |[]|]. }
  unfold put_sealed, put_into. rewrite Hred. cbn [row_at row_lineage]. rewrite Hs.
  assert (variable_put {| row_lineage := l; row_at := AtVariable key |} (variable_cell variable)
          = Ok (Some (put_of variable))) as ->.
  { unfold put_of. unfold variable_cell in *. destruct (var_value variable) as [| |[]|]; try done;
      cbn [variable_put]; rewrite Hp; done. }
  cbn [result_bind]. unfold sealed_variable, with_variable_of, put_of.
  destruct (var_value variable) as [| |[value|]|]; try done. cbn [fst snd secret_value].
  rewrite update_service_twice; [done|]. intros x. unfold put_variable. by destruct (List.find _ _).
Qed.

Lemma with_variable_of_find uuid key variable s key' :
  if decide (key' = key)
  then ∃ v, List.find (has_key key') (with_variable_of uuid key variable s).(svc_variables) = Some v
            ∧ sealed_variable v = sealed_variable variable
  else List.find (has_key key') (with_variable_of uuid key variable s).(svc_variables)
       = List.find (has_key key') s.(svc_variables).
Proof.
  pose proof (put_variable_find uuid key (put_of variable).1 (put_of variable).2 s key') as Hf.
  unfold with_variable_of. set (s1 := put_variable _ _ _ _ _) in *.
  assert (∀ value, List.find (has_key key') (update_variable key (set_var_value value) s1).(svc_variables)
     = if decide (key = key') then set_var_value value <$> List.find (has_key key) s1.(svc_variables)
       else List.find (has_key key') s1.(svc_variables)) as Hu.
  { intros value. apply (find_update_first var_key). done. }
  destruct (decide (key' = key)) as [->|Hk].
  - destruct Hf as (v & Hf & Hval & Hfp). unfold put_of in Hval, Hfp.
    unfold sealed_variable, variable_cell.
    destruct (var_value variable) as [| |[value|]|] eqn:Hv; simpl in *;
      try (exists v; split; [done|]; rewrite Hval, ?Hfp; done).
    rewrite Hu, decide_True, Hf by done. eexists. split; [done|]. simpl. by rewrite Hfp.
  - rewrite <-Hf. destruct (var_value variable) as [| |[value|]|]; try done.
    rewrite Hu, decide_False by congruence. done.
Qed.

Lemma with_variable_of_addressed ids uuid key variable s :
  service_addressed ids s → service_addressed ids (with_variable_of uuid key variable s).
Proof.
  intros Hs. unfold with_variable_of. pose proof (put_variable_addressed ids uuid key
    (put_of variable).1 (put_of variable).2 s Hs) as Hp.
  destruct (var_value variable) as [| |[value|]|]; try done. destruct Hp. split; try done. simpl.
  by rewrite map_update_first.
Qed.

Lemma with_variable_of_typed uuid key variable s :
  typed_variable_value variable.(var_value) → ready_service s →
  ready_service (with_variable_of uuid key variable s).
Proof.
  intros Hv Hs. unfold with_variable_of.
  assert (ready_service (put_variable uuid key (put_of variable).1 (put_of variable).2 s)) as Hp.
  { apply put_variable_typed; [|done]. unfold put_of. by destruct (var_value variable). }
  destruct (var_value variable) as [| |[value|]|]; try done. destruct Hp. split; [done|]. simpl.
  by apply Forall_update_first.
Qed.

Lemma put_variable_at uuid suffix env l key cell env' :
  addressed env → ready env → shown (AtVariable key) cell →
  put_sealed uuid env {| row_lineage := l; row_at := AtVariable key |} cell = Ok env' →
  put_at suffix l (AtVariable key) cell env env'.
Proof.
  intros Hok Ht Hsh Hput. destruct (service_of env l) as [s|] eqn:Hs.
  2: { unfold put_sealed, put_into in Hput. cbn [row_at row_lineage] in Hput. rewrite Hs in Hput.
       assert (cell = PlainCell Absent ∧ env' = env) as [-> ->].
       { destruct Hsh as [->|(v & _ & ->)]; [by injection Hput as <-|exfalso].
         unfold sealed_variable, variable_cell in Hput. by destruct (var_value v) as [| |[]|]. }
       apply put_nothing; [done..|]. unfold sealed_place. rewrite Hs. by destruct (volume_of env l). }
  destruct Hsh as [->|(v & Hv & ->)].
  - unfold put_sealed, put_into in Hput. simpl in Hput. rewrite Hs in Hput. injection Hput as <-.
    eapply put_service; [done|done|done|done| | |].
    + intros []. split; try done. by apply NoDup_map_filter.
    + intros x [Hc Hvs]. split; [done|]. simpl. apply Forall_forall.
      intros y [Hy _]%elem_of_filterb. by eapply Forall_forall in Hvs.
    + intros at' Hp _. destruct at' as [| | | | | |key']; try by rewrite decide_False.
      simpl. rewrite find_filter_key.
      destruct (decide (key = key')), (decide (AtVariable key' = AtVariable key)); congruence.
  - rewrite (put_sealed_variable _ _ _ s) in Hput by done. injection Hput as <-.
    eapply put_service; [done|done|done| | | |].
    + intros x. rewrite with_variable_of_kept. done.
    + apply with_variable_of_addressed.
    + intros x. by apply with_variable_of_typed.
    + intros at' Hp _.
      destruct at' as [| | | | | |key']; try (rewrite with_variable_of_kept; by rewrite decide_False).
      simpl. pose proof (with_variable_of_find uuid key v s key') as Hf.
      destruct (decide (key' = key)) as [->|Hk].
      * destruct Hf as (v' & -> & ->). by rewrite decide_True by congruence.
      * rewrite Hf. rewrite decide_False by congruence. done.
Qed.

(** ** Volumes *)

Lemma put_volume suffix l at_ cell env f v :
  addressed env → ready env → volume_of env l = Some v →
  (∀ v, (f v).(vol_resource_lineage_id) = v.(vol_resource_lineage_id)
        ∧ (f v).(vol_resource_id) = v.(vol_resource_id)) →
  (∀ v, typed_storage v.(vol_storage) → typed_storage (f v).(vol_storage)) →
  (∀ at', is_place at' = true →
     PlainCell (volume_look (f v) at') = if decide (at' = at_) then cell else PlainCell (volume_look v at')) →
  put_at suffix l at_ cell env (update_volume env l f).
Proof.
  intros Hok Ht Hv Hkeep Hty Hpl.
  assert (∀ l', vol_resource_id <$> volume_of (update_volume env l f) l'
                = vol_resource_id <$> volume_of env l') as Hids.
  { intros l'. rewrite volume_of_update by apply Hkeep. case_decide; [subst|done].
    destruct (volume_of env l'); simpl; [|done]. f_equal. apply Hkeep. }
  split.
  - apply addressed_update_volume; [apply Hkeep..|done].
  - by apply typed_update_volume.
  - unfold frame. simpl. rewrite !(map_update_first _ _ f) by (intros x; apply Hkeep). done.
  - intros l' at' Hp Hne. unfold sealed_place at 1.
    change (service_of (update_volume env l f) l') with (service_of env l').
    destruct (service_of env l') as [s|] eqn:Hs.
    + rewrite decide_False by (intros [-> _]; by eapply lineage_kinds).
      unfold sealed_place. rewrite Hs. destruct at'; try done. simpl. unfold mount_look.
      by rewrite Hids.
    + rewrite volume_of_update by apply Hkeep. unfold sealed_place. rewrite Hs. case_decide as Hll.
      * subst l'. rewrite Hv. simpl. rewrite Hpl by done.
        destruct (decide (at' = at_)), (decide (l = l ∧ at' = at_)); naive_solver.
      * by rewrite decide_False by naive_solver.
Qed.

Lemma put_volume_at uuid suffix env l at_ cell env' :
  at_ = AtName ∨ at_ = AtStorage →
  addressed env → ready env → shown at_ cell →
  put_sealed uuid env {| row_lineage := l; row_at := at_ |} cell = Ok env' →
  put_at suffix l at_ cell env env'.
Proof.
  intros Hat Hok Ht Hsh Hput. unfold put_sealed, put_into in Hput. cbn [row_at row_lineage] in Hput.
  destruct (volume_of env l) as [v|] eqn:Hv.
  2: { assert (cell = PlainCell Absent ∧ env' = env) as [-> ->].
       { destruct Hat as [-> | ->]; destruct Hsh as [->|Hsh]; try (by injection Hput as <-);
           [destruct Hsh as (? & ->)|destruct Hsh as (? & ? & ->)]; done. }
       apply put_nothing; [done..|]. unfold sealed_place. rewrite Hv.
       destruct (service_of env l); by destruct Hat as [-> | ->]. }
  destruct Hat as [-> | ->]; destruct Hsh as [->|Hsh]; try done.
  - destruct Hsh as (name & ->). simpl in Hput. rewrite read_string in Hput. injection Hput as <-.
    eapply put_volume; [done..|]. intros at' _. by destruct at'.
  - destruct Hsh as (storage & Hst & ->). simpl in Hput. rewrite read_storage in Hput by done.
    injection Hput as <-. eapply put_volume; [done..|]. intros at' _. by destruct at'.
Qed.

(** ** Any place *)

Theorem put_place_at uuid suffix env l at_ cell env' :
  addressed env → ready env → shown at_ cell →
  put_sealed uuid env {| row_lineage := l; row_at := at_ |} cell = Ok env' →
  put_at suffix l at_ cell env env'.
Proof.
  intros Hok Ht Hsh Hput. destruct at_; [done|done|eapply put_volume_at; eauto..| | |].
  - by eapply put_setting_at.
  - by eapply put_mount_at.
  - by eapply put_variable_at.
Qed.

(** ** The git branch of a source *)

Definition git_cell (cell : Cell) : bool :=
  match cell with
  | CellValue (VObject fields) => bool_decide (bget fields "type" = Some (VString "git"))
  | _ => false
  end.

(** A git source keeps the branch the Service has, else has none yet. *)
Definition branch_after (source branch : Cell) : Cell :=
  if git_cell source then
    match branch with
    | Absent => CellValue (ServiceGitBranch_json (BranchDisconnected None))
    | _ => branch
    end
  else Absent.

Definition is_git (source : ServiceSource) : bool :=
  match source with SourceGit _ _ _ _ _ _ => true | _ => false end.

Lemma git_cell_look config suffix :
  git_cell (setting_look config suffix SetSource) = is_git config.(sc_source).
Proof.
  unfold setting_look, at_default. rewrite setting_value_json. cbn [setting_json].
  destruct (sc_source config); simpl; repeat case_bool_decide; try done.
Qed.

Lemma branch_look config suffix :
  setting_look config suffix SetBranch
  = match config.(sc_source) with
    | SourceGit _ _ _ _ _ branch => CellValue (ServiceGitBranch_json branch)
    | _ => Absent
    end.
Proof.
  unfold setting_look, at_default. rewrite setting_value_json. cbn [setting_json].
  destruct (sc_source config) as [|? ? ? ? ? b|]; try done. by destruct b.
Qed.

Lemma put_source_branch uuid suffix env l cell env' :
  addressed env → ready env → shown (AtSetting SetSource) cell →
  put_sealed uuid env {| row_lineage := l; row_at := AtSetting SetSource |} cell = Ok env' →
  sealed_place env' suffix l (AtSetting SetBranch)
  = PlainCell (branch_after (to_redacted cell)
                 (to_redacted (sealed_place env suffix l (AtSetting SetBranch)))).
Proof.
  intros Hok Ht Hsh Hput. destruct (service_of env l) as [s|] eqn:Hs.
  - destruct (put_setting_ok uuid env l s SetSource cell) as (from & Hf & Hcell & Heq); [done..|].
    rewrite Hput in Heq. injection Heq as ->. unfold sealed_place. rewrite service_of_update.
    2: { intros x. unfold with_setting_of. case_decide; by subst. }
    rewrite decide_True, Hs by done. simpl. rewrite with_setting_of_same, (Hcell "").
    cbn [svc_config with_config service_sealed service_look to_redacted]. rewrite !branch_look.
    unfold branch_after. rewrite git_cell_look. f_equal. cbn [copy_setting sc_source set_source].
    by destruct (sc_source from), (sc_source (svc_config s)).
  - unfold put_sealed, put_into in Hput. cbn [row_at row_lineage] in Hput. rewrite Hs in Hput.
    destruct cell as [c|]; [|done]. destruct c; try done. injection Hput as <-.
    unfold sealed_place. rewrite Hs. by destruct (volume_of env l).
Qed.
End Put.
