(* ===== verification/SyncLand.v ===== *)
(** * Landing: new nodes, then their places

    What adding a node to a document does to its places, what a node the sender has
    and the receiver lacks arrives with, and the steps of a landing. *)

From S2P Require Import Prelude BTree Strings Decimal Values Spec RuntimeOutcome Config.
From S2P Require Import ConfigValidation ConfigSpec ConfigJson SyncRows SyncPut SyncPlan SyncLens.
From S2P Require Import SyncLaws.

Open Scope string_scope.
Open Scope nat_scope.
Open Scope list_scope.

(** ** A new node *)

Section Adding.
Context `{ConfigCrates, JsonFloat}.
Implicit Types (env : SavedEnvironmentIntent).

Lemma lineages_of env l :
  l ∉ lineages env → service_of env l = None ∧ volume_of env l = None.
Proof. unfold lineages. rewrite not_elem_of_app. intros [? ?]. by split; apply find_key_None. Qed.

Lemma service_of_add env s l :
  service_of (add_service s env) l
  = match service_of env l with
    | Some s' => Some s'
    | None => if String.eqb s.(svc_lineage_id) l then Some s else None
    end.
Proof. exact (find_snoc (λ s, String.eqb s.(svc_lineage_id) l) _ s). Qed.

Lemma volume_of_add env v l :
  volume_of (add_volume v env) l
  = match volume_of env l with
    | Some v' => Some v'
    | None => if String.eqb v.(vol_resource_lineage_id) l then Some v else None
    end.
Proof. exact (find_snoc (λ v, String.eqb v.(vol_resource_lineage_id) l) _ v). Qed.

Lemma add_service_addressed env s :
  addressed env → s.(svc_lineage_id) ∉ lineages env →
  service_addressed (map vol_resource_id env.(env_volumes)) s → addressed (add_service s env).
Proof.
  intros [Hl Hv Hs] Hnew Had. split; [|done|].
  - unfold lineages in *. simpl. rewrite map_app. simpl. rewrite <-app_assoc. simpl.
    rewrite <-Permutation_middle. by constructor.
  - simpl. apply Forall_app. split; [done|]. by constructor.
Qed.

Lemma add_volume_addressed env v :
  addressed env → v.(vol_resource_lineage_id) ∉ lineages env →
  v.(vol_resource_id) ∉ map vol_resource_id env.(env_volumes) → addressed (add_volume v env).
Proof.
  intros [Hl Hv Hs] Hnew Hid. split.
  - unfold lineages in *. simpl. rewrite map_app, app_assoc. simpl.
    rewrite (Permutation_app_comm _ [_]). by constructor.
  - simpl. rewrite map_app. simpl. rewrite (Permutation_app_comm _ [_]). by constructor.
  - simpl. eapply Forall_impl; [exact Hs|]. intros s [Hk Hm Ha]. split; [done|done|].
    intros a Hin. rewrite map_app. apply elem_of_app. left. by apply Ha.
Qed.

Lemma add_service_place env s suffix l at_ :
  s.(svc_lineage_id) ∉ lineages env →
  sealed_place (add_service s env) suffix l at_
  = if decide (l = s.(svc_lineage_id)) then service_sealed env s suffix at_
    else sealed_place env suffix l at_.
Proof.
  intros Hnew. unfold sealed_place. rewrite service_of_add. case_decide as Hl.
  - subst l. destruct (lineages_of _ _ Hnew) as [-> _]. by rewrite String.eqb_refl.
  - destruct (service_of env l); [done|]. by destruct (String.eqb_spec (svc_lineage_id s) l).
Qed.

(** No Service mounts a Volume that was not there. *)
Lemma add_volume_mounts env v s l :
  addressed env → s ∈ env.(env_services) → v.(vol_resource_lineage_id) ∉ lineages env →
  v.(vol_resource_id) ∉ map vol_resource_id env.(env_volumes) →
  mount_look (add_volume v env) s l = mount_look env s l.
Proof.
  intros Hok Hs Hnew Hid. unfold mount_look. rewrite volume_of_add.
  destruct (volume_of env l) as [v'|] eqn:Hv; [done|].
  destruct (String.eqb_spec (vol_resource_lineage_id v) l) as [Hl|]; [|done]. simpl.
  destruct (List.find _ _) as [a|] eqn:Hf; [|done]. exfalso.
  apply find_Some_elem in Hf as [Ha Hai%String.eqb_eq]. apply Hid. rewrite <-Hai.
  by eapply (addressed_service _ _ Hok Hs).
Qed.

Lemma add_volume_place env v suffix l at_ :
  addressed env → v.(vol_resource_lineage_id) ∉ lineages env →
  v.(vol_resource_id) ∉ map vol_resource_id env.(env_volumes) →
  sealed_place (add_volume v env) suffix l at_
  = if decide (l = v.(vol_resource_lineage_id)) then PlainCell (volume_look v at_)
    else sealed_place env suffix l at_.
Proof.
  intros Hok Hnew Hid. unfold sealed_place.
  change (service_of (add_volume v env) l) with (service_of env l). rewrite volume_of_add.
  case_decide as Hl.
  - subst l. destruct (lineages_of _ _ Hnew) as [-> ->]. by rewrite String.eqb_refl.
  - destruct (service_of env l) as [s|] eqn:Hs.
    + apply service_of_in in Hs as [Hs _]. destruct at_; try done. simpl. f_equal.
      by apply add_volume_mounts.
    + destruct (volume_of env l); [done|]. by destruct (String.eqb_spec (vol_resource_lineage_id v) l).
Qed.

Lemma add_service_ready env s : ready env → ready_service s → ready (add_service s env).
Proof. intros [] Hs. split; simpl; [done| |done]. apply Forall_app. split; [done|]. by constructor. Qed.

Lemma add_volume_ready env v : ready env → typed_storage v.(vol_storage) → ready (add_volume v env).
Proof. intros [] Hs. split; simpl; [done|done|]. apply Forall_app. split; [done|]. by constructor. Qed.
End Adding.

(** ** What a new node arrives with *)

Lemma rehost_cell hostnames hostname :
  managed_cell hostnames.(hosts_into) (rehost hostnames hostname)
  = managed_cell hostnames.(hosts_from) hostname.
Proof. unfold managed_cell, rehost. simpl. by rewrite strip_suffix_app. Qed.

(** The configuration a new node starts with. *)
Definition arriving_config (hostnames : Hostnames) (uuid : string) (config : AuthoredServiceConfig)
    : AuthoredServiceConfig :=
  let default := default_config config in
  {| sc_version := config.(sc_version); sc_source := own_credential uuid config.(sc_source);
     sc_pre_deploy_command := default.(sc_pre_deploy_command);
     sc_start_command := default.(sc_start_command); sc_healthcheck := default.(sc_healthcheck);
     sc_restart_policy := default.(sc_restart_policy); sc_max_retries := default.(sc_max_retries);
     sc_replicas := default.(sc_replicas); sc_cpu_limit := default.(sc_cpu_limit);
     sc_mem_limit := default.(sc_mem_limit); sc_private_dns := config.(sc_private_dns);
     sc_routes := []; sc_managed_hostnames := map (rehost hostnames) config.(sc_managed_hostnames);
     sc_build := default.(sc_build); sc_template := config.(sc_template) |}.

Definition arriving_service (hostnames : Hostnames) (uuid : string) (source : SavedServiceIntent)
    : SavedServiceIntent :=
  {| svc_id := uuid; svc_lineage_id := source.(svc_lineage_id); svc_slug := source.(svc_slug);
     svc_config := arriving_config hostnames uuid source.(svc_config); svc_variables := [];
     svc_volume_attachments := [] |}.

Section Arriving.
Context `{ConfigCrates, JsonFloat, ConfigDecoders, !DecoderLaws}.

Lemma reset_setting_ok service setting :
  typed_config service.(svc_config) → movable setting = true → setting ≠ SetPrivateDns →
  reset_setting service setting
  = Ok (with_config service (copy_setting service.(svc_id) setting (default_config service.(svc_config))
                               service.(svc_config))).
Proof.
  intros Ht Hm Hd. unfold reset_setting, put_setting.
  rewrite (default_setting service.(svc_config) "" setting), put_config_copy; try done.
  by apply default_typed.
Qed.

(** Resetting a new node's settings never fails. *)
Lemma introduced_service_ok hostnames uuid source :
  typed_config source.(svc_config) →
  introduced_service hostnames uuid source = Ok (arriving_service hostnames uuid source).
Proof.
  intros Ht. unfold introduced_service.
  change (List.filter (λ s, negb (Setting_carried s)) Setting_ALL) with
    [SetPreDeployCommand; SetStartCommand; SetHealthcheck; SetRestartPolicy; SetMaxRetries;
     SetReplicas; SetCpuLimit; SetMemLimit; SetBuildMethod; SetDockerfilePath; SetBuildCommand].
  assert (∀ settings s, typed_config s.(svc_config) →
    Forall (λ x, movable x = true ∧ x ≠ SetPrivateDns) settings →
    try_fold reset_setting settings s
    = Ok (with_config s (fold_left (λ c x, copy_setting s.(svc_id) x (default_config c) c) settings
                           s.(svc_config)))) as Hfold.
  { intros settings. induction settings as [|x settings IH]; intros s Hs Hall; simpl; [by destruct s|].
    apply Forall_cons in Hall as [[Hm Hd] Hall]. rewrite reset_setting_ok by done. cbn [result_bind].
    rewrite IH; [done| |done]. apply copy_typed; [by apply default_typed|done]. }
  rewrite Hfold; [|done|by repeat constructor]. cbn [result_bind].
  unfold arriving_service, arriving_config. destruct source as [? ? ? [] ? ?]. reflexivity.
Qed.

Lemma own_credential_cell uuid source : source_cell (own_credential uuid source) = source_cell source.
Proof. by destruct source as [| |? ? []]. Qed.

(** It arrives with what it needs to exist, and nothing else. *)
Lemma arriving_look hostnames uuid config setting :
  setting_look (arriving_config hostnames uuid config) hostnames.(hosts_into) setting
  = if At_needed (AtSetting setting) then setting_look config hostnames.(hosts_from) setting else Absent.
Proof.
  destruct setting; try reflexivity;
    change (At_needed _) with true; cbn iota; apply setting_look_json; cbn [setting_json arriving_config
      sc_source sc_managed_hostnames sc_private_dns]; try done.
  - apply own_credential_cell.
  - by destruct (sc_source config) as [| |? ? []].
  - rewrite map_map. f_equal. apply map_ext. apply rehost_cell.
Qed.

Lemma arriving_sealed env hostnames uuid source at_ :
  is_place at_ = true →
  service_sealed env (arriving_service hostnames uuid source) hostnames.(hosts_into) at_
  = if At_needed at_
    then PlainCell (service_look env source hostnames.(hosts_from) at_)
    else PlainCell Absent.
Proof.
  intros Hp. destruct at_ as [| | | |setting|l|]; try done.
  - cbn [service_sealed service_look arriving_service svc_config]. rewrite arriving_look.
    by destruct (At_needed _).
  - cbn. f_equal. unfold mount_look. by destruct (volume_of env l).
Qed.

(** Generated addresses stay addresses under a suffix of host characters. *)
Lemma arriving_settled hostnames uuid config :
  bytes_all is_host_byte hostnames.(hosts_into) = true → settled_config config →
  settled_config (arriving_config hostnames uuid config).
Proof.
  intros Hsuf Hc. pose proof (default_settled _ Hc) as Hd. destruct Hc as [Ht Hs _ _ _ _ _ _ Hh].
  split; try apply Hd; simpl.
  - destruct Ht. split; try done; simpl.
    + by destruct (sc_source config) as [| |? ? []].
    + apply Forall_map. eapply Forall_impl; [exact tc_hostnames|]. done.
  - by destruct (sc_source config) as [| |? ? []].
  - apply Forall_map. eapply Forall_impl; [exact Hh|]. intros h Hb. simpl in *. rewrite bytes_all_app, Hsuf.
    destruct (strip_suffix _ _) as [p|] eqn:Hp; simpl; [|by rewrite Hb].
    apply strip_suffix_Some in Hp. rewrite Hp, bytes_all_app in Hb. apply andb_true_iff in Hb as [-> _].
    done.
Qed.
End Arriving.
