(* ===== verification/SyncVerdicts.v ===== *)
(** * Which rows move

    The rows of a plan read off the two sides: what a row that moves compares, where
    it is, and what it requires; and what each way of travelling lets through. *)

From S2P Require Import Prelude BTree Strings Decimal Values Spec RuntimeOutcome Config.
From S2P Require Import ConfigValidation ConfigJson SyncRows SyncPut SyncPlan SyncLens SyncLaws.

Open Scope string_scope.
Open Scope nat_scope.
Open Scope list_scope.

(** ** The places of a node *)

Lemma elem_of_take_while {A} (p : A → bool) l x :
  x ∈ take_while p l → x ∈ l ∧ p x = true.
Proof.
  induction l as [|y l IH]; simpl; [set_solver|]. destruct (p y) eqn:Hp; [|set_solver].
  intros [->|Hx]%elem_of_cons; [set_solver|]. apply IH in Hx. set_solver.
Qed.

Lemma elem_of_skip_while {A} (p : A → bool) l x : x ∈ skip_while p l → x ∈ l.
Proof. induction l as [|y l IH]; simpl; [done|]. destruct (p y); [|done]. intros ?%IH. set_solver. Qed.

Lemma skip_while_keeps {A} (p : A → bool) l x : x ∈ l → p x = false → x ∈ skip_while p l.
Proof.
  intros Hx Hp. induction l as [|y l IH]; simpl; [set_solver|]. destruct (p y) eqn:Hy; [|done].
  apply elem_of_cons in Hx as [->|Hx]; [congruence|auto].
Qed.

Lemma take_while_keeps {A} (p : A → bool) l1 x l2 :
  Forall (λ y, p y = true) l1 → p x = true → x ∈ take_while p (l1 ++ x :: l2).
Proof.
  intros Hl Hx. induction Hl as [|y l1 Hy Hl IH]; simpl; [rewrite Hx; set_solver|].
  rewrite Hy. set_solver.
Qed.

(** The rows of a lineage are together, its node first. *)
Lemma row_between l a x at_ :
  key_le (RowId_node l) x = true → cmp x {| row_lineage := l; row_at := at_ |} = Lt →
  a = row_lineage x → a = l.
Proof.
  intros H1 H2 ->. unfold key_le, cmp, RowId_ord, RowId_key, cmp, prod_ord in *. simpl in *.
  rewrite (cmp_opp (row_lineage x) l) in H1.
  destruct (cmp (row_lineage x) l) eqn:Hc; simpl in *; [by apply cmp_Eq|done|done].
Qed.

Lemma node_first l at_ : key_le (RowId_node l) {| row_lineage := l; row_at := at_ |} = true.
Proof.
  unfold key_le, cmp, RowId_ord, RowId_key, cmp, prod_ord. simpl. rewrite cmp_refl.
  by destruct at_ as [| | | | []| |].
Qed.

Lemma sorted_skip_while (cells : Cells) l :
  bwf cells → Forall (λ kv, key_le (RowId_node l) kv.1 = true)
                (skip_while (λ '(id, _), negb (key_le (RowId_node l) id)) cells).
Proof.
  unfold bwf, bkeys. induction cells as [|[id c] cells IH]; simpl; [constructor|].
  intros [Hs Hf]%StronglySorted_inv. destruct (key_le (RowId_node l) id) eqn:Hle; simpl; [|by apply IH].
  constructor; [done|]. apply Forall_forall. intros [id' c'] Hin. simpl.
  eapply key_le_trans; [exact Hle|]. eapply Forall_forall in Hf; [|by apply (list_elem_of_fmap_2 fst) in Hin].
  unfold key_le. simpl in Hf. unfold key_lt in Hf. by rewrite Hf.
Qed.

Lemma sorted_skip (p : RowId * Cell → bool) (cells : Cells) :
  bwf cells → StronglySorted key_lt (map fst (skip_while p cells)).
Proof.
  unfold bwf, bkeys. induction cells as [|kv cells IH]; simpl; [done|]. intros Hs. destruct (p kv); [|done].
  apply IH. by inversion Hs.
Qed.

Lemma places_elem (cells : Cells) l id c :
  bwf cells →
  (id, c) ∈ Cells_places cells l ↔ (id, c) ∈ cells ∧ id.(row_lineage) = l ∧ id.(row_at) ≠ AtNode.
Proof.
  intros Hwf. unfold Cells_places. rewrite elem_of_filterb, negb_true_iff, bool_decide_eq_false. split.
  - intros [[Hin Hl%String.eqb_eq]%elem_of_take_while Hat]. apply elem_of_skip_while in Hin. done.
  - intros (Hin & Hl & Hat). split; [|done].
    set (p := λ '(id, _), negb (key_le (RowId_node l) id)).
    assert ((id, c) ∈ skip_while p cells) as Hs.
    { apply skip_while_keeps; [done|]. subst p. simpl. apply negb_false_iff. destruct id as [l' at_].
      simpl in Hl. subst l'. apply node_first. }
    pose proof (sorted_skip_while cells l Hwf) as Hge. fold p in Hge.
    pose proof (sorted_skip p cells Hwf) as Hsorted.
    apply list_elem_of_split in Hs as (l1 & l2 & Heq). rewrite Heq in *.
    apply take_while_keeps; [|simpl; by apply String.eqb_eq].
    apply Forall_forall. intros [x cx] Hx. apply String.eqb_eq.
    apply Forall_app in Hge as [Hge _]. eapply Forall_forall in Hge; [|exact Hx].
    rewrite map_app in Hsorted. destruct id as [l' at_]. simpl in Hl. subst l'.
    eapply (row_between l _ x at_); [done| |done].
    eapply StronglySorted_app_1_elem_of in Hsorted; [exact Hsorted| |simpl; set_solver].
    by apply (list_elem_of_fmap_2 fst) in Hx.
Qed.

Section Verdicts.
Context `{JsonFloat}.
Implicit Types (env : SavedEnvironmentIntent).

Lemma cells_wf env suffix : bwf (Cells_of env suffix).
Proof. apply bwf_bcollect. Qed.

(** A place of a node is a row that holds something. *)
Lemma place_of_cells env suffix l id c :
  addressed env →
  (id, c) ∈ Cells_places (Cells_of env suffix) l
  ↔ id.(row_lineage) = l ∧ is_place id.(row_at) = true ∧ look env suffix id = c ∧ c ≠ Absent.
Proof.
  intros Hok. rewrite places_elem by apply cells_wf. rewrite <-(bget_Some _ _ _ (cells_wf _ _)).
  rewrite cells_get by done. unfold look.
  destruct (bget (nodes env) _) as [node|] eqn:Hn; [|naive_solver].
  assert (∀ at_, bget (node_cells env node suffix) at_ = present (node_look env node suffix at_)) as Hg.
  { intros at_. apply node_cells_get; [done|by eapply node_of_services]. }
  destruct (row_at id) eqn:Hat; cbn [is_place]; rewrite ?Hg, ?present_Some; try naive_solver.
  destruct node; naive_solver.
Qed.

Lemma secret_at env suffix row :
  addressed env → is_secret (look env suffix row) = true → ∃ key, row.(row_at) = AtVariable key.
Proof.
  intros Hok. unfold look. destruct (bget (nodes env) _) as [node|]; [|done].
  destruct (row_at row) as [| | | |setting|l|key] eqn:Hat; destruct node; simpl; try done.
  - unfold setting_look. by destruct (at_default _ _).
  - unfold mount_look. repeat case_match; done.
  - by exists key.
Qed.

(** ** What may travel *)

(** A change of a row that a policy lets move. *)
Definition lets (policy : Policy) (row : RowId) (base from into : Cell) (arrives : Arrives) : Prop :=
  from ≠ into ∧ from ≠ base ∧ marked policy row = false
  ∧ ∃ conflict, travels policy.(pol_way) from into (negb (bool_decide (into = base)))
                = Some (conflict, arrives).

Lemma moved_lets policy row base from into conflict ticked arrives :
  moved policy row base from into = Some (Moves conflict ticked arrives) →
  lets policy row base from into arrives.
Proof.
  unfold moved. case_bool_decide as H1; simpl; [done|]. case_bool_decide as H2; simpl; [done|].
  intros ([c a] & Ht & Hm)%bind_Some. destruct (marked policy row) eqn:Hk; [done|].
  injection Hm as -> _ ->. unfold lets. eauto.
Qed.

Lemma verdict_lets policy row base from into conflict ticked arrives :
  verdict policy row base from into = Some (Moves conflict ticked arrives) →
  owned_setting row.(row_at) = None ∧ lets policy row base from into arrives.
Proof.
  unfold verdict. destruct (owned_setting _); [by case_bool_decide|].
  intros Hm. split; [done|]. by eapply moved_lets.
Qed.

(** Only a Sync leaves a secret's value behind, and only for a receiver without one. *)
Lemma needs_value policy row base from into :
  lets policy row base from into NeedsValue →
  policy.(pol_way) = WaySync ∧ is_secret from = true ∧ into = Absent.
Proof.
  intros (_ & _ & _ & conflict & Ht). unfold travels in Ht.
  destruct (pol_way policy); [|repeat case_match; done|done].
  case_bool_decide; simpl in Ht; [done|].
  destruct (is_secret from) eqn:Hf, (is_secret into) eqn:Hi; simpl in Ht;
    try (case_bool_decide; simpl in Ht; [|done]); simplify_eq; done.
Qed.

(** A Sync that carries a value as it is carries no secret and removes nothing. *)
Lemma sync_as_is policy row base from into :
  policy.(pol_way) = WaySync → lets policy row base from into AsIs →
  is_secret from = false ∧ is_secret into = false ∧ from ≠ Absent.
Proof.
  intros Hw (_ & _ & _ & conflict & Ht). unfold travels in Ht. rewrite Hw in Ht.
  case_bool_decide as Ha; simpl in Ht; [done|].
  destruct (is_secret from) eqn:Hf, (is_secret into) eqn:Hi; simpl in Ht;
    try (case_bool_decide; simpl in Ht; [|done]); simplify_eq; try done.
Qed.

Lemma node_there env l :
  addressed env → is_Some (bget (nodes env) l) ↔ l ∈ lineages env.
Proof.
  intros Hok. rewrite nodes_get by done. unfold lineages. rewrite elem_of_app.
  destruct (service_of env l) as [s|] eqn:Hs.
  - split; [|by eauto]. intros _. left. apply service_of_in in Hs as [Hs <-]. by apply list_elem_of_fmap_2.
  - apply (find_key_None svc_lineage_id) in Hs. destruct (volume_of env l) as [v|] eqn:Hv; simpl.
    + split; [|by eauto]. intros _. right. apply volume_of_in in Hv as [Hv <-]. by apply list_elem_of_fmap_2.
    + apply (find_key_None vol_resource_lineage_id) in Hv. split; [by intros []|tauto].
Qed.

Lemma node_absent env l : addressed env → bget (nodes env) l = None ↔ l ∉ lineages env.
Proof. intros Hok. rewrite <-node_there by done. by rewrite eq_None_not_Some. Qed.

Lemma node_look_value env suffix l :
  l ∈ lineages env → addressed env → ∃ value, look env suffix (RowId_node l) = CellValue value.
Proof.
  intros Hl Hok. apply node_there in Hl as [node Hn]; [|done]. unfold look. simpl. rewrite Hn.
  unfold node_cell. eauto.
Qed.

(** A row that moves. *)
Inductive moving (policy : Policy) (sides : Sides) (row : PlannedRow) (arrives : Arrives) : Prop :=
| MovingNode l :
    row.(pr_id) = RowId_node l → row.(pr_requires) = None → arrives = AsIs →
    l ∈ lineages sides.(side_from) → l ∉ lineages sides.(side_into) → l ∉ policy.(pol_live) →
    lets policy (RowId_node l) Absent (look sides.(side_from) sides.(side_hostnames).(hosts_from) (RowId_node l))
      Absent AsIs →
    (∀ at_, At_needed at_ = true →
       look sides.(side_from) sides.(side_hostnames).(hosts_from) {| row_lineage := l; row_at := at_ |} ≠ Absent →
       marked policy {| row_lineage := l; row_at := at_ |} = false) →
    moving policy sides row arrives
| MovingPlace :
    is_place row.(pr_id).(row_at) = true → row.(pr_requires) = None →
    row.(pr_id).(row_lineage) ∈ lineages sides.(side_from) →
    row.(pr_id).(row_lineage) ∈ lineages sides.(side_into) →
    owned_setting row.(pr_id).(row_at) = None →
    row.(pr_from) = look sides.(side_from) sides.(side_hostnames).(hosts_from) row.(pr_id) →
    lets policy row.(pr_id) row.(pr_base) row.(pr_from)
      (look sides.(side_into) sides.(side_hostnames).(hosts_into) row.(pr_id)) arrives →
    moving policy sides row arrives
| MovingNewPlace :
    is_place row.(pr_id).(row_at) = true → At_carried row.(pr_id).(row_at) = false →
    row.(pr_requires) = Some (RowId_node row.(pr_id).(row_lineage)) →
    row.(pr_id).(row_lineage) ∈ lineages sides.(side_from) →
    row.(pr_id).(row_lineage) ∉ lineages sides.(side_into) →
    (policy.(pol_way) = WayCopy ∨ owned_setting row.(pr_id).(row_at) = None) →
    row.(pr_from) = look sides.(side_from) sides.(side_hostnames).(hosts_from) row.(pr_id) →
    lets policy row.(pr_id) Absent row.(pr_from) Absent arrives →
    moving policy sides row arrives.

Section Plan.
Context (policy : Policy) (sides : Sides).
Abbreviation from := sides.(side_from).
Abbreviation into := sides.(side_into).
Abbreviation hosts := sides.(side_hostnames).
Abbreviation base_cells := (cells_of_base sides.(side_base) hosts.(hosts_into)).
Abbreviation from_cells := (Cells_of from hosts.(hosts_from)).
Abbreviation into_cells := (Cells_of into hosts.(hosts_into)).
Context (Hfrom : addressed from) (Hinto : addressed into).

Lemma shared_node_moves lineage both row conflict ticked arrives :
  lineage ∈ lineages from → lineage ∈ lineages into →
  row ∈ shared_node policy base_cells from_cells into_cells lineage both →
  row.(pr_verdict) = Moves conflict ticked arrives → moving policy sides row arrives.
Proof using Hfrom Hinto.
  intros Hf Hi [Hr|Hr]%elem_of_app Hv.
  - apply list_elem_of_omap in Hr as (id & Hid & (v & Hverd & [= <-])%bind_Some). simpl in Hv. subst v.
    apply verdict_lets in Hverd as [Hown Hlets].
    apply elem_of_bset_of, elem_of_app in Hid.
    assert (row_lineage id = lineage ∧ is_place (row_at id) = true) as [Hl Hp].
    { destruct Hid as [Hid|Hid]; apply list_elem_of_fmap in Hid as ([id' c] & -> & Hin);
        apply place_of_cells in Hin as (? & ? & _); done. }
    apply MovingPlace; simpl; rewrite ?Hl; try done.
    + by rewrite cells_look.
    + by rewrite <-(cells_look into).
  - destruct both; [|set_solver]. apply list_elem_of_singleton in Hr as ->. done.
Qed.

Lemma new_node_moves lineage row conflict ticked arrives :
  lineage ∈ lineages from → lineage ∉ lineages into → lineage ∉ policy.(pol_live) →
  row ∈ new_node policy base_cells from_cells into_cells lineage →
  row.(pr_verdict) = Moves conflict ticked arrives → moving policy sides row arrives.
Proof using Hfrom Hinto.
  intros Hf Hi Hlive Hr Hv. unfold new_node in Hr.
  destruct (verdict policy (RowId_node lineage) Absent _ Absent) as [v|] eqn:Hverd; [|set_solver].
  apply elem_of_cons in Hr as [->|Hr].
  - simpl in Hv. destruct (existsb _ _) eqn:Hmarks; [done|]. subst v.
    apply verdict_lets in Hverd as [_ Hlets]. rewrite cells_look in Hlets by done.
    assert (arrives = AsIs) as ->.
    { destruct arrives; [done|]. apply needs_value in Hlets as (_ & Hs & _).
      destruct (node_look_value from hosts.(hosts_from) lineage Hf Hfrom) as [value Hval].
      by rewrite Hval in Hs. }
    apply (MovingNode _ _ _ _ lineage); try done.
    intros at_ Hneed Hat. rewrite existsb_false_elem in Hmarks.
    specialize (Hmarks ({| row_lineage := lineage; row_at := at_ |}, look from hosts.(hosts_from) {| row_lineage := lineage; row_at := at_ |})).
    rewrite place_of_cells in Hmarks by done. simpl in Hmarks. rewrite Hneed in Hmarks.
    apply Hmarks. split_and!; [done| |done|done]. by destruct at_.
  - apply list_elem_of_omap in Hr as ([child cell] & Hin & (v' & Hj & [= <-])%bind_Some).
    simpl in Hv. subst v'. apply elem_of_filterb in Hin as [Hin Hcar%negb_true_iff].
    apply place_of_cells in Hin as (Hl & Hp & Hc & _); [|done].
    assert ((pol_way policy = WayCopy ∨ owned_setting (row_at child) = None)
            ∧ lets policy child Absent cell Absent arrives) as [Hown Hlets].
    { destruct (pol_way policy) eqn:Hw.
      - apply verdict_lets in Hj as [? ?]. auto.
      - apply verdict_lets in Hj as [? ?]. auto.
      - apply moved_lets in Hj. auto. }
    apply MovingNewPlace; simpl; rewrite ?Hl; done.
Qed.

Lemma node_differs_still lineage why row conflict ticked arrives :
  row ∈ node_differs base_cells from_cells into_cells lineage why →
  row.(pr_verdict) ≠ Moves conflict ticked arrives.
Proof. by intros ->%list_elem_of_singleton. Qed.

Lemma plan_rows_of :
  (plan sides policy).(plan_rows)
  = stable_sort (λ a b, key_le a.(pr_id) b.(pr_id))
      (concat (map (plan_lineage policy (from_option nodes [] sides.(side_base)) (nodes from) (nodes into)
                      from base_cells from_cells into_cells)
                 (bset_of (bkeys (nodes from) ++ bkeys (nodes into))))).
Proof. by destruct sides. Qed.

Lemma plan_moves row conflict ticked arrives :
  row ∈ (plan sides policy).(plan_rows) → row.(pr_verdict) = Moves conflict ticked arrives →
  moving policy sides row arrives.
Proof using Hfrom Hinto.
  rewrite plan_rows_of. intros Hr Hv.
  apply elem_of_stable_sort, list_elem_of_In, in_concat in Hr as (rows & Hrows & Hr%list_elem_of_In).
  apply in_map_iff in Hrows as (lineage & <- & _). unfold plan_lineage in Hr.
  destruct (bget (nodes from) lineage) as [fn|] eqn:Hfn, (bget (nodes into) lineage) as [inn|] eqn:Hin;
    [| | |set_solver].
  - eapply (shared_node_moves lineage); [apply node_there; eauto..|exact Hr|exact Hv].
  - destruct (negb _ && negb _) eqn:Hb.
    + apply andb_true_iff in Hb as [Hb%negb_true_iff%bool_decide_eq_false _].
      eapply (new_node_moves lineage); [apply node_there; eauto|by apply node_absent|done|exact Hr|exact Hv].
    + by apply (node_differs_still _ _ _ conflict ticked arrives) in Hr.
  - destruct (_ || _) in Hr; [|set_solver].
    by apply (node_differs_still _ _ _ conflict ticked arrives) in Hr.
Qed.
End Plan.
End Verdicts.
