(* ===== verification/SyncApply.v ===== *)
(** * Landing the picked rows

    [Plan::apply]: exactly the picked rows land, each with what the sender holds (a
    secret without its value under a Sync), new nodes arrive with what they need to
    exist, and everything else of the receiver stays as it was. *)

From S2P Require Import Prelude BTree Strings Decimal Values Spec RuntimeOutcome Config.
From S2P Require Import ConfigValidation ConfigSpec ConfigJson SyncRows SyncPut SyncPlan SyncLens.
From S2P Require Import SyncLaws SyncLand SyncVerdicts.

Open Scope string_scope.
Open Scope nat_scope.
Open Scope list_scope.

(** ** What a landing is made of *)

Lemma collect_result_map {A B C E} (f : A → Result B E) (g : B → C) (h : A → C) l r :
  (∀ x y, f x = Ok y → g y = h x) → collect_result f l = Ok r → map g r = map h l.
Proof.
  intros Hf Hr%collect_result_Ok. induction Hr as [|x y l r Hy _ IH]; simpl; [done|].
  by rewrite IH, (Hf x y).
Qed.

(** Admission leaves a settled document as it is. *)
Lemma parse_settled `{ConfigCrates, JsonFloat, ConfigDecoders, !DecoderLaws} intent intent' :
  ready intent → parse_environment_intent (SavedEnvironmentIntent_json intent) = Ok intent' → intent' = intent.
Proof.
  intros Hr. rewrite parse_written by by apply ready_typed.
  intros (services & -> & Hc & _)%validate_environment_inv. apply collect_result_Ok in Hc.
  assert (services = env_services intent) as ->; [|by destruct intent].
  destruct Hr as [_ Hs _]. induction Hc as [|s s' ss ss' Hp _ IH]; [done|].
  apply Forall_cons in Hs as [[Hset _] Hs]. rewrite IH by done. f_equal.
  unfold parse_service_intent in Hp. apply result_bind_Ok in Hp as (config & Hconf & Hp).
  repeat (apply result_bind_Ok in Hp as (? & _ & Hp)). injection Hp as <-.
  rewrite (settled_parse _ _ Hset Hconf). by destruct s.
Qed.

Section Landing.
Context `{ConfigCrates, JsonFloat, ConfigDecoders, !DecoderLaws, Uuids}.
Context (policy : Policy) (sides : Sides) (values : bmap RowId SealedSecret) (picks : bset RowId).
Abbreviation from := sides.(side_from).
Abbreviation into := sides.(side_into).
Abbreviation hosts := sides.(side_hostnames).
Abbreviation from_cells := (Cells_of from hosts.(hosts_from)).
Abbreviation into_cells := (Cells_of into hosts.(hosts_into)).
Abbreviation self := (plan sides policy).
Abbreviation Pick := (PlannedRow * Arrives)%type.

Lemma plan_sides :
  self.(plan_from) = from ∧ self.(plan_into) = into ∧ self.(plan_hostnames) = hosts
  ∧ self.(plan_base) = sides.(side_base) ∧ self.(plan_live) = policy.(pol_live).
Proof. by destruct sides. Qed.

Definition pick_id (p : Pick) : RowId := p.1.(pr_id).

(** What lands at a pick. *)
Definition pick_cell (p : Pick) : SealedCell := (arrival self from_cells values (pick_id p) p.2).1.

Context (Hfrom : addressed from) (Hinto : addressed into).
Context (Hrfrom : ready from) (Hrinto : ready into).
Context (Hvalues : ∀ row secret, bget values row = Some secret → is_u8 secret.(secret_value).(sealed_version)).

Definition moves (p : Pick) : Prop := moving policy sides p.1 p.2.

Lemma pick_row_inv pick p :
  pick_row self picks pick = Ok p →
  pick_id p = pick ∧ moves p ∧ (∀ node, p.1.(pr_requires) = Some node → node ∈ picks).
Proof.
  unfold pick_row. intros (row & Hrow%ok_or_Ok & Hp)%result_bind_Ok.
  apply find_Some_elem in Hrow as [Hrow Hid%bool_decide_eq_true].
  destruct (pr_verdict row) as [conflict ticked arrives|] eqn:Hv; [|done].
  assert (p = (row, arrives) ∧ (∀ node, pr_requires row = Some node → node ∈ picks)) as [-> Hreq].
  { destruct (pr_requires row) as [node|]; [|by injection Hp as <-]. case_bool_decide; [|done].
    injection Hp as <-. split; [done|]. by intros ? [= <-]. }
  split_and!; [done| |done]. by eapply plan_moves.
Qed.

(** ** A pick at a place *)

Lemma moving_place_shown p :
  moves p → is_place (pick_id p).(row_at) = true → shown (pick_id p).(row_at) (pick_cell p).
Proof.
  intros Hm Hp. unfold pick_cell, arrival. destruct plan_sides as (Hf & _).
  assert (movable_at (row_at (pick_id p)) = true
    ∧ ∃ base into, lets policy (pick_id p) base (look from hosts.(hosts_from) (pick_id p)) into p.2)
    as (Hmov & base & into' & Hlets).
  { unfold pick_id in *. destruct Hm as [l Hid| Hpl _ _ _ Hown Hpf Hl|Hpl Hcar _ _ _ _ Hpf Hl].
    - by rewrite Hid in Hp.
    - split; [|rewrite <-Hpf; eauto]. destruct (row_at (pr_id p.1)) as [| | | |[]| |]; done.
    - split; [|rewrite <-Hpf; eauto]. destruct (row_at (pr_id p.1)) as [| | | |[]| |]; done. }
  destruct p.2.
  - simpl. rewrite Hf, sealed_cell_place by done. by apply sealed_place_shown.
  - apply needs_value in Hlets as (_ & Hs & _). apply secret_at in Hs as [key Hat]; [|done].
    rewrite Hat. destruct (bget values (pick_id p)) as [secret|] eqn:Hg; right.
    + exists (new_variable "" key secret.(secret_fingerprint) (VariableSecret (Some secret.(secret_value)))).
      split; [by eapply Hvalues|]. by destruct secret.
    + by exists (new_variable "" key "" VariableSecretWithoutValue).
Qed.

Lemma describe_place next l key suffix l' at_ :
  sealed_place (describe self next l key) suffix l' at_ = sealed_place next suffix l' at_.
Proof.
  unfold describe. destruct (_ ≫= _) as [source|]; [|done].
  set (f := λ target, _). unfold sealed_place. rewrite service_of_update by done.
  case_decide as Hl; [subst l'|done]. destruct (service_of next l) as [s|]; simpl; [|done].
  destruct at_ as [| | | | | |key']; try done. simpl.
  pose proof (find_update_first var_key key key' f s.(svc_variables) (λ _, eq_refl)) as Hu.
  change (λ y, String.eqb (var_key y) key) with (has_key key) in Hu.
  change (λ y, String.eqb (var_key y) key') with (has_key key') in Hu. rewrite Hu.
  case_decide as Hk; [subst key'|done]. clear Hu. by destruct (List.find (has_key key) (svc_variables s)) eqn:Hf.
Qed.

Lemma describe_kept next l key :
  addressed next → ready next →
  addressed (describe self next l key) ∧ ready (describe self next l key)
  ∧ frame (describe self next l key) = frame next.
Proof.
  intros Hok Hr. unfold describe. destruct (_ ≫= _) as [source|]; [|done].
  set (f := λ target, _). split_and!.
  - apply addressed_update_service; [done|done|]. intros s _ []. split; try done. simpl.
    by rewrite map_update_first.
  - apply typed_update_service; [|done]. intros s []. split; [done|]. simpl. by apply Forall_update_first.
  - unfold frame. simpl. by rewrite !map_update_first.
Qed.

Lemma land_place_at row value was drawn next base next' base' :
  addressed next → ready next → shown row.(pr_id).(row_at) value →
  land_place self row value was drawn next base = Ok (next', base') →
  put_at hosts.(hosts_into) row.(pr_id).(row_lineage) row.(pr_id).(row_at) value next next'
  ∧ (row.(pr_id).(row_at) = AtSetting SetSource →
     sealed_place next' hosts.(hosts_into) row.(pr_id).(row_lineage) (AtSetting SetBranch)
     = PlainCell (branch_after (to_redacted value)
         (to_redacted (sealed_place next hosts.(hosts_into) row.(pr_id).(row_lineage) (AtSetting SetBranch))))).
Proof.
  intros Hok Hr Hsh Hland. unfold land_place in Hland.
  apply result_bind_Ok in Hland as (next1 & Hput & Hland).
  destruct (put_sealed _ _ _ _) as [n|] eqn:Hp; [|done]. injection Hput as ->.
  destruct (pr_id row) as [l at_] eqn:Hid. simpl in *.
  pose proof (put_place_at _ hosts.(hosts_into) _ _ _ _ _ Hok Hr Hsh Hp) as Hat.
  set (next2 := match at_ with AtVariable _ => _ | _ => _ end) in Hland.
  assert (next' = next2) as ->.
  { destruct base; [|by injection Hland as <- _]. apply result_bind_Ok in Hland as (? & _ & Hland).
    by injection Hland as <- _. }
  split.
  - assert (next2 = next1 ∨ ∃ key, next2 = describe self next1 l key) as [->|(key & ->)].
    { subst next2. destruct at_; try by left. destruct was as [[]|]; eauto. }
    + done.
    + destruct Hat as [Ha1 Ha2 Ha3 Ha4]. destruct (describe_kept next1 l key Ha1 Ha2) as (Hd1 & Hd2 & Hd3).
      split; [done|done|congruence|]. intros. rewrite describe_place. by apply Ha4.
  - intros ->. subst next2. simpl. eapply put_source_branch; eauto.
Qed.

(** ** The document as the picks land *)

(** The pick of a row. *)
Definition picked (landing : list Pick) (row : RowId) : option Pick :=
  List.find (λ p, bool_decide (pick_id p = row)) landing.

(** What a place starts from: the receiver's cell, and in a new node what it needs to exist. *)
Definition place_before (landing : list Pick) (l : string) (at_ : At) : SealedCell :=
  match picked landing (RowId_node l) with
  | Some _ => if At_needed at_ then sealed_place from hosts.(hosts_from) l at_ else PlainCell Absent
  | None => sealed_place into hosts.(hosts_into) l at_
  end.

Definition place_after (landing : list Pick) (l : string) (at_ : At) : SealedCell :=
  match picked landing {| row_lineage := l; row_at := at_ |} with
  | Some p => pick_cell p
  | None =>
      match at_, picked landing {| row_lineage := l; row_at := AtSetting SetSource |} with
      | AtSetting SetBranch, Some p =>
          PlainCell (branch_after (to_redacted (pick_cell p)) (to_redacted (place_before landing l at_)))
      | _, _ => place_before landing l at_
      end
  end.

(** The document [next] is the receiver's with [landing] landed. *)
Record as_landed (landing : list Pick) (next : SavedEnvironmentIntent) : Prop := {
  al_addressed : addressed next;
  al_ready : ready next;
  al_document : (next.(env_version), next.(env_slug)) = (into.(env_version), into.(env_slug));
  al_lineages l : l ∈ lineages next ↔ l ∈ lineages into ∨ is_Some (picked landing (RowId_node l));
  al_slugs l : slug_of next l = match picked landing (RowId_node l) with
                                | Some _ => slug_of from l
                                | None => slug_of into l
                                end;
  al_places l at_ : is_place at_ = true →
    sealed_place next hosts.(hosts_into) l at_ = place_after landing l at_
}.

Record landing_inv (landing : list Pick) (next : SavedEnvironmentIntent) (drawn : nat) : Prop := {
  li_landed : as_landed landing next;
  li_volumes id : id ∈ map vol_resource_id next.(env_volumes) →
    id ∈ map vol_resource_id into.(env_volumes) ∨ ∃ m, m < drawn ∧ id = new_v4 m
}.

Lemma picked_snoc landing p row :
  picked (landing ++ [p]) row
  = match picked landing row with
    | Some q => Some q
    | None => if bool_decide (pick_id p = row) then Some p else None
    end.
Proof. exact (find_snoc (λ p, bool_decide (pick_id p = row)) landing p). Qed.

Lemma picked_Some landing row p : picked landing row = Some p → p ∈ landing ∧ pick_id p = row.
Proof. by intros [? ?%bool_decide_eq_true]%find_Some_elem. Qed.

Lemma picked_None landing row : picked landing row = None ↔ row ∉ map pick_id landing.
Proof.
  unfold picked. rewrite find_None_elem. setoid_rewrite bool_decide_eq_false.
  rewrite list_elem_of_fmap. naive_solver.
Qed.

Lemma picked_elem landing p : NoDup (map pick_id landing) → p ∈ landing → picked landing (pick_id p) = Some p.
Proof.
  intros Hnd Hp. destruct (picked landing (pick_id p)) as [q|] eqn:Hq.
  - apply picked_Some in Hq as [Hq Heq]. f_equal. by eapply (NoDup_map_inj pick_id).
  - apply picked_None in Hq. destruct Hq. by apply list_elem_of_fmap_2.
Qed.

Lemma landing_inv_start : landing_inv [] into 0.
Proof.
  split; [split; try done|].
  - intros l. split; [by left|]. by intros [?|[]].
  - intros l at_ _. by destruct at_ as [| | | |[]| |].
  - intros id Hid. by left.
Qed.

Context (Hfresh : NoDup (map new_v4 (seq 0 (2 * length picks)) ++ map vol_resource_id into.(env_volumes))).
Context (Hsuffix : bytes_all is_host_byte hosts.(hosts_into) = true).

Lemma fresh_draw drawn :
  drawn < 2 * length picks →
  (new_v4 drawn ∉ map vol_resource_id into.(env_volumes)) ∧ ∀ m, m < drawn → new_v4 m ≠ new_v4 drawn.
Proof.
  intros Hd. apply NoDup_app in Hfresh as (Hnd & Hdis & _).
  assert (∀ m, m < 2 * length picks → m ∈ seq 0 (2 * length picks)) as Hseq by (intros; apply elem_of_seq; lia).
  split; [apply Hdis, list_elem_of_fmap_2; auto|]. intros m Hm Heq.
  assert (m = drawn); [|lia]. eapply (NoDup_map_inj new_v4); [exact Hnd| | |done]; apply Hseq; lia.
Qed.

(** While only nodes have landed, places are as they start. *)
Lemma nodes_only landing l at_ :
  Forall (λ q, (pick_id q).(row_at) = AtNode) landing → is_place at_ = true →
  place_after landing l at_ = place_before landing l at_.
Proof.
  intros Hnodes Hpl.
  assert (∀ a, a ≠ AtNode → picked landing {| row_lineage := l; row_at := a |} = None) as Hno.
  { intros a Hat. apply picked_None. intros (x & Hx & Hin)%list_elem_of_fmap.
    eapply Forall_forall in Hnodes; [|exact Hin]. by rewrite <-Hx in Hnodes. }
  unfold place_after. rewrite !Hno by (intros Heq; by simplify_eq). by destruct at_ as [| | | |[]| |].
Qed.

(** A document with the node [l] added. *)
Lemma landing_inv_add landing next drawn l p next' :
  landing_inv landing next drawn → pick_id p = RowId_node l →
  Forall (λ q, (pick_id q).(row_at) = AtNode) landing →
  l ∉ lineages into → RowId_node l ∉ map pick_id landing →
  addressed next' → ready next' →
  (next'.(env_version), next'.(env_slug)) = (next.(env_version), next.(env_slug)) →
  (∀ l', l' ∈ lineages next' ↔ l' ∈ lineages next ∨ l' = l) →
  (∀ l', slug_of next' l' = if decide (l' = l) then slug_of from l else slug_of next l') →
  (∀ id, id ∈ map vol_resource_id next'.(env_volumes) →
     id ∈ map vol_resource_id next.(env_volumes) ∨ id = new_v4 drawn) →
  (∀ l' at_, is_place at_ = true →
     sealed_place next' hosts.(hosts_into) l' at_
     = if decide (l' = l) then (if At_needed at_ then sealed_place from hosts.(hosts_from) l at_
                                else PlainCell Absent)
       else sealed_place next hosts.(hosts_into) l' at_) →
  landing_inv (landing ++ [p]) next' (S (S drawn)).
Proof.
  intros [[Ha Hr Hd Hl Hsl Hp] Hv] Hid Hnodes Hnew Hlast Ha' Hr' Hd' Hl' Hsl' Hv' Hp'.
  assert (Forall (λ q, (pick_id q).(row_at) = AtNode) (landing ++ [p])) as Hnodes'.
  { apply Forall_app. split; [done|]. constructor; [by rewrite Hid|constructor]. }
  apply picked_None in Hlast. split; [split; try done|].
  - by rewrite Hd'.
  - intros l'. rewrite Hl', Hl, picked_snoc, Hid. unfold RowId_node.
    destruct (picked landing {| row_lineage := l'; row_at := AtNode |}) eqn:Hq; [naive_solver|].
    case_bool_decide as Hb; naive_solver.
  - intros l'. rewrite Hsl', picked_snoc, Hid. case_decide as Hll.
    + subst l'. by rewrite Hlast, bool_decide_eq_true_2.
    + rewrite Hsl. destruct (picked landing (RowId_node l')); [done|].
      rewrite bool_decide_eq_false_2; [done|]. unfold RowId_node. by intros [= ->].
  - intros l' at_ Hpl. rewrite nodes_only, Hp' by done. unfold place_before. rewrite picked_snoc, Hid.
    case_decide as Hll.
    + subst l'. by rewrite Hlast, bool_decide_eq_true_2 by done.
    + rewrite Hp, nodes_only by done. unfold place_before. destruct (picked landing (RowId_node l')); [done|].
      rewrite bool_decide_eq_false_2; [done|]. unfold RowId_node. by intros [= ->].
  - intros id [Hin| ->]%Hv'; [|right; exists drawn; split; [lia|done]].
    apply Hv in Hin as [?|(m & Hm & ->)]; [by left|]. right. exists m. split; [lia|done].
Qed.

Lemma introduce_inv landing next base drawn l p next' base' :
  landing_inv landing next drawn → pick_id p = RowId_node l →
  Forall (λ q, (pick_id q).(row_at) = AtNode) landing → RowId_node l ∉ map pick_id landing →
  l ∉ lineages into → drawn < 2 * length picks →
  introduce self (new_v4 drawn) next base l = Ok (next', base') →
  landing_inv (landing ++ [p]) next' (S (S drawn)).
Proof.
  intros Hinv Hid Hnodes Hlast Hnew Hdraw Hintro. destruct (fresh_draw drawn Hdraw) as [Hunused Hdistinct]. pose proof Hinv as [[Ha Hr Hd Hl _ Hp] Hv].
  destruct plan_sides as (Hf & _ & Hh & _). unfold introduce in Hintro. rewrite Hf, Hh in Hintro.
  assert (l ∉ lineages next) as Hln.
  { rewrite Hl. intros [?|[q Hq]]; [done|]. apply picked_Some in Hq as [Hq Heq]. apply Hlast.
    rewrite <-Heq. by apply list_elem_of_fmap_2. }
  destruct (volume_of from l) as [source|] eqn:Hvol.
  - destruct (existsb _ _); [done|]. injection Hintro as <- _.
    pose proof (volume_of_in _ _ _ Hvol) as [Hin Hlin].
    assert (new_v4 drawn ∉ map vol_resource_id next.(env_volumes)) as Hnid.
    { intros [?|(m & Hm & Heq)]%Hv; [done|]. by apply (Hdistinct m). }
    assert (vol_resource_lineage_id (set_resource_id (new_v4 drawn) source) ∉ lineages next) as Hlin'
      by (simpl; by rewrite Hlin).
    eapply (landing_inv_add landing next drawn l); try done.
    + by apply add_volume_addressed.
    + apply add_volume_ready; [done|]. destruct Hrfrom as [_ _ Hs]. exact (proj1 (Forall_forall _ _) Hs source Hin).
    + intros l'. unfold lineages. simpl. rewrite map_app. simpl. rewrite Hlin. set_solver.
    + intros l'. change (slug_of (add_volume _ next) l') with (slug_of next l'). case_decide; [subst l'|done].
      unfold slug_of. rewrite (proj1 (lineages_of _ _ Hln)).
      destruct (service_of from l) eqn:Hs; [destruct (lineage_kinds _ _ _ _ Hfrom Hs Hvol)|done].
    + intros id. simpl. rewrite map_app. set_solver.
    + intros l' at_ Hpl. rewrite add_volume_place by done. simpl. rewrite Hlin. case_decide; [|done].
      subst l'. unfold sealed_place.
      destruct (service_of from l) eqn:Hs; [destruct (lineage_kinds _ _ _ _ Hfrom Hs Hvol)|]. rewrite Hvol.
      by destruct at_ as [| | | |[]| |].
  - apply result_bind_Ok in Hintro as (source & Hs%ok_or_Ok & Hintro).
    destruct (existsb _ _); [done|]. pose proof (service_of_in _ _ _ Hs) as [Hin Hlin].
    pose proof (typed_service_of _ _ _ Hrfrom Hs) as [Hc _].
    rewrite introduced_service_ok in Hintro by apply Hc. cbn [result_bind] in Hintro.
    injection Hintro as <- _.
    assert (svc_lineage_id (arriving_service hosts (new_v4 drawn) source) ∉ lineages next) as Hlin'
      by (simpl; by rewrite Hlin).
    eapply (landing_inv_add landing next drawn l); try done.
    + apply add_service_addressed; [done..|]. split; simpl; [constructor|constructor|set_solver].
    + apply add_service_ready; [done|]. split; simpl; [by apply arriving_settled|constructor].
    + intros l'. unfold lineages. simpl. rewrite map_app. simpl. rewrite Hlin. set_solver.
    + intros l'. unfold slug_of. rewrite service_of_add. simpl. rewrite Hlin. case_decide as Hll.
      * subst l'. rewrite (proj1 (lineages_of _ _ Hln)), String.eqb_refl, Hs. done.
      * destruct (service_of next l'); [done|]. by destruct (String.eqb_spec l l').
    + intros id. simpl. by left.
    + intros l' at_ Hpl. rewrite add_service_place by done. simpl. rewrite Hlin. case_decide; [|done].
      rewrite arriving_sealed by done. unfold sealed_place. rewrite Hs.
      destruct at_ as [| | | |[]| |]; done.
Qed.

(** A source's git branch is no pick of its own. *)
Lemma branch_unpicked landing l :
  Forall moves landing → picked landing {| row_lineage := l; row_at := AtSetting SetBranch |} = None.
Proof.
  intros Hall. apply picked_None. intros (p & Hp & Hin)%list_elem_of_fmap.
  eapply Forall_forall in Hall; [|exact Hin]. unfold pick_id in Hp.
  destruct Hall as [l' Hid|_ _ _ _ Hown|_ Hcar]; [by rewrite Hid in Hp|by rewrite <-Hp in Hown|by rewrite <-Hp in Hcar].
Qed.

Lemma place_after_source landing p l :
  Forall moves landing → moves p → pick_id p = {| row_lineage := l; row_at := AtSetting SetSource |} →
  picked landing (pick_id p) = None →
  place_after (landing ++ [p]) l (AtSetting SetBranch)
  = PlainCell (branch_after (to_redacted (pick_cell p))
                 (to_redacted (place_after landing l (AtSetting SetBranch)))).
Proof.
  intros Hall Hm Hid Hlast. assert (Forall moves (landing ++ [p])) as Hall' by (apply Forall_app; auto).
  unfold place_after. rewrite !branch_unpicked, <-Hid, Hlast, picked_snoc, Hlast by done.
  rewrite bool_decide_eq_true_2 by done. unfold place_before. rewrite picked_snoc.
  destruct (picked landing (RowId_node l)); [done|]. rewrite bool_decide_eq_false_2; [done|]. by rewrite Hid.
Qed.

Lemma place_after_snoc landing p l at_ :
  is_place (pick_id p).(row_at) = true → picked landing (pick_id p) = None →
  ¬ (l = (pick_id p).(row_lineage) ∧ (pick_id p).(row_at) = AtSetting SetSource ∧ at_ = AtSetting SetBranch) →
  place_after (landing ++ [p]) l at_
  = if decide (l = (pick_id p).(row_lineage) ∧ at_ = (pick_id p).(row_at)) then pick_cell p
    else place_after landing l at_.
Proof.
  intros Hpl Hlast Hns. destruct (pick_id p) as [pl pat] eqn:Hid. simpl in *.
  unfold place_after, place_before. rewrite !picked_snoc, Hid. case_decide as Hd.
  - destruct Hd as [-> ->]. by rewrite Hlast, bool_decide_eq_true_2.
  - rewrite (bool_decide_eq_false_2 ({| row_lineage := pl; row_at := pat |} = {| row_lineage := l; row_at := at_ |})) by naive_solver.
    rewrite (bool_decide_eq_false_2 ({| row_lineage := pl; row_at := pat |} = RowId_node l)).
    2: { unfold RowId_node. intros [= _ ->]. done. }
    destruct (picked landing {| row_lineage := l; row_at := at_ |}); [done|].
    destruct at_ as [| | | |setting| |]; try (by destruct (picked landing (RowId_node l))).
    destruct (decide (setting = SetBranch)) as [->|]; [|destruct setting; by destruct (picked landing (RowId_node l))].
    rewrite (bool_decide_eq_false_2 ({| row_lineage := pl; row_at := pat |} = {| row_lineage := l; row_at := AtSetting SetSource |})) by naive_solver.
    destruct (picked landing (RowId_node l)), (picked landing {| row_lineage := l; row_at := AtSetting SetSource |}); done.
Qed.

(** A pick at a place. *)
Lemma land_place_inv landing next base drawn p was next' base' :
  landing_inv landing next drawn → moves p → is_place (pick_id p).(row_at) = true →
  pick_id p ∉ map pick_id landing →
  Forall moves landing →
  land_place self p.1 (pick_cell p) was drawn next base = Ok (next', base') →
  landing_inv (landing ++ [p]) next' (S (S drawn)).
Proof.
  intros [[Ha Hr Hd Hl Hsl Hp] Hv] Hm Hpl Hlast Hall Hland.
  pose proof (moving_place_shown p Hm Hpl) as Hsh.
  destruct (land_place_at _ _ _ _ _ _ _ _ Ha Hr Hsh Hland) as [[Ha' Hr' Hfr Hp'] Hbranch].
  fold (pick_id p) in *. apply picked_None in Hlast.
  assert (∀ q, (pick_id q).(row_at) ≠ AtNode → ∀ l, picked (landing ++ [q]) (RowId_node l) = picked landing (RowId_node l)) as Hnode.
  { intros q Hq l. rewrite picked_snoc. destruct (picked landing (RowId_node l)); [done|].
    rewrite bool_decide_eq_false_2; [done|]. by intros Heq; rewrite Heq in Hq. }
  assert ((pick_id p).(row_at) ≠ AtNode) as Hat by (intros Heq; by rewrite Heq in Hpl).
  split; [split; try done|].
  - rewrite <-Hd. unfold frame in Hfr. injection Hfr as -> -> _ _ _ _ _. done.
  - intros l. rewrite (frame_lineages next' next) by done. rewrite Hl, Hnode by done. done.
  - intros l. rewrite (frame_slug next' next) by done. rewrite Hsl, Hnode by done. done.
  - intros l at_ Hplace.
    destruct (decide (l = (pick_id p).(row_lineage) ∧ (pick_id p).(row_at) = AtSetting SetSource
                      ∧ at_ = AtSetting SetBranch)) as [(-> & Hsrc & ->)|Hns].
    + rewrite Hbranch, Hp, <-(place_after_source landing p) by (try done; by destruct (pick_id p); simpl in *; subst).
      done.
    + rewrite Hp', place_after_snoc by done. by rewrite Hp.
  - intros id Hid. unfold frame in Hfr. injection Hfr as _ _ _ _ _ Hvs _. rewrite Hvs in Hid.
    apply Hv in Hid as [?|(m & ? & ->)]; [by left|]. right. exists m. split; [lia|done].
Qed.

(** ** All the picks *)

(** What a pick leaves to be put back. *)
Definition leaves (p : Pick) (one : Landed) : Prop :=
  one.(landed_row) = pick_id p ∧ held_before self into_cells (pick_id p) = Ok one.(landed_was)
  ∧ one.(landed_value) = to_redacted (pick_cell p).

(** The picks that still wait for their secret's value. *)
Definition waits (p : Pick) : bool := (arrival self from_cells values (pick_id p) p.2).2.

Record landed_all (landing : list Pick) (l : Landing) : Prop := {
  la_inv : landing_inv landing l.(land_next) l.(land_drawn);
  la_drawn : l.(land_drawn) = 2 * length landing;
  la_landed : Forall2 leaves landing l.(land_landed);
  la_waiting : l.(land_waiting) = map pick_id (List.filter waits landing)
}.

Lemma landing_nodes landing p :
  (∀ q, q ∈ landing → landing_le self q p = true) →
  (pick_id p).(row_at) = AtNode → Forall (λ q, (pick_id q).(row_at) = AtNode) landing.
Proof.
  intros Hle Hp. apply Forall_forall. intros q Hq%Hle. unfold landing_le, landing_order in Hq.
  fold (pick_id p) (pick_id q) in Hq. rewrite Hp in Hq. apply N.leb_le in Hq.
  destruct (row_at (pick_id q)); try done; exfalso; destruct (volume_of _ _) in Hq; lia.
Qed.

Lemma land_row_all landing l p l' :
  landed_all landing l → Forall moves landing → moves p → pick_id p ∉ map pick_id landing →
  (∀ q, q ∈ landing → landing_le self q p = true) → length landing < length picks →
  land_row self from_cells into_cells values l p = Ok l' → landed_all (landing ++ [p]) l'.
Proof.
  intros [Hinv Hdrawn Hland Hwait] Hall Hm Hlast Hle Hlen Hrow. unfold land_row in Hrow.
  destruct p as [row arrives]. destruct (arrival _ _ _ _ _) as [value waits'] eqn:Harr.
  set (p := (row, arrives)) in *. change (pr_id row) with (pick_id p) in *.
  assert (value = pick_cell p) as -> by (unfold pick_cell; simpl; by rewrite Harr).
  assert (waits' = waits p) as -> by (unfold waits; simpl; by rewrite Harr).
  apply result_bind_Ok in Hrow as (was & Hwas & Hrow). apply result_bind_Ok in Hrow as ([next base] & Hstep & Hrow).
  injection Hrow as <-. split; simpl.
  - case_bool_decide as Hat.
    + destruct Hm as [lin Hid _ _ _ Hnew _ _|Hpl|Hpl]; [|by unfold pick_id in Hat; rewrite Hat in Hpl..].
      change (pr_id p.1) with (pick_id p) in Hid. rewrite Hid in Hstep, Hlast. simpl in Hstep.
      eapply introduce_inv; [done|done| |done|done|lia|exact Hstep].
      by eapply (landing_nodes landing p).
    + eapply land_place_inv; [done|done| |done|done|exact Hstep].
      destruct Hm as [lin Hid|Hpl|Hpl]; [|done..]. by unfold pick_id in Hat; rewrite Hid in Hat.
  - rewrite length_app, Hdrawn. simpl. lia.
  - apply Forall2_app; [done|]. constructor; [|constructor]. by split_and!.
  - rewrite List.filter_app, map_app, <-Hwait. simpl. by destruct (waits p).
Qed.

Lemma land_rows_all rest landing l l' :
  landed_all landing l → Forall moves (landing ++ rest) → NoDup (map pick_id (landing ++ rest)) →
  StronglySorted (λ p q, landing_le self p q = true) (landing ++ rest) →
  length (landing ++ rest) = length picks →
  try_fold (land_row self from_cells into_cells values) rest l = Ok l' → landed_all (landing ++ rest) l'.
Proof.
  revert landing l. induction rest as [|p rest IH]; intros landing l Hl Hall Hnd Hs Hlen Hfold; simpl in Hfold.
  - injection Hfold as <-. by rewrite app_nil_r.
  - apply result_bind_Ok in Hfold as (l1 & Hrow & Hfold).
    assert (landed_all (landing ++ [p]) l1) as Hl1.
    { apply Forall_app in Hall as [Hall [Hm _]%Forall_cons]. eapply land_row_all; try done.
      - rewrite map_app in Hnd. apply NoDup_app in Hnd as (_ & Hdis & _). intros Hin.
        apply (Hdis _ Hin). simpl. set_solver.
      - intros q Hq. eapply StronglySorted_app_1_elem_of in Hs; [exact Hs|done|set_solver].
      - rewrite length_app in Hlen. simpl in Hlen. lia. }
    rewrite (app_assoc landing [p] rest : landing ++ p :: rest = _) in *. by eapply IH.
Qed.

(** The picks in the order they land. *)
Definition landing_picks (landing : list Pick) : Prop :=
  map pick_id landing ≡ₚ picks ∧ Forall moves landing
  ∧ ∀ p, p ∈ landing → pick_row self picks (pick_id p) = Ok p.

Lemma apply_lands applied :
  NoDup picks → apply_picks self picks values = Ok applied →
  ∃ landing l, landing_picks landing ∧ landed_all landing l
    ∧ applied.(applied_next) = l.(land_next) ∧ applied.(applied_landed) = l.(land_landed)
    ∧ applied.(applied_waiting) = l.(land_waiting).
Proof.
  intros Hnd Happ. unfold apply_picks in Happ. apply result_bind_Ok in Happ as (landing & Hc & Happ).
  apply result_bind_Ok in Happ as (l & Hfold & Happ). apply result_bind_Ok in Happ as (next & Hparse & Happ).
  injection Happ as <-. simpl. destruct plan_sides as (Hf & Hi & Hh & _). rewrite Hf, Hi, Hh in Hfold.
  pose proof (collect_result_map _ pick_id id _ _ (λ pick p Hp, proj1 (pick_row_inv pick p Hp)) Hc) as Hids.
  rewrite map_id in Hids. apply collect_result_Ok in Hc.
  set (sorted := stable_sort (landing_le self) landing) in *.
  assert (sorted ≡ₚ landing) as Hperm by apply stable_sort_perm.
  assert (∀ p, p ∈ sorted → pick_row self picks (pick_id p) = Ok p ∧ moves p) as Hpicks.
  { intros p Hp. rewrite Hperm in Hp. apply list_elem_of_lookup in Hp as (i & Hp).
    destruct (Forall2_lookup_r _ _ _ _ _ Hc Hp) as (pick & _ & Hrow).
    pose proof (pick_row_inv _ _ Hrow) as (-> & Hm & _). done. }
  assert (landed_all sorted l) as Hl.
  { apply (land_rows_all sorted []) in Hfold; try done.
    - split; [apply landing_inv_start|done|constructor|done].
    - simpl. apply Forall_forall. intros p Hp. by apply Hpicks.
    - simpl. by rewrite Hperm, Hids.
    - simpl. apply stable_sort_sorted.
      + intros p q. unfold landing_le. rewrite !N.leb_le. lia.
      + intros p q r. unfold landing_le. rewrite !N.leb_le. lia.
    - simpl. rewrite Hperm, <-Hids. by rewrite length_map. }
  exists sorted, l. split_and!; [|done| |done|done].
  - split_and!; [by rewrite Hperm, Hids| |].
    + apply Forall_forall. intros p Hp. by apply Hpicks.
    + intros p Hp. by apply Hpicks.
  - destruct (parse_environment_intent _) as [n|] eqn:Hp; [|done]. injection Hparse as ->.
    by apply (parse_settled l.(land_next)); [apply Hl|].
Qed.
End Landing.
