(* ===== verification/SyncSample.v ===== *)
(** * Decoders that read what the program writes

    One set of decoders with the laws [DecoderLaws] asks of serde, reading each
    object field by field, and two Environments to sync: the receiver "production"
    lacks a Service and a Volume that the sender "staging" has. *)

From S2P Require Import Prelude BTree Strings Decimal Values Spec RuntimeOutcome Config.
From S2P Require Import ConfigValidation ConfigSpec ConfigJson SyncRows SyncPut SyncPlan.

Open Scope string_scope.
Open Scope nat_scope.
Open Scope list_scope.

Module SampleSync.

(** ** Leaves *)

Definition text (v : Value) : option string := match v with VString s => Some s | _ => None end.
Definition flag (v : Value) : option bool := match v with VBool b => Some b | _ => None end.

Definition optional {A} (read : Value → option A) (v : Value) : option (option A) :=
  match v with VNull => Some None | v => Some <$> read v end.

(** A number up to [max]. *)
Definition number (max : N) (v : Value) : option N :=
  match v with
  | VNumber t => n ← parse_u64 t; if (n <=? max)%N then Some n else None
  | _ => None
  end.

Definition positive (max : N) (v : Value) : option N :=
  n ← number max v; if (0 <? n)%N then Some n else None.

#[export] Instance float : JsonFloat := u64_to_string.

Definition float_bits (v : Value) : option N :=
  n ← number u64_max v; if is_finite n then Some n else None.

Definition list_of {A} (read : Value → option A) (v : Value) : option (list A) :=
  match v with VArray items => mapM read items | _ => None end.

(** A field of an object. *)
Definition field {A} (read : Value → option A) (key : string) (v : Value) : option A :=
  value_get v key ≫= read.

Definition defaulted {A} (x : A) (read : Value → option A) (key : string) (v : Value) : option A :=
  match value_get v key with Some f => read f | None => Some x end.

(** ** Services *)

Definition access (v : Value) : option ServiceGitAccess :=
  kind ← field text "type" v;
  if String.eqb kind "public" then Some AccessPublic
  else if String.eqb kind "github-installation"
  then AccessGithubInstallation <$> field (number u64_max) "installationId" v
  else None.

Definition branch (v : Value) : option ServiceGitBranch :=
  kind ← field text "type" v;
  if String.eqb kind "connected" then BranchConnected <$> field text "name" v
  else if String.eqb kind "disconnected"
  then BranchDisconnected <$> field (optional text) "previousName" v
  else None.

Definition credentials (v : Value) : option ServiceImageCredentials :=
  kind ← field text "type" v;
  if String.eqb kind "none" then Some CredentialsNone
  else if String.eqb kind "configured" then CredentialsConfigured <$> field text "credentialId" v
  else None.

Definition source (v : Value) : option ServiceSource :=
  kind ← field text "type" v;
  version ← field (number 255) "version" v;
  if String.eqb kind "empty" then SourceEmpty version <$> field text "rootDir" v
  else if String.eqb kind "git" then
    repository ← field text "repository" v;
    id ← field (number u64_max) "repositoryId" v;
    a ← field access "access" v;
    root ← field text "rootDir" v;
    b ← field branch "branch" v;
    Some (SourceGit version repository id a root b)
  else if String.eqb kind "image" then
    image ← field text "image" v;
    c ← field credentials "credentials" v;
    Some (SourceImage version image c)
  else None.

Definition healthcheck (v : Value) : option ServiceHealthcheck :=
  kind ← field text "type" v;
  if String.eqb kind "none" then Some ServiceHealthNone
  else if String.eqb kind "http" then
    path ← field text "path" v;
    ServiceHealthHttp path <$> field (number 65535) "timeoutSeconds" v
  else None.

Definition restart_policy (v : Value) : option RestartPolicy :=
  t ← text v;
  if String.eqb t "no" then Some RestartNo
  else if String.eqb t "always" then Some RestartAlways
  else if String.eqb t "unless-stopped" then Some RestartUnlessStopped
  else if String.eqb t "on-failure" then Some (RestartOnFailure None)
  else None.

Definition build_method_of (v : Value) : option BuildMethod :=
  t ← text v;
  if String.eqb t "dockerfile" then Some Dockerfile
  else if String.eqb t "railpack" then Some Railpack
  else None.

Definition service_name (v : Value) : option ServiceName :=
  s ← text v; if is_dns_label s then Some s else None.

Definition route (v : Value) : option ServiceRoute :=
  hostname ← field text "hostname" v;
  id ← field text "id" v;
  port ← field (optional (number 65535)) "targetPort" v;
  Some {| route_id := id; route_hostname := hostname; route_target_port := port |}.

Definition hostname (v : Value) : option ServiceManagedHostname :=
  prefix ← field text "prefix" v;
  port ← field (optional (number 65535)) "targetPort" v;
  Some {| managed_prefix := prefix; managed_target_port := port |}.

Definition build (v : Value) : option ServiceBuildConfig :=
  method ← field build_method_of "buildMethod" v;
  command ← field (optional text) "command" v;
  path ← field (optional text) "dockerfilePath" v;
  Some {| build_method := method; dockerfile_path := path; build_command := command |}.

Definition template (v : Value) : option ServiceTemplate :=
  id ← field text "id" v;
  version ← field (positive u32_max) "version" v;
  Some {| template_id := id; template_version := version |}.

Definition config (v : Value) : option AuthoredServiceConfig :=
  version ← field (number 255) "version" v;
  source ← field source "source" v;
  pre_deploy ← field (optional text) "preDeployCommand" v;
  start ← field (optional text) "startCommand" v;
  healthcheck ← field healthcheck "healthcheck" v;
  restart ← field restart_policy "restartPolicy" v;
  retries ← field (number 255) "maxRetries" v;
  replicas ← field (number 255) "replicas" v;
  cpu ← field (optional float_bits) "cpuLimit" v;
  mem ← field (optional float_bits) "memLimit" v;
  dns ← field service_name "privateDns" v;
  routes ← field (list_of route) "routes" v;
  hostnames ← field (list_of hostname) "managedHostnames" v;
  build ← field build "build" v;
  template ← defaulted None (λ v, Some <$> template v) "template" v;
  Some {| sc_version := version; sc_source := source; sc_pre_deploy_command := pre_deploy;
          sc_start_command := start; sc_healthcheck := healthcheck; sc_restart_policy := restart;
          sc_max_retries := retries; sc_replicas := replicas; sc_cpu_limit := cpu;
          sc_mem_limit := mem; sc_private_dns := dns; sc_routes := routes;
          sc_managed_hostnames := hostnames; sc_build := build; sc_template := template |}.

(** ** Environments *)

Definition owner (v : Value) : option ValuePartOwner :=
  scope ← field text "scope" v;
  if String.eqb scope "self" then Some OwnerSelf
  else if String.eqb scope "service" then OwnerService <$> field text "lineageId" v
  else None.

Definition part (v : Value) : option ValuePart :=
  kind ← field text "kind" v;
  if String.eqb kind "text" then PartText <$> field text "value" v
  else if String.eqb kind "ref" then
    o ← field owner "owner" v; PartRef o <$> field text "key" v
  else None.

Definition encrypted (v : Value) : option EncryptedSecretValue :=
  version ← field (number 255) "version" v;
  iv ← field text "iv" v;
  tag ← field text "tag" v;
  ciphertext ← field text "ciphertext" v;
  Some {| sealed_version := version; sealed_iv := iv; sealed_tag := tag;
          sealed_ciphertext := ciphertext |}.

Definition variable_value (v : Value) : option SavedVariableValue :=
  kind ← field text "kind" v;
  if String.eqb kind "literal" then VariableLiteral <$> field text "value" v
  else if String.eqb kind "template" then VariableTemplate <$> field (list_of part) "parts" v
  else if String.eqb kind "secret" then
    VariableSecret <$> field (optional encrypted) "encryptedValue" v
  else if String.eqb kind "secret_without_value" then Some VariableSecretWithoutValue
  else None.

Definition variable_of (v : Value) : option SavedVariableIntent :=
  description ← field (optional text) "description" v;
  exported ← field flag "exported" v;
  id ← field text "id" v;
  key ← field text "key" v;
  value ← field variable_value "value" v;
  fingerprint ← field text "valueFingerprint" v;
  Some {| var_id := id; var_key := key; var_description := description; var_exported := exported;
          var_value_fingerprint := fingerprint; var_value := value |}.

Definition attachment (v : Value) : option VolumeAttachment :=
  path ← field text "mountPath" v;
  id ← field text "volumeResourceId" v;
  Some {| volume_resource_id := id; mount_path := path |}.

Definition storage (v : Value) : option VolumeKind :=
  kind ← field text "kind" v;
  if String.eqb kind "docker" then Some VolumeDocker
  else if String.eqb kind "provisioned" then
    VolumeProvisioned <$> field (positive u64_max) "maximumBytes" v
  else None.

Definition volume (v : Value) : option SavedVolumeIntent :=
  name ← field text "name" v;
  id ← field text "resourceId" v;
  lineage ← field text "resourceLineageId" v;
  shared ← defaulted false flag "sharedWrites" v;
  kind ← field storage "storage" v;
  Some {| vol_resource_id := id; vol_resource_lineage_id := lineage; vol_name := name;
          vol_storage := kind; vol_shared_writes := shared |}.

Definition service (v : Value) : option SavedServiceIntent :=
  config ← field config "config" v;
  id ← field text "id" v;
  lineage ← field text "lineageId" v;
  slug ← field text "slug" v;
  variables ← field (list_of variable_of) "variables" v;
  attachments ← field (list_of attachment) "volumeAttachments" v;
  Some {| svc_id := id; svc_lineage_id := lineage; svc_slug := slug; svc_config := config;
          svc_variables := variables; svc_volume_attachments := attachments |}.

Definition document (v : Value) : option SavedEnvironmentIntent :=
  slug ← field text "environmentSlug" v;
  services ← field (list_of service) "services" v;
  version ← field (number 255) "version" v;
  volumes ← field (list_of volume) "volumes" v;
  Some {| env_version := version; env_slug := slug; env_services := services;
          env_volumes := volumes |}.

#[export] Instance decoders : ConfigDecoders := {|
  parse_bool := flag; parse_string := text; parse_opt_string := optional text;
  parse_u8 := number 255; parse_opt_f64 := optional float_bits;
  parse_service_name := service_name; parse_source := source; parse_git_branch := branch;
  parse_healthcheck := healthcheck; parse_restart_policy := restart_policy;
  parse_build_method := build_method_of; parse_storage := storage;
  parse_variable_value := variable_value; parse_document := document
|}.

(** ** The laws *)

Lemma number_read max n : (n ≤ max)%N → (max ≤ u64_max)%N → number max (json_u n) = Some n.
Proof.
  intros Hn Hm. unfold number, json_u. rewrite parse_u64_to_string by (unfold is_u64; lia). simpl.
  by rewrite (proj2 (N.leb_le _ _) Hn).
Qed.

Lemma number_bound max v n : number max v = Some n → (n ≤ max)%N.
Proof.
  destruct v; try done. simpl. intros (m & _ & Hm)%bind_Some. destruct (m <=? max)%N eqn:Hle; [|done].
  injection Hm as ->. by apply N.leb_le.
Qed.

Lemma positive_read max n : (0 < n)%N → (n ≤ max)%N → (max ≤ u64_max)%N → positive max (json_u n) = Some n.
Proof. intros H0 Hn Hm. unfold positive. rewrite number_read by done. simpl. by rewrite (proj2 (N.ltb_lt _ _) H0). Qed.

Lemma positive_bound max v n : positive max v = Some n → (0 < n ≤ max)%N.
Proof.
  intros (m & Hb%number_bound & Hm)%bind_Some. destruct (0 <? m)%N eqn:Hl; [|done]. injection Hm as ->.
  split; [by apply N.ltb_lt|done].
Qed.

Lemma u8_read n : is_u8 n → number 255 (json_u n) = Some n.
Proof. unfold is_u8. intros Hn. apply number_read; [lia|done]. Qed.

Lemma u16_read n : is_u16 n → number 65535 (json_u n) = Some n.
Proof. unfold is_u16. intros Hn. apply number_read; [lia|done]. Qed.

Lemma u64_read n : is_u64 n → number u64_max (json_u n) = Some n.
Proof. intros Hn. apply number_read; [exact Hn|apply N.le_refl]. Qed.

Lemma float_read n : is_f64 n → float_bits (json_f64 n) = Some n.
Proof.
  intros [Hn Hf]. unfold float_bits, json_f64. rewrite Hf. change (VNumber (f64_text n)) with (json_u n).
  rewrite u64_read by done. simpl. by rewrite Hf.
Qed.

Lemma optional_read {A} (read : Value → option A) (json : A → Value) o :
  holds (λ x, read (json x) = Some x ∧ json x ≠ VNull) o → optional read (json_option json o) = Some o.
Proof. destruct o as [x|]; [|done]. simpl. intros [Hx Hn]. destruct (json x) eqn:Hj; try done; simpl; by rewrite Hx. Qed.

Lemma list_read {A} (read : Value → option A) (json : A → Value) l :
  Forall (λ x, read (json x) = Some x) l → list_of read (VArray (map json l)) = Some l.
Proof. intros Hl. exact (mapM_fmap_Forall_Some read json l Hl). Qed.

Lemma text_read o : optional text (json_option VString o) = Some o.
Proof. by destruct o. Qed.

Lemma port_read o : holds is_u16 o → optional (number 65535) (json_option json_u o) = Some o.
Proof.
  intros Ho. apply optional_read. destruct o; [|done]. cbn [holds] in *. split; [by apply u16_read|done].
Qed.

Lemma float_opt_read o : holds is_f64 o → optional float_bits (json_option json_f64 o) = Some o.
Proof.
  intros Ho. apply optional_read. destruct o as [n|]; [|done]. cbn [holds] in *. split; [by apply float_read|].
  destruct Ho as [_ Hf]. unfold json_f64. by rewrite Hf.
Qed.

Lemma field_read {A} (read : Value → option A) key v f x :
  value_get v key = Some f → read f = Some x → field read key v = Some x.
Proof. unfold field. by intros ->. Qed.

Lemma defaulted_read {A} (d x : A) (read : Value → option A) key v :
  match value_get v key with Some f => read f = Some x | None => d = x end →
  defaulted d read key v = Some x.
Proof. unfold defaulted. destruct (value_get v key); [done|by intros ->]. Qed.

Lemma float_kept v n : float_bits v = Some n → is_f64 n.
Proof.
  intros (m & Hm%number_bound & Hf)%bind_Some. destruct (is_finite m) eqn:Hfin; [|done].
  injection Hf as ->. by split.
Qed.

Create HintDb reading.
#[local] Hint Resolve u8_read u16_read u64_read float_opt_read port_read text_read list_read : reading.
#[local] Hint Extern 1 (text (VString _) = Some _) => reflexivity : reading.
#[local] Hint Extern 1 (flag (VBool _) = Some _) => reflexivity : reading.
#[local] Opaque number positive float_bits.

Ltac read_fields :=
  repeat (match goal with
    | |- context [field ?read ?key ?v] =>
        erewrite (field_read read key v); [|reflexivity|solve [eauto 4 with reading]]
    end; cbn [mbind option_bind fmap option_fmap option_map String.eqb Ascii.eqb Bool.eqb]).

Lemma access_read a : typed_access a → access (ServiceGitAccess_json a) = Some a.
Proof. intros Ha. destruct a; unfold access; read_fields; done. Qed.

Lemma branch_read b : branch (ServiceGitBranch_json b) = Some b.
Proof. destruct b; unfold branch; read_fields; done. Qed.

Lemma credentials_read c : credentials (ServiceImageCredentials_json c) = Some c.
Proof. destruct c; unfold credentials; read_fields; done. Qed.

#[local] Hint Resolve access_read branch_read credentials_read : reading.

Lemma source_read s : typed_source s → source (ServiceSource_json s) = Some s.
Proof. intros Hs. destruct s; cbn [typed_source] in Hs; destruct_and?; unfold source; read_fields; done. Qed.

Lemma healthcheck_read h : typed_healthcheck h → healthcheck (ServiceHealthcheck_json h) = Some h.
Proof. intros Hh. destruct h; cbn [typed_healthcheck] in Hh; unfold healthcheck; read_fields; done. Qed.

Lemma restart_read p : typed_restart p → restart_policy (ServiceRestartPolicy_json p) = Some p.
Proof. by destruct p as [| | |[]]. Qed.

Lemma method_read m : build_method_of (BuildMethod_json m) = Some m.
Proof. by destruct m. Qed.

Lemma name_read s : is_dns_label s = true → service_name (VString s) = Some s.
Proof. intros Hs. unfold service_name. simpl. by rewrite Hs. Qed.

Lemma route_read r : holds is_u16 r.(route_target_port) → route (ServiceRoute_json r) = Some r.
Proof. intros Hr. unfold route. read_fields. by destruct r. Qed.

Lemma hostname_read h : holds is_u16 h.(managed_target_port) → hostname (ServiceManagedHostname_json h) = Some h.
Proof. intros Hr. unfold hostname. read_fields. by destruct h. Qed.

#[local] Hint Resolve source_read healthcheck_read restart_read method_read name_read : reading.

Lemma build_read b : build (ServiceBuildConfig_json b) = Some b.
Proof. unfold build. read_fields. by destruct b. Qed.

Lemma template_read t :
  is_u32 t.(template_version) → (0 < t.(template_version))%N → template (ServiceTemplate_json t) = Some t.
Proof.
  intros Hu Hp. assert (positive u32_max (json_u t.(template_version)) = Some t.(template_version))
    by (apply positive_read; [done|done|by vm_compute]).
  unfold template. read_fields. by destruct t.
Qed.

#[local] Hint Resolve build_read : reading.

Lemma config_read c : typed_config c → config (AuthoredServiceConfig_json c) = Some c.
Proof.
  intros []. assert (list_of route (VArray (map ServiceRoute_json c.(sc_routes))) = Some c.(sc_routes)).
  { apply list_read. eapply Forall_impl; [exact tc_routes|]. apply route_read. }
  assert (list_of hostname (VArray (map ServiceManagedHostname_json c.(sc_managed_hostnames)))
          = Some c.(sc_managed_hostnames)).
  { apply list_read. eapply Forall_impl; [exact tc_hostnames|]. apply hostname_read. }
  assert (∀ json, json = AuthoredServiceConfig_json c → defaulted None (λ v, Some <$> template v) "template" json
          = Some c.(sc_template)) as Htemplate.
  { intros json ->. apply defaulted_read. unfold AuthoredServiceConfig_json. destruct (sc_template c) as [t|]; [|done].
    simpl. by rewrite template_read by apply tc_template. }
  unfold config. rewrite (Htemplate _ eq_refl). clear Htemplate.
  unfold AuthoredServiceConfig_json. destruct (sc_template c) eqn:Ht; read_fields; rewrite <-Ht; by destruct c.
Qed.

Lemma owner_read o : owner (ValuePartOwner_json o) = Some o.
Proof. destruct o; unfold owner; read_fields; done. Qed.
#[local] Hint Resolve owner_read : reading.

Lemma part_read x : part (ValuePart_json x) = Some x.
Proof. destruct x; unfold part; read_fields; done. Qed.

Lemma encrypted_read e : is_u8 e.(sealed_version) → encrypted (EncryptedSecretValue_json e) = Some e.
Proof. intros He. unfold encrypted. read_fields. by destruct e. Qed.

Lemma variable_value_read v : typed_variable_value v → variable_value (SavedVariableValue_json v) = Some v.
Proof.
  intros Hv. destruct v as [t|parts|e|]; unfold variable_value.
  - read_fields. done.
  - assert (list_of part (VArray (map ValuePart_json parts)) = Some parts).
    { apply list_read, Forall_forall. intros x _. apply part_read. }
    read_fields. done.
  - assert (optional encrypted (json_option EncryptedSecretValue_json e) = Some e).
    { apply optional_read. destruct e; [|done]. cbn [holds] in *. split; [by apply encrypted_read|done]. }
    read_fields. done.
  - read_fields. done.
Qed.
#[local] Hint Resolve config_read variable_value_read : reading.

Lemma variable_read v : typed_variable_value v.(var_value) → variable_of (SavedVariableIntent_json v) = Some v.
Proof. intros Hv. unfold variable_of. read_fields. by destruct v. Qed.

Lemma attachment_read a : attachment (VolumeAttachment_json a) = Some a.
Proof. unfold attachment. read_fields. by destruct a. Qed.

Lemma storage_read k : typed_storage k → storage (VolumeKind_json k) = Some k.
Proof.
  intros Hk. destruct k as [|n]; unfold storage; [by read_fields|].
  assert (positive u64_max (json_u n) = Some n) by (apply positive_read; [apply Hk|apply Hk|apply N.le_refl]).
  read_fields. done.
Qed.
#[local] Hint Resolve storage_read : reading.

Lemma volume_read v : typed_storage v.(vol_storage) → volume (SavedVolumeIntent_json v) = Some v.
Proof.
  intros Hv. unfold volume.
  assert (defaulted false flag "sharedWrites" (SavedVolumeIntent_json v) = Some v.(vol_shared_writes)) as ->.
  { apply defaulted_read. unfold SavedVolumeIntent_json. by destruct (vol_shared_writes v). }
  unfold SavedVolumeIntent_json. destruct (vol_shared_writes v) eqn:Hs; read_fields; rewrite <-Hs; by destruct v.
Qed.

Lemma service_read s : typed_service s → service (SavedServiceIntent_json s) = Some s.
Proof.
  intros [Hc Hv].
  assert (list_of variable_of (VArray (map SavedVariableIntent_json s.(svc_variables))) = Some s.(svc_variables)).
  { apply list_read. eapply Forall_impl; [exact Hv|]. apply variable_read. }
  assert (list_of attachment (VArray (map VolumeAttachment_json s.(svc_volume_attachments)))
          = Some s.(svc_volume_attachments)).
  { apply list_read, Forall_forall. intros x _. apply attachment_read. }
  unfold service. read_fields. by destruct s.
Qed.

Lemma document_read d : typed d → document (SavedEnvironmentIntent_json d) = Some d.
Proof.
  intros [Hv Hs Hst].
  assert (list_of service (VArray (map SavedServiceIntent_json d.(env_services))) = Some d.(env_services)).
  { apply list_read. eapply Forall_impl; [exact Hs|]. apply service_read. }
  assert (list_of volume (VArray (map SavedVolumeIntent_json d.(env_volumes))) = Some d.(env_volumes)).
  { apply list_read. eapply Forall_impl; [exact Hst|]. apply volume_read. }
  unfold document. read_fields. by destruct d.
Qed.

(** ** Only values of the type *)

Ltac invert_read :=
  repeat match goal with
    | H : (_ ≫= _) = Some _ |- _ => apply bind_Some in H as (? & ? & H)
    | H : (_ <$> _) = Some _ |- _ => apply fmap_Some in H as (? & ? & ?)
    | H : field _ _ _ = Some _ |- _ => apply bind_Some in H as (? & ? & H)
    | H : (if ?b then _ else _) = Some _ |- _ => destruct b
    | H : Some _ = Some _ |- _ => injection H as H
    | H : number _ _ = Some _ |- _ => apply number_bound in H
    | H : positive _ _ = Some _ |- _ => apply positive_bound in H
    end; subst; try done.

Lemma optional_typed {A} (P : A → Prop) (read : Value → option A) v o :
  (∀ v x, read v = Some x → P x) → optional read v = Some o → holds P o.
Proof.
  intros Hr. destruct v; simpl; [by intros [= <-]|..]; (intros (x & Hx & ->)%fmap_Some; by eapply Hr).
Qed.

Lemma access_typed v a : access v = Some a → typed_access a.
Proof. unfold access. intros Ha. invert_read. Qed.

Lemma source_kept v s : source v = Some s → typed_source s.
Proof.
  unfold source. intros Hs. invert_read; cbn [typed_source]; unfold is_u8; try lia.
  split_and!; [lia|done|by eapply access_typed].
Qed.

Lemma healthcheck_kept v h : healthcheck v = Some h → typed_healthcheck h.
Proof. unfold healthcheck. intros Hh. invert_read. cbn [typed_healthcheck]. unfold is_u16. lia. Qed.

Lemma restart_kept v p : restart_policy v = Some p → typed_restart p.
Proof. unfold restart_policy. intros Hp. invert_read. Qed.

Lemma storage_kept v k : storage v = Some k → typed_storage k.
Proof. unfold storage. intros Hk. invert_read. Qed.

Lemma encrypted_kept v e : encrypted v = Some e → is_u8 e.(sealed_version).
Proof. unfold encrypted. intros He. invert_read. unfold is_u8. cbn [sealed_version]. lia. Qed.

Lemma variable_value_kept v x : variable_value v = Some x → typed_variable_value x.
Proof.
  unfold variable_value. intros Hx. invert_read. cbn [typed_variable_value].
  eapply optional_typed; [apply encrypted_kept|done].
Qed.

#[export] Instance laws : DecoderLaws.
Proof.
  split; try done.
  - apply text_read.
  - apply u8_read.
  - apply float_opt_read.
  - apply name_read.
  - apply source_read.
  - apply branch_read.
  - apply healthcheck_read.
  - apply restart_read.
  - apply method_read.
  - apply storage_read.
  - apply variable_value_read.
  - apply document_read.
  - apply source_kept.
  - apply healthcheck_kept.
  - apply restart_kept.
  - intros v n Hn%number_bound. unfold is_u8. lia.
  - intros v o. apply optional_typed, float_kept.
  - intros v s (t & _ & Ht)%bind_Some. by destruct (is_dns_label t) eqn:Hl; simplify_eq.
  - apply storage_kept.
  - apply variable_value_kept.
Qed.
#[local] Transparent number positive float_bits.

(** ** Two Environments *)

#[export] Instance uuids : Uuids := λ n, "00000000-0000-0000-" +:+ digits_fixed 17 (N.of_nat n).

Definition uuid (last : string) : string := "ffffffff-ffff-ffff-ffff-ffffffffff" +:+ last.

Definition web (prefix : string) (start : option string) : AuthoredServiceConfig :=
  {| sc_version := 2; sc_source := SourceGit 2 "acme/web" 7 AccessPublic "/" (BranchConnected "main");
     sc_pre_deploy_command := None; sc_start_command := start;
     sc_healthcheck := ServiceHealthNone; sc_restart_policy := RestartUnlessStopped;
     sc_max_retries := 10; sc_replicas := 1; sc_cpu_limit := None; sc_mem_limit := None;
     sc_private_dns := "web"; sc_routes := [];
     sc_managed_hostnames := [{| managed_prefix := prefix; managed_target_port := Some 80%N |}];
     sc_build := {| build_method := Railpack; dockerfile_path := None; build_command := None |};
     sc_template := None |}.

Definition secret (version : N) (ciphertext : string) : EncryptedSecretValue :=
  {| sealed_version := version; sealed_iv := "iv"; sealed_tag := "tag"; sealed_ciphertext := ciphertext |}.

Definition variable (last key : string) (value : SavedVariableValue) : SavedVariableIntent :=
  {| var_id := uuid last; var_key := key; var_description := None; var_exported := false;
     var_value_fingerprint := "f"; var_value := value |}.

Definition staging : SavedEnvironmentIntent :=
  {| env_version := 1; env_slug := "staging";
     env_services := [{| svc_id := uuid "01"; svc_lineage_id := uuid "02"; svc_slug := "web";
                         svc_config := web "web-staging" (Some "npm start");
                         svc_variables := [variable "03" "TOKEN" (VariableSecret (Some (secret 1 "staging-token")));
                                           variable "04" "MODE" (VariableLiteral "fast")];
                         svc_volume_attachments := [] |}];
     env_volumes := [{| vol_resource_id := uuid "05"; vol_resource_lineage_id := uuid "06";
                        vol_name := "data"; vol_storage := VolumeDocker; vol_shared_writes := false |}] |}.

Definition production : SavedEnvironmentIntent :=
  {| env_version := 1; env_slug := "production";
     env_services := [{| svc_id := uuid "11"; svc_lineage_id := uuid "02"; svc_slug := "web";
                         svc_config := web "web-production" None;
                         svc_variables := [variable "13" "KEY" (VariableSecret (Some (secret 1 "production-key")))];
                         svc_volume_attachments := [] |}];
     env_volumes := [] |}.

Definition sides : Sides :=
  {| side_base := None; side_from := staging; side_into := production;
     side_hostnames := {| hosts_from := "-staging"; hosts_into := "-production" |} |}.

Definition policy : Policy := Policy_new WaySync.

(** Every row the plan lets move. *)
Definition picks : bset RowId :=
  bset_of (omap (λ row, match row.(pr_verdict) with Moves _ _ _ => Some row.(pr_id) | Differs _ => None end)
             (plan sides policy).(plan_rows)).
End SampleSync.
