(* ===== verification/SyncSpec.v ===== *)
(** * What a Sync promises

    The plan and its landing, on documents the program holds: exactly the picked rows
    land, a Sync carries no secret's value, takes nothing away and leaves what is the
    receiver's own, and the rows said to land do land. *)

From S2P Require Import Prelude BTree Strings Decimal Values Spec RuntimeOutcome Config.
From S2P Require Import ConfigValidation ConfigSpec ConfigJson SyncRows SyncPut SyncPlan SyncLens.
From S2P Require Import SyncLaws SyncLand SyncVerdicts SyncApply SyncSample.

Open Scope string_scope.
Open Scope nat_scope.
Open Scope list_scope.

(** A document as the program holds it: admitted, of the program's types, and no lineage both a
    Service's and a Volume's. *)
Record held `{ConfigCrates} (intent : SavedEnvironmentIntent) : Prop := {
  held_normal : normal_form intent;
  held_typed : typed intent;
  held_lineages : NoDup (lineages intent)
}.

Section Held.
Context `{ConfigCrates}.

Lemma held_addressed intent : held intent → addressed intent.
Proof.
  intros [Hn _ Hl]. apply admitted_wf in Hn. destruct Hn. split; [done|by apply wf_volume_ids|].
  eapply Forall_impl; [exact wf_services|]. intros s []. split; [done|by apply service_attachments|].
  intros a (v & Hv & <-)%service_mounts_authored. by apply list_elem_of_fmap_2.
Qed.

Lemma held_ready intent : held intent → ready intent.
Proof.
  intros [Hn [Hv Hs Hvol] _]. apply admitted_wf in Hn. destruct Hn. split; [done| |done].
  apply Forall_forall. intros s Hin.
  eapply Forall_forall in wf_services as []; [|exact Hin].
  eapply Forall_forall in Hs as []; [|exact Hin]. split; [|done]. by apply parsed_settled.
Qed.
End Held.

(** What a landing is given: two documents, values whose version is a byte, a suffix of host
    characters, and identities drawn for its picks that differ from each other and from those
    of the receiver's Volumes. *)
Record exchange `{ConfigCrates, Uuids} (sides : Sides) (picks : bset RowId)
    (values : bmap RowId SealedSecret) : Prop := {
  ex_from : held sides.(side_from);
  ex_into : held sides.(side_into);
  ex_picks : bset_wf picks;
  ex_values row secret : bget values row = Some secret → is_u8 secret.(secret_value).(sealed_version);
  ex_suffix : bytes_all is_host_byte sides.(side_hostnames).(hosts_into) = true;
  ex_fresh : NoDup (map new_v4 (seq 0 (2 * length picks))
                    ++ map vol_resource_id sides.(side_into).(env_volumes))
}.

(** What a document holds at a row, a secret with its value. *)
Definition cell_at `{JsonFloat} (env : SavedEnvironmentIntent) (suffix : string) (row : RowId)
    : SealedCell := sealed_cell env (Cells_of env suffix) row.

Section Sync.
Context `{ConfigCrates, JsonFloat, ConfigDecoders, !DecoderLaws, Uuids}.
Context (sides : Sides) (policy : Policy).
Abbreviation from := sides.(side_from).
Abbreviation into := sides.(side_into).
Abbreviation hosts := sides.(side_hostnames).
Abbreviation self := (plan sides policy).
Abbreviation from_at := (cell_at from hosts.(hosts_from)).
Abbreviation into_at := (cell_at into hosts.(hosts_into)).

(** The plan lets [row] move, arriving as [arrives]. *)
Definition offered (row : RowId) (arrives : Arrives) : Prop :=
  ∃ planned conflict ticked, planned ∈ self.(plan_rows) ∧ planned.(pr_id) = row
    ∧ planned.(pr_verdict) = Moves conflict ticked arrives.

(** The document [next] is the receiver's with exactly the picks landed. *)
Record lands_exactly (picks : bset RowId) (values : bmap RowId SealedSecret)
    (next : SavedEnvironmentIntent) : Prop := {
  lx_nodes l : l ∈ lineages next ↔ l ∈ lineages into ∨ RowId_node l ∈ picks;
  lx_fresh l : RowId_node l ∈ picks → l ∈ lineages from ∧ l ∉ lineages into;
  lx_picked row : row ∈ picks → is_place row.(row_at) = true →
    ∃ arrives, offered row arrives
      ∧ cell_at next hosts.(hosts_into) row
        = match arrives with
          | AsIs => from_at row
          | NeedsValue => match bget values row with
                          | Some secret => SealedCellSecret secret
                          | None => PlainCell CellSecretWithoutValue
                          end
          end;
  lx_new row : row ∉ picks → is_place row.(row_at) = true → RowId_node row.(row_lineage) ∈ picks →
    cell_at next hosts.(hosts_into) row
    = if At_needed row.(row_at) then from_at row else PlainCell Absent;
  lx_kept row : row ∉ picks → is_place row.(row_at) = true → RowId_node row.(row_lineage) ∉ picks →
    ¬ (row.(row_at) = AtSetting SetBranch
       ∧ {| row_lineage := row.(row_lineage); row_at := AtSetting SetSource |} ∈ picks) →
    cell_at next hosts.(hosts_into) row = into_at row;
  lx_branch l : {| row_lineage := l; row_at := AtSetting SetSource |} ∈ picks →
    cell_at next hosts.(hosts_into) {| row_lineage := l; row_at := AtSetting SetBranch |}
    = PlainCell (branch_after
        (to_redacted (cell_at next hosts.(hosts_into) {| row_lineage := l; row_at := AtSetting SetSource |}))
        (to_redacted (into_at {| row_lineage := l; row_at := AtSetting SetBranch |})))
}.

Section Given.
Context (picks : bset RowId) (values : bmap RowId SealedSecret) (Hex : exchange sides picks values).
Abbreviation Pick := (PlannedRow * Arrives)%type.

Lemma cell_at_place env suffix row :
  addressed env → is_place row.(row_at) = true →
  cell_at env suffix row = sealed_place env suffix row.(row_lineage) row.(row_at).
Proof. apply sealed_cell_place. Qed.

Lemma offered_pick p :
  pick_row self picks (pick_id p) = Ok p → offered (pick_id p) p.2.
Proof.
  unfold pick_row. intros (row & Hrow%ok_or_Ok & Hp)%result_bind_Ok.
  apply find_Some_elem in Hrow as [Hrow Hid%bool_decide_eq_true].
  destruct (pr_verdict row) as [conflict ticked arrives|] eqn:Hv; [|done].
  assert (p = (row, arrives)) as ->.
  { destruct (pr_requires row); [case_bool_decide|]; by simplify_eq. }
  by exists row, conflict, ticked.
Qed.

Lemma picked_picks landing row :
  landing_picks policy sides picks landing → row ∈ picks →
  ∃ p, picked landing row = Some p ∧ p ∈ landing ∧ pick_id p = row.
Proof.
  intros (Hids & _) Hrow. rewrite <-Hids in Hrow.
  destruct (picked landing row) as [p|] eqn:Hp; [|by apply picked_None in Hp].
  exists p. split; [done|]. by apply picked_Some.
Qed.

Lemma unpicked_picks landing row :
  landing_picks policy sides picks landing → row ∉ picks → picked landing row = None.
Proof. intros (Hids & _) Hrow. rewrite <-Hids in Hrow. by apply picked_None. Qed.

Lemma picked_node_new landing l :
  landing_picks policy sides picks landing → RowId_node l ∈ picks →
  l ∈ lineages from ∧ l ∉ lineages into.
Proof.
  intros Hl Hnode. pose proof Hl as (_ & Hall & _). rewrite Forall_forall in Hall.
  destruct (picked_picks _ _ Hl Hnode) as (p & _ & Hp & Hid). apply Hall in Hp. unfold pick_id in *.
  destruct Hp as [l' Heq _ _ Hf Hnew _ _|Hpl|Hpl]; [|by rewrite Hid in Hpl..].
  rewrite Hid in Heq. by injection Heq as <-.
Qed.

(** A new node's source is not a pick. *)
Lemma source_of_new landing l :
  landing_picks policy sides picks landing → RowId_node l ∈ picks →
  {| row_lineage := l; row_at := AtSetting SetSource |} ∉ picks.
Proof.
  intros Hl Hnode Hsrc. pose proof Hl as (_ & Hall & _). rewrite Forall_forall in Hall.
  destruct (picked_picks _ _ Hl Hsrc) as (q & _ & Hq & Hid').
  apply Hall in Hq. unfold pick_id in *. destruct (picked_node_new _ _ Hl Hnode) as [_ Hnew].
  destruct Hq as [l' Heq|_ _ _ Hi|_ Hcar]; [by rewrite Hid' in Heq| |by rewrite Hid' in Hcar].
  by rewrite Hid' in Hi.
Qed.

Lemma lands_exactly_of landing l applied_next :
  landing_picks policy sides picks landing → landed_all policy sides values landing l →
  applied_next = l.(land_next) → lands_exactly picks values applied_next.
Proof using Hex.
  intros Hl [[[Ha Hr _ Hlin _ Hp] _] _ _ _] ->. pose proof (held_addressed _ (ex_from _ _ _ Hex)) as Hfrom.
  pose proof (held_addressed _ (ex_into _ _ _ Hex)) as Hinto.
  assert (∀ row, is_place row.(row_at) = true →
    cell_at l.(land_next) hosts.(hosts_into) row = place_after policy sides values landing row.(row_lineage) row.(row_at)) as Hcell.
  { intros row Hpl. by rewrite cell_at_place, Hp. }
  split.
  - intros lin. rewrite Hlin. split; (intros [?|Hn]; [by left|right]).
    + destruct Hn as [p Hn]. apply picked_Some in Hn as [Hin Hid]. destruct Hl as [Hids _].
      rewrite <-Hids, <-Hid. by apply list_elem_of_fmap_2.
    + destruct (picked_picks _ _ Hl Hn) as (p & -> & _). done.
  - intros lin. by eapply picked_node_new.
  - intros row Hrow Hpl. destruct (picked_picks _ _ Hl Hrow) as (p & Hpick & Hin & Hid).
    pose proof Hl as (_ & _ & Hok). apply Hok, offered_pick in Hin. rewrite Hid in Hin.
    exists p.2. split; [done|]. rewrite Hcell by done. unfold place_after. destruct row as [rl rat]; simpl in *.
    rewrite Hpick. unfold pick_cell, arrival. rewrite Hid. destruct (plan_sides policy sides) as (Hf & _).
    destruct p.2; [by rewrite Hf|]. by destruct (bget values _).
  - intros row Hrow Hpl Hnode. rewrite Hcell by done. unfold place_after, place_before.
    destruct row as [rl rat]; simpl in *. rewrite (unpicked_picks _ _ Hl Hrow).
    rewrite (unpicked_picks _ _ Hl (source_of_new _ _ Hl Hnode)).
    destruct (picked_picks _ _ Hl Hnode) as (p & Hpick & _). rewrite Hpick.
    rewrite cell_at_place by done. by destruct rat as [| | | |[]| |].
  - intros row Hrow Hpl Hnode Hns. rewrite Hcell by done. unfold place_after, place_before.
    destruct row as [rl rat]; simpl in *. rewrite (unpicked_picks _ _ Hl Hrow), (unpicked_picks _ _ Hl Hnode).
    rewrite cell_at_place by done. destruct rat as [| | | |setting| |]; try done.
    destruct (decide (setting = SetBranch)) as [->|]; [|by destruct setting].
    rewrite (unpicked_picks landing {| row_lineage := rl; row_at := AtSetting SetSource |} Hl); [done|].
    intros Hs. by apply Hns.
  - intros lin Hsrc. rewrite !Hcell by done. simpl. destruct (picked_picks _ _ Hl Hsrc) as (p & Hpick & _).
    unfold place_after. rewrite Hpick, (branch_unpicked policy sides) by apply Hl. unfold place_before.
    rewrite (unpicked_picks landing (RowId_node lin)); [|done|].
    + by rewrite cell_at_place.
    + intros Hn. by eapply source_of_new.
Qed.
End Given.

Lemma apply_lands_exactly picks values applied :
  exchange sides picks values → apply_picks self picks values = Ok applied →
  lands_exactly picks values applied.(applied_next) ∧ addressed applied.(applied_next).
Proof.
  intros Hex Happ. pose proof Hex as [Hf Hi Hwf Hvals Hsuf Hfresh].
  destruct (apply_lands policy sides values picks (held_addressed _ Hf) (held_addressed _ Hi)
    (held_ready _ Hf) (held_ready _ Hi) Hvals Hfresh Hsuf applied (bset_wf_NoDup _ Hwf) Happ)
    as (landing & l & Hl & Hall & Hnext & _).
  split; [by eapply lands_exactly_of|]. rewrite Hnext. apply Hall.
Qed.

(** C37: Exactly the picked rows land. After [Plan::apply] the receiver's document has the
    nodes it had and the picked new ones; each picked place holds what the sender holds there
    (a secret that may not travel holds the value supplied for it, or waits for one); a new
    node has the sender's settings it needs to exist and nothing else that was not picked; a
    source that lands keeps the receiver's git branch; and every other place is as it was. *)
Theorem apply_exact picks values applied :
  exchange sides picks values → apply_picks self picks values = Ok applied →
  lands_exactly picks values applied.(applied_next).
Proof. intros. by eapply apply_lands_exactly. Qed.

(** ** What a row that moves compares *)

Lemma offered_moving row arrives :
  addressed from → addressed into → offered row arrives →
  ∃ planned, moving policy sides planned arrives ∧ planned.(pr_id) = row.
Proof.
  intros Hf Hi (planned & conflict & ticked & Hin & Hid & Hv). exists planned. split; [|done].
  by eapply plan_moves.
Qed.

Lemma offered_lets row arrives :
  addressed from → addressed into → offered row arrives → is_place row.(row_at) = true →
  ∃ base, lets policy row base (to_redacted (from_at row)) (to_redacted (into_at row)) arrives.
Proof.
  intros Hf Hi Hoff Hpl. destruct (offered_moving row arrives Hf Hi Hoff) as (planned & Hm & <-).
  rewrite !cell_at_place, !redacted_place by done.
  destruct (pr_id planned) as [l at_] eqn:Hid.
  destruct Hm as [l' Hid'|_ _ _ _ _ Hpf Hl|_ _ _ _ Hnew _ Hpf Hl].
  - rewrite Hid in Hid'. injection Hid' as -> ->. done.
  - rewrite Hpf, Hid in Hl. eauto.
  - exists Absent. rewrite Hpf, Hid in Hl. rewrite Hid in Hnew. simpl in *.
    assert (look into hosts.(hosts_into) {| row_lineage := l; row_at := at_ |} = Absent) as ->; [|done].
    unfold look. simpl. by rewrite (proj2 (node_absent into l Hi) Hnew).
Qed.

(** A place that is not a variable holds no secret. *)
Lemma sealed_only_variables env suffix row secret :
  addressed env → is_place row.(row_at) = true → cell_at env suffix row = SealedCellSecret secret →
  ∃ key, row.(row_at) = AtVariable key.
Proof.
  intros Hok Hpl Hc. apply (secret_at env suffix row Hok). destruct row as [l at_]. 
  rewrite cell_at_place in Hc by done. simpl in *. rewrite <-redacted_place by done. by rewrite Hc.
Qed.

Lemma sync_sealed_cells picks values applied row secret :
  exchange sides picks values → policy.(pol_way) = WaySync →
  apply_picks self picks values = Ok applied → is_place row.(row_at) = true →
  cell_at applied.(applied_next) hosts.(hosts_into) row = SealedCellSecret secret →
  bget values row = Some secret ∨ into_at row = SealedCellSecret secret.
Proof.
  intros Hex Hway Happ Hpl Hsecret.
  destruct (apply_lands_exactly _ _ _ Hex Happ) as [[_ _ Hpicked Hnew Hkept Hbranch] Hnext].
  pose proof (held_addressed _ (ex_from _ _ _ Hex)) as Hfrom. pose proof (held_addressed _ (ex_into _ _ _ Hex)) as Hinto.
  destruct (sealed_only_variables _ _ _ _ Hnext Hpl Hsecret) as [key Hat].
  destruct (decide (row ∈ picks)) as [Hin|Hout].
  - destruct (Hpicked row Hin Hpl) as ([] & Hoff & Hcell); rewrite Hsecret in Hcell.
    + apply offered_lets in Hoff as [base Hlets]; [|done..]. rewrite <-Hcell in Hlets.
      by apply sync_as_is in Hlets as [? _].
    + destruct (bget values row); [by injection Hcell as ->; left|done].
  - destruct (decide (RowId_node row.(row_lineage) ∈ picks)) as [Hn|Hn].
    + rewrite Hnew, Hat in Hsecret by done. done.
    + rewrite Hkept in Hsecret; [by right|done..|]. rewrite Hat. by intros [? _].
Qed.

(** C39: A Sync carries no secret's value. Every sealed value in the receiver's document after
    a Sync is one the receiver held at that variable before, or one supplied for that row. *)
Theorem sync_carries_no_secret picks values applied service variable sealed :
  exchange sides picks values → policy.(pol_way) = WaySync →
  apply_picks self picks values = Ok applied →
  service ∈ applied.(applied_next).(env_services) → variable ∈ service.(svc_variables) →
  variable.(var_value) = VariableSecret (Some sealed) →
  let row := {| row_lineage := service.(svc_lineage_id); row_at := AtVariable variable.(var_key) |} in
  let secret := {| secret_fingerprint := variable.(var_value_fingerprint); secret_value := sealed |} in
  bget values row = Some secret ∨ into_at row = SealedCellSecret secret.
Proof.
  intros Hex Hway Happ Hs Hv Hval row secret. eapply sync_sealed_cells; [done..|].
  destruct (apply_lands_exactly _ _ _ Hex Happ) as [_ Hnext].
  rewrite cell_at_place by done. unfold sealed_place. simpl.
  rewrite (proj2 (service_of_elem _ _ service Hnext)) by done. simpl.
  pose proof (addressed_service _ _ Hnext Hs) as [Hkeys _ _].
  rewrite (proj2 (find_has_key _ variable _ Hkeys)) by done. unfold sealed_variable. by rewrite Hval.
Qed.

(** What the git branch of a Service becomes when its source lands and is, or was, not Git: a
    branch has no meaning without a Git source, and a new Git source has none chosen yet. *)
Definition branch_follows (picks : bset RowId) (next : SavedEnvironmentIntent) (row : RowId) : Prop :=
  let source := {| row_lineage := row.(row_lineage); row_at := AtSetting SetSource |} in
  row.(row_at) = AtSetting SetBranch ∧ source ∈ picks
  ∧ if git_cell (to_redacted (cell_at next hosts.(hosts_into) source))
    then into_at row = PlainCell Absent
         ∧ cell_at next hosts.(hosts_into) row
           = PlainCell (CellValue (ServiceGitBranch_json (BranchDisconnected None)))
    else cell_at next hosts.(hosts_into) row = PlainCell Absent.

(** A place the Sync may not write: the sender has nothing there, a side marked it never to sync,
    it is a setting each Environment owns, or the receiver holds a secret there. *)
Definition receivers_own (row : RowId) : Prop :=
  from_at row = PlainCell Absent ∨ row ∈ policy.(from_marks) ∨ row ∈ policy.(into_marks)
  ∨ is_Some (owned_setting row.(row_at)) ∨ is_secret (to_redacted (into_at row)) = true.

Lemma own_not_picked picks values applied row :
  exchange sides picks values → policy.(pol_way) = WaySync →
  apply_picks self picks values = Ok applied → row.(row_lineage) ∈ lineages into →
  is_place row.(row_at) = true → receivers_own row → row ∉ picks.
Proof.
  intros Hex Hway Happ Hl Hpl Hown Hin.
  destruct (apply_lands_exactly _ _ _ Hex Happ) as [[_ _ Hpicked _ _ _] _].
  pose proof (held_addressed _ (ex_from _ _ _ Hex)) as Hfrom.
  pose proof (held_addressed _ (ex_into _ _ _ Hex)) as Hinto.
  destruct (Hpicked row Hin Hpl) as (arrives & Hoff & _).
  destruct (offered_lets _ _ Hfrom Hinto Hoff Hpl) as [base Hlets].
  pose proof Hlets as (_ & _ & Hmark & conflict & Ht).
  unfold marked in Hmark. unfold travels in Ht. rewrite Hway in Hmark, Ht.
  apply orb_false_iff in Hmark as [Hm1%bool_decide_eq_false Hm2%bool_decide_eq_false].
  destruct Hown as [Habs|[?|[?|[[why Hown]|Hsec]]]]; [|done|done| |].
  - by rewrite Habs in Ht.
  - destruct (offered_moving _ _ Hfrom Hinto Hoff) as (planned & Hm & <-).
    destruct Hm as [l' Hid|_ _ _ _ Hno|_ _ _ _ Hnew _ _ _]; [by rewrite Hid in Hpl|congruence|done].
  - rewrite Hsec, orb_true_r, orb_comm in Ht. simpl in Ht.
    assert (to_redacted (into_at row) ≠ Absent) as Hne by (intros Heq; by rewrite Heq in Hsec).
    by rewrite (bool_decide_eq_false_2 _ Hne) in Ht.
Qed.

(** C40: A Sync takes nothing away and leaves what is the receiver's own. Every node the
    receiver had is still there, and a place of it keeps what it held whenever the sender has
    nothing there, the row is marked never to sync on either side, the setting is one each
    Environment owns, or the receiver holds a secret there. The one exception is the git
    branch of a Service whose source lands: landing a source that is not Git drops it, and
    landing a Git one where there was none leaves it to be chosen. *)
Theorem sync_keeps_receiver picks values applied :
  exchange sides picks values → policy.(pol_way) = WaySync →
  apply_picks self picks values = Ok applied →
  (∀ l, l ∈ lineages into → l ∈ lineages applied.(applied_next))
  ∧ ∀ row, row.(row_lineage) ∈ lineages into → is_place row.(row_at) = true → receivers_own row →
      cell_at applied.(applied_next) hosts.(hosts_into) row = into_at row
      ∨ branch_follows picks applied.(applied_next) row.
Proof.
  intros Hex Hway Happ.
  destruct (apply_lands_exactly _ _ _ Hex Happ) as [[Hnodes Hfresh _ _ Hkept Hbranch] _].
  pose proof (held_addressed _ (ex_into _ _ _ Hex)) as Hinto.
  split; [intros l Hl; apply Hnodes; by left|]. intros row Hl Hpl Hown.
  pose proof (own_not_picked _ _ _ _ Hex Hway Happ Hl Hpl Hown) as Hout.
  assert (RowId_node row.(row_lineage) ∉ picks) as Hold by (by intros [_ ?]%Hfresh).
  set (source := {| row_lineage := row.(row_lineage); row_at := AtSetting SetSource |}).
  destruct (decide (row.(row_at) = AtSetting SetBranch ∧ source ∈ picks)) as [[Hb Hs]|Hn];
    [|left; by apply Hkept].
  destruct row as [l at_]. simpl in *. subst at_. specialize (Hbranch l Hs).
  destruct (into_at _) as [branch|secret] eqn:Hi in Hbranch |- *.
  2: { by apply sealed_only_variables in Hi as [key Hk]. }
  rewrite Hbranch. simpl. unfold branch_after.
  destruct (git_cell _) eqn:Hg; [destruct (decide (branch = Absent)) as [->|Hne]|]; [right|left|right].
  - split_and!; [done|done|]. simpl. subst source. rewrite Hg, Hi, Hbranch. unfold branch_after. by rewrite Hg.
  - by destruct branch.
  - split_and!; [done|done|]. simpl. subst source. rewrite Hg, Hbranch. unfold branch_after. by rewrite Hg.
Qed.

(** ** The rows of a node both sides have *)

Lemma verdict_same row base cell : verdict policy row base cell cell = None.
Proof.
  unfold verdict, moved. rewrite !(bool_decide_eq_true_2 (cell = cell)) by done.
  by destruct (owned_setting _).
Qed.

Abbreviation base_cells := (cells_of_base sides.(side_base) hosts.(hosts_into)).
Abbreviation from_cells := (Cells_of from hosts.(hosts_from)).
Abbreviation into_cells := (Cells_of into hosts.(hosts_into)).
Abbreviation rows_of := (plan_lineage policy (from_option nodes [] sides.(side_base)) (nodes from)
  (nodes into) from base_cells from_cells into_cells).

Lemma lineage_rows planned l :
  addressed from → addressed into → planned ∈ rows_of l → planned.(pr_id).(row_lineage) = l.
Proof.
  intros Hf Hi Hp. unfold plan_lineage in Hp.
  assert (∀ why, planned ∈ node_differs base_cells from_cells into_cells l why → row_lineage (pr_id planned) = l) as Hd.
  { by intros why ->%list_elem_of_singleton. }
  destruct (bget (nodes from) l), (bget (nodes into) l); [| | |set_solver].
  - unfold shared_node in Hp. apply elem_of_app in Hp as [Hp|Hp].
    + apply list_elem_of_omap in Hp as (id & Hid & (v & _ & [= <-])%bind_Some). simpl.
      apply elem_of_bset_of, elem_of_app in Hid.
      destruct Hid as [Hid|Hid]; apply list_elem_of_fmap in Hid as ([id' c] & -> & Hin);
        by apply place_of_cells in Hin as (? & _).
    + destruct (_ && _) in Hp; [|set_solver]. by apply list_elem_of_singleton in Hp as ->.
  - destruct (_ && _) in Hp; [|by eapply Hd]. unfold new_node in Hp.
    destruct (verdict _ _ _ _ _); [|set_solver]. apply elem_of_cons in Hp as [->|Hp]; [done|].
    apply list_elem_of_omap in Hp as ([child cell] & [Hin _]%elem_of_filterb & (v' & _ & [= <-])%bind_Some).
    by apply place_of_cells in Hin as (? & _).
  - destruct (_ || _) in Hp; [by eapply Hd|set_solver].
Qed.

Lemma shared_rows row v both :
  addressed from → addressed into → is_place row.(row_at) = true →
  (∃ planned, planned ∈ shared_node policy base_cells from_cells into_cells row.(row_lineage) both
     ∧ planned.(pr_id) = row ∧ planned.(pr_verdict) = v)
  ↔ verdict policy row (Cells_at base_cells row) (Cells_at from_cells row) (Cells_at into_cells row) = Some v.
Proof.
  intros Hf Hi Hpl. unfold shared_node. setoid_rewrite elem_of_app. split.
  - intros (planned & [Hp|Hp] & <- & <-).
    + by apply list_elem_of_omap in Hp as (id & _ & (v & Hv & [= <-])%bind_Some).
    + destruct both; [|set_solver]. apply list_elem_of_singleton in Hp. by rewrite Hp in Hpl.
  - intros Hv. exists (row_at_sides base_cells from_cells into_cells row None v). split; [left|by split].
    apply list_elem_of_omap. exists row. split; [|by rewrite Hv].
    unfold bkeys. rewrite elem_of_bset_of, elem_of_app, !list_elem_of_fmap.
    destruct (decide (Cells_at from_cells row = Absent)) as [Hfa|Hfa].
    + right. exists (row, Cells_at into_cells row). split; [done|]. apply place_of_cells; [done|].
      split_and!; [done|done|by rewrite cells_look|]. intros Hia. by rewrite Hfa, Hia, verdict_same in Hv.
    + left. exists (row, Cells_at from_cells row). split; [done|]. apply place_of_cells; [done|].
      split_and!; [done|done|by rewrite cells_look|done].
Qed.

(** A plan lists every difference of a node both sides have. A place of such a node is a
    row of the plan exactly when the policy has a verdict on what the base, the sender and the
    receiver hold there, and with that verdict. *)
Theorem plan_lists_differences row v :
  addressed from → addressed into → is_place row.(row_at) = true →
  row.(row_lineage) ∈ lineages from → row.(row_lineage) ∈ lineages into →
  (∃ planned, planned ∈ self.(plan_rows) ∧ planned.(pr_id) = row ∧ planned.(pr_verdict) = v)
  ↔ verdict policy row (Cells_at base_cells row) (Cells_at from_cells row) (Cells_at into_cells row) = Some v.
Proof.
  intros Hf Hi Hpl Hlf Hli.
  apply node_there in Hlf as [fn Hfn]; [|done]. apply node_there in Hli as [inn Hin]; [|done].
  assert (rows_of row.(row_lineage)
    = shared_node policy base_cells from_cells into_cells row.(row_lineage) (is_volume fn && is_volume inn)) as Hrows.
  { unfold plan_lineage. by rewrite Hfn, Hin. }
  rewrite <-(shared_rows row v (is_volume fn && is_volume inn)), <-Hrows, plan_rows_of by done.
  split; intros (planned & Hp & Hid & Hv); exists planned; (split; [|done]).
  - apply elem_of_stable_sort, list_elem_of_In, in_concat in Hp as (rows & Hr & Hp%list_elem_of_In).
    apply in_map_iff in Hr as (l & <- & _). pose proof (lineage_rows _ _ Hf Hi Hp) as <-. by rewrite <-Hid.
  - apply elem_of_stable_sort, list_elem_of_In, in_concat. exists (rows_of row.(row_lineage)).
    split; [|by apply list_elem_of_In]. apply in_map_iff. exists row.(row_lineage). split; [done|].
    apply list_elem_of_In, elem_of_bset_of, elem_of_app. left.
    apply bget_Some in Hfn; [|apply bwf_bcollect]. by apply (list_elem_of_fmap_2 fst) in Hfn.
Qed.

(** ** The rows that land *)

Lemma nothing_lands : held into → is_ok (apply_picks self [] []) = true.
Proof.
  intros [Hn Ht _]. unfold apply_picks. simpl. destruct (plan_sides policy sides) as (_ & -> & _).
  by rewrite parse_written, Hn.
Qed.

(** [Plan::landable] keeps only picks, and the picks it keeps land together. *)
Theorem landable_lands picks :
  held into → bset_wf picks →
  (∀ row, row ∈ landable self picks → row ∈ picks)
  ∧ is_ok (apply_picks self (landable self picks) []) = true.
Proof.
  intros Hi Hwf. unfold landable. destruct (is_ok (apply_picks self picks [])) eqn:Hall; [done|].
  set (sorted := stable_sort _ picks).
  assert (∀ row, row ∈ sorted → row ∈ picks) as Hsub by (intros row; apply elem_of_stable_sort).
  assert (∀ acc, bset_wf acc → (∀ row, row ∈ acc → row ∈ picks) → is_ok (apply_picks self acc []) = true →
    (∀ row, row ∈ fold_left (landable_step self) sorted acc → row ∈ picks)
    ∧ is_ok (apply_picks self (fold_left (landable_step self) sorted acc) []) = true) as Hloop.
  { clearbody sorted. induction sorted as [|pick sorted IH]; intros acc Hacc Hin Hok; simpl; [done|].
    assert (landable_step self acc pick = bset_insert pick acc
            ∧ is_ok (apply_picks self (bset_insert pick acc) []) = true ∨ landable_step self acc pick = acc) as Hstep.
    { unfold landable_step. destruct (is_ok (apply_picks self (bset_insert pick acc) [])) eqn:Hp; [by left|right].
      apply bset_remove_insert. intros Hpick. rewrite bset_insert_elem in Hp by done. congruence. }
    destruct Hstep as [[-> Hp]| ->]; apply IH; try done; try set_solver.
    - by apply bset_insert_wf.
    - intros row [->|Hr]%elem_of_bset_insert; [|auto]. set_solver. }
  apply Hloop; [constructor|set_solver|]. by apply nothing_lands.
Qed.
End Sync.

(** ** At the sample *)

Import SampleSync.

Lemma sample_config prefix start :
  typed_config (SampleSync.web prefix start).
Proof.
  split; try done; try by vm_compute.
  by repeat constructor.
Qed.

Lemma sample_from : held SampleSync.staging.
Proof.
  split; [by vm_compute| |by apply (bool_decide_unpack _)].
  split; [by vm_compute| |by repeat constructor].
  constructor; [|constructor]. split; [apply sample_config|]. by repeat constructor.
Qed.

Lemma sample_into : held SampleSync.production.
Proof.
  split; [by vm_compute| |by apply (bool_decide_unpack _)].
  split; [by vm_compute| |by repeat constructor].
  constructor; [|constructor]. split; [apply sample_config|]. by repeat constructor.
Qed.

Lemma sample_exchange : exchange SampleSync.sides SampleSync.picks [].
Proof.
  split; [apply sample_from|apply sample_into|apply bset_of_wf|done|by vm_compute|].
  apply (bool_decide_unpack _). by vm_compute.
Qed.

Lemma apply_exact_witness :
  ∃ applied, apply_picks (plan SampleSync.sides SampleSync.policy) SampleSync.picks [] = Ok applied
    ∧ lands_exactly SampleSync.sides SampleSync.policy SampleSync.picks [] applied.(applied_next).
Proof.
  assert (∃ applied, apply_picks (plan SampleSync.sides SampleSync.policy) SampleSync.picks [] = Ok applied)
    as [applied Happ] by (eexists; vm_compute; reflexivity).
  exists applied. split; [exact Happ|].
  exact (apply_exact SampleSync.sides SampleSync.policy SampleSync.picks [] applied sample_exchange Happ).
Defined.

Lemma sync_carries_no_secret_witness :
  ∃ applied service variable,
    apply_picks (plan SampleSync.sides SampleSync.policy) SampleSync.picks [] = Ok applied
    ∧ service ∈ applied.(applied_next).(env_services) ∧ variable ∈ service.(svc_variables)
    ∧ (None = Some {| secret_fingerprint := variable.(var_value_fingerprint);
                      secret_value := SampleSync.secret 1 "production-key" |}
       ∨ cell_at SampleSync.production "-production"
           {| row_lineage := service.(svc_lineage_id); row_at := AtVariable variable.(var_key) |}
         = SealedCellSecret {| secret_fingerprint := variable.(var_value_fingerprint);
                               secret_value := SampleSync.secret 1 "production-key" |}).
Proof.
  assert (∃ applied service variable services variables,
    apply_picks (plan SampleSync.sides SampleSync.policy) SampleSync.picks [] = Ok applied
    ∧ applied.(applied_next).(env_services) = service :: services
    ∧ service.(svc_variables) = variable :: variables
    ∧ variable.(var_value) = VariableSecret (Some (SampleSync.secret 1 "production-key")))
    as (applied & service & variable & services & variables & Happ & Hs & Hv & Hval)
    by (eexists _, _, _, _, _; split_and!; vm_compute; reflexivity).
  assert (service ∈ applied.(applied_next).(env_services)) as Hin by (rewrite Hs; left).
  assert (variable ∈ service.(svc_variables)) as Hin' by (rewrite Hv; left).
  exists applied, service, variable. split; [exact Happ|]. split; [exact Hin|]. split; [exact Hin'|].
  exact (sync_carries_no_secret SampleSync.sides SampleSync.policy SampleSync.picks [] applied service
           variable _ sample_exchange eq_refl Happ Hin Hin' Hval).
Defined.

Lemma sync_keeps_receiver_witness :
  ∃ applied, apply_picks (plan SampleSync.sides SampleSync.policy) SampleSync.picks [] = Ok applied
    ∧ SampleSync.uuid "02" ∈ lineages applied.(applied_next)
    ∧ cell_at applied.(applied_next) "-production"
        {| row_lineage := SampleSync.uuid "02"; row_at := AtVariable "KEY" |}
      = cell_at SampleSync.production "-production"
          {| row_lineage := SampleSync.uuid "02"; row_at := AtVariable "KEY" |}.
Proof.
  assert (∃ applied, apply_picks (plan SampleSync.sides SampleSync.policy) SampleSync.picks [] = Ok applied)
    as [applied Happ] by (eexists; vm_compute; reflexivity).
  exists applied. split; [exact Happ|].
  destruct (sync_keeps_receiver SampleSync.sides SampleSync.policy SampleSync.picks [] applied sample_exchange
              eq_refl Happ) as [Hnodes Hcells].
  assert (SampleSync.uuid "02" ∈ lineages SampleSync.production) as Hin by (vm_compute; left).
  split; [exact (Hnodes _ Hin)|].
  destruct (Hcells {| row_lineage := SampleSync.uuid "02"; row_at := AtVariable "KEY" |} Hin eq_refl)
    as [Hcell|[Hb _]]; [|exact Hcell|discriminate Hb].
  left. vm_compute. reflexivity.
Defined.

Lemma plan_lists_differences_witness :
  ∃ planned, planned ∈ (plan SampleSync.sides SampleSync.policy).(plan_rows)
    ∧ planned.(pr_id) = {| row_lineage := SampleSync.uuid "02"; row_at := AtSetting SetStartCommand |}
    ∧ planned.(pr_verdict) = Moves false true AsIs.
Proof.
  refine (proj2 (plan_lists_differences SampleSync.sides SampleSync.policy
    {| row_lineage := SampleSync.uuid "02"; row_at := AtSetting SetStartCommand |} (Moves false true AsIs)
    (held_addressed _ sample_from) (held_addressed _ sample_into) eq_refl _ _) _);
    [vm_compute; left|vm_compute; left|vm_compute; reflexivity].
Defined.

Lemma landable_lands_witness :
  (∀ row, row ∈ landable (plan SampleSync.sides SampleSync.policy) SampleSync.picks → row ∈ SampleSync.picks)
  ∧ is_ok (apply_picks (plan SampleSync.sides SampleSync.policy)
             (landable (plan SampleSync.sides SampleSync.policy) SampleSync.picks) []) = true.
Proof. exact (landable_lands SampleSync.sides SampleSync.policy SampleSync.picks sample_into (bset_of_wf _)). Defined.

(** The writer takes a setting each Environment owns. *)
Lemma put_writes_owned :
  is_Some (owned_setting (AtSetting SetReplicas))
  ∧ ∃ env, put SampleSync.production {| row_lineage := SampleSync.uuid "02"; row_at := AtSetting SetReplicas |}
             (CellValue (json_u 3)) = Ok env.
Proof. split; [by eexists|]. eexists. vm_compute. reflexivity. Qed.
