(* ===== verification/SyncUndo.v ===== *)
(** * Putting a landing back

    [unapply] on the document a landing left: nothing has changed since, every landed
    row takes what the receiver held before, and the new nodes go, so that the
    receiver's document is as it was at every row. *)

From S2P Require Import Prelude BTree Strings Decimal Values Spec RuntimeOutcome Config.
From S2P Require Import ConfigValidation ConfigSpec ConfigJson SyncRows SyncPut SyncPlan SyncLens.
From S2P Require Import SyncLaws SyncLand SyncVerdicts SyncApply SyncSample SyncSpec.

Open Scope string_scope.
Open Scope nat_scope.
Open Scope list_scope.

(** ** The cell of a node *)

Lemma fold_left_filter {A B} (p : A → bool) (f : B → A → B) l b :
  (∀ b x, x ∈ l → p x = false → f b x = b) → fold_left f l b = fold_left f (List.filter p l) b.
Proof.
  revert b. induction l as [|x l IH]; intros b Hf; simpl; [done|].
  assert (∀ b y, y ∈ l → p y = false → f b y = b) as Hf' by (intros; apply Hf; set_solver).
  destruct (p x) eqn:Hp; simpl; [by apply IH|]. rewrite Hf by (set_solver || done). by apply IH.
Qed.

Section Nodes.
Context `{JsonFloat}.
Implicit Types (env : SavedEnvironmentIntent).

Lemma filter_needed_ext (m1 m2 : bmap At Cell) :
  bwf m1 → bwf m2 → (∀ at_, At_needed at_ = true → bget m1 at_ = bget m2 at_) →
  List.filter (λ x, At_needed x.1) m1 = List.filter (λ x, At_needed x.1) m2.
Proof.
  intros H1 H2 Hext. apply bmap_ext; [by apply bwf_filter..|]. intros at_. apply option_eq. intros c.
  rewrite !bget_Some, !elem_of_filterb by (by apply bwf_filter). simpl.
  rewrite <-!bget_Some by done. split; intros [Hg Hn]; (split; [|done]).
  - by rewrite <-Hext.
  - by rewrite Hext.
Qed.

(** The name a node's cell opens with. *)
Definition node_name (node : NodeRef) : bmap string Value :=
  match node with NodeService service => [("name", VString service.(svc_slug))] | NodeVolume _ => [] end.

Definition node_field (cell : bmap string Value) '((at_, value) : At * Cell) : bmap string Value :=
  match value with
  | CellValue value => if At_needed at_ then binsert (At_to_string at_) value cell else cell
  | _ => cell
  end.

Lemma node_cell_fields node m :
  node_cell node m
  = CellValue (VObject (fold_left node_field (List.filter (λ x, At_needed x.1) m) (node_name node))).
Proof.
  rewrite <-fold_left_filter; [done|]. intros b [at_ c] _ Hn. simpl in *. destruct c; try done. by rewrite Hn.
Qed.

Lemma node_cell_ext node1 node2 (m1 m2 : bmap At Cell) :
  node_name node1 = node_name node2 → bwf m1 → bwf m2 →
  (∀ at_, At_needed at_ = true → bget m1 at_ = bget m2 at_) → node_cell node1 m1 = node_cell node2 m2.
Proof. intros Hname H1 H2 Hext. rewrite !node_cell_fields, Hname. by rewrite (filter_needed_ext m1 m2). Qed.

Lemma node_name_slug env l node :
  addressed env → bget (nodes env) l = Some node →
  node_name node = match slug_of env l with Some slug => [("name", VString slug)] | None => [] end.
Proof.
  intros Hok. rewrite nodes_get by done. unfold slug_of.
  destruct (service_of env l); simpl; [by intros [= <-]|]. by intros (v & _ & ->)%fmap_Some.
Qed.

(** Two documents with the same name and needed settings at a lineage have the same node there. *)
Lemma node_look_ext env1 suffix1 env2 suffix2 l :
  addressed env1 → addressed env2 → (l ∈ lineages env1 ↔ l ∈ lineages env2) →
  slug_of env1 l = slug_of env2 l →
  (∀ at_, At_needed at_ = true →
     look env1 suffix1 {| row_lineage := l; row_at := at_ |} = look env2 suffix2 {| row_lineage := l; row_at := at_ |}) →
  look env1 suffix1 (RowId_node l) = look env2 suffix2 (RowId_node l).
Proof.
  intros Hok1 Hok2 Hl Hs Hat. rewrite <-!node_there in Hl by done. unfold look in *. simpl in *.
  destruct (bget (nodes env1) l) as [n1|] eqn:Hn1.
  - destruct (proj1 Hl ltac:(eauto)) as [n2 Hn2]. rewrite Hn2 in *. apply node_cell_ext.
    + rewrite (node_name_slug env1 l), (node_name_slug env2 l), Hs by done. done.
    + apply node_cells_wf.
    + apply node_cells_wf.
    + intros at_ Hneed. rewrite !node_cells_get; [|done|by eapply node_of_services|done|by eapply node_of_services].
      specialize (Hat at_ Hneed). f_equal. by destruct at_ as [| | | |[]| |].
  - destruct (bget (nodes env2) l) eqn:Hn2; [|done]. destruct (proj2 Hl ltac:(eauto)). done.
Qed.
End Nodes.

(** ** Putting a cell back *)

Section Back.
Context `{ConfigCrates, JsonFloat, ConfigDecoders, !DecoderLaws}.
Implicit Types (env : SavedEnvironmentIntent).

(** The node at [l] is of one kind in both documents, and no Volume of [env0] is missing. *)
Record same_kind (env0 env : SavedEnvironmentIntent) (l : string) : Prop := {
  sk_service : is_Some (service_of env l) ↔ is_Some (service_of env0 l);
  sk_volume : is_Some (volume_of env l) ↔ is_Some (volume_of env0 l);
  sk_volumes v : is_Some (volume_of env0 v) → is_Some (volume_of env v)
}.

(** A cell another document has at a node of that kind can be put there. *)
Lemma put_ok uuid suffix env0 env l at_ :
  addressed env → ready env → ready env0 → movable_at at_ = true → same_kind env0 env l →
  ∃ env', put_sealed uuid env {| row_lineage := l; row_at := at_ |} (sealed_place env0 suffix l at_) = Ok env'.
Proof.
  intros Hok Hr Hr0 Hm [Hs Hv Hvs]. unfold sealed_place.
  pose proof (sealed_place_shown env0 suffix l at_ Hr0 Hm) as Hsh. unfold sealed_place in Hsh.
  destruct (service_of env0 l) as [s0|] eqn:Hs0.
  - destruct (proj2 Hs ltac:(eauto)) as [s Hse].
    assert (volume_of env l = None) as Hve.
    { destruct (volume_of env l) eqn:Hve; [|done]. destruct (lineage_kinds _ _ _ _ Hok Hse Hve). }
    destruct at_ as [| | | |setting|vl|key]; try done.
    + unfold put_sealed, put_into. simpl. rewrite Hve. by eexists.
    + unfold put_sealed, put_into. simpl. rewrite Hve. by eexists.
    + destruct (put_setting_ok uuid env l s setting _ Hr Hse Hsh) as (? & _ & _ & Hput); [|by eexists].
      by intros ->.
    + unfold put_sealed, put_into. simpl. rewrite Hse. unfold mount_look.
      destruct (volume_of env0 vl) as [v0|] eqn:Hv0; simpl.
      * destruct (Hvs vl ltac:(eauto)) as [v Hvl]. rewrite Hvl. destruct (List.find _ _); by eexists.
      * destruct (volume_of env vl); by eexists.
    + simpl in *. destruct (List.find _ _) as [v|] eqn:Hf.
      * destruct (typed_service_of _ _ _ Hr0 Hs0) as [_ Htv]. rewrite (put_sealed_variable _ _ _ s); [by eexists|done|].
        apply find_Some_elem in Hf as [Hf _]. by eapply Forall_forall in Htv.
      * unfold put_sealed, put_into. simpl. rewrite Hse. by eexists.
  - assert (service_of env l = None) as Hse.
    { destruct (service_of env l) eqn:Hse; [|done]. by destruct (proj1 Hs ltac:(eauto)). }
    destruct (volume_of env0 l) as [v0|] eqn:Hv0.
    + destruct (proj2 Hv ltac:(eauto)) as [v Hve]. apply volume_of_in in Hv0 as [Hin _].
      destruct Hr0 as [_ _ Hst]. eapply Forall_forall in Hst; [|exact Hin].
      unfold put_sealed, put_into. destruct at_; try done; simpl; rewrite ?Hve, ?Hse; try by eexists.
      * rewrite read_string. by eexists.
      * rewrite read_storage by done. by eexists.
    + assert (volume_of env l = None) as Hve.
      { destruct (volume_of env l) eqn:Hve; [|done]. by destruct (proj1 Hv ltac:(eauto)). }
      unfold put_sealed, put_into. destruct at_; try done; simpl; rewrite ?Hve, ?Hse; by eexists.
Qed.

(** Nothing can be put anywhere a node may lack it. *)
Lemma put_absent_ok uuid env l at_ :
  addressed env → ready env → is_place at_ = true → At_carried at_ = false →
  ∃ env', put_sealed uuid env {| row_lineage := l; row_at := at_ |} (PlainCell Absent) = Ok env'.
Proof.
  intros Hok Hr Hp Hc. destruct (service_of env l) as [s|] eqn:Hs.
  - destruct at_ as [| | | |setting|vl|key]; try done.
    + destruct (put_setting_ok uuid env l s setting (PlainCell Absent)) as (? & _ & _ & Hput);
        [done|done| | |by eexists].
      * split; [by destruct setting|by left].
      * by intros ->.
    + unfold put_sealed, put_into. simpl. rewrite Hs. destruct (volume_of env vl); by eexists.
    + unfold put_sealed, put_into. simpl. rewrite Hs. by eexists.
  - unfold put_sealed, put_into. destruct at_; try done; simpl; rewrite Hs; by eexists.
Qed.

(** ** A source with its git branch *)

(** The Service [s] with the source of [from], its own git branch kept. *)
Definition with_source_of (from : AuthoredServiceConfig) (s x : SavedServiceIntent) : SavedServiceIntent :=
  if decide (x = s)
  then with_config s (set_source (keep_branch s.(svc_config).(sc_source) from.(sc_source)) s.(svc_config))
  else x.

Lemma source_of_settled from config :
  settled_config from → settled_config config →
  settled_config (set_source (keep_branch config.(sc_source) from.(sc_source)) config).
Proof.
  intros Hf Hc. assert (typed_config (set_source (keep_branch config.(sc_source) from.(sc_source)) config)) as Ht.
  { destruct Hf as [[]], Hc as [[]]. split; try done. simpl. by destruct (sc_source from), (sc_source config). }
  destruct Hf, Hc. split; try done. simpl.
  destruct (sc_source from), (sc_source config); simpl in *; try done; split_and!; tauto.
Qed.

Lemma put_git_source uuid suffix env l s from :
  addressed env → ready env → service_of env l = Some s → settled_config from → is_git from.(sc_source) = true →
  ∃ env', put_sealed uuid env {| row_lineage := l; row_at := AtSetting SetSource |}
            (PlainCell (CellValue (ServiceSource_json from.(sc_source)))) = Ok env'
    ∧ put_at suffix l (AtSetting SetSource) (PlainCell (setting_look from suffix SetSource)) env env'
    ∧ sealed_place env' suffix l (AtSetting SetBranch)
      = PlainCell (setting_look (if is_git s.(svc_config).(sc_source) then s.(svc_config) else from) suffix SetBranch).
Proof.
  intros Hok Hr Hs Hf Hgit. exists (update_service env l (with_source_of from s)).
  assert (∀ x, svc_lineage_id (with_source_of from s x) = svc_lineage_id x
    ∧ svc_id (with_source_of from s x) = svc_id x ∧ svc_slug (with_source_of from s x) = svc_slug x) as Hkeep.
  { intros x. unfold with_source_of. case_decide; by subst. }
  assert (with_source_of from s s = with_config s
    (set_source (keep_branch s.(svc_config).(sc_source) from.(sc_source)) s.(svc_config))) as Hsame.
  { unfold with_source_of. by rewrite decide_True. }
  split_and!.
  - unfold put_sealed, put_into. cbn [row_at row_lineage to_redacted]. rewrite Hs. cbn [result_bind].
    assert (put_setting s SetSource (ServiceSource_json from.(sc_source)) = Some (with_source_of from s s)) as ->.
    { rewrite Hsame. unfold put_setting, put_config, ServiceSource_json.
      assert (source_fields (svc_id s) (ServiceSource_fields (sc_source from))
              = Some (ServiceSource_fields (sc_source from))) as ->.
      { by destruct (sc_source from). }
      cbn [mbind option_bind]. fold (ServiceSource_json (sc_source from)).
      rewrite read_source by apply Hf. done. }
    cbn [ok_or result_bind]. f_equal. rewrite Hsame. unfold with_source_of.
    rewrite <-(update_service_const env l s) by done. done.
  - eapply put_service; [done|done|done|done| | |].
    + rewrite Hsame. intros []. by split.
    + intros x [Hc Hv]. unfold with_source_of. case_decide; [subst|by split].
      split; [|done]. by apply source_of_settled.
    + intros at' Hp Hne. rewrite Hsame, with_config_sealed.
      destruct at' as [| | | |setting'| |]; try done. case_decide as Heq; simplify_eq.
      * f_equal. apply setting_look_json. simpl. by destruct (sc_source from), (sc_source (svc_config s)).
      * cbn [service_sealed service_look]. f_equal. apply setting_look_json. by destruct setting'; try done; exfalso; auto.
  - unfold sealed_place. rewrite service_of_update by (intros x; apply Hkeep).
    rewrite decide_True, Hs by done. simpl. rewrite Hsame. cbn [svc_config with_config].
    f_equal. apply setting_look_json. simpl.
    destruct (sc_source from) eqn:Hfs; try done;
      destruct (sc_source (svc_config s)) eqn:Hsrc; simpl; by rewrite ?Hsrc, ?Hfs.
Qed.
End Back.

(** ** A document without one of its nodes *)

Section Without.
Context `{ConfigCrates, JsonFloat}.
Implicit Types (env : SavedEnvironmentIntent).

Lemma service_of_without env l l' :
  service_of (without_node env l) l' = if decide (l = l') then None else service_of env l'.
Proof. apply (find_filter_out svc_lineage_id). Qed.

Lemma volume_of_without env l l' :
  volume_of (without_node env l) l' = if decide (l = l') then None else volume_of env l'.
Proof. apply (find_filter_out vol_resource_lineage_id). Qed.

Lemma lineages_without env l :
  lineages (without_node env l) = List.filter (λ x, negb (String.eqb x l)) (lineages env).
Proof.
  unfold lineages. simpl. rewrite List.filter_app. f_equal.
  - induction (env_services env) as [|s ss IH]; simpl; [done|]. destruct (String.eqb _ _); simpl; by rewrite IH.
  - induction (env_volumes env) as [|s ss IH]; simpl; [done|]. destruct (String.eqb _ _); simpl; by rewrite IH.
Qed.

Lemma without_addressed env l :
  addressed env → (∀ s, s ∈ env.(env_services) → mount_look env s l = Absent) →
  addressed (without_node env l).
Proof.
  intros Hok Hm. split.
  - rewrite lineages_without. apply NoDup_ListNoDup, List.NoDup_filter, NoDup_ListNoDup, Hok.
  - simpl. apply NoDup_map_filter, Hok.
  - apply Forall_forall. intros s [Hs _]%elem_of_filterb. pose proof (addressed_service _ _ Hok Hs) as [Hk Hn Ha].
    split; [done|done|]. intros a Hin. destruct (proj1 (list_elem_of_fmap _ _ _) (Ha a Hin)) as (v & Hid & Hv).
    rewrite Hid. apply list_elem_of_fmap_2, elem_of_filterb. split; [done|].
    apply negb_true_iff, String.eqb_neq. intros Hl. specialize (Hm s Hs). unfold mount_look in Hm.
    rewrite (proj2 (volume_of_elem _ l v Hok)) in Hm by done. simpl in Hm.
    rewrite (proj2 (find_key volume_resource_id _ _ a Hn)) in Hm; done.
Qed.

Lemma without_place env suffix l l' at_ :
  addressed env → (∀ s, s ∈ env.(env_services) → mount_look env s l = Absent) →
  sealed_place (without_node env l) suffix l' at_
  = if decide (l = l') then PlainCell Absent else sealed_place env suffix l' at_.
Proof.
  intros Hok Hm. unfold sealed_place. rewrite service_of_without, volume_of_without.
  case_decide; [done|]. destruct (service_of env l') as [s|] eqn:Hs; [|done].
  apply service_of_in in Hs as [Hs _]. destruct at_ as [| | | | |v|]; try done. simpl. f_equal.
  destruct (decide (l = v)) as [<-|Hne].
  - rewrite Hm by done. unfold mount_look. by rewrite volume_of_without, decide_True.
  - unfold mount_look. by rewrite volume_of_without, decide_False.
Qed.

Lemma without_ready env l : ready env → ready (without_node env l).
Proof.
  intros [Hv Hs Hst]. split; simpl; [done| |]; apply Forall_forall; intros x [Hx _]%elem_of_filterb.
  - by eapply Forall_forall in Hs.
  - exact (proj1 (Forall_forall _ _) Hst x Hx).
Qed.
End Without.

(** ** Undoing one pick *)

Section Undo.
Context `{ConfigCrates, JsonFloat, ConfigDecoders, !DecoderLaws, Uuids}.
Context (sides : Sides) (policy : Policy) (picks : bset RowId) (values : bmap RowId SealedSecret).
Context (Hex : exchange sides picks values).
Abbreviation from := sides.(side_from).
Abbreviation into := sides.(side_into).
Abbreviation hosts := sides.(side_hostnames).
Abbreviation self := (plan sides policy).
Abbreviation Pick := (PlannedRow * Arrives)%type.
Abbreviation as_landed := (as_landed policy sides values).
Abbreviation leaves := (leaves policy sides values).
Abbreviation moves := (moves policy sides).
Abbreviation place_after := (place_after policy sides values).

Let Hfrom : addressed from := held_addressed _ (ex_from _ _ _ Hex).
Let Hinto : addressed into := held_addressed _ (ex_into _ _ _ Hex).
Let Hrinto : ready into := held_ready _ (ex_into _ _ _ Hex).

Lemma picked_perm (l1 l2 : list Pick) row :
  NoDup (map pick_id l1) → l1 ≡ₚ l2 → picked l1 row = picked l2 row.
Proof.
  intros Hnd Hp. assert (NoDup (map pick_id l2)) as Hnd2 by by rewrite <-Hp.
  apply option_eq. intros p. split; intros [Hin <-]%picked_Some.
  - apply picked_elem; [done|]. by rewrite <-Hp.
  - apply picked_elem; [done|]. by rewrite Hp.
Qed.

Lemma as_landed_perm l1 l2 env :
  NoDup (map pick_id l1) → l1 ≡ₚ l2 → as_landed l1 env → as_landed l2 env.
Proof.
  intros Hnd Hp [Ha Hr Hd Hl Hs Hpl]. assert (∀ row, picked l1 row = picked l2 row) as Heq
    by (intros; by apply picked_perm).
  split; try done.
  - intros l. by rewrite <-Heq.
  - intros l. by rewrite <-Heq.
  - intros l at_ Hp'. rewrite Hpl by done. unfold SyncApply.place_after, place_before. by rewrite !Heq.
Qed.

(** Node picks are new. *)
Lemma moves_node landing l :
  Forall moves landing → is_Some (picked landing (RowId_node l)) → l ∈ lineages from ∧ l ∉ lineages into.
Proof.
  intros Hall [p [Hin Hid]%picked_Some]. rewrite Forall_forall in Hall. apply Hall in Hin. unfold pick_id in Hid.
  destruct Hin as [l' Heq _ _ Hf Hi _ _|Hpl|Hpl]; [|by rewrite Hid in Hpl..].
  rewrite Hid in Heq. by injection Heq as <-.
Qed.

Lemma volume_there env l :
  addressed env → is_Some (volume_of env l) ↔ l ∈ lineages env ∧ slug_of env l = None.
Proof.
  intros Hok. unfold slug_of. rewrite <-node_there, nodes_get by done.
  destruct (service_of env l) as [s|] eqn:Hs; simpl.
  - split; [|by intros [_ ?]]. intros [v Hv]. destruct (lineage_kinds _ _ _ _ Hok Hs Hv).
  - rewrite fmap_is_Some. tauto.
Qed.

Lemma service_there env l : is_Some (service_of env l) ↔ is_Some (slug_of env l).
Proof. unfold slug_of. by rewrite fmap_is_Some. Qed.

Lemma landed_kinds landing env l :
  Forall moves landing → as_landed landing env → l ∈ lineages into → same_kind into env l.
Proof.
  intros Hall [Ha _ _ Hl Hs _] Hin.
  assert (∀ x, x ∈ lineages into → slug_of env x = slug_of into x) as Hslug.
  { intros x Hx. rewrite Hs. destruct (picked landing (RowId_node x)) eqn:Hp; [|done].
    destruct (moves_node landing x Hall ltac:(eauto)) as [_ ?]. done. }
  assert (∀ x, x ∈ lineages into → x ∈ lineages env) as Hsub by (intros x Hx; apply Hl; by left).
  split.
  - rewrite !service_there. by rewrite Hslug.
  - rewrite !volume_there, Hslug by done. split; intros [_ ?]; (split; [by auto|done]).
  - intros v. rewrite !volume_there by done. intros [Hv Hn]. rewrite Hslug by done. auto.
Qed.

(** What the receiver held at a pick. *)
Lemma held_plain p one :
  leaves p one → is_place (pick_id p).(row_at) = true → (pick_id p).(row_at) ≠ AtSetting SetSource →
  one.(landed_was) = sealed_place into hosts.(hosts_into) (pick_id p).(row_lineage) (pick_id p).(row_at).
Proof.
  intros (_ & Hwas & _) Hpl Hne. destruct (plan_sides policy sides) as (_ & Hi & _).
  rewrite <-sealed_cell_place by done. unfold held_before in Hwas. rewrite Hi in Hwas.
  destruct (row_at (pick_id p)) as [| | | |setting| |]; try congruence.
  destruct setting; congruence.
Qed.

Lemma absent_place l at_ : l ∉ lineages into → sealed_place into hosts.(hosts_into) l at_ = PlainCell Absent.
Proof. intros [Hs Hv]%lineages_of. unfold sealed_place. by rewrite Hs, Hv. Qed.

(** The place of an undone pick. *)
Lemma place_after_undone rest p :
  Forall moves (rest ++ [p]) → pick_id p ∉ map pick_id rest → is_place (pick_id p).(row_at) = true →
  place_after rest (pick_id p).(row_lineage) (pick_id p).(row_at)
  = sealed_place into hosts.(hosts_into) (pick_id p).(row_lineage) (pick_id p).(row_at).
Proof.
  intros [Hall [Hm _]%Forall_cons]%Forall_app Hlast%picked_None Hpl. unfold SyncApply.place_after.
  destruct (pick_id p) as [l at_] eqn:Hid. simpl in *. rewrite Hlast.
  assert (at_ ≠ AtSetting SetBranch) as Hnb.
  { intros ->. pose proof (branch_unpicked policy sides [p] l ltac:(by constructor)) as Hb.
    apply picked_None in Hb. apply Hb. simpl. rewrite Hid. set_solver. }
  assert (place_before sides rest l at_ = sealed_place into hosts.(hosts_into) l at_) as Hb.
  { unfold place_before. destruct (picked rest (RowId_node l)) as [q|] eqn:Hq; [|done].
    destruct (moves_node rest l Hall ltac:(eauto)) as [_ Hnew]. rewrite absent_place by done.
    unfold pick_id in Hid. destruct Hm as [l' Hid'|_ _ _ Hi|_ Hcar].
    - rewrite Hid in Hid'. injection Hid' as -> ->. done.
    - by rewrite Hid in Hi.
    - rewrite Hid in Hcar. unfold At_needed. simpl in Hcar. by rewrite Hcar. }
  destruct at_ as [| | | |[]| |]; done.
Qed.

(** Undoing a pick at a place, given what putting it back does. *)
Lemma undone_place rest p env env' :
  as_landed (rest ++ [p]) env → Forall moves (rest ++ [p]) → pick_id p ∉ map pick_id rest →
  is_place (pick_id p).(row_at) = true →
  put_at hosts.(hosts_into) (pick_id p).(row_lineage) (pick_id p).(row_at)
    (sealed_place into hosts.(hosts_into) (pick_id p).(row_lineage) (pick_id p).(row_at)) env env' →
  ((pick_id p).(row_at) = AtSetting SetSource →
   sealed_place env' hosts.(hosts_into) (pick_id p).(row_lineage) (AtSetting SetBranch)
   = sealed_place into hosts.(hosts_into) (pick_id p).(row_lineage) (AtSetting SetBranch)) →
  as_landed rest env'.
Proof.
  intros [Ha Hr Hd Hl Hs Hp] Hall Hlast Hpl [Ha' Hr' Hfr Hp'] Hbranch.
  assert (∀ l, picked (rest ++ [p]) (RowId_node l) = picked rest (RowId_node l)) as Hnode.
  { intros l. rewrite picked_snoc. destruct (picked rest (RowId_node l)); [done|].
    rewrite bool_decide_eq_false_2; [done|]. intros Heq. by rewrite Heq in Hpl. }
  split; try done.
  - rewrite <-Hd. unfold frame in Hfr. by injection Hfr as -> -> _ _ _ _ _.
  - intros l. by rewrite (frame_lineages _ _ Hfr), Hl, Hnode.
  - intros l. by rewrite (frame_slug _ _ _ Hfr), Hs, Hnode.
  - intros l at_ Hplace.
    destruct (decide (l = (pick_id p).(row_lineage) ∧ (pick_id p).(row_at) = AtSetting SetSource
                      ∧ at_ = AtSetting SetBranch)) as [(-> & Hsrc & ->)|Hns].
    + rewrite Hbranch by done. apply Forall_app in Hall as [Hall [Hm _]%Forall_cons].
      unfold SyncApply.place_after. rewrite (branch_unpicked policy sides) by done.
      assert (picked rest {| row_lineage := (pick_id p).(row_lineage); row_at := AtSetting SetSource |} = None) as ->.
      { rewrite <-Hsrc. apply picked_None. by destruct (pick_id p). }
      unfold place_before. destruct (picked rest _) as [q|] eqn:Hq; [|done].
      destruct (moves_node rest (pick_id p).(row_lineage) Hall ltac:(eauto)) as [_ Hnew].
      unfold pick_id in Hsrc, Hnew. destruct Hm as [l' Hid'|_ _ _ Hi|_ Hcar].
      * by rewrite Hid' in Hsrc.
      * done.
      * by rewrite Hsrc in Hcar.
    + rewrite Hp' by done. case_decide as Heq.
      * destruct Heq as [-> ->]. symmetry. by apply place_after_undone.
      * apply picked_None in Hlast. rewrite Hp, place_after_snoc by done. by rewrite decide_False.
Qed.

(** A source that moves is of a node both sides have. *)
Lemma source_shared p :
  moves p → (pick_id p).(row_at) = AtSetting SetSource → (pick_id p).(row_lineage) ∈ lineages into.
Proof.
  unfold pick_id. intros Hm Hsrc. destruct Hm as [l' Hid'|_ _ _ Hi|_ Hcar]; [by rewrite Hid' in Hsrc|done|].
  by rewrite Hsrc in Hcar.
Qed.

Lemma branch_before rest p env s :
  as_landed (rest ++ [p]) env → Forall moves (rest ++ [p]) → pick_id p ∉ map pick_id rest →
  (pick_id p).(row_at) = AtSetting SetSource →
  service_of env (pick_id p).(row_lineage) = Some s → is_git s.(svc_config).(sc_source) = true →
  to_redacted (sealed_place into hosts.(hosts_into) (pick_id p).(row_lineage) (AtSetting SetBranch)) ≠ Absent →
  PlainCell (setting_look s.(svc_config) hosts.(hosts_into) SetBranch)
  = PlainCell (to_redacted (sealed_place into hosts.(hosts_into) (pick_id p).(row_lineage) (AtSetting SetBranch))).
Proof.
  intros [Ha Hr Hd Hl Hs Hp] Hall Hlast Hsrc Hserv Hgit Hb.
  pose proof Hall as [Hall' [Hm _]%Forall_cons]%Forall_app.
  pose proof (source_shared p Hm Hsrc) as Hin.
  specialize (Hp (pick_id p).(row_lineage) (AtSetting SetBranch) eq_refl). unfold sealed_place at 1 in Hp.
  rewrite Hserv in Hp. cbn [service_sealed service_look] in Hp. rewrite Hp.
  apply picked_None in Hlast.
  rewrite (place_after_source policy sides values rest p) by (done || by destruct (pick_id p); simpl in *; subst).
  rewrite branch_look in Hp. destruct (sc_source (svc_config s)); try done.
  assert (place_after rest (row_lineage (pick_id p)) (AtSetting SetBranch)
          = sealed_place into hosts.(hosts_into) (row_lineage (pick_id p)) (AtSetting SetBranch)) as Hrest.
  { unfold SyncApply.place_after. rewrite (branch_unpicked policy sides) by done.
    assert (picked rest {| row_lineage := (pick_id p).(row_lineage); row_at := AtSetting SetSource |} = None) as ->.
    { rewrite <-Hsrc. by destruct (pick_id p). }
    unfold place_before. destruct (picked rest (RowId_node _)) eqn:Hq; [|done].
    by destruct (moves_node rest (pick_id p).(row_lineage) Hall' ltac:(eauto)) as [_ ?]. }
  rewrite (place_after_source policy sides values rest p) in Hp by (done || by destruct (pick_id p); simpl in *; subst).
  rewrite Hrest in *. unfold branch_after in *. destruct (git_cell _); [|done]. by destruct (to_redacted _).
Qed.

(** A source goes back with the branch it had. *)
Lemma undo_source uuid rest p one env :
  as_landed (rest ++ [p]) env → Forall moves (rest ++ [p]) → pick_id p ∉ map pick_id rest →
  (pick_id p).(row_at) = AtSetting SetSource → leaves p one →
  ∃ env', put_sealed uuid env (pick_id p) one.(landed_was) = Ok env'
    ∧ put_at hosts.(hosts_into) (pick_id p).(row_lineage) (pick_id p).(row_at)
        (sealed_place into hosts.(hosts_into) (pick_id p).(row_lineage) (pick_id p).(row_at)) env env'
    ∧ sealed_place env' hosts.(hosts_into) (pick_id p).(row_lineage) (AtSetting SetBranch)
      = sealed_place into hosts.(hosts_into) (pick_id p).(row_lineage) (AtSetting SetBranch).
Proof.
  intros Hal Hall Hlast Hsrc (_ & Hwas & _). pose proof Hal as [Ha Hr _ _ _ _].
  pose proof Hall as [_ [Hm _]%Forall_cons]%Forall_app.
  pose proof (landed_kinds _ _ _ Hall Hal (source_shared p Hm Hsrc)) as Hkind.
  pose proof (branch_before rest p env) as Hbefore.
  destruct (plan_sides policy sides) as (_ & Hi & _). unfold held_before in Hwas. rewrite Hi in Hwas.
  destruct (pick_id p) as [l at_] eqn:Hid. simpl in *. subst at_.
  rewrite sealed_cell_place, cells_look in Hwas by done. simpl in Hwas.
  rewrite <-(redacted_place into hosts.(hosts_into) l (AtSetting SetBranch)) in Hwas by done.
  assert (∀ was, was = sealed_place into hosts.(hosts_into) l (AtSetting SetSource) →
    (git_cell (to_redacted was) = false → sealed_place into hosts.(hosts_into) l (AtSetting SetBranch) = PlainCell Absent) →
    git_cell (to_redacted was) = false →
    ∃ env', put_sealed uuid env {| row_lineage := l; row_at := AtSetting SetSource |} was = Ok env'
      ∧ put_at hosts.(hosts_into) l (AtSetting SetSource) (sealed_place into hosts.(hosts_into) l (AtSetting SetSource)) env env'
      ∧ sealed_place env' hosts.(hosts_into) l (AtSetting SetBranch)
        = sealed_place into hosts.(hosts_into) l (AtSetting SetBranch)) as Hplain.
  { intros was -> Hbr Hg.
    destruct (put_ok uuid hosts.(hosts_into) into env l (AtSetting SetSource)) as [env' Hput]; [done..|].
    assert (shown (AtSetting SetSource) (sealed_place into hosts.(hosts_into) l (AtSetting SetSource))) as Hsh
      by by apply sealed_place_shown.
    exists env'. split_and!; [done|by eapply put_place_at|].
    rewrite (put_source_branch _ _ _ _ _ _ Ha Hr Hsh Hput). unfold branch_after. by rewrite Hg, Hbr. }
  unfold sealed_place in *. destruct (service_of into l) as [s0|] eqn:Hs0.
  - cbn [service_sealed service_look to_redacted] in *. rewrite branch_look in *.
    destruct (is_git s0.(svc_config).(sc_source)) eqn:Hgit.
    + destruct (proj2 (sk_service _ _ _ Hkind) ltac:(eauto)) as [s Hs].
      destruct (typed_service_of _ _ _ Hrinto Hs0) as [Hset _].
      destruct (put_git_source uuid hosts.(hosts_into) env l s s0.(svc_config)) as (env' & Hput & Hat & Hbr); [done..|].
      exists env'.
      assert (one.(landed_was) = PlainCell (CellValue (ServiceSource_json s0.(svc_config).(sc_source)))) as ->.
      { destruct (sc_source (svc_config s0)) eqn:Hsrc0; try done. unfold setting_look, at_default in Hwas.
        rewrite setting_value_json in Hwas. cbn [setting_json] in Hwas. rewrite Hsrc0 in Hwas. by simplify_eq/=. }
      split_and!; [done|done|]. etransitivity; [exact Hbr|]. cbn [service_sealed service_look].
      destruct (is_git (sc_source (svc_config s))) eqn:Hg.
      * rewrite (Hbefore s); try done. by destruct (sc_source (svc_config s0)).
      * by rewrite branch_look.
    + assert (one.(landed_was) = PlainCell (setting_look s0.(svc_config) hosts.(hosts_into) SetSource)) as ->.
      { destruct (sc_source (svc_config s0)); try done; destruct (setting_look _ _ _); congruence. }
      apply Hplain; [done| |].
      * intros _. by destruct (sc_source (svc_config s0)).
      * simpl. by rewrite git_cell_look.
  - assert (one.(landed_was) = PlainCell Absent) as ->.
    { destruct (volume_of into l); simpl in Hwas; congruence. }
    apply Hplain; [|intros _|done]; by destruct (volume_of into l).
Qed.

Lemma undo_place uuid rest p one env :
  as_landed (rest ++ [p]) env → Forall moves (rest ++ [p]) → pick_id p ∉ map pick_id rest →
  is_place (pick_id p).(row_at) = true → leaves p one →
  ∃ env', put_sealed uuid env (pick_id p) one.(landed_was) = Ok env' ∧ as_landed rest env'.
Proof.
  intros Hal Hall Hlast Hpl Hone.
  destruct (decide ((pick_id p).(row_at) = AtSetting SetSource)) as [Hsrc|Hns].
  { destruct (undo_source uuid rest p one env) as (env' & Hput & Hat & Hbr); [done..|].
    exists env'. split; [done|]. by eapply undone_place. }
  pose proof Hal as [Ha Hr _ _ _ _]. pose proof Hall as [_ [Hm _]%Forall_cons]%Forall_app.
  rewrite (held_plain p one) by done.
  assert (movable_at (pick_id p).(row_at) = true) as Hmov.
  { unfold pick_id in *. destruct Hm as [l Hid|_ _ _ _ Hown _ _|_ Hcar _ _ _ _ _ _].
    - by rewrite Hid in Hpl.
    - destruct (row_at (pr_id p.1)) as [| | | |[]| |]; done.
    - destruct (row_at (pr_id p.1)) as [| | | |[]| |]; done. }
  set (was := sealed_place into _ _ _).
  assert (∃ env', put_sealed uuid env (pick_id p) was = Ok env') as [env' Hput].
  { pose proof (landed_kinds _ env (pick_id p).(row_lineage) Hall Hal) as Hkind. subst was.
    unfold pick_id in *. destruct Hm as [l Hid|_ _ _ Hi _ _ _|_ Hcar _ _ Hnew _ _ _].
    - by rewrite Hid in Hpl.
    - destruct (put_ok uuid hosts.(hosts_into) into env (pr_id p.1).(row_lineage) (pr_id p.1).(row_at)) as [env' Hput];
        auto. exists env'. by destruct (pr_id p.1).
    - rewrite absent_place by done.
      destruct (put_absent_ok uuid env (pr_id p.1).(row_lineage) (pr_id p.1).(row_at)) as [env' Hput]; [done..|].
      exists env'. by destruct (pr_id p.1). }
  exists env'. split; [done|]. eapply undone_place; [done..| |done].
  apply (put_place_at uuid _ env (row_lineage (pick_id p)) (row_at (pick_id p))); [done..| |].
  - by apply sealed_place_shown.
  - by destruct (pick_id p).
Qed.

(** Undoing a new node, when its places are undone. *)
Lemma undo_node uuid rest p l one env :
  as_landed (rest ++ [p]) env → Forall moves (rest ++ [p]) → pick_id p = RowId_node l →
  pick_id p ∉ map pick_id rest → Forall (λ q, (pick_id q).(row_at) = AtNode) rest → leaves p one →
  ∃ env', put_sealed uuid env (pick_id p) one.(landed_was) = Ok env' ∧ as_landed rest env'.
Proof.
  intros [Ha Hr Hd Hl Hs Hp] Hall Hid Hlast Hnodes (_ & Hwas & _).
  assert (is_Some (picked (rest ++ [p]) (RowId_node l))) as Hpick.
  { rewrite picked_snoc. destruct (picked rest _); [by eexists|]. rewrite bool_decide_eq_true_2 by done. by eexists. }
  destruct (moves_node _ _ Hall Hpick) as [_ Hnew]. destruct (plan_sides policy sides) as (_ & Hi & _).
  assert (one.(landed_was) = PlainCell Absent) as ->.
  { unfold held_before in Hwas. rewrite Hi, Hid in Hwas. simpl in Hwas. unfold sealed_cell in Hwas.
    rewrite cells_look in Hwas by done. unfold look in Hwas. simpl in Hwas.
    rewrite (proj2 (node_absent into l Hinto) Hnew) in Hwas. by injection Hwas as <-. }
  assert (Forall (λ q, (pick_id q).(row_at) = AtNode) (rest ++ [p])) as Hnodes'.
  { apply Forall_app. split; [done|]. constructor; [by rewrite Hid|constructor]. }
  assert (∀ q at_, is_place at_ = true → sealed_place env hosts.(hosts_into) q at_
    = place_before sides (rest ++ [p]) q at_) as Hbefore.
  { intros q at_ Hpl. by rewrite Hp, nodes_only. }
  assert (∀ s, s ∈ env.(env_services) → mount_look env s l = Absent) as Hmounts.
  { intros s Hin. specialize (Hbefore s.(svc_lineage_id) (AtMount l) eq_refl). unfold sealed_place at 1 in Hbefore.
    rewrite (proj2 (service_of_elem _ _ s Ha)) in Hbefore by done. cbn [service_sealed service_look] in Hbefore.
    assert (PlainCell (mount_look env s l) = PlainCell Absent) as Hm; [|by injection Hm].
    rewrite Hbefore. unfold place_before. destruct (picked (rest ++ [p]) (RowId_node (svc_lineage_id s))); [done|]. unfold sealed_place.
    destruct (service_of into _) as [s'|]; [|by destruct (volume_of into _)]. simpl. unfold mount_look.
    by rewrite (proj2 (lineages_of _ _ Hnew)). }
  exists (without_node env l). split; [by rewrite Hid|]. apply picked_None in Hlast.
  assert (∀ q, picked (rest ++ [p]) (RowId_node q) = if decide (q = l) then Some p else picked rest (RowId_node q)) as Hpk.
  { intros q. rewrite picked_snoc, Hid. rewrite Hid in Hlast. case_decide as Hq.
    - subst q. by rewrite Hlast, bool_decide_eq_true_2.
    - destruct (picked rest (RowId_node q)); [done|]. rewrite bool_decide_eq_false_2; [done|].
      unfold RowId_node. by intros [= ->]. }
  rewrite Hid in Hlast. split.
  - by apply without_addressed.
  - by apply without_ready.
  - done.
  - intros q. rewrite lineages_without, elem_of_filterb, Hl, Hpk, negb_true_iff, String.eqb_neq.
    case_decide; [subst; rewrite Hlast|]; naive_solver.
  - intros q. unfold slug_of. rewrite service_of_without. fold (slug_of env q) (slug_of from q) (slug_of into q).
    case_decide as Hq.
    + subst q. rewrite Hlast. simpl. unfold slug_of. by rewrite (proj1 (lineages_of _ _ Hnew)).
    + fold (slug_of env q). rewrite Hs, Hpk, decide_False by done. done.
  - intros q at_ Hpl. rewrite without_place, nodes_only by done.
    case_decide as Hq.
    + subst q. unfold place_before. rewrite Hlast. by rewrite absent_place.
    + rewrite Hbefore by done. unfold place_before. rewrite Hpk, decide_False by done. done.
Qed.

(** ** Undoing every pick *)

(** Nodes are undone last. *)
Definition nodes_last (a b : Landed) : Prop :=
  a.(landed_row).(row_at) = AtNode → b.(landed_row).(row_at) = AtNode.

Lemma undo_all rest ones env drawn :
  as_landed rest env → Forall moves rest → NoDup (map pick_id rest) → Forall2 leaves rest ones →
  StronglySorted nodes_last ones →
  ∃ env' drawn', try_fold unland ones (env, drawn) = Ok (env', drawn') ∧ as_landed [] env'.
Proof.
  intros Hal Hall Hnd Hones. revert env drawn Hal Hall Hnd.
  induction Hones as [|p one rest ones Hone Hones IH]; intros env drawn Hal Hall Hnd Hs.
  { by exists env, drawn. }
  apply StronglySorted_inv in Hs as [Hs Hlast].
  assert (as_landed (rest ++ [p]) env) as Hal'.
  { eapply as_landed_perm; [done| |done]. by rewrite Permutation_app_comm. }
  assert (Forall moves (rest ++ [p])) as Hall'.
  { rewrite Permutation_app_comm. done. }
  simpl in Hnd. apply NoDup_cons in Hnd as [Hout Hnd]. pose proof Hall as [Hm Hrest]%Forall_cons.
  assert (∃ env', put_sealed (new_v4 drawn) env (pick_id p) one.(landed_was) = Ok env' ∧ as_landed rest env')
    as (env' & Hput & Hal1).
  { unfold SyncApply.moves in Hm. pose proof Hone as (Hrow & _).
    destruct (decide ((pick_id p).(row_at) = AtNode)) as [Hat|Hat].
    - destruct (pick_id p) as [l at_] eqn:Hid. simpl in Hat. subst at_. rewrite <-Hid.
      eapply (undo_node _ rest p l); [done|done|done|by rewrite Hid| |done].
      apply Forall_forall. intros q Hq. apply list_elem_of_lookup in Hq as (i & Hq).
      destruct (Forall2_lookup_l _ _ _ _ _ Hones Hq) as (b & Hb & (Hrow' & _)). rewrite <-Hrow'.
      eapply Forall_lookup in Hlast; [|exact Hb]. apply Hlast. by rewrite Hrow.
    - apply undo_place; try done. unfold pick_id in *.
      destruct Hm as [l Hid|Hpl|Hpl]; [by rewrite Hid in Hat|done..]. }
  destruct (IH env' (S drawn)) as (env2 & drawn2 & Hfold & Hal2); [done..|].
  exists env2, drawn2. split; [|done]. cbn [try_fold]. unfold unland at 1. cbn [fst snd].
  pose proof Hone as (-> & _). rewrite Hput. exact Hfold.
Qed.

(** What a new node needs is the sender's. *)
Lemma needed_unpicked landing l at_ :
  Forall moves landing → is_Some (picked landing (RowId_node l)) → At_needed at_ = true →
  picked landing {| row_lineage := l; row_at := at_ |} = None.
Proof.
  intros Hall Hnode Hneed. apply picked_None. intros (q & Hq & Hin)%list_elem_of_fmap.
  destruct (moves_node landing l Hall Hnode) as [_ Hnew].
  eapply Forall_forall in Hall; [|exact Hin]. unfold pick_id in Hq. destruct Hall as [l2 Hid|_ _ _ Hi|_ Hcar].
  - rewrite <-Hq in Hid. by injection Hid as -> ->.
  - by rewrite <-Hq in Hi.
  - rewrite <-Hq in Hcar. unfold At_needed in Hneed. simpl in Hcar. by rewrite Hcar in Hneed.
Qed.

Lemma new_node_look landing next l :
  as_landed landing next → Forall moves landing → is_Some (picked landing (RowId_node l)) →
  look next hosts.(hosts_into) (RowId_node l) = look from hosts.(hosts_from) (RowId_node l).
Proof.
  intros [Ha Hr Hd Hl Hs Hp] Hall Hnode. pose proof Hnode as [p Hpick]. apply node_look_ext; [done|done| | |].
  - rewrite Hl. destruct (moves_node landing l Hall Hnode). tauto.
  - by rewrite Hs, Hpick.
  - intros at_ Hneed. assert (is_place at_ = true) as Hpl by by destruct at_.
    rewrite <-!redacted_place, Hp by done. f_equal. unfold SyncApply.place_after, place_before.
    rewrite !needed_unpicked by done. rewrite Hpick, Hneed. by destruct at_ as [| | | |[]| |].
Qed.

Lemma landed_look landing next p :
  as_landed landing next → Forall moves landing → NoDup (map pick_id landing) → p ∈ landing →
  look next hosts.(hosts_into) (pick_id p) = to_redacted (pick_cell policy sides values p).
Proof.
  intros Hal Hall Hnd Hin. pose proof (picked_elem landing p Hnd Hin) as Hpick.
  pose proof (proj1 (Forall_forall _ _) Hall p Hin) as Hm. destruct (plan_sides policy sides) as (Hf & _).
  destruct (is_place (pick_id p).(row_at)) eqn:Hpl.
  - destruct Hal as [Ha _ _ _ _ Hp]. destruct (pick_id p) as [l at_] eqn:Hid. simpl in Hpl.
    rewrite <-redacted_place, Hp by done. unfold SyncApply.place_after. by rewrite Hpick.
  - unfold SyncApply.moves in Hm. fold (pick_id p) in Hm.
    destruct Hm as [l Hid _ Harr _ _ _ _|Hpl'|Hpl']; [|unfold pick_id in Hpl; congruence..].
    fold (pick_id p) in Hid. unfold pick_cell, arrival. rewrite Harr, Hid, Hf. simpl. unfold sealed_cell.
    rewrite cells_look, (new_node_look landing) by (done || by rewrite <-Hid, Hpick; eexists).
    by destruct (look from _ _).
Qed.

(** A new node has no place that did not land with it. *)
Lemma no_stray landing ones next l :
  as_landed landing next → Forall2 leaves landing ones → is_Some (picked landing (RowId_node l)) →
  stray_place (Cells_of next hosts.(hosts_into)) ones l = None.
Proof.
  intros [Ha Hr Hd Hl Hs Hp] Hones [p Hpick].
  destruct (stray_place _ _ _) as [child|] eqn:Hstray; [exfalso|done].
  unfold stray_place in Hstray. apply fmap_Some in Hstray as ([c cell] & Hfind & ->).
  apply find_Some_elem in Hfind as [Hin' [Hneed%negb_true_iff Hnl%negb_true_iff]%andb_true_iff].
  apply place_of_cells in Hin' as (Hcl & Hpl & Hlk & Hne); [|done]. apply Hne. rewrite <-Hlk.
  destruct c as [cl cat]; simpl in *. subst cl. rewrite <-redacted_place, Hp by done.
  assert (picked landing {| row_lineage := l; row_at := cat |} = None) as Hno.
  { apply picked_None. intros (q & Hq & Hinq)%list_elem_of_fmap. rewrite existsb_false_elem in Hnl.
    apply list_elem_of_lookup in Hinq as (i & Hqi).
    destruct (Forall2_lookup_l _ _ _ _ _ Hones Hqi) as (b & Hb & (Hrow' & _)).
    specialize (Hnl b (list_elem_of_lookup_2 _ _ _ Hb)). apply bool_decide_eq_false in Hnl. congruence. }
  unfold SyncApply.place_after, place_before. rewrite Hno, Hpick, Hneed.
  by destruct cat as [| | | |[]| |].
Qed.

(** The landed rows are as they landed. *)
Lemma landed_unchanged landing ones next one p :
  as_landed landing next → Forall moves landing → NoDup (map pick_id landing) →
  Forall2 leaves landing ones → p ∈ landing → leaves p one →
  unchanged (Cells_of next hosts.(hosts_into)) ones one = Ok ().
Proof.
  intros Hal Hall Hnd Hones Hin (Hrow & _ & Hval). pose proof (picked_elem landing p Hnd Hin) as Hpick.
  unfold unchanged. rewrite Hrow, Hval, cells_look, (landed_look landing) by (done || apply Hal).
  rewrite bool_decide_eq_true_2 by done. simpl. case_bool_decide as Hat; [|done].
  rewrite (no_stray landing); [done|done|done|]. destruct (pick_id p) as [l at_]. simpl in *. subst at_.
  by eexists.
Qed.

Lemma restored env row :
  as_landed [] env → cell_at env hosts.(hosts_into) row = cell_at into hosts.(hosts_into) row.
Proof.
  intros [Ha _ _ Hl Hs Hp]. assert (∀ l at_, is_place at_ = true →
    sealed_place env hosts.(hosts_into) l at_ = sealed_place into hosts.(hosts_into) l at_) as Hplace.
  { intros l at_ Hpl. rewrite Hp by done. by destruct at_ as [| | | |[]| |]. }
  assert (∀ l, look env hosts.(hosts_into) (RowId_node l) = look into hosts.(hosts_into) (RowId_node l)) as Hnode.
  { intros l. apply node_look_ext; [done|done| |apply Hs|].
    - rewrite Hl. split; [by intros [?|[]]|by left].
    - intros at_ Hneed. assert (is_place at_ = true) by by destruct at_.
      by rewrite <-!redacted_place, Hplace. }
  destruct (is_place row.(row_at)) eqn:Hpl.
  - by rewrite !cell_at_place, Hplace.
  - unfold cell_at, sealed_cell. rewrite !cells_look by done. destruct row as [l []]; try done.
    + specialize (Hnode l). unfold RowId_node in Hnode. rewrite Hnode. by destruct (look into _ _).
    + specialize (Hnode l). change (look env hosts.(hosts_into) {| row_lineage := l; row_at := AtData |})
        with (look env hosts.(hosts_into) (RowId_node l)). rewrite Hnode. by destruct (look into _ _).
Qed.
End Undo.

(** ** The round trip *)

Section RoundTrip.
Context `{ConfigCrates, JsonFloat, ConfigDecoders, !DecoderLaws, Uuids}.

(** C38: Putting a landing back is its inverse. [unapply] accepts the document [Plan::apply]
    produced with the rows it landed, and returns a document that holds, at every row, nodes
    and secrets' values included, what the receiver held before. *)
Theorem unapply_restores sides policy picks values applied :
  exchange sides picks values →
  apply_picks (plan sides policy) picks values = Ok applied →
  ∃ restored, unapply applied.(applied_next) sides.(side_hostnames).(hosts_into) applied.(applied_landed) = Ok restored
    ∧ (∀ l, l ∈ lineages restored ↔ l ∈ lineages sides.(side_into))
    ∧ ∀ row, cell_at restored sides.(side_hostnames).(hosts_into) row
             = cell_at sides.(side_into) sides.(side_hostnames).(hosts_into) row.
Proof.
  intros Hex Happ. pose proof Hex as [Hf Hi Hwf Hvals Hsuf Hfresh].
  destruct (apply_lands policy sides values picks (held_addressed _ Hf) (held_addressed _ Hi)
    (held_ready _ Hf) (held_ready _ Hi) Hvals Hfresh Hsuf applied (bset_wf_NoDup _ Hwf) Happ)
    as (landing & l & (Hids & Hall & _) & [[Hal _] _ Hones _] & -> & -> & _).
  assert (NoDup (map pick_id landing)) as Hnd by (rewrite Hids; by apply bset_wf_NoDup).
  unfold unapply. set (next := land_next l) in *. set (ones := land_landed l) in *.
  assert (try_fold (λ _, unchanged (Cells_of next sides.(side_hostnames).(hosts_into)) ones) ones () = Ok ()) as ->.
  { assert (∀ done, Forall (λ one, ∃ p, p ∈ landing ∧ leaves policy sides values p one) done →
      try_fold (λ _, unchanged (Cells_of next sides.(side_hostnames).(hosts_into)) ones) done () = Ok ()) as Hchk.
    { intros done Hd. induction Hd as [|one done (p & Hin & Hone) _ IH]; [done|]. simpl.
      rewrite (landed_unchanged sides policy picks values Hex landing ones next one p) by done. exact IH. }
    apply Hchk, Forall_forall. intros one Hin. apply list_elem_of_lookup in Hin as (i & Hone).
    destruct (Forall2_lookup_r _ _ _ _ _ Hones Hone) as (p & Hp & Hle). exists p. split; [|done].
    by eapply list_elem_of_lookup_2. }
  cbn [result_bind].
  destruct (Forall2_perm _ landing ones (stable_sort (unlanding_le next) ones) Hones) as (rest & Hperm & Hrest).
  { symmetry. apply stable_sort_perm. }
  destruct (undo_all sides policy picks values Hex rest (stable_sort (unlanding_le next) ones) next 0)
    as (env' & drawn' & Hfold & Hal'); [| | |done| |].
  - by eapply as_landed_perm.
  - by rewrite <-Hperm.
  - by rewrite <-Hperm.
  - eapply StronglySorted_impl; [|apply stable_sort_sorted].
    + intros a b. unfold unlanding_le, landing_order, nodes_last. intros Hle%N.leb_le Ha. rewrite Ha in Hle.
      destruct (row_at (landed_row b)); try done; exfalso; destruct (volume_of _ _); lia.
    + intros a b. unfold unlanding_le. rewrite !N.leb_le. lia.
    + intros a b c. unfold unlanding_le. rewrite !N.leb_le. lia.
  - rewrite Hfold. exists env'. split_and!; [done| |].
    + intros lin. rewrite (al_lineages _ _ _ _ _ Hal' lin). split; [by intros [?|[]]|by left].
    + intros row. by eapply restored.
Qed.
End RoundTrip.

Import SampleSync.

Lemma unapply_restores_witness :
  ∃ applied restored,
    apply_picks (plan SampleSync.sides SampleSync.policy) SampleSync.picks [] = Ok applied
    ∧ unapply applied.(applied_next) "-production" applied.(applied_landed) = Ok restored
    ∧ (∀ l, l ∈ lineages restored ↔ l ∈ lineages SampleSync.production)
    ∧ ∀ row, cell_at restored "-production" row = cell_at SampleSync.production "-production" row.
Proof.
  assert (∃ applied, apply_picks (plan SampleSync.sides SampleSync.policy) SampleSync.picks [] = Ok applied)
    as [applied Happ] by (eexists; vm_compute; reflexivity).
  destruct (unapply_restores SampleSync.sides SampleSync.policy SampleSync.picks [] applied sample_exchange Happ)
    as (restored & Hun & Hl & Hc).
  exists applied, restored. split; [exact Happ|]. split; [exact Hun|]. split; [exact Hl|exact Hc].
Defined.
