(* ===== verification/BranchPlan.v ===== *)
(** * Branch plans

    [ployz-core/src/config/branch_plan.rs]: which nodes of a Parent Environment a
    Branch copies, uses live or leaves out, from the nodes a caller picks and the
    links between them.

    The closure loop runs until a full pass changes nothing; [close_over] takes the
    number of passes it may make, and [None] is a run that does not return: the passes
    ran out, or [expect("every planned node has a role")] failed.
    [plan_branch_returns] shows that neither happens. *)

From S2P Require Import Prelude BTree Strings Values Spec RuntimeOutcome Config.
From S2P Require Import ConfigSpec SyncRows SyncPlan.

Open Scope string_scope.
Open Scope nat_scope.
Open Scope list_scope.

(** ** Data *)

Inductive EnvironmentNodeType : Type := TypeService | TypeVolume.

Inductive BranchPreset : Type := PresetOnly | PresetUses | PresetAll.

Definition PRESETS : list BranchPreset := [PresetOnly; PresetUses; PresetAll].

Inductive BranchPicks : Type :=
| PicksPreset (preset : BranchPreset)
| PicksOwn (own : list string).

Inductive BranchNodeReason : Type := Picked | Used | ParentNotDeployed.

Inductive BranchNodeRole : Type :=
| RoleOwn (because : BranchNodeReason)
| RoleLive
| RoleLeftOut.

Record BranchPlanNode : Type := {
  bn_lineage_id : string;
  bn_node_type : EnvironmentNodeType;
  bn_role : BranchNodeRole
}.

Record BranchPlan : Type := {
  bp_nodes : list BranchPlanNode;
  bp_preset : option BranchPreset
}.

#[global] Instance BranchNodeReason_eq_dec : EqDecision BranchNodeReason.
Proof. solve_decision. Defined.
#[global] Instance BranchNodeRole_eq_dec : EqDecision BranchNodeRole.
Proof. solve_decision. Defined.
#[global] Instance BranchPreset_eq_dec : EqDecision BranchPreset.
Proof. solve_decision. Defined.

(** ** Links *)

Definition service_links (parent : SavedEnvironmentIntent) (service : SavedServiceIntent)
    : list (string * string) :=
  let user := service.(svc_lineage_id) in
  concat (map (λ variable, map (λ used, (user, used))
                 (List.filter (λ used, negb (bool_decide (used = user)))
                    (referenced_lineages variable.(var_value))))
            service.(svc_variables))
  ++ omap (λ attachment,
       (λ v, (user, v.(vol_resource_lineage_id))) <$>
       List.find (λ v, bool_decide (v.(vol_resource_id) = attachment.(volume_resource_id)))
         parent.(env_volumes)) service.(svc_volume_attachments).

Definition links (parent : SavedEnvironmentIntent) : list (string * string) :=
  concat (map (service_links parent) parent.(env_services)).

(** ** The closure loop *)

Section Closure.
Context {St : Type} (step : St → string → string → bool * St).

Definition close_link (acc : bool * St) (link : string * string) : bool * St :=
  let '(changed, s) := acc in
  let '(now, s') := step s link.1 link.2 in
  (now || changed, s').

Fixpoint close_over (passes : nat) (links : list (string * string)) (s : St) : option St :=
  match passes with
  | 0 => None
  | S passes =>
      let '(changed, s') := fold_left close_link links (false, s) in
      if changed then close_over passes links s' else Some s'
  end.
End Closure.

(** ** Planning *)

Section Plan.
Context (parent : SavedEnvironmentIntent).

Definition service_lineages : list string := map svc_lineage_id parent.(env_services).

Definition volume_lineages : bset string :=
  bset_of (map vol_resource_lineage_id parent.(env_volumes)).

Definition owned_lineages : bset string := bset_of (service_lineages ++ volume_lineages).

Definition parent_live : bset string :=
  bset_of (List.filter (λ used, negb (bool_decide (used ∈ owned_lineages)))
             (map snd (links parent))).

Definition known_lineages (ids : list string) (path : string) : Result () ConfigError :=
  if forallb (λ id, bool_decide (id ∈ owned_lineages)) ids then Ok ()
  else Err (ConfigError_at path "Unknown lineage in the Parent").

(** [set.contains(user) && owned.contains(used) && set.insert(used)]. *)
Definition uses_step (set : bset string) (user used : string) : bool * bset string :=
  if bool_decide (user ∈ set) && bool_decide (used ∈ owned_lineages)
  then (negb (bool_decide (used ∈ set)), bset_insert used set)
  else (false, set).

Definition preset_picks (passes : nat) (focus : bset string) (preset : BranchPreset)
    : option (bset string) :=
  match preset with
  | PresetOnly => Some focus
  | PresetAll => Some owned_lineages
  | PresetUses => close_over uses_step passes (links parent) focus
  end.

Definition first_roles (picked : bset string) : bmap string BranchNodeRole :=
  bcollect (map (λ id, (id, if bool_decide (id ∈ picked) then RoleOwn Picked else RoleLeftOut))
              owned_lineages
            ++ map (λ id, (id, RoleLive)) parent_live).

Definition is_own (role : option BranchNodeRole) : bool :=
  match role with Some (RoleOwn _) => true | _ => false end.

Definition role_step (deployed : bset string) (roles : bmap string BranchNodeRole)
    (user used : string) : bool * bmap string BranchNodeRole :=
  if negb (is_own (bget roles user)) || negb (bool_decide (bget roles used = Some RoleLeftOut))
  then (false, roles)
  else if bool_decide (used ∈ volume_lineages) then (true, binsert used (RoleOwn Used) roles)
  else if bool_decide (used ∈ deployed) then (true, binsert used RoleLive roles)
  else (true, binsert used (RoleOwn ParentNotDeployed) roles).

Definition typed_nodes : list (string * EnvironmentNodeType) :=
  map (λ id, (id, TypeService)) service_lineages
  ++ map (λ v, (v.(vol_resource_lineage_id), TypeVolume)) parent.(env_volumes)
  ++ map (λ id, (id, TypeService)) parent_live.

Definition planned_node (roles : bmap string BranchNodeRole)
    (node : string * EnvironmentNodeType) : option BranchPlanNode :=
  (λ role, {| bn_lineage_id := node.1; bn_node_type := node.2; bn_role := role |})
    <$> bget roles node.1.

(** The first of [PRESETS] that gives the picked set. *)
Fixpoint matching_preset (passes : nat) (focus picked : bset string) (presets : list BranchPreset)
    : option (option BranchPreset) :=
  match presets with
  | [] => Some None
  | p :: presets =>
      set ← preset_picks passes focus p;
      if bool_decide (set = picked) then Some (Some p)
      else matching_preset passes focus picked presets
  end.

Definition picked_lineages (passes : nat) (focus : bset string) (picks : BranchPicks)
    : option (Result (bset string) ConfigError) :=
  match picks with
  | PicksPreset preset => Ok <$> preset_picks passes focus preset
  | PicksOwn own => Some (let? _ := known_lineages own "picks.own" in Ok (bset_of own))
  end.

Definition plan_branch (passes : nat) (deployed focus : list string) (picks : BranchPicks)
    : option (Result BranchPlan ConfigError) :=
  match known_lineages focus "focus" with
  | Err error => Some (Err error)
  | Ok _ =>
      let focus := bset_of focus in
      picked ← picked_lineages passes focus picks;
      match picked with
      | Err error => Some (Err error)
      | Ok picked =>
          roles ← close_over (role_step (bset_of deployed)) passes (links parent)
                    (first_roles picked);
          nodes ← mapM (planned_node roles) typed_nodes;
          preset ← matching_preset passes focus picked PRESETS;
          Some (Ok {| bp_nodes := nodes; bp_preset := preset |})
      end
  end.
End Plan.

(** ** What a plan means *)

Section Meaning.
Context (parent : SavedEnvironmentIntent) (deployed focus : list string).

(** A node reached from the focus through links to nodes the Parent owns. *)
Inductive used_from_focus : string → Prop :=
| used_focus id : id ∈ focus → used_from_focus id
| used_link user used :
    used_from_focus user → (user, used) ∈ links parent → used ∈ owned_lineages parent →
    used_from_focus used.

Definition starting (preset : BranchPreset) (id : string) : Prop :=
  match preset with
  | PresetOnly => id ∈ focus
  | PresetUses => used_from_focus id
  | PresetAll => id ∈ owned_lineages parent
  end.

Definition picked_by (picks : BranchPicks) (id : string) : Prop :=
  match picks with
  | PicksPreset preset => starting preset id
  | PicksOwn own => id ∈ own
  end.

Context (picked : string → Prop).

(** The Own Copies: what is picked, and what an Own Copy uses that the Parent
    cannot share: its Volumes, and the Services it does not run. *)
Inductive copied : string → Prop :=
| copied_picked id : picked id → copied id
| copied_used user used :
    copied user → (user, used) ∈ links parent → used ∈ owned_lineages parent →
    used ∈ volume_lineages parent ∨ used ∉ deployed → copied used.

Definition role_spec (id : string) (role : BranchNodeRole) : Prop :=
  match role with
  | RoleOwn Picked => picked id
  | RoleOwn Used => ¬ picked id ∧ id ∈ volume_lineages parent ∧ copied id
  | RoleOwn ParentNotDeployed =>
      ¬ picked id ∧ id ∈ owned_lineages parent ∧ (id ∉ volume_lineages parent) ∧
      (id ∉ deployed) ∧ copied id
  | RoleLive =>
      id ∈ parent_live parent ∨
      ¬ picked id ∧ id ∈ owned_lineages parent ∧ (id ∉ volume_lineages parent) ∧ id ∈ deployed ∧
      ∃ user, copied user ∧ (user, id) ∈ links parent
  | RoleLeftOut =>
      ¬ picked id ∧ id ∈ owned_lineages parent ∧ ∀ user, copied user → (user, id) ∉ links parent
  end.

(** What the loop keeps: each role but [RoleLeftOut] is justified. *)
Definition role_sound (id : string) (role : BranchNodeRole) : Prop :=
  match role with
  | RoleLeftOut => ¬ picked id ∧ id ∈ owned_lineages parent
  | _ => role_spec id role
  end.
End Meaning.

(** ** The loop ends, at a fixed point *)

Section ClosureLaws.
Context {St : Type} (step : St → string → string → bool * St) (I : St → Prop) (size : St → nat).
Context (L : list (string * string)).
Hypothesis step_inv : ∀ s user used,
  (user, used) ∈ L → I s → I (step s user used).2.
Hypothesis step_size : ∀ s user used,
  (user, used) ∈ L → I s →
  if (step s user used).1 then size (step s user used).2 < size s
  else (step s user used).2 = s.

Lemma close_pass l changed s :
  (∀ link, link ∈ l → link ∈ L) → I s →
  let '(changed', s') := fold_left (close_link step) l (changed, s) in
  I s' ∧ size s' ≤ size s ∧ (changed = true → changed' = true) ∧
  (changed = false → changed' = true → size s' < size s) ∧
  (changed' = false → s' = s ∧ ∀ user used, (user, used) ∈ l → step s user used = (false, s)).
Proof.
  revert changed s. induction l as [|[user used] l IH]; intros changed s HL HI; simpl.
  - split_and!; [done|lia|done|congruence|]. intros _. split; [done|].
    by intros user used ?%elem_of_nil.
  - pose proof (step_inv s user used (HL _ (list_elem_of_here _ _)) HI) as HI'.
    pose proof (step_size s user used (HL _ (list_elem_of_here _ _)) HI) as Hsz.
    destruct (step s user used) as [now s1] eqn:Hst; simpl in *.
    specialize (IH (now || changed) s1 (λ link Hl, HL link (list_elem_of_further _ _ _ Hl)) HI').
    destruct (fold_left _ l _) as [changed' s'].
    destruct IH as (HI2 & Hle & Hmono & Hstrict & Hfix).
    assert (size s1 ≤ size s) by (destruct now; [lia|by subst]).
    split; [done|]. split; [lia|].
    split; [intros ->; apply Hmono, orb_true_r|]. split.
    + intros -> ?. destruct now; [lia|]. subst. by apply Hstrict.
    + intros ->. destruct now; [discriminate (Hmono eq_refl)|]. subst s1.
      destruct (Hfix eq_refl) as [-> Hall]. split; [done|].
      intros u d [Hud|Hud]%elem_of_cons; [by simplify_eq|by apply Hall].
Qed.

Lemma close_over_ends passes s :
  I s → size s < passes →
  ∃ s', close_over step passes L s = Some s' ∧ I s' ∧
    ∀ user used, (user, used) ∈ L → step s' user used = (false, s').
Proof.
  revert s. induction passes as [|passes IH]; intros s HI Hp; [lia|]. simpl.
  pose proof (close_pass L false s (λ _ Hl, Hl) HI) as H.
  destruct (fold_left _ L _) as [changed s'].
  destruct H as (HI' & _ & _ & Hstrict & Hfix). destruct changed.
  - apply IH; [done|]. pose proof (Hstrict eq_refl eq_refl). lia.
  - destruct (Hfix eq_refl) as [-> Hall]. eauto.
Qed.
End ClosureLaws.

(** ** The sets of a plan *)

Section Sets.
Context (parent : SavedEnvironmentIntent).
Abbreviation owned := (owned_lineages parent).

Lemma elem_of_owned id :
  id ∈ owned ↔ id ∈ service_lineages parent ∨ id ∈ volume_lineages parent.
Proof. unfold owned_lineages. by rewrite elem_of_bset_of, elem_of_app. Qed.

Lemma elem_of_parent_live id :
  id ∈ parent_live parent ↔ (id ∉ owned) ∧ ∃ user, (user, id) ∈ links parent.
Proof.
  unfold parent_live. rewrite elem_of_bset_of, elem_of_filterb, list_elem_of_fmap.
  rewrite negb_true_iff, bool_decide_eq_false. split.
  - intros [([user used] & -> & Hl) Hn]. eauto.
  - intros [Hn [user Hl]]. split; [by exists (user, id)|done].
Qed.

(** Links start at Services. *)
Lemma links_user user used : (user, used) ∈ links parent → user ∈ owned.
Proof.
  unfold links. intros Hl. apply elem_of_owned. left.
  apply list_elem_of_In, in_concat in Hl as (ls & Hls & Hl).
  apply in_map_iff in Hls as (s & <- & Hs). apply list_elem_of_In in Hl.
  assert (user = s.(svc_lineage_id)) as ->.
  { unfold service_links in Hl. apply elem_of_app in Hl as [Hl|Hl].
    - apply list_elem_of_In, in_concat in Hl as (ls & Hls & Hl).
      apply in_map_iff in Hls as (v & <- & _). apply in_map_iff in Hl as (u & Heq & _).
      by simplify_eq.
    - apply list_elem_of_omap in Hl as (a & _ & Ha). by apply fmap_Some in Ha as (v & _ & [= -> _]). }
  unfold service_lineages. apply list_elem_of_In, in_map_iff. eauto.
Qed.

Lemma links_used user used :
  (user, used) ∈ links parent → used ∈ owned ∨ used ∈ parent_live parent.
Proof.
  intros Hl. destruct (decide (used ∈ owned)); [by left|]. right. apply elem_of_parent_live. eauto.
Qed.
End Sets.

(** ** The two closures *)

Section Closures.
Context (parent : SavedEnvironmentIntent) (deployed focus : list string).
Abbreviation owned := (owned_lineages parent).

Definition missing_size (set : bset string) : nat :=
  length (List.filter (λ id, negb (bool_decide (id ∈ set))) owned).

Definition uses_inv (set : bset string) : Prop :=
  bset_wf set ∧ (∀ id, id ∈ focus → id ∈ set) ∧ (∀ id, id ∈ set → used_from_focus parent focus id).

Lemma uses_step_inv set user used :
  (user, used) ∈ links parent → uses_inv set → uses_inv (uses_step parent set user used).2.
Proof.
  intros Hl (Hwf & Hf & Hs). unfold uses_step.
  case_bool_decide as Hu; simpl; [|done]. case_bool_decide as Hd; simpl; [|done].
  split; [by apply bset_insert_wf|]. split.
  - intros id Hid. apply elem_of_bset_insert. auto.
  - intros id [->|Hid]%elem_of_bset_insert; [by eapply used_link; eauto|auto].
Qed.

Lemma uses_step_size set user used :
  (user, used) ∈ links parent → uses_inv set →
  if (uses_step parent set user used).1
  then missing_size (uses_step parent set user used).2 < missing_size set
  else (uses_step parent set user used).2 = set.
Proof.
  intros Hl (Hwf & Hf & Hs). unfold uses_step.
  case_bool_decide as Hu; simpl; [|done]. case_bool_decide as Hd; simpl; [|done].
  case_bool_decide as Hin; simpl; [by apply bset_insert_elem|].
  apply filter_length_lt with (x := used); [|done|by rewrite bool_decide_eq_false_2|].
  - intros y. rewrite !negb_true_iff, !bool_decide_eq_false, elem_of_bset_insert. tauto.
  - rewrite bool_decide_eq_true_2; [done|]. apply elem_of_bset_insert. by left.
Qed.

Lemma preset_picks_exact passes preset :
  length owned < passes →
  ∃ set, preset_picks parent passes (bset_of focus) preset = Some set ∧ bset_wf set ∧
    ∀ id, id ∈ set ↔ starting parent focus preset id.
Proof.
  intros Hp. destruct preset; simpl.
  - exists (bset_of focus). split_and!; [done|apply bset_of_wf|]. intros id. apply elem_of_bset_of.
  - destruct (close_over_ends (uses_step parent) uses_inv missing_size (links parent)
      uses_step_inv uses_step_size passes (bset_of focus)) as (set & -> & (Hwf & Hf & Hs) & Hfix).
    { split_and!; [apply bset_of_wf| |]; intros id; rewrite elem_of_bset_of;
        [done|apply used_focus]. }
    { unfold missing_size. eapply Nat.le_lt_trans; [apply filter_length_le|done]. }
    exists set. split_and!; [done..|]. intros id. split; [apply Hs|].
    induction 1 as [id Hid|user used _ IH Hl Hd]; [by apply Hf|].
    specialize (Hfix user used Hl). unfold uses_step in Hfix.
    rewrite !bool_decide_eq_true_2 in Hfix by done. simpl in Hfix.
    case_bool_decide; [done|]. simpl in Hfix. simplify_eq.
  - exists owned. split_and!; [done|apply bset_of_wf|]. done.
Qed.

(** *** Roles *)

Context (picked : bset string).
Hypothesis picked_owned : ∀ id, id ∈ picked → id ∈ owned.
Abbreviation is_picked := (λ id, id ∈ picked).
Abbreviation spec := (role_spec parent deployed is_picked).
Abbreviation sound := (role_sound parent deployed is_picked).

Definition roles_inv (roles : bmap string BranchNodeRole) : Prop :=
  bwf roles ∧
  (∀ id, is_Some (bget roles id) ↔ id ∈ owned ∨ id ∈ parent_live parent) ∧
  (∀ id role, bget roles id = Some role → sound id role).

Lemma bget_first_roles id role :
  bget (first_roles parent picked) id = Some role ↔
  (id ∈ owned ∧ role = if bool_decide (id ∈ picked) then RoleOwn Picked else RoleLeftOut) ∨
  (id ∈ parent_live parent ∧ role = RoleLive).
Proof.
  unfold first_roles. rewrite bget_bcollect.
  - rewrite elem_of_app, !list_elem_of_fmap. naive_solver.
  - rewrite map_app, !map_map. simpl. rewrite !map_id. apply NoDup_app. split_and!.
    + apply bset_wf_NoDup, bset_of_wf.
    + intros x Hx Hl. by apply elem_of_parent_live in Hl as [].
    + apply bset_wf_NoDup, bset_of_wf.
Qed.

Lemma first_roles_inv : roles_inv (first_roles parent picked).
Proof.
  split_and!; [apply bwf_bcollect| |].
  - intros id. split.
    + intros [role Hr]. apply bget_first_roles in Hr. naive_solver.
    + intros [Hid|Hid]; eexists; apply bget_first_roles; eauto.
  - intros id role [[Hid ->]|[Hid ->]]%bget_first_roles; [|by left].
    by case_bool_decide.
Qed.

Lemma own_copied roles user :
  roles_inv roles → is_own (bget roles user) = true →
  copied parent deployed is_picked user.
Proof.
  intros (_ & _ & Hs) Ho. destruct (bget roles user) as [[because| |]|] eqn:Hr; try done.
  apply Hs in Hr. destruct because; simpl in Hr; [by apply copied_picked|naive_solver..].
Qed.

(** What a step that acts decides about the node it reaches. *)
Lemma role_step_cases roles user used :
  role_step parent (bset_of deployed) roles user used = (false, roles) ∨
  (is_own (bget roles user) = true ∧ bget roles used = Some RoleLeftOut ∧
   ∃ role, role ≠ RoleLeftOut ∧
     role_step parent (bset_of deployed) roles user used = (true, binsert used role roles) ∧
     role = if bool_decide (used ∈ volume_lineages parent) then RoleOwn Used
            else if bool_decide (used ∈ deployed) then RoleLive else RoleOwn ParentNotDeployed).
Proof.
  unfold role_step. destruct (is_own (bget roles user)); simpl; [|by left].
  case_bool_decide as Hu; simpl; [|by left]. right. split_and!; [done..|].
  rewrite (bool_decide_ext _ _ (elem_of_bset_of deployed used)).
  repeat case_bool_decide; (eexists; split_and!; [|reflexivity|reflexivity]; done).
Qed.

Lemma role_step_inv roles user used :
  (user, used) ∈ links parent → roles_inv roles →
  roles_inv (role_step parent (bset_of deployed) roles user used).2.
Proof.
  intros Hl Hinv. destruct (role_step_cases roles user used) as [->|(Ho & Hu & role & _ & -> & Hrole)];
    [done|]. simpl. pose proof (own_copied _ _ Hinv Ho) as Hc.
  destruct Hinv as (Hwf & Hdom & Hs). pose proof (Hs _ _ Hu) as [Hnp Hown].
  split_and!; [by apply bwf_binsert| |].
  - intros id. rewrite bget_binsert. destruct (decide (used = id)) as [<-|]; [|apply Hdom].
    split; [by left|by eexists].
  - intros id r. rewrite bget_binsert. destruct (decide (used = id)) as [<-|]; [|apply Hs].
    intros [= <-]. subst role. repeat case_bool_decide; simpl.
    + split_and!; [done..|]. eapply copied_used; eauto.
    + right. split_and!; eauto.
    + split_and!; [done..|]. eapply copied_used; eauto.
Qed.

Definition left_out_size (roles : bmap string BranchNodeRole) : nat :=
  length (List.filter (λ id, bool_decide (bget roles id = Some RoleLeftOut)) owned).

Lemma role_step_size roles user used :
  (user, used) ∈ links parent → roles_inv roles →
  if (role_step parent (bset_of deployed) roles user used).1
  then left_out_size (role_step parent (bset_of deployed) roles user used).2 < left_out_size roles
  else (role_step parent (bset_of deployed) roles user used).2 = roles.
Proof.
  intros Hl Hinv. destruct (role_step_cases roles user used) as [->|(Ho & Hu & role & Hne & -> & _)];
    [done|]. simpl. destruct Hinv as (_ & _ & Hs). pose proof (Hs _ _ Hu) as [_ Hown].
  apply filter_length_lt with (x := used); [|done|by rewrite bool_decide_eq_true_2|].
  - intros y. rewrite !bool_decide_eq_true, bget_binsert. case_decide; naive_solver.
  - rewrite bool_decide_eq_false_2; [done|]. rewrite bget_binsert_eq. congruence.
Qed.

Lemma roles_exact passes :
  length owned < passes →
  ∃ roles, close_over (role_step parent (bset_of deployed)) passes (links parent)
             (first_roles parent picked) = Some roles ∧
    (∀ id, is_Some (bget roles id) ↔ id ∈ owned ∨ id ∈ parent_live parent) ∧
    ∀ id role, bget roles id = Some role → spec id role.
Proof.
  intros Hp.
  destruct (close_over_ends _ roles_inv left_out_size (links parent) role_step_inv role_step_size
              passes (first_roles parent picked)) as (roles & -> & Hinv & Hfix).
  { apply first_roles_inv. }
  { unfold left_out_size. eapply Nat.le_lt_trans; [apply filter_length_le|done]. }
  exists roles. destruct (Hinv) as (_ & Hdom & Hs). split_and!; [done..|].
  assert (Hout : ∀ user used, (user, used) ∈ links parent → is_own (bget roles user) = true →
    bget roles used ≠ Some RoleLeftOut).
  { intros user used Hl Ho Hu. specialize (Hfix user used Hl). unfold role_step in Hfix.
    rewrite Ho, bool_decide_eq_true_2 in Hfix by done. simpl in Hfix.
    repeat case_bool_decide; simplify_eq. }
  assert (Hown : ∀ id, copied parent deployed is_picked id → is_own (bget roles id) = true).
  { induction 1 as [id Hid|user used _ IH Hl Hown Hvd].
    - destruct (proj2 (Hdom id)) as [role Hr]; [by left; apply picked_owned|].
      pose proof (Hs _ _ Hr) as Hsr. rewrite Hr. destruct role as [[]| |]; simpl in *; try done.
      + destruct Hsr as [[Hno _]%elem_of_parent_live|[]]; [|done]. by apply picked_owned in Hid.
      + by destruct Hsr.
    - destruct (proj2 (Hdom used)) as [role Hr]; [by left|].
      pose proof (Hs _ _ Hr) as Hsr. pose proof (Hout _ _ Hl IH) as Hno. rewrite Hr.
      destruct role as [[]| |]; simpl in *; try done.
      destruct Hsr as [[? _]%elem_of_parent_live|(? & ? & ? & ? & _)]; [done|naive_solver]. }
  intros id role Hr. pose proof (Hs _ _ Hr) as Hsr. destruct role as [because| |]; [done..|].
  destruct Hsr as [Hnp Hid]. split_and!; [done..|]. intros user Hc Hl.
  eapply Hout; eauto.
Qed.
End Closures.

(** The meaning of a plan depends on the picked set only up to its members. *)
#[global] Instance copied_proper :
  Proper ((=) ==> (=) ==> pointwise_relation string iff ==> pointwise_relation string iff) copied.
Proof.
  intros parent ? <- deployed ? <- P Q HPQ id. split.
  - induction 1; [by apply copied_picked, HPQ|by eapply copied_used].
  - induction 1; [by apply copied_picked, HPQ|by eapply copied_used].
Qed.

#[global] Instance role_spec_proper :
  Proper ((=) ==> (=) ==> pointwise_relation string iff ==> (=) ==> (=) ==> iff) role_spec.
Proof.
  intros parent ? <- deployed ? <- P Q HPQ id ? <- role ? <-.
  pose proof (HPQ id) as Hid.
  pose proof (copied_proper parent _ eq_refl deployed _ eq_refl P Q HPQ) as Hc.
  unfold pointwise_relation in Hc.
  destruct role as [[]| |]; simpl; rewrite Hid; try setoid_rewrite Hc; done.
Qed.

(** The preset a plan shows: the first that starts from the same nodes. *)
Definition preset_shown (same : BranchPreset → Prop) (shown : option BranchPreset) : Prop :=
  match shown with
  | Some p => ∃ before after, PRESETS = before ++ p :: after ∧ same p ∧ ∀ q, q ∈ before → ¬ same q
  | None => ∀ q, ¬ same q
  end.

Section Returns.
Context (parent : SavedEnvironmentIntent) (deployed focus : list string) (picks : BranchPicks).
Context (passes : nat).
Hypothesis enough : length (owned_lineages parent) < passes.

Definition same_start (p : BranchPreset) : Prop :=
  ∀ id, starting parent focus p id ↔ picked_by parent focus picks id.

Lemma matching_preset_exact picked presets :
  bset_wf picked → (∀ id, id ∈ picked ↔ picked_by parent focus picks id) →
  ∃ shown, matching_preset parent passes (bset_of focus) picked presets = Some shown ∧
    match shown with
    | Some p => ∃ before after, presets = before ++ p :: after ∧ same_start p ∧
        ∀ q, q ∈ before → ¬ same_start q
    | None => ∀ q, q ∈ presets → ¬ same_start q
    end.
Proof.
  intros Hwf Hpicked. induction presets as [|p presets (shown & IHs & IH)]; simpl.
  { exists None. split; [done|]. by intros q ?%elem_of_nil. }
  destruct (preset_picks_exact parent focus passes p enough) as (set & -> & Hset & Hstart). simpl.
  case_bool_decide as Heq.
  - exists (Some p). split; [done|]. exists [], presets. split_and!; [done| |by intros q ?%elem_of_nil].
    intros id. by rewrite <- Hstart, <- Hpicked, Heq.
  - exists shown. split; [done|]. assert (Hp : ¬ same_start p).
    { intros Hsame. apply Heq, bset_ext; [done..|]. intros id. by rewrite Hstart, Hpicked. }
    destruct shown as [q|].
    + destruct IH as (before & after & -> & Hq & Hb). exists (p :: before), after.
      split_and!; [done..|]. by intros r [->|Hr]%elem_of_cons; [|apply Hb].
    + by intros r [->|Hr]%elem_of_cons; [|apply IH].
Qed.

Lemma known_lineages_Ok ids path :
  known_lineages parent ids path = Ok () ↔ ∀ id, id ∈ ids → id ∈ owned_lineages parent.
Proof.
  unfold known_lineages. destruct (forallb _ ids) eqn:Hb.
  - rewrite forallb_elem in Hb. split; [|done]. intros _ id Hid.
    by apply Hb, bool_decide_eq_true in Hid.
  - split; [done|]. intros Hk. apply not_true_iff_false in Hb. destruct Hb.
    apply forallb_elem. intros id Hid. by apply bool_decide_eq_true, Hk.
Qed.

Hypothesis focus_known : ∀ id, id ∈ focus → id ∈ owned_lineages parent.
Hypothesis picks_known : ∀ own, picks = PicksOwn own → ∀ id, id ∈ own → id ∈ owned_lineages parent.

Lemma picked_lineages_exact :
  ∃ picked, picked_lineages parent passes (bset_of focus) picks = Some (Ok picked) ∧
    bset_wf picked ∧ ∀ id, id ∈ picked ↔ picked_by parent focus picks id.
Proof.
  destruct picks as [preset|own] eqn:Hpicks; simpl.
  - destruct (preset_picks_exact parent focus passes preset enough) as (set & -> & Hwf & Hset).
    by exists set.
  - rewrite (proj2 (known_lineages_Ok own "picks.own")) by (by apply picks_known). simpl.
    exists (bset_of own). split_and!; [done|apply bset_of_wf|]. intros id. apply elem_of_bset_of.
Qed.

Lemma picked_by_owned id : picked_by parent focus picks id → id ∈ owned_lineages parent.
Proof.
  destruct picks as [[]|own] eqn:Hpicks; simpl; [apply focus_known| |done|by apply picks_known].
  by destruct 1; [apply focus_known|].
Qed.

Lemma typed_nodes_known node :
  node ∈ typed_nodes parent → node.1 ∈ owned_lineages parent ∨ node.1 ∈ parent_live parent.
Proof.
  unfold typed_nodes. rewrite !elem_of_app, !list_elem_of_fmap, elem_of_owned.
  intros [(id & -> & Hid)|[(v & -> & Hv)|(id & -> & Hid)]]; simpl; [by left; left| |by right].
  left; right. apply elem_of_bset_of, list_elem_of_fmap. eauto.
Qed.

Lemma plan_branch_returns :
  ∃ plan, plan_branch parent passes deployed focus picks = Some (Ok plan) ∧
    map (λ n, (n.(bn_lineage_id), n.(bn_node_type))) plan.(bp_nodes) = typed_nodes parent ∧
    (∀ n, n ∈ plan.(bp_nodes) →
       role_spec parent deployed (picked_by parent focus picks) n.(bn_lineage_id) n.(bn_role)) ∧
    preset_shown same_start plan.(bp_preset).
Proof.
  unfold plan_branch. rewrite (proj2 (known_lineages_Ok focus "focus")) by done.
  destruct picked_lineages_exact as (picked & -> & Hwf & Hpicked).
  destruct (matching_preset_exact picked PRESETS Hwf Hpicked) as (shown & Hshow & Hshown).
  cbn [mbind option_bind]. rewrite Hshow.
  destruct (roles_exact parent deployed picked) with (passes := passes)
    as (roles & -> & Hdom & Hroles); [intros id Hid; by apply picked_by_owned, Hpicked|done|]. simpl.
  assert (Hnodes : ∃ nodes, mapM (planned_node roles) (typed_nodes parent) = Some nodes).
  { apply mapM_is_Some_2, Forall_forall. intros node Hn. apply typed_nodes_known, Hdom in Hn as [r Hr].
    unfold compose, planned_node. rewrite Hr. by eexists. }
  destruct Hnodes as [nodes Hnodes]. rewrite Hnodes. simpl.
  eexists. split; [done|]. apply mapM_Some_1 in Hnodes. split_and!; simpl.
  - clear - Hnodes. induction Hnodes as [|x y l k Hy _ IH]; [done|]. simpl. rewrite IH.
    apply fmap_Some in Hy as (r & _ & ->). by destruct x.
  - intros n [i Hi]%list_elem_of_lookup.
    destruct (Forall2_lookup_r _ _ _ _ _ Hnodes Hi) as (x & _ & Hx).
    apply fmap_Some in Hx as (r & Hr & ->). simpl.
    eapply role_spec_proper; [reflexivity..| |reflexivity|reflexivity|by apply Hroles].
    intros id. by rewrite Hpicked.
  - destruct shown as [p|]; [done|]. intros q. apply Hshown. destruct q; set_solver.
Qed.
End Returns.

(** ** The theorems *)

(** C25: Planning a Branch always returns. Every Service, Volume and lineage the Parent
    itself uses live is a node of the plan, in document order; a node is an Own Copy
    exactly when it is picked or an Own Copy uses it and the Parent cannot share it (a
    Volume, or a Service the Parent does not run), with that reason; it is live exactly
    when the Parent uses it live or an Own Copy uses it and the Parent runs it; otherwise
    no Own Copy uses it and it is left out. The preset shown is the first that starts
    from the same nodes. *)
Theorem plan_branch_exact parent deployed focus picks passes :
  length (owned_lineages parent) < passes →
  (∀ id, id ∈ focus → id ∈ owned_lineages parent) →
  (∀ own, picks = PicksOwn own → ∀ id, id ∈ own → id ∈ owned_lineages parent) →
  ∃ plan, plan_branch parent passes deployed focus picks = Some (Ok plan) ∧
    map (λ n, (n.(bn_lineage_id), n.(bn_node_type))) plan.(bp_nodes) = typed_nodes parent ∧
    (∀ n, n ∈ plan.(bp_nodes) →
       role_spec parent deployed (picked_by parent focus picks) n.(bn_lineage_id) n.(bn_role)) ∧
    preset_shown (same_start parent focus picks) plan.(bp_preset).
Proof. intros. by apply plan_branch_returns. Qed.

Lemma known_lineages_Err parent ids path :
  ¬ (∀ id, id ∈ ids → id ∈ owned_lineages parent) →
  known_lineages parent ids path = Err (ConfigError_at path "Unknown lineage in the Parent").
Proof.
  intros Hn. unfold known_lineages. destruct (forallb _ ids) eqn:Hb; [|done].
  destruct Hn. intros id Hid. rewrite forallb_elem in Hb. by apply Hb, bool_decide_eq_true in Hid.
Qed.

(** A focus the Parent does not own is refused first, then picks it does not own. *)
Lemma plan_branch_refuses parent deployed focus picks passes :
  (¬ (∀ id, id ∈ focus → id ∈ owned_lineages parent) →
   plan_branch parent passes deployed focus picks =
     Some (Err (ConfigError_at "focus" "Unknown lineage in the Parent"))) ∧
  (∀ own, picks = PicksOwn own → (∀ id, id ∈ focus → id ∈ owned_lineages parent) →
   ¬ (∀ id, id ∈ own → id ∈ owned_lineages parent) →
   plan_branch parent passes deployed focus picks =
     Some (Err (ConfigError_at "picks.own" "Unknown lineage in the Parent"))).
Proof.
  split.
  - intros Hn. unfold plan_branch. by rewrite known_lineages_Err.
  - intros own -> Hf Hn. unfold plan_branch.
    rewrite (proj2 (known_lineages_Ok parent focus "focus")) by done. simpl.
    by rewrite known_lineages_Err.
Qed.

Lemma role_copied parent deployed picked id because :
  role_spec parent deployed picked id (RoleOwn because) → copied parent deployed picked id.
Proof. destruct because; simpl; [apply copied_picked|naive_solver..]. Qed.

(** In a plan, everything an Own Copy uses is there: it is an Own Copy itself or the
    Parent runs it live, never left out. A Volume an Own Copy mounts is an Own Copy too,
    so a Branch never shares data with its Parent. *)
Theorem branch_plan_closed parent deployed focus picks passes plan n m :
  length (owned_lineages parent) < passes →
  plan_branch parent passes deployed focus picks = Some (Ok plan) →
  n ∈ plan.(bp_nodes) → m ∈ plan.(bp_nodes) →
  (n.(bn_lineage_id), m.(bn_lineage_id)) ∈ links parent →
  is_own (Some n.(bn_role)) = true →
  m.(bn_role) ≠ RoleLeftOut ∧
  (m.(bn_lineage_id) ∈ volume_lineages parent → is_own (Some m.(bn_role)) = true) ∧
  (m.(bn_role) = RoleLive →
     m.(bn_lineage_id) ∈ parent_live parent ∨ m.(bn_lineage_id) ∈ deployed).
Proof.
  intros Hp Hplan Hn Hm Hl Ho.
  assert (Hf : ∀ id, id ∈ focus → id ∈ owned_lineages parent).
  { apply (known_lineages_Ok _ _ "focus"). unfold plan_branch in Hplan.
    by destruct (known_lineages parent focus "focus") as [[]|]. }
  assert (Hk : ∀ own, picks = PicksOwn own → ∀ id, id ∈ own → id ∈ owned_lineages parent).
  { intros own ->. apply (known_lineages_Ok _ _ "picks.own"). unfold plan_branch in Hplan.
    rewrite (proj2 (known_lineages_Ok parent focus "focus")) in Hplan by done. simpl in Hplan.
    by destruct (known_lineages parent own "picks.own") as [[]|]. }
  destruct (plan_branch_returns parent deployed focus picks passes Hp Hf Hk)
    as (plan' & Hplan' & _ & Hroles & _).
  rewrite Hplan in Hplan'. simplify_eq.
  pose proof (Hroles _ Hn) as Hrn. pose proof (Hroles _ Hm) as Hrm.
  destruct (bn_role n) as [because| |] eqn:Hbn; try done. apply role_copied in Hrn.
  destruct (bn_role m) as [because'| |] eqn:Hbm; simpl.
  - done.
  - split_and!; [done| |]; simpl in Hrm.
    + intros Hv. destruct Hrm as [[Hno _]%elem_of_parent_live|(_ & _ & ? & _)]; [|done].
      destruct Hno. apply elem_of_owned. by right.
    + intros _. naive_solver.
  - destruct Hrm as (_ & _ & Hno). by destruct (Hno _ Hrn Hl).
Qed.

(** ** A concrete Branch *)

Module SampleBranch.
Definition reads (lineage key : string) : SavedVariableIntent :=
  {| var_id := lineage +:+ key; var_key := key; var_description := None; var_exported := false;
     var_value_fingerprint := "f";
     var_value := VariableTemplate [PartText "x"; PartRef (OwnerService lineage) key] |}.

Definition service (lineage : string) (variables : list SavedVariableIntent)
    (volumes : list string) : SavedServiceIntent :=
  {| svc_id := lineage +:+ "-id"; svc_lineage_id := lineage; svc_slug := lineage;
     svc_config := SampleConfig.config; svc_variables := variables;
     svc_volume_attachments :=
       map (λ v, {| volume_resource_id := v +:+ "-id"; mount_path := "/" +:+ v |}) volumes |}.

Definition volume (lineage : string) : SavedVolumeIntent :=
  {| vol_resource_id := lineage +:+ "-id"; vol_resource_lineage_id := lineage; vol_name := lineage;
     vol_storage := VolumeDocker; vol_shared_writes := false |}.

Definition parent : SavedEnvironmentIntent :=
  {| env_version := 1; env_slug := "production";
     env_services := [service "web" [reads "db" "A"; reads "cache" "B"; reads "auth" "C"] [];
                      service "db" [] ["data"]; service "cache" [] ["ram"]; service "cron" [] []];
     env_volumes := [volume "data"; volume "ram"] |}.

Definition node (lineage : string) (ty : EnvironmentNodeType) (role : BranchNodeRole)
    : BranchPlanNode := {| bn_lineage_id := lineage; bn_node_type := ty; bn_role := role |}.

Definition sample_plan : BranchPlan :=
  {| bp_nodes :=
       [node "web" TypeService (RoleOwn Picked); node "db" TypeService (RoleOwn ParentNotDeployed);
        node "cache" TypeService RoleLive; node "cron" TypeService RoleLeftOut;
        node "data" TypeVolume (RoleOwn Used); node "ram" TypeVolume RoleLeftOut;
        node "auth" TypeService RoleLive];
     bp_preset := Some PresetOnly |}.
End SampleBranch.

Example sample_branch_plan :
  plan_branch SampleBranch.parent 7 ["cache"] ["web"] (PicksPreset PresetOnly)
  = Some (Ok SampleBranch.sample_plan).
Proof. vm_compute. reflexivity. Qed.

Lemma plan_branch_exact_witness :
  ∃ plan, plan_branch SampleBranch.parent 7 ["cache"] ["web"] (PicksOwn ["web"]) = Some (Ok plan) ∧
    preset_shown (same_start SampleBranch.parent ["web"] (PicksOwn ["web"])) plan.(bp_preset).
Proof.
  destruct (plan_branch_exact SampleBranch.parent ["cache"] ["web"] (PicksOwn ["web"]) 7)
    as (plan & Hplan & _ & _ & Hpreset).
  - vm_compute. lia.
  - intros id [->|[]%elem_of_nil]%elem_of_cons. apply (bool_decide_unpack _). vm_compute. exact I.
  - intros own [= <-] id [->|[]%elem_of_nil]%elem_of_cons. apply (bool_decide_unpack _). vm_compute.
    exact I.
  - exists plan. split; [exact Hplan|exact Hpreset].
Defined.

Lemma branch_plan_closed_witness :
  (RoleOwn Used ≠ RoleLeftOut) ∧
  ("data" ∈ volume_lineages SampleBranch.parent → is_own (Some (RoleOwn Used)) = true).
Proof.
  destruct (branch_plan_closed SampleBranch.parent ["cache"] ["web"] (PicksPreset PresetOnly) 7
    SampleBranch.sample_plan (SampleBranch.node "db" TypeService (RoleOwn ParentNotDeployed))
    (SampleBranch.node "data" TypeVolume (RoleOwn Used))) as (H1 & H2 & _).
  - vm_compute. lia.
  - vm_compute. reflexivity.
  - right. left.
  - do 4 right. left.
  - vm_compute. do 3 right. left.
  - reflexivity.
  - split; [exact H1|exact H2].
Defined.
