(* ===== verification/Variables.v ===== *)
(** * Resolving variables

    [resolve_variables] of [ployz-core/src/config/variables.rs]: expand a template over
    the values its producers supply, with a memo of the producers expanded so far, the
    stack of those being expanded, and a warning per reference nobody supplies.

    [resolve_parts] takes the depth it may recurse to; [None] is a run that goes deeper.
    The stack never repeats a producer, so a depth above the number of producers is
    enough ([resolve_returns]). *)

From S2P Require Import Prelude BTree Strings Config.
From stdpp Require Import relations.

Open Scope string_scope.
Open Scope nat_scope.
Open Scope list_scope.

(** ** Data *)

Inductive ResolverValue : Type :=
| ResolverLiteral (value : string)
| ResolverSecret (value : string)
| ResolverTemplate (parts : list ValuePart).

Record VariableProducer : Type := {
  vp_owner_id : string;
  vp_owner : ValuePartOwner;
  vp_key : string;
  vp_value : ResolverValue
}.

Record ResolveVariablesInput : Type := {
  rv_parts : list ValuePart;
  rv_self_owner_id : string;
  rv_producers : list VariableProducer
}.

Record TemplateWarning : Type := {
  tw_kind : string;
  tw_owner_id : option string;
  tw_key : string
}.

Inductive ResolveVariablesResult : Type :=
| Resolved (value : string) (secret : bool) (warnings : list TemplateWarning)
| Cycle (path : list string).

(** A producer in the memo and on the stack: its owner and its key. *)
Definition ProducerId : Type := string * string.

(** What the resolution has gathered: the warnings and the memo. *)
Record Gathered : Type := {
  g_warnings : list TemplateWarning;
  g_memo : bmap ProducerId (string * bool)
}.

(** ** Operations *)

Section Resolve.
Context (producers : list VariableProducer).

Definition produces (self_owner_id : string) (owner : ValuePartOwner) (key : string)
    (producer : VariableProducer) : bool :=
  bool_decide (producer.(vp_key) = key) &&
  match owner with
  | OwnerSelf => bool_decide (producer.(vp_owner_id) = self_owner_id)
  | OwnerService _ => bool_decide (producer.(vp_owner) = owner)
  end.

(** [producers.iter().rev().find(..)]. *)
Definition found_producer (self_owner_id : string) (owner : ValuePartOwner) (key : string)
    : option VariableProducer :=
  List.find (produces self_owner_id owner key) (rev producers).

Definition missing_warning (self_owner_id : string) (owner : ValuePartOwner) (key : string)
    : TemplateWarning :=
  {| tw_kind := "missing";
     tw_owner_id := match owner with OwnerSelf => Some self_owner_id | OwnerService _ => None end;
     tw_key := key |}.

Definition show_id (id : ProducerId) : string := id.1 +:+ "::" +:+ id.2.

Definition warn (warning : TemplateWarning) (st : Gathered) : Gathered :=
  {| g_warnings := st.(g_warnings) ++ [warning]; g_memo := st.(g_memo) |}.

Definition remember (id : ProducerId) (resolved : string * bool) (st : Gathered) : Gathered :=
  {| g_warnings := st.(g_warnings); g_memo := binsert id resolved st.(g_memo) |}.

(** A resolution ends with the value, whether it is secret and what was gathered, or
    with the path of a cycle. *)
Definition Resolution : Type := option (Result ((string * bool) * Gathered) (list string)).

Definition resolve_found (recurse : list ValuePart → string → list ProducerId → Gathered → Resolution)
    (stack : list ProducerId) (found : VariableProducer) (key : string) (st : Gathered)
    : Resolution :=
  let id := (found.(vp_owner_id), key) in
  if bool_decide (id ∈ stack) then Some (Err (map show_id (stack ++ [id])))
  else
    match bget st.(g_memo) id with
    | Some cached => Some (Ok (cached, st))
    | None =>
        match found.(vp_value) with
        | ResolverLiteral value => Some (Ok ((value, false), remember id (value, false) st))
        | ResolverSecret value => Some (Ok ((value, true), remember id (value, true) st))
        | ResolverTemplate parts =>
            match recurse parts found.(vp_owner_id) (stack ++ [id]) st with
            | Some (Ok (resolved, st)) => Some (Ok (resolved, remember id resolved st))
            | stopped => stopped
            end
        end
    end.

Fixpoint resolve_each (recurse : list ValuePart → string → list ProducerId → Gathered → Resolution)
    (parts : list ValuePart) (self_owner_id : string) (stack : list ProducerId)
    (value : string) (secret : bool) (st : Gathered) : Resolution :=
  match parts with
  | [] => Some (Ok ((value, secret), st))
  | PartText text :: parts =>
      resolve_each recurse parts self_owner_id stack (value +:+ text) secret st
  | PartRef owner key :: parts =>
      match found_producer self_owner_id owner key with
      | None =>
          resolve_each recurse parts self_owner_id stack value secret
            (warn (missing_warning self_owner_id owner key) st)
      | Some found =>
          match resolve_found recurse stack found key st with
          | Some (Ok (resolved, st)) =>
              resolve_each recurse parts self_owner_id stack (value +:+ resolved.1)
                (secret || resolved.2) st
          | stopped => stopped
          end
      end
  end.

Fixpoint resolve_parts (depth : nat) (parts : list ValuePart) (self_owner_id : string)
    (stack : list ProducerId) (st : Gathered) : Resolution :=
  match depth with
  | 0 => None
  | S depth => resolve_each (resolve_parts depth) parts self_owner_id stack "" false st
  end.
End Resolve.

Definition resolve_variables (depth : nat) (input : ResolveVariablesInput)
    : option ResolveVariablesResult :=
  match resolve_parts input.(rv_producers) depth input.(rv_parts) input.(rv_self_owner_id) []
          {| g_warnings := []; g_memo := [] |} with
  | Some (Ok ((value, secret), st)) => Some (Resolved value secret st.(g_warnings))
  | Some (Err path) => Some (Cycle path)
  | None => None
  end.

(** ** What a template means *)

Section Meaning.
Context (producers : list VariableProducer).

(** The producer a reference names, and the value supplied for it. *)
Definition names (self_owner_id : string) (owner : ValuePartOwner) (key : string)
    : option ProducerId :=
  (λ p, (p.(vp_owner_id), key)) <$> found_producer producers self_owner_id owner key.

Definition supplied (id : ProducerId) : option ResolverValue :=
  vp_value <$> found_producer producers id.1 OwnerSelf id.2.

(** The text of a template, every reference replaced by the text of its producer. *)
Inductive expands : string → list ValuePart → string → bool → Prop :=
| expands_nil self : expands self [] "" false
| expands_text self text parts v s :
    expands self parts v s → expands self (PartText text :: parts) (text +:+ v) s
| expands_missing self owner key parts v s :
    names self owner key = None → expands self parts v s →
    expands self (PartRef owner key :: parts) v s
| expands_literal self owner key id text parts v s :
    names self owner key = Some id → supplied id = Some (ResolverLiteral text) →
    expands self parts v s →
    expands self (PartRef owner key :: parts) (text +:+ v) s
| expands_secret self owner key id text parts v s :
    names self owner key = Some id → supplied id = Some (ResolverSecret text) →
    expands self parts v s →
    expands self (PartRef owner key :: parts) (text +:+ v) true
| expands_template self owner key id inner v1 s1 parts v s :
    names self owner key = Some id → supplied id = Some (ResolverTemplate inner) →
    expands id.1 inner v1 s1 → expands self parts v s →
    expands self (PartRef owner key :: parts) (v1 +:+ v) (s1 || s).

(** A template reaches a secret, directly or through other templates. *)
Inductive reads_secret : string → list ValuePart → Prop :=
| reads_secret_here self parts owner key id text :
    PartRef owner key ∈ parts → names self owner key = Some id →
    supplied id = Some (ResolverSecret text) → reads_secret self parts
| reads_secret_through self parts owner key id inner :
    PartRef owner key ∈ parts → names self owner key = Some id →
    supplied id = Some (ResolverTemplate inner) → reads_secret id.1 inner →
    reads_secret self parts.

(** A template reaches a reference that nobody supplies. *)
Inductive lacks : string → list ValuePart → TemplateWarning → Prop :=
| lacks_here self parts owner key :
    PartRef owner key ∈ parts → names self owner key = None →
    lacks self parts (missing_warning self owner key)
| lacks_through self parts owner key id inner w :
    PartRef owner key ∈ parts → names self owner key = Some id →
    supplied id = Some (ResolverTemplate inner) → lacks id.1 inner w → lacks self parts w.

(** One template reads another producer. *)
Definition reads_id (self : string) (parts : list ValuePart) (id : ProducerId) : Prop :=
  ∃ owner key, PartRef owner key ∈ parts ∧ names self owner key = Some id.

Definition id_reads (id id' : ProducerId) : Prop :=
  ∃ inner, supplied id = Some (ResolverTemplate inner) ∧ reads_id id.1 inner id'.

(** A chain of references from a template. *)
Fixpoint follows (self : string) (parts : list ValuePart) (ids : list ProducerId) : Prop :=
  match ids with
  | [] => True
  | [id] => reads_id self parts id
  | id :: ids =>
      reads_id self parts id ∧
      ∃ inner, supplied id = Some (ResolverTemplate inner) ∧ follows id.1 inner ids
  end.

(** The path of a cycle: a chain of references that comes back to a producer on it. *)
Definition cycle_path (self : string) (parts : list ValuePart) (path : list string) : Prop :=
  ∃ ids id, path = map show_id (ids ++ [id]) ∧ follows self parts (ids ++ [id]) ∧ id ∈ ids.

(** Each owner has one scope, as the compiler of an Environment gives it. *)
Definition one_scope : Prop :=
  ∀ p q, p ∈ producers → q ∈ producers →
    p.(vp_owner_id) = q.(vp_owner_id) ↔ p.(vp_owner) = q.(vp_owner).
End Meaning.

(** ** Laws of the meaning *)

Section MeaningLaws.
Context (producers : list VariableProducer).
Abbreviation expands := (expands producers).
Abbreviation lacks := (lacks producers).
Abbreviation names := (names producers).
Abbreviation supplied := (supplied producers).
Abbreviation follows := (follows producers).

Lemma found_producer_elem self owner key found :
  found_producer producers self owner key = Some found →
  found ∈ producers ∧ produces self owner key found = true.
Proof.
  intros [Hin Hp]%find_Some_elem. split; [|done].
  apply list_elem_of_In, in_rev. by apply list_elem_of_In.
Qed.

Lemma found_producer_key self owner key found :
  found_producer producers self owner key = Some found → found.(vp_key) = key.
Proof.
  intros [_ Hp]%found_producer_elem. unfold produces in Hp.
  by apply andb_true_iff in Hp as [Hk%bool_decide_eq_true _].
Qed.

(** A reference reads what its producer supplies, however it names it. *)
Lemma found_supplied self owner key found :
  one_scope producers → found_producer producers self owner key = Some found →
  supplied (found.(vp_owner_id), key) = Some found.(vp_value).
Proof.
  intros Hscope Hf. unfold Variables.supplied. simpl.
  enough (found_producer producers found.(vp_owner_id) OwnerSelf key = Some found) as ->; [done|].
  rewrite <- Hf. destruct (found_producer_elem _ _ _ _ Hf) as [Hin Hp]. unfold produces in Hp.
  apply andb_true_iff in Hp as [_ Hown]. apply find_ext_elem. intros p Hpin. unfold produces.
  f_equal. apply list_elem_of_In, in_rev, list_elem_of_In in Hpin.
  destruct owner; apply bool_decide_eq_true in Hown as Hown; apply bool_decide_ext.
  - by rewrite Hown.
  - rewrite <- Hown. by apply Hscope.
Qed.

Lemma expands_app self a b v1 s1 v2 s2 :
  expands self a v1 s1 → expands self b v2 s2 → expands self (a ++ b) (v1 +:+ v2) (s1 || s2).
Proof.
  intros Ha Hb. induction Ha; simpl; rewrite ?str_app_assoc, <- ?orb_assoc;
    [done|by econstructor; eauto..].
Qed.

Lemma lacks_app self a b w : lacks self (a ++ b) w ↔ lacks self a w ∨ lacks self b w.
Proof.
  split.
  - intros Hl. inversion Hl as [? ? owner key Hin|? ? owner key id inner ? Hin]; subst;
      apply elem_of_app in Hin as [Hin|Hin]; [left|right|left|right];
      (by eapply lacks_here; eauto) || (by eapply lacks_through; eauto).
  - intros [Hl|Hl]; inversion Hl; subst;
      (eapply lacks_here; [|done]) || (eapply lacks_through; [|done..]); apply elem_of_app; eauto.
Qed.

Lemma follows_sub self a b ids :
  (∀ part, part ∈ a → part ∈ b) → follows self a ids → follows self b ids.
Proof.
  intros Hsub. assert (∀ id, reads_id producers self a id → reads_id producers self b id) as Hr.
  { intros id (owner & key & Hin & Hn). exists owner, key. auto. }
  destruct ids as [|id [|id' ids]]; simpl; [done|auto|]. intros [??]. auto.
Qed.

Lemma reads_secret_cons self part parts :
  reads_secret producers self (part :: parts) ↔
  (∃ owner key id, part = PartRef owner key ∧ names self owner key = Some id ∧
     match supplied id with
     | Some (ResolverSecret _) => True
     | Some (ResolverTemplate inner) => reads_secret producers id.1 inner
     | _ => False
     end) ∨ reads_secret producers self parts.
Proof.
  split.
  - intros Hr. inversion Hr as [? ? owner key id text Hin Hn Hs|? ? owner key id inner Hin Hn Hs Hi];
      subst; apply elem_of_cons in Hin as [<-|Hin].
    + left. exists owner, key, id. by rewrite Hs.
    + right. by eapply reads_secret_here.
    + left. exists owner, key, id. by rewrite Hs.
    + right. by eapply reads_secret_through.
  - intros [(owner & key & id & -> & Hn & Hs)|Hr].
    + destruct (supplied id) as [[|text|inner]|] eqn:Hv; try done.
      * eapply reads_secret_here; [left|done..].
      * eapply reads_secret_through; [left|done..].
    + inversion Hr; subst; [eapply reads_secret_here|eapply reads_secret_through];
        try done; by right.
Qed.

(** A template that expands reaches a secret exactly when its text is secret. *)
Lemma expands_secret_iff self parts v s :
  expands self parts v s → (s = true ↔ reads_secret producers self parts).
Proof.
  induction 1 as [self|self text parts v s _ IH|self owner key parts v s Hn _ IH
    |self owner key id text parts v s Hn Hv _ IH|self owner key id text parts v s Hn Hv _ IH
    |self owner key id inner v1 s1 parts v s Hn Hv _ IH1 _ IH2].
  - split; [done|]. intros Hr. inversion Hr as [???????Hin|???????Hin]; subst;
      by apply elem_of_nil in Hin.
  - rewrite reads_secret_cons, IH. naive_solver.
  - rewrite reads_secret_cons, IH. naive_solver.
  - rewrite reads_secret_cons, IH. split; [by right|].
    intros [(? & ? & id' & [= <- <-] & Hn' & Hs)|?]; [|done]. simplify_eq. by rewrite Hv in Hs.
  - rewrite reads_secret_cons. split; [|done]. intros _. left. exists owner, key, id. by rewrite Hv.
  - rewrite reads_secret_cons, orb_true_iff, IH1, IH2. split.
    + intros [Hr|Hr]; [|by right]. left. exists owner, key, id. by rewrite Hv.
    + intros [(? & ? & id' & [= <- <-] & Hn' & Hs)|?]; [|by right]. left. simplify_eq.
      by rewrite Hv in Hs.
Qed.

(** The text of a template is determined. *)
Lemma expands_det self parts v s v' s' :
  expands self parts v s → expands self parts v' s' → v = v' ∧ s = s'.
Proof.
  intros He. revert v' s'.
  induction He; intros v' s' He'; inversion He'; subst; simplify_eq; try done;
    repeat match goal with
    | IH : ∀ v s, _ → _ ∧ _, H : _ |- _ => apply IH in H as [<- <-]; clear IH
    end; done.
Qed.

(** A template that expands follows no chain back to a producer on it. *)
Lemma acc_no_cycle {A} (R : relation A) x : Acc (flip R) x → ¬ tc R x x.
Proof.
  induction 1 as [x _ IH]. intros Hc.
  assert (∃ y, R x y ∧ rtc R y x) as (y & Hxy & Hyx).
  { inversion Hc as [|? y ? Hxy Hyx]; subst; eauto using tc_rtc. }
  apply (IH y Hxy). eapply tc_rtc_l; [exact Hyx|]. by apply tc_once.
Qed.

Lemma expands_acc self parts v s :
  expands self parts v s → ∀ id, reads_id producers self parts id → Acc (flip (id_reads producers)) id.
Proof.
  induction 1 as [self|self text parts v s _ IH|self owner key parts v s Hn _ IH
    |self owner key id text parts v s Hn Hv _ IH|self owner key id text parts v s Hn Hv _ IH
    |self owner key id inner v1 s1 parts v s Hn Hv _ IH1 _ IH2];
    intros id' (o & k & Hin & Hn'); [by apply elem_of_nil in Hin|..];
    apply elem_of_cons in Hin as [Heq|Hin]; simplify_eq; try (by eapply IH; eexists _, _);
    try (by eapply IH2; eexists _, _).
  - constructor. intros y (inner & Hs & _). congruence.
  - constructor. intros y (inner & Hs & _). congruence.
  - constructor. intros y (inner' & Hs & Hr). simplify_eq. by apply IH1.
Qed.

Lemma follows_path id inner ids last :
  supplied id = Some (ResolverTemplate inner) → follows id.1 inner (ids ++ [last]) →
  tc (id_reads producers) id last.
Proof.
  revert id inner. induction ids as [|id' ids IH]; intros id inner Hv Hf; simpl in Hf.
  - apply tc_once. by exists inner.
  - assert (reads_id producers id.1 inner id' ∧ ∃ inner',
      supplied id' = Some (ResolverTemplate inner') ∧ follows id'.1 inner' (ids ++ [last]))
      as (Hr & inner' & Hv' & Hf') by (by destruct ids).
    eapply tc_l; [by exists inner|]. by eapply IH.
Qed.

Lemma follows_reads self parts id ids :
  follows self parts (id :: ids) → reads_id producers self parts id.
Proof. destruct ids; simpl; [done|]. by intros []. Qed.

Lemma follows_suffix self parts before id after :
  follows self parts (before ++ id :: after) → after ≠ [] →
  (∃ start, reads_id producers self parts start ∧ rtc (id_reads producers) start id) ∧
  ∃ inner, supplied id = Some (ResolverTemplate inner) ∧ follows id.1 inner after.
Proof.
  revert self parts. induction before as [|id' before IH]; intros self parts Hf Hne; simpl in Hf.
  - destruct after as [|a after]; [done|]. destruct Hf as [Hr Hrest].
    split; [|done]. exists id. split; [done|apply rtc_refl].
  - assert (reads_id producers self parts id' ∧ ∃ inner,
      supplied id' = Some (ResolverTemplate inner) ∧ follows id'.1 inner (before ++ id :: after))
      as (Hr & inner & Hv & Hf') by (by destruct before).
    destruct (IH _ _ Hf' Hne) as [(start & Hs & Hrtc) Hrest]. split; [|done].
    exists id'. split; [done|]. eapply rtc_l; [|done]. by exists inner.
Qed.

Lemma expands_no_cycle self parts v s path :
  expands self parts v s → ¬ cycle_path producers self parts path.
Proof.
  intros He (ids & id & _ & Hf & Hin).
  apply list_elem_of_split in Hin as (before & after & ->).
  rewrite <- app_assoc in Hf. simpl in Hf.
  destruct (follows_suffix _ _ _ _ _ Hf) as [(start & Hs & Hrtc) (inner & Hv & Hf')];
    [by destruct after|].
  pose proof (follows_path _ _ _ _ Hv Hf') as Hcyc.
  assert (Acc (flip (id_reads producers)) id) as Hacc.
  { assert (Hall : ∀ a b, rtc (id_reads producers) a b → Acc (flip (id_reads producers)) a →
      Acc (flip (id_reads producers)) b).
    { induction 1 as [|a b c Hab _ IH]; [done|]. intros [Ha]. apply IH, Ha, Hab. }
    eapply Hall; [exact Hrtc|]. by eapply expands_acc. }
  by apply (acc_no_cycle _ _ Hacc).
Qed.
End MeaningLaws.

(** ** The resolution computes the meaning *)

Section Correct.
Context (producers : list VariableProducer).
Hypothesis scoped : one_scope producers.

Definition producer_ids : list ProducerId := map (λ p, (p.(vp_owner_id), p.(vp_key))) producers.

(** The memo holds what its producers expand to, and their warnings were given. *)
Definition gathered_ok (st : Gathered) : Prop :=
  ∀ id v s, bget st.(g_memo) id = Some (v, s) →
    match supplied producers id with
    | Some (ResolverLiteral text) => v = text ∧ s = false
    | Some (ResolverSecret text) => v = text ∧ s = true
    | Some (ResolverTemplate inner) =>
        expands producers id.1 inner v s ∧
        ∀ w, lacks producers id.1 inner w → w ∈ st.(g_warnings)
    | None => False
    end.

Definition stack_ok (depth : nat) (stack : list ProducerId) : Prop :=
  NoDup stack ∧ (∀ id, id ∈ stack → id ∈ producer_ids) ∧
  length producers < depth + length stack.

Definition right_end (self : string) (parts : list ValuePart) (stack : list ProducerId)
    (st : Gathered) (value : string) (secret : bool) (end_ : Resolution) : Prop :=
  match end_ with
  | None => False
  | Some (Ok ((v, s), st')) =>
      gathered_ok st' ∧ (∀ w, w ∈ st.(g_warnings) → w ∈ st'.(g_warnings)) ∧
      (∃ v' s', v = value +:+ v' ∧ s = secret || s' ∧ expands producers self parts v' s') ∧
      (∀ w, w ∈ st'.(g_warnings) → w ∈ st.(g_warnings) ∨ lacks producers self parts w) ∧
      (∀ w, lacks producers self parts w → w ∈ st'.(g_warnings))
  | Some (Err path) =>
      ∃ rest id, path = map show_id (stack ++ rest ++ [id]) ∧
        follows producers self parts (rest ++ [id]) ∧ id ∈ stack ++ rest
  end.

Definition recurses_right (depth : nat)
    (recurse : list ValuePart → string → list ProducerId → Gathered → Resolution) : Prop :=
  ∀ parts self stack st, stack_ok depth stack → gathered_ok st →
    right_end self parts stack st "" false (recurse parts self stack st).

Lemma lacks_nil self w : ¬ lacks producers self [] w.
Proof. inversion 1; subst; by eapply not_elem_of_nil. Qed.

Lemma lacks_cons self part parts w :
  lacks producers self (part :: parts) w ↔
  lacks producers self [part] w ∨ lacks producers self parts w.
Proof. apply (lacks_app _ _ [part]). Qed.

Lemma lacks_ref self owner key w :
  lacks producers self [PartRef owner key] w ↔
  match names producers self owner key with
  | None => w = missing_warning self owner key
  | Some id => ∃ inner, supplied producers id = Some (ResolverTemplate inner) ∧
                        lacks producers id.1 inner w
  end.
Proof.
  split.
  - intros Hl. inversion Hl as [? ? o k Hin Hn|? ? o k id inner ? Hin Hn Hs Hi]; subst;
      apply list_elem_of_singleton in Hin; simplify_eq; rewrite Hn; eauto.
  - destruct (names producers self owner key) as [id|] eqn:Hn.
    + intros (inner & Hs & Hi). eapply lacks_through; [left|done..].
    + intros ->. by apply lacks_here; [left|].
Qed.

(** A reference expands to what its producer expands to. *)
Lemma expands_ref self owner key id v s :
  names producers self owner key = Some id →
  match supplied producers id with
  | Some (ResolverLiteral text) => v = text ∧ s = false
  | Some (ResolverSecret text) => v = text ∧ s = true
  | Some (ResolverTemplate inner) => expands producers id.1 inner v s
  | None => False
  end → expands producers self [PartRef owner key] v s.
Proof.
  intros Hn Hv. rewrite <- (str_app_nil_r v), <- (orb_false_r s).
  destruct (supplied producers id) as [[text|text|inner]|] eqn:Hs; [destruct Hv; subst..| |done].
  - eapply expands_literal; [done..|constructor].
  - eapply (expands_secret _ _ _ _ _ _ _ _ false); [done..|constructor].
  - eapply expands_template; [done..|constructor].
Qed.

Lemma gathered_ok_remember st id resolved :
  gathered_ok st →
  match supplied producers id with
  | Some (ResolverLiteral text) => resolved = (text, false)
  | Some (ResolverSecret text) => resolved = (text, true)
  | Some (ResolverTemplate inner) =>
      expands producers id.1 inner resolved.1 resolved.2 ∧
      ∀ w, lacks producers id.1 inner w → w ∈ st.(g_warnings)
  | None => False
  end → gathered_ok (remember id resolved st).
Proof.
  intros Hok Hid id' v s. unfold remember. simpl. rewrite bget_binsert.
  case_decide as Heq; [|by intros ?%Hok]. subst id'. intros [= ->]. simpl in Hid.
  destruct (supplied producers id) as [[]|]; naive_solver.
Qed.

Lemma gathered_ok_warn st w : gathered_ok st → gathered_ok (warn w st).
Proof.
  intros Hok id v s Hm. specialize (Hok id v s Hm). unfold warn. simpl.
  destruct (supplied producers id) as [[]|]; [done..| |done].
  destruct Hok as [He Hw]. split; [done|]. intros w' Hl. apply elem_of_app. left. auto.
Qed.

Lemma stack_ok_push depth stack found self owner key :
  stack_ok (S depth) stack → found_producer producers self owner key = Some found →
  (found.(vp_owner_id), key) ∉ stack → stack_ok depth (stack ++ [(found.(vp_owner_id), key)]).
Proof.
  intros (Hnd & Hsub & Hlen) Hf Hn. pose proof (found_producer_key _ _ _ _ _ Hf) as Hk.
  destruct (found_producer_elem _ _ _ _ _ Hf) as [Hin _]. split_and!.
  - apply NoDup_app. split_and!; [done| |apply NoDup_singleton].
    intros id Hid ->%list_elem_of_singleton. done.
  - intros id [Hid| ->%list_elem_of_singleton]%elem_of_app; [by apply Hsub|].
    unfold producer_ids. apply list_elem_of_fmap. exists found. by rewrite <- Hk.
  - rewrite length_app. simpl. lia.
Qed.

(** Deep enough for one more producer: the stack has no repetition. *)
Lemma stack_ok_deep depth stack : stack_ok depth stack → 0 < depth.
Proof.
  intros (Hnd & Hsub & Hlen). assert (length stack ≤ length producers).
  { rewrite <- (length_map (λ p, (p.(vp_owner_id), p.(vp_key))) producers).
    apply submseteq_length, NoDup_submseteq; [done|exact Hsub]. }
  lia.
Qed.

Lemma resolve_found_right depth recurse self owner key found stack st :
  recurses_right depth recurse → stack_ok (S depth) stack → gathered_ok st →
  found_producer producers self owner key = Some found →
  right_end self [PartRef owner key] stack st "" false (resolve_found recurse stack found key st).
Proof.
  intros Hrec Hstack Hok Hf. unfold resolve_found. set (id := (found.(vp_owner_id), key)).
  assert (Hn : names producers self owner key = Some id) by (unfold names; by rewrite Hf).
  assert (Hv : supplied producers id = Some found.(vp_value)) by (by eapply found_supplied).
  assert (Hr : reads_id producers self [PartRef owner key] id).
  { exists owner, key. split; [left|done]. }
  case_bool_decide as Hin.
  { exists [], id. simpl. by rewrite app_nil_r. }
  destruct (bget st.(g_memo) id) as [[v s]|] eqn:Hm.
  { specialize (Hok _ _ _ Hm) as Hid. simpl. split_and!; [done..| |by left|].
    - exists v, s. split_and!; [done..|]. apply (expands_ref _ _ _ _ _ _ Hn).
      destruct (supplied producers id) as [[]|]; naive_solver.
    - intros w. rewrite lacks_ref, Hn. intros (inner & Hs & Hl). rewrite Hs in Hid. by apply Hid. }
  assert (Hplain : ∀ v s, (found.(vp_value) = ResolverLiteral v ∧ s = false ∨
      found.(vp_value) = ResolverSecret v ∧ s = true) →
    right_end self [PartRef owner key] stack st "" false
      (Some (Ok ((v, s), remember id (v, s) st)))).
  { intros v s Hvs. simpl. split_and!.
    - apply gathered_ok_remember; [done|]. rewrite Hv. by destruct Hvs as [[-> ->]|[-> ->]].
    - done.
    - exists v, s. split_and!; [done..|]. apply (expands_ref _ _ _ _ _ _ Hn). rewrite Hv.
      by destruct Hvs as [[-> ->]|[-> ->]].
    - by left.
    - intros w. rewrite lacks_ref, Hn. intros (inner & Hs & _). rewrite Hv in Hs.
      destruct Hvs as [[Heq _]|[Heq _]]; congruence. }
  destruct found.(vp_value) as [text|text|inner] eqn:Hfv; [by apply Hplain; left|by apply Hplain; right|].
  specialize (Hrec inner found.(vp_owner_id) (stack ++ [id]) st
    (stack_ok_push _ _ _ _ _ _ Hstack Hf Hin) Hok).
  destruct (recurse inner _ _ st) as [[[[v s] st']|path]|]; simpl in Hrec |- *; [| |done].
  - destruct Hrec as (Hok' & Hmono & (v' & s' & -> & -> & He) & Hnew & Hall). simpl.
    split_and!; [|done|..].
    + apply gathered_ok_remember; [done|]. rewrite Hv. by split.
    + exists v', s'. split_and!; [done..|]. apply (expands_ref _ _ _ _ _ _ Hn). by rewrite Hv.
    + intros w [?|Hl]%Hnew; [by left|]. right. rewrite lacks_ref, Hn. eauto.
    + intros w. rewrite lacks_ref, Hn. intros (inner' & Hs & Hl). rewrite Hv in Hs. simplify_eq. auto.
  - destruct Hrec as (rest & last & -> & Hfol & Hlast). exists (id :: rest), last.
    split_and!; [by rewrite <- !app_assoc| |by rewrite <- app_assoc in Hlast]. simpl.
    assert (Hmore : reads_id producers self [PartRef owner key] id ∧ ∃ inner,
      supplied producers id = Some (ResolverTemplate inner) ∧
      follows producers id.1 inner (rest ++ [last])) by eauto.
    by destruct rest.
Qed.

(** The ends of a part and of the parts after it, together. *)
Lemma right_end_cons self part parts stack st value secret v1 s1 st1 rest_end :
  right_end self [part] stack st "" false (Some (Ok ((v1, s1), st1))) →
  right_end self parts stack st1 (value +:+ v1) (secret || s1) rest_end →
  right_end self (part :: parts) stack st value secret rest_end.
Proof.
  intros (Hok1 & Hmono1 & (v1' & s1' & -> & -> & He1) & Hnew1 & Hall1) H2.
  destruct rest_end as [[[[v s] st']|path]|]; simpl in H2 |- *; [| |done].
  - destruct H2 as (Hok' & Hmono & (v' & s' & -> & -> & He) & Hnew & Hall).
    split_and!; [done|auto|..].
    + exists (v1' +:+ v'), (s1' || s'). rewrite str_app_assoc, orb_assoc.
      split_and!; [done..|]. by apply (expands_app _ _ [_]).
    + intros w. rewrite lacks_cons. intros [[?|?]%Hnew1|?]%Hnew; auto.
    + intros w. rewrite lacks_cons. intros [?|?]; auto.
  - destruct H2 as (rest & id & -> & Hfol & Hid). exists rest, id. split_and!; [done| |done].
    eapply follows_sub; [|done]. by right.
Qed.

Lemma right_end_text self text stack st :
  gathered_ok st →
  right_end self [PartText text] stack st "" false (Some (Ok ((text, false), st))).
Proof.
  intros Hok. simpl. split_and!; [done..| |by left|].
  - exists text, false. split_and!; [done..|]. rewrite <- (str_app_nil_r text) at 2.
    apply expands_text, expands_nil.
  - intros w Hl. inversion Hl; subst; set_solver.
Qed.

Lemma right_end_missing self owner key stack st :
  gathered_ok st → found_producer producers self owner key = None →
  right_end self [PartRef owner key] stack st "" false
    (Some (Ok (("", false), warn (missing_warning self owner key) st))).
Proof.
  intros Hok Hf.
  assert (Hn : names producers self owner key = None) by (unfold names; by rewrite Hf).
  simpl. split_and!; [by apply gathered_ok_warn|set_solver|..].
  - exists "", false. split_and!; [done..|]. apply expands_missing, expands_nil. done.
  - intros w. rewrite lacks_ref, Hn. set_solver.
  - intros w. rewrite lacks_ref, Hn. set_solver.
Qed.

Lemma resolve_each_right depth recurse parts self stack value secret st :
  recurses_right depth recurse → stack_ok (S depth) stack → gathered_ok st →
  right_end self parts stack st value secret
    (resolve_each producers recurse parts self stack value secret st).
Proof.
  intros Hrec Hstack. revert value secret st.
  induction parts as [|[text|owner key] parts IH]; intros value secret st Hok; simpl.
  - split_and!; [done..| |by left|by intros w ?%lacks_nil].
    exists "", false. rewrite str_app_nil_r, orb_false_r. split_and!; [done..|constructor].
  - eapply right_end_cons; [by apply right_end_text|]. rewrite orb_false_r. by apply IH.
  - destruct (found_producer producers self owner key) as [found|] eqn:Hf.
    + pose proof (resolve_found_right _ _ _ _ _ _ _ _ Hrec Hstack Hok Hf) as H1.
      destruct (resolve_found _ _ _ _ _) as [[[[v1 s1] st1]|path]|]; [| |done].
      * eapply right_end_cons; [exact H1|]. by apply IH, H1.
      * destruct H1 as (rest & id & -> & Hfol & Hid). exists rest, id. split_and!; [done| |done].
        eapply follows_sub; [|done]. intros part ->%list_elem_of_singleton. left.
    + eapply right_end_cons; [by apply right_end_missing|].
      rewrite str_app_nil_r, orb_false_r. by apply IH, gathered_ok_warn.
Qed.

Lemma resolve_parts_right depth : recurses_right depth (resolve_parts producers depth).
Proof.
  induction depth as [|depth IH]; intros parts self stack st Hstack Hok.
  { apply stack_ok_deep in Hstack. lia. }
  simpl. by eapply resolve_each_right.
Qed.

Lemma resolve_returns depth parts self :
  length producers < depth →
  right_end self parts [] {| g_warnings := []; g_memo := [] |} "" false
    (resolve_parts producers depth parts self [] {| g_warnings := []; g_memo := [] |}).
Proof.
  intros Hd. apply resolve_parts_right; [|by intros id v s].
  split_and!; [apply NoDup_nil_2|by intros id ?%elem_of_nil|simpl; lia].
Qed.
End Correct.

Lemma resolve_variables_right depth input :
  one_scope input.(rv_producers) → length input.(rv_producers) < depth →
  let self := input.(rv_self_owner_id) in
  match resolve_variables depth input with
  | Some (Resolved value secret warnings) =>
      expands input.(rv_producers) self input.(rv_parts) value secret ∧
      (secret = true ↔ reads_secret input.(rv_producers) self input.(rv_parts)) ∧
      (∀ w, w ∈ warnings ↔ lacks input.(rv_producers) self input.(rv_parts) w) ∧
      (∀ path, ¬ cycle_path input.(rv_producers) self input.(rv_parts) path)
  | Some (Cycle path) =>
      cycle_path input.(rv_producers) self input.(rv_parts) path ∧
      ∀ v s, ¬ expands input.(rv_producers) self input.(rv_parts) v s
  | None => False
  end.
Proof.
  intros Hscope Hd self. pose proof (resolve_returns _ Hscope _ input.(rv_parts) self Hd) as Hend.
  unfold resolve_variables. fold self.
  destruct (resolve_parts _ _ _ _ _ _) as [[[[v s] st]|path]|]; simpl in Hend; [| |done].
  - destruct Hend as (_ & _ & (v' & s' & -> & -> & He) & Hnew & Hall). simpl.
    split_and!; [done|by eapply expands_secret_iff| |].
    + intros w. split; [|apply Hall]. by intros [?%elem_of_nil|?]%Hnew.
    + intros path. by eapply expands_no_cycle.
  - destruct Hend as (rest & id & -> & Hfol & Hid).
    assert (Hc : cycle_path (rv_producers input) self (rv_parts input) (map show_id (rest ++ [id]))).
    { by exists rest, id. }
    split; [exact Hc|]. intros v s He. by eapply expands_no_cycle.
Qed.

(** ** The theorems *)

(** C18: Resolving a template always ends. Unless its references run into a cycle, the
    text is the template with every reference replaced by the text of its producer, to
    any depth; it is secret exactly when it reads a secret, directly or through other
    templates; and the warnings name exactly the references nobody supplies. A cycle is
    reported exactly when there is one, with a chain of references that comes back. *)
Theorem resolve_variables_exact depth input :
  one_scope input.(rv_producers) → length input.(rv_producers) < depth →
  let self := input.(rv_self_owner_id) in
  match resolve_variables depth input with
  | Some (Resolved value secret warnings) =>
      expands input.(rv_producers) self input.(rv_parts) value secret ∧
      (secret = true ↔ reads_secret input.(rv_producers) self input.(rv_parts)) ∧
      (∀ w, w ∈ warnings ↔ lacks input.(rv_producers) self input.(rv_parts) w) ∧
      (∀ path, ¬ cycle_path input.(rv_producers) self input.(rv_parts) path)
  | Some (Cycle path) =>
      cycle_path input.(rv_producers) self input.(rv_parts) path ∧
      ∀ v s, ¬ expands input.(rv_producers) self input.(rv_parts) v s
  | None => False
  end.
Proof. apply resolve_variables_right. Qed.

(** ** A concrete Environment *)

Module SampleVariables.
Definition producer (owner key : string) (value : ResolverValue) : VariableProducer :=
  {| vp_owner_id := owner +:+ "-id"; vp_owner := OwnerService owner; vp_key := key;
     vp_value := value |}.

Definition producers : list VariableProducer :=
  [producer "web" "HOST" (ResolverLiteral "web.internal");
   producer "db" "USER" (ResolverLiteral "app");
   producer "db" "PASSWORD" (ResolverSecret "hunter2");
   producer "db" "URL" (ResolverTemplate
     [PartText "pg://"; PartRef OwnerSelf "USER"; PartText ":"; PartRef OwnerSelf "PASSWORD"]);
   producer "web" "A" (ResolverTemplate [PartRef OwnerSelf "B"]);
   producer "web" "B" (ResolverTemplate [PartRef (OwnerService "web") "A"])].

Definition input (parts : list ValuePart) : ResolveVariablesInput :=
  {| rv_parts := parts; rv_self_owner_id := "web-id"; rv_producers := producers |}.

Definition url : list ValuePart :=
  [PartRef OwnerSelf "HOST"; PartText " "; PartRef (OwnerService "db") "URL";
   PartRef (OwnerService "db") "PORT"].

Lemma producers_one_scope : one_scope producers.
Proof.
  intros p q Hp Hq. unfold producers in *. rewrite !elem_of_cons, elem_of_nil in Hp, Hq.
  destruct_or!; subst; try done; simpl; split; intros; simplify_eq; done.
Qed.
End SampleVariables.

Example resolved_sample :
  resolve_variables 7 (SampleVariables.input SampleVariables.url)
  = Some (Resolved "web.internal pg://app:hunter2" true
      [{| tw_kind := "missing"; tw_owner_id := None; tw_key := "PORT" |}]).
Proof. vm_compute. reflexivity. Qed.

Example sample_cycle :
  resolve_variables 7 (SampleVariables.input [PartRef OwnerSelf "A"])
  = Some (Cycle ["web-id::A"; "web-id::B"; "web-id::A"]).
Proof. vm_compute. reflexivity. Qed.

Lemma resolve_variables_exact_witness :
  expands SampleVariables.producers "web-id" SampleVariables.url "web.internal pg://app:hunter2" true ∧
  cycle_path SampleVariables.producers "web-id" [PartRef OwnerSelf "A"]
    ["web-id::A"; "web-id::B"; "web-id::A"].
Proof.
  assert (Hd : length SampleVariables.producers < 7) by (vm_compute; lia).
  split.
  - pose proof (resolve_variables_exact 7 (SampleVariables.input SampleVariables.url)
      SampleVariables.producers_one_scope Hd) as H.
    cbv zeta in H. rewrite resolved_sample in H. apply H.
  - pose proof (resolve_variables_exact 7 (SampleVariables.input [PartRef OwnerSelf "A"])
      SampleVariables.producers_one_scope Hd) as H.
    cbv zeta in H. rewrite sample_cycle in H. apply H.
Defined.
