(* ===== verification/VariableTemplate.v ===== *)
(** * The text of a variable

    [parse_variable_template] of [ployz-core/src/config/variables.rs],
    [render_variable_parts] of [config/environment_compile.rs], and what the Store does
    with them ([ployz-store/src/variables.rs]): reading the text a caller sets, storing
    it, and showing it again.

    Text is UTF-8 held as bytes. The loop of the parser pushes one character at a time;
    here one byte at a time, which is the same because no byte of a longer character is
    a dollar sign. [parse_loop] takes the number of rounds it may make; a round consumes
    text, so its length is enough ([parse_returns]). *)

From S2P Require Import Prelude BTree Strings RuntimeOutcome Config.
From Stdlib Require Import Ascii.

Open Scope string_scope.
Open Scope nat_scope.
Open Scope list_scope.

(** ** Tokens *)

Definition is_alphabetic (b : N) : bool := is_ascii_lowercase b || is_ascii_uppercase b.

Definition is_ident (extra : ascii) (b : N) : bool :=
  is_ascii_alphanumeric b || is_byte "_" b || is_byte extra b.

(** [text.split_at(end)] at the first character that is none of the identifier's. *)
Fixpoint identifier (extra : ascii) (text : string) : string * string :=
  match text with
  | EmptyString => ("", "")
  | String c rest =>
      if is_ident extra (byte_of c)
      then let '(run, after) := identifier extra rest in (String c run, after)
      else ("", text)
  end.

(** [s.starts_with(|c| ..)]. *)
Definition starts_with_byte (p : N → bool) (s : string) : bool :=
  match first_byte s with Some b => p b | None => false end.

Definition valid_key (key : string) : bool :=
  starts_with_byte (λ b, is_alphabetic b || is_byte "_" b) key
  && negb (bytes_any (is_byte "-") key).

Definition template_token (text : string) : option (option string * string * string) :=
  let body := trim_start text in
  let '(first, after) := identifier "-" body in
  '(owner, key, after) ←
    match strip_prefix "." after with
    | Some after =>
        if starts_with_byte is_ascii_alphanumeric first
        then let '(key, after) := identifier "_" after in Some (Some first, key, after)
        else None
    | None => Some (None, first, after)
    end;
  after ← strip_prefix "}}" (trim_start after);
  if valid_key key then Some (owner, key, after) else None.

(** ** Parsing *)

Record ParsedTemplate : Type := {
  pt_parts : list ValuePart;
  pt_unresolved : list string;
  pt_unterminated : bool
}.

(** [if !pending.is_empty() { parts.push(Text(take(pending))) }]. *)
Definition flush (parts : list ValuePart) (pending : string) : list ValuePart :=
  if str_is_empty pending then parts else parts ++ [PartText pending].

Definition contains_close (text : string) : bool :=
  match split_once "}}" text with Some _ => true | None => false end.

Section Parse.
Context (lineage : string → option string).

Definition resolved_owner (owner : option string) : option ValuePartOwner :=
  match owner with
  | None => Some OwnerSelf
  | Some name => OwnerService <$> lineage name
  end.

Fixpoint parse_loop (rounds : nat) (rest : string) (parts : list ValuePart)
    (unresolved : list string) (unterminated : bool) (pending : string) : option ParsedTemplate :=
  match rest with
  | EmptyString =>
      Some {| pt_parts := flush parts pending; pt_unresolved := unresolved;
              pt_unterminated := unterminated |}
  | String c tail =>
      match rounds with
      | 0 => None
      | S rounds =>
          match strip_prefix "$${{" rest with
          | Some after => parse_loop rounds after parts unresolved unterminated (pending +:+ "${{")
          | None =>
              match strip_prefix "${{" rest with
              | None =>
                  parse_loop rounds tail parts unresolved unterminated (pending +:+ String c "")
              | Some after =>
                  match template_token after with
                  | None =>
                      parse_loop rounds after parts unresolved
                        (unterminated || negb (contains_close after)) (pending +:+ "${{")
                  | Some (owner, key, after) =>
                      match resolved_owner owner with
                      | Some owner =>
                          parse_loop rounds after (flush parts pending ++ [PartRef owner key])
                            unresolved unterminated ""
                      | None =>
                          parse_loop rounds after parts
                            (unresolved ++ match owner with Some name => [name] | None => [] end)
                            unterminated
                            (pending +:+ String.substring 0 (String.length rest - String.length after)
                                           rest)
                      end
                  end
              end
          end
      end
  end.

Definition parse_variable_template (rounds : nat) (text : string) : option ParsedTemplate :=
  parse_loop rounds text [] [] false "".
End Parse.

(** ** Rendering *)

(** [value.replace("${{", "$${{")]. *)
Fixpoint escape_template (value : string) : string :=
  match value with
  | EmptyString => EmptyString
  | String c0 tail =>
      match tail with
      | String c1 (String c2 rest) =>
          if Ascii.eqb c0 "$" && Ascii.eqb c1 "{" && Ascii.eqb c2 "{"
          then "$${{" +:+ escape_template rest
          else String c0 (escape_template tail)
      | _ => String c0 (escape_template tail)
      end
  end.

Definition render_part (slugs : bmap string string) (part : ValuePart) : string :=
  match part with
  | PartText value => escape_template value
  | PartRef OwnerSelf key => "${{ " +:+ key +:+ " }}"
  | PartRef (OwnerService lineage_id) key =>
      let slug := default "<deleted>" (bget slugs lineage_id) in
      "${{ " +:+ slug +:+ "." +:+ key +:+ " }}"
  end.

Fixpoint render_variable_parts (parts : list ValuePart) (slugs : bmap string string) : string :=
  match parts with
  | [] => ""
  | part :: parts => render_part slugs part +:+ render_variable_parts parts slugs
  end.

(** ** What the Store sets and shows *)

(** Why a text is refused. *)
Inductive TextRefusal : Type :=
| NulCharacter
| Unterminated
| NoSuchService (name : string).

Definition validate_text (text : string) : Result () TextRefusal :=
  if bytes_any (λ b, (b =? 0)%N) text then Err NulCharacter else Ok ().

(** The first lineage that has the name. *)
Definition named (names : bmap string string) (name : string) : option string :=
  fst <$> List.find (λ entry, bool_decide (entry.2 = name)) names.

Definition text_parts (rounds : nat) (text : string) (names : bmap string string)
    : option (Result (list ValuePart) TextRefusal) :=
  match validate_text text with
  | Err refusal => Some (Err refusal)
  | Ok _ =>
      template ← parse_variable_template (named names) rounds text;
      Some (if template.(pt_unterminated) then Err Unterminated
            else match template.(pt_unresolved) with
                 | name :: _ => Err (NoSuchService name)
                 | [] => Ok template.(pt_parts)
                 end)
  end.

Definition stored_text (parts : list ValuePart) : SavedVariableValue :=
  match parts with
  | [] => VariableLiteral ""
  | [PartText value] => VariableLiteral value
  | _ => VariableTemplate parts
  end.

(** A value as reads show it. *)
Definition shown_text (value : SavedVariableValue) (names : bmap string string) : Value :=
  match value with
  | VariableSecret _ => VObject [("secret", VBool true)]
  | VariableSecretWithoutValue => VObject [("secret", VBool false)]
  | VariableLiteral value => VString (render_variable_parts [PartText value] names)
  | VariableTemplate parts => VString (render_variable_parts parts names)
  end.

(** ** Round trips in small *)

Definition sample_lineage (name : string) : option string :=
  if bool_decide (name = "db") then Some "lineage-db" else None.

Example parse_display :
  pt_parts <$> parse_variable_template sample_lineage 60
    "postgres://${{ db.USER }}:${{db.PASSWORD}}@${{ HOST }}/app"
  = Some [PartText "postgres://"; PartRef (OwnerService "lineage-db") "USER"; PartText ":";
          PartRef (OwnerService "lineage-db") "PASSWORD"; PartText "@"; PartRef OwnerSelf "HOST";
          PartText "/app"].
Proof. vm_compute. reflexivity. Qed.

Example parse_malformed :
  map (λ t, pt_parts <$> parse_variable_template sample_lineage 20 t)
    ["${{ not-valid"; "${{ web. }}"; "${{ _x.Y }}"; "${{ 9X }}"; "${{ a-b }}"]
  = map (λ t, Some [PartText t])
    ["${{ not-valid"; "${{ web. }}"; "${{ _x.Y }}"; "${{ 9X }}"; "${{ a-b }}"].
Proof. vm_compute. reflexivity. Qed.

(** ** Laws of tokens *)

Lemma identifier_app extra text :
  text = (identifier extra text).1 +:+ (identifier extra text).2.
Proof.
  induction text as [|c text IH]; simpl; [done|]. destruct (is_ident extra (byte_of c)); [|done].
  destruct (identifier extra text) as [run after]. simpl in *. by rewrite <- IH.
Qed.

Lemma identifier_run extra text : bytes_all (is_ident extra) (identifier extra text).1 = true.
Proof.
  induction text as [|c text IH]; simpl; [done|]. destruct (is_ident extra (byte_of c)) eqn:Hc; [|done].
  destruct (identifier extra text) as [run after]. simpl in *. by rewrite Hc.
Qed.

(** An identifier ends where the text goes on with another character. *)
Lemma identifier_stops extra run after :
  bytes_all (is_ident extra) run = true → starts_with_byte (is_ident extra) after = false →
  identifier extra (run +:+ after) = (run, after).
Proof.
  intros Hrun Hafter. induction run as [|c run IH]; simpl in *.
  - destruct after as [|c after]; simpl; [done|]. unfold starts_with_byte in Hafter. simpl in Hafter.
    by rewrite Hafter.
  - apply andb_true_iff in Hrun as [Hc Hrun]. rewrite Hc. by rewrite IH.
Qed.

Lemma trim_start_suffix s : ∃ w, s = w +:+ trim_start s.
Proof. apply (proj2 (trim_front_suffix is_ws2 is_ws3 s)). Qed.

Lemma trim_start_id c s :
  is_ws1 (byte_of c) = false → is_ascii (byte_of c) = true → trim_start (String c s) = String c s.
Proof.
  intros Hws Hasc. unfold trim_start. cbn [trim_front]. rewrite Hws.
  destruct s as [|b s]; [done|].
  assert (byte_of c < 128)%N as Hlt by (by apply N.ltb_lt).
  assert (is_ws2 (byte_of c) (byte_of b) = false) as ->.
  { unfold is_ws2. destruct (N.eqb_spec (byte_of c) 194); [lia|done]. }
  destruct s as [|d s]; [done|].
  assert (is_ws3 (byte_of c) (byte_of b) (byte_of d) = false) as ->; [|done].
  unfold is_ws3. destruct (N.eqb_spec (byte_of c) 225); [lia|].
  destruct (N.eqb_spec (byte_of c) 226); [lia|]. by destruct (N.eqb_spec (byte_of c) 227); [lia|].
Qed.

Lemma trim_start_space s : trim_start (String " " s) = trim_start s.
Proof. done. Qed.

(** The keys and the names a token can carry. *)
Definition key_ok (key : string) : bool :=
  starts_with_byte (λ b, is_alphabetic b || is_byte "_" b) key && bytes_all (is_ident "_") key.

Definition name_ok (name : string) : bool :=
  starts_with_byte is_ascii_alphanumeric name && bytes_all (is_ident "-") name.

Lemma bytes_any_all p s : bytes_any p s = negb (bytes_all (λ b, negb (p b)) s).
Proof. induction s as [|c s IH]; simpl; [done|]. rewrite IH. by destruct (p (byte_of c)). Qed.

Lemma is_ident_dash b : is_ident "-" b = true → is_byte "-" b = false → is_ident "_" b = true.
Proof. unfold is_ident. intros H Hd. rewrite Hd, orb_false_r in H. by rewrite H. Qed.

Lemma is_ident_under b : is_ident "_" b = true → is_ident "-" b = true ∧ is_byte "-" b = false.
Proof.
  unfold is_ident, is_ascii_alphanumeric, is_ascii_digit, is_ascii_lowercase, is_ascii_uppercase,
    byte_between, is_byte. intros H.
  change (byte_of "_") with 95%N in *. change (byte_of "-") with 45%N in *.
  destruct (N.eqb_spec b 45) as [->|]; [done|].
  split; [|done]. rewrite orb_false_r. destruct (b =? 95)%N; [apply orb_true_r|].
  by rewrite !orb_false_r in *.
Qed.

Lemma key_ok_valid key :
  key_ok key = true ↔ valid_key key = true ∧ bytes_all (is_ident "-") key = true.
Proof.
  unfold key_ok, valid_key. rewrite !andb_true_iff, bytes_any_all, negb_involutive. split.
  - intros [Hs Hall]. split_and!; [done|..]; (eapply bytes_all_impl; [|exact Hall]);
      intros b Hb; apply is_ident_under in Hb as [H1 H2]; [by rewrite H2|done].
  - intros [[Hs Hn] Hall]. split; [done|]. clear Hs. induction key as [|c key IH]; [done|].
    simpl in *. apply andb_true_iff in Hn as [Hc Hn]. apply andb_true_iff in Hall as [Hi Hall].
    apply andb_true_iff. split; [|by apply IH]. apply is_ident_dash; [done|].
    by apply negb_true_iff in Hc.
Qed.

Lemma key_ok_head key : key_ok key = true →
  ∃ c key', key = String c key' ∧ is_ws1 (byte_of c) = false ∧ is_ascii (byte_of c) = true.
Proof.
  unfold key_ok. intros [Hs _]%andb_true_iff. destruct key as [|c key]; [done|].
  exists c, key. split; [done|]. unfold starts_with_byte in Hs. simpl in Hs.
  destruct c as [[] [] [] [] [] [] [] []]; vm_compute in Hs |- *; done.
Qed.

Lemma name_ok_head name : name_ok name = true →
  ∃ c name', name = String c name' ∧ is_ws1 (byte_of c) = false ∧ is_ascii (byte_of c) = true.
Proof.
  unfold name_ok. intros [Hs _]%andb_true_iff. destruct name as [|c name]; [done|].
  exists c, name. split; [done|]. unfold starts_with_byte in Hs. simpl in Hs.
  destruct c as [[] [] [] [] [] [] [] []]; vm_compute in Hs |- *; done.
Qed.

Lemma strip_close rest : strip_prefix "}}" (trim_start (" }}" +:+ rest)) = Some rest.
Proof.
  change (trim_start (" }}" +:+ rest)) with (trim_start (String "}" ("}" +:+ rest))).
  by rewrite trim_start_id.
Qed.

(** A token as [render_part] writes it. *)
Lemma token_own key rest :
  key_ok key = true → template_token (String " " (key +:+ " }}" +:+ rest)) = Some (None, key, rest).
Proof.
  intros Hk. pose proof (proj1 (key_ok_valid key) Hk) as [Hv Hall].
  unfold template_token. rewrite trim_start_space.
  destruct (key_ok_head _ Hk) as (c & key' & Heq & Hws & Hasc).
  assert (trim_start (key +:+ " }}" +:+ rest) = key +:+ " }}" +:+ rest) as ->.
  { rewrite Heq. cbn [String.append]. by apply trim_start_id. }
  rewrite identifier_stops by done.
  assert (strip_prefix "." (" }}" +:+ rest) = None) as -> by done.
  cbn [mbind option_bind]. rewrite strip_close. cbn [mbind option_bind]. by rewrite Hv.
Qed.

Lemma token_named name key rest :
  name_ok name = true → key_ok key = true →
  template_token (String " " (name +:+ "." +:+ key +:+ " }}" +:+ rest)) = Some (Some name, key, rest).
Proof.
  intros Hn Hk. pose proof (proj1 (key_ok_valid key) Hk) as [Hv _].
  unfold template_token. rewrite trim_start_space.
  destruct (name_ok_head _ Hn) as (c & name' & Heq & Hws & Hasc).
  assert (trim_start (name +:+ "." +:+ key +:+ " }}" +:+ rest)
    = name +:+ "." +:+ key +:+ " }}" +:+ rest) as ->.
  { rewrite Heq. cbn [String.append]. by apply trim_start_id. }
  unfold name_ok in Hn. apply andb_true_iff in Hn as [Hs Hall].
  rewrite identifier_stops by done. rewrite strip_prefix_app, Hs.
  unfold key_ok in Hk. apply andb_true_iff in Hk as [_ Hkall].
  rewrite identifier_stops by done.
  cbn [mbind option_bind]. rewrite strip_close. cbn [mbind option_bind]. by rewrite Hv.
Qed.

(** What a token that is read looked like. *)
Lemma template_token_Some text owner key after :
  template_token text = Some (owner, key, after) →
  key_ok key = true ∧ (∀ name, owner = Some name → name_ok name = true) ∧
  ∃ pre, text = pre +:+ "}}" +:+ after.
Proof.
  unfold template_token. destruct (trim_start_suffix text) as [w Hw].
  pose proof (identifier_app "-" (trim_start text)) as Happ.
  pose proof (identifier_run "-" (trim_start text)) as Hrun.
  destruct (identifier "-" (trim_start text)) as [first rest]. cbn [fst snd] in *.
  assert (Hend : ∀ rest' key0 owner0, (valid_key key0 = true → key_ok key0 = true) →
    (∀ name, owner0 = Some name → name_ok name = true) → (∃ pre, rest = pre +:+ rest') →
    (after0 ← strip_prefix "}}" (trim_start rest');
     if valid_key key0 then Some (owner0, key0, after0) else None) = Some (owner, key, after) →
    key_ok key = true ∧ (∀ name, owner = Some name → name_ok name = true) ∧
    ∃ pre, text = pre +:+ "}}" +:+ after).
  { intros rest' key0 owner0 Hkey Hown [pre Hpre] Heq.
    destruct (strip_prefix "}}" (trim_start rest')) as [after0|] eqn:Hstrip; [|done].
    cbn [mbind option_bind] in Heq. destruct (valid_key key0) eqn:Hv; [|done]. simplify_eq.
    split_and!; [auto..|]. apply strip_prefix_Some in Hstrip.
    destruct (trim_start_suffix rest') as [w' Hw']. exists (w +:+ first +:+ pre +:+ w').
    rewrite Hw, Happ, Hw' at 1. rewrite Hstrip. by rewrite !str_app_assoc. }
  destruct (strip_prefix "." rest) as [dotted|] eqn:Hdot.
  - apply strip_prefix_Some in Hdot.
    destruct (starts_with_byte is_ascii_alphanumeric first) eqn:Hfirst; [|done].
    pose proof (identifier_app "_" dotted) as Happ2. pose proof (identifier_run "_" dotted) as Hrun2.
    destruct (identifier "_" dotted) as [key0 rest']. cbn [fst snd mbind option_bind] in *.
    apply Hend.
    + intros Hv. unfold valid_key in Hv. apply andb_true_iff in Hv as [Hs _].
      unfold key_ok. by rewrite Hs.
    + intros name [= <-]. unfold name_ok. by rewrite Hfirst.
    + exists ("." +:+ key0). rewrite Hdot, Happ2. by rewrite !str_app_assoc.
  - cbn [mbind option_bind]. apply Hend; [|done|by exists ""].
    intros Hv. by apply key_ok_valid.
Qed.

(** ** The rounds of the loop, as steps *)

Record Parsing : Type := {
  p_rest : string;
  p_parts : list ValuePart;
  p_unresolved : list string;
  p_unterminated : bool;
  p_pending : string
}.

Section Rounds.
Context (lineage : string → option string).

Inductive round : Parsing → Parsing → Prop :=
| round_escaped after parts un ut pending :
    round {| p_rest := "$${{" +:+ after; p_parts := parts; p_unresolved := un;
             p_unterminated := ut; p_pending := pending |}
          {| p_rest := after; p_parts := parts; p_unresolved := un;
             p_unterminated := ut; p_pending := pending +:+ "${{" |}
| round_character c tail parts un ut pending :
    strip_prefix "$${{" (String c tail) = None → strip_prefix "${{" (String c tail) = None →
    round {| p_rest := String c tail; p_parts := parts; p_unresolved := un;
             p_unterminated := ut; p_pending := pending |}
          {| p_rest := tail; p_parts := parts; p_unresolved := un;
             p_unterminated := ut; p_pending := pending +:+ String c "" |}
| round_malformed after parts un ut pending :
    template_token after = None →
    round {| p_rest := "${{" +:+ after; p_parts := parts; p_unresolved := un;
             p_unterminated := ut; p_pending := pending |}
          {| p_rest := after; p_parts := parts; p_unresolved := un;
             p_unterminated := ut || negb (contains_close after); p_pending := pending +:+ "${{" |}
| round_reference token after owner key owner' parts un ut pending :
    template_token (token +:+ after) = Some (owner, key, after) →
    resolved_owner lineage owner = Some owner' →
    round {| p_rest := "${{" +:+ token +:+ after; p_parts := parts; p_unresolved := un;
             p_unterminated := ut; p_pending := pending |}
          {| p_rest := after; p_parts := flush parts pending ++ [PartRef owner' key];
             p_unresolved := un; p_unterminated := ut; p_pending := "" |}
| round_unresolved token after name key parts un ut pending :
    template_token (token +:+ "}}" +:+ after) = Some (Some name, key, after) →
    lineage name = None →
    round {| p_rest := "${{" +:+ token +:+ "}}" +:+ after; p_parts := parts; p_unresolved := un;
             p_unterminated := ut; p_pending := pending |}
          {| p_rest := after; p_parts := parts; p_unresolved := un ++ [name];
             p_unterminated := ut; p_pending := pending +:+ "${{" +:+ token +:+ "}}" |}.

Definition parse_from (rounds : nat) (st : Parsing) : option ParsedTemplate :=
  parse_loop lineage rounds st.(p_rest) st.(p_parts) st.(p_unresolved) st.(p_unterminated)
    st.(p_pending).

Definition parsed (st : Parsing) : ParsedTemplate :=
  {| pt_parts := flush st.(p_parts) st.(p_pending); pt_unresolved := st.(p_unresolved);
     pt_unterminated := st.(p_unterminated) |}.

Lemma substring_prefix (a b : string) :
  String.substring 0 (String.length (a +:+ b) - String.length b) (a +:+ b) = a.
Proof.
  rewrite str_app_length, Nat.add_sub. induction a as [|c a IH]; simpl; [by destruct b|]. by rewrite IH.
Qed.

(** Each round of the loop is a step, and the loop ends when no text is left. *)
Lemma run_round st : st.(p_rest) ≠ "" → ∃ st', round st st' ∧ ∀ n, parse_from (S n) st = parse_from n st'.
Proof.
  destruct st as [rest parts un ut pending]. unfold parse_from. cbn [p_rest p_parts p_unresolved p_unterminated p_pending].
  destruct rest as [|c tail]; [done|]. intros _. cbn [parse_loop].
  destruct (strip_prefix "$${{" (String c tail)) as [after|] eqn:He.
  { apply strip_prefix_Some in He. rewrite He. eexists. split; [apply round_escaped|done]. }
  destruct (strip_prefix "${{" (String c tail)) as [after|] eqn:Ho.
  2: { eexists. split; [by apply round_character|done]. }
  apply strip_prefix_Some in Ho. rewrite Ho.
  destruct (template_token after) as [[[owner key] after']|] eqn:Ht.
  2: { eexists. split; [by apply round_malformed|done]. }
  pose proof (template_token_Some _ _ _ _ Ht) as (_ & _ & pre & ->).
  destruct (resolved_owner lineage owner) as [owner'|] eqn:Hr.
  - eexists. rewrite <- (str_app_assoc pre) in Ht |- *. split; [by eapply round_reference|done].
  - destruct owner as [name|]; [|done]. simpl in Hr. destruct (lineage name) eqn:Hl; [done|].
    eexists. split; [by eapply round_unresolved|]. intros n.
    by rewrite <- (substring_prefix ("${{" +:+ pre +:+ "}}") after'), !str_app_assoc.
Qed.

Lemma run_end n st : st.(p_rest) = "" → parse_from n st = Some (parsed st).
Proof. unfold parse_from. intros ->. by destruct n. Qed.

Lemma round_shorter st st' :
  round st st' → String.length st'.(p_rest) < String.length st.(p_rest).
Proof.
  destruct 1; cbn [p_rest]; rewrite ?str_app_length; simpl; rewrite ?str_app_length; simpl; lia.
Qed.

(** A property the steps keep holds when the loop ends, and rounds for the length of the
    text are enough for that. *)
Lemma run_ends (I : Parsing → Prop) rounds st :
  (∀ st st', round st st' → I st → I st') → I st → String.length st.(p_rest) ≤ rounds →
  ∃ st', parse_from rounds st = Some (parsed st') ∧ I st' ∧ st'.(p_rest) = "".
Proof.
  intros Hstep. revert st. induction rounds as [|n IH]; intros st HI Hn.
  - assert (st.(p_rest) = "") as Hr by (destruct st.(p_rest); [done|simpl in Hn; lia]).
    exists st. by rewrite run_end.
  - destruct (decide (st.(p_rest) = "")) as [Hr|Hr]; [exists st; by rewrite run_end|].
    destruct (run_round st Hr) as (st' & Hround & ->). pose proof (round_shorter _ _ Hround).
    apply IH; [by eapply Hstep|lia].
Qed.

Lemma run_rounds n m st :
  String.length st.(p_rest) ≤ n → String.length st.(p_rest) ≤ m → parse_from n st = parse_from m st.
Proof.
  revert m st. induction n as [|n IH]; intros m st Hn Hm.
  { rewrite !run_end; [done|..]; destruct st.(p_rest); [done|simpl in Hn; lia|done|simpl in Hn; lia]. }
  destruct (decide (st.(p_rest) = "")) as [Hr|Hr]; [by rewrite !run_end|].
  destruct m as [|m]; [by destruct st.(p_rest); [|simpl in Hm; lia]|].
  destruct (run_round st Hr) as (st' & Hround & Heq). rewrite !Heq.
  pose proof (round_shorter _ _ Hround). apply IH; lia.
Qed.

(** The loop from a state, with as many rounds as it needs. *)
Definition parse_rest (st : Parsing) : option ParsedTemplate := parse_from (String.length st.(p_rest)) st.

Lemma finish_round st st' : round st st' → parse_rest st = parse_rest st'.
Proof.
  intros Hround. unfold parse_rest. pose proof (round_shorter _ _ Hround) as Hlt.
  assert (Hrun : ∀ n, parse_from (S n) st = parse_from n st').
  { intros n. destruct Hround as [|c tail parts un ut pending He Ho|after parts un ut pending Ht
      |token after owner key owner' parts un ut pending Ht Hr
      |token after name key parts un ut pending Ht Hl];
      unfold parse_from; cbn [p_rest p_parts p_unresolved p_unterminated p_pending].
    - done.
    - cbn [parse_loop]. by rewrite He, Ho.
    - cbn [String.append parse_loop strip_prefix Ascii.eqb Bool.eqb]. by rewrite Ht.
    - cbn [String.append parse_loop strip_prefix Ascii.eqb Bool.eqb]. by rewrite Ht, Hr.
    - pose proof (substring_prefix ("${{" +:+ token +:+ "}}") after) as Hsub.
      rewrite !str_app_assoc in Hsub. rewrite <- Hsub.
      cbn [String.append parse_loop strip_prefix Ascii.eqb Bool.eqb] in Ht |- *.
      rewrite Ht. simpl. by rewrite Hl. }
  destruct (String.length st.(p_rest)) as [|n] eqn:Hn; [lia|]. rewrite Hrun. apply run_rounds; lia.
Qed.
End Rounds.

(** ** Parts that text can express *)

Section Normal.
Context (lineage : string → option string) (slugs : bmap string string).

(** A reference text can name: its owner by a name that leads back to it. *)
Definition text_part_ok (part : ValuePart) : Prop :=
  match part with
  | PartText text => text ≠ ""
  | PartRef OwnerSelf key => key_ok key = true
  | PartRef (OwnerService id) key =>
      key_ok key = true ∧
      ∃ name, bget slugs id = Some name ∧ name_ok name = true ∧ lineage name = Some id
  end.

(** No two texts follow each other, and no text before a reference ends with a dollar. *)
Definition pair_ok (part next : ValuePart) : Prop :=
  match part, next with
  | PartText _, PartText _ => False
  | PartText text, PartRef _ _ => last_byte text ≠ Some 36%N
  | PartRef _ _, _ => True
  end.

Definition normal_parts (parts : list ValuePart) : Prop :=
  Forall text_part_ok parts ∧ Sorted pair_ok parts.

Abbreviation state rest parts un ut pending :=
  {| p_rest := rest; p_parts := parts; p_unresolved := un; p_unterminated := ut;
     p_pending := pending |}.

Lemma escape_eq value :
  escape_template value =
  match strip_prefix "${{" value with
  | Some rest => "$${{" +:+ escape_template rest
  | None => match value with
            | EmptyString => EmptyString
            | String c tail => String c (escape_template tail)
            end
  end.
Proof.
  destruct value as [|c0 [|c1 [|c2 rest]]]; [done|..].
  - cbn [escape_template strip_prefix]. by destruct (Ascii.eqb "$" c0).
  - cbn [escape_template strip_prefix]. by destruct (Ascii.eqb "$" c0), (Ascii.eqb "{" c1).
  - cbn [escape_template strip_prefix].
    rewrite (Ascii.eqb_sym c0), (Ascii.eqb_sym c1), (Ascii.eqb_sym c2).
    destruct (Ascii.eqb "$" c0); [|done]. destruct (Ascii.eqb "{" c1); [|done].
    by destruct (Ascii.eqb "{" c2).
Qed.

(** What may follow a text: nothing, or a reference. *)
Definition reference_next (text rest : string) : Prop :=
  rest = "" ∨ (∃ after, rest = "${{" +:+ after) ∧ last_byte text ≠ Some 36%N.

(** An escaped text brings no brace to the front that was not there. *)
Lemma escape_braces value rest :
  reference_next value rest → strip_prefix "${{" (String "$" value) = None →
  strip_prefix "${{" (String "$" (escape_template value +:+ rest)) = None.
Proof.
  intros Hnext Hno. destruct value as [|c0 value].
  { destruct Hnext as [->|[[after ->] _]]; done. }
  rewrite escape_eq. destruct (strip_prefix "${{" (String c0 value)) as [r|]; [done|].
  cbn [strip_prefix String.append] in Hno |- *. rewrite Ascii.eqb_refl in *.
  destruct (Ascii.eqb "{" c0); [|done]. destruct value as [|c1 value].
  { destruct Hnext as [->|[[after ->] _]]; done. }
  rewrite escape_eq. destruct (strip_prefix "${{" (String c1 value)) as [r|]; [done|].
  cbn [strip_prefix String.append] in Hno |- *. by destruct (Ascii.eqb "{" c1).
Qed.

Lemma last_byte_cons c s : s ≠ "" → last_byte (String c s) = last_byte s.
Proof. by destruct s. Qed.

Lemma reference_next_tail c text rest : reference_next (String c text) rest → text ≠ "" → reference_next text rest.
Proof. intros [->|[Ha Hl]] Hne; [by left|]. right. by rewrite last_byte_cons in Hl. Qed.

Lemma escape_no_escape c tail rest :
  reference_next (String c tail) rest → strip_prefix "${{" (String c tail) = None →
  strip_prefix "$${{" (String c (escape_template tail +:+ rest)) = None ∧
  strip_prefix "${{" (String c (escape_template tail +:+ rest)) = None.
Proof.
  intros Hnext Hno. cbn [strip_prefix] in Hno |- *.
  destruct (Ascii.eqb_spec "$" c) as [<-|]; [|done].
  destruct tail as [|c1 tail].
  { destruct Hnext as [->|[_ Hl]]; [done|]. by destruct Hl. }
  split; [|apply escape_braces; [by eapply reference_next_tail|]; cbn [strip_prefix]; by rewrite Ascii.eqb_refl].
  rewrite escape_eq. destruct (strip_prefix "${{" (String c1 tail)) as [r|] eqn:Hr.
  { apply strip_prefix_Some in Hr as [= -> ->]. done. }
  cbn [String.append strip_prefix]. destruct (Ascii.eqb_spec "$" c1) as [<-|]; [|done].
  destruct tail as [|c2 tail].
  { destruct Hnext as [->|[_ Hl]]; [done|]. by destruct Hl. }
  apply (escape_braces (String c2 tail) rest) in Hr;
    [|do 2 (eapply reference_next_tail; [|done]); done].
  cbn [strip_prefix] in Hr. by rewrite Ascii.eqb_refl in Hr.
Qed.

(** An escaped text is read back into the text waiting to be pushed. *)
Lemma finish_text text rest parts un ut pending :
  reference_next text rest →
  parse_rest lineage (state (escape_template text +:+ rest) parts un ut pending)
  = parse_rest lineage (state rest parts un ut (pending +:+ text)).
Proof.
  remember (String.length text) as n eqn:Hn. revert text pending Hn.
  induction n as [n IH] using lt_wf_ind. intros text pending -> Hnext.
  rewrite escape_eq. destruct (strip_prefix "${{" text) as [after|] eqn:Hs.
  - apply strip_prefix_Some in Hs as ->. rewrite str_app_assoc.
    etrans; [apply finish_round, round_escaped|].
    destruct (decide (after = "")) as [->|Hne].
    + done.
    + rewrite (IH (String.length after)); [by rewrite str_app_assoc|simpl; lia|done|].
      cbn [String.append] in Hnext. by do 3 (eapply reference_next_tail in Hnext; [|done]).
  - destruct text as [|c text]; [by rewrite str_app_nil_r|].
    destruct (escape_no_escape _ _ _ Hnext Hs) as [H1 H2]. cbn [String.append].
    etrans; [by apply finish_round, round_character|].
    destruct (decide (text = "")) as [->|Hne]; [done|].
    rewrite (IH (String.length text)); [by rewrite str_app_assoc|simpl; lia|done|].
    by eapply reference_next_tail.
Qed.

Lemma render_reference owner key :
  text_part_ok (PartRef owner key) →
  ∃ token written, render_part slugs (PartRef owner key) = "${{" +:+ token ∧
    resolved_owner lineage written = Some owner ∧
    ∀ rest, template_token (token +:+ rest) = Some (written, key, rest).
Proof.
  destruct owner as [|id]; simpl.
  - intros Hk. exists (String " " (key +:+ " }}")), None. split_and!; [done..|].
    intros rest. rewrite <- (token_own key rest Hk). cbn [String.append]. by rewrite str_app_assoc.
  - intros (Hk & name & -> & Hname & Hl). simpl.
    exists (String " " (name +:+ "." +:+ key +:+ " }}")), (Some name). split_and!; [done|..].
    + simpl. by rewrite Hl.
    + intros rest. rewrite <- (token_named name key rest Hname Hk). cbn [String.append].
      rewrite !str_app_assoc. cbn [String.append]. by rewrite str_app_assoc.
Qed.

Definition starts_with_text (parts : list ValuePart) : bool :=
  match parts with PartText _ :: _ => true | _ => false end.

Lemma render_next text parts :
  normal_parts (PartText text :: parts) →
  starts_with_text parts = false ∧ reference_next text (render_variable_parts parts slugs).
Proof.
  intros [Hall Hsorted]. inversion Hsorted as [|? ? _ Hhd]; subst.
  inversion Hhd as [|part parts' Hpair]; subst; [by split; [|left]|].
  destruct part as [|owner key]; [done|]. split; [done|]. right. split; [|done].
  apply Forall_cons in Hall as [_ [Hok _]%Forall_cons].
  destruct (render_reference _ _ Hok) as (token & _ & Hr & _). exists (token +:+ render_variable_parts parts' slugs).
  cbn [render_variable_parts]. by rewrite Hr, str_app_assoc.
Qed.

(** Rendering parts and parsing the text gives the parts again. *)
Lemma finish_render parts acc un ut pending :
  normal_parts parts → pending = "" ∨ starts_with_text parts = false →
  parse_rest lineage (state (render_variable_parts parts slugs) acc un ut pending)
  = Some {| pt_parts := flush acc pending ++ parts; pt_unresolved := un; pt_unterminated := ut |}.
Proof.
  revert acc pending. induction parts as [|part parts IH]; intros acc pending Hnorm Hpend.
  { unfold parse_rest. rewrite run_end by done. unfold parsed. simpl. by rewrite app_nil_r. }
  assert (Hnorm' : normal_parts parts).
  { destruct Hnorm as [Hall Hs]. split; [by apply Forall_cons in Hall as []|by inversion Hs]. }
  destruct part as [text|owner key]; cbn [render_variable_parts].
  - destruct (render_next _ _ Hnorm) as [Hstart Hnext]. destruct Hpend as [->|]; [|done].
    cbn [render_part]. rewrite finish_text by done. rewrite IH; [|done|by right].
    destruct Hnorm as [[Hne _]%Forall_cons _]. f_equal. f_equal. simpl.
    unfold flush. simpl. destruct text as [|c text]; [done|]. simpl. by rewrite <- app_assoc.
  - destruct Hnorm as [[Hok _]%Forall_cons _].
    destruct (render_reference _ _ Hok) as (token & written & -> & Hr & Ht). rewrite str_app_assoc.
    etrans; [apply finish_round; by eapply round_reference|]. rewrite IH; [|done|by left].
    cbn [flush str_is_empty]. by rewrite <- app_assoc.
Qed.

Theorem parse_render parts rounds :
  normal_parts parts → String.length (render_variable_parts parts slugs) ≤ rounds →
  parse_variable_template lineage rounds (render_variable_parts parts slugs)
  = Some {| pt_parts := parts; pt_unresolved := []; pt_unterminated := false |}.
Proof.
  intros Hnorm Hr. pose proof (finish_render parts [] [] false "" Hnorm (or_introl eq_refl)) as Hf.
  unfold parse_rest in Hf. rewrite (run_rounds lineage _ rounds) in Hf by done. exact Hf.
Qed.

(** *** Parsing gives parts that text can express *)

Hypothesis slugs_agree : ∀ name id, lineage name = Some id → bget slugs id = Some name.

(** What the loop keeps. *)
Definition parsing_ok (st : Parsing) : Prop :=
  normal_parts st.(p_parts) ∧
  (∀ part, last st.(p_parts) = Some part → starts_with_text [part] = false) ∧
  (last_byte st.(p_pending) = Some 36%N → strip_prefix "${{" st.(p_rest) = None).

Lemma last_byte_app s1 s2 : s2 ≠ "" → last_byte (s1 +:+ s2) = last_byte s2.
Proof.
  intros Hne. induction s1 as [|c s1 IH]; [done|]. cbn [String.append].
  rewrite last_byte_cons; [done|]. by destruct s1.
Qed.

Lemma normal_snoc parts part :
  normal_parts parts → text_part_ok part →
  (∀ prev, last parts = Some prev → pair_ok prev part) → normal_parts (parts ++ [part]).
Proof.
  intros [Hall Hs] Hok Hpair. split; [by apply Forall_app; split; [|apply Forall_singleton]|].
  apply Sorted_snoc; [done|]. destruct (last parts) as [prev|] eqn:Hl.
  - apply last_Some in Hl as [before ->]. constructor. by apply Hpair.
  - apply last_None in Hl as ->. constructor.
Qed.

Lemma normal_flush parts pending :
  normal_parts parts → (∀ part, last parts = Some part → starts_with_text [part] = false) →
  normal_parts (flush parts pending).
Proof.
  intros Hnorm Hlast. unfold flush. destruct pending as [|c pending]; [done|]. simpl.
  apply normal_snoc; [done..|]. intros prev Hprev. apply Hlast in Hprev. by destruct prev.
Qed.

Lemma flush_last parts pending prev :
  (∀ part, last parts = Some part → starts_with_text [part] = false) →
  last (flush parts pending) = Some prev →
  starts_with_text [prev] = false ∨ prev = PartText pending.
Proof.
  unfold flush. intros Hlast. destruct pending as [|c pending]; simpl; [by left; apply Hlast|].
  rewrite last_snoc. intros [= <-]. by right.
Qed.

Lemma round_parsing_ok st st' : round lineage st st' → parsing_ok st → parsing_ok st'.
Proof.
  intros Hround (Hnorm & Hlast & Hdollar). destruct Hround as [|c tail parts un ut pending He Ho
      |after parts un ut pending Ht|token after owner key owner' parts un ut pending Ht Hr
      |token after name key parts un ut pending Ht Hl];
    unfold parsing_ok in *; cbn [p_rest p_parts p_unresolved p_unterminated p_pending] in *.
  - split_and!; [done..|]. by rewrite last_byte_app.
  - split_and!; [done..|]. rewrite last_byte_app by done. simpl. intros [= Hc].
    assert (c = "$"%char) as -> by (by apply N_of_ascii_inj).
    cbn [strip_prefix] in He. by rewrite Ascii.eqb_refl in He.
  - split_and!; [done..|]. by rewrite last_byte_app.
  - apply template_token_Some in Ht as (Hk & Hname & _).
    split_and!; [|by intros part; rewrite last_snoc; intros [= <-]|done].
    apply normal_snoc; [by apply normal_flush|..].
    + destruct owner as [name|]; simpl in Hr.
      * apply fmap_Some in Hr as (id & Hid & ->). split; [done|]. exists name. auto.
      * by simplify_eq.
    + intros prev [Htext| ->]%flush_last; [by destruct prev| |done]. simpl.
      intros Hd. by apply Hdollar in Hd.
  - split_and!; [done..|]. rewrite !last_byte_app; try done. by destruct token.
Qed.

Theorem parse_normal rounds text template :
  String.length text ≤ rounds →
  parse_variable_template lineage rounds text = Some template → normal_parts template.(pt_parts).
Proof.
  intros Hr Hp. destruct (run_ends lineage parsing_ok rounds (state text [] [] false ""))
    as (st & Hst & (Hnorm & Hlast & _) & _).
  - apply round_parsing_ok.
  - split_and!; [by split|done..].
  - done.
  - assert (template = parsed st) as -> by (by apply (inj Some); rewrite <- Hst, <- Hp).
    by apply normal_flush.
Qed.
End Normal.

(** ** What the Store shows can be set again *)

Abbreviation clean := (bytes_all (λ b, negb (b =? 0)%N)).

Lemma validate_text_Ok text : validate_text text = Ok () ↔ clean text = true.
Proof. unfold validate_text. rewrite bytes_any_all. by destruct (clean text). Qed.

Definition clean_part (part : ValuePart) : Prop :=
  match part with PartText text => clean text = true | PartRef _ _ => True end.

Definition clean_parsing (st : Parsing) : Prop :=
  clean st.(p_rest) = true ∧ clean st.(p_pending) = true ∧ Forall clean_part st.(p_parts).

Lemma clean_flush parts pending :
  Forall clean_part parts → clean pending = true → Forall clean_part (flush parts pending).
Proof.
  unfold flush. intros Hp Hc. destruct (str_is_empty pending); [done|].
  apply Forall_app. by split; [|apply Forall_singleton].
Qed.

Lemma clean_app s1 s2 : clean (s1 +:+ s2) = true ↔ clean s1 = true ∧ clean s2 = true.
Proof. by rewrite bytes_all_app, andb_true_iff. Qed.

Lemma round_clean lineage st st' : round lineage st st' → clean_parsing st → clean_parsing st'.
Proof.
  intros Hround (Hrest & Hpend & Hparts). unfold clean_parsing in *.
  destruct Hround; cbn [p_rest p_parts p_unresolved p_unterminated p_pending] in *.
  - apply clean_app in Hrest as [_ ?]. split_and!; [done| |done]. by apply clean_app.
  - change (String c tail) with (String c "" +:+ tail) in Hrest. apply clean_app in Hrest as [Hc ?].
    split_and!; [done| |done]. by apply clean_app.
  - apply clean_app in Hrest as [_ ?]. split_and!; [done| |done]. by apply clean_app.
  - rewrite !clean_app in Hrest. split_and!; [naive_solver|done|].
    apply Forall_app. split; [by apply clean_flush|by apply Forall_singleton].
  - rewrite !clean_app in *. naive_solver.
Qed.

Lemma clean_escape text : clean text = true → clean (escape_template text) = true.
Proof.
  remember (String.length text) as n eqn:Hn. revert text Hn.
  induction n as [n IH] using lt_wf_ind. intros text -> Hc. rewrite escape_eq.
  destruct (strip_prefix "${{" text) as [rest|] eqn:Hs.
  - apply strip_prefix_Some in Hs as ->. apply clean_app in Hc as [_ Hc]. apply clean_app.
    split; [done|]. eapply IH; [|done..]. simpl. lia.
  - destruct text as [|c text]; [done|]. simpl in *. apply andb_true_iff in Hc as [-> Hc]. simpl.
    eapply IH; [|done..]. simpl. lia.
Qed.

Lemma ident_clean extra s :
  extra ≠ Ascii.ascii_of_N 0 → bytes_all (is_ident extra) s = true → clean s = true.
Proof.
  intros Hx. apply bytes_all_impl. intros b Hb. destruct (N.eqb_spec b 0) as [->|]; [|done].
  change ((0 =? byte_of extra)%N = true) in Hb. apply N.eqb_eq in Hb. destruct Hx.
  by rewrite <- (Ascii.ascii_N_embedding extra), <- Hb.
Qed.

Lemma clean_render lineage slugs parts :
  Forall (text_part_ok lineage slugs) parts → Forall clean_part parts →
  clean (render_variable_parts parts slugs) = true.
Proof.
  assert (Hkey : ∀ key, key_ok key = true → clean key = true).
  { intros key [_ Hk]%andb_true_iff. by eapply (ident_clean "_"). }
  induction parts as [|part parts IH]; intros Hok Hclean; [done|].
  apply Forall_cons in Hok as [Hp Hok]. apply Forall_cons in Hclean as [Hc Hclean].
  cbn [render_variable_parts]. apply clean_app. split; [|auto].
  destruct part as [text|[|service] key]; cbn [render_part].
  - by apply clean_escape.
  - rewrite !clean_app. split_and!; [done|by apply Hkey|done].
  - destruct Hp as (Hk & name & -> & [_ Hn]%andb_true_iff & _). cbn [from_option id].
    rewrite !clean_app. split_and!; [done| |done|by apply Hkey|done]. by eapply (ident_clean "-").
Qed.

Lemma named_agrees names name id :
  bwf names → named names name = Some id → bget names id = Some name.
Proof.
  intros Hwf Hn. apply fmap_Some in Hn as ([id' slug] & Hf & ->).
  apply find_Some_elem in Hf as [Hin Heq%bool_decide_eq_true]. simpl in *. subst slug.
  by apply bget_Some.
Qed.

Lemma shown_stored parts names :
  shown_text (stored_text parts) names = VString (render_variable_parts parts names).
Proof. by destruct parts as [|[] [|]]. Qed.

Lemma text_parts_Ok rounds text names parts :
  text_parts rounds text names = Some (Ok parts) ↔
  clean text = true ∧
  parse_variable_template (named names) rounds text
  = Some {| pt_parts := parts; pt_unresolved := []; pt_unterminated := false |}.
Proof.
  unfold text_parts. rewrite <- validate_text_Ok. split.
  - destruct (validate_text text) as [[]|]; [|done].
    destruct (parse_variable_template _ _ _) as [[ps un ut]|]; [|done]. simpl.
    destruct ut; [done|]. destruct un; [|done]. intros [= ->]. done.
  - intros [-> ->]. done.
Qed.

(** C27: A variable set from text can be set again from the text reads show for it: the
    shown text has the same parts, so the stored value is the same. Escapes, references
    to Services by name and white space inside the braces included. *)
Theorem shown_text_reads_back rounds rounds' text names parts :
  bwf names → String.length text ≤ rounds → text_parts rounds text names = Some (Ok parts) →
  ∃ text', shown_text (stored_text parts) names = VString text' ∧
    (String.length text' ≤ rounds' → text_parts rounds' text' names = Some (Ok parts)).
Proof.
  intros Hwf Hr [Hclean Hparse]%text_parts_Ok. exists (render_variable_parts parts names).
  split; [apply shown_stored|]. intros Hr'.
  pose proof (parse_normal (named names) names (λ name id, named_agrees names name id Hwf)
    _ _ _ Hr Hparse) as Hnorm. cbn [pt_parts] in Hnorm.
  apply text_parts_Ok. split; [|by apply parse_render].
  destruct Hnorm as [Hok _]. eapply clean_render; [exact Hok|].
  destruct (run_ends (named names) clean_parsing rounds
    {| p_rest := text; p_parts := []; p_unresolved := []; p_unterminated := false; p_pending := "" |})
    as (st & Hst & (_ & Hpend & Hparts) & _); [apply round_clean|by split_and!|done|].
  unfold parse_from in Hst. cbn in Hst. unfold parse_variable_template in Hparse. rewrite Hst in Hparse.
  injection Hparse as Hps _ _. rewrite <- Hps. by apply clean_flush.
Qed.

Definition sample_names : bmap string string := [("lineage-db", "db")].

Lemma shown_text_reads_back_witness :
  ∃ text', shown_text (stored_text [PartText "a$${{ "; PartRef (OwnerService "lineage-db") "USER"; PartText " ${{ b"])
             sample_names = VString text' ∧
    (String.length text' ≤ 100 → text_parts 100 text' sample_names
       = Some (Ok [PartText "a$${{ "; PartRef (OwnerService "lineage-db") "USER"; PartText " ${{ b"])).
Proof.
  apply (shown_text_reads_back 100 100 "a$$${{ ${{   db.USER}} $${{ b" sample_names).
  - repeat constructor.
  - vm_compute. lia.
  - vm_compute. reflexivity.
Defined.

(** A text that ends with a dollar before a reference is not read back: the dollar and
    the reference render as an escaped brace. Text that is parsed never has that form
    ([parse_normal]). *)
Lemma dollar_reference_lost :
  pt_parts <$> parse_variable_template sample_lineage 20
    (render_variable_parts [PartText "cost $"; PartRef OwnerSelf "K"] sample_names)
  = Some [PartText "cost ${{ K }}"].
Proof. vm_compute. reflexivity. Qed.
