(* ===== verification/Compile.v ===== *)
(** * Compiled Environments

    [ployz-core/src/config/environment_compile.rs]: an authored document becomes node
    snapshots and variable producers. [resolve_environment] is [resolve] of [ployz-store/src/variables.rs] turns
    them into the environment of each Service.

    [None] of [compile_environment_intent] is [expect("validated attachment")] failing. *)

From S2P Require Import Prelude BTree Strings Values Spec RuntimeOutcome Config.
From S2P Require Import ConfigValidation ConfigSpec BranchPlan VariableTemplate Variables.

Open Scope string_scope.
Open Scope nat_scope.
Open Scope list_scope.

(** ** Data *)

Inductive ServiceEnvValue : Type :=
| EnvLiteral (value : string) (parts : option (list ValuePart))
| EnvSecret (variable_id : option string) (encrypted_value : option EncryptedSecretValue)
    (fingerprint : string) (interpolated : option bool).

Record ServiceDeployMount : Type := {
  dm_volume_resource_id : string;
  dm_volume_name : string;
  dm_mount_path : string
}.

Record ServiceConfig : Type := {
  cfg_settings : AuthoredServiceConfig;
  cfg_env : bmap string ServiceEnvValue;
  cfg_mounts : list ServiceDeployMount
}.

Record VolumeConfig : Type := {
  vc_version : N;
  vc_name : string;
  vc_storage : VolumeKind
}.

Inductive CompiledNodeConfig : Type :=
| CompiledService (config : ServiceConfig)
| CompiledVolume (config : VolumeConfig).

Definition compiled_node_type (config : CompiledNodeConfig) : EnvironmentNodeType :=
  match config with CompiledService _ => TypeService | CompiledVolume _ => TypeVolume end.

Definition snapshot_version (config : CompiledNodeConfig) : N :=
  match config with CompiledService _ => 1 | CompiledVolume _ => 2 end.

Record CompiledEnvironmentNode : Type := {
  cn_environment_id : string;
  cn_node_id : string;
  cn_node_lineage_id : string;
  cn_snapshot : CompiledNodeConfig;
  cn_encrypted_registry_username : option EncryptedSecretValue;
  cn_encrypted_registry_secret : option EncryptedSecretValue
}.

Record SavedVariableProducer : Type := {
  sp_owner_scope : string;
  sp_owner_id : string;
  sp_owner_lineage_id : string;
  sp_key : string;
  sp_value : SavedVariableValue
}.

Record CompiledEnvironmentIntent : Type := {
  ce_node_snapshots : list CompiledEnvironmentNode;
  ce_variable_producers : list SavedVariableProducer
}.

(** The snapshot as its wire form carries it: the discriminators beside the payload. *)
Record CompiledNodeSnapshotWire : Type := {
  wire_node_type : EnvironmentNodeType;
  wire_config_version : N;
  wire_config : CompiledNodeConfig
}.

Definition snapshot_wire (config : CompiledNodeConfig) : CompiledNodeSnapshotWire :=
  {| wire_node_type := compiled_node_type config; wire_config_version := snapshot_version config;
     wire_config := config |}.

#[global] Instance EnvironmentNodeType_eq_dec : EqDecision EnvironmentNodeType.
Proof. solve_decision. Defined.

Definition snapshot_try_from (wire : CompiledNodeSnapshotWire)
    : Result CompiledNodeConfig ConfigError :=
  if negb (bool_decide (wire.(wire_node_type) = compiled_node_type wire.(wire_config)))
     || negb (wire.(wire_config_version) =? snapshot_version wire.(wire_config))%N
  then Err (ConfigError_at "snapshot"
              "Configuration does not match its node type or snapshot version")
  else Ok wire.(wire_config).

(** ** Compiling *)

Definition env_value (slugs : bmap string string) (variable : SavedVariableIntent)
    : ServiceEnvValue :=
  match variable.(var_value) with
  | VariableLiteral value => EnvLiteral value None
  | VariableSecret encrypted_value =>
      EnvSecret (Some variable.(var_id)) encrypted_value variable.(var_value_fingerprint) None
  | VariableSecretWithoutValue => EnvSecret (Some variable.(var_id)) None "" None
  | VariableTemplate parts => EnvLiteral (render_variable_parts parts slugs) (Some parts)
  end.

Definition PRIVATE_DOMAIN_KEY : string := "PLOYZ_PRIVATE_DOMAIN".

Definition BUILT_IN_VARIABLES : list string :=
  [PRIVATE_DOMAIN_KEY; "PORT"; "PLOYZ_ENVIRONMENT_NAME"; "PLOYZ_SERVICE_NAME";
   "PLOYZ_ENVIRONMENT_ID"; "PLOYZ_SERVICE_ID"].

Definition private_domain (private_dns : ServiceName) : string := private_dns +:+ ".internal".

(** [DEFAULT_SERVICE_PORT.to_string()]. *)
Definition DEFAULT_SERVICE_PORT : N := 8080.
Definition default_port_text : string := "8080".

Definition service_producer (service : SavedServiceIntent) (key : string)
    (value : SavedVariableValue) : SavedVariableProducer :=
  {| sp_owner_scope := "service"; sp_owner_id := service.(svc_id);
     sp_owner_lineage_id := service.(svc_lineage_id); sp_key := key; sp_value := value |}.

Definition built_in (environment_id environment_slug : string) (service : SavedServiceIntent)
    : list string :=
  [private_domain service.(svc_config).(sc_private_dns); default_port_text; environment_slug;
   service.(svc_config).(sc_private_dns); environment_id; service.(svc_id)].

Definition service_producers (environment_id environment_slug : string)
    (service : SavedServiceIntent) : list SavedVariableProducer :=
  map (λ kv, service_producer service kv.1 (VariableLiteral kv.2))
    (zip BUILT_IN_VARIABLES (built_in environment_id environment_slug service))
  ++ map (λ v, service_producer service v.(var_key) v.(var_value)) service.(svc_variables).

Definition compile_mount (volumes : list SavedVolumeIntent) (attachment : VolumeAttachment)
    : option ServiceDeployMount :=
  (λ volume, {| dm_volume_resource_id := volume.(vol_resource_id);
                dm_volume_name := volume.(vol_name);
                dm_mount_path := attachment.(mount_path) |})
  <$> List.find (λ v, bool_decide (v.(vol_resource_id) = attachment.(volume_resource_id))) volumes.

Definition compile_service (environment_id : string) (volumes : list SavedVolumeIntent)
    (slugs : bmap string string) (service : SavedServiceIntent) : option CompiledEnvironmentNode :=
  mounts ← mapM (compile_mount volumes) service.(svc_volume_attachments);
  Some {| cn_environment_id := environment_id; cn_node_id := service.(svc_id);
          cn_node_lineage_id := service.(svc_lineage_id);
          cn_snapshot := CompiledService
            {| cfg_settings := service.(svc_config);
               cfg_env := bcollect (map (λ v, (v.(var_key), env_value slugs v))
                                      service.(svc_variables));
               cfg_mounts := mounts |};
          cn_encrypted_registry_username := None; cn_encrypted_registry_secret := None |}.

Definition compile_volume (environment_id : string) (volume : SavedVolumeIntent)
    : CompiledEnvironmentNode :=
  {| cn_environment_id := environment_id; cn_node_id := volume.(vol_resource_id);
     cn_node_lineage_id := volume.(vol_resource_lineage_id);
     cn_snapshot := CompiledVolume {| vc_version := 2; vc_name := volume.(vol_name);
                                      vc_storage := volume.(vol_storage) |};
     cn_encrypted_registry_username := None; cn_encrypted_registry_secret := None |}.

Definition compile_environment_intent (environment_id : string) (intent : SavedEnvironmentIntent)
    : option CompiledEnvironmentIntent :=
  let intent := canonicalize_environment_intent intent in
  let slugs := bcollect (map (λ s, (s.(svc_lineage_id), s.(svc_slug))) intent.(env_services)) in
  services ← mapM (compile_service environment_id intent.(env_volumes) slugs) intent.(env_services);
  Some {| ce_node_snapshots :=
            services ++ map (compile_volume environment_id) intent.(env_volumes);
          ce_variable_producers :=
            sort_by_key (λ p, (p.(sp_owner_scope), (p.(sp_owner_lineage_id), p.(sp_key))))
              (concat (map (service_producers environment_id intent.(env_slug))
                         intent.(env_services))) |}.

(** ** Resolving a compiled Environment *)

(** Opening a sealed value ([sealing.rs]) is [ring]'s cipher: [unseal] is the parameter
    that opens with the key, and [Fault] its error. *)
Section Resolve.
Context {Fault : Type}.

Inductive ResolveRefusal : Type :=
| ReferenceCycle (names : list string)
| CorruptSecret
| OpenFailed (fault : Fault).

Context (unseal : option (EncryptedSecretValue → Result string Fault)).

Definition open_sealed (sealed : option EncryptedSecretValue)
    : Result (option string) ResolveRefusal :=
  match unseal, sealed with
  | Some key, Some sealed => map_err OpenFailed (let? text := key sealed in Ok (Some text))
  | Some _, None => Err CorruptSecret
  | None, _ => Ok None
  end.

Definition resolver_value (value : SavedVariableValue) : Result ResolverValue ResolveRefusal :=
  match value with
  | VariableLiteral value => Ok (ResolverLiteral value)
  | VariableTemplate parts => Ok (ResolverTemplate parts)
  | VariableSecret encrypted_value =>
      let? text := open_sealed encrypted_value in Ok (ResolverSecret (default "" text))
  | VariableSecretWithoutValue =>
      let? text := open_sealed None in Ok (ResolverSecret (default "" text))
  end.

Definition resolver_producer (producer : SavedVariableProducer)
    : Result VariableProducer ResolveRefusal :=
  let? value := resolver_value producer.(sp_value) in
  Ok {| vp_owner_id := producer.(sp_owner_id);
        vp_owner := OwnerService producer.(sp_owner_lineage_id);
        vp_key := producer.(sp_key); vp_value := value |}.

(** A reference cycle, named by Service and variable. *)
Definition cycle_name (compiled : CompiledEnvironmentIntent) (step : string) : string :=
  let '(owner, key) := default ("", step) (split_once "::" step) in
  let service :=
    node ← List.find (λ n, bool_decide (n.(cn_node_id) = owner)) compiled.(ce_node_snapshots);
    match node.(cn_snapshot) with
    | CompiledService config => Some config.(cfg_settings).(sc_private_dns)
    | CompiledVolume _ => None
    end in
  default "" service +:+ ".env." +:+ key.

Definition resolve_value (depth : nat) (compiled : CompiledEnvironmentIntent)
    (producers : list VariableProducer) (node_id : string) (value : ServiceEnvValue)
    : option (Result (option string) ResolveRefusal) :=
  match value with
  | EnvLiteral value None => Some (Ok (Some value))
  | EnvLiteral _ (Some parts) =>
      resolved ← resolve_variables depth
                   {| rv_parts := parts; rv_self_owner_id := node_id; rv_producers := producers |};
      Some match resolved with
           | Resolved value secret _ =>
               Ok (if bool_decide (is_Some unseal) || negb secret then Some value else None)
           | Cycle path => Err (ReferenceCycle (map (cycle_name compiled) path))
           end
  | EnvSecret _ encrypted_value _ _ => Some (open_sealed encrypted_value)
  end.

Fixpoint resolve_env (depth : nat) (compiled : CompiledEnvironmentIntent)
    (producers : list VariableProducer) (node_id : string) (values : list (string * ServiceEnvValue))
    (env : bmap string string) : option (Result (bmap string string) ResolveRefusal) :=
  match values with
  | [] => Some (Ok env)
  | (key, value) :: values =>
      resolved ← resolve_value depth compiled producers node_id value;
      match resolved with
      | Err refusal => Some (Err refusal)
      | Ok resolved =>
          resolve_env depth compiled producers node_id values
            (match resolved with Some text => binsert key text env | None => env end)
      end
  end.

Fixpoint resolve_nodes (depth : nat) (compiled : CompiledEnvironmentIntent)
    (producers : list VariableProducer) (nodes : list CompiledEnvironmentNode)
    (resolved : bmap string (bmap string string))
    : option (Result (bmap string (bmap string string)) ResolveRefusal) :=
  match nodes with
  | [] => Some (Ok resolved)
  | node :: nodes =>
      match node.(cn_snapshot) with
      | CompiledVolume _ => resolve_nodes depth compiled producers nodes resolved
      | CompiledService config =>
          env ← resolve_env depth compiled producers node.(cn_node_id) config.(cfg_env) [];
          match env with
          | Err refusal => Some (Err refusal)
          | Ok env =>
              resolve_nodes depth compiled producers nodes (binsert node.(cn_node_id) env resolved)
          end
      end
  end.

Definition resolve_environment (depth : nat) (compiled : CompiledEnvironmentIntent)
    : option (Result (bmap string (bmap string string)) ResolveRefusal) :=
  match collect_result resolver_producer compiled.(ce_variable_producers) with
  | Err refusal => Some (Err refusal)
  | Ok producers => resolve_nodes depth compiled producers compiled.(ce_node_snapshots) []
  end.
End Resolve.
Arguments ResolveRefusal : clear implicits.

(** ** Captured settings *)

(** [parse_service_config] of JSON ([config/validation.rs]); reading it is serde's. *)
Section Captured.
Context `{ConfigCrates} `{Serde ServiceConfig}.

Definition parse_service_value (value : Value) : Result ServiceConfig ConfigError :=
  match from_value value with
  | None => Err (ConfigError_at "service" "Invalid service configuration")
  | Some config =>
      let? settings := parse_service_config config.(cfg_settings) in
      Ok {| cfg_settings := settings; cfg_env := config.(cfg_env); cfg_mounts := config.(cfg_mounts) |}
  end.
End Captured.

(** ** What the producers supply *)

Section Supplies.
Context {Fault : Type} (unseal : option (EncryptedSecretValue → Result string Fault)).
Context (environment_id slug : string).

(** What a Service provides under a key: its own variable, or else a built-in one. *)
Definition provided (service : SavedServiceIntent) (key : string) : option SavedVariableValue :=
  match List.find (λ v, bool_decide (v.(var_key) = key)) service.(svc_variables) with
  | Some variable => Some variable.(var_value)
  | None =>
      (λ kv, VariableLiteral kv.2) <$>
      List.find (λ kv, bool_decide (kv.1 = key))
        (zip BUILT_IN_VARIABLES (built_in environment_id slug service))
  end.

(** A Service's own variables come after the built-in ones, so they win. *)
Lemma service_producers_last service key :
  NoDup (map var_key service.(svc_variables)) →
  last (List.filter (λ p, bool_decide (p.(sp_key) = key))
          (service_producers environment_id slug service))
  = service_producer service key <$> provided service key.
Proof.
  intros Hnd. unfold service_producers, provided. rewrite List.filter_app, !filter_map_bool.
  rewrite last_app, !fmap_last. cbn [sp_key service_producer].
  rewrite (NoDup_filter_last var_key) by done.
  rewrite (NoDup_filter_last fst (zip _ _)) by (apply (bool_decide_unpack _); vm_compute; exact I).
  generalize (zip BUILT_IN_VARIABLES (built_in environment_id slug service)). intros built.
  destruct (List.find (λ v, bool_decide (var_key v = key)) (svc_variables service)) as [v|] eqn:Hv; simpl.
  - apply find_Some_elem in Hv as [_ Hk%bool_decide_eq_true]. by rewrite Hk.
  - destruct (List.find _ built) as [[k v]|] eqn:Hb; simpl; [|done].
    by apply find_Some_elem in Hb as [_ Hk%bool_decide_eq_true]; simpl in Hk; subst.
Qed.

Definition saved_produces (self_owner_id : string) (owner : ValuePartOwner) (key : string)
    (producer : SavedVariableProducer) : bool :=
  match owner with
  | OwnerSelf => bool_decide (producer.(sp_owner_id) = self_owner_id)
  | OwnerService lineage => bool_decide (producer.(sp_owner_lineage_id) = lineage)
  end && bool_decide (producer.(sp_key) = key).

Lemma resolver_producer_Ok saved producer :
  resolver_producer unseal saved = Ok producer ↔
  ∃ value, resolver_value unseal saved.(sp_value) = Ok value ∧
    producer = {| vp_owner_id := saved.(sp_owner_id);
                  vp_owner := OwnerService saved.(sp_owner_lineage_id);
                  vp_key := saved.(sp_key); vp_value := value |}.
Proof. unfold resolver_producer. rewrite result_bind_Ok. naive_solver. Qed.

(** The resolver looks its producers up as the compiled ones are. *)
Lemma found_saved saved producers self owner key :
  collect_result (resolver_producer unseal) saved = Ok producers →
  option_Forall2 (λ s p, resolver_producer unseal s = Ok p)
    (last (List.filter (saved_produces self owner key) saved))
    (found_producer producers self owner key).
Proof.
  intros Hc%collect_result_Ok. unfold found_producer. rewrite find_rev_last.
  apply Forall2_last. apply filter_Forall2; [exact Hc|].
  intros s p (value & _ & ->)%resolver_producer_Ok. unfold saved_produces, produces. simpl.
  rewrite andb_comm. f_equal. destruct owner; [done|]. apply bool_decide_ext. naive_solver.
Qed.

Context (services : list SavedServiceIntent).
Hypothesis ids : NoDup (map svc_id services).
Hypothesis lineages : NoDup (map svc_lineage_id services).
Hypothesis keys : ∀ service, service ∈ services → NoDup (map var_key service.(svc_variables)).

Definition saved_producers : list SavedVariableProducer :=
  sort_by_key (λ p, (p.(sp_owner_scope), (p.(sp_owner_lineage_id), p.(sp_key))))
    (concat (map (service_producers environment_id slug) services)).

(** The Service a reference reads. *)
Definition owner_service (self : string) (owner : ValuePartOwner) : option SavedServiceIntent :=
  match owner with
  | OwnerSelf => List.find (λ s, bool_decide (s.(svc_id) = self)) services
  | OwnerService lineage => List.find (λ s, bool_decide (s.(svc_lineage_id) = lineage)) services
  end.

Definition owns (self : string) (owner : ValuePartOwner) (service : SavedServiceIntent) : bool :=
  match owner with
  | OwnerSelf => bool_decide (service.(svc_id) = self)
  | OwnerService lineage => bool_decide (service.(svc_lineage_id) = lineage)
  end.

Lemma owner_service_find self owner : owner_service self owner = List.find (owns self owner) services.
Proof. by destruct owner. Qed.

Lemma owns_one self owner a b :
  a ∈ services → b ∈ services → owns self owner a = true → owns self owner b = true → a = b.
Proof.
  intros Ha Hb. destruct owner; simpl; rewrite !bool_decide_eq_true; intros Hoa Hob.
  - eapply (NoDup_map_inj svc_id); [exact ids|done..|congruence].
  - eapply (NoDup_map_inj svc_lineage_id); [exact lineages|done..|congruence].
Qed.

Lemma service_producers_owner service p self owner key :
  p ∈ service_producers environment_id slug service →
  p.(sp_owner_scope) = "service" ∧ p.(sp_owner_lineage_id) = service.(svc_lineage_id) ∧
  saved_produces self owner key p = owns self owner service && bool_decide (p.(sp_key) = key).
Proof.
  unfold service_producers. rewrite elem_of_app, !list_elem_of_fmap.
  intros [(kv & -> & _)|(v & -> & _)]; by destruct owner.
Qed.

Lemma elem_of_concat_producers p :
  p ∈ concat (map (service_producers environment_id slug) services) →
  ∃ service, service ∈ services ∧ p ∈ service_producers environment_id slug service.
Proof.
  intros Hp. apply list_elem_of_In, in_concat in Hp as (ls & Hls & Hp).
  apply in_map_iff in Hls as (s & <- & Hs). exists s. by rewrite !list_elem_of_In.
Qed.

(** The producer a reference finds is what its Service provides. *)
Lemma saved_producers_last self owner key :
  last (List.filter (saved_produces self owner key) saved_producers)
  = service ← owner_service self owner; service_producer service key <$> provided service key.
Proof.
  unfold saved_producers, sort_by_key. rewrite filter_stable_sort.
  2: { intros a b Ha Hb Hpa Hpb.
    apply elem_of_concat_producers in Ha as (sa & Hsa & Ha), Hb as (sb & Hsb & Hb).
    apply (service_producers_owner _ _ self owner key) in Ha as (Hoa & Hla & Heqa), Hb as (Hob & Hlb & Heqb).
    rewrite Heqa in Hpa. rewrite Heqb in Hpb.
    apply andb_true_iff in Hpa as [Howna Hka%bool_decide_eq_true], Hpb as [Hownb Hkb%bool_decide_eq_true].
    assert (sa = sb) as <- by (by eapply owns_one).
    rewrite Hoa, Hob, Hla, Hlb, Hka, Hkb. apply key_le_refl. }
  rewrite owner_service_find. destruct (List.find (owns self owner) services) as [s|] eqn:Hf; simpl.
  - apply find_Some_elem in Hf as [Hin Hown].
    rewrite (filter_concat_one _ _ _ s); [|by eapply (NoDup_fmap_1 svc_id)|done|].
    + rewrite <- service_producers_last by auto. f_equal. apply filter_ext_in_elem.
      intros p Hp. apply (service_producers_owner _ _ self owner key) in Hp as (_ & _ & ->). by rewrite Hown.
    + intros s' p Hs' Hne Hp. apply (service_producers_owner _ _ self owner key) in Hp as (_ & _ & ->).
      destruct (owns self owner s') eqn:Ho'; [|done]. destruct Hne. by eapply owns_one.
  - rewrite filter_none; [done|]. intros p Hp. apply elem_of_concat_producers in Hp as (s & Hs & Hp).
    apply (service_producers_owner _ _ self owner key) in Hp as (_ & _ & ->).
    by rewrite (proj1 (find_None_elem _ _) Hf _ Hs).
Qed.

(** ** What the document means *)

(** What a reference of a Service's template reads: a Service and what it provides. *)
Definition reads_variable (service : SavedServiceIntent) (owner : ValuePartOwner) (key : string)
    : option (SavedServiceIntent * SavedVariableValue) :=
  other ← owner_service service.(svc_id) owner;
  value ← provided other key;
  Some (other, value).

(** The text a template of a Service stands for, and whether a secret is in it. *)
Inductive means : SavedServiceIntent → list ValuePart → string → bool → Prop :=
| means_nil service : means service [] "" false
| means_text service text parts v s :
    means service parts v s → means service (PartText text :: parts) (text +:+ v) s
| means_missing service owner key parts v s :
    reads_variable service owner key = None → means service parts v s →
    means service (PartRef owner key :: parts) v s
| means_literal service owner key other text parts v s :
    reads_variable service owner key = Some (other, VariableLiteral text) → means service parts v s →
    means service (PartRef owner key :: parts) (text +:+ v) s
| means_secret service owner key other value text parts v s :
    reads_variable service owner key = Some (other, value) →
    resolver_value unseal value = Ok (ResolverSecret text) → means service parts v s →
    means service (PartRef owner key :: parts) (text +:+ v) true
| means_template service owner key other inner v1 s1 parts v s :
    reads_variable service owner key = Some (other, VariableTemplate inner) →
    means other inner v1 s1 → means service parts v s →
    means service (PartRef owner key :: parts) (v1 +:+ v) (s1 || s).

Context (producers : list VariableProducer).
Hypothesis collected : collect_result (resolver_producer unseal) saved_producers = Ok producers.

Lemma found_reads self owner key :
  option_Forall2 (λ other_value p, vp_owner_id p = svc_id other_value.1 ∧
      resolver_value unseal other_value.2 = Ok (vp_value p))
    (other ← owner_service self owner; value ← provided other key; Some (other, value))
    (found_producer producers self owner key).
Proof.
  pose proof (found_saved _ _ self owner key collected) as Hf. rewrite saved_producers_last in Hf.
  destruct (owner_service self owner) as [other|]; simpl in *; [|by inversion Hf; constructor].
  destruct (provided other key) as [value|]; simpl in *; [|by inversion Hf; constructor].
  inversion Hf as [? p Hp|]; subst. constructor. simpl.
  apply resolver_producer_Ok in Hp as (v & Hv & ->). done.
Qed.

Lemma owner_service_own service : service ∈ services → owner_service service.(svc_id) OwnerSelf = Some service.
Proof.
  intros Hin. simpl. destruct (List.find _ services) as [s|] eqn:Hf.
  - apply find_Some_elem in Hf as [Hs Heq%bool_decide_eq_true]. f_equal.
    by eapply (NoDup_map_inj svc_id).
  - rewrite find_None_elem in Hf. specialize (Hf _ Hin). by rewrite bool_decide_eq_true_2 in Hf.
Qed.

Lemma owner_service_elem self owner service : owner_service self owner = Some service → service ∈ services.
Proof. rewrite owner_service_find. by intros [? _]%find_Some_elem. Qed.

(** References of the resolver read what references of the document read. *)
Lemma names_reads service owner key :
  service ∈ services →
  match reads_variable service owner key with
  | None => names producers service.(svc_id) owner key = None
  | Some (other, value) =>
      other ∈ services ∧
      names producers service.(svc_id) owner key = Some (other.(svc_id), key) ∧
      ∃ v, resolver_value unseal value = Ok v ∧ supplied producers (other.(svc_id), key) = Some v
  end.
Proof.
  intros Hin. unfold reads_variable, names. pose proof (found_reads service.(svc_id) owner key) as Hf.
  destruct (owner_service service.(svc_id) owner) as [other|] eqn:Ho; simpl in *; [|by inversion Hf].
  pose proof (owner_service_elem _ _ _ Ho) as Hother.
  pose proof (found_reads other.(svc_id) OwnerSelf key) as Hf'.
  rewrite owner_service_own in Hf' by done. simpl in Hf'.
  destruct (provided other key) as [value|]; simpl in *; [|by inversion Hf].
  inversion Hf as [x p [Hid Hv] Hx Hp|]; subst. inversion Hf' as [x' p' [Hid' Hv'] Hx' Hp'|]; subst.
  simpl in *. split; [done|]. split; [by rewrite Hid|].
  exists (vp_value p'). split; [done|]. unfold supplied. simpl. by rewrite <- Hp'.
Qed.

Lemma collected_one_scope : one_scope producers.
Proof.
  assert (Hall : ∀ p, p ∈ producers → ∃ s, s ∈ services ∧ p.(vp_owner_id) = s.(svc_id) ∧
    p.(vp_owner) = OwnerService s.(svc_lineage_id)).
  { intros p Hp. pose proof (proj1 (collect_result_Ok _ _ _) collected) as Hc.
    apply list_elem_of_lookup in Hp as [i Hi].
    destruct (Forall2_lookup_r _ _ _ _ _ Hc Hi) as (saved & Hs & (v & _ & ->)%resolver_producer_Ok).
    apply list_elem_of_lookup_2, elem_of_stable_sort, elem_of_concat_producers in Hs as (s & Hs & Hp).
    exists s. split; [done|]. unfold service_producers in Hp. rewrite elem_of_app, !list_elem_of_fmap in Hp.
    destruct Hp as [(kv & -> & _)|(v' & -> & _)]; done. }
  intros p q (sp & Hsp & -> & ->)%Hall (sq & Hsq & -> & ->)%Hall. split.
  - intros Heq. by rewrite (NoDup_map_inj svc_id _ _ _ ids Hsp Hsq Heq).
  - intros [= Heq]. by rewrite (NoDup_map_inj svc_lineage_id _ _ _ lineages Hsp Hsq Heq).
Qed.

Lemma resolver_value_cases value v :
  resolver_value unseal value = Ok v →
  match v with
  | ResolverLiteral text => value = VariableLiteral text
  | ResolverTemplate inner => value = VariableTemplate inner
  | ResolverSecret _ => True
  end.
Proof.
  destruct value; simpl; try (intros [= <-]; done);
    (intros (text & _ & [= <-])%result_bind_Ok; done).
Qed.

Lemma expands_means self parts v s :
  expands producers self parts v s → ∀ service, service ∈ services → service.(svc_id) = self →
  means service parts v s.
Proof.
  induction 1 as [self|self text parts v s _ IH|self owner key parts v s Hn _ IH
    |self owner key id text parts v s Hn Hv _ IH|self owner key id text parts v s Hn Hv _ IH
    |self owner key id inner v1 s1 parts v s Hn Hv _ IH1 _ IH2]; intros service Hin <-;
    [by constructor|by constructor; auto|..];
    pose proof (names_reads service owner key Hin) as Hr;
    destruct (reads_variable service owner key) as [[other value]|] eqn:Hreads;
    try (rewrite Hr in Hn; discriminate); try (destruct Hr as (Ho & Hn' & w & Hw & Hs));
    try (rewrite Hn' in Hn; simplify_eq); try (rewrite Hs in Hv; simplify_eq).
  - apply means_missing; auto.
  - apply resolver_value_cases in Hw as ->. eapply means_literal; eauto.
  - eapply means_secret; eauto.
  - apply resolver_value_cases in Hw as ->. eapply means_template; eauto.
Qed.

Lemma means_expands service parts v s :
  means service parts v s → service ∈ services → expands producers service.(svc_id) parts v s.
Proof.
  induction 1 as [service|service text parts v s _ IH|service owner key parts v s Hr _ IH
    |service owner key other text parts v s Hr _ IH
    |service owner key other value text parts v s Hr Hv _ IH
    |service owner key other inner v1 s1 parts v s Hr _ IH1 _ IH2]; intros Hin;
    [by constructor|by constructor; auto|..];
    pose proof (names_reads service owner key Hin) as Hn; rewrite Hr in Hn;
    try (destruct Hn as (Ho & Hn & w & Hw & Hs)).
  - apply expands_missing; auto.
  - simpl in Hw. simplify_eq. eapply expands_literal; eauto.
  - rewrite Hv in Hw. simplify_eq. eapply expands_secret; eauto.
  - simpl in Hw. simplify_eq. eapply expands_template; eauto.
Qed.
End Supplies.

(** ** The loops of [resolve_environment] *)

Section ResolveLoops.
Context {Fault : Type} (unseal : option (EncryptedSecretValue → Result string Fault)).
Context (depth : nat) (compiled : CompiledEnvironmentIntent) (producers : list VariableProducer).
Abbreviation value_of := (resolve_value unseal depth compiled producers).
Abbreviation env_of := (resolve_env unseal depth compiled producers).
Abbreviation nodes_of := (resolve_nodes unseal depth compiled producers).

Lemma resolve_env_cases node_id values env :
  NoDup (map fst values) →
  match env_of node_id values env with
  | Some (Ok env') =>
      (∀ key, key ∉ map fst values → bget env' key = bget env key) ∧
      ∀ key value, (key, value) ∈ values →
        ∃ text, value_of node_id value = Some (Ok text) ∧
          bget env' key = match text with Some text => Some text | None => bget env key end
  | Some (Err refusal) =>
      ∃ key value, (key, value) ∈ values ∧ value_of node_id value = Some (Err refusal)
  | None => ∃ key value, (key, value) ∈ values ∧ value_of node_id value = None
  end.
Proof.
  revert env. induction values as [|[key value] values IH]; intros env Hnd; simpl.
  { split; [done|]. by intros key value ?%elem_of_nil. }
  simpl in Hnd. apply NoDup_cons in Hnd as [Hn Hnd].
  destruct (value_of node_id value) as [[text|refusal]|] eqn:Hv; simpl;
    [|exists key, value; split; [left|done]..].
  specialize (IH (match text with Some text => binsert key text env | None => env end) Hnd).
  assert (Hother : ∀ key', key' ≠ key →
    bget (match text with Some text => binsert key text env | None => env end) key' = bget env key').
  { intros key' Hne. destruct text; [|done]. by apply bget_binsert_ne. }
  destruct (env_of _ _ _) as [[env'|refusal]|]; [|naive_solver set_solver..].
  destruct IH as [Hout Hin]. split.
  - intros key' [Hne Hk]%not_elem_of_cons. rewrite Hout, Hother by done. done.
  - intros key' value' [[= -> ->]|Hin']%elem_of_cons.
    + exists text. split; [done|]. rewrite Hout by done. destruct text; [|done]. apply bget_binsert_eq.
    + destruct (Hin _ _ Hin') as (text' & Ht & Hg). exists text'. split; [done|].
      rewrite Hg. destruct text'; [done|]. apply Hother. intros ->. apply Hn, list_elem_of_fmap.
      by exists (key, value').
Qed.

Definition service_node (node : CompiledEnvironmentNode) : option (string * ServiceConfig) :=
  match node.(cn_snapshot) with
  | CompiledService config => Some (node.(cn_node_id), config)
  | CompiledVolume _ => None
  end.

Lemma resolve_nodes_cases nodes acc :
  NoDup (map fst (omap service_node nodes)) →
  match nodes_of nodes acc with
  | Some (Ok out) =>
      (∀ id, id ∉ map fst (omap service_node nodes) → bget out id = bget acc id) ∧
      ∀ id config, (id, config) ∈ omap service_node nodes →
        ∃ env, bget out id = Some env ∧ env_of id config.(cfg_env) [] = Some (Ok env)
  | Some (Err refusal) =>
      ∃ id config, (id, config) ∈ omap service_node nodes ∧
        env_of id config.(cfg_env) [] = Some (Err refusal)
  | None =>
      ∃ id config, (id, config) ∈ omap service_node nodes ∧ env_of id config.(cfg_env) [] = None
  end.
Proof.
  revert acc. induction nodes as [|node nodes IH]; intros acc; simpl.
  { intros _. split; [done|]. by intros id config ?%elem_of_nil. }
  assert (Hnode : service_node node = match cn_snapshot node with
    | CompiledService config => Some (cn_node_id node, config) | CompiledVolume _ => None end) by done.
  rewrite !Hnode. destruct (cn_snapshot node) as [config|]; [|apply IH]. simpl. intros [Hn Hnd]%NoDup_cons.
  destruct (env_of _ (cfg_env config) []) as [[env|refusal]|] eqn:He; simpl;
    [|exists (cn_node_id node), config; split; [left|done]..].
  specialize (IH (binsert (cn_node_id node) env acc) Hnd).
  destruct (nodes_of nodes _) as [[out|refusal]|]; [|naive_solver set_solver..].
  destruct IH as [Hout Hin]. split.
  - intros id [Hne Hid]%not_elem_of_cons. rewrite Hout by done. by apply bget_binsert_ne.
  - intros id config' [[= -> ->]|Hin']%elem_of_cons; [|by apply Hin].
    exists env. split; [|done]. rewrite Hout by done. apply bget_binsert_eq.
Qed.
End ResolveLoops.

(** ** The compiled document *)

Section Compiled.
Context `{ConfigCrates}.
Context (environment_id : string) (intent : SavedEnvironmentIntent).
Hypothesis wf : well_formed intent.
Abbreviation services := (canonicalize_environment_intent intent).(env_services).
Abbreviation volumes := (canonicalize_environment_intent intent).(env_volumes).

Lemma canonical_service service :
  service ∈ services →
  ∃ old, old ∈ intent.(env_services) ∧ service = canonicalize_service old.
Proof.
  simpl. rewrite list_elem_of_fmap. intros (old & -> & Hin). exists old.
  by rewrite (sort_by_key_perm svc_id) in Hin.
Qed.

Lemma canonical_map {A} (f : SavedServiceIntent → A) :
  (∀ s, f (canonicalize_service s) = f s) → map f services ≡ₚ map f intent.(env_services).
Proof.
  intros Hf. simpl. rewrite map_map, (map_ext _ f) by done. by rewrite (sort_by_key_perm svc_id).
Qed.

Lemma canonical_ids : NoDup (map svc_id services).
Proof. rewrite canonical_map by done. apply (wf_service_ids _ wf). Qed.

Lemma canonical_lineages : NoDup (map svc_lineage_id services).
Proof. rewrite canonical_map by done. apply (wf_lineages _ wf). Qed.

Lemma canonical_keys service : service ∈ services → NoDup (map var_key service.(svc_variables)).
Proof.
  intros (old & Hold & ->)%canonical_service. simpl. rewrite (sort_by_key_perm var_id).
  pose proof (wf_services _ wf) as Hall. rewrite Forall_forall in Hall. apply (service_keys _ _ (Hall _ Hold)).
Qed.

Lemma canonical_attached service attachment :
  service ∈ services → attachment ∈ service.(svc_volume_attachments) →
  is_Some (compile_mount volumes attachment).
Proof.
  intros (old & Hold & ->)%canonical_service Ha. simpl in Ha. rewrite sort_by_key_perm in Ha.
  pose proof (wf_services _ wf) as Hall. rewrite Forall_forall in Hall.
  destruct (service_mounts_authored _ _ (Hall _ Hold) _ Ha) as (volume & Hv & Hid).
  unfold compile_mount. apply fmap_is_Some. destruct (List.find _ volumes) eqn:Hf; [done|].
  rewrite find_None_elem in Hf. specialize (Hf volume). simpl in Hf.
  rewrite (sort_by_key_perm vol_resource_id) in Hf. specialize (Hf Hv). by rewrite bool_decide_eq_true_2 in Hf.
Qed.

Definition document_slugs : bmap string string :=
  bcollect (map (λ s, (s.(svc_lineage_id), s.(svc_slug))) services).

(** A well-formed document compiles: every attachment finds its Volume. *)
Lemma compile_returns :
  ∃ compiled, compile_environment_intent environment_id intent = Some compiled ∧
    compiled.(ce_variable_producers) = saved_producers environment_id intent.(env_slug) services ∧
    Forall2 (λ s nc, nc.1 = s.(svc_id) ∧ nc.2.(cfg_settings) = s.(svc_config) ∧
        nc.2.(cfg_env) = bcollect (map (λ v, (v.(var_key), env_value document_slugs v)) s.(svc_variables)))
      services (omap service_node compiled.(ce_node_snapshots)).
Proof.
  unfold compile_environment_intent. fold document_slugs.
  assert (Hm : is_Some (mapM (compile_service environment_id volumes document_slugs) services)).
  { apply mapM_is_Some_2, Forall_forall. intros service Hs. unfold compose, compile_service.
    assert (is_Some (mapM (compile_mount volumes) (svc_volume_attachments service))) as [ms ->].
    { apply mapM_is_Some_2, Forall_forall. intros a Ha. by eapply canonical_attached. }
    by eexists. }
  destruct Hm as [nodes Hm]. cbv zeta. rewrite Hm. cbn [mbind option_bind].
  eexists. split; [done|]. split; [done|]. cbn [ce_node_snapshots].
  rewrite omap_app. assert (omap service_node (map (compile_volume environment_id) volumes) = []) as ->.
  { clear Hm. induction volumes as [|v vs IH]; [done|exact IH]. }
  rewrite app_nil_r. apply mapM_Some_1 in Hm.
  induction Hm as [|s node ss nodes Hs _ IH]; [constructor|].
  unfold compile_service in Hs. apply bind_Some in Hs as (ms & _ & [= <-]). simpl. by constructor.
Qed.
End Compiled.

(** ** The environment a Service runs with *)

Section Environment.
Context {Fault : Type} (unseal : option (EncryptedSecretValue → Result string Fault)).
Context (environment_id slug : string) (services : list SavedServiceIntent).

(** What a variable of a Service becomes: its text, with the secrets the key opens; without
    the key a secret, and a template that reads one, is left out. *)
Definition env_entry (service : SavedServiceIntent) (value : SavedVariableValue)
    (got : option string) : Prop :=
  match value with
  | VariableLiteral text => got = Some text
  | VariableTemplate parts =>
      ∃ text secret, means unseal environment_id slug services service parts text secret ∧
        got = if bool_decide (is_Some unseal) || negb secret then Some text else None
  | VariableSecret sealed => open_sealed unseal sealed = Ok got
  | VariableSecretWithoutValue => open_sealed unseal None = Ok got
  end.

(** Why an Environment is refused: references in a cycle, or a secret that does not open. *)
Definition refused_for (service : SavedServiceIntent) (variable : SavedVariableIntent)
    (refusal : ResolveRefusal Fault) : Prop :=
  match refusal with
  | ReferenceCycle _ =>
      ∃ parts, variable.(var_value) = VariableTemplate parts ∧
        ∀ text secret, ¬ means unseal environment_id slug services service parts text secret
  | _ => resolver_value unseal variable.(var_value) = Err refusal
  end.

Context (depth : nat) (compiled : CompiledEnvironmentIntent) (producers : list VariableProducer).
Hypothesis ids : NoDup (map svc_id services).
Hypothesis lineages : NoDup (map svc_lineage_id services).
Hypothesis keys : ∀ service, service ∈ services → NoDup (map var_key service.(svc_variables)).
Hypothesis collected :
  collect_result (resolver_producer unseal) (saved_producers environment_id slug services) = Ok producers.
Hypothesis deep : length producers < depth.

Lemma resolve_value_right service variable slugs :
  service ∈ services →
  match resolve_value unseal depth compiled producers service.(svc_id) (env_value slugs variable) with
  | Some (Ok got) => env_entry service variable.(var_value) got
  | Some (Err refusal) => refused_for service variable refusal
  | None => False
  end.
Proof.
  intros Hin. unfold env_value, resolve_value, env_entry, refused_for.
  destruct (var_value variable) as [text|parts|sealed|] eqn:Hv; [done| |..].
  - pose proof (resolve_variables_right depth {| rv_parts := parts; rv_self_owner_id := svc_id service;
      rv_producers := producers |}) as Hr.
    simpl in Hr. specialize (Hr (collected_one_scope _ _ _ _ ids lineages _ collected) deep).
    destruct (resolve_variables _ _) as [[text secret ws|path]|]; simpl; [| |done].
    + exists text, secret. split; [|done]. destruct Hr as [He _]. by eapply expands_means.
    + exists parts. split; [done|]. intros text secret Hm. destruct Hr as [_ Hno].
      eapply Hno, means_expands; eauto.
  - destruct (open_sealed unseal sealed) as [got|refusal] eqn:Ho; [done|].
    destruct refusal; simpl; rewrite ?Hv; simpl; rewrite ?Ho; [|done..].
    unfold open_sealed in Ho. destruct unseal as [key|], sealed as [sealed|]; try done.
    by destruct (key sealed).
  - destruct (open_sealed unseal None) as [got|refusal] eqn:Ho; [done|].
    destruct refusal; simpl; rewrite ?Hv; simpl; rewrite ?Ho; [|done..].
    unfold open_sealed in Ho. by destruct unseal.
Qed.

Lemma elem_of_cfg_env service key value slugs :
  service ∈ services →
  (key, value) ∈ bcollect (map (λ v, (v.(var_key), env_value slugs v)) service.(svc_variables)) ↔
  ∃ variable, variable ∈ service.(svc_variables) ∧ variable.(var_key) = key ∧
    env_value slugs variable = value.
Proof.
  intros Hin. rewrite <- bget_Some by apply bwf_bcollect. rewrite bget_bcollect.
  - rewrite list_elem_of_fmap. naive_solver.
  - rewrite map_map. simpl. by apply keys.
Qed.

(** What [resolve_env] gives one Service. *)
Lemma resolve_service_right service slugs :
  service ∈ services →
  match resolve_env unseal depth compiled producers service.(svc_id)
          (bcollect (map (λ v, (v.(var_key), env_value slugs v)) service.(svc_variables))) [] with
  | Some (Ok env) =>
      (∀ key, key ∉ map var_key service.(svc_variables) → bget env key = None) ∧
      ∀ variable, variable ∈ service.(svc_variables) →
        env_entry service variable.(var_value) (bget env variable.(var_key))
  | Some (Err refusal) =>
      ∃ variable, variable ∈ service.(svc_variables) ∧ refused_for service variable refusal
  | None => False
  end.
Proof.
  intros Hin. set (cfg := bcollect (map (λ v, (var_key v, env_value slugs v)) (svc_variables service))).
  pose proof (resolve_env_cases unseal depth compiled producers (svc_id service) cfg []
    (bwf_NoDup _ (bwf_bcollect _))) as Hc.
  destruct (resolve_env _ _ _ _ _ cfg []) as [[env|refusal]|].
  - destruct Hc as [Hout Hvals]. split.
    + intros key Hk. apply Hout. intros ([k v] & -> & Hkv)%list_elem_of_fmap.
      apply elem_of_cfg_env in Hkv as (variable & Hv & Heq & _); [|done]. apply Hk. simpl. rewrite <- Heq.
      by apply list_elem_of_fmap_2.
    + intros variable Hv. destruct (Hvals (var_key variable) (env_value slugs variable)) as (got & Hr & Hg).
      { apply elem_of_cfg_env; eauto. }
      pose proof (resolve_value_right service variable slugs Hin) as Hright. rewrite Hr in Hright.
      assert (bget env (var_key variable) = got) as -> by (by destruct got). done.
  - destruct Hc as (key & value & Hkv & Hr).
    apply elem_of_cfg_env in Hkv as (variable & Hv & _ & <-); [|done].
    pose proof (resolve_value_right service variable slugs Hin) as Hright. rewrite Hr in Hright. eauto.
  - destruct Hc as (key & value & Hkv & Hr).
    apply elem_of_cfg_env in Hkv as (variable & Hv & _ & <-); [|done].
    pose proof (resolve_value_right service variable slugs Hin) as Hright. by rewrite Hr in Hright.
Qed.
End Environment.

(** A secret that does not open is a variable's, not a built-in one's. *)
Lemma collect_refused {Fault} (unseal : option (EncryptedSecretValue → Result string Fault))
    environment_id slug services refusal :
  collect_result (resolver_producer unseal) (saved_producers environment_id slug services)
    = Err refusal →
  ∃ service variable, service ∈ services ∧ variable ∈ service.(svc_variables) ∧
    refused_for unseal environment_id slug services service variable refusal.
Proof.
  intros (p & Hp & Hr)%collect_result_Err.
  apply elem_of_stable_sort, elem_of_concat_producers in Hp as (service & Hs & Hp).
  unfold resolver_producer in Hr. destruct (resolver_value unseal (sp_value p)) as [|refusal'] eqn:Hv; [done|].
  injection Hr as ->. unfold service_producers in Hp. rewrite elem_of_app, !list_elem_of_fmap in Hp.
  destruct Hp as [(kv & -> & _)|(variable & -> & Hvar)]; [done|]. simpl in Hv.
  exists service, variable. split_and!; [done..|]. destruct refusal; [|done..]. exfalso.
  destruct (var_value variable) as [text|parts|sealed|]; simpl in Hv; try done;
    unfold open_sealed in Hv; destruct unseal as [key|]; try done.
  by destruct sealed as [sealed|]; [destruct (key sealed)|].
Qed.

(** C16: The environment each Service of an admitted document runs with is what the document
    means: an entry for each of its variables and no other; a literal is its text; a template
    is its text with every reference replaced by what the Service it names provides, its own
    variable before a built-in one, to any depth; a secret is opened with the key. Without the
    key, secrets and the templates that read one are left out. Resolving always ends, and is
    refused only for references in a cycle or a secret that does not open. *)
Theorem environment_resolves `{ConfigCrates} {Fault}
    (unseal : option (EncryptedSecretValue → Result string Fault)) environment_id intent depth :
  well_formed intent →
  let services := (canonicalize_environment_intent intent).(env_services) in
  ∃ compiled, compile_environment_intent environment_id intent = Some compiled ∧
    (length compiled.(ce_variable_producers) < depth →
     match resolve_environment unseal depth compiled with
     | Some (Ok envs) =>
         ∀ service, service ∈ services →
           ∃ env, bget envs service.(svc_id) = Some env ∧
             (∀ key, key ∉ map var_key service.(svc_variables) → bget env key = None) ∧
             ∀ variable, variable ∈ service.(svc_variables) →
               env_entry unseal environment_id intent.(env_slug) services service
                 variable.(var_value) (bget env variable.(var_key))
     | Some (Err refusal) =>
         ∃ service variable, service ∈ services ∧ variable ∈ service.(svc_variables) ∧
           refused_for unseal environment_id intent.(env_slug) services service variable refusal
     | None => False
     end).
Proof.
  intros Hwf services. pose proof (canonical_ids intent Hwf) as Hids.
  pose proof (canonical_lineages intent Hwf) as Hlin. pose proof (canonical_keys intent Hwf) as Hkeys.
  destruct (compile_returns environment_id intent Hwf) as (compiled & Hc & Hp & Hnodes).
  fold services in Hids, Hlin, Hkeys, Hp, Hnodes.
  exists compiled. split; [done|]. intros Hdepth. unfold resolve_environment. rewrite Hp in *.
  destruct (collect_result _ _) as [producers|refusal] eqn:Hcol; [|by apply collect_refused].
  assert (Hlen : length producers < depth).
  { apply collect_result_Ok, Forall2_length in Hcol. lia. }
  assert (Hnd : NoDup (map fst (omap service_node (ce_node_snapshots compiled)))).
  { assert (map fst (omap service_node (ce_node_snapshots compiled)) = map svc_id services) as ->; [|done].
    clear -Hnodes. induction Hnodes as [|s nc ss ncs (Hid & _) _ IH]; [done|]. simpl. by rewrite Hid, IH. }
  pose proof (resolve_nodes_cases unseal depth compiled producers _ [] Hnd) as Hcases.
  assert (Hnode : ∀ id config, (id, config) ∈ omap service_node (ce_node_snapshots compiled) →
    ∃ service, service ∈ services ∧ id = svc_id service ∧ cfg_env config =
      bcollect (map (λ v, (var_key v, env_value (document_slugs intent) v)) (svc_variables service))).
  { intros id config [i Hi]%list_elem_of_lookup.
    destruct (Forall2_lookup_r _ _ _ _ _ Hnodes Hi) as (s & Hs & Hid & _ & He).
    apply list_elem_of_lookup_2 in Hs. eauto. }
  pose proof (λ s, resolve_service_right unseal environment_id (env_slug intent) services depth compiled
    producers Hids Hlin Hkeys Hcol Hlen s (document_slugs intent)) as Hright.
  destruct (resolve_nodes _ _ _ _ _ []) as [[envs|refusal]|].
  - intros s Hs. destruct Hcases as [_ Hin]. apply list_elem_of_lookup in Hs as Hs'. destruct Hs' as [i Hi].
    destruct (Forall2_lookup_l _ _ _ _ _ Hnodes Hi) as ([id config] & Hnc & Hid & _ & He). simpl in *. subst id.
    destruct (Hin (svc_id s) config) as (env & Hg & Hr); [by apply list_elem_of_lookup_2 in Hnc|].
    specialize (Hright s Hs). rewrite <- He, Hr in Hright. eauto.
  - destruct Hcases as (id & config & (s & Hs & -> & He)%Hnode & Hr).
    specialize (Hright s Hs). rewrite <- He, Hr in Hright. destruct Hright as (v & Hv & Href). eauto.
  - destruct Hcases as (id & config & (s & Hs & -> & He)%Hnode & Hr).
    specialize (Hright s Hs). by rewrite <- He, Hr in Hright.
Qed.

(** ** Without the key, no sealed value matters *)

Definition redact_value (value : SavedVariableValue) : SavedVariableValue :=
  match value with VariableSecret _ => VariableSecret None | value => value end.

Definition redact_env_value (value : ServiceEnvValue) : ServiceEnvValue :=
  match value with
  | EnvSecret variable_id _ fingerprint interpolated =>
      EnvSecret variable_id None fingerprint interpolated
  | EnvLiteral _ _ => value
  end.

Definition redact_config (config : ServiceConfig) : ServiceConfig :=
  {| cfg_settings := config.(cfg_settings);
     cfg_env := map (λ kv, (kv.1, redact_env_value kv.2)) config.(cfg_env);
     cfg_mounts := config.(cfg_mounts) |}.

Definition redact_node (node : CompiledEnvironmentNode) : CompiledEnvironmentNode :=
  {| cn_environment_id := node.(cn_environment_id); cn_node_id := node.(cn_node_id);
     cn_node_lineage_id := node.(cn_node_lineage_id);
     cn_snapshot := match node.(cn_snapshot) with
                    | CompiledService config => CompiledService (redact_config config)
                    | CompiledVolume config => CompiledVolume config
                    end;
     cn_encrypted_registry_username := node.(cn_encrypted_registry_username);
     cn_encrypted_registry_secret := node.(cn_encrypted_registry_secret) |}.

Definition redact_producer (producer : SavedVariableProducer) : SavedVariableProducer :=
  {| sp_owner_scope := producer.(sp_owner_scope); sp_owner_id := producer.(sp_owner_id);
     sp_owner_lineage_id := producer.(sp_owner_lineage_id); sp_key := producer.(sp_key);
     sp_value := redact_value producer.(sp_value) |}.

Definition redact_compiled (compiled : CompiledEnvironmentIntent) : CompiledEnvironmentIntent :=
  {| ce_node_snapshots := map redact_node compiled.(ce_node_snapshots);
     ce_variable_producers := map redact_producer compiled.(ce_variable_producers) |}.

Lemma env_value_redact slugs variable :
  env_value slugs (redact_variable variable) = redact_env_value (env_value slugs variable).
Proof. unfold env_value. simpl. by destruct (var_value variable). Qed.

Lemma compile_service_redact environment_id volumes slugs service :
  compile_service environment_id volumes slugs (redact_service service)
  = redact_node <$> compile_service environment_id volumes slugs service.
Proof.
  unfold compile_service. simpl. destruct (mapM _ _) as [mounts|]; [|done]. simpl. f_equal.
  unfold redact_node, redact_config. simpl. do 2 f_equal. rewrite <- bcollect_map_values, !map_map.
  f_equal. f_equal. apply map_ext. intros v. simpl. by rewrite env_value_redact.
Qed.

Lemma service_producers_redact environment_id slug service :
  service_producers environment_id slug (redact_service service)
  = map redact_producer (service_producers environment_id slug service).
Proof.
  unfold service_producers. rewrite map_app. f_equal.
  change (svc_variables (redact_service service)) with (map redact_variable (svc_variables service)).
  rewrite !map_map. apply map_ext. intros v. unfold service_producer, redact_producer. simpl.
  by destruct (var_value v).
Qed.

Lemma compile_redact environment_id intent :
  compile_environment_intent environment_id (redact_environment_intent intent)
  = redact_compiled <$> compile_environment_intent environment_id intent.
Proof.
  unfold compile_environment_intent. rewrite <- redact_canonicalize.
  generalize (canonicalize_environment_intent intent). intros c. cbv zeta. simpl.
  assert (map (λ s, (svc_lineage_id s, svc_slug s)) (map redact_service (env_services c))
    = map (λ s, (svc_lineage_id s, svc_slug s)) (env_services c)) as ->.
  { rewrite map_map. by apply map_ext. }
  rewrite (mapM_fmap_option _ (compile_service environment_id (env_volumes c)
    (bcollect (map (λ s, (svc_lineage_id s, svc_slug s)) (env_services c)))) _ redact_node)
    by (intros; apply compile_service_redact).
  destruct (mapM _ (env_services c)) as [nodes|]; [|done]. simpl. f_equal.
  unfold redact_compiled. simpl. rewrite map_app. f_equal.
  - f_equal. by rewrite map_map.
  - rewrite map_map, (map_ext _ _ (service_producers_redact environment_id (env_slug c))).
    rewrite <- (map_map _ (map redact_producer)), <- concat_map. symmetry. by apply map_sort_by_key.
Qed.

Section WithoutKey.
Context {Fault : Type}.
Abbreviation no_key := (@None (EncryptedSecretValue → Result string Fault)).

Lemma resolver_producers_redact producers :
  collect_result (resolver_producer no_key) (map redact_producer producers)
  = collect_result (resolver_producer no_key) producers.
Proof.
  induction producers as [|p producers IH]; [done|]. simpl. rewrite IH.
  unfold resolver_producer. simpl. by destruct (sp_value p).
Qed.

Lemma cycle_name_redact compiled step :
  cycle_name (redact_compiled compiled) step = cycle_name compiled step.
Proof.
  unfold cycle_name. destruct (default ("", step) (split_once "::" step)) as [owner key].
  f_equal. f_equal. simpl. induction (ce_node_snapshots compiled) as [|node nodes IH]; [done|]. simpl.
  case_bool_decide; [|done]. simpl. by destruct (cn_snapshot node).
Qed.

Lemma resolve_env_redact depth compiled producers node_id values env :
  resolve_env no_key depth (redact_compiled compiled) producers node_id
    (map (λ kv, (kv.1, redact_env_value kv.2)) values) env
  = resolve_env no_key depth compiled producers node_id values env.
Proof.
  revert env. induction values as [|[key value] values IH]; intros env; [done|]. simpl.
  assert (resolve_value no_key depth (redact_compiled compiled) producers node_id (redact_env_value value)
    = resolve_value no_key depth compiled producers node_id value) as ->.
  { destruct value as [text [parts|]|]; [|done..]. simpl.
    destruct (resolve_variables _ _) as [[|path]|]; [done| |done]. simpl. do 3 f_equal.
    apply map_ext. intros step. apply cycle_name_redact. }
  destruct (resolve_value _ _ _ _ _ _) as [[]|]; [|done..]. apply IH.
Qed.

Lemma resolve_redact depth compiled :
  resolve_environment no_key depth (redact_compiled compiled) = resolve_environment no_key depth compiled.
Proof.
  unfold resolve_environment. simpl. rewrite resolver_producers_redact.
  destruct (collect_result _ _) as [producers|]; [|done].
  generalize (ce_node_snapshots compiled), (@nil (string * bmap string string)).
  induction l as [|node nodes IH]; intros acc; [done|]. simpl.
  destruct (cn_snapshot node) as [config|]; [|apply IH]. simpl. rewrite resolve_env_redact.
  destruct (resolve_env _ _ _ _ _ _ _) as [[]|]; [apply IH|done..].
Qed.

(** C17: Without the sealing key, what is resolved of an Environment depends on no sealed
    value: two documents that differ only in their ciphertexts give the same environments,
    or the same refusal. *)
Theorem resolve_without_key_private environment_id depth a b :
  redact_environment_intent a = redact_environment_intent b →
  compile_environment_intent environment_id a ≫= resolve_environment no_key depth
  = compile_environment_intent environment_id b ≫= resolve_environment no_key depth.
Proof.
  assert (Hred : ∀ intent, compile_environment_intent environment_id intent ≫= resolve_environment no_key depth
    = compile_environment_intent environment_id (redact_environment_intent intent) ≫= resolve_environment no_key depth).
  { intros intent. rewrite compile_redact. destruct (compile_environment_intent environment_id intent); [|done].
    simpl. symmetry. apply resolve_redact. }
  intros Heq. by rewrite (Hred a), (Hred b), Heq.
Qed.
End WithoutKey.

(** ** A concrete Environment *)

Module SampleCompile.
Definition sealed (text : string) : EncryptedSecretValue :=
  {| sealed_version := 1; sealed_iv := "iv"; sealed_tag := "tag"; sealed_ciphertext := text |}.

Definition variable (last key : string) (value : SavedVariableValue) : SavedVariableIntent :=
  {| var_id := SampleConfig.id last; var_key := key; var_description := None; var_exported := false;
     var_value_fingerprint := "f"; var_value := value |}.

Definition document (secret : string) : SavedEnvironmentIntent :=
  SampleConfig.document
    [variable "7" "URL" (VariableTemplate
       [PartText "http://"; PartRef OwnerSelf PRIVATE_DOMAIN_KEY; PartText ":"; PartRef OwnerSelf "PORT"]);
     variable "6" "PORT" (VariableLiteral "3000");
     variable "5" "TOKEN" (VariableSecret (Some (sealed secret)));
     variable "8" "AUTH" (VariableTemplate
       [PartText "Bearer "; PartRef (OwnerService (SampleConfig.id "2")) "TOKEN"])].

(** The document as admission leaves it. *)
Definition admitted_document (secret : string) : SavedEnvironmentIntent :=
  match validate_environment (document secret) with Ok intent => intent | Err _ => document secret end.

Definition key : option (EncryptedSecretValue → Result string unit) :=
  Some (λ sealed, Ok sealed.(sealed_ciphertext)).

Definition envs (unseal : option (EncryptedSecretValue → Result string unit)) (secret : string)
    : option (Result (bmap string (bmap string string)) (ResolveRefusal unit)) :=
  compile_environment_intent "env" (admitted_document secret) ≫= resolve_environment unseal 20.
End SampleCompile.

(** An authored [PORT] wins over the built-in one; with the key secrets are there. *)
Example sample_environment :
  SampleCompile.envs SampleCompile.key "s3cret"
  = Some (Ok [(SampleConfig.id "1",
      [("AUTH", "Bearer s3cret"); ("PORT", "3000"); ("TOKEN", "s3cret");
       ("URL", "http://web.internal:3000")])]) ∧
  SampleCompile.envs None "s3cret"
  = Some (Ok [(SampleConfig.id "1", [("PORT", "3000"); ("URL", "http://web.internal:3000")])]).
Proof. vm_compute. split; reflexivity. Qed.

Lemma environment_resolves_witness :
  ∃ compiled service env,
    compile_environment_intent "env" (SampleCompile.admitted_document "s3cret") = Some compiled ∧
    bget (match resolve_environment SampleCompile.key 20 compiled with Some (Ok envs) => envs | _ => [] end)
      service.(svc_id) = Some env ∧
    ∀ variable, variable ∈ service.(svc_variables) →
      env_entry SampleCompile.key "env" "production"
        (canonicalize_environment_intent (SampleCompile.admitted_document "s3cret")).(env_services) service
        variable.(var_value) (bget env variable.(var_key)).
Proof.
  assert (Hv : validate_environment (SampleCompile.document "s3cret")
    = Ok (SampleCompile.admitted_document "s3cret")) by (vm_compute; reflexivity).
  destruct (environment_resolves SampleCompile.key "env" (SampleCompile.admitted_document "s3cret") 20
    (admitted_wf _ _ Hv)) as (compiled & Hc & Hres).
  assert (Hl : (λ c, length (ce_variable_producers c)) <$>
    compile_environment_intent "env" (SampleCompile.admitted_document "s3cret") = Some 10)
    by (vm_compute; reflexivity).
  assert (Hs : match compile_environment_intent "env" (SampleCompile.admitted_document "s3cret") ≫=
    resolve_environment SampleCompile.key 20 with Some (Ok _) => true | _ => false end = true)
    by (vm_compute; reflexivity).
  rewrite Hc in Hl, Hs. injection Hl as Hl. specialize (Hres ltac:(rewrite Hl; lia)).
  cbn [mbind option_bind] in Hs.
  destruct (resolve_environment SampleCompile.key 20 compiled) as [[envs|]|] eqn:Hr; [|discriminate Hs..].
  destruct (Hres (hd (SampleBranch.service "" [] [])
    (canonicalize_environment_intent (SampleCompile.admitted_document "s3cret")).(env_services)))
    as (env & Henv & _ & Hall); [vm_compute; left|].
  exists compiled, (hd (SampleBranch.service "" [] [])
    (canonicalize_environment_intent (SampleCompile.admitted_document "s3cret")).(env_services)), env.
  split; [exact Hc|]. rewrite Hr. split; [exact Henv|exact Hall].
Defined.

Lemma resolve_without_key_private_witness :
  SampleCompile.document "one" ≠ SampleCompile.document "two" ∧
  compile_environment_intent "env" (SampleCompile.document "one") ≫= resolve_environment (Fault := unit) None 20
  = compile_environment_intent "env" (SampleCompile.document "two") ≫= resolve_environment (Fault := unit) None 20.
Proof.
  split; [vm_compute; discriminate|].
  apply (resolve_without_key_private "env" 20 (SampleCompile.document "one") (SampleCompile.document "two")).
  vm_compute. reflexivity.
Defined.
