(* ===== verification/LiveValues.v ===== *)
(** * Live values

    [live_values] of [ployz-core/src/config/live_values.rs]: the variable producers of the
    Environment that runs a Live Node, rescoped so that a Branch reads them as their owner
    would, and the values the owner lacks. *)

From S2P Require Import Prelude BTree Strings Values Spec RuntimeOutcome Config.
From S2P Require Import BranchPlan VariableTemplate Variables Compile.
From Stdlib Require Import Ascii.

Open Scope string_scope.
Open Scope nat_scope.
Open Scope list_scope.

(** ** Data *)

Record LiveValuesOwner : Type := {
  lo_namespace : Namespace;
  lo_producers : list SavedVariableProducer
}.

Record LiveLineageUse : Type := { lu_lineage_id : string; lu_keys : list string }.

Record LiveValuesInput : Type := {
  lv_owner : LiveValuesOwner;
  lv_lineages : list LiveLineageUse
}.

Record MissingLiveValue : Type := { ml_lineage_id : string; ml_key : string }.

Record LiveValues : Type := {
  live_producers : list SavedVariableProducer;
  live_missing : list MissingLiveValue
}.

(** ** Operations *)

Definition used_lineages (lineages : list LiveLineageUse) : bset string :=
  bset_of (map lu_lineage_id lineages).

Section Rescope.
Context (namespace : Namespace) (used : bset string).

Definition scope_lineage (lineage : string) : string :=
  if bool_decide (lineage ∈ used) then lineage else namespace +:+ "::" +:+ lineage.

(** An address the owner itself uses live already names its Namespace. *)
Definition qualify_address (value : string) : string :=
  match strip_suffix ".internal" value with
  | Some host =>
      if bytes_any (is_byte ".") host then value
      else host +:+ "." +:+ namespace +:+ ".internal"
  | None => value
  end.

Definition scope_part (part : ValuePart) : ValuePart :=
  match part with
  | PartRef (OwnerService lineage_id) key => PartRef (OwnerService (scope_lineage lineage_id)) key
  | part => part
  end.

Definition rescope_value (key : string) (value : SavedVariableValue) : SavedVariableValue :=
  match value with
  | VariableLiteral value =>
      if bool_decide (key = PRIVATE_DOMAIN_KEY) then VariableLiteral (qualify_address value)
      else VariableLiteral value
  | VariableTemplate parts => VariableTemplate (map scope_part parts)
  | VariableSecret _ | VariableSecretWithoutValue => value
  end.

Definition rescope (producer : SavedVariableProducer) : SavedVariableProducer :=
  {| sp_owner_scope := producer.(sp_owner_scope); sp_owner_id := producer.(sp_owner_id);
     sp_owner_lineage_id := scope_lineage producer.(sp_owner_lineage_id);
     sp_key := producer.(sp_key);
     sp_value := rescope_value producer.(sp_key) producer.(sp_value) |}.
End Rescope.

Definition is_provided (producers : list SavedVariableProducer) (lineage key : string) : bool :=
  existsb (λ p, bool_decide (p.(sp_owner_lineage_id) = lineage) && bool_decide (p.(sp_key) = key))
    producers.

Definition missing_of (producers : list SavedVariableProducer) (lineage : LiveLineageUse)
    : list MissingLiveValue :=
  omap (λ key, if is_provided producers lineage.(lu_lineage_id) key then None
               else Some {| ml_lineage_id := lineage.(lu_lineage_id); ml_key := key |})
    lineage.(lu_keys).

Definition live_values (input : LiveValuesInput) : LiveValues :=
  let owner := input.(lv_owner) in
  {| live_producers :=
       map (rescope owner.(lo_namespace) (used_lineages input.(lv_lineages))) owner.(lo_producers);
     live_missing := concat (map (missing_of owner.(lo_producers)) input.(lv_lineages)) |}.

(** ** What an owner's values are outside its Namespace

    A Service is reached inside its Namespace as [name.internal], one label, and from
    elsewhere as [name.namespace.internal]. *)

Definition dotted (host : string) : Prop := ∃ before after, host = before +:+ "." +:+ after.

Inductive address_outside (namespace : Namespace) : string → string → Prop :=
| OutsideQualified host :
    ¬ dotted host →
    address_outside namespace (host +:+ ".internal") (host +:+ "." +:+ namespace +:+ ".internal")
| OutsideElsewhere address :
    (∀ host, address = host +:+ ".internal" → dotted host) →
    address_outside namespace address address.

(** Only the private address a Service provides changes. *)
Inductive value_outside (namespace : Namespace) (key : string)
    : SavedVariableValue → SavedVariableValue → Prop :=
| OutsideAddress address address' :
    key = PRIVATE_DOMAIN_KEY → address_outside namespace address address' →
    value_outside namespace key (VariableLiteral address) (VariableLiteral address')
| OutsideSame value :
    (key = PRIVATE_DOMAIN_KEY → ∀ address, value ≠ VariableLiteral address) →
    value_outside namespace key value value.

Record producer_outside (namespace : Namespace) (p q : SavedVariableProducer) : Prop := {
  outside_scope : q.(sp_owner_scope) = p.(sp_owner_scope);
  outside_id : q.(sp_owner_id) = p.(sp_owner_id);
  outside_lineage : q.(sp_owner_lineage_id) = p.(sp_owner_lineage_id);
  outside_key : q.(sp_key) = p.(sp_key);
  outside_value : value_outside namespace p.(sp_key) p.(sp_value) q.(sp_value)
}.

Lemma bytes_any_dotted host : bytes_any (is_byte ".") host = true ↔ dotted host.
Proof.
  split.
  - induction host as [|c host IH]; simpl; [done|]. rewrite is_byte_spec, orb_true_iff.
    intros [<-%Ascii.eqb_eq|(before & after & ->)%IH]; [by exists "", host|].
    by exists (String c before), after.
  - intros (before & after & ->). rewrite !bytes_any_app. simpl. by rewrite orb_true_r.
Qed.

(** ** Reading through the scope *)

(** The owner's producers, their private addresses qualified as the code does. *)
Definition qualify_producer (namespace : Namespace) (producer : SavedVariableProducer)
    : SavedVariableProducer :=
  {| sp_owner_scope := producer.(sp_owner_scope); sp_owner_id := producer.(sp_owner_id);
     sp_owner_lineage_id := producer.(sp_owner_lineage_id); sp_key := producer.(sp_key);
     sp_value := match producer.(sp_value) with
                 | VariableLiteral value =>
                     if bool_decide (producer.(sp_key) = PRIVATE_DOMAIN_KEY)
                     then VariableLiteral (qualify_address namespace value)
                     else VariableLiteral value
                 | value => value
                 end |}.

Lemma address_outside_qualify namespace address address' :
  address_outside namespace address address' → qualify_address namespace address = address'.
Proof.
  intros [host Hd|addr Hd]; unfold qualify_address.
  - rewrite strip_suffix_app. destruct (bytes_any (is_byte ".") host) eqn:Hb; [|done].
    by apply bytes_any_dotted in Hb.
  - destruct (strip_suffix ".internal" addr) as [host|] eqn:Hs; [|done].
    apply strip_suffix_Some, Hd, bytes_any_dotted in Hs. by rewrite Hs.
Qed.

Lemma producer_outside_qualify namespace p q :
  producer_outside namespace p q → qualify_producer namespace p = q.
Proof.
  intros [Hscope Hid Hlin Hkey Hv]. destruct p, q. simpl in *. subst.
  unfold qualify_producer. simpl. f_equal. destruct Hv as [a a' Hk Ha|value Hsame].
  - rewrite bool_decide_eq_true_2 by done. f_equal. by apply address_outside_qualify.
  - destruct value as [text|parts|cipher|]; try done. case_bool_decide as Hk; [|done].
    by destruct (Hsame Hk text).
Qed.

(** The Branch's own producers keep clear of the owner's: other owners, no lineage it uses
    live, and no lineage written like a scoped one. *)
Record apart (branch : list SavedVariableProducer) (input : LiveValuesInput) : Prop := {
  apart_ids b p : b ∈ branch → p ∈ input.(lv_owner).(lo_producers) →
    b.(sp_owner_id) ≠ p.(sp_owner_id);
  apart_used b : b ∈ branch → b.(sp_owner_lineage_id) ∉ used_lineages input.(lv_lineages);
  apart_scoped b l : b ∈ branch →
    b.(sp_owner_lineage_id) ≠ input.(lv_owner).(lo_namespace) +:+ "::" +:+ l;
  apart_lineages l l' : l ∈ used_lineages input.(lv_lineages) →
    l ≠ input.(lv_owner).(lo_namespace) +:+ "::" +:+ l'
}.

Section Live.
Context {Fault : Type} (unseal : option (EncryptedSecretValue → Result string Fault)).
Context (branch : list SavedVariableProducer) (input : LiveValuesInput).
Hypothesis separate : apart branch input.
Abbreviation namespace := input.(lv_owner).(lo_namespace).
Abbreviation used := (used_lineages input.(lv_lineages)).
Abbreviation scope := (scope_lineage namespace used).
Abbreviation part_scope := (scope_part namespace used).
Abbreviation owner_producers := input.(lv_owner).(lo_producers).

Definition scope_owner (owner : ValuePartOwner) : ValuePartOwner :=
  match owner with OwnerSelf => OwnerSelf | OwnerService l => OwnerService (scope l) end.

Definition scope_resolver (value : ResolverValue) : ResolverValue :=
  match value with ResolverTemplate parts => ResolverTemplate (map part_scope parts) | v => v end.

Definition scope_value (value : SavedVariableValue) : SavedVariableValue :=
  match value with
  | VariableTemplate parts => VariableTemplate (map part_scope parts)
  | value => value
  end.

Lemma scope_inj l1 l2 : scope l1 = scope l2 → l1 = l2.
Proof.
  unfold scope_lineage. repeat case_bool_decide; intros Heq; [done|..].
  - by destruct (apart_lineages _ _ separate l1 l2).
  - by destruct (apart_lineages _ _ separate l2 l1).
  - by apply str_app_inj_l, str_app_inj_l in Heq.
Qed.

Lemma branch_not_scoped b l : b ∈ branch → b.(sp_owner_lineage_id) ≠ scope l.
Proof.
  intros Hb. unfold scope_lineage. case_bool_decide as Hl.
  - intros Heq. apply (apart_used _ _ separate _ Hb). by rewrite Heq.
  - by apply (apart_scoped _ _ separate).
Qed.

(** The Branch's own owners. *)
Definition of_branch (id : string) : Prop := ∃ b, b ∈ branch ∧ b.(sp_owner_id) = id.

Lemma scoped_produces self owner key p :
  saved_produces self (scope_owner owner) key (rescope namespace used p)
  = saved_produces self owner key (qualify_producer namespace p).
Proof.
  unfold saved_produces. destruct owner as [|l]; [done|]. simpl. f_equal.
  apply bool_decide_ext. split; [apply scope_inj|by intros ->].
Qed.

(** A scoped reference finds the owner's producer, and never the Branch's own. *)
Lemma live_last self owner key :
  (owner = OwnerSelf → ¬ of_branch self) →
  last (List.filter (saved_produces self (scope_owner owner) key)
          (branch ++ (live_values input).(live_producers)))
  = (λ p, {| sp_owner_scope := p.(sp_owner_scope); sp_owner_id := p.(sp_owner_id);
             sp_owner_lineage_id := scope p.(sp_owner_lineage_id); sp_key := p.(sp_key);
             sp_value := scope_value p.(sp_value) |})
    <$> last (List.filter (saved_produces self owner key)
                (map (qualify_producer namespace) owner_producers)).
Proof.
  intros Hself. rewrite List.filter_app. assert (List.filter _ branch = []) as ->.
  { apply filter_none. intros b Hb. unfold saved_produces. destruct owner as [|l]; simpl.
    - rewrite bool_decide_eq_false_2; [done|]. intros Heq. apply (Hself eq_refl). by exists b.
    - rewrite bool_decide_eq_false_2; [done|]. by apply branch_not_scoped. }
  simpl. rewrite !filter_map_bool, <- fmap_last, map_map.
  rewrite (filter_ext_in_elem _ (λ p, saved_produces self owner key (qualify_producer namespace p)))
    by (intros; apply scoped_produces).
  f_equal. apply map_ext. intros p. unfold rescope, qualify_producer. simpl. f_equal.
  destruct (sp_value p); simpl; [by case_bool_decide|done..].
Qed.

Context (owned live : list VariableProducer).
Hypothesis owned_collected :
  collect_result (resolver_producer unseal) (map (qualify_producer namespace) owner_producers)
  = Ok owned.
Hypothesis live_collected :
  collect_result (resolver_producer unseal) (branch ++ (live_values input).(live_producers)) = Ok live.

Lemma resolver_value_scope value v :
  resolver_value unseal value = Ok v →
  resolver_value unseal (scope_value value) = Ok (scope_resolver v).
Proof.
  destruct value; simpl; try (intros [= <-]; done);
    (intros (text & Ht & [= <-])%result_bind_Ok; rewrite Ht; done).
Qed.

(** A scoped reference of the Branch and the owner's own find the same producer. *)
Lemma live_found self owner key :
  (owner = OwnerSelf → ¬ of_branch self) →
  option_Forall2 (λ p q, vp_owner_id p = vp_owner_id q ∧ vp_value p = scope_resolver (vp_value q))
    (found_producer live self (scope_owner owner) key) (found_producer owned self owner key).
Proof.
  intros Hself. pose proof (found_saved unseal _ _ self (scope_owner owner) key live_collected) as Hl.
  pose proof (found_saved unseal _ _ self owner key owned_collected) as Ho.
  rewrite live_last in Hl by done.
  destruct (last (List.filter (saved_produces self owner key) _)) as [p|].
  - inversion Ho as [x q Hq Hx Hfq|]; subst. inversion Hl as [y r Hr Hy Hfr|]; subst.
    apply resolver_producer_Ok in Hq as (v & Hv & ->), Hr as (w & Hw & ->). simpl in *.
    constructor. simpl. split; [done|].
    rewrite (resolver_value_scope _ _ Hv) in Hw. by simplify_eq.
  - inversion Ho. inversion Hl. constructor.
Qed.

Lemma names_owner_branch self owner key id :
  names owned self owner key = Some id → ¬ of_branch id.1.
Proof.
  intros (q & Hq & ->)%fmap_Some (b & Hb & Heq). simpl in Heq.
  destruct (found_producer_elem _ _ _ _ _ Hq) as [Hin _].
  pose proof (proj1 (collect_result_Ok _ _ _) owned_collected) as Hall.
  apply list_elem_of_lookup in Hin as [i Hi].
  destruct (Forall2_lookup_r _ _ _ _ _ Hall Hi) as (saved & Hs & (v & _ & ->)%resolver_producer_Ok).
  apply list_elem_of_lookup_2, list_elem_of_fmap in Hs as (p & -> & Hp). simpl in Heq.
  by apply (apart_ids _ _ separate b p).
Qed.

Lemma live_names self owner key :
  (owner = OwnerSelf → ¬ of_branch self) →
  names live self (scope_owner owner) key = names owned self owner key.
Proof.
  intros Hself. unfold names. pose proof (live_found self owner key Hself) as Hf.
  inversion Hf as [p q [Hid _] Hp Hq|]; simpl; [by rewrite Hid|done].
Qed.

Lemma live_supplied id :
  ¬ of_branch id.1 → supplied live id = scope_resolver <$> supplied owned id.
Proof.
  intros Hid. unfold supplied. pose proof (live_found id.1 OwnerSelf id.2 (λ _, Hid)) as Hf.
  simpl in Hf. inversion Hf as [p q [_ Hv] Hp Hq|]; simpl; [by rewrite Hv|done].
Qed.

(** References the Branch can read: its own only where the owner is not the Branch. *)
Definition readable (self : string) (parts : list ValuePart) : Prop :=
  ∀ key, PartRef OwnerSelf key ∈ parts → ¬ of_branch self.

Lemma readable_cons self part parts :
  readable self (part :: parts) →
  readable self parts ∧ ∀ owner key, part = PartRef owner key → owner = OwnerSelf → ¬ of_branch self.
Proof.
  intros Hr. split; [intros key Hk; apply (Hr key); by right|].
  intros owner key -> ->. apply (Hr key). left.
Qed.

Lemma part_scope_ref owner key : part_scope (PartRef owner key) = PartRef (scope_owner owner) key.
Proof. by destruct owner. Qed.

Lemma owned_expands_live self parts v s :
  expands owned self parts v s → readable self parts → expands live self (map part_scope parts) v s.
Proof.
  induction 1 as [self|self text parts v s _ IH|self owner key parts v s Hn _ IH
    |self owner key id text parts v s Hn Hv _ IH|self owner key id text parts v s Hn Hv _ IH
    |self owner key id inner v1 s1 parts v s Hn Hv _ IH1 _ IH2];
    intros Hr; [constructor|..]; apply readable_cons in Hr as [Hr Hown];
    try specialize (Hown _ _ eq_refl); cbn [map]; rewrite ?part_scope_ref;
    try (rewrite <- live_names in Hn by done);
    try (pose proof (live_supplied id) as Hs; rewrite Hv in Hs; simpl in Hs;
         rewrite live_names in Hn by done; pose proof (names_owner_branch _ _ _ _ Hn) as Hnb;
         rewrite <- live_names in Hn by done; specialize (Hs Hnb)).
  - constructor. auto.
  - apply expands_missing; auto.
  - eapply expands_literal; eauto.
  - eapply expands_secret; eauto.
  - eapply expands_template; eauto. apply IH1. by intros k _.
Qed.

Lemma live_expands_owned self parts' v s :
  expands live self parts' v s →
  ∀ parts, parts' = map part_scope parts → readable self parts → expands owned self parts v s.
Proof.
  induction 1 as [self|self text parts' v s _ IH|self owner' key parts' v s Hn _ IH
    |self owner' key id text parts' v s Hn Hv _ IH|self owner' key id text parts' v s Hn Hv _ IH
    |self owner' key id inner' v1 s1 parts' v s Hn Hv _ IH1 _ IH2]; intros parts Heq Hr;
    (destruct parts as [|[text0|owner key0] parts]; cbn [map] in Heq;
      rewrite ?part_scope_ref in Heq; try discriminate Heq);
    [apply expands_nil|..]; apply readable_cons in Hr as [Hr Hown]; try specialize (Hown _ _ eq_refl);
    (injection Heq as -> -> -> || injection Heq as -> ->);
    try (rewrite live_names in Hn by done).
  - constructor. auto.
  - apply expands_missing; auto.
  - pose proof (names_owner_branch _ _ _ _ Hn) as Hnb. rewrite live_supplied in Hv by done.
    apply fmap_Some in Hv as ([|?|?] & Hv & [= ->]). eapply expands_literal; eauto.
  - pose proof (names_owner_branch _ _ _ _ Hn) as Hnb. rewrite live_supplied in Hv by done.
    apply fmap_Some in Hv as ([?| |?] & Hv & [= ->]). eapply expands_secret; eauto.
  - pose proof (names_owner_branch _ _ _ _ Hn) as Hnb. rewrite live_supplied in Hv by done.
    apply fmap_Some in Hv as ([?|?|inner] & Hv & [= ->]). eapply expands_template; eauto.
    apply IH1; [done|]. by intros k _.
Qed.

(** Nobody supplies a value of a used lineage exactly when the owner does not. *)
Lemma live_names_None self lineage key :
  names live self (OwnerService (scope lineage)) key = None ↔
  ∀ p, p ∈ owner_producers → ¬ (p.(sp_owner_lineage_id) = lineage ∧ p.(sp_key) = key).
Proof.
  change (OwnerService (scope lineage)) with (scope_owner (OwnerService lineage)).
  rewrite live_names by done. unfold names. rewrite fmap_None.
  pose proof (found_saved unseal _ _ self (OwnerService lineage) key owned_collected) as Hf.
  assert (Hlast : found_producer owned self (OwnerService lineage) key = None ↔
    List.filter (saved_produces self (OwnerService lineage) key)
      (map (qualify_producer namespace) owner_producers) = []).
  { rewrite <- last_None. split; intros Heq; rewrite Heq in Hf; by inversion Hf. }
  rewrite Hlast. split.
  - intros Hnil p Hp [Hl Hk]. apply (not_elem_of_nil (qualify_producer namespace p)). rewrite <- Hnil.
    apply elem_of_filterb. split; [by apply list_elem_of_fmap_2|].
    unfold saved_produces. simpl. by rewrite !bool_decide_eq_true_2.
  - intros Hno. apply filter_none. intros q (p & -> & Hp)%list_elem_of_fmap. unfold saved_produces. simpl.
    apply andb_false_iff. rewrite !bool_decide_eq_false. specialize (Hno p Hp).
    destruct (decide (sp_owner_lineage_id p = lineage)); [right|by left]. naive_solver.
Qed.
End Live.

(** ** The theorems *)

Lemma elem_of_missing input m :
  m ∈ (live_values input).(live_missing) ↔
  ∃ lineage, lineage ∈ input.(lv_lineages) ∧ lineage.(lu_lineage_id) = m.(ml_lineage_id) ∧
    m.(ml_key) ∈ lineage.(lu_keys) ∧
    ∀ p, p ∈ input.(lv_owner).(lo_producers) →
      ¬ (p.(sp_owner_lineage_id) = m.(ml_lineage_id) ∧ p.(sp_key) = m.(ml_key)).
Proof.
  assert (Hprov : ∀ l k, is_provided input.(lv_owner).(lo_producers) l k = false ↔
    ∀ p, p ∈ input.(lv_owner).(lo_producers) → ¬ (p.(sp_owner_lineage_id) = l ∧ p.(sp_key) = k)).
  { intros l k. unfold is_provided. rewrite existsb_false_elem.
    split; intros Hall p Hp; specialize (Hall p Hp); revert Hall;
      rewrite andb_false_iff, !bool_decide_eq_false; [naive_solver|].
    destruct (decide (sp_owner_lineage_id p = l)); [right|by left]. naive_solver. }
  unfold live_values. simpl. rewrite list_elem_of_In, in_concat. split.
  - intros (ls & Hls & Hm). apply in_map_iff in Hls as (lineage & <- & Hl).
    apply list_elem_of_In, list_elem_of_omap in Hm as (key & Hk & Hm).
    destruct (is_provided _ _ key) eqn:Hp; [done|]. injection Hm as <-. simpl.
    exists lineage. rewrite list_elem_of_In. split_and!; [done..|]. by apply Hprov.
  - intros (lineage & Hl & Hid & Hk & Hno). exists (missing_of input.(lv_owner).(lo_producers) lineage).
    split; [apply in_map_iff; exists lineage; by rewrite <- list_elem_of_In|].
    apply list_elem_of_In, list_elem_of_omap. exists m.(ml_key). split; [done|].
    rewrite (proj2 (Hprov _ _)) by (by rewrite Hid). destruct m. simpl in *. by rewrite Hid.
Qed.

(** C26: A Branch that adds the live values of an owner to its own producers reads each
    lineage it uses live as the owner's own producers read, with the private address a Service
    provides, [name.internal], read as [name.namespace.internal] and every other value as the
    owner wrote it: the Branch's own copies of what the live Service reads neither capture nor
    shadow anything, to any depth. This needs the two apart: other owner ids, and in the Branch
    neither a lineage it uses live nor, in either, one written as a scoped lineage
    ([namespace::]). The values reported missing are exactly the keys it reads that nobody
    supplies. *)
Theorem live_values_read_as_owner {Fault}
    (unseal : option (EncryptedSecretValue → Result string Fault)) branch input outside owned live :
  apart branch input →
  Forall2 (producer_outside input.(lv_owner).(lo_namespace)) input.(lv_owner).(lo_producers) outside →
  collect_result (resolver_producer unseal) outside = Ok owned →
  collect_result (resolver_producer unseal)
    (branch ++ (live_values input).(live_producers)) = Ok live →
  (∀ self lineage key v s, lineage ∈ used_lineages input.(lv_lineages) →
     expands live self [PartRef (OwnerService lineage) key] v s ↔
     expands owned self [PartRef (OwnerService lineage) key] v s) ∧
  (∀ m, m ∈ (live_values input).(live_missing) ↔
     ∃ lineage, lineage ∈ input.(lv_lineages) ∧ lineage.(lu_lineage_id) = m.(ml_lineage_id) ∧
       m.(ml_key) ∈ lineage.(lu_keys) ∧
       ∀ self, names live self (OwnerService m.(ml_lineage_id)) m.(ml_key) = None).
Proof.
  intros Hapart Houtside Hown Hlive.
  assert (map (qualify_producer input.(lv_owner).(lo_namespace)) input.(lv_owner).(lo_producers)
          = outside) as <-.
  { clear -Houtside. induction Houtside as [|p q ps qs Hp _ IH]; simpl; [done|].
    f_equal; [by apply producer_outside_qualify|exact IH]. }
  assert (Hscope : ∀ l, l ∈ used_lineages input.(lv_lineages) →
    scope_lineage (lo_namespace (lv_owner input)) (used_lineages (lv_lineages input)) l = l).
  { intros l Hl. unfold scope_lineage. by rewrite bool_decide_eq_true_2. }
  split.
  - intros self lineage key v s Hl.
    assert (Hread : readable branch self [PartRef (OwnerService lineage) key]).
    { intros k Hk. apply list_elem_of_singleton in Hk. done. }
    assert (Hmap : [PartRef (OwnerService lineage) key] = map (scope_part
      (lo_namespace (lv_owner input)) (used_lineages (lv_lineages input)))
      [PartRef (OwnerService lineage) key]) by (simpl; by rewrite Hscope).
    split.
    + intros He. by eapply (live_expands_owned unseal branch input Hapart owned live).
    + intros He. rewrite Hmap. by eapply (owned_expands_live unseal branch input Hapart owned live).
  - intros m. rewrite elem_of_missing.
    assert (Hnone : ∀ lineage, lineage ∈ input.(lv_lineages) → lu_lineage_id lineage = ml_lineage_id m →
      ∀ self, names live self (OwnerService (ml_lineage_id m)) (ml_key m) = None ↔
        ∀ p, p ∈ input.(lv_owner).(lo_producers) →
          ¬ (p.(sp_owner_lineage_id) = m.(ml_lineage_id) ∧ p.(sp_key) = m.(ml_key))).
    { intros lineage Hl Hid self.
      rewrite <- (live_names_None unseal branch input Hapart owned live Hown Hlive self).
      rewrite Hscope; [done|]. apply elem_of_bset_of. rewrite <- Hid. by apply list_elem_of_fmap_2. }
    split; intros (lineage & Hl & Hid & Hk & Hno); exists lineage; split_and!; try done.
    + intros self. by apply (Hnone lineage).
    + by apply (Hnone lineage Hl Hid "").
Qed.

(** An address is qualified once. *)
Lemma qualify_address_once namespace value :
  qualify_address namespace (qualify_address namespace value) = qualify_address namespace value.
Proof.
  unfold qualify_address at 2 3. destruct (strip_suffix ".internal" value) as [host|] eqn:Hs.
  - destruct (bytes_any (is_byte ".") host) eqn:Hd; unfold qualify_address; [by rewrite Hs, Hd|].
    change (host +:+ "." +:+ namespace +:+ ".internal")
      with (host +:+ ("." +:+ (namespace +:+ ".internal"))).
    rewrite <- (str_app_assoc "." namespace), <- str_app_assoc, strip_suffix_app.
    by rewrite !bytes_any_app, orb_true_r.
  - unfold qualify_address. by rewrite Hs.
Qed.

(** ** A concrete Branch *)

Module SampleLive.
Definition producer (owner lineage key : string) (value : SavedVariableValue) : SavedVariableProducer :=
  {| sp_owner_scope := "service"; sp_owner_id := owner; sp_owner_lineage_id := lineage;
     sp_key := key; sp_value := value |}.

Definition branch : list SavedVariableProducer :=
  [producer "branch-db" "db" PRIVATE_DOMAIN_KEY (VariableLiteral "db.internal")].

Definition input : LiveValuesInput :=
  {| lv_owner :=
       {| lo_namespace := "shop";
          lo_producers :=
            [producer "api-id" "api" PRIVATE_DOMAIN_KEY (VariableLiteral "api.internal");
             producer "api-id" "api" "DATABASE_URL" (VariableTemplate
               [PartText "postgres://"; PartRef (OwnerService "db") PRIVATE_DOMAIN_KEY]);
             producer "db-id" "db" PRIVATE_DOMAIN_KEY (VariableLiteral "db.internal")] |};
     lv_lineages := [{| lu_lineage_id := "api"; lu_keys := ["DATABASE_URL"; "UNSET"] |}] |}.

Definition no_key : option (EncryptedSecretValue → Result string unit) := None.

Definition resolved (producers : list SavedVariableProducer) : list VariableProducer :=
  match collect_result (resolver_producer no_key) producers with Ok ps => ps | Err _ => [] end.

Definition live_producers_sample : list VariableProducer := resolved (branch ++ (live_values input).(live_producers)).
(** The owner's producers as read from outside "shop". *)
Definition outside : list SavedVariableProducer :=
  [producer "api-id" "api" PRIVATE_DOMAIN_KEY (VariableLiteral "api.shop.internal");
   producer "api-id" "api" "DATABASE_URL" (VariableTemplate
     [PartText "postgres://"; PartRef (OwnerService "db") PRIVATE_DOMAIN_KEY]);
   producer "db-id" "db" PRIVATE_DOMAIN_KEY (VariableLiteral "db.shop.internal")].
Definition owner_producers_sample : list VariableProducer := resolved outside.

Lemma sample_outside :
  Forall2 (producer_outside "shop") input.(lv_owner).(lo_producers) outside.
Proof.
  assert (∀ host, bytes_any (is_byte ".") host = false →
    address_outside "shop" (host +:+ ".internal") (host +:+ "." +:+ "shop" +:+ ".internal")) as Hqual.
  { intros host Hb. constructor. intros Hd%bytes_any_dotted. congruence. }
  repeat constructor; simpl; try done.
  - by apply (Hqual "api").
  - by apply (Hqual "db").
Qed.

Lemma branch_apart : apart branch input.
Proof.
  split; simpl.
  - intros b p Hb Hp. set_solver.
  - intros b ->%list_elem_of_singleton. vm_compute. set_solver.
  - intros b l ->%list_elem_of_singleton. done.
  - intros l l' Hl. unfold used_lineages in Hl. apply elem_of_bset_of, list_elem_of_singleton in Hl as ->. done.
Qed.
End SampleLive.

(** The Branch's own copy of [db] stays its own; the live [api] reads the owner's. *)
Example sample_live :
  resolve_variables 9 {| rv_parts := [PartRef (OwnerService "api") "DATABASE_URL"; PartText " ";
                                      PartRef (OwnerService "db") PRIVATE_DOMAIN_KEY];
                         rv_self_owner_id := "branch-web"; rv_producers := SampleLive.live_producers_sample |}
  = Some (Resolved "postgres://db.shop.internal db.internal" false []).
Proof. vm_compute. reflexivity. Qed.

Lemma live_values_read_as_owner_witness :
  expands SampleLive.live_producers_sample "branch-web" [PartRef (OwnerService "api") "DATABASE_URL"]
    "postgres://db.shop.internal" false ↔
  expands SampleLive.owner_producers_sample "branch-web" [PartRef (OwnerService "api") "DATABASE_URL"]
    "postgres://db.shop.internal" false.
Proof.
  apply (live_values_read_as_owner SampleLive.no_key SampleLive.branch SampleLive.input
    SampleLive.outside SampleLive.owner_producers_sample SampleLive.live_producers_sample).
  - exact SampleLive.branch_apart.
  - exact SampleLive.sample_outside.
  - vm_compute. reflexivity.
  - vm_compute. reflexivity.
  - vm_compute. left.
Defined.
