(* ===== verification/EnvFile.v ===== *)
(** * Reading [.env] files

    [ployz-core/src/config/env_file.rs]. Text is UTF-8 held as bytes; a character is pushed
    byte by byte, which is the same because the characters the reader looks for are ASCII.
    [parse_lines] takes the number of entries and skipped lines it may read; each consumes a
    line, so the number of lines is enough ([env_file_read]). *)

From S2P Require Import Prelude BTree Strings Decimal RuntimeOutcome VariableTemplate.
From Stdlib Require Import Ascii.

Open Scope string_scope.
Open Scope nat_scope.
Open Scope list_scope.

Record EnvEntry : Type := { env_key : string; env_text : string }.

Definition LF : ascii := Ascii.ascii_of_N 10.
Definition CR : ascii := Ascii.ascii_of_N 13.
Definition TAB : ascii := Ascii.ascii_of_N 9.
Definition QUOTE : ascii := Ascii.ascii_of_N 34.
Definition BACKSLASH : ascii := Ascii.ascii_of_N 92.
(** U+FEFF. *)
Definition BOM : string :=
  String (Ascii.ascii_of_N 239) (String (Ascii.ascii_of_N 187) (String (Ascii.ascii_of_N 191) "")).

(** ** Lines *)

(** [str::lines]: pieces ended by a line feed, or a carriage return and a line feed; the
    last piece is a line of its own only when it is not empty. *)
Definition strip_cr (line : string) : string := default line (strip_suffix (String CR "") line).

Fixpoint lines_of (pieces : list string) : list string :=
  match pieces with
  | [] => []
  | [last] => if str_is_empty last then [] else [last]
  | piece :: pieces => strip_cr piece :: lines_of pieces
  end.

Definition str_lines (text : string) : list string := lines_of (split_byte LF text).

(** ** Quoted values *)

Definition is_char (c d : ascii) : bool := Ascii.eqb c d.

Fixpoint quoted_from (text : string) (quote : ascii) (value : string)
    : Result (option string) string :=
  match text with
  | EmptyString => Ok None
  | String c rest =>
      if is_char c BACKSLASH && is_char quote QUOTE then
        match rest with
        | EmptyString => Ok None
        | String d rest' =>
            quoted_from rest' quote
              (value +:+ String (if is_char d "n" then LF else if is_char d "r" then CR
                                 else if is_char d "t" then TAB else d) "")
        end
      else if is_char c quote then
        let tail := trim rest in
        if negb (str_is_empty tail) && negb (starts_with "#" tail)
        then Err "unexpected text after the closing quote"
        else Ok (Some value)
      else quoted_from rest quote (value +:+ String c "")
  end.

Definition quoted (text : string) (quote : ascii) : Result (option string) string :=
  quoted_from text quote "".

Inductive QuotedRead : Type :=
| QuotedValue (value : string) (lines : list string)
| QuotedBad (message : string)
| QuotedOpen.

(** A quoted value may run onto the next lines until its closing quote. *)
Fixpoint read_quoted (quote : ascii) (rest : string) (lines : list string) : QuotedRead :=
  match quoted rest quote with
  | Err message => QuotedBad message
  | Ok (Some value) => QuotedValue value lines
  | Ok None =>
      match lines with
      | [] => QuotedOpen
      | next :: lines => read_quoted quote (rest +:+ String LF next) lines
      end
  end.

(** ** Entries *)

Definition bad_line (number : nat) (message : string) : ConfigError :=
  ConfigError_at "env" ("Line " +:+ u64_to_string (N.of_nat number) +:+ ": " +:+ message).

Definition valid_env_key (key : string) : bool :=
  starts_with_byte (λ b, is_byte "_" b || is_alphabetic b) key
  && bytes_all (λ b, is_byte "_" b || is_ascii_alphanumeric b) key.

(** [value.split(p).next()]. *)
Definition before (p value : string) : string :=
  match split_once p value with Some (a, _) => a | None => value end.

Definition bare_value (value : string) : string :=
  trim_end (before (String TAB "#") (before " #" value)).

Definition bad_key_message : string :=
  "a variable name is letters, digits and _, not starting with a digit".

Definition unterminated_message (quote : ascii) : string :=
  if is_char quote QUOTE then "unterminated double-quoted value"
  else "unterminated single-quoted value".

(** The value after the equals sign, and the lines left after it. *)
Definition env_value_text (number : nat) (value : string) (lines : list string)
    : Result (string * list string) ConfigError :=
  let quote :=
    match value with
    | String c _ => if is_char c QUOTE || is_char c "'" then Some c else None
    | EmptyString => None
    end in
  match quote with
  | Some quote =>
      match read_quoted quote (default value (strip_prefix (String quote "") value)) lines with
      | QuotedValue text lines => Ok (text, lines)
      | QuotedBad message => Err (bad_line number message)
      | QuotedOpen => Err (bad_line number (unterminated_message quote))
      end
  | None => Ok (bare_value value, lines)
  end.

Definition after_export (line : string) : string :=
  match strip_prefix "export " line with
  | Some rest => trim_start rest
  | None =>
      match strip_prefix ("export" +:+ String TAB "") line with
      | Some rest => trim_start rest
      | None => line
      end
  end.

(** One round of the loop: the entry of a line, if it has one, and the lines left. *)
Definition env_line (number : nat) (raw : string) (lines : list string)
    : Result (option EnvEntry * list string) ConfigError :=
  let line := trim_start raw in
  if str_is_empty (trim_end line) || starts_with "#" line then Ok (None, lines)
  else
    match split_once "=" (after_export line) with
    | None => Err (bad_line number "expected KEY=VALUE")
    | Some (key, value) =>
        let key := trim key in
        if negb (valid_env_key key) then Err (bad_line number bad_key_message)
        else
          let? '(value, lines) := env_value_text number (trim_start value) lines in
          if bytes_any (λ b, (b =? 0)%N) value
          then Err (bad_line number "null characters are not allowed")
          else Ok (Some {| env_key := key; env_text := value |}, lines)
    end.

Fixpoint parse_lines (rounds : nat) (number : nat) (lines : list string) (entries : list EnvEntry)
    : option (Result (list EnvEntry) ConfigError) :=
  match lines with
  | [] => Some (Ok entries)
  | raw :: lines =>
      match rounds with
      | 0 => None
      | S rounds =>
          match env_line number raw lines with
          | Err error => Some (Err error)
          | Ok (entry, remaining) =>
              parse_lines rounds (S number + (length lines - length remaining)) remaining
                (entries ++ option_list entry)
          end
      end
  end.

Definition parse_env_file (rounds : nat) (text : string)
    : option (Result (list EnvEntry) ConfigError) :=
  let text := default text (strip_prefix BOM text) in
  parse_lines rounds 1 (str_lines text) [].

(** ** Samples *)

Definition lf (lines : list string) : string := String.concat (String LF "") lines.

Example read_sample :
  parse_env_file 20 (lf ["A=1"; "# a comment"; "export EXPORTED=yes";
    "QUOTED=" +:+ String QUOTE ("has spaces and # hash" +:+ String QUOTE "");
    "SINGLE='single $NOT'"; "EMPTY="; "MULTI='line1"; "line2'  # done"; "BARE=value # note"])
  = Some (Ok [{| env_key := "A"; env_text := "1" |}; {| env_key := "EXPORTED"; env_text := "yes" |};
      {| env_key := "QUOTED"; env_text := "has spaces and # hash" |};
      {| env_key := "SINGLE"; env_text := "single $NOT" |}; {| env_key := "EMPTY"; env_text := "" |};
      {| env_key := "MULTI"; env_text := lf ["line1"; "line2"] |};
      {| env_key := "BARE"; env_text := "value" |}]).
Proof. vm_compute. reflexivity. Qed.

Example read_bad_sample :
  map (parse_env_file 20)
    [lf ["A=1"; "=novalue"]; "1X=1"; lf ["A=1"; "not a pair"];
     lf ["A='x"; "y'"; "S=" +:+ String QUOTE "secret"; "never closed"]]
  = map (λ e, Some (Err e))
    [bad_line 2 bad_key_message; bad_line 1 bad_key_message; bad_line 2 "expected KEY=VALUE";
     bad_line 3 "unterminated double-quoted value"].
Proof. vm_compute. reflexivity. Qed.

(** ** Reading always ends, in entries or in the number of a bad line *)

Definition env_messages : list string :=
  ["expected KEY=VALUE"; bad_key_message; "unexpected text after the closing quote";
   "unterminated double-quoted value"; "unterminated single-quoted value";
   "null characters are not allowed"].

(** A key is a variable's name and a value can be carried by an environment. *)
Definition entry_ok (entry : EnvEntry) : Prop :=
  valid_env_key entry.(env_key) = true ∧ clean entry.(env_text) = true.

Lemma quoted_Err text quote value message :
  quoted_from text quote value = Err message → message = "unexpected text after the closing quote".
Proof.
  remember (String.length text) as n eqn:Hn. revert text value Hn.
  induction n as [n IH] using lt_wf_ind. intros [|c rest] value ->; [done|]. simpl.
  destruct (is_char c BACKSLASH && is_char quote QUOTE).
  - destruct rest as [|d rest]; [done|]. eapply IH; [|done]. simpl. lia.
  - destruct (is_char c quote); [|eapply IH; [|done]; simpl; lia].
    destruct (_ && _); [|done]. by intros [= <-].
Qed.

Lemma read_quoted_cases quote rest lines :
  match read_quoted quote rest lines with
  | QuotedValue _ remaining => length remaining ≤ length lines
  | QuotedBad message => message ∈ env_messages
  | QuotedOpen => True
  end.
Proof.
  revert rest. induction lines as [|next lines IH]; intros rest; simpl; unfold quoted;
    destruct (quoted_from rest quote "") as [[value|]|message] eqn:Hq; try (simpl; lia || done).
  - apply quoted_Err in Hq as ->. set_solver.
  - specialize (IH (rest +:+ String LF next)). destruct (read_quoted _ _ lines); simpl; [lia|done..].
  - apply quoted_Err in Hq as ->. set_solver.
Qed.

Lemma env_line_cases number raw lines :
  match env_line number raw lines with
  | Ok (entry, remaining) =>
      length remaining ≤ length lines ∧ Forall entry_ok (option_list entry)
  | Err error => ∃ message, message ∈ env_messages ∧ error = bad_line number message
  end.
Proof.
  unfold env_line. destruct (_ || _); [split; [done|constructor]|].
  destruct (split_once "=" _) as [[key value]|]; [|eexists; split; [|done]; set_solver].
  destruct (valid_env_key (trim key)) eqn:Hk; simpl; [|eexists; split; [|done]; set_solver].
  unfold env_value_text. set (quote := match trim_start value with String c _ => _ | EmptyString => None end).
  assert (Hfin : ∀ text (remaining : list string), length remaining ≤ length lines →
    match (if bytes_any (λ b, (b =? 0)%N) text then Err (bad_line number "null characters are not allowed")
           else Ok (Some {| env_key := trim key; env_text := text |}, remaining)) with
    | Ok (entry, remaining) => length remaining ≤ length lines ∧ Forall entry_ok (option_list entry)
    | Err error => ∃ message, message ∈ env_messages ∧ error = bad_line number message
    end).
  { intros text remaining Hlen. destruct (bytes_any _ text) eqn:Hz; [eexists; split; [|done]; set_solver|].
    split; [done|]. apply Forall_singleton. split; [done|]. simpl.
    rewrite bytes_any_all in Hz. by apply negb_false_iff in Hz. }
  destruct quote as [q|]; [|by apply Hfin].
  pose proof (read_quoted_cases q (default (trim_start value) (strip_prefix (String q "") (trim_start value)))
    lines) as Hq.
  destruct (read_quoted q _ lines) as [text remaining|message|]; simpl; [by apply Hfin|by eexists|].
  eexists. split; [|done]. unfold unterminated_message. destruct (is_char q QUOTE); set_solver.
Qed.

Lemma parse_lines_cases rounds number lines entries :
  length lines ≤ rounds →
  match parse_lines rounds number lines entries with
  | Some (Ok out) => ∃ read, out = entries ++ read ∧ Forall entry_ok read
  | Some (Err error) =>
      ∃ n message, number ≤ n < number + length lines ∧ message ∈ env_messages ∧
        error = bad_line n message
  | None => False
  end.
Proof.
  revert number lines entries. induction rounds as [|rounds IH]; intros number lines entries Hr.
  { destruct lines; [|simpl in Hr; lia]. exists []. by rewrite app_nil_r. }
  destruct lines as [|raw lines]; [exists []; by rewrite app_nil_r|]. simpl in Hr |- *.
  pose proof (env_line_cases number raw lines) as Hl.
  destruct (env_line number raw lines) as [[entry remaining]|error].
  - destruct Hl as [Hlen Hok].
    specialize (IH (S number + (length lines - length remaining)) remaining (entries ++ option_list entry)
      ltac:(lia)).
    destruct (parse_lines rounds _ _ _) as [[out|error]|]; [| |done].
    + destruct IH as (read & -> & Hread). exists (option_list entry ++ read).
      rewrite app_assoc. split; [done|]. by apply Forall_app.
    + destruct IH as (n & message & Hn & Hm & ->). exists n, message. split_and!; [lia|lia|done..].
  - destruct Hl as (message & Hm & ->). exists number, message. split_and!; [lia|lia|done..].
Qed.

(** ** Writing entries *)

(** A value inside double quotes. *)
Fixpoint escape_value (value : string) : string :=
  match value with
  | EmptyString => ""
  | String c rest =>
      if is_char c QUOTE || is_char c BACKSLASH then String BACKSLASH (String c (escape_value rest))
      else if is_char c LF then String BACKSLASH (String "n" (escape_value rest))
      else if is_char c CR then String BACKSLASH (String "r" (escape_value rest))
      else String c (escape_value rest)
  end.

Definition write_entry (entry : EnvEntry) : string :=
  entry.(env_key) +:+ "=" +:+ String QUOTE (escape_value entry.(env_text) +:+ String QUOTE "").

Fixpoint write_env_file (entries : list EnvEntry) : string :=
  match entries with
  | [] => ""
  | entry :: entries => write_entry entry +:+ String LF (write_env_file entries)
  end.

Lemma quoted_escape value done :
  quoted_from (escape_value value +:+ String QUOTE "") QUOTE done = Ok (Some (done +:+ value)).
Proof.
  revert done. induction value as [|c value IH]; intros done.
  { cbn [escape_value String.append quoted_from]. by rewrite str_app_nil_r. }
  assert (Hnext : ∀ d, done +:+ String d value = (done +:+ String d "") +:+ value).
  { intros d. by rewrite str_app_assoc. }
  cbn [escape_value]. destruct (is_char c QUOTE || is_char c BACKSLASH) eqn:Hq.
  - cbn [String.append quoted_from]. rewrite IH, Hnext. do 4 f_equal.
    apply orb_true_iff in Hq as [Hq|Hq]; apply Ascii.eqb_eq in Hq as ->; done.
  - apply orb_false_iff in Hq as [Hq Hb].
    destruct (is_char c LF) eqn:Hlf; [|destruct (is_char c CR) eqn:Hcr];
      cbn [String.append quoted_from].
    + apply Ascii.eqb_eq in Hlf as ->. by rewrite IH, Hnext.
    + apply Ascii.eqb_eq in Hcr as ->. by rewrite IH, Hnext.
    + rewrite Hq, Hb. simpl. by rewrite IH, Hnext.
Qed.

Lemma escape_no_lf value : bytes_any (is_byte LF) (escape_value value) = false.
Proof.
  induction value as [|c value IH]; [done|]. cbn [escape_value].
  destruct (is_char c QUOTE || is_char c BACKSLASH) eqn:Hq.
  - cbn [bytes_any]. rewrite IH, !is_byte_spec, orb_false_r.
    apply orb_true_iff in Hq as [Hq|Hq]; by apply Ascii.eqb_eq in Hq as ->.
  - destruct (is_char c LF) eqn:Hlf; [cbn [bytes_any]; by rewrite IH|].
    destruct (is_char c CR); cbn [bytes_any]; [by rewrite IH|].
    rewrite IH, is_byte_spec, Ascii.eqb_sym. unfold is_char in Hlf. by rewrite Hlf.
Qed.

(** What a key is made of. *)
Lemma env_key_bytes key :
  valid_env_key key = true → key_ok key = true.
Proof.
  unfold valid_env_key, key_ok. rewrite !andb_true_iff. intros [Hs Hall]. split.
  - unfold starts_with_byte in *. destruct (first_byte key); [|done]. by rewrite orb_comm.
  - eapply bytes_all_impl; [|exact Hall]. intros b Hb. cbn beta in Hb. unfold is_ident.
    rewrite orb_comm in Hb. by rewrite Hb.
Qed.

Lemma ident_excludes p key :
  (∀ b, is_ident "_" b = true → p b = false) → key_ok key = true → bytes_any p key = false.
Proof.
  intros Hp [_ Hall]%andb_true_iff. rewrite bytes_any_all. apply negb_false_iff.
  eapply bytes_all_impl; [|exact Hall]. intros b Hb. by rewrite Hp.
Qed.

Lemma is_ident_range b : is_ident "_" b = true → (48 <= b < 128)%N ∧ b ≠ 61%N.
Proof.
  unfold is_ident, is_ascii_alphanumeric, is_ascii_digit, is_ascii_lowercase, is_ascii_uppercase,
    byte_between, is_byte. change (byte_of "_") with 95%N. intros Hb.
  repeat (apply orb_true_iff in Hb as [Hb|Hb]);
    repeat (apply andb_true_iff in Hb as [?%N.leb_le ?%N.leb_le]); try apply N.eqb_eq in Hb; lia.
Qed.

Lemma write_entry_lf entry :
  valid_env_key entry.(env_key) = true → bytes_any (is_byte LF) (write_entry entry) = false.
Proof.
  intros Hk%env_key_bytes. unfold write_entry. rewrite bytes_any_app. cbn [String.append bytes_any].
  rewrite bytes_any_app, escape_no_lf. rewrite ident_excludes; [done| |done].
  intros b [Hb _]%is_ident_range. unfold is_byte. change (byte_of LF) with 10%N.
  apply N.eqb_neq. lia.
Qed.

Lemma write_entry_cr entry : strip_cr (write_entry entry) = write_entry entry.
Proof.
  unfold strip_cr. destruct (strip_suffix _ _) as [line|] eqn:Hs; [|done]. exfalso.
  apply strip_suffix_Some in Hs. apply (f_equal last_byte) in Hs.
  unfold write_entry in Hs. rewrite !last_byte_app in Hs; [|done..].
  change (String QUOTE (escape_value (env_text entry) +:+ String QUOTE ""))
    with (String QUOTE (escape_value (env_text entry)) +:+ String QUOTE "") in Hs.
  rewrite last_byte_app in Hs by done. done.
Qed.

Lemma written_lines entries :
  Forall entry_ok entries → str_lines (write_env_file entries) = map write_entry entries.
Proof.
  unfold str_lines. induction 1 as [|entry entries [Hk _] _ IH]; [done|]. cbn [write_env_file map].
  rewrite split_byte_app by (by apply write_entry_lf).
  destruct (split_byte_cons LF (write_env_file entries)) as (piece & pieces & Hp). rewrite Hp in *.
  cbn [lines_of]. rewrite write_entry_cr. f_equal. exact IH.
Qed.

Lemma trim_end_id s c :
  is_ws1 (byte_of c) = false → is_ascii (byte_of c) = true → trim_end (s +:+ String c "") = s +:+ String c "".
Proof.
  intros Hws Hasc%N.ltb_lt. unfold trim_end. rewrite str_rev_app. cbn [str_rev str_rev_onto String.append].
  rewrite <- (str_rev_involutive (s +:+ String c "")), str_rev_app. f_equal.
  change (str_rev (String c "") +:+ str_rev s) with (String c (str_rev s)).
  destruct (str_rev s) as [|b r]; cbn [trim_front]; rewrite Hws; [done|].
  assert (is_ws2 (byte_of b) (byte_of c) = false) as ->.
  { unfold is_ws2. destruct (N.eqb_spec (byte_of c) 133), (N.eqb_spec (byte_of c) 160); lia. }
  destruct r as [|a r]; [done|].
  assert (is_ws3 (byte_of a) (byte_of b) (byte_of c) = false) as ->; [|done].
  unfold is_ws3, byte_between.
  repeat match goal with
  | |- context [(byte_of c =? ?n)%N] => destruct (N.eqb_spec (byte_of c) n); [lia|]
  | |- context [(?n <=? byte_of c)%N] => destruct (N.leb_spec n (byte_of c)); [lia|]
  end. by rewrite !andb_false_r.
Qed.

Lemma ident_prefix key rest p rest' :
  bytes_all (is_ident "_") key = true → starts_with_byte (is_ident "_") rest = false →
  bytes_all (is_ident "_") p = true → starts_with_byte (is_ident "_") rest' = false →
  key +:+ rest = p +:+ rest' → key = p ∧ rest = rest'.
Proof.
  intros Hk Hr Hp Hr' Heq. pose proof (identifier_stops "_" key rest Hk Hr) as H1.
  rewrite Heq, identifier_stops in H1 by done. by simplify_eq.
Qed.

Lemma not_export key rest ws :
  key_ok key = true → (ws = " "%char ∨ ws = TAB) →
  strip_prefix ("export" +:+ String ws "") (key +:+ "=" +:+ rest) = None.
Proof.
  intros Hk Hws. destruct (strip_prefix _ _) as [r|] eqn:Hs; [|done]. exfalso.
  apply strip_prefix_Some in Hs. rewrite str_app_assoc in Hs.
  apply andb_true_iff in Hk as [_ Hall].
  apply ident_prefix in Hs as [_ Heq]; [|done|done|done|by destruct Hws as [->| ->]].
  cbn in Heq. destruct Hws as [->| ->]; discriminate.
Qed.

Lemma key_ok_trim key : key_ok key = true → trim key = key.
Proof.
  intros Hk. apply trim_id.
  - pose proof (proj2 (proj1 (andb_true_iff _ _) Hk)) as Hall. eapply bytes_all_impl; [|exact Hall].
    intros b [Hb _]%is_ident_range. apply N.ltb_lt. lia.
  - apply no_ws_trimmed, ident_excludes; [|done]. intros b [Hb _]%is_ident_range.
    unfold is_ws1, byte_between. destruct (N.leb_spec 9 b), (N.leb_spec b 13), (N.eqb_spec b 32); done || lia.
Qed.

Lemma env_line_written number entry lines :
  entry_ok entry → env_line number (write_entry entry) lines = Ok (Some entry, lines).
Proof.
  intros [Hv Hclean]. pose proof (env_key_bytes _ Hv) as Hk.
  destruct (key_ok_head _ Hk) as (c & key' & Hkey & Hws & Hasc).
  assert (Hstart : trim_start (write_entry entry) = write_entry entry).
  { unfold write_entry. rewrite Hkey. cbn [String.append]. by apply trim_start_id. }
  unfold env_line. rewrite Hstart.
  assert (Hend : trim_end (write_entry entry) = write_entry entry).
  { unfold write_entry. rewrite <- (str_app_assoc (env_key entry)).
    change (String QUOTE (escape_value (env_text entry) +:+ String QUOTE ""))
      with (String QUOTE (escape_value (env_text entry)) +:+ String QUOTE "").
    rewrite <- str_app_assoc. by apply trim_end_id. }
  rewrite Hend.
  assert (str_is_empty (write_entry entry) || starts_with "#" (write_entry entry) = false) as ->.
  { unfold write_entry. rewrite Hkey. unfold key_ok in Hk. rewrite Hkey in Hk.
    destruct c as [[] [] [] [] [] [] [] []]; vm_compute in Hk |- *; done. }
  assert (after_export (write_entry entry) = write_entry entry) as ->.
  { unfold after_export, write_entry. change "export " with ("export" +:+ String " " "").
    rewrite not_export by auto. by rewrite not_export by auto. }
  change (write_entry entry) with (env_key entry +:+ String "=" (String QUOTE
    (escape_value (env_text entry) +:+ String QUOTE ""))).
  rewrite split_once_char.
  2: { apply ident_excludes; [|done]. intros b [_ Hb]%is_ident_range. apply N.eqb_neq. done. }
  rewrite key_ok_trim, Hv by done. cbn [negb].
  rewrite trim_start_id by done. unfold env_value_text.
  change (is_char QUOTE QUOTE || is_char QUOTE "'") with true. cbn iota.
  assert (strip_prefix (String QUOTE "") (String QUOTE (escape_value (env_text entry) +:+ String QUOTE ""))
    = Some (escape_value (env_text entry) +:+ String QUOTE "")) as -> by done. cbn [from_option id].
  assert (Hread : read_quoted QUOTE (escape_value (env_text entry) +:+ String QUOTE "") lines
    = QuotedValue (env_text entry) lines).
  { destruct lines; cbn [read_quoted]; unfold quoted; by rewrite quoted_escape. }
  rewrite Hread. cbn [result_bind]. rewrite bytes_any_all, Hclean. by destruct entry.
Qed.

Lemma parse_lines_written rounds number entries read :
  Forall entry_ok entries → length entries ≤ rounds →
  parse_lines rounds number (map write_entry entries) read = Some (Ok (read ++ entries)).
Proof.
  intros Hall. revert rounds number read.
  induction Hall as [|entry entries Hok _ IH]; intros rounds number read Hr.
  { destruct rounds; simpl; by rewrite app_nil_r. }
  destruct rounds as [|rounds]; [simpl in Hr; lia|]. cbn [map parse_lines].
  rewrite env_line_written by done. rewrite IH by (simpl in Hr; lia).
  by rewrite <- app_assoc.
Qed.

(** ** The theorems *)

(** Reading a [.env] text always ends: either in entries whose keys are variable names
    and whose values can be carried by an environment, or in an error that names the number
    of one of the lines and one of six fixed messages, never text of the file, which may be
    a secret. *)
Theorem env_file_read rounds text :
  length (str_lines (default text (strip_prefix BOM text))) ≤ rounds →
  match parse_env_file rounds text with
  | Some (Ok entries) => Forall entry_ok entries
  | Some (Err error) =>
      ∃ n message, 1 ≤ n ≤ length (str_lines (default text (strip_prefix BOM text))) ∧
        message ∈ env_messages ∧ error = bad_line n message
  | None => False
  end.
Proof.
  intros Hr. unfold parse_env_file. pose proof (parse_lines_cases rounds 1 _ [] Hr) as Hp.
  destruct (parse_lines _ _ _ _) as [[out|error]|]; [| |done].
  - by destruct Hp as (read & -> & Hok).
  - destruct Hp as (n & message & Hn & Hm & ->). exists n, message. split_and!; [lia|lia|done..].
Qed.

(** Every list of variables can be written to a [.env] text and is read back exactly,
    line feeds, quotes, backslashes, carriage returns and comment signs in the values
    included. *)
Theorem env_file_roundtrip rounds entries :
  Forall entry_ok entries → length entries ≤ rounds →
  parse_env_file rounds (write_env_file entries) = Some (Ok entries).
Proof.
  intros Hok Hr. unfold parse_env_file.
  assert (strip_prefix BOM (write_env_file entries) = None) as ->.
  { destruct Hok as [|entry entries [Hv _] _]; [done|]. cbn [write_env_file]. unfold write_entry.
    destruct (key_ok_head _ (env_key_bytes _ Hv)) as (c & key & -> & _ & Hasc).
    cbn [String.append strip_prefix BOM]. destruct (Ascii.eqb_spec (Ascii.ascii_of_N 239) c) as [<-|]; [|done].
    done. }
  cbn [from_option id]. rewrite written_lines by done. by apply parse_lines_written.
Qed.

Definition sample_entries : list EnvEntry :=
  [{| env_key := "TOKEN"; env_text := "a" +:+ String QUOTE ("b # c\" +:+ String LF "d") |};
   {| env_key := "_x9"; env_text := "" |}].

Lemma env_file_read_witness :
  Forall entry_ok (match parse_env_file 5 (write_env_file sample_entries) with
                   | Some (Ok entries) => entries | _ => [] end).
Proof.
  assert (Hr : length (str_lines (default (write_env_file sample_entries)
    (strip_prefix BOM (write_env_file sample_entries)))) ≤ 5) by (vm_compute; lia).
  pose proof (env_file_read 5 (write_env_file sample_entries) Hr) as H.
  destruct (parse_env_file 5 (write_env_file sample_entries)) as [[entries|]|]; [exact H|constructor..].
Defined.

Lemma env_file_roundtrip_witness :
  parse_env_file 2 (write_env_file sample_entries) = Some (Ok sample_entries).
Proof.
  apply (env_file_roundtrip 2 sample_entries).
  - repeat constructor.
  - vm_compute. lia.
Defined.
