(* ===== verification/Quantities.v ===== *)
(** * CPU and memory quantities

    [ployz-core/src/domain/resources.rs] and the arithmetic of the limits in
    [config/lowering.rs]: an [f64] is its bits ([Config]), its product is IEEE 754
    multiplication, rounded to nearest even, and a cast to [i64] truncates and saturates. *)

From S2P Require Import Prelude Values Issuance Spec RuntimeOutcome Config ConfigValidation.
From Stdlib Require Import SpecFloat.

Open Scope Z_scope.

(** ** The [f64] of its bits *)

Definition f64_of_bits (bits : N) : spec_float :=
  let sign := N.testbit bits 63 in
  let exponent := Z.of_N (N.land (N.shiftr bits 52) 2047) in
  let mantissa := N.land bits (2 ^ 52 - 1) in
  if exponent =? 2047 then
    if (mantissa =? 0)%N then S754_infinity sign else S754_nan
  else if exponent =? 0 then
    match mantissa with
    | N0 => S754_zero sign
    | Npos m => S754_finite sign m (-1074)
    end
  else
    match (2 ^ 52 + mantissa)%N with
    | N0 => S754_nan
    | Npos m => S754_finite sign m (exponent - 1075)
    end.

Definition f64_mul : spec_float → spec_float → spec_float := SFmul 53 1024.

(** [1e9] and [2^63]. *)
Definition f64_giga : spec_float := f64_of_bits 4741671816366391296.
Definition f64_two63 : spec_float := f64_of_bits 4890909195324358656.

Definition i64_min : Z := - 2 ^ 63.

(** The integer part of a finite number. *)
Definition truncate (m : positive) (e : Z) : Z :=
  if 0 <=? e then Z.shiftl (Zpos m) e else Z.shiftr (Zpos m) (- e).

(** [f as i64]. *)
Definition f64_as_i64 (f : spec_float) : Z :=
  match f with
  | S754_nan | S754_zero _ => 0
  | S754_infinity sign => if sign then i64_min else i64_max
  | S754_finite sign m e =>
      if sign then Z.max i64_min (- truncate m e) else Z.min i64_max (truncate m e)
  end.

(** ** Conversions *)

(** The text of the refused number is dropped by the caller. *)
Definition CpuNanos_from_cpus (cpus : N) : option Z :=
  let cpus := f64_of_bits cpus in
  let nanos := f64_mul cpus f64_giga in
  if negb (f64_is_finite cpus) || SFltb cpus (S754_zero false) || SFleb f64_two63 nanos then None
  else result_ok (CpuNanos_try_from (f64_as_i64 nanos)).

(** [(gb * 1_000_000_000.0) as i64]. *)
Definition memory_limit_bytes (gb : N) : Z := f64_as_i64 (f64_mul (f64_of_bits gb) f64_giga).

Example half_cpu : CpuNanos_from_cpus 4602678819172646912 = Some 500000000.
Proof. reflexivity. Qed.
(** [0.1] and [64.0]. *)
Example tenth_cpu : CpuNanos_from_cpus 4591870180066957722 = Some 100000000.
Proof. reflexivity. Qed.
Example all_cpus : CpuNanos_from_cpus 4634204016564240384 = Some 64000000000.
Proof. reflexivity. Qed.
Example tiny_cpu : CpuNanos_from_cpus 1 = Some 0.
Proof. vm_compute. reflexivity. Qed.
Example negative_cpu : CpuNanos_from_cpus 13830554455654793216 = None.
Proof. reflexivity. Qed.

(** ** Shifting with a sticky bit *)

Lemma iter_pos_nat {A} (f : A → A) p x : iter_pos f p x = Nat.iter (Pos.to_nat p) f x.
Proof.
  revert x. induction p as [p IH|p IH|]; intros x; cbn [iter_pos]; [| |done];
    rewrite !IH, <- Nat.iter_add.
  - rewrite <- Nat.iter_succ_r. f_equal. lia.
  - f_equal. lia.
Qed.

(** [mrs] is [m] shifted right by [n] bits: the quotient, and whether anything was lost. *)
Definition shifted (m : Z) (n : Z) (mrs : shr_record) : Prop :=
  shr_m mrs = m / 2 ^ n ∧ (shr_r mrs || shr_s mrs = false ↔ m mod 2 ^ n = 0).

Lemma shr_1_half m r s :
  0 ≤ m →
  shr_m (shr_1 (Build_shr_record m r s)) = m / 2 ∧
  shr_r (shr_1 (Build_shr_record m r s)) = Z.odd m ∧
  shr_s (shr_1 (Build_shr_record m r s)) = r || s.
Proof.
  intros Hm. rewrite <- Z.div2_div. destruct m as [|[p|p|]|p]; simpl; try done; lia.
Qed.

Lemma shr_1_shifted m n mrs : 0 ≤ m → 0 ≤ n → shifted m n mrs → shifted m (Z.succ n) (shr_1 mrs).
Proof.
  intros Hm Hn [Hq Hl]. destruct mrs as [q r s]. simpl in Hq, Hl.
  assert (0 ≤ q) as Hq0 by (subst q; apply Z.div_pos; lia).
  destruct (shr_1_half q r s Hq0) as (Hm' & Hr & Hs). unfold shifted. rewrite Hm', Hr, Hs.
  assert (0 < 2 ^ n) as Hp by (by apply Z.pow_pos_nonneg).
  rewrite Z.pow_succ_r, (Z.mul_comm 2) by done. split.
  - rewrite Hq, Z.div_div by lia. done.
  - rewrite Z.rem_mul_r by lia. rewrite <- Hq, orb_false_iff, Hl, Zmod_odd.
    pose proof (Z.mod_pos_bound m (2 ^ n) Hp). destruct (Z.odd q); split; [by intros [? ?]|nia|nia|].
    intros. split; [done|nia].
Qed.

Lemma shr_shifted m e n :
  0 ≤ m → ∃ mrs, shr (shr_record_of_loc m loc_Exact) e n = (mrs, e + Z.max 0 n) ∧
                 shifted m (Z.max 0 n) mrs.
Proof.
  intros Hm. assert (Hiter : ∀ k, shifted m (Z.of_nat k) (Nat.iter k shr_1 (Build_shr_record m false false))).
  { induction k as [|k IH].
    - split; simpl; [by rewrite Z.div_1_r|by rewrite Z.mod_1_r].
    - rewrite Nat2Z.inj_succ. simpl. apply shr_1_shifted; [done|lia|exact IH]. }
  destruct n as [|p|p].
  - eexists. simpl. rewrite Z.add_0_r. split; [done|]. apply (Hiter 0%nat).
  - eexists. simpl. split; [done|].
    replace (0 `max` Zpos p) with (Z.of_nat (Pos.to_nat p)) by lia. rewrite iter_pos_nat. apply Hiter.
  - eexists. simpl. rewrite Z.add_0_r. split; [done|]. apply (Hiter 0%nat).
Qed.

(** ** Rounding a product *)

(** The digits of a number bound it. *)
Lemma digits2_bounds p : 2 ^ (Zpos (digits2_pos p) - 1) ≤ Zpos p < 2 ^ Zpos (digits2_pos p).
Proof.
  induction p as [p IH|p IH|]; cbn [digits2_pos]; [| |done];
    rewrite Pos2Z.inj_succ; replace (Z.succ _ - 1) with (Z.succ (Zpos (digits2_pos p) - 1)) by lia;
    rewrite !Z.pow_succ_r by lia; lia.
Qed.

Lemma Zdigits2_bound m n : 0 ≤ m → 0 ≤ n → Zdigits2 m ≤ n ↔ m < 2 ^ n.
Proof.
  intros Hm Hn. destruct m as [|p|p]; [|simpl|lia].
  - simpl. split; [intros; by apply Z.pow_pos_nonneg|done].
  - pose proof (digits2_bounds p) as [Hlo Hhi]. split; intros H.
    + eapply Z.lt_le_trans; [exact Hhi|]. apply Z.pow_le_mono_r; lia.
    + assert (2 ^ (Zpos (digits2_pos p) - 1) < 2 ^ n) as Hlt by lia.
      apply Z.pow_lt_mono_r_iff in Hlt; lia.
Qed.

(** A rounded mantissa is the quotient, or the next number when something was lost. *)
Lemma round_shifted m n mrs :
  shifted m n mrs →
  let r := round_nearest_even (shr_m mrs) (loc_of_shr_record mrs) in
  m / 2 ^ n ≤ r ∧ r ≤ m / 2 ^ n + (if m mod 2 ^ n =? 0 then 0 else 1).
Proof.
  intros [Hq Hl]. destruct mrs as [q r s]. simpl in Hq, Hl. rewrite <- Hq.
  destruct (Z.eqb_spec (m mod 2 ^ n) 0) as [Hz|Hz].
  - apply Hl in Hz. destruct r, s; try done. simpl. lia.
  - destruct r, s; simpl in *; try (destruct (Z.even q)); lia || (by destruct Hz; apply Hl).
Qed.

Lemma truncate_spec m e : e ≤ 0 → truncate m e = Zpos m / 2 ^ (- e).
Proof.
  intros He. unfold truncate. destruct (Z.leb_spec 0 e) as [H0|H0].
  - replace e with 0 by lia. by rewrite Z.div_1_r.
  - apply Z.shiftr_div_pow2. lia.
Qed.

(** The first shift leaves at most 53 digits, at an exponent [e] no smaller than [emin]; a
    carry of the rounding is shifted out exactly. *)
Lemma round_aux_value m ex :
  0 < m → ex < 0 → m < 2 ^ (52 - ex) →
  ∃ n r, 0 ≤ n ∧ ex + n < 0 ∧ m / 2 ^ n ≤ r ≤ m / 2 ^ n + (if m mod 2 ^ n =? 0 then 0 else 1) ∧
    (binary_round_aux 53 1024 false m ex loc_Exact = S754_zero false ∧ r = 0 ∨
     ∃ p e, binary_round_aux 53 1024 false m ex loc_Exact = S754_finite false p e ∧ e ≤ 0 ∧
            Zpos p / 2 ^ (- e) = r / 2 ^ (- (ex + n))).
Proof.
  intros Hm Hex Hlt. unfold binary_round_aux, shr_fexp, fexp.
  change (emin 53 1024) with (-1074).
  set (n := Z.max (Zdigits2 m + ex - 53) (-1074) - ex).
  destruct (shr_shifted m ex n) as (mrs & Hshr & Hs); [lia|]. rewrite Hshr.
  set (k := Z.max 0 n) in *. pose proof (round_shifted _ _ _ Hs) as Hr. simpl in Hr.
  set (r := round_nearest_even _ _) in *.
  assert (Hdig : Zdigits2 m ≤ 52 - ex) by (apply Zdigits2_bound; lia).
  assert (0 < 2 ^ k) as Hpk by (apply Z.pow_pos_nonneg; lia).
  assert (Hq : 0 ≤ m / 2 ^ k) by (apply Z.div_pos; lia).
  assert (Hq53 : m / 2 ^ k < 2 ^ 53).
  { apply Z.div_lt_upper_bound; [done|]. rewrite <- Z.pow_add_r by lia. apply Zdigits2_bound; lia. }
  assert (Hr53 : 0 ≤ r ≤ 2 ^ 53) by (destruct (_ =? 0); lia).
  exists k, r. split; [lia|]. split; [lia|]. split; [done|].
  destruct (shr_shifted r (ex + k) (Z.max (Zdigits2 r + (ex + k) - 53) (-1074) - (ex + k)))
    as (mrs2 & Hshr2 & Hs2); [lia|]. rewrite Hshr2.
  destruct Hs2 as [Hm2 _]. destruct (decide (r = 2 ^ 53)) as [Hcarry|Hcarry].
  - assert (Z.max 0 (Z.max (Zdigits2 r + (ex + k) - 53) (-1074) - (ex + k)) = 1) as Hk2.
    { rewrite Hcarry. change (Zdigits2 (2 ^ 53)) with 54. lia. }
    rewrite Hk2 in *. rewrite Hm2, Hcarry. right. exists (2 ^ 52)%positive, (ex + k + 1).
    change (2 ^ 53 / 2 ^ 1) with (Zpos (2 ^ 52)). cbn iota beta.
    rewrite (proj2 (Z.leb_le (ex + k + 1) (1024 - 53))) by lia. split; [done|]. split; [lia|].
    replace (- (ex + k)) with (Z.succ (- (ex + k + 1))) by lia.
    rewrite Z.pow_succ_r, <- Z.div_div by (lia || (apply Z.pow_pos_nonneg; lia)). done.
  - assert (Zdigits2 r ≤ 53) as Hd by (apply Zdigits2_bound; lia).
    assert (Z.max 0 (Z.max (Zdigits2 r + (ex + k) - 53) (-1074) - (ex + k)) = 0) as Hk2 by lia.
    rewrite Hk2, Z.add_0_r in *. rewrite Hm2, Z.div_1_r. destruct r as [|q|q] eqn:Hreq; [by left| |lia].
    right. exists q, (ex + k). rewrite (proj2 (Z.leb_le (ex + k) (1024 - 53))) by lia.
    split; [done|]. split; [lia|done].
Qed.

(** The cast of a rounded product is the product's integer part, or the next number when the
    product is not whole. *)
Lemma product_cast m ex :
  0 < m → ex < 0 → m < 2 ^ (52 - ex) →
  let f := binary_round_aux 53 1024 false m ex loc_Exact in
  let whole := m / 2 ^ (- ex) in
  SFleb f64_two63 f = false ∧
  whole ≤ f64_as_i64 f ≤ whole + (if m mod 2 ^ (- ex) =? 0 then 0 else 1).
Proof.
  intros Hm Hex Hlt. destruct (round_aux_value m ex) as (n & r & Hn & Hneg & Hr & Hf); [done..|].
  cbv zeta. set (f := binary_round_aux _ _ _ _ _ _) in *. clearbody f.
  assert (0 < 2 ^ n) as Hpn by (apply Z.pow_pos_nonneg; lia).
  assert (0 < 2 ^ (- (ex + n))) as Hpe by (apply Z.pow_pos_nonneg; lia).
  assert (Hsplit : 2 ^ (- ex) = 2 ^ n * 2 ^ (- (ex + n))) by (rewrite <- Z.pow_add_r by lia; f_equal; lia).
  assert (Hwhole : m / 2 ^ (- ex) = m / 2 ^ n / 2 ^ (- (ex + n))) by (rewrite Hsplit, Z.div_div; lia).
  assert (Hbound : m / 2 ^ (- ex) ≤ r / 2 ^ (- (ex + n))
    ≤ m / 2 ^ (- ex) + (if m mod 2 ^ (- ex) =? 0 then 0 else 1)).
  { rewrite Hwhole. split; [apply Z.div_le_mono; lia|].
    destruct (Z.eqb_spec (m mod 2 ^ (- ex)) 0) as [Hz|Hz].
    - rewrite Hsplit, Z.rem_mul_r in Hz by lia.
      pose proof (Z.mod_pos_bound m (2 ^ n) Hpn). pose proof (Z.mod_pos_bound (m / 2 ^ n) _ Hpe).
      rewrite (proj2 (Z.eqb_eq (m mod 2 ^ n) 0)) in Hr by nia.
      rewrite Z.add_0_r. apply Z.div_le_mono; lia.
    - transitivity ((m / 2 ^ n + 1 * 2 ^ (- (ex + n))) / 2 ^ (- (ex + n))).
      + apply Z.div_le_mono; [done|]. destruct (_ =? 0); lia.
      + rewrite Z.div_add by lia. done. }
  assert (Hsmall : m / 2 ^ (- ex) < 2 ^ 52).
  { apply Z.div_lt_upper_bound; [apply Z.pow_pos_nonneg; lia|]. rewrite <- Z.pow_add_r by lia.
    eapply Z.lt_le_trans; [exact Hlt|]. apply Z.pow_le_mono_r; lia. }
  destruct Hf as [[-> Hz]|(p & e & -> & He & Hp)].
  - split; [done|]. rewrite Hz, Z.div_0_l in Hbound by lia. exact Hbound.
  - split.
    + unfold SFleb, SFcompare. change f64_two63 with (S754_finite false 4503599627370496 11).
      cbn iota. rewrite (proj2 (Z.compare_gt_iff 11 e)) by lia. done.
    + cbn [f64_as_i64]. rewrite truncate_spec, Hp by done. unfold i64_max.
      rewrite Z.min_r; [done|]. destruct (m mod 2 ^ (- ex) =? 0); lia.
Qed.

(** ** Admitted limits *)

(** The bits of a positive number up to [2 ^ k] decode to a positive mantissa under it. *)
Lemma positive_bits bits k :
  (0 < bits)%N → 0 ≤ k ≤ 20 → (bits ≤ Z.to_N (1023 + k) * 2 ^ 52)%N →
  ∃ m e, f64_of_bits bits = S754_finite false m e ∧ e < 0 ∧ Zpos m ≤ 2 ^ (k - e) ∧
         (Zpos m < 2 ^ 53).
Proof.
  intros Hpos Hk Hmax. unfold f64_of_bits.
  rewrite (N.shiftr_div_pow2 bits 52). change (2 ^ 52 - 1)%N with (N.ones 52).
  change 2047%N with (N.ones 11). rewrite !N.land_ones.
  pose proof (N.div_mod bits (2 ^ 52) ltac:(done)) as Hdiv.
  pose proof (N.mod_lt bits (2 ^ 52) ltac:(done)) as Hlt.
  set (q := (bits / 2 ^ 52)%N) in *. set (r := (bits mod 2 ^ 52)%N) in *.
  assert (Hq : Z.of_N q ≤ 1023 + k ∧ (Z.of_N q = 1023 + k → r = 0%N)) by lia.
  assert (N.testbit bits 63 = false) as ->.
  { rewrite N.testbit_eqb, N.div_small; [done|]. change (2 ^ 63)%N with (2048 * 2 ^ 52)%N. lia. }
  rewrite (N.mod_small q) by (change (2 ^ 11)%N with 2048%N; lia).
  destruct (Z.eqb_spec (Z.of_N q) 2047); [lia|]. destruct (Z.eqb_spec (Z.of_N q) 0) as [H0|H0].
  - destruct r as [|m] eqn:Hr; [lia|]. exists m, (-1074). split_and!; [done..| |].
    + transitivity (2 ^ 53); [|apply Z.pow_le_mono_r]; lia.
    + lia.
  - destruct (2 ^ 52 + r)%N as [|m] eqn:Hm; [lia|]. exists m, (Z.of_N q - 1075).
    assert (Zpos m = 2 ^ 52 + Z.of_N r) as Hmz by lia. split_and!; [done|lia| |lia].
    destruct (decide (Z.of_N q = 1023 + k)) as [He|He].
    + rewrite (proj2 Hq He) in Hmz. rewrite Hmz, He. simpl Z.of_N.
      replace (k - (1023 + k - 1075)) with 52 by lia. lia.
    + transitivity (2 ^ 53); [lia|]. apply Z.pow_le_mono_r; lia.
Qed.

Lemma giga_value : f64_giga = S754_finite false 8388608000000000 (-23).
Proof. reflexivity. Qed.

(** A positive number up to [2 ^ k], times [1e9] and cast: its exact integer part or the next
    number, so never above [2 ^ k] times [1e9]. *)
Lemma giga_cast bits k :
  (0 < bits)%N → 0 ≤ k ≤ 20 → (bits ≤ Z.to_N (1023 + k) * 2 ^ 52)%N →
  ∃ m e, f64_of_bits bits = S754_finite false m e ∧ e < 0 ∧
    let f := f64_mul (f64_of_bits bits) f64_giga in
    let whole := Zpos m * 10 ^ 9 / 2 ^ (- e) in
    SFleb f64_two63 f = false ∧
    whole ≤ f64_as_i64 f ≤ whole + (if Zpos m * 10 ^ 9 mod 2 ^ (- e) =? 0 then 0 else 1) ∧
    f64_as_i64 f ≤ 2 ^ k * 10 ^ 9.
Proof.
  intros Hpos Hk Hmax. destruct (positive_bits bits k) as (m & e & Hb & He & Hle & Hm); [done..|].
  exists m, e. split; [done|]. split; [done|]. rewrite Hb, giga_value. unfold f64_mul, SFmul.
  cbn [xorb]. rewrite Pos2Z.inj_mul.
  assert (Hp : 0 < 2 ^ (- e)) by (apply Z.pow_pos_nonneg; lia).
  assert (Hscale : 2 ^ (- (e + -23)) = 2 ^ (- e) * 2 ^ 23)
    by (rewrite <- Z.pow_add_r by lia; f_equal; lia).
  assert (Hle' : Zpos m ≤ 2 ^ k * 2 ^ (- e)) by (rewrite <- Z.pow_add_r by lia; exact Hle).
  assert (Hk20 : 2 ^ k ≤ 2 ^ 20) by (apply Z.pow_le_mono_r; lia).
  destruct (product_cast (Zpos m * 8388608000000000) (e + -23)) as [Hf Hc]; [lia|lia| |].
  { replace (52 - (e + -23)) with (75 + (- e)) by lia. rewrite Z.pow_add_r by lia.
    change (2 ^ 75) with (2 ^ 20 * 36028797018963968). nia. }
  split; [exact Hf|]. cbv zeta in Hc. rewrite Hscale in Hc.
  replace (Zpos m * 8388608000000000) with (Zpos m * 10 ^ 9 * 2 ^ 23) in * by lia.
  rewrite Z.div_mul_cancel_r in Hc by lia. rewrite Z.mul_mod_distr_r in Hc by lia.
  set (f := binary_round_aux _ _ _ _ _ _) in *. clearbody f.
  set (x := Zpos m * 10 ^ 9) in *.
  assert (Hmod : (x mod 2 ^ (- e) * 2 ^ 23 =? 0) = (x mod 2 ^ (- e) =? 0)).
  { destruct (Z.eqb_spec (x mod 2 ^ (- e)) 0) as [->|Hz]; [done|]. apply Z.eqb_neq. lia. }
  rewrite Hmod in Hc. split; [exact Hc|]. etrans; [apply Hc|].
  pose proof (Z.div_mod x (2 ^ (- e)) ltac:(lia)) as Hx.
  pose proof (Z.mod_pos_bound x (2 ^ (- e)) Hp).
  destruct (Z.eqb_spec (x mod 2 ^ (- e)) 0); unfold x in *; nia.
Qed.

(** [n] is the integer part of [f] times [1e9], or the next number when the product is not
    whole. *)
Definition near_giga (f : spec_float) (n : Z) : Prop :=
  match f with
  | S754_finite false m e =>
      let whole := Zpos m * 10 ^ 9 / 2 ^ (- e) in
      e < 0 ∧ whole ≤ n ≤ whole + (if Zpos m * 10 ^ 9 mod 2 ^ (- e) =? 0 then 0 else 1)
  | _ => False
  end.

Lemma limit_Ok bits max path : limit (Some bits) max path = Ok () → (0 < bits ≤ max)%N.
Proof.
  unfold limit, range. destruct (N.ltb_spec 0 bits), (N.leb_spec bits max); simpl; done || lia.
Qed.

Lemma admitted_cpu_converts bits :
  limit (Some bits) CPU_LIMIT_MAX "cpuLimit" = Ok () →
  ∃ nanos, CpuNanos_from_cpus bits = Some nanos ∧ near_giga (f64_of_bits bits) nanos ∧
           0 ≤ nanos ≤ 64 * 10 ^ 9.
Proof.
  intros [Hpos Hmax]%limit_Ok.
  destruct (giga_cast bits 6) as (m & e & Hb & He & Hf & Hn & Hle); [done..|].
  assert (0 ≤ f64_as_i64 (f64_mul (f64_of_bits bits) f64_giga)) as H0.
  { etrans; [|apply Hn]. apply Z.div_pos; [lia|]. apply Z.pow_pos_nonneg; lia. }
  exists (f64_as_i64 (f64_mul (f64_of_bits bits) f64_giga)). split; [|split].
  - unfold CpuNanos_from_cpus. rewrite Hf, Hb. cbn [f64_is_finite negb orb SFltb SFcompare].
    rewrite <- Hb. unfold CpuNanos_try_from. by rewrite (proj2 (Z.ltb_ge _ 0) H0).
  - rewrite Hb in *. split; [done|exact Hn].
  - split; [done|exact Hle].
Qed.

Lemma admitted_memory_converts bits :
  limit (Some bits) MEM_LIMIT_MAX "memLimit" = Ok () →
  near_giga (f64_of_bits bits) (memory_limit_bytes bits) ∧
  0 ≤ memory_limit_bytes bits ≤ 1024 * 10 ^ 9.
Proof.
  intros [Hpos Hmax]%limit_Ok.
  destruct (giga_cast bits 10) as (m & e & Hb & He & Hf & Hn & Hle); [done..|].
  unfold memory_limit_bytes. split; [|split].
  - rewrite Hb in *. split; [done|exact Hn].
  - etrans; [|apply Hn]. apply Z.div_pos; [lia|]. apply Z.pow_pos_nonneg; lia.
  - exact Hle.
Qed.

(** C28: an admitted CPU limit always converts, and an admitted memory limit never saturates:
    the nanounits, and the bytes, are the integer part of the exact product with [1e9], or the
    next number when the product is not whole, so at most 64 CPUs and 1024 GB. *)
Theorem admitted_limits_convert bits :
  (limit (Some bits) CPU_LIMIT_MAX "cpuLimit" = Ok () →
   ∃ nanos, CpuNanos_from_cpus bits = Some nanos ∧ near_giga (f64_of_bits bits) nanos ∧
            0 ≤ nanos ≤ 64 * 10 ^ 9) ∧
  (limit (Some bits) MEM_LIMIT_MAX "memLimit" = Ok () →
   near_giga (f64_of_bits bits) (memory_limit_bytes bits) ∧
   0 ≤ memory_limit_bytes bits ≤ 1024 * 10 ^ 9).
Proof. split; [apply admitted_cpu_converts|apply admitted_memory_converts]. Qed.

(** [0.1] CPUs and [0.5] GB. *)
Lemma admitted_limits_convert_witness :
  near_giga (f64_of_bits 4591870180066957722) 100000000 ∧
  memory_limit_bytes 4602678819172646912 = 500000000 ∧
  near_giga (f64_of_bits 4602678819172646912) 500000000.
Proof.
  destruct (proj1 (admitted_limits_convert 4591870180066957722) eq_refl) as (n & Hn & Hnear & _).
  rewrite tenth_cpu in Hn. injection Hn as <-.
  destruct (proj2 (admitted_limits_convert 4602678819172646912) eq_refl) as [Hm _].
  split; [exact Hnear|]. split; [reflexivity|exact Hm].
Defined.
