(* ===== verification/Lowering.v ===== *)
(** * Lowering captured settings to a Deploy Intent

    [ployz-core/src/config/lowering.rs]: the captured settings of each Service become a
    requested spec, and the references between their variables the dependencies of the Deploy.

    Reading a captured value is serde's, a parameter. Errors are [Fails]; [Panics] is the [expect] that
    [ServiceMountGraph_parse] has. [reaches] runs on the number of references, which
    [reaches_spec] shows to be enough. *)

From S2P Require Import Prelude BTree Strings Values Decimal Machines Volumes ServiceGraph Spec.
From S2P Require Import Services Deploy RuntimeOutcome Config ConfigValidation ConfigSpec Compile.
From S2P Require Import Quantities.

Open Scope string_scope.
Open Scope nat_scope.
Open Scope list_scope.

(** ** Inputs *)

Record LowerDeploymentSnapshot : Type := {
  ld_service_id : option string;
  ld_config : Value;
  ld_replicas : option N;
  ld_resolved_env : bmap string string;
  ld_setup_commands : list string
}.

Record LowerDeploymentVolume : Type := {
  lowered_resource_id : string;
  lowered_storage : VolumeKind
}.

Record LowerDeploymentInput : Type := {
  ld_namespace : Namespace;
  ld_snapshots : list LowerDeploymentSnapshot;
  ld_volumes : list LowerDeploymentVolume;
  ld_lineages : bmap string string;
  ld_selected : option (list ServiceAttempt)
}.

Definition lowering_error : ConfigError :=
  ConfigError_at "service" "Authored service could not be lowered to a runtime specification".

Abbreviation Lowering T := (Result T (Fault ConfigError)) (only parsing).

Definition fails_at {T} (path message : string) : Lowering T :=
  Err (Fails (ConfigError_at path message)).
Definition lowers {T E} (r : Result T E) : Lowering T := map_err (λ _, Fails lowering_error) r.

(** ** Ports *)

(** [str::parse::<u16>]: an optional plus sign and digits. *)
Definition parse_u16 (text : string) : option N :=
  n ← parse_u64 (default text (strip_prefix "+" text));
  if (n <=? 65535)%N then Some n else None.

Definition target_port (explicit : option N) (environment : bmap string string) (path : string)
    : Lowering N :=
  let port :=
    match explicit with
    | Some port => Some port
    | None => value ← bget environment "PORT"; parse_u16 value
    end in
  match port with
  | Some port =>
      if (port =? 0)%N then fails_at path "Expected a target port or PORT variable from 1–65535"
      else Ok port
  | None => fails_at path "Expected a target port or PORT variable from 1–65535"
  end.

(** ** One Service *)

Definition with_port (environment : bmap string string) : bmap string string :=
  match bget environment "PORT" with
  | Some _ => environment
  | None => binsert "PORT" default_port_text environment
  end.

Definition lower_healthcheck (healthcheck : ServiceHealthcheck) (environment : bmap string string)
    : Lowering (option HealthcheckSpec) :=
  match healthcheck with
  | ServiceHealthNone => Ok None
  | ServiceHealthHttp path timeout_seconds =>
      let? port := target_port None environment "healthcheck" in
      Ok (Some (HealthHttp {| http_path := path; http_port := port;
                              http_timeout_seconds := timeout_seconds |}))
  end.

Definition lower_cpu (cpu_limit : option N) : Lowering (option Z) :=
  match cpu_limit with
  | None => Ok None
  | Some cpus =>
      match CpuNanos_from_cpus cpus with
      | None => fails_at "cpuLimit" "Invalid CPU limit"
      | Some nanos =>
          if (nanos =? 0)%Z then fails_at "cpuLimit" "CPU limit is below one nanocpu"
          else Ok (Some nanos)
      end
  end.

Definition lower_memory (mem_limit : option N) : Lowering (option Z) :=
  match mem_limit with
  | None => Ok None
  | Some gb =>
      let bytes := memory_limit_bytes gb in
      if (bytes =? 0)%Z then fails_at "memLimit" "Memory limit is below one byte"
      else Ok (Some bytes)
  end.

Definition lower_restart (policy : RestartPolicy) (max_retries : N) : RestartPolicy :=
  match policy with
  | RestartOnFailure _ => RestartOnFailure (Some (Z.of_N max_retries))
  | policy => policy
  end.

Definition lower_source (name : DockerVolumeName) (storage : VolumeKind) : Lowering RawVolumeSource :=
  match storage with
  | VolumeDocker =>
      let? driver := lowers (VolumeDriver_parse "local" []) in Ok (Ordinary name driver [])
  | VolumeProvisioned maximum_bytes => Ok (Provisioned name maximum_bytes [])
  end.

Definition volume_name_text (resource_id : string) : string := "vol-" +:+ resource_id.

Definition lower_mount (volume_sources : bmap string VolumeKind)
    (acc : list ServiceVolume * list ServiceMount) (mount : ServiceDeployMount)
    : Lowering (list ServiceVolume * list ServiceMount) :=
  let '(volumes, mounts) := acc in
  match bget volume_sources mount.(dm_volume_resource_id) with
  | None => Ok (volumes, mounts)
  | Some storage =>
      let name := volume_name_text mount.(dm_volume_resource_id) in
      let? reference := lowers (ServiceVolumeReference_parse name) in
      let? name := lowers (DockerVolumeName_parse name) in
      let? source := lower_source name storage in
      let? source := lowers (VolumeSource_try_from source) in
      let? target := lowers (ContainerPath_parse mount.(dm_mount_path)) in
      Ok (volumes ++ [{| sv_reference := reference; sv_source := source |}],
          mounts ++ [{| mount_volume := reference; mount_target := target;
                        mount_read_only := false; mount_no_copy := false;
                        mount_subpath := None |}])
  end.

Definition lower_route (environment : bmap string string) (route : ServiceRoute)
    : Lowering PortPublication :=
  let? hostname := lowers (IngressHost_parse route.(route_hostname)) in
  let? port := target_port route.(route_target_port) environment "routes" in
  Ok (IngressPort hostname 443 port Https).

Definition shell (command : string) : list string := ["/bin/sh"; "-c"; command].

Definition each_command : string :=
  "for c do /bin/sh -c " +:+ String (Ascii.ascii_of_N 34) "$c"
  +:+ String (Ascii.ascii_of_N 34) " || exit; done".

Definition hook_command_of (commands : list string) : option (list string) :=
  match commands with
  | [] => None
  | [only] => Some (shell only)
  | _ => Some (["/bin/sh"; "-c"; each_command; "sh"] ++ commands)
  end.

Definition lower_hook (pre_deploy_command : option string) (setup_commands : list string)
    : Lowering (option PreDeployHook) :=
  let? setup :=
    collect_result (λ setup, map_err Fails (trimmed_text setup "setupCommands" (Some 2000)))
      setup_commands in
  match hook_command_of (option_list pre_deploy_command ++ setup) with
  | None => Ok None
  | Some value =>
      let? command := lowers (PreDeployCommand_parse value) in
      Ok (Some {| hook_command := command; hook_environment := []; hook_privileged := None;
                  hook_timeout_millis := None; hook_user := None |})
  end.

Definition SERVICE_ID_LABEL : string := "cloud.ployz.service.id".

Definition id_labels (service_id : option string) : StringMap :=
  match service_id with Some id => binsert SERVICE_ID_LABEL id [] | None => [] end.

Definition graph_error (fault : Fault ServiceSpecGraphError) : Fault ConfigError :=
  match fault with
  | Fails RootMountTarget =>
      Fails (ConfigError_at "mounts" "A volume cannot mount at the container root /")
  | Fails (DuplicateMountTarget _) =>
      Fails (ConfigError_at "mounts" "Two volume mounts resolve to the same container path")
  | Fails (VolumeGraphError _ | ConfigGraphError _) => Fails lowering_error
  | Panics => Panics
  end.

Definition lower_replicas (overriding : option N) (authored : N) : Lowering N :=
  let replicas := default authored overriding in
  if (replicas =? 0)%N || (50 <? replicas)%N
  then fails_at "replicas" "Runtime deployment requires 1–50 replicas" else Ok replicas.

Definition lower_container (image : string) (start_command : option string)
    (environment : bmap string string) (restart : RestartPolicy)
    (healthcheck : option HealthcheckSpec) (cpu_nanos memory_bytes : option Z)
    (labels : StringMap) : ServiceContainerSpec :=
  {| image := image; command := match start_command with Some c => shell c | None => [] end;
     entrypoint := []; environment := environment; container_labels := labels;
     container_hostname := None; extra_hosts := []; cap_add := []; cap_drop := [];
     healthcheck := healthcheck; pull_policy := PullMissing; init := None; user := None;
     working_directory := None; tty := false; open_stdin := false; privileged := false;
     pid_mode := None; log_driver := None;
     resources := {| cpu_nanos := cpu_nanos; memory_bytes := memory_bytes;
                     memory_reservation_bytes := None; shared_memory_bytes := None;
                     devices := []; device_reservations := []; ulimits := [] |};
     stop_timeout_secs := None; sysctls := []; restart := restart |}.

(** One turn of the loop over the snapshots; [None] is its [continue]. *)
Definition lower_service (volume_sources : bmap string VolumeKind) (parsed : ServiceConfig)
    (snapshot : LowerDeploymentSnapshot) : Lowering (option RequestedServiceSpec) :=
  let config := parsed.(cfg_settings) in
  match config.(sc_source) with
  | SourceEmpty _ _ => Ok None
  | SourceGit _ _ _ _ _ _ => fails_at "source" "Git service is missing a pullable image"
  | SourceImage _ image _ =>
      let environment := with_port snapshot.(ld_resolved_env) in
      let? healthcheck := lower_healthcheck config.(sc_healthcheck) environment in
      let? replicas := lower_replicas snapshot.(ld_replicas) config.(sc_replicas) in
      let? cpu_nanos := lower_cpu config.(sc_cpu_limit) in
      let? memory := lower_memory config.(sc_mem_limit) in
      let restart := lower_restart config.(sc_restart_policy) config.(sc_max_retries) in
      let? '(volumes, mounts) := try_fold (lower_mount volume_sources) parsed.(cfg_mounts) ([], []) in
      let? ports := collect_result (lower_route environment) config.(sc_routes) in
      match config.(sc_managed_hostnames) with
      | _ :: _ =>
          fails_at "managedHostnames" "Expand managed hostnames into explicit routes before deploying"
      | [] =>
          let? pre_deploy := lower_hook config.(sc_pre_deploy_command) snapshot.(ld_setup_commands) in
          let? memory_bytes :=
            match memory with
            | Some bytes => let? bytes := lowers (ByteQuantity_try_from bytes) in Ok (Some bytes)
            | None => Ok None
            end in
          let? labels := lowers (ContainerLabels_parse (id_labels snapshot.(ld_service_id))) in
          let spec :=
            {| rq_name := config.(sc_private_dns); rq_mode := Replicated replicas;
               rq_container := lower_container image config.(sc_start_command) environment restart
                                 healthcheck cpu_nanos memory_bytes labels;
               rq_placement := {| constraints := [] |}; rq_ports := ports;
               rq_mount_graph := empty_mount_graph; rq_pre_deploy := pre_deploy;
               rq_update := {| update_order := None; update_monitor_millis := None |} |} in
          let? graph := lowers (ServiceVolumeGraph_parse volumes mounts) in
          let? spec := map_err graph_error (set_volume_graph spec graph) in
          Ok (Some spec)
      end
  end.

(** ** Dependencies *)

Section Dependencies.
Context (snapshots : list (ServiceConfig * LowerDeploymentSnapshot)) (lineages : bmap string string).

Definition is_deployed (config : ServiceConfig) : bool :=
  match config.(cfg_settings).(sc_source) with SourceEmpty _ _ => false | _ => true end.

Definition deployed_snapshots : list (ServiceConfig * LowerDeploymentSnapshot) :=
  List.filter (λ s, is_deployed s.1) snapshots.

Definition by_id : bmap string ServiceConfig :=
  bcollect (omap (λ s, (λ id, (id, s.1)) <$> s.2.(ld_service_id)) deployed_snapshots).

Definition dns_name (config : ServiceConfig) : ServiceName := config.(cfg_settings).(sc_private_dns).

Definition env_parts (value : ServiceEnvValue) : list ValuePart :=
  match value with EnvLiteral _ (Some parts) => parts | _ => [] end.

Definition referenced_config (part : ValuePart) : option ServiceConfig :=
  match part with
  | PartRef (OwnerService lineage_id) _ => id ← bget lineages lineage_id; bget by_id id
  | PartRef OwnerSelf _ | PartText _ => None
  end.

Definition config_references (config : ServiceConfig) : bset ServiceName :=
  bset_of
    (List.filter (λ d, negb (bool_decide (d = dns_name config)))
       (map dns_name (omap referenced_config (concat (map env_parts (bvalues config.(cfg_env))))))).

Definition graph : bmap ServiceName (ServiceConfig * bset ServiceName) :=
  fold_left (λ g s, binsert (dns_name s.1) (s.1, config_references s.1) g) deployed_snapshots [].

Definition graph_next (name : ServiceName) : bset ServiceName :=
  match bget graph name with Some (_, next) => next | None => [] end.

(** The [while let Some(name) = pending.pop()] loop; [pending] is kept reversed. *)
Fixpoint reaches_loop (target : ServiceName) (fuel : nat) (pending : list ServiceName)
    (visited : bset ServiceName) : bool :=
  match fuel, pending with
  | S fuel, name :: pending =>
      if bool_decide (name = target) then true
      else if bool_decide (name ∈ visited) then reaches_loop target fuel pending visited
      else reaches_loop target fuel (rev (graph_next name) ++ pending) (bset_insert name visited)
  | _, _ => false
  end.

Definition reaches (from target : ServiceName) : bool :=
  reaches_loop target (2 + length (concat (map (λ kv, kv.2.2) graph))) [from] [].

Definition wait_condition (dependency : ServiceName) : DependencyCondition :=
  match bget graph dependency with
  | Some (config, _) =>
      match config.(cfg_settings).(sc_healthcheck) with
      | ServiceHealthHttp _ _ => ServiceHealthy
      | ServiceHealthNone => ServiceStarted
      end
  | None => ServiceStarted
  end.

Definition kept_edges (name : ServiceName) (references : bset ServiceName) : list ServiceDependency :=
  map (λ d, {| dep_service := d; dep_condition := wait_condition d |})
    (List.filter (λ d, negb (reaches d name)) references).

Definition deployment_dependencies : bmap ServiceName (list ServiceDependency) :=
  bcollect
    (omap (λ '(name, (_, references)),
             match kept_edges name references with [] => None | edges => Some (name, edges) end)
       graph).
End Dependencies.

(** ** The Deploy *)

Section Lower.
Context `{ConfigCrates} `{Serde ServiceConfig}.

Definition parse_snapshot (snapshot : LowerDeploymentSnapshot)
    : Lowering (ServiceConfig * LowerDeploymentSnapshot) :=
  let? config := map_err Fails (parse_service_value snapshot.(ld_config)) in Ok (config, snapshot).

Definition volume_sources_of (volumes : list LowerDeploymentVolume) : bmap string VolumeKind :=
  bcollect (map (λ v, (v.(lowered_resource_id), v.(lowered_storage))) volumes).

Definition push_spec (volume_sources : bmap string VolumeKind) (target : list RequestedServiceSpec)
    (s : ServiceConfig * LowerDeploymentSnapshot) : Lowering (list RequestedServiceSpec) :=
  let? spec := lower_service volume_sources s.1 s.2 in Ok (target ++ option_list spec).

Definition lower_deployment (input : LowerDeploymentInput) : Lowering DeployIntent :=
  let volume_sources := volume_sources_of input.(ld_volumes) in
  let? snapshots := collect_result parse_snapshot input.(ld_snapshots) in
  let dependencies := deployment_dependencies snapshots input.(ld_lineages) in
  let? target := try_fold (push_spec volume_sources) snapshots [] in
  let selected :=
    default (map (λ spec, {| attempt_name := spec.(rq_name) |}) target) input.(ld_selected) in
  Ok (with_dependencies
        (DeployIntent_new input.(ld_namespace) target
           {| force_recreate := false; skip_health_monitor := false; placement_seed := 0;
              selected := selected |})
        dependencies).
End Lower.

(** ** References between deployed Services *)

(** Collecting pairs keeps the last value of a key. *)
Lemma bget_bcollect_last `{OrdLaws K} {V} (l : list (K * V)) k :
  bget (bcollect l) k = snd <$> last (List.filter (λ kv, bool_decide (kv.1 = k)) l).
Proof.
  unfold bcollect. induction l as [|[k' v] l IH] using rev_ind; [done|].
  rewrite fold_left_app, List.filter_app. simpl. rewrite bget_binsert, IH. clear IH.
  case_decide as Hk; case_bool_decide as Hk'; subst; try done.
  - by rewrite last_snoc.
  - by rewrite app_nil_r.
Qed.

Lemma elem_of_rev {A} (l : list A) x : x ∈ rev l ↔ x ∈ l.
Proof. by rewrite !list_elem_of_In, <- in_rev. Qed.

Section References.
Context (snapshots : list (ServiceConfig * LowerDeploymentSnapshot)) (lineages : bmap string string).

(** The deployed Service of a name, and of an id: the last captured one. *)
Definition deployed_config (name : ServiceName) : option ServiceConfig :=
  last (List.filter (λ c, bool_decide (dns_name c = name)) (map fst (deployed_snapshots snapshots))).

Definition config_with_id (id : string) : option ServiceConfig :=
  fst <$> last (List.filter (λ s, bool_decide (s.2.(ld_service_id) = Some id))
                  (deployed_snapshots snapshots)).

(** A variable of the Service [n] references the Service [d]. *)
Definition reads_service (n d : ServiceName) : Prop :=
  ∃ config key value parts lineage variable id other,
    deployed_config n = Some config ∧ (key, EnvLiteral value (Some parts)) ∈ config.(cfg_env) ∧
    PartRef (OwnerService lineage) variable ∈ parts ∧ bget lineages lineage = Some id ∧
    config_with_id id = Some other ∧ dns_name other = d ∧ d ≠ n.

Abbreviation graph := (graph snapshots lineages).
Abbreviation graph_next := (graph_next snapshots lineages).
Abbreviation references := (config_references snapshots lineages).

Lemma bget_by_id id : bget (by_id snapshots) id = config_with_id id.
Proof.
  unfold by_id, config_with_id. rewrite bget_bcollect_last.
  induction (deployed_snapshots snapshots) as [|[c s] l IH] using rev_ind; [done|].
  rewrite omap_app, !List.filter_app. simpl. destruct (ld_service_id s) as [id'|]; simpl.
  - case_bool_decide as Hid; simpl; [subst|].
    + rewrite (bool_decide_eq_true_2 (Some id = Some id)) by done. by rewrite !last_snoc.
    + rewrite (bool_decide_eq_false_2 (Some id' = Some id)) by congruence. by rewrite !app_nil_r.
  - by rewrite !app_nil_r.
Qed.

Lemma graph_eq : graph = bcollect (map (λ s, (dns_name s.1, (s.1, references s.1))) (deployed_snapshots snapshots)).
Proof.
  unfold Lowering.graph, bcollect. generalize (@nil (ServiceName * (ServiceConfig * bset ServiceName))).
  induction (deployed_snapshots snapshots) as [|s l IH]; intros m; simpl; [done|]. apply IH.
Qed.

Lemma bget_graph n : bget graph n = (λ c, (c, references c)) <$> deployed_config n.
Proof.
  rewrite graph_eq, bget_bcollect_last, filter_map_bool. unfold deployed_config.
  rewrite filter_map_bool. simpl.
  rewrite (List.filter_ext _ (λ s, bool_decide (dns_name s.1 = n))) by (intros; by apply bool_decide_ext).
  induction (List.filter _ _) as [|s l IH] using rev_ind; [done|].
  rewrite !map_app. simpl. by rewrite !last_snoc.
Qed.

Lemma elem_of_references config d :
  d ∈ references config ↔
  ∃ key value parts lineage variable id other,
    (key, EnvLiteral value (Some parts)) ∈ config.(cfg_env) ∧
    PartRef (OwnerService lineage) variable ∈ parts ∧ bget lineages lineage = Some id ∧
    config_with_id id = Some other ∧ dns_name other = d ∧ d ≠ dns_name config.
Proof.
  unfold config_references. rewrite elem_of_bset_of, elem_of_filterb, negb_true_iff, bool_decide_eq_false.
  rewrite list_elem_of_fmap. split.
  - intros [(other & -> & Ho) Hne]. apply list_elem_of_omap in Ho as (part & Hpart & Ho).
    apply list_elem_of_In, in_concat in Hpart as (parts & Hparts & Hpart).
    apply in_map_iff in Hparts as (value & <- & Hv). apply list_elem_of_In in Hv, Hpart.
    unfold bvalues in Hv. apply list_elem_of_fmap in Hv as ([key v] & -> & Hv). simpl in *.
    destruct v as [text [parts|]|]; try by apply elem_of_nil in Hpart. simpl in Hpart.
    destruct part as [|[|lineage] variable]; try done. simpl in Ho.
    destruct (bget lineages lineage) as [id|] eqn:Hid; [|done]. simpl in Ho. rewrite bget_by_id in Ho.
    exists key, text, parts, lineage, variable, id, other. done.
  - intros (key & value & parts & lineage & variable & id & other & Hv & Hpart & Hid & Ho & Hd & Hne).
    split; [|done]. exists other. split; [done|]. apply list_elem_of_omap.
    exists (PartRef (OwnerService lineage) variable). split.
    + apply list_elem_of_In, in_concat. exists parts. split; [|by apply list_elem_of_In].
      apply in_map_iff. exists (EnvLiteral value (Some parts)). split; [done|]. apply list_elem_of_In.
      apply list_elem_of_fmap. by exists (key, EnvLiteral value (Some parts)).
    + simpl. rewrite Hid. simpl. by rewrite bget_by_id.
Qed.

Lemma deployed_config_name n config : deployed_config n = Some config → dns_name config = n.
Proof.
  unfold deployed_config. intros Hl. apply last_Some_elem_of in Hl. apply elem_of_filterb in Hl as [_ Hl].
  by apply bool_decide_eq_true in Hl.
Qed.

Lemma elem_of_graph_next n d : d ∈ graph_next n ↔ reads_service n d.
Proof.
  unfold Lowering.graph_next. rewrite bget_graph. unfold reads_service.
  destruct (deployed_config n) as [config|] eqn:Hc; simpl.
  - rewrite elem_of_references, (deployed_config_name n config Hc). split.
    + intros (key & value & parts & lineage & variable & id & other & Hr).
      by exists config, key, value, parts, lineage, variable, id, other.
    + intros (config' & key & value & parts & lineage & variable & id & other & [= <-] & Hr).
      by exists key, value, parts, lineage, variable, id, other.
  - split; [by intros ?%elem_of_nil|]. by intros (? & ? & ? & ? & ? & ? & ? & ? & ? & _).
Qed.

(** ** Reachability *)

Definition successors : bmap ServiceName (list ServiceName) := map (λ kv, (kv.1, kv.2.2)) graph.

Lemma successors_next n : default [] (bget successors n) = graph_next n.
Proof.
  unfold successors, Lowering.graph_next.
  induction graph as [|[k [c refs]] g IH]; simpl; [done|]. by case_decide.
Qed.

(** The loop ends with enough fuel: it finds the target when it is reachable from what is
    pending, as long as it was not passed over. *)
Lemma reaches_loop_complete target fuel pending visited :
  length pending + unpushed successors visited < fuel → target ∉ visited →
  (∀ a b, a ∈ visited → b ∈ graph_next a → b ∈ visited ∨ b ∈ pending) →
  ∀ from, from ∈ visited ∨ from ∈ pending → rtc reads_service from target →
  reaches_loop snapshots lineages target fuel pending visited = true.
Proof.
  revert pending visited. induction fuel as [|fuel IH]; intros pending visited Hfuel Hvis Hclosed from Hfrom Hr;
    [lia|]. destruct pending as [|name pending]; simpl in *.
  - assert (Hstay : ∀ x y, rtc reads_service x y → x ∈ visited → y ∈ visited).
    { intros x y Hxy. induction Hxy as [|x z y Hxz _ IHz]; [done|]. intros Hx. apply IHz.
      apply elem_of_graph_next in Hxz. destruct (Hclosed x z Hx Hxz) as [|Hz]; [done|set_solver]. }
    destruct Hfrom as [Hfrom|Hfrom]; [|set_solver]. by destruct Hvis; eapply Hstay.
  - case_bool_decide as Heq; [done|]. case_bool_decide as Hin.
    + eapply (IH pending visited); [lia|done| |instantiate (1 := from); set_solver|done].
      intros a b Ha Hb. destruct (Hclosed a b Ha Hb); set_solver.
    + eapply (IH _ (bset_insert name visited)); [| | |instantiate (1 := from)|done].
      * rewrite length_app, length_rev. pose proof (unpushed_insert successors name visited Hin).
        rewrite successors_next in *. lia.
      * rewrite elem_of_bset_insert. intros [->|]; done.
      * intros a b [->|Ha]%elem_of_bset_insert Hb.
        -- right. apply elem_of_app. left. by apply elem_of_rev.
        -- rewrite elem_of_bset_insert, elem_of_app. destruct (Hclosed a b Ha Hb); set_solver.
      * rewrite elem_of_bset_insert, elem_of_app. set_solver.
Qed.

Lemma reaches_loop_sound target fuel pending visited :
  reaches_loop snapshots lineages target fuel pending visited = true →
  ∃ from, from ∈ pending ∧ rtc reads_service from target.
Proof.
  revert pending visited. induction fuel as [|fuel IH]; intros pending visited Hloop; [done|].
  destruct pending as [|name pending]; [done|]. simpl in Hloop.
  case_bool_decide as Heq; [subst; exists target; split; [left|done]|].
  case_bool_decide as Hin.
  - destruct (IH _ _ Hloop) as (from & Hfrom & Hr). exists from. by split; [right|].
  - destruct (IH _ _ Hloop) as (from & Hfrom & Hr). apply elem_of_app in Hfrom as [Hfrom|Hfrom].
    + exists name. split; [left|]. eapply rtc_l; [|exact Hr]. by apply elem_of_graph_next, elem_of_rev.
    + exists from. by split; [right|].
Qed.

Lemma reaches_spec from target :
  reaches snapshots lineages from target = true ↔ rtc reads_service from target.
Proof.
  unfold reaches. split.
  - intros Hr. apply reaches_loop_sound in Hr as (x & Hx & Hr). by apply list_elem_of_singleton in Hx as ->.
  - intros Hr. eapply reaches_loop_complete; [| | |instantiate (1 := from); right; left|exact Hr].
    + rewrite unpushed_nil. unfold successors, bvalues. rewrite map_map. apply Nat.lt_succ_diag_r.
    + set_solver.
    + set_solver.
Qed.

(** ** The dependencies *)

Abbreviation dependencies := (deployment_dependencies snapshots lineages).

Definition waits_for (d : ServiceName) : DependencyCondition :=
  match sc_healthcheck ∘ cfg_settings <$> deployed_config d with
  | Some (ServiceHealthHttp _ _) => ServiceHealthy
  | _ => ServiceStarted
  end.

Lemma wait_condition_eq d : wait_condition snapshots lineages d = waits_for d.
Proof.
  unfold wait_condition, waits_for. rewrite bget_graph. by destruct (deployed_config d).
Qed.

Lemma bget_dependencies n :
  bget dependencies n =
  match kept_edges snapshots lineages n (graph_next n) with [] => None | edges => Some edges end.
Proof.
  assert (Hwf : bwf graph) by (rewrite graph_eq; apply bwf_bcollect).
  unfold deployment_dependencies. set (f := λ '(name, (_, references)), _).
  assert (Hkeys : NoDup (map fst (omap f graph))).
  { apply bwf_NoDup in Hwf. revert Hwf. unfold bkeys. induction graph as [|[k [c refs]] g IH]; simpl; [done|].
    intros [Hk Hnd]%NoDup_cons. destruct (kept_edges snapshots lineages k refs) as [|e es]; simpl; [auto|].
    apply NoDup_cons. split; [|auto]. intros Hin. apply Hk.
    apply list_elem_of_fmap in Hin as ([k' es'] & Hk' & Hin). simpl in Hk'. subst k'.
    apply list_elem_of_omap in Hin as ([k' [c' refs']] & Hin & Hf). simpl in Hf.
    apply list_elem_of_fmap. exists (k', (c', refs')). split; [|done].
    by destruct (kept_edges _ _ k' refs'); simplify_eq/=. }
  apply option_eq. intros edges. rewrite bget_bcollect by done. rewrite list_elem_of_omap. split.
  - intros ([k [c refs]] & Hin & Hf). simpl in Hf. apply bget_Some in Hin; [|done].
    destruct (kept_edges snapshots lineages k refs) as [|e es] eqn:He; simplify_eq/=.
    unfold Lowering.graph_next. by rewrite Hin, He.
  - unfold Lowering.graph_next. destruct (bget graph n) as [[c refs]|] eqn:Hg; [|done].
    intros He. exists (n, (c, refs)). split; [by apply bget_elem|]. simpl.
    by destruct (kept_edges _ _ n refs); simplify_eq/=.
Qed.

Lemma elem_of_dependencies n dependency :
  dependency ∈ default [] (bget dependencies n) ↔
  reads_service n dependency.(dep_service) ∧ ¬ rtc reads_service dependency.(dep_service) n ∧
  dependency.(dep_condition) = waits_for dependency.(dep_service).
Proof.
  assert (Hedges : default [] (bget dependencies n) = kept_edges snapshots lineages n (graph_next n)).
  { rewrite bget_dependencies. by destruct (kept_edges _ _ _ _). }
  rewrite Hedges. unfold kept_edges. rewrite list_elem_of_fmap. split.
  - intros (d & -> & Hd). apply elem_of_filterb in Hd as [Hd Hr]. simpl.
    rewrite elem_of_graph_next in Hd. rewrite <- reaches_spec, wait_condition_eq.
    split; [done|]. split; [|done]. by apply negb_true_iff in Hr as ->.
  - intros (Hd & Hr & Hc). exists dependency.(dep_service). split.
    + destruct dependency as [d c]. simpl in *. by rewrite wait_condition_eq, Hc.
    + apply elem_of_filterb. rewrite elem_of_graph_next. split; [done|].
      apply negb_true_iff, not_true_is_false. by rewrite reaches_spec.
Qed.

Definition depends_on (n d : ServiceName) : Prop :=
  d ∈ map dep_service (default [] (bget dependencies n)).

Lemma depends_on_spec n d : depends_on n d ↔ reads_service n d ∧ ¬ rtc reads_service d n.
Proof.
  unfold depends_on. rewrite list_elem_of_fmap. split.
  - intros (dependency & -> & Hd). apply elem_of_dependencies in Hd. naive_solver.
  - intros [Hd Hr]. exists {| dep_service := d; dep_condition := waits_for d |}.
    split; [done|]. by apply elem_of_dependencies.
Qed.

Lemma depends_on_acyclic n : ¬ tc depends_on n n.
Proof.
  assert (Hsub : ∀ x y, rtc depends_on x y → rtc reads_service x y).
  { intros x y Hxy. induction Hxy as [|x z y Hxz _ IH]; [done|].
    apply depends_on_spec in Hxz as [Hxz _]. by eapply rtc_l. }
  intros Htc. inversion Htc as [? ? Hd|? d ? Hd Htc']; subst.
  - apply depends_on_spec in Hd as [_ Hd]. by apply Hd.
  - apply depends_on_spec in Hd as [_ Hd]. apply Hd, Hsub. by apply tc_rtc in Htc'.
Qed.
End References.

(** ** The lowered specs *)

(** The container port of a route or an HTTP check. *)
Definition container_port (explicit : option N) (environment : bmap string string) (port : N) : Prop :=
  port ≠ 0%N ∧
  match explicit with
  | Some explicit => port = explicit
  | None => ∃ text, bget environment "PORT" = Some text ∧ parse_u16 text = Some port
  end.

Definition lowered_limit (max : Z) (authored : option N) (lowered : option Z) : Prop :=
  match authored, lowered with
  | None, None => True
  | Some bits, Some n => near_giga (f64_of_bits bits) n ∧ (0 < n ≤ max)%Z
  | _, _ => False
  end.

Definition lowered_source (name : string) (storage : VolumeKind) : RawVolumeSource :=
  match storage with
  | VolumeDocker => Ordinary name {| driver_name := "local"; driver_options := [] |} []
  | VolumeProvisioned maximum_bytes => Provisioned name maximum_bytes []
  end.

(** The mounts of Volumes the Namespace holds, each with its storage. *)
Definition held_mounts (volume_sources : bmap string VolumeKind) (mounts : list ServiceDeployMount)
    : list (ServiceDeployMount * VolumeKind) :=
  omap (λ m, (λ storage, (m, storage)) <$> bget volume_sources m.(dm_volume_resource_id)) mounts.

Definition held_volume (held : ServiceDeployMount * VolumeKind) : ServiceVolume :=
  let name := volume_name_text held.1.(dm_volume_resource_id) in
  {| sv_reference := name;
     sv_source := {| vs_source := lowered_source name held.2; vs_scope := None |} |}.

Definition held_mount (held : ServiceDeployMount * VolumeKind) : ServiceMount :=
  {| mount_volume := volume_name_text held.1.(dm_volume_resource_id);
     mount_target := held.1.(dm_mount_path); mount_read_only := false; mount_no_copy := false;
     mount_subpath := None |}.

Record lowered_ok (volume_sources : bmap string VolumeKind)
    (s : ServiceConfig * LowerDeploymentSnapshot) (spec : RequestedServiceSpec) : Prop := {
  lo_name : spec.(rq_name) = dns_name s.1;
  lo_image : ∃ version credentials,
    s.1.(cfg_settings).(sc_source) = SourceImage version spec.(rq_container).(image) credentials;
  lo_environment : ∀ key,
    bget spec.(rq_container).(environment) key =
    if decide (key = "PORT") then Some (default default_port_text (bget s.2.(ld_resolved_env) "PORT"))
    else bget s.2.(ld_resolved_env) key;
  lo_replicas : ∃ replicas, spec.(rq_mode) = Replicated replicas ∧ (1 ≤ replicas ≤ 50)%N ∧
    replicas = default s.1.(cfg_settings).(sc_replicas) s.2.(ld_replicas);
  lo_healthcheck :
    match s.1.(cfg_settings).(sc_healthcheck), spec.(rq_container).(healthcheck) with
    | ServiceHealthNone, None => True
    | ServiceHealthHttp path timeout, Some (HealthHttp http) =>
        http.(http_path) = path ∧ http.(http_timeout_seconds) = timeout ∧
        container_port None spec.(rq_container).(environment) http.(http_port)
    | _, _ => False
    end;
  lo_cpu : lowered_limit (64 * 10 ^ 9) s.1.(cfg_settings).(sc_cpu_limit)
             spec.(rq_container).(resources).(cpu_nanos);
  lo_memory : lowered_limit (1024 * 10 ^ 9) s.1.(cfg_settings).(sc_mem_limit)
                spec.(rq_container).(resources).(memory_bytes);
  lo_ports : Forall2 (λ route port, ∃ hostname target,
      IngressHost_parse route.(route_hostname) = Ok hostname ∧
      port = IngressPort hostname 443 target Https ∧
      container_port route.(route_target_port) spec.(rq_container).(environment) target)
    s.1.(cfg_settings).(sc_routes) spec.(rq_ports);
  lo_volumes : spec.(rq_mount_graph).(mg_volumes).(graph_volumes)
    = map held_volume (held_mounts volume_sources s.1.(cfg_mounts));
  lo_mounts : Forall2 (λ held mount, mount = with_target (held_mount held) mount.(mount_target))
    (held_mounts volume_sources s.1.(cfg_mounts)) spec.(rq_mount_graph).(mg_volumes).(graph_mounts);
  lo_destinations : NoDup (destinations spec.(rq_mount_graph)) ∧
    Forall canonical_target (destinations spec.(rq_mount_graph));
  lo_graph : volume_graph_ok spec.(rq_mount_graph).(mg_volumes).(graph_volumes)
               spec.(rq_mount_graph).(mg_volumes).(graph_mounts);
  lo_hook : ∃ setup, Forall2 (λ text command, trimmed_text text "setupCommands" (Some 2000) = Ok command)
      s.2.(ld_setup_commands) setup ∧
    hook_command <$> spec.(rq_pre_deploy)
    = hook_command_of (option_list s.1.(cfg_settings).(sc_pre_deploy_command) ++ setup)
}.

Lemma lowers_Ok {T E} (r : Result T E) x : lowers r = Ok x → r = Ok x.
Proof. unfold lowers. destruct r; naive_solver. Qed.

(** ** No panic *)

Definition no_panic {T} (r : Lowering T) : Prop := r ≠ Err Panics.

Lemma no_panic_bind {T U} (c : Lowering T) (k : T → Lowering U) :
  no_panic c → (∀ x, c = Ok x → no_panic (k x)) → no_panic (result_bind c k).
Proof. unfold no_panic. destruct c as [x|[e|]]; simpl; intros Hc Hk; [by apply Hk|done|done]. Qed.

Lemma lowers_no_panic {T E} (r : Result T E) : no_panic (lowers r).
Proof. by destruct r. Qed.

Lemma fails_no_panic {T} path message : no_panic (T := T) (fails_at path message).
Proof. done. Qed.

Lemma collect_no_panic {A B} (f : A → Lowering B) l :
  (∀ x, no_panic (f x)) → no_panic (collect_result f l).
Proof. intros Hf Hc. apply collect_result_Err in Hc as (x & _ & Hx). by apply (Hf x). Qed.

Lemma fold_no_panic {A S} (f : S → A → Lowering S) l s :
  (∀ s x, no_panic (f s x)) → no_panic (try_fold f l s).
Proof.
  intros Hf. revert s. induction l as [|x l IH]; intros s; simpl; [done|].
  apply no_panic_bind; [apply Hf|auto].
Qed.

Create HintDb lowering.
#[export] Hint Resolve lowers_no_panic fails_no_panic collect_no_panic fold_no_panic : lowering.
#[export] Hint Extern 4 (no_panic (result_bind _ _)) =>
  apply no_panic_bind; [|intros ? _] : lowering.
#[export] Hint Extern 5 (no_panic (Ok _)) => discriminate : lowering.
#[export] Hint Extern 3 (no_panic (if ?b then _ else _)) => destruct b : lowering.

Lemma target_port_cases explicit environment path :
  match target_port explicit environment path with
  | Ok port => container_port explicit environment port
  | Err fault => fault ≠ Panics
  end.
Proof.
  unfold target_port, container_port. destruct explicit as [port|]; simpl.
  - by destruct (N.eqb_spec port 0).
  - destruct (bget environment "PORT") as [text|]; simpl; [|done].
    destruct (parse_u16 text) as [port|] eqn:Hp; [|done]. destruct (N.eqb_spec port 0); [done|]. eauto.
Qed.

Lemma bget_with_port env key :
  bget (with_port env) key =
  if decide (key = "PORT") then Some (default default_port_text (bget env "PORT")) else bget env key.
Proof.
  unfold with_port. case_decide as Hk.
  - subst. destruct (bget env "PORT") eqn:Hp; [done|]. apply bget_binsert_eq.
  - destruct (bget env "PORT"); [done|]. by apply bget_binsert_ne.
Qed.

Lemma lower_mounts_Ok sources mounts volumes ms volumes' ms' :
  try_fold (lower_mount sources) mounts (volumes, ms) = Ok (volumes', ms') →
  volumes' = volumes ++ map held_volume (held_mounts sources mounts) ∧
  ms' = ms ++ map held_mount (held_mounts sources mounts) ∧
  Forall (λ held, is_unix_path held.1.(dm_mount_path) = true) (held_mounts sources mounts).
Proof.
  revert volumes ms. induction mounts as [|m mounts IH]; intros volumes ms; cbn [try_fold].
  { intros [= <- <-]. simpl. by rewrite !app_nil_r. }
  intros ([vs1 ms1] & Hm & Hrest)%result_bind_Ok. apply IH in Hrest as (-> & -> & Hall). clear IH.
  unfold lower_mount in Hm. unfold held_mounts. simpl.
  destruct (bget sources (dm_volume_resource_id m)) as [storage|]; simpl; [|by simplify_eq].
  apply result_bind_Ok in Hm as (reference & Href%lowers_Ok & Hm).
  apply result_bind_Ok in Hm as (name & Hname%lowers_Ok & Hm).
  apply result_bind_Ok in Hm as (raw & Hraw & Hm).
  apply result_bind_Ok in Hm as (source & Hsource%lowers_Ok & Hm).
  apply result_bind_Ok in Hm as (target & Htarget%lowers_Ok & Hm).
  unfold ServiceVolumeReference_parse, DockerVolumeName_parse, ContainerPath_parse, validated_parse in *.
  repeat case_match; simplify_eq. rewrite <- !app_assoc. simpl.
  assert (raw = lowered_source (volume_name_text (dm_volume_resource_id m)) storage) as ->
    by (destruct storage; simpl in Hraw; by simplify_eq).
  assert (source = {| vs_source := lowered_source (volume_name_text (dm_volume_resource_id m)) storage;
                      vs_scope := None |}) as ->
    by (unfold VolumeSource_try_from in Hsource; destruct storage; simpl in Hsource; by simplify_eq).
  split; [done|]. split; [done|]. by constructor.
Qed.

Lemma target_port_no_panic explicit environment path : no_panic (target_port explicit environment path).
Proof.
  pose proof (target_port_cases explicit environment path) as H. intros Hp. by rewrite Hp in H.
Qed.
#[export] Hint Resolve target_port_no_panic : lowering.

Lemma lower_mount_no_panic sources acc mount : no_panic (lower_mount sources acc mount).
Proof.
  unfold lower_mount. destruct acc as [volumes mounts]. destruct (bget _ _) as [storage|]; [|done].
  assert (∀ name, no_panic (lower_source name storage)) as Hs by (intros name; by destruct storage).
  auto 20 with lowering.
Qed.

Lemma lower_hook_no_panic command setup : no_panic (lower_hook command setup).
Proof.
  unfold lower_hook. apply no_panic_bind.
  - apply collect_no_panic. intros text. by destruct (trimmed_text _ _ _).
  - intros trimmed _. destruct (hook_command_of _); auto with lowering.
Qed.

Lemma lower_route_no_panic environment route : no_panic (lower_route environment route).
Proof. unfold lower_route. auto with lowering. Qed.
#[export] Hint Resolve lower_mount_no_panic lower_hook_no_panic lower_route_no_panic : lowering.

(** ** One lowered Service *)

Definition limits_admitted (config : ServiceConfig) : Prop :=
  limit config.(cfg_settings).(sc_cpu_limit) CPU_LIMIT_MAX "cpuLimit" = Ok () ∧
  limit config.(cfg_settings).(sc_mem_limit) MEM_LIMIT_MAX "memLimit" = Ok ().

Lemma lower_cpu_Ok cpu nanos :
  limit cpu CPU_LIMIT_MAX "cpuLimit" = Ok () → lower_cpu cpu = Ok nanos →
  lowered_limit (64 * 10 ^ 9) cpu nanos.
Proof.
  intros Hlimit. destruct cpu as [bits|]; cbn [lower_cpu]; [|intros Hl; by injection Hl as <-].
  apply admitted_cpu_converts in Hlimit as (n & -> & Hnear & Hn). destruct (Z.eqb_spec n 0) as [|Hn0]; intros Hl.
  { discriminate Hl. }
  injection Hl as <-. split; [exact Hnear|]. lia.
Qed.

Lemma lower_memory_Ok memory bytes :
  limit memory MEM_LIMIT_MAX "memLimit" = Ok () → lower_memory memory = Ok bytes →
  lowered_limit (1024 * 10 ^ 9) memory bytes.
Proof.
  intros Hlimit. unfold lower_memory. destruct memory as [bits|]; [|intros Hl; by injection Hl as <-].
  apply admitted_memory_converts in Hlimit as [Hnear Hn].
  destruct (Z.eqb_spec (memory_limit_bytes bits) 0) as [|Hn0]; intros Hl.
  { discriminate Hl. }
  injection Hl as <-. split; [exact Hnear|]. lia.
Qed.

Lemma lower_healthcheck_Ok healthcheck environment lowered :
  lower_healthcheck healthcheck environment = Ok lowered →
  match healthcheck, lowered with
  | ServiceHealthNone, None => True
  | ServiceHealthHttp path timeout, Some (HealthHttp http) =>
      http.(http_path) = path ∧ http.(http_timeout_seconds) = timeout ∧
      container_port None environment http.(http_port)
  | _, _ => False
  end.
Proof.
  destruct healthcheck as [|path timeout]; simpl; [by intros [= <-]|].
  intros (port & Hp & [= <-])%result_bind_Ok. simpl.
  pose proof (target_port_cases None environment "healthcheck") as Hc. by rewrite Hp in Hc.
Qed.

Lemma lower_routes_Ok environment routes ports :
  collect_result (lower_route environment) routes = Ok ports →
  Forall2 (λ route port, ∃ hostname target,
      IngressHost_parse route.(route_hostname) = Ok hostname ∧
      port = IngressPort hostname 443 target Https ∧
      container_port route.(route_target_port) environment target) routes ports.
Proof.
  intros Hall%collect_result_Ok. eapply Forall2_impl; [exact Hall|]. intros route port.
  intros (hostname & Hh%lowers_Ok & Hr)%result_bind_Ok. apply result_bind_Ok in Hr as (target & Ht & [= <-]).
  pose proof (target_port_cases (route_target_port route) environment "routes") as Hc. rewrite Ht in Hc. eauto.
Qed.

Lemma lower_hook_Ok command setup hook :
  lower_hook command setup = Ok hook →
  ∃ trimmed, Forall2 (λ text command, trimmed_text text "setupCommands" (Some 2000) = Ok command)
      setup trimmed ∧
    hook_command <$> hook = hook_command_of (option_list command ++ trimmed).
Proof.
  intros (trimmed & Ht & Hh)%result_bind_Ok. exists trimmed. split.
  - apply collect_result_Ok in Ht. eapply Forall2_impl; [exact Ht|]. intros text out Hmap.
    cbv beta in Hmap. destruct (trimmed_text text _ _) in Hmap |- *; by simplify_eq/=.
  - destruct (hook_command_of _) as [value|] eqn:Hv; [|by simplify_eq].
    apply result_bind_Ok in Hh as (parsed & Hp%lowers_Ok & [= <-]). simpl.
    destruct value; simpl in Hp; by simplify_eq.
Qed.

Lemma lower_replicas_Ok overriding authored replicas :
  lower_replicas overriding authored = Ok replicas →
  (1 ≤ replicas ≤ 50)%N ∧ replicas = default authored overriding.
Proof.
  unfold lower_replicas. destruct (N.eqb_spec (default authored overriding) 0),
    (N.ltb_spec 50 (default authored overriding)); simpl; try done. intros [= <-]. split; [lia|done].
Qed.

Lemma set_volume_graph_cases spec graph :
  spec.(rq_mount_graph) = empty_mount_graph →
  (∀ m, m ∈ graph.(graph_mounts) → is_unix_path m.(mount_target) = true) →
  match set_volume_graph spec graph with
  | Ok spec' =>
      ∃ g, ServiceMountGraph_parse graph empty_mount_graph.(mg_configs) = Ok g ∧
        spec' = {| rq_name := spec.(rq_name); rq_mode := spec.(rq_mode); rq_container := spec.(rq_container);
                   rq_placement := spec.(rq_placement); rq_ports := spec.(rq_ports); rq_mount_graph := g;
                   rq_pre_deploy := spec.(rq_pre_deploy); rq_update := spec.(rq_update) |}
  | Err fault => fault ≠ Panics
  end.
Proof.
  intros Hg Hm. unfold set_volume_graph. rewrite Hg.
  pose proof (mount_graph_no_panic graph empty_mount_graph.(mg_configs) Hm) as Hnp.
  destruct (ServiceMountGraph_parse _ _) as [g|fault]; simpl; [by exists g|].
  intros ->. apply Hnp; [| |done]; intros m; set_solver.
Qed.

Lemma graph_error_no_panic fault : fault ≠ Panics → graph_error fault ≠ Panics.
Proof. by destruct fault as [[]|]. Qed.

Lemma held_mounts_unix sources mounts m :
  Forall (λ held, is_unix_path held.1.(dm_mount_path) = true) (held_mounts sources mounts) →
  m ∈ map held_mount (held_mounts sources mounts) → is_unix_path m.(mount_target) = true.
Proof.
  rewrite Forall_forall. intros Hall (held & -> & Hheld)%list_elem_of_fmap. by apply (Hall held).
Qed.

(** What a lowered volume graph holds. *)
Lemma lowered_graph_ok spec volumes mounts graph spec' :
  spec.(rq_mount_graph) = empty_mount_graph →
  (∀ m, m ∈ mounts → is_unix_path m.(mount_target) = true) →
  ServiceVolumeGraph_parse volumes mounts = Ok graph → set_volume_graph spec graph = Ok spec' →
  ∃ g, g.(mg_volumes).(graph_volumes) = volumes ∧
    Forall2 (λ m m', m' = with_target m m'.(mount_target)) mounts g.(mg_volumes).(graph_mounts) ∧
    NoDup (destinations g) ∧ Forall canonical_target (destinations g) ∧
    volume_graph_ok volumes g.(mg_volumes).(graph_mounts) ∧
    spec' = {| rq_name := spec.(rq_name); rq_mode := spec.(rq_mode);
               rq_container := spec.(rq_container); rq_placement := spec.(rq_placement);
               rq_ports := spec.(rq_ports); rq_mount_graph := g;
               rq_pre_deploy := spec.(rq_pre_deploy); rq_update := spec.(rq_update) |}.
Proof.
  intros Hempty Hunix Hparse Hset. pose proof (volume_graph_parse_spec volumes mounts) as Hspec.
  rewrite Hparse in Hspec. destruct Hspec as [-> [Hvolumes Hmounts]].
  pose proof (set_volume_graph_cases spec {| graph_volumes := volumes; graph_mounts := mounts |}
    Hempty Hunix) as Hcases. rewrite Hset in Hcases.
  destruct Hcases as (g & Hg & ->). apply mount_graph_canonical in Hg as (Hnd & Hc & Hv & _ & Hm & _).
  simpl in Hv, Hm. exists g. split_and!; try done. split; [done|].
  intros m' Hm'. apply list_elem_of_lookup in Hm' as [i Hi].
  destruct (Forall2_lookup_r _ _ _ _ _ Hm Hi) as (m & Hmi & ->). simpl. apply Hmounts.
  by eapply list_elem_of_lookup_2.
Qed.

Lemma lower_service_Ok sources config snapshot spec :
  limits_admitted config → lower_service sources config snapshot = Ok (Some spec) →
  lowered_ok sources (config, snapshot) spec.
Proof.
  intros [Hcpu Hmem]. unfold lower_service.
  destruct (sc_source _) as [| |version image credentials] eqn:Hsource; [done|done|]. cbv zeta.
  intros (healthcheck & Hhc%lower_healthcheck_Ok & H)%result_bind_Ok.
  apply result_bind_Ok in H as (replicas & [Hrange Hrep]%lower_replicas_Ok & H).
  apply result_bind_Ok in H as (nanos & Hnanos%lower_cpu_Ok & H); [|done].
  apply result_bind_Ok in H as (memory & Hmemory%lower_memory_Ok & H); [|done].
  apply result_bind_Ok in H as ([volumes mounts] & (-> & -> & Hunix)%lower_mounts_Ok & H).
  apply result_bind_Ok in H as (ports & Hports%lower_routes_Ok & H).
  destruct (sc_managed_hostnames _); [|discriminate H].
  apply result_bind_Ok in H as (hook & Hhook%lower_hook_Ok & H).
  apply result_bind_Ok in H as (bytes & Hbytes & H).
  assert (bytes = memory) as ->.
  { destruct memory as [n|]; [|by injection Hbytes as <-].
    apply result_bind_Ok in Hbytes as (b & Hb%lowers_Ok & [= <-]).
    unfold ByteQuantity_try_from in Hb. destruct (n <? 0)%Z; by simplify_eq. }
  apply result_bind_Ok in H as (labels & _ & H).
  apply result_bind_Ok in H as (graph & Hgraph%lowers_Ok & H).
  apply result_bind_Ok in H as (spec' & Hset & [= <-]).
  set (spec0 := {| rq_name := _ |}) in Hset.
  destruct (set_volume_graph spec0 graph) as [s'|] eqn:Hsv; simplify_eq/=.
  eapply (lowered_graph_ok spec0) in Hsv as (g & Hv & Hm & Hnd & Hc & Hok & ->);
    [|done|intros m; by apply held_mounts_unix|exact Hgraph].
  split; simpl; try done.
  - by exists version, credentials.
  - intros key. apply bget_with_port.
  - eexists. split; [reflexivity|]. by split.
  - apply Forall2_fmap_l in Hm. exact Hm.
  - by rewrite Hv.
Qed.

Lemma lower_service_None sources config snapshot :
  lower_service sources config snapshot = Ok None → is_deployed config = false.
Proof.
  unfold lower_service, is_deployed. destruct (sc_source _); [done|done|]. cbv zeta.
  intros Hl. repeat (apply result_bind_Ok in Hl as (? & _ & Hl)).
  case_match. apply result_bind_Ok in Hl as (ports & _ & Hl).
  destruct (sc_managed_hostnames _); [|discriminate Hl].
  by repeat (apply result_bind_Ok in Hl as (? & _ & Hl)).
Qed.

Lemma lower_service_no_panic sources config snapshot : no_panic (lower_service sources config snapshot).
Proof.
  unfold lower_service. destruct (sc_source _) as [| |version image credentials]; [done|done|]. cbv zeta.
  apply no_panic_bind; [unfold lower_healthcheck; destruct (sc_healthcheck _); auto with lowering|intros healthcheck _].
  apply no_panic_bind; [unfold lower_replicas; cbv zeta; auto with lowering|intros replicas _].
  apply no_panic_bind; [|intros nanos _].
  { unfold lower_cpu. destruct (sc_cpu_limit _) as [cpus|]; [|done].
    destruct (CpuNanos_from_cpus cpus); auto with lowering. }
  apply no_panic_bind; [|intros memory _].
  { unfold lower_memory. destruct (sc_mem_limit _) as [gb|]; [|done]. cbv zeta. auto with lowering. }
  apply no_panic_bind; [auto with lowering|].
  intros [volumes mounts] (-> & -> & Hunix)%lower_mounts_Ok.
  apply no_panic_bind; [auto with lowering|intros ports _].
  destruct (sc_managed_hostnames _); [|done].
  apply no_panic_bind; [auto with lowering|intros hook _].
  apply no_panic_bind; [destruct memory; auto with lowering|intros bytes _].
  apply no_panic_bind; [auto with lowering|intros labels _].
  apply no_panic_bind; [auto with lowering|intros graph Hgraph%lowers_Ok].
  apply no_panic_bind; [|done].
  assert (∀ m, m ∈ graph.(graph_mounts) → is_unix_path m.(mount_target) = true) as Hm.
  { pose proof (volume_graph_parse_spec (map held_volume (held_mounts sources (cfg_mounts config)))
      (map held_mount (held_mounts sources (cfg_mounts config)))) as Hspec.
    simpl in Hgraph. rewrite Hgraph in Hspec. destruct Hspec as [-> _]. intros m. by apply held_mounts_unix. }
  set (spec := {| rq_name := _ |}). pose proof (set_volume_graph_cases spec graph eq_refl Hm) as Hcases.
  unfold no_panic. destruct (set_volume_graph spec graph) as [|fault]; [done|]. simpl. intros [= Hf].
  by apply graph_error_no_panic in Hcases.
Qed.

(** ** The lowered Deploy *)

Section Lowered.
Context `{ConfigCrates} `{Serde ServiceConfig}.

Lemma parse_service_value_limits value config : parse_service_value value = Ok config → limits_admitted config.
Proof.
  unfold parse_service_value. destruct (from_value value) as [decoded|]; [|done].
  intros (settings & Hs & [= <-])%result_bind_Ok. unfold limits_admitted. cbn [cfg_settings].
  unfold parse_service_config in Hs. invert_checks. by destruct x1, x5.
Qed.

Lemma parse_snapshots_Ok captured snapshots :
  collect_result parse_snapshot captured = Ok snapshots →
  Forall2 (λ snapshot s, s.2 = snapshot ∧ parse_service_value snapshot.(ld_config) = Ok s.1)
    captured snapshots.
Proof.
  intros Hall%collect_result_Ok. eapply Forall2_impl; [exact Hall|]. intros snapshot s.
  intros (config & Hc & [= <-])%result_bind_Ok. split; [done|]. simpl.
  by destruct (parse_service_value _); simplify_eq/=.
Qed.

Lemma lower_target_Ok sources snapshots target target' :
  Forall (λ s, limits_admitted s.1) snapshots →
  try_fold (push_spec sources) snapshots target = Ok target' →
  ∃ specs, target' = target ++ specs ∧ Forall2 (lowered_ok sources) (deployed_snapshots snapshots) specs.
Proof.
  intros Hlimits. revert target. induction Hlimits as [|[config snapshot] snapshots Hl _ IH]; intros target; simpl.
  { intros [= <-]. exists []. by rewrite app_nil_r. }
  intros (target1 & Hpush & Hrest)%result_bind_Ok. apply IH in Hrest as (specs & -> & Hall).
  apply result_bind_Ok in Hpush as (spec & Hspec & [= <-]). simpl in Hspec.
  exists (option_list spec ++ specs). split; [by rewrite app_assoc|].
  unfold deployed_snapshots. cbn [List.filter fst]. destruct spec as [spec|]; simpl.
  - pose proof (lower_service_Ok _ _ _ _ Hl Hspec) as Hok.
    destruct (lo_image _ _ _ Hok) as (version & credentials & Hsource). simpl in Hsource.
    unfold is_deployed. rewrite Hsource. by constructor.
  - by rewrite (lower_service_None _ _ _ Hspec).
Qed.

(** C9: lowering never panics, and what it lowers is exact: one spec per deployed Service, in
    order, with its name and image, its resolved environment with PORT defaulted, the container
    port of its routes and HTTP check, 1 to 50 replicas, limits above zero that are the authored
    ones, each mount of a Volume the Namespace holds and no other, at distinct canonical paths,
    and its commands in order. *)
Theorem lowered_specs_exact input :
  match lower_deployment input with
  | Ok intent =>
      ∃ snapshots,
        Forall2 (λ captured s, s.2 = captured ∧ parse_service_value captured.(ld_config) = Ok s.1)
          input.(ld_snapshots) snapshots ∧
        Forall2 (lowered_ok (volume_sources_of input.(ld_volumes))) (deployed_snapshots snapshots)
          intent.(in_target) ∧
        intent.(in_namespace) = input.(ld_namespace) ∧
        intent.(in_dependencies) = deployment_dependencies snapshots input.(ld_lineages) ∧
        map attempt_name intent.(in_options).(selected)
        = default (target_names intent) (map attempt_name <$> input.(ld_selected))
  | Err fault => fault ≠ Panics
  end.
Proof.
  unfold lower_deployment. cbv zeta.
  destruct (collect_result parse_snapshot _) as [snapshots|fault] eqn:Hparse; simpl.
  2: { intros ->. apply collect_result_Err in Hparse as (snapshot & _ & Hp). unfold parse_snapshot in Hp.
       by destruct (parse_service_value _). }
  apply parse_snapshots_Ok in Hparse.
  assert (Hlimits : Forall (λ s, limits_admitted s.1) snapshots).
  { apply Forall_forall. intros s (i & Hi)%list_elem_of_lookup.
    destruct (Forall2_lookup_r _ _ _ _ _ Hparse Hi) as (captured & _ & _ & Hp).
    by eapply parse_service_value_limits. }
  destruct (try_fold _ snapshots []) as [target|fault] eqn:Htarget; simpl.
  2: { intros ->. revert Htarget. apply fold_no_panic. intros acc s. unfold push_spec.
       apply no_panic_bind; [apply lower_service_no_panic|done]. }
  apply lower_target_Ok in Htarget as (specs & -> & Hspecs); [|done]. exists snapshots.
  split; [done|]. split; [done|]. split; [done|]. split; [done|].
  destruct (ld_selected input); simpl; [done|]. by rewrite map_map.
Qed.

(** the Deploy of an Environment waits for exactly the references between its Services that
    lie on no reference cycle, with health where the other Service has an HTTP check, and those
    dependencies have no cycle. *)
Theorem lowered_dependencies_exact snapshots lineages :
  (∀ n dependency,
     dependency ∈ default [] (bget (deployment_dependencies snapshots lineages) n) ↔
     reads_service snapshots lineages n dependency.(dep_service) ∧
     ¬ rtc (reads_service snapshots lineages) dependency.(dep_service) n ∧
     dependency.(dep_condition) = waits_for snapshots dependency.(dep_service)) ∧
  ∀ n, ¬ tc (depends_on snapshots lineages) n n.
Proof. split; [apply elem_of_dependencies|apply depends_on_acyclic]. Qed.

(** C10: the planner orders every lowered Deploy whose Services have distinct names: it reports
    no dependency cycle, whatever the variables reference, and a Service comes after each Service
    it waits for. *)
Theorem lowered_deploy_orders input intent :
  lower_deployment input = Ok intent → NoDup (target_names intent) →
  ∃ specs, order_included intent (applied_names intent) = Ok specs ∧
    map rq_name specs ≡ₚ applied_names intent ∧
    dependencies_first intent (applied_names intent) specs.
Proof.
  intros Hlower Hnames. pose proof (order_included_spec intent) as Hspec. cbv zeta in Hspec.
  assert (Hdeps : ∃ snapshots lineages, intent.(in_dependencies) = deployment_dependencies snapshots lineages).
  { unfold lower_deployment in Hlower. apply result_bind_Ok in Hlower as (snapshots & _ & Hlower).
    apply result_bind_Ok in Hlower as (target & _ & [= <-]). eauto. }
  destruct Hdeps as (snapshots & lineages & Hdeps).
  destruct (order_included _ _) as [specs|[[]|]]; try done; [naive_solver|].
  exfalso. apply (depends_on_acyclic snapshots lineages service).
  eapply (tc_congruence id); [|exact Hspec]. intros n d (_ & Hd & _). simpl.
  unfold depends_on. unfold deps_of in Hd. by rewrite Hdeps in Hd.
Qed.

(** An omitted selection selects every lowered Service, so it refuses pruning, except when
    nothing is lowered: then it is empty, which reconciles the complete target. *)
Lemma omitted_selection_prunes input intent :
  lower_deployment input = Ok intent → input.(ld_selected) = None →
  prune_refusal intent true = None ↔ intent.(in_target) = [].
Proof.
  intros Hlower Hsel. unfold lower_deployment in Hlower. rewrite Hsel in Hlower.
  apply result_bind_Ok in Hlower as (snapshots & _ & Hlower).
  apply result_bind_Ok in Hlower as (target & _ & [= <-]). unfold prune_refusal. simpl. by destruct target.
Qed.
End Lowered.

(** ** A concrete Deploy *)

Module SampleLowering.
Definition settings (name : string) (healthcheck : ServiceHealthcheck) : AuthoredServiceConfig :=
  {| sc_version := 2; sc_source := SourceImage 1 "registry.example/app:1" CredentialsNone;
     sc_pre_deploy_command := None; sc_start_command := Some "serve";
     sc_healthcheck := healthcheck; sc_restart_policy := RestartAlways;
     sc_max_retries := 10; sc_replicas := 2; sc_cpu_limit := Some 4602678819172646912%N;
     sc_mem_limit := None; sc_private_dns := name; sc_routes := []; sc_managed_hostnames := [];
     sc_build := {| build_method := Railpack; dockerfile_path := None; build_command := None |};
     sc_template := None |}.

Definition config (name : string) (healthcheck : ServiceHealthcheck) (used : list string) : ServiceConfig :=
  {| cfg_settings := settings name healthcheck;
     cfg_env := [("URL", EnvLiteral "" (Some (map (λ u, PartRef (OwnerService ("lineage-" +:+ u)) "HOST") used)))];
     cfg_mounts := [{| dm_volume_resource_id := "data"; dm_volume_name := "data"; dm_mount_path := "/data/" |}] |}.

(** [web] reads [db]; [a] and [b] read each other, and [db]. *)
Definition configs : list (string * ServiceConfig) :=
  [("web", config "web" ServiceHealthNone ["db"]);
   ("a", config "a" ServiceHealthNone ["b"; "db"]); ("b", config "b" ServiceHealthNone ["a"; "db"]);
   ("db", config "db" (ServiceHealthHttp "/up" 30) [])].

(** A captured value names its configuration. *)
#[global] Instance decoder : Serde ServiceConfig :=
  {| from_value := λ value, match value with VString name => bget configs name | _ => None end;
     to_value := λ config, VString (dns_name config) |}.

Definition snapshot (name : string) : LowerDeploymentSnapshot :=
  {| ld_service_id := Some name; ld_config := VString name; ld_replicas := None;
     ld_resolved_env := []; ld_setup_commands := ["migrate"; "seed"] |}.

Definition input : LowerDeploymentInput :=
  {| ld_namespace := "app"; ld_snapshots := map snapshot ["web"; "a"; "b"; "db"];
     ld_volumes := [{| lowered_resource_id := "data"; lowered_storage := VolumeDocker |}];
     ld_lineages := map (λ name, ("lineage-" +:+ name, name)) ["a"; "b"; "db"];
     ld_selected := None |}.

Definition intent : option DeployIntent := result_ok (lower_deployment input).
End SampleLowering.

Example lowered_sample :
  (λ i, in_dependencies i) <$> SampleLowering.intent
  = Some (map (λ n, (n, [{| dep_service := "db"; dep_condition := ServiceHealthy |}])) ["a"; "b"; "web"]) ∧
  (λ i, map (λ s, map mount_target s.(rq_mount_graph).(mg_volumes).(graph_mounts)) i.(in_target))
    <$> SampleLowering.intent = Some [["/data"]; ["/data"]; ["/data"]; ["/data"]] ∧
  (λ i, result_ok (order_included i (applied_names i)) ≫= λ l, Some (map rq_name l)) <$> SampleLowering.intent
  = Some (Some ["db"; "web"; "a"; "b"]).
Proof. vm_compute. split_and!; reflexivity. Qed.

Lemma lowered_deploy_orders_witness :
  ∃ intent specs, lower_deployment SampleLowering.input = Ok intent ∧
    order_included intent (applied_names intent) = Ok specs ∧
    dependencies_first intent (applied_names intent) specs.
Proof.
  assert (Hnames : target_names <$> SampleLowering.intent = Some ["web"; "a"; "b"; "db"])
    by (vm_compute; reflexivity).
  unfold SampleLowering.intent in Hnames.
  destruct (lower_deployment SampleLowering.input) as [intent|] eqn:Hl; [|discriminate Hnames].
  injection Hnames as Hnames.
  destruct (lowered_deploy_orders SampleLowering.input intent Hl) as (specs & Ho & _ & Hf).
  { rewrite Hnames. apply (bool_decide_eq_true_1 (NoDup _)). reflexivity. }
  exists intent, specs. split; [reflexivity|]. split; [exact Ho|exact Hf].
Defined.
