(* ===== verification/Changes.v ===== *)
(** * What a review shows

    [ployz-core/src/config/service_changes.rs] (comparing the settings of a Service),
    [resource_changes.rs], [change_set_types.rs] and [change_set.rs] (the change set of an
    Environment). Comparisons are on the JSON of a configuration, as in the code; the row of a
    change is the store's to fill, and [None] here as there. *)

From S2P Require Import Prelude BTree Strings Values Spec RuntimeOutcome Config ConfigValidation.
From S2P Require Import ConfigSpec ConfigJson SyncRows SyncPut SyncLaws SyncSample BranchPlan VariableTemplate Compile.

Open Scope string_scope.
Open Scope nat_scope.
Open Scope list_scope.

(** ** Compiled configurations as JSON *)

Section Json.
Context `{JsonFloat}.

Definition ServiceEnvValue_json (value : ServiceEnvValue) : Value :=
  match value with
  | EnvLiteral value parts =>
      VObject ([("kind", VString "literal")]
               ++ match parts with
                  | Some parts => [("parts", VArray (map ValuePart_json parts))]
                  | None => []
                  end
               ++ [("value", VString value)])
  | EnvSecret variable_id encrypted_value fingerprint interpolated =>
      VObject (match encrypted_value with
               | Some sealed => [("encryptedValue", EncryptedSecretValue_json sealed)]
               | None => []
               end
               ++ [("fingerprint", VString fingerprint)]
               ++ match interpolated with Some b => [("interpolated", VBool b)] | None => [] end
               ++ [("kind", VString "secret")]
               ++ match variable_id with Some id => [("variableId", VString id)] | None => [] end)
  end.

Definition ServiceDeployMount_json (mount : ServiceDeployMount) : Value :=
  VObject [("mountPath", VString mount.(dm_mount_path)); ("volumeName", VString mount.(dm_volume_name));
           ("volumeResourceId", VString mount.(dm_volume_resource_id))].

(** The settings, flattened, with the derived fields. *)
Definition ServiceConfig_fields (config : ServiceConfig) : bmap string Value :=
  let fields :=
    match AuthoredServiceConfig_json config.(cfg_settings) with VObject fields => fields | _ => [] end in
  binsert "env" (VObject (map (λ kv, (kv.1, ServiceEnvValue_json kv.2)) config.(cfg_env)))
    (binsert "mounts" (VArray (map ServiceDeployMount_json config.(cfg_mounts))) fields).

Definition ServiceConfig_json (config : ServiceConfig) : Value := VObject (ServiceConfig_fields config).

Definition VolumeConfig_json (config : VolumeConfig) : Value :=
  VObject [("name", VString config.(vc_name)); ("storage", VolumeKind_json config.(vc_storage));
           ("version", json_u config.(vc_version))].
End Json.

(** [value[key]]: null when there is none. *)
Definition value_index (value : Value) (key : string) : Value := default VNull (value_get value key).

Definition is_null (value : Value) : bool := bool_decide (value = VNull).

(** ** Changes *)

Inductive ChangeKind : Type := ChangeAdd | ChangeUpdate | ChangeRemove.

Record ServiceSettingChange : Type := {
  sch_path : string;
  sch_kind : ChangeKind;
  sch_before : Value;
  sch_after : Value;
  sch_can_restore : bool;
  sch_row : option RowId
}.

Abbreviation Change := (ServiceSettingChange * option At)%type (only parsing).

#[global] Instance ChangeKind_eq_dec : EqDecision ChangeKind.
Proof. solve_decision. Defined.

Definition FIELDS : list (string * Setting) :=
  [("source.branch", SetBranch); ("preDeployCommand", SetPreDeployCommand);
   ("startCommand", SetStartCommand); ("restartPolicy", SetRestartPolicy);
   ("maxRetries", SetMaxRetries); ("replicas", SetReplicas); ("cpuLimit", SetCpuLimit);
   ("memLimit", SetMemLimit); ("privateDns", SetPrivateDns);
   ("managedHostnames", SetManagedHostnames); ("build.buildMethod", SetBuildMethod);
   ("build.dockerfilePath", SetDockerfilePath); ("build.command", SetBuildCommand)].

Definition change (path : string) (at_ : option At) (before after : Value) (can_restore : bool)
    : Change :=
  ({| sch_path := path;
      sch_kind := if is_null before then ChangeAdd else if is_null after then ChangeRemove
                  else ChangeUpdate;
      sch_before := before; sch_after := after; sch_can_restore := can_restore; sch_row := None |}, at_).

(** [std::mem::discriminant]. *)
Definition source_kind (source : ServiceSource) : N :=
  match source with
  | SourceEmpty _ _ => 0 | SourceGit _ _ _ _ _ _ => 1 | SourceImage _ _ _ => 2
  end.

Definition set_source_cell (config : ServiceConfig) : option Value :=
  let cell := source_cell config.(cfg_settings).(sc_source) in
  if bool_decide (cell = default_value "source") then None else Some cell.

(** ** Related settings *)

Definition indexed (family identity : string) (value : Value) : bmap string Value :=
  bcollect (omap (λ row, match value_index row identity with
                         | VString id => Some (id, row)
                         | _ => None
                         end) (value_items (value_index value family))).

(** A row of a family that differs; [restores] is that there is a baseline. *)
Definition related_change (family : string) (restores : bool) (before after : bmap string Value)
    (id : string) : option Change :=
  let before := default VNull (bget before id) in
  let after := default VNull (bget after id) in
  let equal :=
    if String.eqb family "mounts"
    then bool_decide (value_index before "mountPath" = value_index after "mountPath")
    else bool_decide (before = after) in
  if equal then None
  else
    Some (change (family +:+ "." +:+ id)
            (if String.eqb family "routes" then Some (AtSetting SetRoutes) else None)
            before after (String.eqb family "routes" && restores)).

Definition related_changes (family identity : string) (current baseline : Value) : list Change :=
  let before := indexed family identity baseline in
  let after := indexed family identity current in
  omap (related_change family (negb (is_null baseline)) before after)
    (bset_of (bkeys before ++ bkeys after)).

Definition value_fields (value : Value) : bmap string Value :=
  match value with VObject fields => fields | _ => [] end.

Definition comparable_env (value : Value) : Value :=
  if is_null value then VNull
  else if bool_decide (value_index value "kind" = VString "secret") then
    VObject [("fingerprint", value_index value "fingerprint"); ("kind", VString "secret");
             ("variableId", value_index value "variableId")]
  else
    match value_index value "parts" with
    | VArray parts => VObject [("kind", VString "template"); ("parts", VArray parts)]
    | _ => VObject [("kind", VString "literal"); ("value", value_index value "value")]
    end.

Definition redacted_env (value : Value) : Value :=
  if is_null value then VNull
  else if bool_decide (value_index value "kind" = VString "secret") then
    VObject [("kind", VString "secret")]
  else
    match value_index value "parts" with
    | VArray _ => VObject [("kind", VString "literal"); ("value", value_index value "value")]
    | _ =>
        let text := match value_index value "value" with VString text => text | _ => "" end in
        VObject [("kind", VString "literal"); ("value", VString (escape_template text))]
    end.

Definition env_change (before after : bmap string Value) (key : string) : option Change :=
  let before := default VNull (bget before key) in
  let after := default VNull (bget after key) in
  if bool_decide (comparable_env before = comparable_env after) then None
  else
    Some (change ("env." +:+ key) (Some (AtVariable key)) (redacted_env before) (redacted_env after)
            false).

Definition env_changes (current baseline : Value) : list Change :=
  let before := value_fields (value_index baseline "env") in
  let after := value_fields (value_index current "env") in
  omap (env_change before after) (bset_of (bkeys before ++ bkeys after)).

Definition compare_related_settings (current baseline : Value) : list Change :=
  related_changes "routes" "id" current baseline
  ++ related_changes "mounts" "volumeResourceId" current baseline
  ++ env_changes current baseline.

(** ** Comparing settings *)

Definition source_change (current : ServiceConfig) (baseline : option ServiceConfig) : list Change :=
  let before := baseline ≫= set_source_cell in
  let after := set_source_cell current in
  if bool_decide (before = after) then []
  else [change "source" (Some (AtSetting SetSource)) (default VNull before) (default VNull after)
          (bool_decide (is_Some baseline))].

Definition switched (current : ServiceConfig) (baseline : option ServiceConfig) : bool :=
  match baseline with
  | Some baseline =>
      negb (source_kind baseline.(cfg_settings).(sc_source) =? source_kind current.(cfg_settings).(sc_source))%N
  | None => false
  end.

Definition healthcheck_change (current baseline : Value) : list Change :=
  if bool_decide (value_at current "healthcheck" ≠ value_at baseline "healthcheck")
     && (negb (is_null baseline)
         || bool_decide (value_at current "healthcheck.type" ≠ VString "none"))
  then [change "healthcheck" (Some (AtSetting SetHealthcheck)) (value_at baseline "healthcheck")
          (value_at current "healthcheck") (negb (is_null baseline))]
  else [].

Definition field_change (switched : bool) (current baseline : Value) (field : string * Setting)
    : option Change :=
  let before := value_at baseline field.1 in
  let after := value_at current field.1 in
  if bool_decide (before = after) || (switched && String.eqb field.1 "source.branch") then None
  else if is_null baseline && bool_decide (after = default_value field.1) then None
  else Some (change field.1 (Some (AtSetting field.2)) before after (negb (is_null baseline))).

Section Compare.
Context `{JsonFloat}.

Definition compare_service_settings (current : ServiceConfig) (baseline : option ServiceConfig)
    : list Change :=
  let now := ServiceConfig_json current in
  let prior := match baseline with Some config => ServiceConfig_json config | None => VNull end in
  source_change current baseline ++ healthcheck_change now prior
  ++ omap (field_change (switched current baseline) now prior) FIELDS
  ++ compare_related_settings now prior.
End Compare.

(** ** Resources *)

Section Resources.
Context `{JsonFloat} `{ConfigCrates} `{Serde ServiceConfig} `{Serde VolumeConfig}.

Definition parse_volume_config (value : Value) : Result VolumeConfig ConfigError :=
  match from_value value with
  | None => Err (ConfigError_at "volume" "Invalid volume configuration")
  | Some config =>
      if (config.(vc_version) =? 2)%N then Ok config
      else Err (ConfigError_at "volume.version" "Expected version 2")
  end.

Definition parse_resource_config (node_type : EnvironmentNodeType) (value : Value)
    : Result Value ConfigError :=
  match node_type with
  | TypeService => let? config := parse_service_value value in Ok (ServiceConfig_json config)
  | TypeVolume => let? config := parse_volume_config value in Ok (VolumeConfig_json config)
  end.

Definition opt_result {A B E} (f : A → Result B E) (o : option A) : Result (option B) E :=
  match o with Some x => let? y := f x in Ok (Some y) | None => Ok None end.

Definition volume_changes (current : Value) (baseline : option Value) : list Change :=
  match baseline with
  | Some baseline =>
      omap (λ '(path, row),
        if bool_decide (value_at current path = value_at baseline path) then None
        else Some (change path (Some row) (value_at baseline path) (value_at current path) true))
        [("name", AtName); ("storage", AtStorage)]
  | None => [change "node" (Some AtNode) VNull (value_at current "name") true]
  end.

Definition compare_resource_settings (node_type : EnvironmentNodeType) (current : Value)
    (baseline : option Value) : Result (list Change) ConfigError :=
  match node_type with
  | TypeService =>
      let? current := parse_service_value current in
      let? baseline := opt_result parse_service_value baseline in
      Ok (compare_service_settings current baseline)
  | TypeVolume =>
      let? current := parse_resource_config node_type current in
      let? baseline := opt_result (parse_resource_config node_type) baseline in
      Ok (volume_changes current baseline)
  end.

(** ** The change set *)

Record ReviewNodeIdentity : Type := {
  ri_node_type : EnvironmentNodeType;
  ri_id : string
}.

Definition node_type_text (node_type : EnvironmentNodeType) : string :=
  match node_type with TypeService => "service" | TypeVolume => "volume" end.

Definition node_key (node : ReviewNodeIdentity) : string :=
  node_type_text node.(ri_node_type) +:+ ":" +:+ node.(ri_id).

Record ReviewNodeProjection : Type := {
  rp_node : ReviewNodeIdentity;
  rp_config : option Value
}.

Record ReviewStateProjection : Type := {
  rs_token : string;
  rs_nodes : list ReviewNodeProjection
}.

Record ChangeSetInput : Type := {
  cs_working : ReviewStateProjection;
  cs_applied : ReviewStateProjection;
  cs_saved : option ReviewStateProjection;
  cs_submitted : option ReviewStateProjection;
  cs_node_introductions : ReviewStateProjection
}.

Inductive ReviewComparisonRole : Type := RoleHead | RoleIntroduction.
Inductive ReviewLifecycleKind : Type := LifecycleCreate | LifecycleUpdate | LifecycleDelete.

Record ReviewNodeChange : Type := {
  rc_node : ReviewNodeIdentity;
  rc_lifecycle : ReviewLifecycleKind;
  rc_comparison : option ReviewComparisonRole;
  rc_settings : list Change
}.

Record ReviewChangeSet : Type := {
  rcs_groups : list ReviewNodeChange;
  rcs_total_count : nat;
  rcs_head_token : string
}.

Definition projections (state : ReviewStateProjection) : bmap string ReviewNodeProjection :=
  bcollect (map (λ node, (node_key node.(rp_node), node)) state.(rs_nodes)).

Definition config_at (nodes : bmap string ReviewNodeProjection) (key : string) : option Value :=
  node ← bget nodes key; node.(rp_config).

Definition node_settings (node : ReviewNodeIdentity) (next comparison : option Value)
    : Result (list Change) ConfigError :=
  match next, comparison with
  | Some current, Some baseline =>
      let? changes := compare_resource_settings node.(ri_node_type) current (Some baseline) in
      Ok (List.filter (λ change, negb (String.eqb change.1.(sch_path) "node")) changes)
  | _, _ => Ok []
  end.

Definition comparison_of (introductions : bmap string ReviewNodeProjection) (key : string)
    (previous : option Value) : option Value * option ReviewComparisonRole :=
  match previous with
  | Some config => (Some config, Some RoleHead)
  | None =>
      match config_at introductions key with
      | Some config => (Some config, Some RoleIntroduction)
      | None => (None, None)
      end
  end.

Definition lifecycle_of (previous next : option Value) (settings : list Change)
    : option ReviewLifecycleKind :=
  match previous, next with
  | None, Some _ => Some LifecycleCreate
  | Some _, None => Some LifecycleDelete
  | Some _, Some _ => match settings with [] => None | _ => Some LifecycleUpdate end
  | None, None => None
  end.

(** One key of the loop; [None] is its [continue]. The inner [None] is the [expect]. *)
Definition compare_node (before after introductions : bmap string ReviewNodeProjection) (key : string)
    : option (Result (option ReviewNodeChange) ConfigError) :=
  let previous := config_at before key in
  let next := config_at after key in
  node ← (match bget after key with Some node => Some node | None => bget before key end);
  let '(comparison, role) := comparison_of introductions key previous in
  Some
    (let? settings := node_settings node.(rp_node) next comparison in
     Ok ((λ lifecycle, {| rc_node := node.(rp_node); rc_lifecycle := lifecycle;
                          rc_comparison := role; rc_settings := settings |})
         <$> lifecycle_of previous next settings)).

Fixpoint compare_keys (before after introductions : bmap string ReviewNodeProjection)
    (keys : list string) : option (Result (list ReviewNodeChange) ConfigError) :=
  match keys with
  | [] => Some (Ok [])
  | key :: keys =>
      group ← compare_node before after introductions key;
      match group with
      | Err error => Some (Err error)
      | Ok group =>
          groups ← compare_keys before after introductions keys;
          Some (let? groups := groups in Ok (option_list group ++ groups))
      end
  end.

Definition compare_states (head working : ReviewStateProjection)
    (introductions : bmap string ReviewNodeProjection)
    : option (Result (list ReviewNodeChange) ConfigError) :=
  let before := projections head in
  let after := projections working in
  compare_keys before after introductions (bset_of (bkeys before ++ bkeys after)).

Definition never_applied (input : ChangeSetInput) : bmap string ReviewNodeProjection :=
  fold_left (λ m node, bremove (node_key node.(rp_node)) m)
    (List.filter (λ node, bool_decide (is_Some node.(rp_config))) input.(cs_applied).(rs_nodes))
    (projections input.(cs_node_introductions)).

Definition group_count (group : ReviewNodeChange) : nat :=
  length group.(rc_settings)
  + match group.(rc_lifecycle) with LifecycleUpdate => 0 | _ => 1 end.

Definition project_environment_changes (input : ChangeSetInput)
    : option (Result ReviewChangeSet ConfigError) :=
  let head := default input.(cs_applied) input.(cs_submitted) in
  groups ← compare_states head input.(cs_working) (never_applied input);
  Some
    (let? groups := groups in
     Ok {| rcs_groups := groups; rcs_total_count := list_sum (map group_count groups);
           rcs_head_token := head.(rs_token) |}).
End Resources.

(** ** Rows *)

Lemma bset_wf_filter `{OrdLaws K} (p : K → bool) (s : bset K) : bset_wf s → bset_wf (List.filter p s).
Proof.
  unfold bset_wf. induction 1 as [|k s Hs IH Hk]; simpl; [constructor|].
  destruct (p k); [|done]. constructor; [done|]. rewrite Forall_forall in *.
  intros x [Hx _]%elem_of_filterb. by apply Hk.
Qed.

(** Over sorted keys, the rows are those of the keys that have one. *)
Lemma omap_support `{OrdLaws K} {A} (f : K → option A) (s1 s2 : list K) :
  bset_wf s1 → bset_wf s2 → (∀ k, is_Some (f k) → k ∈ s1 ↔ k ∈ s2) → omap f s1 = omap f s2.
Proof.
  intros H1 H2 Heq.
  assert (Hkept : ∀ s : list K, omap f s = omap f (List.filter (λ k, bool_decide (is_Some (f k))) s)).
  { induction s as [|k s IH]; [done|]. cbn. destruct (f k) eqn:Hk; cbn; [rewrite Hk; f_equal|]; exact IH. }
  rewrite (Hkept s1), (Hkept s2). f_equal.
  apply bset_ext; [by apply bset_wf_filter..|].
  intros k. rewrite !elem_of_filterb, bool_decide_eq_true. naive_solver.
Qed.

Lemma filter_omap {A B} (p : B → bool) (f g : A → option B) l :
  (∀ x, x ∈ l → g x = match f x with Some y => if p y then Some y else None | None => None end) →
  List.filter p (omap f l) = omap g l.
Proof.
  induction l as [|x l IH]; intros Hg; [done|]. cbn. rewrite (Hg x) by left.
  assert (IH' : List.filter p (omap f l) = omap g l) by (apply IH; set_solver).
  destruct (f x) as [y|]; cbn; [destruct (p y); [f_equal|]|]; exact IH'.
Qed.

(** ** The JSON that is compared *)

Section Read.
Context `{JsonFloat}.

(** The JSON a compared field holds. *)
Definition field_json (config : AuthoredServiceConfig) (setting : Setting) : Value :=
  match setting with
  | SetManagedHostnames => VArray (map ServiceManagedHostname_json config.(sc_managed_hostnames))
  | SetRoutes => VArray (map ServiceRoute_json config.(sc_routes))
  | _ => setting_json config "" setting
  end.

Lemma value_at_field config path setting :
  (path, setting) ∈ ("healthcheck", SetHealthcheck) :: FIELDS →
  value_at (ServiceConfig_json config) path = field_json config.(cfg_settings) setting.
Proof.
  intros Hin. unfold ServiceConfig_json, ServiceConfig_fields, AuthoredServiceConfig_json.
  repeat (apply elem_of_cons in Hin as [[= -> ->]|Hin]); [..|by apply elem_of_nil in Hin];
    destruct (sc_template (cfg_settings config)); try reflexivity;
    cbn; unfold ServiceSource_json; by destruct (sc_source (cfg_settings config)).
Qed.

Lemma indexed_routes config :
  indexed "routes" "id" (ServiceConfig_json config)
  = bcollect (map (λ route, (route.(route_id), ServiceRoute_json route)) config.(cfg_settings).(sc_routes)).
Proof.
  unfold indexed. f_equal.
  assert (value_index (ServiceConfig_json config) "routes"
          = VArray (map ServiceRoute_json config.(cfg_settings).(sc_routes))) as ->.
  { unfold ServiceConfig_json, ServiceConfig_fields, AuthoredServiceConfig_json.
    by destruct (sc_template (cfg_settings config)). }
  simpl. by induction (sc_routes (cfg_settings config)) as [|route routes IH]; [|simpl; f_equal].
Qed.

Lemma derived_values config :
  value_index (ServiceConfig_json config) "mounts" = VArray (map ServiceDeployMount_json config.(cfg_mounts))
  ∧ value_index (ServiceConfig_json config) "env"
    = VObject (map (λ kv, (kv.1, ServiceEnvValue_json kv.2)) config.(cfg_env)).
Proof.
  unfold ServiceConfig_json, ServiceConfig_fields, AuthoredServiceConfig_json.
  by destruct (sc_template (cfg_settings config)).
Qed.
End Read.

(** ** Comparing a configuration with itself *)

Lemma related_same family restores before after id :
  bget after id = bget before id → related_change family restores before after id = None.
Proof.
  intros Heq. unfold related_change. rewrite Heq.
  destruct (String.eqb family "mounts"); by rewrite bool_decide_eq_true_2 by done.
Qed.

Lemma env_same before after key : bget after key = bget before key → env_change before after key = None.
Proof. intros Heq. unfold env_change. rewrite Heq. by rewrite bool_decide_eq_true_2. Qed.

Lemma omap_none {A B} (f : A → option B) l : (∀ x, x ∈ l → f x = None) → omap f l = [].
Proof.
  induction l as [|x l IH]; intros Hf; [done|]. cbn. rewrite (Hf x) by left.
  apply IH. set_solver.
Qed.

Lemma compare_same `{JsonFloat} config : compare_service_settings config (Some config) = [].
Proof.
  unfold compare_service_settings, compare_related_settings, source_change, healthcheck_change.
  cbn [mbind option_bind]. rewrite bool_decide_eq_true_2, bool_decide_eq_false_2 by naive_solver.
  cbn [andb app]. unfold related_changes, env_changes.
  rewrite !omap_none; [done|..].
  - intros key _. by apply env_same.
  - intros id _. by apply related_same.
  - intros id _. by apply related_same.
  - intros field _. unfold field_change. by rewrite bool_decide_eq_true_2.
Qed.

(** ** What a comparison does not depend on *)

(** A configuration without its sealed values and credential identities. *)
Definition hide_env_value (value : ServiceEnvValue) : ServiceEnvValue :=
  match value with
  | EnvSecret variable_id _ fingerprint _ => EnvSecret variable_id None fingerprint None
  | EnvLiteral _ _ => value
  end.

Definition hide_source (source : ServiceSource) : ServiceSource :=
  match source with
  | SourceImage version image (CredentialsConfigured _) => SourceImage version image (CredentialsConfigured "")
  | _ => source
  end.

Definition hide_config (config : ServiceConfig) : ServiceConfig :=
  {| cfg_settings := set_source (hide_source config.(cfg_settings).(sc_source)) config.(cfg_settings);
     cfg_env := map (λ kv, (kv.1, hide_env_value kv.2)) config.(cfg_env);
     cfg_mounts := config.(cfg_mounts) |}.

Section Hidden.
Context `{JsonFloat}.

Lemma hide_cell source : source_cell (hide_source source) = source_cell source.
Proof. by destruct source as [| |? ? []]. Qed.

Lemma hide_field config setting :
  field_json (set_source (hide_source config.(sc_source)) config) setting = field_json config setting.
Proof. destruct setting; try done; cbn; [apply hide_cell|]. by destruct (sc_source config) as [| |? ? []]. Qed.

Lemma hide_comparable value :
  comparable_env (ServiceEnvValue_json (hide_env_value value)) = comparable_env (ServiceEnvValue_json value)
  ∧ redacted_env (ServiceEnvValue_json (hide_env_value value)) = redacted_env (ServiceEnvValue_json value).
Proof. destruct value as [|[] [] ? []]; done. Qed.

Lemma bget_value_map {V W} (f : V → W) (m : bmap string V) k :
  bget (map (λ kv, (kv.1, f kv.2)) m) k = f <$> bget m k.
Proof. induction m as [|[k' v] m IH]; cbn; [done|]. by case_decide. Qed.

(** The variables of a configuration, or none. *)
Definition env_json (config : option ServiceConfig) : bmap string Value :=
  value_fields (value_index (match config with Some c => ServiceConfig_json c | None => VNull end) "env").

Lemma hide_env config :
  bkeys (env_json (hide_config <$> config)) = bkeys (env_json config)
  ∧ ∀ key, comparable_env (default VNull (bget (env_json (hide_config <$> config)) key))
             = comparable_env (default VNull (bget (env_json config) key))
           ∧ redacted_env (default VNull (bget (env_json (hide_config <$> config)) key))
             = redacted_env (default VNull (bget (env_json config) key)).
Proof.
  destruct config as [config|]; [|done]. unfold env_json. cbn [fmap option_fmap option_map].
  rewrite !(proj2 (derived_values _)). cbn [value_fields hide_config cfg_env]. split.
  { unfold bkeys. by rewrite !map_map. }
  intros key. rewrite !bget_value_map. destruct (bget (cfg_env config) key) as [value|]; [|done]. cbn.
  apply hide_comparable.
Qed.

Lemma hide_index config family identity :
  family = "routes" ∨ family = "mounts" →
  indexed family identity (ServiceConfig_json (hide_config config))
  = indexed family identity (ServiceConfig_json config).
Proof.
  intros Hf. unfold indexed. do 3 f_equal. unfold ServiceConfig_json, ServiceConfig_fields, AuthoredServiceConfig_json.
  cbn [hide_config cfg_settings sc_template set_source].
  destruct Hf as [-> | ->], (sc_template (cfg_settings config)); reflexivity.
Qed.

Lemma hide_value_at config path setting :
  (path, setting) ∈ ("healthcheck", SetHealthcheck) :: FIELDS →
  value_at (ServiceConfig_json (hide_config config)) path = value_at (ServiceConfig_json config) path.
Proof. intros Hin. rewrite !(value_at_field _ path setting Hin). apply hide_field. Qed.

Lemma hide_health_type config :
  value_at (ServiceConfig_json (hide_config config)) "healthcheck.type"
  = value_at (ServiceConfig_json config) "healthcheck.type".
Proof.
  unfold ServiceConfig_json, ServiceConfig_fields, AuthoredServiceConfig_json.
  cbn [hide_config cfg_settings sc_template set_source]. by destruct (sc_template (cfg_settings config)).
Qed.

Lemma hide_cells config : set_source_cell (hide_config config) = set_source_cell config.
Proof. unfold set_source_cell. cbn [hide_config cfg_settings sc_source set_source]. by rewrite hide_cell. Qed.

Lemma hide_kind config :
  source_kind (hide_config config).(cfg_settings).(sc_source) = source_kind config.(cfg_settings).(sc_source).
Proof. cbn. by destruct (sc_source (cfg_settings config)) as [| |? ? []]. Qed.

Lemma compare_hidden current baseline :
  compare_service_settings (hide_config current) (hide_config <$> baseline)
  = compare_service_settings current baseline.
Proof.
  unfold compare_service_settings, compare_related_settings.
  f_equal; [|f_equal; [|f_equal; [|f_equal; [|f_equal]]]].
  - unfold source_change. rewrite hide_cells. destruct baseline; [|done]. cbn. by rewrite hide_cells.
  - unfold healthcheck_change. rewrite hide_health_type, (hide_value_at current "healthcheck" SetHealthcheck) by left.
    destruct baseline; [|done]. cbn [fmap option_fmap option_map].
    by rewrite (hide_value_at _ "healthcheck" SetHealthcheck) by left.
  - apply list_omap_ext, Forall_Forall2_diag, Forall_forall. intros [path setting] Hin. unfold field_change, switched.
    cbn [fst snd]. rewrite (hide_value_at current path setting) by by right. destruct baseline; [|done].
    cbn [fmap option_fmap option_map]. rewrite (hide_value_at _ path setting) by by right. by rewrite !hide_kind.
  - unfold related_changes. rewrite hide_index by by left. destruct baseline; [|done].
    cbn [fmap option_fmap option_map]. by rewrite hide_index by by left.
  - unfold related_changes. rewrite hide_index by by right. destruct baseline; [|done].
    cbn [fmap option_fmap option_map]. by rewrite hide_index by by right.
  - destruct (hide_env (Some current)) as [Hk He], (hide_env baseline) as [Hk' He']. unfold env_changes.
    change (value_fields (value_index (ServiceConfig_json (hide_config current)) "env"))
      with (env_json (hide_config <$> Some current)).
    fold (env_json (hide_config <$> baseline)).
    rewrite Hk, Hk'. apply list_omap_ext, Forall_Forall2_diag, Forall_forall. intros key _. unfold env_change.
    destruct (He key) as [-> ->], (He' key) as [-> ->]. done.
Qed.
End Hidden.

(** C35: a review shows no secret: a comparison of Services does not depend on any sealed value or
    credential identity, so configurations that differ only in these compare alike with any
    baseline, and what is listed is the same. *)
Theorem review_shows_no_secret `{JsonFloat} current current' baseline baseline' :
  hide_config current = hide_config current' → hide_config <$> baseline = hide_config <$> baseline' →
  compare_service_settings current baseline = compare_service_settings current' baseline'.
Proof. intros Hc Hb. by rewrite <- compare_hidden, Hc, Hb, compare_hidden. Qed.

Import SampleSync.

Module SampleChanges.

(** A Service with a secret, sealed as [sealed], that runs a private image. *)
Definition private (sealed credential : string) : ServiceConfig :=
  {| cfg_settings := set_source (SourceImage 1 "acme/web" (CredentialsConfigured credential)) (web "web" None);
     cfg_env := [("TOKEN", EnvSecret (Some "v") (Some (secret 1 sealed)) "f" None)];
     cfg_mounts := [] |}.
End SampleChanges.

Lemma review_shows_no_secret_witness :
  compare_service_settings (SampleChanges.private "one" "a") (Some (SampleChanges.private "two" "b"))
  = compare_service_settings (SampleChanges.private "one" "a") (Some (SampleChanges.private "one" "a")).
Proof. apply (review_shows_no_secret); reflexivity. Defined.
