(* ===== verification/Restore.v ===== *)
(** * Taking a change back

    [restore_service_setting] of [ployz-core/src/config/service_changes.rs] and
    [ployz-core/src/config/environment_restore.rs]. A value is put into the JSON of the current
    configuration and read back, as in the code; [Panics] is an [expect] on that JSON. *)

From S2P Require Import Prelude BTree Strings Text Values Spec RuntimeOutcome Config ConfigValidation.
From S2P Require Import ConfigSpec ConfigJson SyncRows SyncPut SyncLaws SyncSample BranchPlan Compile Changes.

Open Scope string_scope.
Open Scope nat_scope.
Open Scope list_scope.

(** ** One setting *)

(** A route that is new, or comes later in the baseline. *)
Definition comes_later (baseline : list ServiceRoute) (index : nat) (route : ServiceRoute) : Prop :=
  match list_find (λ prior, prior.(route_id) = route.(route_id)) baseline with
  | Some (prior, _) => index < prior
  | None => True
  end.

#[global] Instance comes_later_dec baseline index route : Decision (comes_later baseline index route).
Proof. unfold comes_later. destruct (list_find _ _) as [[prior ?]|]; apply _. Defined.

Definition insert_route (baseline routes : list ServiceRoute) (index : nat) (restored : ServiceRoute)
    : list ServiceRoute :=
  let position :=
    match list_find (comes_later baseline index) routes with
    | Some (position, _) => position
    | None => length routes
    end in
  take position routes ++ restored :: drop position routes.

Definition restore_routes (routes baseline : list ServiceRoute) (id : string) : list ServiceRoute :=
  match list_find (λ route, route.(route_id) = id) baseline with
  | Some (index, restored) =>
      if existsb (λ route, bool_decide (route.(route_id) = id)) routes
      then update_first (λ route, bool_decide (route.(route_id) = id)) (λ _, restored) routes
      else insert_route baseline routes index restored
  | None => List.filter (λ route, negb (bool_decide (route.(route_id) = id))) routes
  end.

Definition with_settings (config : ServiceConfig) (settings : AuthoredServiceConfig) : ServiceConfig :=
  {| cfg_settings := settings; cfg_env := config.(cfg_env); cfg_mounts := config.(cfg_mounts) |}.

Definition is_field (path : string) : bool := existsb (λ field, String.eqb field.1 path) FIELDS.

Section Restore.
Context `{JsonFloat} `{ConfigCrates} `{Serde ServiceConfig}.

Definition reparse (value : Value) : Result ServiceConfig (Fault ConfigError) :=
  map_err Fails (parse_service_value value).

(** [current.get_mut(parent).and_then(as_object_mut).expect(..).insert(field, value)]. *)
Definition put_nested (fields : bmap string Value) (parent field : string) (value : Value)
    : Result Value (Fault ConfigError) :=
  match bget fields parent with
  | Some (VObject nested) => Ok (VObject (binsert parent (VObject (binsert field value nested)) fields))
  | _ => Err Panics
  end.

Definition restore_field (current baseline : ServiceConfig) (path : string)
    : Result ServiceConfig (Fault ConfigError) :=
  let fields := ServiceConfig_fields current in
  let prior := ServiceConfig_json baseline in
  match split_once "." path with
  | Some (parent, field) =>
      match value_get prior parent ≫= λ v, value_get v field with
      | None => reparse (VObject fields)
      | Some value => let? next := put_nested fields parent field value in reparse next
      end
  | None => reparse (VObject (binsert path (value_at prior path) fields))
  end.

Definition restore_service_setting (current baseline : ServiceConfig) (path : string)
    : Result ServiceConfig (Fault ConfigError) :=
  let settings := current.(cfg_settings) in
  match strip_prefix "routes." path with
  | Some id =>
      reparse (ServiceConfig_json (with_settings current
        (set_routes (restore_routes settings.(sc_routes) baseline.(cfg_settings).(sc_routes) id)
           settings)))
  | None =>
      if negb (String.eqb path "source") && negb (String.eqb path "healthcheck") && negb (is_field path)
      then Err (Fails (ConfigError_at "path" "Setting has no authored restore operation"))
      else if String.eqb path "source" then
        reparse (ServiceConfig_json (with_settings current
          (set_source (keep_branch settings.(sc_source) baseline.(cfg_settings).(sc_source)) settings)))
      else if String.eqb path "healthcheck" then
        reparse (VObject (binsert "healthcheck" (value_at (ServiceConfig_json baseline) "healthcheck")
                            (ServiceConfig_fields current)))
      else restore_field current baseline path
  end.
End Restore.

(** ** Reading back *)

Definition typed_env_value (value : ServiceEnvValue) : Prop :=
  match value with
  | EnvSecret _ encrypted _ _ => holds (λ value, is_u8 value.(sealed_version)) encrypted
  | EnvLiteral _ _ => True
  end.

(** A configuration of the program: its settings typed, its environment a map. *)
Record typed_service_config (config : ServiceConfig) : Prop := {
  tsc_settings : typed_config config.(cfg_settings);
  tsc_env : bwf config.(cfg_env) ∧ Forall (λ kv, typed_env_value kv.2) config.(cfg_env)
}.

(** Serde reads back what it writes. *)
Class ReadsConfigs `{JsonFloat} `{Serde ServiceConfig} :=
  read_service_config config :
    typed_service_config config → from_value (ServiceConfig_json config) = Some config.

(** ** The parts of an admitted configuration *)

Section Normal.
Context `{ConfigCrates}.

Definition normal (settings : AuthoredServiceConfig) : Prop := parse_service_config settings = Ok settings.

Record setting_parts (c : AuthoredServiceConfig) : Prop := {
  np_version : (c.(sc_version) =? 2)%N = true;
  np_build : normalize_build c.(sc_build) = Ok c.(sc_build);
  np_cpu : limit c.(sc_cpu_limit) CPU_LIMIT_MAX "cpuLimit" = Ok ();
  np_healthcheck : normalize_healthcheck c.(sc_healthcheck) = Ok c.(sc_healthcheck);
  np_hostnames : managed_hostnames c.(sc_managed_hostnames) [] = Ok c.(sc_managed_hostnames);
  np_retries : max_retries_in_range c.(sc_max_retries) = Ok ();
  np_mem : limit c.(sc_mem_limit) MEM_LIMIT_MAX "memLimit" = Ok ();
  np_pre : optional_trimmed c.(sc_pre_deploy_command) "command" COMMAND_MAX = Ok c.(sc_pre_deploy_command);
  np_replicas : replicas_in_range c.(sc_replicas) = Ok ();
  np_routes : normalize_routes c.(sc_routes) [] = Ok c.(sc_routes);
  np_source : normalize_source c.(sc_source) = Ok c.(sc_source);
  np_start : optional_trimmed c.(sc_start_command) "command" COMMAND_MAX = Ok c.(sc_start_command)
}.

Lemma normal_iff c : normal c ↔ setting_parts c.
Proof.
  unfold normal, parse_service_config. split.
  - intros (u1 & Hv%range_Ok & Hc)%result_bind_Ok.
    apply result_bind_Ok in Hc as (build & Hbuild & Hc).
    apply result_bind_Ok in Hc as ([] & Hcpu & Hc).
    apply result_bind_Ok in Hc as (healthcheck & Hhealth & Hc).
    apply result_bind_Ok in Hc as (hostnames & Hhosts & Hc).
    apply result_bind_Ok in Hc as ([] & Hretries & Hc).
    apply result_bind_Ok in Hc as ([] & Hmem & Hc).
    apply result_bind_Ok in Hc as (pre & Hpre & Hc).
    apply result_bind_Ok in Hc as ([] & Hreplicas & Hc).
    apply result_bind_Ok in Hc as (routes & Hroutes & Hc).
    apply result_bind_Ok in Hc as (source & Hsource & Hc).
    apply result_bind_Ok in Hc as (start & Hstart & Hc). injection Hc as Hc.
    assert (build = sc_build c) as -> by (by rewrite <- Hc).
    assert (healthcheck = sc_healthcheck c) as -> by (by rewrite <- Hc).
    assert (hostnames = sc_managed_hostnames c) as -> by (by rewrite <- Hc).
    assert (pre = sc_pre_deploy_command c) as -> by (by rewrite <- Hc).
    assert (routes = sc_routes c) as -> by (by rewrite <- Hc).
    assert (source = sc_source c) as -> by (by rewrite <- Hc).
    assert (start = sc_start_command c) as -> by (by rewrite <- Hc).
    by split.
  - intros [Hv Hbuild Hcpu Hhealth Hhosts Hretries Hmem Hpre Hreplicas Hroutes Hsource Hstart].
    rewrite Hv. cbn [range result_bind]. rewrite Hbuild. cbn [result_bind]. rewrite Hcpu. cbn [result_bind].
    rewrite Hhealth. cbn [result_bind]. rewrite Hhosts. cbn [result_bind]. rewrite Hretries.
    cbn [result_bind]. rewrite Hmem. cbn [result_bind]. rewrite Hpre. cbn [result_bind].
    rewrite Hreplicas. cbn [result_bind]. rewrite Hroutes. cbn [result_bind]. rewrite Hsource.
    cbn [result_bind]. rewrite Hstart. cbn [result_bind]. by destruct c.
Qed.

Lemma normalize_build_parts b :
  normalize_build b = Ok b ↔
  optional_trimmed b.(build_command) "build.command" COMMAND_MAX = Ok b.(build_command) ∧
  optional_trimmed b.(dockerfile_path) "build.dockerfilePath" DOCKERFILE_PATH_MAX = Ok b.(dockerfile_path).
Proof.
  unfold normalize_build. split.
  - intros (command & Hc & Hb)%result_bind_Ok. apply result_bind_Ok in Hb as (path & Hp & Hb).
    injection Hb as Hb. assert (command = build_command b) as -> by (by rewrite <- Hb).
    assert (path = dockerfile_path b) as -> by (by rewrite <- Hb). done.
  - intros [Hc Hp]. rewrite Hc. cbn [result_bind]. rewrite Hp. cbn [result_bind]. by destruct b.
Qed.

(** The branch of a git source is checked apart from the rest. *)
Lemma normalize_source_branch v r i a d b v' r' i' a' d' b' :
  normalize_source (SourceGit v r i a d b) = Ok (SourceGit v r i a d b) →
  normalize_source (SourceGit v' r' i' a' d' b') = Ok (SourceGit v' r' i' a' d' b') →
  normalize_source (SourceGit v r i a d b') = Ok (SourceGit v r i a d b').
Proof.
  cbn [normalize_source]. intros (u1 & Hv & Hs)%result_bind_Ok (? & _ & Hs')%result_bind_Ok.
  apply result_bind_Ok in Hs as (repository & Hr & Hs). apply result_bind_Ok in Hs' as (? & _ & Hs').
  apply result_bind_Ok in Hs as (u2 & Hi & Hs). apply result_bind_Ok in Hs' as (? & _ & Hs').
  apply result_bind_Ok in Hs as (u3 & Ha & Hs). apply result_bind_Ok in Hs' as (? & _ & Hs').
  apply result_bind_Ok in Hs as (dir & Hd & Hs). apply result_bind_Ok in Hs' as (? & _ & Hs').
  apply result_bind_Ok in Hs as (? & _ & Hs). apply result_bind_Ok in Hs' as (branch & Hb & Hs').
  injection Hs as -> -> _. injection Hs' as _ _ ->.
  rewrite Hv. cbn [result_bind]. rewrite Hr. cbn [result_bind]. rewrite Hi. cbn [result_bind].
  rewrite Ha. cbn [result_bind]. rewrite Hd. cbn [result_bind]. by rewrite Hb.
Qed.

Lemma normalize_routes_iff routes ids :
  normalize_routes routes ids = Ok routes ↔
  NoDup (map route_id routes) ∧
  ∀ route, route ∈ routes →
    uuid_valid route.(route_id) = true ∧ (route.(route_id) ∉ ids) ∧
    to_lowercase (trim route.(route_hostname)) = route.(route_hostname) ∧
    is_ok (IngressHost_parse route.(route_hostname)) = true ∧ route.(route_target_port) ≠ Some 0%N.
Proof.
  revert ids. induction routes as [|route routes IH]; intros ids; cbn [normalize_routes map].
  { split; [|done]. intros _. split; [constructor|set_solver]. }
  rewrite NoDup_cons. split.
  - intros (u1 & [Hu Hid]%range_Ok%andb_true_iff & Hr)%result_bind_Ok.
    apply result_bind_Ok in Hr as (u2 & Hh%range_Ok & Hr).
    apply result_bind_Ok in Hr as (u3 & Hp%range_Ok & Hr).
    apply result_bind_Ok in Hr as (rest & Hrest & Hr). injection Hr as Hroute Hrs.
    rewrite Hrs in Hrest. apply IH in Hrest as [Hnd Hall].
    apply negb_true_iff, bool_decide_eq_false in Hid, Hp.
    assert (Hhost : to_lowercase (trim (route_hostname route)) = route_hostname route)
      by (by rewrite <- Hroute at 2).
    split.
    + split; [|done]. intros (r & Hr & Hin)%list_elem_of_fmap. apply Hall in Hin as (_ & Hn & _). set_solver.
    + intros r [->|Hin]%elem_of_cons; [rewrite Hhost in Hh; done|]. apply Hall in Hin as (? & Hn & ? & ? & ?).
      split_and!; try done. set_solver.
  - intros [[Hnin Hnd] Hall]. destruct (Hall route ltac:(left)) as (Hu & Hid & Hhost & Hh & Hp).
    rewrite Hu, Hhost, Hh, (bool_decide_eq_false_2 _ Hid), (bool_decide_eq_false_2 _ Hp).
    cbn [andb negb range result_bind].
    rewrite (proj2 (IH (route_id route :: ids))); [by destruct route|]. split; [done|].
    intros r Hr. destruct (Hall r ltac:(by right)) as (? & ? & ? & ? & ?). split_and!; try done.
    apply not_elem_of_cons. split; [|done]. intros Heq. apply Hnin. rewrite <- Heq. by apply list_elem_of_fmap_2.
Qed.
End Normal.

(** ** Restored routes *)

Lemma update_first_route id restored routes :
  route_id restored = id → NoDup (map route_id routes) → id ∈ map route_id routes →
  let next := update_first (λ route, bool_decide (route.(route_id) = id)) (λ _, restored) routes in
  map route_id next = map route_id routes ∧
  ∀ r, r ∈ next ↔ r = restored ∨ route_id r ≠ id ∧ r ∈ routes.
Proof.
  intros Hid. induction routes as [|route routes IH]; simpl; [by intros _ ?%elem_of_nil|].
  intros [Hn Hnd]%NoDup_cons Hin. case_bool_decide as Hr.
  - simpl. split; [congruence|]. intros r. rewrite !elem_of_cons. split; [|naive_solver].
    intros [->|Hin']; [by left|right]. split; [|by right]. intros Heq. apply Hn.
    rewrite Hr, <- Heq. by apply list_elem_of_fmap_2.
  - apply elem_of_cons in Hin as [->|Hin]; [done|]. destruct (IH Hnd Hin) as [Hm He]. simpl.
    split; [by f_equal|]. intros r. rewrite !elem_of_cons, He. naive_solver.
Qed.

Lemma restore_routes_spec routes baseline id :
  NoDup (map route_id routes) → NoDup (map route_id baseline) →
  NoDup (map route_id (restore_routes routes baseline id)) ∧
  ∀ r, r ∈ restore_routes routes baseline id ↔
    route_id r = id ∧ r ∈ baseline ∨ route_id r ≠ id ∧ r ∈ routes.
Proof.
  intros Hr Hb. unfold restore_routes.
  destruct (list_find _ baseline) as [[index restored]|] eqn:Hfind.
  - apply list_find_Some in Hfind as (Hi & Hid & _).
    assert (Hbase : ∀ r, route_id r = id ∧ r ∈ baseline ↔ r = restored).
    { intros r. split; [|intros ->; split; [done|by eapply list_elem_of_lookup_2]].
      intros [Hrid Hin]. eapply (NoDup_map_inj route_id baseline); [done..| |congruence].
      by eapply list_elem_of_lookup_2. }
    setoid_rewrite Hbase.
    destruct (existsb _ routes) eqn:Hex.
    + apply existsb_exists in Hex as (r & Hin%list_elem_of_In & Hrid%bool_decide_eq_true).
      destruct (update_first_route id restored routes Hid Hr) as [Hm He].
      { rewrite <- Hrid. by apply list_elem_of_fmap_2. }
      rewrite Hm. split; [done|exact He].
    + assert (Hno : ∀ r, r ∈ routes → route_id r ≠ id).
      { intros r Hin Heq. apply not_true_iff_false in Hex. apply Hex. apply existsb_exists.
        exists r. split; [by apply list_elem_of_In|by rewrite bool_decide_eq_true]. }
      unfold insert_route. set (n := match list_find _ _ with Some _ => _ | None => _ end).
      split.
      * rewrite map_app. simpl. rewrite <- Permutation_middle.
        rewrite <- map_app, take_drop. apply NoDup_cons. split; [|done].
        intros (r & Hrid & Hin)%list_elem_of_fmap. by apply (Hno r Hin); congruence.
      * intros r. rewrite elem_of_app, elem_of_cons. rewrite <- (take_drop n routes) at 3.
        rewrite elem_of_app. pose proof (Hno r) as Hnr. rewrite <- (take_drop n routes), elem_of_app in Hnr.
        naive_solver.
  - rewrite list_find_None, Forall_forall in Hfind. split.
    + by apply NoDup_map_filter.
    + intros r. rewrite elem_of_filterb, negb_true_iff, bool_decide_eq_false. naive_solver.
Qed.

(** ** Settings taken from the baseline *)

(** [into] with one setting of [from]; a git branch moves between git sources only. *)
Definition take_setting (setting : Setting) (from into : AuthoredServiceConfig) : AuthoredServiceConfig :=
  match setting with
  | SetSource => set_source (keep_branch into.(sc_source) from.(sc_source)) into
  | SetBranch => set_source (keep_branch from.(sc_source) into.(sc_source)) into
  | SetManagedHostnames => set_managed_hostnames from.(sc_managed_hostnames) into
  | SetRoutes => set_routes from.(sc_routes) into
  | _ => copy_setting "" setting from into
  end.

Section Fields.
Context `{JsonFloat}.


Lemma take_same setting from into :
  setting ≠ SetSource → setting ≠ SetRoutes →
  (setting = SetBranch → source_kind from.(sc_source) = source_kind into.(sc_source)) →
  field_json (take_setting setting from into) setting = field_json from setting.
Proof.
  destruct setting; try done. intros _ _ Hk. specialize (Hk eq_refl). simpl.
  by destruct (sc_source from), (sc_source into).
Qed.

Lemma take_other setting setting' from into :
  setting ≠ setting' → ¬ (setting = SetSource ∧ setting' = SetBranch) →
  field_json (take_setting setting from into) setting' = field_json into setting'.
Proof.
  intros Hne Hb. destruct setting, setting'; try done; try (exfalso; by auto); simpl.
  by destruct (sc_source from), (sc_source into).
Qed.

Lemma take_typed setting from into :
  typed_config from → typed_config into → typed_config (take_setting setting from into).
Proof.
  intros Hf Ht. destruct Hf, Ht. destruct setting; try (split; done); split; try done; simpl;
    by destruct (sc_source from), (sc_source into).
Qed.

Lemma take_normal `{ConfigCrates} setting from into :
  normal from → normal into → normal (take_setting setting from into).
Proof.
  rewrite !normal_iff. intros Hf Ht.
  assert (Hb := proj1 (normalize_build_parts _) (np_build _ Hf)).
  assert (Hb' := proj1 (normalize_build_parts _) (np_build _ Ht)).
  destruct Hf, Ht. destruct setting; try (split; done); split; try done; simpl;
    try (apply normalize_build_parts; simpl; tauto);
    destruct (sc_source from), (sc_source into); try done; simpl; by eapply normalize_source_branch.
Qed.
End Fields.

Section Restored.
Context `{JsonFloat} `{ConfigCrates} `{!Serde ServiceConfig} `{!ReadsConfigs}.

Lemma typed_with_settings config settings :
  typed_service_config config → typed_config settings → typed_service_config (with_settings config settings).
Proof. intros [] ?. by split. Qed.

Lemma reparse_json config :
  typed_service_config config → normal config.(cfg_settings) → reparse (ServiceConfig_json config) = Ok config.
Proof.
  intros Ht Hn. unfold reparse, parse_service_value. rewrite read_service_config by done. rewrite Hn. simpl.
  by destruct config.
Qed.

(** The value is put where reading it back gives the setting of the baseline. *)
Lemma put_field current from path setting :
  (path, setting) ∈ ("healthcheck", SetHealthcheck) :: FIELDS → setting ≠ SetBranch →
  match split_once "." path with
  | Some (parent, field) =>
      put_nested (ServiceConfig_fields current) parent field (field_json from setting)
  | None => Ok (VObject (binsert path (field_json from setting) (ServiceConfig_fields current)))
  end
  = Ok (ServiceConfig_json (with_settings current (take_setting setting from current.(cfg_settings)))).
Proof.
  intros Hin Hne. unfold ServiceConfig_json, ServiceConfig_fields, AuthoredServiceConfig_json.
  repeat (apply elem_of_cons in Hin as [[= -> ->]|Hin]); [..|by apply elem_of_nil in Hin]; try done;
    cbn [with_settings take_setting copy_setting cfg_settings sc_template];
    destruct (sc_template (cfg_settings current)) eqn:Ht; cbn; rewrite Ht; reflexivity.
Qed.

Lemma nested_field config path parent field setting :
  (path, setting) ∈ FIELDS → setting ≠ SetBranch → split_once "." path = Some (parent, field) →
  (value_get (ServiceConfig_json config) parent ≫= λ v, value_get v field)
  = Some (field_json config.(cfg_settings) setting).
Proof.
  intros Hin Hne.
  unfold ServiceConfig_json, ServiceConfig_fields, AuthoredServiceConfig_json.
  repeat (apply elem_of_cons in Hin as [[= -> ->]|Hin]); [..|by apply elem_of_nil in Hin]; try done;
    intros [= <- <-]; destruct (sc_template (cfg_settings config)); reflexivity.
Qed.

Lemma field_path path setting :
  (path, setting) ∈ FIELDS →
  strip_prefix "routes." path = None ∧ String.eqb path "source" = false
  ∧ String.eqb path "healthcheck" = false ∧ is_field path = true.
Proof. intros Hin. repeat (apply elem_of_cons in Hin as [[= -> ->]|Hin]); [done..|by apply elem_of_nil in Hin]. Qed.

(** Where the Service and the baseline have the same kind of source. *)
Lemma restore_branch current baseline :
  source_kind baseline.(cfg_settings).(sc_source) = source_kind current.(cfg_settings).(sc_source) →
  restore_field current baseline "source.branch"
  = reparse (ServiceConfig_json (with_settings current
      (take_setting SetBranch baseline.(cfg_settings) current.(cfg_settings)))).
Proof.
  intros Hk. unfold restore_field, put_nested.
  assert (Hsource : ∀ config, bget (ServiceConfig_fields config) "source"
            = Some (ServiceSource_json config.(cfg_settings).(sc_source))).
  { intros config. unfold ServiceConfig_fields, AuthoredServiceConfig_json.
    by destruct (sc_template (cfg_settings config)). }
  change (split_once "." "source.branch") with (Some ("source", "branch")). cbv iota beta.
  unfold value_get at 2, ServiceConfig_json at 1. rewrite !Hsource.
  unfold ServiceConfig_json, ServiceConfig_fields, AuthoredServiceConfig_json.
  destruct (sc_source (cfg_settings baseline)) eqn:Hb, (sc_source (cfg_settings current)) eqn:Hc; try done;
    destruct (sc_template (cfg_settings current)) eqn:Ht; cbn -[reparse]; rewrite ?Hb, ?Hc, ?Ht; reflexivity.
Qed.

Lemma restore_setting current baseline path setting :
  typed_service_config current → typed_service_config baseline →
  normal current.(cfg_settings) → normal baseline.(cfg_settings) →
  (path, setting) ∈ ("source", SetSource) :: ("healthcheck", SetHealthcheck) :: FIELDS →
  (setting = SetBranch → source_kind baseline.(cfg_settings).(sc_source)
                         = source_kind current.(cfg_settings).(sc_source)) →
  restore_service_setting current baseline path
  = Ok (with_settings current (take_setting setting baseline.(cfg_settings) current.(cfg_settings))).
Proof.
  intros Htc Htb Hc Hb Hin Hk.
  rewrite <- (reparse_json (with_settings _ _)).
  2: { apply typed_with_settings, take_typed; [done|apply Htb|apply Htc]. }
  2: { by apply take_normal. }
  apply elem_of_cons in Hin as [[= -> ->]|Hin]; [done|].
  pose proof (value_at_field baseline path setting Hin) as Hvalue.
  pose proof (put_field current baseline.(cfg_settings) path setting Hin) as Hput.
  unfold restore_service_setting.
  apply elem_of_cons in Hin as [[= -> ->]|Hin].
  { rewrite Hvalue. exact (f_equal (λ next, let? next := next in reparse next) (Hput ltac:(done))). }
  destruct (field_path path setting Hin) as (-> & -> & -> & ->). cbn [negb andb].
  destruct (decide (setting = SetBranch)) as [->|Hne].
  { repeat (apply elem_of_cons in Hin as [[= ->]|Hin]); try done; [|by apply elem_of_nil in Hin].
    apply restore_branch. by apply Hk. }
  specialize (Hput Hne). unfold restore_field. destruct (split_once "." path) as [[parent field]|] eqn:Hs.
  - rewrite (nested_field baseline path parent field setting Hin Hne Hs). by rewrite Hput.
  - rewrite Hvalue. exact (f_equal (λ next, let? next := next in reparse next) Hput).
Qed.
End Restored.

(** ** What is left of a comparison *)

(** The changes at other paths. *)
Definition elsewhere (path : string) (change : Change) : bool := negb (String.eqb change.1.(sch_path) path).

Lemma elsewhere_all path changes :
  (∀ change, change ∈ changes → change.1.(sch_path) ≠ path) → List.filter (elsewhere path) changes = changes.
Proof.
  intros Hne. apply forallb_filter_id, forallb_forall. intros c Hc%list_elem_of_In.
  unfold elsewhere. by apply negb_true_iff, String.eqb_neq, Hne.
Qed.

Lemma elsewhere_one path p at_ before after restores :
  List.filter (elsewhere path) [change p at_ before after restores]
  = if String.eqb p path then [] else [change p at_ before after restores].
Proof. cbn [List.filter]. unfold elsewhere. cbn [change fst sch_path]. by destruct (String.eqb p path). Qed.

Lemma related_path family restores before after id c :
  related_change family restores before after id = Some c → c.1.(sch_path) = family +:+ "." +:+ id.
Proof. unfold related_change. case_match; [done|]. by intros [= <-]. Qed.

Lemma env_path before after key c : env_change before after key = Some c → c.1.(sch_path) = "env." +:+ key.
Proof. unfold env_change. case_match; [done|]. by intros [= <-]. Qed.

Lemma related_elsewhere path family identity current baseline :
  strip_prefix (family +:+ ".") path = None →
  List.filter (elsewhere path) (related_changes family identity current baseline)
  = related_changes family identity current baseline.
Proof.
  intros Hp. apply elsewhere_all. intros c (id & _ & Hc)%list_elem_of_omap Heq. apply related_path in Hc.
  rewrite <- Heq, Hc, <- str_app_assoc, strip_prefix_app in Hp. done.
Qed.

Lemma env_elsewhere path current baseline :
  strip_prefix "env." path = None →
  List.filter (elsewhere path) (env_changes current baseline) = env_changes current baseline.
Proof.
  intros Hp. apply elsewhere_all. intros c (id & _ & Hc)%list_elem_of_omap Heq. apply env_path in Hc.
  rewrite <- Heq, Hc, strip_prefix_app in Hp. done.
Qed.

(** A row put back as it was in the baseline is no change, and no other row moves. *)
Lemma related_restored restores before after after' id :
  (∀ k, k ≠ id → bget after' k = bget after k) → bget after' id = bget before id →
  omap (related_change "routes" restores before after') (bset_of (bkeys before ++ bkeys after'))
  = List.filter (elsewhere ("routes." +:+ id))
      (omap (related_change "routes" restores before after) (bset_of (bkeys before ++ bkeys after))).
Proof.
  intros Hother Hsame. symmetry.
  rewrite (filter_omap _ _ (related_change "routes" restores before after')).
  - apply omap_support; [apply bset_of_wf..|]. intros k [c Hc]. rewrite !elem_of_bset_of, !elem_of_app.
    destruct (decide (k = id)) as [->|Hk].
    { by rewrite related_same in Hc. }
    rewrite <- !bcontains_true. unfold bcontains. by rewrite Hother by done.
  - intros k _. destruct (decide (k = id)) as [->|Hk].
    + rewrite (related_same _ _ _ after') by done.
      destruct (related_change _ _ before after id) as [c|] eqn:Hc; [|done]. apply related_path in Hc.
      unfold elsewhere. rewrite Hc. by rewrite String.eqb_refl.
    + assert (related_change "routes" restores before after' k = related_change "routes" restores before after k)
        as -> by (unfold related_change; by rewrite Hother by done).
      destruct (related_change _ _ before after k) as [c|] eqn:Hc; [|done]. apply related_path in Hc.
      unfold elsewhere. rewrite Hc. case_match eqn:Heq; [done|]. apply negb_false_iff, String.eqb_eq in Heq.
      by apply (str_app_inj_l "routes.") in Heq.
Qed.

Section Left.
Context `{JsonFloat}.

(** A comparison changes as its parts do. *)
Lemma compare_parts path current settings baseline :
  let restored := with_settings current settings in
  let now := ServiceConfig_json current in
  let next := ServiceConfig_json restored in
  let prior := ServiceConfig_json baseline in
  source_change restored (Some baseline)
    = List.filter (elsewhere path) (source_change current (Some baseline)) →
  healthcheck_change next prior = List.filter (elsewhere path) (healthcheck_change now prior) →
  (∀ field, field ∈ FIELDS →
    field_change (switched restored (Some baseline)) next prior field
    = if String.eqb field.1 path then None
      else field_change (switched current (Some baseline)) now prior field) →
  related_changes "routes" "id" next prior
    = List.filter (elsewhere path) (related_changes "routes" "id" now prior) →
  strip_prefix "mounts." path = None → strip_prefix "env." path = None →
  compare_service_settings restored (Some baseline)
  = List.filter (elsewhere path) (compare_service_settings current (Some baseline)).
Proof.
  intros restored now next prior Hsource Hhealth Hfields Hroutes Hmounts Henv.
  unfold compare_service_settings, compare_related_settings. fold restored now next prior.
  rewrite !List.filter_app, Hsource, Hhealth, Hroutes.
  rewrite (related_elsewhere path "mounts"), env_elsewhere by done.
  destruct (derived_values restored) as [Hm He], (derived_values current) as [Hm' He'].
  assert (related_changes "mounts" "volumeResourceId" next prior
          = related_changes "mounts" "volumeResourceId" now prior) as ->.
  { unfold related_changes, indexed, next, now. by rewrite Hm, Hm'. }
  assert (env_changes next prior = env_changes now prior) as ->.
  { unfold env_changes, next, now. by rewrite He, He'. }
  do 3 f_equal. symmetry. apply filter_omap. intros field Hin. rewrite Hfields by done.
  destruct (field_change _ now prior field) as [c|] eqn:Hc; [|by case_match].
  unfold field_change in Hc. destruct (_ || _); [done|]. destruct (_ && _); [done|]. injection Hc as <-.
  unfold elsewhere. simpl. by case_match.
Qed.

(** ** One setting taken back *)

Definition SETTINGS : list (string * Setting) :=
  ("source", SetSource) :: ("healthcheck", SetHealthcheck) :: FIELDS.

Lemma settings_paths path setting path' setting' :
  (path, setting) ∈ SETTINGS → (path', setting') ∈ SETTINGS →
  String.eqb path' path = bool_decide (setting' = setting).
Proof.
  intros Hin Hin'.
  assert (Hall : forallb (λ x, forallb (λ y, Bool.eqb (String.eqb y.1 x.1) (bool_decide (y.2 = x.2))) SETTINGS)
                   SETTINGS = true) by by vm_compute.
  rewrite forallb_forall in Hall. specialize (Hall (path, setting) (proj1 (list_elem_of_In _ _) Hin)).
  rewrite forallb_forall in Hall. specialize (Hall (path', setting') (proj1 (list_elem_of_In _ _) Hin')).
  by apply eqb_prop in Hall.
Qed.

Lemma settings_prefix path setting :
  (path, setting) ∈ SETTINGS →
  strip_prefix "routes." path = None ∧ strip_prefix "mounts." path = None ∧ strip_prefix "env." path = None
  ∧ setting ≠ SetRoutes.
Proof. intros Hin. repeat (apply elem_of_cons in Hin as [[= -> ->]|Hin]); [done..|by apply elem_of_nil in Hin]. Qed.

Lemma take_kind setting from into :
  source_kind (take_setting setting from into).(sc_source)
  = if bool_decide (setting = SetSource) then source_kind from.(sc_source) else source_kind into.(sc_source).
Proof. destruct setting; try done; simpl; by destruct (sc_source from), (sc_source into). Qed.

Lemma take_routes setting from into :
  setting ≠ SetRoutes → (take_setting setting from into).(sc_routes) = into.(sc_routes).
Proof. by destruct setting. Qed.

Lemma take_cell setting from into :
  source_cell (take_setting setting from into).(sc_source)
  = source_cell (if bool_decide (setting = SetSource) then from else into).(sc_source).
Proof. destruct setting; try done; simpl; by destruct (sc_source from), (sc_source into). Qed.

Lemma restored_source path setting current baseline :
  (path, setting) ∈ SETTINGS →
  source_change (with_settings current (take_setting setting baseline.(cfg_settings) current.(cfg_settings)))
    (Some baseline)
  = List.filter (elsewhere path) (source_change current (Some baseline)).
Proof.
  intros Hin. pose proof (settings_paths path setting "source" SetSource Hin ltac:(left)) as Hp.
  unfold source_change, set_source_cell. cbn [with_settings cfg_settings]. rewrite take_cell. cbn [mbind option_bind].
  destruct (decide (setting = SetSource)) as [->|Hne].
  - rewrite (bool_decide_eq_true_2 (SetSource = SetSource)) in * by done.
    rewrite bool_decide_eq_true_2 by done. case_bool_decide; [done|]. by rewrite elsewhere_one, Hp.
  - rewrite (bool_decide_eq_false_2 (setting = _)) by done. rewrite bool_decide_eq_false_2 in Hp by congruence.
    case_bool_decide; [done|]. by rewrite elsewhere_one, Hp.
Qed.

Lemma value_at_setting path setting config :
  (path, setting) ∈ SETTINGS → setting ≠ SetSource →
  value_at (ServiceConfig_json config) path = field_json config.(cfg_settings) setting.
Proof. intros [[= -> ->]|Hin]%elem_of_cons Hne; [done|]. by apply value_at_field. Qed.

Lemma restored_healthcheck path setting current baseline :
  (path, setting) ∈ SETTINGS →
  healthcheck_change (ServiceConfig_json (with_settings current
    (take_setting setting baseline.(cfg_settings) current.(cfg_settings)))) (ServiceConfig_json baseline)
  = List.filter (elsewhere path)
      (healthcheck_change (ServiceConfig_json current) (ServiceConfig_json baseline)).
Proof.
  intros Hin. assert (Hh : ("healthcheck", SetHealthcheck) ∈ SETTINGS) by (right; left).
  pose proof (settings_paths path setting _ _ Hin Hh) as Hp.
  assert (Hv := λ config, value_at_setting _ SetHealthcheck config Hh ltac:(done)).
  unfold healthcheck_change. rewrite !Hv. clear Hv.
  assert (is_null (ServiceConfig_json baseline) = false) as -> by done. cbn [negb orb with_settings cfg_settings].
  rewrite !andb_true_r. destruct (decide (setting = SetHealthcheck)) as [->|Hne].
  - rewrite bool_decide_eq_true_2 in Hp by done. rewrite bool_decide_eq_false_2 by (intros []; by apply take_same).
    case_bool_decide; [|done]. by rewrite elsewhere_one, Hp.
  - rewrite bool_decide_eq_false_2 in Hp by congruence. rewrite take_other by (try done; naive_solver).
    case_bool_decide; [|done]. by rewrite elsewhere_one, Hp.
Qed.

Lemma restored_fields path setting current baseline field :
  let restored := with_settings current (take_setting setting baseline.(cfg_settings) current.(cfg_settings)) in
  (path, setting) ∈ SETTINGS → field ∈ FIELDS →
  (setting = SetBranch → source_kind baseline.(cfg_settings).(sc_source)
                         = source_kind current.(cfg_settings).(sc_source)) →
  field_change (switched restored (Some baseline)) (ServiceConfig_json restored) (ServiceConfig_json baseline) field
  = if String.eqb field.1 path then None
    else field_change (switched current (Some baseline)) (ServiceConfig_json current)
           (ServiceConfig_json baseline) field.
Proof.
  intros restored Hin Hf Hk. destruct field as [path' setting'].
  assert (Hf' : (path', setting') ∈ SETTINGS) by (by do 2 right).
  assert (Hne : setting' ≠ SetSource ∧ setting' ≠ SetRoutes).
  { clear -Hf. repeat (apply elem_of_cons in Hf as [[= _ ->]|Hf]); [done..|by apply elem_of_nil in Hf]. }
  unfold field_change. cbn [fst snd]. rewrite (settings_paths path setting path' setting') by done.
  assert (is_null (ServiceConfig_json baseline) = false) as -> by done. cbn [negb andb].
  assert (Hv := λ config, value_at_setting path' setting' config Hf' (proj1 Hne)).
  rewrite !Hv. clear Hv. cbn [restored with_settings cfg_settings].
  destruct (decide (setting' = setting)) as [->|Hs].
  { rewrite (bool_decide_eq_true_2 (setting = setting)), take_same by naive_solver.
    by rewrite bool_decide_eq_true_2. }
  rewrite (bool_decide_eq_false_2 (setting' = setting)) by done.
  unfold switched. cbn [restored with_settings cfg_settings]. rewrite take_kind.
  destruct (decide (setting = SetSource)) as [->|Hsource].
  2: { rewrite (bool_decide_eq_false_2 (setting = SetSource)), take_other by naive_solver. done. }
  rewrite (bool_decide_eq_true_2 (SetSource = SetSource)), N.eqb_refl by done. cbn [negb andb]. rewrite orb_false_r.
  rewrite (settings_paths "source.branch" SetBranch path' setting') by (try done; by do 2 right; left).
  destruct (decide (setting' = SetBranch)) as [->|Hbranch].
  2: { rewrite (bool_decide_eq_false_2 (setting' = SetBranch)), andb_false_r, orb_false_r, take_other by naive_solver.
       done. }
  rewrite (bool_decide_eq_true_2 (SetBranch = SetBranch)), andb_true_r by done. cbn.
  destruct (sc_source (cfg_settings baseline)), (sc_source (cfg_settings current)); cbn;
    rewrite ?orb_false_r, ?orb_true_r; try done; by rewrite bool_decide_eq_true_2.
Qed.

(** Every change that can be taken back but a route's is that of a setting. *)
Lemma restored_compare path setting current baseline :
  (path, setting) ∈ SETTINGS →
  (setting = SetBranch → source_kind baseline.(cfg_settings).(sc_source)
                         = source_kind current.(cfg_settings).(sc_source)) →
  compare_service_settings
    (with_settings current (take_setting setting baseline.(cfg_settings) current.(cfg_settings))) (Some baseline)
  = List.filter (elsewhere path) (compare_service_settings current (Some baseline)).
Proof.
  intros Hin Hk. destruct (settings_prefix path setting Hin) as (Hr & Hm & He & Hne).
  apply compare_parts; try done.
  - by apply restored_source.
  - by apply restored_healthcheck.
  - intros field Hf. by apply restored_fields.
  - rewrite (related_elsewhere path "routes") by done.
    unfold related_changes. rewrite !indexed_routes. cbn [with_settings cfg_settings]. by rewrite take_routes.
Qed.
End Left.

(** ** One route taken back *)

Section Routes.
Context `{JsonFloat}.

Lemma bget_routes (routes : list ServiceRoute) k v :
  NoDup (map route_id routes) →
  bget (bcollect (map (λ route, (route.(route_id), ServiceRoute_json route)) routes)) k = Some v
  ↔ ∃ route, route ∈ routes ∧ route.(route_id) = k ∧ v = ServiceRoute_json route.
Proof.
  intros Hnd. rewrite bget_bcollect by by rewrite map_map. rewrite list_elem_of_fmap.
  split; [intros (r & [= -> ->] & Hr)|intros (r & Hr & <- & ->)]; by exists r.
Qed.

Lemma restored_routes_get routes baseline id :
  NoDup (map route_id routes) → NoDup (map route_id baseline) →
  let table routes := bcollect (map (λ route, (route.(route_id), ServiceRoute_json route)) routes) in
  (∀ k, k ≠ id → bget (table (restore_routes routes baseline id)) k = bget (table routes) k)
  ∧ bget (table (restore_routes routes baseline id)) id = bget (table baseline) id.
Proof.
  intros Hr Hb. destruct (restore_routes_spec routes baseline id Hr Hb) as [Hnd Hin]. split.
  - intros k Hk. apply option_eq. intros v. rewrite !bget_routes by done. setoid_rewrite Hin. naive_solver.
  - apply option_eq. intros v. rewrite !bget_routes by done. setoid_rewrite Hin. naive_solver.
Qed.

Lemma restored_route_compare id current baseline :
  NoDup (map route_id current.(cfg_settings).(sc_routes)) →
  NoDup (map route_id baseline.(cfg_settings).(sc_routes)) →
  compare_service_settings
    (with_settings current
       (set_routes (restore_routes current.(cfg_settings).(sc_routes) baseline.(cfg_settings).(sc_routes) id)
          current.(cfg_settings)))
    (Some baseline)
  = List.filter (elsewhere ("routes." +:+ id)) (compare_service_settings current (Some baseline)).
Proof.
  intros Hc Hb. assert (Hfields : ∀ config routes path setting, (path, setting) ∈ SETTINGS → setting ≠ SetSource →
    value_at (ServiceConfig_json (with_settings config (set_routes routes config.(cfg_settings)))) path
    = value_at (ServiceConfig_json config) path).
  { intros config routes path setting Hin Hne. rewrite !(value_at_setting path setting _ Hin Hne).
    destruct (settings_prefix path setting Hin) as (_ & _ & _ & Hr). by destruct setting. }
  apply compare_parts; try done.
  - symmetry. apply elsewhere_all. intros c Hin. unfold source_change in Hin.
    case_bool_decide; [by apply elem_of_nil in Hin|]. by apply list_elem_of_singleton in Hin as ->.
  - unfold healthcheck_change. rewrite (Hfields _ _ "healthcheck" SetHealthcheck) by (try done; right; left).
    assert (is_null (ServiceConfig_json baseline) = false) as -> by done. cbn [negb orb]. rewrite !andb_true_r.
    case_bool_decide; [|done]. rewrite elsewhere_one.
    destruct (String.eqb_spec "healthcheck" ("routes." +:+ id)); done.
  - intros [path setting] Hin. destruct (field_path path setting Hin) as (Hp & _). cbn [fst].
    destruct (String.eqb_spec path ("routes." +:+ id)) as [->|_]; [by rewrite strip_prefix_app in Hp|].
    unfold field_change. cbn [fst snd]. rewrite (Hfields _ _ path setting); [done|by do 2 right|].
    intros ->. clear -Hin. repeat (apply elem_of_cons in Hin as [[=]|Hin]); by apply elem_of_nil in Hin.
  - unfold related_changes. rewrite !indexed_routes. cbn [with_settings cfg_settings sc_routes set_routes].
    destruct (restored_routes_get _ _ id Hc Hb) as [Hother Hsame]. by apply related_restored.
Qed.
End Routes.

(** ** Taking a listed change back *)

Section Taken.
Context `{JsonFloat}.

(** What can be taken back is a setting or a route. *)
Lemma restorable_rows current baseline c :
  c ∈ compare_service_settings current (Some baseline) → c.1.(sch_can_restore) = true →
  (∃ setting, (c.1.(sch_path), setting) ∈ SETTINGS
    ∧ (setting = SetBranch → source_kind baseline.(cfg_settings).(sc_source)
                             = source_kind current.(cfg_settings).(sc_source)))
  ∨ ∃ id, c.1.(sch_path) = "routes." +:+ id.
Proof.
  unfold compare_service_settings, compare_related_settings. rewrite !elem_of_app.
  intros [Hc|[Hc|[Hc|[Hc|[Hc|Hc]]]]] Hr.
  - unfold source_change in Hc. case_bool_decide; [by apply elem_of_nil in Hc|].
    apply list_elem_of_singleton in Hc as ->. left. exists SetSource. split; [left|done].
  - unfold healthcheck_change in Hc. destruct (_ && _); [|by apply elem_of_nil in Hc].
    apply list_elem_of_singleton in Hc as ->. left. exists SetHealthcheck. split; [right; left|done].
  - apply list_elem_of_omap in Hc as ([path setting] & Hin & Hc). left. exists setting.
    unfold field_change in Hc. destruct (_ || _) eqn:Hskip; [done|]. destruct (is_null _ && _); [done|].
    injection Hc as <-. split; [by do 2 right|]. intros ->. apply orb_false_iff in Hskip as [_ Hskip].
    assert (String.eqb path "source.branch" = true) as Hb.
    { rewrite (settings_paths "source.branch" SetBranch path SetBranch); [by rewrite bool_decide_eq_true_2|..];
        [do 2 right; left|by do 2 right]. }
    cbn [fst] in Hskip. rewrite Hb, andb_true_r in Hskip. by apply negb_false_iff, N.eqb_eq in Hskip.
  - apply list_elem_of_omap in Hc as (id & _ & Hc%related_path). right. by exists id.
  - apply list_elem_of_omap in Hc as (id & _ & Hc). unfold related_change in Hc. case_match; [done|].
    by injection Hc as <-.
  - apply list_elem_of_omap in Hc as (id & _ & Hc). unfold env_change in Hc. case_match; [done|].
    by injection Hc as <-.
Qed.

(** The other rows are derived effects. *)
Lemma derived_path current baseline c :
  c ∈ compare_service_settings current (Some baseline) → c.1.(sch_can_restore) = false →
  ∃ id, c.1.(sch_path) = "mounts." +:+ id ∨ c.1.(sch_path) = "env." +:+ id.
Proof.
  unfold compare_service_settings, compare_related_settings. rewrite !elem_of_app.
  intros [Hc|[Hc|[Hc|[Hc|[Hc|Hc]]]]] Hr.
  - unfold source_change in Hc. case_bool_decide; [by apply elem_of_nil in Hc|].
    by apply list_elem_of_singleton in Hc as ->.
  - unfold healthcheck_change in Hc. destruct (_ && _); [|by apply elem_of_nil in Hc].
    by apply list_elem_of_singleton in Hc as ->.
  - apply list_elem_of_omap in Hc as (field & _ & Hc). unfold field_change in Hc.
    destruct (_ || _); [done|]. destruct (is_null _ && _); [done|]. by injection Hc as <-.
  - apply list_elem_of_omap in Hc as (id & _ & Hc). unfold related_change in Hc. case_match; [done|].
    by injection Hc as <-.
  - apply list_elem_of_omap in Hc as (id & _ & Hc%related_path). exists id. by left.
  - apply list_elem_of_omap in Hc as (id & _ & Hc%env_path). exists id. by right.
Qed.

Context `{ConfigCrates} `{!Serde ServiceConfig} `{!ReadsConfigs}.

Lemma normal_route_ids settings : normal settings → NoDup (map route_id settings.(sc_routes)).
Proof. intros Hn%normal_iff%np_routes%normalize_routes_iff. apply Hn. Qed.

Lemma route_normal into from id :
  normal into → normal from →
  normal (set_routes (restore_routes into.(sc_routes) from.(sc_routes) id) into).
Proof.
  intros Hc Hb.
  destruct (restore_routes_spec _ _ id (normal_route_ids _ Hc) (normal_route_ids _ Hb)) as [Hnd Hin].
  apply normal_iff in Hc, Hb. apply normal_iff.
  assert (Hr := proj1 (normalize_routes_iff _ _) (np_routes _ Hc)).
  assert (Hr' := proj1 (normalize_routes_iff _ _) (np_routes _ Hb)).
  destruct Hc. split; try done. cbn [sc_routes set_routes].
  apply normalize_routes_iff. split; [done|]. intros r [[_ Hin']|[_ Hin']]%Hin; [by apply Hr'|by apply Hr].
Qed.

Lemma route_typed current baseline id :
  typed_service_config current → typed_service_config baseline →
  normal current.(cfg_settings) → normal baseline.(cfg_settings) →
  typed_config (set_routes (restore_routes current.(cfg_settings).(sc_routes)
                              baseline.(cfg_settings).(sc_routes) id) current.(cfg_settings)).
Proof.
  intros Htc Htb Hc Hb.
  destruct (restore_routes_spec _ _ id (normal_route_ids _ Hc) (normal_route_ids _ Hb)) as [_ Hin].
  destruct (tsc_settings _ Htc), (tsc_settings _ Htb). split; try done.
  cbn [sc_routes set_routes]. rewrite Forall_forall in *. intros r [[_ Hr]|[_ Hr]]%Hin; auto.
Qed.

Lemma restore_route current baseline id :
  typed_service_config current → typed_service_config baseline →
  normal current.(cfg_settings) → normal baseline.(cfg_settings) →
  restore_service_setting current baseline ("routes." +:+ id)
  = Ok (with_settings current
          (set_routes (restore_routes current.(cfg_settings).(sc_routes) baseline.(cfg_settings).(sc_routes) id)
             current.(cfg_settings))).
Proof.
  intros Htc Htb Hc Hb. unfold restore_service_setting. rewrite strip_prefix_app.
  apply reparse_json; [|by apply route_normal]. apply typed_with_settings; [done|by apply route_typed].
Qed.

(** A derived effect has nothing authored to take back. *)
Lemma derived_refused current baseline c :
  c ∈ compare_service_settings current (Some baseline) → c.1.(sch_can_restore) = false →
  restore_service_setting current baseline c.1.(sch_path)
  = Err (Fails (ConfigError_at "path" "Setting has no authored restore operation")).
Proof. intros Hin Hr. by destruct (derived_path current baseline c Hin Hr) as [id [-> | ->]]. Qed.

Lemma restore_listed current baseline c :
  typed_service_config current → typed_service_config baseline →
  normal current.(cfg_settings) → normal baseline.(cfg_settings) →
  c ∈ compare_service_settings current (Some baseline) → c.1.(sch_can_restore) = true →
  ∃ settings,
    restore_service_setting current baseline c.1.(sch_path) = Ok (with_settings current settings)
    ∧ normal settings ∧ typed_config settings ∧ settings.(sc_template) = current.(cfg_settings).(sc_template)
    ∧ compare_service_settings (with_settings current settings) (Some baseline)
      = List.filter (elsewhere c.1.(sch_path)) (compare_service_settings current (Some baseline)).
Proof.
  intros Htc Htb Hc Hb Hin Hr.
  destruct (restorable_rows current baseline c Hin Hr) as [(setting & Hs & Hk)|[id ->]].
  - eexists. split_and!; [by apply restore_setting|by apply take_normal| |by destruct setting|by apply restored_compare].
    apply take_typed; [apply Htb|apply Htc].
  - eexists. split_and!; [by apply restore_route|by apply route_normal| |done|].
    + by apply route_typed.
    + apply restored_route_compare; by apply normal_route_ids.
Qed.
End Taken.

(** C33: taking a listed change of a Service back never panics. A change that can be restored is
    taken back, keeping the variables, the mounts and the template: the result is admitted and
    differs from the baseline in exactly the other changes listed. A derived effect is refused. *)
Theorem restoring_takes_one_back `{JsonFloat} `{ConfigCrates} `{!Serde ServiceConfig} `{!ReadsConfigs}
    current baseline c :
  typed_service_config current → typed_service_config baseline →
  normal current.(cfg_settings) → normal baseline.(cfg_settings) →
  c ∈ compare_service_settings current (Some baseline) →
  let path := c.1.(sch_path) in
  if c.1.(sch_can_restore)
  then ∃ restored,
    restore_service_setting current baseline path = Ok restored
    ∧ normal restored.(cfg_settings)
    ∧ restored.(cfg_env) = current.(cfg_env) ∧ restored.(cfg_mounts) = current.(cfg_mounts)
    ∧ restored.(cfg_settings).(sc_template) = current.(cfg_settings).(sc_template)
    ∧ compare_service_settings restored (Some baseline)
      = List.filter (λ change, negb (String.eqb change.1.(sch_path) path))
          (compare_service_settings current (Some baseline))
  else restore_service_setting current baseline path
       = Err (Fails (ConfigError_at "path" "Setting has no authored restore operation")).
Proof.
  intros Htc Htb Hc Hb Hin path. destruct (sch_can_restore c.1) eqn:Hr; [|by apply derived_refused].
  destruct (restore_listed current baseline c Htc Htb Hc Hb Hin Hr) as (settings & Ho & Hn & _ & Ht & Heq). eauto 10.
Qed.

(** ** A sample *)

Module SampleRestore.
Import SampleSync.

(** A field left out when there is none. *)
Definition left_out {A} (read : Value → option A) : string → Value → option (option A) :=
  defaulted None (λ v, Some <$> read v).

Definition read_env_value (v : Value) : option ServiceEnvValue :=
  kind ← field text "kind" v;
  if String.eqb kind "literal" then
    parts ← left_out (list_of part) "parts" v;
    value ← field text "value" v;
    Some (EnvLiteral value parts)
  else if String.eqb kind "secret" then
    sealed ← left_out encrypted "encryptedValue" v;
    fingerprint ← field text "fingerprint" v;
    interpolated ← left_out flag "interpolated" v;
    id ← left_out text "variableId" v;
    Some (EnvSecret id sealed fingerprint interpolated)
  else None.

Definition env (v : Value) : option (bmap string ServiceEnvValue) :=
  match v with VObject fields => mapM (λ kv, (λ x, (kv.1, x)) <$> read_env_value kv.2) fields | _ => None end.

Definition mount (v : Value) : option ServiceDeployMount :=
  path ← field text "mountPath" v;
  name ← field text "volumeName" v;
  id ← field text "volumeResourceId" v;
  Some {| dm_volume_resource_id := id; dm_volume_name := name; dm_mount_path := path |}.

Definition service_config (v : Value) : option ServiceConfig :=
  settings ← config v;
  env ← defaulted [] env "env" v;
  mounts ← defaulted [] (list_of mount) "mounts" v;
  Some {| cfg_settings := settings; cfg_env := env; cfg_mounts := mounts |}.

#[export] Instance reader : Serde ServiceConfig :=
  {| from_value := service_config; to_value := ServiceConfig_json |}.

Lemma present_read {A} (read : Value → option A) (json : A → Value) o key v :
  value_get v key = json <$> o → holds (λ x, read (json x) = Some x) o → left_out read key v = Some o.
Proof. unfold left_out, defaulted. intros ->. destruct o; [|done]. by intros Hx; simpl in *; rewrite Hx. Qed.

Lemma env_value_read x : typed_env_value x → read_env_value (ServiceEnvValue_json x) = Some x.
Proof.
  intros Hx. destruct x as [value parts|id sealed fingerprint interpolated]; unfold read_env_value.
  - rewrite (field_read text "kind" _ (VString "literal") "literal") by (by destruct parts). cbn [mbind option_bind String.eqb Ascii.eqb Bool.eqb].
    rewrite (present_read _ (λ l, VArray (map ValuePart_json l)) parts) by
      (destruct parts; first [reflexivity|apply list_read, Forall_forall; intros y _; apply part_read]).
    cbn [mbind option_bind]. by rewrite (field_read text "value" _ (VString value) value) by (by destruct parts).
  - rewrite (field_read text "kind" _ (VString "secret") "secret")
      by (by destruct sealed, interpolated, id). cbn [mbind option_bind String.eqb Ascii.eqb Bool.eqb].
    rewrite (present_read _ EncryptedSecretValue_json sealed)
      by (destruct sealed, interpolated, id; first [reflexivity|by apply encrypted_read]).
    cbn [mbind option_bind].
    rewrite (field_read text "fingerprint" _ (VString fingerprint) fingerprint)
      by (by destruct sealed, interpolated, id). cbn [mbind option_bind].
    rewrite (present_read _ VBool interpolated) by (by destruct sealed, interpolated, id). cbn [mbind option_bind].
    by rewrite (present_read _ VString id) by (by destruct sealed, interpolated, id).
Qed.

Lemma env_read m : Forall (λ kv, typed_env_value kv.2) m → env (VObject (map (λ kv, (kv.1, ServiceEnvValue_json kv.2)) m)) = Some m.
Proof.
  intros Hm. apply (mapM_fmap_Forall_Some (λ kv, (λ x, (kv.1, x)) <$> read_env_value kv.2)
    (λ kv, (kv.1, ServiceEnvValue_json kv.2)) m).
  eapply Forall_impl; [exact Hm|]. intros [k x] Hx. cbn [fst snd] in *. by rewrite env_value_read.
Qed.

Lemma config_ext v v' :
  (∀ key, key ≠ "env" → key ≠ "mounts" → value_get v key = value_get v' key) → config v = config v'.
Proof. intros Hv. unfold config, field, defaulted. by rewrite !Hv by done. Qed.

#[export] Instance reads_configs : ReadsConfigs.
Proof.
  intros c [Ht [_ He]]. change (service_config (ServiceConfig_json c) = Some c). unfold service_config.
  rewrite (config_ext _ (AuthoredServiceConfig_json c.(cfg_settings))).
  2: { intros key Hk1 Hk2. unfold ServiceConfig_json, ServiceConfig_fields. cbn [value_get].
       by rewrite !bget_binsert_ne by done. }
  rewrite config_read by done. cbn [mbind option_bind].
  destruct (derived_values c) as [Hm Hv]. unfold value_index in Hm, Hv. unfold defaulted.
  destruct (value_get _ "env") as [e|]; [|done]. destruct (value_get _ "mounts") as [m|]; [|done].
  cbn in Hm, Hv. subst. rewrite env_read by done. cbn [mbind option_bind].
  rewrite (list_read mount ServiceDeployMount_json); [by destruct c|].
  apply Forall_forall. intros x _. by destruct x.
Qed.
End SampleRestore.

Import SampleSync SampleRestore.

Module SampleSettings.

Definition domain (last host : string) : ServiceRoute :=
  {| route_id := uuid last; route_hostname := host; route_target_port := Some 80%N |}.

Definition compiled (start : option string) (routes : list ServiceRoute) (sealed : string) : ServiceConfig :=
  {| cfg_settings := set_routes routes (web "web" start);
     cfg_env := [("TOKEN", EnvSecret (Some "v") (Some (secret 1 sealed)) "f" None)];
     cfg_mounts := [] |}.

(** The Service has a start command and two routes the baseline lacks, and not one it has. *)
Definition current : ServiceConfig :=
  compiled (Some "npm start") [domain "01" "a.example.com"; domain "02" "b.example.com"] "one".
Definition baseline : ServiceConfig := compiled None [domain "03" "c.example.com"] "one".

Definition paths (config : ServiceConfig) : list string :=
  map (λ change, change.1.(sch_path)) (compare_service_settings config (Some baseline)).
End SampleSettings.

Example restored_sample :
  SampleSettings.paths SampleSettings.current
  = ["startCommand"; "routes.ffffffff-ffff-ffff-ffff-ffffffffff01";
     "routes.ffffffff-ffff-ffff-ffff-ffffffffff02"; "routes.ffffffff-ffff-ffff-ffff-ffffffffff03"]
  ∧ SampleSettings.paths <$>
      result_ok (restore_service_setting SampleSettings.current SampleSettings.baseline
        ("routes." +:+ SampleSync.uuid "03"))
    = Some ["startCommand"; "routes.ffffffff-ffff-ffff-ffff-ffffffffff01";
            "routes.ffffffff-ffff-ffff-ffff-ffffffffff02"].
Proof. vm_compute. split; reflexivity. Qed.

Lemma sample_compiled start routes sealed :
  Forall (λ route, holds is_u16 route.(route_target_port)) routes →
  typed_service_config (SampleSettings.compiled start routes sealed).
Proof.
  intros Hr. split; [split; try done; try (by vm_compute); by repeat constructor|]. split; by repeat constructor.
Qed.

Lemma restoring_takes_one_back_witness :
  ∃ c restored, c ∈ compare_service_settings SampleSettings.current (Some SampleSettings.baseline)
    ∧ c.1.(sch_path) = "startCommand"
    ∧ restore_service_setting SampleSettings.current SampleSettings.baseline "startCommand" = Ok restored
    ∧ compare_service_settings restored (Some SampleSettings.baseline)
      = List.filter (λ change, negb (String.eqb change.1.(sch_path) "startCommand"))
          (compare_service_settings SampleSettings.current (Some SampleSettings.baseline)).
Proof.
  set (c := change "startCommand" (Some (AtSetting SetStartCommand)) VNull (VString "npm start") true).
  assert (Hc : c ∈ compare_service_settings SampleSettings.current (Some SampleSettings.baseline)).
  { apply list_elem_of_lookup. exists 0. by vm_compute. }
  destruct (restoring_takes_one_back SampleSettings.current SampleSettings.baseline c)
    as (restored & Hr & _ & _ & _ & _ & Heq); [by apply sample_compiled; repeat constructor..| | |done|].
  - by vm_compute.
  - by vm_compute.
  - by exists c, restored.
Defined.
