(* ===== verification/Review.v ===== *)
(** * The change set of an Environment

    What [project_environment_changes] of [ployz-core/src/config/change_set.rs] lists: one group
    for each node that was created, deleted or changed since the Head. *)

From S2P Require Import Prelude BTree Strings Values Spec RuntimeOutcome Config ConfigValidation.
From S2P Require Import ConfigSpec ConfigJson SyncRows SyncSample BranchPlan Compile Changes Restore.

Open Scope string_scope.
Open Scope nat_scope.
Open Scope list_scope.

Section Review.
Context `{JsonFloat} `{ConfigCrates} `{!Serde ServiceConfig} `{!Serde VolumeConfig}.

(** What a state holds for a node. *)
Definition config_held (state : ReviewStateProjection) (key : string) : option Value :=
  config_at (projections state) key.

Definition head_of (input : ChangeSetInput) : ReviewStateProjection :=
  default input.(cs_applied) input.(cs_submitted).

(** Whether a node was ever deployed. *)
Definition deployed (input : ChangeSetInput) (key : string) : Prop :=
  ∃ node, node ∈ input.(cs_applied).(rs_nodes) ∧ node_key node.(rp_node) = key ∧ is_Some node.(rp_config).

Lemma projections_key state key node : bget (projections state) key = Some node → node_key node.(rp_node) = key.
Proof. intros Hn%bget_bcollect_elem. by apply list_elem_of_fmap in Hn as (n & [= -> ->] & _). Qed.

Lemma bget_fold_bremove {A V} (f : A → string) (l : list A) (m : bmap string V) key :
  bget (fold_left (λ m x, bremove (f x) m) l m) key
  = if bool_decide (key ∈ map f l) then None else bget m key.
Proof.
  revert m. induction l as [|x l IH]; intros m; simpl; [done|]. rewrite IH, bget_bremove.
  case_bool_decide as Hl; case_bool_decide as Hx; try done.
  - destruct Hx. by right.
  - apply elem_of_cons in Hx as [->|]; [|done]. by case_decide.
  - case_decide as Hd; [|done]. destruct Hx. subst. left.
Qed.

(** Introductions of nodes that were deployed are not compared with. *)
Lemma never_applied_at input key :
  deployed input key ∧ config_at (never_applied input) key = None
  ∨ ¬ deployed input key ∧ config_at (never_applied input) key = config_held input.(cs_node_introductions) key.
Proof.
  unfold never_applied, config_at. rewrite bget_fold_bremove.
  assert (Hd : key ∈ map (λ n, node_key n.(rp_node))
              (List.filter (λ node, bool_decide (is_Some node.(rp_config))) input.(cs_applied).(rs_nodes))
            ↔ deployed input key).
  { rewrite list_elem_of_fmap. unfold deployed. split.
    - intros (n & -> & [Hin Hs%bool_decide_eq_true]%elem_of_filterb). by exists n.
    - intros (n & Hin & <- & Hs). exists n. split; [done|]. apply elem_of_filterb. by rewrite bool_decide_eq_true. }
  rewrite <- Hd. case_bool_decide; [by left|by right].
Qed.

Lemma group_counted group : 0 < group_count group ∨ group.(rc_settings) = [] ∧ group.(rc_lifecycle) = LifecycleUpdate.
Proof. unfold group_count. destruct (rc_lifecycle group); [lia| |lia]. destruct (rc_settings group); [by right|simpl; lia]. Qed.

(** Every key of the two states has a node, so the lookup in the loop finds one. *)
Lemma compare_keys_total before after introductions keys :
  (∀ key, key ∈ keys → key ∈ bkeys before ∨ key ∈ bkeys after) →
  is_Some (compare_keys before after introductions keys).
Proof.
  induction keys as [|key keys IH]; intros Hk; cbn [compare_keys]; [done|].
  assert (is_Some (compare_node before after introductions key)) as [r Hr].
  { unfold compare_node. destruct (comparison_of _ _ _) as [comparison role].
    destruct (bget after key) as [node|] eqn:Ha; [done|].
    destruct (bget before key) as [node|] eqn:Hb; [done|]. apply bget_None in Ha, Hb.
    destruct (Hk key ltac:(left)); done. }
  rewrite Hr. cbn [mbind option_bind]. destruct r as [group|]; [|done].
  destruct IH as [groups ->]; [set_solver|]. done.
Qed.

Lemma compare_node_key before after introductions key group :
  (∀ node, bget before key = Some node → node_key node.(rp_node) = key) →
  (∀ node, bget after key = Some node → node_key node.(rp_node) = key) →
  compare_node before after introductions key = Some (Ok (Some group)) → node_key group.(rc_node) = key.
Proof.
  intros Hb Ha. unfold compare_node. destruct (comparison_of _ _ _) as [comparison role].
  intros (node & Hn & Hg)%bind_Some. injection Hg as Hg. apply result_bind_Ok in Hg as (settings & _ & [= Hg]).
  destruct (lifecycle_of _ _ _); [|done]. injection Hg as <-. cbn [rc_node].
  destruct (bget after key); simplify_eq; auto.
Qed.

(** What the loop collects: the groups of its keys, in their order. *)
Lemma compare_keys_Ok before after introductions keys groups :
  (∀ key node, bget before key = Some node → node_key node.(rp_node) = key) →
  (∀ key node, bget after key = Some node → node_key node.(rp_node) = key) →
  compare_keys before after introductions keys = Some (Ok groups) →
  map (λ group, node_key group.(rc_node)) groups `sublist_of` keys
  ∧ (∀ key, key ∈ keys → ∃ o, compare_node before after introductions key = Some (Ok o))
  ∧ ∀ group, group ∈ groups ↔
      ∃ key, key ∈ keys ∧ compare_node before after introductions key = Some (Ok (Some group)).
Proof.
  intros Hb Ha. revert groups. induction keys as [|key keys IH]; intros groups; cbn [compare_keys].
  { intros [= <-]. split_and!; [constructor|set_solver|set_solver]. }
  intros ([o|e] & Ho & Hg)%bind_Some; [|done]. apply bind_Some in Hg as (r & Hr & Hg). injection Hg as Hg.
  apply result_bind_Ok in Hg as (rest & -> & [= <-]). destruct (IH rest Hr) as (Hsub & Hall & Hin). split_and!.
  - destruct o as [group|]; [|by constructor]. cbn. rewrite (compare_node_key _ _ _ key group (Hb key) (Ha key) Ho). by constructor.
  - intros k [->|Hk]%elem_of_cons; eauto.
  - intros group. rewrite elem_of_app, Hin. setoid_rewrite elem_of_cons. split.
    + intros [Ho'|(k & Hk & Hg)]; [|by eauto]. destruct o; [|by apply elem_of_nil in Ho'].
      apply list_elem_of_singleton in Ho' as ->. eauto.
    + intros (k & [->|Hk] & Hg); [left|right; by eauto]. rewrite Ho in Hg. injection Hg as ->. cbn. left.
Qed.

(** ** Groups *)

Lemma node_key_type a b : node_key a = node_key b → a.(ri_node_type) = b.(ri_node_type).
Proof. unfold node_key. by destruct (ri_node_type a), (ri_node_type b). Qed.

(** A comparison with a baseline lists no introduction of the node itself. *)
Lemma compared_settings node_type current baseline changes :
  compare_resource_settings node_type current (Some baseline) = Ok changes →
  List.filter (λ change, negb (String.eqb change.1.(sch_path) "node")) changes = changes.
Proof.
  unfold compare_resource_settings. intros Hc. apply (elsewhere_all "node"). intros c Hin.
  destruct node_type; apply result_bind_Ok in Hc as (now & _ & Hc); apply result_bind_Ok in Hc as (prior & Hp & [= <-]);
    apply result_bind_Ok in Hp as (base & _ & [= <-]).
  - destruct (sch_can_restore c.1) eqn:Hr.
    + destruct (restorable_rows now base c Hin Hr) as [(setting & Hs & _)|[id ->]]; [|done]. intros Hn. rewrite Hn in Hs.
      repeat (apply elem_of_cons in Hs as [[=]|Hs]). by apply elem_of_nil in Hs.
    + destruct (derived_path now base c Hin Hr) as [id [-> | ->]]; done.
  - cbn [volume_changes] in Hin. apply list_elem_of_omap in Hin as ([path row] & Hin & Hc).
    case_bool_decide; [done|]. injection Hc as <-. cbn.
    repeat (apply elem_of_cons in Hin as [[= -> ->]|Hin]); [done..|]. by apply elem_of_nil in Hin.
Qed.

(** A saved revision holds the node. *)
Definition published (input : ChangeSetInput) (key : string) : Prop :=
  ∃ saved, input.(cs_saved) = Some saved ∧ is_Some (config_held saved key).

(** What a group says of its node. *)
Definition group_exact (input : ChangeSetInput) (group : ReviewNodeChange) : Prop :=
  let key := node_key group.(rc_node) in
  let compared := compare_resource_settings group.(rc_node).(ri_node_type) in
  match config_held (head_of input) key, config_held input.(cs_working) key with
  | None, Some current =>
      group.(rc_lifecycle) = LifecycleCreate
      ∧ match group.(rc_comparison) with
        | Some RoleHead => False
        | Some RoleIntroduction =>
            ¬ deployed input key
            ∧ ∃ introduction, config_held input.(cs_node_introductions) key = Some introduction
                ∧ compared current (Some introduction) = Ok group.(rc_settings)
        | None =>
            (deployed input key ∨ published input key
             ∨ config_held input.(cs_node_introductions) key = None) ∧ group.(rc_settings) = []
        end
  | Some _, None =>
      group.(rc_lifecycle) = LifecycleDelete ∧ group.(rc_comparison) = Some RoleHead ∧ group.(rc_settings) = []
  | Some baseline, Some current =>
      group.(rc_lifecycle) = LifecycleUpdate ∧ group.(rc_comparison) = Some RoleHead
      ∧ group.(rc_settings) ≠ [] ∧ compared current (Some baseline) = Ok group.(rc_settings)
  | None, None => False
  end.

(** Whether a node differs from what the Head holds of it. *)
Definition differs (input : ChangeSetInput) (key : string) : Prop :=
  match config_held (head_of input) key, config_held input.(cs_working) key with
  | None, None => False
  | Some baseline, Some current =>
      ∃ node changes, node_key node = key ∧ changes ≠ []
        ∧ compare_resource_settings node.(ri_node_type) current (Some baseline) = Ok changes
  | _, _ => True
  end.

Lemma node_settings_Ok node next comparison settings :
  node_settings node next comparison = Ok settings →
  match next, comparison with
  | Some current, Some baseline => compare_resource_settings node.(ri_node_type) current (Some baseline) = Ok settings
  | _, _ => settings = []
  end.
Proof.
  destruct next as [current|], comparison as [baseline|]; cbn [node_settings]; try by intros [= <-].
  intros (changes & Hc & [= <-])%result_bind_Ok. by rewrite (compared_settings _ _ _ _ Hc).
Qed.

(** One turn of the loop. *)
Lemma compare_node_exact input key o :
  compare_node (projections (head_of input)) (projections input.(cs_working)) (never_applied input) key = Some (Ok o) →
  match o with
  | Some group => node_key group.(rc_node) = key ∧ group_exact input group ∧ differs input key
  | None => ¬ differs input key
  end.
Proof.
  intros Hc. unfold compare_node in Hc.
  destruct (comparison_of _ _ _) as [comparison role] eqn:Hcmp.
  apply bind_Some in Hc as (node & Hn & Hc). injection Hc as Hc.
  apply result_bind_Ok in Hc as (settings & Hs%node_settings_Ok & [= Ho]).
  assert (Hkey : node_key node.(rp_node) = key).
  { destruct (bget (projections (cs_working input)) key) eqn:Ha; simplify_eq; by eapply projections_key. }
  fold (config_held (head_of input) key) in *. fold (config_held input.(cs_working) key) in *.
  subst o. unfold differs, group_exact, comparison_of in *.
  destruct (config_held (head_of input) key) as [base|] eqn:Hh, (config_held (cs_working input) key) as [current|] eqn:Hw;
    cbn [lifecycle_of].
  - injection Hcmp as <- <-. destruct settings as [|x settings]; cbn [fmap option_fmap option_map].
    + intros (node' & changes & Hk & Hne & Hc). rewrite (node_key_type node' node.(rp_node)) in Hc by congruence. congruence.
    + cbn [rc_node rc_lifecycle rc_comparison rc_settings]. rewrite Hkey, Hh, Hw. split_and!; try done.
      eexists _, _. split_and!; [exact Hkey| |exact Hs]. done.
  - injection Hcmp as <- <-. cbn. rewrite Hkey, Hh, Hw. done.
  - cbn [fmap option_fmap option_map rc_node rc_lifecycle rc_comparison rc_settings]. rewrite Hkey, Hh, Hw.
    split_and!; try done.
    destruct (never_applied_at input key) as [[Hd Hi]|[Hd Hi]]; rewrite Hi in Hcmp.
    + injection Hcmp as <- <-. by split; [left|].
    + destruct (config_held (cs_node_introductions input) key) as [introduction|]; injection Hcmp as <- <-.
      * split; [done|]. by exists introduction.
      * by split; [right; right|].
  - by intros [].
Qed.

(** The code does not ask whether a node was published: one that was never deployed compares
    against its introduction either way. *)
Lemma published_keeps_introduction input group introduction :
  compare_node (projections (head_of input)) (projections input.(cs_working)) (never_applied input)
    (node_key group.(rc_node)) = Some (Ok (Some group)) →
  config_held (head_of input) (node_key group.(rc_node)) = None →
  ¬ deployed input (node_key group.(rc_node)) →
  config_held input.(cs_node_introductions) (node_key group.(rc_node)) = Some introduction →
  group.(rc_comparison) = Some RoleIntroduction.
Proof.
  intros Hc Hh Hd Hi. unfold compare_node, comparison_of in Hc. fold (config_held (head_of input)) in Hc.
  unfold config_held in Hh. rewrite Hh in Hc.
  destruct (never_applied_at input (node_key group.(rc_node))) as [[Hd' _]|[_ Hn]]; [done|].
  rewrite Hn, Hi in Hc. apply bind_Some in Hc as (node & _ & Hc). injection Hc as Hc.
  apply result_bind_Ok in Hc as (settings & _ & [= Ho]).
  destruct (config_at (projections (cs_working input)) (node_key group.(rc_node))); [|done].
  by injection Ho as <-.
Qed.

(** A configuration the parser of its node refuses. *)
Definition invalid_config (node_type : EnvironmentNodeType) (config : Value) (error : ConfigError)
    : Prop :=
  match node_type with
  | TypeService => parse_service_value config = Err error
  | TypeVolume => parse_volume_config config = Err error
  end.

Lemma compare_resource_Err node_type current baseline error :
  compare_resource_settings node_type current (Some baseline) = Err error →
  invalid_config node_type current error ∨ invalid_config node_type baseline error.
Proof.
  destruct node_type; simpl.
  - destruct (parse_service_value current) as [now|e]; simpl; [|intros [= ->]; by left].
    destruct (parse_service_value baseline) as [base|e]; simpl; [done|intros [= ->]; by right].
  - destruct (parse_volume_config current) as [now|e]; simpl; [|intros [= ->]; by left].
    destruct (parse_volume_config baseline) as [base|e]; simpl; [done|intros [= ->]; by right].
Qed.

(** A review fails only where a configuration it compares is refused by its parser: the one in
    hand, or the one it is compared with. *)
Definition review_fault (input : ChangeSetInput) (error : ConfigError) : Prop :=
  ∃ node current baseline, let key := node_key node in
    config_held input.(cs_working) key = Some current
    ∧ (config_held (head_of input) key = Some baseline ∨ config_held input.(cs_node_introductions) key = Some baseline)
    ∧ (invalid_config node.(ri_node_type) current error
       ∨ invalid_config node.(ri_node_type) baseline error).

Lemma compare_node_Err input key error :
  compare_node (projections (head_of input)) (projections input.(cs_working)) (never_applied input) key
    = Some (Err error) → review_fault input error.
Proof.
  intros Hc. unfold compare_node in Hc.
  destruct (comparison_of _ _ _) as [comparison role] eqn:Hcmp.
  apply bind_Some in Hc as (node & Hn & Hc). injection Hc as Hc.
  assert (Hkey : node_key node.(rp_node) = key).
  { destruct (bget (projections (cs_working input)) key) eqn:Ha; simplify_eq; by eapply projections_key. }
  fold (config_held (head_of input) key) in *. fold (config_held input.(cs_working) key) in *.
  destruct (config_held (cs_working input) key) as [current|] eqn:Hw; [|done].
  destruct comparison as [baseline|]; [|done]. cbn [node_settings] in Hc.
  destruct (compare_resource_settings _ current (Some baseline)) as [changes|e] eqn:He; [done|].
  injection Hc as <-. exists node.(rp_node), current, baseline. rewrite Hkey.
  split_and!; [done| |by apply compare_resource_Err].
  unfold comparison_of in Hcmp. destruct (config_held (head_of input) key); [left; congruence|right].
  destruct (never_applied_at input key) as [[_ Hi]|[_ Hi]]; rewrite Hi in Hcmp; [done|].
  destruct (config_held (cs_node_introductions input) key); congruence.
Qed.

Lemma compare_keys_Err before after introductions keys error :
  compare_keys before after introductions keys = Some (Err error) →
  ∃ key, compare_node before after introductions key = Some (Err error).
Proof.
  induction keys as [|key keys IH]; cbn [compare_keys]; [done|].
  intros ([o|e] & Ho & Hg)%bind_Some; [|injection Hg as ->; eauto].
  apply bind_Some in Hg as ([rest|e] & Hr & Hg); [done|]. injection Hg as ->. eauto.
Qed.
End Review.

(** ** The change set *)

Lemma compare_resource_same `{JsonFloat} `{ConfigCrates} `{!Serde ServiceConfig} `{!Serde VolumeConfig}
    node_type value changes :
  compare_resource_settings node_type value (Some value) = Ok changes → changes = [].
Proof.
  unfold compare_resource_settings. intros Hc.
  destruct node_type; apply result_bind_Ok in Hc as (now & Hn & Hc); apply result_bind_Ok in Hc as (prior & Hp & [= <-]);
    apply result_bind_Ok in Hp as (base & Hb & [= <-]); rewrite Hn in Hb; injection Hb as <-.
  - apply compare_same.
  - apply omap_none. intros [path row] _. by rewrite bool_decide_eq_true_2.
Qed.

(** C32: a review never panics and lists exactly what changed since the Head (the submitted
    revision, else what is applied). There is one group for each node that was created, deleted
    or whose settings differ, none for a node held alike, and the count is zero only when nothing
    changed. A created node that was neither published nor deployed shows its edits since its
    introduction; one that was deployed shows none. It fails only where the parser refuses a
    configuration it compares, with the parser's error. *)
Theorem change_set_exact `{JsonFloat} `{ConfigCrates} `{!Serde ServiceConfig} `{!Serde VolumeConfig} input :
  ∃ result, project_environment_changes input = Some result
  ∧ match result with
    | Err error => review_fault input error
    | Ok set =>
        set.(rcs_head_token) = (head_of input).(rs_token)
        ∧ NoDup (map (λ group, node_key group.(rc_node)) set.(rcs_groups))
        ∧ (∀ key, key ∈ map (λ group, node_key group.(rc_node)) set.(rcs_groups) ↔ differs input key)
        ∧ (∀ group, group ∈ set.(rcs_groups) → group_exact input group)
        ∧ (∀ key, config_held (head_of input) key = config_held input.(cs_working) key → ¬ differs input key)
        ∧ (set.(rcs_total_count) = 0 ↔ set.(rcs_groups) = [])
    end.
Proof.
  unfold project_environment_changes, compare_states. fold (head_of input).
  destruct (compare_keys_total (projections (head_of input)) (projections (cs_working input)) (never_applied input)
    (bset_of (bkeys (projections (head_of input)) ++ bkeys (projections (cs_working input))))) as [r Hr].
  { intros key. by rewrite elem_of_bset_of, elem_of_app. }
  rewrite Hr. eexists. split; [done|]. destruct r as [groups|error].
  2: { apply compare_keys_Err in Hr as (key & Hr). by eapply compare_node_Err. }
  apply compare_keys_Ok in Hr as (Hsub & Hall & Hin); [|intros ? ?; apply projections_key..].
  assert (Hexact : ∀ group, group ∈ groups → group_exact input group).
  { intros g (key & _ & Hg%compare_node_exact)%Hin. apply Hg. }
  cbn [result_bind rcs_head_token rcs_groups rcs_total_count]. split_and!; try done.
  - eapply sublist_NoDup; [apply bset_wf_NoDup, bset_of_wf|exact Hsub].
  - intros key. rewrite list_elem_of_fmap. split.
    + intros (g & -> & (k & _ & (<- & _ & Hd)%compare_node_exact)%Hin). done.
    + intros Hd.
      assert (Hk : key ∈ bset_of (bkeys (projections (head_of input)) ++ bkeys (projections (cs_working input)))).
      { rewrite elem_of_bset_of, elem_of_app, <- !bcontains_true. unfold bcontains.
        unfold differs, config_held, config_at in Hd. destruct (bget (projections (head_of input)) key); [by left|right].
        by destruct (bget (projections (cs_working input)) key). }
      destruct (Hall key Hk) as [o Ho]. pose proof (compare_node_exact input key o Ho) as He. destruct o as [g|]; [|done].
      exists g. split; [by destruct He|]. apply Hin. by exists key.
  - intros key Heq. unfold differs. rewrite Heq. destruct (config_held (cs_working input) key) as [v|]; [|by intros []].
    intros (node & changes & _ & Hne & Hc%compare_resource_same). done.
  - split; [|by intros ->]. intros Ht. destruct groups as [|g groups]; [done|]. cbn in Ht.
    specialize (Hexact g ltac:(left)). unfold group_exact in Hexact.
    destruct (group_counted g) as [?|[Hs Hl]]; [lia|]. rewrite Hl, Hs in Hexact.
    repeat case_match; naive_solver.
Qed.
