(* ===== verification/Discard.v ===== *)
(** * Discarding changes of an Environment

    [restore_environment_node] of [ployz-core/src/config/environment_restore.rs]: a setting of a
    Service, or a whole node with the relationships that need it, is put back as a baseline has
    it; the document is then admitted and put in canonical form. *)

From S2P Require Import Prelude BTree Strings Values Spec RuntimeOutcome Config ConfigValidation.
From S2P Require Import ConfigSpec ConfigJson SyncRows SyncPut SyncLaws SyncSample BranchPlan Compile.
From S2P Require Import Changes Restore.

Open Scope string_scope.
Open Scope nat_scope.
Open Scope list_scope.

Definition ServiceConfig_from (settings : AuthoredServiceConfig) : ServiceConfig :=
  {| cfg_settings := settings; cfg_env := []; cfg_mounts := [] |}.

Definition find_service (id : string) (intent : SavedEnvironmentIntent) : option SavedServiceIntent :=
  List.find (λ service, String.eqb service.(svc_id) id) intent.(env_services).

Definition find_volume (id : string) (intent : SavedEnvironmentIntent) : option SavedVolumeIntent :=
  List.find (λ volume, String.eqb volume.(vol_resource_id) id) intent.(env_volumes).

Definition attaches (id : string) (attachment : VolumeAttachment) : bool :=
  String.eqb attachment.(volume_resource_id) id.

(** ** Whole nodes *)

Definition restore_service (current : SavedEnvironmentIntent) (baseline : option SavedEnvironmentIntent)
    (id : string) : SavedEnvironmentIntent :=
  with_services current
    (List.filter (λ service, negb (String.eqb service.(svc_id) id)) current.(env_services)
     ++ option_list (baseline ≫= find_service id)).

(** The baseline's attachment of a Volume to a Service. *)
Definition prior_attachment (baseline : option SavedEnvironmentIntent) (id service : string)
    : option VolumeAttachment :=
  baseline ← baseline;
  service ← find_service service baseline;
  List.find (attaches id) service.(svc_volume_attachments).

Definition restore_attachments (baseline : option SavedEnvironmentIntent) (id : string)
    (existed : bool) (prior : option SavedVolumeIntent) (service : SavedServiceIntent)
    : SavedServiceIntent :=
  match prior with
  | None =>
      with_attachments service
        (List.filter (λ attachment, negb (attaches id attachment)) service.(svc_volume_attachments))
  | Some _ =>
      if existed then service
      else
        match prior_attachment baseline id service.(svc_id) with
        | Some attachment =>
            if existsb (attaches id) service.(svc_volume_attachments) then service
            else with_attachments service (service.(svc_volume_attachments) ++ [attachment])
        | None => service
        end
  end.

Definition restore_volume (current : SavedEnvironmentIntent) (baseline : option SavedEnvironmentIntent)
    (id : string) : SavedEnvironmentIntent :=
  let existed := existsb (λ volume, String.eqb volume.(vol_resource_id) id) current.(env_volumes) in
  let prior := baseline ≫= find_volume id in
  with_services
    (with_volumes current
       (List.filter (λ volume, negb (String.eqb volume.(vol_resource_id) id)) current.(env_volumes)
        ++ option_list prior))
    (map (restore_attachments baseline id existed prior) current.(env_services)).

Section Restoring.
Context `{JsonFloat} `{ConfigCrates} `{!Serde ServiceConfig} `{!Serde SavedEnvironmentIntent}.

Definition restore_setting_of (current : SavedEnvironmentIntent)
    (baseline : option SavedEnvironmentIntent) (node_type : EnvironmentNodeType)
    (id path : string) : Result SavedEnvironmentIntent (Fault ConfigError) :=
  match node_type with
  | TypeVolume => Err (Fails (ConfigError_at "path" "Resource settings restore with their owner"))
  | TypeService =>
      match find_service id current with
      | None => Err (Fails (ConfigError_at "service" "Current service is unavailable"))
      | Some service =>
          match baseline ≫= find_service id with
          | None => Err (Fails (ConfigError_at "service" "Authored baseline is unavailable"))
          | Some prior =>
              let? restored :=
                restore_service_setting (ServiceConfig_from service.(svc_config))
                  (ServiceConfig_from prior.(svc_config)) path in
              Ok (with_services current
                    (update_first (λ service, String.eqb service.(svc_id) id)
                       (λ service, with_config service restored.(cfg_settings))
                       current.(env_services)))
          end
      end
  end.

Definition restore_environment_node (current : SavedEnvironmentIntent)
    (baseline : option SavedEnvironmentIntent) (node_type : EnvironmentNodeType) (id : string)
    (path : option string) : Result SavedEnvironmentIntent (Fault ConfigError) :=
  let? next :=
    match path, node_type with
    | Some path, _ => restore_setting_of current baseline node_type id path
    | None, TypeService => Ok (restore_service current baseline id)
    | None, TypeVolume => Ok (restore_volume current baseline id)
    end in
  let? parsed := map_err Fails (parse_environment_intent (SavedEnvironmentIntent_json next)) in
  Ok (canonicalize_environment_intent parsed).
End Restoring.

(** ** Parts of an admitted document *)

Lemma filterb_sublist {A} (p : A → bool) l : List.filter p l `sublist_of` l.
Proof. induction l as [|x l IH]; simpl; [constructor|]. destruct (p x); by constructor. Qed.

Lemma sublist_map {A B} (f : A → B) l l' : l `sublist_of` l' → map f l `sublist_of` map f l'.
Proof. apply fmap_sublist. Qed.

Lemma concat_sublist {A} (ls ls' : list (list A)) : ls `sublist_of` ls' → concat ls `sublist_of` concat ls'.
Proof.
  induction 1 as [|l ls ls' _ IH|l ls ls' _ IH]; simpl; [done|by apply sublist_app|].
  by apply sublist_inserts_l.
Qed.

Section Parts.
Context `{ConfigCrates}.

Lemma unique_sub values values' path uuid x :
  values' `sublist_of` values → unique_values values path uuid [] = Ok x → unique_values values' path uuid [] = Ok ().
Proof.
  intros Hs [Hnd Hall]%unique_values_Ok. apply unique_values_Ok. split; [by eapply sublist_NoDup|].
  intros value Hv. apply Hall. by eapply elem_of_sublist.
Qed.

(** Fewer nodes, under the same identities. *)
Lemma identities_sub intent intent' :
  intent'.(env_version) = intent.(env_version) → intent'.(env_slug) = intent.(env_slug) →
  map svc_id intent'.(env_services) `sublist_of` map svc_id intent.(env_services) →
  map svc_lineage_id intent'.(env_services) `sublist_of` map svc_lineage_id intent.(env_services) →
  map svc_slug intent'.(env_services) `sublist_of` map svc_slug intent.(env_services) →
  map svc_variables intent'.(env_services) `sublist_of` map svc_variables intent.(env_services) →
  intent'.(env_volumes) `sublist_of` intent.(env_volumes) →
  validate_identities intent = Ok () → validate_identities intent' = Ok ().
Proof.
  unfold validate_identities. intros -> -> Hid Hlin Hslug Hvar Hvol Hv.
  apply result_bind_Ok in Hv as ([] & -> & Hv). cbn [result_bind].
  apply result_bind_Ok in Hv as ([] & Hu & Hv). rewrite (unique_sub _ _ _ _ _ Hid Hu). cbn [result_bind].
  apply result_bind_Ok in Hv as ([] & Hu' & Hv). rewrite (unique_sub _ _ _ _ _ Hlin Hu'). cbn [result_bind].
  apply result_bind_Ok in Hv as ([] & Hu'' & Hv). rewrite (unique_sub _ _ _ _ _ Hslug Hu''). cbn [result_bind].
  apply result_bind_Ok in Hv as ([] & Hw & Hv).
  rewrite (unique_sub _ _ _ _ _ (sublist_map vol_resource_id _ _ Hvol) Hw). cbn [result_bind].
  apply result_bind_Ok in Hv as ([] & Hw' & Hv).
  rewrite (unique_sub _ _ _ _ _ (sublist_map vol_resource_lineage_id _ _ Hvol) Hw'). cbn [result_bind].
  eapply unique_sub; [|exact Hv]. by apply (sublist_map var_id), concat_sublist.
Qed.

Lemma normal_form_iff intent :
  normal_form intent ↔
  validate_identities intent = Ok ()
  ∧ (∀ service, service ∈ intent.(env_services) → parse_service_intent intent.(env_volumes) service = Ok service)
  ∧ (∀ volume, volume ∈ intent.(env_volumes) → nonempty volume.(vol_name) "volumes.name" = Ok ()).
Proof.
  split.
  - intros (services & Heq & Hc%collect_result_Ok & Hi & _ & Hn)%validate_environment_inv.
    assert (services = intent.(env_services)) as -> by (by rewrite Heq).
    split_and!; [done| |done]. intros s Hs. apply list_elem_of_lookup in Hs as (i & Hi').
    destruct (Forall2_lookup_l _ _ _ _ _ Hc Hi') as (s' & Hs' & Hp). by simplify_eq.
  - intros (Hi & Hs & Hn). unfold normal_form, validate_environment. rewrite Hi. cbn [result_bind].
    assert (collect_result (parse_service_intent intent.(env_volumes)) intent.(env_services)
            = Ok intent.(env_services)) as ->.
    { apply collect_result_Ok, Forall_Forall2_diag, Forall_forall. done. }
    cbn [result_bind]. rewrite (proj2 (check_each_Ok _ _ ()) Hn). cbn [result_bind]. by destruct intent.
Qed.
End Parts.

(** ** What is put back *)

Lemma find_filter_app {A} (key : A → string) (id x : string) (l : list A) (prior : option A) :
  (∀ y, prior = Some y → key y = id) →
  List.find (λ y, String.eqb (key y) x) (List.filter (λ y, negb (String.eqb (key y) id)) l ++ option_list prior)
  = if decide (x = id) then prior else List.find (λ y, String.eqb (key y) x) l.
Proof.
  intros Hp. assert (Hlast : List.find (λ y, String.eqb (key y) x) (option_list prior)
    = if decide (x = id) then prior else None).
  { destruct prior as [y|]; simpl; [|by case_decide]. rewrite (Hp y eq_refl).
    destruct (String.eqb_spec id x) as [->|]; [by rewrite decide_True|by rewrite decide_False by congruence]. }
  induction l as [|y l IH]; simpl; [done|].
  destruct (String.eqb_spec (key y) id) as [Hy|Hy]; simpl; rewrite IH.
  - case_decide; [done|]. destruct (String.eqb_spec (key y) x); [congruence|done].
  - destruct (String.eqb_spec (key y) x) as [Hx|]; [by rewrite decide_False by congruence|done].
Qed.

Lemma found_key {A} (key : A → string) x l y : List.find (λ y, String.eqb (key y) x) l = Some y → key y = x ∧ y ∈ l.
Proof. intros [Hin Heq%String.eqb_eq]%find_some. split; [done|by apply list_elem_of_In]. Qed.

Lemma existsb_find {A} (p : A → bool) l : existsb p l = bool_decide (is_Some (List.find p l)).
Proof. induction l as [|x l IH]; simpl; [done|]. by destruct (p x). Qed.

Lemma find_mapped {A} (key : A → string) (f : A → A) x l :
  (∀ y, key (f y) = key y) →
  List.find (λ y, String.eqb (key y) x) (map f l) = f <$> List.find (λ y, String.eqb (key y) x) l.
Proof. intros Hf. induction l as [|y l IH]; simpl; [done|]. rewrite Hf. by destruct (String.eqb _ _). Qed.

Lemma restored_service x current baseline id :
  find_service x (restore_service current baseline id)
  = if decide (x = id) then baseline ≫= find_service id else find_service x current.
Proof.
  apply find_filter_app. intros s (b & _ & Hs)%bind_Some. by apply (found_key svc_id) in Hs as [? _].
Qed.

Lemma restored_volume x current baseline id :
  find_volume x (restore_volume current baseline id)
  = if decide (x = id) then baseline ≫= find_volume id else find_volume x current.
Proof.
  apply find_filter_app. intros s (b & _ & Hs)%bind_Some. by apply (found_key vol_resource_id) in Hs as [? _].
Qed.

Lemma restore_attachments_frame baseline id existed prior s :
  let s' := restore_attachments baseline id existed prior s in
  s' = with_attachments s s'.(svc_volume_attachments).
Proof. destruct s. unfold restore_attachments. simpl. by repeat case_match. Qed.

Lemma restored_services x current baseline id :
  find_service x (restore_volume current baseline id)
  = restore_attachments baseline id
      (existsb (λ volume, String.eqb volume.(vol_resource_id) id) current.(env_volumes))
      (baseline ≫= find_volume id) <$> find_service x current.
Proof. apply (find_mapped svc_id). intros s. by rewrite restore_attachments_frame. Qed.

(** The mounts of a Service once a Volume is put back. *)
Lemma restored_attachments current baseline id s a :
  let existed := existsb (λ volume, String.eqb volume.(vol_resource_id) id) current.(env_volumes) in
  let prior := baseline ≫= find_volume id in
  attaches_authored current.(env_volumes) s = true →
  a ∈ (restore_attachments baseline id existed prior s).(svc_volume_attachments) ↔
  if decide (a.(volume_resource_id) = id)
  then is_Some prior
       ∧ if decide (is_Some (find_volume id current)) then a ∈ s.(svc_volume_attachments)
         else prior_attachment baseline id s.(svc_id) = Some a
  else a ∈ s.(svc_volume_attachments).
Proof.
  intros existed prior Hs.
  assert (Hex : existed = bool_decide (is_Some (find_volume id current))).
  { apply existsb_find. }
  assert (Hno : existed = false → ∀ b, b ∈ s.(svc_volume_attachments) → b.(volume_resource_id) ≠ id).
  { intros He b Hb Hid. unfold attaches_authored in Hs. rewrite forallb_forall in Hs.
    apply list_elem_of_In, Hs in Hb. rewrite Hid in Hb. fold existed in Hb. congruence. }
  assert (Hpa : ∀ b, prior_attachment baseline id s.(svc_id) = Some b → b.(volume_resource_id) = id).
  { unfold prior_attachment. intros b (d & _ & Hb)%bind_Some. apply bind_Some in Hb as (sv & _ & Hb).
    by apply (found_key volume_resource_id) in Hb as [? _]. }
  unfold restore_attachments. destruct prior as [v|]; simpl.
  - destruct existed.
    { symmetry in Hex. apply bool_decide_eq_true in Hex. case_decide; [|done]. rewrite decide_True by done. naive_solver. }
    symmetry in Hex. apply bool_decide_eq_false in Hex. specialize (Hno eq_refl).
    rewrite (decide_False (P := is_Some _)) by done.
    assert (existsb (attaches id) s.(svc_volume_attachments) = false) as ->.
    { apply not_true_iff_false. intros (b & Hb%list_elem_of_In & He%String.eqb_eq)%existsb_exists. by eapply Hno. }
    destruct (prior_attachment baseline id (svc_id s)) as [b|]; simpl.
    + specialize (Hpa b eq_refl). rewrite elem_of_app, list_elem_of_singleton. case_decide; naive_solver.
    + case_decide; naive_solver.
  - rewrite elem_of_filterb, negb_true_iff. unfold attaches. rewrite String.eqb_neq. case_decide; [|naive_solver].
    split; [naive_solver|]. by intros [[? [=]] _].
Qed.

(** ** Documents as the program holds them *)

Lemma typed_restore_service current baseline id :
  typed current → holds typed baseline → typed (restore_service current baseline id).
Proof.
  intros [Hv Hs Hvol] Hb. split; [done| |done]. simpl. apply Forall_app. split.
  - eapply Forall_forall. intros s [Hin _]%elem_of_filterb. by eapply Forall_forall in Hs.
  - destruct baseline as [b|]; [|constructor]. simpl. destruct Hb as [_ Hbs _].
    destruct (find_service id b) as [s|] eqn:Hf; [|constructor]. apply (found_key svc_id) in Hf as [_ Hin].
    constructor; [|constructor]. by eapply Forall_forall in Hbs.
Qed.

Lemma typed_restore_volume current baseline id :
  typed current → holds typed baseline → typed (restore_volume current baseline id).
Proof.
  intros [Hv Hs Hvol] Hb. split; [done| |]; simpl.
  - apply Forall_map. eapply Forall_impl; [exact Hs|]. intros s [Hc Hvar].
    pose proof (restore_attachments_frame baseline id
      (existsb (λ volume, String.eqb volume.(vol_resource_id) id) current.(env_volumes))
      (baseline ≫= find_volume id) s) as Hf. simpl in Hf. simpl. rewrite Hf. by split.
  - apply Forall_app. split.
    + eapply Forall_forall. intros v [Hin _]%elem_of_filterb. by eapply Forall_forall in Hvol.
    + destruct baseline as [b|]; [|constructor]. simpl. destruct Hb as [_ _ Hbv].
      destruct (find_volume id b) as [v|] eqn:Hf; [|constructor]. apply (found_key vol_resource_id) in Hf as [_ Hin].
      constructor; [|constructor]. by eapply Forall_forall in Hbv.
Qed.

Section Gone.
Context `{ConfigCrates}.

(** A node the baseline does not have can always go. *)
Lemma service_gone current baseline id :
  normal_form current → baseline ≫= find_service id = None → normal_form (restore_service current baseline id).
Proof.
  intros (Hi & Hs & Hv)%normal_form_iff Hp. unfold restore_service. rewrite Hp, app_nil_r. apply normal_form_iff.
  assert (Hsub := filterb_sublist (λ service, negb (String.eqb service.(svc_id) id)) current.(env_services)).
  split_and!; simpl.
  - eapply identities_sub; [..|exact Hi]; simpl; try done; by apply sublist_map.
  - intros s [Hin _]%elem_of_filterb. by apply Hs.
  - done.
Qed.

Lemma parse_detached volumes id s :
  parse_service_intent volumes s = Ok s →
  let s' := with_attachments s (List.filter (λ a, negb (attaches id a)) s.(svc_volume_attachments)) in
  parse_service_intent (List.filter (λ v, negb (String.eqb v.(vol_resource_id) id)) volumes) s' = Ok s'.
Proof.
  intros Hp s'. unfold parse_service_intent in *. cbn [s' with_attachments svc_config svc_variables svc_volume_attachments].
  assert (Hsub := filterb_sublist (λ a, negb (attaches id a)) s.(svc_volume_attachments)).
  apply result_bind_Ok in Hp as (config & -> & Hp). cbn [result_bind].
  apply result_bind_Ok in Hp as ([] & -> & Hp). cbn [result_bind].
  apply result_bind_Ok in Hp as ([] & Hu & Hp).
  rewrite (unique_sub _ _ _ _ _ (sublist_map volume_resource_id _ _ Hsub) Hu). cbn [result_bind].
  apply result_bind_Ok in Hp as ([] & Hu' & Hp).
  rewrite (unique_sub _ _ _ _ _ (sublist_map mount_path _ _ Hsub) Hu'). cbn [result_bind].
  apply result_bind_Ok in Hp as (x & Ha%range_Ok & Hp). injection Hp as Hp.
  assert (attaches_authored (List.filter (λ v, negb (String.eqb v.(vol_resource_id) id)) volumes) s' = true) as Ha'.
  { unfold attaches_authored in *. rewrite forallb_forall in *. intros a Hin%list_elem_of_In.
    apply elem_of_filterb in Hin as [Hin Hne%negb_true_iff].
    apply list_elem_of_In, Ha, existsb_exists in Hin as (v & Hv & He). apply existsb_exists. exists v. split; [|done].
    apply List.filter_In. split; [done|]. apply String.eqb_eq in He. rewrite He.
    by apply negb_true_iff. }
  rewrite Ha'. cbn [range result_bind]. f_equal.
  assert (config = s.(svc_config)) as -> by (by rewrite <- Hp). done.
Qed.

Lemma volume_gone current baseline id :
  normal_form current → baseline ≫= find_volume id = None → normal_form (restore_volume current baseline id).
Proof.
  intros (Hi & Hs & Hv)%normal_form_iff Hp. unfold restore_volume. rewrite Hp, app_nil_r. apply normal_form_iff.
  split_and!; simpl.
  - eapply identities_sub; [..|exact Hi]; simpl; rewrite ?map_map; try done. apply filterb_sublist.
  - intros s' (s & -> & Hin)%list_elem_of_fmap. by apply parse_detached, Hs.
  - intros v [Hin _]%elem_of_filterb. by apply Hv.
Qed.
End Gone.

Section Discarding.
Context `{JsonFloat, ConfigDecoders, !DecoderLaws} `{ConfigCrates} `{!Serde ServiceConfig} `{!ReadsConfigs}.

(** Every discarded document is admitted and put in canonical form. *)
Definition admitted_form (next : SavedEnvironmentIntent) : Result SavedEnvironmentIntent (Fault ConfigError) :=
  let? admitted := map_err Fails (validate_environment next) in Ok (canonicalize_environment_intent admitted).

Lemma restored_node current baseline node_type id :
  typed current → holds typed baseline →
  restore_environment_node current baseline node_type id None
  = admitted_form match node_type with
                  | TypeService => restore_service current baseline id
                  | TypeVolume => restore_volume current baseline id
                  end.
Proof.
  intros Hc Hb. unfold restore_environment_node, admitted_form. destruct node_type; cbn [result_bind].
  - by rewrite parse_written by by apply typed_restore_service.
  - by rewrite parse_written by by apply typed_restore_volume.
Qed.

(** The node as the baseline has it, and the relationships that go with it. *)
Definition taken_back (current : SavedEnvironmentIntent) (baseline : option SavedEnvironmentIntent)
    (node_type : EnvironmentNodeType) (id : string) (next : SavedEnvironmentIntent) : Prop :=
  match node_type with
  | TypeService =>
      next.(env_volumes) = current.(env_volumes)
      ∧ ∀ x, find_service x next = if decide (x = id) then baseline ≫= find_service id else find_service x current
  | TypeVolume =>
      (∀ x, find_volume x next = if decide (x = id) then baseline ≫= find_volume id else find_volume x current)
      ∧ ∀ x, match find_service x current with
             | None => find_service x next = None
             | Some s => ∃ attachments, find_service x next = Some (with_attachments s attachments)
                 ∧ ∀ a, a ∈ attachments ↔
                     if decide (a.(volume_resource_id) = id)
                     then is_Some (baseline ≫= find_volume id)
                          ∧ if decide (is_Some (find_volume id current)) then a ∈ s.(svc_volume_attachments)
                            else prior_attachment baseline id s.(svc_id) = Some a
                     else a ∈ s.(svc_volume_attachments)
             end
  end.

(** Whether the baseline has the node. *)
Definition in_baseline (baseline : option SavedEnvironmentIntent) (node_type : EnvironmentNodeType) (id : string)
    : Prop :=
  match node_type with
  | TypeService => is_Some (baseline ≫= find_service id)
  | TypeVolume => is_Some (baseline ≫= find_volume id)
  end.

Lemma service_put_back current baseline id : taken_back current baseline TypeService id (restore_service current baseline id).
Proof. split; [done|]. intros x. apply restored_service. Qed.

Lemma volume_put_back current baseline id :
  normal_form current → taken_back current baseline TypeVolume id (restore_volume current baseline id).
Proof.
  intros Hn. split; [intros x; apply restored_volume|]. intros x. rewrite restored_services.
  destruct (find_service x current) as [s|] eqn:Hs; [|done]. cbn [fmap option_fmap option_map].
  eexists. split; [by rewrite restore_attachments_frame|]. intros a. apply restored_attachments.
  apply (found_key svc_id) in Hs as [_ Hin]. apply normal_form_iff in Hn as (_ & Hn & _). specialize (Hn s Hin).
  unfold parse_service_intent in Hn. repeat (apply result_bind_Ok in Hn as (? & ? & Hn)). by eapply range_Ok.
Qed.

Lemma parse_configured volumes s settings :
  parse_service_intent volumes s = Ok s → normal settings →
  parse_service_intent volumes (with_config s settings) = Ok (with_config s settings).
Proof.
  unfold parse_service_intent, normal. intros Hp Hn. cbn [with_config svc_config svc_variables svc_volume_attachments].
  rewrite Hn. cbn [result_bind]. apply result_bind_Ok in Hp as (config & _ & Hp).
  apply result_bind_Ok in Hp as ([] & -> & Hp). cbn [result_bind].
  apply result_bind_Ok in Hp as ([] & -> & Hp). cbn [result_bind].
  apply result_bind_Ok in Hp as ([] & -> & Hp). cbn [result_bind].
  apply result_bind_Ok in Hp as (x & Ha%range_Ok & _).
  change (attaches_authored volumes (with_config s settings)) with (attaches_authored volumes s). by rewrite Ha.
Qed.

(** [current] with other settings for a Service. *)
Definition with_settings_of (id : string) (settings : AuthoredServiceConfig) (current : SavedEnvironmentIntent)
    : SavedEnvironmentIntent :=
  with_services current
    (update_first (λ service, String.eqb service.(svc_id) id) (λ service, with_config service settings)
       current.(env_services)).

Lemma settings_of_admitted id settings current :
  typed current → normal_form current → typed_config settings → normal settings →
  typed (with_settings_of id settings current) ∧ normal_form (with_settings_of id settings current).
Proof.
  intros [Hv Hs Hvol] (Hi & Hp & Hn)%normal_form_iff Ht Hset. split.
  - split; [done| |done]. cbn. apply Forall_update_first; [|done]. intros x _ _ []. by split.
  - apply normal_form_iff. split_and!; [|apply Forall_forall|done].
    + eapply identities_sub; [..|exact Hi]; try done; cbn; by rewrite map_update_first.
    + cbn. apply Forall_update_first; [|by apply Forall_forall]. intros x _ _ Hx. by apply parse_configured.
Qed.

Lemma typed_from s : typed_config s → typed_service_config (ServiceConfig_from s).
Proof. intros Hs. split; [done|]. split; constructor. Qed.

Lemma admitted_settings current id s :
  typed current → normal_form current → find_service id current = Some s →
  typed_service_config (ServiceConfig_from s.(svc_config)) ∧ normal s.(svc_config).
Proof.
  intros Ht Hn Hs. pose proof (found_key svc_id _ _ _ Hs) as [_ Hin].
  destruct Ht as [_ Hts _]. eapply Forall_forall in Hts as [Hc _]; [|exact Hin]. split; [by apply typed_from|].
  apply normal_form_iff in Hn as (_ & Hp & _). specialize (Hp s Hin). unfold parse_service_intent in Hp.
  apply result_bind_Ok in Hp as (config & Hc' & Hp). repeat (apply result_bind_Ok in Hp as (? & ? & Hp)).
  injection Hp as Hp. unfold normal. rewrite Hc'. f_equal. by rewrite <- Hp.
Qed.
End Discarding.

(** C34: discarding a node puts back exactly what the baseline has of it. A Service becomes the
    baseline's or goes, alone; a Volume that goes takes its mounts, one that comes back comes back
    with the mounts the baseline gave it, and one both have keeps its mounts. Nothing else
    changes, the document is admitted and in canonical form, and discarding a node the baseline
    does not have always succeeds. *)
Theorem discarding_node_exact `{JsonFloat, ConfigDecoders, !DecoderLaws} `{ConfigCrates}
    `{!Serde ServiceConfig} current baseline node_type id :
  typed current → holds typed baseline → normal_form current →
  ∃ next,
    restore_environment_node current baseline node_type id None = admitted_form next
    ∧ next.(env_version) = current.(env_version) ∧ next.(env_slug) = current.(env_slug)
    ∧ taken_back current baseline node_type id next
    ∧ (¬ in_baseline baseline node_type id →
       restore_environment_node current baseline node_type id None = Ok (canonicalize_environment_intent next)).
Proof.
  intros Hc Hb Hn. eexists. split; [by apply restored_node|].
  split_and!; [by destruct node_type..| |].
  - destruct node_type; [apply service_put_back|by apply volume_put_back].
  - intros Hno. rewrite restored_node by done. unfold admitted_form.
    destruct node_type; cbn [in_baseline] in Hno; apply eq_None_not_Some in Hno.
    + by rewrite (service_gone current baseline id).
    + by rewrite (volume_gone current baseline id).
Qed.

(** discarding a change of a Service's settings that the review lists and can restore always
    succeeds: in the admitted document only that Service's settings change, and what they differ
    in from the baseline is exactly the other changes. *)
Theorem discarding_setting_exact `{JsonFloat, ConfigDecoders, !DecoderLaws} `{ConfigCrates}
    `{!Serde ServiceConfig} `{!ReadsConfigs} current baseline id s prior c :
  typed current → normal_form current → typed baseline → normal_form baseline →
  find_service id current = Some s → find_service id baseline = Some prior →
  let compared settings :=
    compare_service_settings (ServiceConfig_from settings) (Some (ServiceConfig_from prior.(svc_config))) in
  c ∈ compared s.(svc_config) → c.1.(sch_can_restore) = true →
  ∃ settings,
    restore_environment_node current (Some baseline) TypeService id (Some c.1.(sch_path))
      = Ok (canonicalize_environment_intent (with_settings_of id settings current))
    ∧ normal_form (with_settings_of id settings current)
    ∧ find_service id (with_settings_of id settings current) = Some (with_config s settings)
    ∧ compared settings
      = List.filter (λ change, negb (String.eqb change.1.(sch_path) c.1.(sch_path))) (compared s.(svc_config)).
Proof.
  intros Ht Hn Htb Hnb Hs Hp compared Hin Hr.
  destruct (admitted_settings current id s Ht Hn Hs) as [Hts Hns].
  destruct (admitted_settings baseline id prior Htb Hnb Hp) as [Htp Hnp].
  destruct (restore_listed _ _ c Hts Htp Hns Hnp Hin Hr) as (settings & Ho & Hset & Htset & _ & Heq).
  destruct (settings_of_admitted id settings current Ht Hn Htset Hset) as [Htn Hnn].
  exists settings. split_and!; [|done| |exact Heq].
  - unfold restore_environment_node, restore_setting_of. rewrite Hs. cbn [mbind option_bind]. rewrite Hp, Ho.
    cbn [result_bind with_settings cfg_settings]. fold (with_settings_of id settings current).
    by rewrite parse_written, Hnn by done.
  - unfold find_service, with_settings_of. cbn [with_services env_services].
    rewrite (find_update_first svc_id id id) by done. rewrite decide_True by done.
    unfold find_service in Hs. by rewrite Hs.
Qed.

(** ** At a sample *)

Import SampleSync SampleRestore.

Definition sample_document (start : option string) (volumes : list SavedVolumeIntent) : SavedEnvironmentIntent :=
  {| env_version := 1; env_slug := "staging";
     env_services := [{| svc_id := uuid "01"; svc_lineage_id := uuid "02"; svc_slug := "web";
                         svc_config := web "web" start; svc_variables := [];
                         svc_volume_attachments :=
                           map (λ volume, {| volume_resource_id := volume.(vol_resource_id); mount_path := "/data" |})
                             volumes |}];
     env_volumes := volumes |}.

Definition sample_volume : SavedVolumeIntent :=
  {| vol_resource_id := uuid "05"; vol_resource_lineage_id := uuid "06"; vol_name := "data";
     vol_storage := VolumeDocker; vol_shared_writes := false |}.

Lemma sample_typed start volumes :
  Forall (λ volume, typed_storage volume.(vol_storage)) volumes → typed (sample_document start volumes).
Proof.
  intros Hv. split; [by vm_compute| |done]. constructor; [|constructor]. split; [|constructor].
  split; try done; try (by vm_compute). by repeat constructor.
Qed.

(** A Volume the baseline lacks goes with its mount; one it has comes back with it. *)
Example discarded_volume :
  restore_environment_node (sample_document None [sample_volume]) (Some (sample_document None [])) TypeVolume (uuid "05") None
    = Ok (sample_document None [])
  ∧ restore_environment_node (sample_document None []) (Some (sample_document None [sample_volume])) TypeVolume (uuid "05") None
    = Ok (sample_document None [sample_volume]).
Proof. vm_compute. split; reflexivity. Qed.

Lemma discarding_node_exact_witness :
  ∃ next, taken_back (sample_document None [sample_volume]) (Some (sample_document None [])) TypeVolume (uuid "05") next
    ∧ restore_environment_node (sample_document None [sample_volume]) (Some (sample_document None [])) TypeVolume
        (uuid "05") None = Ok (canonicalize_environment_intent next).
Proof.
  destruct (discarding_node_exact (sample_document None [sample_volume]) (Some (sample_document None [])) TypeVolume
    (uuid "05")) as (next & _ & _ & _ & Hput & Hok).
  - by apply sample_typed; repeat constructor.
  - by apply sample_typed; repeat constructor.
  - by vm_compute.
  - exists next. split; [exact Hput|]. apply Hok. intros [v Hv]. discriminate Hv.
Defined.

Definition sample_service (start : option string) : SavedServiceIntent :=
  {| svc_id := uuid "01"; svc_lineage_id := uuid "02"; svc_slug := "web"; svc_config := web "web" start;
     svc_variables := []; svc_volume_attachments := [] |}.

Lemma discarding_setting_exact_witness :
  ∃ (c : ServiceSettingChange * option At) settings, c.1.(sch_path) = "startCommand"
    ∧ restore_environment_node (sample_document (Some "npm start") []) (Some (sample_document None [])) TypeService
        (uuid "01") (Some "startCommand")
      = Ok (canonicalize_environment_intent
              (with_settings_of (uuid "01") settings (sample_document (Some "npm start") []))).
Proof.
  set (c := change "startCommand" (Some (AtSetting SetStartCommand)) VNull (VString "npm start") true).
  destruct (discarding_setting_exact (sample_document (Some "npm start") []) (sample_document None []) (uuid "01")
    (sample_service (Some "npm start")) (sample_service None) c)
    as (settings & Hr & _ & _ & _).
  - by apply sample_typed.
  - by vm_compute.
  - by apply sample_typed.
  - by vm_compute.
  - by vm_compute.
  - by vm_compute.
  - apply list_elem_of_lookup. exists 0. by vm_compute.
  - done.
  - by exists c, settings.
Defined.
