(* ===== verification/ContextIgnore.v ===== *)
(** * Which files of a build context leave the host

    [ployz/src/build/ignore.rs]: Docker's ignore rules ([moby/patternmatcher]), applied to the
    entries of a build context. Text is UTF-8 held as bytes. A pattern with wildcards is matched
    by the [regex] crate, which is a parameter; the text of the expression is built here. *)

From S2P Require Import Prelude BTree Strings Text Values ServiceGraph EnvFile.
From Stdlib Require Import Ascii.

Open Scope string_scope.
Open Scope nat_scope.
Open Scope list_scope.

(** ** Names as text *)

Definition between (lo hi : N) (c : ascii) : bool := byte_between lo hi (byte_of c).

(** The first character of UTF-8 text, when the bytes are one. *)
Definition utf8_char (s : string) : option (string * string) :=
  match s with
  | String a s1 =>
      if between 0 127 a then Some (String a "", s1)
      else
        match s1 with
        | String b s2 =>
            if between 194 223 a && between 128 191 b then Some (String a (String b ""), s2)
            else
              match s2 with
              | String c s3 =>
                  if ((between 224 224 a && between 160 191 b)
                      || (between 225 236 a && between 128 191 b)
                      || (between 237 237 a && between 128 159 b)
                      || (between 238 239 a && between 128 191 b)) && between 128 191 c
                  then Some (String a (String b (String c "")), s3)
                  else
                    match s3 with
                    | String d s4 =>
                        if ((between 240 240 a && between 144 191 b)
                            || (between 241 243 a && between 128 191 b)
                            || (between 244 244 a && between 128 143 b))
                           && between 128 191 c && between 128 191 d
                        then Some (String a (String b (String c (String d ""))), s4)
                        else None
                    | EmptyString => None
                    end
              | EmptyString => None
              end
        | EmptyString => None
        end
  | EmptyString => None
  end.

(** A byte that is not UTF-8, as U+10FF00 plus the byte: F4 8F BE/BF 80..BF. *)
Definition raw_char (c : ascii) : string :=
  let b := byte_of c in
  String (ascii_of_N 244) (String (ascii_of_N 143)
    (String (ascii_of_N (188 + b / 64)) (String (ascii_of_N (128 + b mod 64)) ""))).

(** A character of U+10FF80-U+10FFFF. *)
Definition is_reserved_char (s : string) : bool :=
  match s with
  | String a (String b (String c (String d EmptyString))) =>
      between 244 244 a && between 143 143 b && between 190 191 c && between 128 191 d
  | _ => false
  end.

(** [utf8_chunks] gives the characters and, between them, bytes that are not UTF-8. *)
Fixpoint decode_from (fuel : nat) (s : string) : string :=
  match fuel, s with
  | S fuel, String c rest =>
      match utf8_char s with
      | Some (ch, rest) => ch +:+ decode_from fuel rest
      | None => raw_char c +:+ decode_from fuel rest
      end
  | _, _ => ""
  end.

Definition decode_name (bytes : string) : string := decode_from (String.length bytes) bytes.

Fixpoint reserved_from (fuel : nat) (s : string) : bool :=
  match fuel, s with
  | S fuel, String _ rest =>
      match utf8_char s with
      | Some (ch, rest) => is_reserved_char ch || reserved_from fuel rest
      | None => reserved_from fuel rest
      end
  | _, _ => false
  end.

Definition reserved (bytes : string) : bool := reserved_from (String.length bytes) bytes.

(** ** Patterns *)

(** Go's [path.Clean]: the components kept so far, last first. *)
Definition clean_step (rooted : bool) (parts : list string) (part : string) : list string :=
  if bool_decide (part = "") || bool_decide (part = ".") then parts
  else if bool_decide (part = "..") then
    match parts with
    | last :: rest =>
        if negb (bool_decide (last = "..")) then rest else if rooted then parts else part :: parts
    | [] => if rooted then parts else [part]
    end
  else part :: parts.

Definition clean_path (path : string) : string :=
  let rooted := starts_with "/" path in
  let joined := join_slash (rev (fold_left (clean_step rooted) (split_byte "/" path) [])) in
  if rooted then "/" +:+ joined else if str_is_empty joined then "." else joined.

Definition ignore_line (line : string) : option string :=
  let line := trim line in
  let '(invert, pattern) :=
    match strip_prefix "!" line with Some pattern => (true, trim pattern) | None => (false, line) end in
  if str_is_empty line then None
  else
    let pattern := if str_is_empty pattern then "" else clean_path pattern in
    let pattern :=
      if 1 <? String.length pattern
      then match strip_prefix "/" pattern with Some rest => rest | None => pattern end
      else pattern in
    Some (if invert then "!" +:+ pattern else pattern).

Definition ignore_file_patterns (content : string) : list string :=
  let content := decode_name content in
  let content := default content (strip_prefix BOM content) in
  omap ignore_line (List.filter (λ line, negb (starts_with "#" line)) (str_lines content)).

(** The [regex] crate: whether an expression is valid, whether it matches, and [regex::escape]. *)
Class RegexCrate := {
  regex_valid : string → bool;
  regex_is_match : string → string → bool;
  regex_escape : string → string
}.

Inductive Kind : Type :=
| KindExact
| KindPrefix (prefix : string)
| KindSuffix (suffix : string)
| KindRegex (regex : string).

Inductive Detected : Type := DetectedExact | DetectedPrefix | DetectedSuffix | DetectedRegex.

#[global] Instance Detected_eq_dec : EqDecision Detected.
Proof. solve_decision. Defined.

Record Pattern : Type := {
  pt_source : string;
  pt_exclusion : bool;
  pt_kind : Kind
}.

(** The continuation bytes of a character. *)
Fixpoint continuation (s : string) : string :=
  match s with
  | String c rest => if is_continuation c then String c (continuation rest) else ""
  | EmptyString => ""
  end.

Definition is_special (c : ascii) : bool :=
  existsb (Ascii.eqb c) ["."; "+"; "("; ")"; "|"; "{"; "}"; "$"]%char.

(** What refuses a context: rules that cannot be read, a name in the reserved range, or the
    file system. *)
Inductive IgnoreError : Type :=
| IllegalExclusion
| InvalidPattern (source : string)
| ReservedRule
| ReservedName (path : list string)
| InvalidRules (message : string)
| IoFailure (permission_denied : bool).

Section Compile.
Context `{RegexCrate}.

(** The loop of [compile], a character at a time. *)
Fixpoint compile_loop (fuel : nat) (chars regex : string) (detected : Detected) (first : bool)
    : option (string * Detected) :=
  match fuel, chars with
  | _, EmptyString => Some (regex, detected)
  | O, _ => None
  | S fuel, String ch rest =>
      if Ascii.eqb ch "*" then
        match strip_prefix "*" rest with
        | Some rest =>
            let rest := default rest (strip_prefix "/" rest) in
            let '(regex, detected) :=
              if negb (str_is_empty rest) then (regex +:+ "(.*/)?", DetectedRegex)
              else if bool_decide (detected = DetectedExact) then (regex, DetectedPrefix)
              else (regex +:+ ".*", DetectedRegex) in
            compile_loop fuel rest regex (if first then DetectedSuffix else detected) false
        | None => compile_loop fuel rest (regex +:+ "[^/]*") DetectedRegex false
        end
      else if Ascii.eqb ch "?" then compile_loop fuel rest (regex +:+ "[^/]") DetectedRegex false
      else if is_special ch then
        compile_loop fuel rest (regex +:+ String BACKSLASH (String ch "")) detected false
      else if Ascii.eqb ch BACKSLASH then
        match rest with
        | EmptyString => None
        | String next rest =>
            compile_loop fuel (drop_continuation rest)
              (regex +:+ regex_escape (String next (continuation rest))) DetectedRegex false
        end
      else if Ascii.eqb ch "[" || Ascii.eqb ch "]" then
        compile_loop fuel rest (regex +:+ String ch "") DetectedRegex false
      else compile_loop fuel rest (regex +:+ String ch "") detected false
  end.

Definition compile (pattern : string) : option Kind :=
  '(regex, detected) ← compile_loop (String.length pattern) pattern "^" DetectedExact true;
  match detected with
  | DetectedExact => Some KindExact
  | DetectedPrefix => KindPrefix <$> strip_suffix "**" pattern
  | DetectedSuffix =>
      match pattern with String _ (String _ suffix) => Some (KindSuffix suffix) | _ => None end
  | DetectedRegex =>
      let regex := regex +:+ "$" in
      if regex_valid regex then Some (KindRegex regex) else None
  end.

Definition ends_with (suffix s : string) : bool := bool_decide (is_Some (strip_suffix suffix s)).

Definition pattern_matches (pattern : Pattern) (path : string) : bool :=
  match pattern.(pt_kind) with
  | KindExact => String.eqb path pattern.(pt_source)
  | KindPrefix prefix => starts_with prefix path
  | KindSuffix suffix =>
      ends_with suffix path || bool_decide (strip_prefix "/" suffix = Some path)
  | KindRegex regex => regex_is_match regex path
  end.

(** ** The matcher *)

Definition matcher_pattern (pattern : string) : Result Pattern IgnoreError :=
  let pattern := clean_path pattern in
  let? parsed :=
    match strip_prefix "!" pattern with
    | Some EmptyString => Err IllegalExclusion
    | Some source => Ok (true, source)
    | None => Ok (false, pattern)
    end in
  match compile parsed.2 with
  | None => Err (InvalidPattern parsed.2)
  | Some kind => Ok {| pt_source := parsed.2; pt_exclusion := parsed.1; pt_kind := kind |}
  end.

Definition Matcher_new (patterns : list string) : Result (list Pattern) IgnoreError :=
  collect_result matcher_pattern
    (List.filter (λ pattern, negb (str_is_empty pattern)) (map trim patterns)).

(** A path, by its names. *)
Definition decode_path (path : list string) : string := decode_name (join_slash path).

Definition found (pattern : Pattern) (path : string) : bool :=
  let parents := split_byte "/" path in
  pattern_matches pattern path
  || existsb (λ n, pattern_matches pattern (join_slash (take n parents))) (seq 1 (length parents - 1)).

Definition match_step (path : string) (matched : bool) (pattern : Pattern) : bool :=
  if negb (Bool.eqb pattern.(pt_exclusion) matched) then matched
  else if found pattern path then negb pattern.(pt_exclusion) else matched.

Definition matches_or_parent_matches (matcher : list Pattern) (path : list string) : bool :=
  fold_left (match_step (decode_path path)) matcher false.

Definition is_wildcard (c : ascii) : bool :=
  existsb (Ascii.eqb c) ["*"; "["; "]"; "?"; "^"; BACKSLASH]%char.

(** The text before the first wildcard. *)
Fixpoint literal_prefix (source : string) : string :=
  match source with
  | String c rest => if is_wildcard c then "" else String c (literal_prefix rest)
  | EmptyString => ""
  end.

Definition exception_can_match (directory : string) (pattern : Pattern) : bool :=
  let prefix := literal_prefix pattern.(pt_source) in
  if String.length prefix =? String.length pattern.(pt_source) then starts_with directory prefix
  else starts_with prefix directory || starts_with directory prefix.

Definition exception_can_match_descendant (matcher : list Pattern) (directory : list string) : bool :=
  existsb (exception_can_match (decode_path directory +:+ "/")) (List.filter pt_exclusion matcher).
End Compile.

(** ** The context *)

(** An entry: [Unknown] has no metadata; a directory has its entries by name, in the order of
    [names.sort()], unless reading it fails, and with a lack of permission when [denied]. *)
Inductive ContextEntry : Type :=
| File
| Unknown
| Unreadable (denied : bool)
| Directory (entries : list (string * ContextEntry)).

Definition is_directory (entry : ContextEntry) : bool :=
  match entry with Directory _ | Unreadable _ => true | File | Unknown => false end.

(** [symlink_metadata] fails. *)
Definition metadata_fails (entry : ContextEntry) : bool := match entry with Unknown => true | _ => false end.

(** [Path::starts_with], by names. *)
Definition path_prefix (prefix path : list string) : bool :=
  bool_decide (take (length prefix) path = prefix).

(** [path.ancestors()] but the empty one. *)
Definition ancestors_of (path : list string) : gset (list string) :=
  list_to_set (map (λ n, take n path) (seq 1 (length path))).

Section Walk.
Context `{RegexCrate} (matcher : list Pattern) (controls : list (list string)).

Definition is_ignored (path : list string) : bool :=
  matches_or_parent_matches matcher path
  && negb (existsb (λ control, path_prefix path control) controls).

(** The entries of a directory, in turn; [included] is the union of what is inserted. *)
Fixpoint walk_entries (walk : list string → ContextEntry → Result (gset (list string)) IgnoreError)
    (relative : list string) (entries : list (string * ContextEntry)) : Result (gset (list string)) IgnoreError :=
  match entries with
  | [] => Ok ∅
  | (name, entry) :: entries =>
      let path := relative ++ [name] in
      if reserved name then Err (ReservedName path)
      else if metadata_fails entry then Err (IoFailure false)
      else
        let? here :=
          if is_ignored path then
            if is_directory entry && exception_can_match_descendant matcher path
            then walk path entry else Ok ∅
          else
            let? below := if is_directory entry then walk path entry else Ok ∅ in
            Ok (ancestors_of path ∪ below) in
        let? rest := walk_entries walk relative entries in
        Ok (here ∪ rest)
  end.

Fixpoint walk (relative : list string) (entry : ContextEntry) : Result (gset (list string)) IgnoreError :=
  match entry with
  | File | Unknown => Err (IoFailure false)
  | Unreadable denied =>
      if denied && negb (bool_decide (relative = [])) && matches_or_parent_matches matcher relative
      then Ok ∅ else Err (IoFailure denied)
  | Directory entries => walk_entries walk relative entries
  end.
End Walk.

(** ** The rules of a recipe *)

(** [hujson.Standardize]: comments and trailing commas taken out. A string is copied. *)
Fixpoint json_string (fuel : nat) (chars json : string) : option (string * string) :=
  match fuel, chars with
  | S fuel, String ch rest =>
      let json := json +:+ String ch "" in
      if is_char ch BACKSLASH then
        match rest with
        | EmptyString => None
        | String next rest => json_string fuel rest (json +:+ String next "")
        end
      else if is_char ch QUOTE then Some (rest, json)
      else json_string fuel rest json
  | _, _ => Some (chars, json)
  end.

Fixpoint skip_line (chars : string) : string :=
  match chars with
  | String ch rest => if is_char ch LF then chars else skip_line rest
  | EmptyString => ""
  end.

Fixpoint skip_comment (previous_star : bool) (chars : string) : option string :=
  match chars with
  | EmptyString => None
  | String ch rest =>
      if previous_star && is_char ch "/" then Some rest else skip_comment (is_char ch "*") rest
  end.

Definition drop_comma (json : string) : string := default json (strip_suffix "," (trim_end json)).

Fixpoint standard_loop (fuel : nat) (chars json : string) : option string :=
  match fuel, chars with
  | S fuel, String ch rest =>
      if is_char ch QUOTE then
        '(rest, json) ← json_string (String.length rest) rest (json +:+ String ch "");
        standard_loop fuel rest json
      else if is_char ch "/" && starts_with "/" rest then standard_loop fuel (skip_line rest) json
      else if is_char ch "/" && starts_with "*" rest then
        rest ← skip_comment false (default rest (strip_prefix "*" rest));
        standard_loop fuel rest json
      else if is_char ch "}" || is_char ch "]" then
        standard_loop fuel rest (drop_comma json +:+ String ch "")
      else standard_loop fuel rest (json +:+ String ch "")
  | _, _ => Some json
  end.

Definition standard_json (text : string) : option string := standard_loop (String.length text) text "".

Inductive Rules : Type :=
| RulesDockerfile (dockerfile : string)
| RulesRailpack (config : option string).

Inductive FileRead : Type := ReadText (content : string) | ReadNotFound | ReadFailed (denied : bool).

(** [canonicalize], then [strip_prefix(context)]: [None] is outside of the context. *)
Inductive Canonical : Type :=
| CanonicalAt (inside : option (list string))
| CanonicalNotFound
| CanonicalFailed.

(** The files that hold rules, and serde's reading of a Railpack configuration. *)
Class RuleFiles := {
  read_file : string → FileRead;
  read_in_context : string → FileRead;
  canonicalize_in_context : string → Canonical;
  parse_exclude : string → option (list string)
}.

Definition read_optional (read : FileRead) : Result (option string) IgnoreError :=
  match read with
  | ReadText content => Ok (Some content)
  | ReadNotFound => Ok None
  | ReadFailed denied => Err (IoFailure denied)
  end.

Definition own_ignore (dockerfile : string) : string := dockerfile +:+ ".dockerignore".

(** [Path::components] of a relative path: a dot counts only in front. *)
Definition path_names (path : string) : list string :=
  match List.filter (λ part, negb (str_is_empty part)) (split_byte "/" path) with
  | first :: rest => first :: List.filter (λ part, negb (String.eqb part ".")) rest
  | [] => []
  end.

Section Rules.
Context `{RegexCrate} `{RuleFiles}.

Definition railpack_rules (config : option string)
    : Result (list string * list (list string)) IgnoreError :=
  let config := default "railpack.json" config in
  let cleaned := clean_path config in
  if str_is_empty config || starts_with "/" cleaned || String.eqb cleaned ".."
     || starts_with "../" cleaned
  then Err (InvalidRules "Railpack configuration must stay inside build.context")
  else
    let? resolved :=
      match canonicalize_in_context cleaned with
      | CanonicalAt (Some inside) => Ok [inside]
      | CanonicalAt None => Err (InvalidRules "Railpack configuration escapes build.context")
      | CanonicalNotFound => Ok []
      | CanonicalFailed => Err (InvalidRules "cannot read Railpack configuration")
      end in
    let kept := path_names cleaned :: resolved in
    match read_in_context cleaned with
    | ReadNotFound =>
        if bool_decide (path_names config = ["railpack.json"]) then Ok ([], kept)
        else Err (InvalidRules "cannot read Railpack configuration")
    | ReadFailed _ => Err (InvalidRules "cannot read Railpack configuration")
    | ReadText content =>
        match standard_json content ≫= parse_exclude with
        | None => Err (InvalidRules "invalid Railpack configuration")
        | Some exclude => if existsb reserved exclude then Err ReservedRule else Ok (exclude, kept)
        end
    end.

(** The patterns, the paths kept whatever they say, and the ignore file. *)
Definition context_rules (rules : Rules)
    : Result (list string * list (list string) * string) IgnoreError :=
  let? own :=
    match rules with
    | RulesDockerfile dockerfile => read_optional (read_file (own_ignore dockerfile))
    | RulesRailpack _ => Ok None
    end in
  let? found :=
    match own with
    | Some own => Ok (own, [])
    | None =>
        let? ignore := read_optional (read_in_context ".dockerignore") in
        Ok (default "" ignore, [[".dockerignore"]])
    end in
  let '(ignore, controls) := found in
  if reserved ignore then Err ReservedRule
  else
    let patterns := ignore_file_patterns ignore in
    match rules with
    | RulesDockerfile _ => Ok (patterns, controls, ignore)
    | RulesRailpack config =>
        let? railpack := railpack_rules config in
        Ok (patterns ++ railpack.1, controls ++ railpack.2, ignore)
    end.

Definition select (context : ContextEntry) (rules : Rules)
    : Result (gset (list string) * string) IgnoreError :=
  let? read := context_rules rules in
  let '(patterns, controls, ignore) := read in
  let? matcher := Matcher_new patterns in
  let? paths := walk matcher controls [] context in
  Ok (paths, ignore).
End Rules.

(** ** Matching below a directory *)

(** What [compile] writes for a character outside wildcards. *)
Definition literal_char (c : ascii) : string := if is_special c then String BACKSLASH (String c "") else String c "".

Fixpoint literal_text (s : string) : string :=
  match s with EmptyString => "" | String c rest => literal_char c +:+ literal_text rest end.

Fixpoint no_wildcard (s : string) : bool :=
  match s with EmptyString => true | String c rest => negb (is_wildcard c) && no_wildcard rest end.

Section Expressions.
Context `{RegexCrate}.

(** The expressions [compile] writes. *)
Inductive expression : string → Prop :=
| expr_nil : expression ""
| expr_char c t : is_special c = false → c ≠ "*"%char → c ≠ "?"%char → c ≠ BACKSLASH → expression t →
    expression (String c "" +:+ t)
| expr_special c t : is_special c = true → expression t → expression (String BACKSLASH (String c "") +:+ t)
| expr_escape ch t : expression t → expression (regex_escape ch +:+ t)
| expr_dirs t : expression t → expression ("(.*/)?" +:+ t)
| expr_all t : expression t → expression (".*" +:+ t)
| expr_run t : expression t → expression ("[^/]*" +:+ t)
| expr_one t : expression t → expression ("[^/]" +:+ t).

(** An expression that opens with literal text matches only what opens with that text. *)
Class RegexLaws :=
  regex_anchored lit t path :
    no_wildcard lit = true → expression t →
    regex_is_match ("^" +:+ literal_text lit +:+ t +:+ "$") path = true → starts_with lit path = true.

Lemma is_wildcard_false c :
  is_wildcard c = false →
  Ascii.eqb c "*" = false ∧ Ascii.eqb c "?" = false ∧ Ascii.eqb c BACKSLASH = false
  ∧ Ascii.eqb c "[" || Ascii.eqb c "]" = false.
Proof. unfold is_wildcard. cbn [existsb]. rewrite !orb_false_iff. naive_solver. Qed.

Lemma compile_literal lit rest fuel regex detected first :
  no_wildcard lit = true → String.length (lit +:+ rest) ≤ fuel →
  ∃ fuel', String.length rest ≤ fuel'
    ∧ compile_loop fuel (lit +:+ rest) regex detected first
      = compile_loop fuel' rest (regex +:+ literal_text lit) detected (first && str_is_empty lit).
Proof.
  revert fuel regex first. induction lit as [|c lit IH]; intros fuel regex first Hw Hf.
  { exists fuel. split; [done|]. cbn. by rewrite str_app_nil_r, andb_true_r. }
  cbn [no_wildcard] in Hw. apply andb_true_iff in Hw as [Hc%negb_true_iff Hw].
  destruct (is_wildcard_false c Hc) as (H1 & H2 & H3 & H4).
  cbn in Hf. destruct fuel as [|fuel]; [lia|]. cbn [String.append compile_loop]. rewrite H1, H2, H3, H4.
  destruct (IH fuel (regex +:+ literal_char c) false Hw ltac:(lia)) as (fuel' & Hf' & Heq).
  exists fuel'. split; [done|]. rewrite andb_false_r. cbn [literal_text andb] in Heq |- *.
  rewrite <- str_app_assoc, <- Heq. unfold literal_char. by destruct (is_special c).
Qed.

Lemma length_drop_continuation s : String.length (drop_continuation s) ≤ String.length s.
Proof. induction s as [|c s IH]; cbn; [done|]. destruct (is_continuation c); cbn; lia. Qed.

(** The length of a pattern is enough: a longer run gives the same. *)
Lemma compile_enough fuel fuel' chars regex detected first :
  String.length chars ≤ fuel → String.length chars ≤ fuel' →
  compile_loop fuel chars regex detected first = compile_loop fuel' chars regex detected first.
Proof.
  revert fuel' chars regex detected first.
  induction fuel as [|fuel IH]; intros fuel' chars regex detected first Hf Hf'; destruct chars as [|ch rest];
    [by destruct fuel'|cbn in Hf; lia|by destruct fuel'|]. cbn [String.length] in Hf, Hf'.
  destruct fuel' as [|fuel']; [lia|]. cbn [compile_loop].
  destruct (strip_prefix "*" rest) as [rest'|] eqn:Hstar.
  - apply strip_prefix_Some in Hstar as ->. cbn [String.append String.length] in Hf, Hf'.
    assert (String.length (default rest' (strip_prefix "/" rest')) ≤ String.length rest').
    { destruct (strip_prefix "/" rest') as [r|] eqn:Hr; [|done]. apply strip_prefix_Some in Hr as ->. cbn. lia. }
    repeat case_match; try done; try (apply IH; cbn [String.length String.append] in *; lia).
    simplify_eq/=. match goal with |- context [drop_continuation ?r] => pose proof (length_drop_continuation r) end.
    apply IH; lia.
  - repeat case_match; try done; try (apply IH; cbn [String.length] in *; lia).
    subst. cbn [String.length] in *.
    match goal with |- context [drop_continuation ?r] => pose proof (length_drop_continuation r) end. apply IH; lia.
Qed.

(** The rest of a pattern adds an expression. *)
Lemma compile_expression fuel chars regex detected first regex' detected' :
  compile_loop fuel chars regex detected first = Some (regex', detected') →
  ∃ t, regex' = regex +:+ t ∧ expression t.
Proof.
  revert chars regex detected first. induction fuel as [|fuel IH]; intros chars regex detected first.
  { destruct chars; [|done]. intros [= <- _]. exists "". rewrite str_app_nil_r. eauto using expression. }
  destruct chars as [|ch rest]; [intros [= <- _]; exists ""; rewrite str_app_nil_r; eauto using expression|].
  assert (Hadd : ∀ piece r d f, (∀ t, expression t → expression (piece +:+ t)) →
    compile_loop fuel r (regex +:+ piece) d f = Some (regex', detected') →
    ∃ t, regex' = regex +:+ t ∧ expression t).
  { intros piece r d f Hp (t & -> & Ht)%IH. exists (piece +:+ t). rewrite str_app_assoc. auto. }
  cbn [compile_loop]. destruct (Ascii.eqb_spec ch "*") as [->|Hstar].
  { destruct (strip_prefix "*" rest) as [rest'|]; [|apply Hadd; eauto using expression].
    destruct (negb (str_is_empty _)); [apply Hadd; eauto using expression|].
    case_bool_decide; [apply IH|apply Hadd; eauto using expression]. }
  destruct (Ascii.eqb_spec ch "?") as [->|Hq]; [apply Hadd; eauto using expression|].
  destruct (is_special ch) eqn:Hs; [apply Hadd; eauto using expression|].
  destruct (Ascii.eqb_spec ch BACKSLASH) as [->|Hb].
  { destruct rest as [|next rest]; [done|]. apply Hadd. eauto using expression. }
  destruct (_ || _); apply Hadd; eauto using expression.
Qed.

(** Only an opening [**] gives a suffix. *)
Lemma compile_suffix fuel chars regex detected first regex' :
  compile_loop fuel chars regex detected first = Some (regex', DetectedSuffix) →
  detected = DetectedSuffix ∨ first = true ∧ starts_with "*" chars = true.
Proof.
  revert chars regex detected first. induction fuel as [|fuel IH]; intros chars regex detected first.
  { destruct chars; [|done]. intros [= _ ->]. by left. }
  destruct chars as [|ch rest]; [intros [= _ ->]; by left|].
  assert (Hnext : ∀ r re, compile_loop fuel r re DetectedRegex false = Some (regex', DetectedSuffix) → False).
  { intros r re Hr%IH. naive_solver. }
  cbn [compile_loop]. destruct (Ascii.eqb_spec ch "*") as [->|Hstar].
  { destruct (strip_prefix "*" rest) as [rest'|]; [|by intros ?%Hnext].
    destruct first; [intros _; by right|]. destruct (negb (str_is_empty _)); [by intros ?%Hnext|].
    case_bool_decide; [|by intros ?%Hnext]. intros Hr%IH. naive_solver. }
  destruct (Ascii.eqb_spec ch "?") as [->|Hq]; [by intros ?%Hnext|].
  destruct (is_special ch); [intros Hr%IH; naive_solver|].
  destruct (Ascii.eqb_spec ch BACKSLASH) as [->|Hb].
  { destruct rest as [|next rest]; [done|]. by intros ?%Hnext. }
  destruct (_ || _); [by intros ?%Hnext|]. intros Hr%IH. naive_solver.
Qed.

Lemma literal_split source :
  no_wildcard (literal_prefix source) = true
  ∧ ∃ rest, source = literal_prefix source +:+ rest ∧ (rest = "" ∨ ∃ c r, rest = String c r ∧ is_wildcard c = true).
Proof.
  induction source as [|c source [IHw (rest & Hs & Hr)]]; cbn [literal_prefix]; [split; [done|]; exists ""; auto|].
  destruct (is_wildcard c) eqn:Hc; [split; [done|]; exists (String c source); naive_solver|].
  cbn [no_wildcard]. rewrite Hc, IHw. split; [done|]. exists rest. split; [|done].
  change (String c source = String c (literal_prefix source +:+ rest)). by rewrite <- Hs.
Qed.

(** A wildcard-free source is compared as it is. *)
Lemma compile_plain source kind : no_wildcard source = true → compile source = Some kind → kind = KindExact.
Proof.
  intros Hw. unfold compile.
  destruct (compile_literal source "" (String.length source) "^" DetectedExact true Hw) as (fuel & _ & Heq).
  { by rewrite str_app_nil_r. }
  rewrite str_app_nil_r in Heq. rewrite Heq. destruct fuel; cbn; by intros [= <-].
Qed.

Lemma starts_with_app p s : starts_with p (p +:+ s) = true.
Proof. unfold starts_with. by rewrite strip_prefix_app. Qed.

Lemma starts_with_iff p s : starts_with p s = true ↔ ∃ r, s = p +:+ r.
Proof.
  unfold starts_with. destruct (strip_prefix p s) as [r|] eqn:Hs.
  - apply strip_prefix_Some in Hs. naive_solver.
  - split; [done|]. intros [r ->]. by rewrite strip_prefix_app in Hs.
Qed.

Lemma starts_with_trans a b s : starts_with a b = true → starts_with b s = true → starts_with a s = true.
Proof. rewrite !starts_with_iff. intros [r ->] [r' ->]. exists (r +:+ r'). by rewrite str_app_assoc. Qed.

Lemma starts_with_comparable a b s :
  starts_with a s = true → starts_with b s = true → starts_with a b || starts_with b a = true.
Proof.
  revert b s. induction a as [|c a IH]; intros b s; [done|].
  destruct b as [|d b]; [intros _ _; by rewrite orb_true_r|]. destruct s as [|e s]; [done|].
  unfold starts_with. cbn [strip_prefix].
  destruct (Ascii.eqb_spec c e) as [->|]; [|done]. destruct (Ascii.eqb_spec d e) as [->|]; [|done].
  rewrite Ascii.eqb_refl. apply IH.
Qed.

Context `{!RegexLaws}.

Lemma literal_stops a c r : is_wildcard c = true → starts_with (literal_prefix (a +:+ String c r)) a = true.
Proof.
  intros Hc. induction a as [|d a IH]; cbn [String.append literal_prefix]; [by rewrite Hc|].
  destruct (is_wildcard d); [done|]. apply starts_with_iff in IH as [t Ht].
  apply starts_with_iff. exists t. cbn. by rewrite <- Ht.
Qed.

(** What a pattern matches opens with the text before its first wildcard. *)
Lemma matches_literal pattern path :
  compile pattern.(pt_source) = Some pattern.(pt_kind) → pattern_matches pattern path = true →
  starts_with (literal_prefix pattern.(pt_source)) path = true.
Proof.
  intros Hc Hm. destruct pattern as [source exclusion kind]. cbn [pt_source pt_kind] in *.
  destruct (literal_split source) as [Hw (rest & Hs & Hrest)]. unfold pattern_matches in Hm. cbn [pt_kind pt_source] in Hm.
  unfold compile in Hc. apply bind_Some in Hc as ([regex detected] & Hloop & Hc). destruct kind as [|prefix|suffix|regex'].
  - apply String.eqb_eq in Hm as ->. rewrite Hs at 2. apply starts_with_app.
  - destruct detected; try done; [|by repeat case_match|by case_match]. apply fmap_Some in Hc as (p & Hp & [= ->]).
    apply strip_suffix_Some in Hp. eapply starts_with_trans; [|exact Hm]. rewrite Hp. by apply literal_stops.
  - destruct detected; try done; [by apply fmap_Some in Hc as (? & ? & ?)| |by case_match].
    apply compile_suffix in Hloop as [|[_ Hstar]]; [done|]. destruct source as [|c source]; [done|].
    apply starts_with_iff in Hstar as [r [= -> _]]. done.
  - destruct detected; try done; [by apply fmap_Some in Hc as (? & ? & ?)|by repeat case_match|].
    destruct (regex_valid _); [|done]. injection Hc as <-. rewrite Hs in Hloop at 2.
    destruct (compile_literal (literal_prefix source) rest (String.length source) "^" DetectedExact true Hw)
      as (fuel & _ & Heq); [by rewrite <- Hs|].
    rewrite Heq in Hloop. apply compile_expression in Hloop as (t & -> & Ht).
    rewrite !str_app_assoc in Hm. by eapply regex_anchored.
Qed.

(** A directory that is skipped has nothing an exception selects. *)
Lemma exception_sound pattern directory path :
  compile pattern.(pt_source) = Some pattern.(pt_kind) →
  pattern_matches pattern path = true → starts_with directory path = true →
  exception_can_match directory pattern = true.
Proof.
  intros Hc Hm Hd. unfold exception_can_match. pose proof (matches_literal pattern path Hc Hm) as Hl.
  destruct (Nat.eqb_spec (String.length (literal_prefix pattern.(pt_source))) (String.length pattern.(pt_source))) as [Hn|Hn].
  - destruct (literal_split pattern.(pt_source)) as [Hw (rest & Hs & _)].
    assert (rest = "") as ->.
    { rewrite Hs in Hn at 2. rewrite str_app_length in Hn. destruct rest; [done|cbn in Hn; lia]. }
    rewrite str_app_nil_r in Hs. rewrite <- Hs in Hw.
    apply (compile_plain _ _ Hw) in Hc. unfold pattern_matches in Hm. rewrite Hc in Hm.
    apply String.eqb_eq in Hm. by rewrite <- Hs, <- Hm.
  - by apply (starts_with_comparable _ _ path).
Qed.
End Expressions.

(** ** Decoded names *)

Lemma utf8_char_app s ch rest x : utf8_char s = Some (ch, rest) → utf8_char (s +:+ x) = Some (ch, rest +:+ x).
Proof.
  destruct s as [|a [|b [|c [|d s]]]]; cbn [utf8_char String.append]; try done;
    repeat case_match; intros; simplify_eq; done.
Qed.

Lemma utf8_char_split s ch rest : utf8_char s = Some (ch, rest) → s = ch +:+ rest ∧ (ch ≠ "").
Proof.
  destruct s as [|a [|b [|c [|d s]]]]; cbn [utf8_char]; try done; repeat case_match; intros; simplify_eq; done.
Qed.

Lemma utf8_char_shorter c s ch rest :
  utf8_char (String c s) = Some (ch, rest) → String.length rest ≤ String.length s.
Proof.
  intros [Hs Hne]%utf8_char_split. destruct ch; [done|]. injection Hs as _ ->. rewrite str_app_length. lia.
Qed.

(** A character is read whatever follows it. *)
Lemma utf8_char_self s ch rest x : utf8_char s = Some (ch, rest) → utf8_char (ch +:+ x) = Some (ch, x).
Proof.
  destruct s as [|a [|b [|c [|d s]]]]; cbn [utf8_char]; try done; repeat case_match; intros; simplify_eq;
    cbn [utf8_char String.append]; repeat case_match; simplify_eq; try done; congruence.
Qed.

Lemma utf8_char_slash s x : s ≠ "" → utf8_char s = None → utf8_char (s +:+ String "/" x) = None.
Proof.
  assert (H1 : between 128 191 "/" = false) by done. assert (H2 : between 160 191 "/" = false) by done.
  assert (H3 : between 128 159 "/" = false) by done. assert (H4 : between 144 191 "/" = false) by done.
  assert (H5 : between 128 143 "/" = false) by done.
  destruct s as [|a [|b [|c [|d s]]]]; cbn [utf8_char String.append]; try done;
    rewrite ?H1, ?H2, ?H3, ?H4, ?H5, ?andb_false_r; cbn [orb andb];
    repeat case_match; intros; simplify_eq; done.
Qed.

Lemma decode_from_enough fuel fuel' s :
  String.length s ≤ fuel → String.length s ≤ fuel' → decode_from fuel s = decode_from fuel' s.
Proof.
  revert fuel' s. induction fuel as [|fuel IH]; intros fuel' s; destruct s as [|c s]; cbn [String.length]; try lia.
  { by destruct fuel'. }
  { by destruct fuel'. }
  destruct fuel' as [|fuel']; [lia|]. intros Hf Hf'. cbn [decode_from].
  destruct (utf8_char (String c s)) as [[ch rest]|] eqn:Hu; [|f_equal; apply IH; lia].
  apply utf8_char_shorter in Hu.
  f_equal. apply IH; lia.
Qed.

Lemma decode_cons c s :
  decode_name (String c s)
  = match utf8_char (String c s) with
    | Some (ch, rest) => ch +:+ decode_name rest
    | None => raw_char c +:+ decode_name s
    end.
Proof.
  unfold decode_name. cbn [String.length decode_from].
  destruct (utf8_char (String c s)) as [[ch rest]|] eqn:Hu; [|done].
  f_equal. apply decode_from_enough; [|done]. by eapply utf8_char_shorter.
Qed.

(** Text is decoded character by character. *)
Lemma decode_ind (P : string → Prop) :
  P "" →
  (∀ s ch rest, utf8_char s = Some (ch, rest) → P rest → P s) →
  (∀ c s, utf8_char (String c s) = None → P s → P (String c s)) →
  ∀ s, P s.
Proof.
  intros H0 Hch Hraw s. remember (String.length s) as n eqn:Hn. revert s Hn.
  induction n as [n IH] using (well_founded_induction lt_wf). intros s ->. destruct s as [|c s]; [done|].
  destruct (utf8_char (String c s)) as [[ch rest]|] eqn:Hu.
  - apply (Hch _ ch rest Hu). eapply IH; [|done]. apply utf8_char_shorter in Hu. cbn. lia.
  - apply Hraw; [done|]. eapply IH; [|done]. cbn. lia.
Qed.

Lemma decode_char s ch rest : utf8_char s = Some (ch, rest) → decode_name s = ch +:+ decode_name rest.
Proof. intros Hu. destruct s as [|c s]; [done|]. by rewrite decode_cons, Hu. Qed.

Lemma decode_slash a b : decode_name (a +:+ String "/" b) = decode_name a +:+ String "/" (decode_name b).
Proof.
  induction a as [|s ch rest Hu IH|c s Hu IH] using decode_ind.
  - by rewrite (decode_char _ "/" b).
  - rewrite (decode_char _ ch (rest +:+ String "/" b)) by by apply utf8_char_app.
    by rewrite IH, (decode_char s ch rest Hu), str_app_assoc.
  - pose proof (utf8_char_slash (String c s) b ltac:(done) Hu) as Hs. cbn [String.append] in Hs |- *.
    rewrite !decode_cons, Hs, Hu, IH. by rewrite str_app_assoc.
Qed.

Lemma raw_char_no_slash c : bytes_any (is_byte "/") (raw_char c) = false.
Proof. by destruct c as [[] [] [] [] [] [] [] []]. Qed.

Lemma decode_no_slash s : bytes_any (is_byte "/") s = false → bytes_any (is_byte "/") (decode_name s) = false.
Proof.
  induction s as [|s ch rest Hu IH|c s Hu IH] using decode_ind; [done|..].
  - rewrite (decode_char s ch rest Hu). apply utf8_char_split in Hu as [-> _]. rewrite !bytes_any_app.
    intros [-> Hr]%orb_false_iff. by rewrite IH.
  - cbn [bytes_any]. intros [_ Hs]%orb_false_iff. rewrite decode_cons, Hu, bytes_any_app, raw_char_no_slash. by apply IH.
Qed.

(** ** Distinct names stay distinct *)

Definition raw_byte (s : string) : ascii :=
  match s with
  | String _ (String _ (String c (String d _))) => ascii_of_N ((byte_of c - 188) * 64 + (byte_of d - 128))
  | _ => "000"%char
  end.

(** The name a text stands for. *)
Fixpoint encode_from (fuel : nat) (s : string) : string :=
  match fuel, utf8_char s with
  | S fuel, Some (ch, rest) =>
      (if is_reserved_char ch then String (raw_byte ch) "" else ch) +:+ encode_from fuel rest
  | _, _ => ""
  end.

Lemma raw_char_read c s x :
  utf8_char (String c s) = None →
  utf8_char (raw_char c +:+ x) = Some (raw_char c, x) ∧ is_reserved_char (raw_char c) = true
  ∧ raw_byte (raw_char c) = c.
Proof.
  intros Hu. assert (between 0 127 c = false) as Hc.
  { cbn [utf8_char] in Hu. by destruct (between 0 127 c). }
  clear Hu. destruct c as [[] [] [] [] [] [] [] []]; try discriminate Hc; split_and!; reflexivity.
Qed.

Lemma reserved_cons c s :
  reserved (String c s)
  = match utf8_char (String c s) with
    | Some (ch, rest) => is_reserved_char ch || reserved rest
    | None => reserved s
    end.
Proof.
  assert (Henough : ∀ fuel fuel' s, String.length s ≤ fuel → String.length s ≤ fuel' →
    reserved_from fuel s = reserved_from fuel' s).
  { clear. induction fuel as [|fuel IH]; intros fuel' s; destruct s as [|c s]; cbn [String.length]; try lia.
    { by destruct fuel'. }
    { by destruct fuel'. }
    destruct fuel' as [|fuel']; [lia|]. intros Hf Hf'. cbn [reserved_from].
    destruct (utf8_char (String c s)) as [[ch rest]|] eqn:Hu; [|apply IH; lia].
    apply utf8_char_shorter in Hu.
    f_equal. apply IH; lia. }
  unfold reserved. cbn [String.length reserved_from].
  destruct (utf8_char (String c s)) as [[ch rest]|] eqn:Hu; [|done].
  f_equal. apply Henough; [|done]. by eapply utf8_char_shorter.
Qed.

Lemma encode_decode s fuel :
  reserved s = false → String.length (decode_name s) ≤ fuel → encode_from fuel (decode_name s) = s.
Proof.
  revert fuel. induction s as [|s ch rest Hu IH|c s Hu IH] using decode_ind; intros fuel Hr Hf.
  - by destruct fuel.
  - pose proof (utf8_char_split _ _ _ Hu) as [Hs Hne].
    assert (is_reserved_char ch = false ∧ reserved rest = false) as [Hch Hrest].
    { destruct s as [|c s]; [done|]. rewrite reserved_cons, Hu in Hr. by apply orb_false_iff. }
    rewrite (decode_char s ch rest Hu) in *. rewrite str_app_length in Hf.
    destruct fuel as [|fuel]; [destruct ch; [done|cbn in Hf; lia]|]. cbn [encode_from].
    rewrite (utf8_char_self s ch rest _ Hu), Hch, IH; [done|done|]. destruct ch; [done|cbn in Hf; lia].
  - rewrite reserved_cons, Hu in Hr. rewrite decode_cons, Hu in *. rewrite str_app_length in Hf.
    destruct (raw_char_read c s (decode_name s) Hu) as (Hread & Hres & Hbyte).
    destruct fuel as [|fuel]; [cbn in Hf; lia|]. cbn [encode_from]. rewrite Hread, Hres, Hbyte, IH; [done|done|].
    cbn in Hf. lia.
Qed.

(** Names that are not refused are never confused: they are read back from the text they are
    matched as, so distinct names give distinct texts. *)
Theorem decoded_names_distinct a b :
  reserved a = false → reserved b = false → decode_name a = decode_name b → a = b.
Proof.
  intros Ha Hb Heq. rewrite <- (encode_decode a _ Ha (le_n _)), Heq. by apply encode_decode.
Qed.

(** ** Paths *)

Definition slash_free (name : string) : Prop := bytes_any (is_byte "/") name = false.

Lemma join_cons part part' parts :
  join_slash (part :: part' :: parts) = part +:+ String "/" (join_slash (part' :: parts)).
Proof. done. Qed.

Lemma decode_join path : decode_path path = join_slash (map decode_name path).
Proof.
  unfold decode_path. induction path as [|a [|b path] IH]; [done|done|].
  rewrite join_cons, decode_slash, IH. done.
Qed.

Lemma split_decoded path :
  path ≠ [] → Forall slash_free path → split_byte "/" (decode_path path) = map decode_name path.
Proof.
  rewrite decode_join. induction path as [|a [|b path] IH]; intros Hne Hall; [done|..].
  - apply Forall_cons in Hall as [Ha _]. apply split_byte_none, decode_no_slash, Ha.
  - apply Forall_cons in Hall as [Ha Hall]. cbn [map]. rewrite join_cons, split_byte_app by by apply decode_no_slash.
    f_equal. by apply IH.
Qed.

Lemma decode_path_app path suffix :
  path ≠ [] → suffix ≠ [] → decode_path (path ++ suffix) = (decode_path path +:+ "/") +:+ decode_path suffix.
Proof.
  rewrite !decode_join, map_app. intros Hp Hs. induction path as [|a [|b path] IH]; [done|..].
  - destruct suffix as [|s suffix]; [done|]. cbn [map app]. by rewrite join_cons, !str_app_assoc.
  - cbn [map app] in IH |- *. rewrite join_cons, IH by done. by rewrite join_cons, !str_app_assoc.
Qed.

Section Matching.
Context `{RegexCrate}.

(** A pattern is looked for at the path and at each parent. *)
Lemma found_iff pattern path :
  path ≠ [] → Forall slash_free path →
  found pattern (decode_path path) = true ↔
  ∃ prefix, prefix ≠ [] ∧ prefix `prefix_of` path ∧ pattern_matches pattern (decode_path prefix) = true.
Proof.
  intros Hne Hall. unfold found. rewrite split_decoded, length_map by done.
  assert (Htake : ∀ n, join_slash (take n (map decode_name path)) = decode_path (take n path)).
  { intros n. by rewrite decode_join, firstn_map. }
  rewrite orb_true_iff, existsb_exists. setoid_rewrite Htake. split.
  - intros [Hm|(n & Hn%list_elem_of_In%elem_of_seq & Hm)]; [by exists path|].
    exists (take n path). split_and!; [|by apply prefix_take|done].
    intros Hnil. apply (f_equal length) in Hnil. rewrite length_take in Hnil. cbn in Hnil. lia.
  - intros (prefix & Hp & [suffix ->] & Hm). destruct suffix as [|x suffix]; [rewrite app_nil_r; auto|]. right.
    exists (length prefix). rewrite length_app. cbn [length]. split; [|by rewrite take_app_length].
    apply list_elem_of_In, elem_of_seq. destruct prefix; [done|]. cbn. lia.
Qed.

(** Below an ignored directory that no exception reaches, everything is ignored. *)
Lemma ignored_below `{!RegexLaws} matcher path suffix :
  Forall (λ pattern, compile pattern.(pt_source) = Some pattern.(pt_kind)) matcher →
  path ≠ [] → suffix ≠ [] → Forall slash_free (path ++ suffix) →
  exception_can_match_descendant matcher path = false →
  matches_or_parent_matches matcher path = true → matches_or_parent_matches matcher (path ++ suffix) = true.
Proof.
  intros Hc Hp Hs Hall Hex. unfold matches_or_parent_matches.
  assert (Hstep : ∀ pattern, pattern ∈ matcher →
    found pattern (decode_path path) = true → found pattern (decode_path (path ++ suffix)) = true).
  { intros pattern _. apply Forall_app in Hall as [Hall1 Hall2].
    rewrite !found_iff; [|by destruct path|by apply Forall_app|done|done].
    intros (prefix & Hne & Hpre & Hm). exists prefix. split_and!; [done|by apply prefix_app_r|done]. }
  assert (Hno : ∀ pattern, pattern ∈ matcher → pattern.(pt_exclusion) = true →
    found pattern (decode_path (path ++ suffix)) = true → found pattern (decode_path path) = true).
  { intros pattern Hin Hexc. apply Forall_app in Hall as [Hall1 Hall2].
    rewrite !found_iff; [|done|done|by destruct path|by apply Forall_app].
    intros (prefix & Hne & Hpre & Hm).
    destruct (prefix_weak_total prefix path (path ++ suffix)) as [Hle|[s' ->]];
      [done|by apply prefix_app_r|by exists prefix|].
    destruct s' as [|x s']; [exists path; rewrite app_nil_r in Hm; done|]. exfalso.
    apply not_true_iff_false in Hex. apply Hex. apply existsb_exists. exists pattern. split.
    - apply filter_In. split; [by apply list_elem_of_In|done].
    - eapply exception_sound; [by eapply Forall_forall in Hc|exact Hm|].
      rewrite decode_path_app by done. apply starts_with_app. }
  assert (Hfold : ∀ patterns m m', (∀ p, p ∈ patterns → p ∈ matcher) → (m = true → m' = true) →
    fold_left (match_step (decode_path path)) patterns m = true →
    fold_left (match_step (decode_path (path ++ suffix))) patterns m' = true).
  { induction patterns as [|p patterns IH]; intros m m' Hsub Hm; cbn [fold_left]; [done|].
    apply IH; [set_solver|]. specialize (Hstep p ltac:(set_solver)). specialize (Hno p ltac:(set_solver)).
    unfold match_step. destruct m, m', (pt_exclusion p), (found p (decode_path path)),
      (found p (decode_path (path ++ suffix))); cbn; naive_solver. }
  by apply Hfold.
Qed.
End Matching.

(** ** What is selected *)

(** An entry of the context, by the names that lead to it. *)
Inductive entry_at : ContextEntry → list string → ContextEntry → Prop :=
| at_here entry : entry_at entry [] entry
| at_below entries name child path entry :
    (name, child) ∈ entries → entry_at child path entry → entry_at (Directory entries) (name :: path) entry.

Lemma ContextEntry_nested_ind (P : ContextEntry → Prop) :
  P File → P Unknown → (∀ denied, P (Unreadable denied)) →
  (∀ entries, Forall (λ kv, P kv.2) entries → P (Directory entries)) → ∀ entry, P entry.
Proof.
  intros Hf Hu Hd Hdir. fix IH 1. intros [| |denied|entries]; [done..|]. apply Hdir.
  induction entries as [|[name child] entries IHe]; constructor; [apply IH|exact IHe].
Qed.

Definition names_ok (entry : ContextEntry) : Prop := ∀ path e, entry_at entry path e → Forall slash_free path.

Lemma names_ok_child entries name child :
  names_ok (Directory entries) → (name, child) ∈ entries → slash_free name ∧ names_ok child.
Proof.
  intros Hok Hin. split.
  - specialize (Hok [name] child ltac:(econstructor; [exact Hin|constructor])). by apply Forall_cons in Hok as [? _].
  - intros path e He. specialize (Hok (name :: path) e ltac:(by econstructor)). by apply Forall_cons in Hok as [_ ?].
Qed.

Lemma elem_of_ancestors path p : p ∈ ancestors_of path ↔ p ≠ [] ∧ p `prefix_of` path.
Proof.
  unfold ancestors_of. rewrite elem_of_list_to_set, list_elem_of_fmap. setoid_rewrite elem_of_seq. split.
  - intros (n & -> & Hn). split; [|apply prefix_take]. intros Hnil. apply (f_equal length) in Hnil.
    rewrite length_take in Hnil. cbn in Hnil. lia.
  - intros [Hne [suffix ->]]. exists (length p). rewrite take_app_length. split; [done|]. rewrite length_app.
    destruct p; [done|]. cbn. lia.
Qed.

Lemma path_prefix_iff p path : path_prefix p path = true ↔ p `prefix_of` path.
Proof.
  unfold path_prefix. rewrite bool_decide_eq_true. split.
  - intros <-. apply prefix_take.
  - intros [suffix ->]. by rewrite take_app_length.
Qed.

Section Selected.
Context `{RegexCrate, !RegexLaws} (matcher : list Pattern) (controls : list (list string)).
Hypothesis compiled : Forall (λ pattern, compile pattern.(pt_source) = Some pattern.(pt_kind)) matcher.

(** Paths that a rule leaves in, with the directories that lead to them. *)
Definition selected (relative : list string) (entry : ContextEntry) (p : list string) : Prop :=
  p ≠ [] ∧ ∃ path e, path ≠ [] ∧ entry_at entry path e
    ∧ is_ignored matcher controls (relative ++ path) = false ∧ p `prefix_of` relative ++ path.

Lemma skipped_below path suffix :
  path ≠ [] → suffix ≠ [] → Forall slash_free (path ++ suffix) →
  exception_can_match_descendant matcher path = false →
  is_ignored matcher controls path = true → is_ignored matcher controls (path ++ suffix) = true.
Proof.
  unfold is_ignored. intros Hp Hs Hall Hex [Hm Hc]%andb_true_iff. rewrite ignored_below by done. cbn [andb].
  apply negb_true_iff in Hc. apply negb_true_iff. apply not_true_iff_false. apply not_true_iff_false in Hc.
  intros (control & Hin & Hpre)%existsb_exists. apply Hc. apply existsb_exists. exists control. split; [done|].
  apply path_prefix_iff in Hpre. apply path_prefix_iff. by eapply prefix_app_l.
Qed.

(** What is selected of one entry of a directory. *)
Definition selected_of (relative : list string) (name : string) (child : ContextEntry) (p : list string) : Prop :=
  p ≠ [] ∧ ∃ rest e, entry_at child rest e
    ∧ is_ignored matcher controls ((relative ++ [name]) ++ rest) = false ∧ p `prefix_of` (relative ++ [name]) ++ rest.

Lemma selected_directory relative entries p :
  selected relative (Directory entries) p ↔ ∃ name child, (name, child) ∈ entries ∧ selected_of relative name child p.
Proof.
  unfold selected, selected_of. split.
  - intros (Hp & path & e & Hne & He & Hi & Hpre). inversion He as [|? name child rest ? Hin Hrest]; subst; [done|].
    exists name, child. split; [done|]. split; [done|]. exists rest, e. by rewrite <- app_assoc.
  - intros (name & child & Hin & Hp & rest & e & He & Hi & Hpre). split; [done|].
    rewrite <- app_assoc in Hi, Hpre. exists (name :: rest), e. split_and!; [done|by econstructor|done|done].
Qed.

(** One entry: an ignored directory is entered only for an exception. *)
Lemma walk_entry_exact relative name child here :
  Forall slash_free relative → slash_free name → names_ok child →
  (∀ set, walk matcher controls (relative ++ [name]) child = Ok set →
     ∀ p, p ∈ set ↔ selected (relative ++ [name]) child p) →
  (let path := relative ++ [name] in
   if is_ignored matcher controls path then
     if is_directory child && exception_can_match_descendant matcher path
     then walk matcher controls path child else Ok ∅
   else
     let? below := if is_directory child then walk matcher controls path child else Ok ∅ in
     Ok (ancestors_of path ∪ below)) = Ok here →
  ∀ p, p ∈ here ↔ selected_of relative name child p.
Proof.
  cbv zeta. set (path := relative ++ [name]). intros Hr Hn Hok IH Hw p.
  assert (Hpath : path ≠ [] ∧ Forall slash_free path).
  { split; [by destruct relative|]. apply Forall_app. split; [done|by constructor]. }
  assert (Hleaf : is_directory child = false → ∀ rest e, entry_at child rest e → rest = []).
  { intros Hd rest e He. inversion He; by subst. }
  assert (Hsplit : selected_of relative name child p ↔
    selected path child p ∨ p ≠ [] ∧ is_ignored matcher controls path = false ∧ p `prefix_of` path).
  { unfold selected_of, selected. fold path. split.
    - intros (Hp & rest & e & He & Hi & Hpre). destruct rest as [|x rest]; [rewrite app_nil_r in *; auto|].
      left. split; [done|]. by exists (x :: rest), e.
    - intros [(Hp & rest & e & _ & He & Hi & Hpre)|(Hp & Hi & Hpre)]; (split; [done|]); [by exists rest, e|].
      exists [], child. rewrite app_nil_r. split_and!; [constructor|done|done]. }
  rewrite Hsplit. destruct (is_ignored matcher controls path) eqn:Hig.
  - assert (Hnone : ∀ rest e, entry_at child rest e → is_directory child = false ∨
      exception_can_match_descendant matcher path = false → rest ≠ [] →
      is_ignored matcher controls (path ++ rest) = true).
    { intros rest e He [Hd|Hex] Hrest; [by destruct Hrest; eapply Hleaf|]. apply skipped_below; try done; [apply Hpath|].
      apply Forall_app. split; [apply Hpath|]. by eapply Hok. }
    destruct (is_directory child && exception_can_match_descendant matcher path) eqn:Hd.
    + rewrite (IH here Hw). naive_solver.
    + injection Hw as <-. split; [set_solver|]. intros [(Hp & rest & e & Hne & He & Hi & Hpre)|(_ & ? & _)]; [|done].
      rewrite (Hnone rest e) in Hi; [done|done| |done]. by apply andb_false_iff.
  - apply result_bind_Ok in Hw as (below & Hb & [= <-]). rewrite elem_of_union, elem_of_ancestors.
    assert (Hbelow : p ∈ below ↔ selected path child p).
    { destruct (is_directory child) eqn:Hd; [by apply IH|]. injection Hb as <-. split; [set_solver|].
      intros (_ & rest & e & Hne & He & _). by destruct Hne; eapply Hleaf. }
    rewrite Hbelow. naive_solver.
Qed.

Lemma walk_selects entry relative set :
  Forall slash_free relative → names_ok entry → walk matcher controls relative entry = Ok set →
  ∀ p, p ∈ set ↔ selected relative entry p.
Proof.
  revert relative set. induction entry as [| |denied|entries IH] using ContextEntry_nested_ind; intros relative set Hr Hok Hw p.
  - discriminate Hw.
  - discriminate Hw.
  - cbn [walk] in Hw. destruct (_ && _); [|done]. injection Hw as <-.
    split; [set_solver|]. intros (_ & path & e & Hne & He & _). by inversion He.
  - rewrite selected_directory. cbn [walk] in Hw.
    assert (Hnames : ∀ name child, (name, child) ∈ entries → slash_free name ∧ names_ok child)
      by (intros name child; by apply names_ok_child).
    clear Hok. revert set Hw. induction entries as [|[name child] entries IHe]; intros set Hw; cbn [walk_entries] in Hw.
    { injection Hw as <-. set_solver. }
    destruct (reserved name); [done|]. destruct (metadata_fails child); [done|].
    apply result_bind_Ok in Hw as (here & Hhere & Hw). apply result_bind_Ok in Hw as (rest & Hrest & [= <-]).
    apply Forall_cons in IH as [IHc IH]. destruct (Hnames name child ltac:(left)) as [Hn Hok].
    assert (Htail : p ∈ rest ↔ ∃ name child, (name, child) ∈ entries ∧ selected_of relative name child p).
    { apply (IHe IH); [|done]. intros n c Hin. apply Hnames. by right. }
    assert (Hhead : p ∈ here ↔ selected_of relative name child p).
    { apply walk_entry_exact; try done. intros s Hs. apply IHc; try done.
      apply Forall_app. split; [done|by constructor]. }
    rewrite elem_of_union, Hhead, Htail. setoid_rewrite elem_of_cons. split.
    + intros [Hp|(n & c & Hin & Hp)]; [exists name, child|exists n, c]; auto.
    + intros (n & c & [[= -> ->]|Hin] & Hp); [by left|right]. by exists n, c.
Qed.
End Selected.

(** ** The last rule decides *)

(** Whether the last pattern that matches a path or a parent of it takes it out. *)
Definition taken_out `{RegexCrate} (matcher : list Pattern) (path : list string) : bool :=
  match last (List.filter (λ pattern, found pattern (decode_path path)) matcher) with
  | Some pattern => negb pattern.(pt_exclusion)
  | None => false
  end.

Lemma matches_last `{RegexCrate} matcher path : matches_or_parent_matches matcher path = taken_out matcher path.
Proof.
  unfold matches_or_parent_matches, taken_out. induction matcher as [|pattern matcher IH] using rev_ind; [done|].
  rewrite fold_left_app, List.filter_app, IH. cbn [fold_left List.filter].
  destruct (found pattern (decode_path path)) eqn:Hf.
  - rewrite last_snoc. unfold match_step. rewrite Hf.
    by destruct (pt_exclusion pattern), (match last _ with Some _ => _ | None => _ end).
  - rewrite app_nil_r. unfold match_step. rewrite Hf. by destruct (negb _).
Qed.

Lemma matcher_compiled `{RegexCrate} patterns matcher :
  Matcher_new patterns = Ok matcher →
  Forall (λ pattern, compile pattern.(pt_source) = Some pattern.(pt_kind)) matcher.
Proof.
  intros Hm%collect_result_Ok. induction Hm as [|text pattern texts patterns' Hp _ IH]; constructor; [|done].
  unfold matcher_pattern in Hp. apply result_bind_Ok in Hp as ([exclusion source] & _ & Hp).
  cbn [fst snd] in Hp. destruct (compile source) as [kind|] eqn:Hc; [|done]. by injection Hp as <-.
Qed.

(** Every directory below can be read, and no name is reserved. *)
Definition readable_below (context : ContextEntry) : Prop :=
  ∀ path e, entry_at context path e →
    Forall (λ name, reserved name = false) path ∧ (e = File ∨ ∃ entries, e = Directory entries).

Lemma readable_child entries name child :
  readable_below (Directory entries) → (name, child) ∈ entries →
  reserved name = false ∧ readable_below child ∧ (child = File ∨ ∃ entries, child = Directory entries).
Proof.
  intros Hr Hin. destruct (Hr [name] child) as [Hn Hc]; [econstructor; [exact Hin|constructor]|].
  apply Forall_cons in Hn as [Hn _]. split_and!; [done| |done]. intros path e He.
  destruct (Hr (name :: path) e) as [Hp He']; [by econstructor|]. by apply Forall_cons in Hp as [_ ?].
Qed.

(** The context is a directory, it and every directory below can be read, and no name is
    reserved. *)
Definition readable_tree (context : ContextEntry) : Prop :=
  (∃ entries, context = Directory entries) ∧ readable_below context.

Lemma walk_succeeds `{RegexCrate} matcher controls entry relative :
  readable_tree entry → is_Some (result_ok (walk matcher controls relative entry)).
Proof.
  intros [Hd Hr]. revert relative Hd Hr.
  induction entry as [| |denied|entries IH] using ContextEntry_nested_ind; intros relative Hd Hr;
    [by destruct Hd..|]. clear Hd. cbn [walk].
  assert (Hch : ∀ name child, (name, child) ∈ entries → reserved name = false ∧ readable_below child
    ∧ (child = File ∨ ∃ entries, child = Directory entries)) by (intros name child; by apply readable_child).
  clear Hr. induction entries as [|[name child] entries IHe]; [done|]. cbn [walk_entries].
  apply Forall_cons in IH as [IHc IH]. destruct (Hch name child ltac:(left)) as (-> & Hrc & Hkind).
  assert (metadata_fails child = false) as -> by (by destruct Hkind as [->|[? ->]]).
  assert (Hwalk : is_directory child = true → ∃ set, walk matcher controls (relative ++ [name]) child = Ok set).
  { intros Hdir. destruct Hkind as [->|Hkind]; [done|]. specialize (IHc (relative ++ [name]) Hkind Hrc).
    cbn [snd] in IHc.
    destruct (walk matcher controls (relative ++ [name]) child) as [set|]; [by exists set|by destruct IHc]. }
  assert (Hrest : ∃ rest, walk_entries matcher controls (walk matcher controls) relative entries = Ok rest).
  { destruct (IHe IH) as [rest Hrest]; [intros n c Hin; apply Hch; by right|].
    destruct (walk_entries _ _ _ _ entries) as [r|]; [by exists r|done]. }
  destruct Hrest as [rest Hrest].
  destruct (is_directory child) eqn:Hdir.
  - destruct (Hwalk eq_refl) as [set Hset].
    destruct (is_ignored matcher controls (relative ++ [name])); cbn [result_bind andb];
      [destruct (exception_can_match_descendant _ _)|]; rewrite ?Hset; cbn [result_bind]; by rewrite Hrest.
  - destruct (is_ignored matcher controls (relative ++ [name])); cbn [result_bind andb]; by rewrite Hrest.
Qed.

(** C36: what leaves the host of a build context is exactly what the rules leave in: the paths the
    last matching pattern does not take out, the rules' own files, and the directories that lead to
    them; skipping directories no exception can reach changes nothing. Where the rules are read
    and every directory can be, the selection succeeds. *)
Theorem context_selection_exact `{RegexCrate, !RegexLaws} `{!RuleFiles} context rules patterns controls ignore
    matcher :
  names_ok context → context_rules rules = Ok (patterns, controls, ignore) → Matcher_new patterns = Ok matcher →
  (∀ paths ignore', select context rules = Ok (paths, ignore') →
     ignore' = ignore ∧
     ∀ p, p ∈ paths ↔ p ≠ [] ∧ ∃ path entry, entry_at context path entry ∧ p `prefix_of` path
       ∧ (taken_out matcher path = false ∨ ∃ control, control ∈ controls ∧ path `prefix_of` control))
  ∧ (readable_tree context → is_Some (result_ok (select context rules))).
Proof.
  intros Hok Hrules Hm. unfold select. rewrite Hrules. cbn [result_bind]. rewrite Hm. cbn [result_bind].
  split.
  - intros paths ignore' (set & Hw & [= <- <-])%result_bind_Ok. split; [done|]. intros p.
    rewrite (walk_selects matcher controls (matcher_compiled _ _ Hm) context [] set) by (try done; constructor).
    assert (Hleft : ∀ path, is_ignored matcher controls path = false ↔
      taken_out matcher path = false ∨ ∃ control, control ∈ controls ∧ path `prefix_of` control).
    { intros path. unfold is_ignored. rewrite andb_false_iff, negb_false_iff, matches_last, existsb_exists.
      setoid_rewrite path_prefix_iff. setoid_rewrite <- list_elem_of_In. done. }
    unfold selected. split.
    + intros (Hp & path & e & Hne & He & Hi & Hpre). split; [done|]. exists path, e. by rewrite <- Hleft.
    + intros (Hp & path & e & He & Hpre & Hi). split; [done|]. exists path, e. rewrite Hleft. split_and!; try done.
      intros ->. by apply prefix_nil_inv in Hpre.
  - intros Hr. destruct (walk_succeeds matcher controls context [] Hr) as [set Hset].
    destruct (walk matcher controls [] context); [by eexists|done].
Qed.

(** ** Cleaned patterns *)

(** Components that cleaning keeps as they are, last first. *)
Fixpoint kept_parts (rooted : bool) (parts : list string) : Prop :=
  match parts with
  | [] => True
  | part :: rest => clean_step rooted rest part = part :: rest ∧ kept_parts rooted rest
  end.

Lemma clean_step_kept rooted parts part :
  kept_parts rooted parts → kept_parts rooted (clean_step rooted parts part).
Proof.
  intros Hk. destruct (decide (clean_step rooted parts part = part :: parts)) as [Heq|Hne].
  { rewrite Heq. by split. }
  revert Hne. unfold clean_step. destruct (_ || _); [done|]. case_bool_decide; [|done].
  destruct parts as [|last rest]; [by destruct rooted|]. destruct (negb _); [by destruct Hk|by destruct rooted].
Qed.

Lemma clean_fold_kept rooted pieces parts :
  kept_parts rooted parts → kept_parts rooted (fold_left (clean_step rooted) pieces parts).
Proof. revert parts. induction pieces as [|p pieces IH]; intros parts Hk; [done|]. by apply IH, clean_step_kept. Qed.

Lemma clean_fold_rev rooted parts : kept_parts rooted parts → fold_left (clean_step rooted) (rev parts) [] = parts.
Proof.
  induction parts as [|part rest IH]; [done|]. intros [Hs Hk]. cbn [rev]. rewrite fold_left_app, IH by done. exact Hs.
Qed.

Lemma split_no_slash s : Forall slash_free (split_byte "/" s).
Proof.
  induction s as [|c s IH]; [by repeat constructor|]. cbn [split_byte].
  destruct (Ascii.eqb_spec c "/") as [->|Hc]; [by constructor|].
  destruct (split_byte "/" s) as [|piece pieces]; [repeat constructor|].
  - unfold slash_free. cbn. rewrite is_byte_spec, orb_false_r. by apply Ascii.eqb_neq.
  - apply Forall_cons in IH as [Hp Hps]. constructor; [|done]. unfold slash_free in *. cbn [bytes_any].
    rewrite Hp, is_byte_spec, orb_false_r. by apply Ascii.eqb_neq.
Qed.

Lemma clean_step_in rooted parts part x : x ∈ clean_step rooted parts part → x ∈ parts ∨ x = part ∧ part ≠ "".
Proof.
  unfold clean_step. destruct (_ || _) eqn:Hskip; [by left|].
  apply orb_false_iff in Hskip as [Hempty%bool_decide_eq_false _].
  repeat case_match; set_solver.
Qed.

Lemma clean_parts_ok rooted pieces parts :
  Forall slash_free pieces → Forall (λ x, slash_free x ∧ x ≠ "") parts →
  Forall (λ x, slash_free x ∧ x ≠ "") (fold_left (clean_step rooted) pieces parts).
Proof.
  revert parts. induction pieces as [|p pieces IH]; intros parts Hp Hk; [done|].
  apply Forall_cons in Hp as [Hp Hps]. apply IH; [done|]. apply Forall_forall. intros x [Hx|[-> Hx]]%clean_step_in; [|done].
  by eapply Forall_forall in Hk.
Qed.

Lemma split_joined parts :
  parts ≠ [] → Forall slash_free parts → split_byte "/" (join_slash parts) = parts.
Proof.
  induction parts as [|a [|b parts] IH]; intros Hne Hall; [done|..]; apply Forall_cons in Hall as [Ha Hall].
  - by apply split_byte_none.
  - rewrite join_cons, split_byte_app by done. f_equal. by apply IH.
Qed.

(** A pattern is cleaned once: cleaning is a normal form. *)
Theorem clean_stable path : clean_path (clean_path path) = clean_path path.
Proof.
  unfold clean_path at 2 3. set (rooted := starts_with "/" path).
  set (parts := fold_left (clean_step rooted) (split_byte "/" path) []).
  assert (Hkept : kept_parts rooted parts) by by apply clean_fold_kept.
  assert (Hok : Forall (λ x, slash_free x ∧ x ≠ "") (rev parts)).
  { apply Forall_rev, clean_parts_ok; [apply split_no_slash|constructor]. }
  assert (Hns : Forall slash_free (rev parts)) by (eapply Forall_impl; [exact Hok|]; naive_solver).
  destruct rooted eqn:Hroot.
  - unfold clean_path. change (starts_with "/" ("/" +:+ join_slash (rev parts))) with true. cbv iota.
    change (split_byte "/" ("/" +:+ join_slash (rev parts))) with ("" :: split_byte "/" (join_slash (rev parts))).
    cbn [fold_left]. change (clean_step true [] "") with (@nil string).
    destruct (decide (rev parts = [])) as [->|Hne]; [done|]. by rewrite split_joined, clean_fold_rev by done.
  - destruct (decide (rev parts = [])) as [->|Hne]; [done|].
    assert (Hjoin : str_is_empty (join_slash (rev parts)) = false ∧ starts_with "/" (join_slash (rev parts)) = false).
    { destruct (rev parts) as [|a rest]; [done|]. apply Forall_cons in Hok as [[Ha Hne'] _].
      destruct a as [|c a]; [done|]. unfold slash_free in Ha. cbn [bytes_any] in Ha. apply orb_false_iff in Ha as [Hc _].
      rewrite is_byte_spec in Hc. destruct rest; cbn [join_slash String.append]; (split; [done|]);
        unfold starts_with; cbn [strip_prefix]; by rewrite Hc. }
    destruct Hjoin as [Hempty Hstart]. rewrite Hempty. unfold clean_path. rewrite Hstart.
    rewrite split_joined, clean_fold_rev, Hempty by done. done.
Qed.

(** ** At a sample *)

Module SampleContext.
(** The literal text an expression opens with. *)
Fixpoint opening (s : string) : string :=
  match s with
  | String c rest =>
      if Ascii.eqb c BACKSLASH then
        match rest with
        | String d rest => if is_special d then String d (opening rest) else ""
        | EmptyString => ""
        end
      else if is_wildcard c || is_special c then "" else String c (opening rest)
  | EmptyString => ""
  end.

(** An engine that looks at this text only. *)
#[export] Instance crate : RegexCrate :=
  {| regex_valid := λ _, true;
     regex_is_match := λ re path, match re with String _ re => starts_with (opening re) path | EmptyString => false end;
     regex_escape := λ s, String BACKSLASH s |}.

Lemma opening_literal lit x : no_wildcard lit = true → opening (literal_text lit +:+ x) = lit +:+ opening x.
Proof.
  induction lit as [|c lit IH]; [done|]. cbn [no_wildcard]. intros [Hc%negb_true_iff Hl]%andb_true_iff.
  cbn [literal_text]. unfold literal_char. destruct (is_special c) eqn:Hs; cbn [String.append opening].
  - rewrite Hs. cbn. by rewrite IH.
  - rewrite (proj1 (proj2 (proj2 (is_wildcard_false c Hc)))), Hc, Hs. cbn [orb]. by rewrite IH.
Qed.

#[export] Instance regex_laws : RegexLaws.
Proof.
  intros lit t path Hl _ Hm. cbn in Hm. rewrite opening_literal in Hm by done.
  eapply starts_with_trans; [apply starts_with_app|exact Hm].
Qed.

Definition ignore_text : string := String.concat (String LF "") ["# build output"; "target"; "!target/keep"; " /secret.env "].

#[export] Instance files : RuleFiles :=
  {| read_file := λ _, ReadNotFound;
     read_in_context := λ name, if String.eqb name ".dockerignore" then ReadText ignore_text else ReadNotFound;
     canonicalize_in_context := λ _, CanonicalNotFound;
     parse_exclude := λ _, None |}.

Definition context : ContextEntry :=
  Directory [(".dockerignore", File); ("main.rs", File); ("secret.env", File);
             ("target", Directory [("debug", Directory [("out", File)]); ("keep", Directory [("a", File)])])].

Definition rules : Rules := RulesDockerfile "Dockerfile".
End SampleContext.

Import SampleContext.

(** The exception is found below the ignored directory; nothing else of it is. *)
Example selected_sample :
  match select SampleContext.context SampleContext.rules with
  | Ok (paths, _) =>
      bool_decide (paths = list_to_set [[".dockerignore"]; ["main.rs"]; ["target"]; ["target"; "keep"];
                                        ["target"; "keep"; "a"]])
  | Err _ => false
  end = true.
Proof. vm_compute. reflexivity. Qed.

Example standard_json_sample :
  standard_json (String.concat (String LF "") ["{ // a comment"; " [1, 2, /* another */ ], }"])
  = Some (String.concat (String LF "") ["{ "; " [1, 2]}"])
  ∧ clean_path "./a//b/../c/" = "a/c" ∧ clean_path "/../x" = "/x" ∧ clean_path "a/.." = ".".
Proof. vm_compute. split_and!; reflexivity. Qed.

(** A check of a whole context. *)
Fixpoint plain_tree (name_ok : string → bool) (entry : ContextEntry) : bool :=
  match entry with
  | File => true
  | Directory entries => forallb (λ kv, name_ok kv.1 && plain_tree name_ok kv.2) entries
  | Unknown | Unreadable _ => false
  end.

Lemma plain_tree_at name_ok entry path e :
  plain_tree name_ok entry = true → entry_at entry path e →
  Forall (λ name, name_ok name = true) path ∧ (e = File ∨ ∃ entries, e = Directory entries).
Proof.
  intros Ht He. induction He as [entry|entries name child path entry Hin He IH].
  - split; [constructor|]. destruct entry; eauto; done.
  - cbn [plain_tree] in Ht. rewrite forallb_forall in Ht. apply list_elem_of_In in Hin.
    specialize (Ht _ Hin). apply andb_true_iff in Ht as [Hn Hc]. destruct (IH Hc) as [Hp Hk].
    split; [by constructor|done].
Qed.

Lemma context_selection_exact_witness :
  ∃ paths matcher, select SampleContext.context SampleContext.rules = Ok (paths, SampleContext.ignore_text)
    ∧ Matcher_new (ignore_file_patterns SampleContext.ignore_text) = Ok matcher
    ∧ ∀ p, p ∈ paths ↔ p ≠ [] ∧ ∃ path entry, entry_at SampleContext.context path entry ∧ p `prefix_of` path
       ∧ (taken_out matcher path = false ∨ ∃ control, control ∈ [[".dockerignore"]] ∧ path `prefix_of` control).
Proof.
  destruct (Matcher_new (ignore_file_patterns SampleContext.ignore_text)) as [matcher|] eqn:Hm; [|by vm_compute in Hm].
  destruct (context_selection_exact SampleContext.context SampleContext.rules
    (ignore_file_patterns SampleContext.ignore_text) [[".dockerignore"]] SampleContext.ignore_text matcher)
    as [Hexact Htotal]; [|by vm_compute|exact Hm|].
  - intros path e He.
    destruct (plain_tree_at (λ n, negb (bytes_any (is_byte "/") n)) SampleContext.context path e) as [Hn _];
      [by vm_compute|done|]. eapply Forall_impl; [exact Hn|]. intros n Hs. by apply negb_true_iff.
  - destruct Htotal as [[paths ignore] Hs].
    { split; [by eexists|]. intros path e He.
      destruct (plain_tree_at (λ n, negb (reserved n)) SampleContext.context path e) as [Hn Hk];
        [by vm_compute|done|]. split; [|done]. eapply Forall_impl; [exact Hn|]. intros n Hr. by apply negb_true_iff. }
    destruct (select SampleContext.context SampleContext.rules) as [[paths' ignore']|] eqn:Hsel; [|done].
    destruct (Hexact paths' ignore' eq_refl) as [-> Hp]. by exists paths', matcher.
Defined.
