(* ===== verification/DeploymentStore.v ===== *)
(** * The Config Store's Deployments: rows and reads

    [ployz-store/src/deployment/mod.rs] and [history.rs], with the parts of
    [scope.rs], [teardown.rs], [trusted.rs] and [volume/mod.rs] a Deployment's
    life needs.

    A table is the list of its rows.  An operation runs in one transaction: it is
    a function of the [Store] that returns its result with the Store it leaves,
    or refuses, and then nothing is kept ([tx]).  Writers of one Environment take
    turns (the row locks of [scope::lock_all]), so operations are applied one
    after another.  The system clock is a sequence of readings, one for each call
    of [tx_now]; tables of the Branch and build subsystems are one opaque
    [World]. *)

From S2P Require Import Prelude BTree Strings Values Volumes ServiceGraph Spec Services.
From S2P Require Import Deploy Preview Execution RuntimeOutcome Config.

Open Scope string_scope.
Open Scope nat_scope.
Open Scope list_scope.

(** ** Data ([deployment/mod.rs]) *)

Abbreviation EnvironmentId := string (only parsing).
Abbreviation DeploymentId := string (only parsing).
Abbreviation OrganizationId := string (only parsing).
Abbreviation ProjectId := string (only parsing).
Abbreviation RunnerId := string (only parsing).
Abbreviation Principal := string (only parsing).
Abbreviation Hostname := string (only parsing).
Abbreviation Revision := N (only parsing).

Inductive DeploymentStatus : Type :=
| StatusQueued | StatusSuperseded | StatusRunning | StatusApplied | StatusFailed | StatusUnknown
| StatusCancelling | StatusCancelled.

Definition status_in_flight (self : DeploymentStatus) : bool :=
  match self with StatusQueued | StatusRunning | StatusCancelling => true | _ => false end.

Inductive NodeStatus : Type :=
| NodePending | NodeDeployed | NodeRemoved | NodeFailed | NodeNotAttempted | NodeUnchanged
| NodeUnknown.

Definition advances (self : NodeStatus) : bool :=
  match self with NodeDeployed | NodeRemoved => true | _ => false end.

Inductive Outcome : Type :=
| OutcomeExecuted (summary : RuntimeOutcomeSummary) (reason : option string)
| OutcomeNotExecuted (reason : string) (needs_upload : list ServiceName)
| OutcomeNeverRan
| OutcomeForgotten.

Record UploadBase : Type := { base_commit : string; base_changed : bool }.

Record UploadedSource : Type := {
  upload_digest : string;
  upload_base : option UploadBase;
  upload_uploader : option Principal
}.

Inductive TargetNode : Type :=
| TargetService (id : string) (name runtime : ServiceName)
| TargetVolume (id name : string) (deletes : option (list DockerVolumeId)).

Definition target_id (self : TargetNode) : string :=
  match self with TargetService id _ _ | TargetVolume id _ _ => id end.

(** The runner's evidence so far. *)
Record Run : Type := {
  run_preview : option DeployPreview;
  run_outcome : option Outcome;
  run_executed : option string;
  run_nodes : bmap string NodeStatus
}.

Definition Run_default : Run :=
  {| run_preview := None; run_outcome := None; run_executed := None; run_nodes := [] |}.

Record DeploymentSummary : Type := {
  ds_id : DeploymentId;
  ds_environment_id : EnvironmentId;
  ds_number : N;
  ds_status : DeploymentStatus;
  ds_saved : Revision;
  ds_services : list ServiceName;
  ds_runner : option RunnerId;
  ds_upload : option UploadedSource;
  ds_remove : bool;
  ds_admitted_by : option Principal;
  ds_admitted_at : Z;
  ds_started_at : option Z;
  ds_ended_at : option Z;
  ds_message : option string;
  ds_in_flight : bool;
  ds_outcome : option Outcome
}.

Record Stored : Type := {
  summary : DeploymentSummary;
  st_namespace : Namespace;
  st_cluster_domain : option Hostname;
  st_nodes : list TargetNode;
  st_run : Run;
  st_lease : Z
}.

Definition MESSAGE_MAX : nat := 500.
Definition LEASE : Z := 600.
Definition NOTHING : Revision := 0%N.

Inductive VolumeRemovalOutcome : Type :=
| RemovalRemoved | RemovalFailed (error : RpcError) | RemovalOmitted.

Record VolumeRemoval : Type := {
  removal_id : DockerVolumeId;
  removal_outcome : VolumeRemovalOutcome
}.

#[global] Instance DeploymentStatus_eq_dec : EqDecision DeploymentStatus.
Proof. solve_decision. Defined.
#[global] Instance NodeStatus_eq_dec : EqDecision NodeStatus.
Proof. solve_decision. Defined.
#[global] Instance RuntimeFailureKind_eq_dec : EqDecision RuntimeFailureKind.
Proof. solve_decision. Defined.
#[global] Instance RuntimeOutcomeSummary_eq_dec : EqDecision RuntimeOutcomeSummary.
Proof. solve_decision. Defined.
#[global] Instance Outcome_eq_dec : EqDecision Outcome.
Proof. solve_decision. Defined.
#[global] Instance TargetNode_eq_dec : EqDecision TargetNode.
Proof. solve_decision. Defined.

(** ** Tables *)

(** A row of [config_deployment]. *)
Record DeploymentRow : Type := {
  d_id : DeploymentId;
  d_organization : OrganizationId;
  d_environment : EnvironmentId;
  d_number : N;
  d_status : DeploymentStatus;
  d_saved : Revision;
  d_services : list ServiceName;
  d_nodes : list TargetNode;
  d_namespace : Namespace;
  d_run : Run;
  d_credentials : bmap ServiceName EncryptedSecretValue;
  d_upload : option UploadedSource;
  d_cluster_domain : option Hostname;
  d_admitted : Z;
  d_admitted_by : option Principal;
  d_runner : option RunnerId;
  d_lease : Z;
  d_started : option Z;
  d_ended : option Z;
  d_message : option string
}.

(** An authored node: [scope::Node], whose kind is the [node_type] column. *)
Inductive AppliedNode : Type :=
| AppliedService (service : SavedServiceIntent)
| AppliedVolumeNode (volume : SavedVolumeIntent).

(** A row of [config_applied]; its key is the Environment and the node. *)
Record AppliedRow : Type := {
  a_environment : EnvironmentId;
  a_node_id : string;
  a_organization : OrganizationId;
  a_deployment : DeploymentId;
  a_node : AppliedNode
}.

(** A row of [config_build]. *)
Inductive BuildStatus : Type := BuildPending | Building | Built | BuildReused | BuildFailed.

Record BuildRow : Type := {
  b_deployment : DeploymentId;
  b_service : ServiceName;
  b_organization : OrganizationId;
  b_commit : option string;
  b_status : BuildStatus;
  b_message : option string;
  b_log : string
}.

(** The columns of [config_environment] and [config_environment_branch] read here. *)
Record EnvironmentRow : Type := {
  e_id : EnvironmentId;
  e_project : ProjectId;
  e_organization : OrganizationId;
  e_name : string;
  e_slug : string;
  e_parent : option EnvironmentId
}.

Record ProjectRow : Type := {
  p_id : ProjectId;
  p_default_environment : EnvironmentId
}.

(** What lies outside: the tables of Branches, and the successive readings of the clock. *)
Class Platform := {
  World : Type;
  clock : nat → Z
}.

Record Store `{Platform} : Type := {
  deployments : list DeploymentRow;
  applied_rows : list AppliedRow;
  build_rows : list BuildRow;
  receipt_rows : bmap (EnvironmentId * ServiceName) (OrganizationId * Value);
  storage_rows : bmap (EnvironmentId * string) VolumeKind;
  saved_rows : bmap (EnvironmentId * Revision) SavedEnvironmentIntent;
  environment_rows : list EnvironmentRow;
  project_rows : list ProjectRow;
  world : World;
  tick : nat
}.

(** ** Refusals *)

Inductive StoreRefusal : Type :=
| NoDeployment (id : DeploymentId)
| NewerReplaced (id : DeploymentId)
| OwnedElsewhere (id : DeploymentId)
| AlreadyEnded (id : DeploymentId)
| AlreadyRunning (id : DeploymentId)
| NothingToRetry (id : DeploymentId)
| NotEnded (id : DeploymentId)
| WouldRollBack (id : DeploymentId) (newer : N)
| LostTrack (id : DeploymentId)
| RunnerLost (id : DeploymentId)
| ClaimFirst (id : DeploymentId)
| DifferentPreview (id : DeploymentId)
| DifferentOutcome (id : DeploymentId)
| PreviewFirst (id : DeploymentId)
| ConfirmBetween (id : DeploymentId)
| NothingToRun (service : string)
| MessageTooLong
| StorageFixed (volume : string)
| BranchesRunning (names : list string)
| DefaultLast (names : list string)
| IsDefault (name : string)
| HasBranches (names : list string)
| BeingRemoved (name : string) (removal : DeploymentSummary)
| NoServers
| NoPinnedBuild (service : ServiceName)
| InvalidEvidence (what : string)
| Corrupt (what : string)
| Constraint
| Elsewhere (error : RpcError).

Definition refusal_code (refusal : StoreRefusal) : RpcErrorCode :=
  match refusal with
  | NoDeployment _ => RpcNotFound
  | NothingToRun _ | MessageTooLong | NoPinnedBuild _ | InvalidEvidence _ => RpcInvalidArgument
  | Corrupt _ | Constraint => RpcInternal
  | Elsewhere error => error.(rpc_code)
  | _ => RpcConflict
  end.

(** ** Transactions *)

Definition tx `{Platform} (A : Type) : Type := Store → Result (A * Store) (Fault StoreRefusal).

Section Transactions.
Context `{Platform}.

Definition tx_ret {A} (x : A) : tx A := λ st, Ok (x, st).

Definition tx_bind {A B} (c : tx A) (k : A → tx B) : tx B :=
  λ st, let? '(x, st) := c st in k x st.

Definition tx_fail {A} (refusal : StoreRefusal) : tx A := λ _, Err (Fails refusal).

Definition tx_of {A} (r : Result A (Fault StoreRefusal)) : tx A :=
  λ st, let? x := r in Ok (x, st).

Definition tx_get {A} (f : Store → A) : tx A := λ st, Ok (f st, st).
Definition tx_put (f : Store → Store) : tx unit := λ st, Ok ((), f st).

Fixpoint tx_each {A} (l : list A) (f : A → tx unit) : tx unit :=
  match l with
  | [] => tx_ret ()
  | x :: l => tx_bind (f x) (λ _, tx_each l f)
  end.
End Transactions.

Notation "'let@' x := c 'in' k" := (tx_bind c (λ x, k))
  (at level 10, x name, c at level 200, k at level 200,
   format "'[v' 'let@'  x  :=  c  'in' '/' k ']'") : ployz_scope.
Notation "'let@' ' p := c 'in' k" := (tx_bind c (λ p, k))
  (at level 10, p strict pattern, c at level 200, k at level 200,
   format "'[v' 'let@'  ' p  :=  c  'in' '/' k ']'") : ployz_scope.
Notation "'run@' c 'in' k" := (tx_bind c (λ _, k))
  (at level 10, c at level 200, k at level 200,
   format "'[v' 'run@'  c  'in' '/' k ']'") : ployz_scope.

Section Reads.
Context `{Platform}.

Definition set_tick (n : nat) (st : Store) : Store :=
  {| deployments := st.(deployments); applied_rows := st.(applied_rows);
     build_rows := st.(build_rows); receipt_rows := st.(receipt_rows);
     storage_rows := st.(storage_rows); saved_rows := st.(saved_rows);
     environment_rows := st.(environment_rows); project_rows := st.(project_rows);
     world := st.(world); tick := n |}.

Definition set_deployments (rows : list DeploymentRow) (st : Store) : Store :=
  {| deployments := rows; applied_rows := st.(applied_rows);
     build_rows := st.(build_rows); receipt_rows := st.(receipt_rows);
     storage_rows := st.(storage_rows); saved_rows := st.(saved_rows);
     environment_rows := st.(environment_rows); project_rows := st.(project_rows);
     world := st.(world); tick := st.(tick) |}.

Definition set_applied (rows : list AppliedRow) (st : Store) : Store :=
  {| deployments := st.(deployments); applied_rows := rows;
     build_rows := st.(build_rows); receipt_rows := st.(receipt_rows);
     storage_rows := st.(storage_rows); saved_rows := st.(saved_rows);
     environment_rows := st.(environment_rows); project_rows := st.(project_rows);
     world := st.(world); tick := st.(tick) |}.

Definition set_builds (rows : list BuildRow) (st : Store) : Store :=
  {| deployments := st.(deployments); applied_rows := st.(applied_rows);
     build_rows := rows; receipt_rows := st.(receipt_rows);
     storage_rows := st.(storage_rows); saved_rows := st.(saved_rows);
     environment_rows := st.(environment_rows); project_rows := st.(project_rows);
     world := st.(world); tick := st.(tick) |}.

Definition set_receipts (rows : bmap (EnvironmentId * ServiceName) (OrganizationId * Value))
    (st : Store) : Store :=
  {| deployments := st.(deployments); applied_rows := st.(applied_rows);
     build_rows := st.(build_rows); receipt_rows := rows;
     storage_rows := st.(storage_rows); saved_rows := st.(saved_rows);
     environment_rows := st.(environment_rows); project_rows := st.(project_rows);
     world := st.(world); tick := st.(tick) |}.

Definition set_storage (rows : bmap (EnvironmentId * string) VolumeKind) (st : Store) : Store :=
  {| deployments := st.(deployments); applied_rows := st.(applied_rows);
     build_rows := st.(build_rows); receipt_rows := st.(receipt_rows);
     storage_rows := rows; saved_rows := st.(saved_rows);
     environment_rows := st.(environment_rows); project_rows := st.(project_rows);
     world := st.(world); tick := st.(tick) |}.

Definition set_world (w : World) (st : Store) : Store :=
  {| deployments := st.(deployments); applied_rows := st.(applied_rows);
     build_rows := st.(build_rows); receipt_rows := st.(receipt_rows);
     storage_rows := st.(storage_rows); saved_rows := st.(saved_rows);
     environment_rows := st.(environment_rows); project_rows := st.(project_rows);
     world := w; tick := st.(tick) |}.

(** Seconds since the Unix epoch; each call reads the clock. *)
Definition tx_now : tx Z := λ st, Ok (clock st.(tick), set_tick (S st.(tick)) st).

(** A runner holds it: [DeploymentStatus::Running | DeploymentStatus::Cancelling]. *)
Definition is_claimed (status : DeploymentStatus) : bool :=
  match status with StatusRunning | StatusCancelling => true | _ => false end.

(** Whether a claimed Deployment's runner is gone; the clock is read only for a claimed one. *)
Definition lapsed (status : DeploymentStatus) (lease : Z) : tx bool :=
  if is_claimed status then let@ t := tx_now in tx_ret (bool_decide (lease ≤ t)%Z)
  else tx_ret false.

(** A row as it reads: a lapsed one reads unknown. *)
Definition read_row (row : DeploymentRow) (status : DeploymentStatus) : Stored :=
  {| summary :=
       {| ds_id := row.(d_id); ds_environment_id := row.(d_environment);
          ds_number := row.(d_number); ds_status := status; ds_saved := row.(d_saved);
          ds_services := row.(d_services); ds_runner := row.(d_runner);
          ds_upload := row.(d_upload); ds_remove := (row.(d_saved) =? NOTHING)%N;
          ds_admitted_by := row.(d_admitted_by); ds_admitted_at := row.(d_admitted);
          ds_started_at := row.(d_started); ds_ended_at := row.(d_ended);
          ds_message := row.(d_message); ds_in_flight := status_in_flight status;
          ds_outcome := row.(d_run).(run_outcome) |};
     st_namespace := row.(d_namespace); st_cluster_domain := row.(d_cluster_domain);
     st_nodes := row.(d_nodes); st_run := row.(d_run); st_lease := row.(d_lease) |}.

Definition stored (row : DeploymentRow) : tx Stored :=
  let@ gone := lapsed row.(d_status) row.(d_lease) in
  tx_ret (read_row row (if gone then StatusUnknown else row.(d_status))).

Definition with_id (id : DeploymentId) (row : DeploymentRow) : bool := String.eqb row.(d_id) id.
Definition in_environment (environment : EnvironmentId) (row : DeploymentRow) : bool :=
  String.eqb row.(d_environment) environment.

Definition first_or_missing (id : DeploymentId) (rows : list DeploymentRow) : tx Stored :=
  match rows with
  | row :: _ => stored row
  | [] => tx_fail (NoDeployment id)
  end.

(** Load a Deployment of any Organization. *)
Definition load (id : DeploymentId) : tx Stored :=
  let@ rows := tx_get (λ st, List.filter (with_id id) st.(deployments)) in
  first_or_missing id rows.

Definition owned (organization : OrganizationId) (id : DeploymentId) : tx Stored :=
  let@ rows := tx_get (λ st, List.filter (λ row, with_id id row
                               && String.eqb row.(d_organization) organization)
                               st.(deployments)) in
  first_or_missing id rows.

(** The lock of [scope::lock_all] changes no row. *)
Definition locked (id : DeploymentId) : tx Stored :=
  run@ load id in load id.

Definition with_saved_columns (stored : Stored) (row : DeploymentRow) : DeploymentRow :=
  {| d_id := row.(d_id); d_organization := row.(d_organization);
     d_environment := row.(d_environment); d_number := row.(d_number);
     d_status := stored.(summary).(ds_status); d_saved := row.(d_saved);
     d_services := row.(d_services); d_nodes := row.(d_nodes); d_namespace := row.(d_namespace);
     d_run := stored.(st_run); d_credentials := row.(d_credentials); d_upload := row.(d_upload);
     d_cluster_domain := row.(d_cluster_domain); d_admitted := row.(d_admitted);
     d_admitted_by := row.(d_admitted_by); d_runner := stored.(summary).(ds_runner);
     d_lease := stored.(st_lease); d_started := stored.(summary).(ds_started_at);
     d_ended := stored.(summary).(ds_ended_at); d_message := row.(d_message) |}.

(** [UPDATE config_deployment SET ... WHERE condition]. *)
Definition update_where (condition : DeploymentRow → bool) (f : DeploymentRow → DeploymentRow)
    : tx unit :=
  tx_put (λ st, set_deployments (map (λ row, if condition row then f row else row)
                                   st.(deployments)) st).

Definition with_status (status : DeploymentStatus) (row : DeploymentRow) : DeploymentRow :=
  {| d_id := row.(d_id); d_organization := row.(d_organization);
     d_environment := row.(d_environment); d_number := row.(d_number); d_status := status;
     d_saved := row.(d_saved); d_services := row.(d_services); d_nodes := row.(d_nodes);
     d_namespace := row.(d_namespace); d_run := row.(d_run);
     d_credentials := row.(d_credentials); d_upload := row.(d_upload);
     d_cluster_domain := row.(d_cluster_domain); d_admitted := row.(d_admitted);
     d_admitted_by := row.(d_admitted_by); d_runner := row.(d_runner); d_lease := row.(d_lease);
     d_started := row.(d_started); d_ended := row.(d_ended); d_message := row.(d_message) |}.

(** [save] writes the mutable columns; the summary it leaves has [in_flight] in step. *)
Definition set_in_flight (s : DeploymentSummary) : DeploymentSummary :=
  {| ds_id := s.(ds_id); ds_environment_id := s.(ds_environment_id); ds_number := s.(ds_number);
     ds_status := s.(ds_status); ds_saved := s.(ds_saved); ds_services := s.(ds_services);
     ds_runner := s.(ds_runner); ds_upload := s.(ds_upload); ds_remove := s.(ds_remove);
     ds_admitted_by := s.(ds_admitted_by); ds_admitted_at := s.(ds_admitted_at);
     ds_started_at := s.(ds_started_at); ds_ended_at := s.(ds_ended_at);
     ds_message := s.(ds_message); ds_in_flight := status_in_flight s.(ds_status);
     ds_outcome := s.(ds_outcome) |}.

Definition save (stored : Stored) : tx DeploymentSummary :=
  run@ update_where (with_id stored.(summary).(ds_id)) (with_saved_columns stored) in
  tx_ret (set_in_flight stored.(summary)).

(** [INSERT INTO config_deployment], under its primary key and its unique number. *)
Definition insert_deployment (row : DeploymentRow) : tx unit := λ st,
  if existsb (λ old, String.eqb old.(d_id) row.(d_id)
                     || (String.eqb old.(d_environment) row.(d_environment)
                         && (old.(d_number) =? row.(d_number))%N)) st.(deployments)
  then Err (Fails Constraint)
  else Ok ((), set_deployments (st.(deployments) ++ [row]) st).

Definition require_running (stored : Stored) : tx unit :=
  let id := stored.(summary).(ds_id) in
  match stored.(summary).(ds_status) with
  | StatusRunning | StatusCancelling => tx_ret ()
  | StatusUnknown => tx_fail (RunnerLost id)
  | StatusApplied | StatusFailed | StatusCancelled => tx_fail (AlreadyEnded id)
  | StatusQueued | StatusSuperseded => tx_fail (ClaimFirst id)
  end.

(** ** Saved and Applied State *)

Definition empty_environment (slug : string) : SavedEnvironmentIntent :=
  {| env_version := 1; env_slug := slug; env_services := []; env_volumes := [] |}.

Definition environment_row (environment : EnvironmentId) : tx EnvironmentRow :=
  let@ row := tx_get (λ st, List.find (λ row, String.eqb row.(e_id) environment)
                              st.(environment_rows)) in
  tx_of (ok_or row (Fails (Corrupt "Environment"))).

Definition saved_at (environment : EnvironmentId) (revision : Revision)
    : tx SavedEnvironmentIntent :=
  if (revision =? NOTHING)%N then
    let@ loaded := environment_row environment in
    tx_ret (empty_environment loaded.(e_slug))
  else
    let@ row := tx_get (λ st, bget st.(saved_rows) (environment, revision)) in
    let@ intent := tx_of (ok_or row (Fails (Corrupt "Saved State"))) in
    tx_ret (canonicalize_environment_intent intent).

(** Applied State, as one document shaped like [like], in order of node id. *)
Definition add_node (intent : SavedEnvironmentIntent) (row : AppliedRow)
    : SavedEnvironmentIntent :=
  match row.(a_node) with
  | AppliedService service =>
      {| env_version := intent.(env_version); env_slug := intent.(env_slug);
         env_services := intent.(env_services) ++ [service];
         env_volumes := intent.(env_volumes) |}
  | AppliedVolumeNode volume =>
      {| env_version := intent.(env_version); env_slug := intent.(env_slug);
         env_services := intent.(env_services);
         env_volumes := intent.(env_volumes) ++ [volume] |}
  end.

Definition applied_in (environment : EnvironmentId) (rows : list AppliedRow) : list AppliedRow :=
  stable_sort (λ a b, key_le a.(a_node_id) b.(a_node_id))
    (List.filter (λ row, String.eqb row.(a_environment) environment) rows).

Definition applied_state (environment : EnvironmentId) (like : SavedEnvironmentIntent)
    : tx SavedEnvironmentIntent :=
  let@ rows := tx_get (λ st, applied_in environment st.(applied_rows)) in
  tx_ret (fold_left add_node rows (empty_environment like.(env_slug))).

(** ** What ran ([deployment/history.rs], [teardown.rs]) *)

(** [ORDER BY number DESC]. *)
Definition newest_first (rows : list DeploymentRow) : list DeploymentRow :=
  stable_sort (λ a b, (b.(d_number) <=? a.(d_number))%N) rows.

(** [in_flight_sql] reads the clock once, when the statement is built. *)
Definition in_flight_at (t : Z) (row : DeploymentRow) : bool :=
  match row.(d_status) with
  | StatusQueued => true
  | StatusRunning | StatusCancelling => bool_decide (t < row.(d_lease))%Z
  | _ => false
  end.

Definition latest_where (environment : EnvironmentId) (condition : DeploymentRow → bool)
    : tx (option DeploymentSummary) :=
  let@ rows := tx_get (λ st, newest_first (List.filter (λ row, in_environment environment row
                               && condition row) st.(deployments))) in
  match rows with
  | [] => tx_ret None
  | row :: _ => let@ latest := stored row in tx_ret (Some latest.(summary))
  end.

Definition in_flight (environment : EnvironmentId) : tx (option DeploymentSummary) :=
  let@ t := tx_now in latest_where environment (in_flight_at t).

Definition may_have_run (row : DeploymentRow) : bool :=
  match row.(d_started) with Some _ => true | None => false end
  || (bool_decide (row.(d_status) = StatusApplied) && (row.(d_saved) =? 0)%N).

Definition last_ran (environment : EnvironmentId) : tx (option DeploymentSummary) :=
  latest_where environment may_have_run.

Definition removed_it (ran : DeploymentSummary) : bool :=
  ran.(ds_remove) && bool_decide (ran.(ds_status) = StatusApplied).

(** The last Deployment that ran it, unless that was a removal that applied. *)
Definition ran (environment : EnvironmentId) : tx (option DeploymentSummary) :=
  let@ last := last_ran environment in
  tx_ret (last ≫= λ ran, if removed_it ran then None else Some ran).

Definition on_servers (environment : EnvironmentId) : tx (option DeploymentSummary) :=
  let@ running := in_flight environment in
  match running with
  | Some running => tx_ret (Some running)
  | None => ran environment
  end.
End Reads.
