(* ===== verification/Lifecycle.v ===== *)
(** * A Deployment's life

    [ployz-store/src/deployment/lifecycle.rs]: admitted, claimed, recorded,
    retried, started, cancelled and forgotten, with [freeze]'s target nodes
    ([lowering.rs]), the removal guard and order of [teardown.rs], and the build
    reports of [build.rs].

    Lowering a Saved revision to what a runner is handed, following a Deploy into
    Branches and the text of an execution error are parameters ([Neighbours]):
    they read the Store and, where they write, write tables outside it. *)

From S2P Require Import Prelude BTree Strings Values Volumes ServiceGraph Spec Services.
From S2P Require Import StorageCapacity VolumePlan Text.
From S2P Require Import Deploy Preview Execution RuntimeOutcome Config DeploymentStore.

Open Scope string_scope.
Open Scope nat_scope.
Open Scope list_scope.

#[global] Instance RpcErrorCode_eq_dec : EqDecision RpcErrorCode.
Proof. solve_decision. Defined.
#[global] Instance RpcError_eq_dec : EqDecision RpcError.
Proof. solve_decision. Defined.
#[global] Instance HealthObservation_eq_dec : EqDecision HealthObservation.
Proof. solve_decision. Defined.
#[global] Instance ContainerRuntimeObservation_eq_dec : EqDecision ContainerRuntimeObservation.
Proof. solve_decision. Defined.
#[global] Instance MachineAction_eq_dec : EqDecision MachineAction.
Proof. solve_decision. Defined.
#[global] Instance HealthFailure_eq_dec : EqDecision HealthFailure.
Proof. solve_decision. Defined.
#[global] Instance DependencyHealthFailure_eq_dec : EqDecision DependencyHealthFailure.
Proof. solve_decision. Defined.
#[global] Instance HookFailure_eq_dec : EqDecision HookFailure.
Proof. solve_decision. Defined.
#[global] Instance ExecutionError_eq_dec : EqDecision ExecutionError.
Proof. solve_decision. Defined.
#[global] Instance OperationPhase_eq_dec : EqDecision OperationPhase.
Proof. solve_decision. Defined.
#[global] Instance OperationStatus_eq_dec : EqDecision OperationStatus.
Proof. solve_decision. Defined.
#[global] Instance OperationRow_eq_dec : EqDecision OperationRow.
Proof. solve_decision. Defined.
#[global] Instance StorageBudget_eq_dec : EqDecision StorageBudget.
Proof. solve_decision. Defined.
#[global] Instance MachineStorageBudget_eq_dec : EqDecision MachineStorageBudget.
Proof. solve_decision. Defined.
#[global] Instance ObservationKind_eq_dec : EqDecision ObservationKind.
Proof. solve_decision. Defined.
#[global] Instance DeployWarning_eq_dec : EqDecision DeployWarning.
Proof. solve_decision. Defined.
#[global] Instance VolumeToCreate_eq_dec : EqDecision VolumeToCreate.
Proof. solve_decision. Defined.
#[global] Instance PreservedVolume_eq_dec : EqDecision PreservedVolume.
Proof. solve_decision. Defined.
#[global] Instance PruneRefusal_eq_dec : EqDecision PruneRefusal.
Proof. solve_decision. Defined.
#[global] Instance DeployPreview_eq_dec : EqDecision DeployPreview.
Proof. solve_decision. Defined.

(** ** Removal guards ([teardown.rs]) *)

Definition parent_of (members : list EnvironmentRow) (at_ : EnvironmentId) : option EnvironmentId :=
  member ← List.find (λ member, String.eqb member.(e_id) at_) members; member.(e_parent).

Fixpoint ancestors_from (fuel : nat) (members : list EnvironmentRow) (at_ : EnvironmentId)
    (chain : list EnvironmentId) : list EnvironmentId :=
  match fuel with
  | O => chain
  | S fuel =>
      match parent_of members at_ with
      | Some parent =>
          if bool_decide (parent ∈ chain) then chain
          else ancestors_from fuel members parent (chain ++ [parent])
      | None => chain
      end
  end.

Definition ancestors (members : list EnvironmentRow) (environment : EnvironmentId)
    : list EnvironmentId :=
  ancestors_from (S (length members)) members environment [].

Definition teardown_class (members : list EnvironmentRow) (default : EnvironmentId)
    (member : EnvironmentRow) : nat :=
  if String.eqb member.(e_id) default then 1
  else if bool_decide (member.(e_id) ∈ ancestors members default) then 2 else 0.

(** [sort_by_key] on the class and the depth, deepest first. *)
Definition teardown_le (members : list EnvironmentRow) (default : EnvironmentId)
    (a b : EnvironmentRow) : bool :=
  let class_a := teardown_class members default a in
  let class_b := teardown_class members default b in
  (class_a <? class_b)
  || ((class_a =? class_b)
      && (length (ancestors members b.(e_id)) <=? length (ancestors members a.(e_id)))).

Definition teardown_order (members : list EnvironmentRow) (default : EnvironmentId)
    : list EnvironmentRow :=
  stable_sort (teardown_le members default) members.

Section Removal.
Context `{Platform}.

Definition members_of (project : ProjectId) : tx (list EnvironmentRow) :=
  tx_get (λ st, sort_by_key e_id (List.filter (λ row, String.eqb row.(e_project) project)
                                    st.(environment_rows))).

Fixpoint still_running (members : list EnvironmentRow) : tx (list string) :=
  match members with
  | [] => tx_ret []
  | member :: members =>
      let@ on := on_servers member.(e_id) in
      let@ rest := still_running members in
      tx_ret match on with Some _ => member.(e_name) :: rest | None => rest end
  end.

Definition project_row (project : ProjectId) : tx ProjectRow :=
  let@ row := tx_get (λ st, List.find (λ row, String.eqb row.(p_id) project) st.(project_rows)) in
  tx_of (ok_or row (Fails (Corrupt "Environment"))).

Definition guard_removal (environment : EnvironmentRow) : tx unit :=
  let@ project := project_row environment.(e_project) in
  let@ members := members_of project.(p_id) in
  let branches := List.filter (λ member, bool_decide (member.(e_parent) = Some environment.(e_id)))
                    members in
  let@ branches := still_running branches in
  match branches with
  | _ :: _ => tx_fail (BranchesRunning branches)
  | [] =>
      if negb (String.eqb environment.(e_id) project.(p_default_environment)) then tx_ret ()
      else
        let parents := ancestors members environment.(e_id) in
        let others := List.filter (λ member, negb (String.eqb member.(e_id) environment.(e_id))
                                             && negb (bool_decide (member.(e_id) ∈ parents)))
                        members in
        let@ others := still_running others in
        match others with
        | _ :: _ => tx_fail (DefaultLast others)
        | [] => tx_ret ()
        end
  end.
End Removal.

(** ** Neighbours *)

Class Neighbours `{Platform} := {
  (** A digest of the evidence of an execution: SHA-256 of its JSON, shortened. *)
  evidence_digest : DeployOutcome ExecutionError → list VolumeRemoval → string;
  (** [Display] of an execution error. *)
  show_error : ExecutionError → string;
  (** [branch::deployed] and [branch::follow]: the Branch tables after a Deploy of some lineages. *)
  branch_deployed : EnvironmentId → SavedEnvironmentIntent → bset string → Store →
                    Result World (Fault StoreRefusal);
  branch_follow : EnvironmentId → bset string → Store → Result World (Fault StoreRefusal);
  (** What a claim hands over: sources, lowered Intent, credentials, receipts, Build Order. *)
  Handover : Type;
  hand_over : Store → Stored → Result Handover (Fault StoreRefusal)
}.

(** ** Node Outcomes *)

Inductive RunEvidence : Type :=
| Prepared (preview : DeployPreview)
| Confirmed (services : list ServiceName)
| Executed (outcome : DeployOutcome ExecutionError) (removed : list VolumeRemoval)
| NotExecuted (reason : string)
| Abandoned
| BuiltReceipts (receipts : bmap ServiceName Value)
| BuildProgress (service : ServiceName) (status : BuildStatus) (message : option string)
                (log : string)
| UploadNeeded (services : list ServiceName)
| Alive.

Inductive Evidence : Type :=
| EvidencePlanned (preview : DeployPreview) (confirmed : list ServiceName)
| EvidenceExecuted (projection : RuntimeOutcomeProjection) (removed : list VolumeRemoval).

Definition is_success (summary : RuntimeOutcomeSummary) : bool :=
  match summary with SummarySuccess _ => true | SummaryFailed _ _ _ => false end.

Definition succeeded (evidence : Evidence) : bool :=
  match evidence with
  | EvidenceExecuted projection _ => is_success projection.(projection_summary)
  | EvidencePlanned _ _ => false
  end.

Definition landed (kept : bool) : NodeStatus := if kept then NodeDeployed else NodeRemoved.

Definition service_outcome (evidence : Evidence) (name : ServiceName) (kept : bool) : NodeStatus :=
  match evidence with
  | EvidencePlanned preview confirmed =>
      if bool_decide (name ∈ confirmed) then landed kept
      else if existsb (λ row, bool_decide (row_service row = Some name))
                preview.(preview_operations)
      then NodePending else NodeUnchanged
  | EvidenceExecuted projection _ =>
      if bool_decide (name ∈ projection.(confirmed_services)) then landed kept
      else if bool_decide (name ∈ projection.(failed_services)) then NodeFailed
      else if bool_decide (name ∈ projection.(unattempted_services)) then NodeNotAttempted
      else NodeUnchanged
  end.

Definition is_gone (removed : list VolumeRemoval) (id : DockerVolumeId) : bool :=
  existsb (λ removal, bool_decide (removal.(removal_id) = id)
                      && match removal.(removal_outcome) with
                         | RemovalRemoved => true | _ => false end) removed.

Definition removed_volume_outcome (evidence : Evidence) (deletes : list DockerVolumeId)
    : NodeStatus :=
  match evidence with
  | EvidencePlanned _ _ => NodePending
  | EvidenceExecuted projection removed =>
      if negb (is_success projection.(projection_summary)) then NodeNotAttempted
      else if forallb (is_gone removed) deletes then NodeRemoved
      else NodeFailed
  end.

Definition mounts_volume (volume : SavedVolumeIntent) (service : SavedServiceIntent) : bool :=
  existsb (λ mount, String.eqb mount.(volume_resource_id) volume.(vol_resource_id))
    service.(svc_volume_attachments).

Definition targets (nodes : list TargetNode) (id : string) : bool :=
  existsb (λ node, String.eqb (target_id node) id) nodes.

Definition is_planned (evidence : Evidence) : bool :=
  match evidence with EvidencePlanned _ _ => true | EvidenceExecuted _ _ => false end.

Definition mounting_outcomes (nodes : list TargetNode) (saved : SavedEnvironmentIntent)
    (evidence : Evidence) (volume : SavedVolumeIntent) : list NodeStatus :=
  map (λ service, service_outcome evidence service.(svc_config).(sc_private_dns) true)
    (List.filter (λ service, targets nodes service.(svc_id) && mounts_volume volume service)
       saved.(env_services)).

Definition kept_volume_outcome (nodes : list TargetNode) (saved applied : SavedEnvironmentIntent)
    (evidence : Evidence) (volume : SavedVolumeIntent) : NodeStatus :=
  let mounting := mounting_outcomes nodes saved evidence volume in
  let has status := bool_decide (status ∈ mounting) in
  let held := bool_decide (volume ∈ applied.(env_volumes)) in
  if has NodeDeployed && negb held then NodeDeployed
  else if has NodeFailed then NodeFailed
  else if has NodeNotAttempted then NodeNotAttempted
  else if has NodePending then NodePending
  else if held then NodeUnchanged
  else if bool_decide (mounting = [])
          && negb (existsb (λ old, String.eqb old.(vol_resource_id) volume.(vol_resource_id))
                     applied.(env_volumes))
  then NodeNotAttempted
  else if is_planned evidence && negb (has NodeDeployed) then NodePending
  else if bool_decide (mounting = []) && negb (succeeded evidence) then NodeNotAttempted
  else NodeDeployed.

Definition node_outcome (nodes : list TargetNode) (saved applied : SavedEnvironmentIntent)
    (evidence : Evidence) (node : TargetNode) : NodeStatus :=
  match node with
  | TargetService id _ runtime =>
      service_outcome evidence runtime
        (existsb (λ kept, String.eqb kept.(svc_id) id) saved.(env_services))
  | TargetVolume _ _ (Some deletes) => removed_volume_outcome evidence deletes
  | TargetVolume id _ None =>
      match List.find (λ volume, String.eqb volume.(vol_resource_id) id) saved.(env_volumes) with
      | Some volume => kept_volume_outcome nodes saved applied evidence volume
      | None => NodeUnchanged
      end
  end.

Definition node_outcomes (nodes : list TargetNode) (saved applied : SavedEnvironmentIntent)
    (evidence : Evidence) : bmap string NodeStatus :=
  bcollect (map (λ node, (target_id node, node_outcome nodes saved applied evidence node)) nodes).

(** The outcomes a running Deployment already settles: the ones no longer Pending. *)
Definition settled (nodes : list TargetNode) (saved applied : SavedEnvironmentIntent)
    (preview : DeployPreview) (confirmed : list ServiceName) : bmap string NodeStatus :=
  List.filter (λ entry, negb (bool_decide (entry.2 = NodePending)))
    (node_outcomes nodes saved applied (EvidencePlanned preview confirmed)).

Definition keep_advanced (prior next : bmap string NodeStatus) : bmap string NodeStatus :=
  fold_left (λ next entry, binsert entry.1 entry.2 next)
    (List.filter (λ entry, advances entry.2) prior) next.

(** ** Reasons *)

Definition current_name (nodes : list TargetNode) (runtime : ServiceName) : string :=
  default runtime
    (find_map (λ node, match node with
                       | TargetService _ name of_ => if String.eqb of_ runtime then Some name else None
                       | TargetVolume _ _ _ => None
                       end) nodes).

Record Actor : Type := { who_organization : OrganizationId; who_principal : option Principal }.

(** What admission freezes, besides the Saved revision. *)
Record Frozen : Type := {
  frozen_nodes : list TargetNode;
  frozen_namespace : Namespace;
  frozen_credentials : bmap ServiceName EncryptedSecretValue;
  frozen_cluster_domain : option Hostname;
  frozen_sourceless : list string
}.

Section Lifecycle.
Context `{Neighbours}.

Definition failure (outcome : DeployOutcome ExecutionError) (nodes : list TargetNode)
    : option string :=
  match outcome with
  | DeploySuccess _ => None
  | DeployFailed _ failed _ =>
      let '(service, error) :=
        match failed with
        | FailedPlain operation error => (op_service_name operation, error)
        | FailedReplacement operation error _ => (Some operation.(repl_spec).(rs_name), error)
        end in
      Some (take_chars 500 match service with
                           | Some service => current_name nodes service +:+ ": " +:+ show_error error
                           | None => show_error error
                           end)
  end.

(** ** Admission *)

Definition fix_volume (environment : EnvironmentId) (nodes : list TargetNode)
    (volume : SavedVolumeIntent) : tx unit :=
  if targets nodes volume.(vol_resource_id) then
    tx_put (λ st, set_storage (bor_insert (environment, volume.(vol_resource_id))
                                 volume.(vol_storage) st.(storage_rows)) st)
  else tx_ret ().

Definition check_volume (environment : EnvironmentId) (volume : SavedVolumeIntent) : tx unit :=
  let@ fixed := tx_get (λ st, bget st.(storage_rows) (environment, volume.(vol_resource_id))) in
  match fixed with
  | Some storage => if bool_decide (storage = volume.(vol_storage)) then tx_ret ()
                    else tx_fail (StorageFixed volume.(vol_name))
  | None => tx_ret ()
  end.

Definition fix_storage (environment : EnvironmentId) (intent : SavedEnvironmentIntent)
    (nodes : list TargetNode) : tx unit :=
  run@ tx_each intent.(env_volumes) (fix_volume environment nodes) in
  tx_each intent.(env_volumes) (check_volume environment).

(** The newest row of [environment] with an upload. *)
Definition latest_upload (environment : EnvironmentId) : tx (option UploadedSource) :=
  tx_get (λ st,
    find_map d_upload (newest_first (List.filter (in_environment environment) st.(deployments)))).

(** Supersede the queued Deployment, if any, and number the next one. *)
Definition queue (environment : EnvironmentId) : tx N :=
  run@ update_where (λ row, in_environment environment row
                            && bool_decide (row.(d_status) = StatusQueued))
         (with_status StatusSuperseded) in
  let@ numbers := tx_get (λ st, map d_number (List.filter (in_environment environment)
                                                st.(deployments))) in
  tx_ret (foldr N.max 0%N numbers + 1)%N.

(** The columns a new row takes from its admission; the others start at their default. *)
Definition queued_row (id : DeploymentId) (organization : OrganizationId)
    (environment : EnvironmentId) (number : N) (saved : Revision) (services : list ServiceName)
    (nodes : list TargetNode) (namespace : Namespace)
    (credentials : bmap ServiceName EncryptedSecretValue) (upload : option UploadedSource)
    (cluster_domain : option Hostname) (admitted : Z) (admitted_by : option Principal)
    (message : option string) : DeploymentRow :=
  {| d_id := id; d_organization := organization; d_environment := environment;
     d_number := number; d_status := StatusQueued; d_saved := saved; d_services := services;
     d_nodes := nodes; d_namespace := namespace; d_run := Run_default;
     d_credentials := credentials; d_upload := upload; d_cluster_domain := cluster_domain;
     d_admitted := admitted; d_admitted_by := admitted_by; d_runner := None; d_lease := 0;
     d_started := None; d_ended := None; d_message := message |}.

Definition admitted_message (message : option string) : tx (option string) :=
  let message := message ≫= λ message,
    let message := trim message in if str_is_empty message then None else Some message in
  match message with
  | Some text => if MESSAGE_MAX <? char_count text then tx_fail MessageTooLong else tx_ret message
  | None => tx_ret message
  end.

Definition admit_deployment (who : Actor) (id : DeploymentId) (services : list ServiceName)
    (upload : option UploadedSource) (message : option string) (environment : EnvironmentId)
    (saved : Revision) (frozen : Frozen) : tx DeploymentSummary :=
  let@ intent := saved_at environment saved in
  run@ fix_storage environment intent frozen.(frozen_nodes) in
  let@ upload := match upload with
                 | Some _ => tx_ret upload
                 | None => latest_upload environment
                 end in
  match upload, frozen.(frozen_sourceless) with
  | None, name :: _ => tx_fail (NothingToRun name)
  | _, _ =>
      let@ message := admitted_message message in
      let@ number := queue environment in
      let@ admitted_at := tx_now in
      let row := queued_row id who.(who_organization) environment number saved services
                   frozen.(frozen_nodes) frozen.(frozen_namespace) frozen.(frozen_credentials)
                   upload frozen.(frozen_cluster_domain) admitted_at who.(who_principal) message in
      run@ insert_deployment row in
      tx_ret (read_row row StatusQueued).(summary)
  end.

(** ** Applied State *)

Definition with_deployed (environment : EnvironmentId) (node : string) (row : AppliedRow) : bool :=
  String.eqb row.(a_environment) environment && String.eqb row.(a_node_id) node.

(** [INSERT INTO config_applied SELECT ... FROM config_deployment ... ON CONFLICT DO UPDATE].
    The update leaves [node_type], which an identity never changes: a Service's id is never a
    Volume's. *)
Definition upsert_applied (id : DeploymentId) (node : string) (applied : AppliedNode) : tx unit :=
  let@ rows := tx_get (λ st, List.filter (with_id id) st.(deployments)) in
  tx_each rows (λ row,
    tx_put (λ st,
      let old := List.find (with_deployed row.(d_environment) node) st.(applied_rows) in
      match old with
      | Some _ =>
          set_applied
            (map (λ old, if with_deployed row.(d_environment) node old
                         then {| a_environment := old.(a_environment);
                                 a_node_id := old.(a_node_id);
                                 a_organization := old.(a_organization);
                                 a_deployment := id; a_node := applied |}
                         else old) st.(applied_rows)) st
      | None =>
          set_applied
            (st.(applied_rows) ++ [{| a_environment := row.(d_environment); a_node_id := node;
                                      a_organization := row.(d_organization);
                                      a_deployment := id; a_node := applied |}]) st
      end)).

Definition delete_applied (environment : EnvironmentId) (node : string) : tx unit :=
  tx_put (λ st, set_applied (List.filter (λ row, negb (with_deployed environment node row))
                               st.(applied_rows)) st).

(** The node as Saved State has it. *)
Definition saved_node (saved : SavedEnvironmentIntent) (node : TargetNode) : option AppliedNode :=
  match node with
  | TargetService id _ _ =>
      AppliedService <$> List.find (λ service, String.eqb service.(svc_id) id) saved.(env_services)
  | TargetVolume id _ _ =>
      AppliedVolumeNode
        <$> List.find (λ volume, String.eqb volume.(vol_resource_id) id) saved.(env_volumes)
  end.

Definition node_lineage (node : AppliedNode) : string :=
  match node with
  | AppliedService service => service.(svc_lineage_id)
  | AppliedVolumeNode volume => volume.(vol_resource_lineage_id)
  end.

Definition is_advanced (run : Run) (ended : bool) (node : TargetNode) : bool :=
  match bget run.(run_nodes) (target_id node) with
  | Some status => advances status || (ended && bool_decide (status = NodeUnchanged))
  | None => false
  end.

Definition advance_node (stored : Stored) (saved : SavedEnvironmentIntent) (node : TargetNode)
    : tx unit :=
  match saved_node saved node with
  | Some applied => upsert_applied stored.(summary).(ds_id) (target_id node) applied
  | None => delete_applied stored.(summary).(ds_environment_id) (target_id node)
  end.

Definition tx_world (f : Store → Result World (Fault StoreRefusal)) : tx unit :=
  λ st, let? w := f st in Ok ((), set_world w st).

Definition advance (stored : Stored) (ended : bool) : tx unit :=
  let advanced := List.filter (is_advanced stored.(st_run) ended) stored.(st_nodes) in
  match advanced with
  | [] => tx_ret ()
  | _ :: _ =>
      let environment := stored.(summary).(ds_environment_id) in
      let@ saved := saved_at environment stored.(summary).(ds_saved) in
      run@ tx_each advanced (advance_node stored saved) in
      let deployed := bset_of (map node_lineage (omap (saved_node saved) advanced)) in
      run@ tx_world (branch_deployed environment saved deployed) in
      tx_world (branch_follow environment deployed)
  end.

(** ** Ending *)

Definition set_status_of (s : DeploymentSummary) (status : DeploymentStatus)
    : DeploymentSummary :=
  {| ds_id := s.(ds_id); ds_environment_id := s.(ds_environment_id); ds_number := s.(ds_number);
     ds_status := status; ds_saved := s.(ds_saved); ds_services := s.(ds_services);
     ds_runner := s.(ds_runner); ds_upload := s.(ds_upload); ds_remove := s.(ds_remove);
     ds_admitted_by := s.(ds_admitted_by); ds_admitted_at := s.(ds_admitted_at);
     ds_started_at := s.(ds_started_at); ds_ended_at := s.(ds_ended_at);
     ds_message := s.(ds_message); ds_in_flight := s.(ds_in_flight);
     ds_outcome := s.(ds_outcome) |}.

Definition set_ended (s : DeploymentSummary) (ended : Z) (outcome : option Outcome)
    : DeploymentSummary :=
  {| ds_id := s.(ds_id); ds_environment_id := s.(ds_environment_id); ds_number := s.(ds_number);
     ds_status := s.(ds_status); ds_saved := s.(ds_saved); ds_services := s.(ds_services);
     ds_runner := s.(ds_runner); ds_upload := s.(ds_upload); ds_remove := s.(ds_remove);
     ds_admitted_by := s.(ds_admitted_by); ds_admitted_at := s.(ds_admitted_at);
     ds_started_at := s.(ds_started_at); ds_ended_at := Some ended;
     ds_message := s.(ds_message); ds_in_flight := s.(ds_in_flight); ds_outcome := outcome |}.

Definition set_started (s : DeploymentSummary) (runner : RunnerId) (started : Z)
    : DeploymentSummary :=
  {| ds_id := s.(ds_id); ds_environment_id := s.(ds_environment_id); ds_number := s.(ds_number);
     ds_status := StatusRunning; ds_saved := s.(ds_saved); ds_services := s.(ds_services);
     ds_runner := Some runner; ds_upload := s.(ds_upload); ds_remove := s.(ds_remove);
     ds_admitted_by := s.(ds_admitted_by); ds_admitted_at := s.(ds_admitted_at);
     ds_started_at := Some started; ds_ended_at := s.(ds_ended_at);
     ds_message := s.(ds_message); ds_in_flight := s.(ds_in_flight);
     ds_outcome := s.(ds_outcome) |}.

Definition with_summary (stored : Stored) (s : DeploymentSummary) : Stored :=
  {| summary := s; st_namespace := stored.(st_namespace);
     st_cluster_domain := stored.(st_cluster_domain); st_nodes := stored.(st_nodes);
     st_run := stored.(st_run); st_lease := stored.(st_lease) |}.

Definition with_run (stored : Stored) (run : Run) : Stored :=
  {| summary := stored.(summary); st_namespace := stored.(st_namespace);
     st_cluster_domain := stored.(st_cluster_domain); st_nodes := stored.(st_nodes);
     st_run := run; st_lease := stored.(st_lease) |}.

Definition with_lease (stored : Stored) (lease : Z) : Stored :=
  {| summary := stored.(summary); st_namespace := stored.(st_namespace);
     st_cluster_domain := stored.(st_cluster_domain); st_nodes := stored.(st_nodes);
     st_run := stored.(st_run); st_lease := lease |}.

Definition run_ended (run : Run) (outcome : Outcome) : Run :=
  {| run_preview := run.(run_preview); run_outcome := Some outcome;
     run_executed := run.(run_executed); run_nodes := run.(run_nodes) |}.

Definition run_with_nodes (run : Run) (nodes : bmap string NodeStatus) : Run :=
  {| run_preview := run.(run_preview); run_outcome := run.(run_outcome);
     run_executed := run.(run_executed); run_nodes := nodes |}.

Definition ending_status (current status : DeploymentStatus) : DeploymentStatus :=
  match current, status with
  | StatusCancelling, StatusFailed => StatusCancelled
  | _, _ => status
  end.

Definition end_deployment (stored : Stored) (outcome : Outcome) (status : DeploymentStatus)
    : tx DeploymentSummary :=
  run@ advance stored (bool_decide (status = StatusApplied)) in
  let ended := ending_status stored.(summary).(ds_status) status in
  let@ ended_at := tx_now in
  let s := set_ended (set_status_of stored.(summary) ended) ended_at (Some outcome) in
  save (with_run (with_summary stored s) (run_ended stored.(st_run) outcome)).

Definition finish_deployment (stored : Stored) (outcome : Outcome) (status : DeploymentStatus)
    : tx DeploymentSummary :=
  match stored.(st_run).(run_outcome) with
  | Some recorded =>
      if bool_decide (recorded = outcome) then tx_ret stored.(summary)
      else tx_fail (DifferentOutcome stored.(summary).(ds_id))
  | None => run@ require_running stored in end_deployment stored outcome status
  end.

(** ** Removal without a runner *)

(** [Trusted::no_servers]: Cloud counted no Server. *)
Definition no_servers (servers : option N) : bool :=
  match servers with Some n => (n =? 0)%N | None => false end.

Definition runnable (servers : option N) : tx unit :=
  if no_servers servers then tx_fail NoServers else tx_ret ().

Definition forgettable (environment : EnvironmentId) (servers : option N)
    : tx (option Outcome) :=
  let@ last := ran environment in
  tx_ret match last with
         | None => Some OutcomeNeverRan
         | Some _ => if no_servers servers then Some OutcomeForgotten else None
         end.

Definition forget (id : DeploymentId) (outcome : Outcome) : tx DeploymentSummary :=
  let@ stored := locked id in
  let nodes := bcollect (map (λ node, (target_id node, NodeUnknown)) stored.(st_nodes)) in
  run@ tx_put (λ st, set_applied
                       (List.filter (λ row, negb (String.eqb row.(a_environment)
                                                    stored.(summary).(ds_environment_id)))
                          st.(applied_rows)) st) in
  end_deployment (with_run stored (run_with_nodes stored.(st_run) nodes)) outcome StatusApplied.

(** ** Retrying and starting *)

(** [SELECT MAX(number) ... WHERE number > ?2 AND status = 'applied']. *)
Definition newer_applied (environment : EnvironmentId) (number : N) : tx (option N) :=
  tx_get (λ st,
    match map d_number (List.filter (λ row, in_environment environment row
                                            && (number <? row.(d_number))%N
                                            && bool_decide (row.(d_status) = StatusApplied))
                          st.(deployments)) with
    | [] => None
    | n :: numbers => Some (foldr N.max n numbers)
    end).

Definition retriable (source : DeploymentId) (status : DeploymentStatus) : tx unit :=
  match status with
  | StatusFailed | StatusUnknown | StatusCancelled => tx_ret ()
  | StatusApplied => tx_fail (NothingToRetry source)
  | StatusQueued | StatusRunning | StatusCancelling => tx_fail (NotEnded source)
  | StatusSuperseded => tx_fail (NewerReplaced source)
  end.

Definition retried_row (id : DeploymentId) (number : N) (admitted : Z)
    (admitted_by : option Principal) (row : DeploymentRow) : DeploymentRow :=
  queued_row id row.(d_organization) row.(d_environment) number row.(d_saved) row.(d_services)
    row.(d_nodes) row.(d_namespace) row.(d_credentials) row.(d_upload) row.(d_cluster_domain)
    admitted admitted_by row.(d_message).

Definition retried_build (id : DeploymentId) (row : BuildRow) : BuildRow :=
  {| b_deployment := id; b_service := row.(b_service); b_organization := row.(b_organization);
     b_commit := row.(b_commit); b_status := BuildPending; b_message := None; b_log := "" |}.

(** The summary of a retry: its source's, queued. *)
Definition retried_summary (s : DeploymentSummary) (id : DeploymentId) (number : N)
    (admitted_by : option Principal) (admitted_at : Z) : DeploymentSummary :=
  {| ds_id := id; ds_environment_id := s.(ds_environment_id); ds_number := number;
     ds_status := StatusQueued; ds_saved := s.(ds_saved); ds_services := s.(ds_services);
     ds_runner := None; ds_upload := s.(ds_upload); ds_remove := s.(ds_remove);
     ds_admitted_by := admitted_by; ds_admitted_at := admitted_at; ds_started_at := None;
     ds_ended_at := None; ds_message := s.(ds_message); ds_in_flight := true;
     ds_outcome := None |}.

Definition retry (who : Actor) (id source : DeploymentId) : tx DeploymentSummary :=
  run@ owned who.(who_organization) source in
  let@ stored := locked source in
  run@ retriable source stored.(summary).(ds_status) in
  let environment := stored.(summary).(ds_environment_id) in
  let@ newer := newer_applied environment stored.(summary).(ds_number) in
  match newer with
  | Some newer => tx_fail (WouldRollBack source newer)
  | None =>
      run@ (if stored.(summary).(ds_remove) then
              let@ row := environment_row environment in guard_removal row
            else tx_ret ()) in
      let@ number := queue environment in
      let@ admitted_at := tx_now in
      let@ rows := tx_get (λ st, List.filter (with_id source) st.(deployments)) in
      run@ tx_each rows (λ row,
             insert_deployment (retried_row id number admitted_at who.(who_principal) row)) in
      run@ tx_put (λ st, set_builds
                           (st.(build_rows)
                            ++ map (retried_build id)
                                 (List.filter (λ row, String.eqb row.(b_deployment) source)
                                    st.(build_rows))) st) in
      tx_ret (retried_summary stored.(summary) id number who.(who_principal) admitted_at)
  end.

Definition start (who : Actor) (id : DeploymentId) : tx DeploymentSummary :=
  run@ owned who.(who_organization) id in
  let@ stored := locked id in
  match stored.(summary).(ds_status) with
  | StatusQueued => tx_ret stored.(summary)
  | StatusRunning | StatusCancelling => tx_fail (AlreadyRunning id)
  | StatusSuperseded => tx_fail (NewerReplaced id)
  | StatusApplied | StatusFailed | StatusUnknown | StatusCancelled => tx_fail (AlreadyEnded id)
  end.

(** ** Claiming *)

(** A claim hands the Deployment over, or refuses and keeps what it recorded. *)
Record Claimed : Type := {
  claimed_deployment : DeploymentSummary;
  claimed_handover : Handover;
  claimed_deletes : list DockerVolumeId
}.

Definition node_deletes (node : TargetNode) : list DockerVolumeId :=
  match node with TargetVolume _ _ (Some deletes) => deletes | _ => [] end.

Definition hand_over_claim (stored : Stored) : tx (Result Claimed StoreRefusal) :=
  let@ handover := (λ st, let? handover := hand_over st stored in Ok (handover, st)) in
  tx_ret (Ok {| claimed_deployment := stored.(summary); claimed_handover := handover;
                claimed_deletes := concat (map node_deletes stored.(st_nodes)) |}).

Definition claim (id : DeploymentId) (runner : RunnerId) : tx (Result Claimed StoreRefusal) :=
  let@ stored := locked id in
  match stored.(summary).(ds_status) with
  | StatusRunning | StatusCancelling =>
      if bool_decide (stored.(summary).(ds_runner) = Some runner) then
        match stored.(st_run).(run_preview) with
        | Some _ =>
            run@ save (with_summary stored (set_status_of stored.(summary) StatusUnknown)) in
            tx_ret (Err (LostTrack id))
        | None =>
            let@ t := tx_now in
            let stored := with_lease stored (t + LEASE) in
            let@ s := save stored in
            hand_over_claim (with_summary stored s)
        end
      else tx_ret (Err (OwnedElsewhere id))
  | StatusSuperseded => tx_ret (Err (NewerReplaced id))
  | StatusApplied | StatusFailed | StatusUnknown | StatusCancelled => tx_ret (Err (AlreadyEnded id))
  | StatusQueued =>
      run@ update_where (λ row, in_environment stored.(summary).(ds_environment_id) row
                                && is_claimed row.(d_status)) (with_status StatusUnknown) in
      let@ started := tx_now in
      let stored := with_lease (with_summary stored (set_started stored.(summary) runner started))
                      (started + LEASE) in
      let@ s := save stored in
      hand_over_claim (with_summary stored s)
  end.

(** ** Cancelling *)

Definition cancel (who : Actor) (id : DeploymentId) : tx DeploymentSummary :=
  run@ owned who.(who_organization) id in
  let@ stored := locked id in
  let s := stored.(summary) in
  match s.(ds_status) with
  | StatusQueued =>
      let@ t := tx_now in
      save (with_summary stored (set_ended (set_status_of s StatusCancelled) t s.(ds_outcome)))
  | StatusRunning => save (with_summary stored (set_status_of s StatusCancelling))
  | StatusCancelling | StatusCancelled => tx_ret s
  | StatusSuperseded | StatusApplied | StatusFailed | StatusUnknown => tx_fail (AlreadyEnded id)
  end.

Definition admitted_le (a b : DeploymentRow) : bool :=
  bool_decide (a.(d_admitted) < b.(d_admitted))%Z
  || (bool_decide (a.(d_admitted) = b.(d_admitted)) && key_le a.(d_id) b.(d_id)).

Definition cancel_one (id : DeploymentId) : tx unit :=
  let@ stored := load id in
  let@ t := tx_now in
  let s := stored.(summary) in
  run@ save (with_summary stored
               (set_ended (set_status_of s StatusCancelled) t s.(ds_outcome))) in
  tx_ret ().

Definition cancel_in_flight (who : Actor) : tx (list DeploymentId) :=
  let@ t := tx_now in
  let@ ids := tx_get (λ st, map d_id (stable_sort admitted_le
                (List.filter (λ row, String.eqb row.(d_organization) who.(who_organization)
                                     && in_flight_at t row) st.(deployments)))) in
  run@ tx_each ids cancel_one in
  tx_ret ids.

(** ** Builds *)

Definition is_object (value : Value) : bool := match value with VObject _ => true | _ => false end.

Definition save_receipt (environment : EnvironmentId) (service : ServiceName) (receipt : Value)
    : tx unit :=
  if is_object receipt then
    let@ rows := tx_get (λ st, List.filter (λ row, String.eqb row.(e_id) environment)
                                 st.(environment_rows)) in
    tx_each rows (λ row,
      tx_put (λ st, set_receipts (binsert (environment, service)
                                    (match bget st.(receipt_rows) (environment, service) with
                                     | Some (organization, _) => (organization, receipt)
                                     | None => (row.(e_organization), receipt)
                                     end) st.(receipt_rows)) st))
  else tx_fail (InvalidEvidence "build receipt").

Definition is_sourceless (service : SavedServiceIntent) : bool :=
  match service.(svc_config).(sc_source) with SourceEmpty _ _ => true | _ => false end.

Definition uploads_of (stored : Stored) : tx (list ServiceName) :=
  let@ saved := saved_at stored.(summary).(ds_environment_id) stored.(summary).(ds_saved) in
  tx_ret (map (λ service, service.(svc_config).(sc_private_dns))
            (List.filter (λ service, targets stored.(st_nodes) service.(svc_id)
                                     && is_sourceless service) saved.(env_services))).

Definition LOG_LIMIT : nat := N.to_nat 262144.

Fixpoint drop_bytes (n : nat) (s : string) : string :=
  match n, s with
  | O, _ => s
  | S n, String _ s => drop_bytes n s
  | S _, EmptyString => EmptyString
  end.

(** The most recent output, from a character boundary on. *)
Definition append_log (log more : string) : string :=
  let log := log +:+ more in
  if LOG_LIMIT <? String.length log
  then drop_continuation (drop_bytes (String.length log - LOG_LIMIT) log)
  else log.

Definition is_build (id : DeploymentId) (service : ServiceName) (row : BuildRow) : bool :=
  String.eqb row.(b_deployment) id && String.eqb row.(b_service) service.

Definition record_build (stored : Stored) (service : ServiceName) (status : BuildStatus)
    (message : option string) (log : string) : tx unit :=
  let id := stored.(summary).(ds_id) in
  let@ uploads := uploads_of stored in
  run@ (if bool_decide (service ∈ uploads) then
          let@ rows := tx_get (λ st, List.filter (with_id id) st.(deployments)) in
          tx_each rows (λ row, tx_put (λ st,
            if existsb (is_build id service) st.(build_rows) then st
            else set_builds
                   (st.(build_rows)
                    ++ [{| b_deployment := id; b_service := service;
                           b_organization := row.(d_organization); b_commit := None;
                           b_status := BuildPending; b_message := None; b_log := "" |}]) st))
        else tx_ret ()) in
  let@ found := tx_get (λ st, List.find (is_build id service) st.(build_rows)) in
  match found with
  | None => tx_fail (NoPinnedBuild service)
  | Some row =>
      tx_put (λ st, set_builds
        (map (λ old, if is_build id service old
                     then {| b_deployment := old.(b_deployment); b_service := old.(b_service);
                             b_organization := old.(b_organization); b_commit := old.(b_commit);
                             b_status := status; b_message := take_chars 500 <$> message;
                             b_log := append_log row.(b_log) log |}
                     else old) st.(build_rows)) st)
  end.

(** ** Recording *)

Definition with_preview (run : Run) (preview : DeployPreview) (nodes : bmap string NodeStatus)
    : Run :=
  {| run_preview := Some preview; run_outcome := run.(run_outcome);
     run_executed := run.(run_executed); run_nodes := nodes |}.

Definition with_execution (run : Run) (executed : string) (nodes : bmap string NodeStatus) : Run :=
  {| run_preview := run.(run_preview); run_outcome := run.(run_outcome);
     run_executed := Some executed; run_nodes := nodes |}.

(** What the Deployment ships, and Applied State as it is. *)
Definition documents (stored : Stored) : tx (SavedEnvironmentIntent * SavedEnvironmentIntent) :=
  let@ saved := saved_at stored.(summary).(ds_environment_id) stored.(summary).(ds_saved) in
  let@ applied := applied_state stored.(summary).(ds_environment_id) saved in
  tx_ret (saved, applied).

Definition record_prepared (id : DeploymentId) (stored : Stored) (preview : DeployPreview)
    : tx DeploymentSummary :=
  match redact_preview preview with
  | Err (Fails _) => tx_fail (InvalidEvidence "Deploy Preview")
  | Err Panics => λ _, Err Panics
  | Ok preview =>
      match stored.(st_run).(run_preview) with
      | Some recorded =>
          if bool_decide (recorded = preview) then tx_ret stored.(summary)
          else tx_fail (DifferentPreview id)
      | None =>
          run@ require_running stored in
          let@ '(saved, applied) := documents stored in
          let nodes := settled stored.(st_nodes) saved applied preview [] in
          save (with_run stored (with_preview stored.(st_run) preview nodes))
      end
  end.

Definition executed_status (outcome : DeployOutcome ExecutionError)
    (nodes : bmap string NodeStatus) : DeploymentStatus :=
  let success := match outcome with DeploySuccess _ => true | DeployFailed _ _ _ => false end in
  if success && forallb (λ status, negb (bool_decide (status = NodeFailed))) (bvalues nodes)
  then StatusApplied else StatusFailed.

Definition record_executed (id : DeploymentId) (stored : Stored)
    (outcome : DeployOutcome ExecutionError) (removed : list VolumeRemoval)
    : tx DeploymentSummary :=
  let executed := evidence_digest outcome removed in
  match stored.(st_run).(run_outcome) with
  | Some _ =>
      if bool_decide (stored.(st_run).(run_executed) = Some executed) then tx_ret stored.(summary)
      else tx_fail (DifferentOutcome id)
  | None =>
      match stored.(st_run).(run_preview) with
      | None => tx_fail (PreviewFirst id)
      | Some preview =>
          let reason := failure outcome stored.(st_nodes) in
          match project_evidence preview {| evidence_version := 1; evidence_outcome := outcome |}
          with
          | Err (Fails _) => tx_fail (InvalidEvidence "Deploy Outcome")
          | Err Panics => λ _, Err Panics
          | Ok projection =>
              let@ '(saved, applied) := documents stored in
              let nodes := keep_advanced stored.(st_run).(run_nodes)
                             (node_outcomes stored.(st_nodes) saved applied
                                (EvidenceExecuted projection removed)) in
              finish_deployment (with_run stored (with_execution stored.(st_run) executed nodes))
                (OutcomeExecuted projection.(projection_summary) reason)
                (executed_status outcome nodes)
          end
      end
  end.

(** The Services confirmed now, then those confirmed before. *)
Definition confirmed_so_far (stored : Stored) (services : list ServiceName) : list ServiceName :=
  fold_left (λ confirmed node,
    match node with
    | TargetService _ _ runtime =>
        if match bget stored.(st_run).(run_nodes) (target_id node) with
           | Some status => advances status | None => false end
           && negb (bool_decide (runtime ∈ confirmed))
        then confirmed ++ [runtime] else confirmed
    | TargetVolume _ _ _ => confirmed
    end) stored.(st_nodes) services.

Definition record_confirmed (id : DeploymentId) (stored : Stored) (services : list ServiceName)
    : tx DeploymentSummary :=
  run@ require_running stored in
  match stored.(st_run).(run_preview), stored.(st_run).(run_outcome) with
  | Some preview, None =>
      let confirmed := confirmed_so_far stored services in
      let@ '(saved, applied) := documents stored in
      let nodes := keep_advanced stored.(st_run).(run_nodes)
                     (settled stored.(st_nodes) saved applied preview confirmed) in
      let stored := with_run stored (run_with_nodes stored.(st_run) nodes) in
      run@ advance stored false in
      save stored
  | _, _ => tx_fail (ConfirmBetween id)
  end.

Fixpoint join_comma (names : list string) : string :=
  match names with
  | [] => ""
  | [name] => name
  | name :: names => name +:+ ", " +:+ join_comma names
  end.

Definition upload_reason (nodes : list TargetNode) (services : list ServiceName) : string :=
  join_comma (map (current_name nodes) services)
  +:+ " has no source to build: its last upload is gone and no image is left to reuse. "
  +:+ "Upload it again or add an image.".

Definition record_abandoned (stored : Stored) : tx DeploymentSummary :=
  if match stored.(st_run).(run_outcome) with Some _ => true | None => false end
     || bool_decide (stored.(summary).(ds_status) = StatusUnknown)
  then tx_ret stored.(summary)
  else
    run@ require_running stored in
    match stored.(st_run).(run_preview) with
    | None =>
        finish_deployment stored (OutcomeNotExecuted "Its runner stopped before executing anything" [])
          StatusFailed
    | Some _ => save (with_summary stored (set_status_of stored.(summary) StatusUnknown))
    end.

Definition record_evidence (id : DeploymentId) (stored : Stored) (evidence : RunEvidence)
    : tx DeploymentSummary :=
  match evidence with
  | Alive => run@ require_running stored in save stored
  | Prepared preview => record_prepared id stored preview
  | Executed outcome removed => record_executed id stored outcome removed
  | Confirmed services => record_confirmed id stored services
  | BuiltReceipts receipts =>
      run@ require_running stored in
      run@ tx_each receipts
             (λ entry, save_receipt stored.(summary).(ds_environment_id) entry.1 entry.2) in
      tx_ret stored.(summary)
  | BuildProgress service status message log =>
      run@ require_running stored in
      run@ record_build stored service status message log in
      tx_ret stored.(summary)
  | NotExecuted reason =>
      finish_deployment stored (OutcomeNotExecuted (take_chars 500 reason) []) StatusFailed
  | UploadNeeded services =>
      finish_deployment stored (OutcomeNotExecuted (upload_reason stored.(st_nodes) services) services)
        StatusFailed
  | Abandoned => record_abandoned stored
  end.

(** Any record while it runs shows the runner is still there. *)
Definition renewed (stored : Stored) : tx Stored :=
  if is_claimed stored.(summary).(ds_status)
  then let@ t := tx_now in tx_ret (with_lease stored (t + LEASE))
  else tx_ret stored.

Definition record (id : DeploymentId) (runner : RunnerId) (evidence : RunEvidence)
    : tx DeploymentSummary :=
  run@ load id in
  let@ stored := locked id in
  if negb (bool_decide (stored.(summary).(ds_runner) = Some runner))
  then tx_fail (OwnedElsewhere id)
  else let@ stored := renewed stored in record_evidence id stored evidence.

(** ** Admission ([deployment/admit.rs]) *)

(** [Admit::Retry]: what a retry of a removal finds gone is forgotten at once. *)
Definition admit_retry (who : Actor) (id source : DeploymentId) (servers : option N)
    : tx DeploymentSummary :=
  let@ retried := retry who id source in
  let@ outcome := if retried.(ds_remove)
                  then forgettable retried.(ds_environment_id) servers
                  else tx_ret None in
  match outcome with
  | Some outcome => forget retried.(ds_id) outcome
  | None => run@ runnable servers in tx_ret retried
  end.

(** [Admit::Remove] on the locked [environment]: [reviewed] is the destructive review with
    the target nodes it freezes, [closing] the mark of a closing Branch. *)
Definition removal (who : Actor) (id : DeploymentId) (environment : EnvironmentRow)
    (servers : option N) (reviewed : option Outcome → tx Frozen) (closing : tx unit)
    : tx DeploymentSummary :=
  run@ guard_removal environment in
  let@ running := in_flight environment.(e_id) in
  run@ match running with
       | Some running => if is_claimed running.(ds_status)
                         then tx_fail (AlreadyRunning running.(ds_id)) else tx_ret ()
       | None => tx_ret ()
       end in
  let@ forgotten := forgettable environment.(e_id) servers in
  let@ frozen := reviewed forgotten in
  let@ admitted := admit_deployment who id [] None None environment.(e_id) NOTHING frozen in
  run@ closing in
  match forgotten with
  | Some outcome => forget admitted.(ds_id) outcome
  | None => tx_ret admitted
  end.
End Lifecycle.
