(* ===== verification/LifecycleSpec.v ===== *)
(** * The Deployment state machine

    The abstract machine a Deployment goes through ([row_move]) and the table of
    Deployments goes through ([db_step]), and the refinement: every committed
    operation of [Lifecycle] takes the table through steps of that machine.

    The machine has no operations, actors or clock: it says which changes of a
    row exist.  A Deployment is queued; it is superseded, cancelled, forgotten or
    claimed by one runner; claimed, its evidence grows until it ends with an
    outcome, is lost, or is cancelled; then it never changes. *)

From S2P Require Import Prelude BTree Strings Values Volumes ServiceGraph Spec Services.
From S2P Require Import Deploy Preview Execution RuntimeOutcome Config DeploymentStore Lifecycle.

Open Scope nat_scope.
Open Scope list_scope.

(** ** The machine *)

(** What admission froze never changes. *)
Record same_frozen (a b : DeploymentRow) : Prop := {
  same_id : b.(d_id) = a.(d_id);
  same_organization : b.(d_organization) = a.(d_organization);
  same_environment : b.(d_environment) = a.(d_environment);
  same_number : b.(d_number) = a.(d_number);
  same_saved : b.(d_saved) = a.(d_saved);
  same_services : b.(d_services) = a.(d_services);
  same_nodes : b.(d_nodes) = a.(d_nodes);
  same_namespace : b.(d_namespace) = a.(d_namespace);
  same_credentials : b.(d_credentials) = a.(d_credentials);
  same_upload : b.(d_upload) = a.(d_upload);
  same_cluster_domain : b.(d_cluster_domain) = a.(d_cluster_domain);
  same_admitted : b.(d_admitted) = a.(d_admitted);
  same_admitted_by : b.(d_admitted_by) = a.(d_admitted_by);
  same_message : b.(d_message) = a.(d_message)
}.

(** The runner and when it started and ended stay. *)
Record same_course (a b : DeploymentRow) : Prop := {
  course_runner : b.(d_runner) = a.(d_runner);
  course_started : b.(d_started) = a.(d_started);
  course_ended : b.(d_ended) = a.(d_ended)
}.

(** Evidence only grows: a recorded preview stays, and an advanced node stays advanced. *)
Record evidence_grows (a b : Run) : Prop := {
  grows_preview : ∀ p, a.(run_preview) = Some p → b.(run_preview) = Some p;
  grows_nodes : ∀ n status, bget a.(run_nodes) n = Some status → advances status = true →
    bget b.(run_nodes) n = Some status;
  grows_unprepared : b.(run_preview) = None → b.(run_nodes) = a.(run_nodes);
  grows_wf : bwf a.(run_nodes) → bwf b.(run_nodes)
}.

(** No node advanced. *)
Definition nothing_advanced (run : Run) : Prop :=
  ∀ n status, bget run.(run_nodes) n = Some status → advances status = false.

Inductive row_move (a b : DeploymentRow) : Prop :=
| move_superseded :
    a.(d_status) = StatusQueued → b.(d_status) = StatusSuperseded → b.(d_run) = a.(d_run) →
    same_course a b → row_move a b
| move_cancelled_early t :
    a.(d_status) = StatusQueued → b.(d_status) = StatusCancelled → b.(d_run) = a.(d_run) →
    b.(d_runner) = a.(d_runner) → b.(d_started) = a.(d_started) → b.(d_ended) = Some t →
    row_move a b
| move_forgotten outcome t :
    a.(d_status) = StatusQueued → b.(d_status) = StatusApplied →
    outcome = OutcomeNeverRan ∨ outcome = OutcomeForgotten →
    b.(d_run).(run_outcome) = Some outcome → b.(d_run).(run_preview) = a.(d_run).(run_preview) →
    nothing_advanced b.(d_run) → bwf b.(d_run).(run_nodes) →
    b.(d_runner) = a.(d_runner) → b.(d_started) = a.(d_started) → b.(d_ended) = Some t →
    row_move a b
| move_lost :
    is_claimed a.(d_status) = true → b.(d_status) = StatusUnknown → b.(d_run) = a.(d_run) →
    same_course a b → row_move a b
| move_cancelling :
    a.(d_status) = StatusRunning → b.(d_status) = StatusCancelling → b.(d_run) = a.(d_run) →
    same_course a b → row_move a b
| move_recorded :
    is_claimed a.(d_status) = true → b.(d_status) = a.(d_status) →
    evidence_grows a.(d_run) b.(d_run) → b.(d_run).(run_outcome) = a.(d_run).(run_outcome) →
    same_course a b → row_move a b
| move_ended outcome t :
    is_claimed a.(d_status) = true → a.(d_run).(run_outcome) = None →
    b.(d_status) = StatusApplied ∨ b.(d_status) = StatusFailed ∧ a.(d_status) = StatusRunning
      ∨ b.(d_status) = StatusCancelled ∧ a.(d_status) = StatusCancelling →
    evidence_grows a.(d_run) b.(d_run) → b.(d_run).(run_outcome) = Some outcome →
    b.(d_runner) = a.(d_runner) → b.(d_started) = a.(d_started) → b.(d_ended) = Some t →
    row_move a b
| move_cancelled_in_flight t :
    is_claimed a.(d_status) = true → b.(d_status) = StatusCancelled → b.(d_run) = a.(d_run) →
    b.(d_runner) = a.(d_runner) → b.(d_started) = a.(d_started) → b.(d_ended) = Some t →
    row_move a b.

(** A queued row bound to a runner. *)
Record row_claim (a b : DeploymentRow) : Prop := {
  claim_from : a.(d_status) = StatusQueued;
  claim_to : b.(d_status) = StatusRunning;
  claim_run : b.(d_run) = a.(d_run);
  claim_runner : is_Some b.(d_runner);
  claim_started : is_Some b.(d_started);
  claim_ended : b.(d_ended) = a.(d_ended)
}.

Definition may_move (a b : DeploymentRow) : Prop := b = a ∨ same_frozen a b ∧ row_move a b.

Inductive db_step (rows : list DeploymentRow) : list DeploymentRow → Prop :=
| db_moved rows' : Forall2 may_move rows rows' → db_step rows rows'
| db_claimed before after row row' :
    rows = before ++ row :: after → same_frozen row row' → row_claim row row' →
    (∀ other, other ∈ rows → other.(d_environment) = row.(d_environment) →
       is_claimed other.(d_status) = false) →
    db_step rows (before ++ row' :: after)
| db_admitted row :
    row.(d_status) = StatusQueued → row.(d_run) = Run_default → row.(d_runner) = None →
    row.(d_started) = None → row.(d_ended) = None →
    (∀ other, other ∈ rows → other.(d_id) ≠ row.(d_id)) →
    (∀ other, other ∈ rows → other.(d_environment) = row.(d_environment) →
       (other.(d_number) < row.(d_number))%N ∧ other.(d_status) ≠ StatusQueued) →
    (0 < row.(d_number))%N →
    db_step rows (rows ++ [row]).

(** ** What holds of every reachable table *)

Record row_ok (row : DeploymentRow) : Prop := {
  ok_number : (0 < row.(d_number))%N;
  ok_claimed : is_claimed row.(d_status) = true → is_Some row.(d_runner);
  ok_runner : is_Some row.(d_runner) ↔ is_Some row.(d_started);
  ok_unstarted : row.(d_status) = StatusQueued ∨ row.(d_status) = StatusSuperseded →
    row.(d_runner) = None ∧ row.(d_run) = Run_default;
  ok_ended : is_Some row.(d_ended) ↔
    row.(d_status) = StatusApplied ∨ row.(d_status) = StatusFailed
    ∨ row.(d_status) = StatusCancelled;
  ok_outcome : is_Some row.(d_run).(run_outcome) →
    row.(d_status) = StatusApplied ∨ row.(d_status) = StatusFailed
    ∨ row.(d_status) = StatusCancelled;
  ok_concluded : row.(d_status) = StatusApplied ∨ row.(d_status) = StatusFailed →
    is_Some row.(d_run).(run_outcome);
  ok_preview : is_Some row.(d_run).(run_preview) → is_Some row.(d_runner);
  ok_nodes : row.(d_run).(run_preview) = None → nothing_advanced row.(d_run);
  ok_wf : bwf row.(d_run).(run_nodes)
}.

Record consistent (rows : list DeploymentRow) : Prop := {
  ids_unique : NoDup (map d_id rows);
  rows_ok : Forall row_ok rows;
  numbers_unique a b : a ∈ rows → b ∈ rows → a.(d_environment) = b.(d_environment) →
    a.(d_number) = b.(d_number) → a.(d_id) = b.(d_id);
  queued_newest a b : a ∈ rows → b ∈ rows → a.(d_environment) = b.(d_environment) →
    a.(d_status) = StatusQueued → (b.(d_number) ≤ a.(d_number))%N;
  one_claimed a b : a ∈ rows → b ∈ rows → a.(d_environment) = b.(d_environment) →
    is_claimed a.(d_status) = true → is_claimed b.(d_status) = true → a.(d_id) = b.(d_id)
}.

(** ** The machine keeps its table consistent *)

Lemma move_frozen_number a b : same_frozen a b → b.(d_number) = a.(d_number).
Proof. by intros []. Qed.

(** A move never enters [Queued], and never enters the claimed statuses from outside. *)
Lemma row_move_status a b :
  row_move a b →
  b.(d_status) ≠ StatusQueued ∧ (is_claimed b.(d_status) = true → is_claimed a.(d_status) = true)
  ∧ status_in_flight a.(d_status) = true.
Proof.
  intros Hm. destruct Hm as [Ha Hb|? Ha Hb|? ? Ha Hb|Ha Hb|Ha Hb|Ha Hb|? ? Ha _ Hb|? Ha Hb];
    repeat match type of Hb with _ ∨ _ => destruct Hb as [Hb|Hb] | _ ∧ _ => destruct Hb as [Hb ?] end;
    destruct (d_status a); try discriminate; rewrite Hb; done.
Qed.

(** Close a field of [row_ok] whose status is known. *)
Ltac solve_row_ok :=
  intros;
  repeat match goal with
    | H : _ ∨ _ |- _ => destruct H
    | H : is_Some None |- _ => destruct H; discriminate
    | H : is_Some _ ∧ _ |- _ => destruct H
    end;
  try discriminate; try congruence; try (apply bwf_nil); eauto.

Lemma queued_facts a :
  row_ok a → a.(d_status) = StatusQueued →
  a.(d_runner) = None ∧ a.(d_started) = None ∧ a.(d_ended) = None ∧ a.(d_run) = Run_default.
Proof.
  intros [_ _ Hr Hu He _ _ _ _ _] Ha. destruct Hu as [Hn Hrun]; [by left|]. split_and!; [done|..|done].
  - apply eq_None_not_Some. intros Hs%Hr. rewrite Hn in Hs. by destruct Hs.
  - apply eq_None_not_Some. intros Hs%He. rewrite Ha in Hs. naive_solver.
Qed.

Lemma claimed_facts a :
  row_ok a → is_claimed a.(d_status) = true →
  is_Some a.(d_runner) ∧ is_Some a.(d_started) ∧ a.(d_ended) = None
  ∧ a.(d_run).(run_outcome) = None.
Proof.
  intros [_ Hc Hr _ He Ho _ _ _ _] Ha. pose proof (Hc Ha) as Hn. split_and!; [done|by apply Hr|..].
  - apply eq_None_not_Some. intros Hs%He. destruct (d_status a); naive_solver.
  - apply eq_None_not_Some. intros Hs%Ho. destruct (d_status a); naive_solver.
Qed.

Lemma queued_move_ok a b :
  row_ok a → a.(d_status) = StatusQueued → (0 < b.(d_number))%N →
  b.(d_runner) = a.(d_runner) → b.(d_started) = a.(d_started) →
  b.(d_run).(run_preview) = a.(d_run).(run_preview) →
  nothing_advanced b.(d_run) → bwf b.(d_run).(run_nodes) →
  b.(d_status) = StatusSuperseded ∧ b.(d_run) = a.(d_run) ∧ b.(d_ended) = None
  ∨ b.(d_status) = StatusCancelled ∧ b.(d_run) = a.(d_run) ∧ is_Some b.(d_ended)
  ∨ b.(d_status) = StatusApplied ∧ is_Some b.(d_run).(run_outcome) ∧ is_Some b.(d_ended) →
  row_ok b.
Proof.
  intros Hok Ha Hnum Hr Hs Hp Hadv Hwf Hb.
  destruct (queued_facts a Hok Ha) as (Hn & Hst & He & Hrun).
  rewrite Hrun in Hp. rewrite Hn in Hr. rewrite Hst in Hs. simpl in Hp.
  destruct Hb as [(Hb & Hb1 & Hb2)|[(Hb & Hb1 & Hb2)|(Hb & Hb1 & Hb2)]];
    split; rewrite ?Hb, ?Hr, ?Hs, ?Hp, ?Hb1, ?Hb2, ?Hrun; simpl; try done;
    try (split; solve_row_ok); solve_row_ok.
Qed.

Lemma claimed_move_ok a b :
  row_ok a → is_claimed a.(d_status) = true → (0 < b.(d_number))%N →
  b.(d_runner) = a.(d_runner) → b.(d_started) = a.(d_started) →
  (b.(d_run).(run_preview) = None → nothing_advanced b.(d_run)) → bwf b.(d_run).(run_nodes) →
  (is_claimed b.(d_status) = true ∨ b.(d_status) = StatusUnknown)
    ∧ b.(d_run).(run_outcome) = None ∧ b.(d_ended) = None
  ∨ b.(d_status) = StatusCancelled ∧ is_Some b.(d_ended)
  ∨ (b.(d_status) = StatusApplied ∨ b.(d_status) = StatusFailed)
    ∧ is_Some b.(d_run).(run_outcome) ∧ is_Some b.(d_ended) →
  row_ok b.
Proof.
  intros Hok Ha Hnum Hr Hs Hadv Hwf Hb.
  destruct (claimed_facts a Hok Ha) as (Hn & Hst & He & Hout).
  rewrite <-Hr in Hn. rewrite <-Hs in Hst.
  destruct Hb as [(Hb & Hb1 & Hb2)|[(Hb & Hb2)|(Hb & Hb1 & Hb2)]];
    destruct (d_status b) eqn:Hstat; try (destruct Hb; discriminate); try discriminate Hb;
    split; rewrite ?Hstat, ?Hb1, ?Hb2; try done; try (split; solve_row_ok); solve_row_ok.
Qed.

Lemma row_move_ok a b : same_frozen a b → row_move a b → row_ok a → row_ok b.
Proof.
  intros Hf Hm Hok. assert (0 < b.(d_number))%N as Hnum
    by (rewrite (same_number _ _ Hf); apply Hok).
  destruct Hm as [Ha Hb Hrun [Cr Cs Ce]|t Ha Hb Hrun Cr Cs Ce|o t Ha Hb Hout Hout' Hpre Hadv Hwf Cr Cs Ce
    |Ha Hb Hrun [Cr Cs Ce]|Ha Hb Hrun [Cr Cs Ce]|Ha Hb [Gp Gn Gu Gw] Hout [Cr Cs Ce]
    |o t Ha Hnone Hb [Gp Gn Gu Gw] Hout Cr Cs Ce|t Ha Hb Hrun Cr Cs Ce].
  all: try (pose proof (queued_facts a Hok Ha) as (? & ? & ? & Hdef);
            eapply queued_move_ok; eauto; rewrite ?Hrun, ?Hdef; try done; try apply bwf_nil).
  all: try (assert (is_claimed a.(d_status) = true) as Hc by (by rewrite ?Ha);
            pose proof (claimed_facts a Hok Hc) as (? & ? & ? & Hnone');
            eapply (claimed_move_ok a); eauto; rewrite ?Hrun; try apply Hok; try apply Gw, Hok).
  - left. by rewrite Hb, Ce.
  - left. rewrite Hb, Ce. eauto.
  - left. rewrite Hb, Ce. eauto.
  - intros Hp n status. rewrite (Gu Hp). apply Hok.
    destruct (run_preview (d_run a)) as [p|] eqn:Hpa; [|done]. by rewrite (Gp p) in Hp.
  - left. rewrite Hb, Hout, Ce, Hnone'. eauto.
  - intros Hp n status. rewrite (Gu Hp). apply Hok.
    destruct (run_preview (d_run a)) as [p|] eqn:Hpa; [|done]. by rewrite (Gp p) in Hp.
  - rewrite Hout, Ce. destruct Hb as [Hb|[[Hb _]|[Hb _]]]; rewrite Hb; eauto 10.
Qed.

Lemma may_move_frozen a b : may_move a b → same_frozen a b.
Proof. intros [->|[? _]]; [by split|done]. Qed.

Lemma may_move_ok a b : may_move a b → row_ok a → row_ok b.
Proof. intros [->|[Hf Hm]]; [done|by apply row_move_ok]. Qed.

Lemma may_move_status a b :
  may_move a b →
  (b.(d_status) = StatusQueued → a.(d_status) = StatusQueued)
  ∧ (is_claimed b.(d_status) = true → is_claimed a.(d_status) = true).
Proof. intros [->|[_ (? & ? & _)%row_move_status]]; naive_solver. Qed.

Lemma moved_ids rows rows' : Forall2 may_move rows rows' → map d_id rows' = map d_id rows.
Proof. induction 1 as [|a b l l' [? _]%may_move_frozen _ IH]; simpl; congruence. Qed.

Lemma moved_from rows rows' b :
  Forall2 may_move rows rows' → b ∈ rows' → ∃ a, a ∈ rows ∧ may_move a b.
Proof.
  intros H Hb. apply list_elem_of_lookup in Hb as (i & Hi).
  destruct (Forall2_lookup_r _ _ _ _ _ H Hi) as (a & Ha & Hab). exists a. split; [|done].
  by eapply list_elem_of_lookup_2.
Qed.

Lemma moved_consistent rows rows' :
  Forall2 may_move rows rows' → consistent rows → consistent rows'.
Proof.
  intros H [Hids Hrows Hnum Hq Hc]. split.
  - by rewrite (moved_ids _ _ H).
  - apply Forall_forall. intros b Hb. destruct (moved_from _ _ _ H Hb) as (a & Ha & Hab).
    eapply may_move_ok; [done|]. rewrite Forall_forall in Hrows. auto.
  - intros b b' (a & Ha & Hab)%(moved_from _ _ _ H) (a' & Ha' & Hab')%(moved_from _ _ _ H).
    destruct (may_move_frozen _ _ Hab), (may_move_frozen _ _ Hab'). rewrite same_id0, same_id1.
    intros ? ?. apply Hnum; congruence.
  - intros b b' (a & Ha & Hab)%(moved_from _ _ _ H) (a' & Ha' & Hab')%(moved_from _ _ _ H) He Hs.
    destruct (may_move_status _ _ Hab) as [Hs' _]. specialize (Hs' Hs).
    destruct (may_move_frozen _ _ Hab), (may_move_frozen _ _ Hab').
    rewrite same_number0, same_number1. apply Hq; congruence.
  - intros b b' (a & Ha & Hab)%(moved_from _ _ _ H) (a' & Ha' & Hab')%(moved_from _ _ _ H) He Hs Hs'.
    destruct (may_move_status _ _ Hab) as [_ Hx]. destruct (may_move_status _ _ Hab') as [_ Hx'].
    destruct (may_move_frozen _ _ Hab), (may_move_frozen _ _ Hab'). rewrite same_id0, same_id1.
    apply Hc; [congruence..| |]; auto.
Qed.

Lemma row_claim_ok a b : same_frozen a b → row_claim a b → row_ok a → row_ok b.
Proof.
  intros Hf [Ha Hb Hrun Hr Hs He] Hok. destruct (queued_facts a Hok Ha) as (_ & _ & Hend & Hdef).
  rewrite Hend in He. rewrite Hdef in Hrun.
  split; rewrite ?Hb, ?He, ?Hrun, ?(same_number _ _ Hf); simpl; try done; try apply Hok;
    try (split; solve_row_ok); solve_row_ok.
Qed.

Lemma same_id_unique (rows : list DeploymentRow) a b :
  NoDup (map d_id rows) → a ∈ rows → b ∈ rows → a.(d_id) = b.(d_id) → a = b.
Proof.
  induction rows as [|row rows IH]; simpl; [set_solver|]. intros [Hid Hnd]%NoDup_cons.
  rewrite !elem_of_cons. intros [->|Ha] [->|Hb] He; [done|..|by apply IH].
  - exfalso. apply Hid. rewrite He. by apply list_elem_of_fmap_2.
  - exfalso. apply Hid. rewrite <-He. by apply list_elem_of_fmap_2.
Qed.

Lemma claimed_consistent before after row row' :
  same_frozen row row' → row_claim row row' →
  (∀ other, other ∈ before ++ row :: after → other.(d_environment) = row.(d_environment) →
     is_claimed other.(d_status) = false) →
  consistent (before ++ row :: after) → consistent (before ++ row' :: after).
Proof.
  intros Hf Hcl Hnone [Hids Hrows Hnum Hq Hc].
  assert (∀ b, b ∈ before ++ row' :: after →
    ∃ a, a ∈ before ++ row :: after ∧ same_frozen a b
         ∧ (b = a ∧ b.(d_id) ≠ row.(d_id) ∨ a = row ∧ b = row')) as Hfrom.
  { intros b. rewrite elem_of_app, elem_of_cons. intros Hb.
    assert (b = row' ∨ b ∈ before ∨ b ∈ after) as [->|Hb'] by tauto.
    - exists row. split; [set_solver|]. eauto.
    - exists b. split; [set_solver|]. split; [by split|]. left. split; [done|]. intros He.
      rewrite map_app in Hids. simpl in Hids.
      apply NoDup_app in Hids as (_ & Hd & [Hn _]%NoDup_cons). destruct Hb' as [Hb'|Hb'].
      + apply (Hd (d_id b)); [by apply list_elem_of_fmap_2|]. rewrite He. set_solver.
      + apply Hn. rewrite <-He. by apply list_elem_of_fmap_2. }
  split.
  - rewrite map_app in *. simpl in *. by rewrite (same_id _ _ Hf).
  - rewrite Forall_app, Forall_cons in *. destruct Hrows as (? & ? & ?).
    split_and!; [done|by eapply row_claim_ok|done].
  - intros b b' (a & Ha & [] & _)%Hfrom (a' & Ha' & [] & _)%Hfrom ? ?. rewrite same_id0, same_id1.
    apply Hnum; congruence.
  - intros b b' (a & Ha & Hf1 & Hab)%Hfrom (a' & Ha' & Hf2 & _)%Hfrom He Hs.
    destruct Hab as [[-> _]|[-> ->]]; [|by rewrite (claim_to _ _ Hcl) in Hs].
    rewrite (same_number _ _ Hf2). apply Hq; [done..| |done].
    rewrite He. apply Hf2.
  - intros b b' (a & Ha & Hf1 & Hab)%Hfrom (a' & Ha' & Hf2 & Hab')%Hfrom He Hs Hs'.
    destruct Hab as [[-> Hne]|[-> ->]], Hab' as [[-> Hne']|[-> ->]]; [by apply Hc|..|done].
    + rewrite (same_environment _ _ Hf) in He. by rewrite (Hnone a) in Hs.
    + rewrite (same_environment _ _ Hf) in He. by rewrite (Hnone a') in Hs' by done.
Qed.

Lemma admitted_consistent rows row :
  row.(d_status) = StatusQueued → row.(d_run) = Run_default → row.(d_runner) = None →
  row.(d_started) = None → row.(d_ended) = None →
  (∀ other, other ∈ rows → other.(d_id) ≠ row.(d_id)) →
  (∀ other, other ∈ rows → other.(d_environment) = row.(d_environment) →
     (other.(d_number) < row.(d_number))%N ∧ other.(d_status) ≠ StatusQueued) →
  (0 < row.(d_number))%N → consistent rows → consistent (rows ++ [row]).
Proof.
  intros Hs Hrun Hr Hst He Hid Hnew Hpos [Hids Hrows Hnum Hq Hc]. split.
  - rewrite map_app. apply NoDup_app. split_and!; [done| |apply NoDup_singleton].
    intros id (other & -> & Ho)%list_elem_of_fmap Hx. simpl in Hx.
    apply list_elem_of_singleton in Hx. by apply (Hid other).
  - apply Forall_app. split; [done|]. apply Forall_singleton.
    split; rewrite ?Hs, ?Hrun, ?Hr, ?Hst, ?He; simpl; try done; try (split; solve_row_ok);
      solve_row_ok.
  - intros a b. rewrite !elem_of_app, !list_elem_of_singleton.
    intros [Ha| ->] [Hb| ->] Henv Hn; [by apply Hnum|..|done].
    + destruct (Hnew a Ha Henv). lia.
    + destruct (Hnew b Hb) as [? _]; [done|]. lia.
  - intros a b. rewrite !elem_of_app, !list_elem_of_singleton.
    intros [Ha| ->] [Hb| ->] Henv Hqd; [by apply Hq|..|done].
    + by destruct (Hnew a Ha Henv).
    + destruct (Hnew b Hb) as [? _]; [done|]. lia.
  - intros a b. rewrite !elem_of_app, !list_elem_of_singleton.
    intros [Ha| ->] [Hb| ->] Henv Hca Hcb; [by apply Hc|..|done].
    + by rewrite Hs in Hcb.
    + by rewrite Hs in Hca.
Qed.

Lemma db_step_consistent rows rows' : db_step rows rows' → consistent rows → consistent rows'.
Proof.
  intros Hstep Hok. destruct Hstep as [rows' Hm|before after row row' -> Hf Hcl Hnone|].
  - by eapply moved_consistent.
  - by eapply claimed_consistent.
  - by apply admitted_consistent.
Qed.

Lemma db_steps_consistent rows rows' :
  rtc db_step rows rows' → consistent rows → consistent rows'.
Proof. induction 1; eauto using db_step_consistent. Qed.

(** A row stays, with what admission froze. *)
Lemma moved_to rows rows' a :
  Forall2 may_move rows rows' → a ∈ rows → ∃ b, b ∈ rows' ∧ may_move a b.
Proof.
  intros H Ha. apply list_elem_of_lookup in Ha as (i & Hi).
  destruct (Forall2_lookup_l _ _ _ _ _ H Hi) as (b & Hb & Hab). exists b. split; [|done].
  by eapply list_elem_of_lookup_2.
Qed.

(** What a step does to a row. *)
Definition row_next (a b : DeploymentRow) : Prop :=
  may_move a b ∨ same_frozen a b ∧ row_claim a b.

Lemma db_step_row rows rows' a :
  db_step rows rows' → a ∈ rows → ∃ b, b ∈ rows' ∧ row_next a b.
Proof.
  intros [rows'' Hm|before after row row' -> Hf Hcl _|row _ _ _ _ _ _ _ _] Ha.
  - destruct (moved_to _ _ _ Hm Ha) as (b & ? & ?). exists b. split; [done|by left].
  - rewrite elem_of_app, elem_of_cons in Ha. destruct Ha as [Ha|[->|Ha]].
    + exists a. split; [set_solver|by left; left].
    + exists row'. split; [set_solver|by right].
    + exists a. split; [set_solver|by left; left].
  - exists a. split; [set_solver|by left; left].
Qed.

Lemma row_next_frozen a b : row_next a b → same_frozen a b.
Proof. intros [Hm|[? _]]; [by apply may_move_frozen|done]. Qed.

Lemma db_step_successor rows rows' a :
  db_step rows rows' → a ∈ rows → ∃ b, b ∈ rows' ∧ same_frozen a b.
Proof.
  intros Hs Ha. destruct (db_step_row _ _ _ Hs Ha) as (b & Hb & Hn).
  exists b. eauto using row_next_frozen.
Qed.
