(* ===== verification/LifecycleRefines.v ===== *)
(** * The lifecycle refines the Deployment state machine

    Each operation of [Lifecycle] that commits takes the table of Deployments
    through steps of [LifecycleSpec.db_step]; the invariants and the frozen or
    final parts of a Deployment follow for every reachable Store. *)

From S2P Require Import Prelude BTree Strings Values Volumes ServiceGraph Spec Services.
From S2P Require Import Deploy Preview Execution RuntimeOutcome Config DeploymentStore Lifecycle.
From S2P Require Import LifecycleSpec.

Open Scope nat_scope.
Open Scope list_scope.

(** ** Transactions that leave the Deployments as they are *)

Create HintDb keeps.

Section Keeping.
Context `{Neighbours}.

Definition keeps {A} (c : tx A) : Prop :=
  ∀ st x st', c st = Ok (x, st') → st'.(deployments) = st.(deployments).

Lemma tx_bind_Ok {A B} (c : tx A) (k : A → tx B) st y st' :
  tx_bind c k st = Ok (y, st') ↔ ∃ x st1, c st = Ok (x, st1) ∧ k x st1 = Ok (y, st').
Proof.
  unfold tx_bind. rewrite result_bind_Ok. split.
  - intros ([x st1] & Hc & Hk). eauto.
  - intros (x & st1 & Hc & Hk). by exists (x, st1).
Qed.

Lemma keeps_bind {A B} (c : tx A) (k : A → tx B) :
  keeps c → (∀ x, keeps (k x)) → keeps (tx_bind c k).
Proof. intros Hc Hk st y st' (x & st1 & H1 & H2)%tx_bind_Ok. rewrite (Hk _ _ _ _ H2). eauto. Qed.

Lemma keeps_ret {A} (x : A) : keeps (tx_ret x).
Proof. by intros st y st' [= <- <-]. Qed.

Lemma keeps_fail {A} refusal : keeps (tx_fail (A := A) refusal).
Proof. done. Qed.

Lemma keeps_panic {A} : keeps (λ _, Err Panics : Result (A * Store) (Fault StoreRefusal)).
Proof. done. Qed.

Lemma keeps_of {A} (r : Result A (Fault StoreRefusal)) : keeps (tx_of r).
Proof. unfold tx_of. intros st y st' H'. by apply result_bind_Ok in H' as (? & _ & [= <- <-]). Qed.

Lemma keeps_get {A} (f : Store → A) : keeps (tx_get f).
Proof. by intros st y st' [= <- <-]. Qed.

Lemma keeps_put f : (∀ st, (f st).(deployments) = st.(deployments)) → keeps (tx_put f).
Proof. intros Hf st y st' [= <- <-]. apply Hf. Qed.

Lemma keeps_world f : keeps (tx_world f).
Proof. intros st y st' H'. unfold tx_world in H'. by apply result_bind_Ok in H' as (? & _ & [= <- <-]). Qed.

Lemma keeps_now : keeps tx_now.
Proof. by intros st y st' [= <- <-]. Qed.

Lemma keeps_each {A} (l : list A) (f : A → tx unit) : (∀ x, keeps (f x)) → keeps (tx_each l f).
Proof. intros Hf. induction l; simpl; [apply keeps_ret|by apply keeps_bind]. Qed.
End Keeping.

#[export] Hint Resolve keeps_ret keeps_fail keeps_panic keeps_of keeps_get keeps_world keeps_now
  keeps_each : keeps.

(** Run through a transaction that writes other tables. *)
Ltac solve_keeps :=
  repeat first
    [ progress eauto with keeps
    | apply keeps_bind; [|intros ?]
    | apply keeps_put; intros ?; repeat case_match; reflexivity
    | apply keeps_each; intros ?
    | case_match ].

Section Reading.
Context `{Neighbours}.

Lemma keeps_stored row : keeps (stored row).
Proof. unfold stored, lapsed. solve_keeps. Qed.

Lemma keeps_load id : keeps (load id).
Proof. unfold load, first_or_missing. pose proof keeps_stored. solve_keeps. Qed.

Lemma keeps_owned organization id : keeps (owned organization id).
Proof. unfold owned, first_or_missing. pose proof keeps_stored. solve_keeps. Qed.

Lemma keeps_locked id : keeps (locked id).
Proof. unfold locked. pose proof keeps_load. solve_keeps. Qed.

Lemma keeps_latest_where environment condition : keeps (latest_where environment condition).
Proof. unfold latest_where. pose proof keeps_stored. solve_keeps. Qed.

Lemma keeps_on_servers environment : keeps (on_servers environment).
Proof.
  unfold on_servers, in_flight, ran, last_ran. pose proof keeps_latest_where. solve_keeps.
Qed.

Lemma keeps_saved_at environment revision : keeps (saved_at environment revision).
Proof. unfold saved_at, environment_row. solve_keeps. Qed.

Lemma keeps_documents stored : keeps (documents stored).
Proof. unfold documents, applied_state. pose proof keeps_saved_at. solve_keeps. Qed.

Lemma keeps_running stored : keeps (require_running stored).
Proof. unfold require_running. solve_keeps. Qed.

Lemma keeps_advance stored ended : keeps (advance stored ended).
Proof.
  unfold advance, advance_node, upsert_applied, delete_applied. pose proof keeps_saved_at.
  solve_keeps.
Qed.

Lemma keeps_still_running members : keeps (still_running members).
Proof.
  pose proof keeps_on_servers. induction members as [|member members IH]; simpl; solve_keeps.
Qed.

Lemma keeps_guard_removal environment : keeps (guard_removal environment).
Proof.
  unfold guard_removal, project_row, members_of. pose proof keeps_still_running. solve_keeps.
Qed.

Lemma keeps_fix_storage environment intent nodes : keeps (fix_storage environment intent nodes).
Proof. unfold fix_storage, fix_volume, check_volume. solve_keeps. Qed.

Lemma keeps_save_receipt environment service receipt : keeps (save_receipt environment service receipt).
Proof. unfold save_receipt. solve_keeps. Qed.

Lemma keeps_record_build stored service status message log :
  keeps (record_build stored service status message log).
Proof. unfold record_build, uploads_of. pose proof keeps_saved_at. solve_keeps. Qed.

Lemma keeps_hand_over stored : keeps (hand_over_claim stored).
Proof.
  unfold hand_over_claim. apply keeps_bind; [|solve_keeps].
  intros st y st' H'. by apply result_bind_Ok in H' as (? & _ & [= <- <-]).
Qed.
End Reading.

#[export] Hint Resolve keeps_load keeps_owned keeps_locked keeps_on_servers keeps_saved_at
  keeps_documents keeps_running keeps_advance keeps_guard_removal keeps_fix_storage
  keeps_save_receipt keeps_record_build keeps_hand_over : keeps.

(** ** Reading a row and saving it *)

Section Saving.
Context `{Neighbours}.

(** What was loaded shows the row, unless its runner is gone: then it shows unknown. *)
Record views (row : DeploymentRow) (loaded : Stored) : Prop := {
  views_as : loaded = with_lease (read_row row loaded.(summary).(ds_status)) loaded.(st_lease);
  views_status : loaded.(summary).(ds_status) = row.(d_status)
                 ∨ is_claimed row.(d_status) = true ∧ loaded.(summary).(ds_status) = StatusUnknown
}.

Lemma stored_views row st loaded st' : stored row st = Ok (loaded, st') → views row loaded.
Proof.
  unfold stored, lapsed. intros (gone & st1 & Hg & [= <- <-])%tx_bind_Ok.
  destruct (is_claimed (d_status row)) eqn:Hc.
  - destruct gone; split; simpl; auto.
  - injection Hg as <- <-. split; simpl; auto.
Qed.

Lemma load_views id st loaded st' :
  load id st = Ok (loaded, st') →
  ∃ row, row ∈ st.(deployments) ∧ row.(d_id) = id ∧ views row loaded.
Proof.
  unfold load. intros (rows & st1 & [= <- <-] & Hl)%tx_bind_Ok.
  destruct (List.filter _ _) as [|row rows] eqn:Hf; simpl in Hl; [discriminate|].
  exists row. assert (row ∈ List.filter (with_id id) st.(deployments)) as Hr by (rewrite Hf; set_solver).
  apply list_elem_of_In, filter_In in Hr as [Hr Hi]. apply String.eqb_eq in Hi.
  split_and!; [by apply list_elem_of_In|done|by eapply stored_views].
Qed.

Lemma locked_views id st loaded st' :
  locked id st = Ok (loaded, st') →
  st'.(deployments) = st.(deployments)
  ∧ ∃ row, row ∈ st.(deployments) ∧ row.(d_id) = id ∧ views row loaded.
Proof.
  intros Hl. split; [by eapply keeps_locked|].
  unfold locked in Hl. apply tx_bind_Ok in Hl as (? & st1 & H1 & H2).
  rewrite <-(keeps_load _ _ _ _ H1). by eapply load_views.
Qed.

Lemma renewed_views row loaded st loaded' st' :
  renewed loaded st = Ok (loaded', st') → views row loaded →
  st'.(deployments) = st.(deployments) ∧ views row loaded'
  ∧ loaded'.(summary) = loaded.(summary).
Proof.
  unfold renewed. intros Hr [Hv Hs]. destruct (is_claimed _).
  - injection Hr as <- <-. simpl. split_and!; [done| |done]. split; simpl; [by rewrite Hv|done].
  - injection Hr as <- <-. done.
Qed.

(** Only the row shown changes. *)
Lemma save_deployments loaded st s st' :
  save loaded st = Ok (s, st') →
  st'.(deployments) = map (λ row, if with_id loaded.(summary).(ds_id) row
                                  then with_saved_columns loaded row else row) st.(deployments).
Proof. by intros (? & ? & [= <- <-] & [= <- <-])%tx_bind_Ok. Qed.

Lemma saved_frozen loaded row : same_frozen row (with_saved_columns loaded row).
Proof. by split. Qed.

Lemma with_status_frozen status row : same_frozen row (with_status status row).
Proof. by split. Qed.

Lemma update_moves condition (f : DeploymentRow → DeploymentRow) rows :
  (∀ row, row ∈ rows → condition row = true → same_frozen row (f row) ∧ row_move row (f row)) →
  Forall2 may_move rows (map (λ row, if condition row then f row else row) rows).
Proof.
  intros Hm. induction rows as [|row rows IH]; simpl; constructor.
  - destruct (condition row) eqn:Hc; [|by left]. right. apply Hm; [set_solver|done].
  - apply IH. intros other Ho. apply Hm. set_solver.
Qed.

Lemma save_step loaded row st s st' :
  save loaded st = Ok (s, st') → consistent st.(deployments) → row ∈ st.(deployments) →
  loaded.(summary).(ds_id) = row.(d_id) → row_move row (with_saved_columns loaded row) →
  rtc db_step st.(deployments) st'.(deployments).
Proof.
  intros Hs Hok Hrow Hid Hm. rewrite (save_deployments _ _ _ _ Hs). apply rtc_once, db_moved.
  apply update_moves. intros other Ho Hi%String.eqb_eq.
  replace other with row by (eapply same_id_unique; [apply Hok|..]; congruence).
  auto using saved_frozen.
Qed.
End Saving.

(** ** Recording *)

Lemma evidence_grows_refl run outcome : evidence_grows run (run_ended run outcome).
Proof. by split. Qed.

Lemma fold_binsert_keep (entries : list (string * NodeStatus)) next n status :
  (∀ entry, entry ∈ entries → entry.1 = n → entry.2 = status) →
  (n, status) ∈ entries ∨ bget next n = Some status →
  bget (fold_left (λ next entry, binsert entry.1 entry.2 next) entries next) n = Some status.
Proof.
  revert next. induction entries as [|[k v] entries IH]; simpl; intros next Hsame Hin.
  - destruct Hin as [Hin|Hin]; [set_solver|done].
  - apply IH; [intros entry He; apply Hsame; set_solver|]. rewrite bget_binsert. simpl.
    destruct (decide (k = n)) as [->|Hne].
    + right. f_equal. apply (Hsame (n, v)); set_solver.
    + rewrite elem_of_cons in Hin. destruct Hin as [[?|Hin]|Hin]; [congruence|by left|by right].
Qed.

Lemma keep_advanced_keeps prior next n status :
  bwf prior → bget prior n = Some status → advances status = true →
  bget (keep_advanced prior next) n = Some status.
Proof.
  intros Hwf Hn Ha. apply fold_binsert_keep.
  - intros [k v] [Hin _]%list_elem_of_In%filter_In Hk. simpl in Hk. subst.
    apply list_elem_of_In, (bget_Some _ _ _ Hwf) in Hin. simpl. congruence.
  - left. apply list_elem_of_In, filter_In. split; [|done].
    apply list_elem_of_In. by apply bget_Some.
Qed.

Lemma keep_advanced_wf prior next : bwf next → bwf (keep_advanced prior next).
Proof. apply bwf_fold_binsert. Qed.

Lemma node_outcomes_wf nodes saved applied evidence :
  bwf (node_outcomes nodes saved applied evidence).
Proof. apply bwf_bcollect. Qed.

Lemma settled_wf nodes saved applied preview confirmed :
  bwf (settled nodes saved applied preview confirmed).
Proof. apply bwf_filter, node_outcomes_wf. Qed.

Lemma kept_grows (before after : Run) next :
  is_Some before.(run_preview) → bwf before.(run_nodes) → bwf next →
  after.(run_preview) = before.(run_preview) →
  after.(run_nodes) = keep_advanced before.(run_nodes) next → evidence_grows before after.
Proof.
  intros [p Hp] Hwf Hnext Ep En. split; rewrite ?Ep, ?En; try done.
  - intros. by apply keep_advanced_keeps.
  - by rewrite Hp.
  - intros _. by apply keep_advanced_wf.
Qed.

Section Recording.
Context `{Neighbours}.
Implicit Types (row : DeploymentRow) (loaded : Stored).

Lemma views_inv row loaded :
  views row loaded → ∃ status lease, loaded = with_lease (read_row row status) lease
    ∧ (status = row.(d_status) ∨ is_claimed row.(d_status) = true ∧ status = StatusUnknown).
Proof. intros [Hv Hs]. eauto. Qed.

Lemma running_claimed row loaded st x st' :
  require_running loaded st = Ok (x, st') → views row loaded →
  loaded.(summary).(ds_status) = row.(d_status) ∧ is_claimed row.(d_status) = true ∧ st' = st.
Proof.
  intros Hr (status & lease & -> & Hs)%views_inv. unfold require_running in Hr. simpl in *.
  destruct Hs as [->|[_ ->]]; [|discriminate]. destruct (d_status row); try discriminate Hr; by injection Hr as <- <-.
Qed.

(** The loaded Deployment with its evidence and status replaced, saved. *)
Lemma saved_evidence row loaded run lease :
  views row loaded → loaded.(summary).(ds_status) = row.(d_status) →
  is_claimed row.(d_status) = true → evidence_grows row.(d_run) run →
  run.(run_outcome) = row.(d_run).(run_outcome) →
  row_move row (with_saved_columns (with_lease (with_run loaded run) lease) row).
Proof.
  intros (status & ? & -> & _)%views_inv. simpl. intros -> Hc Hg Ho.
  by apply move_recorded; simpl.
Qed.

Lemma ended_move row loaded run outcome status t :
  views row loaded → loaded.(summary).(ds_status) = row.(d_status) →
  is_claimed row.(d_status) = true → row.(d_run).(run_outcome) = None →
  status = StatusApplied ∨ status = StatusFailed → evidence_grows row.(d_run) run →
  row_move row (with_saved_columns
    (with_run (with_summary loaded (set_ended (set_status_of loaded.(summary)
       (ending_status loaded.(summary).(ds_status) status)) t (Some outcome)))
       (run_ended run outcome)) row).
Proof.
  intros (? & ? & -> & _)%views_inv. simpl. intros -> Hc Hn Hst [].
  eapply (move_ended _ _ outcome t); simpl; try done.
  destruct Hst as [-> | ->], (d_status row); try discriminate; simpl; auto.
Qed.

Lemma finish_step row loaded run outcome status st s st' :
  finish_deployment (with_run loaded run) outcome status st = Ok (s, st') →
  consistent st.(deployments) → row ∈ st.(deployments) → views row loaded →
  run.(run_outcome) = loaded.(st_run).(run_outcome) → evidence_grows row.(d_run) run →
  status = StatusApplied ∨ status = StatusFailed →
  rtc db_step st.(deployments) st'.(deployments).
Proof.
  unfold finish_deployment. cbn [st_run with_run]. intros Hf Hok Hrow Hv Ho Hg Hst.
  destruct (run_outcome run) as [recorded|] eqn:Hr.
  { case_bool_decide; [|discriminate]. by injection Hf as <- <-. }
  change (require_running (with_run loaded run)) with (require_running loaded) in Hf.
  apply tx_bind_Ok in Hf as (? & ? & Hrun & Hf).
  destruct (running_claimed _ _ _ _ _ Hrun Hv) as (Hs & Hc & ->).
  apply tx_bind_Ok in Hf as (? & st1 & Ha%keeps_advance & Hf).
  apply tx_bind_Ok in Hf as (t & st2 & Ht%keeps_now & Hf).
  assert (st2.(deployments) = st.(deployments)) as Hd by congruence.
  rewrite <-Hd in *. eapply save_step; [exact Hf|done..| |].
  - destruct (views_inv _ _ Hv) as (? & ? & -> & _). done.
  - apply (ended_move row loaded); [done..| |done|done].
    destruct (views_inv _ _ Hv) as (? & ? & -> & _). simpl in Ho. congruence.
Qed.

(** The Deployment a table holds under what was loaded. *)
Definition shows (rows : list DeploymentRow) (loaded : Stored) : Prop :=
  consistent rows ∧ ∃ row, row ∈ rows ∧ views row loaded.

Lemma shows_running rows loaded st x st' :
  require_running loaded st = Ok (x, st') → shows rows loaded →
  st' = st ∧ ∃ row, row ∈ rows ∧ row_ok row ∧ views row loaded
    ∧ loaded.(summary).(ds_status) = row.(d_status) ∧ is_claimed row.(d_status) = true
    ∧ loaded.(st_run) = row.(d_run) ∧ loaded.(summary).(ds_id) = row.(d_id).
Proof.
  intros Hr (Hok & row & Hrow & Hv). destruct (running_claimed _ _ _ _ _ Hr Hv) as (Hs & Hc & ->).
  split; [done|]. exists row. split_and!; try done.
  - by apply (proj1 (Forall_forall _ _) (rows_ok _ Hok)).
  - destruct (views_inv _ _ Hv) as (? & ? & -> & _). done.
  - destruct (views_inv _ _ Hv) as (? & ? & -> & _). done.
Qed.

Lemma save_recorded row loaded run st s st' :
  save (with_run loaded run) st = Ok (s, st') → consistent st.(deployments) →
  row ∈ st.(deployments) → views row loaded → loaded.(summary).(ds_status) = row.(d_status) →
  is_claimed row.(d_status) = true → evidence_grows row.(d_run) run →
  run.(run_outcome) = row.(d_run).(run_outcome) →
  rtc db_step st.(deployments) st'.(deployments).
Proof.
  intros Hs Hok Hrow Hv Hst Hc Hg Ho. eapply save_step; [exact Hs|done..| |].
  - destruct (views_inv _ _ Hv) as (? & ? & -> & _). done.
  - apply (saved_evidence row loaded run loaded.(st_lease)); done.
Qed.

Lemma saved_evidence_same loaded : with_run loaded loaded.(st_run) = loaded.
Proof. by destruct loaded. Qed.

Lemma evidence_same run : evidence_grows run run.
Proof. by split. Qed.

Lemma alive_step loaded st s st' :
  (run@ require_running loaded in save loaded) st = Ok (s, st') → shows st.(deployments) loaded →
  rtc db_step st.(deployments) st'.(deployments).
Proof.
  intros (? & ? & Hr & Hs)%tx_bind_Ok Hsh. pose proof Hsh as [Hok _].
  destruct (shows_running _ _ _ _ _ Hr Hsh) as (-> & row & Hrow & _ & Hv & Hst & Hc & Hrun & _).
  rewrite <-(saved_evidence_same loaded) in Hs.
  eapply save_recorded; [exact Hs|done..| |]; rewrite Hrun; [apply evidence_same|done].
Qed.

Lemma prepared_step id loaded preview st s st' :
  record_prepared id loaded preview st = Ok (s, st') → shows st.(deployments) loaded →
  rtc db_step st.(deployments) st'.(deployments).
Proof.
  unfold record_prepared. intros Hp Hsh. pose proof Hsh as [Hok _].
  destruct (redact_preview preview) as [redacted|[|]]; [|discriminate..].
  destruct (run_preview (st_run loaded)) as [recorded|] eqn:Hpre.
  { case_bool_decide; [|discriminate]. by injection Hp as <- <-. }
  apply tx_bind_Ok in Hp as (? & ? & Hr & Hp).
  destruct (shows_running _ _ _ _ _ Hr Hsh) as (-> & row & Hrow & Hro & Hv & Hst & Hc & Hrun & _).
  apply tx_bind_Ok in Hp as ([saved applied] & st1 & Hd%keeps_documents & Hp).
  rewrite <-Hd in *. rewrite Hrun in *.
  eapply save_recorded; [exact Hp|done..| |done]. split; simpl; try done.
  - by rewrite Hpre.
  - intros n status Hn Ha. rewrite (ok_nodes _ Hro Hpre n status Hn) in Ha. discriminate.
  - intros _. apply settled_wf.
Qed.

Lemma confirmed_step id loaded services st s st' :
  record_confirmed id loaded services st = Ok (s, st') → shows st.(deployments) loaded →
  rtc db_step st.(deployments) st'.(deployments).
Proof.
  intros (? & ? & Hr & Hc)%tx_bind_Ok Hsh. pose proof Hsh as [Hok _].
  destruct (shows_running _ _ _ _ _ Hr Hsh) as (-> & row & Hrow & Hro & Hv & Hst & Hcl & Hrun & _).
  rewrite Hrun in *. destruct (run_preview (d_run row)) as [preview|] eqn:Hpre; [|discriminate].
  destruct (run_outcome (d_run row)) eqn:Hout; [discriminate|].
  apply tx_bind_Ok in Hc as ([saved applied] & st1 & Hd%keeps_documents & Hc).
  apply tx_bind_Ok in Hc as (? & st2 & Ha%keeps_advance & Hc).
  assert (st2.(deployments) = st.(deployments)) as Hd2 by congruence.
  rewrite <-Hd2 in *. eapply save_recorded; [exact Hc|done..| |by simpl].
  eapply kept_grows; [by rewrite Hpre|apply Hro|apply settled_wf|done|done].
Qed.

Lemma executed_step id loaded outcome removed st s st' :
  record_executed id loaded outcome removed st = Ok (s, st') → shows st.(deployments) loaded →
  rtc db_step st.(deployments) st'.(deployments).
Proof.
  unfold record_executed. intros He (Hok & row & Hrow & Hv).
  destruct (run_outcome (st_run loaded)) eqn:Hout.
  { case_bool_decide; [|discriminate]. by injection He as <- <-. }
  destruct (run_preview (st_run loaded)) as [preview|] eqn:Hpre; [|discriminate].
  destruct (project_evidence _ _) as [projection|[|]]; [|discriminate..].
  apply tx_bind_Ok in He as ([saved applied] & st1 & Hd%keeps_documents & He).
  assert (st_run loaded = d_run row) as Hrun by (by destruct (views_inv _ _ Hv) as (? & ? & -> & _)).
  rewrite <-Hd in *. eapply finish_step; [exact He|done..| |].
  - rewrite Hrun in *. eapply kept_grows; [by rewrite Hpre| |apply node_outcomes_wf|done|done].
    by apply (proj1 (Forall_forall _ _) (rows_ok _ Hok)).
  - unfold executed_status. destruct (_ && _); auto.
Qed.

Lemma finished_step loaded outcome status st s st' :
  finish_deployment loaded outcome status st = Ok (s, st') → shows st.(deployments) loaded →
  status = StatusApplied ∨ status = StatusFailed →
  rtc db_step st.(deployments) st'.(deployments).
Proof.
  intros Hf (Hok & row & Hrow & Hv) Hst. rewrite <-(saved_evidence_same loaded) in Hf.
  eapply finish_step; [exact Hf|done..| |done].
  destruct (views_inv _ _ Hv) as (? & ? & -> & _). apply evidence_same.
Qed.

Lemma lost_step loaded st s st' :
  save (with_summary loaded (set_status_of loaded.(summary) StatusUnknown)) st = Ok (s, st') →
  shows st.(deployments) loaded → is_claimed loaded.(summary).(ds_status) = true →
  rtc db_step st.(deployments) st'.(deployments).
Proof.
  intros Hs (Hok & row & Hrow & Hv) Hc. eapply save_step; [exact Hs|done..| |];
    destruct (views_inv _ _ Hv) as (status & ? & -> & Hst); [done|].
  apply move_lost; [|done..]. simpl in Hc. destruct Hst as [<-|[? _]]; done.
Qed.

Lemma abandoned_step loaded st s st' :
  record_abandoned loaded st = Ok (s, st') → shows st.(deployments) loaded →
  rtc db_step st.(deployments) st'.(deployments).
Proof.
  unfold record_abandoned. intros Ha Hsh. destruct (_ || _); [by injection Ha as <- <-|].
  apply tx_bind_Ok in Ha as (? & ? & Hr & Ha). destruct (run_preview _).
  - destruct (shows_running _ _ _ _ _ Hr Hsh) as (-> & row & ? & ? & ? & Hst & Hc & _).
    eapply lost_step; [exact Ha|done|]. by rewrite Hst.
  - destruct (shows_running _ _ _ _ _ Hr Hsh) as (-> & _). eapply finished_step; eauto.
Qed.

Lemma record_evidence_step id loaded evidence st s st' :
  record_evidence id loaded evidence st = Ok (s, st') → shows st.(deployments) loaded →
  rtc db_step st.(deployments) st'.(deployments).
Proof.
  destruct evidence; simpl; intros Hr Hsh.
  - by eapply prepared_step.
  - by eapply confirmed_step.
  - by eapply executed_step.
  - eapply finished_step; eauto.
  - by eapply abandoned_step.
  - replace (deployments st') with (deployments st); [done|].
    symmetry. eapply (keeps_bind _ _ (keeps_running loaded)); [|exact Hr]. intros []. solve_keeps.
  - replace (deployments st') with (deployments st); [done|].
    symmetry. eapply (keeps_bind _ _ (keeps_running loaded)); [|exact Hr]. intros []. solve_keeps.
  - eapply finished_step; eauto.
  - by eapply alive_step.
Qed.

Lemma record_step id runner evidence st s st' :
  record id runner evidence st = Ok (s, st') → consistent st.(deployments) →
  rtc db_step st.(deployments) st'.(deployments).
Proof.
  intros Hr Hok. apply tx_bind_Ok in Hr as (? & st1 & H1%keeps_load & Hr).
  apply tx_bind_Ok in Hr as (loaded & st2 & (H2 & row & Hrow & _ & Hv)%locked_views & Hr).
  destruct (negb _); [discriminate|].
  apply tx_bind_Ok in Hr as (loaded' & st3 & H3 & Hr).
  destruct (renewed_views _ _ _ _ _ H3 Hv) as (H3' & Hv' & _).
  rewrite H1 in *. assert (st3.(deployments) = st.(deployments)) as Hd by congruence.
  rewrite <-Hd in *. eapply record_evidence_step; [exact Hr|]. split; eauto.
Qed.
End Recording.

(** ** Claiming, cancelling, admitting *)

Section Operations.
Context `{Neighbours}.
Implicit Types (row : DeploymentRow) (loaded : Stored) (st : Store).

(** The row an identity names is queued. *)
Definition holds_queued (rows : list DeploymentRow) (id : DeploymentId) : Prop :=
  ∃ row, row ∈ rows ∧ row.(d_id) = id ∧ row.(d_status) = StatusQueued.

Lemma queued_view row loaded :
  views row loaded → loaded.(summary).(ds_status) = StatusQueued → row.(d_status) = StatusQueued.
Proof. intros (status & ? & -> & [->|[_ ->]])%views_inv; [done|discriminate]. Qed.

Lemma update_step condition f st x st' :
  update_where condition f st = Ok (x, st') →
  (∀ row, row ∈ st.(deployments) → condition row = true →
     same_frozen row (f row) ∧ row_move row (f row)) →
  db_step st.(deployments) st'.(deployments).
Proof. intros [= <- <-] Hm. by apply db_moved, update_moves. Qed.

Lemma update_elsewhere id (f : DeploymentRow → DeploymentRow) rows :
  id ∉ map d_id rows → map (λ row, if with_id id row then f row else row) rows = rows.
Proof.
  induction rows as [|row rows IH]; simpl; [done|]. rewrite elem_of_cons. intros Hn.
  rewrite IH by tauto. unfold with_id. destruct (String.eqb_spec (d_id row) id); [|done].
  subst. tauto.
Qed.

Lemma update_at (f : DeploymentRow → DeploymentRow) before row after :
  NoDup (map d_id (before ++ row :: after)) →
  map (λ other, if with_id row.(d_id) other then f other else other) (before ++ row :: after)
  = before ++ f row :: after.
Proof.
  rewrite !map_app. simpl. intros (_ & Hb & [Ha _]%NoDup_cons)%NoDup_app.
  rewrite !update_elsewhere; [|done|intros Hin; apply (Hb _ Hin); set_solver].
  unfold with_id. by rewrite String.eqb_refl.
Qed.

Lemma claim_queued_step row loaded runner started lease st x st1 st2 s st' :
  views row loaded → row ∈ st.(deployments) → row.(d_status) = StatusQueued →
  consistent st.(deployments) →
  update_where (λ other, in_environment loaded.(summary).(ds_environment_id) other
                         && is_claimed other.(d_status)) (with_status StatusUnknown) st = Ok (x, st1) →
  st2.(deployments) = st1.(deployments) →
  save (with_lease (with_summary loaded (set_started loaded.(summary) runner started)) lease) st2
    = Ok (s, st') →
  rtc db_step st.(deployments) st'.(deployments).
Proof.
  intros (status & l & -> & _)%views_inv Hrow Hq Hok Hu Hkeep Hs.
  assert (db_step st.(deployments) st1.(deployments)) as Hstep.
  { eapply update_step; [exact Hu|]. intros other _ [_ Hc]%andb_true_iff.
    split; [apply with_status_frozen|]. by apply move_lost. }
  eapply rtc_l; [exact Hstep|]. apply rtc_once.
  pose proof (db_step_consistent _ _ Hstep Hok) as Hok1.
  rewrite (save_deployments _ _ _ _ Hs), Hkeep. injection Hu as <- <-.
  cbn [deployments set_deployments] in *.
  assert (row ∈ map (λ other, if in_environment (d_environment row) other
      && is_claimed (d_status other) then with_status StatusUnknown other else other)
      st.(deployments)) as Hrow1.
  { apply list_elem_of_fmap. exists row. split; [|done]. by rewrite Hq, andb_false_r. }
  apply list_elem_of_split in Hrow1 as (before & after & Hsplit).
  cbn [summary with_lease with_summary read_row set_started ds_id ds_environment_id] in *.
  pose proof Hsplit as Hsplit'. rewrite Hsplit in *.
  rewrite update_at by apply Hok1. eapply db_claimed; [done|apply saved_frozen|by split|].
  intros other Ho Henv. rewrite <-Hsplit in Ho. apply list_elem_of_fmap in Ho as (old & -> & _).
  destruct (in_environment (d_environment row) old && is_claimed (d_status old)) eqn:Hc; [done|].
  apply andb_false_iff in Hc as [Hc|Hc]; [|done].
  unfold in_environment in Hc. by rewrite Henv, String.eqb_refl in Hc.
Qed.

Lemma claim_step id runner st r st' :
  claim id runner st = Ok (r, st') → consistent st.(deployments) →
  rtc db_step st.(deployments) st'.(deployments).
Proof.
  intros (loaded & st1 & (Hd & row & Hrow & Hid & Hv)%locked_views & Hc)%tx_bind_Ok Hok.
  rewrite <-Hd in *. assert (shows st1.(deployments) loaded) as Hsh by (split; eauto).
  destruct (ds_status (summary loaded)) eqn:Hst; try (by injection Hc as <- <-).
  1: { apply tx_bind_Ok in Hc as (x & st2 & Hu & Hc).
    apply tx_bind_Ok in Hc as (started & st3 & Hn%keeps_now & Hc).
    apply tx_bind_Ok in Hc as (s & st4 & Hs & Hc%keeps_hand_over). rewrite Hc.
    eapply claim_queued_step; [exact Hv|done| |done|exact Hu|exact Hn|exact Hs].
    by eapply queued_view. }
  all: case_bool_decide as Hr; [|by injection Hc as <- <-].
  all: destruct (run_preview (st_run loaded)).
  all: try (apply tx_bind_Ok in Hc as (s & st2 & Hs & Hc); injection Hc as <- <-;
            eapply lost_step; [exact Hs|done|by rewrite Hst]).
  all: apply tx_bind_Ok in Hc as (t & st2 & Hn%keeps_now & Hc);
    apply tx_bind_Ok in Hc as (s & st3 & Hs & Hc%keeps_hand_over); rewrite Hc;
    rewrite <-Hn in *; destruct (views_inv _ _ Hv) as (status & l & -> & Hstat); simpl in Hst;
    subst status; destruct Hstat as [Hstat|[_ [=]]];
    (eapply (save_recorded row (with_lease (read_row row row.(d_status)) _) row.(d_run));
      [rewrite <-Hstat; exact Hs|done|done| |done|by rewrite <-Hstat|apply evidence_same|done]);
    split; [done|by left].
Qed.
End Operations.

Section Cancelling.
Context `{Neighbours}.
Implicit Types (row : DeploymentRow) (loaded : Stored) (st : Store).

Lemma cancelled_move row loaded t :
  views row loaded → status_in_flight row.(d_status) = true →
  row_move row (with_saved_columns
    (with_summary loaded (set_ended (set_status_of loaded.(summary) StatusCancelled) t
       loaded.(summary).(ds_outcome))) row).
Proof.
  intros (? & ? & -> & _)%views_inv Hf. destruct (d_status row) eqn:Hs; try discriminate.
  - by eapply (move_cancelled_early _ _ t).
  - eapply (move_cancelled_in_flight _ _ t); simpl; try done. by rewrite Hs.
  - eapply (move_cancelled_in_flight _ _ t); simpl; try done. by rewrite Hs.
Qed.

Lemma cancel_step who id st s st' :
  cancel who id st = Ok (s, st') → consistent st.(deployments) →
  rtc db_step st.(deployments) st'.(deployments).
Proof.
  intros (? & st1 & H1%keeps_owned & Hc)%tx_bind_Ok Hok.
  apply tx_bind_Ok in Hc as (loaded & st2 & (H2 & row & Hrow & Hid & Hv)%locked_views & Hc).
  rewrite <-H1 in *. rewrite <-H2 in *.
  assert (ds_id (summary loaded) = d_id row) as Hids
    by (by destruct (views_inv _ _ Hv) as (? & ? & -> & _)).
  cbv zeta in Hc. destruct (ds_status (summary loaded)) eqn:Hst; try discriminate;
    try (by injection Hc as <- <-).
  - apply tx_bind_Ok in Hc as (t & st3 & Hn%keeps_now & Hc). rewrite <-Hn in *.
    eapply save_step; [exact Hc|done..|]. apply cancelled_move; [done|].
    by rewrite (queued_view _ _ Hv Hst).
  - eapply save_step; [exact Hc|done..|].
    destruct (views_inv _ _ Hv) as (? & ? & -> & [->|[_ ->]]); [|discriminate]. by apply move_cancelling.
Qed.

(** The row an identity names is in flight. *)
Definition holds_in_flight (rows : list DeploymentRow) (id : DeploymentId) : Prop :=
  ∃ row, row ∈ rows ∧ row.(d_id) = id ∧ status_in_flight row.(d_status) = true.

Lemma save_elsewhere loaded st s st' row :
  save loaded st = Ok (s, st') → row ∈ st.(deployments) → row.(d_id) ≠ loaded.(summary).(ds_id) →
  row ∈ st'.(deployments).
Proof.
  intros Hs Hrow Hne. rewrite (save_deployments _ _ _ _ Hs). apply list_elem_of_fmap.
  exists row. split; [|done]. unfold with_id. rewrite (proj2 (String.eqb_neq _ _) Hne). done.
Qed.

Lemma cancel_one_step id st x st' :
  cancel_one id st = Ok (x, st') → consistent st.(deployments) →
  holds_in_flight st.(deployments) id →
  rtc db_step st.(deployments) st'.(deployments)
  ∧ ∀ other, other ≠ id → holds_in_flight st.(deployments) other →
      holds_in_flight st'.(deployments) other.
Proof.
  intros (loaded & st1 & Hl & Hc)%tx_bind_Ok Hok (row' & Hrow' & Hid' & Hf).
  destruct (load_views _ _ _ _ Hl) as (row & Hrow & Hid & Hv). apply keeps_load in Hl.
  assert (row' = row) as -> by (eapply same_id_unique; [apply Hok|..]; congruence).
  apply tx_bind_Ok in Hc as (t & st2 & Hn%keeps_now & Hc).
  apply tx_bind_Ok in Hc as (s & st3 & Hs & Hc). injection Hc as <- <-.
  assert (ds_id (summary loaded) = d_id row) as Hids
    by (by destruct (views_inv _ _ Hv) as (? & ? & -> & _)).
  assert (st2.(deployments) = st.(deployments)) as Hd by congruence. rewrite <-Hd in *. split.
  - eapply save_step; [exact Hs|done..|]. by apply cancelled_move.
  - intros other Hne (o & Ho & Hoid & Hof). exists o. split_and!; [|done..].
    eapply save_elsewhere; [exact Hs|done|]. simpl. congruence.
Qed.

Lemma cancel_each_step ids st x st' :
  tx_each ids cancel_one st = Ok (x, st') → consistent st.(deployments) → NoDup ids →
  (∀ id, id ∈ ids → holds_in_flight st.(deployments) id) →
  rtc db_step st.(deployments) st'.(deployments).
Proof.
  revert st x. induction ids as [|id ids IH]; simpl; intros st x He Hok Hnd Hall.
  - by injection He as <- <-.
  - apply NoDup_cons in Hnd as [Hn Hnd]. apply tx_bind_Ok in He as (? & st1 & H1 & He).
    destruct (cancel_one_step _ _ _ _ H1 Hok) as [Hsteps Hrest]; [apply Hall; set_solver|].
    etrans; [exact Hsteps|]. eapply IH; [exact He|by eapply db_steps_consistent|done|].
    intros other Ho. apply Hrest; [set_solver|apply Hall; set_solver].
Qed.

Lemma cancel_in_flight_step who st ids st' :
  cancel_in_flight who st = Ok (ids, st') → consistent st.(deployments) →
  rtc db_step st.(deployments) st'.(deployments).
Proof.
  intros (t & st1 & Hn%keeps_now & Hc)%tx_bind_Ok Hok. rewrite <-Hn in *.
  apply tx_bind_Ok in Hc as (ids' & st2 & Hg & Hc). injection Hg as <- <-.
  apply tx_bind_Ok in Hc as (? & st3 & He & Hc). injection Hc as <- <-.
  eapply cancel_each_step; [exact He|done|..].
  - eapply NoDup_Permutation_proper; [apply Permutation_map, stable_sort_perm|].
    apply NoDup_map_filter, Hok.
  - intros id (row & -> & Hrow%elem_of_stable_sort)%list_elem_of_fmap.
    apply list_elem_of_In, filter_In in Hrow as [Hrow [_ Hf]%andb_true_iff].
    exists row. split_and!; [by apply list_elem_of_In|done|].
    unfold in_flight_at in Hf. by destruct (d_status row).
Qed.
End Cancelling.

Section Admitting.
Context `{Neighbours}.
Implicit Types (row : DeploymentRow) (loaded : Stored) (st : Store).

(** The rows of an Environment are all older than [number] and none waits. *)
Definition next_number (rows : list DeploymentRow) (environment : EnvironmentId) (number : N) : Prop :=
  (0 < number)%N
  ∧ ∀ row, row ∈ rows → row.(d_environment) = environment →
      (row.(d_number) < number)%N ∧ row.(d_status) ≠ StatusQueued.

Lemma max_above (numbers : list N) n : n ∈ numbers → (n ≤ foldr N.max 0 numbers)%N.
Proof. induction numbers as [|m numbers IH]; simpl; [set_solver|]. intros [->|?%IH]%elem_of_cons; lia. Qed.

Lemma queue_step environment st number st' :
  queue environment st = Ok (number, st') →
  db_step st.(deployments) st'.(deployments) ∧ next_number st'.(deployments) environment number.
Proof.
  intros (? & st1 & Hu & Hq)%tx_bind_Ok. apply tx_bind_Ok in Hq as (numbers & st2 & Hg & Hq).
  injection Hg as <- <-. injection Hq as <- <-. split.
  - eapply update_step; [exact Hu|]. intros row _ [_ Hs%bool_decide_eq_true]%andb_true_iff.
    split; [apply with_status_frozen|]. by apply move_superseded.
  - split; [lia|]. intros row Hrow Henv. split.
    + assert (d_number row ≤ foldr N.max 0 (map d_number
        (List.filter (in_environment environment) st1.(deployments))))%N; [|lia].
      apply max_above, list_elem_of_fmap_2, list_elem_of_In, filter_In.
      split; [by apply list_elem_of_In|]. by apply String.eqb_eq.
    + injection Hu as <- <-. simpl in Hrow. apply list_elem_of_fmap in Hrow as (old & -> & _).
      destruct (in_environment environment old && bool_decide (d_status old = StatusQueued)) eqn:Hc;
        [done|]. intros Hs. apply andb_false_iff in Hc as [Hc|Hc%bool_decide_eq_false]; [|done].
      by apply String.eqb_neq in Hc.
Qed.

(** A row as admission makes it. *)
Record fresh (row : DeploymentRow) : Prop := {
  fresh_status : row.(d_status) = StatusQueued;
  fresh_run : row.(d_run) = Run_default;
  fresh_runner : row.(d_runner) = None;
  fresh_started : row.(d_started) = None;
  fresh_ended : row.(d_ended) = None
}.

Lemma insert_Ok row st x st' :
  insert_deployment row st = Ok (x, st') →
  (∀ other, other ∈ st.(deployments) → other.(d_id) ≠ row.(d_id))
  ∧ st'.(deployments) = st.(deployments) ++ [row].
Proof.
  unfold insert_deployment. destruct (existsb _ _) eqn:He; [discriminate|]. intros [= <- <-].
  split; [|done]. intros other Ho Hid.
  assert (existsb (λ old, String.eqb old.(d_id) row.(d_id)
      || (String.eqb old.(d_environment) row.(d_environment)
          && (old.(d_number) =? row.(d_number))%N)) st.(deployments) = true) as Hx; [|congruence].
  apply existsb_exists. exists other. split; [by apply list_elem_of_In|].
  by rewrite Hid, String.eqb_refl.
Qed.

Lemma insert_step row st x st' :
  insert_deployment row st = Ok (x, st') → fresh row →
  next_number st.(deployments) row.(d_environment) row.(d_number) →
  db_step st.(deployments) st'.(deployments) ∧ holds_queued st'.(deployments) row.(d_id).
Proof.
  intros [Hid ->]%insert_Ok [] [Hpos Hnew]. split; [by apply db_admitted|].
  exists row. split_and!; [set_solver|done..].
Qed.

Lemma keeps_message message : keeps (admitted_message message).
Proof. unfold admitted_message. solve_keeps. Qed.

(** The row is made and inserted under the next number. *)
Lemma queue_insert_step environment (make : option string → N → Z → DeploymentRow) id message
    st s st' :
  (let@ message := admitted_message message in
   let@ number := queue environment in
   let@ admitted_at := tx_now in
   run@ insert_deployment (make message number admitted_at) in
   tx_ret (read_row (make message number admitted_at) StatusQueued).(summary)) st = Ok (s, st') →
  (∀ message number t, fresh (make message number t) ∧ (make message number t).(d_id) = id
     ∧ (make message number t).(d_environment) = environment
     ∧ (make message number t).(d_number) = number) →
  rtc db_step st.(deployments) st'.(deployments) ∧ holds_queued st'.(deployments) id
  ∧ s.(ds_id) = id.
Proof.
  intros (text & st4 & H4%keeps_message & Hc)%tx_bind_Ok Hmake. rewrite <-H4 in *.
  apply tx_bind_Ok in Hc as (number & st5 & [Hstep Hnext]%queue_step & Hc).
  apply tx_bind_Ok in Hc as (t & st6 & H6%keeps_now & Hc).
  apply tx_bind_Ok in Hc as (? & st7 & H7 & Hc). injection Hc as <- <-. rewrite <-H6 in *.
  destruct (Hmake text number t) as (Hf & Hid & Henv & Hnum).
  destruct (insert_step _ _ _ _ H7) as [Hstep7 Hq]; [done|by rewrite Henv, Hnum|].
  rewrite Hid in Hq. split_and!; [by eapply rtc_l, rtc_once|done|done].
Qed.

Lemma admit_step who id services upload message environment saved frozen st s st' :
  admit_deployment who id services upload message environment saved frozen st = Ok (s, st') →
  rtc db_step st.(deployments) st'.(deployments) ∧ holds_queued st'.(deployments) id
  ∧ s.(ds_id) = id.
Proof.
  intros (intent & st1 & H1%keeps_saved_at & Ha)%tx_bind_Ok.
  apply tx_bind_Ok in Ha as (? & st2 & H2%keeps_fix_storage & Ha).
  apply tx_bind_Ok in Ha as (upload' & st3 & H3 & Ha).
  assert (st3.(deployments) = st2.(deployments)) as Hd3 by (destruct upload; by injection H3 as <- <-).
  replace (deployments st) with (deployments st3) by congruence.
  assert (∀ x : tx DeploymentSummary, (match upload', frozen_sourceless frozen with
                | None, name :: _ => tx_fail (NothingToRun name) | _, _ => x end) st3 = Ok (s, st') →
                x st3 = Ok (s, st')) as Hpass by (by destruct upload', (frozen_sourceless frozen)).
  apply Hpass in Ha. eapply queue_insert_step; [exact Ha|]. intros. by split_and!.
Qed.

(** The one row an identity names. *)
Lemma rows_with_id (rows : list DeploymentRow) row :
  NoDup (map d_id rows) → row ∈ rows → List.filter (with_id row.(d_id)) rows = [row].
Proof.
  intros Hnd (before & after & ->)%list_elem_of_split.
  assert (∀ l, d_id row ∉ map d_id l → List.filter (with_id (d_id row)) l = []) as Hnone.
  { induction l as [|o l IH]; simpl; [done|]. rewrite elem_of_cons. intros Hn. unfold with_id.
    destruct (String.eqb_spec (d_id o) (d_id row)) as [He|]; [rewrite He in Hn; tauto|].
    apply IH. tauto. }
  rewrite map_app in Hnd. apply NoDup_app in Hnd as (_ & Hb & [Ha _]%NoDup_cons).
  rewrite List.filter_app. simpl. unfold with_id at 2. rewrite String.eqb_refl.
  rewrite !Hnone; [done|done|]. intros Hin. apply (Hb _ Hin). set_solver.
Qed.

(** A Deployment another Organization owns is not found. *)
Lemma owned_of organization id st loaded st' :
  owned organization id st = Ok (loaded, st') → ∀ row, NoDup (map d_id st.(deployments)) →
  row ∈ st.(deployments) → row.(d_id) = id → row.(d_organization) = organization.
Proof.
  intros (rows & st1 & Hg & Ho)%tx_bind_Ok row Hnd Hrow Hid. injection Hg as <- <-.
  destruct (List.filter _ _) as [|other rest] eqn:Hf; [discriminate|].
  assert (other ∈ List.filter (λ row, with_id id row && String.eqb row.(d_organization) organization)
            st.(deployments)) as Hin by (rewrite Hf; set_solver).
  apply list_elem_of_In, filter_In in Hin
    as [Hin [Hi%String.eqb_eq Horg%String.eqb_eq]%andb_true_iff].
  replace row with other; [done|]. eapply same_id_unique; [done|by apply list_elem_of_In|done|congruence].
Qed.

(** What a retry finds, and the row it adds. *)
Record retries (who : Actor) (id source : DeploymentId) (rows rows' : list DeploymentRow) : Prop := {
  retried_rows : ∃ old mid old' number t,
    old ∈ rows ∧ old.(d_id) = source ∧ old.(d_organization) = who.(who_organization)
    ∧ (old.(d_status) = StatusFailed ∨ old.(d_status) = StatusUnknown
       ∨ old.(d_status) = StatusCancelled ∨ is_claimed old.(d_status) = true)
    ∧ (∀ other, other ∈ rows → other.(d_environment) = old.(d_environment) →
         other.(d_status) = StatusApplied → (other.(d_number) ≤ old.(d_number))%N)
    ∧ db_step rows mid ∧ old' ∈ mid ∧ same_frozen old old'
    ∧ next_number mid old.(d_environment) number
    ∧ (∀ other, other ∈ mid → other.(d_id) ≠ id)
    ∧ rows' = mid ++ [retried_row id number t who.(who_principal) old']
}.

Lemma retriable_Ok source loaded row st x st' :
  retriable source loaded.(summary).(ds_status) st = Ok (x, st') → views row loaded →
  st' = st
  ∧ (row.(d_status) = StatusFailed ∨ row.(d_status) = StatusUnknown
     ∨ row.(d_status) = StatusCancelled ∨ is_claimed row.(d_status) = true).
Proof.
  intros Hr (status & lease & -> & Hs)%views_inv. simpl in Hr.
  destruct status; try discriminate; injection Hr as <- <-; (split; [done|]);
    destruct Hs as [<-|[? _]]; auto.
Qed.

Lemma newer_applied_None environment number st st' :
  newer_applied environment number st = Ok (None, st') →
  st' = st ∧ ∀ other, other ∈ st.(deployments) → other.(d_environment) = environment →
    other.(d_status) = StatusApplied → (other.(d_number) ≤ number)%N.
Proof.
  unfold newer_applied. intros Hn. injection Hn as Hn <-. split; [done|].
  intros other Ho He Hs. destruct (N.le_gt_cases (d_number other) number) as [|Hlt]; [done|]. exfalso.
  destruct (List.filter _ _) as [|x l] eqn:Hf in Hn; [|discriminate].
  apply (not_elem_of_nil other). rewrite <-Hf. apply list_elem_of_In, filter_In.
  split; [by apply list_elem_of_In|]. unfold in_environment.
  by rewrite He, String.eqb_refl, Hs, (proj2 (N.ltb_lt _ _) Hlt).
Qed.

Lemma retry_spec who id source st s st' :
  retry who id source st = Ok (s, st') → consistent st.(deployments) →
  retries who id source st.(deployments) st'.(deployments) ∧ s.(ds_id) = id.
Proof.
  intros (? & st1 & H1 & Hr)%tx_bind_Ok Hok. pose proof (owned_of _ _ _ _ _ H1) as Howned.
  apply keeps_owned in H1. rewrite <-H1 in *.
  apply tx_bind_Ok in Hr as (loaded & st2 & (H2 & row & Hrow & Hid & Hv)%locked_views & Hr).
  specialize (Howned row (ids_unique _ Hok) Hrow Hid).
  rewrite <-H2 in *. apply tx_bind_Ok in Hr as (? & st3 & H3 & Hr).
  destruct (retriable_Ok _ _ _ _ _ _ H3 Hv) as [-> Hstatus].
  apply tx_bind_Ok in Hr as ([newer|] & st4 & H4 & Hr); [discriminate|].
  apply newer_applied_None in H4 as [-> Hnewer].
  apply tx_bind_Ok in Hr as (? & st5 & H5 & Hr).
  assert (st5.(deployments) = st2.(deployments)) as Hd.
  { destruct (ds_remove _); [|by injection H5 as <- <-].
    apply tx_bind_Ok in H5 as (? & st5' & H5 & H5'%keeps_guard_removal).
    rewrite H5'. revert H5. unfold environment_row.
    intros (? & ? & Hg%keeps_get & Ho%keeps_of)%tx_bind_Ok. congruence. }
  rewrite <-Hd in *. destruct (views_inv _ _ Hv) as (status & lease & -> & _). simpl in *.
  apply tx_bind_Ok in Hr as (number & st6 & [Hstep Hnext]%queue_step & Hr).
  apply tx_bind_Ok in Hr as (t & st7 & H7%keeps_now & Hr).
  apply tx_bind_Ok in Hr as (rows & st8 & H8 & Hr). injection H8 as <- <-. rewrite <-H7 in *.
  pose proof (db_step_consistent _ _ Hstep Hok) as Hok6.
  destruct (db_step_successor _ _ row Hstep Hrow) as (row' & Hrow' & Hf).
  rewrite <-Hid, <-(same_id _ _ Hf), rows_with_id in Hr by (done || apply Hok6).
  apply tx_bind_Ok in Hr as (? & st9 & H9 & Hr).
  apply tx_bind_Ok in H9 as (? & st10 & [Hnew Hins]%insert_Ok & H9). injection H9 as <- <-.
  apply tx_bind_Ok in Hr as (? & st11 & H11 & Hr). injection H11 as <- <-. injection Hr as <- <-.
  split; [|done]. split. by exists row, (deployments st7), row', number, t.
Qed.

Lemma retry_step who id source st s st' :
  retry who id source st = Ok (s, st') → consistent st.(deployments) →
  rtc db_step st.(deployments) st'.(deployments) ∧ holds_queued st'.(deployments) id
  ∧ s.(ds_id) = id.
Proof.
  intros Hr Hok. destruct (retry_spec _ _ _ _ _ _ Hr Hok)
    as [[(old & mid & old' & number & t & _ & _ & _ & _ & _ & Hstep & _ & Hf & [Hpos Hnew] & Hids & ->)] Hs].
  split_and!; [|eexists; split_and!; [apply elem_of_app; right; by apply list_elem_of_singleton|done..]|done].
  eapply rtc_l; [exact Hstep|]. apply rtc_once, db_admitted; try done.
  simpl. by rewrite (same_environment _ _ Hf).
Qed.

(** ** Forgetting *)

Lemma unknown_unadvanced nodes :
  nothing_advanced (run_with_nodes Run_default
    (bcollect (map (λ node, (target_id node, NodeUnknown)) nodes))).
Proof.
  unfold nothing_advanced, bcollect. cbn [run_with_nodes run_nodes].
  assert (∀ m : bmap string NodeStatus,
    (∀ n status, bget m n = Some status → advances status = false) → ∀ n status,
    bget (fold_left (λ m kv, binsert kv.1 kv.2 m) (map (λ node, (target_id node, NodeUnknown)) nodes) m)
      n = Some status → advances status = false) as Hm; [|apply Hm; done].
  induction nodes as [|node nodes IH]; simpl; [done|]. intros m Hm. apply IH.
  intros n status. rewrite bget_binsert. case_decide; [by intros [= <-]|apply Hm].
Qed.

Lemma forget_step id outcome st s st' :
  forget id outcome st = Ok (s, st') → consistent st.(deployments) →
  holds_queued st.(deployments) id → outcome = OutcomeNeverRan ∨ outcome = OutcomeForgotten →
  rtc db_step st.(deployments) st'.(deployments).
Proof.
  intros (loaded & st1 & (H1 & row & Hrow & Hid & Hv)%locked_views & Hf)%tx_bind_Ok Hok
    (row' & Hrow' & Hid' & Hq) Hout. rewrite <-H1 in *.
  assert (row' = row) as -> by (eapply same_id_unique; [apply Hok|..]; congruence).
  assert (row_ok row) as Hro by (by apply (proj1 (Forall_forall _ _) (rows_ok _ Hok))).
  destruct (queued_facts _ Hro Hq) as (_ & _ & _ & Hrun).
  apply tx_bind_Ok in Hf as (? & st2 & H2 & Hf). injection H2 as <- <-.
  apply tx_bind_Ok in Hf as (? & st3 & H3%keeps_advance & Hf).
  apply tx_bind_Ok in Hf as (t & st4 & H4%keeps_now & Hf).
  assert (st4.(deployments) = st1.(deployments)) as Hd by (rewrite H4; exact H3).
  rewrite <-Hd in *. eapply save_step; [exact Hf|done..| |];
    destruct (views_inv _ _ Hv) as (status & ? & -> & [->|[Hc _]]);
    try done; [|by rewrite Hq in Hc].
  eapply (move_forgotten _ _ outcome t); simpl; rewrite ?Hq; try done.
  - rewrite Hrun. apply unknown_unadvanced.
  - apply bwf_bcollect.
Qed.

Lemma forgettable_outcome environment servers st outcome st' :
  forgettable environment servers st = Ok (Some outcome, st') →
  outcome = OutcomeNeverRan ∨ outcome = OutcomeForgotten.
Proof.
  intros (last & st1 & _ & Hf)%tx_bind_Ok. injection Hf as Hf <-.
  destruct last; [destruct (no_servers servers)|]; simplify_eq; auto.
Qed.

Lemma keeps_forgettable environment servers : keeps (forgettable environment servers).
Proof. unfold forgettable, ran, last_ran. pose proof keeps_latest_where. solve_keeps. Qed.

Lemma admit_retry_step who id source servers st s st' :
  admit_retry who id source servers st = Ok (s, st') → consistent st.(deployments) →
  rtc db_step st.(deployments) st'.(deployments).
Proof.
  intros (retried & st1 & H1 & Ha)%tx_bind_Ok Hok.
  destruct (retry_step _ _ _ _ _ _ H1 Hok) as (Hsteps & Hq & Hid).
  apply tx_bind_Ok in Ha as (outcome & st2 & H2 & Ha). etrans; [exact Hsteps|].
  pose proof (db_steps_consistent _ _ Hsteps Hok) as Hok1. destruct outcome as [outcome|].
  - destruct (ds_remove retried); [|discriminate].
    pose proof (forgettable_outcome _ _ _ _ _ H2). apply keeps_forgettable in H2.
    rewrite <-H2 in *. rewrite Hid in Ha. by eapply forget_step.
  - apply tx_bind_Ok in Ha as (? & st3 & H3 & Ha). injection Ha as <- <-.
    assert (deployments st3 = deployments st1) as ->; [|done].
    transitivity (deployments st2).
    + revert H3. unfold runnable. destruct (no_servers servers); by intros [= <- <-].
    + destruct (ds_remove retried); [by apply keeps_forgettable in H2|by injection H2 as <-].
Qed.

Lemma removal_step who id environment servers reviewed closing st s st' :
  removal who id environment servers reviewed closing st = Ok (s, st') →
  (∀ forgotten, keeps (reviewed forgotten)) → keeps closing → consistent st.(deployments) →
  rtc db_step st.(deployments) st'.(deployments).
Proof.
  intros (? & st1 & H1%keeps_guard_removal & Hr)%tx_bind_Ok Hrev Hcl Hok.
  apply tx_bind_Ok in Hr as (running & st2 & H2 & Hr).
  assert (st2.(deployments) = st1.(deployments)) as Hd2.
  { revert H2. unfold in_flight. pose proof keeps_latest_where. apply keeps_bind; auto with keeps. }
  apply tx_bind_Ok in Hr as (? & st3 & H3 & Hr).
  assert (st3.(deployments) = st2.(deployments)) as Hd3.
  { destruct running as [running|]; [destruct (is_claimed _)|]; first [discriminate | by injection H3 as _ <-]. }
  apply tx_bind_Ok in Hr as (forgotten & st4 & H4 & Hr).
  pose proof (keeps_forgettable _ _ _ _ _ H4) as Hd4.
  apply tx_bind_Ok in Hr as (frozen & st5 & H5%Hrev & Hr).
  assert (st5.(deployments) = st.(deployments)) as Hd by congruence. rewrite <-Hd in *.
  apply tx_bind_Ok in Hr as (admitted & st6 & (Hsteps & Hq & Hid)%admit_step & Hr).
  apply tx_bind_Ok in Hr as (? & st7 & H7%Hcl & Hr). etrans; [exact Hsteps|].
  pose proof (db_steps_consistent _ _ Hsteps Hok) as Hok6. rewrite <-H7 in *.
  destruct forgotten as [outcome|]; [|by injection Hr as <- <-].
  rewrite Hid in Hr. eapply forget_step; [exact Hr|done..|by eapply forgettable_outcome].
Qed.
End Admitting.
