(* ===== verification/Teardown.v ===== *)
(** * Taking Environments off

    The commands of [ployz-store/src/teardown.rs]: removing an Environment or a
    Project once nothing of it may run, the Default Environment, and forgetting a
    Cluster.  Deleting an Environment deletes what it owns (the schema's
    [ON DELETE CASCADE], [storage/migrations/0001_config_store.sql]); what it owns
    in the tables of [World] goes by [world_purged].  An Environment is given
    resolved and locked ([scope::lock]). *)

From S2P Require Import Prelude BTree Strings Values Volumes ServiceGraph Spec Services.
From S2P Require Import Deploy Preview Execution RuntimeOutcome Config DeploymentStore Lifecycle.

Open Scope nat_scope.
Open Scope list_scope.

(** The tables outside, without what some Environments own; and once a Cluster is gone. *)
Class Cascades `{Platform} := {
  world_purged : list EnvironmentId → World → World;
  world_unplaced : OrganizationId → World → World
}.

Inductive Teardown (A : Type) : Type :=
| Removed (removed : A)
| Waiting (environment : string) (deployment : DeploymentId)
| NeedsRemoval (environment : string) (deployment : DeploymentId).
Arguments Removed {A} removed.
Arguments Waiting {A} environment deployment.
Arguments NeedsRemoval {A} environment deployment.

Section Teardown.
Context `{Cascades}.

Definition still_on_servers {A} (name : string) (deployment : DeploymentSummary) : Teardown A :=
  if status_in_flight deployment.(ds_status)
  then Waiting name deployment.(ds_id) else NeedsRemoval name deployment.(ds_id).

(** ** Deleting *)

(** An Environment that loses its Parent is no Branch any more. *)
Definition without_parent (gone : list EnvironmentId) (row : EnvironmentRow) : EnvironmentRow :=
  {| e_id := row.(e_id); e_project := row.(e_project); e_organization := row.(e_organization);
     e_name := row.(e_name); e_slug := row.(e_slug);
     e_parent := match row.(e_parent) with
                 | Some parent => if bool_decide (parent ∈ gone) then None else Some parent
                 | None => None
                 end |}.

Definition cascade (gone : list EnvironmentId) (st : Store) : Store :=
  let stays environment := negb (bool_decide (environment ∈ gone)) in
  let deployed := List.filter (λ row, stays row.(d_environment)) st.(deployments) in
  let left_deployment id := existsb (with_id id) deployed in
  {| deployments := deployed;
     applied_rows := List.filter (λ row, stays row.(a_environment)
                                         && left_deployment row.(a_deployment)) st.(applied_rows);
     build_rows := List.filter (λ row, left_deployment row.(b_deployment)) st.(build_rows);
     receipt_rows := List.filter (λ entry, stays entry.1.1) st.(receipt_rows);
     storage_rows := List.filter (λ entry, stays entry.1.1) st.(storage_rows);
     saved_rows := List.filter (λ entry, stays entry.1.1) st.(saved_rows);
     environment_rows := map (without_parent gone)
                           (List.filter (λ row, stays row.(e_id)) st.(environment_rows));
     project_rows := st.(project_rows);
     world := world_purged gone st.(world);
     tick := st.(tick) |}.

Definition purge (environment : EnvironmentId) : tx unit := tx_put (cascade [environment]).

Definition set_projects (rows : list ProjectRow) (st : Store) : Store :=
  {| deployments := st.(deployments); applied_rows := st.(applied_rows);
     build_rows := st.(build_rows); receipt_rows := st.(receipt_rows);
     storage_rows := st.(storage_rows); saved_rows := st.(saved_rows);
     environment_rows := st.(environment_rows); project_rows := rows;
     world := st.(world); tick := st.(tick) |}.

(** [DELETE FROM config_project]: its Environments go with it. *)
Definition purge_project (project : ProjectId) : tx unit :=
  tx_put (λ st,
    set_projects (List.filter (λ row, negb (String.eqb row.(p_id) project)) st.(project_rows))
      (cascade (map e_id (List.filter (λ row, String.eqb row.(e_project) project)
                            st.(environment_rows))) st)).

(** ** Removing an Environment *)

Definition guard (environment : EnvironmentRow) : tx unit :=
  let@ default := tx_get (λ st, List.filter (λ project, String.eqb project.(p_default_environment)
                                                          environment.(e_id)) st.(project_rows)) in
  match default with
  | _ :: _ => tx_fail (IsDefault environment.(e_name))
  | [] =>
      let@ branches := tx_get (λ st, sort_by_key e_name
                         (List.filter (λ row, bool_decide (row.(e_parent) = Some environment.(e_id)))
                            st.(environment_rows))) in
      match branches with
      | _ :: _ => tx_fail (HasBranches (map e_name branches))
      | [] => tx_ret ()
      end
  end.

Definition remove (environment : EnvironmentRow) : tx (Teardown EnvironmentRow) :=
  run@ guard environment in
  let@ on := on_servers environment.(e_id) in
  match on with
  | Some running => tx_ret (still_on_servers environment.(e_name) running)
  | None => run@ purge environment.(e_id) in tx_ret (Removed environment)
  end.

(** ** The removal an Environment is going through *)

(** [history(tx, environment, 1)]: the latest that was not superseded. *)
Definition latest (environment : EnvironmentId) : tx (option DeploymentSummary) :=
  latest_where environment (λ row, negb (bool_decide (row.(d_status) = StatusSuperseded))).

Definition latest_removal (environment : EnvironmentId) : tx (option DeploymentSummary) :=
  let@ last := latest environment in
  tx_ret (last ≫= λ last, if last.(ds_remove) then Some last else None).

Definition removing (environment : EnvironmentId) : tx (option DeploymentSummary) :=
  let@ removal := latest_removal environment in
  tx_ret (removal ≫= λ removal,
    match removal.(ds_status) with
    | StatusFailed | StatusCancelled => None
    | _ => Some removal
    end).

Definition with_default (environment : EnvironmentId) (row : ProjectRow) : ProjectRow :=
  {| p_id := row.(p_id); p_default_environment := environment |}.

(** The Project is the Environment's own: its name is unique in the Organization. *)
Definition set_default (environment : EnvironmentRow) : tx unit :=
  let@ removal := removing environment.(e_id) in
  match removal with
  | Some removal => tx_fail (BeingRemoved environment.(e_name) removal)
  | None =>
      tx_put (λ st, set_projects
        (map (λ row, if String.eqb row.(p_id) environment.(e_project)
                     then with_default environment.(e_id) row else row) st.(project_rows)) st)
  end.

(** ** Removing a Project *)

Fixpoint first_on_servers (members : list EnvironmentRow)
    : tx (option (EnvironmentRow * DeploymentSummary)) :=
  match members with
  | [] => tx_ret None
  | member :: members =>
      let@ on := on_servers member.(e_id) in
      match on with
      | Some running => tx_ret (Some (member, running))
      | None => first_on_servers members
      end
  end.

Definition remove_project (project : ProjectRow) : tx (Teardown (list string)) :=
  let@ members := members_of project.(p_id) in
  let order := teardown_order members project.(p_default_environment) in
  let@ on := first_on_servers order in
  match on with
  | Some (member, running) => tx_ret (still_on_servers member.(e_name) running)
  | None => run@ purge_project project.(p_id) in tx_ret (Removed (map e_name order))
  end.

(** ** Forgetting a Cluster *)

Definition forget_cluster (who : Actor) : tx (list DeploymentId) :=
  let organization := who.(who_organization) in
  let@ cancelled := cancel_in_flight who in
  run@ tx_put (λ st, set_world (world_unplaced organization st.(world))
         (set_applied (List.filter (λ row, negb (String.eqb row.(a_organization) organization))
                         st.(applied_rows)) st)) in
  run@ tx_put (λ st,
         let theirs := map e_id (List.filter (λ row, String.eqb row.(e_organization) organization)
                                   st.(environment_rows)) in
         set_storage (List.filter (λ entry, negb (bool_decide (entry.1.1 ∈ theirs)))
                        st.(storage_rows)) st) in
  tx_ret cancelled.
End Teardown.
