(* ===== verification/SampleStore.v ===== *)
(** * A small Store

    One concrete [Platform] with its neighbours, and a Project of a Default
    Environment with one Branch: the states on which the theorems about the Store
    are applied. *)

From S2P Require Import Prelude BTree Strings Values Volumes ServiceGraph Spec Services.
From S2P Require Import Deploy Preview Execution RuntimeOutcome Config DeploymentStore Lifecycle.
From S2P Require Import Teardown.

Open Scope string_scope.
Open Scope nat_scope.
Open Scope list_scope.

Module Sample.

(** A clock that starts at 1000 and advances a second at each reading. *)
#[global] Instance platform : Platform := {| World := unit; clock := λ n, (1000 + Z.of_nat n)%Z |}.

#[global] Instance neighbours : Neighbours :=
  {| evidence_digest := λ outcome _, match outcome with DeploySuccess _ => "success" | _ => "failed" end;
     show_error := λ _, "failed";
     branch_deployed := λ _ _ _ _, Ok ();
     branch_follow := λ _ _ _, Ok ();
     Handover := unit;
     hand_over := λ _ _, Ok () |}.

#[global] Instance cascades : Cascades :=
  {| world_purged := λ _ w, w; world_unplaced := λ _ w, w |}.

Definition prod : EnvironmentRow :=
  {| e_id := "prod"; e_project := "shop"; e_organization := "acme"; e_name := "production";
     e_slug := "production"; e_parent := None |}.

Definition preview : EnvironmentRow :=
  {| e_id := "pr-1"; e_project := "shop"; e_organization := "acme"; e_name := "preview";
     e_slug := "preview"; e_parent := Some "prod" |}.

Definition project : ProjectRow := {| p_id := "shop"; p_default_environment := "prod" |}.

Definition who : Actor := {| who_organization := "acme"; who_principal := None |}.

(** Nothing deployed yet; revision 1 of both Environments is saved. *)
Definition empty : Store :=
  {| deployments := []; applied_rows := []; build_rows := []; receipt_rows := [];
     storage_rows := [];
     saved_rows := [(("pr-1", 1%N), empty_environment "preview");
                    (("prod", 1%N), empty_environment "production")];
     environment_rows := [preview; prod]; project_rows := [project]; world := (); tick := 0 |}.

(** A Deployment with one Service, as admission freezes it. *)
Definition frozen (namespace : Namespace) : Frozen :=
  {| frozen_nodes := [TargetService "svc-web" "web" "web"]; frozen_namespace := namespace;
     frozen_credentials := []; frozen_cluster_domain := None; frozen_sourceless := [] |}.

(** What a transaction leaves, from a state it commits in. *)
Definition after {A} (c : tx A) (st : Store) : Store :=
  match c st with Ok (_, st') => st' | Err _ => st end.

Definition admitted : Store :=
  after (admit_deployment who "d1" [] None None "prod" 1%N (frozen "ns")) empty.
Definition claimed : Store := after (claim "d1" "runner-1") admitted.
Definition failed : Store := after (record "d1" "runner-1" (NotExecuted "no source")) claimed.

(** A preview in which nothing changes, recorded. *)
Definition no_change : DeployPreview :=
  {| storage := []; preview_namespace := "ns"; preview_operations := []; preview_warnings := [];
     volumes_to_create := []; preview_would_remove := []; preview_preserved_volumes := [];
     preview_prune_refusal := None |}.
Definition prepared : Store := after (record "d1" "runner-1" (Prepared no_change)) claimed.
End Sample.
