(* ===== verification/TeardownSafety.v ===== *)
(** * Teardown is safe, and never stuck

    Nothing is deleted while a Deployment of it may still run, or while what ran
    was not removed; and the order a Project's Environments come off in satisfies
    the guard of each removal. *)

From S2P Require Import Prelude BTree Strings Values Volumes ServiceGraph Spec Services.
From S2P Require Import Deploy Preview Execution RuntimeOutcome Config DeploymentStore Lifecycle.
From S2P Require Import LifecycleSpec LifecycleRefines Teardown SampleStore.

Open Scope string_scope.
Open Scope nat_scope.
Open Scope list_scope.

(** ** What on_servers tells *)

(** A removal of everything that applied. *)
Definition applied_removal (row : DeploymentRow) : Prop :=
  row.(d_saved) = NOTHING ∧ row.(d_status) = StatusApplied.

(** Nothing of [environment] may run at [t]: none is in flight, and whatever ran was
    removed since. *)
Record off_servers (t : Z) (rows : list DeploymentRow) (environment : EnvironmentId) : Prop := {
  off_in_flight row : row ∈ rows → row.(d_environment) = environment → in_flight_at t row = false;
  off_ran row : row ∈ rows → row.(d_environment) = environment → may_have_run row = true →
    ∃ last, last ∈ rows ∧ last.(d_environment) = environment ∧ applied_removal last
            ∧ (row.(d_number) ≤ last.(d_number))%N
}.

Section OnServers.
Context `{Platform}.
Implicit Types (row : DeploymentRow) (st : Store).

Lemma newest_first_head rows row rest :
  newest_first rows = row :: rest → row ∈ rows ∧ ∀ other, other ∈ rows → (other.(d_number) ≤ row.(d_number))%N.
Proof.
  intros Hn. assert (∀ other, other ∈ rows ↔ other ∈ row :: rest) as Hin.
  { intros other. rewrite <-Hn. unfold newest_first. by rewrite elem_of_stable_sort. }
  split; [apply Hin; set_solver|]. intros other [->|Ho]%Hin%elem_of_cons; [lia|].
  assert (StronglySorted (λ a b, (d_number b <=? d_number a)%N = true) (row :: rest)) as Hs.
  { rewrite <-Hn. unfold newest_first. apply stable_sort_sorted; intros; rewrite ?N.leb_le in *; lia. }
  apply StronglySorted_inv in Hs as [_ Hs]. rewrite Forall_forall in Hs.
  apply N.leb_le. by apply Hs.
Qed.

Lemma in_where (condition : DeploymentRow → bool) environment rows row :
  row ∈ List.filter (λ row, in_environment environment row && condition row) rows
  ↔ row ∈ rows ∧ row.(d_environment) = environment ∧ condition row = true.
Proof.
  rewrite list_elem_of_In, filter_In, <-list_elem_of_In, andb_true_iff.
  unfold in_environment. by rewrite String.eqb_eq.
Qed.

Lemma latest_where_None environment condition st st' :
  latest_where environment condition st = Ok (None, st') →
  st' = st ∧ ∀ row, row ∈ st.(deployments) → row.(d_environment) = environment → condition row = false.
Proof.
  intros (rows & st1 & Hg & Hl)%tx_bind_Ok. injection Hg as <- <-.
  destruct (newest_first _) as [|row rest] eqn:Hn.
  - injection Hl as <-. split; [done|]. intros row Hrow He.
    destruct (condition row) eqn:Hc; [|done]. exfalso.
    assert (row ∈ newest_first (List.filter (λ row, in_environment environment row && condition row)
      st.(deployments))) as Hx; [|rewrite Hn in Hx; set_solver].
    apply elem_of_stable_sort. by apply in_where.
  - apply tx_bind_Ok in Hl as (? & ? & _ & [=]).
Qed.

Lemma latest_where_Some environment condition st s st' :
  latest_where environment condition st = Ok (Some s, st') →
  ∃ row, row ∈ st.(deployments) ∧ row.(d_environment) = environment ∧ condition row = true
    ∧ (∀ other, other ∈ st.(deployments) → other.(d_environment) = environment →
         condition other = true → (other.(d_number) ≤ row.(d_number))%N)
    ∧ s = (read_row row s.(ds_status)).(summary)
    ∧ (s.(ds_status) = row.(d_status) ∨ is_claimed row.(d_status) = true ∧ s.(ds_status) = StatusUnknown).
Proof.
  intros (rows & st1 & Hg & Hl)%tx_bind_Ok. injection Hg as <- <-.
  destruct (newest_first _) as [|row rest] eqn:Hn; [discriminate|].
  apply newest_first_head in Hn as [Hrow Hmax]. apply in_where in Hrow as (Hrow & He & Hc).
  apply tx_bind_Ok in Hl as (loaded & ? & Hv & [= <- <-]).
  exists row. split_and!; try done.
  - intros other Ho Heo Hco. apply Hmax. by apply in_where.
  - destruct (stored_views _ _ _ _ Hv) as [Hs _]. by rewrite Hs at 1.
  - by destruct (stored_views _ _ _ _ Hv) as [_ Hs].
Qed.

Lemma on_servers_None environment st st' :
  on_servers environment st = Ok (None, st') →
  st'.(deployments) = st.(deployments)
  ∧ off_servers (clock st.(tick)) st.(deployments) environment.
Proof.
  intros Hon. split; [by eapply keeps_on_servers|].
  apply tx_bind_Ok in Hon as (running & st1 & Hin & Hon).
  destruct running; [discriminate|].
  apply tx_bind_Ok in Hin as (t & st0 & Hnow & Hin). injection Hnow as <- <-.
  apply latest_where_None in Hin as [-> Hin].
  apply tx_bind_Ok in Hon as (last & st2 & Hlast & Hran). injection Hran as Hran <-.
  split; [exact Hin|]. intros row Hrow He Hmay. destruct last as [last|].
  - apply latest_where_Some in Hlast as (newest & Hn & Hne & _ & Hmax & Hs & Hst).
    simpl in Hran. destruct (removed_it last) eqn:Hr; [|discriminate].
    apply andb_true_iff in Hr as [Hrem Happ%bool_decide_eq_true]. rewrite Hs in Hrem.
    simpl in Hrem. apply N.eqb_eq in Hrem. rewrite Happ in Hst.
    destruct Hst as [Hst|[_ [=]]]. exists newest. split_and!; [done|done|by split|by apply Hmax].
  - apply latest_where_None in Hlast as [_ Hnone]. by rewrite (Hnone row Hrow He) in Hmay.
Qed.

(** An Environment nothing of which can come back to run: no clock reading matters. *)
Record silent (rows : list DeploymentRow) (environment : EnvironmentId) : Prop := {
  silent_in_flight row : row ∈ rows → row.(d_environment) = environment →
    status_in_flight row.(d_status) = false;
  silent_ran row : row ∈ rows → row.(d_environment) = environment → may_have_run row = true →
    ∃ last, last ∈ rows ∧ last.(d_environment) = environment ∧ applied_removal last
            ∧ (row.(d_number) < last.(d_number) ∨ row = last)%N
}.

Lemma stored_settled row st loaded st' :
  stored row st = Ok (loaded, st') → is_claimed row.(d_status) = false →
  loaded = read_row row row.(d_status) ∧ st' = st.
Proof.
  unfold stored, lapsed. intros Hs Hc. rewrite Hc in Hs. by injection Hs as <- <-.
Qed.

Lemma latest_where_nothing environment condition st :
  (∀ row, row ∈ st.(deployments) → row.(d_environment) = environment → condition row = false) →
  latest_where environment condition st = Ok (None, st).
Proof.
  intros Hnone. unfold latest_where, tx_bind, tx_get. cbn [result_bind].
  destruct (newest_first _) as [|row rest] eqn:Hn; [done|]. exfalso.
  apply newest_first_head in Hn as [(Hrow & He & Hc)%in_where _]. by rewrite Hnone in Hc.
Qed.

Lemma silent_off environment st :
  silent st.(deployments) environment →
  on_servers environment st = Ok (None, set_tick (S st.(tick)) st).
Proof.
  intros [Hin Hran]. unfold on_servers, in_flight, tx_bind at 1 2, tx_now. cbn [result_bind].
  rewrite latest_where_nothing.
  2: { intros row Hrow He. specialize (Hin row Hrow He). unfold in_flight_at. by destruct (d_status row). }
  cbn [result_bind]. unfold ran, last_ran, tx_bind, latest_where, tx_bind, tx_get.
  cbn [result_bind]. destruct (newest_first _) as [|row rest] eqn:Hn; [done|].
  apply newest_first_head in Hn as [(Hrow & He & Hc)%in_where Hmax]. simpl in Hrow.
  destruct (Hran row Hrow He Hc) as (last & Hl & Hle & [Hsaved Hst] & Hlt).
  assert (d_number last ≤ d_number row)%N as Hle'.
  { apply Hmax, in_where. split_and!; [done..|]. unfold may_have_run.
    rewrite Hsaved, Hst. apply orb_true_r. }
  assert (row = last) as -> by (destruct Hlt as [?| ->]; [lia|done]).
  unfold stored, lapsed, tx_bind. rewrite Hst. cbn. unfold removed_it. cbn. by rewrite Hsaved.
Qed.
End OnServers.

(** ** Removing *)

Section Removing.
Context `{Cascades}.
Implicit Types (row : DeploymentRow) (st : Store).

(** What an Environment's deletion leaves of the Deployments. *)
Definition purged (gone : list EnvironmentId) (rows rows' : list DeploymentRow) : Prop :=
  rows' = List.filter (λ row, negb (bool_decide (row.(d_environment) ∈ gone))) rows.

Lemma guard_Ok environment st x st' :
  guard environment st = Ok (x, st') →
  st' = st
  ∧ (∀ project, project ∈ st.(project_rows) → project.(p_default_environment) ≠ environment.(e_id))
  ∧ (∀ branch, branch ∈ st.(environment_rows) → branch.(e_parent) ≠ Some environment.(e_id)).
Proof.
  intros (default & st1 & Hd & Hg)%tx_bind_Ok. injection Hd as <- <-.
  destruct (List.filter _ _) eqn:Hf in Hg; [|discriminate].
  apply tx_bind_Ok in Hg as (branches & st1 & Hb & Hg). injection Hb as <- <-.
  destruct (sort_by_key _ _) eqn:Hs; [|discriminate]. injection Hg as _ <-. split_and!; [done|..].
  - intros project Hp He. eapply (not_elem_of_nil project). rewrite <-Hf.
    apply list_elem_of_In, filter_In. split; [by apply list_elem_of_In|]. by apply String.eqb_eq.
  - intros row Hr He. eapply (not_elem_of_nil row). rewrite <-Hs. unfold sort_by_key.
    apply elem_of_stable_sort, list_elem_of_In, filter_In.
    split; [by apply list_elem_of_In|]. by apply bool_decide_eq_true.
Qed.

Lemma remove_spec environment st removed st' :
  remove environment st = Ok (removed, st') →
  match removed with
  | Removed _ =>
      off_servers (clock st.(tick)) st.(deployments) environment.(e_id)
      ∧ purged [environment.(e_id)] st.(deployments) st'.(deployments)
      ∧ (∀ project, project ∈ st.(project_rows) →
           project.(p_default_environment) ≠ environment.(e_id))
      ∧ (∀ branch, branch ∈ st.(environment_rows) → branch.(e_parent) ≠ Some environment.(e_id))
  | _ => st'.(deployments) = st.(deployments)
  end.
Proof.
  intros (? & st1 & (-> & Hd & Hb)%guard_Ok & Hr)%tx_bind_Ok.
  apply tx_bind_Ok in Hr as (on & st2 & Hon & Hr). destruct on as [running|].
  - apply keeps_on_servers in Hon. injection Hr as <- <-. unfold still_on_servers.
    by destruct (status_in_flight _).
  - apply on_servers_None in Hon as [Heq Hoff]. apply tx_bind_Ok in Hr as (? & st3 & Hp & Hr).
    injection Hp as <- <-. injection Hr as <- <-. split_and!; try done.
    unfold purged. simpl. by rewrite Heq.
Qed.

Lemma first_on_servers_None members st st' :
  first_on_servers members st = Ok (None, st') →
  st'.(deployments) = st.(deployments)
  ∧ ∀ member, member ∈ members →
      ∃ n, off_servers (clock n) st.(deployments) member.(e_id).
Proof.
  revert st. induction members as [|member members IH]; simpl; intros st Hf.
  - injection Hf as <-. set_solver.
  - apply tx_bind_Ok in Hf as (on & st1 & Hon & Hf). destruct on; [discriminate|].
    apply on_servers_None in Hon as [Hd Hoff]. apply IH in Hf as [Hd' Hall]. rewrite Hd in *.
    split; [done|]. intros other [->|Ho]%elem_of_cons; eauto.
Qed.
End Removing.

(** ** The order a Project comes off in *)

Lemma filter_shorter {A} (p q : A → bool) l :
  (∀ x, p x = true → q x = true) → length (List.filter p l) ≤ length (List.filter q l).
Proof.
  intros Hpq. induction l as [|x l IH]; simpl; [done|].
  destruct (p x) eqn:Hp; [rewrite (Hpq x Hp); simpl; lia|destruct (q x); simpl; lia].
Qed.

Lemma filter_strictly_shorter {A} (p q : A → bool) l x :
  (∀ x, p x = true → q x = true) → In x l → p x = false → q x = true →
  length (List.filter p l) < length (List.filter q l).
Proof.
  intros Hpq Hx Hp Hq. induction l as [|y l IH]; simpl in *; [done|].
  destruct Hx as [->|Hx].
  - rewrite Hp, Hq. simpl. pose proof (filter_shorter p q l Hpq). lia.
  - specialize (IH Hx). destruct (p y) eqn:Hpy; [rewrite (Hpq y Hpy); simpl; lia|].
    destruct (q y); simpl; lia.
Qed.

Section Order.
Context (members : list EnvironmentRow) (rank : EnvironmentId → nat).

(** A Branch is made from an Environment that exists: some rank decreases to the Parent. *)
Hypothesis made_from_parent :
  ∀ branch parent, parent_of members branch = Some parent → rank parent < rank branch.

Fixpoint parents_from (fuel : nat) (at_ : EnvironmentId) : list EnvironmentId :=
  match fuel with
  | O => []
  | S fuel => match parent_of members at_ with
              | Some parent => parent :: parents_from fuel parent
              | None => []
              end
  end.

Lemma ancestors_from_parents fuel at_ chain :
  (∀ seen, seen ∈ chain → rank at_ ≤ rank seen) →
  ancestors_from fuel members at_ chain = chain ++ parents_from fuel at_.
Proof using made_from_parent.
  revert at_ chain. induction fuel as [|fuel IH]; simpl; intros at_ chain Hseen; [by rewrite app_nil_r|].
  destruct (parent_of members at_) as [parent|] eqn:Hp; [|by rewrite app_nil_r].
  pose proof (made_from_parent _ _ Hp). rewrite bool_decide_eq_false_2.
  - rewrite IH, <-app_assoc; [done|].
    intros seen [Hs%Hseen| ->%list_elem_of_singleton]%elem_of_app; lia.
  - intros Hin%Hseen. lia.
Qed.

(** The members below a rank bound how long a chain can be. *)
Definition below (at_ : EnvironmentId) : nat :=
  length (List.filter (λ member, rank member.(e_id) <=? rank at_) members).

Lemma below_parent at_ parent : parent_of members at_ = Some parent → below parent < below at_.
Proof using made_from_parent.
  intros Hp. pose proof (made_from_parent _ _ Hp) as Hr. unfold parent_of in Hp.
  destruct (List.find _ _) as [member|] eqn:Hf; [|discriminate].
  apply find_some in Hf as [Hm Hid%String.eqb_eq]. unfold below.
  eapply (filter_strictly_shorter _ _ _ member); [|done|..].
  - intros x. rewrite !Nat.leb_le. lia.
  - rewrite Hid. apply Nat.leb_gt. lia.
  - rewrite Hid. by apply Nat.leb_le.
Qed.

Lemma parents_enough fuel at_ :
  below at_ ≤ fuel → parents_from (S fuel) at_ = parents_from fuel at_.
Proof using made_from_parent.
  revert at_. induction fuel as [|fuel IH]; intros at_ Hb.
  - simpl. destruct (parent_of members at_) as [parent|] eqn:Hp; [|done].
    pose proof (below_parent _ _ Hp). lia.
  - cbn [parents_from]. destruct (parent_of members at_) as [parent|] eqn:Hp; [|done].
    pose proof (below_parent _ _ Hp). f_equal. apply IH. lia.
Qed.

Lemma below_members at_ : below at_ ≤ length members.
Proof.
  unfold below. etrans; [apply (filter_shorter _ (λ _, true)); done|].
  rewrite List.filter_true. done.
Qed.

(** The Parent comes first, then the Parent's own. *)
Lemma ancestors_unfold at_ :
  ancestors members at_
  = match parent_of members at_ with
    | Some parent => parent :: ancestors members parent
    | None => []
    end.
Proof using made_from_parent.
  unfold ancestors. rewrite ancestors_from_parents by set_solver.
  destruct (parent_of members at_) as [parent|] eqn:Hp.
  - rewrite ancestors_from_parents by set_solver.
    rewrite (parents_enough (length members) parent) by apply below_members.
    cbn [app parents_from]. by rewrite Hp.
  - cbn [app parents_from]. by rewrite Hp.
Qed.

Lemma ancestors_rank at_ above : above ∈ ancestors members at_ → rank above < rank at_.
Proof using made_from_parent.
  remember (rank at_) as n eqn:Hn. revert at_ Hn.
  induction n as [n IH] using lt_wf_ind. intros at_ ->. rewrite ancestors_unfold.
  destruct (parent_of members at_) as [parent|] eqn:Hp; [|set_solver].
  pose proof (made_from_parent _ _ Hp). intros [->|Ha]%elem_of_cons; [done|].
  specialize (IH (rank parent) ltac:(lia) parent eq_refl Ha). lia.
Qed.

(** A Parent of an ancestor is an ancestor. *)
Lemma ancestors_closed at_ above parent :
  above ∈ at_ :: ancestors members at_ → parent_of members above = Some parent →
  parent ∈ ancestors members at_.
Proof using made_from_parent.
  remember (rank at_) as n eqn:Hn. revert at_ Hn.
  induction n as [n IH] using lt_wf_ind. intros at_ ->. rewrite ancestors_unfold.
  intros [->|Ha]%elem_of_cons Hp; [rewrite Hp; set_solver|].
  destruct (parent_of members at_) as [p|] eqn:Hpa; [|set_solver].
  pose proof (made_from_parent _ _ Hpa). apply elem_of_cons. right. by eapply (IH (rank p)).
Qed.

Context (default : EnvironmentId).

(** A Branch sorts strictly before its Parent. *)
Lemma branch_first branch parent :
  parent_of members branch.(e_id) = Some parent.(e_id) →
  teardown_le members default parent branch = false.
Proof using made_from_parent.
  intros Hp. pose proof (made_from_parent _ _ Hp) as Hrank.
  assert (length (ancestors members (e_id branch)) = S (length (ancestors members (e_id parent)))) as Hdepth.
  { rewrite ancestors_unfold, Hp. done. }
  assert (e_id branch ∈ default :: ancestors members default →
          e_id parent ∈ ancestors members default) as Hclosed.
  { intros Hb. by eapply ancestors_closed. }
  assert (teardown_class members default branch ≤ teardown_class members default parent) as Hclass.
  { unfold teardown_class. destruct (String.eqb_spec (e_id branch) default) as [Hb|Hb].
    - destruct (String.eqb_spec (e_id parent) default) as [Hd|Hd]; [lia|].
      rewrite bool_decide_eq_true_2; [lia|]. apply Hclosed. rewrite Hb. set_solver.
    - case_bool_decide as Ha; [|lia]. assert (e_id parent ∈ ancestors members default) as Hin
        by (apply Hclosed; set_solver).
      rewrite (bool_decide_eq_true_2 _ Hin).
      destruct (String.eqb_spec (e_id parent) default) as [Hd|Hd]; [|lia].
      apply ancestors_rank in Hin. rewrite Hd in Hin. lia. }
  unfold teardown_le. apply orb_false_iff. split; [apply Nat.ltb_ge; lia|].
  apply andb_false_iff. right. apply Nat.leb_gt. lia.
Qed.

(** The Default Environment sorts strictly after every other that is not its ancestor. *)
Lemma default_after_others environment other :
  environment.(e_id) = default → other.(e_id) ≠ default →
  other.(e_id) ∉ ancestors members default → teardown_le members default environment other = false.
Proof.
  intros He Ho Ha. unfold teardown_le, teardown_class.
  rewrite He, String.eqb_refl, (bool_decide_eq_false_2 _ Ha).
  rewrite (proj2 (String.eqb_neq _ _) Ho). done.
Qed.

Lemma teardown_le_total a b :
  teardown_le members default a b = true ∨ teardown_le members default b a = true.
Proof.
  unfold teardown_le.
  destruct (Nat.lt_trichotomy (teardown_class members default a) (teardown_class members default b))
    as [Hc|[Hc|Hc]].
  - left. by rewrite (proj2 (Nat.ltb_lt _ _) Hc).
  - rewrite Hc, Nat.eqb_refl, !andb_true_l.
    destruct (Nat.le_ge_cases (length (ancestors members (e_id b))) (length (ancestors members (e_id a))))
      as [Hl|Hl]; [left|right]; apply orb_true_iff; right; by apply Nat.leb_le.
  - right. by rewrite (proj2 (Nat.ltb_lt _ _) Hc).
Qed.

Lemma teardown_le_trans a b c :
  teardown_le members default a b = true → teardown_le members default b c = true →
  teardown_le members default a c = true.
Proof.
  unfold teardown_le. rewrite !orb_true_iff, !andb_true_iff, !Nat.ltb_lt, !Nat.eqb_eq, !Nat.leb_le.
  lia.
Qed.

(** What sorts strictly before a member comes before it. *)
Lemma order_before before environment after other :
  teardown_order members default = before ++ environment :: after → other ∈ members →
  teardown_le members default environment other = false → other ∈ before.
Proof.
  intros Ho Hin Hle. assert (other ∈ before ++ environment :: after) as Hx.
  { rewrite <-Ho. unfold teardown_order. by apply elem_of_stable_sort. }
  assert (StronglySorted (λ a b, teardown_le members default a b = true)
            (before ++ environment :: after)) as Hs.
  { rewrite <-Ho. apply stable_sort_sorted; [apply teardown_le_total|apply teardown_le_trans]. }
  apply elem_of_app in Hx as [Hx|Hx]; [done|]. exfalso.
  assert (StronglySorted (λ a b, teardown_le members default a b = true) (environment :: after)) as Hs'.
  { clear -Hs. induction before; [done|]. apply StronglySorted_inv in Hs as [? _]. auto. }
  apply elem_of_cons in Hx as [->|Hx].
  - unfold teardown_le in Hle. rewrite Nat.eqb_refl, Nat.leb_refl, orb_true_r in Hle. done.
  - apply StronglySorted_inv in Hs' as [_ Hall]. rewrite Forall_forall in Hall.
    rewrite Hall in Hle by done. done.
Qed.
End Order.

Section Projects.
Context `{Cascades}.
Implicit Types (st : Store).

Lemma members_of_Ok project st found st' :
  members_of project st = Ok (found, st') →
  st' = st ∧ ∀ member, member ∈ found ↔ member ∈ st.(environment_rows) ∧ member.(e_project) = project.
Proof.
  intros [= <- <-]. split; [done|]. intros member. unfold sort_by_key.
  rewrite elem_of_stable_sort, list_elem_of_In, filter_In, <-list_elem_of_In, String.eqb_eq. done.
Qed.

Lemma elem_of_order members default member :
  member ∈ teardown_order members default ↔ member ∈ members.
Proof. unfold teardown_order. apply elem_of_stable_sort. Qed.

Lemma keeps_first_on_servers members : keeps (first_on_servers members).
Proof. induction members as [|member members IH]; simpl; solve_keeps. Qed.

Lemma environments_first_on_servers members st x st' :
  first_on_servers members st = Ok (x, st') → st'.(environment_rows) = st.(environment_rows).
Proof.
  assert (∀ environment condition (st1 : Store) y st1',
    latest_where environment condition st1 = Ok (y, st1') →
    st1'.(environment_rows) = st1.(environment_rows)) as Hlatest.
  { intros environment condition st1 y st1' (rows & st2 & Hg & Hl)%tx_bind_Ok. injection Hg as <- <-.
    destruct (newest_first _) as [|row rest]; [by injection Hl as <- <-|].
    apply tx_bind_Ok in Hl as (loaded & st3 & Hs & Hl). injection Hl as <- <-.
    unfold stored, lapsed in Hs. destruct (is_claimed _); by injection Hs as <- <-. }
  revert st. induction members as [|member members IH]; simpl; intros st Hf.
  - by injection Hf as <- <-.
  - apply tx_bind_Ok in Hf as (on & st1 & Hon & Hf).
    assert (st1.(environment_rows) = st.(environment_rows)) as Hd.
    { apply tx_bind_Ok in Hon as (running & st2 & Hin & Hon).
      apply tx_bind_Ok in Hin as (t & st3 & Hnow & Hin). injection Hnow as <- <-.
      apply Hlatest in Hin. simpl in Hin. destruct running; [by injection Hon as <- <-|].
      apply tx_bind_Ok in Hon as (last & st4 & Hl%Hlatest & Hon). injection Hon as <- <-. congruence. }
    destruct on; [by injection Hf as <- <-|]. rewrite <-Hd. by apply IH.
Qed.

Lemma remove_project_spec project st removed st' :
  remove_project project st = Ok (removed, st') →
  match removed with
  | Removed _ =>
      let gone := map e_id (List.filter (λ member, String.eqb member.(e_project) project.(p_id))
                              st.(environment_rows)) in
      (∀ environment, environment ∈ gone →
         ∃ n, off_servers (clock n) st.(deployments) environment)
      ∧ purged gone st.(deployments) st'.(deployments)
  | _ => st'.(deployments) = st.(deployments)
  end.
Proof.
  intros (members & st1 & [-> Hm]%members_of_Ok & Hr)%tx_bind_Ok. cbv zeta in Hr.
  apply tx_bind_Ok in Hr as (on & st2 & Hon & Hr).
  pose proof (environments_first_on_servers _ _ _ _ Hon) as Henv.
  destruct on as [[member running]|].
  - apply keeps_first_on_servers in Hon. injection Hr as <- <-. unfold still_on_servers.
    by destruct (status_in_flight _).
  - apply first_on_servers_None in Hon as [Hd Hall].
    apply tx_bind_Ok in Hr as (? & st3 & Hp & Hr). injection Hp as <- <-. injection Hr as <- <-. split.
    + intros environment (member & -> & Hin)%list_elem_of_fmap. apply Hall, elem_of_order, Hm.
      by rewrite list_elem_of_In, filter_In, <-list_elem_of_In, String.eqb_eq in Hin.
    + unfold purged. simpl. by rewrite Hd, Henv.
Qed.

(** C29: Removing an Environment deletes it only when none of its Deployments may still run and
    whatever ran was removed since, it is not the Default Environment and has no Branch; it then
    deletes exactly the Deployments of that Environment, and otherwise none. *)
Theorem remove_only_off environment st removed st' :
  remove environment st = Ok (removed, st') →
  match removed with
  | Removed _ =>
      off_servers (clock st.(tick)) st.(deployments) environment.(e_id)
      ∧ purged [environment.(e_id)] st.(deployments) st'.(deployments)
      ∧ (∀ project, project ∈ st.(project_rows) →
           project.(p_default_environment) ≠ environment.(e_id))
      ∧ (∀ branch, branch ∈ st.(environment_rows) → branch.(e_parent) ≠ Some environment.(e_id))
  | _ => st'.(deployments) = st.(deployments)
  end.
Proof. apply remove_spec. Qed.

(** Removing a Project deletes it only when every Environment of it is off the Servers, and
    then deletes exactly the Deployments of its Environments. *)
Theorem remove_project_only_off project st removed st' :
  remove_project project st = Ok (removed, st') →
  match removed with
  | Removed _ =>
      let gone := map e_id (List.filter (λ member, String.eqb member.(e_project) project.(p_id))
                              st.(environment_rows)) in
      (∀ environment, environment ∈ gone →
         ∃ n, off_servers (clock n) st.(deployments) environment)
      ∧ purged gone st.(deployments) st'.(deployments)
  | _ => st'.(deployments) = st.(deployments)
  end.
Proof. apply remove_project_spec. Qed.

Lemma still_running_silent members st :
  (∀ member, member ∈ members → silent st.(deployments) member.(e_id)) →
  ∃ n, still_running members st = Ok ([], set_tick n st).
Proof.
  revert st. induction members as [|member members IH]; simpl; intros st Hs.
  - exists st.(tick). by destruct st.
  - unfold tx_bind. rewrite silent_off by (apply Hs; set_solver). cbn [result_bind].
    destruct (IH (set_tick (S st.(tick)) st)) as [n Hn].
    { intros other Ho. apply Hs. set_solver. }
    exists n. rewrite Hn. done.
Qed.

Lemma parent_of_member members branch parent :
  NoDup (map e_id members) → branch ∈ members → branch.(e_parent) = Some parent →
  parent_of members branch.(e_id) = Some parent.
Proof.
  intros Hnd Hb Hp. unfold parent_of.
  destruct (List.find _ members) as [found|] eqn:Hf.
  - apply find_some in Hf as [Hin Hid%String.eqb_eq]. apply list_elem_of_In in Hin.
    replace found with branch; [done|]. symmetry.
    clear Hp. induction members as [|m ms IH]; [set_solver|]. simpl in Hnd.
    apply NoDup_cons in Hnd as [Hn Hnd]. rewrite elem_of_cons in Hb, Hin.
    destruct Hb as [->|Hb], Hin as [->|Hin]; [done|..|by apply IH].
    + exfalso. apply Hn. rewrite <-Hid. by apply list_elem_of_fmap_2.
    + exfalso. apply Hn. rewrite Hid. by apply list_elem_of_fmap_2.
  - exfalso. apply list_elem_of_In in Hb. eapply find_none in Hf; [|exact Hb].
    by rewrite String.eqb_refl in Hf.
Qed.

Lemma guard_removal_passes project environment members st :
  List.find (λ row, String.eqb row.(p_id) environment.(e_project)) st.(project_rows) = Some project →
  project.(p_id) = environment.(e_project) →
  sort_by_key e_id (List.filter (λ row, String.eqb row.(e_project) environment.(e_project))
                      st.(environment_rows)) = members →
  (∀ branch, branch ∈ members → branch.(e_parent) = Some environment.(e_id) →
     silent st.(deployments) branch.(e_id)) →
  (environment.(e_id) = project.(p_default_environment) → ∀ other, other ∈ members →
     other.(e_id) ≠ environment.(e_id) → other.(e_id) ∉ ancestors members environment.(e_id) →
     silent st.(deployments) other.(e_id)) →
  ∃ st', guard_removal environment st = Ok ((), st').
Proof.
  intros Hfind Hid Hm Hbranches Hothers.
  unfold guard_removal, project_row, members_of, tx_bind, tx_get, tx_of. cbn [result_bind].
  rewrite Hfind. cbn [ok_or result_bind]. rewrite Hid, Hm.
  destruct (still_running_silent (List.filter (λ member,
    bool_decide (member.(e_parent) = Some environment.(e_id))) members) st) as [n ->].
  { intros branch [Hb Hp%bool_decide_eq_true]%list_elem_of_In%filter_In.
    apply Hbranches; [by apply list_elem_of_In|done]. }
  cbn [result_bind]. destruct (String.eqb_spec (e_id environment) (p_default_environment project))
    as [Hd|Hd]; simpl; [|by eexists].
  edestruct (still_running_silent (List.filter (λ member,
    negb (String.eqb member.(e_id) environment.(e_id))
    && negb (bool_decide (member.(e_id) ∈ ancestors members environment.(e_id)))) members)
    (set_tick n st)) as [m ->]; [|by eexists].
  intros other [Ho [Hne%negb_true_iff Ha%negb_true_iff]%andb_true_iff]%list_elem_of_In%filter_In.
  apply String.eqb_neq in Hne. apply bool_decide_eq_false in Ha.
  apply Hothers; [done|by apply list_elem_of_In|done|done].
Qed.

(** C30: A Project can always be taken off in its teardown order: once every Environment earlier in
    the order is off the Servers, the guard of the next one's removal passes.  So Branches
    come before their Parents and the Default Environment after all but its own Parents. *)
Theorem teardown_order_guarded project environment before after rank st :
  let members := sort_by_key e_id (List.filter (λ row, String.eqb row.(e_project) project.(p_id))
                                     st.(environment_rows)) in
  List.find (λ row, String.eqb row.(p_id) project.(p_id)) st.(project_rows) = Some project →
  NoDup (map e_id members) →
  (∀ branch parent, parent_of members branch = Some parent → rank parent < rank branch) →
  teardown_order members project.(p_default_environment) = before ++ environment :: after →
  (∀ earlier, earlier ∈ before → silent st.(deployments) earlier.(e_id)) →
  ∃ st', guard_removal environment st = Ok ((), st').
Proof.
  intros members Hfind Hnd Hrank Horder Hsilent.
  assert (environment ∈ members) as Hin.
  { apply (elem_of_order members (p_default_environment project)). rewrite Horder. set_solver. }
  assert (environment.(e_project) = project.(p_id)) as Hproj.
  { subst members. unfold sort_by_key in Hin. rewrite elem_of_stable_sort, list_elem_of_In in Hin.
    apply filter_In in Hin as [_ He]. by apply String.eqb_eq. }
  apply (guard_removal_passes project environment members); rewrite ?Hproj; try done.
  - intros branch Hb Hp. apply Hsilent. eapply order_before; [exact Horder|done|].
    eapply branch_first; [exact Hrank|]. by apply parent_of_member.
  - intros Hd other Ho Hne Ha. apply Hsilent. eapply order_before; [exact Horder|done|].
    apply default_after_others; [done|congruence|congruence].
Qed.
End Projects.

(** ** Witnesses *)

Lemma remove_only_off_witness :
  off_servers (clock 0) [] "pr-1"
  ∧ purged ["pr-1"] (deployments Sample.empty) [].
Proof.
  destruct (remove_only_off Sample.preview Sample.empty (Removed Sample.preview)
              (Sample.after (remove Sample.preview) Sample.empty) ltac:(vm_compute; reflexivity))
    as (Hoff & Hp & _).
  split; [exact Hoff|exact Hp].
Defined.

Lemma remove_project_only_off_witness :
  ∃ n, off_servers (clock n) [] "prod".
Proof.
  destruct (remove_project_only_off Sample.project Sample.empty
              (Removed ["preview"; "production"])
              (Sample.after (remove_project Sample.project) Sample.empty)
              ltac:(vm_compute; reflexivity)) as [Hoff _].
  apply (Hoff "prod"). apply list_elem_of_In. vm_compute. auto.
Defined.

Lemma teardown_order_guarded_witness :
  ∃ st', guard_removal Sample.prod Sample.empty = Ok ((), st').
Proof.
  apply (teardown_order_guarded Sample.project Sample.prod [Sample.preview] []
           (λ id, if String.eqb id "prod" then 0 else 1) Sample.empty).
  - reflexivity.
  - vm_compute. repeat constructor; set_solver.
  - intros branch parent. unfold parent_of.
    match goal with |- context [sort_by_key ?f ?l] =>
      change (sort_by_key f l) with [Sample.preview; Sample.prod] end. cbn -[String.eqb].
    destruct (String.eqb_spec "pr-1" branch) as [<-|Hb]; [intros [= <-]; vm_compute; lia|].
    destruct (String.eqb_spec "prod" branch); intros Hp; discriminate Hp.
  - vm_compute. reflexivity.
  - intros earlier _. split; cbn; set_solver.
Defined.
