(* ===== verification/Deployments.v ===== *)
(** * Deployments, over every sequence of operations

    The operations a Store's callers have on Deployments as one step relation,
    and what holds over any sequence of them: the Deployment state machine, the
    invariant of the table, and what a Deployment keeps once recorded. *)

From S2P Require Import Prelude BTree Strings Values Volumes ServiceGraph Spec Services.
From S2P Require Import Deploy Preview Execution RuntimeOutcome Config DeploymentStore Lifecycle.
From S2P Require Import LifecycleSpec LifecycleRefines Teardown SampleStore TeardownSafety.

Open Scope string_scope.
Open Scope nat_scope.
Open Scope list_scope.

(** ** Steps *)

Section Steps.
Context `{Platform} {neighbours : Neighbours} {cascades : Cascades}.

(** An operation on Deployments that commits.  The review of a removal and the mark of a
    closing Branch write other tables. *)
Inductive operation (st st' : Store) : Prop :=
| op_admit who id services upload message environment saved frozen s :
    admit_deployment who id services upload message environment saved frozen st = Ok (s, st') → operation st st'
| op_retry who id source servers s :
    admit_retry who id source servers st = Ok (s, st') → operation st st'
| op_removal who id environment servers reviewed closing s :
    (∀ forgotten, keeps (reviewed forgotten)) → keeps closing →
    removal who id environment servers reviewed closing st = Ok (s, st') → operation st st'
| op_start who id s : start who id st = Ok (s, st') → operation st st'
| op_claim id runner r : claim id runner st = Ok (r, st') → operation st st'
| op_cancel who id s : cancel who id st = Ok (s, st') → operation st st'
| op_record id runner evidence s : record id runner evidence st = Ok (s, st') → operation st st'
| op_forget_cluster who ids : forget_cluster who st = Ok (ids, st') → operation st st'
| op_elsewhere : st'.(deployments) = st.(deployments) → operation st st'.

(** Or an Environment, or a Project, is deleted. *)
Inductive lifecycle_step (st st' : Store) : Prop :=
| step_operation : operation st st' → lifecycle_step st st'
| step_remove environment removed :
    remove environment st = Ok (removed, st') → lifecycle_step st st'
| step_remove_project project removed :
    remove_project project st = Ok (removed, st') → lifecycle_step st st'.

(** The table's own steps: moves of the machine, or all rows of some Environments deleted. *)
Inductive table_step (rows rows' : list DeploymentRow) : Prop :=
| table_moves : rtc db_step rows rows' → table_step rows rows'
| table_purged gone : purged gone rows rows' → table_step rows rows'.

Lemma keeps_start who id : keeps (start who id).
Proof. unfold start. solve_keeps. Qed.

Lemma forget_cluster_step who st ids st' :
  forget_cluster who st = Ok (ids, st') → consistent st.(deployments) →
  rtc db_step st.(deployments) st'.(deployments).
Proof.
  intros (cancelled & st1 & Hc & Hf)%tx_bind_Ok Hok.
  apply tx_bind_Ok in Hf as (? & st2 & H2 & Hf). injection H2 as <- <-.
  apply tx_bind_Ok in Hf as (? & st3 & H3 & Hf). injection H3 as <- <-. injection Hf as <- <-.
  simpl. by eapply cancel_in_flight_step.
Qed.

Lemma operation_step st st' :
  operation st st' → consistent st.(deployments) →
  rtc db_step st.(deployments) st'.(deployments).
Proof.
  intros Hop Hok. destruct Hop.
  - by eapply admit_step.
  - by eapply admit_retry_step.
  - by eapply removal_step.
  - match goal with E : start _ _ _ = _ |- _ => apply keeps_start in E; by rewrite E end.
  - by eapply claim_step.
  - by eapply cancel_step.
  - by eapply record_step.
  - by eapply forget_cluster_step.
  - match goal with E : deployments _ = _ |- _ => by rewrite E end.
Qed.

Lemma lifecycle_table st st' :
  lifecycle_step st st' → consistent st.(deployments) →
  table_step st.(deployments) st'.(deployments).
Proof.
  intros [Hop|environment removed Hr%remove_spec|project removed Hr%remove_project_spec] Hok.
  - by apply table_moves, operation_step.
  - destruct removed; [destruct Hr as (_ & Hp & _); by eapply table_purged|..];
      rewrite Hr; by apply table_moves.
  - destruct removed; [destruct Hr as (_ & Hp); by eapply table_purged|..];
      rewrite Hr; by apply table_moves.
Qed.

Lemma purged_consistent gone rows rows' : purged gone rows rows' → consistent rows → consistent rows'.
Proof.
  intros -> [Hids Hrows Hnum Hq Hc].
  assert (∀ row, row ∈ List.filter (λ row, negb (bool_decide (row.(d_environment) ∈ gone))) rows →
    row ∈ rows) as Hin.
  { intros row [Hr _]%list_elem_of_In%filter_In. by apply list_elem_of_In. }
  split; [by apply NoDup_map_filter| |eauto..].
  rewrite Forall_forall in *. auto.
Qed.

Lemma table_step_consistent rows rows' : table_step rows rows' → consistent rows → consistent rows'.
Proof.
  intros [Hs|gone Hp]; [by apply db_steps_consistent|by eapply purged_consistent].
Qed.

Lemma empty_consistent : consistent [].
Proof. split; [constructor|constructor|set_solver..]. Qed.

(** C2: Every committed operation on Deployments, whatever its result, takes the table through
    moves of the Deployment state machine, or deletes all rows of some Environments. *)
Theorem lifecycle_refines st st' :
  lifecycle_step st st' → consistent st.(deployments) →
  table_step st.(deployments) st'.(deployments).
Proof. apply lifecycle_table. Qed.

(** C3: From an empty table, after any operations: Deployment ids and an Environment's numbers are
    unique; at most one Deployment of an Environment waits and it is the newest; at most one
    is claimed; a claimed one has its runner, an applied, failed or cancelled one (and no other)
    its end, and an applied or failed one its outcome. *)
Theorem deployments_consistent st st' :
  rtc lifecycle_step st st' → st.(deployments) = [] → consistent st'.(deployments).
Proof.
  intros Hsteps Hempty. assert (consistent st.(deployments)) as Hok
    by (rewrite Hempty; apply empty_consistent).
  clear Hempty. induction Hsteps as [|st st1 st' Hstep _ IH]; [done|].
  apply IH. eapply table_step_consistent; [by apply lifecycle_table|done].
Qed.
End Steps.

(** ** What a Deployment keeps *)

(** [b] is a later state of the Deployment [a]. *)
Record later (a b : DeploymentRow) : Prop := {
  later_frozen : same_frozen a b;
  later_runner runner : a.(d_runner) = Some runner → b.(d_runner) = Some runner;
  later_started t : a.(d_started) = Some t → b.(d_started) = Some t;
  later_preview preview : a.(d_run).(run_preview) = Some preview → b.(d_run).(run_preview) = Some preview;
  later_advanced n status : bget a.(d_run).(run_nodes) n = Some status → advances status = true →
    bget b.(d_run).(run_nodes) n = Some status;
  later_settled : status_in_flight a.(d_status) = false → b = a
}.

#[global] Instance later_refl : Reflexive later.
Proof. intros a. by split. Qed.

#[global] Instance later_trans : Transitive later.
Proof.
  intros a b c [Fab Rab Sab Pab Nab Eab] [Fbc Rbc Sbc Pbc Nbc Ebc]. split; [|eauto..|].
  - destruct Fab, Fbc. split; congruence.
  - intros Hs. specialize (Eab Hs). subst b. auto.
Qed.

(** Open what a move keeps. *)
Ltac destruct_move :=
  match goal with
  | H : same_course _ _ |- _ => destruct H
  | H : evidence_grows _ _ |- _ => destruct H
  end.

Lemma row_move_later a b : row_ok a → same_frozen a b → row_move a b → later a b.
Proof.
  intros Hok Hf Hm. destruct (row_move_status _ _ Hm) as (_ & _ & Hin).
  split; [done|..|by rewrite Hin].
  - intros runner Hr. destruct Hm; repeat (destruct_move); congruence.
  - intros t Ht. destruct Hm; repeat (destruct_move); congruence.
  - intros preview Hp. destruct Hm; repeat (destruct_move); try congruence; auto.
  - intros n status Hn Ha. destruct Hm; repeat (destruct_move); try congruence; auto.
    destruct (queued_facts a Hok ltac:(done)) as (_ & _ & _ & Hrun). by rewrite Hrun in Hn.
Qed.

Lemma row_next_later a b : row_ok a → row_next a b → later a b.
Proof.
  intros Hok [[->|[Hf Hm]]|[Hf [Hq _ Hrun _ _ _]]]; [done|by apply row_move_later|].
  destruct (queued_facts _ Hok Hq) as (Hr & Hs & _ & _).
  split; [done|..]; rewrite ?Hr, ?Hs, ?Hrun, ?Hq; done.
Qed.

Lemma db_steps_later rows rows' row :
  rtc db_step rows rows' → consistent rows → row ∈ rows → ∃ row', row' ∈ rows' ∧ later row row'.
Proof.
  intros Hsteps. revert row. induction Hsteps as [rows|rows rows1 rows' Hstep _ IH]; intros row Hok Hrow.
  - by exists row.
  - destruct (db_step_row _ _ _ Hstep Hrow) as (row1 & Hrow1 & Hnext).
    assert (later row row1) as Hl.
    { apply row_next_later; [|done]. by apply (proj1 (Forall_forall _ _) (rows_ok _ Hok)). }
    destruct (IH row1) as (row' & Hrow' & Hl'); [by eapply db_step_consistent|done|].
    exists row'. split; [done|by etrans].
Qed.

Section Course.
Context `{Platform} {neighbours : Neighbours} {cascades : Cascades}.

(** C13: Over any operations a Deployment stays, with everything its admission froze: its Saved
    revision, targets, Namespace, credentials, upload.  Its runner and start never change once
    set, a recorded preview stays, an advanced node stays advanced, and a Deployment that is not
    in flight never changes at all. *)
Theorem deployment_course st st' row :
  rtc operation st st' → consistent st.(deployments) → row ∈ st.(deployments) →
  ∃ row', row' ∈ st'.(deployments) ∧ later row row'.
Proof.
  intros Hsteps. revert row. induction Hsteps as [st|st st1 st' Hop _ IH]; intros row Hok Hrow.
  - by exists row.
  - pose proof (operation_step _ _ Hop Hok) as Hs.
    destruct (db_steps_later _ _ _ Hs Hok Hrow) as (row1 & Hrow1 & Hl).
    destruct (IH row1) as (row' & Hrow' & Hl'); [by eapply db_steps_consistent|done|].
    exists row'. split; [done|by etrans].
Qed.
End Course.

(** ** Witnesses *)

Lemma sample_admit :
  ∃ s, admit_deployment Sample.who "d1" [] None None "prod" 1%N (Sample.frozen "ns") Sample.empty
       = Ok (s, Sample.admitted).
Proof. eexists. vm_compute. reflexivity. Defined.

Lemma sample_claim : ∃ r, claim "d1" "runner-1" Sample.admitted = Ok (r, Sample.claimed).
Proof. eexists. vm_compute. reflexivity. Defined.

Lemma sample_admitted_consistent : consistent (deployments Sample.admitted).
Proof.
  destruct sample_admit as [s Hs]. eapply (db_steps_consistent []); [|apply empty_consistent].
  exact (proj1 (admit_step _ _ _ _ _ _ _ _ _ _ _ Hs)).
Defined.

Lemma sample_claimed_consistent : consistent (deployments Sample.claimed).
Proof.
  destruct sample_claim as [r Hr].
  eapply db_steps_consistent; [exact (claim_step _ _ _ _ _ Hr sample_admitted_consistent)|].
  exact sample_admitted_consistent.
Defined.

Lemma lifecycle_refines_witness :
  table_step (deployments Sample.admitted) (deployments Sample.claimed).
Proof.
  destruct sample_claim as [r Hr].
  apply (lifecycle_refines Sample.admitted Sample.claimed); [|exact sample_admitted_consistent].
  apply step_operation. exact (op_claim _ _ "d1" "runner-1" r Hr).
Defined.

Lemma deployments_consistent_witness : consistent (deployments Sample.claimed).
Proof.
  destruct sample_admit as [s Hs], sample_claim as [r Hr].
  apply (deployments_consistent Sample.empty Sample.claimed); [|reflexivity].
  eapply rtc_l; [exact (step_operation _ _ (op_admit _ _ _ _ _ _ _ _ _ _ s Hs))|].
  apply rtc_once, step_operation. exact (op_claim _ _ "d1" "runner-1" r Hr).
Defined.

Lemma deployment_course_witness :
  ∃ row row', row ∈ deployments Sample.admitted ∧ row' ∈ deployments Sample.claimed ∧ later row row'.
Proof.
  destruct sample_claim as [r Hr].
  assert (∃ row, deployments Sample.admitted = [row]) as [row Hrow]
    by (eexists; vm_compute; reflexivity).
  destruct (deployment_course Sample.admitted Sample.claimed row) as (row' & Hrow' & Hl).
  - apply rtc_once. exact (op_claim _ _ "d1" "runner-1" r Hr).
  - exact sample_admitted_consistent.
  - rewrite Hrow. set_solver.
  - exists row, row'. rewrite Hrow at 1. split_and!; [set_solver|done|done].
Defined.
