(* ===== verification/Recorded.v ===== *)
(** * What recording evidence does

    A runner's report is kept, and repeating it changes nothing; a waiting
    Deployment can be cancelled, and claimed and ended unless what a claim hands
    over cannot be read; a retry ships exactly what its source froze; and Applied
    State takes exactly the nodes that advanced. *)

From S2P Require Import Prelude BTree Strings Values Volumes ServiceGraph Spec Services.
From S2P Require Import Deploy Preview Execution RuntimeOutcome Config DeploymentStore Lifecycle.
From S2P Require Import LifecycleSpec LifecycleRefines Teardown SampleStore TeardownSafety.
From S2P Require Import Deployments Text.

Open Scope string_scope.
Open Scope nat_scope.
Open Scope list_scope.

(** ** Reading back *)

Section ReadBack.
Context `{Platform}.
Implicit Types (row : DeploymentRow) (loaded : Stored) (st : Store).

Lemma stored_total row st :
  ∃ loaded n, stored row st = Ok (loaded, set_tick n st) ∧ views row loaded.
Proof.
  destruct (stored row st) as [[loaded st']|] eqn:Hs.
  - exists loaded. pose proof (stored_views _ _ _ _ Hs) as Hv. unfold stored, lapsed in Hs.
    destruct (is_claimed (d_status row)); injection Hs as _ <-.
    + by exists (S st.(tick)).
    + exists st.(tick). by destruct st.
  - unfold stored, lapsed in Hs. by destruct (is_claimed (d_status row)).
Qed.

Lemma load_total row st :
  NoDup (map d_id st.(deployments)) → row ∈ st.(deployments) →
  ∃ loaded n, load row.(d_id) st = Ok (loaded, set_tick n st) ∧ views row loaded.
Proof.
  intros Hnd Hrow. unfold load, tx_bind, tx_get. cbn [result_bind].
  rewrite rows_with_id by done. apply stored_total.
Qed.

Lemma locked_total row st :
  NoDup (map d_id st.(deployments)) → row ∈ st.(deployments) →
  ∃ loaded n, locked row.(d_id) st = Ok (loaded, set_tick n st) ∧ views row loaded.
Proof.
  intros Hnd Hrow. unfold locked, tx_bind.
  destruct (load_total row st) as (? & n & -> & _); [done..|]. cbn [result_bind].
  destruct (load_total row (set_tick n st)) as (loaded & m & Hl & Hv); [done..|].
  exists loaded, m. split; [exact Hl|done].
Qed.

Lemma renewed_total loaded st :
  ∃ loaded' n, renewed loaded st = Ok (loaded', set_tick n st)
    ∧ loaded' = with_lease loaded loaded'.(st_lease).
Proof.
  unfold renewed. destruct (is_claimed _).
  - eexists _, (S st.(tick)). split; [reflexivity|done].
  - exists loaded, st.(tick). destruct loaded, st. done.
Qed.

Lemma save_row loaded row st s st' :
  save loaded st = Ok (s, st') → row ∈ st.(deployments) → loaded.(summary).(ds_id) = row.(d_id) →
  with_saved_columns loaded row ∈ st'.(deployments).
Proof.
  intros Hs Hrow Hid. rewrite (save_deployments _ _ _ _ Hs). apply list_elem_of_fmap.
  exists row. split; [|done]. unfold with_id. by rewrite Hid, String.eqb_refl.
Qed.
End ReadBack.

(** ** Replaying a report *)

Section Replay.
Context `{Neighbours}.
Implicit Types (row : DeploymentRow) (loaded : Stored) (st : Store).

(** The row holds the report. *)
Definition holds_report (evidence : RunEvidence) (row : DeploymentRow) : Prop :=
  match evidence with
  | Prepared preview =>
      ∃ redacted, redact_preview preview = Ok redacted ∧ row.(d_run).(run_preview) = Some redacted
  | Executed outcome removed =>
      is_Some row.(d_run).(run_outcome)
      ∧ row.(d_run).(run_executed) = Some (evidence_digest outcome removed)
  | NotExecuted reason =>
      row.(d_run).(run_outcome) = Some (OutcomeNotExecuted (take_chars 500 reason) [])
  | UploadNeeded services =>
      row.(d_run).(run_outcome)
      = Some (OutcomeNotExecuted (upload_reason row.(d_nodes) services) services)
  | _ => False
  end.

(** A preview or an outcome. *)
Definition is_report (evidence : RunEvidence) : bool :=
  match evidence with
  | Prepared _ | Executed _ _ | NotExecuted _ | UploadNeeded _ => true
  | _ => false
  end.

Lemma held_report_replays id runner evidence row st :
  NoDup (map d_id st.(deployments)) → row ∈ st.(deployments) → row.(d_id) = id →
  row.(d_runner) = Some runner → holds_report evidence row →
  ∃ s n, record id runner evidence st = Ok (s, set_tick n st).
Proof.
  intros Hnd Hrow <- Hrunner Hheld. unfold record, tx_bind.
  destruct (load_total row st) as (? & n1 & -> & _); [done..|]. cbn [result_bind].
  destruct (locked_total row (set_tick n1 st)) as (loaded & n2 & -> & Hv); [done..|].
  cbn [result_bind]. destruct (views_inv _ _ Hv) as (status & lease & -> & _).
  rewrite bool_decide_eq_true_2 by done. cbn [negb].
  destruct (renewed_total (with_lease (read_row row status) lease) (set_tick n2 (set_tick n1 st)))
    as (loaded & n3 & -> & ->). cbn [result_bind].
  destruct evidence; simpl in Hheld; try done; simpl.
  - destruct Hheld as (redacted & Hred & Hpre). unfold record_prepared. rewrite Hred. simpl.
    rewrite Hpre, bool_decide_eq_true_2 by done. by eexists _, n3.
  - destruct Hheld as ([out Hout] & Hex). unfold record_executed. simpl.
    rewrite Hout, Hex, bool_decide_eq_true_2 by done. by eexists _, n3.
  - unfold finish_deployment. simpl. rewrite Hheld, bool_decide_eq_true_2 by done. by eexists _, n3.
  - unfold finish_deployment. simpl. rewrite Hheld, bool_decide_eq_true_2 by done. by eexists _, n3.
Qed.

Lemma finish_holds loaded row run outcome status st s st' :
  finish_deployment (with_run loaded run) outcome status st = Ok (s, st') → views row loaded →
  row ∈ st.(deployments) →
  ∃ row', row' ∈ st'.(deployments) ∧ row'.(d_id) = row.(d_id) ∧ row'.(d_runner) = row.(d_runner)
    ∧ row'.(d_nodes) = row.(d_nodes)
    ∧ (run.(run_outcome) = Some outcome ∧ row' = row
       ∨ run.(run_outcome) = None ∧ row'.(d_run) = run_ended run outcome).
Proof.
  unfold finish_deployment. cbn [st_run with_run]. intros Hf Hv Hrow.
  destruct (views_inv _ _ Hv) as (? & ? & -> & _).
  destruct (run_outcome run) as [recorded|].
  - case_bool_decide; [|discriminate]. injection Hf as <- <-. subst. exists row. eauto 10.
  - apply tx_bind_Ok in Hf as (? & st1 & H1%keeps_running & Hf).
    apply tx_bind_Ok in Hf as (? & st2 & H2%keeps_advance & Hf).
    apply tx_bind_Ok in Hf as (t & st3 & H3%keeps_now & Hf).
    assert (st3.(deployments) = st.(deployments)) as Hd by congruence. rewrite <-Hd in Hrow.
    eexists. split; [by eapply save_row|]. simpl. eauto 10.
Qed.

Lemma finish_reports loaded row evidence outcome status st s st' :
  finish_deployment loaded outcome status st = Ok (s, st') → views row loaded → row ∈ st.(deployments) →
  (∀ row', row'.(d_nodes) = row.(d_nodes) → row'.(d_run).(run_outcome) = Some outcome →
     holds_report evidence row') →
  ∃ row', row' ∈ st'.(deployments) ∧ row'.(d_id) = row.(d_id) ∧ row'.(d_runner) = row.(d_runner)
    ∧ holds_report evidence row'.
Proof.
  intros Hf Hv Hrow Hout. rewrite <-(saved_evidence_same loaded) in Hf.
  destruct (finish_holds _ _ _ _ _ _ _ _ Hf Hv Hrow) as (row' & Hrow' & Hid & Hr & Hn & Hcase).
  exists row'. split_and!; [done..|]. apply Hout; [done|].
  destruct (views_inv _ _ Hv) as (? & ? & -> & _). simpl in Hcase.
  destruct Hcase as [[Ho ->]|[_ ->]]; [exact Ho|done].
Qed.

Lemma record_evidence_holds id loaded row evidence st s st' :
  record_evidence id loaded evidence st = Ok (s, st') → is_report evidence = true →
  views row loaded → row ∈ st.(deployments) →
  ∃ row', row' ∈ st'.(deployments) ∧ row'.(d_id) = row.(d_id) ∧ row'.(d_runner) = row.(d_runner)
    ∧ holds_report evidence row'.
Proof.
  intros Hr Hrep Hv Hrow. destruct evidence as [preview| |outcome removed|reason| | | |services|];
    try discriminate; simpl in Hr.
  - unfold record_prepared in Hr. destruct (redact_preview preview) as [redacted|[|]] eqn:Hred;
      [|discriminate..].
    destruct (views_inv _ _ Hv) as (status & lease & -> & _). simpl in Hr.
    destruct (run_preview (d_run row)) as [recorded|] eqn:Hpre.
    + case_bool_decide; [|discriminate]. injection Hr as <- <-. subst recorded.
      exists row. split_and!; [done..|]. simpl. eauto.
    + apply tx_bind_Ok in Hr as (? & st1 & H1%keeps_running & Hr).
      apply tx_bind_Ok in Hr as ([saved applied] & st2 & H2%keeps_documents & Hr).
      assert (st2.(deployments) = st.(deployments)) as Hd by congruence. rewrite <-Hd in Hrow.
      eexists. split; [by eapply save_row|]. simpl. eauto 10.
  - unfold record_executed in Hr. destruct (views_inv _ _ Hv) as (status & lease & Hl & _).
    destruct (run_outcome (st_run loaded)) as [recorded|] eqn:Hout.
    + case_bool_decide as Hex; [|discriminate]. injection Hr as <- <-. subst loaded.
      exists row. split_and!; [done..|]. simpl in *. rewrite Hout. eauto.
    + destruct (run_preview (st_run loaded)); [|discriminate].
      destruct (project_evidence _ _) as [projection|[|]]; [|discriminate..].
      apply tx_bind_Ok in Hr as ([saved applied] & st1 & H1%keeps_documents & Hr).
      rewrite <-H1 in Hrow.
      destruct (finish_holds _ _ _ _ _ _ _ _ Hr Hv Hrow) as (row' & Hrow' & Hid & Hrn & _ & Hcase).
      exists row'. split_and!; [done..|]. simpl in Hcase. rewrite Hout in Hcase.
      destruct Hcase as [[[=] _]|[_ Hrun]]. simpl. rewrite Hrun. simpl. eauto.
  - eapply finish_reports; [exact Hr|done..|]. intros row' _ Ho. exact Ho.
  - eapply finish_reports; [exact Hr|done..|]. intros row' Hn Ho. simpl. rewrite Ho, Hn.
    by destruct (views_inv _ _ Hv) as (? & ? & -> & _).
Qed.

Lemma record_holds id runner evidence st s st' :
  record id runner evidence st = Ok (s, st') → is_report evidence = true →
  ∃ row, row ∈ st'.(deployments) ∧ row.(d_id) = id ∧ row.(d_runner) = Some runner
    ∧ holds_report evidence row.
Proof.
  intros Hr Hrep. apply tx_bind_Ok in Hr as (? & st1 & H1%keeps_load & Hr).
  apply tx_bind_Ok in Hr as (loaded & st2 & (H2 & row & Hrow & Hid & Hv)%locked_views & Hr).
  destruct (negb _) eqn:Hrunner; [discriminate|].
  apply negb_false_iff, bool_decide_eq_true in Hrunner.
  apply tx_bind_Ok in Hr as (loaded' & st3 & H3 & Hr).
  destruct (renewed_views _ _ _ _ _ H3 Hv) as (H3' & Hv' & _).
  assert (row ∈ st3.(deployments)) as Hrow3 by (by rewrite H3', H2).
  destruct (record_evidence_holds _ _ _ _ _ _ _ Hr Hrep Hv' Hrow3) as (row' & Hrow' & Hid' & Hr' & Hh).
  exists row'. split_and!; [done|congruence| |done].
  destruct (views_inv _ _ Hv) as (? & ? & -> & _). simpl in Hrunner. congruence.
Qed.

(** A report of a preview or an outcome that was accepted can be repeated: the Store accepts it
    again and no table changes, whatever the lease or the status became. *)
Theorem record_replays id runner evidence st s st1 :
  record id runner evidence st = Ok (s, st1) → consistent st.(deployments) →
  is_report evidence = true →
  ∃ s' n, record id runner evidence st1 = Ok (s', set_tick n st1).
Proof.
  intros Hr Hok Hrep. destruct (record_holds _ _ _ _ _ _ Hr Hrep) as (row & Hrow & Hid & Hrn & Hh).
  eapply held_report_replays; [|done..]. eapply db_steps_consistent, Hok. by eapply record_step.
Qed.
End Replay.

Lemma record_replays_witness :
  is_report (NotExecuted "no source") = true
  ∧ ∃ s' n, record "d1" "runner-1" (NotExecuted "no source") Sample.failed
            = Ok (s', set_tick n Sample.failed).
Proof.
  split; [reflexivity|].
  eapply (record_replays "d1" "runner-1" (NotExecuted "no source") Sample.claimed _ Sample.failed).
  - vm_compute. reflexivity.
  - exact sample_claimed_consistent.
  - reflexivity.
Defined.

(** ** A waiting Deployment has a way out *)

Section Progress.
Context `{Neighbours}.
Implicit Types (row : DeploymentRow) (loaded : Stored) (st : Store).

(** Queued, a row is read without the clock. *)
Lemma locked_unclaimed row st :
  NoDup (map d_id st.(deployments)) → row ∈ st.(deployments) → is_claimed row.(d_status) = false →
  locked row.(d_id) st = Ok (read_row row row.(d_status), st).
Proof.
  intros Hnd Hrow Hc. unfold locked, load, tx_bind, tx_get. cbn [result_bind].
  rewrite rows_with_id by done. simpl. unfold stored, lapsed, tx_bind. rewrite Hc.
  cbn [result_bind tx_ret]. rewrite rows_with_id by done. simpl.
  unfold stored, lapsed, tx_bind. by rewrite Hc.
Qed.

(** Claimed within its lease, it reads as it is, and each read takes a clock reading. *)
Lemma load_leased row st :
  NoDup (map d_id st.(deployments)) → row ∈ st.(deployments) → is_claimed row.(d_status) = true →
  (clock st.(tick) < row.(d_lease))%Z →
  load row.(d_id) st = Ok (read_row row row.(d_status), set_tick (S st.(tick)) st).
Proof.
  intros Hnd Hrow Hc Hl. unfold load, tx_bind, tx_get. cbn [result_bind].
  rewrite rows_with_id by done. simpl. unfold stored, lapsed, tx_bind, tx_now. rewrite Hc. simpl.
  rewrite bool_decide_eq_false_2 by lia. done.
Qed.

Definition claimed_row row (runner : RunnerId) (t : Z) : DeploymentRow :=
  with_saved_columns
    (with_lease (with_summary (read_row row StatusQueued)
       (set_started (read_row row StatusQueued).(summary) runner t)) (t + LEASE)) row.

(** Claiming a waiting Deployment fails only where what it hands over cannot be read. *)
Lemma claim_queued_exact row runner st :
  consistent st.(deployments) → row ∈ st.(deployments) → row.(d_status) = StatusQueued →
  match claim row.(d_id) runner st with
  | Ok (Ok _, st1) => st1.(tick) = S st.(tick)
      ∧ claimed_row row runner (clock st.(tick)) ∈ st1.(deployments)
  | Ok (Err _, _) => False
  | Err e => ∃ st1 loaded, loaded.(summary).(ds_id) = row.(d_id) ∧ hand_over st1 loaded = Err e
  end.
Proof.
  intros Hok Hrow Hq. unfold claim, tx_bind.
  rewrite locked_unclaimed; [|apply Hok|done|by rewrite Hq]. cbn [result_bind summary read_row ds_status].
  rewrite Hq. unfold update_where, tx_put, tx_now, save, update_where, tx_put, tx_bind, hand_over_claim,
    tx_bind, tx_ret. cbn [result_bind].
  match goal with |- context [hand_over ?s ?l] => destruct (hand_over s l) as [handover|e] eqn:Hh end.
  - cbn [result_bind]. split; [reflexivity|]. simpl.
    apply list_elem_of_fmap. exists row. split.
    + unfold with_id, claimed_row. by rewrite String.eqb_refl.
    + apply list_elem_of_fmap. exists row. split; [|done]. by rewrite Hq, andb_false_r.
  - cbn [result_bind]. eexists _, _. split; [|exact Hh]. reflexivity.
Qed.

Lemma cancel_queued_total who row st :
  consistent st.(deployments) → row ∈ st.(deployments) → row.(d_status) = StatusQueued →
  who.(who_organization) = row.(d_organization) →
  ∃ s st1, cancel who row.(d_id) st = Ok (s, st1)
    ∧ s.(ds_status) = StatusCancelled ∧ s.(ds_ended_at) = Some (clock st.(tick)).
Proof.
  intros Hok Hrow Hq Hwho. unfold cancel, tx_bind.
  assert (owned who.(who_organization) row.(d_id) st = stored row st) as ->.
  { unfold owned, tx_bind, tx_get. cbn [result_bind]. rewrite <-filter_filter.
    rewrite rows_with_id by (done || apply Hok). simpl. by rewrite Hwho, String.eqb_refl. }
  unfold stored, lapsed, tx_bind. rewrite Hq. cbn [is_claimed result_bind tx_ret].
  rewrite locked_unclaimed; [|apply Hok|done|by rewrite Hq]. cbn [result_bind summary read_row ds_status].
  rewrite Hq. unfold tx_now, save, update_where, tx_put, tx_bind, tx_ret. cbn [result_bind].
  eexists _, _. split; [reflexivity|]. split; reflexivity.
Qed.

Lemma nothing_to_advance ended nodes : List.filter (is_advanced Run_default ended) nodes = [].
Proof. induction nodes; simpl; [done|]. done. Qed.

Lemma record_not_executed_total row runner reason st :
  NoDup (map d_id st.(deployments)) → row ∈ st.(deployments) → is_claimed row.(d_status) = true →
  row.(d_runner) = Some runner → row.(d_run) = Run_default →
  (∀ m, st.(tick) ≤ m ≤ st.(tick) + 2 → (clock m < row.(d_lease))%Z) →
  ∃ s st', record row.(d_id) runner (NotExecuted reason) st = Ok (s, st')
    ∧ s.(ds_status) = ending_status row.(d_status) StatusFailed
    ∧ s.(ds_outcome) = Some (OutcomeNotExecuted (take_chars 500 reason) []).
Proof.
  intros Hnd Hrow Hc Hr Hrun Hclock. unfold record, locked, tx_bind.
  rewrite load_leased; [|done..|apply Hclock; lia]. cbn [result_bind].
  rewrite load_leased; [|done..|apply Hclock; simpl; lia]. cbn [result_bind].
  rewrite load_leased; [|done..|apply Hclock; simpl; lia]. cbn [result_bind].
  cbn [summary read_row ds_runner]. rewrite Hr, bool_decide_eq_true_2 by done. cbn [negb].
  unfold renewed. cbn [summary read_row ds_status]. rewrite Hc. unfold tx_bind, tx_now, tx_ret.
  cbn [result_bind record_evidence]. unfold finish_deployment. cbn [st_run with_lease read_row]. rewrite Hrun.
  cbn [run_outcome Run_default]. unfold require_running, tx_bind. cbn [summary with_lease read_row ds_status].
  unfold end_deployment, tx_bind, advance. cbn [st_run with_lease read_row st_nodes].
  rewrite Hrun, nothing_to_advance.
  destruct (d_status row); try discriminate Hc; eexists _, _; (split; [reflexivity|done]).
Qed.

(** The Deployment ended without executing anything, for the reason its runner gave. *)
Definition ended_unexecuted (reason : string) (s : DeploymentSummary) : Prop :=
  s.(ds_status) = StatusFailed
  ∧ s.(ds_outcome) = Some (OutcomeNotExecuted (take_chars 500 reason) []).

(** C15: A waiting Deployment is never stuck: its Organization can cancel it, which ends it at
    once; and whatever else is claimed in its Environment, claiming it is never refused: either
    what a claim hands over cannot be read, and the claim fails with that error and keeps
    nothing, or the runner holds it and can end it within its lease as not executed, for the
    reason it gives. *)
Theorem queued_can_end row who runner reason st :
  consistent st.(deployments) → row ∈ st.(deployments) → row.(d_status) = StatusQueued →
  who.(who_organization) = row.(d_organization) →
  (∃ s st1, cancel who row.(d_id) st = Ok (s, st1)
     ∧ s.(ds_status) = StatusCancelled ∧ s.(ds_ended_at) = Some (clock st.(tick)))
  ∧ match claim row.(d_id) runner st with
    | Ok (Ok _, st1) =>
        (∀ m, st.(tick) < m ≤ st.(tick) + 3 → (clock m < clock st.(tick) + LEASE)%Z) →
        ∃ s st2, record row.(d_id) runner (NotExecuted reason) st1 = Ok (s, st2)
          ∧ ended_unexecuted reason s
    | Ok (Err _, _) => False
    | Err e => ∃ st1 loaded, loaded.(summary).(ds_id) = row.(d_id) ∧ hand_over st1 loaded = Err e
    end.
Proof.
  intros Hok Hrow Hq Hwho. split; [by apply cancel_queued_total|].
  pose proof (claim_queued_exact row runner st Hok Hrow Hq) as Hclaim.
  destruct (claim row.(d_id) runner st) as [[[claimed|] st1]|e] eqn:Hc; [|done|done].
  destruct Hclaim as [Ht Hrow1]. intros Hclock.
  assert (consistent st1.(deployments)) as Hok1.
  { eapply db_steps_consistent, Hok. by eapply claim_step. }
  assert (row_ok row) as Hro by (by apply (proj1 (Forall_forall _ _) (rows_ok _ Hok))).
  destruct (record_not_executed_total (claimed_row row runner (clock st.(tick))) runner reason st1)
    as (s & st2 & Hr & Hs & Ho); [apply Hok1|done|done|done|apply (queued_facts _ Hro Hq)|..].
  { simpl. rewrite Ht. intros m Hm. apply Hclock. lia. }
  by exists s, st2.
Qed.
End Progress.

Lemma queued_can_end_witness :
  ∃ row claimed st1 s st2, row ∈ deployments Sample.admitted
    ∧ claim row.(d_id) "runner-1" Sample.admitted = Ok (Ok claimed, st1)
    ∧ record row.(d_id) "runner-1" (NotExecuted "no source") st1 = Ok (s, st2)
    ∧ s.(ds_status) = StatusFailed.
Proof.
  assert (∃ row, deployments Sample.admitted = [row] ∧ row.(d_status) = StatusQueued
                 ∧ Sample.who.(who_organization) = row.(d_organization))
    as (row & Hrow & Hq & Hwho) by (eexists; split_and!; vm_compute; reflexivity).
  assert (row ∈ deployments Sample.admitted) as Hin by (rewrite Hrow; set_solver).
  destruct (queued_can_end row Sample.who "runner-1" "no source" Sample.admitted
              sample_admitted_consistent Hin Hq Hwho) as [_ Hclaim].
  destruct (claim row.(d_id) "runner-1" Sample.admitted) as [[[claimed|] st1]|e] eqn:Hc.
  - destruct Hclaim as (s & st2 & Hr & Hs & _).
    + intros m. change (tick Sample.admitted) with 1. cbn [clock Sample.platform]. unfold LEASE. lia.
    + by exists row, claimed, st1, s, st2.
  - destruct Hclaim.
  - destruct Hclaim as (st1 & loaded & _ & Hh). discriminate Hh.
Defined.

(** ** Retrying *)

Section Retrying.
Context `{Neighbours}.

(** A Deployment that did not apply: it failed, was cancelled, or its runner is gone or may
    be. *)
Definition unapplied (status : DeploymentStatus) : Prop :=
  status = StatusFailed ∨ status = StatusUnknown ∨ status = StatusCancelled
  ∨ is_claimed status = true.

(** A retry ships exactly what its source froze, in its Environment and as its Organization's own:
    Saved revision, Services, targets, Namespace, credentials, upload, Cluster Domain, message.
    Its source ended without applying or lost its runner, and no newer Deployment applied, so
    it rolls nothing back; it is numbered after every other. *)
Theorem retry_ships_frozen who id source st s st' :
  retry who id source st = Ok (s, st') → consistent st.(deployments) →
  ∃ old new, old ∈ st.(deployments) ∧ old.(d_id) = source
    ∧ new ∈ st'.(deployments) ∧ new.(d_id) = id ∧ new.(d_status) = StatusQueued
    ∧ old.(d_organization) = who.(who_organization)
    ∧ new = retried_row id new.(d_number) new.(d_admitted) who.(who_principal) old
    ∧ unapplied old.(d_status)
    ∧ (∀ other, other ∈ st.(deployments) → other.(d_environment) = old.(d_environment) →
         (other.(d_status) = StatusApplied → (other.(d_number) ≤ old.(d_number))%N)
         ∧ (other.(d_number) < new.(d_number))%N).
Proof.
  intros Hr Hok. destruct (retry_spec _ _ _ _ _ _ Hr Hok)
    as [[(old & mid & old' & number & t & Hold & Hid & Horg & Hst & Hnewer & Hstep & _ & Hf
          & [_ Hnew] & _ & ->)] _].
  exists old. eexists. split_and!; [done|done|apply elem_of_app; right; by apply list_elem_of_singleton|
    done|done|done| |done|].
  - destruct Hf. unfold retried_row. simpl. congruence.
  - intros other Ho He. split; [by apply Hnewer|].
    destruct (db_step_successor _ _ other Hstep Ho) as (other' & Ho' & Hf').
    simpl. rewrite <-(same_number _ _ Hf'). apply Hnew; [done|].
    by rewrite (same_environment _ _ Hf').
Qed.
End Retrying.

Lemma retry_ships_frozen_witness :
  ∃ s st' old new, retry Sample.who "d2" "d1" Sample.failed = Ok (s, st')
    ∧ old ∈ deployments Sample.failed ∧ new ∈ deployments st' ∧ new.(d_nodes) = old.(d_nodes).
Proof.
  assert (∃ s, record "d1" "runner-1" (NotExecuted "no source") Sample.claimed = Ok (s, Sample.failed))
    as [r Hrec] by (eexists; vm_compute; reflexivity).
  assert (∃ s st', retry Sample.who "d2" "d1" Sample.failed = Ok (s, st')) as (s & st' & Hr)
    by (eexists _, _; vm_compute; reflexivity).
  destruct (retry_ships_frozen Sample.who "d2" "d1" Sample.failed s st' Hr)
    as (old & new & Hold & _ & Hnew & _ & _ & _ & Heq & _).
  - eapply db_steps_consistent; [|exact sample_claimed_consistent].
    exact (record_step _ _ _ _ _ _ Hrec sample_claimed_consistent).
  - exists s, st', old, new. split_and!; [done..|]. by rewrite Heq.
Defined.

(** ** Applied State takes the nodes that advanced *)

(** The node Applied State holds. *)
Definition applied_at (rows : list AppliedRow) (environment : EnvironmentId) (node : string)
    : option AppliedNode :=
  a_node <$> List.find (with_deployed environment node) rows.

(** The node took effect on the Servers: it was deployed or removed, or the Deployment ended and
    found nothing to change. *)
Definition took_effect (run : Run) (ended : bool) (node : TargetNode) : Prop :=
  bget run.(run_nodes) (target_id node) = Some NodeDeployed
  ∨ bget run.(run_nodes) (target_id node) = Some NodeRemoved
  ∨ (ended = true ∧ bget run.(run_nodes) (target_id node) = Some NodeUnchanged).

Lemma is_advanced_true run ended node :
  is_advanced run ended node = true ↔ took_effect run ended node.
Proof.
  unfold is_advanced, took_effect. destruct (bget (run_nodes run) (target_id node)) as [[]|];
    destruct ended; simpl; naive_solver.
Qed.

Section Applied.
Context `{Neighbours}.
Implicit Types (st : Store).

Lemma with_deployed_true environment node row :
  with_deployed environment node row = true ↔ row.(a_environment) = environment ∧ row.(a_node_id) = node.
Proof. unfold with_deployed. by rewrite andb_true_iff, !String.eqb_eq. Qed.

Lemma with_deployed_other environment node environment' node' row :
  (environment, node) ≠ (environment', node') → with_deployed environment node row = true →
  with_deployed environment' node' row = false.
Proof.
  intros Hne [He Hn]%with_deployed_true. apply not_true_iff_false.
  intros [He' Hn']%with_deployed_true. congruence.
Qed.

Definition updated_row (id : DeploymentId) (applied : AppliedNode) (old : AppliedRow) : AppliedRow :=
  {| a_environment := old.(a_environment); a_node_id := old.(a_node_id);
     a_organization := old.(a_organization); a_deployment := id; a_node := applied |}.

Lemma applied_at_update rows id environment node applied environment' node' :
  is_Some (List.find (with_deployed environment node) rows) →
  applied_at (map (λ old, if with_deployed environment node old then updated_row id applied old else old) rows)
    environment' node'
  = if decide ((environment, node) = (environment', node')) then Some applied
    else applied_at rows environment' node'.
Proof.
  unfold applied_at. induction rows as [|row rows IH]; simpl; [by intros []|]. intros Hs.
  assert (with_deployed environment' node' (if with_deployed environment node row
            then updated_row id applied row else row) = with_deployed environment' node' row) as ->
    by (by destruct (with_deployed environment node row)).
  destruct (with_deployed environment node row) eqn:Hw.
  - case_decide as He.
    + injection He as <- <-. by rewrite Hw.
    + rewrite (with_deployed_other _ _ _ _ _ He Hw).
      clear IH Hs. induction rows as [|row' rows IH]; simpl; [done|].
      destruct (with_deployed environment node row') eqn:Hw'; simpl.
      * change (with_deployed environment' node' (updated_row id applied row'))
          with (with_deployed environment' node' row').
        by rewrite (with_deployed_other _ _ _ _ _ He Hw').
      * destruct (with_deployed environment' node' row'); [done|exact IH].
  - destruct (with_deployed environment' node' row) eqn:Hw'; [|by apply IH].
    case_decide as He; [|done]. injection He as -> ->. congruence.
Qed.

Lemma applied_at_append rows new environment' node' :
  List.find (with_deployed new.(a_environment) new.(a_node_id)) rows = None →
  applied_at (rows ++ [new]) environment' node'
  = if decide ((new.(a_environment), new.(a_node_id)) = (environment', node')) then Some new.(a_node)
    else applied_at rows environment' node'.
Proof.
  unfold applied_at. intros Hnone. induction rows as [|row rows IH]; simpl in *.
  - case_decide as He.
    + injection He as <- <-. by rewrite (proj2 (with_deployed_true _ _ _)).
    + destruct (with_deployed environment' node' new) eqn:Hw; [|done].
      apply with_deployed_true in Hw as [<- <-]. done.
  - destruct (with_deployed (a_environment new) (a_node_id new) row) eqn:Hr; [discriminate|].
    destruct (with_deployed environment' node' row) eqn:Hw; [|by apply IH].
    case_decide as He; [|done]. injection He as <- <-. congruence.
Qed.

Lemma applied_at_delete rows environment node environment' node' :
  applied_at (List.filter (λ row, negb (with_deployed environment node row)) rows) environment' node'
  = if decide ((environment, node) = (environment', node')) then None
    else applied_at rows environment' node'.
Proof.
  unfold applied_at. induction rows as [|row rows IH]; simpl; [by case_decide|].
  destruct (with_deployed environment node row) eqn:Hw; simpl.
  - rewrite IH. case_decide as He; [done|]. by rewrite (with_deployed_other _ _ _ _ _ He Hw).
  - destruct (with_deployed environment' node' row) eqn:Hw'; [|by apply IH].
    case_decide as He; [|done]. injection He as -> ->. congruence.
Qed.
End Applied.

Section Advancing.
Context `{Neighbours}.
Implicit Types (row : DeploymentRow) (loaded : Stored) (st : Store).

Lemma advance_node_applied loaded saved node row st x st' :
  advance_node loaded saved node st = Ok (x, st') →
  NoDup (map d_id st.(deployments)) → row ∈ st.(deployments) →
  loaded.(summary).(ds_id) = row.(d_id) → loaded.(summary).(ds_environment_id) = row.(d_environment) →
  st'.(deployments) = st.(deployments)
  ∧ ∀ environment n,
      applied_at st'.(applied_rows) environment n
      = if decide ((row.(d_environment), target_id node) = (environment, n)) then saved_node saved node
        else applied_at st.(applied_rows) environment n.
Proof.
  unfold advance_node. intros Ha Hnd Hrow Hid Henv.
  destruct (saved_node saved node) as [applied|] eqn:Hsaved.
  - apply tx_bind_Ok in Ha as (rows & st1 & Hg & Ha). injection Hg as <- <-.
    rewrite Hid, rows_with_id in Ha by done.
    apply tx_bind_Ok in Ha as (? & st2 & Hput & Ha). injection Ha as <- <-. injection Hput as <- <-.
    destruct (List.find _ _) as [old|] eqn:Hfind; simpl; (split; [done|]); intros environment n.
    + by rewrite <-(applied_at_update _ (d_id row)) by (by rewrite Hfind).
    + by rewrite applied_at_append.
  - injection Ha as <- <-. split; [done|]. intros environment n. simpl.
    by rewrite Henv, applied_at_delete.
Qed.

Lemma advance_nodes_applied loaded saved nodes row st x st' :
  tx_each nodes (advance_node loaded saved) st = Ok (x, st') →
  NoDup (map d_id st.(deployments)) → row ∈ st.(deployments) →
  loaded.(summary).(ds_id) = row.(d_id) → loaded.(summary).(ds_environment_id) = row.(d_environment) →
  NoDup (map target_id nodes) →
  (∀ node, node ∈ nodes →
     applied_at st'.(applied_rows) row.(d_environment) (target_id node) = saved_node saved node)
  ∧ (∀ environment n, environment ≠ row.(d_environment) ∨ n ∉ map target_id nodes →
       applied_at st'.(applied_rows) environment n = applied_at st.(applied_rows) environment n).
Proof.
  revert st x. induction nodes as [|node nodes IH]; simpl; intros st x He Hnd Hrow Hid Henv Hn.
  - injection He as <- <-. split; [set_solver|done].
  - apply tx_bind_Ok in He as (? & st1 & H1 & He). apply NoDup_cons in Hn as [Hnin Hn].
    destruct (advance_node_applied _ _ _ _ _ _ _ H1 Hnd Hrow Hid Henv) as [Hd Happ].
    rewrite <-Hd in Hnd, Hrow. destruct (IH _ _ He Hnd Hrow Hid Henv Hn) as [Hin Hout]. split.
    + intros other [->|Ho]%elem_of_cons; [|by apply Hin].
      rewrite Hout by (by right). rewrite Happ. by rewrite decide_True.
    + intros environment n Hne. rewrite Hout by set_solver. rewrite Happ.
      rewrite decide_False; [done|]. set_solver.
Qed.

Lemma applied_saved_at environment revision st saved st' :
  saved_at environment revision st = Ok (saved, st') → st'.(applied_rows) = st.(applied_rows).
Proof.
  unfold saved_at, environment_row. destruct (_ =? _)%N.
  - intros (? & ? & Hx & [= <- <-])%tx_bind_Ok. apply tx_bind_Ok in Hx as (? & ? & [= <- <-] & Hx).
    by apply result_bind_Ok in Hx as (? & _ & [= <- <-]).
  - intros (? & ? & [= <- <-] & Hx)%tx_bind_Ok. apply tx_bind_Ok in Hx as (? & ? & Hx & [= <- <-]).
    by apply result_bind_Ok in Hx as (? & _ & [= <- <-]).
Qed.

(** C14: When a Deployment's evidence advances Applied State, each of its targets that advanced is
    afterwards exactly as the Saved revision it ships has it (absent when the revision
    dropped it), and every other node of every Environment is as it was. *)
Theorem advance_exact loaded ended row st x st' :
  advance loaded ended st = Ok (x, st') → consistent st.(deployments) → row ∈ st.(deployments) →
  views row loaded → NoDup (map target_id loaded.(st_nodes)) →
  (∀ node, node ∈ loaded.(st_nodes) → took_effect loaded.(st_run) ended node →
     ∃ saved st1, saved_at row.(d_environment) row.(d_saved) st = Ok (saved, st1)
       ∧ applied_at st'.(applied_rows) row.(d_environment) (target_id node) = saved_node saved node)
  ∧ (∀ environment n,
       environment ≠ row.(d_environment)
       ∨ (∀ node, node ∈ loaded.(st_nodes) → target_id node = n →
            ¬ took_effect loaded.(st_run) ended node) →
       applied_at st'.(applied_rows) environment n = applied_at st.(applied_rows) environment n).
Proof.
  intros Ha Hok Hrow Hv Hnd. unfold advance in Ha.
  set (advanced := List.filter (is_advanced loaded.(st_run) ended) loaded.(st_nodes)) in *.
  assert (∀ node, node ∈ advanced ↔ node ∈ loaded.(st_nodes)
            ∧ took_effect loaded.(st_run) ended node) as Hadv.
  { intros node. unfold advanced. by rewrite elem_of_filterb, is_advanced_true. }
  assert (NoDup (map target_id advanced)) as Hnd' by (by apply NoDup_map_filter).
  clearbody advanced. destruct advanced as [|first rest] eqn:Hadvanced.
  { injection Ha as <- <-. split; [|done]. intros node Hn Hi. exfalso.
    eapply (not_elem_of_nil node). by apply Hadv. }
  rewrite <-Hadvanced in *. clear Hadvanced. cbv zeta in Ha.
  apply tx_bind_Ok in Ha as (saved & st1 & Hsaved & Ha).
  apply tx_bind_Ok in Ha as (? & st2 & Heach & Ha).
  assert (st'.(applied_rows) = st2.(applied_rows)) as Hfinal.
  { apply tx_bind_Ok in Ha as (? & st3 & Hw & Hw'). unfold tx_world in Hw, Hw'.
    apply result_bind_Ok in Hw as (w & _ & Hw). injection Hw as <- <-.
    apply result_bind_Ok in Hw' as (w' & _ & Hw'). by injection Hw' as <- <-. }
  destruct (views_inv _ _ Hv) as (status & lease & -> & _).
  assert (st1.(deployments) = st.(deployments)) as Hd by (by eapply keeps_saved_at).
  pose proof (applied_saved_at _ _ _ _ _ Hsaved) as Happ.
  rewrite <-Hd in Hrow. pose proof (ids_unique _ Hok) as Hids. rewrite <-Hd in Hids.
  destruct (advance_nodes_applied _ _ _ row _ _ _ Heach Hids Hrow eq_refl eq_refl Hnd') as [Hin Hout].
  rewrite Hfinal. split.
  - intros node Hn Hi. exists saved, st1. split; [exact Hsaved|]. apply Hin, Hadv. done.
  - intros environment n Hne. rewrite Hout, Happ; [done|].
    destruct Hne as [Hne|Hne]; [by left|right]. intros (node & -> & Hx)%list_elem_of_fmap.
    apply Hadv in Hx as [Hx Hi]. by apply (Hne node).
Qed.
End Advancing.

Lemma advance_exact_witness :
  ∃ loaded st1 x st' saved,
    load "d1" Sample.prepared = Ok (loaded, st1) ∧ advance loaded true Sample.prepared = Ok (x, st')
    ∧ applied_at st'.(applied_rows) "prod" "svc-web"
      = saved_node saved (TargetService "svc-web" "web" "web").
Proof.
  assert (∃ s, record "d1" "runner-1" (Prepared Sample.no_change) Sample.claimed = Ok (s, Sample.prepared))
    as [r Hrec] by (eexists; vm_compute; reflexivity).
  assert (∃ row loaded st1, deployments Sample.prepared = [row] ∧ d_environment row = "prod"
    ∧ load "d1" Sample.prepared = Ok (loaded, st1)
    ∧ st_nodes loaded = [TargetService "svc-web" "web" "web"]
    ∧ is_advanced (st_run loaded) true (TargetService "svc-web" "web" "web") = true
    ∧ ∃ x st', advance loaded true Sample.prepared = Ok (x, st'))
    as (row & loaded & st1 & Hrow & Henv & Hl & Hn & Hi & x & st' & Ha)
    by (eexists _, _, _; split_and!; [vm_compute; reflexivity..|eexists _, _; vm_compute; reflexivity]).
  destruct (load_views _ _ _ _ Hl) as (row' & Hin & _ & Hv). rewrite Hrow in Hin.
  apply list_elem_of_singleton in Hin as ->.
  destruct (advance_exact loaded true row Sample.prepared x st' Ha) as [Hadv _].
  - eapply db_steps_consistent; [|exact sample_claimed_consistent].
    exact (record_step _ _ _ _ _ _ Hrec sample_claimed_consistent).
  - rewrite Hrow. by apply list_elem_of_singleton.
  - exact Hv.
  - rewrite Hn. apply NoDup_singleton.
  - destruct (Hadv (TargetService "svc-web" "web" "web")) as (saved & ? & _ & Hx);
      [rewrite Hn; by apply list_elem_of_singleton|by apply is_advanced_true|].
    rewrite Henv in Hx. by exists loaded, st1, x, st', saved.
Defined.

(** ** A build report repeated *)

(** A pinned build of the claimed Deployment. *)
Definition sample_building : Store :=
  set_builds [{| b_deployment := "d1"; b_service := "web"; b_organization := "acme";
                 b_commit := Some "c0ffee"; b_status := BuildPending; b_message := None;
                 b_log := "" |}] Sample.claimed.

Definition report_build : tx DeploymentSummary :=
  record "d1" "runner-1" (BuildProgress "web" Building None "step 1").

(** Recording the same build report again changes the build's log: it is appended twice. *)
Lemma build_report_repeats :
  map b_log (build_rows (Sample.after report_build sample_building)) = ["step 1"]
  ∧ map b_log (build_rows (Sample.after report_build (Sample.after report_build sample_building)))
    = ["step 1step 1"].
Proof. split; vm_compute; reflexivity. Qed.
